(* ===== verification/_CoqProject ===== *)
-Q . S2P
Prelude.v
BTree.v
Domain.v
StatStore.v
StatSource.v
Samples.v
Progression.v
ActorState.v
StatsApi.v
StatsRecompute.v
StatsOps.v
StatsResources.v
StatsSync.v
Hydrate.v
StatsSafety.v
Recovery.v
Float.v
Combat.v
CombatTiming.v
Wire.v
Protocol.v
GamePacket.v
Codec.v
Connection.v
Token.v
Handshake.v
Space.v
Entities.v
Database.v
Persist.v
Text.v
Coords.v
MapPort.v
Layout.v
Packets.v
Adapters.v
Encode.v
Commands.v
Interact.v
Session.v
Phases.v
InGameSession.v
SessionLogic.v
Footprints.v
SessionPresence.v
SessionLease.v
Channel.v
Outbox.v
Replication.v
Grid.v
Reachability.v
Segment.v
Planner.v
SimTime.v
Motion.v
Aoi.v
SimTypes.v
SimWorld.v
SimSample.v
SimLife.v
SimQuery.v
SimAction.v
SimCombat.v
SimAi.v
SimReplication.v
SimPresence.v
SimSave.v
SimVitals.v
SimIntents.v
SimSpawn.v
SimRewards.v
SimSchedule.v
SimSafe.v
SimActors.v
SimUpkeep.v
SimAsked.v
SimComing.v
SimSafety.v
Content.v
AuthServer.v
