(* ===== verification/Prelude.v ===== *)
(** * zohar-rs: a verified model of the game server's core

    zohar-rs is a server for a role-playing game with an unchanged legacy
    client: an authentication server and a game server built from a handful
    of crates under src/crates/.  This library models the parts of those
    crates that carry the program's own logic and proves what makes them
    correct.  The code is read at the level of its functions: a Rust function
    becomes a Rocq function of the same name, [&mut self] becomes an argument
    and a result, [Option] and [Result] become [option] and sums, and a panic
    is a result of its own wherever the code can reach one.

    ** The parts and how they interact

    A client connection passes through phases (handshake, login, select,
    loading, in-game).  The network crates frame and decode packets; the game
    server's handlers drive the phases, load the player and hand it to the
    simulation of its map over a channel; the simulation owns the entities,
    runs combat, navigation and replication, and sends events back; changed
    players are saved by a persistence worker; the gameplay crate supplies the
    rules (statistics, experience, recovery, damage).

    - Foundations.  [Prelude] (machine integers, panics, lists, iteration
      orders of hash maps), [BTree] (BTreeMap as its in-order association
      list), [Float] (binary32 and binary64 arithmetic over the Standard
      Library's SpecFloat, and facts on it), [Samples] (concrete inputs used by
      witnesses), [Channel] (the interface of a bounded message channel).
    - Domain data, zohar-domain: [Domain], [Space], [Entities].
    - Statistics, zohar-gameplay/src/stats: [StatStore] (value array and
      modifier ledger), [StatSource] (formulas and limits), [ActorState]
      (an actor's stored values), [StatsApi] (views, snapshots, every
      operation of GameStatsApi and ActorStatsRuntime), and the theorems on
      them by topic: [StatsRecompute], [StatsOps] (the operations as data, and
      the resources under their caps over any sequence of them), [StatsResources],
      [StatsSync] (what a client that receives the drained changes knows).
      [Hydrate], [Progression], [Recovery] are player_rules.rs,
      progression.rs and recovery.rs.
    - Combat, zohar-gameplay/src/combat.rs and combat/timing.rs: [Combat],
      [CombatTiming].
    - Protocol, zohar-protocol and zohar-net: [Wire] (the interface [Wire]
      of a packet type with its laws), [Protocol] (control packets),
      [GamePacket] (packet fields, router, early phases), [Codec] (decoders,
      sequencer, receive loop), [Connection] (phase-typed connections),
      [Handshake] (clock synchronisation), [Token] (login tokens).
    - Packet bodies: [Layout] (fields and their laws, what the binrw macros
      generate), [Text] (UTF-8 and C strings), [Packets] (every packet family
      after the handshake, zohar-protocol/src/game_pkt and auth_pkt.rs).
    - Navigation, zohar-sim/src/navigation: [Grid], [Reachability],
      [Segment], [Planner].
    - Simulation infrastructure, zohar-sim and zohar-map-port: [MapPort]
      (message types), [Outbox] (the bounded event queue of a player),
      [Replication] (who sees whom), [SimTime] (instants and ticker clocks),
      [Motion] (movement rules), [Aoi] (the spatial index).
    - The simulation, zohar-sim/src/runtime.  [SimTypes] holds components,
      facts and commands; [SimWorld] the world (typed components of entities,
      resources, change marks) and a monad [Sim A = World -> option (A * World)]
      in which every system is written, [None] being a panic, with what a read
      finds after a write; [SimSample] is a concrete environment.  One file per group of
      systems: [SimLife], [SimQuery], [SimAction], [SimCombat], [SimAi],
      [SimReplication], [SimPresence], [SimSave], [SimVitals], [SimIntents],
      [SimSpawn], [SimRewards]; [SimSchedule] composes them into a tick in the
      order of schedule.rs and plugins.rs.
    - The safety of the simulation.  [StatsSafety] is an invariant of actors'
      stats under which no operation panics; [SimSafe] the invariant of a
      map's world, the program logic [wp] of its systems and the tactics that
      follow a system's code; [SimActors] (life, actions, combat, mob
      decisions), [SimUpkeep] (replication, saving, vitals), [SimAsked]
      (intents, projection, rewards, portals, chat) and [SimComing] (spawns,
      cleanup, entering, leaving, startup) run every system through it, and
      [SimSafety] puts them together.
    - Persistence, zohar-core/src/runtime/player_persistence.rs and
      zohar-sim/src/persistence.rs: [Persist], a step relation.
    - Database, zohar-db/src/postgres_backend/queries.rs: [Database], the SQL
      statements as functions of tables (gmaps of rows).
    - Game server, zohar-gamesrv/src: [Coords] (maps and positions),
      [Adapters] (domain to wire), [Encode] (events to packets), [Commands]
      (slash commands), [Interact] (the effects of a handler, as an
      interaction tree), [Session] and [Phases] (login, select, loading),
      [InGameSession] (the game phase, and a connection through all its phases).
      [SessionLogic] and [Footprints] are the program logic of the session,
      [SessionPresence] and [SessionLease] its theorems.  The drain controller
      (drain.rs, and the polling of zohar-core/src/runtime/shutdown.rs) is
      Module Drain of [Session].
    - Content, zohar-content/src/types and loaders, and
      zohar-core/src/adapters/content.rs and bootstrap/content.rs: [Content],
      from the rows of the content database to the configuration a map of the
      simulation starts with.
    - Authentication server, zohar-authsrv/src/auth_srv.rs and
      zohar-net/src/connection/auth_conn.rs: [AuthServer].

    ** What the theorems show

    - Statistics: any sequence of operations keeps an actor's resources within
      their caps, and from there a write to one panics exactly when its minimum
      lies over the cap; a recompute is a function of the stored values, reports exactly
      what changed, is idempotent, and panics exactly when a computed cap is
      negative; the resource operations have their functional behaviour on
      every branch; a client that merges the drained synchronisations holds
      the server's snapshot; queued recovery terminates with nothing lost.
    - Rules: gaining experience conserves it and hands out the level and step
      rewards it crosses; accumulators do not drift; stamina timers
      alternate; damage and attack timing have their closed forms.
    - Network: encoding then decoding a stream gives the packets back, for any
      fragmentation; every packet family is self-delimiting; a wrong sequence
      byte is rejected; phases change only as the protocol allows and carry
      the identity of the session; the handshake's retry budget is kept on
      every run, a client that echoes gets in exactly if it is in time, and none
      after 74 days; events of the map become valid packets exactly when they
      fit the wire format, and what happens to those that do not.
    - Database and sessions: rows stay well formed; a snapshot written is the
      one read; a commit of an exit is all or nothing; a writer whose version
      is old changes nothing; a lease has one holder.  A connection, whatever
      its environment answers, releases or keeps its lease as its outcome says
      and leaves no character on a map after it.
    - Navigation: a path returned walks over standable cells only and ends at
      the goal; the component labelling is reachability; segment walks
      terminate.
    - Simulation infrastructure and persistence: the outbox delivers every
      reliable event in order, interleaved with movements of which each
      entity's newest is never lost; the
      replication graph is a symmetric relation kept by its two indexes; a
      ticker clock loses no time; the persistence worker saves a player's
      snapshots in the order they were accepted, the last one without fail
      unless the database refused it and who waits is told, answers no sender
      twice, and drains on shutdown unless one of its tasks panicked, when it
      never does; start positions chosen for a player lie on the maps they
      name.
    - Simulation: the queues of a player stay bounded; an autosave sends
      exactly the current snapshot and forgets a change only once it is sent;
      delayed attacks are neither lost nor doubled; stat points are conserved.
      Startup, every message and every tick run to their end: the simulation
      of a map never panics.
    - Content: the texts of each enumeration are distinct and name all of its
      values; terrain that loading keeps is terrain the navigator accepts; rows
      of a group are gathered in their order; loading a map's content succeeds,
      fails or panics exactly on the rows stated, and the migrations split and
      apply their scripts in order; and content within stated bounds meets
      what the simulation asks, so that a map starts on it.
    - Authentication: a token is granted exactly to the password of an existing
      account, and only after the handshake; every refusal is the same; the
      upgrade of a stored hash keeps the login and happens once.
    - Draining: connections are counted in any interleaving, the signal is
      given at most once, and one given with no listener is lost; polling ends
      the server once and at the latest after the grace period.

    ** Parameters

    Code outside src/ is an argument of the definitions that use it, with the
    laws the code relies on as hypotheses of the theorems that need them: the
    HMAC of login tokens, the clap parser, the A* search of the pathfinding
    crate (it returns a path of successors), hypot, random growth rolls, the
    bounded channel of tokio ([Mpsc] with [MpscLaws]) and its watch channel
    ([Watch] with [WatchLaws]), password hashes ([Argon2] with [Argon2Laws]),
    SQLite's execution of a migration with SHA-256 ([Sqlite]), the zstd decoder, the parser of the bitflags crate, the database's answer to
    a write in the worker, the answers a session's effects get, and the
    iteration order of hash maps (any duplicate-free listing).  The simulation
    takes its environment as a class [SimEnv] with [SimEnvLaws]: vector
    functions, random numbers, the grid of flat_spatial, the order of a query,
    unstable sorts and reply channels.  The 32 KiB sequence table of pkt_seq.rs
    is an argument as well: the theorems hold for any non-empty table.

    ** Fuel

    Decoding loops take the bytes left as fuel, each turn consuming at least
    one ([Codec]); the experience loop takes the levels left below the maximum,
    each turn but the last raising the level ([Progression]); the flood fill
    takes the number of cells, each entering the queue at most once
    ([Reachability]); a segment walk takes width + height + 1 turns, each moving
    the cursor along an axis inside the grid ([Segment]); pruning takes the
    number of anchors left ([Planner]); a ticker clock takes the cadences
    between its due time and the present ([SimTime]); the spawn loop takes the
    entries of its heap, as those it adds are due later, and the preload the
    instances missing ([SimSpawn]).  Lack of fuel is a result of its own where
    it can occur, and theorems show that it does not.

    ** Not modelled

    Sockets, Kubernetes, NATS, Agones, configuration, process start-up and the
    threads of the maps are input and output, as are the queries of the content
    database, which SQLite runs (a loader starts from the rows; of the migrations,
    Module Migrations of [Content] has which scripts are found, how they are split,
    applied and recorded);
    the remote inspection of a map (runtime/admin.rs) reads the world for a
    developer's tool; the panic of rand on a float range that is empty or not
    finite is not part of [RandomSource]; the Bevy scheduler is third-party, and
    systems it may reorder within a set are run in the order they are listed;
    tracing and
    metrics are left out everywhere. *)
From stdpp Require Export base functions list strings fin_maps gmap.
From Stdlib Require Export ZArith Lia Bool.
From Stdlib Require Export Sorted.
From stdpp Require Export sorting.

#[global] Open Scope Z_scope.

(** ** Machine integers

    A Rust integer is a [Z] together with the range its type allows.  The
    services are built with [cargo build --release], so [+], [-], [*] wrap
    around; [saturating_*] and [as] casts are written out. *)

Definition i32_min : Z := -2147483648.
Definition i32_max : Z := 2147483647.
Definition u8_max : Z := 255.
Definition u32_max : Z := 4294967295.
Definition i64_min : Z := -9223372036854775808.
Definition i64_max : Z := 9223372036854775807.
Definition u64_max : Z := 18446744073709551615.
Definition i128_min : Z := - 2 ^ 127.
Definition i128_max : Z := 2 ^ 127 - 1.
Definition u128_max : Z := 2 ^ 128 - 1.

(** Reduction to a signed two's-complement integer of [w] bits, and to an
    unsigned one: the value of an [as] cast, and of wrapping arithmetic. *)
Definition wrap_s (w z : Z) : Z := (z + 2 ^ (w - 1)) mod 2 ^ w - 2 ^ (w - 1).
Definition wrap_u (w z : Z) : Z := z mod 2 ^ w.

Definition is_i32 (z : Z) : Prop := i32_min <= z <= i32_max.
Definition is_u8 (z : Z) : Prop := 0 <= z <= u8_max.
Definition is_u32 (z : Z) : Prop := 0 <= z <= u32_max.
Definition is_i64 (z : Z) : Prop := i64_min <= z <= i64_max.
Definition is_u64 (z : Z) : Prop := 0 <= z <= u64_max.

(** Wrapping [i32] arithmetic of the release build. *)
Definition add32 (a b : Z) : Z := wrap_s 32 (a + b).
Definition sub32 (a b : Z) : Z := wrap_s 32 (a - b).
Definition mul32 (a b : Z) : Z := wrap_s 32 (a * b).

Declare Scope rust_scope.
Delimit Scope rust_scope with rust.
Infix "+%" := add32 (at level 50, left associativity) : rust_scope.
Infix "-%" := sub32 (at level 50, left associativity) : rust_scope.
Infix "*%" := mul32 (at level 40, left associativity) : rust_scope.
(** [a / b] on Rust integers truncates toward zero. *)
Infix "/%" := Z.quot (at level 40, left associativity) : rust_scope.
#[global] Open Scope rust_scope.

(** [Ord::clamp] with constant bounds in order; [clamp] is the general one,
    which panics ([None]) when the lower bound exceeds the upper one. *)
Definition clampc (v lo hi : Z) : Z := Z.max lo (Z.min v hi).
Definition clamp (v lo hi : Z) : option Z :=
  if lo <=? hi then Some (clampc v lo hi) else None.

(** Saturating arithmetic: the exact result clamped to the type's range. *)
Definition sat_i32 (z : Z) : Z := clampc z i32_min i32_max.
Definition sat_i64 (z : Z) : Z := clampc z i64_min i64_max.
Definition sat_i128 (z : Z) : Z := clampc z i128_min i128_max.

(** ** Results

    [Result<T, E>] is [result]; a panic is [None] of an [option] around it,
    so the option monad of stdpp sequences code that can panic. *)
Inductive result (A E : Type) : Type :=
| Ok (a : A)
| Err (e : E).
Arguments Ok {A E} a.
Arguments Err {A E} e.

Definition is_ok {A E} (r : result A E) : bool :=
  match r with Ok _ => true | Err _ => false end.

(** The [?] operator. *)
Definition rbind {A B E} (r : result A E) (k : A -> result B E) : result B E :=
  match r with Ok a => k a | Err e => Err e end.
Notation "'let?' x := r 'in' k" := (rbind r (fun x => k))
  (at level 200, x pattern, r at level 100, k at level 200) : rust_scope.

(** ** Code that mutates a state, returns a [Result] and can panic

    [M S E A]: from a state, either a panic ([None]) or the new state with the
    result; [?] returns early and keeps the state written so far. *)
Definition M (S E A : Type) : Type := S -> option (S * result A E).

Section Monad.
Context {S E : Type}.

Definition ret {A} (a : A) : M S E A := fun s => Some (s, Ok a).
Definition throw {A} (e : E) : M S E A := fun s => Some (s, Err e).
Definition bind {A B} (m : M S E A) (k : A -> M S E B) : M S E B := fun s =>
  match m s with
  | None => None
  | Some (s', Ok a) => k a s'
  | Some (s', Err e) => Some (s', Err e)
  end.
(** Read the state; a call that does not panic; a value that may be a panic. *)
Definition reads {A} (f : S -> result A E) : M S E A := fun s => Some (s, f s).
Definition call {A} (f : S -> S * result A E) : M S E A := fun s => Some (f s).
Definition or_panic {A} (o : option A) : M S E A := fun s =>
  match o with None => None | Some a => Some (s, Ok a) end.
(** [.expect(..)] on the result of a call. *)
Definition expect {A} (m : M S E A) : M S E A := fun s =>
  match m s with Some (s', Ok a) => Some (s', Ok a) | _ => None end.
End Monad.
Notation "'let!' x ':=' m 'in' k" := (bind m (fun x => k))
  (at level 200, x pattern, m at level 100, k at level 200) : rust_scope.

(** Arithmetic stays folded under [cbn] and [simpl]. *)
#[global] Arguments Z.add : simpl never.
#[global] Arguments Z.sub : simpl never.
#[global] Arguments Z.mul : simpl never.
#[global] Arguments Z.opp : simpl never.
#[global] Arguments Z.div : simpl never.
#[global] Arguments Z.modulo : simpl never.
#[global] Arguments Z.quot : simpl never.
#[global] Arguments Z.rem : simpl never.
#[global] Arguments Z.pow : simpl never.
#[global] Arguments Z.min : simpl never.
#[global] Arguments Z.max : simpl never.
#[global] Arguments clampc : simpl never.
#[global] Arguments wrap_s : simpl never.
#[global] Arguments wrap_u : simpl never.

(** ** Automation *)

Create HintDb rust discriminated.

Ltac unfold_widths :=
  unfold is_i32, is_u8, is_u32, is_i64, is_u64, i32_min, i32_max, u8_max, u32_max,
    i64_min, i64_max, u64_max in *.

(** Case analysis on the boolean comparisons and [decide]s of a model. *)
Ltac case_bools :=
  repeat match goal with
  | H : context [if ?b then _ else _] |- _ => destruct b eqn:?
  | |- context [if ?b then _ else _] => destruct b eqn:?
  end.

Ltac zbool :=
  repeat match goal with
  | H : (_ <=? _) = true |- _ => apply Z.leb_le in H
  | H : (_ <=? _) = false |- _ => apply Z.leb_gt in H
  | H : (_ <? _) = true |- _ => apply Z.ltb_lt in H
  | H : (_ <? _) = false |- _ => apply Z.ltb_ge in H
  | H : (_ =? _) = true |- _ => apply Z.eqb_eq in H
  | H : (_ =? _) = false |- _ => apply Z.eqb_neq in H
  | H : (_ >=? _) = true |- _ => rewrite Z.geb_leb in H
  | H : (_ >=? _) = false |- _ => rewrite Z.geb_leb in H
  | H : (_ >? _) = true |- _ => rewrite Z.gtb_ltb in H
  | H : (_ >? _) = false |- _ => rewrite Z.gtb_ltb in H
  | H : (_ && _)%bool = true |- _ => apply andb_prop in H as [? ?]
  | H : (_ || _)%bool = false |- _ => apply orb_false_elim in H as [? ?]
  | H : negb _ = true |- _ => apply negb_true_iff in H
  | H : negb _ = false |- _ => apply negb_false_iff in H
  end.

(** Take an equation between [option] computations apart. *)
Ltac inv_some :=
  repeat match goal with
  | H : Some _ = Some _ |- _ => injection H as H; subst
  | H : None = Some _ |- _ => discriminate H
  | H : Some _ = None |- _ => discriminate H
  | H : Ok _ = Ok _ |- _ => injection H as H; subst
  | H : Err _ = Ok _ |- _ => discriminate H
  | H : Ok _ = Err _ |- _ => discriminate H
  | H : (_, _) = (_, _) |- _ => injection H as H; subst
  end.

(** ** Facts about the widths *)

Lemma wrap_s_range w z : 0 < w -> - 2 ^ (w - 1) <= wrap_s w z < 2 ^ (w - 1).
Proof.
  intros Hw. unfold wrap_s.
  assert (2 ^ w = 2 * 2 ^ (w - 1)) as E.
  { replace w with (1 + (w - 1)) at 1 by lia. rewrite Z.pow_add_r; lia. }
  pose proof (Z.mod_pos_bound (z + 2 ^ (w - 1)) (2 ^ w)) as B.
  assert (0 < 2 ^ (w - 1)) by (apply Z.pow_pos_nonneg; lia). lia.
Qed.

Lemma wrap32_range z : is_i32 (wrap_s 32 z).
Proof. pose proof (wrap_s_range 32 z eq_refl) as B. cbn in B. unfold_widths. lia. Qed.

Lemma wrap32_id z : is_i32 z -> wrap_s 32 z = z.
Proof.
  intros H. unfold wrap_s. unfold_widths. change (2 ^ (32 - 1)) with 2147483648.
  change (2 ^ 32) with 4294967296. rewrite Z.mod_small; lia.
Qed.

Lemma add32_range a b : is_i32 (a +% b).
Proof. apply wrap32_range. Qed.
Lemma sub32_range a b : is_i32 (a -% b).
Proof. apply wrap32_range. Qed.
Lemma mul32_range a b : is_i32 (a *% b).
Proof. apply wrap32_range. Qed.

Lemma add32_id a b : is_i32 (a + b) -> a +% b = a + b.
Proof. apply wrap32_id. Qed.
Lemma sub32_id a b : is_i32 (a - b) -> a -% b = a - b.
Proof. apply wrap32_id. Qed.
Lemma mul32_id a b : is_i32 (a * b) -> a *% b = a * b.
Proof. apply wrap32_id. Qed.

Lemma wrap32_idem_add_l a b : wrap_s 32 (wrap_s 32 a + b) = wrap_s 32 (a + b).
Proof.
  unfold wrap_s. generalize (2 ^ (32 - 1)) as h. generalize (2 ^ 32) as n. intros n h.
  replace ((a + h) mod n - h + b + h) with ((a + h) mod n + b) by lia.
  rewrite Zplus_mod_idemp_l. do 2 f_equal. lia.
Qed.

Lemma add32_comm a b : a +% b = b +% a.
Proof. unfold add32. by rewrite Z.add_comm. Qed.

Lemma add32_assoc a b c : a +% (b +% c) = a +% b +% c.
Proof.
  unfold add32. rewrite wrap32_idem_add_l, (Z.add_comm a), wrap32_idem_add_l.
  f_equal. lia.
Qed.

(** Truncating division by a divisor of magnitude at least one stays in the
    range, except for the one pair of operands Rust panics on. *)
Lemma quot32_range a b : is_i32 a -> 0 < b -> is_i32 (a /% b).
Proof.
  intros H Hb. unfold_widths.
  destruct (Z_le_dec 0 a).
  - pose proof (Z.quot_pos a b). assert (a ÷ b <= a) by (apply Z.quot_le_upper_bound; nia). lia.
  - replace a with (- (- a)) by lia. rewrite Z.quot_opp_l by lia.
    pose proof (Z.quot_pos (- a) b).
    assert (- a ÷ b <= - a) by (apply Z.quot_le_upper_bound; nia). lia.
Qed.

Lemma clampc_range v lo hi : lo <= hi -> lo <= clampc v lo hi <= hi.
Proof. unfold clampc. lia. Qed.

Lemma clampc_id v lo hi : lo <= v <= hi -> clampc v lo hi = v.
Proof. unfold clampc. lia. Qed.

Lemma clamp_Some v lo hi r : clamp v lo hi = Some r <-> lo <= hi /\ r = clampc v lo hi.
Proof.
  unfold clamp. destruct (Z.leb_spec lo hi) as [Hle | Hlt].
  - split; [intros [= <-]; auto | intros [_ ->]; auto].
  - split; [discriminate | lia].
Qed.

Lemma clamp_None v lo hi : clamp v lo hi = None <-> hi < lo.
Proof. unfold clamp. destruct (Z.leb_spec lo hi); split; intros; try discriminate; try done; lia. Qed.

Lemma sat_i32_range z : is_i32 (sat_i32 z).
Proof. unfold sat_i32, clampc. unfold_widths. lia. Qed.

#[export] Hint Resolve add32_range sub32_range mul32_range quot32_range wrap32_range
  sat_i32_range : rust.

(** ** Lists *)

Lemma fold_right_cond_ext {A B} (f g : A -> B -> B) (b : B) (l : list A) :
  (forall a x, a ∈ l -> f a x = g a x) -> fold_right f b l = fold_right g b l.
Proof.
  induction l as [| a l IH]; intros H; [done |]. cbn. rewrite IH.
  - apply H. left.
  - intros; apply H. by right.
Qed.

(** A fold that adds [g a] modulo 2^32 at every element. *)
Lemma fold_add32_perm {A} (g : A -> Z) (z : Z) (l1 l2 : list A) :
  l1 ≡ₚ l2 ->
  fold_left (fun acc a => acc +% g a) l1 z = fold_left (fun acc a => acc +% g a) l2 z.
Proof.
  intros P. revert z. induction P as [| x l l' _ IH | x y l | l l' l'' _ IH1 _ IH2];
    intros z; cbn; [done | apply IH | | congruence].
  f_equal. rewrite <- !add32_assoc. f_equal. apply add32_comm.
Qed.

(** ** Maps *)

(** What [f] lists for the values of a map, in no particular order. *)
Definition map_concat {K A B} `{Countable K} (f : A -> list B) (m : gmap K A) : list B :=
  concat ((fun kx => f (snd kx)) <$> map_to_list m).

Section MapConcat.
Context {K A B : Type} `{Countable K} (f : A -> list B).
Implicit Types m : gmap K A.

Lemma map_concat_empty : map_concat f (∅ : gmap K A) = [].
Proof. unfold map_concat. by rewrite map_to_list_empty. Qed.

Lemma map_concat_insert_new m i x : m !! i = None -> map_concat f (<[i := x]> m) ≡ₚ f x ++ map_concat f m.
Proof. intros Hi. unfold map_concat. by rewrite map_to_list_insert by done. Qed.

Lemma map_concat_insert m i x : map_concat f (<[i := x]> m) ≡ₚ f x ++ map_concat f (delete i m).
Proof. rewrite <- insert_delete_eq. apply map_concat_insert_new, lookup_delete_eq. Qed.

Lemma map_concat_lookup m i : map_concat f m ≡ₚ from_option f [] (m !! i) ++ map_concat f (delete i m).
Proof.
  destruct (m !! i) as [x |] eqn:E; cbn.
  - rewrite <- (map_concat_insert m i x). by rewrite insert_id.
  - by rewrite delete_id.
Qed.
End MapConcat.

(** The entries of a map when it iterates over its keys in this order. *)
Definition map_iter {K A} `{Countable K} (order : list K) (m : gmap K A) : list (K * A) :=
  omap (fun k => (fun x => (k, x)) <$> m !! k) order.
(** An order in which the map can iterate. *)
Definition map_order {K A} `{Countable K} (order : list K) (m : gmap K A) : bool :=
  bool_decide (NoDup order) && bool_decide (list_to_set order = dom m).

Section MapIter.
Context {K A : Type} `{Countable K}.
Implicit Types m : gmap K A.

Lemma map_order_spec order m : map_order order m = true <-> NoDup order /\ forall k, k ∈ order <-> is_Some (m !! k).
Proof.
  unfold map_order. rewrite andb_true_iff, !bool_decide_eq_true. split; intros [N D]; split; try done.
  - intros k. rewrite <- elem_of_dom, <- D. set_solver.
  - apply set_eq. intros k. rewrite elem_of_list_to_set, elem_of_dom. apply D.
Qed.

Lemma map_order_elements m : map_order (elements (dom m)) m = true.
Proof. apply map_order_spec. split; [apply NoDup_elements |]. intros k. by rewrite elem_of_elements, elem_of_dom. Qed.

Lemma elem_of_map_iter order m k x : (k, x) ∈ map_iter order m <-> k ∈ order /\ m !! k = Some x.
Proof.
  unfold map_iter. rewrite list_elem_of_omap. split.
  - intros (k' & Hk & E). destruct (m !! k') eqn:El; [| done]. cbn in E. by injection E as -> ->.
  - intros [Hin El]. exists k. by rewrite El.
Qed.

Lemma map_iter_NoDup order m : NoDup order -> NoDup (fst <$> map_iter order m).
Proof.
  induction 1 as [| k order Hk _ IH]; [constructor |]. unfold map_iter. cbn [omap list_omap].
  destruct (m !! k) as [x |] eqn:El; cbn; [| exact IH]. constructor; [| exact IH].
  intros ([k' y] & -> & Hin)%list_elem_of_fmap. by apply elem_of_map_iter in Hin as [? _].
Qed.
End MapIter.
