(* ===== verification/BTree.v ===== *)
(** Ordered maps and sets.

    [BTreeMap] and [BTreeSet] of the Rust standard library, as strictly sorted
    association lists, so that iteration visits keys in [Ord] order and the
    whole model computes.  A key type is ordered through [ord_key], its
    position in the order (a discriminant, or the integer itself). *)
From S2P Require Import Prelude.

Class OrdKey (K : Type) := {
  ord_key : K -> Z;
  ord_key_inj : Inj (=) (=) ord_key
}.
#[export] Existing Instance ord_key_inj.

#[export] Instance OrdKey_Z : OrdKey Z := {| ord_key := fun z => z |}.
#[export] Program Instance OrdKey_unit : OrdKey unit := {| ord_key := fun _ => 0 |}.
Next Obligation. by intros [] []. Qed.

Section BTreeMap.
Context {K : Type} `{OK : OrdKey K} {V : Type}.
Implicit Types (m : list (K * V)) (k : K) (v : V).

Fixpoint bt_get m k : option V :=
  match m with
  | [] => None
  | (k', v) :: m' => if ord_key k =? ord_key k' then Some v else bt_get m' k
  end.

Fixpoint bt_insert m k v : list (K * V) :=
  match m with
  | [] => [(k, v)]
  | (k', v') :: m' =>
      if ord_key k <? ord_key k' then (k, v) :: m
      else if ord_key k =? ord_key k' then (k, v) :: m'
      else (k', v') :: bt_insert m' k v
  end.

Fixpoint bt_remove m k : list (K * V) :=
  match m with
  | [] => []
  | (k', v') :: m' =>
      if ord_key k =? ord_key k' then m' else (k', v') :: bt_remove m' k
  end.

Definition bt_contains m k : bool :=
  match bt_get m k with Some _ => true | None => false end.

Definition bt_keys m : list K := m.*1.
Definition bt_values m : list V := m.*2.

Definition bt_lt (p q : K * V) : Prop := ord_key p.1 < ord_key q.1.

(** The representation invariant of the tree: keys strictly ascending. *)
Definition bt_sorted m : Prop := StronglySorted bt_lt m.

Lemma bt_sorted_nil : bt_sorted [].
Proof. constructor. Qed.

Lemma bt_insert_elem m k v p : p ∈ bt_insert m k v -> p = (k, v) \/ p ∈ m.
Proof.
  induction m as [| [k' v'] m IH]; cbn.
  - rewrite list_elem_of_singleton. auto.
  - case_bools; rewrite ?elem_of_cons; [tauto | tauto |].
    intros [-> | H]; [auto |]. destruct (IH H); auto.
Qed.

Lemma bt_insert_sorted m k v : bt_sorted m -> bt_sorted (bt_insert m k v).
Proof.
  unfold bt_sorted.
  induction 1 as [| [k' v'] m Hs IH Hf]; cbn; [repeat constructor |].
  case_bools; zbool.
  - constructor; [by constructor |]. constructor; [done |].
    eapply Forall_impl; [exact Hf |]. unfold bt_lt; cbn. intros; lia.
  - constructor; [done |]. eapply Forall_impl; [exact Hf |]. unfold bt_lt; cbn. intros; lia.
  - constructor; [done |]. rewrite Forall_forall in Hf |- *.
    intros p [-> | H]%bt_insert_elem; [unfold bt_lt; cbn; lia | auto].
Qed.

Lemma bt_remove_elem m k p : p ∈ bt_remove m k -> p ∈ m.
Proof.
  induction m as [| [k' v'] m IH]; cbn; [done |].
  case_bools; rewrite ?elem_of_cons; intuition.
Qed.

Lemma bt_remove_sorted m k : bt_sorted m -> bt_sorted (bt_remove m k).
Proof.
  unfold bt_sorted.
  induction 1 as [| [k' v'] m Hs IH Hf]; cbn; [constructor |].
  case_bools; [done |]. constructor; [done |].
  rewrite Forall_forall in Hf |- *. eauto using bt_remove_elem.
Qed.

Lemma bt_get_insert_eq m k v : bt_get (bt_insert m k v) k = Some v.
Proof.
  induction m as [| [k' v'] m IH]; cbn; [by rewrite Z.eqb_refl |].
  case_bools; cbn; rewrite ?Z.eqb_refl; auto. by rewrite Heqb0.
Qed.

Lemma bt_get_insert_ne m k k' v :
  k <> k' -> bt_get (bt_insert m k v) k' = bt_get m k'.
Proof.
  intros Hne. assert (ord_key k' <> ord_key k) as Hk.
  { intros E. apply Hne. by apply (inj ord_key). }
  induction m as [| [k2 v2] m IH]; cbn.
  - case_bools; zbool; [lia | done].
  - case_bools; cbn; case_bools; zbool; try done; try lia.
Qed.

Lemma bt_get_None_lt m k :
  Forall (fun p => ord_key k < ord_key p.1) m -> bt_get m k = None.
Proof.
  induction 1 as [| [k' v'] m Hlt Hf IH]; cbn in *; [done |].
  case_bools; zbool; [lia | done].
Qed.

Lemma bt_get_remove_eq m k : bt_sorted m -> bt_get (bt_remove m k) k = None.
Proof.
  unfold bt_sorted.
  induction 1 as [| [k' v'] m Hs IH Hf]; cbn; [done |].
  case_bools; cbn; [| by rewrite Heqb]. zbool. apply bt_get_None_lt.
  eapply Forall_impl; [exact Hf |]. unfold bt_lt; cbn. intros; lia.
Qed.

Lemma bt_get_remove_ne m k k' :
  k <> k' -> bt_get (bt_remove m k) k' = bt_get m k'.
Proof.
  intros Hne. assert (ord_key k' <> ord_key k) as Hk.
  { intros E. apply Hne. by apply (inj ord_key). }
  induction m as [| [k2 v2] m IH]; cbn; [done |].
  case_bools; cbn; case_bools; zbool; try done; lia.
Qed.

Lemma bt_get_elem m k v : bt_get m k = Some v -> (k, v) ∈ m.
Proof.
  induction m as [| [k' v'] m IH]; cbn; [done |].
  case_bools; intros; inv_some; zbool.
  - apply (inj ord_key) in Heqb. subst. left.
  - right. auto.
Qed.

Lemma bt_elem_get m k v : bt_sorted m -> (k, v) ∈ m -> bt_get m k = Some v.
Proof.
  unfold bt_sorted.
  induction 1 as [| [k' v'] m Hs IH Hf]; cbn; [by rewrite elem_of_nil |].
  intros [[= -> ->] | H]%elem_of_cons; [by rewrite Z.eqb_refl |].
  rewrite IH by done. case_bools; [| done]. zbool.
  rewrite Forall_forall in Hf. specialize (Hf _ H). unfold bt_lt in Hf; cbn in Hf. lia.
Qed.

Lemma bt_contains_keys m k : bt_contains m k = true <-> k ∈ bt_keys m.
Proof.
  unfold bt_contains, bt_keys. induction m as [| [k' v'] m IH]; cbn.
  - rewrite elem_of_nil. split; [discriminate | done].
  - rewrite elem_of_cons, <- IH. destruct (ord_key k =? ord_key k') eqn:E; zbool.
    + apply (inj ord_key) in E. split; auto.
    + split; [auto | intros [-> | ?]; [lia | done]].
Qed.

(** Two sorted maps with the same lookups are the same list. *)
Lemma bt_ext m1 m2 :
  bt_sorted m1 -> bt_sorted m2 -> (forall k, bt_get m1 k = bt_get m2 k) -> m1 = m2.
Proof.
  unfold bt_sorted. intros H1. revert m2.
  induction H1 as [| [k1 v1] m1 Hs1 IH Hf1]; intros m2 H2 Heq.
  - destruct m2 as [| [k v] m2]; [done |]. specialize (Heq k). cbn in Heq.
    by rewrite Z.eqb_refl in Heq.
  - destruct H2 as [| [k2 v2] m2 Hs2 Hf2].
    { specialize (Heq k1). cbn in Heq. by rewrite Z.eqb_refl in Heq. }
    assert (forall k v m, Forall (bt_lt (k, v)) m -> Forall (fun p => ord_key k < ord_key p.1) m) as Hlt.
    { intros k v m Hf. exact Hf. }
    apply Hlt in Hf1, Hf2.
    assert (ord_key k1 = ord_key k2) as Ek.
    { pose proof (Heq k1) as E1. pose proof (Heq k2) as E2. cbn in E1, E2.
      rewrite Z.eqb_refl in E1, E2.
      destruct (Z.lt_trichotomy (ord_key k1) (ord_key k2)) as [L | [E | G]]; [| done |].
      - replace (ord_key k1 =? ord_key k2) with false in E1 by (symmetry; apply Z.eqb_neq; lia).
        rewrite bt_get_None_lt in E1; [done |]. eapply Forall_impl; [exact Hf2 |]. cbn; intros; lia.
      - replace (ord_key k2 =? ord_key k1) with false in E2 by (symmetry; apply Z.eqb_neq; lia).
        rewrite bt_get_None_lt in E2; [done |]. eapply Forall_impl; [exact Hf1 |]. cbn; intros; lia. }
    apply (inj ord_key) in Ek. subst k2.
    pose proof (Heq k1) as E1. cbn in E1. rewrite Z.eqb_refl in E1. inv_some. f_equal.
    apply IH; [done |]. intros k. specialize (Heq k). cbn in Heq.
    destruct (ord_key k =? ord_key k1) eqn:E; [| done]. zbool.
    rewrite !bt_get_None_lt; [done | |].
    + eapply Forall_impl; [exact Hf2 |]. cbn; intros; lia.
    + eapply Forall_impl; [exact Hf1 |]. cbn; intros; lia.
Qed.

Definition bt_last m : option (K * V) := last m.

Lemma bt_last_max m k v p : bt_sorted m -> bt_last m = Some (k, v) -> p ∈ m -> ord_key p.1 <= ord_key k.
Proof.
  unfold bt_sorted, bt_last. induction 1 as [| q m Hs IH Hf]; cbn; [done |].
  destruct m as [| q' m].
  - intros [= ->]. rewrite list_elem_of_singleton. intros ->. cbn. lia.
  - intros Hl [-> | Hp]%elem_of_cons; [| by apply IH].
    assert ((k, v) ∈ q' :: m) as Hin.
    { apply list_elem_of_lookup. exists (pred (length (q' :: m))). by rewrite <- last_lookup. }
    rewrite Forall_forall in Hf. specialize (Hf _ Hin). unfold bt_lt in Hf. cbn in Hf. lia.
Qed.
End BTreeMap.

Arguments bt_sorted {K OK V} m.

#[export] Hint Resolve bt_sorted_nil bt_insert_sorted bt_remove_sorted : rust.

(** ** Sets: maps to unit. *)
Section BTreeSet.
Context {K : Type} `{OK : OrdKey K}.
Implicit Types (s : list (K * unit)) (k : K).

Definition bs_empty : list (K * unit) := [].
Definition bs_insert s k : list (K * unit) := bt_insert s k tt.
Definition bs_contains s k : bool := bt_contains s k.
Definition bs_iter s : list K := bt_keys s.
Definition bs_extend s (l : list K) : list (K * unit) := fold_left bs_insert l s.

Lemma bs_contains_insert s k k' :
  bs_contains (bs_insert s k) k' = true <-> k' = k \/ bs_contains s k' = true.
Proof.
  unfold bs_contains, bs_insert, bt_contains.
  destruct (Z.eq_dec (ord_key k) (ord_key k')) as [E | N].
  - apply (inj ord_key) in E. subst. rewrite bt_get_insert_eq. tauto.
  - rewrite bt_get_insert_ne by congruence. split; [tauto |].
    intros [-> | ?]; [done | done].
Qed.

Lemma bs_contains_extend s l k :
  bs_contains (bs_extend s l) k = true <-> k ∈ l \/ bs_contains s k = true.
Proof.
  unfold bs_extend. revert s. induction l as [| x l IH]; intros s; cbn.
  - rewrite elem_of_nil. tauto.
  - rewrite IH, bs_contains_insert, elem_of_cons. tauto.
Qed.

Lemma bs_contains_iter s k : bs_contains s k = true <-> k ∈ bs_iter s.
Proof. apply bt_contains_keys. Qed.

Lemma bs_extend_sorted s l : bt_sorted s -> bt_sorted (bs_extend s l).
Proof.
  unfold bs_extend. revert s. induction l as [| x l IH]; intros s Hs; cbn; [done |].
  apply IH. by apply bt_insert_sorted.
Qed.

Lemma bs_ext s1 s2 :
  bt_sorted s1 -> bt_sorted s2 ->
  (forall k, bs_contains s1 k = true <-> bs_contains s2 k = true) -> s1 = s2.
Proof.
  intros H1 H2 H. apply bt_ext; [done | done |]. intros k. specialize (H k).
  unfold bs_contains, bt_contains in H.
  destruct (bt_get s1 k) as [[] |], (bt_get s2 k) as [[] |]; intuition congruence.
Qed.

Lemma bs_empty_iff s : s = [] <-> forall k, bs_contains s k = false.
Proof.
  split; [intros -> k; reflexivity |]. destruct s as [| [k u] s]; [done |].
  intros H. specialize (H k). unfold bs_contains, bt_contains in H. cbn in H.
  by rewrite Z.eqb_refl in H.
Qed.
End BTreeSet.
