(* ===== verification/Domain.v ===== *)
(** The domain vocabulary of [zohar-domain] shared by every component: the stat
    enumeration with its order, player and mob classifications, the bootstrap
    record a player is hydrated from, facings and terrain flags. *)
From S2P Require Import Prelude BTree.

(** An enumeration with all of its values in declaration order, the index set
    of an [EnumMap]. *)
Class RustEnum (K : Type) := {
  enum_values : list K;
  enum_values_complete : forall k : K, k ∈ enum_values
}.

(** ** Stats *)
Module Stat.
Inductive Stat : Type :=
| Level | Exp | NextExp | Hp | MaxHp | Sp | MaxSp | Stamina | MaxStamina | Gold | St
| Ht | Dx | Iq | DefGrade | AttSpeed | AttGrade | MovSpeed | DisplayedDefGrade
| CastingSpeed | MagicAttGrade | MagicDefGrade | LevelStep | StatPoints | HpRecovery
| SpRecovery | ImmuneStun | ImmuneSlow | ImmuneFall | PartyTankerBonus | AttGradeBonus
| DefGradeBonus | MagicAttGradeBonus | MagicDefGradeBonus | PartySkillMasterBonus
| Polymorph | Mount | PartyHasteBonus | PartyDefenderBonus | StatResetCount | MaxHpPct
| MaxSpPct | ArmorDefence | MaxHpPrePctBonus | BonusMaxHp | BonusMaxSp | BonusMaxStamina.

Definition all : list Stat :=
  [Level; Exp; NextExp; Hp; MaxHp; Sp; MaxSp; Stamina; MaxStamina; Gold; St; Ht; Dx; Iq;
   DefGrade; AttSpeed; AttGrade; MovSpeed; DisplayedDefGrade; CastingSpeed;
   MagicAttGrade; MagicDefGrade; LevelStep; StatPoints; HpRecovery; SpRecovery;
   ImmuneStun; ImmuneSlow; ImmuneFall; PartyTankerBonus; AttGradeBonus; DefGradeBonus;
   MagicAttGradeBonus; MagicDefGradeBonus; PartySkillMasterBonus; Polymorph; Mount;
   PartyHasteBonus; PartyDefenderBonus; StatResetCount; MaxHpPct; MaxSpPct;
   ArmorDefence; MaxHpPrePctBonus; BonusMaxHp; BonusMaxSp; BonusMaxStamina].

(** The discriminant, which orders the derived [Ord]. *)
Definition index (s : Stat) : nat :=
  match s with
  | Level => 0%nat
  | Exp => 1%nat
  | NextExp => 2%nat
  | Hp => 3%nat
  | MaxHp => 4%nat
  | Sp => 5%nat
  | MaxSp => 6%nat
  | Stamina => 7%nat
  | MaxStamina => 8%nat
  | Gold => 9%nat
  | St => 10%nat
  | Ht => 11%nat
  | Dx => 12%nat
  | Iq => 13%nat
  | DefGrade => 14%nat
  | AttSpeed => 15%nat
  | AttGrade => 16%nat
  | MovSpeed => 17%nat
  | DisplayedDefGrade => 18%nat
  | CastingSpeed => 19%nat
  | MagicAttGrade => 20%nat
  | MagicDefGrade => 21%nat
  | LevelStep => 22%nat
  | StatPoints => 23%nat
  | HpRecovery => 24%nat
  | SpRecovery => 25%nat
  | ImmuneStun => 26%nat
  | ImmuneSlow => 27%nat
  | ImmuneFall => 28%nat
  | PartyTankerBonus => 29%nat
  | AttGradeBonus => 30%nat
  | DefGradeBonus => 31%nat
  | MagicAttGradeBonus => 32%nat
  | MagicDefGradeBonus => 33%nat
  | PartySkillMasterBonus => 34%nat
  | Polymorph => 35%nat
  | Mount => 36%nat
  | PartyHasteBonus => 37%nat
  | PartyDefenderBonus => 38%nat
  | StatResetCount => 39%nat
  | MaxHpPct => 40%nat
  | MaxSpPct => 41%nat
  | ArmorDefence => 42%nat
  | MaxHpPrePctBonus => 43%nat
  | BonusMaxHp => 44%nat
  | BonusMaxSp => 45%nat
  | BonusMaxStamina => 46%nat
  end.

Lemma all_index s : all !! index s = Some s.
Proof. by destruct s. Qed.

#[export] Instance index_inj : Inj (=) (=) index.
Proof.
  intros a b E. pose proof (all_index a) as Ha. pose proof (all_index b) as Hb.
  rewrite E in Ha. congruence.
Qed.

#[export] Instance eq_dec : EqDecision Stat.
Proof.
  refine (fun a b => match decide (index a = index b) with
                     | left E => left (index_inj a b E)
                     | right N => right (fun E => N (f_equal index E))
                     end).
Defined.

#[export] Instance ord : OrdKey Stat :=
  {| ord_key := fun s => Z.of_nat (index s); ord_key_inj := _ |}.

#[export] Instance enum : RustEnum Stat.
Proof.
  refine {| enum_values := all |}.
  intros s. apply list_elem_of_lookup. eexists. apply all_index.
Defined.
End Stat.
Notation Stat := Stat.Stat.
Export (hints) Stat.

Lemma stat_all_NoDup : NoDup Stat.all.
Proof. apply (NoDup_fmap_1 Stat.index), (bool_decide_unpack _). by vm_compute. Qed.

(** ** Classifications *)
Inductive PlayerClass : Type := Warrior | Ninja | Sura | Shaman.
#[export] Instance PlayerClass_eq_dec : EqDecision PlayerClass.
Proof. solve_decision. Defined.

Inductive Empire : Type := Empire_Red | Empire_Yellow | Empire_Blue.
#[export] Instance Empire_eq_dec : EqDecision Empire.
Proof. solve_decision. Defined.

Inductive MobBattleType : Type :=
| BattleMelee | BattleRange | BattleMagic | BattleSpecial
| BattlePower | BattleTanker | BattleSuperPower | BattleSuperTanker.

Inductive MovementAnimation : Type := Run | Walk.
#[export] Instance MovementAnimation_eq_dec : EqDecision MovementAnimation.
Proof. solve_decision. Defined.

(** ** Player bootstrap data *)
Record PlayerStats : Type := {
  stat_str : Z; stat_vit : Z; stat_dex : Z; stat_int : Z }.

Record CoreStatAllocations : Type := {
  allocated_str : Z; allocated_vit : Z; allocated_dex : Z; allocated_int : Z }.

Record PlayerGameplayBootstrap : Type := {
  pgb_player_id : Z;
  pgb_class : PlayerClass;
  pgb_level : Z;
  pgb_exp_in_level : Z;
  pgb_core_stat_allocations : CoreStatAllocations;
  pgb_stat_reset_count : Z;
  pgb_current_hp : option Z;
  pgb_current_sp : option Z;
  pgb_current_stamina : option Z }.

(** ** Facings: a byte in 0..=71. *)
Definition Facing72_MAX : Z := 71.

(** [Facing72::new]: the value, or the rejected raw value as the error. *)
Definition Facing72_new (value : Z) : result Z Z :=
  if value <=? Facing72_MAX then Ok value else Err value.

Definition Facing72_from_wrapped (value : Z) : Z := Z.rem value 72.

(** ** Terrain flags: the [u8] bit set of [bitflags!]. *)
Definition TerrainFlags_BLOCK : Z := Z.shiftl 1 0.
Definition TerrainFlags_WATER : Z := Z.shiftl 1 1.
Definition TerrainFlags_SAFEZONE : Z := Z.shiftl 1 2.
Definition TerrainFlags_OBJECT : Z := Z.shiftl 1 7.

Definition blocks_movement (flags : Z) : bool :=
  negb (Z.land flags (Z.lor TerrainFlags_BLOCK TerrainFlags_OBJECT) =? 0).

Definition is_walkable (flags : Z) : bool := negb (blocks_movement flags).

Lemma Facing72_new_ok v : 0 <= v -> (exists f, Facing72_new v = Ok f /\ 0 <= f <= 71) <-> v <= 71.
Proof.
  intros Hv. unfold Facing72_new, Facing72_MAX. case_bools; zbool; split; intros H; try lia.
  - eauto with lia.
  - by destruct H as (? & ? & _).
Qed.

Lemma Facing72_from_wrapped_ok v : 0 <= v -> Facing72_new (Facing72_from_wrapped v) = Ok (Facing72_from_wrapped v).
Proof.
  intros Hv. unfold Facing72_new, Facing72_MAX, Facing72_from_wrapped.
  pose proof (Z.rem_bound_pos v 72 Hv). case_bools; zbool; [done | lia].
Qed.

Lemma is_walkable_bits flags :
  is_walkable flags = negb (Z.testbit flags 0 || Z.testbit flags 7).
Proof.
  unfold is_walkable, blocks_movement, TerrainFlags_BLOCK, TerrainFlags_OBJECT. f_equal.
  change (Z.lor (Z.shiftl 1 0) (Z.shiftl 1 7)) with 129.
  destruct (Z.testbit flags 0) eqn:B0; [| destruct (Z.testbit flags 7) eqn:B7]; cbn.
  - apply negb_true_iff, Z.eqb_neq. intros E. apply (f_equal (fun z => Z.testbit z 0)) in E.
    by rewrite Z.land_spec, B0 in E.
  - apply negb_true_iff, Z.eqb_neq. intros E. apply (f_equal (fun z => Z.testbit z 7)) in E.
    by rewrite Z.land_spec, B7 in E.
  - apply negb_false_iff, Z.eqb_eq. apply Z.bits_inj'. intros n Hn.
    rewrite Z.land_spec, Z.bits_0.
    destruct (Z.eq_dec n 0) as [-> | N0]; [by rewrite B0 |].
    destruct (Z.eq_dec n 7) as [-> | N7]; [by rewrite B7 |].
    apply andb_false_intro2. destruct (Z_lt_dec n 8).
    + assert (n = 1 \/ n = 2 \/ n = 3 \/ n = 4 \/ n = 5 \/ n = 6) as C by lia.
      by destruct C as [-> | [-> | [-> | [-> | [-> | ->]]]]].
    + apply Z.bits_above_log2; [lia |]. cbn. lia.
Qed.
