(* ===== verification/StatStore.v ===== *)
(** The generic stat kernel ([stats/core]) and its instantiation to [Stat]:
    the enum-indexed integer store, the source-scoped modifier ledger, change
    sets, the role and contribution tables of stats, and compiled
    contributions. *)
From S2P Require Import Prelude BTree Domain.

(** ** [EnumIntegerValueStore]: an [EnumMap] of [i32] *)
Section Store.
Context {K : Type} `{!EqDecision K} `{EK : RustEnum K}.

Definition EnumIntegerValueStore : Type := K -> Z.

Definition evs_new : EnumIntegerValueStore := fun _ => 0.
Definition evs_clear (_ : EnumIntegerValueStore) : EnumIntegerValueStore := evs_new.
Definition evs_get (s : EnumIntegerValueStore) (key : K) : Z := s key.
Definition evs_set (s : EnumIntegerValueStore) (key : K) (value : Z) : EnumIntegerValueStore :=
  <[key := value]> s.
Definition evs_add (s : EnumIntegerValueStore) (key : K) (delta : Z) : EnumIntegerValueStore :=
  <[key := s key +% delta]> s.
Definition evs_iter (s : EnumIntegerValueStore) : list (K * Z) :=
  omap (fun key => if negb (s key =? 0) then Some (key, s key) else None) enum_values.

Lemma evs_get_set_eq s k v : evs_get (evs_set s k v) k = v.
Proof. apply fn_lookup_insert. Qed.
Lemma evs_get_set_ne s k k' v : k <> k' -> evs_get (evs_set s k v) k' = evs_get s k'.
Proof. apply fn_lookup_insert_ne. Qed.
Lemma evs_get_add_eq s k d : evs_get (evs_add s k d) k = evs_get s k +% d.
Proof. apply (fn_lookup_insert s k (s k +% d)). Qed.
Lemma evs_get_add_ne s k k' d : k <> k' -> evs_get (evs_add s k d) k' = evs_get s k'.
Proof. apply (fn_lookup_insert_ne s k k' (s k +% d)). Qed.

Lemma evs_get_set s k k' v :
  evs_get (evs_set s k v) k' = if decide (k = k') then v else evs_get s k'.
Proof. case_decide; [subst; apply evs_get_set_eq | by apply evs_get_set_ne]. Qed.

Lemma evs_get_add s k k' d :
  evs_get (evs_add s k d) k' = if decide (k = k') then evs_get s k' +% d else evs_get s k'.
Proof. case_decide; [subst; apply evs_get_add_eq | by apply evs_get_add_ne]. Qed.

(** Iteration yields the non-zero entries. *)
Lemma evs_iter_keys s k : k ∈ (evs_iter s).*1 <-> evs_get s k <> 0.
Proof.
  unfold evs_iter, evs_get. rewrite list_elem_of_fmap. split.
  - intros ([k' v] & -> & H). apply list_elem_of_omap in H as (x & _ & H).
    case_bools; inv_some; zbool. done.
  - intros H. exists (k, s k). split; [done |]. apply list_elem_of_omap. exists k.
    split; [apply enum_values_complete |]. case_bools; [done |]. zbool. done.
Qed.
End Store.
Arguments EnumIntegerValueStore K : clear implicits.

Abbreviation PointValueStore := (EnumIntegerValueStore Stat).

#[export] Hint Rewrite @evs_get_set_eq @evs_get_add_eq : store.

(** ** [GenericModifierInstance] and [GenericModifierLedger] *)
Record GenericModifierInstance (Source St Detail : Type) : Type := {
  mi_source : Source;
  mi_stat : St;
  mi_amount : Z;
  mi_detail : Detail }.
Arguments mi_source {Source St Detail} _.
Arguments mi_stat {Source St Detail} _.
Arguments mi_amount {Source St Detail} _.
Arguments mi_detail {Source St Detail} _.

Definition with_detail {Source St Detail NewDetail : Type}
    (self : GenericModifierInstance Source St Detail) (detail : NewDetail) :
    GenericModifierInstance Source St NewDetail :=
  {| mi_source := mi_source self; mi_stat := mi_stat self;
     mi_amount := mi_amount self; mi_detail := detail |}.

Section Ledger.
Context {Source St Detail : Type} `{OS : OrdKey Source} `{!EqDecision St}.
Local Abbreviation instance_t := (GenericModifierInstance Source St Detail).

Record GenericModifierLedger : Type := { by_source : list (Source * list instance_t) }.

Definition ledger_default : GenericModifierLedger := {| by_source := [] |}.

Definition ledger_is_empty (l : GenericModifierLedger) : bool :=
  match by_source l with [] => true | _ => false end.

Definition replace_source (l : GenericModifierLedger) (source : Source)
    (modifiers : list instance_t) : GenericModifierLedger :=
  match modifiers with
  | [] => {| by_source := bt_remove (by_source l) source |}
  | _ => {| by_source := bt_insert (by_source l) source modifiers |}
  end.

Definition remove_source (l : GenericModifierLedger) (source : Source) :
    GenericModifierLedger * option (list instance_t) :=
  ({| by_source := bt_remove (by_source l) source |}, bt_get (by_source l) source).

Definition ledger_iter (l : GenericModifierLedger) : list instance_t :=
  concat (bt_values (by_source l)).

Definition total_for_stat (l : GenericModifierLedger) (stat : St) : Z :=
  fold_left (fun acc i => acc +% mi_amount i)
    (filter (fun i => mi_stat i = stat) (ledger_iter l)) 0.

Definition ledger_wf (l : GenericModifierLedger) : Prop :=
  bt_sorted (by_source l) /\ Forall (fun p => p.2 <> []) (by_source l).

Lemma ledger_default_wf : ledger_wf ledger_default.
Proof. split; constructor. Qed.

Lemma replace_source_wf l source ms : ledger_wf l -> ledger_wf (replace_source l source ms).
Proof.
  intros [Hs Hn]. rewrite Forall_forall in Hn. destruct ms as [| m ms]; split; cbn.
  - by apply bt_remove_sorted.
  - apply Forall_forall. eauto using bt_remove_elem.
  - by apply bt_insert_sorted.
  - apply Forall_forall. intros p [-> | H]%bt_insert_elem; cbn; auto.
Qed.

Lemma remove_source_wf l source : ledger_wf l -> ledger_wf (remove_source l source).1.
Proof. apply (replace_source_wf l source []). Qed.

(** The bundle registered for a source, empty when there is none. *)
Definition bundle_of (l : GenericModifierLedger) (source : Source) : list instance_t :=
  default [] (bt_get (by_source l) source).

Lemma bundle_of_replace_eq l source ms :
  ledger_wf l -> bundle_of (replace_source l source ms) source = ms.
Proof.
  intros [Hs _]. unfold bundle_of, replace_source. destruct ms; cbn.
  - by rewrite bt_get_remove_eq.
  - by rewrite bt_get_insert_eq.
Qed.

Lemma bundle_of_replace_ne l source source' ms :
  source <> source' -> bundle_of (replace_source l source ms) source' = bundle_of l source'.
Proof.
  intros Hne. unfold bundle_of, replace_source.
  destruct ms; cbn; by rewrite ?bt_get_remove_ne, ?bt_get_insert_ne.
Qed.

(** Two well-formed ledgers with the same bundle per source are equal. *)
Lemma ledger_ext l1 l2 :
  ledger_wf l1 -> ledger_wf l2 -> (forall s, bundle_of l1 s = bundle_of l2 s) -> l1 = l2.
Proof.
  intros [Hs1 Hn1] [Hs2 Hn2] H. destruct l1 as [m1], l2 as [m2]. cbn in *. f_equal.
  apply bt_ext; [done | done |]. intros k. specialize (H k). unfold bundle_of in H. cbn in H.
  rewrite Forall_forall in Hn1, Hn2.
  destruct (bt_get m1 k) as [b1 |] eqn:E1, (bt_get m2 k) as [b2 |] eqn:E2;
    cbn in H; subst; try done.
  - exfalso. exact (Hn1 _ (bt_get_elem _ _ _ E1) eq_refl).
  - exfalso. exact (Hn2 _ (bt_get_elem _ _ _ E2) eq_refl).
Qed.

Lemma replace_source_comm l s1 s2 ms1 ms2 :
  ledger_wf l -> s1 <> s2 ->
  replace_source (replace_source l s1 ms1) s2 ms2 =
  replace_source (replace_source l s2 ms2) s1 ms1.
Proof.
  intros Hw Hne. assert (forall a b, ledger_wf (replace_source l a b)) by auto using replace_source_wf.
  apply ledger_ext; auto using replace_source_wf. intros s.
  destruct (Z.eq_dec (ord_key s) (ord_key s1)) as [E | N1];
    [apply (inj ord_key) in E; subst |
     destruct (Z.eq_dec (ord_key s) (ord_key s2)) as [E | N2];
     [apply (inj ord_key) in E; subst |]];
    rewrite ?bundle_of_replace_eq, ?bundle_of_replace_ne, ?bundle_of_replace_eq,
      ?bundle_of_replace_ne by (auto || congruence); done.
Qed.
End Ledger.
Arguments GenericModifierLedger Source St Detail : clear implicits.

(** ** [ChangeSet] *)
Section ChangeSet.
Context {S : Type} `{OS : OrdKey S}.

Record ChangeSet : Type := { cs_inner : list (S * unit) }.

Definition cs_default : ChangeSet := {| cs_inner := bs_empty |}.
Definition cs_contains (c : ChangeSet) (stat : S) : bool := bs_contains (cs_inner c) stat.
Definition cs_insert (c : ChangeSet) (stat : S) : ChangeSet :=
  {| cs_inner := bs_insert (cs_inner c) stat |}.
Definition cs_extend (c : ChangeSet) (stats : list S) : ChangeSet :=
  {| cs_inner := bs_extend (cs_inner c) stats |}.
Definition cs_iter (c : ChangeSet) : list S := bs_iter (cs_inner c).
Definition cs_is_empty (c : ChangeSet) : bool :=
  match cs_inner c with [] => true | _ => false end.

Lemma cs_contains_insert c k k' :
  cs_contains (cs_insert c k) k' = true <-> k' = k \/ cs_contains c k' = true.
Proof. apply bs_contains_insert. Qed.

Lemma cs_contains_iter c k : cs_contains c k = true <-> k ∈ cs_iter c.
Proof. apply bs_contains_iter. Qed.

(** Inserting the elements of a list one by one. *)
Lemma cs_contains_fold c l k :
  cs_contains (fold_left cs_insert l c) k = true <-> k ∈ l \/ cs_contains c k = true.
Proof.
  revert c. induction l as [| x l IH]; intros c; cbn.
  - rewrite elem_of_nil. tauto.
  - rewrite IH, cs_contains_insert, elem_of_cons. tauto.
Qed.

Lemma cs_contains_default k : cs_contains cs_default k = false.
Proof. reflexivity. Qed.

Lemma cs_default_iff c : c = cs_default <-> forall k, cs_contains c k = false.
Proof.
  destruct c as [s]. unfold cs_contains, cs_default. cbn. rewrite <- bs_empty_iff.
  unfold bs_empty. split; [congruence | intros ->; done].
Qed.
End ChangeSet.
Arguments ChangeSet S : clear implicits.
Abbreviation StatChangeSet := (ChangeSet Stat).

(** ** Roles and contribution kinds *)
Inductive StatRole : Type :=
| Persistent | RuntimeResource | Computed | ModifierAccumulator | RuntimeIdentity.

Inductive StatContributionKind : Type := AdditiveScalar | CappedPercentage | FlagCounter.

#[export] Instance StatRole_eq_dec : EqDecision StatRole.
Proof. solve_decision. Defined.

Definition role (s : Stat) : StatRole :=
  match s with
  | Stat.Level | Stat.Exp | Stat.NextExp | Stat.Gold | Stat.St | Stat.Ht | Stat.Dx
  | Stat.Iq | Stat.StatPoints | Stat.StatResetCount => Persistent
  | Stat.Hp | Stat.Sp | Stat.Stamina | Stat.HpRecovery | Stat.SpRecovery => RuntimeResource
  | Stat.MaxHp | Stat.MaxSp | Stat.MaxStamina | Stat.LevelStep | Stat.DefGrade
  | Stat.AttSpeed | Stat.AttGrade | Stat.MovSpeed | Stat.DisplayedDefGrade
  | Stat.CastingSpeed | Stat.MagicAttGrade | Stat.MagicDefGrade => Computed
  | Stat.BonusMaxHp | Stat.BonusMaxSp | Stat.BonusMaxStamina | Stat.ArmorDefence
  | Stat.MaxHpPrePctBonus | Stat.ImmuneStun | Stat.ImmuneSlow | Stat.ImmuneFall
  | Stat.PartyTankerBonus | Stat.AttGradeBonus | Stat.DefGradeBonus
  | Stat.MagicAttGradeBonus | Stat.MagicDefGradeBonus | Stat.PartySkillMasterBonus
  | Stat.PartyHasteBonus | Stat.PartyDefenderBonus | Stat.MaxHpPct
  | Stat.MaxSpPct => ModifierAccumulator
  | Stat.Polymorph | Stat.Mount => RuntimeIdentity
  end.

Definition contribution_kind (s : Stat) : option StatContributionKind :=
  match s with
  | Stat.MaxHpPct | Stat.MaxSpPct => Some CappedPercentage
  | Stat.ImmuneStun | Stat.ImmuneSlow | Stat.ImmuneFall => Some FlagCounter
  | Stat.St | Stat.Ht | Stat.Dx | Stat.Iq | Stat.DefGrade | Stat.AttSpeed
  | Stat.AttGrade | Stat.MovSpeed | Stat.CastingSpeed | Stat.MagicAttGrade
  | Stat.MagicDefGrade | Stat.BonusMaxHp | Stat.BonusMaxSp | Stat.BonusMaxStamina
  | Stat.ArmorDefence | Stat.MaxHpPrePctBonus | Stat.PartyTankerBonus
  | Stat.AttGradeBonus | Stat.DefGradeBonus | Stat.MagicAttGradeBonus
  | Stat.MagicDefGradeBonus | Stat.PartySkillMasterBonus | Stat.PartyHasteBonus
  | Stat.PartyDefenderBonus => Some AdditiveScalar
  | _ => None
  end.

Definition accepts_source_contribution (s : Stat) : bool :=
  match contribution_kind s with Some _ => true | None => false end.

(** ** Compiled contributions *)
Record CompiledModifier (Detail : Type) : Type := {
  cm_stat : Stat; cm_amount : Z; cm_detail : Detail }.
Arguments cm_stat {Detail} _.
Arguments cm_amount {Detail} _.
Arguments cm_detail {Detail} _.
Arguments Build_CompiledModifier {Detail} _ _ _.

Definition CompiledModifier_plain (stat : Stat) (amount : Z) : CompiledModifier unit :=
  {| cm_stat := stat; cm_amount := amount; cm_detail := tt |}.

Record CompiledStatContribution (Detail : Type) : Type := {
  csc_modifiers : list (CompiledModifier Detail) }.
Arguments csc_modifiers {Detail} _.
Arguments Build_CompiledStatContribution {Detail} _.

Definition CompiledStatContribution_new {Detail} : CompiledStatContribution Detail :=
  {| csc_modifiers := [] |}.

Definition with_modifier {Detail} (c : CompiledStatContribution Detail)
    (m : CompiledModifier Detail) : CompiledStatContribution Detail :=
  {| csc_modifiers := csc_modifiers c ++ [m] |}.

Definition push_modifier {Detail} (c : CompiledStatContribution Detail)
    (m : CompiledModifier Detail) : CompiledStatContribution Detail :=
  {| csc_modifiers := csc_modifiers c ++ [m] |}.
