(* ===== verification/StatSource.v ===== *)
(** Stat sources and balance rules ([stats/game/source.rs], [balance.rs]) and
    resource applications ([resource.rs]).  The random growth of a player is
    drawn by the [rand] crates, which enter through the class [GrowthRng]. *)
From S2P Require Import Prelude BTree Domain StatStore.

(** ** Core stats and speeds *)
Inductive ActorKind : Type := ActorKind_Player | ActorKind_Mob.
#[export] Instance ActorKind_eq_dec : EqDecision ActorKind.
Proof. solve_decision. Defined.

Record CoreStatBlock : Type := { cb_st : Z; cb_ht : Z; cb_dx : Z; cb_iq : Z }.

Definition CoreStatBlock_get (b : CoreStatBlock) (stat : Stat) : Z :=
  match stat with
  | Stat.St => cb_st b
  | Stat.Ht => cb_ht b
  | Stat.Dx => cb_dx b
  | Stat.Iq => cb_iq b
  | _ => 0
  end.

Record SourceSpeeds : Type := { move_speed : Z; attack_speed : Z; casting_speed : Z }.
Definition SourceSpeeds_default : SourceSpeeds :=
  {| move_speed := 100; attack_speed := 100; casting_speed := 100 |}.

Record PlayerAttackCoefficients : Type := {
  st_numerator : Z; dx_numerator : Z; iq_numerator : Z; divisor : Z }.

Record PlayerResourceFormula : Type := {
  base_max_hp : Z; base_max_sp : Z; base_max_stamina : Z;
  hp_per_ht : Z; sp_per_iq : Z; stamina_per_ht : Z }.

(** ** Resource capacities *)
Module PlayerResourceCapacity.
Inductive PlayerResourceCapacity : Type := Hp | Sp | Stamina.
End PlayerResourceCapacity.
Notation PlayerResourceCapacity := PlayerResourceCapacity.PlayerResourceCapacity.

Section Capacity.
Import PlayerResourceCapacity.
Implicit Type c : PlayerResourceCapacity.

Definition cap_stat c : Stat :=
  match c with Hp => Stat.MaxHp | Sp => Stat.MaxSp | Stamina => Stat.MaxStamina end.
Definition flat_bonus_stat c : option Stat :=
  match c with
  | Hp => Some Stat.BonusMaxHp | Sp => Some Stat.BonusMaxSp
  | Stamina => Some Stat.BonusMaxStamina
  end.
Definition pre_percentage_bonus_stat c : option Stat :=
  match c with Hp => Some Stat.MaxHpPrePctBonus | Sp | Stamina => None end.
Definition capped_percentage_stat c : option Stat :=
  match c with Hp => Some Stat.MaxHpPct | Sp => Some Stat.MaxSpPct | Stamina => None end.
Definition post_percentage_bonus_stat c : option Stat :=
  match c with
  | Hp => Some Stat.PartyTankerBonus | Sp => Some Stat.PartySkillMasterBonus
  | Stamina => None
  end.
End Capacity.

(** ** Balance rules *)
Record ActorViewLimits : Type := { move_speed_max : Z; attack_speed_max : Z }.
Record PlayerStoredStatLimits : Type := { core_stat_max : Z }.
Record PlayerResourceBonusCaps : Type := { max_hp_pct_bonus : Z; max_sp_pct_bonus : Z }.

Record PlayerBalanceRules : Type := {
  attack : PlayerAttackCoefficients;
  stored_limits : PlayerStoredStatLimits;
  pbr_view_limits : ActorViewLimits;
  resource_bonus_caps : PlayerResourceBonusCaps }.

Definition PlayerBalanceRules_view_limit (r : PlayerBalanceRules) (stat : Stat) : option Z :=
  match stat with
  | Stat.MovSpeed => Some (move_speed_max (pbr_view_limits r))
  | Stat.AttSpeed => Some (attack_speed_max (pbr_view_limits r))
  | _ => None
  end.

Definition PlayerBalanceRules_stored_write_limit (r : PlayerBalanceRules) (stat : Stat) :
    option Z :=
  match stat with
  | Stat.St | Stat.Ht | Stat.Dx | Stat.Iq => Some (core_stat_max (stored_limits r))
  | _ => None
  end.

Definition capped_percentage_bonus_max (r : PlayerBalanceRules)
    (resource : PlayerResourceCapacity) : option Z :=
  match resource with
  | PlayerResourceCapacity.Hp => Some (max_hp_pct_bonus (resource_bonus_caps r))
  | PlayerResourceCapacity.Sp => Some (max_sp_pct_bonus (resource_bonus_caps r))
  | PlayerResourceCapacity.Stamina => None
  end.

Record MobBalanceRules : Type := { mbr_view_limits : ActorViewLimits }.

Definition MobBalanceRules_view_limit (r : MobBalanceRules) (stat : Stat) : option Z :=
  match stat with
  | Stat.MovSpeed => Some (move_speed_max (mbr_view_limits r))
  | Stat.AttSpeed => Some (attack_speed_max (mbr_view_limits r))
  | _ => None
  end.

Definition default_player_balance_rules (class : PlayerClass) : PlayerBalanceRules :=
  {| attack :=
       match class with
       | Warrior | Sura =>
           {| st_numerator := 2; dx_numerator := 0; iq_numerator := 0; divisor := 1 |}
       | Ninja =>
           {| st_numerator := 4; dx_numerator := 2; iq_numerator := 0; divisor := 3 |}
       | Shaman =>
           {| st_numerator := 4; dx_numerator := 0; iq_numerator := 2; divisor := 3 |}
       end;
     stored_limits := {| core_stat_max := 90 |};
     pbr_view_limits := {| move_speed_max := 200; attack_speed_max := 170 |};
     resource_bonus_caps := {| max_hp_pct_bonus := 3500; max_sp_pct_bonus := 800 |} |}.

Definition default_mob_balance_rules : MobBalanceRules :=
  {| mbr_view_limits := {| move_speed_max := 250; attack_speed_max := 250 |} |}.

Definition exp_reward_bonus_malus_percent (player_level monster_level : Z) : Z :=
  let monster_lvl_advantage := sat_i32 (monster_level - player_level) in
  if 15 <=? monster_lvl_advantage then 180
  else if 0 <=? monster_lvl_advantage then 100 + monster_lvl_advantage * 5
  else match monster_lvl_advantage with
       | -1 => 100
       | -2 => 98
       | -3 => 96
       | -4 => 94
       | -5 => 92
       | -6 => 90
       | -7 => 85
       | -8 => 80
       | -9 => 70
       | -10 => 50
       | -11 => 30
       | -12 => 20
       | -13 => 10
       | -14 => 5
       | _ => 1
       end.

(** ** Deterministic growth

    [growth_sample seed lower upper i] is the [i]-th value that
    [Uniform::new_inclusive(lower, upper)] draws from [SplitMix64] seeded with
    [seed]; the documented contract of [Uniform] is [GrowthRngLaws]. *)
Class GrowthRng : Type := growth_sample : Z -> Z -> Z -> nat -> Z.

Class GrowthRngLaws `{GrowthRng} : Prop :=
  growth_sample_bounds : forall seed lower upper i,
    lower <= upper -> lower <= growth_sample seed lower upper i <= upper.

Inductive DeterministicGrowthVersion : Type := V1.

Record PlayerGrowthFormula : Type := {
  hp_per_level : Z * Z; sp_per_level : Z * Z; stamina_per_level : Z * Z;
  version : DeterministicGrowthVersion }.

Definition PlayerGrowthFormula_zero : PlayerGrowthFormula :=
  {| hp_per_level := (0, 0); sp_per_level := (0, 0); stamina_per_level := (0, 0);
     version := V1 |}.

(** [u64::from_be_bytes] of an ASCII literal. *)
Definition be_u64 (s : string) : Z :=
  fold_left (fun acc c => acc * 256 + Z.of_nat (Ascii.nat_of_ascii c))
    (String.list_ascii_of_string s) 0.

Section Growth.
Context `{GrowthRng}.

Definition sum_growth_rolls (self : PlayerGrowthFormula) (domain_salt : string)
    (stable_id level : Z) (range : Z * Z) : Z :=
  let rolls := wrap_u 64 (sat_i32 (level - 1)) in
  if rolls =? 0 then 0
  else
    let '(min, max) := range in
    let '(lower, upper) := if min <=? max then (min, max) else (max, min) in
    match version self with
    | V1 =>
        let seed := Z.lxor (Z.lxor (be_u64 "GROWTHv1") (be_u64 domain_salt)) stable_id in
        fold_left add32
          (map (growth_sample seed lower upper) (seq 0 (Z.to_nat rolls))) 0
    end.

Definition random_hp (self : PlayerGrowthFormula) (stable_id level : Z) : Z :=
  sum_growth_rolls self "grow::HP" stable_id level (hp_per_level self).
Definition random_sp (self : PlayerGrowthFormula) (stable_id level : Z) : Z :=
  sum_growth_rolls self "grow::SP" stable_id level (sp_per_level self).
Definition random_stamina (self : PlayerGrowthFormula) (stable_id level : Z) : Z :=
  sum_growth_rolls self "grow:STM" stable_id level (stamina_per_level self).
End Growth.

(** ** Sources *)
Record PlayerStatSource : Type := {
  pss_resources : PlayerResourceFormula;
  pss_growth : PlayerGrowthFormula;
  pss_balance : PlayerBalanceRules;
  pss_speeds : SourceSpeeds }.

Record MobStatSource : Type := {
  mss_level : Z;
  mss_core : CoreStatBlock;
  mss_max_hp : Z;
  mss_def_grade_flat : Z;
  mss_balance : MobBalanceRules;
  mss_speeds : SourceSpeeds }.

Inductive ActorStatSource : Type :=
| Source_Player (p : PlayerStatSource)
| Source_Mob (m : MobStatSource).

Definition MobStatSource_base_core_stat (m : MobStatSource) (stat : Stat) : Z :=
  match stat with
  | Stat.Level => mss_level m
  | _ => CoreStatBlock_get (mss_core m) stat
  end.

Definition actor_kind (s : ActorStatSource) : ActorKind :=
  match s with Source_Player _ => ActorKind_Player | Source_Mob _ => ActorKind_Mob end.
Definition source_player (s : ActorStatSource) : option PlayerStatSource :=
  match s with Source_Player p => Some p | Source_Mob _ => None end.
Definition source_mob (s : ActorStatSource) : option MobStatSource :=
  match s with Source_Player _ => None | Source_Mob m => Some m end.
Definition base_core_stat (s : ActorStatSource) (stat : Stat) : Z :=
  match s with
  | Source_Player _ => 0
  | Source_Mob m => MobStatSource_base_core_stat m stat
  end.
Definition view_limit (s : ActorStatSource) (stat : Stat) : option Z :=
  match s with
  | Source_Player p => PlayerBalanceRules_view_limit (pss_balance p) stat
  | Source_Mob m => MobBalanceRules_view_limit (mss_balance m) stat
  end.
Definition stored_write_limit (s : ActorStatSource) (stat : Stat) : option Z :=
  match s with
  | Source_Player p => PlayerBalanceRules_stored_write_limit (pss_balance p) stat
  | Source_Mob _ => None
  end.

(** ** Resource applications *)
Record ResourceApplication : Type := {
  ra_stat : Stat; ra_delta : Z; ra_min_value : Z; ra_clamp_to_cap : bool }.

Definition ResourceApplication_new (stat : Stat) (delta : Z) : ResourceApplication :=
  {| ra_stat := stat; ra_delta := delta; ra_min_value := 0; ra_clamp_to_cap := true |}.
Definition with_min_value (a : ResourceApplication) (min_value : Z) : ResourceApplication :=
  {| ra_stat := ra_stat a; ra_delta := ra_delta a; ra_min_value := min_value;
     ra_clamp_to_cap := ra_clamp_to_cap a |}.
Definition with_unclamped_cap (a : ResourceApplication) : ResourceApplication :=
  {| ra_stat := ra_stat a; ra_delta := ra_delta a; ra_min_value := ra_min_value a;
     ra_clamp_to_cap := false |}.
Definition restore (stat : Stat) (amount : Z) : ResourceApplication :=
  ResourceApplication_new stat amount.
(** [-amount] wraps on [i32::MIN]. *)
Definition spend (stat : Stat) (amount : Z) : ResourceApplication :=
  ResourceApplication_new stat (wrap_s 32 (- amount)).
Definition damage (amount : Z) : ResourceApplication :=
  with_min_value (spend Stat.Hp amount) i32_min.
Definition nonlethal_damage (amount min_remaining_hp : Z) : ResourceApplication :=
  with_min_value (damage amount) min_remaining_hp.
Definition poison (amount : Z) : ResourceApplication := nonlethal_damage amount 1.

Record ResourceApplicationResult : Type := {
  rr_stat : Stat; rr_previous : Z; rr_current : Z; rr_applied_delta : Z;
  rr_was_clamped : bool }.
Definition rr_is_noop (r : ResourceApplicationResult) : bool := rr_applied_delta r =? 0.

Record QueuedRecovery : Type := {
  qr_stat : Stat; qr_previous_pending : Z; qr_current_pending : Z; qr_queued_amount : Z }.

(** ** Facts *)

Lemma exp_reward_percent_cases p m :
  exp_reward_bonus_malus_percent p m =
  let a := sat_i32 (m - p) in
  if 15 <=? a then 180
  else if 0 <=? a then 100 + a * 5
  else nth (Z.to_nat (- a)) [1; 100; 98; 96; 94; 92; 90; 85; 80; 70; 50; 30; 20; 10; 5] 1.
Proof.
  unfold exp_reward_bonus_malus_percent. cbv zeta. generalize (sat_i32 (m - p)) as a. intros a.
  case_bools; zbool; try done.
  destruct (Z_lt_dec a (-14)) as [L | G].
  - rewrite nth_overflow by (cbn; lia). by repeat (destruct a as [| a | a]; try lia; try done).
  - assert (a = -1 \/ a = -2 \/ a = -3 \/ a = -4 \/ a = -5 \/ a = -6 \/ a = -7 \/ a = -8 \/
      a = -9 \/ a = -10 \/ a = -11 \/ a = -12 \/ a = -13 \/ a = -14) as C by lia.
    repeat destruct C as [-> | C]; try reflexivity. by rewrite C.
Qed.

Lemma growth_fold_bounds (l : list Z) lo hi z :
  Forall (fun x => lo <= x <= hi) l ->
  (forall k, 0 <= k <= Z.of_nat (length l) -> is_i32 (z + k * lo) /\ is_i32 (z + k * hi)) ->
  z + Z.of_nat (length l) * lo <= fold_left add32 l z <= z + Z.of_nat (length l) * hi.
Proof.
  revert z. induction l as [| x l IH]; intros z Hf Hb; cbn [fold_left length].
  - lia.
  - inversion Hf as [| ? ? Hx Hl]; subst.
    assert (z +% x = z + x) as E.
    { apply add32_id. destruct (Hb 1) as [B1 B2]; [cbn [length]; lia |]. unfold_widths. lia. }
    rewrite E.
    assert (z + x + Z.of_nat (length l) * lo <= fold_left add32 l (z + x)
      <= z + x + Z.of_nat (length l) * hi) as G; [| nia].
    apply IH; [done |]. intros k Hk.
    destruct (Hb (k + 1)) as [B1 B2]; [cbn [length]; lia |].
    destruct (Hb k) as [B3 B4]; [cbn [length]; lia |]. unfold_widths. nia.
Qed.
