(* ===== verification/Samples.v ===== *)
(** Concrete inputs: a growth generator, a player and a mob stat source, shared
    by the witnesses of the stat theorems. *)
From S2P Require Import Prelude BTree Domain StatStore StatSource.

Definition sample_rng : GrowthRng :=
  fun seed lower upper i => lower + (seed + Z.of_nat i) mod (upper - lower + 1).

Lemma sample_rng_laws : @GrowthRngLaws sample_rng.
Proof.
  intros seed lower upper i H. unfold growth_sample, sample_rng.
  pose proof (Z.mod_pos_bound (seed + Z.of_nat i) (upper - lower + 1)). lia.
Qed.

Definition sample_player : PlayerStatSource :=
  {| pss_resources := {| base_max_hp := 600; base_max_sp := 200; base_max_stamina := 800;
                         hp_per_ht := 40; sp_per_iq := 20; stamina_per_ht := 5 |};
     pss_growth := {| hp_per_level := (36, 44); sp_per_level := (18, 22);
                      stamina_per_level := (5, 8); version := V1 |};
     pss_balance := default_player_balance_rules Warrior;
     pss_speeds := SourceSpeeds_default |}.

Definition sample_mob : MobStatSource :=
  {| mss_level := 7; mss_core := {| cb_st := 12; cb_ht := 9; cb_dx := 5; cb_iq := 3 |};
     mss_max_hp := 430; mss_def_grade_flat := 6; mss_balance := default_mob_balance_rules;
     mss_speeds := SourceSpeeds_default |}.
