(* ===== verification/Progression.v ===== *)
(** Levels and experience: [stats/game/progression.rs] and the level table,
    experience gain and stat-point rules of [player_rules.rs]. *)
From S2P Require Import Prelude BTree Domain StatStore StatSource.

(** ** [PlayerProgressionState] *)
Definition LEVEL_STEPS_PER_LEVEL : Z := 4.
Definition STAT_POINT_STEPS_PER_LEVEL : Z := LEVEL_STEPS_PER_LEVEL - 1.
Definition MAX_LEVEL_STAT_POINTS_EARNING : Z := 91.

Record PlayerProgressionState : Type := {
  prog_level : Z; exp_in_level : Z; next_exp_in_level : Z }.
#[export] Instance PlayerProgressionState_eq_dec : EqDecision PlayerProgressionState.
Proof. solve_decision. Defined.

Definition progression_new (level exp next : Z) : PlayerProgressionState :=
  {| prog_level := level; exp_in_level := exp; next_exp_in_level := next |}.
Definition progression_default : PlayerProgressionState := progression_new 0 0 0.
Definition level_only (level : Z) : PlayerProgressionState := progression_new level 0 0.

Definition normalized (p : PlayerProgressionState) : PlayerProgressionState :=
  {| prog_level := Z.max (prog_level p) 0;
     exp_in_level := exp_in_level p;
     next_exp_in_level := next_exp_in_level p |}.

Definition level_step (self : PlayerProgressionState) : Z :=
  let progression := normalized self in
  if next_exp_in_level progression =? 0 then 0
  else
    let exp := Z.min (exp_in_level progression) (next_exp_in_level progression) in
    let next_exp := next_exp_in_level progression in
    Z.min (Z.min (exp * LEVEL_STEPS_PER_LEVEL) u64_max / next_exp) LEVEL_STEPS_PER_LEVEL.

(** ** [LevelExpTable] *)
Record LevelExpEntry : Type := { le_level : Z; le_next_exp : Z; le_death_loss_pct : Z }.

Record LevelExpTable : Type := { let_entries : list (Z * LevelExpEntry) }.

Inductive LevelExpTableError : Type :=
| LevelExp_Empty
| LevelExp_InvalidLevel (level : Z)
| LevelExp_InvalidNextExp (level next_exp : Z)
| LevelExp_DuplicateLevel (level : Z)
| LevelExp_MissingLevel (level : Z).

(** The loop over the entries. *)
Fixpoint try_new_insert (entries : list LevelExpEntry) (by_level : list (Z * LevelExpEntry)) :
    result (list (Z * LevelExpEntry)) LevelExpTableError :=
  match entries with
  | [] => Ok by_level
  | entry :: entries' =>
      if le_level entry <? 1 then Err (LevelExp_InvalidLevel (le_level entry))
      else if le_next_exp entry <=? 0 then
        Err (LevelExp_InvalidNextExp (le_level entry) (le_next_exp entry))
      else if bt_contains by_level (le_level entry) then
        Err (LevelExp_DuplicateLevel (le_level entry))
      else try_new_insert entries' (bt_insert by_level (le_level entry) entry)
  end.

(** The loop over [(1..).zip(keys)]: the first expected level that is absent. *)
Fixpoint first_gap (expected : Z) (keys : list Z) : option Z :=
  match keys with
  | [] => None
  | level :: keys' => if level =? expected then first_gap (expected + 1) keys' else Some expected
  end.

Definition try_new (entries : list LevelExpEntry) : result LevelExpTable LevelExpTableError :=
  let? by_level := try_new_insert entries [] in
  match by_level with
  | [] => Err LevelExp_Empty
  | _ =>
      if negb (bt_contains by_level 1) then Err (LevelExp_MissingLevel 1)
      else match first_gap 1 (bt_keys by_level) with
           | Some expected => Err (LevelExp_MissingLevel expected)
           | None => Ok {| let_entries := by_level |}
           end
  end.

Definition max_level (t : LevelExpTable) : option Z := fst <$> bt_last (let_entries t).

Definition entry_for_level (t : LevelExpTable) (level : Z) : option LevelExpEntry :=
  bt_get (let_entries t) level.

Definition clamp_i64_to_u32 (value : Z) : Z := clampc value 0 u32_max.

Definition progression_for_level (t : LevelExpTable) (level exp : Z) :
    option PlayerProgressionState :=
  entry ← entry_for_level t level;
  Some (progression_new level (clamp_i64_to_u32 exp) (clamp_i64_to_u32 (le_next_exp entry))).

(** ** Level steps and stat points *)
Record CrossedLevelSteps : Type := { crossed_steps : Z; crossed_points : Z }.

Definition crossed_level_steps (level before_step after_step : Z) : CrossedLevelSteps :=
  let before := clampc before_step 0 LEVEL_STEPS_PER_LEVEL in
  let after := clampc after_step 0 LEVEL_STEPS_PER_LEVEL in
  if after <=? before then {| crossed_steps := 0; crossed_points := 0 |}
  else
    let level_steps := after - before in
    let stat_points :=
      if level <? MAX_LEVEL_STAT_POINTS_EARNING then
        let stat_steps_before := Z.min before STAT_POINT_STEPS_PER_LEVEL in
        let stat_steps_after := Z.min after STAT_POINT_STEPS_PER_LEVEL in
        Z.max (stat_steps_after - stat_steps_before) 0
      else 0 in
    {| crossed_steps := level_steps; crossed_points := stat_points |}.

Definition derive_available_stat_points (level step : Z) (allocations : CoreStatAllocations) : Z :=
  let stat_level := clampc level 1 MAX_LEVEL_STAT_POINTS_EARNING in
  let current_level_steps :=
    if level <? MAX_LEVEL_STAT_POINTS_EARNING then clampc step 0 STAT_POINT_STEPS_PER_LEVEL
    else 0 in
  let earned := (stat_level - 1) * STAT_POINT_STEPS_PER_LEVEL + current_level_steps in
  let spent := allocated_str allocations + allocated_vit allocations
               + allocated_dex allocations + allocated_int allocations in
  clampc (earned - spent) 0 i32_max.

(** ** Experience gain *)
Definition advance_level (progression : PlayerProgressionState) (table : LevelExpTable)
    (max_level levels_gained : Z) : option (PlayerProgressionState * Z) :=
  if max_level <=? prog_level progression then None
  else
    let next_level := sat_i32 (prog_level progression + 1) in
    next ← progression_for_level table next_level 0;
    Some (progression_new (prog_level next) 0 (next_exp_in_level next), levels_gained +% 1).

(** The mutable locals of [apply_player_exp_gain]. *)
Record ExpGain : Type := {
  eg_progression : PlayerProgressionState;
  eg_remaining : Z;
  eg_stat_points : Z;
  eg_level_steps : Z;
  eg_levels : Z;
  eg_applied : Z }.

Inductive flow (A : Type) : Type := Continue (a : A) | Break (a : A).
Arguments Continue {A} a.
Arguments Break {A} a.

(** One iteration of its [while] loop, the loop condition excluded. *)
Definition exp_gain_body (table : LevelExpTable) (max_level : Z) (s : ExpGain) : flow ExpGain :=
  let progression := eg_progression s in
  let before_exp := exp_in_level progression in
  let before_step := level_step progression in
  let next_exp := next_exp_in_level progression in
  if next_exp =? 0 then Break s
  else
    let missing := Z.max (next_exp - before_exp) 0 in
    if missing =? 0 then
      match advance_level progression table max_level (eg_levels s) with
      | None => Break s
      | Some (p, levels) =>
          Continue {| eg_progression := p; eg_remaining := eg_remaining s;
                      eg_stat_points := eg_stat_points s; eg_level_steps := eg_level_steps s;
                      eg_levels := levels; eg_applied := eg_applied s |}
      end
    else if missing <=? eg_remaining s then
      let full := progression_new (prog_level progression) next_exp next_exp in
      let crossed := crossed_level_steps (prog_level full) before_step LEVEL_STEPS_PER_LEVEL in
      let s' p levels :=
        {| eg_progression := p;
           eg_remaining := sat_i64 (eg_remaining s - missing);
           eg_stat_points := eg_stat_points s +% crossed_points crossed;
           eg_level_steps := eg_level_steps s +% crossed_steps crossed;
           eg_levels := levels;
           eg_applied := sat_i64 (eg_applied s + missing) |} in
      match advance_level full table max_level (eg_levels s) with
      | None => Break (s' full (eg_levels s))
      | Some (p, levels) => Continue (s' p levels)
      end
    else
      let gain := wrap_u 32 (eg_remaining s) in
      let p := progression_new (prog_level progression)
                 (Z.min (exp_in_level progression + gain) u32_max) next_exp in
      let crossed := crossed_level_steps (prog_level p) before_step (level_step p) in
      Continue
        {| eg_progression := p;
           eg_remaining := 0;
           eg_stat_points := eg_stat_points s +% crossed_points crossed;
           eg_level_steps := eg_level_steps s +% crossed_steps crossed;
           eg_levels := eg_levels s;
           eg_applied := sat_i64 (eg_applied s + eg_remaining s) |}.

(** The loop; [None] when the fuel runs out. *)
Fixpoint exp_gain_loop (fuel : nat) (table : LevelExpTable) (max_level : Z) (s : ExpGain) :
    option ExpGain :=
  if (0 <? eg_remaining s) && (prog_level (eg_progression s) <? max_level) then
    match fuel with
    | O => None
    | S fuel' =>
        match exp_gain_body table max_level s with
        | Break s' => Some s'
        | Continue s' => exp_gain_loop fuel' table max_level s'
        end
    end
  else Some s.

Record PlayerExpGainOutcome : Type := {
  og_progression : PlayerProgressionState;
  og_applied_exp : Z;
  og_stat_points_gained : Z;
  og_level_steps_gained : Z;
  og_levels_gained : Z }.

Definition exp_gain_start (progression : PlayerProgressionState) (amount : Z) : ExpGain :=
  {| eg_progression := progression; eg_remaining := Z.max amount 0; eg_stat_points := 0;
     eg_level_steps := 0; eg_levels := 0; eg_applied := 0 |}.

(** Every iteration but the last raises the level, hence the fuel. *)
Definition exp_gain_fuel (max_level level : Z) : nat := S (Z.to_nat (max_level - level)).

Definition apply_player_exp_gain (table : LevelExpTable) (current : PlayerProgressionState)
    (amount : Z) : option PlayerExpGainOutcome :=
  progression ← progression_for_level table (prog_level current) (exp_in_level current);
  max ← max_level table;
  s ← exp_gain_loop (exp_gain_fuel max (prog_level progression)) table max
        (exp_gain_start progression amount);
  Some {| og_progression := eg_progression s;
          og_applied_exp := eg_applied s;
          og_stat_points_gained := eg_stat_points s;
          og_level_steps_gained := eg_level_steps s;
          og_levels_gained := eg_levels s |}.

(** ** Experience rewards *)
Definition legacy_mob_exp_reward (player_level mob_level base_exp next_exp : Z) : Z :=
  if base_exp <=? 0 then 0
  else
    let adjusted :=
      sat_i64 (base_exp * exp_reward_bonus_malus_percent player_level mob_level) /% 100 in
    if 0 <? next_exp then Z.max (Z.min adjusted (next_exp /% 10)) 0
    else Z.max adjusted 0.

Record PlayerMobExpRewardOutcome : Type := {
  mo_progression : PlayerProgressionState;
  mo_applied_exp : Z;
  mo_stat_points_gained : Z;
  mo_level_steps_gained : Z;
  mo_level_up : option Z }.

Definition LevelExpTable_apply_mob_exp_reward (level_exp : LevelExpTable)
    (current : PlayerProgressionState) (mob_level base_exp : Z) :
    option PlayerMobExpRewardOutcome :=
  let amount := legacy_mob_exp_reward (prog_level current) mob_level base_exp
                  (next_exp_in_level current) in
  if amount <=? 0 then None
  else
    outcome ← apply_player_exp_gain level_exp current amount;
    if og_applied_exp outcome <=? 0 then None
    else
      Some {| mo_progression := og_progression outcome;
              mo_applied_exp := og_applied_exp outcome;
              mo_stat_points_gained := og_stat_points_gained outcome;
              mo_level_steps_gained := og_level_steps_gained outcome;
              mo_level_up :=
                if prog_level current <? prog_level (og_progression outcome)
                then Some (prog_level (og_progression outcome)) else None |}.

(** * Properties *)

(** ** Construction of the table *)

(** What [try_new] guarantees: levels 1..n without gaps, each with a positive
    requirement. *)
Definition table_wf (t : LevelExpTable) (n : Z) : Prop :=
  1 <= n /\ bt_sorted (let_entries t) /\
  (forall level, 1 <= level <= n <-> is_Some (entry_for_level t level)) /\
  (forall level e, entry_for_level t level = Some e -> le_level e = level /\ 0 < le_next_exp e).

Lemma try_new_insert_ok entries m r :
  bt_sorted m ->
  (forall k e, bt_get m k = Some e -> 1 <= k /\ le_level e = k /\ 0 < le_next_exp e) ->
  try_new_insert entries m = Ok r ->
  bt_sorted r /\
  (forall k e, bt_get r k = Some e -> 1 <= k /\ le_level e = k /\ 0 < le_next_exp e) /\
  (forall k e, bt_get r k = Some e <-> bt_get m k = Some e \/ (e ∈ entries /\ le_level e = k)) /\
  length r = (length m + length entries)%nat.
Proof.
  revert m. induction entries as [| e entries IH]; intros m Hs Hm; cbn.
  - intros. inv_some. repeat split; eauto; try (set_solver); try lia;
      destruct (Hm _ _ H) as (? & ? & ?); done.
  - case_bools; intros Hr; inv_some; try discriminate. zbool.
    assert (bt_get m (le_level e) = None) as Hnone.
    { unfold bt_contains in Heqb1. by destruct (bt_get m (le_level e)). }
    assert (length (bt_insert m (le_level e) e) = S (length m)) as Hlen.
    { clear -Hnone. induction m as [| [k v] m IHm]; cbn in *; [done |].
      case_bools; cbn; try done. rewrite IHm; done. }
    apply IH in Hr as (R1 & R2 & R3 & R4).
    + repeat split; try apply R1; try (eapply R2; eassumption).
      * intros H. apply R3 in H as [H | [H E]].
        -- destruct (Z.eq_dec (le_level e) k) as [<- | N].
           ++ rewrite bt_get_insert_eq in H. inv_some. right. split; [left | done].
           ++ rewrite bt_get_insert_ne in H by done. by left.
        -- right. split; [by right | done].
      * intros [H | [[-> | H]%elem_of_cons E]]; apply R3.
        -- left. rewrite bt_get_insert_ne; [done |]. congruence.
        -- left. subst. apply bt_get_insert_eq.
        -- by right.
      * rewrite R4, Hlen. lia.
    + by apply bt_insert_sorted.
    + intros k e' H. destruct (Z.eq_dec (le_level e) k) as [<- | N].
      * rewrite bt_get_insert_eq in H. inv_some. lia.
      * rewrite bt_get_insert_ne in H by done. eauto.
Qed.

Lemma try_new_insert_nil entries r :
  try_new_insert entries [] = Ok r ->
  bt_sorted r /\
  (forall k e, bt_get r k = Some e -> 1 <= k /\ le_level e = k /\ 0 < le_next_exp e) /\
  (forall k e, bt_get r k = Some e <-> e ∈ entries /\ le_level e = k) /\
  length r = length entries.
Proof.
  intros H. destruct (try_new_insert_ok entries [] r) as (R1 & R2 & R3 & R4);
    [constructor | done | done |].
  do 2 (split; [done |]). split; [| done]. intros k e. rewrite R3. cbn.
  split; [intros [? | ?]; done | auto].
Qed.

Lemma first_gap_None keys e :
  first_gap e keys = None <-> keys = seqZ e (Z.of_nat (length keys)).
Proof.
  revert e. induction keys as [| k keys IH]; intros e; cbn [first_gap length].
  - done.
  - rewrite seqZ_cons by lia. case_bools; zbool.
    + subst. rewrite IH. replace (Z.pred (Z.of_nat (S (length keys)))) with
        (Z.of_nat (length keys)) by lia. rewrite <- Z.add_1_r.
      split; [intros H; by rewrite <- H | intros [= H]; exact H].
    + split; [done | intros [= ? ?]; done].
Qed.

Lemma seqZ_sorted m n : StronglySorted Z.lt (seqZ m n).
Proof.
  destruct (Z_lt_dec n 0) as [L |]; [rewrite seqZ_nil by lia; constructor |].
  revert m. apply (natlike_ind (fun n => forall m, StronglySorted Z.lt (seqZ m n))); [| | lia].
  - intros m. constructor.
  - intros x Hx IH m. rewrite seqZ_cons by lia. rewrite Z.pred_succ. constructor; [apply IH |].
    apply Forall_forall. intros y Hy%elem_of_seqZ. lia.
Qed.

Lemma bt_keys_sorted {V} (m : list (Z * V)) : bt_sorted m -> StronglySorted Z.lt (bt_keys m).
Proof.
  unfold bt_sorted. induction 1 as [| p m Hs IH Hf]; cbn; constructor; [done |].
  apply Forall_forall. intros k (q & -> & Hq)%list_elem_of_fmap.
  eapply Forall_forall in Hf; [exact Hf | exact Hq].
Qed.

Lemma StronglySorted_lt_NoDup (l : list Z) : StronglySorted Z.lt l -> NoDup l.
Proof.
  induction 1 as [| x l Hs IH Hf]; constructor; [| done].
  intros Hin. rewrite Forall_forall in Hf. specialize (Hf _ Hin). lia.
Qed.

Lemma try_new_insert_total entries m :
  Forall (fun e => 1 <= le_level e /\ 0 < le_next_exp e) entries ->
  NoDup (le_level <$> entries) ->
  (forall e, e ∈ entries -> bt_get m (le_level e) = None) ->
  exists r, try_new_insert entries m = Ok r.
Proof.
  revert m. induction entries as [| e entries IH]; intros m Hf Hn Hm; cbn; [eauto |].
  apply Forall_cons in Hf as [[H1 H2] Hf]. apply NoDup_cons in Hn as [Hni Hn].
  replace (le_level e <? 1) with false by (symmetry; apply Z.ltb_ge; lia).
  replace (le_next_exp e <=? 0) with false by (symmetry; apply Z.leb_gt; lia).
  unfold bt_contains. rewrite Hm by left. apply IH; [done | done |].
  intros e' He'. rewrite bt_get_insert_ne; [apply Hm; by right |].
  intros E. apply Hni. rewrite E. apply list_elem_of_fmap. eauto.
Qed.

Lemma bt_keys_elem_get {V} (m : list (Z * V)) k : k ∈ bt_keys m <-> exists v, bt_get m k = Some v.
Proof.
  rewrite <- bt_contains_keys. unfold bt_contains.
  destruct (bt_get m k) as [v |]; split; eauto; try done. intros [? ?]; done.
Qed.

(** The level of an accepted table are exactly those of the entries. *)
Lemma try_new_insert_keys entries r :
  try_new_insert entries [] = Ok r -> bt_keys r ≡ₚ le_level <$> entries.
Proof.
  intros H. apply try_new_insert_nil in H as (R1 & R2 & R3 & R4). apply bt_keys_sorted, StronglySorted_lt_NoDup in R1 as HN.
  assert (forall k, k ∈ bt_keys r <-> k ∈ le_level <$> entries) as Hm.
  { intros k. rewrite bt_keys_elem_get, list_elem_of_fmap. split.
    - intros [v [? ?]%R3]. eauto.
    - intros (e & -> & He). exists e. apply R3. auto. }
  (* as many distinct keys as entries *)
  apply submseteq_length_Permutation.
  - apply NoDup_submseteq; [done | intros k Hk; by apply Hm].
  - unfold bt_keys. by rewrite !length_fmap, R4.
Qed.

Lemma try_new_inv entries t :
  try_new entries = Ok t ->
  try_new_insert entries [] = Ok (let_entries t) /\ let_entries t <> [] /\
  bt_keys (let_entries t) = seqZ 1 (Z.of_nat (length entries)).
Proof.
  unfold try_new. destruct (try_new_insert entries []) as [r | e] eqn:E; cbn; [| done].
  destruct r as [| p r]; [done |]. case_bools; [done |].
  destruct (first_gap 1 _) eqn:G; [done |]. intros. inv_some. cbn [let_entries].
  split; [done |]. split; [done |].
  apply first_gap_None in G. rewrite G at 1. f_equal. f_equal.
  unfold bt_keys. rewrite length_fmap.
  by apply try_new_insert_nil in E as (_ & _ & _ & ->).
Qed.

Lemma try_new_table_wf entries t :
  try_new entries = Ok t -> table_wf t (Z.of_nat (length entries)).
Proof.
  intros H. apply try_new_inv in H as (E & Hne & K).
  apply try_new_insert_nil in E as (R1 & R2 & R3 & R4).
  split; [| split; [done | split]].
  - destruct (let_entries t); [done |]. cbn in R4. lia.
  - intros level. unfold entry_for_level.
    transitivity (level ∈ bt_keys (let_entries t)).
    + rewrite K, elem_of_seqZ. lia.
    + apply bt_keys_elem_get.
  - intros level e H. destruct (R2 _ _ H) as (_ & ? & ?). auto.
Qed.

Lemma table_wf_max_level t n : table_wf t n -> max_level t = Some n.
Proof.
  intros (Hn & Hs & Hk & _). unfold max_level.
  assert (is_Some (entry_for_level t n)) as [e He] by (apply Hk; lia).
  destruct (bt_last (let_entries t)) as [[k v] |] eqn:E; cbn.
  - pose proof (bt_last_max _ _ _ _ Hs E (bt_get_elem _ _ _ He)) as L. cbn in L.
    assert (k <= n) as U.
    { apply Hk. exists v. apply bt_elem_get; [done |].
      apply list_elem_of_lookup. eexists. by rewrite <- last_lookup. }
    f_equal. lia.
  - apply last_None in E. apply bt_get_elem in He. rewrite E in He. by apply elem_of_nil in He.
Qed.

(** ** The experience ledger *)

(** Experience needed to complete a level of the table. *)
Definition level_cost (t : LevelExpTable) (level : Z) : Z :=
  match entry_for_level t level with
  | Some e => clamp_i64_to_u32 (le_next_exp e)
  | None => 0
  end.

(** Experience needed to complete the first [n] levels. *)
Fixpoint exp_before (t : LevelExpTable) (n : nat) : Z :=
  match n with
  | O => 0
  | S n' => exp_before t n' + level_cost t (Z.of_nat n)
  end.

(** Experience a progression stands for: the levels behind it and the part of
    the current one, of which no more than the requirement counts. *)
Definition total_exp (t : LevelExpTable) (p : PlayerProgressionState) : Z :=
  exp_before t (Z.to_nat (prog_level p - 1)) + Z.min (exp_in_level p) (next_exp_in_level p).

(** Stat points earned at a level and step, and level steps since level 0. *)
Definition earned_points (level step : Z) : Z :=
  (clampc level 1 MAX_LEVEL_STAT_POINTS_EARNING - 1) * STAT_POINT_STEPS_PER_LEVEL +
  (if level <? MAX_LEVEL_STAT_POINTS_EARNING then clampc step 0 STAT_POINT_STEPS_PER_LEVEL else 0).

Definition steps_at (p : PlayerProgressionState) : Z :=
  LEVEL_STEPS_PER_LEVEL * prog_level p + level_step p.
Definition points_at (p : PlayerProgressionState) : Z :=
  earned_points (prog_level p) (level_step p).

(** A progression as the table produces it. *)
Definition prog_wf (t : LevelExpTable) (n : Z) (p : PlayerProgressionState) : Prop :=
  1 <= prog_level p <= n /\ 0 <= exp_in_level p <= u32_max /\
  next_exp_in_level p = level_cost t (prog_level p) /\ 1 <= next_exp_in_level p <= u32_max.

Lemma level_cost_pos t n level :
  table_wf t n -> 1 <= level <= n -> 1 <= level_cost t level <= u32_max.
Proof.
  intros (_ & _ & Hk & He) Hl. unfold level_cost.
  destruct (proj1 (Hk level) Hl) as [e E]. rewrite E.
  destruct (He _ _ E) as [_ P]. unfold clamp_i64_to_u32, clampc. unfold_widths. lia.
Qed.

Lemma progression_for_level_wf t n level exp :
  table_wf t n -> 1 <= level <= n ->
  exists p, progression_for_level t level exp = Some p /\ prog_wf t n p /\
    prog_level p = level /\ exp_in_level p = clamp_i64_to_u32 exp.
Proof.
  intros Ht Hl. pose proof (level_cost_pos _ _ _ Ht Hl) as Hc.
  destruct Ht as (_ & _ & Hk & _). destruct (proj1 (Hk level) Hl) as [e E].
  assert (level_cost t level = clamp_i64_to_u32 (le_next_exp e)) as Ec
    by (unfold level_cost; by rewrite E).
  exists (progression_new level (clamp_i64_to_u32 exp) (level_cost t level)).
  split; [unfold progression_for_level; rewrite E, Ec; reflexivity |].
  split; [| split; reflexivity].
  split; [exact Hl |]. split; [apply clampc_range; discriminate |].
  split; [reflexivity | exact Hc].
Qed.

(** The step of a well-formed progression. *)
Lemma level_step_wf t n p :
  prog_wf t n p ->
  level_step p = Z.min (exp_in_level p) (next_exp_in_level p) * 4 / next_exp_in_level p /\
  0 <= level_step p <= 4.
Proof.
  intros (_ & He & _ & Hn). unfold level_step, normalized. cbn -[Z.mul Z.div].
  replace (next_exp_in_level p =? 0) with false by (symmetry; apply Z.eqb_neq; lia).
  unfold LEVEL_STEPS_PER_LEVEL. set (e := Z.min _ (next_exp_in_level p)).
  assert (0 <= e <= next_exp_in_level p) by lia.
  rewrite (Z.min_l (e * 4)) by (unfold_widths; lia).
  assert (0 <= e * 4 / next_exp_in_level p <= 4).
  { split; [apply Z.div_pos; lia |]. apply Z.div_le_upper_bound; nia. }
  lia.
Qed.

Lemma level_step_full level next : 1 <= next <= u32_max -> level_step (progression_new level next next) = 4.
Proof.
  intros Hn. unfold level_step, normalized, progression_new. cbn -[Z.mul Z.div].
  replace (next =? 0) with false by (symmetry; apply Z.eqb_neq; lia).
  rewrite Z.min_id. unfold LEVEL_STEPS_PER_LEVEL. rewrite (Z.min_l (next * 4)) by (unfold_widths; lia).
  rewrite Z.mul_comm, Z.div_mul by lia. done.
Qed.

Lemma level_step_zero level next : 1 <= next -> level_step (progression_new level 0 next) = 0.
Proof.
  intros Hn. unfold level_step, normalized, progression_new. cbn -[Z.mul Z.div].
  replace (next =? 0) with false by (symmetry; apply Z.eqb_neq; lia).
  rewrite (Z.min_l 0 next) by lia. change (0 * LEVEL_STEPS_PER_LEVEL `min` u64_max) with 0.
  rewrite Z.div_0_l by lia. done.
Qed.

Lemma level_step_over t n p :
  prog_wf t n p -> next_exp_in_level p <= exp_in_level p -> level_step p = 4.
Proof.
  intros Hp Hle. destruct (level_step_wf _ _ _ Hp) as [-> _]. destruct Hp as (_ & _ & _ & Hn).
  rewrite Z.min_r by lia. rewrite Z.mul_comm, Z.div_mul by lia. done.
Qed.

(** Crossing steps inside a level, in terms of the points earned. *)
Lemma crossed_spec level b a :
  1 <= level -> 0 <= b <= a -> a <= 4 ->
  crossed_steps (crossed_level_steps level b a) = a - b /\
  crossed_points (crossed_level_steps level b a) = earned_points level a - earned_points level b.
Proof.
  intros Hl Hb Ha. unfold crossed_level_steps, earned_points, LEVEL_STEPS_PER_LEVEL,
    STAT_POINT_STEPS_PER_LEVEL, MAX_LEVEL_STAT_POINTS_EARNING, clampc, LEVEL_STEPS_PER_LEVEL.
  case_bools; zbool; cbn [crossed_steps crossed_points]; lia.
Qed.

Lemma earned_next_level level : 1 <= level -> earned_points (level + 1) 0 = earned_points level 4.
Proof.
  intros Hl. unfold earned_points, MAX_LEVEL_STAT_POINTS_EARNING, STAT_POINT_STEPS_PER_LEVEL,
    LEVEL_STEPS_PER_LEVEL, clampc. case_bools; zbool; lia.
Qed.

Lemma exp_before_succ t level :
  1 <= level -> exp_before t (Z.to_nat level) = exp_before t (Z.to_nat (level - 1)) + level_cost t level.
Proof.
  intros Hl. replace (Z.to_nat level) with (S (Z.to_nat (level - 1))) by lia.
  cbn [exp_before]. do 2 f_equal. lia.
Qed.

Lemma advance_level_spec t n p levels :
  table_wf t n -> n <= i32_max -> 1 <= prog_level p < n ->
  exists p', advance_level p t n levels = Some (p', levels +% 1) /\ prog_wf t n p' /\
    prog_level p' = prog_level p + 1 /\ exp_in_level p' = 0.
Proof.
  intros Ht Hi Hl. unfold advance_level.
  replace (n <=? prog_level p) with false by (symmetry; apply Z.leb_gt; lia).
  replace (sat_i32 (prog_level p + 1)) with (prog_level p + 1)
    by (symmetry; apply clampc_id; unfold_widths; lia).
  destruct (progression_for_level_wf t n (prog_level p + 1) 0 Ht) as (q & -> & Hq & Hql & Hqe); [lia |].
  cbn. eexists. split; [reflexivity |]. unfold prog_wf in *. cbn. rewrite Hql in *.
  repeat split; try lia; apply Hq.
Qed.

(** The loop invariant, relative to the starting progression and the amount. *)
Record exp_gain_inv (t : LevelExpTable) (n : Z) (p0 : PlayerProgressionState) (amount : Z)
    (s : ExpGain) : Prop := {
  egi_wf : prog_wf t n (eg_progression s);
  egi_level : prog_level p0 <= prog_level (eg_progression s);
  egi_remaining : 0 <= eg_remaining s;
  egi_applied : 0 <= eg_applied s;
  egi_sum : eg_remaining s + eg_applied s = amount;
  egi_total : eg_applied s = total_exp t (eg_progression s) - total_exp t p0;
  egi_steps : eg_level_steps s = wrap_s 32 (steps_at (eg_progression s) - steps_at p0);
  egi_points : eg_stat_points s = wrap_s 32 (points_at (eg_progression s) - points_at p0);
  egi_levels : eg_levels s = wrap_s 32 (prog_level (eg_progression s) - prog_level p0) }.

Lemma wrap32_step (a b d z : Z) : a = wrap_s 32 z -> b = z + d -> a +% d = wrap_s 32 b.
Proof. intros -> ->. apply wrap32_idem_add_l. Qed.

(** What a completed level changes in the totals. *)
Lemma level_up_totals t n p p' :
  prog_wf t n p -> prog_wf t n p' ->
  prog_level p' = prog_level p + 1 -> exp_in_level p' = 0 ->
  total_exp t p' - total_exp t p =
    next_exp_in_level p - Z.min (exp_in_level p) (next_exp_in_level p) /\
  steps_at p' - steps_at p = 4 - level_step p /\
  points_at p' - points_at p = earned_points (prog_level p) 4 - earned_points (prog_level p) (level_step p).
Proof.
  intros Hp Hp' Hl He. destruct Hp as (Hp1 & _ & Hc & _), Hp' as (_ & _ & _ & Hn').
  assert (level_step p' = 0) as Hs.
  { destruct p' as [l e nx]. cbn in *. subst e. apply level_step_zero. lia. }
  unfold total_exp, steps_at, points_at, LEVEL_STEPS_PER_LEVEL. rewrite Hs, He, Hl.
  replace (prog_level p + 1 - 1) with (prog_level p) by lia.
  rewrite exp_before_succ, Hc, earned_next_level by lia. lia.
Qed.

Lemma exp_gain_body_spec t n p0 amount s :
  table_wf t n -> n <= i32_max -> amount <= i64_max ->
  exp_gain_inv t n p0 amount s ->
  0 < eg_remaining s -> prog_level (eg_progression s) < n ->
  exists s', exp_gain_body t n s = Continue s' /\ exp_gain_inv t n p0 amount s' /\
    (prog_level (eg_progression s') = prog_level (eg_progression s) + 1 \/ eg_remaining s' = 0).
Proof.
  intros Ht Hn Ha [Hw Hlv Hrem Happ Hsum Htot Hst Hpt Hls] Hpos Hlt.
  destruct (eg_progression s) as [l e nx] eqn:Ep. cbn [prog_level] in *.
  pose proof Hw as ((Hl1 & Hl2) & He & Hc & Hnx). cbn in Hl1, Hl2, He, Hc, Hnx.
  destruct (level_step_wf _ _ _ Hw) as [_ Hstep].
  set (st := level_step {| prog_level := l; exp_in_level := e; next_exp_in_level := nx |}) in *.
  unfold exp_gain_body. rewrite Ep. cbn [exp_in_level next_exp_in_level prog_level].
  change (level_step {| prog_level := l; exp_in_level := e; next_exp_in_level := nx |}) with st.
  replace (nx =? 0) with false by (symmetry; apply Z.eqb_neq; lia).
  destruct (advance_level_spec t n {| prog_level := l; exp_in_level := e; next_exp_in_level := nx |}
    (eg_levels s) Ht Hn) as (p' & Hadv & Hw' & Hl' & He'); [cbn; lia |].
  destruct (level_up_totals _ _ _ _ Hw Hw' Hl' He') as (T1 & T2 & T3). fold st in T2, T3.
  cbn [prog_level exp_in_level next_exp_in_level] in *.
  destruct (Z.eqb_spec (Z.max (nx - e) 0) 0) as [M0 | M0].
  - (* the level was already complete *)
    rewrite Hadv. eexists. split; [reflexivity |]. split; [| left; exact Hl'].
    assert (st = 4) as S4 by (apply (level_step_over t n); [done | cbn; lia]).
    rewrite S4 in *. constructor; cbn; try done; try lia.
    + rewrite Hst. f_equal. lia.
    + rewrite Hpt. f_equal. lia.
    + eapply wrap32_step; [exact Hls |]. lia.
  - assert (e < nx) as Hlo by lia. rewrite Z.max_l in * by lia. clear M0.
    destruct (Z.leb_spec (nx - e) (eg_remaining s)) as [Hge | Hless].
    + (* the level is completed *)
      destruct (crossed_spec l st 4 ltac:(lia) ltac:(lia) ltac:(lia)) as [C1 C2].
      change (advance_level (progression_new l nx nx) t n (eg_levels s)) with
        (advance_level {| prog_level := l; exp_in_level := e; next_exp_in_level := nx |} t n (eg_levels s)).
      rewrite Hadv. eexists. split; [reflexivity |]. split; [| left; exact Hl'].
      unfold sat_i64. rewrite !clampc_id by (unfold_widths; lia).
      cbn [prog_level progression_new]. unfold LEVEL_STEPS_PER_LEVEL. rewrite C1, C2.
      constructor; cbn; try done; try lia.
      * eapply wrap32_step; [exact Hst |]. lia.
      * eapply wrap32_step; [exact Hpt |]. lia.
      * eapply wrap32_step; [exact Hls |]. lia.
    + (* the amount is used up inside the level *)
      eexists. split; [reflexivity |]. split; [| right; reflexivity].
      assert (wrap_u 32 (eg_remaining s) = eg_remaining s) as Eg.
      { apply Z.mod_small. unfold_widths. change (2 ^ 32) with 4294967296. lia. }
      rewrite Eg, (Z.min_l (e + eg_remaining s)) by (unfold_widths; lia).
      unfold sat_i64. rewrite clampc_id by (unfold_widths; lia).
      set (q := progression_new l (e + eg_remaining s) nx).
      assert (prog_wf t n q) as Hq by (unfold prog_wf; cbn; unfold_widths; lia).
      destruct (level_step_wf _ _ _ Hq) as [Eq Hqs]. cbn [q exp_in_level next_exp_in_level progression_new] in Eq.
      destruct (level_step_wf _ _ _ Hw) as [Ew _]. fold st in Ew. cbn [exp_in_level next_exp_in_level] in Ew.
      assert (st <= level_step q) as Hmono by (rewrite Eq, Ew; apply Z.div_le_mono; lia).
      change (prog_level q) with l.
      destruct (crossed_spec l st (level_step q) ltac:(lia) ltac:(lia) ltac:(lia)) as [C1 C2].
      rewrite C1, C2. constructor; cbn [eg_progression eg_remaining eg_applied eg_level_steps eg_stat_points eg_levels]; try done; try lia.
      * unfold total_exp in *. cbn [q prog_level exp_in_level next_exp_in_level progression_new] in *.
        rewrite Z.min_l in * by lia. lia.
      * eapply wrap32_step; [exact Hst |]. unfold steps_at. cbn [q prog_level progression_new]. fold st. fold q. lia.
      * eapply wrap32_step; [exact Hpt |]. unfold points_at. cbn [q prog_level progression_new]. fold st. fold q. lia.
Qed.

Lemma exp_gain_loop_spec t n p0 amount s fuel :
  table_wf t n -> n <= i32_max -> amount <= i64_max ->
  exp_gain_inv t n p0 amount s ->
  n - prog_level (eg_progression s) < Z.of_nat fuel ->
  exists s', exp_gain_loop fuel t n s = Some s' /\ exp_gain_inv t n p0 amount s' /\
    (eg_remaining s' = 0 \/ prog_level (eg_progression s') = n).
Proof.
  intros Ht Hn Ha. revert s. induction fuel as [| fuel IH]; intros s Hi Hf; cbn [exp_gain_loop].
  - pose proof (egi_wf _ _ _ _ _ Hi) as ((_ & ?) & _). lia.
  - destruct (Z.ltb_spec 0 (eg_remaining s)) as [R | R];
      [destruct (Z.ltb_spec (prog_level (eg_progression s)) n) as [L | L] |]; cbn [andb].
    + destruct (exp_gain_body_spec _ _ _ _ _ Ht Hn Ha Hi R L) as (s' & -> & Hi' & [Hl | Hr]).
      * apply IH; [done |]. rewrite Hl. lia.
      * exists s'. split; [| auto]. destruct fuel; cbn [exp_gain_loop]; by rewrite Hr.
    + exists s. pose proof (egi_wf _ _ _ _ _ Hi) as ((_ & ?) & _). split; [done |]. split; [done |]. right. lia.
    + exists s. pose proof (egi_remaining _ _ _ _ _ Hi). split; [done |]. split; [done |]. left. lia.
Qed.

Lemma exp_gain_start_inv t n p amount :
  prog_wf t n p -> exp_gain_inv t n p (Z.max amount 0) (exp_gain_start p amount).
Proof.
  intros Hp. unfold exp_gain_start. constructor; cbn; try done; try lia; by rewrite Z.sub_diag.
Qed.

(** The gain of a table that accepts the level: it terminates, and its outcome
    satisfies the loop invariant with nothing left to apply below the cap. *)
Lemma apply_player_exp_gain_inv t n current amount :
  table_wf t n -> n <= i32_max -> amount <= i64_max -> 1 <= prog_level current <= n ->
  exists p0 s,
    progression_for_level t (prog_level current) (exp_in_level current) = Some p0 /\
    apply_player_exp_gain t current amount =
      Some {| og_progression := eg_progression s; og_applied_exp := eg_applied s;
              og_stat_points_gained := eg_stat_points s; og_level_steps_gained := eg_level_steps s;
              og_levels_gained := eg_levels s |} /\
    exp_gain_inv t n p0 (Z.max amount 0) s /\
    (eg_remaining s = 0 \/ prog_level (eg_progression s) = n).
Proof.
  intros Ht Hn Ha Hl.
  destruct (progression_for_level_wf t n _ (exp_in_level current) Ht Hl) as (p0 & Hp & Hw & Hpl & _).
  destruct (exp_gain_loop_spec t n p0 (Z.max amount 0) (exp_gain_start p0 amount)
    (exp_gain_fuel n (prog_level p0))) as (s & Hs & Hi & Hend); [done | done | | | |].
  - unfold_widths. lia.
  - by apply exp_gain_start_inv.
  - unfold exp_gain_fuel. cbn [exp_gain_start eg_progression]. lia.
  - exists p0, s. unfold apply_player_exp_gain. rewrite Hp, (table_wf_max_level _ _ Ht). cbn [mbind option_bind].
    rewrite Hs. auto.
Qed.

Lemma earned_points_bound level step : 0 <= earned_points level step <= 273.
Proof.
  unfold earned_points, MAX_LEVEL_STAT_POINTS_EARNING, STAT_POINT_STEPS_PER_LEVEL,
    LEVEL_STEPS_PER_LEVEL, clampc. case_bools; lia.
Qed.

Lemma earned_points_mono l s l' s' :
  1 <= l -> l <= l' -> l < l' \/ s <= s' -> earned_points l s <= earned_points l' s'.
Proof.
  intros. unfold earned_points, MAX_LEVEL_STAT_POINTS_EARNING, STAT_POINT_STEPS_PER_LEVEL,
    LEVEL_STEPS_PER_LEVEL, clampc. case_bools; zbool; lia.
Qed.

Lemma derive_available_earned level step alloc :
  derive_available_stat_points level step alloc =
  clampc (earned_points level step - (allocated_str alloc + allocated_vit alloc
    + allocated_dex alloc + allocated_int alloc)) 0 i32_max.
Proof. reflexivity. Qed.

Lemma level_step_mono t n p p' :
  prog_wf t n p -> prog_wf t n p' -> prog_level p = prog_level p' ->
  total_exp t p <= total_exp t p' -> level_step p <= level_step p'.
Proof.
  intros Hp Hp' El Ht. destruct (level_step_wf _ _ _ Hp) as [-> _], (level_step_wf _ _ _ Hp') as [-> _].
  destruct Hp as (_ & _ & Hc & Hn), Hp' as (_ & _ & Hc' & _).
  assert (next_exp_in_level p = next_exp_in_level p') as En by congruence.
  unfold total_exp in Ht. rewrite <- El, <- En in *. apply Z.div_le_mono; lia.
Qed.

(** ** The reward percentage *)

Definition percent_at (a : Z) : Z :=
  if 15 <=? a then 180
  else if 0 <=? a then 100 + a * 5
  else nth (Z.to_nat (- a)) [1; 100; 98; 96; 94; 92; 90; 85; 80; 70; 50; 30; 20; 10; 5] 1.

Lemma percent_at_clamped a : percent_at a = percent_at (clampc a (-15) 15).
Proof.
  unfold clampc. destruct (Z_lt_dec a (-15)) as [L | L]; [| destruct (Z_lt_dec 15 a) as [G | G]].
  - replace (Z.max (-15) (Z.min a 15)) with (-15) by lia. unfold percent_at.
    replace (15 <=? a) with false by (symmetry; apply Z.leb_gt; lia).
    replace (0 <=? a) with false by (symmetry; apply Z.leb_gt; lia).
    rewrite nth_overflow by (change (15 <= Z.to_nat (- a))%nat; lia). reflexivity.
  - replace (Z.max (-15) (Z.min a 15)) with 15 by lia. unfold percent_at.
    replace (15 <=? a) with true by (symmetry; apply Z.leb_le; lia). reflexivity.
  - f_equal. lia.
Qed.

Lemma percent_at_table a b :
  -15 <= a <= 15 -> -15 <= b <= 15 ->
  (1 <=? percent_at a) && (percent_at b <=? 180) && implb (a <=? b) (percent_at a <=? percent_at b) = true.
Proof.
  intros Ha Hb.
  assert (forallb (fun a => forallb (fun b => (1 <=? percent_at a) && (percent_at b <=? 180) &&
    implb (a <=? b) (percent_at a <=? percent_at b)) (seqZ (-15) 31)) (seqZ (-15) 31) = true) as T
    by (by vm_compute).
  rewrite forallb_forall in T. specialize (T a). rewrite <- list_elem_of_In, elem_of_seqZ in T.
  specialize (T ltac:(lia)). rewrite forallb_forall in T. specialize (T b).
  rewrite <- list_elem_of_In, elem_of_seqZ in T. apply T. lia.
Qed.

Lemma percent_at_mono a b : a <= b -> 1 <= percent_at a <= percent_at b /\ percent_at b <= 180.
Proof.
  intros Hab. rewrite (percent_at_clamped a), (percent_at_clamped b).
  assert (clampc a (-15) 15 <= clampc b (-15) 15) as Hc by (unfold clampc; lia).
  pose proof (percent_at_table (clampc a (-15) 15) (clampc b (-15) 15)
    ltac:(apply clampc_range; lia) ltac:(apply clampc_range; lia)) as T.
  rewrite (proj2 (Z.leb_le _ _) Hc) in T. cbn [implb] in T. zbool. lia.
Qed.

Lemma percent_is_percent_at p m : exp_reward_bonus_malus_percent p m = percent_at (sat_i32 (m - p)).
Proof. apply exp_reward_percent_cases. Qed.

Lemma percent_mono p m1 m2 :
  m1 <= m2 -> 1 <= exp_reward_bonus_malus_percent p m1 <= exp_reward_bonus_malus_percent p m2 /\
  exp_reward_bonus_malus_percent p m2 <= 180.
Proof.
  intros H. rewrite !percent_is_percent_at. apply percent_at_mono. unfold sat_i32, clampc. lia.
Qed.

Lemma sat_i64_mono a b : a <= b -> sat_i64 a <= sat_i64 b.
Proof. unfold sat_i64, clampc. lia. Qed.

(** * Main results *)

(** The entries a level table may be built from: one per level 1..n, each with
    a positive requirement. *)
Definition levels_valid (entries : list LevelExpEntry) : Prop :=
  entries <> [] /\ Forall (fun e => 0 < le_next_exp e) entries /\
  (le_level <$> entries) ≡ₚ seqZ 1 (Z.of_nat (length entries)).

Lemma levels_valid_try_new entries : levels_valid entries -> exists t, try_new entries = Ok t.
Proof.
  intros (Hne & Hpos & Hperm).
  destruct (try_new_insert_total entries []) as [r Hr].
  - rewrite Forall_forall in Hpos |- *. intros e He. split; [| auto].
    assert (le_level e ∈ le_level <$> entries) as Hin by (apply list_elem_of_fmap; eauto).
    rewrite Hperm, elem_of_seqZ in Hin. lia.
  - rewrite Hperm. apply NoDup_seqZ.
  - done.
  - pose proof (try_new_insert_keys _ _ Hr) as HK. pose proof (try_new_insert_nil _ _ Hr) as (R1 & _ & _ & R4).
    assert (bt_keys r = seqZ 1 (Z.of_nat (length r))) as HKeq.
    { rewrite R4. apply (StronglySorted_unique_strong Z.lt);
        [intros; lia | by apply bt_keys_sorted | apply seqZ_sorted |].
      by rewrite HK, Hperm. }
    assert (0 < length r)%nat as Hlen by (rewrite R4; destruct entries; [done | cbn; lia]).
    unfold try_new. rewrite Hr. cbn [rbind]. destruct r as [| p r]; [cbn in Hlen; lia |].
    assert (bt_contains (p :: r) 1 = true) as ->.
    { apply bt_contains_keys. rewrite HKeq, elem_of_seqZ. lia. }
    cbn [negb]. rewrite (proj2 (first_gap_None _ _)); [eauto |].
    rewrite HKeq at 1. f_equal. unfold bt_keys. by rewrite length_fmap.
Qed.

(** [LevelExpTable::try_new] accepts exactly the gap-free tables: it
    succeeds if and only if the entries are the levels 1..n in some order, each
    once and with a positive requirement, and the table it returns holds
    precisely those entries, with n as its maximum level. *)
Theorem try_new_spec entries :
  match try_new entries with
  | Ok t =>
      levels_valid entries /\ max_level t = Some (Z.of_nat (length entries)) /\
      forall level e, entry_for_level t level = Some e <-> e ∈ entries /\ le_level e = level
  | Err _ => ~ levels_valid entries
  end.
Proof.
  destruct (try_new entries) as [t | err] eqn:E.
  - pose proof (try_new_table_wf _ _ E) as Hw. apply try_new_inv in E as (Hi & Hne & HK).
    pose proof (try_new_insert_nil _ _ Hi) as (_ & R2 & R3 & R4).
    split; [| split; [by apply table_wf_max_level | exact R3]].
    split; [| split].
    + intros ->. by destruct (let_entries t).
    + apply Forall_forall. intros e He.
      assert (bt_get (let_entries t) (le_level e) = Some e) as G by (apply R3; auto).
      by destruct (R2 _ _ G) as (_ & _ & ?).
    + by rewrite <- (try_new_insert_keys _ _ Hi), HK.
  - intros [t Ht]%levels_valid_try_new. congruence.
Qed.

(** [C38] Experience is conserved: for a table built by [try_new], a gain applied
    at any level of the table terminates with an outcome whose applied
    experience is exactly the difference of total experience between the new and
    the old progression, is never negative nor more than the amount, and falls
    short of the amount only when the maximum level has been reached. *)
Theorem apply_player_exp_gain_conserves entries t current amount :
  try_new entries = Ok t -> Z.of_nat (length entries) <= i32_max ->
  1 <= prog_level current <= Z.of_nat (length entries) -> amount <= i64_max ->
  exists p0 o,
    progression_for_level t (prog_level current) (exp_in_level current) = Some p0 /\
    apply_player_exp_gain t current amount = Some o /\
    og_applied_exp o = total_exp t (og_progression o) - total_exp t p0 /\
    0 <= og_applied_exp o <= Z.max amount 0 /\
    (og_applied_exp o = Z.max amount 0 \/
     prog_level (og_progression o) = Z.of_nat (length entries)).
Proof.
  intros Ht Hn Hl Ha. apply try_new_table_wf in Ht.
  destruct (apply_player_exp_gain_inv _ _ current amount Ht Hn Ha Hl) as (p0 & s & Hp & -> & Hi & Hend).
  exists p0. eexists. split; [done |]. split; [reflexivity |]. cbn.
  destruct Hi as [_ _ Hr Happ Hsum Htot _ _ _]. split; [done |]. lia.
Qed.

(** Rewards of a gain agree with the progression it reaches: the stat points
    it reports are the points [derive_available_stat_points] adds for the same
    allocations between the old and the new progression, the level steps are four
    per level plus the difference of steps, the levels are the difference of
    levels (both as wrapped i32), and the level never falls nor passes the cap. *)
Theorem apply_player_exp_gain_rewards entries t current amount alloc :
  try_new entries = Ok t -> Z.of_nat (length entries) <= i32_max ->
  1 <= prog_level current <= Z.of_nat (length entries) -> amount <= i64_max ->
  0 <= allocated_str alloc -> 0 <= allocated_vit alloc ->
  0 <= allocated_dex alloc -> 0 <= allocated_int alloc ->
  allocated_str alloc + allocated_vit alloc + allocated_dex alloc + allocated_int alloc
    <= earned_points (prog_level current) 0 ->
  exists p0 o,
    progression_for_level t (prog_level current) (exp_in_level current) = Some p0 /\
    apply_player_exp_gain t current amount = Some o /\
    let p := og_progression o in
    prog_level p0 <= prog_level p <= Z.of_nat (length entries) /\
    og_levels_gained o = prog_level p -% prog_level p0 /\
    og_level_steps_gained o =
      wrap_s 32 (4 * (prog_level p - prog_level p0) + (level_step p - level_step p0)) /\
    derive_available_stat_points (prog_level p) (level_step p) alloc =
      derive_available_stat_points (prog_level p0) (level_step p0) alloc + og_stat_points_gained o.
Proof.
  intros Ht Hn Hl Ha A1 A2 A3 A4 Hsp. apply try_new_table_wf in Ht.
  destruct (apply_player_exp_gain_inv _ _ current amount Ht Hn Ha Hl) as (p0 & s & Hp & -> & Hi & _).
  destruct (progression_for_level_wf _ _ _ (exp_in_level current) Ht Hl) as (q & Hq & Hqw & Hql & _).
  rewrite Hp in Hq. inv_some. exists q. eexists. split; [done |]. split; [reflexivity |].
  cbn -[derive_available_stat_points level_step].
  destruct Hi as [Hw Hlv _ Hap _ Htot Hst Hpt Hls]. destruct (level_step_wf _ _ _ Hqw) as [_ S0].
  destruct (level_step_wf _ _ _ Hw) as [_ S1]. pose proof Hw as ((_ & Hle) & _).
  split; [lia |]. split; [exact Hls |].
  split; [rewrite Hst; f_equal; unfold steps_at, LEVEL_STEPS_PER_LEVEL; lia |].
  rewrite Hpt. unfold points_at. rewrite !derive_available_earned.
  assert (earned_points (prog_level q) 0 <= earned_points (prog_level q) (level_step q)
    /\ earned_points (prog_level q) (level_step q)
         <= earned_points (prog_level (eg_progression s)) (level_step (eg_progression s))) as [B0 B1].
  { split; apply earned_points_mono; try lia.
    destruct (Z.eq_dec (prog_level q) (prog_level (eg_progression s))) as [E | N]; [| lia].
    pose proof (level_step_mono _ _ _ _ Hqw Hw E ltac:(lia)). lia. }
  pose proof (earned_points_bound (prog_level q) (level_step q)).
  pose proof (earned_points_bound (prog_level (eg_progression s)) (level_step (eg_progression s))).
  rewrite <- Hql in Hsp.
  rewrite wrap32_id by (unfold_widths; lia). rewrite !clampc_id by (unfold_widths; lia). lia.
Qed.

Lemma legacy_mob_exp_reward_facts player_level m base_exp next_exp :
  is_i64 base_exp ->
  0 <= legacy_mob_exp_reward player_level m base_exp next_exp <= i64_max.
Proof.
  intros Hb. destruct (percent_mono player_level m m ltac:(lia)) as [Hp1 Hp2].
  unfold legacy_mob_exp_reward. unfold_widths. destruct (Z.leb_spec base_exp 0) as [B | B]; [lia |].
  set (a := sat_i64 (base_exp * exp_reward_bonus_malus_percent player_level m)).
  assert (0 <= a <= 9223372036854775807) as Ha.
  { assert (0 <= base_exp * exp_reward_bonus_malus_percent player_level m) by nia.
    unfold a, sat_i64, clampc; unfold_widths; lia. }
  rewrite Z.quot_div_nonneg by lia.
  pose proof (Z.div_pos a 100 ltac:(lia) ltac:(lia)).
  pose proof (Z.div_le_mono a 9223372036854775807 100 ltac:(lia) ltac:(lia)) as D.
  change (9223372036854775807 / 100) with 92233720368547758 in D.
  case_bools; lia.
Qed.

(** The experience for a kill is never negative, is zero for a mob without
    experience, never exceeds a tenth of the player's level requirement nor 1.8
    times the mob's experience, and does not shrink when the mob's level grows. *)
Theorem legacy_mob_exp_reward_spec player_level m1 m2 base_exp next_exp :
  m1 <= m2 -> is_i64 base_exp ->
  let r1 := legacy_mob_exp_reward player_level m1 base_exp next_exp in
  let r2 := legacy_mob_exp_reward player_level m2 base_exp next_exp in
  0 <= r1 <= r2 /\ (base_exp <= 0 -> r2 = 0) /\
  (0 < next_exp -> r2 <= next_exp / 10) /\ (0 <= base_exp -> r2 <= base_exp * 180 / 100).
Proof.
  intros Hm Hb. cbv zeta. destruct (percent_mono player_level m1 m2 Hm) as [Hp1 Hp2].
  unfold legacy_mob_exp_reward. destruct (Z.leb_spec base_exp 0) as [B | B]; [repeat split; try lia; intros|].
  - apply Z.div_pos; lia.
  - apply Z.div_pos; lia.
  - set (a1 := sat_i64 (base_exp * exp_reward_bonus_malus_percent player_level m1)).
    set (a2 := sat_i64 (base_exp * exp_reward_bonus_malus_percent player_level m2)).
    assert (0 <= base_exp * exp_reward_bonus_malus_percent player_level m1
              <= base_exp * exp_reward_bonus_malus_percent player_level m2) as M1 by nia.
    assert (base_exp * exp_reward_bonus_malus_percent player_level m2 <= base_exp * 180) as M2 by nia.
    assert (0 <= a1 <= a2 /\ a2 <= base_exp * 180) as [Ha Ha2]
      by (unfold a1, a2, sat_i64, clampc; unfold_widths; lia).
    rewrite (Z.quot_div_nonneg a1), (Z.quot_div_nonneg a2) by lia.
    pose proof (Z.div_le_mono a1 a2 100 ltac:(lia) ltac:(lia)).
    pose proof (Z.div_le_mono a2 (base_exp * 180) 100 ltac:(lia) ltac:(lia)).
    pose proof (Z.div_pos a1 100 ltac:(lia) ltac:(lia)).
    destruct (Z.ltb_spec 0 next_exp) as [N | N]; [| repeat split; lia].
    rewrite Z.quot_div_nonneg by lia. pose proof (Z.div_pos next_exp 10 ltac:(lia) ltac:(lia)).
    repeat split; lia.
Qed.

(** A mob kill through [apply_mob_exp_reward] that reports an outcome applies
    a positive amount of experience of at most the legacy reward, accounts for it
    in the progression, and announces a level-up exactly when the level rose,
    with the new level; when it reports nothing, the reward was zero or the gain
    applied nothing because it ended at the maximum level. *)
Theorem apply_mob_exp_reward_spec entries t current mob_level base_exp :
  try_new entries = Ok t -> Z.of_nat (length entries) <= i32_max ->
  1 <= prog_level current <= Z.of_nat (length entries) -> is_i64 base_exp ->
  let reward := legacy_mob_exp_reward (prog_level current) mob_level base_exp
                  (next_exp_in_level current) in
  match LevelExpTable_apply_mob_exp_reward t current mob_level base_exp with
  | Some o =>
      0 < mo_applied_exp o <= reward /\
      (exists p0, progression_for_level t (prog_level current) (exp_in_level current) = Some p0 /\
         mo_applied_exp o = total_exp t (mo_progression o) - total_exp t p0) /\
      (mo_level_up o = Some (prog_level (mo_progression o)) <->
         prog_level current < prog_level (mo_progression o)) /\
      (mo_level_up o = None <-> prog_level (mo_progression o) = prog_level current)
  | None =>
      reward = 0 \/
      exists o, apply_player_exp_gain t current reward = Some o /\ og_applied_exp o = 0 /\
        prog_level (og_progression o) = Z.of_nat (length entries)
  end.
Proof.
  intros Ht Hn Hl Hb. cbv zeta. pose proof Ht as Ht'. apply try_new_table_wf in Ht.
  destruct (legacy_mob_exp_reward_facts (prog_level current) mob_level base_exp
    (next_exp_in_level current) Hb) as [R0 R1].
  unfold LevelExpTable_apply_mob_exp_reward.
  set (reward := legacy_mob_exp_reward _ _ _ _) in *.
  destruct (Z.leb_spec reward 0) as [Z0 | Zp]; [left; lia |].
  destruct (apply_player_exp_gain_inv _ _ current reward Ht Hn R1 Hl) as (p0 & s & Hp & -> & Hi & Hend).
  cbn -[Z.leb Z.ltb]. destruct Hi as [Hw Hlv Hr Happ Hsum Htot _ _ _].
  destruct (progression_for_level_wf _ _ _ (exp_in_level current) Ht Hl) as (q & Hq & _ & Hql & _).
  rewrite Hp in Hq. inv_some.
  destruct (Z.leb_spec (eg_applied s) 0) as [A0 | Ap].
  - right. destruct Hend as [E | E]; [lia |]. eexists. split; [reflexivity |]. cbn. lia.
  - cbn -[Z.ltb]. split; [lia |]. split; [eauto |].
    destruct (Z.ltb_spec (prog_level current) (prog_level (eg_progression s))); split; split; intros;
      try done; try lia.
Qed.

(** ** Concrete instances *)

Definition sample_levels : list LevelExpEntry :=
  [ {| le_level := 2; le_next_exp := 800; le_death_loss_pct := 1 |};
    {| le_level := 1; le_next_exp := 300; le_death_loss_pct := 0 |};
    {| le_level := 3; le_next_exp := 1500; le_death_loss_pct := 2 |} ].
Definition sample_level_table : LevelExpTable :=
  match try_new sample_levels with Ok t => t | Err _ => {| let_entries := [] |} end.
Definition sample_progression : PlayerProgressionState := progression_new 1 250 300.

Lemma sample_level_table_ok : try_new sample_levels = Ok sample_level_table.
Proof. reflexivity. Qed.

Lemma apply_player_exp_gain_conserves_witness :
  exists p0 o,
    progression_for_level sample_level_table 1 250 = Some p0 /\
    apply_player_exp_gain sample_level_table sample_progression 400 = Some o /\
    og_applied_exp o = total_exp sample_level_table (og_progression o) - total_exp sample_level_table p0.
Proof.
  destruct (apply_player_exp_gain_conserves sample_levels sample_level_table sample_progression 400
    sample_level_table_ok) as (p0 & o & H1 & H2 & H3 & _); [done | by vm_compute | done |]. eauto.
Defined.

Lemma apply_player_exp_gain_rewards_witness :
  exists p0 o,
    progression_for_level sample_level_table 1 250 = Some p0 /\
    apply_player_exp_gain sample_level_table sample_progression 400 = Some o /\
    prog_level p0 <= prog_level (og_progression o) <= 3.
Proof.
  destruct (apply_player_exp_gain_rewards sample_levels sample_level_table sample_progression 400
    {| allocated_str := 0; allocated_vit := 0; allocated_dex := 0; allocated_int := 0 |}
    sample_level_table_ok) as (p0 & o & H1 & H2 & H3 & _); try (by vm_compute).
  eauto.
Defined.

Lemma legacy_mob_exp_reward_spec_witness :
  0 <= legacy_mob_exp_reward 10 12 5000 9000 <= legacy_mob_exp_reward 10 20 5000 9000 /\
  legacy_mob_exp_reward 10 20 5000 9000 <= 900.
Proof.
  destruct (legacy_mob_exp_reward_spec 10 12 20 5000 9000) as (H1 & _ & H2 & _); [lia | by vm_compute |].
  split; [exact H1 | apply H2; lia].
Defined.

Lemma apply_mob_exp_reward_spec_witness :
  exists o, LevelExpTable_apply_mob_exp_reward sample_level_table (progression_new 1 290 300) 9 500 = Some o /\
    0 < mo_applied_exp o <= 30.
Proof.
  pose proof (apply_mob_exp_reward_spec sample_levels sample_level_table (progression_new 1 290 300) 9 500
    sample_level_table_ok ltac:(done) ltac:(by vm_compute) ltac:(by vm_compute)) as H.
  cbv zeta in H.
  destruct (LevelExpTable_apply_mob_exp_reward sample_level_table (progression_new 1 290 300) 9 500) as [o |] eqn:E;
    [| vm_compute in E; discriminate].
  exists o. split; [done |]. exact (proj1 H).
Defined.
