(* ===== verification/ActorState.v ===== *)
(** The state of an actor ([stats/game/actor.rs]): identity, progression, base
    and computed stores, resources, immunity flags, the modifier ledger and the
    change-tracking flags, with every mutator of the Rust type. *)
From S2P Require Import Prelude BTree Domain StatStore StatSource Progression.

(** ** Resources and flags *)
Record ActorResources : Type := {
  hp : Z; sp : Z; stamina : Z; hp_recovery : Z; sp_recovery : Z }.
#[export] Instance ActorResources_eq_dec : EqDecision ActorResources.
Proof. solve_decision. Defined.

Definition ActorResources_default : ActorResources :=
  {| hp := 0; sp := 0; stamina := 0; hp_recovery := 0; sp_recovery := 0 |}.

(** [clamp_to_caps]: [i32::clamp] panics when a computed cap is negative. *)
Definition clamp_to_caps (r : ActorResources) (computed : PointValueStore) : option ActorResources :=
  hp' ← clamp (hp r) 0 (evs_get computed Stat.MaxHp);
  sp' ← clamp (sp r) 0 (evs_get computed Stat.MaxSp);
  stamina' ← clamp (stamina r) 0 (evs_get computed Stat.MaxStamina);
  Some {| hp := hp'; sp := sp'; stamina := stamina';
          hp_recovery := hp_recovery r; sp_recovery := sp_recovery r |}.

Record ActorImmuneFlags : Type := { stun : bool; slow : bool; fall : bool }.
#[export] Instance ActorImmuneFlags_eq_dec : EqDecision ActorImmuneFlags.
Proof. solve_decision. Defined.

Definition no_immunity : ActorImmuneFlags := {| stun := false; slow := false; fall := false |}.

Definition flags_or (self other : ActorImmuneFlags) : ActorImmuneFlags :=
  {| stun := stun self || stun other;
     slow := slow self || slow other;
     fall := fall self || fall other |}.

Record ActorRuntimeState : Type := {
  immune_flags : ActorImmuneFlags; external_immune_flags : ActorImmuneFlags }.

Inductive StatWriteError : Type :=
| NotStored (stat : Stat)
| RequiresTypedProgression (stat : Stat)
| OutOfRange (stat : Stat) (value : Z) (min : option Z) (max : Z)
| NotResource (stat : Stat).

Definition clamp_u32_to_i32 (value : Z) : Z := Z.min value i32_max.

(** ** The state *)
Section State.
Context {Source Detail : Type} `{OS : OrdKey Source}.

Record ActorStatState : Type := {
  st_kind : ActorKind;
  st_stable_id : option Z;
  st_progression : PlayerProgressionState;
  st_base : PointValueStore;
  st_computed : PointValueStore;
  st_resources : ActorResources;
  st_runtime : ActorRuntimeState;
  st_modifiers : GenericModifierLedger Source Stat Detail;
  st_explicit_changes : list (Stat * unit);
  st_dirty : bool;
  st_runtime_dirty : bool }.

Definition put_stable_id (v : option Z) (s : ActorStatState) : ActorStatState :=
  {| st_kind := st_kind s; st_stable_id := v; st_progression := st_progression s;
     st_base := st_base s; st_computed := st_computed s; st_resources := st_resources s;
     st_runtime := st_runtime s; st_modifiers := st_modifiers s;
     st_explicit_changes := st_explicit_changes s; st_dirty := st_dirty s;
     st_runtime_dirty := st_runtime_dirty s |}.

Definition put_progression (v : PlayerProgressionState) (s : ActorStatState) : ActorStatState :=
  {| st_kind := st_kind s; st_stable_id := st_stable_id s; st_progression := v;
     st_base := st_base s; st_computed := st_computed s; st_resources := st_resources s;
     st_runtime := st_runtime s; st_modifiers := st_modifiers s;
     st_explicit_changes := st_explicit_changes s; st_dirty := st_dirty s;
     st_runtime_dirty := st_runtime_dirty s |}.

Definition put_base (v : PointValueStore) (s : ActorStatState) : ActorStatState :=
  {| st_kind := st_kind s; st_stable_id := st_stable_id s;
     st_progression := st_progression s; st_base := v; st_computed := st_computed s;
     st_resources := st_resources s; st_runtime := st_runtime s;
     st_modifiers := st_modifiers s; st_explicit_changes := st_explicit_changes s;
     st_dirty := st_dirty s; st_runtime_dirty := st_runtime_dirty s |}.

Definition put_computed (v : PointValueStore) (s : ActorStatState) : ActorStatState :=
  {| st_kind := st_kind s; st_stable_id := st_stable_id s;
     st_progression := st_progression s; st_base := st_base s; st_computed := v;
     st_resources := st_resources s; st_runtime := st_runtime s;
     st_modifiers := st_modifiers s; st_explicit_changes := st_explicit_changes s;
     st_dirty := st_dirty s; st_runtime_dirty := st_runtime_dirty s |}.

Definition put_resources (v : ActorResources) (s : ActorStatState) : ActorStatState :=
  {| st_kind := st_kind s; st_stable_id := st_stable_id s;
     st_progression := st_progression s; st_base := st_base s; st_computed := st_computed s;
     st_resources := v; st_runtime := st_runtime s; st_modifiers := st_modifiers s;
     st_explicit_changes := st_explicit_changes s; st_dirty := st_dirty s;
     st_runtime_dirty := st_runtime_dirty s |}.

Definition put_runtime (v : ActorRuntimeState) (s : ActorStatState) : ActorStatState :=
  {| st_kind := st_kind s; st_stable_id := st_stable_id s;
     st_progression := st_progression s; st_base := st_base s; st_computed := st_computed s;
     st_resources := st_resources s; st_runtime := v; st_modifiers := st_modifiers s;
     st_explicit_changes := st_explicit_changes s; st_dirty := st_dirty s;
     st_runtime_dirty := st_runtime_dirty s |}.

Definition put_modifiers (v : GenericModifierLedger Source Stat Detail) (s : ActorStatState) : ActorStatState :=
  {| st_kind := st_kind s; st_stable_id := st_stable_id s;
     st_progression := st_progression s; st_base := st_base s; st_computed := st_computed s;
     st_resources := st_resources s; st_runtime := st_runtime s; st_modifiers := v;
     st_explicit_changes := st_explicit_changes s; st_dirty := st_dirty s;
     st_runtime_dirty := st_runtime_dirty s |}.

Definition put_explicit_changes (v : list (Stat * unit)) (s : ActorStatState) : ActorStatState :=
  {| st_kind := st_kind s; st_stable_id := st_stable_id s;
     st_progression := st_progression s; st_base := st_base s; st_computed := st_computed s;
     st_resources := st_resources s; st_runtime := st_runtime s;
     st_modifiers := st_modifiers s; st_explicit_changes := v; st_dirty := st_dirty s;
     st_runtime_dirty := st_runtime_dirty s |}.

Definition put_dirty (v : bool) (s : ActorStatState) : ActorStatState :=
  {| st_kind := st_kind s; st_stable_id := st_stable_id s;
     st_progression := st_progression s; st_base := st_base s; st_computed := st_computed s;
     st_resources := st_resources s; st_runtime := st_runtime s;
     st_modifiers := st_modifiers s; st_explicit_changes := st_explicit_changes s;
     st_dirty := v; st_runtime_dirty := st_runtime_dirty s |}.

Definition put_runtime_dirty (v : bool) (s : ActorStatState) : ActorStatState :=
  {| st_kind := st_kind s; st_stable_id := st_stable_id s;
     st_progression := st_progression s; st_base := st_base s; st_computed := st_computed s;
     st_resources := st_resources s; st_runtime := st_runtime s;
     st_modifiers := st_modifiers s; st_explicit_changes := st_explicit_changes s;
     st_dirty := st_dirty s; st_runtime_dirty := v |}.

Implicit Type s : ActorStatState.

Definition ActorStatState_new (kind : ActorKind) : ActorStatState :=
  {| st_kind := kind; st_stable_id := None; st_progression := progression_default;
     st_base := evs_new; st_computed := evs_new; st_resources := ActorResources_default;
     st_runtime := {| immune_flags := no_immunity; external_immune_flags := no_immunity |};
     st_modifiers := ledger_default; st_explicit_changes := bs_empty;
     st_dirty := true; st_runtime_dirty := true |}.

Definition record_explicit_change (stat : Stat) s : ActorStatState :=
  put_dirty true (put_explicit_changes (bs_insert (st_explicit_changes s) stat) s).

Definition mark_runtime_dirty s : ActorStatState := put_dirty true (put_runtime_dirty true s).

Definition set_base_projection_stat (stat : Stat) (value : Z) s : ActorStatState :=
  if evs_get (st_base s) stat =? value then s
  else record_explicit_change stat (put_base (evs_set (st_base s) stat value) s).

(** The stats whose writes go through the typed progression API. *)
Definition is_progression_stat (stat : Stat) : bool :=
  match stat with
  | Stat.Level | Stat.Exp | Stat.NextExp | Stat.LevelStep => true
  | _ => false
  end.

Definition state_set_stored_stat (stat : Stat) (value : Z) s :
    ActorStatState * result unit StatWriteError :=
  if is_progression_stat stat then (s, Err (RequiresTypedProgression stat))
  else if negb (bool_decide (role stat = Persistent)) then (s, Err (NotStored stat))
  else if evs_get (st_base s) stat =? value then (s, Ok tt)
  else (record_explicit_change stat (put_base (evs_set (st_base s) stat value) s), Ok tt).

Definition set_player_progression (progression : PlayerProgressionState) s : ActorStatState :=
  let progression := normalized progression in
  let s := put_progression progression s in
  let s := set_base_projection_stat Stat.Level (prog_level progression) s in
  let s := set_base_projection_stat Stat.Exp (clamp_u32_to_i32 (exp_in_level progression)) s in
  let s := set_base_projection_stat Stat.NextExp
             (clamp_u32_to_i32 (next_exp_in_level progression)) s in
  set_base_projection_stat Stat.LevelStep (level_step progression) s.

(** The slot of a resource stat, and the resources with the slot written. *)
Definition resource_slot (stat : Stat) (r : ActorResources) : option Z :=
  match stat with
  | Stat.Hp => Some (hp r)
  | Stat.Sp => Some (sp r)
  | Stat.Stamina => Some (stamina r)
  | Stat.HpRecovery => Some (hp_recovery r)
  | Stat.SpRecovery => Some (sp_recovery r)
  | _ => None
  end.

Definition put_resource_slot (stat : Stat) (value : Z) (r : ActorResources) : ActorResources :=
  match stat with
  | Stat.Hp => {| hp := value; sp := sp r; stamina := stamina r;
                  hp_recovery := hp_recovery r; sp_recovery := sp_recovery r |}
  | Stat.Sp => {| hp := hp r; sp := value; stamina := stamina r;
                  hp_recovery := hp_recovery r; sp_recovery := sp_recovery r |}
  | Stat.Stamina => {| hp := hp r; sp := sp r; stamina := value;
                       hp_recovery := hp_recovery r; sp_recovery := sp_recovery r |}
  | Stat.HpRecovery => {| hp := hp r; sp := sp r; stamina := stamina r;
                          hp_recovery := value; sp_recovery := sp_recovery r |}
  | Stat.SpRecovery => {| hp := hp r; sp := sp r; stamina := stamina r;
                          hp_recovery := hp_recovery r; sp_recovery := value |}
  | _ => r
  end.

Definition set_resource_stat (stat : Stat) (value : Z) s :
    ActorStatState * result unit StatWriteError :=
  match resource_slot stat (st_resources s) with
  | None => (s, Err (NotResource stat))
  | Some slot =>
      if slot =? value then (s, Ok tt)
      else (record_explicit_change stat
              (put_resources (put_resource_slot stat value (st_resources s)) s), Ok tt)
  end.

Definition state_set_external_immune_flags (flags : ActorImmuneFlags) s : ActorStatState :=
  if bool_decide (external_immune_flags (st_runtime s) = flags) then s
  else mark_runtime_dirty
         (put_runtime {| immune_flags := immune_flags (st_runtime s);
                         external_immune_flags := flags |} s).

Definition state_set_stable_id (stable_id : option Z) s : ActorStatState :=
  if bool_decide (st_stable_id s = stable_id) then s
  else put_dirty true (put_stable_id stable_id s).

Definition set_derived_immune_flags (flags : ActorImmuneFlags) s : ActorStatState :=
  if bool_decide (immune_flags (st_runtime s) = flags) then s
  else put_runtime_dirty true
         (put_runtime {| immune_flags := flags;
                         external_immune_flags := external_immune_flags (st_runtime s) |} s).

Definition replace_computed (computed : PointValueStore) s : ActorStatState :=
  put_dirty true (put_computed computed s).

Definition clamp_resources_to_computed_caps s : option ActorStatState :=
  r ← clamp_to_caps (st_resources s) (st_computed s);
  Some (put_dirty true (put_resources r s)).

Definition replace_modifier_source (source : Source)
    (modifiers : list (GenericModifierInstance Source Stat Detail)) s : ActorStatState :=
  put_modifiers (replace_source (st_modifiers s) source modifiers) (put_dirty true s).

Definition remove_modifier_source (source : Source) s : ActorStatState * bool :=
  let '(l, removed) := remove_source (st_modifiers s) source in
  (put_modifiers l (put_dirty true s),
   match removed with Some _ => true | None => false end).

Definition clear_dirty s : ActorStatState := put_dirty false s.

Definition state_is_dirty s : bool := st_dirty s || st_runtime_dirty s.

Definition take_explicit_changes s : ActorStatState * list (Stat * unit) :=
  (put_explicit_changes bs_empty s, st_explicit_changes s).

Definition take_runtime_dirty s : ActorStatState * bool :=
  (put_runtime_dirty false s, st_runtime_dirty s).
End State.
Arguments ActorStatState Source Detail : clear implicits.

(** ** Facts *)

Lemma resource_slot_put stat stat' v r :
  resource_slot stat r <> None ->
  resource_slot stat' (put_resource_slot stat v r) =
    if decide (stat = stat') then Some v else resource_slot stat' r.
Proof.
  intros Hs. case_decide as E; [subst; by destruct stat' |].
  destruct stat; cbn in Hs; try done; by destruct stat'.
Qed.

(** A resource stat is one with a slot. *)
Lemma resource_slot_role stat r : is_Some (resource_slot stat r) <-> role stat = RuntimeResource.
Proof. destruct stat; cbn; split; try done; intros [? ?]; done. Qed.

Lemma clamp_to_caps_Some r c r' :
  clamp_to_caps r c = Some r' <->
  0 <= evs_get c Stat.MaxHp /\ 0 <= evs_get c Stat.MaxSp /\ 0 <= evs_get c Stat.MaxStamina /\
  r' = {| hp := clampc (hp r) 0 (evs_get c Stat.MaxHp);
          sp := clampc (sp r) 0 (evs_get c Stat.MaxSp);
          stamina := clampc (stamina r) 0 (evs_get c Stat.MaxStamina);
          hp_recovery := hp_recovery r; sp_recovery := sp_recovery r |}.
Proof.
  unfold clamp_to_caps, clamp.
  destruct (Z.leb_spec 0 (evs_get c Stat.MaxHp)), (Z.leb_spec 0 (evs_get c Stat.MaxSp)),
    (Z.leb_spec 0 (evs_get c Stat.MaxStamina)); cbn;
    split; intros Hx; try (destruct Hx as (? & ? & ? & ->)); try done; try lia;
    injection Hx as <-; done.
Qed.

(** Clamping to the caps a second time changes nothing. *)
Lemma clamp_to_caps_idem r c r' : clamp_to_caps r c = Some r' -> clamp_to_caps r' c = Some r'.
Proof.
  rewrite !clamp_to_caps_Some. intros (H1 & H2 & H3 & ->). cbn.
  do 3 (split; [done |]). f_equal; symmetry; apply clampc_id, clampc_range; lia.
Qed.
