(* ===== verification/StatsApi.v ===== *)
(** The stat API: value views ([stats/game/view.rs]), [GameStatsApi] with its
    recomputation, and the per-actor runtime with its pending synchronisation
    ([stats/game/api.rs]). *)
From S2P Require Import Prelude BTree Domain StatStore StatSource Progression ActorState.

(** ** Value views *)
Inductive StatValueView : Type := Limited | WireCompatible.

(** [clamp_optional(value, Some(0), Some(max))]: panics when [max] is negative. *)
Definition clamp_optional (value : Z) (min max : option Z) : option Z :=
  clamp value (default i32_min min) (default i32_max max).

Definition apply_limit (source : option ActorStatSource) (stat : Stat) (value : Z) : option Z :=
  match source with
  | None => Some value
  | Some source =>
      match view_limit source stat with
      | None => Some value
      | Some max => clamp_optional value (Some 0) (Some max)
      end
  end.

Section View.
Context {Source Detail : Type} `{OS : OrdKey Source}.
Implicit Type state : ActorStatState Source Detail.

Definition read_effective_value state (stat : Stat) : Z :=
  match stat with
  | Stat.Hp => hp (st_resources state)
  | Stat.Sp => sp (st_resources state)
  | Stat.Stamina => stamina (st_resources state)
  | Stat.HpRecovery => hp_recovery (st_resources state)
  | Stat.SpRecovery => sp_recovery (st_resources state)
  | _ => evs_get (st_computed state) stat
  end.

Definition read_wire_compatible_value state (stat : Stat) : Z :=
  match stat with
  | Stat.Exp => clamp_u32_to_i32 (exp_in_level (st_progression state))
  | Stat.NextExp => clamp_u32_to_i32 (next_exp_in_level (st_progression state))
  | Stat.Level | Stat.Gold => evs_get (st_base state) stat
  | _ => read_effective_value state stat
  end.

Definition read_stat_value state (source : option ActorStatSource) (stat : Stat)
    (view : StatValueView) : option Z :=
  match view with
  | Limited => apply_limit source stat (read_effective_value state stat)
  | WireCompatible => Some (read_wire_compatible_value state stat)
  end.
End View.

(** ** Public state, deltas and snapshots *)
Record ActorPublicStats : Type := { ps_level : Z; ps_move_speed : Z; ps_attack_speed : Z }.
Record ActorPublicState : Type := { pub_stats : ActorPublicStats; pub_immune_flags : ActorImmuneFlags }.
Record StatDelta : Type := { delta_stat : Stat; delta_value : Z }.

(** The computed stats a snapshot leaves out, and the base stats it keeps. *)
Definition snapshot_hidden (stat : Stat) : bool :=
  match stat with
  | Stat.ArmorDefence | Stat.MaxHpPrePctBonus | Stat.BonusMaxHp | Stat.BonusMaxSp
  | Stat.BonusMaxStamina => true
  | _ => false
  end.
Definition snapshot_base (stat : Stat) : bool :=
  match stat with Stat.Level | Stat.Exp | Stat.NextExp | Stat.Gold => true | _ => false end.

Record StatSnapshot : Type := { ss_values : list (Stat * Z) }.

Definition snapshot_runtime_stats : list Stat :=
  [Stat.Hp; Stat.Sp; Stat.Stamina; Stat.HpRecovery; Stat.SpRecovery; Stat.Polymorph; Stat.Mount].

Definition StatSnapshot_from_state {Source Detail} (state : ActorStatState Source Detail) :
    StatSnapshot :=
  let put values stat :=
    bt_insert values stat (wrap_u 32 (Z.max (read_wire_compatible_value state stat) 0)) in
  let values := fold_left put
    (filter (fun stat => snapshot_hidden stat = false) (evs_iter (st_computed state)).*1) [] in
  let values := fold_left put
    (filter (fun stat => snapshot_base stat = true) (evs_iter (st_base state)).*1) values in
  let values := fold_left put snapshot_runtime_stats values in
  let values := bt_insert values Stat.Exp (exp_in_level (st_progression state)) in
  {| ss_values := bt_insert values Stat.NextExp (next_exp_in_level (st_progression state)) |}.

Definition snapshot_get (s : StatSnapshot) (stat : Stat) : Z := default 0 (bt_get (ss_values s) stat).

Record StatsSync : Type := {
  sync_changes : StatChangeSet; sync_deltas : list StatDelta;
  sync_public : option ActorPublicState }.

Record BootstrapStatsSync : Type := {
  bs_changes : StatChangeSet; bs_stat_snapshot : StatSnapshot; bs_public_state : ActorPublicState }.

Record PendingPlayerStatsSync : Type := {
  pend_stats : PointValueStore; pend_changed : StatChangeSet;
  pend_public : option ActorPublicState }.

Definition pending_default : PendingPlayerStatsSync :=
  {| pend_stats := evs_new; pend_changed := cs_default; pend_public := None |}.

Definition pending_merge (p : PendingPlayerStatsSync) (sync : StatsSync) : PendingPlayerStatsSync :=
  let p := fold_left (fun p delta =>
    {| pend_stats := evs_set (pend_stats p) (delta_stat delta) (delta_value delta);
       pend_changed := cs_insert (pend_changed p) (delta_stat delta);
       pend_public := pend_public p |}) (sync_deltas sync) p in
  match sync_public sync with
  | None => p
  | Some update =>
      {| pend_stats := pend_stats p; pend_changed := pend_changed p; pend_public := Some update |}
  end.

Record DrainedPlayerStatsSync : Type := {
  drained_deltas : list StatDelta; drained_public : option ActorPublicState }.

Definition pending_drain (p : PendingPlayerStatsSync) :
    PendingPlayerStatsSync * DrainedPlayerStatsSync :=
  (pending_default,
   {| drained_deltas :=
        map (fun stat => {| delta_stat := stat; delta_value := evs_get (pend_stats p) stat |})
          (cs_iter (pend_changed p));
      drained_public := pend_public p |}).

Definition drained_is_empty (d : DrainedPlayerStatsSync) : bool :=
  match drained_deltas d, drained_public d with [], None => true | _, _ => false end.

(** ** Helpers of the API *)
Inductive SourceBundleError : Type :=
| RecoveryStatInModifierChannel (stat : Stat)
| UnsupportedModifierStat (stat : Stat).

Definition validate_modifier_stat (stat : Stat) : result unit SourceBundleError :=
  match stat with
  | Stat.HpRecovery | Stat.SpRecovery => Err (RecoveryStatInModifierChannel stat)
  | _ =>
      if accepts_source_contribution stat then Ok tt else Err (UnsupportedModifierStat stat)
  end.

Definition percentage_bonus (value pct : Z) : Z := (value *% pct) /% 100.
Definition capped_percentage_bonus (value pct max_bonus : Z) : Z :=
  Z.min (percentage_bonus value pct) max_bonus.

Definition saturating_u8 (value : Z) : Z := clampc value 0 u8_max.

Definition validate_stored_write_limit (source : ActorStatSource) (stat : Stat) (value : Z) :
    option (result unit StatWriteError) :=
  match stored_write_limit source stat with
  | None => Some (Ok tt)
  | Some max =>
      c ← clamp_optional value (Some 0) (Some max);
      Some (if c =? value then Ok tt else Err (OutOfRange stat value (Some 0) max))
  end.

Definition recovery_bucket_for_resource (stat : Stat) : result Stat StatWriteError :=
  match stat with
  | Stat.Hp => Ok Stat.HpRecovery
  | Stat.Sp => Ok Stat.SpRecovery
  | _ => Err (NotResource stat)
  end.

Definition insert_resource_changes (previous current : ActorResources) (c : StatChangeSet) :
    StatChangeSet :=
  let c := if hp previous =? hp current then c else cs_insert c Stat.Hp in
  let c := if sp previous =? sp current then c else cs_insert c Stat.Sp in
  if stamina previous =? stamina current then c else cs_insert c Stat.Stamina.

Definition resource_changes (old new : ActorResources) : StatChangeSet :=
  insert_resource_changes old new cs_default.

Definition explicit_state_changes (stats : list Stat) : StatChangeSet :=
  fold_left cs_insert stats cs_default.

Definition diff_store (old new : PointValueStore) : StatChangeSet :=
  let visit changes stat :=
    if evs_get old stat =? evs_get new stat then changes else cs_insert changes stat in
  let changes := fold_left visit (evs_iter old).*1 cs_default in
  fold_left visit (evs_iter new).*1 changes.

Definition merge_changes (phases : list StatChangeSet) : StatChangeSet :=
  fold_left (fun changes phase => fold_left cs_insert (cs_iter phase) changes) phases cs_default.

Definition public_stats_changed (changes : StatChangeSet) : bool :=
  cs_contains changes Stat.Level || cs_contains changes Stat.MovSpeed
  || cs_contains changes Stat.AttSpeed.

(** ** Recomputation *)
Definition apply_source_seed (seeded : PointValueStore) (source : ActorStatSource) :
    PointValueStore :=
  match source_mob source with
  | None => seeded
  | Some mob =>
      let seeded := evs_add seeded Stat.Level (mss_level mob) in
      let seeded := evs_add seeded Stat.St (cb_st (mss_core mob)) in
      let seeded := evs_add seeded Stat.Ht (cb_ht (mss_core mob)) in
      let seeded := evs_add seeded Stat.Dx (cb_dx (mss_core mob)) in
      evs_add seeded Stat.Iq (cb_iq (mss_core mob))
  end.

Definition optional_stat_value (computed : PointValueStore) (stat : option Stat) : Z :=
  match stat with Some stat => evs_get computed stat | None => 0 end.

Definition set_player_resource_capacity (computed : PointValueStore) (player : PlayerStatSource)
    (resource : PlayerResourceCapacity) (base : Z) : PointValueStore :=
  let pre_percentage_base :=
    base +% optional_stat_value computed (flat_bonus_stat resource)
         +% optional_stat_value computed (pre_percentage_bonus_stat resource) in
  let percentage_bonus :=
    match capped_percentage_stat resource with
    | Some stat =>
        capped_percentage_bonus pre_percentage_base (evs_get computed stat)
          (default i32_max (capped_percentage_bonus_max (pss_balance player) resource))
    | None => 0
    end in
  let post_percentage_bonus :=
    optional_stat_value computed (post_percentage_bonus_stat resource) in
  evs_set computed (cap_stat resource)
    (pre_percentage_base +% percentage_bonus +% post_percentage_bonus).

Definition rebuild_mob_state (computed : PointValueStore) (mob : MobStatSource) :
    PointValueStore :=
  let get := evs_get computed in
  let lvl := get Stat.Level in
  let st := get Stat.St in
  let ht := get Stat.Ht in
  let flat_att_speed := get Stat.AttSpeed in
  let flat_att_grade := get Stat.AttGrade in
  let flat_def_grade := get Stat.DefGrade in
  let flat_mov_speed := get Stat.MovSpeed in
  let flat_casting_speed := get Stat.CastingSpeed in
  let flat_magic_att_grade := get Stat.MagicAttGrade in
  let flat_magic_def_grade := get Stat.MagicDefGrade in
  let computed :=
    evs_set computed Stat.MaxHp (evs_get computed Stat.BonusMaxHp +% mss_max_hp mob) in
  let att_grade := flat_att_grade +% lvl *% 2 +% st *% 2 in
  let computed := evs_set computed Stat.AttGrade att_grade in
  let def_grade := flat_def_grade +% lvl +% ht +% mss_def_grade_flat mob in
  let computed := evs_set computed Stat.DefGrade def_grade in
  let computed := evs_set computed Stat.DisplayedDefGrade def_grade in
  let computed := evs_set computed Stat.MagicAttGrade (flat_magic_att_grade +% att_grade) in
  let computed := evs_set computed Stat.MagicDefGrade (flat_magic_def_grade +% def_grade) in
  let computed := evs_set computed Stat.AttSpeed (flat_att_speed +% attack_speed (mss_speeds mob)) in
  let computed := evs_set computed Stat.MovSpeed (flat_mov_speed +% move_speed (mss_speeds mob)) in
  evs_set computed Stat.CastingSpeed (flat_casting_speed +% casting_speed (mss_speeds mob)).

Section Rebuild.
Context `{GrowthRng} {Source Detail : Type} `{OS : OrdKey Source}.
Implicit Type state : ActorStatState Source Detail.

Definition seed_rebuild_state state (source : ActorStatSource) : PointValueStore :=
  fold_left (fun seeded modifier =>
      if accepts_source_contribution (mi_stat modifier)
      then evs_add seeded (mi_stat modifier) (mi_amount modifier) else seeded)
    (ledger_iter (st_modifiers state)) (apply_source_seed (st_base state) source).

Definition rebuild_player_state (computed : PointValueStore) state (player : PlayerStatSource) :
    PointValueStore :=
  let get := evs_get computed in
  let lvl := get Stat.Level in
  let st := get Stat.St in
  let ht := get Stat.Ht in
  let dx := get Stat.Dx in
  let iq := get Stat.Iq in
  let flat_att_speed := get Stat.AttSpeed in
  let flat_att_grade := get Stat.AttGrade in
  let flat_def_grade := get Stat.DefGrade in
  let flat_mov_speed := get Stat.MovSpeed in
  let flat_casting_speed := get Stat.CastingSpeed in
  let flat_magic_att_grade := get Stat.MagicAttGrade in
  let flat_magic_def_grade := get Stat.MagicDefGrade in
  let '(rnd_hp, rnd_sp, rnd_stamina) :=
    match st_stable_id state with
    | Some stable_id =>
        (random_hp (pss_growth player) stable_id lvl,
         random_sp (pss_growth player) stable_id lvl,
         random_stamina (pss_growth player) stable_id lvl)
    | None => (0, 0, 0)
    end in
  let res := pss_resources player in
  let computed := set_player_resource_capacity computed player PlayerResourceCapacity.Hp
    (base_max_hp res +% rnd_hp +% ht *% hp_per_ht res) in
  let computed := set_player_resource_capacity computed player PlayerResourceCapacity.Sp
    (base_max_sp res +% rnd_sp +% iq *% sp_per_iq res) in
  let computed := set_player_resource_capacity computed player PlayerResourceCapacity.Stamina
    (base_max_stamina res +% rnd_stamina +% ht *% stamina_per_ht res) in
  let speeds := pss_speeds player in
  let computed := evs_set computed Stat.MovSpeed (flat_mov_speed +% move_speed speeds) in
  let computed := evs_set computed Stat.AttSpeed
    (flat_att_speed +% attack_speed speeds +% evs_get computed Stat.PartyHasteBonus) in
  let computed := evs_set computed Stat.CastingSpeed (flat_casting_speed +% casting_speed speeds) in
  let attack := attack (pss_balance player) in
  let stat_attack :=
    (st *% st_numerator attack +% dx *% dx_numerator attack +% iq *% iq_numerator attack)
    /% Z.max (divisor attack) 1 in
  let computed := evs_set computed Stat.AttGrade
    (flat_att_grade +% lvl *% 2 +% stat_attack +% evs_get computed Stat.AttGradeBonus) in
  let physical_defence_bonus :=
    evs_get computed Stat.ArmorDefence +% evs_get computed Stat.DefGradeBonus
    +% evs_get computed Stat.PartyDefenderBonus in
  let computed := evs_set computed Stat.DefGrade
    (flat_def_grade +% lvl +% (ht *% 4) /% 5 +% physical_defence_bonus) in
  let computed := evs_set computed Stat.DisplayedDefGrade
    (flat_def_grade +% lvl +% ht +% physical_defence_bonus) in
  let computed := evs_set computed Stat.MagicAttGrade
    (flat_magic_att_grade +% lvl *% 2 +% iq *% 2 +% evs_get computed Stat.MagicAttGradeBonus) in
  evs_set computed Stat.MagicDefGrade
    (flat_magic_def_grade +% lvl +% (iq *% 3 +% ht) /% 3 +% physical_defence_bonus /% 2
     +% evs_get computed Stat.MagicDefGradeBonus).

Definition rebuild_derived_state state (source : ActorStatSource) (seeded : PointValueStore) :
    PointValueStore :=
  match source with
  | Source_Player player => rebuild_player_state seeded state player
  | Source_Mob mob => rebuild_mob_state seeded mob
  end.

Definition derive_immune_flags state : ActorImmuneFlags :=
  flags_or (external_immune_flags (st_runtime state))
    {| stun := 0 <? evs_get (st_computed state) Stat.ImmuneStun;
       slow := 0 <? evs_get (st_computed state) Stat.ImmuneSlow;
       fall := 0 <? evs_get (st_computed state) Stat.ImmuneFall |}.

Record StatRecomputeReport : Type := { rep_changes : StatChangeSet; rep_runtime_dirty : bool }.

Definition recompute_report (source : ActorStatSource) state :
    option (ActorStatState Source Detail * StatRecomputeReport) :=
  let old_computed := st_computed state in
  let '(state, explicit_changes) := take_explicit_changes state in
  let seeded := seed_rebuild_state state source in
  let derived := rebuild_derived_state state source seeded in
  let state := replace_computed derived state in
  let previous_resources := st_resources state in
  state ← clamp_resources_to_computed_caps state;
  let changed := resource_changes previous_resources (st_resources state) in
  let state := set_derived_immune_flags (derive_immune_flags state) state in
  let explicit := explicit_state_changes (bs_iter explicit_changes) in
  let final_computed_changes := diff_store old_computed (st_computed state) in
  let '(state, runtime_dirty) := take_runtime_dirty state in
  let state := clear_dirty state in
  Some (state, {| rep_changes := merge_changes [final_computed_changes; changed; explicit];
                  rep_runtime_dirty := runtime_dirty |}).
End Rebuild.

(** ** [GameStatsApi] *)
Section Api.
Context `{GrowthRng} {Source Detail : Type} `{OS : OrdKey Source}.
Local Abbreviation State := (ActorStatState Source Detail).
Variable source : ActorStatSource.

(** [GameStatsApi::new] asserts that the kinds agree. *)
Definition api_new (state : State) : option unit :=
  if bool_decide (st_kind state = actor_kind source) then Some tt else None.

Definition api_read_limited (state : State) (stat : Stat) : option Z :=
  read_stat_value state (Some source) stat Limited.
Definition api_read_packet (state : State) (stat : Stat) : Z :=
  read_wire_compatible_value state stat.

Definition public_stats (state : State) : option ActorPublicStats :=
  mov ← api_read_limited state Stat.MovSpeed;
  att ← api_read_limited state Stat.AttSpeed;
  Some {| ps_level := wrap_u 32 (Z.max (api_read_packet state Stat.Level) 0);
          ps_move_speed := saturating_u8 mov;
          ps_attack_speed := saturating_u8 att |}.

Definition public_state (state : State) : option ActorPublicState :=
  stats ← public_stats state;
  Some {| pub_stats := stats; pub_immune_flags := immune_flags (st_runtime state) |}.

Definition current_resource_cap (stat : Stat) (state : State) : result Z StatWriteError :=
  match stat with
  | Stat.Hp => Ok (evs_get (st_computed state) Stat.MaxHp)
  | Stat.Sp => Ok (evs_get (st_computed state) Stat.MaxSp)
  | Stat.Stamina => Ok (evs_get (st_computed state) Stat.MaxStamina)
  | _ => Err (NotResource stat)
  end.

Definition current_resource_value (stat : Stat) (state : State) : result Z StatWriteError :=
  match stat with
  | Stat.Hp => Ok (hp (st_resources state))
  | Stat.Sp => Ok (sp (st_resources state))
  | Stat.Stamina => Ok (stamina (st_resources state))
  | Stat.HpRecovery => Ok (hp_recovery (st_resources state))
  | Stat.SpRecovery => Ok (sp_recovery (st_resources state))
  | _ => Err (NotResource stat)
  end.

Local Abbreviation Api := (M State StatWriteError).

Definition set_stored_stat (stat : Stat) (value : Z) : Api unit :=
  let! valid := or_panic (validate_stored_write_limit source stat value) in
  let! _ := reads (fun _ => valid) in
  call (state_set_stored_stat stat value).

Definition set_stable_id (stable_id : Z) (state : State) : State :=
  state_set_stable_id (Some stable_id) state.
Definition clear_stable_id (state : State) : State := state_set_stable_id None state.

Definition set_resource (stat : Stat) (value : Z) : Api Z :=
  let! cap := reads (current_resource_cap stat) in
  let! capped := or_panic (clamp value 0 cap) in
  let! _ := expect (call (set_resource_stat stat capped)) in
  ret capped.

Definition change_resource (stat : Stat) (delta : Z) : Api Z :=
  let! current := reads (current_resource_value stat) in
  set_resource stat (current +% delta).

Definition apply_resource (application : ResourceApplication) : Api ResourceApplicationResult :=
  let stat := ra_stat application in
  let! previous := reads (current_resource_value stat) in
  let! upper_bound :=
    if ra_clamp_to_cap application then reads (current_resource_cap stat) else ret i32_max in
  let! next :=
    or_panic (clamp (sat_i32 (previous + ra_delta application))
                (ra_min_value application) upper_bound) in
  let! _ := expect (call (set_resource_stat stat next)) in
  ret {| rr_stat := stat; rr_previous := previous; rr_current := next;
         rr_applied_delta := next -% previous;
         rr_was_clamped := negb (next =? sat_i32 (previous + ra_delta application)) |}.

Definition queue_recovery (stat : Stat) (amount : Z) : Api (option QueuedRecovery) :=
  let! bucket := reads (fun _ => recovery_bucket_for_resource stat) in
  let! previous := reads (current_resource_value bucket) in
  let! current := reads (current_resource_value stat) in
  let! cap := reads (current_resource_cap stat) in
  if cap <=? sat_i32 (current + previous) then ret None
  else
    let queued_amount := Z.max amount 0 in
    let next := sat_i32 (previous + queued_amount) in
    let! _ := call (set_resource_stat bucket next) in
    ret (Some {| qr_stat := stat; qr_previous_pending := previous;
                 qr_current_pending := next; qr_queued_amount := queued_amount |}).

Definition queue_auto_recovery (stat : Stat) (available_amount : Z) :
    Api (option QueuedRecovery) :=
  let! bucket := reads (fun _ => recovery_bucket_for_resource stat) in
  let! previous := reads (current_resource_value bucket) in
  let! cap := reads (current_resource_cap stat) in
  let! current := reads (current_resource_value stat) in
  let missing := sat_i32 (cap - sat_i32 (current + previous)) in
  let queued_amount := Z.min (Z.max available_amount 0) missing in
  if queued_amount <=? 0 then ret None
  else
    let next := sat_i32 (previous + queued_amount) in
    let! _ := call (set_resource_stat bucket next) in
    ret (Some {| qr_stat := stat; qr_previous_pending := previous;
                 qr_current_pending := next; qr_queued_amount := queued_amount |}).

Definition apply_pending_recovery (stat : Stat) (amount : Z) : Api ResourceApplicationResult :=
  let! bucket := reads (fun _ => recovery_bucket_for_resource stat) in
  let! pending := reads (current_resource_value bucket) in
  let! current := reads (current_resource_value stat) in
  let! max := reads (current_resource_cap stat) in
  if max <=? current then
    let! _ := call (set_resource_stat bucket 0) in
    apply_resource (restore stat 0)
  else
    let scheduled := Z.min (Z.max amount 0) pending in
    let! result := apply_resource (restore stat scheduled) in
    let! _ :=
      if 0 <? scheduled then call (set_resource_stat bucket (sat_i32 (pending - scheduled)))
      else ret tt in
    ret result.

Definition compiled_modifier_to_instance (src : Source) (modifier : CompiledModifier Detail) :
    GenericModifierInstance Source Stat Detail :=
  {| mi_source := src; mi_stat := cm_stat modifier; mi_amount := cm_amount modifier;
     mi_detail := cm_detail modifier |}.

(** The first modifier stat that is rejected, if any. *)
Fixpoint validate_modifiers (ms : list (CompiledModifier Detail)) :
    result unit SourceBundleError :=
  match ms with
  | [] => Ok tt
  | m :: ms' => let? _ := validate_modifier_stat (cm_stat m) in validate_modifiers ms'
  end.

Definition replace_source_bundle (src : Source) (contribution : CompiledStatContribution Detail)
    (state : State) : State * result unit SourceBundleError :=
  match validate_modifiers (csc_modifiers contribution) with
  | Err e => (state, Err e)
  | Ok _ =>
      (replace_modifier_source src
         (map (compiled_modifier_to_instance src) (csc_modifiers contribution)) state, Ok tt)
  end.

Definition remove_source_bundle (src : Source) (state : State) : State :=
  (remove_modifier_source src state).1.

Definition recompute (state : State) : option (State * StatChangeSet) :=
  '(state, report) ← recompute_report source state;
  Some (state, rep_changes report).

Definition build_sync (changes : StatChangeSet) (runtime_dirty : bool) (state : State) :
    option StatsSync :=
  public ←
    (if runtime_dirty || public_stats_changed changes
     then (p ← public_state state; Some (Some p)) else Some None);
  Some {| sync_changes := changes;
          sync_deltas :=
            map (fun stat => {| delta_stat := stat;
                                delta_value := read_wire_compatible_value state stat |})
              (cs_iter changes);
          sync_public := public |}.

Definition build_full_sync (changes : StatChangeSet) (runtime_dirty : bool) (state : State) :
    option BootstrapStatsSync :=
  p ← public_state state;
  Some {| bs_changes := changes; bs_stat_snapshot := StatSnapshot_from_state state;
          bs_public_state := p |}.

Definition api_sync (state : State) : option (State * StatsSync) :=
  '(state, report) ← recompute_report source state;
  sync ← build_sync (rep_changes report) (rep_runtime_dirty report) state;
  Some (state, sync).

Definition bootstrap_sync (state : State) : option (State * BootstrapStatsSync) :=
  '(state, report) ← recompute_report source state;
  sync ← build_full_sync (rep_changes report) (rep_runtime_dirty report) state;
  Some (state, sync).

Definition sync_if_dirty (state : State) : option (State * StatsSync) :=
  if state_is_dirty state then api_sync state
  else
    sync ← build_sync cs_default false state;
    Some (state, sync).
End Api.

(** ** [ActorStatsRuntime] *)
Record ActorStatsRuntime : Type := {
  ar_source : ActorStatSource;
  ar_state : ActorStatState unit unit;
  ar_pending : PendingPlayerStatsSync }.

Definition ActorStatsRuntime_new (source : ActorStatSource) (state : ActorStatState unit unit) :
    ActorStatsRuntime :=
  {| ar_source := source; ar_state := state; ar_pending := pending_default |}.

Section Runtime.
Context `{GrowthRng}.

(** [with_api_mut]: the constructor's assertion, then the closure on the state. *)
Definition with_api_mut {T} (f : ActorStatSource -> ActorStatState unit unit ->
    option (ActorStatState unit unit * T)) (r : ActorStatsRuntime) :
    option (ActorStatsRuntime * T) :=
  _ ← api_new (ar_source r) (ar_state r);
  '(state, t) ← f (ar_source r) (ar_state r);
  Some ({| ar_source := ar_source r; ar_state := state; ar_pending := ar_pending r |}, t).

Definition runtime_read_packet (r : ActorStatsRuntime) (stat : Stat) : Z :=
  read_wire_compatible_value (ar_state r) stat.
Definition runtime_read_limited (r : ActorStatsRuntime) (stat : Stat) : option Z :=
  read_stat_value (ar_state r) (Some (ar_source r)) stat Limited.

Definition validate_stored_stat (r : ActorStatsRuntime) (stat : Stat) (value : Z) :
    option (result unit StatWriteError) :=
  _ ← api_new (ar_source r) (ar_state r);
  '(_, res) ← set_stored_stat (ar_source r) stat value (ar_state r);
  Some res.

Definition normalize (r : ActorStatsRuntime) : option (ActorStatsRuntime * StatsSync) :=
  '(r, sync) ← with_api_mut sync_if_dirty r;
  Some ({| ar_source := ar_source r; ar_state := ar_state r;
           ar_pending := pending_merge (ar_pending r) sync |}, sync).

Definition drain_sync (r : ActorStatsRuntime) :
    option (ActorStatsRuntime * DrainedPlayerStatsSync) :=
  '(r, _) ← normalize r;
  let '(pending, drained) := pending_drain (ar_pending r) in
  Some ({| ar_source := ar_source r; ar_state := ar_state r; ar_pending := pending |}, drained).
End Runtime.
