(* ===== verification/StatsRecompute.v ===== *)
(** Recomputation of an actor's stats: what it changes, what it reports, when it
    panics, that it is idempotent, and that modifier bundles are additive and
    independent of the order of their sources. *)
From S2P Require Import Prelude BTree Domain StatStore StatSource Samples Progression ActorState StatsApi.

(** ** Change sets *)

Lemma cs_contains_cond_fold (old new : PointValueStore) l c s :
  cs_contains (fold_left (fun changes stat =>
    if evs_get old stat =? evs_get new stat then changes else cs_insert changes stat) l c) s = true <->
  (s ∈ l /\ evs_get old s <> evs_get new s) \/ cs_contains c s = true.
Proof.
  revert c. induction l as [| x l IH]; intros c; cbn.
  - rewrite elem_of_nil. tauto.
  - rewrite IH, elem_of_cons. destruct (Z.eqb_spec (evs_get old x) (evs_get new x)) as [E | N].
    + split; [tauto |]. intros [[[-> | ?] ?] | ?]; tauto.
    + rewrite cs_contains_insert. split; [intros [? | [-> | ?]] | intros [[[-> | ?] ?] | ?]]; tauto.
Qed.

(** [diff_store] visits the non-zero entries of both stores, which is enough to
    see every difference. *)
Lemma diff_store_spec old new s :
  cs_contains (diff_store old new) s = true <-> evs_get old s <> evs_get new s.
Proof.
  unfold diff_store. rewrite !cs_contains_cond_fold, !evs_iter_keys, cs_contains_default.
  split; [intros [[? ?] | [[? ?] | ?]]; done |]. intros H.
  destruct (Z.eq_dec (evs_get old s) 0); [left | right; left]; split; congruence.
Qed.

Lemma resource_changes_spec o n s :
  cs_contains (resource_changes o n) s = true <->
  (s = Stat.Hp /\ hp o <> hp n) \/ (s = Stat.Sp /\ sp o <> sp n) \/
  (s = Stat.Stamina /\ stamina o <> stamina n).
Proof.
  unfold resource_changes, insert_resource_changes.
  destruct (Z.eqb_spec (hp o) (hp n)), (Z.eqb_spec (sp o) (sp n)), (Z.eqb_spec (stamina o) (stamina n));
    rewrite ?cs_contains_insert, cs_contains_default; intuition congruence.
Qed.

Lemma merge_changes_spec phases s :
  cs_contains (merge_changes phases) s = true <-> exists p, p ∈ phases /\ cs_contains p s = true.
Proof.
  unfold merge_changes.
  assert (forall c, cs_contains (fold_left (fun changes phase => fold_left cs_insert (cs_iter phase) changes)
      phases c) s = true <-> (exists p, p ∈ phases /\ cs_contains p s = true) \/ cs_contains c s = true) as H.
  { induction phases as [| p phases IH]; intros c; cbn.
    - split; [auto | intros [(? & H%elem_of_nil & _) | ?]; done].
    - rewrite IH, cs_contains_fold, <- cs_contains_iter. setoid_rewrite elem_of_cons.
      split; [intros [(q & ? & ?) | [? | ?]] | intros [(q & [-> | ?] & ?) | ?]]; eauto. }
  rewrite H, cs_contains_default. intuition congruence.
Qed.

Lemma explicit_state_changes_spec l s :
  cs_contains (explicit_state_changes l) s = true <-> s ∈ l.
Proof.
  unfold explicit_state_changes. rewrite cs_contains_fold, cs_contains_default. intuition congruence.
Qed.

(** ** The shape of a recomputation *)
Section Recompute.
Context `{GR : GrowthRng} {Source Detail : Type} `{OS : OrdKey Source}.
Implicit Type state : ActorStatState Source Detail.

(** The derived store, a function of base, modifiers, identity and source. *)
Definition derived_of (source : ActorStatSource) state : PointValueStore :=
  rebuild_derived_state state source (seed_rebuild_state state source).

Definition immunity_of (computed : PointValueStore) (ext : ActorImmuneFlags) : ActorImmuneFlags :=
  flags_or ext
    {| stun := 0 <? evs_get computed Stat.ImmuneStun;
       slow := 0 <? evs_get computed Stat.ImmuneSlow;
       fall := 0 <? evs_get computed Stat.ImmuneFall |}.

(** The state a recomputation leaves, given the clamped resources. *)
Definition recomputed (source : ActorStatSource) state (r : ActorResources) :
    ActorStatState Source Detail :=
  {| st_kind := st_kind state; st_stable_id := st_stable_id state;
     st_progression := st_progression state; st_base := st_base state;
     st_computed := derived_of source state; st_resources := r;
     st_runtime :=
       {| immune_flags := immunity_of (derived_of source state) (external_immune_flags (st_runtime state));
          external_immune_flags := external_immune_flags (st_runtime state) |};
     st_modifiers := st_modifiers state; st_explicit_changes := bs_empty;
     st_dirty := false; st_runtime_dirty := false |}.

Definition report_of (source : ActorStatSource) state (r : ActorResources) : StatRecomputeReport :=
  {| rep_changes :=
       merge_changes [diff_store (st_computed state) (derived_of source state);
                      resource_changes (st_resources state) r;
                      explicit_state_changes (bs_iter (st_explicit_changes state))];
     rep_runtime_dirty :=
       st_runtime_dirty state ||
       negb (bool_decide (immune_flags (st_runtime state) =
         immunity_of (derived_of source state) (external_immune_flags (st_runtime state)))) |}.

Lemma derived_of_put_explicit c source state :
  derived_of source (put_explicit_changes c state) = derived_of source state.
Proof. destruct source; reflexivity. Qed.

Lemma derived_of_recomputed source' source state r :
  derived_of source (recomputed source' state r) = derived_of source state.
Proof. destruct source; reflexivity. Qed.

Lemma set_derived_immune_flags_eq flags state :
  set_derived_immune_flags flags state =
    put_runtime_dirty
      (st_runtime_dirty state || negb (bool_decide (immune_flags (st_runtime state) = flags)))
      (put_runtime {| immune_flags := flags;
                      external_immune_flags := external_immune_flags (st_runtime state) |}
        (put_dirty (st_dirty (set_derived_immune_flags flags state)) state)).
Proof.
  destruct state as [k i p b c r [f e] m x d rd].
  unfold set_derived_immune_flags; cbn [st_runtime immune_flags st_runtime_dirty st_dirty].
  case_bool_decide as E; cbn [negb].
  - subst. by rewrite orb_false_r.
  - by rewrite orb_true_r.
Qed.

Lemma recompute_report_eq source state :
  recompute_report source state =
  r ← clamp_to_caps (st_resources state) (derived_of source state);
  Some (recomputed source state r, report_of source state r).
Proof.
  unfold recompute_report, take_explicit_changes. cbv beta iota zeta.
  fold (derived_of source (put_explicit_changes bs_empty state)). rewrite derived_of_put_explicit.
  unfold recomputed, report_of. generalize (derived_of source state). intros computed.
  unfold clamp_resources_to_computed_caps, replace_computed.
  cbn [put_computed st_resources st_computed].
  destruct (clamp_to_caps _ _) as [r |]; [| reflexivity].
  cbn [mbind option_bind]. rewrite set_derived_immune_flags_eq. reflexivity.
Qed.

#[local] Opaque derived_of immunity_of.

Lemma recompute_report_inv source state state' rep :
  recompute_report source state = Some (state', rep) ->
  exists r, clamp_to_caps (st_resources state) (derived_of source state) = Some r /\
    state' = recomputed source state r /\ rep = report_of source state r.
Proof.
  rewrite recompute_report_eq. destruct (clamp_to_caps _ _) as [r |]; cbn; intros; inv_some. eauto.
Qed.

Lemma report_of_contains source state r s :
  cs_contains (rep_changes (report_of source state r)) s = true <->
  evs_get (st_computed state) s <> evs_get (derived_of source state) s \/
  bs_contains (st_explicit_changes state) s = true \/
  (s = Stat.Hp /\ hp (st_resources state) <> hp r) \/
  (s = Stat.Sp /\ sp (st_resources state) <> sp r) \/
  (s = Stat.Stamina /\ stamina (st_resources state) <> stamina r).
Proof.
  unfold report_of. cbn [rep_changes]. rewrite merge_changes_spec, <- diff_store_spec,
    <- resource_changes_spec, bs_contains_iter, <- explicit_state_changes_spec.
  split.
  - intros (p & Hp & H). rewrite !elem_of_cons, elem_of_nil in Hp.
    destruct Hp as [-> | [-> | [-> | []]]]; auto.
  - intros [H | [H | H]]; eexists; (split; [| exact H]); rewrite !elem_of_cons; auto.
Qed.

(** [C6] A recomputation reports exactly what it changed: a stat is in the
    report if and only if its computed value differs from the one before, or it
    was changed explicitly since the last recomputation, or it is a resource
    that the new caps clamped; the state it leaves is clean, keeps base,
    progression, modifiers and identity, and has its resources within the caps. *)
Theorem recompute_report_exact source state state' rep :
  recompute_report source state = Some (state', rep) ->
  (forall s, cs_contains (rep_changes rep) s = true <->
     evs_get (st_computed state) s <> evs_get (st_computed state') s \/
     bs_contains (st_explicit_changes state) s = true \/
     (s = Stat.Hp /\ hp (st_resources state) <> hp (st_resources state')) \/
     (s = Stat.Sp /\ sp (st_resources state) <> sp (st_resources state')) \/
     (s = Stat.Stamina /\ stamina (st_resources state) <> stamina (st_resources state'))) /\
  state_is_dirty state' = false /\ st_explicit_changes state' = bs_empty /\
  st_base state' = st_base state /\ st_progression state' = st_progression state /\
  st_modifiers state' = st_modifiers state /\ st_stable_id state' = st_stable_id state /\
  0 <= hp (st_resources state') <= evs_get (st_computed state') Stat.MaxHp /\
  0 <= sp (st_resources state') <= evs_get (st_computed state') Stat.MaxSp /\
  0 <= stamina (st_resources state') <= evs_get (st_computed state') Stat.MaxStamina.
Proof.
  intros H. apply recompute_report_inv in H as (r & Hr & -> & ->). cbn [recomputed st_computed st_resources].
  split; [intros s; apply report_of_contains |]. do 6 (split; [done |]).
  apply clamp_to_caps_Some in Hr as (H1 & H2 & H3 & ->). cbn.
  split; [| split]; apply clampc_range; done.
Qed.

(** A recomputation panics exactly when the derived value of one of the
    three resource caps is negative ([i32::clamp] asserts [min <= max]). *)
Theorem recompute_panics_iff source state :
  recompute source state = None <->
  evs_get (derived_of source state) Stat.MaxHp < 0 \/
  evs_get (derived_of source state) Stat.MaxSp < 0 \/
  evs_get (derived_of source state) Stat.MaxStamina < 0.
Proof.
  unfold recompute. rewrite recompute_report_eq.
  destruct (clamp_to_caps _ _) as [r |] eqn:E; cbn [mbind option_bind].
  - apply clamp_to_caps_Some in E as (? & ? & ? & _). split; [discriminate | lia].
  - split; [intros _ | reflexivity].
    destruct (Z_lt_dec (evs_get (derived_of source state) Stat.MaxHp) 0); [auto |].
    destruct (Z_lt_dec (evs_get (derived_of source state) Stat.MaxSp) 0); [auto |].
    destruct (Z_lt_dec (evs_get (derived_of source state) Stat.MaxStamina) 0); [auto |].
    exfalso. eassert (clamp_to_caps _ _ = Some _) as C; [| rewrite E in C; discriminate C].
    apply clamp_to_caps_Some. do 3 (split; [lia |]). reflexivity.
Qed.

(** A state a recomputation leaves as it is. *)
Record up_to_date (source : ActorStatSource) state : Prop := {
  utd_resources : clamp_to_caps (st_resources state) (derived_of source state) = Some (st_resources state);
  utd_computed : st_computed state = derived_of source state;
  utd_immune : immune_flags (st_runtime state) =
    immunity_of (derived_of source state) (external_immune_flags (st_runtime state));
  utd_explicit : st_explicit_changes state = bs_empty;
  utd_dirty : st_dirty state = false;
  utd_runtime_dirty : st_runtime_dirty state = false }.

Lemma up_to_date_recompute source state :
  up_to_date source state ->
  recompute_report source state =
    Some (state, {| rep_changes := cs_default; rep_runtime_dirty := false |}).
Proof.
  intros [Hr Hc Hi He Hd Hrd]. rewrite recompute_report_eq, Hr. cbn [mbind option_bind].
  f_equal. f_equal.
  - destruct state as [k i p b c r [f e] m x d rd]. unfold recomputed. cbn in Hc, Hi, He, Hd, Hrd.
    cbn [st_kind st_stable_id st_progression st_base st_runtime external_immune_flags st_modifiers].
    subst d rd x. rewrite <- Hi. rewrite <- Hc. done.
  - destruct (report_of source state (st_resources state)) as [c d] eqn:E.
    assert (d = false) as ->.
    { apply (f_equal rep_runtime_dirty) in E. unfold report_of in E. cbn [rep_runtime_dirty] in E.
      rewrite Hrd, bool_decide_eq_true_2 in E by exact Hi. done. }
    f_equal. apply cs_default_iff. intros s. apply not_true_is_false. intros Hs.
    replace c with (rep_changes (report_of source state (st_resources state))) in Hs by (by rewrite E).
    apply report_of_contains in Hs. rewrite He, Hc in Hs.
    change (bs_contains bs_empty s = true) with (false = true) in Hs.
    destruct Hs as [? | [? | [[_ ?] | [[_ ?] | [_ ?]]]]]; done.
Qed.

Lemma recompute_up_to_date source state state' rep :
  recompute_report source state = Some (state', rep) -> up_to_date source state'.
Proof.
  intros (r & Hr & -> & ->)%recompute_report_inv.
  split; rewrite ?derived_of_recomputed; try reflexivity. exact (clamp_to_caps_idem _ _ _ Hr).
Qed.

(** Recomputation is idempotent: right after one, another returns the same
    state and an empty report, and the dirty-driven [sync_if_dirty] sends no
    deltas and no public state. *)
Theorem recompute_idempotent source state state' rep :
  recompute_report source state = Some (state', rep) ->
  recompute_report source state' =
    Some (state', {| rep_changes := cs_default; rep_runtime_dirty := false |}) /\
  sync_if_dirty source state' =
    Some (state', {| sync_changes := cs_default; sync_deltas := []; sync_public := None |}).
Proof.
  intros H. apply recompute_up_to_date in H. split; [by apply up_to_date_recompute |].
  unfold sync_if_dirty, state_is_dirty. by rewrite (utd_dirty _ _ H), (utd_runtime_dirty _ _ H).
Qed.

(** ** Modifiers *)

Lemma evs_fold_seed (l : list (GenericModifierInstance Source Stat Detail)) (b : PointValueStore) s :
  evs_get (fold_left (fun seeded m => if accepts_source_contribution (mi_stat m)
    then evs_add seeded (mi_stat m) (mi_amount m) else seeded) l b) s =
  if accepts_source_contribution s
  then fold_left (fun acc i => acc +% mi_amount i) (filter (fun i => mi_stat i = s) l) (evs_get b s)
  else evs_get b s.
Proof.
  revert b. induction l as [| m l IH]; intros b.
  - cbn. by destruct (accepts_source_contribution s).
  - cbn [fold_left]. rewrite IH, filter_cons. destruct (accepts_source_contribution (mi_stat m)) eqn:A.
    + rewrite evs_get_add. destruct (decide (mi_stat m = s)) as [<- | N]; [| done]. by rewrite A.
    + destruct (decide (mi_stat m = s)) as [<- | N]; [| done]. by rewrite A.
Qed.

Lemma fold_add32_shift {A} (g : A -> Z) (l : list A) z :
  is_i32 z -> fold_left (fun acc i => acc +% g i) l z = z +% fold_left (fun acc i => acc +% g i) l 0.
Proof.
  intros Hz. revert z Hz. induction l as [| a l IH]; intros z Hz; cbn.
  - unfold add32. rewrite Z.add_0_r. symmetry. by apply wrap32_id.
  - rewrite IH, (IH (0 +% g a)) by apply add32_range. rewrite add32_assoc. f_equal.
    unfold add32 at 1 2 3. rewrite Z.add_0_l, (Z.add_comm z (wrap_s 32 (g a))), wrap32_idem_add_l.
    f_equal. lia.
Qed.

(** Modifiers are additive: before the derived stats are rebuilt, a stat
    holds its base value plus the mob's own value plus the ledger's total for
    that stat (i32 sums), and a stat that takes no contributions is not touched
    by the ledger. *)
Theorem seed_rebuild_total source state s :
  is_i32 (evs_get (apply_source_seed (st_base state) source) s) ->
  evs_get (seed_rebuild_state state source) s =
    if accepts_source_contribution s
    then evs_get (apply_source_seed (st_base state) source) s +% total_for_stat (st_modifiers state) s
    else evs_get (apply_source_seed (st_base state) source) s.
Proof.
  intros Hb. unfold seed_rebuild_state, total_for_stat. rewrite evs_fold_seed.
  destruct (accepts_source_contribution s); [| done]. by rewrite fold_add32_shift.
Qed.

(** The order in which two sources install their bundles does not matter,
    and a bundle that is removed again leaves no trace: installing valid bundles
    for two different sources in either order gives the same state, and removing
    a source restores the modifiers it had before it was installed. *)
Theorem source_bundles_commute state s1 s2 c1 c2 :
  ledger_wf (st_modifiers state) -> s1 <> s2 ->
  validate_modifiers (csc_modifiers c1) = Ok tt -> validate_modifiers (csc_modifiers c2) = Ok tt ->
  (replace_source_bundle s2 c2 (replace_source_bundle s1 c1 state).1).1 =
    (replace_source_bundle s1 c1 (replace_source_bundle s2 c2 state).1).1 /\
  (bundle_of (st_modifiers state) s1 = [] ->
   st_modifiers (remove_source_bundle s1 (replace_source_bundle s1 c1 state).1) = st_modifiers state).
Proof.
  intros Hw Hne V1 V2. unfold replace_source_bundle, remove_source_bundle. rewrite V1, V2. cbn [fst].
  split.
  - unfold replace_modifier_source. cbn. by rewrite replace_source_comm.
  - intros Hb. unfold remove_modifier_source, replace_modifier_source. cbn.
    set (ms := map _ _). apply (ledger_ext (OS := OS)).
    + by apply (remove_source_wf (OS := OS)), replace_source_wf.
    + done.
    + intros s. change {| by_source := bt_remove (by_source (replace_source (st_modifiers state) s1 ms)) s1 |}
        with (replace_source (replace_source (st_modifiers state) s1 ms) s1 []).
      destruct (decide (ord_key s1 = ord_key s)) as [E | N].
      * apply (inj ord_key) in E. subst s. rewrite bundle_of_replace_eq by (by apply replace_source_wf). done.
      * rewrite !bundle_of_replace_ne by congruence. done.
Qed.
End Recompute.

(** ** Concrete instances *)
Section Instances.
Local Existing Instance sample_rng.

Definition sample_source : ActorStatSource := Source_Mob sample_mob.
Definition sample_state : ActorStatState unit unit :=
  (replace_source_bundle tt {| csc_modifiers := [CompiledModifier_plain Stat.St 5; CompiledModifier_plain Stat.AttSpeed 40] |}
    (put_base (evs_set evs_new Stat.Level 3) (ActorStatState_new ActorKind_Mob))).1.

Lemma sample_recompute : is_Some (recompute_report sample_source sample_state).
Proof. vm_compute. eauto. Qed.

Lemma recompute_report_exact_witness :
  exists state' rep, recompute_report sample_source sample_state = Some (state', rep) /\
    0 <= hp (st_resources state') <= evs_get (st_computed state') Stat.MaxHp /\
    state_is_dirty state' = false.
Proof.
  destruct sample_recompute as [[state' rep] E].
  destruct (recompute_report_exact sample_source sample_state state' rep E)
    as (_ & H1 & _ & _ & _ & _ & _ & H2 & _).
  exists state', rep. done.
Defined.

Lemma recompute_idempotent_witness :
  exists state' rep, recompute_report sample_source sample_state = Some (state', rep) /\
    recompute_report sample_source state' =
      Some (state', {| rep_changes := cs_default; rep_runtime_dirty := false |}).
Proof.
  destruct sample_recompute as [[state' rep] E].
  destruct (recompute_idempotent sample_source sample_state state' rep E) as [H _].
  exists state', rep. done.
Defined.

Lemma seed_rebuild_total_witness :
  evs_get (seed_rebuild_state sample_state sample_source) Stat.St = 17.
Proof.
  rewrite (seed_rebuild_total sample_source sample_state Stat.St); [reflexivity | by vm_compute].
Defined.

Lemma source_bundles_commute_witness :
  let c1 := {| csc_modifiers := [CompiledModifier_plain Stat.St 5] |} in
  let c2 := {| csc_modifiers := [CompiledModifier_plain Stat.Ht 7] |} in
  let state := ActorStatState_new (Source := Z) (Detail := unit) ActorKind_Player in
  (replace_source_bundle 2 c2 (replace_source_bundle 1 c1 state).1).1 =
    (replace_source_bundle 1 c1 (replace_source_bundle 2 c2 state).1).1.
Proof.
  cbv zeta.
  apply (source_bundles_commute (ActorStatState_new ActorKind_Player) 1 2
    {| csc_modifiers := [CompiledModifier_plain Stat.St 5] |}
    {| csc_modifiers := [CompiledModifier_plain Stat.Ht 7] |});
    [apply ledger_default_wf | done | reflexivity | reflexivity].
Defined.
End Instances.
