(* ===== verification/StatsOps.v ===== *)
(** The operations of the stat API as data: every write the API performs on an
    actor's state is one of six primitive writes, which keep the fields in the
    ranges of their Rust types; the operations and the recomputations keep the
    resources within their caps, and when a write to a resource panics. *)
From S2P Require Import Prelude BTree Domain StatStore StatSource Samples Progression ActorState StatsApi StatsRecompute.

(** ** Inversion of the monad *)
Section MonadFacts.
Context {S E : Type}.
Implicit Types (s : S).

Lemma bind_Some {A B} (m : M S E A) (k : A -> M S E B) s s' r :
  bind m k s = Some (s', r) <->
  (exists s1 a, m s = Some (s1, Ok a) /\ k a s1 = Some (s', r)) \/
  (exists e, m s = Some (s', Err e) /\ r = Err e).
Proof.
  unfold bind. destruct (m s) as [[s1 [a | e]] |]; split; intros H.
  - eauto.
  - destruct H as [(? & ? & [= <- <-] & ?) | (? & ? & ?)]; done.
  - injection H as <- <-. eauto.
  - destruct H as [(? & ? & ? & ?) | (? & [= <- <-] & ->)]; done.
  - discriminate.
  - destruct H as [(? & ? & ? & ?) | (? & ? & ?)]; discriminate.
Qed.

Lemma reads_Some {A} (f : S -> result A E) s s' r :
  reads f s = Some (s', r) <-> s' = s /\ r = f s.
Proof. unfold reads. split; [intros [= <- <-]; done | intros [-> ->]; done]. Qed.
Lemma ret_Some {A} (a : A) s s' (r : result A E) : ret a s = Some (s', r) <-> s' = s /\ r = Ok a.
Proof. unfold ret. split; [intros [= <- <-]; done | intros [-> ->]; done]. Qed.
Lemma call_Some {A} (f : S -> S * result A E) s s' r : call f s = Some (s', r) <-> f s = (s', r).
Proof. unfold call. split; [intros [=]; done | intros ->; done]. Qed.
Lemma or_panic_Some {A} (o : option A) s s' (r : result A E) :
  or_panic o s = Some (s', r) <-> exists a, o = Some a /\ s' = s /\ r = Ok a.
Proof.
  unfold or_panic. destruct o; split; intros H.
  - injection H as <- <-. eauto.
  - destruct H as (? & [= <-] & -> & ->). done.
  - discriminate.
  - destruct H as (? & ? & _). discriminate.
Qed.
Lemma expect_Some {A} (m : M S E A) s s' r :
  expect m s = Some (s', r) <-> exists a, m s = Some (s', Ok a) /\ r = Ok a.
Proof.
  unfold expect. destruct (m s) as [[s1 [a | e]] |]; split; intros H;
    try discriminate; try (destruct H as (? & ? & ?); inv_some; discriminate).
  - injection H as <- <-. eauto.
  - destruct H as (? & [= <- <-] & ->). done.
Qed.
End MonadFacts.

(** Take a successful run of a monadic operation apart. *)
Ltac run_inv :=
  repeat match goal with
  | H : bind _ _ _ = Some _ |- _ =>
      apply bind_Some in H; destruct H as [(? & ? & ? & H) | (? & H & ?)]; subst
  | H : reads _ _ = Some _ |- _ => apply reads_Some in H; destruct H as [? ?]; subst
  | H : ret _ _ = Some _ |- _ => apply ret_Some in H; destruct H as [? ?]; subst
  | H : call _ _ = Some _ |- _ => apply call_Some in H
  | H : or_panic _ _ = Some _ |- _ => apply or_panic_Some in H; destruct H as (? & ? & ? & ?); subst
  | H : expect _ _ = Some _ |- _ => apply expect_Some in H; destruct H as (? & H & ?); subst
  | H : Ok _ = Ok _ |- _ => injection H as H; subst
  | H : Ok _ = Err _ |- _ => discriminate H
  | H : Err _ = Ok _ |- _ => discriminate H
  end.

(** ** Ranges *)

Definition store_i32 (s : PointValueStore) : Prop := forall stat, is_i32 (evs_get s stat).

Definition progression_ok (p : PlayerProgressionState) : Prop :=
  is_i32 (prog_level p) /\ is_u32 (exp_in_level p) /\ is_u32 (next_exp_in_level p).

Definition resources_i32 (r : ActorResources) : Prop :=
  is_i32 (hp r) /\ is_i32 (sp r) /\ is_i32 (stamina r) /\ is_i32 (hp_recovery r) /\ is_i32 (sp_recovery r).

Definition is_u64_opt (o : option Z) : Prop := match o with Some v => is_u64 v | None => True end.

(** The integers of a source that a recomputation stores as they are. *)
Definition source_i32 (source : ActorStatSource) : Prop :=
  match stored_write_limit source Stat.Gold with Some m => is_i32 m | None => True end.

Section Ops.
Context `{GR : GrowthRng} {Source Detail : Type} `{OS : OrdKey Source}.
Local Abbreviation State := (ActorStatState Source Detail).
Implicit Types state : State.

Record state_wf (s : State) : Prop := {
  wf_base : store_i32 (st_base s);
  wf_computed : store_i32 (st_computed s);
  wf_resources : resources_i32 (st_resources s);
  wf_progression : progression_ok (st_progression s);
  wf_stable : is_u64_opt (st_stable_id s);
  wf_ledger : ledger_wf (st_modifiers s);
  wf_amounts : Forall (fun m => is_i32 (mi_amount m)) (ledger_iter (st_modifiers s)) }.

(** ** The operations that write *)
Inductive StatOp : Type :=
| Op_SetStoredStat (stat : Stat) (value : Z)
| Op_SetPlayerProgression (p : PlayerProgressionState)
| Op_SetStableId (id : Z)
| Op_ClearStableId
| Op_SetResource (stat : Stat) (value : Z)
| Op_ChangeResource (stat : Stat) (delta : Z)
| Op_ApplyResource (a : ResourceApplication)
| Op_QueueRecovery (stat : Stat) (amount : Z)
| Op_QueueAutoRecovery (stat : Stat) (available : Z)
| Op_ApplyPendingRecovery (stat : Stat) (amount : Z)
| Op_ReplaceSourceBundle (src : Source) (c : CompiledStatContribution Detail)
| Op_RemoveSourceBundle (src : Source)
| Op_SetExternalImmuneFlags (flags : ActorImmuneFlags).

(** The state after an operation, its result dropped; [None] is a panic. *)
Definition run_op (source : ActorStatSource) (op : StatOp) state : option State :=
  match op with
  | Op_SetStoredStat stat v => fst <$> set_stored_stat source stat v state
  | Op_SetPlayerProgression p => Some (set_player_progression p state)
  | Op_SetStableId id => Some (set_stable_id id state)
  | Op_ClearStableId => Some (clear_stable_id state)
  | Op_SetResource stat v => fst <$> set_resource stat v state
  | Op_ChangeResource stat d => fst <$> change_resource stat d state
  | Op_ApplyResource a => fst <$> apply_resource a state
  | Op_QueueRecovery stat a => fst <$> queue_recovery stat a state
  | Op_QueueAutoRecovery stat a => fst <$> queue_auto_recovery stat a state
  | Op_ApplyPendingRecovery stat a => fst <$> apply_pending_recovery stat a state
  | Op_ReplaceSourceBundle src c => Some (replace_source_bundle src c state).1
  | Op_RemoveSourceBundle src => Some (remove_source_bundle src state)
  | Op_SetExternalImmuneFlags f => Some (state_set_external_immune_flags f state)
  end.

(** The arguments are values of their Rust types. *)
Definition op_ok (op : StatOp) : Prop :=
  match op with
  | Op_SetStoredStat _ v | Op_SetResource _ v | Op_ChangeResource _ v
  | Op_QueueRecovery _ v | Op_QueueAutoRecovery _ v | Op_ApplyPendingRecovery _ v => is_i32 v
  | Op_SetPlayerProgression p => progression_ok p
  | Op_SetStableId id => is_u64 id
  | Op_ApplyResource a => is_i32 (ra_delta a) /\ is_i32 (ra_min_value a)
  | Op_ReplaceSourceBundle _ c => Forall (fun m => is_i32 (cm_amount m)) (csc_modifiers c)
  | _ => True
  end.

(** ** The primitive writes *)
Inductive prim_write : State -> State -> Prop :=
| PW_base stat v s :
    is_i32 v -> is_progression_stat stat = false ->
    prim_write s (record_explicit_change stat (put_base (evs_set (st_base s) stat v) s))
| PW_progression p s : progression_ok p -> prim_write s (set_player_progression p s)
| PW_stable id s : is_u64_opt id -> prim_write s (put_dirty true (put_stable_id id s))
| PW_resource stat v s :
    is_i32 v -> resource_slot stat (st_resources s) <> None ->
    prim_write s (record_explicit_change stat
      (put_resources (put_resource_slot stat v (st_resources s)) s))
| PW_external flags s :
    prim_write s (mark_runtime_dirty
      (put_runtime {| immune_flags := immune_flags (st_runtime s);
                      external_immune_flags := flags |} s))
| PW_modifiers src ms s :
    Forall (fun m => is_i32 (mi_amount m)) ms ->
    prim_write s (replace_modifier_source src ms s).

Lemma set_resource_stat_prim stat v state state' r :
  is_i32 v -> set_resource_stat stat v state = (state', r) -> rtc prim_write state state'.
Proof.
  unfold set_resource_stat. intros Hv H.
  destruct (resource_slot stat _) as [slot |] eqn:E; [| inv_some; done].
  destruct (slot =? v); inv_some; [done |]. apply rtc_once, PW_resource; congruence.
Qed.

Lemma state_set_stored_stat_prim stat v state state' r :
  is_i32 v -> state_set_stored_stat stat v state = (state', r) -> rtc prim_write state state'.
Proof.
  unfold state_set_stored_stat. intros Hv H.
  destruct (is_progression_stat stat) eqn:P; [inv_some; done |].
  case_bools; inv_some; try done. by apply rtc_once, PW_base.
Qed.

Lemma state_set_stable_id_prim id state :
  is_u64_opt id -> rtc prim_write state (state_set_stable_id id state).
Proof.
  intros H. unfold state_set_stable_id. case_bool_decide; [done |]. by apply rtc_once, PW_stable.
Qed.

Lemma current_resource_cap_wf stat state z :
  state_wf state -> current_resource_cap stat state = Ok z -> is_i32 z.
Proof. intros W. destruct stat; cbn; intros [= <-]; apply W. Qed.

Lemma current_resource_value_slot stat state z :
  current_resource_value stat state = Ok z <-> resource_slot stat (st_resources state) = Some z.
Proof. destruct stat; cbn; split; congruence. Qed.

Lemma resource_slot_wf stat r z : resources_i32 r -> resource_slot stat r = Some z -> is_i32 z.
Proof. intros (? & ? & ? & ? & ?). destruct stat; cbn; intros [= <-]; done. Qed.

Lemma clamp_i32 v lo hi z : is_i32 lo -> is_i32 hi -> clamp v lo hi = Some z -> is_i32 z.
Proof. rewrite clamp_Some. unfold_widths. intros ? ? [? ->]. unfold clampc. lia. Qed.

Lemma i32_0 : is_i32 0. Proof. done. Qed.
Lemma i32_max_i32 : is_i32 i32_max. Proof. done. Qed.
#[local] Hint Resolve i32_0 i32_max_i32 : rust.

Lemma set_resource_prim stat v state state' r :
  state_wf state -> set_resource stat v state = Some (state', r) -> rtc prim_write state state'.
Proof.
  intros W H. unfold set_resource in H. run_inv; try done;
    (eapply set_resource_stat_prim; [| eassumption];
     eapply clamp_i32; [| eapply current_resource_cap_wf | eassumption]; eauto with rust).
Qed.

Lemma apply_resource_prim a state state' r :
  state_wf state -> is_i32 (ra_min_value a) ->
  apply_resource a state = Some (state', r) -> rtc prim_write state state'.
Proof.
  intros W Hm H. unfold apply_resource in H. destruct (ra_clamp_to_cap a); run_inv; try done;
    (eapply set_resource_stat_prim; [| eassumption]; eapply clamp_i32; [done | | eassumption];
     eauto using current_resource_cap_wf with rust).
Qed.

Lemma queue_recovery_prim stat a state state' r :
  queue_recovery stat a state = Some (state', r) -> rtc prim_write state state'.
Proof.
  unfold queue_recovery. intros H. run_inv; try done. destruct (_ <=? _); run_inv; try done;
    (eapply set_resource_stat_prim; [| eassumption]; eauto with rust).
Qed.

Lemma queue_auto_recovery_prim stat a state state' r :
  queue_auto_recovery stat a state = Some (state', r) -> rtc prim_write state state'.
Proof.
  unfold queue_auto_recovery. intros H. run_inv; try done. destruct (_ <=? 0); run_inv; try done;
    (eapply set_resource_stat_prim; [| eassumption]; eauto with rust).
Qed.

Lemma store_i32_set (b : PointValueStore) stat v :
  store_i32 b -> is_i32 v -> store_i32 (evs_set b stat v).
Proof. intros Hb Hv s. rewrite evs_get_set. by case_decide. Qed.

Lemma store_i32_add (b : PointValueStore) stat v : store_i32 b -> store_i32 (evs_add b stat v).
Proof. intros Hb s. rewrite evs_get_add. case_decide; eauto with rust. Qed.

Lemma resources_i32_put stat v r : resources_i32 r -> is_i32 v -> resources_i32 (put_resource_slot stat v r).
Proof. unfold resources_i32. intros (? & ? & ? & ? & ?) ?. destruct stat; cbn; tauto. Qed.

(** ** The primitive writes keep a state well formed *)

Lemma record_explicit_change_wf stat state :
  state_wf state -> state_wf (record_explicit_change stat state).
Proof. intros []; split; assumption. Qed.

Lemma put_base_wf b state : state_wf state -> store_i32 b -> state_wf (put_base b state).
Proof. intros []; split; assumption. Qed.

Lemma set_base_projection_stat_wf stat v state :
  state_wf state -> is_i32 v -> state_wf (set_base_projection_stat stat v state).
Proof.
  intros W Hv. unfold set_base_projection_stat. case_bools; [done |].
  apply record_explicit_change_wf, put_base_wf; [done |]. apply store_i32_set; [apply W | done].
Qed.

Lemma clamp_u32_i32 v : is_u32 v -> is_i32 (clamp_u32_to_i32 v).
Proof. unfold clamp_u32_to_i32. unfold_widths. lia. Qed.

Lemma normalized_ok p : progression_ok p -> progression_ok (normalized p).
Proof. unfold progression_ok, normalized. cbn. unfold_widths. lia. Qed.

Lemma level_step_range p : progression_ok p -> 0 <= level_step p <= LEVEL_STEPS_PER_LEVEL.
Proof.
  intros (_ & He & Hn). unfold level_step, normalized. cbn [next_exp_in_level exp_in_level].
  change LEVEL_STEPS_PER_LEVEL with 4. case_bools; zbool; [lia |].
  assert (0 <= Z.min (Z.min (exp_in_level p) (next_exp_in_level p) * 4) u64_max / next_exp_in_level p);
    [| lia].
  apply Z.div_pos; unfold_widths; lia.
Qed.

Lemma set_player_progression_wf p state :
  progression_ok p -> state_wf state -> state_wf (set_player_progression p state).
Proof.
  intros Hp W. apply normalized_ok in Hp. unfold set_player_progression.
  pose proof (level_step_range _ Hp) as Hs. destruct Hp as (H1 & H2 & H3).
  repeat apply set_base_projection_stat_wf; auto using clamp_u32_i32.
  - destruct W. split; try assumption. done.
  - change LEVEL_STEPS_PER_LEVEL with 4 in Hs. unfold_widths. lia.
Qed.

Lemma elem_of_ledger_iter (l : GenericModifierLedger Source Stat Detail) i :
  i ∈ ledger_iter l <-> exists p, p ∈ by_source l /\ i ∈ p.2.
Proof.
  unfold ledger_iter, bt_values. rewrite list_elem_of_In, in_concat. split.
  - intros (ms & Hms & Hi). apply list_elem_of_In, list_elem_of_fmap in Hms as (p & -> & Hp).
    exists p. split; [done |]. by apply list_elem_of_In.
  - intros (p & Hp & Hi). exists p.2. split; [| by apply list_elem_of_In].
    apply list_elem_of_In, list_elem_of_fmap. eauto.
Qed.

Lemma replace_source_amounts l src (ms : list (GenericModifierInstance Source Stat Detail)) :
  Forall (fun m => is_i32 (mi_amount m)) (ledger_iter l) ->
  Forall (fun m => is_i32 (mi_amount m)) ms ->
  Forall (fun m => is_i32 (mi_amount m)) (ledger_iter (replace_source l src ms)).
Proof.
  intros Hl Hms. apply Forall_forall. intros i (p & Hp & Hi)%elem_of_ledger_iter.
  assert (p.2 = ms \/ p ∈ by_source l) as [E | E].
  { destruct ms as [| m ms]; cbn in Hp; [eauto using bt_remove_elem |].
    apply bt_insert_elem in Hp as [-> | ?]; auto. }
  - subst ms. eapply Forall_forall in Hms; eauto.
  - eapply Forall_forall in Hl; [exact Hl |]. apply elem_of_ledger_iter. eauto.
Qed.

Lemma prim_write_wf state state' : prim_write state state' -> state_wf state -> state_wf state'.
Proof.
  destruct 1 as [stat v s Hv _ | p s Hp | id s Hid | stat v s Hv Hs | flags s | src ms s Hms]; intros W.
  - apply record_explicit_change_wf, put_base_wf; [done |]. apply store_i32_set; [apply W | done].
  - by apply set_player_progression_wf.
  - destruct W; split; assumption.
  - apply record_explicit_change_wf. destruct W; split; try assumption. by apply resources_i32_put.
  - destruct W; split; assumption.
  - destruct W; split; try assumption; cbn.
    + by apply replace_source_wf.
    + by apply replace_source_amounts.
Qed.

Lemma prim_writes_wf state state' : rtc prim_write state state' -> state_wf state -> state_wf state'.
Proof. induction 1; eauto using prim_write_wf. Qed.

Lemma apply_pending_recovery_prim stat a state state' r :
  state_wf state -> is_i32 a ->
  apply_pending_recovery stat a state = Some (state', r) -> rtc prim_write state state'.
Proof.
  unfold apply_pending_recovery. intros W Ha H. run_inv; try done.
  destruct (_ <=? _); run_inv; try done.
  - match goal with H : set_resource_stat _ _ _ = _ |- _ =>
      apply set_resource_stat_prim in H as W1; [| done] end.
    etrans; [exact W1 |]. eapply apply_resource_prim; [exact (prim_writes_wf _ _ W1 W) | | exact H]. done.
  - eapply set_resource_stat_prim; [| eassumption]; done.
  - match goal with H : apply_resource _ _ = _ |- _ =>
      apply apply_resource_prim in H as W1; [| done | done] end.
    etrans; [exact W1 |]. destruct (0 <? _); run_inv; try done;
      (eapply set_resource_stat_prim; [| eassumption]; eauto with rust).
  - match goal with H : apply_resource _ _ = _ |- _ =>
      apply apply_resource_prim in H as W1; [| done | done] end.
    etrans; [exact W1 |]. destruct (0 <? _); run_inv; try done;
      (eapply set_resource_stat_prim; [| eassumption]; eauto with rust).
  - eapply apply_resource_prim; [exact W | | eassumption]; done.
Qed.

(** Every operation is a sequence of primitive writes. *)
Lemma run_op_prim source op state state' :
  state_wf state -> op_ok op -> run_op source op state = Some state' -> rtc prim_write state state'.
Proof.
  intros W Ho H. destruct op; cbn [run_op op_ok] in H, Ho;
    try (apply fmap_Some in H as ([s1 r1] & H & ->); cbn [fst]).
  - unfold set_stored_stat in H. run_inv; try done. eapply state_set_stored_stat_prim; [| eassumption]; done.
  - inv_some. by apply rtc_once, PW_progression.
  - inv_some. by apply state_set_stable_id_prim.
  - inv_some. by apply state_set_stable_id_prim.
  - eapply set_resource_prim; [exact W | eassumption].
  - unfold change_resource in H. run_inv; [| done]. eapply set_resource_prim; [exact W | eassumption].
  - eapply apply_resource_prim; [exact W | | eassumption]; apply Ho.
  - eapply queue_recovery_prim, H.
  - eapply queue_auto_recovery_prim, H.
  - eapply apply_pending_recovery_prim; [exact W | exact Ho | eassumption].
  - inv_some. unfold replace_source_bundle. destruct (validate_modifiers _); [| done].
    apply rtc_once, PW_modifiers. by apply Forall_map.
  - inv_some. apply rtc_once. apply (PW_modifiers src [] state). constructor.
  - inv_some. unfold state_set_external_immune_flags. case_bool_decide; [done |].
    apply rtc_once, PW_external.
Qed.

(** ** Recomputation keeps the widths *)

Lemma apply_source_seed_i32 (b : PointValueStore) source :
  store_i32 b -> store_i32 (apply_source_seed b source).
Proof.
  intros Hb. unfold apply_source_seed. destruct (source_mob source); [| done].
  by repeat apply store_i32_add.
Qed.

Lemma seed_rebuild_i32 source state : state_wf state -> store_i32 (seed_rebuild_state state source).
Proof.
  intros W. unfold seed_rebuild_state.
  generalize (apply_source_seed_i32 _ source (wf_base _ W)).
  generalize (apply_source_seed (st_base state) source).
  induction (ledger_iter (st_modifiers state)) as [| m l IH]; intros b Hb; [done |].
  cbn [fold_left]. apply IH. destruct (accepts_source_contribution _); [by apply store_i32_add | done].
Qed.

Lemma derived_i32 source state : state_wf state -> store_i32 (derived_of source state).
Proof.
  intros W. unfold derived_of, rebuild_derived_state.
  pose proof (seed_rebuild_i32 source state W) as Hs. revert Hs.
  generalize (seed_rebuild_state state source). intros c Hc.
  destruct source as [player | mob].
  - unfold rebuild_player_state, set_player_resource_capacity. cbv zeta.
    destruct (st_stable_id state); repeat apply store_i32_set; auto with rust.
  - unfold rebuild_mob_state. cbv zeta. repeat apply store_i32_set; auto with rust.
Qed.

Lemma recompute_report_wf source state state' rep :
  state_wf state -> recompute_report source state = Some (state', rep) -> state_wf state'.
Proof.
  intros W (r & Hr & -> & ->)%recompute_report_inv. pose proof (derived_i32 source state W) as Hd.
  destruct W as [? ? (? & ? & ? & ? & ?) ? ? ? ?]. split; try assumption.
  apply clamp_to_caps_Some in Hr as (? & ? & ? & ->). unfold recomputed, resources_i32.
  pose proof (Hd Stat.MaxHp). pose proof (Hd Stat.MaxSp). pose proof (Hd Stat.MaxStamina).
  cbn. unfold_widths. unfold clampc. lia.
Qed.

Lemma new_state_wf kind : state_wf (ActorStatState_new kind).
Proof. split; cbn; try done; try apply ledger_default_wf; repeat split; done. Qed.

(** ** Resources and their caps *)

(** What a resource slot may hold under the computed caps: at most its cap, and
    nothing negative, but for HP, which damage takes below zero. *)
Definition slot_ok (stat : Stat) (v : Z) (computed : PointValueStore) : Prop :=
  match stat with
  | Stat.Hp => v <= evs_get computed Stat.MaxHp
  | Stat.Sp => 0 <= v <= evs_get computed Stat.MaxSp
  | Stat.Stamina => 0 <= v <= evs_get computed Stat.MaxStamina
  | Stat.HpRecovery | Stat.SpRecovery => 0 <= v
  | _ => True
  end.

Record vitals_ok (s : State) : Prop := {
  vo_slots : forall stat v, resource_slot stat (st_resources s) = Some v -> slot_ok stat v (st_computed s);
  vo_caps : forall stat cap, current_resource_cap stat s = Ok cap -> 0 <= cap }.

Lemma new_state_vitals kind : vitals_ok (ActorStatState_new kind).
Proof. split; intros [] v; cbn; try discriminate; intros [= <-]; cbn; done. Qed.

Lemma vitals_same state state' :
  vitals_ok state -> st_resources state' = st_resources state -> st_computed state' = st_computed state -> vitals_ok state'.
Proof.
  intros [V C] Er Ec. split; [by rewrite Er, Ec |]. intros stat cap H. apply (C stat). revert H.
  destruct stat; cbn; try done; by rewrite Ec.
Qed.

Lemma set_resource_stat_vitals stat v state state' r :
  vitals_ok state -> slot_ok stat v (st_computed state) -> set_resource_stat stat v state = (state', r) ->
  vitals_ok state' /\ st_computed state' = st_computed state /\
  resource_slot stat (st_resources state') = (_ ← resource_slot stat (st_resources state); Some v) /\
  (forall other, other <> stat -> resource_slot other (st_resources state') = resource_slot other (st_resources state)).
Proof.
  unfold set_resource_stat. intros W S H. destruct (resource_slot stat (st_resources state)) as [slot |] eqn:E.
  2: { inv_some. cbn. by rewrite E. }
  destruct (Z.eqb_spec slot v) as [-> | N]; inv_some; [cbn; by rewrite E |]. cbn.
  split; [| split; [done |]; split].
  - split; [| intros stat' cap H'; apply (vo_caps _ W stat'); destruct stat'; exact H']. cbn.
    intros stat' v'. rewrite resource_slot_put by congruence. case_decide as D; [intros [= <-]; by subst | apply W].
  - rewrite resource_slot_put by congruence. by rewrite decide_True.
  - intros other N'. rewrite resource_slot_put by congruence. rewrite decide_False by congruence. done.
Qed.

Lemma cap_slot_ok stat cap v state :
  current_resource_cap stat state = Ok cap -> 0 <= v <= cap -> slot_ok stat v (st_computed state).
Proof. destruct stat; cbn; try discriminate; intros [= <-]; lia. Qed.

Lemma set_resource_vitals stat v state state' r :
  vitals_ok state -> set_resource stat v state = Some (state', r) -> vitals_ok state'.
Proof.
  intros W H. unfold set_resource in H. run_inv; try done;
    (match goal with H : set_resource_stat _ _ _ = _ |- _ => eapply set_resource_stat_vitals in H; [apply H | done |] end;
     match goal with H : clamp _ _ _ = Some _ |- _ => apply clamp_Some in H as [? ->] end;
     match goal with H : Ok ?c = current_resource_cap _ _ |- _ => symmetry in H end;
     eapply cap_slot_ok; [eassumption | apply clampc_range; lia]).
Qed.

(** An application that minds the cap, and zero unless it is one of HP. *)
Definition application_capped (a : ResourceApplication) : Prop :=
  ra_clamp_to_cap a = true /\ (ra_stat a = Stat.Hp \/ 0 <= ra_min_value a).

Lemma apply_resource_vitals a state state' r :
  vitals_ok state -> application_capped a -> apply_resource a state = Some (state', r) -> vitals_ok state'.
Proof.
  intros W [Hc Hm] H. unfold apply_resource in H. rewrite Hc in H. run_inv; try done;
    (match goal with H : set_resource_stat _ _ _ = _ |- _ => eapply set_resource_stat_vitals in H; [apply H | done |] end;
     match goal with H : clamp _ _ _ = Some _ |- _ => apply clamp_Some in H as [? ->] end;
     match goal with H : Ok ?c = current_resource_cap ?st _ |- _ => symmetry in H end;
     destruct Hm as [Hs | Hm];
     [ rewrite Hs in *; cbn; match goal with H : current_resource_cap _ _ = Ok _ |- _ => cbn in H; injection H as <- end;
       unfold clampc; lia
     | eapply cap_slot_ok; [eassumption | unfold clampc; lia] ]).
Qed.
Lemma bucket_slot stat bucket v state :
  vitals_ok state -> recovery_bucket_for_resource stat = Ok bucket -> current_resource_value bucket state = Ok v -> 0 <= v.
Proof.
  intros W Hb Hv. apply current_resource_value_slot in Hv. pose proof (vo_slots _ W _ _ Hv) as H.
  destruct stat; cbn in Hb; try discriminate; injection Hb as <-; exact H.
Qed.

Lemma bucket_slot_ok stat bucket v c : recovery_bucket_for_resource stat = Ok bucket -> 0 <= v -> slot_ok bucket v c.
Proof. destruct stat; cbn; try discriminate; by intros [= <-]. Qed.

Lemma sat_i32_nonneg z : 0 <= z -> 0 <= sat_i32 z.
Proof. unfold sat_i32, clampc. unfold_widths. lia. Qed.

Lemma queue_recovery_vitals stat a state state' r :
  vitals_ok state -> queue_recovery stat a state = Some (state', r) -> vitals_ok state'.
Proof.
  unfold queue_recovery. intros W H. run_inv; try done. destruct (_ <=? _); run_inv; try done;
    (match goal with H : set_resource_stat _ _ _ = _ |- _ => eapply set_resource_stat_vitals in H; [apply H | done |] end;
     eapply bucket_slot_ok; [by symmetry |]; apply sat_i32_nonneg, Z.add_nonneg_nonneg; [| lia];
     eapply bucket_slot; [exact W | by symmetry | by symmetry]).
Qed.

Lemma queue_auto_recovery_vitals stat a state state' r :
  vitals_ok state -> queue_auto_recovery stat a state = Some (state', r) -> vitals_ok state'.
Proof.
  unfold queue_auto_recovery. intros W H. run_inv; try done.
  match type of H with context [if ?z <=? 0 then _ else _] => destruct (Z.leb_spec z 0) end; run_inv; try done;
    (match goal with H : set_resource_stat _ _ _ = _ |- _ => eapply set_resource_stat_vitals in H; [apply H | done |] end;
     eapply bucket_slot_ok; [by symmetry |]; apply sat_i32_nonneg, Z.add_nonneg_nonneg; [| lia];
     eapply bucket_slot; [exact W | by symmetry | by symmetry]).
Qed.

Lemma restore_capped stat a : application_capped (restore stat a).
Proof. split; [done | by right]. Qed.

Lemma apply_pending_recovery_vitals stat a state state' r :
  vitals_ok state -> apply_pending_recovery stat a state = Some (state', r) -> vitals_ok state'.
Proof.
  unfold apply_pending_recovery. intros W H. run_inv; try done.
  match goal with H : Ok ?p = current_resource_value ?b _, Hb : Ok ?b = recovery_bucket_for_resource _ |- _ =>
    assert (0 <= p) by (eapply bucket_slot; [exact W | by symmetry | by symmetry]) end.
  destruct (_ <=? _); run_inv.
  all: repeat match goal with
    | H : set_resource_stat ?b 0 _ = _ |- _ =>
        eapply set_resource_stat_vitals in H; [destruct H as [H _] | done | eapply bucket_slot_ok; [by symmetry | done]]
    | H : apply_resource (restore _ _) ?s = Some (?s', _), W : vitals_ok ?s |- _ =>
        apply apply_resource_vitals in H; [| exact W | apply restore_capped]
    end; try done.
  all: match goal with H : (if 0 <? ?z then _ else _) _ = _ |- _ => destruct (0 <? z) end; run_inv; try done.
  all: match goal with H : set_resource_stat _ _ _ = _ |- _ => eapply set_resource_stat_vitals in H; [apply H | done |] end;
    eapply bucket_slot_ok; [by symmetry | apply sat_i32_nonneg; lia].
Qed.

Lemma base_projection_frame stat v state :
  st_resources (set_base_projection_stat stat v state) = st_resources state /\
  st_computed (set_base_projection_stat stat v state) = st_computed state.
Proof. unfold set_base_projection_stat. by case_bools. Qed.

Lemma set_player_progression_vitals p state : vitals_ok state -> vitals_ok (set_player_progression p state).
Proof.
  intros W. assert (forall stat v s, vitals_ok s -> vitals_ok (set_base_projection_stat stat v s)) as H.
  { intros stat v s Ws. destruct (base_projection_frame stat v s). by apply (vitals_same s). }
  unfold set_player_progression. repeat apply H. by apply (vitals_same state).
Qed.

Definition op_capped (op : StatOp) : Prop :=
  match op with Op_ApplyResource a => application_capped a | _ => True end.

Lemma run_op_vitals source op state state' :
  vitals_ok state -> op_capped op -> run_op source op state = Some state' -> vitals_ok state'.
Proof.
  intros W Ho H. destruct op; cbn [run_op op_capped] in H, Ho;
    try (apply fmap_Some in H as ([s1 r1] & H & ->); cbn [fst]).
  - unfold set_stored_stat in H. run_inv; try done. unfold state_set_stored_stat in H. case_bools; inv_some; try done.
    by apply (vitals_same state).
  - inv_some. by apply set_player_progression_vitals.
  - inv_some. unfold set_stable_id, state_set_stable_id. case_bool_decide; [done |]. by apply (vitals_same state).
  - inv_some. unfold clear_stable_id, state_set_stable_id. case_bool_decide; [done |]. by apply (vitals_same state).
  - by eapply set_resource_vitals.
  - unfold change_resource in H. run_inv; [| done]. by eapply set_resource_vitals.
  - by eapply apply_resource_vitals.
  - by eapply queue_recovery_vitals.
  - by eapply queue_auto_recovery_vitals.
  - by eapply apply_pending_recovery_vitals.
  - inv_some. unfold replace_source_bundle. destruct (validate_modifiers _); [by apply (vitals_same state) | done].
  - inv_some. by apply (vitals_same state).
  - inv_some. unfold state_set_external_immune_flags. case_bool_decide; [done |]. by apply (vitals_same state).
Qed.

(** A recomputation brings the resources under the new caps. *)
Lemma recompute_vitals source state state' rep :
  vitals_ok state -> recompute_report source state = Some (state', rep) -> vitals_ok state'.
Proof.
  intros W (r & Hr & -> & ->)%recompute_report_inv. apply clamp_to_caps_Some in Hr as (H1 & H2 & H3 & ->).
  pose proof (vo_slots _ W) as V. split; unfold recomputed; cbn [st_resources st_computed].
  - intros stat v Hv.
    assert (stat = Stat.HpRecovery \/ stat = Stat.SpRecovery -> resource_slot stat (st_resources state) = Some v) as Hb
      by (intros [-> | ->]; exact Hv).
    destruct stat; cbn in Hv; try discriminate; try (injection Hv as <-); cbn [slot_ok]; try (apply clampc_range; lia);
      try (exact (V _ _ (Hb (or_introl eq_refl)))); try (exact (V _ _ (Hb (or_intror eq_refl)))).
  - intros stat cap. destruct stat; cbn; try discriminate; by intros [= <-].
Qed.

(** ** When a write panics *)
Lemma set_resource_total stat v state : vitals_ok state -> is_Some (set_resource stat v state).
Proof.
  intros W. pose proof (vo_caps _ W stat) as C. unfold set_resource, bind, reads, or_panic, expect, call, ret, clamp.
  destruct (current_resource_cap stat state) as [cap |] eqn:E; [| by eexists].
  rewrite (proj2 (Z.leb_le 0 cap)) by by apply C. cbn.
  unfold set_resource_stat. destruct stat; try discriminate; cbn; case_bools; by eexists.
Qed.

(** An application panics exactly when its minimum is over the cap. *)
Lemma apply_resource_panics a state :
  vitals_ok state -> application_capped a ->
  apply_resource a state = None <-> exists cap, current_resource_cap (ra_stat a) state = Ok cap /\ cap < ra_min_value a.
Proof.
  intros W [Hc _]. unfold apply_resource. rewrite Hc. unfold bind, reads, or_panic, expect, call, ret, clamp.
  destruct (current_resource_cap (ra_stat a) state) as [cap |] eqn:E.
  2: { split; [| by intros (? & [=] & _)]. destruct (current_resource_value (ra_stat a) state); done. }
  destruct (current_resource_value (ra_stat a) state) as [v |] eqn:Ev; [| by destruct (ra_stat a)].
  destruct (Z.leb_spec (ra_min_value a) cap) as [L | L].
  - split; [| intros (? & [= <-] & ?); lia]. unfold set_resource_stat.
    destruct (ra_stat a); try discriminate E; cbn; case_bools; done.
  - split; [by exists cap | done].
Qed.

Lemma restore_total stat amount state : vitals_ok state -> is_Some (apply_resource (restore stat amount) state).
Proof.
  intros W. destruct (apply_resource (restore stat amount) state) eqn:E; [by eexists |]. exfalso.
  apply apply_resource_panics in E as (cap & Hc & Hl); [| done | apply restore_capped].
  apply (vo_caps _ W) in Hc. cbn in Hl. lia.
Qed.

Lemma queue_recovery_total stat a state : is_Some (queue_recovery stat a state).
Proof. unfold queue_recovery, bind, reads, call, ret. repeat case_match; by eexists. Qed.
Lemma queue_auto_recovery_total stat a state : is_Some (queue_auto_recovery stat a state).
Proof. unfold queue_auto_recovery, bind, reads, call, ret. repeat case_match; by eexists. Qed.

Lemma apply_pending_recovery_total stat a state : vitals_ok state -> is_Some (apply_pending_recovery stat a state).
Proof.
  intros W. unfold apply_pending_recovery, bind at 1 2 3 4, reads.
  destruct (recovery_bucket_for_resource stat) as [b |] eqn:Eb; [| by eexists].
  destruct (current_resource_value b state) as [p |]; [| by eexists].
  destruct (current_resource_value stat state); [| by eexists]. destruct (current_resource_cap stat state); [| by eexists].
  destruct (_ <=? _); unfold bind, call, ret.
  - destruct (set_resource_stat b 0 state) as [s1 [u |]] eqn:Es; [| by eexists].
    apply restore_total. eapply set_resource_stat_vitals in Es; [apply Es | done | by eapply bucket_slot_ok].
  - destruct (restore_total stat (Z.min (Z.max a 0) p) state W) as [[s1 [r |]] ->]; [| by eexists].
    destruct (0 <? _); repeat case_match; by eexists.
Qed.

(** ** Sequences of operations and recomputations *)
Inductive ApiStep : Type :=
| Step_Op (op : StatOp)
| Step_Recompute.

Definition run_step (source : ActorStatSource) (step : ApiStep) state : option State :=
  match step with
  | Step_Op op => run_op source op state
  | Step_Recompute => fst <$> recompute_report source state
  end.

Fixpoint run_steps (source : ActorStatSource) (steps : list ApiStep) state : option State :=
  match steps with
  | [] => Some state
  | step :: steps' => state ← run_step source step state; run_steps source steps' state
  end.

Definition step_capped (step : ApiStep) : Prop :=
  match step with Step_Op op => op_capped op | Step_Recompute => True end.

(** The writes to a resource: none of them panics but an application whose minimum
    is over the cap. *)
Definition resource_op_panics (op : StatOp) (state : State) : Prop :=
  match op with
  | Op_ApplyResource a => exists cap, current_resource_cap (ra_stat a) state = Ok cap /\ cap < ra_min_value a
  | _ => False
  end.
Definition is_resource_op (op : StatOp) : bool :=
  match op with
  | Op_SetResource _ _ | Op_ChangeResource _ _ | Op_ApplyResource _ | Op_QueueRecovery _ _ | Op_QueueAutoRecovery _ _
  | Op_ApplyPendingRecovery _ _ => true
  | _ => false
  end.

(** [C20] The resources of an actor stay within their caps.  From a new actor,
    after any sequence of API operations and recomputations that did not panic, HP,
    SP and stamina are at most their caps, the caps, SP, stamina and the
    recovery still pending are not negative (HP is, after damage beyond it, until
    the next recomputation), and from there a write to a resource panics exactly when
    it is an application whose minimum lies over the cap.  The applications are
    those that mind the cap, and zero unless they take from HP: [restore], [spend],
    [damage], [nonlethal_damage] and [poison]; [with_unclamped_cap] is used
    nowhere in the sources. *)
Theorem run_steps_within_caps source kind steps state' :
  Forall step_capped steps ->
  run_steps source steps (ActorStatState_new kind) = Some state' ->
  (forall stat v, current_resource_value stat state' = Ok v -> slot_ok stat v (st_computed state')) /\
  (forall stat cap, current_resource_cap stat state' = Ok cap -> 0 <= cap) /\
  (forall op, is_resource_op op = true -> op_capped op ->
     run_op source op state' = None <-> resource_op_panics op state').
Proof.
  intros Hok H. assert (vitals_ok state') as W.
  { revert Hok H. generalize (new_state_vitals kind). generalize (ActorStatState_new (Source := Source) (Detail := Detail) kind).
    induction steps as [| step steps IH]; intros s W Hok H; [by injection H as <- |].
    inversion Hok as [| ? ? Hs Hss]; subst. cbn [run_steps] in H.
    destruct (run_step source step s) as [s1 |] eqn:E; [| done]. cbn [mbind option_bind] in H. apply (IH s1); [| done | done].
    destruct step; cbn [run_step] in E.
    - by apply (run_op_vitals source op s).
    - apply fmap_Some in E as ([s2 rep] & E & ->). by eapply recompute_vitals. }
  split; [| split; [apply W |]].
  - intros stat v Hv%current_resource_value_slot. by apply W.
  - intros op Hr Hc. destruct op; try discriminate Hr; cbn [run_op resource_op_panics op_capped] in *; rewrite fmap_None.
    + destruct (set_resource_total stat value state' W) as [x ->]. done.
    + unfold change_resource, bind, reads. destruct (current_resource_value stat state'); [| done].
      destruct (set_resource_total stat (a +% delta) state' W) as [x ->]. done.
    + by apply apply_resource_panics.
    + destruct (queue_recovery_total stat amount state') as [x ->]. done.
    + destruct (queue_auto_recovery_total stat available state') as [x ->]. done.
    + destruct (apply_pending_recovery_total stat amount state' W) as [x ->]. done.
Qed.
End Ops.
Arguments StatOp Source Detail : clear implicits.
Arguments ApiStep Source Detail : clear implicits.

(** ** A concrete instance *)
Section Instance_.
Local Existing Instance sample_rng.

Definition sample_steps : list (ApiStep unit unit) :=
  [Step_Op (Op_SetStableId 42); Step_Op (Op_SetStoredStat Stat.St 12);
   Step_Op (Op_SetPlayerProgression (progression_new 3 250 1000));
   Step_Recompute; Step_Op (Op_SetResource Stat.Hp 500);
   Step_Op (Op_ApplyResource (damage 120)); Step_Recompute].

Lemma run_steps_within_caps_witness :
  exists state' v cap, run_steps (Source_Player sample_player) sample_steps (ActorStatState_new ActorKind_Player) = Some state' /\
    current_resource_value Stat.Hp state' = Ok v /\ current_resource_cap Stat.Hp state' = Ok cap /\ 0 < cap /\ v <= cap.
Proof.
  destruct (run_steps (Source_Player sample_player) sample_steps (ActorStatState_new ActorKind_Player))
    as [s |] eqn:E; [| vm_compute in E; discriminate].
  assert (Forall step_capped sample_steps) as F by (repeat constructor; by left).
  destruct (run_steps_within_caps (Source_Player sample_player) ActorKind_Player sample_steps s F E) as (V & _ & _).
  exists s, (hp (st_resources s)), (evs_get (st_computed s) Stat.MaxHp).
  split; [reflexivity |]. split; [reflexivity |]. split; [reflexivity |]. split; [| exact (V Stat.Hp _ eq_refl)].
  vm_compute in E. injection E as <-. reflexivity.
Defined.
End Instance_.
