(* ===== verification/StatsResources.v ===== *)
(** What the resource operations of the stat API do to hit points, spell points
    and stamina: damage, spending and restoring with their clamps, the recovery
    buckets, and the classification of stored writes. *)
From S2P Require Import Prelude BTree Domain StatStore StatSource Samples Progression ActorState StatsApi StatsRecompute StatsOps.

Section Resources.
Context {Source Detail : Type} `{OS : OrdKey Source}.
Local Abbreviation State := (ActorStatState Source Detail).
Implicit Types state : State.

(** The state with one resource written; the change is recorded unless the
    slot already held the value. *)
Definition with_resource (stat : Stat) (v : Z) state : State := (set_resource_stat stat v state).1.

Lemma set_resource_stat_eq stat v state :
  resource_slot stat (st_resources state) <> None ->
  set_resource_stat stat v state = (with_resource stat v state, Ok tt).
Proof.
  unfold with_resource, set_resource_stat. destruct (resource_slot _ _); [| done].
  intros _. by destruct (_ =? _).
Qed.

Lemma with_resource_slot stat v state stat' :
  resource_slot stat (st_resources state) <> None ->
  resource_slot stat' (st_resources (with_resource stat v state)) =
    if decide (stat = stat') then Some v else resource_slot stat' (st_resources state).
Proof.
  unfold with_resource, set_resource_stat. intros Hs.
  destruct (resource_slot stat (st_resources state)) as [slot |] eqn:E; [| done].
  destruct (Z.eqb_spec slot v) as [-> | N]; cbn [fst].
  - case_decide; [by subst | done].
  - change (st_resources (record_explicit_change stat
      (put_resources (put_resource_slot stat v (st_resources state)) state)))
      with (put_resource_slot stat v (st_resources state)).
    apply resource_slot_put. congruence.
Qed.

(** Everything but the resources, the change set and the dirty flag is kept. *)
Definition same_but_resources state state' : Prop :=
  exists r x d, state' = put_dirty d (put_explicit_changes x (put_resources r state)).

Lemma with_resource_same stat v state : same_but_resources state (with_resource stat v state).
Proof.
  unfold with_resource, set_resource_stat, same_but_resources. destruct state.
  destruct (resource_slot _ _) as [slot |]; [destruct (slot =? v) |]; cbn [fst];
    do 3 eexists; reflexivity.
Qed.

(** The outcome of [apply_resource] on each branch. *)
Lemma apply_resource_eq a state v cap :
  resource_slot (ra_stat a) (st_resources state) = Some v ->
  (if ra_clamp_to_cap a then current_resource_cap (ra_stat a) state else Ok i32_max) = Ok cap ->
  apply_resource a state =
    if ra_min_value a <=? cap then
      let next := clampc (sat_i32 (v + ra_delta a)) (ra_min_value a) cap in
      Some (with_resource (ra_stat a) next state,
            Ok {| rr_stat := ra_stat a; rr_previous := v; rr_current := next;
                  rr_applied_delta := next -% v;
                  rr_was_clamped := negb (next =? sat_i32 (v + ra_delta a)) |})
    else None.
Proof.
  intros Hv Hc. unfold apply_resource, bind, reads, ret.
  apply current_resource_value_slot in Hv as Hv'. rewrite Hv'.
  destruct (ra_clamp_to_cap a).
  - rewrite Hc. unfold or_panic, clamp. destruct (_ <=? _); [| done].
    unfold expect, call. rewrite set_resource_stat_eq by congruence. done.
  - injection Hc as <-. unfold or_panic, clamp. destruct (_ <=? _); [| done].
    unfold expect, call. rewrite set_resource_stat_eq by congruence. done.
Qed.

(** Restoring and spending hit points, spell points and stamina: with
    [0 <= v <= cap] and a non-negative amount, restoring gives
    [min (v + amount) cap] and spending gives [max (v - amount) 0]; the applied
    delta is the exact difference, a clamp is reported exactly when the
    unclamped result was out of bounds, the other resources do not move and
    nothing else of the state changes. *)
Theorem restore_spend_spec stat amount state v cap :
  current_resource_cap stat state = Ok cap -> resource_slot stat (st_resources state) = Some v ->
  0 <= v <= cap -> is_i32 cap -> 0 <= amount <= i32_max ->
  exists s1 r1 s2 r2,
    apply_resource (restore stat amount) state = Some (s1, Ok r1) /\
    apply_resource (spend stat amount) state = Some (s2, Ok r2) /\
    rr_current r1 = Z.min (v + amount) cap /\ rr_current r2 = Z.max (v - amount) 0 /\
    (forall r, r = r1 \/ r = r2 -> rr_previous r = v /\ rr_applied_delta r = rr_current r - v) /\
    (rr_was_clamped r1 = true <-> cap < Z.min (v + amount) i32_max) /\
    (rr_was_clamped r2 = true <-> v < amount) /\
    (forall s r, (s = s1 /\ r = r1) \/ (s = s2 /\ r = r2) ->
       same_but_resources state s /\
       forall stat', resource_slot stat' (st_resources s) =
         if decide (stat = stat') then Some (rr_current r) else resource_slot stat' (st_resources state)).
Proof.
  intros Hc Hs Hv Hcap Ha.
  assert (is_i32 (- amount)) as Hneg by (unfold_widths; lia).
  rewrite (apply_resource_eq (restore stat amount) state v cap Hs Hc).
  rewrite (apply_resource_eq (spend stat amount) state v cap Hs Hc).
  cbn [restore spend ResourceApplication_new ra_stat ra_delta ra_min_value].
  rewrite (wrap32_id _ Hneg). destruct (Z.leb_spec 0 cap); [| lia]. cbv zeta.
  assert (sat_i32 (v + - amount) = v - amount) as ->.
  { unfold sat_i32. rewrite clampc_id; unfold_widths; lia. }
  assert (sat_i32 (v + amount) = Z.min (v + amount) i32_max) as ->
    by (unfold sat_i32, clampc; unfold_widths; lia).
  assert (clampc (Z.min (v + amount) i32_max) 0 cap = Z.min (v + amount) cap) as ->
    by (unfold clampc; unfold_widths; lia).
  assert (clampc (v - amount) 0 cap = Z.max (v - amount) 0) as -> by (unfold clampc; lia).
  do 4 eexists. do 2 (split; [reflexivity |]). cbn [rr_current rr_previous rr_applied_delta rr_was_clamped].
  do 2 (split; [reflexivity |]). split; [| split; [| split]].
  - intros r [-> | ->]; cbn; (split; [done |]); apply sub32_id; unfold_widths; lia.
  - rewrite negb_true_iff, Z.eqb_neq. unfold_widths. lia.
  - rewrite negb_true_iff, Z.eqb_neq. lia.
  - intros s r [[-> ->] | [-> ->]]; cbn; (split; [apply with_resource_same |]);
      intros stat'; apply with_resource_slot; congruence.
Qed.

Lemma same_but_resources_refl state : same_but_resources state state.
Proof. unfold same_but_resources. destruct state. do 3 eexists. reflexivity. Qed.

Lemma same_but_resources_trans s1 s2 s3 :
  same_but_resources s1 s2 -> same_but_resources s2 s3 -> same_but_resources s1 s3.
Proof. intros (? & ? & ? & ->) (? & ? & ? & ->). do 3 eexists. reflexivity. Qed.

Lemma same_but_resources_cap stat state state' :
  same_but_resources state state' -> current_resource_cap stat state' = current_resource_cap stat state.
Proof. intros (? & ? & ? & ->). by destruct stat. Qed.

Lemma nonlethal_damage_eq amount floor state :
  let v := hp (st_resources state) in
  let cap := evs_get (st_computed state) Stat.MaxHp in
  v <= cap -> is_i32 v -> 0 <= amount <= i32_max -> is_i32 floor ->
  (cap < floor -> apply_resource (nonlethal_damage amount floor) state = None) /\
  (floor <= cap -> exists r,
     apply_resource (nonlethal_damage amount floor) state =
       Some (with_resource Stat.Hp (Z.max (v - amount) floor) state, Ok r)).
Proof.
  cbv zeta. intros Hv Hvi Ha Hf.
  rewrite (apply_resource_eq (nonlethal_damage amount floor) state (hp (st_resources state))
    (evs_get (st_computed state) Stat.MaxHp) eq_refl eq_refl).
  cbn [nonlethal_damage damage with_min_value spend ResourceApplication_new ra_stat ra_delta ra_min_value].
  rewrite wrap32_id by (unfold_widths; lia).
  assert (floor <= evs_get (st_computed state) Stat.MaxHp ->
    clampc (sat_i32 (hp (st_resources state) + - amount)) floor (evs_get (st_computed state) Stat.MaxHp)
    = Z.max (hp (st_resources state) - amount) floor) as E.
  { unfold sat_i32, clampc. unfold_widths. lia. }
  destruct (Z.leb_spec floor (evs_get (st_computed state) Stat.MaxHp)); [| split; [done | lia]].
  cbv zeta. rewrite E by done. split; [lia | eauto].
Qed.

Lemma with_hp v state : hp (st_resources (with_resource Stat.Hp v state)) = v.
Proof.
  assert (Some (hp (st_resources (with_resource Stat.Hp v state))) = Some v) as E; [| congruence].
  by apply (with_resource_slot Stat.Hp v state Stat.Hp).
Qed.

(** Damage: plain damage takes its full amount, below zero if need be;
    non-lethal damage stops at its floor, and panics exactly when the floor
    exceeds the hit-point cap; poison therefore never kills a living actor, and
    brings one that is already at or below zero back to one hit point. *)
Theorem damage_spec amount floor state :
  let v := hp (st_resources state) in
  let cap := evs_get (st_computed state) Stat.MaxHp in
  v <= cap -> is_i32 v -> is_i32 cap -> 0 <= amount <= i32_max -> is_i32 floor ->
  (exists s r, apply_resource (damage amount) state = Some (s, Ok r) /\
     hp (st_resources s) = Z.max (v - amount) i32_min) /\
  (apply_resource (nonlethal_damage amount floor) state = None <-> cap < floor) /\
  (floor <= cap -> exists s r,
     apply_resource (nonlethal_damage amount floor) state = Some (s, Ok r) /\
     hp (st_resources s) = Z.max (v - amount) floor) /\
  (1 <= cap -> exists s r,
     apply_resource (poison amount) state = Some (s, Ok r) /\
     1 <= hp (st_resources s) <= Z.max v 1).
Proof.
  cbv zeta. intros Hv Hvi Hcap Ha Hf.
  destruct (nonlethal_damage_eq amount floor state Hv Hvi Ha Hf) as [N S].
  destruct (nonlethal_damage_eq amount i32_min state Hv Hvi Ha) as [_ D]; [done |].
  destruct (nonlethal_damage_eq amount 1 state Hv Hvi Ha) as [_ P]; [done |].
  split; [| split; [| split]].
  - destruct D as [r D]; [apply Hcap |]. do 2 eexists. split; [exact D | apply with_hp].
  - split; [| exact N]. intros E. destruct (Z_lt_dec (evs_get (st_computed state) Stat.MaxHp) floor); [done |].
    destruct S as [r S]; [lia |]. congruence.
  - intros F. destruct (S F) as [r E]. do 2 eexists. split; [exact E | apply with_hp].
  - intros F. destruct (P F) as [r E]. do 2 eexists. split; [exact E |]. rewrite with_hp. lia.
Qed.

(** ** Recovery *)

Lemma restore_eq stat amount state v cap :
  current_resource_cap stat state = Ok cap -> resource_slot stat (st_resources state) = Some v ->
  0 <= v <= cap -> is_i32 cap -> 0 <= amount <= i32_max ->
  exists r, apply_resource (restore stat amount) state =
    Some (with_resource stat (Z.min (v + amount) cap) state, Ok r).
Proof.
  intros Hc Hs Hv Hcap Ha. rewrite (apply_resource_eq (restore stat amount) state v cap Hs Hc).
  cbn [restore ResourceApplication_new ra_stat ra_delta ra_min_value].
  destruct (Z.leb_spec 0 cap); [| lia]. cbv zeta.
  assert (clampc (sat_i32 (v + amount)) 0 cap = Z.min (v + amount) cap) as ->
    by (unfold sat_i32, clampc; unfold_widths; lia). eauto.
Qed.

Lemma apply_pending_recovery_eq stat bucket amount state v p cap :
  recovery_bucket_for_resource stat = Ok bucket ->
  current_resource_cap stat state = Ok cap ->
  resource_slot stat (st_resources state) = Some v -> resource_slot bucket (st_resources state) = Some p ->
  0 <= v <= cap -> is_i32 cap -> 0 <= p <= i32_max -> 0 <= amount <= i32_max ->
  exists state' r,
    apply_pending_recovery stat amount state = Some (state', Ok r) /\
    same_but_resources state state' /\
    resource_slot stat (st_resources state') =
      Some (if cap <=? v then v else Z.min (v + Z.min amount p) cap) /\
    resource_slot bucket (st_resources state') =
      Some (if cap <=? v then 0 else p - Z.min amount p).
Proof.
  intros Hb Hc Hs Hp Hv Hcap Hpr Ha.
  assert (stat <> bucket) as Hne by (destruct stat; inversion Hb; done).
  unfold apply_pending_recovery, bind, reads. rewrite Hb.
  apply current_resource_value_slot in Hp as Hp'. apply current_resource_value_slot in Hs as Hs'.
  rewrite Hp', Hs', Hc. destruct (Z.leb_spec cap v) as [Hle | Hlt].
  - unfold call. rewrite set_resource_stat_eq by congruence.
    set (s1 := with_resource bucket 0 state).
    assert (resource_slot stat (st_resources s1) = Some v) as Hs1
      by (unfold s1; rewrite with_resource_slot, decide_False by congruence; done).
    assert (same_but_resources state s1) as S1 by apply with_resource_same.
    destruct (restore_eq stat 0 s1 v cap) as [r Hr]; try done.
    { by rewrite (same_but_resources_cap _ _ _ S1). }
    rewrite Hr. do 2 eexists. split; [done |].
    split; [exact (same_but_resources_trans _ _ _ S1 (with_resource_same _ _ _)) |].
    rewrite !with_resource_slot by congruence. rewrite decide_True, decide_False by done.
    unfold s1. rewrite with_resource_slot, decide_True by congruence. split; [f_equal; lia | done].
  - replace (Z.max amount 0) with amount by lia. set (scheduled := Z.min amount p).
    destruct (restore_eq stat scheduled state v cap) as [r Hr]; try done; [lia |].
    rewrite Hr. set (s1 := with_resource stat (Z.min (v + scheduled) cap) state).
    assert (resource_slot stat (st_resources s1) = Some (Z.min (v + scheduled) cap)) as Hs1
      by (unfold s1; rewrite with_resource_slot, decide_True by congruence; done).
    assert (resource_slot bucket (st_resources s1) = Some p) as Hp1
      by (unfold s1; rewrite with_resource_slot, decide_False by congruence; done).
    assert (same_but_resources state s1) as S1 by apply with_resource_same.
    destruct (Z.ltb_spec 0 scheduled) as [Hpos | Hz].
    + unfold call. rewrite set_resource_stat_eq by congruence.
      assert (sat_i32 (p - scheduled) = p - scheduled) as ->
        by (unfold sat_i32; rewrite clampc_id; unfold_widths; lia).
      do 2 eexists. split; [done |].
      split; [exact (same_but_resources_trans _ _ _ S1 (with_resource_same _ _ _)) |].
      rewrite !with_resource_slot, decide_False, decide_True by congruence. done.
    + do 2 eexists. split; [done |]. split; [done |]. split; [done |]. rewrite Hp1. f_equal. lia.
Qed.

(** A run of recovery ticks of the same amount. *)
Fixpoint recovery_ticks (stat : Stat) (amount : Z) (n : nat) state : option State :=
  match n with
  | O => Some state
  | S n => '(state, _) ← apply_pending_recovery stat amount state; recovery_ticks stat amount n state
  end.

Lemma recovery_ticks_inv stat bucket amount n state v p cap :
  recovery_bucket_for_resource stat = Ok bucket ->
  current_resource_cap stat state = Ok cap ->
  resource_slot stat (st_resources state) = Some v -> resource_slot bucket (st_resources state) = Some p ->
  0 <= v <= cap -> is_i32 cap -> 0 <= p <= i32_max -> 0 < amount <= i32_max ->
  exists state' v' p',
    recovery_ticks stat amount n state = Some state' /\ same_but_resources state state' /\
    resource_slot stat (st_resources state') = Some v' /\
    resource_slot bucket (st_resources state') = Some p' /\
    v <= v' <= cap /\ 0 <= p' <= p /\ v' + p' <= v + p /\
    (p = 0 \/ p <= (Z.of_nat n - 1) * amount -> p' = 0 /\ v' = Z.min (v + p) cap).
Proof.
  revert state v p. induction n as [| n IH]; intros state v p Hb Hc Hs Hp Hv Hcap Hpr Ha.
  - exists state, v, p. split; [done |]. split; [apply same_but_resources_refl |].
    do 2 (split; [done |]). split; [lia |]. split; [lia |]. split; [lia |]. lia.
  - destruct (apply_pending_recovery_eq stat bucket amount state v p cap)
      as (s1 & r & E & S1 & Hs1 & Hp1); try done; [lia |].
    assert (current_resource_cap stat s1 = Ok cap) as Hc1 by (by rewrite (same_but_resources_cap _ _ _ S1)).
    destruct (Z.leb_spec cap v) as [L | L].
    + destruct (IH s1 v 0) as (s2 & v2 & p2 & E2 & S2 & Hv2 & Hp2 & R1 & R2 & R3 & R4); try done.
      exists s2, v2, p2. cbn [recovery_ticks]. rewrite E. cbn [mbind option_bind].
      split; [done |]. split; [by eapply same_but_resources_trans |].
      do 2 (split; [done |]). split; [lia |]. split; [lia |]. split; [lia |].
      intros _. destruct R4 as [-> ->]; lia.
    + destruct (IH s1 (Z.min (v + Z.min amount p) cap) (p - Z.min amount p))
        as (s2 & v2 & p2 & E2 & S2 & Hv2 & Hp2 & R1 & R2 & R3 & R4); try done; [lia | lia |].
      exists s2, v2, p2. cbn [recovery_ticks]. rewrite E. cbn [mbind option_bind].
      split; [done |]. split; [by eapply same_but_resources_trans |].
      do 2 (split; [done |]). split; [lia |]. split; [lia |]. split; [lia |].
      intros H. destruct R4 as [-> ->]; [| lia].
      destruct (Z_le_dec p amount); [left; lia | right]. destruct H as [H | H]; [lia |]. nia.
Qed.

(** Queued recovery is conserved and always arrives: ticks of a positive
    amount never lose hit or spell points to anything but the cap, and after
    [ceil(pending / amount) + 1] ticks the bucket is empty and the resource has
    grown by the whole pending amount, up to its cap. *)
Theorem recovery_completes stat bucket amount n state v p cap :
  recovery_bucket_for_resource stat = Ok bucket ->
  current_resource_cap stat state = Ok cap ->
  resource_slot stat (st_resources state) = Some v -> resource_slot bucket (st_resources state) = Some p ->
  0 <= v <= cap -> is_i32 cap -> 0 <= p <= i32_max -> 0 < amount <= i32_max ->
  exists state' v' p',
    recovery_ticks stat amount n state = Some state' /\ same_but_resources state state' /\
    resource_slot stat (st_resources state') = Some v' /\
    resource_slot bucket (st_resources state') = Some p' /\
    v <= v' <= cap /\ 0 <= p' /\ v' + p' <= v + p /\
    (p <= (Z.of_nat n - 1) * amount -> p' = 0 /\ v' = Z.min (v + p) cap).
Proof.
  intros Hb Hc Hs Hp Hv Hcap Hpr Ha.
  destruct (recovery_ticks_inv stat bucket amount n state v p cap)
    as (s & v' & p' & E & S & Hv' & Hp' & R1 & R2 & R3 & R4); try done.
  exists s, v', p'. split_and!; auto with lia.
Qed.

(** Automatic recovery never overfills: with resource and bucket within
    range, [queue_auto_recovery] queues exactly [min available (cap - v - p)],
    or nothing when that is not positive, so that what is pending never exceeds
    what is missing; asked for a resource without a bucket it fails and writes
    nothing. *)
Theorem queue_auto_recovery_spec stat available state :
  match recovery_bucket_for_resource stat with
  | Err e => queue_auto_recovery stat available state = Some (state, Err e)
  | Ok bucket => forall v p cap,
      current_resource_cap stat state = Ok cap ->
      resource_slot stat (st_resources state) = Some v ->
      resource_slot bucket (st_resources state) = Some p ->
      0 <= v -> 0 <= p -> v + p <= i32_max -> 0 <= cap <= i32_max -> is_i32 available ->
      let queued := Z.min (Z.max available 0) (cap - (v + p)) in
      if queued <=? 0 then queue_auto_recovery stat available state = Some (state, Ok None)
      else queue_auto_recovery stat available state =
             Some (with_resource bucket (p + queued) state,
                   Ok (Some {| qr_stat := stat; qr_previous_pending := p;
                               qr_current_pending := p + queued; qr_queued_amount := queued |})) /\
           v + (p + queued) <= cap
  end.
Proof.
  unfold queue_auto_recovery, bind, reads.
  destruct (recovery_bucket_for_resource stat) as [bucket | e] eqn:Hb; [| done].
  intros v p cap Hc Hs Hp Hv Hpp Hvp Hcap Ha. cbv zeta.
  apply current_resource_value_slot in Hp as Hp'. apply current_resource_value_slot in Hs as Hs'.
  rewrite Hp', Hc, Hs'.
  assert (sat_i32 (v + p) = v + p) as -> by (unfold sat_i32; rewrite clampc_id; unfold_widths; lia).
  assert (sat_i32 (cap - (v + p)) = cap - (v + p)) as ->
    by (unfold sat_i32; rewrite clampc_id; unfold_widths; lia).
  destruct (Z.leb_spec (Z.min (Z.max available 0) (cap - (v + p))) 0); [done |].
  unfold call, ret. rewrite set_resource_stat_eq by congruence.
  assert (forall z, 0 < z <= cap - (v + p) -> sat_i32 (p + z) = p + z) as Hz
    by (intros z Hz; unfold sat_i32; rewrite clampc_id; unfold_widths; lia).
  rewrite Hz by lia. split; [done | lia].
Qed.

(** ** Stored writes *)

(** A stored write is all or nothing.  It succeeds exactly for a persistent
    stat that is not managed by the typed progression API and a value within
    the stat's write limit; then the base value is the new one, no other base
    value moves, and the change is recorded exactly when the value differs.  On
    an error the state is returned untouched, the limit check coming before the
    progression check and that before the role check.  The call panics exactly
    when the configured limit is negative. *)
Theorem set_stored_stat_spec source stat v state :
  let limit := stored_write_limit source stat in
  let in_limit := match limit with Some m => 0 <= v <= m | None => True end in
  match set_stored_stat source stat v state with
  | None => exists m, limit = Some m /\ m < 0
  | Some (state', Ok _) =>
      in_limit /\ is_progression_stat stat = false /\ role stat = Persistent /\
      (forall s, evs_get (st_base state') s = if decide (stat = s) then v else evs_get (st_base state) s) /\
      (forall s, bs_contains (st_explicit_changes state') s = true <->
         bs_contains (st_explicit_changes state) s = true \/ (s = stat /\ evs_get (st_base state) stat <> v)) /\
      (exists b x d, state' = put_dirty d (put_explicit_changes x (put_base b state)))
  | Some (state', Err e) =>
      state' = state /\
      match e with
      | OutOfRange s w _ m => s = stat /\ w = v /\ limit = Some m /\ ~ in_limit
      | RequiresTypedProgression s => s = stat /\ in_limit /\ is_progression_stat stat = true
      | NotStored s => s = stat /\ in_limit /\ role stat <> Persistent
      | NotResource _ => False
      end
  end.
Proof.
  cbv zeta. unfold set_stored_stat, bind, or_panic, reads, call, validate_stored_write_limit, clamp_optional.
  assert (forall (P : Prop), P -> match state_set_stored_stat stat v state with
    | (state', Ok _) => P /\ is_progression_stat stat = false /\ role stat = Persistent /\
      (forall s, evs_get (st_base state') s = if decide (stat = s) then v else evs_get (st_base state) s) /\
      (forall s, bs_contains (st_explicit_changes state') s = true <->
         bs_contains (st_explicit_changes state) s = true \/ (s = stat /\ evs_get (st_base state) stat <> v)) /\
      (exists b x d, state' = put_dirty d (put_explicit_changes x (put_base b state)))
    | (state', Err e) => state' = state /\
      match e with
      | OutOfRange s w _ m => s = stat /\ w = v /\ stored_write_limit source stat = Some m /\ ~ P
      | RequiresTypedProgression s => s = stat /\ P /\ is_progression_stat stat = true
      | NotStored s => s = stat /\ P /\ role stat <> Persistent
      | NotResource _ => False
      end end) as Hw.
  { intros P HP. unfold state_set_stored_stat. destruct (is_progression_stat stat) eqn:Pr; [done |].
    case_bool_decide as R; cbn [negb]; [| done].
    destruct (Z.eqb_spec (evs_get (st_base state) stat) v) as [E | N].
    - do 3 (split; [done |]). split; [| split].
      + intros s. case_decide; [by subst | done].
      + intros s. tauto.
      + destruct state. do 3 eexists. reflexivity.
    - do 3 (split; [done |]). split; [| split].
      + intros s. apply evs_get_set.
      + intros s. cbn [record_explicit_change put_dirty put_explicit_changes put_base st_explicit_changes].
        rewrite bs_contains_insert. tauto.
      + do 3 eexists. reflexivity. }
  destruct (stored_write_limit source stat) as [m |] eqn:L; [| specialize (Hw True I); by destruct (state_set_stored_stat stat v state) as [s' [u | e]]].
  unfold clamp, default, id. destruct (Z.leb_spec 0 m) as [Hm | Hm]; [| by exists m].
  cbn [mbind option_bind]. destruct (Z.eqb_spec (clampc v 0 m) v) as [E | N].
  - assert (0 <= v <= m) as B by (unfold clampc in E; lia). specialize (Hw _ B).
    by destruct (state_set_stored_stat stat v state) as [s' [u | e]].
  - split_and!; try done. unfold clampc in N. lia.
Qed.
End Resources.

(** ** Concrete instances *)

(** A wounded actor: 40 of 100 hit points, 30 pending, no growth. *)
Definition sample_actor : ActorStatState unit unit :=
  put_computed (evs_set (evs_set evs_new Stat.MaxHp 100) Stat.MaxSp 50)
    (put_resources {| hp := 40; sp := 10; stamina := 0; hp_recovery := 30; sp_recovery := 0 |}
       (ActorStatState_new ActorKind_Player)).

Lemma restore_spend_spec_witness :
  exists s1 r1 s2 r2,
    apply_resource (restore Stat.Hp 75) sample_actor = Some (s1, Ok r1) /\
    apply_resource (spend Stat.Hp 75) sample_actor = Some (s2, Ok r2) /\
    rr_current r1 = 100 /\ rr_current r2 = 0.
Proof.
  destruct (restore_spend_spec Stat.Hp 75 sample_actor 40 100 eq_refl eq_refl
      ltac:(by vm_compute) ltac:(by vm_compute) ltac:(by vm_compute))
    as (s1 & r1 & s2 & r2 & H1 & H2 & H3 & H4 & _).
  exists s1, r1, s2, r2. split; [exact H1 | split; [exact H2 | split; [exact H3 | exact H4]]].
Defined.

Lemma damage_spec_witness :
  (exists s r, apply_resource (damage 75) sample_actor = Some (s, Ok r) /\ hp (st_resources s) = -35) /\
  (exists s r, apply_resource (poison 75) sample_actor = Some (s, Ok r) /\ 1 <= hp (st_resources s) <= 40).
Proof.
  destruct (damage_spec 75 1 sample_actor ltac:(by vm_compute) ltac:(by vm_compute) ltac:(by vm_compute)
    ltac:(by vm_compute) ltac:(by vm_compute)) as (H1 & _ & _ & H4).
  split; [exact H1 | apply H4; by vm_compute].
Defined.

Lemma recovery_completes_witness :
  exists state', recovery_ticks Stat.Hp 7 6 sample_actor = Some state' /\
    resource_slot Stat.Hp (st_resources state') = Some 70 /\
    resource_slot Stat.HpRecovery (st_resources state') = Some 0.
Proof.
  destruct (recovery_completes Stat.Hp Stat.HpRecovery 7 6 sample_actor 40 30 100 eq_refl eq_refl eq_refl eq_refl
      ltac:(by vm_compute) ltac:(by vm_compute) ltac:(by vm_compute) ltac:(by vm_compute))
    as (s & v' & p' & H1 & _ & H3 & H4 & _ & _ & _ & H5).
  exists s. split; [exact H1 |]. destruct H5 as [E1 E2]; [lia |].
  rewrite H3, H4, E1, E2. split; reflexivity.
Defined.

Lemma queue_auto_recovery_spec_witness :
  queue_auto_recovery Stat.Hp 500 sample_actor =
    Some (with_resource Stat.HpRecovery 60 sample_actor,
          Ok (Some {| qr_stat := Stat.Hp; qr_previous_pending := 30;
                      qr_current_pending := 60; qr_queued_amount := 30 |})).
Proof.
  exact (proj1 (queue_auto_recovery_spec Stat.Hp 500 sample_actor 40 30 100 eq_refl eq_refl eq_refl
    ltac:(by vm_compute) ltac:(by vm_compute) ltac:(by vm_compute) ltac:(by vm_compute) ltac:(by vm_compute))).
Defined.
