(* ===== verification/StatsSync.v ===== *)
(** Synchronisation: a client that applies every drained delta converges to the
    server's view of the actor.  The deltas an [ActorStatsRuntime] hands out are
    computed from change tracking spread over the setters, the recomputation and
    the pending buffer; the theorem is that together they miss nothing. *)
From S2P Require Import Prelude BTree Domain StatStore StatSource Samples Progression ActorState StatsApi StatsRecompute StatsOps.

(** ** The client *)
Record ClientView : Type := { cl_stats : PointValueStore; cl_public : option ActorPublicState }.

Definition client_new : ClientView := {| cl_stats := evs_new; cl_public := None |}.

Definition client_apply (c : ClientView) (d : DrainedPlayerStatsSync) : ClientView :=
  {| cl_stats := fold_left (fun stats delta => evs_set stats (delta_stat delta) (delta_value delta))
                   (drained_deltas d) (cl_stats c);
     cl_public := match drained_public d with Some p => Some p | None => cl_public c end |}.

(** What the client will show once the pending buffer has reached it. *)
Definition merged_stat (c : ClientView) (p : PendingPlayerStatsSync) (s : Stat) : Z :=
  if cs_contains (pend_changed p) s then evs_get (pend_stats p) s else evs_get (cl_stats c) s.
Definition merged_public (c : ClientView) (p : PendingPlayerStatsSync) : option ActorPublicState :=
  match pend_public p with Some q => Some q | None => cl_public c end.

Lemma fold_set_deltas (f : Stat -> Z) (l : list Stat) (b : PointValueStore) s :
  evs_get (fold_left (fun stats delta => evs_set stats (delta_stat delta) (delta_value delta))
    (map (fun stat => {| delta_stat := stat; delta_value := f stat |}) l) b) s =
  if decide (s ∈ l) then f s else evs_get b s.
Proof.
  revert b. induction l as [| x l IH]; intros b; cbn [fold_left map].
  - by rewrite decide_False by apply not_elem_of_nil.
  - rewrite IH. destruct (decide (s ∈ l)) as [E | N].
    + by rewrite decide_True by (by right).
    + cbn [delta_stat delta_value]. rewrite evs_get_set. destruct (decide (x = s)) as [<- | Nx].
      * rewrite decide_True by left. done.
      * rewrite decide_False; [done |]. rewrite elem_of_cons. intros [-> | ?]; done.
Qed.

(** Draining delivers exactly the merged view. *)
Lemma pending_drain_client c p s :
  evs_get (cl_stats (client_apply c (pending_drain p).2)) s = merged_stat c p s.
Proof.
  unfold client_apply, pending_drain, merged_stat. cbn [snd drained_deltas cl_stats].
  rewrite fold_set_deltas. destruct (cs_contains (pend_changed p) s) eqn:E.
  - rewrite decide_True; [done |]. by apply cs_contains_iter.
  - rewrite decide_False; [done |]. intros H. apply cs_contains_iter in H. congruence.
Qed.

Lemma pending_drain_merged c p s :
  merged_stat (client_apply c (pending_drain p).2) (pending_drain p).1 s = merged_stat c p s.
Proof. unfold merged_stat at 1. cbn [pending_drain fst pend_changed pending_default].
  rewrite cs_contains_default. apply pending_drain_client. Qed.

Lemma pending_drain_public c p :
  merged_public (client_apply c (pending_drain p).2) (pending_drain p).1 = merged_public c p.
Proof. reflexivity. Qed.

(** Merging a synchronisation overrides the changed stats. *)
Lemma pending_merge_fold (f : Stat -> Z) (l : list Stat) c p s :
  let p' := fold_left (fun p delta =>
    {| pend_stats := evs_set (pend_stats p) (delta_stat delta) (delta_value delta);
       pend_changed := cs_insert (pend_changed p) (delta_stat delta);
       pend_public := pend_public p |})
    (map (fun stat => {| delta_stat := stat; delta_value := f stat |}) l) p in
  merged_stat c p' s = (if decide (s ∈ l) then f s else merged_stat c p s) /\
  pend_public p' = pend_public p.
Proof.
  revert p. induction l as [| x l IH]; intros p; cbn [fold_left map].
  - by rewrite decide_False by apply not_elem_of_nil.
  - edestruct IH as [E1 E2]. split; [rewrite E1 | by rewrite E2].
    destruct (decide (s ∈ l)) as [E | N]; [by rewrite decide_True by (by right) |].
    unfold merged_stat. cbn [pend_changed pend_stats delta_stat delta_value]. rewrite evs_get_set.
    destruct (decide (x = s)) as [<- | Nx].
    + rewrite decide_True by left.
      assert (cs_contains (cs_insert (pend_changed p) x) x = true) as -> by (apply cs_contains_insert; auto).
      done.
    + rewrite decide_False by (rewrite elem_of_cons; intros [-> | ?]; done).
      destruct (cs_contains (pend_changed p) s) eqn:C.
      * assert (cs_contains (cs_insert (pend_changed p) x) s = true) as ->
          by (apply cs_contains_insert; auto). done.
      * destruct (cs_contains (cs_insert (pend_changed p) x) s) eqn:C'; [| done].
        apply cs_contains_insert in C' as [-> | ?]; congruence.
Qed.

Section Sync.
Context `{GR : GrowthRng}.
Local Abbreviation State := (ActorStatState unit unit).
Implicit Types state : State.
Variable source : ActorStatSource.

(** ** What the setters keep *)

Definition explicit state (s : Stat) : Prop := bs_contains (st_explicit_changes state) s = true.

(** A recorded change makes the state dirty, and the base store mirrors the
    typed progression. *)
Record tracked_ok state : Prop := {
  tk_dirty : forall s, explicit state s -> st_dirty state = true;
  tk_exp : evs_get (st_base state) Stat.Exp = clamp_u32_to_i32 (exp_in_level (st_progression state));
  tk_next_exp : evs_get (st_base state) Stat.NextExp =
                clamp_u32_to_i32 (next_exp_in_level (st_progression state)) }.

(** From [s] to [s'] only recorded stats change in the client's view, and
    nothing that only a recomputation may change. *)
Record tracked (s s' : State) : Prop := {
  tr_kind : st_kind s' = st_kind s;
  tr_computed : st_computed s' = st_computed s;
  tr_immune : immune_flags (st_runtime s') = immune_flags (st_runtime s);
  tr_explicit : forall stat, explicit s stat -> explicit s' stat;
  tr_view : forall stat, ~ explicit s' stat ->
    read_wire_compatible_value s' stat = read_wire_compatible_value s stat;
  tr_dirty : st_dirty s' = false -> st_dirty s = false;
  tr_runtime_dirty : st_runtime_dirty s' = false -> st_runtime_dirty s = false;
  tr_fresh : st_dirty s' = false ->
    derived_of source s' = derived_of source s /\ st_resources s' = st_resources s /\
    st_runtime s' = st_runtime s }.

#[local] Instance tracked_preorder : PreOrder tracked.
Proof.
  split.
  - intros s. by split.
  - intros a b c [] []. split; try congruence; eauto.
    + intros stat H. rewrite tr_view1 by done. apply tr_view0. eauto.
    + intros H. destruct (tr_fresh1 H) as (-> & -> & ->). auto.
Qed.

Lemma explicit_record stat state x :
  explicit (record_explicit_change stat state) x <-> x = stat \/ explicit state x.
Proof. apply bs_contains_insert. Qed.

Lemma set_base_projection_base stat v state x :
  evs_get (st_base (set_base_projection_stat stat v state)) x =
    if decide (stat = x) then v else evs_get (st_base state) x.
Proof.
  unfold set_base_projection_stat. destruct (Z.eqb_spec (evs_get (st_base state) stat) v) as [<- | N].
  - by case_decide; subst.
  - apply evs_get_set.
Qed.

Lemma set_base_projection_explicit stat v state x :
  explicit (set_base_projection_stat stat v state) x <->
  explicit state x \/ (x = stat /\ evs_get (st_base state) stat <> v).
Proof.
  unfold set_base_projection_stat. destruct (Z.eqb_spec (evs_get (st_base state) stat) v) as [E | N].
  - tauto.
  - rewrite explicit_record. cbn. tauto.
Qed.

(** A projection write is a no-op or marks the state dirty. *)
Lemma set_base_projection_cases stat v state :
  set_base_projection_stat stat v state = state \/
  set_base_projection_stat stat v state =
    record_explicit_change stat (put_base (evs_set (st_base state) stat v) state).
Proof. unfold set_base_projection_stat. case_bools; auto. Qed.

Lemma set_base_projection_frame stat v state :
  let s' := set_base_projection_stat stat v state in
  st_kind s' = st_kind state /\ st_computed s' = st_computed state /\
  st_runtime s' = st_runtime state /\ st_resources s' = st_resources state /\
  st_progression s' = st_progression state /\ st_runtime_dirty s' = st_runtime_dirty state /\
  (st_dirty s' = false -> s' = state) /\ (st_dirty state = true -> st_dirty s' = true).
Proof. cbv zeta. destruct (set_base_projection_cases stat v state) as [-> | ->]; done. Qed.

(** The same facts for the four projections of a progression. *)
Lemma set_player_progression_facts p state :
  let s' := set_player_progression p state in
  let q := normalized p in
  let target x := match x with
    | Stat.Level => prog_level q
    | Stat.Exp => clamp_u32_to_i32 (exp_in_level q)
    | Stat.NextExp => clamp_u32_to_i32 (next_exp_in_level q)
    | Stat.LevelStep => level_step q
    | _ => evs_get (st_base state) x
    end in
  st_kind s' = st_kind state /\ st_computed s' = st_computed state /\
  st_runtime s' = st_runtime state /\ st_resources s' = st_resources state /\
  st_progression s' = q /\ st_runtime_dirty s' = st_runtime_dirty state /\
  (st_dirty s' = false -> s' = put_progression q state) /\
  (st_dirty state = true -> st_dirty s' = true) /\
  (forall x, evs_get (st_base s') x = target x) /\
  (forall x, explicit s' x <-> explicit state x \/ evs_get (st_base state) x <> target x).
Proof.
  cbv zeta. unfold set_player_progression. set (q := normalized p).
  set (s0 := put_progression q state).
  pose proof (set_base_projection_frame Stat.Level (prog_level q) s0) as F1.
  set (s1 := set_base_projection_stat Stat.Level (prog_level q) s0) in *.
  pose proof (set_base_projection_frame Stat.Exp (clamp_u32_to_i32 (exp_in_level q)) s1) as F2.
  set (s2 := set_base_projection_stat Stat.Exp (clamp_u32_to_i32 (exp_in_level q)) s1) in *.
  pose proof (set_base_projection_frame Stat.NextExp (clamp_u32_to_i32 (next_exp_in_level q)) s2) as F3.
  set (s3 := set_base_projection_stat Stat.NextExp (clamp_u32_to_i32 (next_exp_in_level q)) s2) in *.
  pose proof (set_base_projection_frame Stat.LevelStep (level_step q) s3) as F4.
  set (s4 := set_base_projection_stat Stat.LevelStep (level_step q) s3) in *.
  cbv zeta in *.
  destruct F1 as (A1 & A2 & A3 & A4 & A5 & A6 & A7 & A8), F2 as (B1 & B2 & B3 & B4 & B5 & B6 & B7 & B8),
    F3 as (C1 & C2 & C3 & C4 & C5 & C6 & C7 & C8), F4 as (D1 & D2 & D3 & D4 & D5 & D6 & D7 & D8).
  assert (forall x, evs_get (st_base s0) x = evs_get (st_base state) x) as E0 by done.
  assert (st_kind s0 = st_kind state /\ st_computed s0 = st_computed state /\
    st_runtime s0 = st_runtime state /\ st_resources s0 = st_resources state /\
    st_progression s0 = q /\ st_runtime_dirty s0 = st_runtime_dirty state /\
    st_dirty s0 = st_dirty state) as (Z1 & Z2 & Z3 & Z4 & Z5 & Z6 & Z7) by done.
  repeat match goal with |- _ /\ _ => split end; try congruence.
  - intros H4. pose proof (D7 H4) as K4. rewrite K4 in H4. pose proof (C7 H4) as K3. rewrite K3 in H4.
    pose proof (B7 H4) as K2. rewrite K2 in H4. pose proof (A7 H4) as K1. congruence.
  - rewrite <- Z7. auto.
  - intros x. unfold s4, s3, s2, s1. rewrite !set_base_projection_base, E0. by destruct x.
  - intros x. unfold s4, s3, s2, s1. rewrite !set_base_projection_explicit, !set_base_projection_base, !E0.
    change (explicit s0 x) with (explicit state x).
    destruct (decide (Stat.Level = x)) as [<- | N1]; [by split; intuition congruence |].
    destruct (decide (Stat.Exp = x)) as [<- | N2]; [by split; intuition congruence |].
    destruct (decide (Stat.NextExp = x)) as [<- | N3]; [by split; intuition congruence |].
    destruct (decide (Stat.LevelStep = x)) as [<- | N4]; [by split; intuition congruence |].
    split; [intuition congruence |]. intros [? | Hne]; [tauto |]. by destruct x.
Qed.

Lemma wire_base_eq state state' stat :
  (stat = Stat.Level \/ stat = Stat.Gold -> evs_get (st_base state') stat = evs_get (st_base state) stat) ->
  st_computed state' = st_computed state -> st_progression state' = st_progression state ->
  (forall v, resource_slot stat (st_resources state) = Some v ->
     resource_slot stat (st_resources state') = Some v) ->
  read_wire_compatible_value state' stat = read_wire_compatible_value state stat.
Proof.
  intros Hb Hc Hp Hr. destruct stat; cbn; rewrite ?Hc, ?Hp; try done; try (apply Hb; auto; fail);
    specialize (Hr _ eq_refl); cbn in Hr; congruence.
Qed.

Lemma prim_write_tracked state state' :
  prim_write state state' -> tracked_ok state -> tracked state state' /\ tracked_ok state'.
Proof.
  destruct 1 as [stat v s Hv Hp | p s Hp | id s Hid | stat v s Hv Hs | flags s | src ms s Hms];
    intros [T1 T2 T3].
  - split; [split | split]; try done.
    + intros x. rewrite explicit_record. auto.
    + intros x Hx. rewrite explicit_record in Hx. apply wire_base_eq; try done.
      intros _. apply evs_get_set_ne. intros ->. auto.
    + cbn [record_explicit_change put_dirty put_explicit_changes put_base st_base st_progression].
      rewrite evs_get_set_ne; [exact T2 | by intros ->].
    + cbn [record_explicit_change put_dirty put_explicit_changes put_base st_base st_progression].
      rewrite evs_get_set_ne; [exact T3 | by intros ->].
  - destruct (set_player_progression_facts p s) as (F1 & F2 & F3 & F4 & F5 & F6 & F7 & F8 & F9 & F10).
    split; [split | split]; try congruence.
    + intros x. rewrite F10. auto.
    + intros x Hx. rewrite F10 in Hx.
      destruct (Z.eq_dec (evs_get (st_base s) x) (evs_get (st_base (set_player_progression p s)) x)) as [E | N];
        [| rewrite F9 in N; tauto].
      destruct x; cbn [read_wire_compatible_value read_effective_value]; rewrite ?F2, ?F4; try done.
      * rewrite F9 in E. rewrite F5, <- T2. symmetry. exact E.
      * rewrite F9 in E. rewrite F5, <- T3. symmetry. exact E.
    + destruct (st_dirty s) eqn:E; [| done]. rewrite F8; done.
    + intros D. rewrite (F7 D). split; [destruct source; reflexivity | done].
    + intros x. rewrite F10. intros [Hx | Hx]; [eauto |].
      destruct (st_dirty (set_player_progression p s)) eqn:E; [done |].
      rewrite <- F9 in Hx. exfalso. apply Hx. by rewrite (F7 eq_refl).
    + by rewrite F9, F5.
    + by rewrite F9, F5.
  - by split; split.
  - split; [split | split]; try done.
    + intros x. rewrite explicit_record. auto.
    + intros x Hx. rewrite explicit_record in Hx. apply wire_base_eq; try done.
      intros w Hw. cbn. rewrite resource_slot_put by done. rewrite decide_False; [done |].
      intros ->. auto.
  - by split; split.
  - by split; split.
Qed.

Lemma prim_writes_tracked state state' :
  rtc prim_write state state' -> tracked_ok state -> tracked state state' /\ tracked_ok state'.
Proof.
  induction 1 as [s | s1 s2 s3 H12 H23 IH]; intros T; [done |].
  apply prim_write_tracked in H12 as [R1 T2]; [| done]. destruct (IH T2) as [R2 T3].
  split; [| done]. by etrans.
Qed.

(** ** What a recomputation reports to the client *)

Lemma recompute_report_view state state' rep s :
  recompute_report source state = Some (state', rep) ->
  cs_contains (rep_changes rep) s = false ->
  read_wire_compatible_value state' s = read_wire_compatible_value state s.
Proof.
  intros (r & Hr & -> & ->)%recompute_report_inv Hs.
  apply not_true_iff_false in Hs. rewrite report_of_contains in Hs.
  apply Decidable.not_or in Hs as [Hc Hs]. apply Decidable.not_or in Hs as [_ Hs].
  assert (evs_get (derived_of source state) s = evs_get (st_computed state) s) as Hd.
  { apply Z.eq_dne. intros N. apply Hc. by apply not_eq_sym. }
  apply clamp_to_caps_Some in Hr as (_ & _ & _ & Hr).
  assert (hp_recovery r = hp_recovery (st_resources state) /\
          sp_recovery r = sp_recovery (st_resources state)) as [R1 R2] by (by rewrite Hr).
  clear Hr. destruct s; try exact Hd; try reflexivity; try exact R1; try exact R2;
    cbn [read_wire_compatible_value read_effective_value recomputed st_resources];
    match goal with |- ?a = ?b => destruct (Z.eq_dec b a) as [<- | N]; [done | exfalso; apply Hs; auto] end.
Qed.

(** The public state reads four values, of which only the level can change
    outside a recomputation. *)
Lemma public_state_ext state state' :
  read_wire_compatible_value state' Stat.Level = read_wire_compatible_value state Stat.Level ->
  read_wire_compatible_value state' Stat.MovSpeed = read_wire_compatible_value state Stat.MovSpeed ->
  read_wire_compatible_value state' Stat.AttSpeed = read_wire_compatible_value state Stat.AttSpeed ->
  immune_flags (st_runtime state') = immune_flags (st_runtime state) ->
  public_state source state' = public_state source state.
Proof.
  cbn [read_wire_compatible_value]. intros HL HM HA HI.
  unfold public_state, public_stats, api_read_packet, api_read_limited, read_stat_value.
  cbn [read_wire_compatible_value]. by rewrite HL, HM, HA, HI.
Qed.

Lemma tracked_up_to_date state state' :
  tracked state state' -> tracked_ok state' -> st_dirty state' = false -> st_runtime_dirty state' = false ->
  up_to_date source state -> up_to_date source state'.
Proof.
  intros T K D RD U. destruct (tr_fresh _ _ T D) as (E1 & E2 & E3).
  split; rewrite ?E1, ?E2, ?E3, ?(tr_computed _ _ T); try apply U; try done.
  apply bs_empty_iff. intros k. apply not_true_is_false. intros Hk. apply (tk_dirty _ K) in Hk. congruence.
Qed.

(** ** Sessions *)
Inductive SessionStep : Type :=
| Session_Op (op : StatOp unit unit)
| Session_Normalize
| Session_Drain.

Definition run_session_step (step : SessionStep) (cr : ClientView * ActorStatsRuntime) :
    option (ClientView * ActorStatsRuntime) :=
  let '(c, r) := cr in
  match step with
  | Session_Op op =>
      '(r, _) ← with_api_mut (fun src st => st ← run_op src op st; Some (st, tt)) r;
      Some (c, r)
  | Session_Normalize => '(r, _) ← normalize r; Some (c, r)
  | Session_Drain => '(r, d) ← drain_sync r; Some (client_apply c d, r)
  end.

Fixpoint run_session (steps : list SessionStep) cr : option (ClientView * ActorStatsRuntime) :=
  match steps with
  | [] => Some cr
  | step :: steps' => cr ← run_session_step step cr; run_session steps' cr
  end.

Definition session_start : ClientView * ActorStatsRuntime :=
  (client_new, ActorStatsRuntime_new source (ActorStatState_new (actor_kind source))).

Definition session_step_ok (step : SessionStep) : Prop :=
  match step with Session_Op op => op_ok op | _ => True end.

Record session_inv (c : ClientView) (r : ActorStatsRuntime) : Prop := {
  si_source : ar_source r = source;
  si_wf : state_wf (ar_state r);
  si_tracked : tracked_ok (ar_state r);
  si_view : forall s, ~ explicit (ar_state r) s ->
    merged_stat c (ar_pending r) s = read_wire_compatible_value (ar_state r) s;
  si_public : st_runtime_dirty (ar_state r) = false -> ~ explicit (ar_state r) Stat.Level ->
    is_Some (merged_public c (ar_pending r)) /\
    merged_public c (ar_pending r) = public_state source (ar_state r);
  si_fresh : state_is_dirty (ar_state r) = false -> up_to_date source (ar_state r) }.

Lemma session_start_inv : session_inv session_start.1 session_start.2.
Proof.
  split; try done.
  - apply new_state_wf.
  - intros s _. destruct s; reflexivity.
Qed.

Lemma tracked_public state state' :
  tracked state state' -> ~ explicit state' Stat.Level ->
  public_state source state' = public_state source state.
Proof.
  intros T N. apply public_state_ext; [by apply T | | | apply T];
    cbn [read_wire_compatible_value read_effective_value]; by rewrite (tr_computed _ _ T).
Qed.

Lemma session_op_inv c r op st :
  session_inv c r -> op_ok op -> run_op source op (ar_state r) = Some st ->
  session_inv c {| ar_source := source; ar_state := st; ar_pending := ar_pending r |}.
Proof.
  intros [Hs Hw Ht Hv Hp Hf] Ho Hr.
  pose proof (run_op_prim _ _ _ _ Hw Ho Hr) as Hprim.
  destruct (prim_writes_tracked _ _ Hprim Ht) as [T K].
  split; cbn [ar_source ar_state ar_pending]; try done.
  - by apply (prim_writes_wf _ _ Hprim).
  - intros s Ns. rewrite (tr_view _ _ T s Ns). apply Hv. intros E. by apply Ns, (tr_explicit _ _ T).
  - intros RD NL. rewrite (tracked_public _ _ T NL). apply Hp; [by apply (tr_runtime_dirty _ _ T) |].
    intros E. by apply NL, (tr_explicit _ _ T).
  - intros [D RD]%orb_false_elim. apply (tracked_up_to_date (ar_state r)); try done.
    apply Hf. unfold state_is_dirty. by rewrite (tr_dirty _ _ T D), (tr_runtime_dirty _ _ T RD).
Qed.

Lemma build_sync_merge c p changes rd (state : State) sync s :
  build_sync source changes rd state = Some sync ->
  merged_stat c (pending_merge p sync) s =
    (if cs_contains changes s then read_wire_compatible_value state s else merged_stat c p s) /\
  merged_public c (pending_merge p sync) =
    (if rd || public_stats_changed changes then public_state source state else merged_public c p) /\
  (rd || public_stats_changed changes = true -> is_Some (public_state source state)).
Proof.
  unfold build_sync. intros H.
  assert (forall (a b : Z), (if decide (s ∈ cs_iter changes) then a else b) =
                 (if cs_contains changes s then a else b)) as Hd.
  { intros a b. pose proof (cs_contains_iter changes s) as Hi. destruct (cs_contains changes s).
    - by rewrite decide_True by (by apply Hi).
    - rewrite decide_False; [done |]. intros E. by apply Hi in E. }
  destruct (rd || public_stats_changed changes).
  - destruct (public_state source state) as [q |]; [| discriminate]. cbn [mbind option_bind] in H.
    injection H as <-. unfold pending_merge. cbn [sync_deltas sync_public].
    destruct (pending_merge_fold (read_wire_compatible_value state) (cs_iter changes) c p s) as [E1 E2].
    split; [| done]. rewrite <- Hd. exact E1.
  - cbn [mbind option_bind] in H. injection H as <-. unfold pending_merge. cbn [sync_deltas sync_public].
    destruct (pending_merge_fold (read_wire_compatible_value state) (cs_iter changes) c p s) as [E1 E2].
    split; [rewrite <- Hd; exact E1 |]. split; [| done]. unfold merged_public. by rewrite E2.
Qed.

Lemma public_unchanged changes :
  public_stats_changed changes = false ->
  cs_contains changes Stat.Level = false /\ cs_contains changes Stat.MovSpeed = false /\
  cs_contains changes Stat.AttSpeed = false.
Proof. unfold public_stats_changed. intros H. zbool. done. Qed.

Lemma report_runtime_dirty (state state' : State) rep :
  recompute_report source state = Some (state', rep) -> rep_runtime_dirty rep = false ->
  st_runtime_dirty state = false /\ immune_flags (st_runtime state') = immune_flags (st_runtime state).
Proof.
  intros (r & Hr & -> & ->)%recompute_report_inv H. unfold report_of in H. cbn [rep_runtime_dirty] in H.
  apply orb_false_elim in H as [H1 H2]. split; [done |].
  apply negb_false_iff, bool_decide_eq_true in H2. unfold recomputed.
  cbn [st_runtime immune_flags]. by rewrite H2.
Qed.

Lemma session_normalize_inv c r r' sync :
  session_inv c r -> normalize r = Some (r', sync) ->
  session_inv c r' /\ state_is_dirty (ar_state r') = false /\ st_explicit_changes (ar_state r') = bs_empty.
Proof.
  intros [Hs Hw Ht Hv Hp Hf] H. unfold normalize, with_api_mut, sync_if_dirty in H.
  destruct (api_new _ _); [| discriminate]. cbn [mbind option_bind] in H. rewrite Hs in H.
  destruct (state_is_dirty (ar_state r)) eqn:D.
  - unfold api_sync in H.
    destruct (recompute_report source (ar_state r)) as [[st rep] |] eqn:E; [| discriminate].
    cbn [mbind option_bind] in H.
    destruct (build_sync source (rep_changes rep) (rep_runtime_dirty rep) st) as [sy |] eqn:B; [| discriminate].
    cbn [mbind option_bind] in H. injection H as <- <-. cbn [ar_state ar_source ar_pending].
    pose proof (recompute_up_to_date _ _ _ _ E) as U.
    assert (st_explicit_changes st = bs_empty) as Hx by apply U.
    split; [| split; [| done]].
    2: { unfold state_is_dirty. by rewrite (utd_dirty _ _ U), (utd_runtime_dirty _ _ U). }
    split; cbn [ar_state ar_source ar_pending]; try done.
    + by eapply recompute_report_wf.
    + apply recompute_report_inv in E as (q & _ & -> & _). split; try done; apply Ht.
    + intros s _. destruct (build_sync_merge c (ar_pending r) _ _ _ _ s B) as [-> _].
      destruct (cs_contains (rep_changes rep) s) eqn:C; [done |].
      rewrite (recompute_report_view _ _ _ _ E C). apply Hv. intros X.
      apply recompute_report_inv in E as (q & _ & -> & ->). apply not_true_iff_false in C.
      apply C, report_of_contains. auto.
    + intros _ _. destruct (build_sync_merge c (ar_pending r) _ _ _ _ Stat.Level B) as (_ & -> & HS).
      destruct (rep_runtime_dirty rep || public_stats_changed (rep_changes rep)) eqn:P; [auto |].
      apply orb_false_elim in P as [P1 P2]. apply public_unchanged in P2 as (C1 & C2 & C3).
      destruct (report_runtime_dirty _ _ _ E P1) as [RD HI].
      rewrite (public_state_ext (ar_state r) st); eauto using recompute_report_view.
      apply Hp; [done |]. intros X. apply recompute_report_inv in E as (q & _ & -> & ->).
      apply not_true_iff_false in C1. apply C1, report_of_contains. auto.
  - destruct (build_sync source cs_default false (ar_state r)) as [sy |] eqn:B; [| discriminate].
    cbn [mbind option_bind] in H. injection H as <- <-. cbn [ar_state ar_source ar_pending].
    split; [| split; [done | by apply Hf]].
    split; cbn [ar_state ar_source ar_pending]; try done.
    + intros s Ns. destruct (build_sync_merge c (ar_pending r) _ _ _ _ s B) as [-> _].
      rewrite cs_contains_default. auto.
    + intros RD NL. destruct (build_sync_merge c (ar_pending r) _ _ _ _ Stat.Level B) as (_ & -> & _).
      auto.
    + intros _. by apply Hf.
Qed.

Lemma session_step_inv step c r c' r' :
  session_inv c r -> session_step_ok step ->
  run_session_step step (c, r) = Some (c', r') -> session_inv c' r'.
Proof.
  intros I Ho H. destruct step as [op | |]; cbn [run_session_step] in H.
  - unfold with_api_mut in H. destruct (api_new _ _); [| discriminate]. cbn [mbind option_bind] in H.
    rewrite (si_source _ _ I) in H.
    destruct (run_op source op (ar_state r)) as [st |] eqn:E; [| discriminate].
    cbn [mbind option_bind] in H. injection H as <- <-. by apply (session_op_inv _ _ op).
  - destruct (normalize r) as [[r1 sync] |] eqn:E; [| discriminate]. cbn [mbind option_bind] in H.
    injection H as <- <-. by apply (session_normalize_inv _ _ _ _ I E).
  - unfold drain_sync in H. destruct (normalize r) as [[r1 sync] |] eqn:E; [| discriminate].
    cbn [mbind option_bind] in H. injection H as <- <-.
    destruct (session_normalize_inv _ _ _ _ I E) as [[] _].
    split; cbn [ar_source ar_state ar_pending]; try done.
    intros s Ns. rewrite <- (si_view0 s Ns). apply pending_drain_merged.
Qed.

Lemma run_session_inv steps c r c' r' :
  session_inv c r -> Forall session_step_ok steps ->
  run_session steps (c, r) = Some (c', r') -> session_inv c' r'.
Proof.
  revert c r. induction steps as [| step steps IH]; intros c r I Ho H; [by injection H as <- <- |].
  inversion Ho; subst. cbn [run_session] in H.
  destruct (run_session_step step (c, r)) as [[c1 r1] |] eqn:E; [| discriminate].
  cbn [mbind option_bind] in H. eapply IH; [| done | exact H]. by eapply session_step_inv.
Qed.

Lemma run_session_app l1 l2 cr :
  run_session (l1 ++ l2) cr = cr ← run_session l1 cr; run_session l2 cr.
Proof.
  revert cr. induction l1 as [| x l1 IH]; intros cr; [done |]. cbn [run_session app].
  destruct (run_session_step x cr); [apply IH | done].
Qed.

(** [C5] Synchronisation misses nothing.  Start a fresh actor and a client that
    knows nothing, and run any sequence of API operations, normalisations and
    drains whose deltas the client applies.  After one more drain the client
    holds, for every stat, exactly the value the server would send for it, and
    the server's current public state; and the server's state is up to date: a
    recomputation would change and report nothing. *)
Theorem drain_sync_converges steps c r :
  Forall session_step_ok steps ->
  run_session (steps ++ [Session_Drain]) session_start = Some (c, r) ->
  (forall s, evs_get (cl_stats c) s = runtime_read_packet r s) /\
  is_Some (cl_public c) /\ cl_public c = public_state source (ar_state r) /\
  recompute_report source (ar_state r) =
    Some (ar_state r, {| rep_changes := cs_default; rep_runtime_dirty := false |}).
Proof.
  intros Ho H. rewrite run_session_app in H.
  destruct (run_session steps session_start) as [[c1 r1] |] eqn:E; [| discriminate].
  apply run_session_inv in E; [| exact session_start_inv | done].
  cbn [mbind option_bind run_session run_session_step] in H. unfold drain_sync in H.
  destruct (normalize r1) as [[r2 sync] |] eqn:N; [| discriminate].
  cbn [mbind option_bind] in H. injection H as <- <-.
  destruct (session_normalize_inv _ _ _ _ E N) as ([Hs Hw Ht Hv Hp Hf] & D & X).
  assert (forall s, ~ explicit (ar_state r2) s) as NE by (intros s; unfold explicit; by rewrite X).
  cbn [ar_state]. split; [| split; [| split]].
  - intros s. unfold runtime_read_packet. cbn [ar_state]. rewrite <- Hv by done.
    apply pending_drain_client.
  - apply orb_false_elim in D as [_ D]. by apply Hp.
  - apply orb_false_elim in D as [_ D]. by apply Hp.
  - by apply up_to_date_recompute, Hf.
Qed.
End Sync.

(** ** A concrete session *)
Section Instance_.
Local Existing Instance sample_rng.

Definition sample_session : list SessionStep :=
  [Session_Op (Op_SetStoredStat Stat.St 12); Session_Drain;
   Session_Op (Op_SetPlayerProgression (progression_new 3 250 1000));
   Session_Op (Op_SetResource Stat.Hp 40); Session_Normalize;
   Session_Op (Op_ReplaceSourceBundle tt {| csc_modifiers := [CompiledModifier_plain Stat.MovSpeed 30] |})].

Lemma drain_sync_converges_witness :
  exists c r,
    run_session (sample_session ++ [Session_Drain]) (session_start (Source_Player sample_player)) = Some (c, r) /\
    evs_get (cl_stats c) Stat.Hp = runtime_read_packet r Stat.Hp.
Proof.
  destruct (run_session (sample_session ++ [Session_Drain]) (session_start (Source_Player sample_player)))
    as [[c r] |] eqn:E; [| vm_compute in E; discriminate].
  exists c, r. split; [reflexivity |].
  apply (drain_sync_converges (Source_Player sample_player) sample_session c r); [| exact E].
  repeat constructor; vm_compute; done.
Defined.
End Instance_.
