(* ===== verification/Hydrate.v ===== *)
(** The player rules ([stats/game/player_rules.rs]): the class table and the
    hydration of a player's stats from the persisted bootstrap record. *)
From S2P Require Import Prelude BTree Domain StatStore StatSource Samples Progression ActorState StatsApi StatsRecompute StatsOps StatsResources StatsSync.

(** ** The class table *)
Record PlayerClassStatsConfig : Type := { pcc_base_stats : CoreStatBlock; pcc_stat_source : ActorStatSource }.

Record PlayerClassStatsTable : Type := { pct_entries : list (PlayerClass * PlayerClassStatsConfig) }.

Definition PlayerClassStatsTable_new (entries : list (PlayerClass * PlayerClassStatsConfig)) :
    PlayerClassStatsTable := {| pct_entries := entries |}.

(** [iter().find(..)]: the first entry of the class. *)
Definition find_class (t : PlayerClassStatsTable) (class : PlayerClass) : option PlayerClassStatsConfig :=
  snd <$> List.find (fun p => bool_decide (p.1 = class)) (pct_entries t).

Definition stat_source_for_class (t : PlayerClassStatsTable) (class : PlayerClass) :
    option ActorStatSource := pcc_stat_source <$> find_class t class.

Definition resolve_player_stats (t : PlayerClassStatsTable) (class : PlayerClass)
    (allocations : CoreStatAllocations) : option PlayerStats :=
  base ← pcc_base_stats <$> find_class t class;
  Some {| stat_str := cb_st base +% allocated_str allocations;
          stat_vit := cb_ht base +% allocated_vit allocations;
          stat_dex := cb_dx base +% allocated_dex allocations;
          stat_int := cb_iq base +% allocated_int allocations |}.

(** ** [PlayerStatRules] *)
Record PlayerStatRules : Type := { class_stats : PlayerClassStatsTable; level_exp : LevelExpTable }.

Definition supports_class (self : PlayerStatRules) (class : PlayerClass) : bool :=
  match stat_source_for_class (class_stats self) class with Some _ => true | None => false end.

Section Hydrate.
Context `{GrowthRng}.
Local Abbreviation State := (ActorStatState unit unit).

Record HydratedPlayerStats : Type := {
  hyd_source : ActorStatSource; hyd_state : State; hyd_bootstrap_sync : BootstrapStatsSync }.

(** [api.call(..).ok()?]: [None] inside is the early return, [None] outside a
    panic. *)
Definition ok_or_return {A B E} (m : option (State * result A E)) (k : State -> option (option B)) :
    option (option B) :=
  match m with
  | None => None
  | Some (s, Ok _) => k s
  | Some (_, Err _) => Some None
  end.

Definition set_all (source : ActorStatSource) : list (Stat * Z) -> State ->
    (State -> option (option HydratedPlayerStats)) -> option (option HydratedPlayerStats) :=
  fix go writes state k :=
    match writes with
    | [] => k state
    | (stat, v) :: writes =>
        ok_or_return (set_stored_stat source stat v state) (fun state => go writes state k)
    end.

(** The writes of a hydration before the recomputation. *)
Definition hydrate_writes (stats : PlayerStats) (progression : PlayerProgressionState)
    (bootstrap : PlayerGameplayBootstrap) : list (Stat * Z) :=
  [(Stat.St, stat_str stats); (Stat.Ht, stat_vit stats); (Stat.Dx, stat_dex stats);
   (Stat.Iq, stat_int stats);
   (Stat.StatPoints, derive_available_stat_points (prog_level progression) (level_step progression)
                       (pgb_core_stat_allocations bootstrap));
   (Stat.StatResetCount, pgb_stat_reset_count bootstrap)].

(** [bootstrap.current.unwrap_or_else(|| api.read_limited(cap))] *)
Definition current_or_cap (source : ActorStatSource) (current : option Z) (cap : Stat) (state : State) :
    option Z :=
  match current with Some v => Some v | None => api_read_limited source state cap end.

Definition hydrate_resources (source : ActorStatSource) (bootstrap : PlayerGameplayBootstrap)
    (state : State) : option (option HydratedPlayerStats) :=
  current_hp ← current_or_cap source (pgb_current_hp bootstrap) Stat.MaxHp state;
  current_sp ← current_or_cap source (pgb_current_sp bootstrap) Stat.MaxSp state;
  current_stamina ← current_or_cap source (pgb_current_stamina bootstrap) Stat.MaxStamina state;
  ok_or_return (set_resource Stat.Hp current_hp state) (fun state =>
  ok_or_return (set_resource Stat.Sp current_sp state) (fun state =>
  ok_or_return (set_resource Stat.Stamina current_stamina state) (fun state =>
  '(state, sync) ← bootstrap_sync source state;
  Some (Some {| hyd_source := source; hyd_state := state; hyd_bootstrap_sync := sync |})))).

Definition hydrate_player (self : PlayerStatRules) (bootstrap : PlayerGameplayBootstrap) :
    option (option HydratedPlayerStats) :=
  match stat_source_for_class (class_stats self) (pgb_class bootstrap),
        resolve_player_stats (class_stats self) (pgb_class bootstrap) (pgb_core_stat_allocations bootstrap),
        progression_for_level (level_exp self) (pgb_level bootstrap) (pgb_exp_in_level bootstrap) with
  | Some stat_source, Some player_stats, Some progression =>
      let state := ActorStatState_new ActorKind_Player in
      _ ← api_new stat_source state;
      let state := set_stable_id (wrap_u 64 (pgb_player_id bootstrap)) state in
      let state := set_player_progression progression state in
      set_all stat_source (hydrate_writes player_stats progression bootstrap) state (fun state =>
      '(state, _) ← recompute stat_source state;
      hydrate_resources stat_source bootstrap state)
  | _, _, _ => Some None
  end.

(** ** Facts *)

(** Only the base store, the change set and the dirty flag differ. *)
Definition same_but_base (s s' : State) : Prop :=
  exists b x d, s' = put_dirty d (put_explicit_changes x (put_base b s)).

Lemma set_stored_stat_ok source stat v s s' u :
  set_stored_stat source stat v s = Some (s', Ok u) ->
  same_but_base s s' /\
  forall x, evs_get (st_base s') x = evs_get (evs_set (st_base s) stat v) x.
Proof.
  unfold set_stored_stat. intros Hr. run_inv. unfold state_set_stored_stat in Hr.
  destruct (is_progression_stat stat); [discriminate |].
  case_bool_decide; cbn [negb] in Hr; [| discriminate].
  destruct (Z.eqb_spec (evs_get (st_base s) stat) v) as [E | N]; injection Hr as <- _.
  - split; [destruct s; do 3 eexists; reflexivity |]. intros x. rewrite evs_get_set.
    case_decide; [by subst | done].
  - split; [do 3 eexists; reflexivity | done].
Qed.

Lemma same_but_base_trans s1 s2 s3 : same_but_base s1 s2 -> same_but_base s2 s3 -> same_but_base s1 s3.
Proof. intros (? & ? & ? & ->) (? & ? & ? & ->). do 3 eexists. reflexivity. Qed.

Definition written (writes : list (Stat * Z)) (b : PointValueStore) : PointValueStore :=
  fold_left (fun b w => evs_set b w.1 w.2) writes b.

Lemma written_ext writes b1 b2 x :
  (forall x, evs_get b1 x = evs_get b2 x) -> evs_get (written writes b1) x = evs_get (written writes b2) x.
Proof.
  revert b1 b2. induction writes as [| w ws IH]; intros b1 b2 E; [apply E |]. cbn [written fold_left].
  apply IH. intros y. rewrite !evs_get_set. by case_decide.
Qed.

Lemma set_all_ok source writes s k h :
  set_all source writes s k = Some (Some h) ->
  exists s', same_but_base s s' /\
    (forall x, evs_get (st_base s') x = evs_get (written writes (st_base s)) x) /\
    (forall k', set_all source writes s k' = k' s') /\ k s' = Some (Some h).
Proof.
  revert s. induction writes as [| [stat v] ws IH]; intros s Hr; cbn [set_all] in Hr.
  - exists s. split; [destruct s; do 3 eexists; reflexivity | done].
  - unfold ok_or_return in Hr.
    destruct (set_stored_stat source stat v s) as [[s1 [u | e]] |] eqn:E; try discriminate.
    apply IH in Hr as (s2 & S2 & B2 & K & Hk).
    exists s2. split; [apply set_stored_stat_ok in E as [S1 _]; by eapply same_but_base_trans |].
    split; [| split; [| done]].
    + apply set_stored_stat_ok in E as [_ B1]. intros x. rewrite B2. cbn [written fold_left].
      by apply written_ext.
    + intros k'. cbn [set_all]. rewrite E. exact (K k').
Qed.

Lemma set_resource_eq stat v (s : State) :
  current_resource_cap stat s <> Err (NotResource stat) ->
  set_resource stat v s =
    match current_resource_cap stat s with
    | Ok cap => if 0 <=? cap then Some (with_resource stat (clampc v 0 cap) s, Ok (clampc v 0 cap)) else None
    | Err e => Some (s, Err e)
    end.
Proof.
  intros Hc. unfold set_resource, bind, reads.
  destruct (current_resource_cap stat s) as [cap | e] eqn:E; [| done].
  unfold or_panic, clamp. destruct (0 <=? cap); [| done]. unfold expect, call, ret.
  rewrite set_resource_stat_eq; [done |]. destruct stat; done.
Qed.

Definition filled (s : State) (hp0 sp0 stamina0 : Z) : State :=
  let cap stat := evs_get (st_computed s) stat in
  with_resource Stat.Stamina (clampc stamina0 0 (cap Stat.MaxStamina))
    (with_resource Stat.Sp (clampc sp0 0 (cap Stat.MaxSp))
      (with_resource Stat.Hp (clampc hp0 0 (cap Stat.MaxHp)) s)).

Lemma with_resource_computed stat v (s : State) : st_computed (with_resource stat v s) = st_computed s.
Proof. destruct (with_resource_same stat v s) as (? & ? & ? & ->). done. Qed.

(** Resources are filled one after the other, each within its cap. *)
Lemma hydrate_resources_eq source b s :
  hydrate_resources source b s =
    hp0 ← current_or_cap source (pgb_current_hp b) Stat.MaxHp s;
    sp0 ← current_or_cap source (pgb_current_sp b) Stat.MaxSp s;
    stamina0 ← current_or_cap source (pgb_current_stamina b) Stat.MaxStamina s;
    if (0 <=? evs_get (st_computed s) Stat.MaxHp) && (0 <=? evs_get (st_computed s) Stat.MaxSp)
       && (0 <=? evs_get (st_computed s) Stat.MaxStamina)
    then '(state, sync) ← bootstrap_sync source (filled s hp0 sp0 stamina0);
         Some (Some {| hyd_source := source; hyd_state := state; hyd_bootstrap_sync := sync |})
    else None.
Proof.
  unfold hydrate_resources.
  destruct (current_or_cap source _ Stat.MaxHp s) as [hp0 |]; [| done].
  destruct (current_or_cap source _ Stat.MaxSp s) as [sp0 |]; [| done].
  destruct (current_or_cap source _ Stat.MaxStamina s) as [stamina0 |]; [| done].
  cbn [mbind option_bind]. unfold ok_or_return.
  rewrite set_resource_eq by done. cbn [current_resource_cap].
  destruct (0 <=? evs_get (st_computed s) Stat.MaxHp); [| done].
  rewrite set_resource_eq by done. cbn [current_resource_cap]. rewrite with_resource_computed.
  destruct (0 <=? evs_get (st_computed s) Stat.MaxSp); [| done].
  rewrite set_resource_eq by done. cbn [current_resource_cap]. rewrite !with_resource_computed.
  by destruct (0 <=? evs_get (st_computed s) Stat.MaxStamina).
Qed.

Lemma filled_same s a b c : same_but_resources s (filled s a b c).
Proof.
  unfold filled. eapply same_but_resources_trans; [| apply with_resource_same].
  eapply same_but_resources_trans; apply with_resource_same.
Qed.

Lemma filled_slots s a b c stat :
  resource_slot stat (st_resources (filled s a b c)) =
    match stat with
    | Stat.Hp => Some (clampc a 0 (evs_get (st_computed s) Stat.MaxHp))
    | Stat.Sp => Some (clampc b 0 (evs_get (st_computed s) Stat.MaxSp))
    | Stat.Stamina => Some (clampc c 0 (evs_get (st_computed s) Stat.MaxStamina))
    | _ => resource_slot stat (st_resources s)
    end.
Proof.
  unfold filled. rewrite !with_resource_slot by done. by destruct stat.
Qed.

Lemma filled_derived source s a b c :
  derived_of source (filled s a b c) = derived_of source s.
Proof. destruct (filled_same s a b c) as (r & x & d & ->). destruct source; reflexivity. Qed.

Lemma current_or_cap_eq source current cap s :
  cap = Stat.MaxHp \/ cap = Stat.MaxSp \/ cap = Stat.MaxStamina ->
  current_or_cap source current cap s = Some (default (evs_get (st_computed s) cap) current).
Proof. intros Hc. destruct current, source, Hc as [-> | [-> | ->]]; reflexivity. Qed.

(** The three stored resources, or the caps where none is stored. *)
Definition stored_or_full (b : PlayerGameplayBootstrap) (s : State) : Z * Z * Z :=
  (default (evs_get (st_computed s) Stat.MaxHp) (pgb_current_hp b),
   default (evs_get (st_computed s) Stat.MaxSp) (pgb_current_sp b),
   default (evs_get (st_computed s) Stat.MaxStamina) (pgb_current_stamina b)).

Lemma clamp_to_caps_within r c :
  0 <= hp r <= evs_get c Stat.MaxHp -> 0 <= sp r <= evs_get c Stat.MaxSp ->
  0 <= stamina r <= evs_get c Stat.MaxStamina -> clamp_to_caps r c = Some r.
Proof.
  intros H1 H2 H3. apply clamp_to_caps_Some. do 3 (split; [lia |]).
  rewrite !clampc_id by done. by destruct r.
Qed.

Lemma hydrate_resources_ok source b s h :
  up_to_date source s -> hydrate_resources source b s = Some (Some h) ->
  let '(hp0, sp0, stamina0) := stored_or_full b s in
  hyd_source h = source /\ up_to_date source (hyd_state h) /\
  same_but_resources s (hyd_state h) /\
  (forall stat, resource_slot stat (st_resources (hyd_state h)) =
     resource_slot stat (st_resources (filled s hp0 sp0 stamina0))) /\
  bs_stat_snapshot (hyd_bootstrap_sync h) = StatSnapshot_from_state (hyd_state h) /\
  Some (bs_public_state (hyd_bootstrap_sync h)) = public_state source (hyd_state h).
Proof.
  intros U. rewrite hydrate_resources_eq, !current_or_cap_eq by auto. unfold stored_or_full.
  cbn [mbind option_bind]. set (a := default _ (pgb_current_hp b)).
  set (c := default _ (pgb_current_sp b)). set (e := default _ (pgb_current_stamina b)).
  destruct (_ && _) eqn:C; [| done]. zbool. unfold bootstrap_sync.
  destruct (recompute_report source (filled s a c e)) as [[s2 rep] |] eqn:R; [| done].
  cbn [mbind option_bind]. unfold build_full_sync.
  destruct (public_state source s2) as [q |] eqn:P; [| done]. cbn [mbind option_bind].
  intros Hh. injection Hh as <-. cbn [hyd_source hyd_state hyd_bootstrap_sync bs_stat_snapshot bs_public_state].
  split; [done |]. split; [by eapply recompute_up_to_date |].
  apply recompute_report_inv in R as (r & Hr & -> & _). rewrite filled_derived in Hr.
  assert (st_resources (filled s a c e) = r) as Er.
  { rewrite clamp_to_caps_within in Hr; [by injection Hr | | |];
      rewrite <- (utd_computed _ _ U).
    - pose proof (filled_slots s a c e Stat.Hp) as F. injection F as ->. by apply clampc_range.
    - pose proof (filled_slots s a c e Stat.Sp) as F. injection F as ->. by apply clampc_range.
    - pose proof (filled_slots s a c e Stat.Stamina) as F. injection F as ->. by apply clampc_range. }
  split; [| split; [intros stat; cbn [recomputed st_resources]; by rewrite Er | done]].
  destruct (filled_same s a c e) as (r' & x & d & Ef).
  exists r, bs_empty, false. unfold recomputed. rewrite filled_derived.
  destruct U as [U1 U2 U3 U4 U5 U6]. rewrite <- U2 in U3 |- *.
  rewrite Ef. destruct s as [k i p bs cs rs [f ex] ms xs ds rds]. cbn in U2, U3, U6 |- *.
  unfold put_dirty, put_explicit_changes, put_resources. cbn. subst. reflexivity.
Qed.

Lemma set_base_projection_ids stat v (s : State) :
  st_stable_id (set_base_projection_stat stat v s) = st_stable_id s /\
  st_modifiers (set_base_projection_stat stat v s) = st_modifiers s.
Proof. by destruct (set_base_projection_cases stat v s) as [-> | ->]. Qed.

Lemma set_player_progression_ids p (s : State) :
  st_stable_id (set_player_progression p s) = st_stable_id s /\
  st_modifiers (set_player_progression p s) = st_modifiers s.
Proof.
  unfold set_player_progression.
  split; rewrite !(proj1 (set_base_projection_ids _ _ _)) || rewrite !(proj2 (set_base_projection_ids _ _ _)); done.
Qed.

(** The pieces of a hydration that succeeds. *)
Lemma hydrate_player_inv rules b h :
  hydrate_player rules b = Some (Some h) ->
  exists cfg p stats s1 s2,
    find_class (class_stats rules) (pgb_class b) = Some cfg /\
    progression_for_level (level_exp rules) (pgb_level b) (pgb_exp_in_level b) = Some p /\
    resolve_player_stats (class_stats rules) (pgb_class b) (pgb_core_stat_allocations b) = Some stats /\
    let s0 := set_player_progression p
                (set_stable_id (wrap_u 64 (pgb_player_id b)) (ActorStatState_new ActorKind_Player)) in
    same_but_base s0 s1 /\
    (forall x, evs_get (st_base s1) x = evs_get (written (hydrate_writes stats p b) (st_base s0)) x) /\
    (exists c, recompute (pcc_stat_source cfg) s1 = Some (s2, c)) /\
    actor_kind (pcc_stat_source cfg) = ActorKind_Player /\
    hydrate_resources (pcc_stat_source cfg) b s2 = Some (Some h) /\
    (forall b', hydrate_writes stats p b' = hydrate_writes stats p b ->
       pgb_player_id b' = pgb_player_id b -> pgb_class b' = pgb_class b -> pgb_level b' = pgb_level b ->
       pgb_exp_in_level b' = pgb_exp_in_level b ->
       pgb_core_stat_allocations b' = pgb_core_stat_allocations b ->
       hydrate_player rules b' = hydrate_resources (pcc_stat_source cfg) b' s2).
Proof.
  unfold hydrate_player, stat_source_for_class, api_new.
  destruct (find_class (class_stats rules) (pgb_class b)) as [cfg |] eqn:Ec; [| done]. cbn [fmap option_fmap option_map].
  destruct (resolve_player_stats _ _ _) as [stats |] eqn:Es; [| done].
  destruct (progression_for_level _ _ _) as [p |] eqn:Ep; [| done].
  cbn [st_kind ActorStatState_new]. case_bool_decide as Hk; [| done]. cbn [mbind option_bind].
  intros Hr. apply set_all_ok in Hr as (s1 & S1 & B1 & K & Hr).
  destruct (recompute (pcc_stat_source cfg) s1) as [[s2 c] |] eqn:R; [| done]. cbn [mbind option_bind] in Hr.
  exists cfg, p, stats, s1, s2. split; [done |]. split; [done |]. split; [done |].
  split; [done |]. split; [done |]. split; [eauto |]. split; [done |]. split; [done |].
  intros b' Ew Ei Ecl El Ee Ea. rewrite Ecl, Ec, Ea, Es, El, Ee, Ep. cbn [fmap option_fmap option_map].
  rewrite bool_decide_eq_true_2 by done. cbn [mbind option_bind]. rewrite Ei, Ew, K, R. done.
Qed.

(** What a hydration that succeeds leaves, field by field. *)
Lemma hydrate_player_facts rules b h :
  hydrate_player rules b = Some (Some h) ->
  exists cfg p stats,
    find_class (class_stats rules) (pgb_class b) = Some cfg /\ hyd_source h = pcc_stat_source cfg /\
    progression_for_level (level_exp rules) (pgb_level b) (pgb_exp_in_level b) = Some p /\
    resolve_player_stats (class_stats rules) (pgb_class b) (pgb_core_stat_allocations b) = Some stats /\
    let s := hyd_state h in
    let cap stat := evs_get (st_computed s) stat in
    up_to_date (hyd_source h) s /\ st_kind s = ActorKind_Player /\
    st_stable_id s = Some (wrap_u 64 (pgb_player_id b)) /\ st_progression s = normalized p /\
    st_modifiers s = ledger_default /\
    (forall stat, evs_get (st_base s) stat =
       match stat with
       | Stat.Level => prog_level (normalized p)
       | Stat.Exp => clamp_u32_to_i32 (exp_in_level p)
       | Stat.NextExp => clamp_u32_to_i32 (next_exp_in_level p)
       | Stat.LevelStep => level_step (normalized p)
       | Stat.St => stat_str stats | Stat.Ht => stat_vit stats
       | Stat.Dx => stat_dex stats | Stat.Iq => stat_int stats
       | Stat.StatPoints => derive_available_stat_points (prog_level p) (level_step p) (pgb_core_stat_allocations b)
       | Stat.StatResetCount => pgb_stat_reset_count b
       | _ => 0
       end) /\
    hp (st_resources s) = clampc (default (cap Stat.MaxHp) (pgb_current_hp b)) 0 (cap Stat.MaxHp) /\
    sp (st_resources s) = clampc (default (cap Stat.MaxSp) (pgb_current_sp b)) 0 (cap Stat.MaxSp) /\
    stamina (st_resources s) =
      clampc (default (cap Stat.MaxStamina) (pgb_current_stamina b)) 0 (cap Stat.MaxStamina) /\
    hp_recovery (st_resources s) = 0 /\ sp_recovery (st_resources s) = 0 /\
    bs_stat_snapshot (hyd_bootstrap_sync h) = StatSnapshot_from_state s /\
    Some (bs_public_state (hyd_bootstrap_sync h)) = public_state (hyd_source h) s.
Proof.
  intros Hh. apply hydrate_player_inv in Hh
    as (cfg & p & stats & s1 & s2 & Ec & Ep & Es & S1 & B1 & (c & R) & Ek & Hr & _).
  unfold recompute in R.
  destruct (recompute_report (pcc_stat_source cfg) s1) as [[s2' rep] |] eqn:R1; [| done].
  cbn [mbind option_bind] in R. injection R as -> _.
  pose proof (recompute_up_to_date _ _ _ _ R1) as U.
  pose proof (hydrate_resources_ok _ b s2 h U Hr) as K. unfold stored_or_full in K.
  destruct K as (K1 & K2 & (r & x & d & Es2) & K4 & K5 & K6).
  apply recompute_report_inv in R1 as (q & Hq & E2 & _).
  cbv zeta in S1, B1. set (s0 := set_player_progression p _) in *.
  destruct (set_player_progression_facts p
    (set_stable_id (wrap_u 64 (pgb_player_id b)) (ActorStatState_new ActorKind_Player)))
    as (F1 & F2 & F3 & F4 & F5 & F6 & F7 & F8 & F9 & F10). fold s0 in F1, F2, F3, F4, F5, F6, F7, F8, F9, F10.
  destruct (set_player_progression_ids p
    (set_stable_id (wrap_u 64 (pgb_player_id b)) (ActorStatState_new ActorKind_Player))) as [F11 F12].
  fold s0 in F11, F12. clearbody s0. destruct S1 as (bs & xs & ds & ->).
  exists cfg, p, stats. split; [done |]. split; [done |]. split; [done |]. split; [done |].
  cbv zeta. rewrite K1. split; [done |].
  pose proof (K4 Stat.Hp) as Q1. pose proof (K4 Stat.Sp) as Q2. pose proof (K4 Stat.Stamina) as Q3.
  pose proof (K4 Stat.HpRecovery) as Q4. pose proof (K4 Stat.SpRecovery) as Q5.
  rewrite filled_slots in Q1, Q2, Q3, Q4, Q5.
  cbn [resource_slot] in Q1, Q2, Q3, Q4, Q5.
  injection Q1 as Q1. injection Q2 as Q2. injection Q3 as Q3. injection Q4 as Q4. injection Q5 as Q5.
  rewrite Q1, Q2, Q3, Q4, Q5. rewrite Es2, E2 in *.
  apply clamp_to_caps_Some in Hq as (_ & _ & _ & Hq).
  assert (hp_recovery q = 0 /\ sp_recovery q = 0) as [G1 G2].
  { rewrite Hq. cbn [hp_recovery sp_recovery put_dirty put_explicit_changes put_base st_resources].
    rewrite F4. done. }
  split; [exact F1 |]. split; [exact F11 |]. split; [exact F5 |]. split; [exact F12 |].
  split; [| split_and!; [done | done | done | exact G1 | exact G2 | exact K5 | exact K6]].
  cbn [put_dirty put_explicit_changes put_base put_resources recomputed st_base] in B1 |- *.
  intros stat. rewrite B1.
  transitivity (match stat with
    | Stat.St => stat_str stats | Stat.Ht => stat_vit stats
    | Stat.Dx => stat_dex stats | Stat.Iq => stat_int stats
    | Stat.StatPoints =>
        derive_available_stat_points (prog_level p) (level_step p) (pgb_core_stat_allocations b)
    | Stat.StatResetCount => pgb_stat_reset_count b
    | _ => evs_get (st_base s0) stat end).
  - generalize (st_base s0). intros b0. destruct stat; reflexivity.
  - destruct stat; try reflexivity; rewrite F9; reflexivity.
Qed.

(** [C31] A player is hydrated exactly as stored: when [hydrate_player] succeeds,
    the state is that of a player of the class's source, carries the player's
    stable id and (normalized) progression, has the class's core stats plus the
    allocated points, the stat points left to spend and the reset count in its
    base store, no modifiers, and is up to date; its hit points, spell points
    and stamina are the stored ones clamped to the computed caps, or full where
    none is stored, and both recovery buckets are empty; the snapshot and the
    public state handed out are those of that state. *)
Theorem hydrate_player_spec rules b h :
  hydrate_player rules b = Some (Some h) ->
  exists cfg p stats,
    find_class (class_stats rules) (pgb_class b) = Some cfg /\ hyd_source h = pcc_stat_source cfg /\
    progression_for_level (level_exp rules) (pgb_level b) (pgb_exp_in_level b) = Some p /\
    resolve_player_stats (class_stats rules) (pgb_class b) (pgb_core_stat_allocations b) = Some stats /\
    let s := hyd_state h in
    let cap stat := evs_get (st_computed s) stat in
    up_to_date (hyd_source h) s /\ st_kind s = ActorKind_Player /\
    st_stable_id s = Some (wrap_u 64 (pgb_player_id b)) /\ st_progression s = normalized p /\
    st_modifiers s = ledger_default /\
    (forall stat, evs_get (st_base s) stat =
       match stat with
       | Stat.Level => prog_level (normalized p)
       | Stat.Exp => clamp_u32_to_i32 (exp_in_level p)
       | Stat.NextExp => clamp_u32_to_i32 (next_exp_in_level p)
       | Stat.LevelStep => level_step (normalized p)
       | Stat.St => stat_str stats | Stat.Ht => stat_vit stats
       | Stat.Dx => stat_dex stats | Stat.Iq => stat_int stats
       | Stat.StatPoints => derive_available_stat_points (prog_level p) (level_step p) (pgb_core_stat_allocations b)
       | Stat.StatResetCount => pgb_stat_reset_count b
       | _ => 0
       end) /\
    hp (st_resources s) = clampc (default (cap Stat.MaxHp) (pgb_current_hp b)) 0 (cap Stat.MaxHp) /\
    sp (st_resources s) = clampc (default (cap Stat.MaxSp) (pgb_current_sp b)) 0 (cap Stat.MaxSp) /\
    stamina (st_resources s) =
      clampc (default (cap Stat.MaxStamina) (pgb_current_stamina b)) 0 (cap Stat.MaxStamina) /\
    hp_recovery (st_resources s) = 0 /\ sp_recovery (st_resources s) = 0 /\
    bs_stat_snapshot (hyd_bootstrap_sync h) = StatSnapshot_from_state s /\
    Some (bs_public_state (hyd_bootstrap_sync h)) = public_state (hyd_source h) s.
Proof. apply hydrate_player_facts. Qed.

(** Storing the resources a hydration left. *)
Definition persist_resources (r : ActorResources) (b : PlayerGameplayBootstrap) : PlayerGameplayBootstrap :=
  {| pgb_player_id := pgb_player_id b; pgb_class := pgb_class b; pgb_level := pgb_level b;
     pgb_exp_in_level := pgb_exp_in_level b;
     pgb_core_stat_allocations := pgb_core_stat_allocations b;
     pgb_stat_reset_count := pgb_stat_reset_count b;
     pgb_current_hp := Some (hp r); pgb_current_sp := Some (sp r); pgb_current_stamina := Some (stamina r) |}.

(** Hydration round trip: storing the hit points, spell points and stamina
    of a hydrated player and hydrating again yields the same player. *)
Theorem hydrate_player_roundtrip rules b h :
  hydrate_player rules b = Some (Some h) ->
  hydrate_player rules (persist_resources (st_resources (hyd_state h)) b) = Some (Some h).
Proof.
  intros Hh. apply hydrate_player_inv in Hh
    as (cfg & p & stats & s1 & s2 & Ec & Ep & Es & S1 & B1 & (c & R) & Ek & Hr & HH).
  rewrite HH by done. unfold recompute in R.
  destruct (recompute_report (pcc_stat_source cfg) s1) as [[s2' rep] |] eqn:R1; [| done].
  cbn [mbind option_bind] in R. injection R as -> _.
  pose proof (recompute_up_to_date _ _ _ _ R1) as U.
  pose proof (hydrate_resources_ok _ b s2 h U Hr) as K. unfold stored_or_full in K.
  destruct K as (_ & _ & _ & K4 & _).
  pose proof (K4 Stat.Hp) as Q1. pose proof (K4 Stat.Sp) as Q2. pose proof (K4 Stat.Stamina) as Q3.
  rewrite filled_slots in Q1, Q2, Q3. cbn [resource_slot] in Q1, Q2, Q3.
  injection Q1 as Q1. injection Q2 as Q2. injection Q3 as Q3.
  rewrite <- Hr. rewrite !hydrate_resources_eq, !current_or_cap_eq by auto.
  cbn [mbind option_bind persist_resources pgb_current_hp pgb_current_sp pgb_current_stamina].
  unfold from_option at 1 2 3. unfold id at 1 2 3. rewrite Q1, Q2, Q3.
  destruct (_ && _) eqn:C; [| done]. zbool. unfold filled.
  rewrite !(clampc_id (clampc _ _ _)) by (by apply clampc_range). done.
Qed.
End Hydrate.

(** ** A concrete player *)
Section Instance_.
Local Existing Instance sample_rng.

Definition sample_rules : PlayerStatRules :=
  {| class_stats := PlayerClassStatsTable_new
       [(Warrior, {| pcc_base_stats := {| cb_st := 6; cb_ht := 4; cb_dx := 3; cb_iq := 3 |};
                     pcc_stat_source := Source_Player sample_player |})];
     level_exp := sample_level_table |}.
Definition sample_bootstrap : PlayerGameplayBootstrap :=
  {| pgb_player_id := 42; pgb_class := Warrior; pgb_level := 2; pgb_exp_in_level := 100;
     pgb_core_stat_allocations :=
       {| allocated_str := 1; allocated_vit := 2; allocated_dex := 0; allocated_int := 0 |};
     pgb_stat_reset_count := 0; pgb_current_hp := Some 50; pgb_current_sp := None;
     pgb_current_stamina := Some (-3) |}.

Lemma hydrate_player_spec_witness :
  exists h, hydrate_player sample_rules sample_bootstrap = Some (Some h) /\
    evs_get (st_base (hyd_state h)) Stat.Ht = 6 /\ sp_recovery (st_resources (hyd_state h)) = 0.
Proof.
  destruct (hydrate_player sample_rules sample_bootstrap) as [[h |] |] eqn:E;
    [| vm_compute in E; discriminate | vm_compute in E; discriminate].
  exists h. split; [reflexivity |].
  destruct (hydrate_player_spec sample_rules sample_bootstrap h E)
    as (cfg & p & stats & E1 & _ & E2 & E3 & _ & _ & _ & _ & _ & HB & _ & _ & _ & _ & HR & _).
  split; [| exact HR]. rewrite HB. vm_compute in E3. by injection E3 as <-.
Defined.

Lemma hydrate_player_roundtrip_witness :
  exists h, hydrate_player sample_rules sample_bootstrap = Some (Some h) /\
    hydrate_player sample_rules (persist_resources (st_resources (hyd_state h)) sample_bootstrap) = Some (Some h).
Proof.
  destruct (hydrate_player sample_rules sample_bootstrap) as [[h |] |] eqn:E;
    [| vm_compute in E; discriminate | vm_compute in E; discriminate].
  exists h. split; [reflexivity |].
  exact (hydrate_player_roundtrip sample_rules sample_bootstrap h E).
Defined.
End Instance_.
