(* ===== verification/StatsSafety.v ===== *)
(** When no operation on an actor's stats panics: an invariant of the actors the
    simulation has (no modifiers, core stats and level within their limits) under
    which every computed cap is non-negative, and each operation the simulation
    uses keeps it and returns.  The conditions on the content are bounds on sums
    ([capacity_ok]) that make overflow impossible. *)
From S2P Require Import Prelude BTree Domain StatStore StatSource Samples Progression ActorState StatsApi StatsRecompute StatsOps.
From S2P Require Import StatsResources StatsSync Hydrate.

(** ** Conditions on the content *)
Definition roll_low (r : Z * Z) : Z := Z.min r.1 r.2.
Definition roll_high (r : Z * Z) : Z := Z.max r.1 r.2.
(** A capacity that stays within an [i32] up to level [n] and the core stat limit. *)
Definition capacity_ok (n core_max base per : Z) (rolls : Z * Z) : Prop :=
  0 <= base /\ 0 <= per /\ 0 <= roll_low rolls /\ base + (n - 1) * roll_high rolls + core_max * per <= i32_max.
Definition limits_ok (l : ActorViewLimits) : Prop := 0 <= move_speed_max l /\ 0 <= attack_speed_max l.

Definition player_source_ok (n : Z) (p : PlayerStatSource) : Prop :=
  let core_max := core_stat_max (stored_limits (pss_balance p)) in
  let res := pss_resources p in
  let growth := pss_growth p in
  0 <= core_max /\ limits_ok (pbr_view_limits (pss_balance p)) /\
  0 <= max_hp_pct_bonus (resource_bonus_caps (pss_balance p)) /\
  0 <= max_sp_pct_bonus (resource_bonus_caps (pss_balance p)) /\
  capacity_ok n core_max (base_max_hp res) (hp_per_ht res) (hp_per_level growth) /\
  capacity_ok n core_max (base_max_sp res) (sp_per_iq res) (sp_per_level growth) /\
  capacity_ok n core_max (base_max_stamina res) (stamina_per_ht res) (stamina_per_level growth).
Definition source_ok (n : Z) (source : ActorStatSource) : Prop :=
  match source with
  | Source_Player p => player_source_ok n p
  | Source_Mob m => 0 <= mss_max_hp m <= i32_max /\ limits_ok (mbr_view_limits (mss_balance m))
  end.

(** ** The invariant *)
(** The stats that raise a capacity and that nothing of the simulation writes. *)
Definition bonus_stats : list Stat :=
  [Stat.BonusMaxHp; Stat.BonusMaxSp; Stat.BonusMaxStamina; Stat.MaxHpPrePctBonus; Stat.MaxHpPct; Stat.MaxSpPct;
   Stat.PartyTankerBonus; Stat.PartySkillMasterBonus].
Definition base_ok (n : Z) (source : ActorStatSource) (base : PointValueStore) : Prop :=
  (forall stat, In stat bonus_stats -> evs_get base stat = 0) /\
  match source with
  | Source_Player p =>
      let core_max := core_stat_max (stored_limits (pss_balance p)) in
      1 <= evs_get base Stat.Level <= n /\ 0 <= evs_get base Stat.Ht <= core_max /\ 0 <= evs_get base Stat.Iq <= core_max
  | Source_Mob _ => evs_get base Stat.MaxSp = 0 /\ evs_get base Stat.MaxStamina = 0
  end.
Definition caps_ok (computed : PointValueStore) : Prop :=
  0 <= evs_get computed Stat.MaxHp /\ 0 <= evs_get computed Stat.MaxSp /\ 0 <= evs_get computed Stat.MaxStamina.

Local Abbreviation State := (ActorStatState unit unit).

(** Everything but the computed caps. *)
Record actor_base_ok (n : Z) (source : ActorStatSource) (state : State) : Prop := {
  ao_kind : st_kind state = actor_kind source;
  ao_mods : st_modifiers state = ledger_default;
  ao_levels : 1 <= n <= i32_max;
  ao_source : source_ok n source;
  ao_base : base_ok n source (st_base state) }.
Record actor_ok (n : Z) (source : ActorStatSource) (state : State) : Prop := {
  ao_actor :> actor_base_ok n source state;
  ao_caps : caps_ok (st_computed state) }.
Definition runtime_ok (n : Z) (r : ActorStatsRuntime) : Prop := actor_ok n (ar_source r) (ar_state r).

Section Safety.
Context `{GrowthRng} `{!GrowthRngLaws}.

Lemma growth_bounds g salt id level rolls n : 1 <= level <= n -> n <= i32_max -> 0 <= roll_low rolls ->
  (n - 1) * roll_high rolls <= i32_max ->
  0 <= sum_growth_rolls g salt id level rolls <= (n - 1) * roll_high rolls.
Proof.
  intros Hl Hn Hlo Hhi. unfold sum_growth_rolls.
  assert (roll_low rolls <= roll_high rolls) as LH by (unfold roll_low, roll_high; lia).
  assert (wrap_u 64 (sat_i32 (level - 1)) = level - 1) as ->.
  { unfold wrap_u, sat_i32, clampc. unfold_widths. rewrite Z.mod_small; lia. }
  destruct (Z.eqb_spec (level - 1) 0); [nia |]. destruct rolls as [mn mx].
  assert ((if mn <=? mx then (mn, mx) else (mx, mn)) = (roll_low (mn, mx), roll_high (mn, mx))) as ->.
  { unfold roll_low, roll_high. cbn. destruct (Z.leb_spec mn mx); f_equal; lia. }
  set (lo := roll_low (mn, mx)) in *. set (hi := roll_high (mn, mx)) in *. destruct (version g).
  set (seed := Z.lxor _ _). set (l := map _ _).
  assert (length l = Z.to_nat (level - 1)) as Len by (unfold l; by rewrite length_map, length_seq).
  pose proof (growth_fold_bounds l lo hi 0) as B. rewrite Len in B.
  replace (Z.of_nat (Z.to_nat (level - 1))) with (level - 1) in B by lia.
  assert (0 + (level - 1) * lo <= fold_left add32 l 0 <= 0 + (level - 1) * hi); [| nia].
  apply B.
  - unfold l. apply List.Forall_forall. intros x (i & <- & _)%in_map_iff. by apply growth_sample_bounds.
  - intros k Hk. assert (k * hi <= (n - 1) * hi) by (apply Z.mul_le_mono_nonneg_r; lia).
    assert (0 <= k * lo) by (apply Z.mul_nonneg_nonneg; lia).
    assert (k * lo <= k * hi) by (apply Z.mul_le_mono_nonneg_l; lia).
    unfold_widths. lia.
Qed.

(** What a player's capacity comes to without bonuses. *)
Lemma capacity_of (b : PointValueStore) player c base :
  (forall stat, In stat bonus_stats -> evs_get b stat = 0) ->
  0 <= max_hp_pct_bonus (resource_bonus_caps (pss_balance player)) ->
  0 <= max_sp_pct_bonus (resource_bonus_caps (pss_balance player)) ->
  0 <= base <= i32_max ->
  evs_get (set_player_resource_capacity b player c base) (cap_stat c) = base.
Proof.
  intros Hb Hh Hs Hr. unfold set_player_resource_capacity. rewrite evs_get_set_eq.
  assert (forall o, (forall s, o = Some s -> In s bonus_stats) -> optional_stat_value b o = 0) as Z0.
  { intros [s |] Ho; cbn; [apply Hb; by apply Ho | done]. }
  rewrite !Z0 by (intros s; destruct c; cbn; intros [= <-]; cbn; tauto).
  assert (base +% 0 +% 0 = base) as E by (rewrite (add32_id base 0), Z.add_0_r, add32_id by (unfold_widths; lia); lia).
  rewrite E.
  assert (match capped_percentage_stat c with
    | Some stat => capped_percentage_bonus base (evs_get b stat)
        (default i32_max (capped_percentage_bonus_max (pss_balance player) c))
    | None => 0 end = 0) as ->.
  { destruct c; cbn; try done; rewrite Hb by (cbn; tauto); unfold capped_percentage_bonus, percentage_bonus, mul32;
      rewrite Z.mul_0_r; change (wrap_s 32 0) with 0; change (0 /% 100) with 0; lia. }
  exact E.
Qed.

Lemma core_capacity n core_max base per rolls g salt id level core :
  capacity_ok n core_max base per rolls -> 1 <= level <= n -> n <= i32_max -> 0 <= core <= core_max ->
  let rolled := match id with Some id => sum_growth_rolls g salt id level rolls | None => 0 end in
  0 <= base +% rolled +% core *% per <= i32_max.
Proof.
  intros (Hb & Hp & Hr & Hs) Hl Hn Hc.
  assert (0 <= core * per <= core_max * per) as Hm by (split; [apply Z.mul_nonneg_nonneg | apply Z.mul_le_mono_nonneg_r]; lia).
  assert (0 <= (n - 1) * roll_high rolls) as Hh.
  { apply Z.mul_nonneg_nonneg; [lia |]. unfold roll_low, roll_high in *. lia. }
  cbv zeta. set (rolled := match id with Some _ => _ | None => 0 end).
  assert (0 <= rolled <= (n - 1) * roll_high rolls) as Hg.
  { unfold rolled. destruct id; [apply growth_bounds; lia | lia]. }
  assert (core *% per = core * per) as -> by (apply mul32_id; unfold_widths; lia).
  rewrite (add32_id base rolled) by (unfold_widths; lia).
  rewrite add32_id by (unfold_widths; lia). lia.
Qed.

Lemma capacity_other b player c base stat : stat <> cap_stat c ->
  evs_get (set_player_resource_capacity b player c base) stat = evs_get b stat.
Proof. intros N. unfold set_player_resource_capacity. apply evs_get_set_ne. congruence. Qed.

(** The derived caps are the capacities' formulas, so none is negative. *)
Lemma derived_caps n source (state : State) : actor_base_ok n source state -> caps_ok (derived_of source state).
Proof.
  intros [_ Hm Hn Hs [Hb Hbase]]. unfold derived_of, seed_rebuild_state. rewrite Hm. cbn [ledger_iter ledger_default by_source].
  destruct source as [p | m]; cbn [rebuild_derived_state apply_source_seed source_mob].
  - change (fold_left _ _ (st_base state)) with (st_base state).
    destruct Hs as (_ & _ & Hh & Hsp & C1 & C2 & C3). destruct Hbase as (Hl & Hht & Hiq).
    set (b := st_base state) in *.
    pose proof (fun s => core_capacity _ _ _ _ _ (pss_growth p) s (st_stable_id state) _ _ C1 Hl (proj2 Hn) Hht) as K1.
    pose proof (fun s => core_capacity _ _ _ _ _ (pss_growth p) s (st_stable_id state) _ _ C2 Hl (proj2 Hn) Hiq) as K2.
    pose proof (fun s => core_capacity _ _ _ _ _ (pss_growth p) s (st_stable_id state) _ _ C3 Hl (proj2 Hn) Hht) as K3.
    unfold rebuild_player_state, random_hp, random_sp, random_stamina.
    assert (forall b', (forall s, In s bonus_stats -> evs_get b' s = evs_get b s) ->
      forall stat, In stat bonus_stats -> evs_get b' stat = 0) as Z0 by (intros b' E stat I; rewrite E; auto).
    destruct (st_stable_id state) as [id |].
    all: unfold caps_ok; repeat rewrite evs_get_set_ne by done; split_and!.
    all: repeat first
      [ rewrite (capacity_of _ p PlayerResourceCapacity.Hp) | rewrite (capacity_of _ p PlayerResourceCapacity.Sp)
      | rewrite (capacity_of _ p PlayerResourceCapacity.Stamina) | rewrite capacity_other by done ].
    all: try first [apply (K1 "grow::HP"%string) | apply (K2 "grow::SP"%string) | apply (K3 "grow:STM"%string)].
    all: try done.
    all: apply Z0; intros s' I'; rewrite ?capacity_other by (intros ->; cbn in I'; intuition discriminate); done.
  - change (fold_left _ _ ?x) with x. destruct Hs as [Hmax _]. destruct Hbase as [H1 H2]. unfold rebuild_mob_state. cbv zeta.
    unfold caps_ok. split_and!; repeat rewrite evs_get_set_ne by done; rewrite ?evs_get_set_eq; repeat rewrite evs_get_add_ne by done.
    all: try lia.
    rewrite Hb by (cbn; tauto). rewrite add32_id by (unfold_widths; lia). lia.
Qed.

(** ** Recomputation *)
Lemma recompute_report_ok n source (state : State) : actor_base_ok n source state ->
  exists state' rep, recompute_report source state = Some (state', rep) /\ actor_ok n source state' /\
    st_base state' = st_base state.
Proof.
  intros A. pose proof (derived_caps _ _ _ A) as C. rewrite recompute_report_eq.
  destruct (clamp_to_caps (st_resources state) (derived_of source state)) as [r |] eqn:E.
  - do 2 eexists. split; [reflexivity |]. split; [| done]. destruct A. by split.
  - exfalso. destruct C as (C1 & C2 & C3).
    eassert (clamp_to_caps _ _ = Some _) as X; [| rewrite E in X; discriminate X].
    apply clamp_to_caps_Some. do 3 (split; [done |]). reflexivity.
Qed.

(** Reads under a limit return. *)
Lemma read_limited_ok n source (state : State) stat : source_ok n source ->
  is_Some (read_stat_value state (Some source) stat Limited).
Proof.
  intros Hs. cbn. assert (forall max, view_limit source stat = Some max -> 0 <= max) as Hm.
  { destruct source as [p | m]; cbn; [destruct Hs as (_ & [L1 L2] & _) | destruct Hs as [_ [L1 L2]]];
      intros max; destruct stat; cbn; intros [= <-]; done. }
  destruct (view_limit source stat) as [max |]; [| by eexists].
  unfold clamp_optional, clamp. cbn. destruct (Z.leb_spec 0 max) as [| L]; [by eexists |].
  specialize (Hm max eq_refl). lia.
Qed.
Lemma public_state_ok n source (state : State) : source_ok n source -> is_Some (public_state source state).
Proof.
  intros Hs. unfold public_state, public_stats, api_read_limited.
  destruct (read_limited_ok n source state Stat.MovSpeed Hs) as [mov ->]. cbn [mbind option_bind].
  destruct (read_limited_ok n source state Stat.AttSpeed Hs) as [att ->]. by eexists.
Qed.
Lemma build_sync_ok n source changes dirty (state : State) : source_ok n source ->
  is_Some (build_sync source changes dirty state).
Proof.
  intros Hs. unfold build_sync. destruct (public_state_ok n source state Hs) as [p ->].
  destruct (dirty || public_stats_changed changes); by eexists.
Qed.
Lemma api_sync_ok n source (state : State) : actor_base_ok n source state ->
  exists state' sync, api_sync source state = Some (state', sync) /\ actor_ok n source state' /\ st_base state' = st_base state.
Proof.
  intros A. destruct (recompute_report_ok n source state A) as (state' & rep & E & A' & B). unfold api_sync. rewrite E.
  cbn [mbind option_bind]. destruct (build_sync_ok n source (rep_changes rep) (rep_runtime_dirty rep) state' (ao_source _ _ _ A))
    as [sync ->]. cbn. eauto.
Qed.
Lemma sync_if_dirty_ok n source (state : State) : actor_ok n source state ->
  exists state' sync, sync_if_dirty source state = Some (state', sync) /\ actor_ok n source state'.
Proof.
  intros A. unfold sync_if_dirty. destruct (state_is_dirty state).
  - destruct (api_sync_ok n source state A) as (state' & sync & E & A' & _). eauto.
  - destruct (build_sync_ok n source cs_default false state (ao_source _ _ _ (ao_actor _ _ _ A))) as [sync ->]. cbn. eauto.
Qed.

(** ** Writes *)
Lemma set_stored_stat_ok' n source stat v (state : State) : actor_ok n source state ->
  exists state' r, set_stored_stat source stat v state = Some (state', r) /\ actor_ok n source state'.
Proof.
  intros A. destruct A as [A C]. pose proof (set_stored_stat_spec source stat v state) as S. cbv zeta in S.
  destruct (set_stored_stat source stat v state) as [[state' [u | e]] |].
  - do 2 eexists. split; [reflexivity |]. destruct S as (Hlim & Pr & R & Hb & _ & b & x & d & ->).
    destruct A as [Ak Am An As [Ab Abase]]. split; [split; try done | done].
    change (st_base (put_dirty d (put_explicit_changes x (put_base b state)))) with b in *. split.
    + intros s I. rewrite Hb. case_decide as D; [| auto]. subst s. exfalso.
      cbn in I. repeat destruct I as [<- | I]; done.
    + destruct source as [p | m].
      * destruct Abase as (Hl & Hht & Hiq). rewrite !Hb. split_and!; case_decide as D; subst; try done; cbn in *; lia.
      * destruct Abase as [H1 H2]. rewrite !Hb. split; case_decide; subst; done.
  - destruct S as [-> _]. do 2 eexists. split; [reflexivity | by split].
  - exfalso. destruct S as (m & Hl & Hm). destruct source as [p | mob]; cbn in Hl; [| done].
    destruct (ao_source _ _ _ A) as [Hc _]. unfold PlayerBalanceRules_stored_write_limit in Hl.
    destruct stat; try discriminate Hl; injection Hl as <-; lia.
Qed.

Lemma with_resource_ok n source stat v (state : State) : actor_ok n source state -> actor_ok n source (with_resource stat v state).
Proof.
  intros A. destruct (with_resource_same stat v state) as (r & x & d & ->). destruct A as [[Ak Am An As Ab] C].
  split; [split; assumption | assumption].
Qed.
Lemma cap_ok n source stat (state : State) cap : actor_ok n source state -> current_resource_cap stat state = Ok cap -> 0 <= cap.
Proof.
  intros [_ (C1 & C2 & C3)]. destruct stat; cbn; intros [= <-]; done.
Qed.
Lemma set_resource_ok n source stat v (state : State) : actor_ok n source state ->
  exists state' r, set_resource stat v state = Some (state', r) /\ actor_ok n source state'.
Proof.
  intros A. destruct (current_resource_cap stat state) as [cap | e] eqn:E.
  - rewrite set_resource_eq by (by rewrite E). rewrite E. pose proof (cap_ok _ _ _ _ _ A E).
    destruct (Z.leb_spec 0 cap); [| lia]. eauto using with_resource_ok.
  - unfold set_resource, bind, reads. rewrite E. eauto.
Qed.
(** What the simulation applies: amounts under a cap, with a floor that is not positive. *)
Definition application_ok (a : ResourceApplication) : Prop := ra_min_value a <= 0 /\ ra_clamp_to_cap a = true.
Lemma apply_resource_ok n source a (state : State) : actor_ok n source state -> application_ok a ->
  exists state' r, apply_resource a state = Some (state', r) /\ actor_ok n source state'.
Proof.
  intros A [Hm Hc]. destruct (resource_slot (ra_stat a) (st_resources state)) as [v |] eqn:Ev.
  - destruct (current_resource_cap (ra_stat a) state) as [cap | e] eqn:Ec.
    + rewrite (apply_resource_eq a state v cap Ev) by (by rewrite Hc). pose proof (cap_ok _ _ _ _ _ A Ec).
      destruct (Z.leb_spec (ra_min_value a) cap); [| lia]. eauto using with_resource_ok.
    + unfold apply_resource, bind, reads. apply current_resource_value_slot in Ev. rewrite Ev, Hc, Ec. eauto.
  - unfold apply_resource, bind, reads. destruct (current_resource_value (ra_stat a) state) as [v | e] eqn:E; [| eauto].
    exfalso. apply current_resource_value_slot in E. congruence.
Qed.
Lemma set_player_progression_ok n p player (state : State) : actor_ok n (Source_Player player) state ->
  1 <= prog_level p <= n -> actor_ok n (Source_Player player) (set_player_progression p state).
Proof.
  intros [[Ak Am An As [Ab (Hl & Hht & Hiq)]] C] Hp. cbn [base_ok] in *.
  destruct (set_player_progression_facts p state) as (F1 & F2 & _ & _ & _ & _ & _ & _ & F9 & _).
  split; [split; try done |].
  - congruence.
  - by rewrite (proj2 (set_player_progression_ids p state)).
  - split; [intros s I; rewrite F9; cbn in I; repeat destruct I as [<- | I]; try done; apply Ab; cbn; tauto |].
    rewrite !F9. cbn. split_and!; try lia.
  - by rewrite F2.
Qed.

(** ** The runtime of an actor *)
Lemma with_api_mut_ok {T} n (f : ActorStatSource -> State -> option (State * T)) r :
  runtime_ok n r ->
  (forall state, actor_ok n (ar_source r) state ->
     exists state' t, f (ar_source r) state = Some (state', t) /\ actor_ok n (ar_source r) state') ->
  exists r' t, with_api_mut f r = Some (r', t) /\ runtime_ok n r' /\ ar_source r' = ar_source r.
Proof.
  intros A Hf. unfold with_api_mut, api_new. rewrite bool_decide_eq_true_2 by (apply A). cbn [mbind option_bind].
  destruct (Hf (ar_state r) A) as (state' & t & -> & A'). cbn. do 2 eexists. split; [reflexivity |]. by split.
Qed.
Lemma normalize_ok n r : runtime_ok n r ->
  exists r' sync, normalize r = Some (r', sync) /\ runtime_ok n r' /\ ar_source r' = ar_source r.
Proof.
  intros A. destruct (with_api_mut_ok n sync_if_dirty r A) as (r' & sync & E & A' & S).
  { intros state As. by apply sync_if_dirty_ok. }
  unfold normalize. rewrite E. cbn. do 2 eexists. split; [reflexivity |]. by split.
Qed.
Lemma drain_sync_ok n r : runtime_ok n r ->
  exists r' drained, drain_sync r = Some (r', drained) /\ runtime_ok n r' /\ ar_source r' = ar_source r.
Proof.
  intros A. destruct (normalize_ok n r A) as (r' & sync & E & A' & S).
  unfold drain_sync. rewrite E. cbn. do 2 eexists. split; [reflexivity |]. by split.
Qed.
Lemma runtime_read_limited_ok n r stat : runtime_ok n r -> is_Some (runtime_read_limited r stat).
Proof. intros A. eapply read_limited_ok, A. Qed.
Lemma validate_stored_stat_ok n r stat v : runtime_ok n r -> is_Some (validate_stored_stat r stat v).
Proof.
  intros A. unfold validate_stored_stat, api_new. rewrite bool_decide_eq_true_2 by (apply A). cbn [mbind option_bind].
  destruct (set_stored_stat_ok' n (ar_source r) stat v (ar_state r) A) as (? & ? & -> & _). by eexists.
Qed.

(** ** A hydrated player *)
Definition rules_ok (n : Z) (rules : PlayerStatRules) : Prop :=
  table_wf (level_exp rules) n /\ n <= i32_max /\
  Forall (fun entry => source_ok n (pcc_stat_source entry.2)) (pct_entries (class_stats rules)).

Lemma set_all_valid source writes (s : State) k h : set_all source writes s k = Some (Some h) ->
  forall stat v max, (stat, v) ∈ writes -> stored_write_limit source stat = Some max -> 0 <= v <= max.
Proof.
  revert s. induction writes as [| [st x] writes IH]; intros s E stat v max I L; [by apply not_elem_of_nil in I |].
  cbn [set_all] in E. unfold ok_or_return in E. pose proof (set_stored_stat_spec source st x s) as S. cbv zeta in S.
  destruct (set_stored_stat source st x s) as [[s' [u | e]] |]; try discriminate E.
  apply elem_of_cons in I as [[= -> ->] | I]; [| by eapply IH].
  destruct S as (Hlim & _). rewrite L in Hlim. lia.
Qed.

Lemma hydrate_player_ok n rules b h : rules_ok n rules -> hydrate_player rules b = Some (Some h) ->
  runtime_ok n (ActorStatsRuntime_new (hyd_source h) (hyd_state h)) /\ 1 <= pgb_level b <= n /\
  (exists player, hyd_source h = Source_Player player).
Proof.
  intros (Ht & Hn & Hc) E. destruct (hydrate_player_facts rules b h E)
    as (cfg & p & stats & F1 & F2 & F3 & F4 & U & K & _ & _ & M & B & _).
  assert (1 <= pgb_level b <= n /\ prog_level p = pgb_level b) as [Hl Hpl].
  { unfold progression_for_level in F3. destruct (entry_for_level _ _) as [e |] eqn:Ee; [| done].
    injection F3 as <-. split; [| done]. by apply Ht; eexists. }
  assert (source_ok n (hyd_source h)) as Hs.
  { rewrite F2. unfold find_class in F1. destruct (List.find _ _) as [[c cfg'] |] eqn:Ef; [| done].
    injection F1 as <-. apply List.find_some in Ef as [I _].
    rewrite Forall_forall in Hc. apply (Hc (c, cfg')). by apply list_elem_of_In. }
  assert (actor_kind (hyd_source h) = ActorKind_Player) as Hk.
  { destruct (hydrate_player_inv rules b h E) as (cfg' & ? & ? & ? & ? & F1' & _ & _ & _ & _ & _ & Hk & _).
    rewrite F1' in F1. injection F1 as ->. by rewrite F2. }
  destruct (hyd_source h) as [player | mob] eqn:Esrc; [| done].
  assert (forall stat v max, (stat, v) ∈ hydrate_writes stats p b ->
    stored_write_limit (Source_Player player) stat = Some max -> 0 <= v <= max) as Hv.
  { unfold hydrate_player, stat_source_for_class in E. rewrite F1, F3, F4 in E. cbn [fmap option_fmap option_map] in E.
    destruct (api_new _ _); [| done]. cbn [mbind option_bind] in E. rewrite <- F2 in E. by eapply set_all_valid. }
  split; [| split; [done | by eexists]]. unfold runtime_ok, ActorStatsRuntime_new. cbn [ar_source ar_state].
  split; [split; try done |].
  - destruct Ht. lia.
  - split.
    + intros stat I. rewrite B. cbn in I. repeat destruct I as [<- | I]; done.
    + rewrite !B. cbn [normalized prog_level]. split; [lia |].
      split; [apply (Hv Stat.Ht); [| done] | apply (Hv Stat.Iq); [| done]]; unfold hydrate_writes;
        repeat (apply list_elem_of_here || apply list_elem_of_further).
  - destruct U as [Uc Ucomp _ _ _ _]. apply clamp_to_caps_Some in Uc as (C1 & C2 & C3 & _). rewrite Ucomp. by split_and!.
Qed.

(** ** A mob *)
Lemma new_mob_ok n m : 1 <= n <= i32_max -> source_ok n (Source_Mob m) ->
  actor_base_ok n (Source_Mob m) (ActorStatState_new ActorKind_Mob).
Proof. intros Hn Hs. by split. Qed.
End Safety.
