(* ===== verification/Recovery.v ===== *)
(** Passive recovery and stamina ([stats/game/recovery.rs]): the rate
    accumulator that turns elapsed time into whole points, the hit- and
    spell-point tickers, and the stamina state machine with its timer commands.
    A [Duration] is its number of nanoseconds. *)
From S2P Require Import Prelude Domain StatStore StatSource.

Definition secs (n : Z) : Z := n * 1000000000.

(** The largest [Duration]: [u64::MAX] seconds and 999999999 nanoseconds. *)
Definition duration_max : Z := u64_max * 1000000000 + 999999999.
Definition is_duration (d : Z) : Prop := 0 <= d <= duration_max.

(** ** [RateAccumulator] *)
Record DurationRate : Type := { rate_amount : Z; rate_per : Z }.
Record RateAccumulator : Type := { remainder : Z }.

Definition RateAccumulator_default : RateAccumulator := {| remainder := 0 |}.
Definition reset (_ : RateAccumulator) : RateAccumulator := RateAccumulator_default.

Definition duration_nanos (duration : Z) : Z := Z.min duration i128_max.

Definition accrue (self : RateAccumulator) (rate : DurationRate) (elapsed : Z) : RateAccumulator * Z :=
  let period_nanos := duration_nanos (rate_per rate) in
  if (rate_amount rate <=? 0) || (period_nanos <=? 0) then ({| remainder := 0 |}, 0)
  else
    let elapsed_nanos := duration_nanos elapsed in
    if elapsed_nanos <=? 0 then (self, 0)
    else
      let accrued := sat_i128 (rate_amount rate * elapsed_nanos) in
      let total := sat_i128 (remainder self + accrued) in
      let whole := total /% period_nanos in
      ({| remainder := Z.rem total period_nanos |}, Z.min whole i64_max).

(** ** Activity *)
Inductive PlayerMovementActivity : Type := Activity_Moving | Activity_Stopped (since : Z) | Activity_Idle.

Record PlayerStatActivity : Type := {
  movement : PlayerMovementActivity;
  since_walk_started : option Z;
  since_attack : option Z }.

Definition stopped_for (since_finished : Z) : PlayerMovementActivity := Activity_Stopped since_finished.

Definition movement_moved_recently (self : PlayerMovementActivity) (threshold : Z) : bool :=
  match self with
  | Activity_Moving => true
  | Activity_Stopped since_finished => since_finished <? threshold
  | Activity_Idle => false
  end.

Definition stopped_for_at_least (self : PlayerMovementActivity) (threshold : Z) : bool :=
  match self with
  | Activity_Moving => false
  | Activity_Stopped since_finished => threshold <=? since_finished
  | Activity_Idle => true
  end.

Definition happened_recently (since : option Z) (threshold : Z) : bool :=
  match since with Some since => since <? threshold | None => false end.
Definition moved_recently (activity : PlayerStatActivity) (threshold : Z) : bool :=
  movement_moved_recently (movement activity) threshold.

Inductive PlayerSpRecoveryProfile : Type := Standard | Caster.

(** ** Rates *)
Definition BASIS_POINTS_DENOMINATOR : Z := 10000.
Definition from_basis_points (value : Z) : Z := value.
Definition from_percent (pct : Z) : Z := from_basis_points (pct * 100).
Definition of_resource (share max_resource : Z) : Z :=
  sat_i64 (max_resource * share) /% BASIS_POINTS_DENOMINATOR.

Definition passive_hp_rate (max_hp : Z) (activity : PlayerStatActivity) : DurationRate :=
  let '(hp_base, hp_max_share) :=
    if moved_recently activity (secs 3) then (15, from_percent 1) else (15, from_percent 5) in
  {| rate_amount := sat_i64 (hp_base + of_resource hp_max_share max_hp); rate_per := secs 3 |}.

Definition passive_sp_rate (hp max_hp max_sp : Z) (activity : PlayerStatActivity)
    (profile : PlayerSpRecoveryProfile) : DurationRate :=
  let moved := moved_recently activity (secs 3) in
  let attacked := happened_recently (since_attack activity) (secs 3) in
  let is_full_hp := max_hp <=? hp in
  let '(sp_base, sp_max_share) :=
    match profile with
    | Caster =>
        if attacked then (2, from_basis_points 50)
        else if moved then (3, from_percent 2)
        else (10, from_percent 3)
    | Standard =>
        if attacked then (2, from_basis_points 50)
        else if moved || negb is_full_hp then (2, from_percent 1)
        else (9, from_percent 1)
    end in
  {| rate_amount := sat_i64 (sp_base + of_resource sp_max_share max_sp); rate_per := secs 3 |}.

(** ** Hit and spell points *)
Definition accrue_passive_hp (state : RateAccumulator) (hp max_hp : Z)
    (activity : PlayerStatActivity) (elapsed : Z) : RateAccumulator * option Z :=
  let missing := sat_i32 (max_hp - hp) in
  if missing <=? 0 then (reset state, None)
  else
    let rate := passive_hp_rate max_hp activity in
    let '(state, accrued) :=
      accrue state {| rate_amount := rate_amount rate; rate_per := rate_per rate |} elapsed in
    if accrued <=? 0 then (state, None)
    else
      let amount := Z.min (Z.min accrued missing) i32_max in
      let state := if missing <=? amount then reset state else state in
      (state, if 0 <? amount then Some amount else None).

Definition accrue_passive_sp (state : RateAccumulator) (hp max_hp sp max_sp : Z)
    (activity : PlayerStatActivity) (profile : PlayerSpRecoveryProfile) (elapsed : Z) :
    RateAccumulator * option Z :=
  let missing := sat_i32 (max_sp - sp) in
  if missing <=? 0 then (reset state, None)
  else
    let rate := passive_sp_rate hp max_hp max_sp activity profile in
    let '(state, accrued) :=
      accrue state {| rate_amount := rate_amount rate; rate_per := rate_per rate |} elapsed in
    if accrued <=? 0 then (state, None)
    else
      let amount := Z.min (Z.min accrued missing) i32_max in
      let state := if missing <=? amount then reset state else state in
      (state, if 0 <? amount then Some amount else None).

Record PlayerPassiveHpRecoveryState : Type := { hp_accumulator : RateAccumulator }.
Record PlayerPassiveSpRecoveryState : Type := { sp_accumulator : RateAccumulator }.

Definition tick_player_passive_hp_recovery (state : PlayerPassiveHpRecoveryState) (hp max_hp : Z)
    (activity : PlayerStatActivity) (elapsed : Z) :
    PlayerPassiveHpRecoveryState * option ResourceApplication :=
  let '(acc, amount) := accrue_passive_hp (hp_accumulator state) hp max_hp activity elapsed in
  ({| hp_accumulator := acc |}, restore Stat.Hp <$> amount).

Definition tick_player_passive_sp_recovery (state : PlayerPassiveSpRecoveryState)
    (hp max_hp sp max_sp : Z) (activity : PlayerStatActivity) (profile : PlayerSpRecoveryProfile)
    (elapsed : Z) : PlayerPassiveSpRecoveryState * option ResourceApplication :=
  let '(acc, amount) :=
    accrue_passive_sp (sp_accumulator state) hp max_hp sp max_sp activity profile elapsed in
  ({| sp_accumulator := acc |}, restore Stat.Sp <$> amount).

(** ** Stamina *)
Record PlayerStaminaState : Type := { stamina_accumulator : RateAccumulator; consuming : bool }.
Definition PlayerStaminaState_default : PlayerStaminaState :=
  {| stamina_accumulator := RateAccumulator_default; consuming := false |}.

Inductive PlayerStaminaTimerCommand : Type := Timer_Start (consume_per_sec : Z) | Timer_Stop.
Inductive PlayerStaminaMovementOverride : Type := ForceWalk | RevertToPreferred.

Record PlayerStaminaOutput : Type := {
  so_application : option ResourceApplication;
  so_timer : option PlayerStaminaTimerCommand;
  so_movement_override : option PlayerStaminaMovementOverride }.

Record PlayerStaminaEffect : Type := {
  se_application : option ResourceApplication;
  se_timer : option PlayerStaminaTimerCommand;
  se_movement_override : option PlayerStaminaMovementOverride }.

Inductive LegacyStaminaMoveMode : Type := Mode_Run | Mode_Walk (since_started : option Z).
Inductive LegacyStaminaMovement : Type :=
| Legacy_Moving (mode : LegacyStaminaMoveMode)
| Legacy_Stopped (movement : PlayerMovementActivity).
Inductive LegacyStaminaRestore : Type :=
| Restore_Walking (amount : Z) (depleted_before_restore : bool)
| Restore_Stopped (amount : Z) (depleted_before_restore : bool).

Definition LegacyStaminaMoveMode_new (activity : PlayerStatActivity)
    (movement_mode : MovementAnimation) (current_stamina : Z) : LegacyStaminaMoveMode :=
  if bool_decide (movement_mode = Walk) || (current_stamina <=? 0)
  then Mode_Walk (since_walk_started activity)
  else Mode_Run.

Definition LegacyStaminaMoveMode_restore (self : LegacyStaminaMoveMode) (amount : Z)
    (depleted_before_restore : bool) : option LegacyStaminaRestore :=
  match self with
  | Mode_Run => None
  | Mode_Walk since_started =>
      let restore_ready :=
        match since_started with None => true | Some since => secs 5 <? since end in
      if restore_ready then Some (Restore_Walking amount depleted_before_restore) else None
  end.

Definition LegacyStaminaMovement_new (activity : PlayerStatActivity)
    (movement_mode : MovementAnimation) (current_stamina : Z) : LegacyStaminaMovement :=
  let mode := LegacyStaminaMoveMode_new activity movement_mode current_stamina in
  match movement activity with
  | Activity_Moving => Legacy_Moving mode
  | movement => Legacy_Stopped movement
  end.

Definition is_combat_run (self : LegacyStaminaMovement) : bool :=
  match self with Legacy_Moving Mode_Run => true | _ => false end.

Definition LegacyStaminaMovement_restore (self : LegacyStaminaMovement) (amount : Z)
    (depleted_before_restore : bool) : option LegacyStaminaRestore :=
  match self with
  | Legacy_Moving mode => LegacyStaminaMoveMode_restore mode amount depleted_before_restore
  | Legacy_Stopped movement =>
      if stopped_for_at_least movement (secs 3)
      then Some (Restore_Stopped amount depleted_before_restore) else None
  end.

Record LegacyStaminaSnapshot : Type := {
  snap_current : Z; snap_max : Z; snap_movement : LegacyStaminaMovement;
  inside_combat_window : bool }.

Definition LegacyStaminaSnapshot_new (current max : Z) (activity : PlayerStatActivity)
    (movement_mode : MovementAnimation) : LegacyStaminaSnapshot :=
  {| snap_current := current; snap_max := max;
     snap_movement := LegacyStaminaMovement_new activity movement_mode current;
     inside_combat_window := happened_recently (since_attack activity) (secs 20) |}.

Definition should_consume (self : LegacyStaminaSnapshot) : bool :=
  inside_combat_window self && is_combat_run (snap_movement self).
Definition is_depleted (self : LegacyStaminaSnapshot) : bool := snap_current self <=? 0.
Definition snapshot_restore (self : LegacyStaminaSnapshot) : option LegacyStaminaRestore :=
  if snap_max self <=? snap_current self then None
  else LegacyStaminaMovement_restore (snap_movement self) (snap_max self) (is_depleted self).

Definition restore_amount (self : LegacyStaminaRestore) : Z :=
  match self with Restore_Walking amount _ | Restore_Stopped amount _ => amount end.
Definition depleted_before_restore (self : LegacyStaminaRestore) : bool :=
  match self with Restore_Walking _ d | Restore_Stopped _ d => d end.
Definition restore_application (self : LegacyStaminaRestore) : ResourceApplication :=
  restore Stat.Stamina (restore_amount self).
Definition restore_movement_override (self : LegacyStaminaRestore) :
    option PlayerStaminaMovementOverride :=
  if depleted_before_restore self then Some RevertToPreferred else None.

Definition start_stamina_consumption (state : PlayerStaminaState) (consume_per_second : Z) :
    PlayerStaminaState * option PlayerStaminaTimerCommand :=
  if consuming state then (state, None)
  else ({| stamina_accumulator := stamina_accumulator state; consuming := true |},
        Some (Timer_Start consume_per_second)).

Definition stop_stamina_consumption (state : PlayerStaminaState) :
    PlayerStaminaState * option PlayerStaminaTimerCommand :=
  let state := {| stamina_accumulator := reset (stamina_accumulator state);
                  consuming := consuming state |} in
  if consuming state
  then ({| stamina_accumulator := stamina_accumulator state; consuming := false |}, Some Timer_Stop)
  else (state, None).

Definition STAMINA_CONSUME_PER_SECOND : Z := 25.

Definition consume_running_stamina (state : PlayerStaminaState) (current_stamina elapsed : Z) :
    PlayerStaminaState * PlayerStaminaOutput :=
  let '(acc, spend_) :=
    accrue (stamina_accumulator state)
      {| rate_amount := STAMINA_CONSUME_PER_SECOND; rate_per := secs 1 |} elapsed in
  let state := {| stamina_accumulator := acc; consuming := consuming state |} in
  let spend_ := Z.min (Z.min (Z.max spend_ 0) current_stamina) i32_max in
  let application := if 0 <? spend_ then Some (spend Stat.Stamina spend_) else None in
  let will_deplete := sat_i32 (current_stamina - spend_) <=? 0 in
  let was_consuming := consuming state in
  let '(state, timer) :=
    if will_deplete
    then ({| stamina_accumulator := reset (stamina_accumulator state); consuming := false |},
          if was_consuming then Some Timer_Stop else None)
    else start_stamina_consumption state STAMINA_CONSUME_PER_SECOND in
  (state, {| so_application := application; so_timer := timer;
             so_movement_override := if will_deplete then Some ForceWalk else None |}).

Definition tick_stamina (state : PlayerStaminaState) (current max : Z)
    (activity : PlayerStatActivity) (movement_mode : MovementAnimation) (elapsed : Z) :
    PlayerStaminaState * PlayerStaminaOutput :=
  let stamina := LegacyStaminaSnapshot_new current max activity movement_mode in
  if should_consume stamina then consume_running_stamina state (snap_current stamina) elapsed
  else
    let '(state, timer) := stop_stamina_consumption state in
    let restore := snapshot_restore stamina in
    (state, {| so_application := restore_application <$> restore; so_timer := timer;
               so_movement_override := restore ≫= restore_movement_override |}).

Definition tick_player_stamina (state : PlayerStaminaState) (stamina max_stamina : Z)
    (activity : PlayerStatActivity) (movement_mode : MovementAnimation) (elapsed : Z) :
    PlayerStaminaState * PlayerStaminaEffect :=
  let '(state, output) := tick_stamina state stamina max_stamina activity movement_mode elapsed in
  (state, {| se_application := so_application output; se_timer := so_timer output;
             se_movement_override := so_movement_override output |}).

(** ** Accrual *)

Lemma accrue_exact acc rate elapsed :
  0 < rate_amount rate -> 0 < rate_per rate <= i128_max -> is_duration elapsed ->
  0 <= remainder acc < rate_per rate ->
  remainder acc + rate_amount rate * elapsed <= i128_max ->
  accrue acc rate elapsed =
    ({| remainder := (remainder acc + rate_amount rate * elapsed) mod rate_per rate |},
     Z.min ((remainder acc + rate_amount rate * elapsed) / rate_per rate) i64_max).
Proof.
  intros Ha Hp He Hr Hb. unfold accrue, duration_nanos.
  assert (i128_max = 170141183460469231731687303715884105727) as Hm by reflexivity.
  assert (i128_min = -170141183460469231731687303715884105728) as Hn by reflexivity.
  unfold is_duration, duration_max in He. unfold_widths.
  rewrite !Z.min_l by lia.
  destruct (Z.leb_spec (rate_amount rate) 0); [lia |]. destruct (Z.leb_spec (rate_per rate) 0); [lia |].
  cbn [orb]. destruct (Z.leb_spec elapsed 0).
  - replace elapsed with 0 by lia. rewrite Z.mul_0_r, Z.add_0_r, Z.mod_small, Z.div_small by lia.
    by destruct acc.
  - assert (sat_i128 (rate_amount rate * elapsed) = rate_amount rate * elapsed) as ->
      by (unfold sat_i128; apply clampc_id; nia).
    assert (sat_i128 (remainder acc + rate_amount rate * elapsed) = remainder acc + rate_amount rate * elapsed) as ->
      by (unfold sat_i128; apply clampc_id; nia).
    rewrite Z.quot_div_nonneg, Z.rem_mod_nonneg by nia. done.
Qed.

(** The ticks of an accumulator one after the other, and what they add up to. *)
Fixpoint accrue_all (acc : RateAccumulator) (rate : DurationRate) (ticks : list Z) : RateAccumulator * Z :=
  match ticks with
  | [] => (acc, 0)
  | elapsed :: ticks =>
      let '(acc, n) := accrue acc rate elapsed in
      let '(acc, m) := accrue_all acc rate ticks in (acc, n + m)
  end.

Definition sum (l : list Z) : Z := foldr Z.add 0 l.

(** The rate accumulator does not drift: over any sequence of ticks, what it
    hands out is [floor (amount * elapsed / period)] for the total time elapsed
    plus what was left over before, so how a stretch of time is cut into ticks
    never changes the amount recovered, and less than one unit is ever pending.
    (The bound keeps a single tick within [i64].) *)
Theorem accrue_no_drift acc rate ticks :
  0 < rate_amount rate -> 0 < rate_per rate -> i64_max * rate_per rate <= i128_max ->
  0 <= remainder acc < rate_per rate -> Forall is_duration ticks ->
  remainder acc + rate_amount rate * sum ticks < i64_max * rate_per rate ->
  let '(acc', n) := accrue_all acc rate ticks in
  n = (remainder acc + rate_amount rate * sum ticks) / rate_per rate /\
  remainder acc' = (remainder acc + rate_amount rate * sum ticks) mod rate_per rate.
Proof.
  intros Ha Hp Hb. revert acc. induction ticks as [| e ticks IH]; intros acc Hr Hd Hs.
  - cbn [accrue_all sum foldr] in *. rewrite Z.mul_0_r, Z.add_0_r, Z.div_small, Z.mod_small by lia. done.
  - inversion Hd as [| ? ? He Hd']; subst.
    assert (sum (e :: ticks) = e + sum ticks) as Es by done. rewrite Es in *.
    assert (0 <= sum ticks) as Hpos.
    { clear -Hd'. induction Hd' as [| x l Hx Hl IH]; [done |]. cbn [sum foldr].
      unfold is_duration in Hx. unfold sum in IH. lia. }
    assert (0 <= e) as He0 by apply He.
    assert (0 <= rate_amount rate * sum ticks) by nia.
    cbn [accrue_all]. rewrite accrue_exact by (auto; unfold_widths; nia).
    set (tot := remainder acc + rate_amount rate * e) in *.
    assert (tot / rate_per rate < i64_max) as Hw by (apply Z.div_lt_upper_bound; [lia | nia]).
    pose proof (Z.mod_pos_bound tot (rate_per rate) ltac:(lia)) as Hm.
    pose proof (Z.div_mod tot (rate_per rate) ltac:(lia)) as Hdm.
    specialize (IH {| remainder := tot mod rate_per rate |}). cbn [remainder] in IH.
    assert (0 <= tot / rate_per rate) by (apply Z.div_pos; [nia | lia]).
    specialize (IH Hm Hd' ltac:(nia)).
    destruct (accrue_all {| remainder := tot mod rate_per rate |} rate ticks) as [acc' m].
    destruct IH as [-> ->]. rewrite Z.min_l by lia.
    replace (remainder acc + rate_amount rate * (e + sum ticks))
      with (tot mod rate_per rate + rate_amount rate * sum ticks + tot / rate_per rate * rate_per rate) by nia.
    rewrite Z.div_add, Z_mod_plus_full by lia. lia.
Qed.

(** ** Passive recovery *)

Lemma of_resource_exact share max_resource :
  0 <= share <= 10000 -> 0 <= max_resource <= i32_max ->
  of_resource share max_resource = max_resource * share / 10000 /\
  0 <= of_resource share max_resource <= max_resource.
Proof.
  intros Hs Hm. unfold of_resource, BASIS_POINTS_DENOMINATOR.
  assert (sat_i64 (max_resource * share) = max_resource * share) as ->
    by (unfold sat_i64; apply clampc_id; unfold_widths; nia).
  rewrite Z.quot_div_nonneg by nia. split; [done |]. split; [apply Z.div_pos; nia |].
  apply Z.div_le_upper_bound; nia.
Qed.

(** What the two tickers share: the accrual of a rate up to what is missing. *)
Lemma accrue_passive_exact acc amount per missing elapsed :
  0 < amount <= i32_max -> 0 < per <= secs 3600 -> is_duration elapsed ->
  0 <= remainder acc < per -> 0 < missing <= i32_max ->
  let due := (remainder acc + amount * elapsed) / per in
  let '(acc', accrued) := accrue acc {| rate_amount := amount; rate_per := per |} elapsed in
  0 <= accrued /\ Z.min (Z.min accrued missing) i32_max = Z.min due missing /\
  (accrued <=? 0) = (due <=? 0) /\ remainder acc' = (remainder acc + amount * elapsed) mod per.
Proof.
  intros Ha Hp He Hr Hm. cbv zeta.
  assert (i128_max = 170141183460469231731687303715884105727) as Hx by reflexivity.
  assert (remainder acc + amount * elapsed <= i128_max) as Hb.
  { unfold is_duration, duration_max, secs in *. unfold_widths.
    assert (amount * elapsed <= 2147483647 * (18446744073709551615 * 1000000000 + 999999999)) by nia. lia. }
  rewrite accrue_exact; cbn [rate_amount rate_per]; try done; try (unfold secs in *; lia).
  assert (0 <= (remainder acc + amount * elapsed) / per).
  { apply Z.div_pos; [| lia]. unfold is_duration in He. nia. }
  cbn [remainder]. split; [unfold_widths; lia |]. split; [unfold_widths; lia |]. split; [| done].
  destruct (Z.leb_spec (Z.min ((remainder acc + amount * elapsed) / per) i64_max) 0),
    (Z.leb_spec ((remainder acc + amount * elapsed) / per) 0); try done; unfold_widths; lia.
Qed.

Lemma passive_hp_rate_exact max_hp activity :
  0 <= max_hp <= i32_max ->
  passive_hp_rate max_hp activity =
    {| rate_amount := 15 + max_hp * (if moved_recently activity (secs 3) then 100 else 500) / 10000;
       rate_per := secs 3 |} /\
  0 < rate_amount (passive_hp_rate max_hp activity) <= i32_max.
Proof.
  intros Hm. unfold passive_hp_rate, from_percent, from_basis_points.
  destruct (moved_recently activity (secs 3)); cbn [fst snd rate_amount].
  - destruct (of_resource_exact 100 max_hp) as [E R]; [lia | done |].
    change (1 * 100) with 100. rewrite E in *.
    assert (max_hp * 100 / 10000 <= 21474837) by (apply Z.div_le_upper_bound; unfold_widths; lia).
    unfold sat_i64. rewrite clampc_id by (unfold_widths; lia). split; [done | unfold_widths; lia].
  - destruct (of_resource_exact 500 max_hp) as [E R]; [lia | done |].
    change (5 * 100) with 500. rewrite E in *.
    assert (max_hp * 500 / 10000 <= 107374183) by (apply Z.div_le_upper_bound; unfold_widths; lia).
    unfold sat_i64. rewrite clampc_id by (unfold_widths; lia). split; [done | unfold_widths; lia].
Qed.

(** The basis points and the flat amount of the spell-point rate. *)
Definition sp_rate_parts (hp max_hp : Z) (activity : PlayerStatActivity)
    (profile : PlayerSpRecoveryProfile) : Z * Z :=
  if happened_recently (since_attack activity) (secs 3) then (2, 50)
  else match profile with
       | Caster => if moved_recently activity (secs 3) then (3, 200) else (10, 300)
       | Standard => if moved_recently activity (secs 3) || (hp <? max_hp) then (2, 100) else (9, 100)
       end.

Lemma passive_sp_rate_exact hp max_hp max_sp activity profile :
  0 <= max_sp <= i32_max ->
  let '(base, share) := sp_rate_parts hp max_hp activity profile in
  passive_sp_rate hp max_hp max_sp activity profile =
    {| rate_amount := base + max_sp * share / 10000; rate_per := secs 3 |} /\
  0 < base + max_sp * share / 10000 <= i32_max.
Proof.
  intros Hm. unfold passive_sp_rate, sp_rate_parts, from_percent, from_basis_points.
  rewrite (Z.ltb_antisym max_hp hp).
  assert (forall base share, 0 < base <= 10 -> 0 <= share <= 300 ->
    {| rate_amount := sat_i64 (base + of_resource share max_sp); rate_per := secs 3 |} =
    {| rate_amount := base + max_sp * share / 10000; rate_per := secs 3 |} /\
    0 < base + max_sp * share / 10000 <= i32_max) as H.
  { intros base share Hb Hs. destruct (of_resource_exact share max_sp) as [E R]; [lia | done |].
    rewrite E in *.
    assert (max_sp * share / 10000 <= 64424510) by (apply Z.div_le_upper_bound; unfold_widths; nia).
    unfold sat_i64. rewrite clampc_id by (unfold_widths; lia). split; [done | unfold_widths; lia]. }
  destruct profile, (happened_recently (since_attack activity) (secs 3)),
    (moved_recently activity (secs 3)), (max_hp <=? hp); cbn [orb negb]; apply H; lia.
Qed.

(** Passive hit-point recovery: an actor at or above its maximum recovers
    nothing and loses what it had accrued; below it, a tick restores exactly
    [floor] of the accrued amount, at 15 plus 5 percent of the maximum per three
    seconds (1 percent while it moved within the last three seconds), never past
    the maximum, and filling up clears the accumulator. *)
Theorem passive_hp_recovery_spec state hp max_hp activity elapsed :
  is_i32 hp -> 0 <= max_hp <= i32_max -> max_hp - hp <= i32_max -> is_duration elapsed ->
  0 <= remainder (hp_accumulator state) < secs 3 ->
  let rate := 15 + max_hp * (if moved_recently activity (secs 3) then 100 else 500) / 10000 in
  let total := remainder (hp_accumulator state) + rate * elapsed in
  let amount := Z.min (total / secs 3) (max_hp - hp) in
  let '(state', app) := tick_player_passive_hp_recovery state hp max_hp activity elapsed in
  app = (if (hp <? max_hp) && (0 <? amount) then Some (restore Stat.Hp amount) else None) /\
  remainder (hp_accumulator state') =
    (if (hp <? max_hp) && (amount <? max_hp - hp) then total mod secs 3 else 0) /\
  0 <= remainder (hp_accumulator state') < secs 3.
Proof.
  intros Hh Hm Hd He Hr. cbv zeta. unfold tick_player_passive_hp_recovery, accrue_passive_hp.
  assert (sat_i32 (max_hp - hp) = max_hp - hp) as -> by (unfold sat_i32; apply clampc_id; unfold_widths; lia).
  destruct (Z.leb_spec (max_hp - hp) 0), (Z.ltb_spec hp max_hp); try lia; [done |]. cbn [andb].
  destruct (passive_hp_rate_exact max_hp activity Hm) as [E R]. rewrite E in R |- *.
  cbn [rate_amount rate_per] in *. set (rate := 15 + _ / _) in *.
  pose proof (accrue_passive_exact (hp_accumulator state) rate (secs 3) (max_hp - hp) elapsed R
    ltac:(done) He Hr ltac:(lia)) as HA. cbv zeta in HA.
  destruct (accrue _ _ elapsed) as [acc1 accrued]. destruct HA as (H1 & H2 & H3 & H4).
  pose proof (Z.mod_pos_bound (remainder (hp_accumulator state) + rate * elapsed) (secs 3) ltac:(done)) as Hb.
  rewrite H3. set (due := (_ + _) / secs 3) in *.
  destruct (Z.leb_spec due 0); cbn [hp_accumulator fmap option_fmap option_map remainder reset].
  - destruct (Z.ltb_spec 0 (Z.min due (max_hp - hp))), (Z.ltb_spec (Z.min due (max_hp - hp)) (max_hp - hp)); try lia.
    by rewrite H4.
  - rewrite H2. destruct (Z.ltb_spec 0 (Z.min due (max_hp - hp))); [| lia].
    destruct (Z.leb_spec (max_hp - hp) (Z.min due (max_hp - hp))),
      (Z.ltb_spec (Z.min due (max_hp - hp)) (max_hp - hp)); try lia; [done |]. by rewrite H4.
Qed.

(** Passive spell-point recovery: the same accrual at the rate the profile,
    the activity and full hit points select, never past the maximum. *)
Theorem passive_sp_recovery_spec state hp max_hp sp max_sp activity profile elapsed :
  is_i32 sp -> 0 <= max_sp <= i32_max -> max_sp - sp <= i32_max -> is_duration elapsed ->
  0 <= remainder (sp_accumulator state) < secs 3 ->
  let '(base, share) := sp_rate_parts hp max_hp activity profile in
  let total := remainder (sp_accumulator state) + (base + max_sp * share / 10000) * elapsed in
  let amount := Z.min (total / secs 3) (max_sp - sp) in
  let '(state', app) :=
    tick_player_passive_sp_recovery state hp max_hp sp max_sp activity profile elapsed in
  app = (if (sp <? max_sp) && (0 <? amount) then Some (restore Stat.Sp amount) else None) /\
  remainder (sp_accumulator state') =
    (if (sp <? max_sp) && (amount <? max_sp - sp) then total mod secs 3 else 0) /\
  0 <= remainder (sp_accumulator state') < secs 3.
Proof.
  intros Hh Hm Hd He Hr.
  pose proof (passive_sp_rate_exact hp max_hp max_sp activity profile Hm) as HR.
  destruct (sp_rate_parts hp max_hp activity profile) as [base share]. destruct HR as [E R].
  cbv zeta. unfold tick_player_passive_sp_recovery, accrue_passive_sp.
  assert (sat_i32 (max_sp - sp) = max_sp - sp) as -> by (unfold sat_i32; apply clampc_id; unfold_widths; lia).
  destruct (Z.leb_spec (max_sp - sp) 0), (Z.ltb_spec sp max_sp); try lia; [done |]. cbn [andb].
  rewrite E. cbn [rate_amount rate_per] in *. set (rate := base + _ / _) in *.
  pose proof (accrue_passive_exact (sp_accumulator state) rate (secs 3) (max_sp - sp) elapsed R
    ltac:(done) He Hr ltac:(lia)) as HA. cbv zeta in HA.
  destruct (accrue _ _ elapsed) as [acc1 accrued]. destruct HA as (H1 & H2 & H3 & H4).
  pose proof (Z.mod_pos_bound (remainder (sp_accumulator state) + rate * elapsed) (secs 3) ltac:(done)) as Hb.
  rewrite H3. set (due := (_ + _) / secs 3) in *.
  destruct (Z.leb_spec due 0); cbn [sp_accumulator fmap option_fmap option_map remainder reset].
  - destruct (Z.ltb_spec 0 (Z.min due (max_sp - sp))), (Z.ltb_spec (Z.min due (max_sp - sp)) (max_sp - sp)); try lia.
    by rewrite H4.
  - rewrite H2. destruct (Z.ltb_spec 0 (Z.min due (max_sp - sp))); [| lia].
    destruct (Z.leb_spec (max_sp - sp) (Z.min due (max_sp - sp))),
      (Z.ltb_spec (Z.min due (max_sp - sp)) (max_sp - sp)); try lia; [done |]. by rewrite H4.
Qed.

(** ** Stamina *)

Record StaminaTick : Type := {
  tk_current : Z; tk_max : Z; tk_activity : PlayerStatActivity; tk_mode : MovementAnimation;
  tk_elapsed : Z }.

(** A sequence of ticks and the timer commands they emit. *)
Fixpoint run_stamina (state : PlayerStaminaState) (ticks : list StaminaTick) :
    PlayerStaminaState * list PlayerStaminaTimerCommand :=
  match ticks with
  | [] => (state, [])
  | t :: ticks =>
      let '(state, effect) :=
        tick_player_stamina state (tk_current t) (tk_max t) (tk_activity t) (tk_mode t) (tk_elapsed t) in
      let '(state, log) := run_stamina state ticks in
      (state, (match se_timer effect with Some c => [c] | None => [] end) ++ log)
  end.

(** A log of timer commands, the timer being on or off before it: the commands
    alternate, and the state of the timer after it. *)
Fixpoint timer_after (on : bool) (log : list PlayerStaminaTimerCommand) : option bool :=
  match log with
  | [] => Some on
  | Timer_Start rate :: log => if negb on && (rate =? STAMINA_CONSUME_PER_SECOND) then timer_after true log else None
  | Timer_Stop :: log => if on then timer_after false log else None
  end.

Definition stamina_inv (state : PlayerStaminaState) : Prop :=
  consuming state = false -> remainder (stamina_accumulator state) = 0.

Lemma timer_after_app on l1 l2 :
  timer_after on (l1 ++ l2) = on ← timer_after on l1; timer_after on l2.
Proof.
  revert on. induction l1 as [| [r |] l1 IH]; intros on; cbn; [done | |].
  - destruct (_ && _); [apply IH | done].
  - destruct on; [apply IH | done].
Qed.

Lemma tick_stamina_timer state current max activity mode elapsed :
  let '(state', effect) := tick_player_stamina state current max activity mode elapsed in
  timer_after (consuming state) (match se_timer effect with Some c => [c] | None => [] end) =
    Some (consuming state') /\ stamina_inv state'.
Proof.
  unfold tick_player_stamina, tick_stamina, stamina_inv.
  destruct (should_consume _).
  - unfold consume_running_stamina. destruct (accrue _ _ elapsed) as [acc n].
    destruct (sat_i32 _ <=? 0); cbn.
    + by destruct (consuming state).
    + unfold start_stamina_consumption. cbn. by destruct (consuming state) eqn:E.
  - unfold stop_stamina_consumption. cbn. by destruct (consuming state).
Qed.

(** The stamina timer commands sent to a client form a valid protocol: over
    any sequence of ticks from a fresh state, starts and stops strictly
    alternate, beginning with a start at the consumption rate; the client's timer
    runs exactly while the server is consuming; and no fraction of a point is
    carried over from one run to the next. *)
Theorem stamina_timers_alternate ticks :
  let '(state, log) := run_stamina PlayerStaminaState_default ticks in
  timer_after false log = Some (consuming state) /\
  (consuming state = false -> remainder (stamina_accumulator state) = 0).
Proof.
  assert (forall ticks state, stamina_inv state ->
    let '(state', log) := run_stamina state ticks in
    timer_after (consuming state) log = Some (consuming state') /\ stamina_inv state') as H.
  { clear ticks. induction ticks as [| t ticks IH]; intros state Hi; [done |]. cbn [run_stamina].
    pose proof (tick_stamina_timer state (tk_current t) (tk_max t) (tk_activity t) (tk_mode t) (tk_elapsed t)) as Ht.
    destruct (tick_player_stamina _ _ _ _ _ _) as [s1 effect]. destruct Ht as [Ht Hi1].
    specialize (IH s1 Hi1). destruct (run_stamina s1 ticks) as [s2 log]. destruct IH as [IH Hi2].
    split; [| done]. rewrite timer_after_app, Ht. exact IH. }
  exact (H ticks PlayerStaminaState_default ltac:(done)).
Qed.

(** Running in combat: moving, not walking, with stamina left, and an attack in
    the last twenty seconds. *)
Definition combat_run (current : Z) (activity : PlayerStatActivity) (mode : MovementAnimation) : bool :=
  match movement activity with Activity_Moving => true | _ => false end
  && negb (bool_decide (mode = Walk)) && (0 <? current) && happened_recently (since_attack activity) (secs 20).

(** Resting: still for three seconds, or on the move but walking (or out of
    stamina) for more than five. *)
Definition resting (current : Z) (activity : PlayerStatActivity) (mode : MovementAnimation) : bool :=
  match movement activity with
  | Activity_Moving =>
      (bool_decide (mode = Walk) || (current <=? 0)) &&
      match since_walk_started activity with None => true | Some since => secs 5 <? since end
  | Activity_Stopped since => secs 3 <=? since
  | Activity_Idle => true
  end.

(** A stamina tick either consumes, restores or does nothing.  Running in
    combat spends [floor] of 25 points per second since the last tick, never more
    than is left; reaching zero forces the player to walk.  Resting below the
    maximum restores the whole bar at once, and restores the preferred movement
    if the bar was empty.  Otherwise no stamina moves. *)
Theorem tick_player_stamina_spec state current max activity mode elapsed :
  is_i32 current -> is_i32 max -> 0 <= elapsed <= secs 86400 ->
  0 <= remainder (stamina_accumulator state) < secs 1 ->
  let due := (remainder (stamina_accumulator state) + 25 * elapsed) / secs 1 in
  let '(state', effect) := tick_player_stamina state current max activity mode elapsed in
  (if combat_run current activity mode then
     se_application effect =
       (if 0 <? due then Some (spend Stat.Stamina (Z.min due current)) else None) /\
     se_movement_override effect = (if current <=? due then Some ForceWalk else None) /\
     consuming state' = (due <? current)
   else if (current <? max) && resting current activity mode then
     se_application effect = Some (restore Stat.Stamina max) /\
     se_movement_override effect = (if current <=? 0 then Some RevertToPreferred else None) /\
     consuming state' = false
   else
     se_application effect = None /\ se_movement_override effect = None /\ consuming state' = false) /\
  0 <= remainder (stamina_accumulator state') < secs 1.
Proof.
  intros Hc Hm He Hr. cbv zeta. unfold tick_player_stamina, tick_stamina.
  assert (should_consume (LegacyStaminaSnapshot_new current max activity mode) =
    combat_run current activity mode) as ->.
  { unfold should_consume, LegacyStaminaSnapshot_new, LegacyStaminaMovement_new, combat_run,
      LegacyStaminaMoveMode_new. cbn [inside_combat_window snap_movement]. rewrite (Z.ltb_antisym current 0).
    destruct (movement activity), (bool_decide (mode = Walk)), (current <=? 0),
      (happened_recently (since_attack activity) (secs 20)); done. }
  destruct (combat_run current activity mode) eqn:C.
  - assert (0 < current) as Hpos by (unfold combat_run in C; zbool; lia).
    unfold consume_running_stamina. rewrite accrue_exact; cbn [rate_amount rate_per];
      [| done | done | unfold is_duration, duration_max, secs in *; unfold_widths; lia | done | ].
    2: { assert (i128_max = 170141183460469231731687303715884105727) as -> by reflexivity.
         change STAMINA_CONSUME_PER_SECOND with 25. unfold secs in *. lia. }
    change STAMINA_CONSUME_PER_SECOND with 25. cbn [snap_current LegacyStaminaSnapshot_new].
    set (tot := remainder (stamina_accumulator state) + 25 * elapsed) in *.
    pose proof (Z.mod_pos_bound tot (secs 1) ltac:(done)) as Hb.
    assert (0 <= tot / secs 1) as Hd by (apply Z.div_pos; [unfold tot; lia | done]).
    assert (tot / secs 1 <= i64_max) as Hd2.
    { apply Z.div_le_upper_bound; [done |]. unfold tot, secs in *. unfold_widths. lia. }
    assert (Z.min (Z.min (Z.max (Z.min (tot / secs 1) i64_max) 0) current) i32_max
      = Z.min (tot / secs 1) current) as -> by (unfold_widths; lia).
    set (due := tot / secs 1) in *.
    assert (sat_i32 (current - Z.min due current) = current - Z.min due current) as ->
      by (unfold sat_i32; apply clampc_id; unfold_widths; lia).
    destruct (Z.leb_spec (current - Z.min due current) 0), (Z.leb_spec current due),
      (Z.ltb_spec due current), (Z.ltb_spec 0 due), (Z.ltb_spec 0 (Z.min due current)); try lia;
      unfold start_stamina_consumption; cbn; destruct (consuming state) eqn:Ec; cbn; done.
  - unfold stop_stamina_consumption, snapshot_restore, LegacyStaminaSnapshot_new, resting.
    cbn [snap_max snap_current snap_movement]. unfold is_depleted, LegacyStaminaMovement_new,
      LegacyStaminaMoveMode_new, LegacyStaminaMovement_restore. cbn [snap_current].
    rewrite (Z.ltb_antisym max current).
    destruct (max <=? current); cbn [negb andb consuming].
    + destruct (consuming state); cbn; done.
    + destruct (movement activity) as [| since |]; cbn.
      * destruct (bool_decide (mode = Walk)), (current <=? 0), (since_walk_started activity) as [w |];
          cbn; try destruct (secs 5 <? w); destruct (consuming state); cbn; done.
      * destruct (secs 3 <=? since), (current <=? 0), (consuming state); cbn; done.
      * destruct (current <=? 0), (consuming state); cbn; done.
Qed.

(** ** Concrete instances *)

Definition sample_activity : PlayerStatActivity :=
  {| movement := Activity_Moving; since_walk_started := None; since_attack := Some (secs 4) |}.

Lemma accrue_no_drift_witness :
  let rate := {| rate_amount := 25; rate_per := secs 1 |} in
  (accrue_all RateAccumulator_default rate [30000000; 30000000; 15000000; 1000000]).2 = 1.
Proof.
  cbv zeta.
  pose proof (accrue_no_drift RateAccumulator_default {| rate_amount := 25; rate_per := secs 1 |}
    [30000000; 30000000; 15000000; 1000000] ltac:(done) ltac:(done) ltac:(done) ltac:(done)
    ltac:(repeat constructor; done) ltac:(done)) as H.
  destruct (accrue_all _ _ _) as [acc n]. exact (proj1 H).
Defined.

Lemma passive_hp_recovery_spec_witness :
  (tick_player_passive_hp_recovery {| hp_accumulator := RateAccumulator_default |} 40 100 sample_activity (secs 3)).2
    = Some (restore Stat.Hp 16).
Proof.
  pose proof (passive_hp_recovery_spec {| hp_accumulator := RateAccumulator_default |} 40 100 sample_activity (secs 3)
    ltac:(done) ltac:(done) ltac:(done) ltac:(done) ltac:(done)) as H. cbv zeta in H.
  destruct (tick_player_passive_hp_recovery _ _ _ _ _) as [s app]. exact (proj1 H).
Defined.

Lemma passive_sp_recovery_spec_witness :
  (tick_player_passive_sp_recovery {| sp_accumulator := RateAccumulator_default |} 40 100 10 200
     sample_activity Caster (secs 3)).2 = Some (restore Stat.Sp 7).
Proof.
  pose proof (passive_sp_recovery_spec {| sp_accumulator := RateAccumulator_default |} 40 100 10 200
    sample_activity Caster (secs 3) ltac:(done) ltac:(done) ltac:(done) ltac:(done) ltac:(done)) as H.
  cbv zeta in H.
  change (sp_rate_parts 40 100 sample_activity Caster) with (3, 200) in H. cbv beta iota in H.
  destruct (tick_player_passive_sp_recovery _ _ _ _ _ _ _ _) as [s app]. exact (proj1 H).
Defined.

Lemma tick_player_stamina_spec_witness :
  se_application (tick_player_stamina PlayerStaminaState_default 30 100 sample_activity Run (secs 1)).2 =
    Some (spend Stat.Stamina 25).
Proof.
  pose proof (tick_player_stamina_spec PlayerStaminaState_default 30 100 sample_activity Run (secs 1)
    ltac:(done) ltac:(done) ltac:(done) ltac:(done)) as H. cbv zeta in H.
  destruct (tick_player_stamina _ _ _ _ _ _) as [s effect]. exact (proj1 (proj1 H)).
Defined.
