(* ===== verification/Float.v ===== *)
(** IEEE 754 arithmetic of [f32] and [f64], computed by the Standard Library's
    executable [SpecFloat] (round to nearest, ties to even), with the casts,
    [max], [min], [ceil] and [floor] of Rust. *)
From S2P Require Import Prelude.
From Stdlib Require Export SpecFloat.

Class FloatFormat : Type := { ff_prec : Z; ff_emax : Z }.

Definition binary32 : FloatFormat := {| ff_prec := 24; ff_emax := 128 |}.
Definition binary64 : FloatFormat := {| ff_prec := 53; ff_emax := 1024 |}.

Section Ops.
Context (F : FloatFormat).
Implicit Types x y : spec_float.

Definition f_add x y := SFadd ff_prec ff_emax x y.
Definition f_sub x y := SFsub ff_prec ff_emax x y.
Definition f_mul x y := SFmul ff_prec ff_emax x y.
Definition f_div x y := SFdiv ff_prec ff_emax x y.
Definition f_sqrt x := SFsqrt ff_prec ff_emax x.

(** [z as f32]: the nearest float. *)
Definition f_of_int (z : Z) : spec_float := binary_normalize ff_prec ff_emax z 0 false.

(** The literal [n / d] for exactly representable [n] and [d]. *)
Definition f_lit (n d : Z) : spec_float := f_div (f_of_int n) (f_of_int d).

Definition f_is_finite x : bool := match x with S754_zero _ | S754_finite _ _ _ => true | _ => false end.

Definition f_is_nan x : bool := match x with S754_nan => true | _ => false end.

(** [max] and [min] return the other operand when one is NaN. *)
Definition f_max x y : spec_float :=
  if f_is_nan x then y else if f_is_nan y then x else if SFltb x y then y else x.
Definition f_min x y : spec_float :=
  if f_is_nan x then y else if f_is_nan y then x else if SFltb y x then y else x.

Definition f_ceil x : spec_float :=
  match x with
  | S754_finite s m e =>
      if 0 <=? e then x
      else
        let q := Z.pos m / 2 ^ (- e) in
        let r := Z.pos m mod 2 ^ (- e) in
        if s then (if q =? 0 then S754_zero true else binary_normalize ff_prec ff_emax (- q) 0 true)
        else binary_normalize ff_prec ff_emax (if r =? 0 then q else q + 1) 0 false
  | _ => x
  end.

Definition f_floor x : spec_float :=
  match x with
  | S754_finite s m e =>
      if 0 <=? e then x
      else
        let q := Z.pos m / 2 ^ (- e) in
        let r := Z.pos m mod 2 ^ (- e) in
        if s then binary_normalize ff_prec ff_emax (- (if r =? 0 then q else q + 1)) 0 true
        else if q =? 0 then S754_zero false else binary_normalize ff_prec ff_emax q 0 false
  | _ => x
  end.
End Ops.

(** [x as iN]: truncation toward zero, saturating, with NaN sent to zero. *)
Definition f_trunc (s : bool) (m : positive) (e : Z) : Z :=
  let a := if 0 <=? e then Z.pos m * 2 ^ e else Z.pos m / 2 ^ (- e) in
  if s then - a else a.

Definition f_to_int (lo hi : Z) (x : spec_float) : Z :=
  match x with
  | S754_nan => 0
  | S754_zero _ => 0
  | S754_infinity s => if s then lo else hi
  | S754_finite s m e => clampc (f_trunc s m e) lo hi
  end.

Definition f_to_i32 : spec_float -> Z := f_to_int i32_min i32_max.
Definition f_to_u32 : spec_float -> Z := f_to_int 0 u32_max.

Lemma f_to_int_range lo hi x : lo <= 0 <= hi -> lo <= f_to_int lo hi x <= hi.
Proof.
  intros H. unfold f_to_int. destruct x as [| [|] | |]; try lia. apply clampc_range. lia.
Qed.

Lemma f_to_i32_range x : is_i32 (f_to_i32 x).
Proof. apply f_to_int_range. unfold_widths. lia. Qed.

Lemma f_to_u32_range x : is_u32 (f_to_u32 x).
Proof. apply f_to_int_range. unfold_widths. lia. Qed.

#[export] Hint Resolve f_to_i32_range f_to_u32_range : rust.

(** Facts on the executable IEEE 754 operations: rounding a non-zero value of a
    representable scale never gives zero, so the difference of two finite floats
    is zero only when they are equal.  Stated for any format, used for [f32]. *)
(** ** Digits *)
Lemma digits_pos_bounds m :
  2 ^ (Z.pos (digits2_pos m) - 1) <= Z.pos m < 2 ^ Z.pos (digits2_pos m).
Proof.
  induction m as [m IH | m IH |]; [| | done]; cbn [digits2_pos]; rewrite Pos2Z.inj_succ;
    replace (Z.succ (Z.pos (digits2_pos m)) - 1) with (Z.succ (Z.pos (digits2_pos m) - 1)) by lia;
    rewrite !Z.pow_succ_r by lia; revert IH; generalize (2 ^ (Z.pos (digits2_pos m) - 1)), (2 ^ Z.pos (digits2_pos m));
    intros a b IH; [rewrite Pos2Z.inj_xI | rewrite Pos2Z.inj_xO]; lia.
Qed.

Lemma digits_pos_unique m d : 0 < d -> 2 ^ (d - 1) <= Z.pos m < 2 ^ d -> Z.pos (digits2_pos m) = d.
Proof.
  intros Hd [L U]. pose proof (digits_pos_bounds m) as [L' U'].
  destruct (Z.lt_trichotomy (Z.pos (digits2_pos m)) d) as [Hlt | [| Hgt]]; [| done |].
  - assert (2 ^ Z.pos (digits2_pos m) <= 2 ^ (d - 1)) by (apply Z.pow_le_mono_r; lia). lia.
  - assert (2 ^ d <= 2 ^ (Z.pos (digits2_pos m) - 1)) by (apply Z.pow_le_mono_r; lia). lia.
Qed.

(** ** Shifts *)
Lemma shift_pos_value m d : Z.pos (Pos.iter xO m d) = Z.pos m * 2 ^ Z.pos d.
Proof.
  induction d as [| d IH] using Pos.peano_ind; [cbn; lia |].
  rewrite Pos.iter_succ, Pos2Z.inj_xO, IH, Pos2Z.inj_succ, Z.pow_succ_r by lia. lia.
Qed.

Lemma shl_align_value m e e' : e' <= e -> Z.pos (fst (shl_align m e e')) = Z.pos m * 2 ^ (e - e').
Proof.
  intros H. unfold shl_align. destruct (e' - e) eqn:E; cbn [fst].
  - replace (e - e') with 0 by lia. lia.
  - lia.
  - rewrite shift_pos_value. replace (e - e') with (Z.pos p) by lia. done.
Qed.

Lemma shl_align_exp m e e' : snd (shl_align m e e') = Z.min e e'.
Proof. unfold shl_align. destruct (e' - e) eqn:E; cbn [snd]; lia. Qed.

Lemma shr_1_value r : 0 <= shr_m r -> shr_m (shr_1 r) = shr_m r / 2.
Proof.
  destruct r as [m r s]. cbn [shr_m]. intros H. destruct m as [| [p | p |] | p]; cbn [shr_1 shr_m]; [done | | | done | lia].
  - apply (Z.div_unique _ 2 _ 1); lia.
  - apply (Z.div_unique _ 2 _ 0); lia.
Qed.

Lemma iter_shr_value p r : 0 <= shr_m r -> shr_m (iter_pos shr_1 p r) = shr_m r / 2 ^ Z.pos p.
Proof.
  assert (forall q : positive, 0 < 2 ^ Z.pos q) as Hpow by (intros q; apply Z.pow_pos_nonneg; lia).
  assert (forall q : positive, 2 ^ Z.pos q * 2 ^ Z.pos q = 2 ^ Z.pos q~0) as Hdouble.
  { intros q. rewrite <- Z.pow_add_r by lia. f_equal. lia. }
  revert r. induction p as [p IH | p IH |]; intros r H; cbn [iter_pos]; [| | by rewrite shr_1_value].
  - assert (0 <= shr_m (shr_1 r)) as H1 by (rewrite shr_1_value by done; apply Z.div_pos; lia).
    assert (0 <= shr_m (iter_pos shr_1 p (shr_1 r))) as H2 by (rewrite IH by done; apply Z.div_pos; auto with lia).
    rewrite (IH _ H2), (IH _ H1), shr_1_value by done. pose proof (Hpow p).
    rewrite !Z.div_div by lia. f_equal. replace (Z.pos p~1) with (1 + Z.pos p~0) by lia.
    rewrite Z.pow_add_r, <- Hdouble by lia. lia.
  - assert (0 <= shr_m (iter_pos shr_1 p r)) as H2 by (rewrite IH by done; apply Z.div_pos; auto with lia).
    rewrite (IH _ H2), (IH _ H). pose proof (Hpow p). rewrite Z.div_div by lia. by rewrite Hdouble.
Qed.

(** ** Rounding *)
Section Rounding.
Context (F : FloatFormat).
Hypothesis Hprec : 0 < ff_prec.
#[local] Abbreviation prec := ff_prec.
#[local] Abbreviation emax := ff_emax.

Lemma shr_record_of_loc_m m l : shr_m (shr_record_of_loc m l) = m.
Proof. by destruct l as [| []]. Qed.

Lemma shr_fexp_pos m e l : 0 < m -> emin prec emax <= e ->
  0 < shr_m (fst (shr_fexp prec emax m e l)) /\ emin prec emax <= snd (shr_fexp prec emax m e l).
Proof.
  intros Hm He. destruct m as [| m | m]; try lia. unfold shr_fexp, shr, fexp. cbn [Zdigits2].
  destruct (Z.max _ _ - e) as [| n | n] eqn:E; cbn [fst snd]; rewrite ?shr_record_of_loc_m; [lia | | lia].
  rewrite iter_shr_value, shr_record_of_loc_m by (rewrite shr_record_of_loc_m; lia). split; [| lia].
  pose proof (digits_pos_bounds m) as [L U].
  assert (Z.pos n = Z.pos (digits2_pos m) - prec) as -> by lia.
  apply Z.div_str_pos. split; [apply Z.pow_pos_nonneg; lia |].
  etrans; [| exact L]. apply Z.pow_le_mono_r; lia.
Qed.

Lemma round_nearest_ge m l : m <= round_nearest_even m l.
Proof. unfold round_nearest_even. destruct l as [| []]; try lia. destruct (Z.even m); lia. Qed.

(** A positive value at or above the smallest exponent does not vanish. *)
Lemma binary_round_nonzero s m e : emin prec emax <= e ->
  (exists m' e', binary_round prec emax s m e = S754_finite s m' e') \/ binary_round prec emax s m e = S754_infinity s.
Proof.
  intros He. unfold binary_round.
  pose proof (shl_align_exp m e (fexp prec emax (Z.pos (digits2_pos m) + e))) as Ez.
  destruct (shl_align _ _ _) as [mz ez]. cbn in Ez.
  assert (emin prec emax <= ez) as Hez by (rewrite Ez; unfold fexp; lia).
  unfold binary_round_aux.
  pose proof (shr_fexp_pos (Z.pos mz) ez loc_Exact ltac:(lia) Hez) as [P1 E1].
  destruct (shr_fexp prec emax (Z.pos mz) ez loc_Exact) as [mrs' e']. cbn [fst snd] in P1, E1.
  pose proof (round_nearest_ge (shr_m mrs') (loc_of_shr_record mrs')) as G.
  pose proof (shr_fexp_pos (round_nearest_even (shr_m mrs') (loc_of_shr_record mrs')) e' loc_Exact ltac:(lia) E1) as [P2 _].
  destruct (shr_fexp _ _ _ e' loc_Exact) as [mrs'' e'']. cbn [fst] in P2.
  destruct (shr_m mrs'') as [| m'' | m'']; try lia. destruct (e'' <=? emax - prec); [left; eauto | by right].
Qed.

(** Rounding keeps a value of one or more at one or more. *)
Lemma shr_fexp_one m e l : 0 < m -> emin prec emax <= e -> 2 ^ (- e) <= m ->
  2 ^ (- snd (shr_fexp prec emax m e l)) <= shr_m (fst (shr_fexp prec emax m e l)).
Proof.
  intros Hm He H1. pose proof (shr_fexp_pos m e l Hm He) as [P _]. revert P. destruct m as [| m | m]; try lia.
  unfold shr_fexp, shr. cbn [Zdigits2]. destruct (fexp _ _ _ - e) as [| n | n] eqn:E; cbn [fst snd]; rewrite ?shr_record_of_loc_m; try done.
  rewrite iter_shr_value, shr_record_of_loc_m by (rewrite shr_record_of_loc_m; lia). intros P.
  destruct (decide (e + Z.pos n <= 0)) as [L | G]; [| rewrite (Z.pow_neg_r 2 (- (e + Z.pos n))) by lia; lia].
  apply Z.div_le_lower_bound; [apply Z.pow_pos_nonneg; lia |]. rewrite <- Z.pow_add_r by lia.
  by replace (Z.pos n + - (e + Z.pos n)) with (- e) by lia.
Qed.
Lemma binary_round_one m : emin prec emax <= 0 ->
  (exists m' e', binary_round prec emax false m 0 = S754_finite false m' e' /\ 2 ^ (- e') <= Z.pos m') \/
  binary_round prec emax false m 0 = S754_infinity false.
Proof.
  intros He. unfold binary_round. set (f := fexp prec emax _).
  assert (emin prec emax <= f) as Hf by (unfold f, fexp; lia).
  pose proof (shl_align_exp m 0 f) as Ez. pose proof (shl_align_value m 0 (Z.min 0 f) ltac:(lia)) as V.
  assert (shl_align m 0 f = shl_align m 0 (Z.min 0 f)) as Es.
  { unfold shl_align. destruct (Z.min_spec 0 f) as [[? ->] | [? ->]]; [| done]. destruct (f - 0) eqn:E; try lia; done. }
  rewrite <- Es in V. destruct (shl_align _ _ f) as [mz ez]. cbn [fst snd] in Ez, V. subst ez.
  assert (2 ^ (- Z.min 0 f) <= Z.pos mz) as O.
  { rewrite V. replace (0 - Z.min 0 f) with (- Z.min 0 f) by lia. pose proof (Z.pow_nonneg 2 (- Z.min 0 f)). nia. }
  assert (emin prec emax <= Z.min 0 f) as Hez by lia. unfold binary_round_aux.
  pose proof (shr_fexp_pos (Z.pos mz) (Z.min 0 f) loc_Exact ltac:(lia) Hez) as [P1 E1].
  pose proof (shr_fexp_one (Z.pos mz) (Z.min 0 f) loc_Exact ltac:(lia) Hez O) as O1.
  destruct (shr_fexp prec emax (Z.pos mz) _ loc_Exact) as [mrs' e']. cbn [fst snd] in P1, E1, O1.
  pose proof (round_nearest_ge (shr_m mrs') (loc_of_shr_record mrs')) as G.
  pose proof (shr_fexp_pos (round_nearest_even (shr_m mrs') (loc_of_shr_record mrs')) e' loc_Exact ltac:(lia) E1) as [P2 _].
  pose proof (shr_fexp_one (round_nearest_even (shr_m mrs') (loc_of_shr_record mrs')) e' loc_Exact ltac:(lia) E1 ltac:(lia)) as O2.
  destruct (shr_fexp _ _ _ e' loc_Exact) as [mrs'' e'']. cbn [fst snd] in P2, O2.
  destruct (shr_m mrs'') as [| m'' | m'']; try lia. destruct (e'' <=? emax - prec); [left; eauto | by right].
Qed.

(** ** Differences *)

(** Neither positive nor negative. *)
Definition f_no_sign (x : spec_float) : Prop := SFltb (S754_zero false) x = false /\ SFltb x (S754_zero false) = false.

Lemma no_sign_round s m e : emin prec emax <= e -> ~ f_no_sign (binary_round prec emax s m e).
Proof.
  intros He [H1 H2]. destruct (binary_round_nonzero s m e He) as [(m' & e' & E) | E]; rewrite E in H1, H2;
    destruct s; cbn in *; discriminate.
Qed.

Lemma canonical_unique m1 e1 m2 e2 :
  canonical_mantissa prec emax m1 e1 = true -> canonical_mantissa prec emax m2 e2 = true ->
  Z.pos m1 * 2 ^ (e1 - Z.min e1 e2) = Z.pos m2 * 2 ^ (e2 - Z.min e1 e2) -> m1 = m2 /\ e1 = e2.
Proof.
  unfold canonical_mantissa. rewrite !Z.eqb_eq. intros C1 C2 E.
  set (k1 := e1 - Z.min e1 e2) in *. set (k2 := e2 - Z.min e1 e2) in *.
  assert (0 <= k1 /\ 0 <= k2) as [K1 K2] by lia.
  assert (Z.pos (digits2_pos m1) + k1 = Z.pos (digits2_pos m2) + k2) as Ed.
  { pose proof (digits_pos_bounds m1) as [L1 U1]. pose proof (digits_pos_bounds m2) as [L2 U2].
    assert (forall m d k, 0 <= k -> 2 ^ (d - 1) <= Z.pos m < 2 ^ d -> 0 < d ->
      2 ^ (d + k - 1) <= Z.pos m * 2 ^ k < 2 ^ (d + k)) as Hsc.
    { intros m d k Hk B Hd. replace (d + k - 1) with (d - 1 + k) by lia. rewrite !Z.pow_add_r by lia.
      assert (0 < 2 ^ k) by (apply Z.pow_pos_nonneg; lia). nia. }
    pose proof (Hsc m1 _ k1 K1 (conj L1 U1) ltac:(lia)) as B1. pose proof (Hsc m2 _ k2 K2 (conj L2 U2) ltac:(lia)) as B2.
    rewrite <- E in B2.
    destruct (Z.lt_trichotomy (Z.pos (digits2_pos m1) + k1) (Z.pos (digits2_pos m2) + k2)) as [H | [| H]]; [| done |].
    - assert (2 ^ (Z.pos (digits2_pos m1) + k1) <= 2 ^ (Z.pos (digits2_pos m2) + k2 - 1)) by (apply Z.pow_le_mono_r; lia). lia.
    - assert (2 ^ (Z.pos (digits2_pos m2) + k2) <= 2 ^ (Z.pos (digits2_pos m1) + k1 - 1)) by (apply Z.pow_le_mono_r; lia). lia. }
  assert (e1 = e2) as Ee by (rewrite <- C1, <- C2; f_equal; lia). split; [| done].
  unfold k1, k2 in E. subst e2. rewrite Z.min_id, Z.sub_diag in E. lia.
Qed.

(** The difference of finite floats has a sign unless they are the same number. *)
Lemma f_sub_no_sign x y :
  valid_binary prec emax x = true -> valid_binary prec emax y = true -> f_is_finite x = true -> f_is_finite y = true ->
  f_no_sign (f_sub F x y) -> x = y \/ exists a b, x = S754_zero a /\ y = S754_zero b.
Proof.
  intros Vx Vy Fx Fy [H1 H2]. unfold f_sub in *.
  destruct x as [a | | | sx mx ex], y as [b | | | sy my ey]; try discriminate.
  - right. eauto.
  - destruct sy; cbn in *; discriminate.
  - destruct sx; cbn in *; discriminate.
  - left. cbn [SFsub] in H1, H2. apply andb_true_iff in Vx as [Cx _], Vy as [Cy _].
    pose proof (shl_align_value mx ex (Z.min ex ey) ltac:(lia)) as Ex.
    pose proof (shl_align_value my ey (Z.min ex ey) ltac:(lia)) as Ey.
    assert (emin prec emax <= Z.min ex ey) as He.
    { unfold canonical_mantissa, fexp in Cx, Cy. rewrite Z.eqb_eq in Cx, Cy. lia. }
    destruct (cond_Zopp sx _ - cond_Zopp sy _) as [| z | z] eqn:Ez; cbn [binary_normalize] in H1, H2.
    + assert (sx = sy) as <- by (destruct sx, sy; cbn in Ez; lia).
      destruct (canonical_unique mx ex my ey Cx Cy) as [<- <-]; [| done].
      rewrite <- Ex, <- Ey. destruct sx; cbn in Ez; lia.
    + exfalso. by apply (no_sign_round false z (Z.min ex ey) He).
    + exfalso. by apply (no_sign_round true z (Z.min ex ey) He).
Qed.
End Rounding.
