(* ===== verification/Combat.v ===== *)
(** Damage of a normal hit ([combat.rs]): the attack rating in [f32], the attack
    and defence values in wrapping [i32], and the floor under low damage. *)
From S2P Require Import Prelude Float.

Record CombatStats : Type := {
  cs_level : Z; cs_dx : Z; attack_grade : Z; defence_grade : Z }.
Record DamageRolls : Type := { weapon_or_mob_damage : Z; low_damage_fallback : Z }.

Record NormalHitInput : Type := {
  attacker : CombatStats;
  victim : CombatStats;
  rolls : DamageRolls;
  refine_bonus : Z;
  party_attacker_bonus : Z;
  attack_bonus_pct : Z;
  melee_magic_attack_bonus_pct : Z;
  defence_bonus_pct : Z;
  damage_multiplier : spec_float;
  ignore_defence : bool;
  ignore_target_rating : bool }.

Local Abbreviation f32 := binary32.

Definition unmodified (attacker victim : CombatStats) (rolls : DamageRolls) : NormalHitInput :=
  {| attacker := attacker; victim := victim; rolls := rolls;
     refine_bonus := 0; party_attacker_bonus := 0; attack_bonus_pct := 0;
     melee_magic_attack_bonus_pct := 0; defence_bonus_pct := 0;
     damage_multiplier := f_of_int f32 1; ignore_defence := false; ignore_target_rating := false |}.

Record NormalHitOutcome : Type := {
  attack_rating_per_mille : Z; attack_value : Z; defence_value : Z; damage : Z }.

Definition rating_source (dx level : Z) : Z := Z.min ((dx *% 4 +% level *% 2) /% 6) 90.

Definition attack_rating (attacker_level attacker_dx victim_dx : Z) (ignore_target_rating : bool) :
    spec_float :=
  let attack_rating_source := rating_source attacker_dx attacker_level in
  let evasion_rating_source := rating_source victim_dx attacker_level in
  let attack_rating :=
    f_div f32 (f_add f32 (f_of_int f32 attack_rating_source) (f_of_int f32 210)) (f_of_int f32 300) in
  if ignore_target_rating then attack_rating
  else
    let evasion_rating :=
      f_mul f32
        (f_div f32 (f_of_int f32 (evasion_rating_source *% 2 +% 5))
                   (f_of_int f32 (evasion_rating_source +% 95)))
        (f_lit f32 3 10) in
    f_sub f32 attack_rating evasion_rating.

Definition attack_rating_for_hit (input : NormalHitInput) : spec_float :=
  attack_rating (cs_level (attacker input)) (cs_dx (attacker input)) (cs_dx (victim input))
    (ignore_target_rating input).

Definition melee_attack_value (input : NormalHitInput) (attack_rating : spec_float) : Z :=
  let rolled_damage := Z.max (weapon_or_mob_damage (rolls input)) 0 *% 2 in
  let level_attack := cs_level (attacker input) *% 2 in
  let attack_value := attack_grade (attacker input) +% rolled_damage -% level_attack in
  let attack_value := f_to_i32 (f_mul f32 (f_of_int f32 attack_value) attack_rating) in
  let attack_value := attack_value +% level_attack in
  let attack_value := attack_value +% refine_bonus input *% 2 in
  let attack_value := attack_value +% party_attacker_bonus input in
  let attack_value :=
    (attack_value *% (100 +% attack_bonus_pct input +% melee_magic_attack_bonus_pct input)) /% 100 in
  if f_is_finite (damage_multiplier input)
  then f_to_i32 (f_mul f32 (f_of_int f32 attack_value) (damage_multiplier input))
  else attack_value.

Definition effective_defence (input : NormalHitInput) : Z :=
  if ignore_defence input then 0
  else (defence_grade (victim input) *% (100 +% defence_bonus_pct input)) /% 100.

Definition battle_damage_floor (damage low_damage_fallback : Z) : Z :=
  if damage <? 3 then clampc low_damage_fallback 1 5 else damage.

Definition normal_hit_damage (input : NormalHitInput) : NormalHitOutcome :=
  let attack_rating := attack_rating_for_hit input in
  let attack_value := melee_attack_value input attack_rating in
  let defence_value := effective_defence input in
  let raw_damage := Z.max (attack_value -% defence_value) 0 in
  let damage := battle_damage_floor raw_damage (low_damage_fallback (rolls input)) in
  {| attack_rating_per_mille := f_to_i32 (f_mul f32 attack_rating (f_of_int f32 1000));
     attack_value := attack_value; defence_value := defence_value; damage := damage |}.

(** The repository's own test values. *)
Example attack_rating_test :
  f_to_i32 (f_mul f32 (attack_rating 35 18 12 false) (f_of_int f32 1000)) = 663.
Proof. vm_compute. reflexivity. Qed.

Example normal_hit_test :
  let o := normal_hit_damage (unmodified
    {| cs_level := 10; cs_dx := 6; attack_grade := 44; defence_grade := 0 |}
    {| cs_level := 8; cs_dx := 5; attack_grade := 0; defence_grade := 18 |}
    {| weapon_or_mob_damage := 12; low_damage_fallback := 4 |}) in
  attack_value o = 52 /\ defence_value o = 18 /\ damage o = 34.
Proof. vm_compute. done. Qed.

(** ** The attack rating *)

(** The rating as a function of the two sources, per mille. *)
Definition source_rating (a : Z) : spec_float :=
  f_div f32 (f_add f32 (f_of_int f32 a) (f_of_int f32 210)) (f_of_int f32 300).
Definition source_evasion (v : Z) : spec_float :=
  f_mul f32 (f_div f32 (f_of_int f32 (v *% 2 +% 5)) (f_of_int f32 (v +% 95))) (f_lit f32 3 10).
Definition per_mille (x : spec_float) : Z := f_to_i32 (f_mul f32 x (f_of_int f32 1000)).

Definition rating_of (a v : Z) (ignore_target_rating : bool) : Z :=
  per_mille (if ignore_target_rating then source_rating a
             else f_sub f32 (source_rating a) (source_evasion v)).

(** Both sources range over 0..90, so the facts about the rating are checked on
    the table of all values. *)
Fixpoint adjacent {A} (R : A -> A -> bool) (l : list A) : bool :=
  match l with
  | x :: (y :: _) as l' => R x y && adjacent R l'
  | _ => true
  end.

Fixpoint pointwise_le (l1 l2 : list Z) : bool :=
  match l1, l2 with
  | x :: l1, y :: l2 => (x <=? y) && pointwise_le l1 l2
  | _, _ => true
  end.

Definition sources : list Z := map Z.of_nat (seq 0 91).
Definition ratings : list spec_float := map source_rating sources.
Definition evasions : list spec_float := map source_evasion sources.
Definition ignoring_row : list Z := map per_mille ratings.
Definition rating_rows : list (list Z) :=
  let es := evasions in map (fun x => map (fun e => per_mille (f_sub f32 x e)) es) ratings.

Definition rating_check (rows : list (list Z)) (row : list Z) : bool :=
  forallb (forallb (fun z => (399 <=? z) && (z <=? 984))) rows
  && forallb (adjacent (fun x y => y <=? x)) rows
  && adjacent pointwise_le rows
  && forallb (fun z => (700 <=? z) && (z <=? 1000)) row
  && adjacent Z.leb row.

Lemma rating_check_all : rating_check rating_rows ignoring_row = true.
Proof. vm_compute. reflexivity. Qed.

Lemma adjacent_lookup {A} (R : A -> A -> bool) l i x y :
  adjacent R l = true -> l !! i = Some x -> l !! S i = Some y -> R x y = true.
Proof.
  revert i. induction l as [| a l IH]; intros i H Hx Hy; [done |].
  destruct l as [| b l]; [by destruct i |]. cbn [adjacent] in H. apply andb_prop in H as [H1 H2].
  destruct i as [| i]; cbn in Hx, Hy; [congruence |]. exact (IH i H2 Hx Hy).
Qed.

Lemma pointwise_le_lookup l1 l2 i x y :
  pointwise_le l1 l2 = true -> l1 !! i = Some x -> l2 !! i = Some y -> x <= y.
Proof.
  revert l2 i. induction l1 as [| a l1 IH]; intros [| b l2] i H Hx Hy; try done.
  cbn in H. zbool. destruct i as [| i]; cbn in Hx, Hy; [congruence || (inv_some; lia) | eauto].
Qed.

Lemma forallb_lookup {A} (f : A -> bool) l i x : forallb f l = true -> l !! i = Some x -> f x = true.
Proof.
  intros H Hx. rewrite forallb_forall in H. apply H, list_elem_of_In. by apply list_elem_of_lookup_2 in Hx.
Qed.

Lemma sources_lookup a : 0 <= a <= 90 -> sources !! Z.to_nat a = Some a.
Proof.
  intros Ha. unfold sources. rewrite list_lookup_fmap, lookup_seq_lt by lia. cbn. f_equal. lia.
Qed.

(** What the check says of any table with the rows of [f] and the row of [g]. *)
Lemma rating_check_spec (rows : list (list Z)) (irow : list Z) (f : Z -> Z -> Z) (g : Z -> Z) :
  rating_check rows irow = true ->
  (forall a, 0 <= a <= 90 -> irow !! Z.to_nat a = Some (g a) /\
     exists row, rows !! Z.to_nat a = Some row /\
       forall v, 0 <= v <= 90 -> row !! Z.to_nat v = Some (f a v)) ->
  forall a v, 0 <= a <= 90 -> 0 <= v <= 90 ->
  399 <= f a v <= 984 /\ 700 <= g a <= 1000 /\
  (a < 90 -> f a v <= f (a + 1) v /\ g a <= g (a + 1)) /\
  (v < 90 -> f a (v + 1) <= f a v).
Proof.
  intros H HR a v Ha Hv. unfold rating_check in H.
  apply andb_prop in H as [H H5]. apply andb_prop in H as [H H4]. apply andb_prop in H as [H H3].
  apply andb_prop in H as [H1 H2].
  destruct (HR a Ha) as (Hi & row & Hr & Hrv). split; [| split; [| split]].
  - pose proof (forallb_lookup _ _ _ _ (forallb_lookup _ _ _ _ H1 Hr) (Hrv v Hv)) as B. cbn beta in B. zbool. lia.
  - pose proof (forallb_lookup _ _ _ _ H4 Hi) as B. cbn beta in B. zbool. lia.
  - intros La. destruct (HR (a + 1)) as (Hi' & row' & Hr' & Hrv'); [lia |].
    replace (Z.to_nat (a + 1)) with (S (Z.to_nat a)) in Hr', Hi' by lia.
    split; [| apply Z.leb_le; exact (adjacent_lookup _ _ _ _ _ H5 Hi Hi')].
    exact (pointwise_le_lookup _ _ _ _ _ (adjacent_lookup _ _ _ _ _ H3 Hr Hr') (Hrv v Hv) (Hrv' v Hv)).
  - intros Lv. pose proof (Hrv (v + 1) ltac:(lia)) as B.
    replace (Z.to_nat (v + 1)) with (S (Z.to_nat v)) in B by lia.
    apply Z.leb_le. exact (adjacent_lookup _ _ _ _ _ (forallb_lookup _ _ _ _ H2 Hr) (Hrv v Hv) B).
Qed.

Lemma rating_rows_lookup a : 0 <= a <= 90 ->
  ignoring_row !! Z.to_nat a = Some (rating_of a 0 true) /\
  exists row, rating_rows !! Z.to_nat a = Some row /\
    forall v, 0 <= v <= 90 -> row !! Z.to_nat v = Some (rating_of a v false).
Proof.
  intros Ha. unfold rating_rows, ignoring_row, ratings. cbv zeta. split.
  - rewrite !list_lookup_fmap, sources_lookup by done. reflexivity.
  - eexists. split; [rewrite !list_lookup_fmap, sources_lookup by done; reflexivity |].
    intros v Hv. unfold evasions. rewrite !list_lookup_fmap, sources_lookup by done. reflexivity.
Qed.

Lemma rating_table a v :
  0 <= a <= 90 -> 0 <= v <= 90 ->
  399 <= rating_of a v false <= 984 /\ 700 <= rating_of a v true <= 1000 /\
  (a < 90 -> rating_of a v false <= rating_of (a + 1) v false /\ rating_of a v true <= rating_of (a + 1) v true) /\
  (v < 90 -> rating_of a (v + 1) false <= rating_of a v false).
Proof.
  exact (rating_check_spec rating_rows ignoring_row (fun a v => rating_of a v false) (fun a => rating_of a 0 true)
    rating_check_all rating_rows_lookup a v).
Qed.

Lemma rating_of_mono_a a1 a2 v ign :
  0 <= a1 <= a2 -> a2 <= 90 -> 0 <= v <= 90 -> rating_of a1 v ign <= rating_of a2 v ign.
Proof.
  intros H1 H2 Hv. replace a2 with (a1 + Z.of_nat (Z.to_nat (a2 - a1))) in * by lia.
  generalize dependent (Z.to_nat (a2 - a1)). intros n. clear a2. induction n as [| n IH]; intros H1 H2.
  - rewrite Z.add_0_r. lia.
  - transitivity (rating_of (a1 + Z.of_nat n) v ign); [apply IH; lia |].
    replace (a1 + Z.of_nat (S n)) with (a1 + Z.of_nat n + 1) by lia.
    destruct (rating_table (a1 + Z.of_nat n) v) as (_ & _ & Hm & _); [lia | lia |].
    destruct ign; apply Hm; lia.
Qed.

Lemma rating_of_anti_v a v1 v2 :
  0 <= a <= 90 -> 0 <= v1 <= v2 -> v2 <= 90 -> rating_of a v2 false <= rating_of a v1 false.
Proof.
  intros Ha H1 H2. replace v2 with (v1 + Z.of_nat (Z.to_nat (v2 - v1))) in * by lia.
  generalize dependent (Z.to_nat (v2 - v1)). intros n. clear v2. induction n as [| n IH]; intros H1 H2.
  - rewrite Z.add_0_r. lia.
  - transitivity (rating_of a (v1 + Z.of_nat n) false); [| apply IH; lia].
    replace (v1 + Z.of_nat (S n)) with (v1 + Z.of_nat n + 1) by lia.
    destruct (rating_table a (v1 + Z.of_nat n)) as (_ & _ & _ & Hm); [lia | lia |]. apply Hm. lia.
Qed.

(** Levels and dexterities small enough for the [i32] sums, as game data are. *)
Definition small (z : Z) : Prop := 0 <= z <= 300000000.

Lemma rating_source_exact dx level :
  small dx -> small level -> rating_source dx level = Z.min ((dx * 4 + level * 2) / 6) 90.
Proof.
  unfold small. intros H1 H2. unfold rating_source.
  rewrite !mul32_id, add32_id, Z.quot_div_nonneg by (unfold_widths; lia). done.
Qed.

Lemma rating_source_range dx level : small dx -> small level -> 0 <= rating_source dx level <= 90.
Proof.
  intros H1 H2. rewrite rating_source_exact by done. unfold small in *.
  assert (0 <= (dx * 4 + level * 2) / 6) by (apply Z.div_pos; lia). lia.
Qed.

Lemma rating_source_mono dx1 dx2 level :
  small dx1 -> small dx2 -> small level -> dx1 <= dx2 -> rating_source dx1 level <= rating_source dx2 level.
Proof.
  intros H1 H2 H3 Hle. rewrite !rating_source_exact by done.
  assert ((dx1 * 4 + level * 2) / 6 <= (dx2 * 4 + level * 2) / 6) by (apply Z.div_le_mono; lia). lia.
Qed.

Lemma per_mille_eq level dx vdx ign :
  f_to_i32 (f_mul f32 (attack_rating level dx vdx ign) (f_of_int f32 1000)) =
  rating_of (rating_source dx level) (rating_source vdx level) ign.
Proof. unfold attack_rating, rating_of, per_mille, source_rating, source_evasion. destruct ign; reflexivity. Qed.

(** The reported rating of a hit between the given dexterities. *)
Definition hit_rating (input : NormalHitInput) : Z := attack_rating_per_mille (normal_hit_damage input).

(** The attack rating is a sane probability-like factor.  With non-negative
    levels and dexterities (small enough for the i32 sums), the single-precision
    rating of a hit is between 399 and 984 per mille, or between 700 and 1000
    when the target's rating is ignored; it never falls as the attacker's
    dexterity rises and never rises with the victim's. *)
Theorem attack_rating_monotone i1 i2 :
  small (cs_level (attacker i1)) -> small (cs_dx (attacker i1)) -> small (cs_dx (victim i1)) ->
  small (cs_dx (attacker i2)) -> small (cs_dx (victim i2)) ->
  cs_level (attacker i2) = cs_level (attacker i1) -> ignore_target_rating i2 = ignore_target_rating i1 ->
  (if ignore_target_rating i1 then 700 <= hit_rating i1 <= 1000 else 399 <= hit_rating i1 <= 984) /\
  (cs_dx (attacker i1) <= cs_dx (attacker i2) -> cs_dx (victim i2) <= cs_dx (victim i1) ->
   hit_rating i1 <= hit_rating i2).
Proof.
  intros Hl Ha Hv Ha' Hv' El Ei. unfold hit_rating, normal_hit_damage, attack_rating_for_hit.
  cbn [attack_rating_per_mille]. rewrite !per_mille_eq, El, Ei.
  pose proof (rating_source_range _ _ Ha Hl) as R1. pose proof (rating_source_range _ _ Hv Hl) as R2.
  pose proof (rating_source_range _ _ Ha' Hl) as R3. pose proof (rating_source_range _ _ Hv' Hl) as R4.
  split.
  - destruct (rating_table _ _ R1 R2) as (T1 & T2 & _). by destruct (ignore_target_rating i1).
  - intros L1 L2. pose proof (rating_source_mono _ _ _ Ha Ha' Hl L1) as M1.
    pose proof (rating_source_mono _ _ _ Hv' Hv Hl L2) as M2.
    etrans; [apply (rating_of_mono_a _ _ _ _ (conj (proj1 R1) M1)); lia |].
    destruct (ignore_target_rating i1); [reflexivity |]. apply rating_of_anti_v; lia.
Qed.

(** Every normal hit does damage, and only a weak one is random: the damage
    is the wrapping difference of the attack and defence values when that is at
    least 3, and otherwise the low-damage roll clamped to 1..5; the defence is 0
    when ignored; and all outputs are [i32]s. *)
Theorem normal_hit_damage_spec input :
  is_i32 (defence_grade (victim input)) ->
  let o := normal_hit_damage input in
  let raw := attack_value o -% defence_value o in
  1 <= damage o <= i32_max /\
  (3 <= raw -> damage o = raw) /\
  (raw < 3 -> damage o = clampc (low_damage_fallback (rolls input)) 1 5) /\
  (ignore_defence input = true -> defence_value o = 0) /\
  is_i32 (attack_value o) /\ is_i32 (defence_value o) /\ is_i32 (attack_rating_per_mille o).
Proof.
  intros Hd. cbv zeta. unfold normal_hit_damage. cbn [damage attack_value defence_value attack_rating_per_mille].
  assert (is_i32 (effective_defence input)) as H1.
  { unfold effective_defence. destruct (ignore_defence input); [done |]. apply quot32_range; auto with rust. lia. }
  assert (is_i32 (melee_attack_value input (attack_rating_for_hit input))) as H2.
  { unfold melee_attack_value. cbv zeta. destruct (f_is_finite _); [auto with rust |].
    apply quot32_range; auto with rust. lia. }
  set (av := melee_attack_value _ _) in *. set (dv := effective_defence _) in *.
  pose proof (sub32_range av dv) as H3. unfold battle_damage_floor.
  split; [| split; [| split; [| split; [| split; [| split]]]]]; try done.
  - unfold clampc. unfold_widths. case_bools; zbool; lia.
  - intros. case_bools; zbool; lia.
  - intros. case_bools; zbool; lia.
  - intros E. unfold dv, effective_defence. by rewrite E.
  - apply f_to_i32_range.
Qed.

(** ** Concrete instances *)

Definition sample_hit (dx : Z) : NormalHitInput :=
  unmodified {| cs_level := 35; cs_dx := dx; attack_grade := 120; defence_grade := 0 |}
    {| cs_level := 30; cs_dx := 12; attack_grade := 0; defence_grade := 48 |}
    {| weapon_or_mob_damage := 20; low_damage_fallback := 4 |}.

Lemma attack_rating_monotone_witness :
  399 <= hit_rating (sample_hit 18) <= 984 /\ hit_rating (sample_hit 18) <= hit_rating (sample_hit 40).
Proof.
  destruct (attack_rating_monotone (sample_hit 18) (sample_hit 40)) as [H1 H2]; try (unfold small; cbn; lia); try reflexivity.
  split; [exact H1 | apply H2; cbn; lia].
Defined.

Lemma normal_hit_damage_spec_witness : 1 <= damage (normal_hit_damage (sample_hit 18)) <= i32_max.
Proof. apply (normal_hit_damage_spec (sample_hit 18)). by vm_compute. Defined.
