(* ===== verification/CombatTiming.v ===== *)
(** Timing of mob attacks ([combat/timing.rs]): when an attack's damage lands,
    how long a projectile flies, and the table of timings derived from the
    motions, hit windows and projectile data of the game files. *)
From S2P Require Import Prelude Domain Float.

(** ** Timings *)
Record FlyTiming : Type := {
  init_vel_units_per_sec : Z; forward_accel_units_per_sec2 : Z; bomb_range_units : Z }.

Definition DEFAULT_PROJECTILE : FlyTiming :=
  {| init_vel_units_per_sec := 200; forward_accel_units_per_sec2 := 0; bomb_range_units := 10 |}.
Definition FALLBACK_PROJECTILE : FlyTiming :=
  {| init_vel_units_per_sec := 3000; forward_accel_units_per_sec2 := 0; bomb_range_units := 10 |}.

Inductive MobAttackProcTiming : Type :=
| Proc_Melee (damage_delay_ms : Z)
| Proc_Projectile (release_delay_ms : Z) (flight : FlyTiming).

Record MobAttackTiming : Type := { proc : MobAttackProcTiming; mat_action_duration_ms : Z }.

Record MobAttackTimingTable : Type := { by_mob : gmap Z MobAttackTiming }.
Definition MobAttackTimingTable_default : MobAttackTimingTable := {| by_mob := ∅ |}.
Definition timing_for (self : MobAttackTimingTable) (mob_id : Z) : option MobAttackTiming :=
  by_mob self !! mob_id.
Definition upsert_timing (self : MobAttackTimingTable) (mob_id : Z) (timing : MobAttackTiming) :
    MobAttackTimingTable := {| by_mob := <[mob_id := timing]> (by_mob self) |}.

Inductive AttackDamageTiming : Type :=
| Immediate
| DelayedMs (ms : Z)
| Damage_Projectile (release_delay_ms : Z) (flight : FlyTiming).

Record MobAttackEffectTiming : Type := {
  action_duration_ms : Z; eff_damage : AttackDamageTiming; set_projectile_target : bool }.

Definition uses_projectile_attack (battle_type : MobBattleType) : bool :=
  match battle_type with BattleRange | BattleMagic => true | _ => false end.

Definition FALLBACK_ATTACK_WINDUP_MIN_MS : Z := 200.
Definition FALLBACK_ATTACK_WINDUP_MAX_MS : Z := 600.

Definition mob_attack_effect_timing (battle_type : MobBattleType)
    (authored_timing : option MobAttackTiming) (fallback_action_duration_ms : Z) :
    MobAttackEffectTiming :=
  match authored_timing with
  | Some timing =>
      match proc timing with
      | Proc_Melee damage_delay_ms =>
          {| action_duration_ms := mat_action_duration_ms timing;
             eff_damage := if damage_delay_ms =? 0 then Immediate else DelayedMs damage_delay_ms;
             set_projectile_target := uses_projectile_attack battle_type |}
      | Proc_Projectile release_delay_ms flight =>
          {| action_duration_ms := mat_action_duration_ms timing;
             eff_damage := Damage_Projectile release_delay_ms flight;
             set_projectile_target := true |}
      end
  | None =>
      let windup_ms :=
        clampc (fallback_action_duration_ms / 2)
          FALLBACK_ATTACK_WINDUP_MIN_MS FALLBACK_ATTACK_WINDUP_MAX_MS in
      if uses_projectile_attack battle_type then
        {| action_duration_ms := fallback_action_duration_ms;
           eff_damage := Damage_Projectile windup_ms FALLBACK_PROJECTILE;
           set_projectile_target := true |}
      else
        {| action_duration_ms := fallback_action_duration_ms;
           eff_damage := DelayedMs windup_ms; set_projectile_target := false |}
  end.

(** ** Projectile flight, in [f32] *)
Local Abbreviation f32 := binary32.
Local Abbreviation zero := (S754_zero false).

Definition projectile_travel_time_ms (distance_units : spec_float) (flight : FlyTiming) : Z :=
  if SFleb distance_units zero then 0
  else
    let velocity := f_of_int f32 (Z.max (init_vel_units_per_sec flight) 1) in
    let acceleration := f_of_int f32 (forward_accel_units_per_sec2 flight) in
    let seconds :=
      if SFltb zero acceleration then
        f_div f32
          (f_sub f32
             (f_sqrt f32 (f_add f32 (f_mul f32 velocity velocity)
                (f_mul f32 (f_mul f32 (f_of_int f32 2) acceleration) distance_units)))
             velocity)
          acceleration
      else f_div f32 distance_units velocity in
    f_to_u32 (f_ceil f32 (f_mul f32 (f_max seconds zero) (f_of_int f32 1000))).

Definition projectile_travel_ms (distance_m : spec_float) (flight : FlyTiming) : Z :=
  let effective_units :=
    f_max (f_sub f32 (f_mul f32 (f_max distance_m zero) (f_of_int f32 100))
                     (f_of_int f32 (bomb_range_units flight))) zero in
  projectile_travel_time_ms effective_units flight.

(** ** The timing table of the game files *)
Record MobAttackMotion : Type := {
  mam_motion_id : Z; mam_mob_id : Z; weight : Z; duration_ms : Z }.
Record MotionHitWindow : Type := { mhw_motion_id : Z; mhw_start_ms : Z; mhw_end_ms : option Z }.
Record MotionFlyEvent : Type := { mfe_motion_id : Z; mfe_release_ms : Z; mfe_fly_file : option string }.
Record MotionFlyData : Type := {
  mfd_fly_file : string; init_vel : spec_float; bomb_range : spec_float; accel_y : spec_float }.

Record MotionHit : Type := { hit_start_ms : Z; hit_end_ms : Z }.
Record MotionFly : Type := { fly_release_ms : Z; fly_flight : FlyTiming }.

Record MeleeAccumulator : Type := {
  latest_start_ms : Z; earliest_end_ms : option Z; weighted_start_sum : Z; total_weight : Z;
  melee_max_duration_ms : Z }.
Definition MeleeAccumulator_default : MeleeAccumulator :=
  {| latest_start_ms := 0; earliest_end_ms := None; weighted_start_sum := 0; total_weight := 0;
     melee_max_duration_ms := 0 |}.

Definition clamp_duration (duration_ms : Z) : Z := clampc duration_ms 0 u32_max.

Definition MeleeAccumulator_push (self : MeleeAccumulator) (hit : MotionHit) (weight duration_ms : Z) :
    MeleeAccumulator :=
  let weight := Z.max weight 1 in
  {| latest_start_ms := Z.max (latest_start_ms self) (hit_start_ms hit);
     earliest_end_ms :=
       Some (match earliest_end_ms self with
             | None => hit_end_ms hit
             | Some existing => Z.min existing (hit_end_ms hit)
             end);
     weighted_start_sum := wrap_u 128 (weighted_start_sum self + hit_start_ms hit * weight);
     total_weight := wrap_u 128 (total_weight self + weight);
     melee_max_duration_ms := Z.max (melee_max_duration_ms self) (clamp_duration duration_ms) |}.

Definition timing_parts (self : MeleeAccumulator) : option (Z * Z) :=
  if total_weight self =? 0 then None
  else
    let damage_delay_ms :=
      if match earliest_end_ms self with
         | Some earliest_end_ms => latest_start_ms self <=? earliest_end_ms
         | None => false
         end
      then latest_start_ms self
      else Z.min (weighted_start_sum self / total_weight self) u32_max in
    Some (damage_delay_ms, melee_max_duration_ms self).

Record ProjectileAccumulator : Type := {
  earliest_release_ms : option Z; proj_max_duration_ms : Z; proj_flight : option FlyTiming }.
Definition ProjectileAccumulator_default : ProjectileAccumulator :=
  {| earliest_release_ms := None; proj_max_duration_ms := 0; proj_flight := None |}.

Definition ProjectileAccumulator_push (self : ProjectileAccumulator) (fly : MotionFly)
    (duration_ms : Z) : ProjectileAccumulator :=
  {| earliest_release_ms :=
       Some (match earliest_release_ms self with
             | None => fly_release_ms fly
             | Some existing => Z.min existing (fly_release_ms fly)
             end);
     proj_max_duration_ms := Z.max (proj_max_duration_ms self) (clamp_duration duration_ms);
     proj_flight := match proj_flight self with None => Some (fly_flight fly) | f => f end |}.

Definition ProjectileAccumulator_timing (self : ProjectileAccumulator) : option (Z * Z * FlyTiming) :=
  release ← earliest_release_ms self;
  Some (release, proj_max_duration_ms self, default DEFAULT_PROJECTILE (proj_flight self)).

(** [entry(k).and_modify(keep the earlier).or_insert(v)]. *)
Definition keep_earliest {A} (start : A -> Z) (m : gmap Z A) (key : Z) (v : A) : gmap Z A :=
  match m !! key with
  | Some existing => <[key := if start v <? start existing then v else existing]> m
  | None => <[key := v]> m
  end.

Definition motion_hit (window : MotionHitWindow) : MotionHit :=
  {| hit_start_ms := Z.min (mhw_start_ms window) u32_max;
     hit_end_ms :=
       Z.min (Z.max (default (mhw_start_ms window) (mhw_end_ms window)) (mhw_start_ms window)) u32_max |}.

Definition first_hit_by_motion (hit_windows : list MotionHitWindow) : gmap Z MotionHit :=
  fold_left (fun acc window => keep_earliest hit_start_ms acc (mhw_motion_id window) (motion_hit window))
    (List.filter (fun window => 0 <=? mhw_start_ms window) hit_windows) ∅.

Definition fly_timing (data : MotionFlyData) : FlyTiming :=
  let u32_max_f := f_of_int binary64 u32_max in
  let to_u32 x := f_to_u32 (f_min (f_ceil binary64 x) u32_max_f) in
  {| init_vel_units_per_sec := to_u32 (f_max (init_vel data) (f_of_int binary64 1));
     forward_accel_units_per_sec2 := to_u32 (f_max (SFopp (accel_y data)) zero);
     bomb_range_units := to_u32 (f_max (bomb_range data) zero) |}.

Definition fly_data_by_file (fly_data : list MotionFlyData) : gmap string FlyTiming :=
  fold_left (fun acc data => <[mfd_fly_file data := fly_timing data]> acc) fly_data ∅.

Definition motion_fly (files : gmap string FlyTiming) (event : MotionFlyEvent) : MotionFly :=
  {| fly_release_ms := Z.min (mfe_release_ms event) u32_max;
     fly_flight := default DEFAULT_PROJECTILE (fly_file ← mfe_fly_file event; files !! fly_file) |}.

Definition first_fly_by_motion (files : gmap string FlyTiming) (fly_events : list MotionFlyEvent) :
    gmap Z MotionFly :=
  fold_left (fun acc event => keep_earliest fly_release_ms acc (mfe_motion_id event) (motion_fly files event))
    (List.filter (fun event => 0 <=? mfe_release_ms event) fly_events) ∅.

Definition push_motion (hits : gmap Z MotionHit) (flies : gmap Z MotionFly)
    (acc : gmap Z MeleeAccumulator * gmap Z ProjectileAccumulator) (motion : MobAttackMotion) :
    gmap Z MeleeAccumulator * gmap Z ProjectileAccumulator :=
  let '(melee_by_mob, projectile_by_mob) := acc in
  if weight motion <=? 0 then acc
  else
    match hits !! mam_motion_id motion with
    | Some hit =>
        let entry := default MeleeAccumulator_default (melee_by_mob !! mam_mob_id motion) in
        (<[mam_mob_id motion := MeleeAccumulator_push entry hit (weight motion) (duration_ms motion)]>
           melee_by_mob, projectile_by_mob)
    | None =>
        match flies !! mam_motion_id motion with
        | Some fly =>
            let entry := default ProjectileAccumulator_default (projectile_by_mob !! mam_mob_id motion) in
            (melee_by_mob,
             <[mam_mob_id motion := ProjectileAccumulator_push entry fly (duration_ms motion)]>
               projectile_by_mob)
        | None => acc
        end
    end.

Definition insert_melee (mob_id : Z) (accumulator : MeleeAccumulator) (table : MobAttackTimingTable) :
    MobAttackTimingTable :=
  match timing_parts accumulator with
  | Some (damage_delay_ms, action_duration_ms) =>
      upsert_timing table mob_id
        {| proc := Proc_Melee damage_delay_ms; mat_action_duration_ms := action_duration_ms |}
  | None => table
  end.

Definition insert_projectile (mob_id : Z) (accumulator : ProjectileAccumulator)
    (table : MobAttackTimingTable) : MobAttackTimingTable :=
  match timing_for table mob_id with
  | Some _ => table
  | None =>
      match ProjectileAccumulator_timing accumulator with
      | Some (release_delay_ms, action_duration_ms, flight) =>
          upsert_timing table mob_id
            {| proc := Proc_Projectile release_delay_ms flight;
               mat_action_duration_ms := action_duration_ms |}
      | None => table
      end
  end.

Definition mob_attack_timings_from_motion (motions : list MobAttackMotion)
    (hit_windows : list MotionHitWindow) (fly_events : list MotionFlyEvent)
    (fly_data : list MotionFlyData) : MobAttackTimingTable :=
  let hits := first_hit_by_motion hit_windows in
  let files := fly_data_by_file fly_data in
  let flies := first_fly_by_motion files fly_events in
  let '(melee_by_mob, projectile_by_mob) := fold_left (push_motion hits flies) motions (∅, ∅) in
  let table := map_fold insert_melee MobAttackTimingTable_default melee_by_mob in
  map_fold insert_projectile table projectile_by_mob.

(** ** The first hit of a motion *)

Lemma keep_earliest_fold {W A} (start : A -> Z) (key : W -> Z) (val : W -> A) (l : list W) (m : gmap Z A) id :
  let m' := fold_left (fun acc w => keep_earliest start acc (key w) (val w)) l m in
  match m' !! id with
  | None => m !! id = None /\ forall w, w ∈ l -> key w <> id
  | Some a =>
      (m !! id = Some a \/ exists w, w ∈ l /\ key w = id /\ a = val w) /\
      (forall b, m !! id = Some b -> start a <= start b) /\
      (forall w, w ∈ l -> key w = id -> start a <= start (val w))
  end.
Proof.
  revert m. induction l as [| w l IH]; intros m; cbn [fold_left].
  - destruct (m !! id) as [a |] eqn:E; rewrite ?E.
    + split; [auto |]. split; [intros b [= ->]; lia |]. by intros ? ?%elem_of_nil.
    + split; [done |]. by intros ? ?%elem_of_nil.
  - specialize (IH (keep_earliest start m (key w) (val w))). cbv zeta in IH.
    destruct (fold_left _ l _ !! id) as [a |].
    + destruct IH as (H1 & H2 & H3). unfold keep_earliest in H1, H2. setoid_rewrite elem_of_cons.
      destruct (decide (key w = id)) as [<- | N].
      * destruct (m !! key w) as [ex |] eqn:E; rewrite lookup_insert_eq in H1, H2.
        -- specialize (H2 _ eq_refl). destruct (Z.ltb_spec (start (val w)) (start ex)).
           ++ split; [destruct H1 as [[= <-] | (w' & ? & ? & ?)]; eauto 6 |].
              split; [intros b [= <-]; lia |]. intros w' [-> | ?] ?; auto. 
           ++ split; [destruct H1 as [[= <-] | (w' & ? & ? & ?)]; eauto 6 |].
              split; [intros b [= <-]; lia |]. intros w' [-> | ?] ?; [lia | auto].
        -- specialize (H2 _ eq_refl).
           split; [destruct H1 as [[= <-] | (w' & ? & ? & ?)]; eauto 6 |].
           split; [done |]. intros w' [-> | ?] ?; auto.
      * assert (forall x y, (match m !! key w with Some ex => <[key w := x ex]> m | None => <[key w := y]> m end) !! id
          = m !! id) as Eq by (intros; destruct (m !! key w); by rewrite lookup_insert_ne).
        rewrite (Eq (fun ex => if start (val w) <? start ex then val w else ex) (val w)) in H1, H2.
        split; [destruct H1 as [? | (w' & ? & ? & ?)]; eauto 6 |]. split; [done |].
        intros w' [-> | ?] ?; [done | auto].
    + destruct IH as (H1 & H2). unfold keep_earliest in H1. setoid_rewrite elem_of_cons.
      destruct (decide (key w = id)) as [<- | N].
      * destruct (m !! key w); by rewrite lookup_insert_eq in H1.
      * assert (m !! id = None) as E by (destruct (m !! key w); by rewrite lookup_insert_ne in H1).
        split; [done |]. intros w' [-> | ?]; auto.
Qed.

(** ** The accumulators of a mob *)

Definition hits_of (hits : gmap Z MotionHit) (motions : list MobAttackMotion) (mob : Z) :
    list (MotionHit * MobAttackMotion) :=
  omap (fun motion =>
    if (weight motion <=? 0) || negb (mam_mob_id motion =? mob) then None
    else hit ← hits !! mam_motion_id motion; Some (hit, motion)) motions.

Definition flies_of (hits : gmap Z MotionHit) (flies : gmap Z MotionFly)
    (motions : list MobAttackMotion) (mob : Z) : list (MotionFly * MobAttackMotion) :=
  omap (fun motion =>
    if (weight motion <=? 0) || negb (mam_mob_id motion =? mob) then None
    else match hits !! mam_motion_id motion with
         | Some _ => None
         | None => fly ← flies !! mam_motion_id motion; Some (fly, motion)
         end) motions.

Definition push_hit (acc : MeleeAccumulator) (p : MotionHit * MobAttackMotion) : MeleeAccumulator :=
  MeleeAccumulator_push acc p.1 (weight p.2) (duration_ms p.2).
Definition push_fly (acc : ProjectileAccumulator) (p : MotionFly * MobAttackMotion) :
    ProjectileAccumulator := ProjectileAccumulator_push acc p.1 (duration_ms p.2).

Definition accumulated {A B} (push : A -> B -> A) (zero_acc : A) (m : gmap Z A) (mob : Z) (l : list B) : option A :=
  match l with
  | [] => m !! mob
  | _ => Some (fold_left push l (default zero_acc (m !! mob)))
  end.

Lemma push_motions_lookup hits flies motions melee proj mob :
  let r := fold_left (push_motion hits flies) motions (melee, proj) in
  r.1 !! mob = accumulated push_hit MeleeAccumulator_default melee mob (hits_of hits motions mob) /\
  r.2 !! mob = accumulated push_fly ProjectileAccumulator_default proj mob (flies_of hits flies motions mob).
Proof.
  revert melee proj. induction motions as [| mo motions IH]; intros melee proj; [done |].
  cbv zeta in *. cbn [fold_left]. unfold hits_of, flies_of. cbn [omap list_omap].
  fold (hits_of hits motions mob). fold (flies_of hits flies motions mob).
  unfold push_motion at 2 4. destruct (Z.leb_spec (weight mo) 0); cbn [orb]; [apply IH |].
  destruct (hits !! mam_motion_id mo) as [hit |] eqn:Eh; [| destruct (flies !! mam_motion_id mo) as [fly |] eqn:Ef].
  - destruct (IH (<[mam_mob_id mo := MeleeAccumulator_push
      (default MeleeAccumulator_default (melee !! mam_mob_id mo)) hit (weight mo) (duration_ms mo)]> melee) proj)
      as [-> ->].
    destruct (Z.eqb_spec (mam_mob_id mo) mob) as [<- | N]; cbn [negb mbind option_bind].
    + split; [| done]. unfold accumulated. rewrite lookup_insert_eq.
      by destruct (hits_of hits motions (mam_mob_id mo)).
    + split; [| done]. unfold accumulated. by rewrite lookup_insert_ne.
  - destruct (IH melee (<[mam_mob_id mo := ProjectileAccumulator_push
      (default ProjectileAccumulator_default (proj !! mam_mob_id mo)) fly (duration_ms mo)]> proj)) as [-> ->].
    destruct (Z.eqb_spec (mam_mob_id mo) mob) as [<- | N]; cbn [negb mbind option_bind].
    + split; [done |]. unfold accumulated. rewrite lookup_insert_eq.
      by destruct (flies_of hits flies motions (mam_mob_id mo)).
    + split; [done |]. unfold accumulated. by rewrite lookup_insert_ne.
  - destruct (IH melee proj) as [-> ->]. by destruct (mam_mob_id mo =? mob).
Qed.

Lemma insert_melee_fold m table mob :
  timing_for (map_fold insert_melee table m) mob =
    match m !! mob ≫= timing_parts with
    | Some (d, dur) => Some {| proc := Proc_Melee d; mat_action_duration_ms := dur |}
    | None => timing_for table mob
    end.
Proof.
  apply (map_fold_weak_ind (fun t m => timing_for t mob = match m !! mob ≫= timing_parts with
    | Some (d, dur) => Some {| proc := Proc_Melee d; mat_action_duration_ms := dur |}
    | None => timing_for table mob end)); [by rewrite lookup_empty |].
  intros id acc m' t Hid IH. unfold insert_melee.
  destruct (decide (id = mob)) as [-> | N].
  - rewrite lookup_insert_eq. cbn [mbind option_bind].
    destruct (timing_parts acc) as [[d dur] |].
    + unfold timing_for, upsert_timing. cbn. by rewrite lookup_insert_eq.
    + by rewrite IH, Hid.
  - rewrite lookup_insert_ne by done. rewrite <- IH.
    destruct (timing_parts acc) as [[d dur] |]; [| done].
    unfold timing_for, upsert_timing. cbn. by rewrite lookup_insert_ne.
Qed.

Lemma insert_projectile_fold m table mob :
  timing_for (map_fold insert_projectile table m) mob =
    match timing_for table mob with
    | Some t => Some t
    | None =>
        match m !! mob ≫= ProjectileAccumulator_timing with
        | Some (r, dur, flight) =>
            Some {| proc := Proc_Projectile r flight; mat_action_duration_ms := dur |}
        | None => None
        end
    end.
Proof.
  apply (map_fold_weak_ind (fun t m => timing_for t mob = match timing_for table mob with
    | Some t => Some t
    | None => match m !! mob ≫= ProjectileAccumulator_timing with
        | Some (r, dur, flight) => Some {| proc := Proc_Projectile r flight; mat_action_duration_ms := dur |}
        | None => None end end)).
  - rewrite lookup_empty. cbn. by destruct (timing_for table mob).
  - intros id acc m' t Hid IH. unfold insert_projectile.
    destruct (decide (id = mob)) as [-> | N].
    + rewrite lookup_insert_eq. cbn [mbind option_bind]. rewrite Hid in IH. cbn [mbind option_bind] in IH.
      destruct (timing_for table mob) as [t0 |] eqn:E; rewrite IH; [by rewrite IH |].
      destruct (ProjectileAccumulator_timing acc) as [[[r dur] flight] |]; [| done].
      unfold timing_for, upsert_timing. cbn. by rewrite lookup_insert_eq.
    + rewrite lookup_insert_ne by done. rewrite <- IH.
      destruct (timing_for t id); [done |].
      destruct (ProjectileAccumulator_timing acc) as [[[r dur] flight] |]; [| done].
      unfold timing_for, upsert_timing. cbn. by rewrite lookup_insert_ne.
Qed.

Definition hit_ok (h : MotionHit) : Prop := 0 <= hit_start_ms h <= hit_end_ms h /\ hit_end_ms h <= u32_max.

Lemma first_hit_ok windows id h : first_hit_by_motion windows !! id = Some h -> hit_ok h.
Proof.
  intros H. unfold first_hit_by_motion in H.
  pose proof (keep_earliest_fold hit_start_ms mhw_motion_id motion_hit
    (List.filter (fun window => 0 <=? mhw_start_ms window) windows) ∅ id) as K. cbv zeta in K.
  rewrite H in K. destruct K as ([K | (w & Hw & _ & ->)] & _ & _); [by rewrite lookup_empty in K |].
  apply list_elem_of_In, filter_In in Hw as [_ Hw]. zbool.
  unfold hit_ok, motion_hit. cbn. unfold_widths. destruct (mhw_end_ms w); cbn; lia.
Qed.

(** Weights count at least one each. *)
Definition weight_of (p : MotionHit * MobAttackMotion) : Z := Z.max (weight p.2) 1.
Definition total_of (l : list (MotionHit * MobAttackMotion)) : Z := foldr (fun p s => weight_of p + s) 0 l.
Definition weighted_of (l : list (MotionHit * MobAttackMotion)) : Z :=
  foldr (fun p s => hit_start_ms p.1 * weight_of p + s) 0 l.

Lemma total_of_app l1 l2 : total_of (l1 ++ l2) = total_of l1 + total_of l2.
Proof. induction l1 as [| a l1 IH]; [done |]. change (weight_of a + total_of (l1 ++ l2) = weight_of a + total_of l1 + total_of l2). lia. Qed.
Lemma weighted_of_app l1 l2 : weighted_of (l1 ++ l2) = weighted_of l1 + weighted_of l2.
Proof. induction l1 as [| a l1 IH]; [done |]. 
  change (hit_start_ms a.1 * weight_of a + weighted_of (l1 ++ l2) =
    hit_start_ms a.1 * weight_of a + weighted_of l1 + weighted_of l2). lia. Qed.

Definition hits_small (l : list (MotionHit * MobAttackMotion)) : Prop :=
  Z.of_nat (length l) <= u32_max /\ Forall (fun p => hit_ok p.1 /\ weight p.2 <= i64_max) l.

Lemma totals_bounds l :
  Forall (fun p => hit_ok p.1 /\ weight p.2 <= i64_max) l ->
  Z.of_nat (length l) <= total_of l <= Z.of_nat (length l) * i64_max /\
  0 <= weighted_of l <= total_of l * u32_max.
Proof.
  induction 1 as [| p l [Hh Hw] Hl IH]; [done |].
  change (total_of (p :: l)) with (weight_of p + total_of l).
  change (weighted_of (p :: l)) with (hit_start_ms p.1 * weight_of p + weighted_of l).
  cbn [length]. unfold weight_of, hit_ok in *. rewrite Nat2Z.inj_succ. unfold_widths. nia.
Qed.

(** What the melee accumulator holds after the hits [l]. *)
Record melee_acc (l : list (MotionHit * MobAttackMotion)) (acc : MeleeAccumulator) : Prop := {
  ma_latest : Forall (fun p => hit_start_ms p.1 <= latest_start_ms acc) l;
  ma_latest_in : l = [] /\ latest_start_ms acc = 0 \/ exists p, p ∈ l /\ latest_start_ms acc = hit_start_ms p.1;
  ma_earliest : match earliest_end_ms acc with
    | None => l = []
    | Some e => Forall (fun p => e <= hit_end_ms p.1) l /\ exists p, p ∈ l /\ e = hit_end_ms p.1 end;
  ma_sum : weighted_start_sum acc = weighted_of l;
  ma_total : total_weight acc = total_of l;
  ma_duration : Forall (fun p => clamp_duration (duration_ms p.2) <= melee_max_duration_ms acc) l;
  ma_duration_in : l = [] /\ melee_max_duration_ms acc = 0 \/
    exists p, p ∈ l /\ melee_max_duration_ms acc = clamp_duration (duration_ms p.2) }.

Lemma clamp_duration_nonneg d : 0 <= clamp_duration d.
Proof. unfold clamp_duration, clampc. unfold_widths. lia. Qed.

Lemma melee_acc_fold l : hits_small l -> melee_acc l (fold_left push_hit l MeleeAccumulator_default).
Proof.
  induction l as [| p l IH] using rev_ind; intros [Hlen Hok].
  - split; cbn; try done; by left.
  - apply Forall_app in Hok as [Hok Hp]. rewrite Forall_singleton in Hp.
    rewrite length_app in Hlen. cbn [length] in Hlen.
    destruct IH as [A1 A2 A3 A4 A5 A6 A7]; [split; [lia | done] |].
    rewrite fold_left_app. cbn [fold_left]. set (acc := fold_left push_hit l MeleeAccumulator_default) in *.
    destruct (totals_bounds l Hok) as [B1 B2]. destruct Hp as [Hh Hw].
    unfold push_hit. set (h := p.1) in *. set (mo := p.2) in *.
    assert (2 ^ 128 = 340282366920938463463374607431768211456) as E128 by reflexivity.
    assert (forall q, q ∈ l -> q ∈ l ++ [p]) as Hin by (intros q Hq; apply elem_of_app; by left).
    assert (p ∈ l ++ [p]) as Hpin by (apply elem_of_app; right; apply list_elem_of_singleton; done).
    split; cbn [latest_start_ms earliest_end_ms weighted_start_sum total_weight melee_max_duration_ms
      MeleeAccumulator_push].
    + apply Forall_app. split; [| rewrite Forall_singleton; fold h; lia].
      eapply Forall_impl; [exact A1 |]. cbn. intros. lia.
    + right. destruct (Z.max_spec (latest_start_ms acc) (hit_start_ms h)) as [[_ ->] | [L ->]].
      * by exists p.
      * destruct A2 as [[_ A2] | (q & Hq & A2)]; [| eauto].
        exists p. split; [done |]. fold h. unfold hit_ok in Hh. lia.
    + destruct (earliest_end_ms acc) as [e |].
      * destruct A3 as (A3 & q & Hq & Eq). split.
        -- apply Forall_app. split; [| rewrite Forall_singleton; fold h; lia].
           eapply Forall_impl; [exact A3 |]. cbn. intros. lia.
        -- destruct (Z.min_spec e (hit_end_ms h)) as [[_ ->] | [_ ->]]; [eauto | by exists p].
      * subst l. cbn [app] in *. split; [rewrite Forall_singleton; fold h; lia | by exists p].
    + rewrite A4, weighted_of_app. cbn [weighted_of foldr]. fold h. unfold weight_of. fold mo.
      unfold wrap_u. rewrite Z.mod_small; [lia |]. unfold hit_ok in Hh. unfold_widths. nia.
    + rewrite A5, total_of_app. cbn [total_of foldr]. unfold weight_of. fold mo.
      unfold wrap_u. rewrite Z.mod_small; [lia |]. unfold_widths. nia.
    + apply Forall_app. split; [| rewrite Forall_singleton; fold mo; lia].
      eapply Forall_impl; [exact A6 |]. cbn. intros. lia.
    + right. destruct (Z.max_spec (melee_max_duration_ms acc) (clamp_duration (duration_ms mo))) as [[_ ->] | [L ->]].
      * by exists p.
      * destruct A7 as [[_ A7] | (q & Hq & A7)]; [| eauto].
        exists p. split; [done |]. fold mo. pose proof (clamp_duration_nonneg (duration_ms mo)). lia.
Qed.

(** The delay of an accumulator of hits. *)
Lemma timing_parts_spec l acc :
  l <> [] -> Forall (fun p => hit_ok p.1 /\ weight p.2 <= i64_max) l -> melee_acc l acc ->
  exists d, timing_parts acc = Some (d, melee_max_duration_ms acc) /\
    (exists p q, p ∈ l /\ q ∈ l /\ hit_start_ms p.1 <= d <= hit_start_ms q.1) /\
    ((forall p q, p ∈ l -> q ∈ l -> hit_start_ms p.1 <= hit_end_ms q.1) ->
     forall p, p ∈ l -> hit_start_ms p.1 <= d <= hit_end_ms p.1).
Proof.
  intros Hne Hok [A1 A2 A3 A4 A5 A6 A7]. destruct (totals_bounds l Hok) as [B1 B2].
  assert (0 < total_of l) as Ht by (destruct l; [done | cbn [length] in B1; lia]).
  unfold timing_parts. rewrite A5. destruct (Z.eqb_spec (total_of l) 0); [lia |].
  destruct A2 as [[? _] | (q & Hq & A2)]; [done |].
  assert (exists p, p ∈ l /\ hit_start_ms p.1 * total_of l <= weighted_of l) as (p & Hp & Hmin).
  { clear -Hne Hok. induction Hok as [| p l [Hh Hw] Hok IH]; [done |].
    change (total_of (p :: l)) with (weight_of p + total_of l).
    change (weighted_of (p :: l)) with (hit_start_ms p.1 * weight_of p + weighted_of l).
    destruct l as [| p' l'].
    - exists p. split; [by left |]. cbn. unfold hit_ok, weight_of in *. nia.
    - destruct IH as (q & Hq & IH); [done |].
      destruct (totals_bounds _ Hok) as [C1 C2].
      assert (0 <= total_of (p' :: l')) by (cbn [length] in C1; lia).
      destruct (Z_le_dec (hit_start_ms p.1) (hit_start_ms q.1)).
      + exists p. split; [by left |]. unfold hit_ok, weight_of in *. nia.
      + exists q. split; [by right |]. unfold hit_ok, weight_of in *. nia. }
  assert (weighted_of l <= latest_start_ms acc * total_of l) as Hmax.
  { clear -A1 Hok. induction Hok as [| p l [Hh Hw] Hok IH]; [cbn; lia |].
    inversion A1 as [| ? ? L1 L2]; subst. specialize (IH L2).
    change (total_of (p :: l)) with (weight_of p + total_of l).
    change (weighted_of (p :: l)) with (hit_start_ms p.1 * weight_of p + weighted_of l).
    unfold weight_of in *. nia. }
  destruct (earliest_end_ms acc) as [e |]; [| subst l; done].
  destruct A3 as (A3 & r & Hr & Er). destruct (Z.leb_spec (latest_start_ms acc) e) as [Hle | Hgt].
  - eexists. split; [done |]. split; [exists q, q; split_and!; try done; lia |].
    intros _ x Hx. eapply Forall_forall in A1, A3; [| exact Hx | exact Hx]. cbn in *. lia.
  - eexists. split; [done |].
    assert (hit_start_ms p.1 <= weighted_of l / total_of l) as D1 by (apply Z.div_le_lower_bound; lia).
    assert (weighted_of l / total_of l <= hit_start_ms q.1) as D2.
    { apply Z.div_le_upper_bound; [lia |]. rewrite <- A2. lia. }
    eapply Forall_forall in Hok as [Hpo _]; [| exact Hp].
    rewrite A4. split.
    + exists p, q. split_and!; try done; [| lia]. unfold hit_ok in Hpo. lia.
    + intros Hall. specialize (Hall q r Hq Hr). lia.
Qed.

Lemma hits_of_small windows motions mob :
  Z.of_nat (length motions) <= u32_max -> Forall (fun m => weight m <= i64_max) motions ->
  hits_small (hits_of (first_hit_by_motion windows) motions mob).
Proof.
  intros Hl Hw. split.
  - assert (length (hits_of (first_hit_by_motion windows) motions mob) <= length motions)%nat; [| lia].
    unfold hits_of. clear. induction motions as [| m l IH]; [done |]. cbn [omap list_omap length].
    case_match; cbn [length]; lia.
  - apply Forall_forall. intros p Hp. unfold hits_of in Hp. apply list_elem_of_omap in Hp as (m & Hm & E).
    destruct ((weight m <=? 0) || negb (mam_mob_id m =? mob)); [done |].
    destruct (first_hit_by_motion windows !! mam_motion_id m) as [h |] eqn:Eh; [| done].
    cbn in E. injection E as <-. cbn. eapply Forall_forall in Hw; [| exact Hm]. eauto using first_hit_ok.
Qed.

(** The timing table of the game files.  A mob with a motion that has a hit
    window gets a melee timing: its damage delay lies between the earliest and
    the latest first hit of its motions, and inside every one of those hit
    windows whenever the windows have an instant in common; its duration is the
    longest of those motions.  Otherwise a mob with a projectile motion gets a
    projectile timing, and a mob with neither gets none. *)
Theorem mob_attack_timings_spec motions windows events data mob :
  Z.of_nat (length motions) <= u32_max -> Forall (fun m => weight m <= i64_max) motions ->
  let table := mob_attack_timings_from_motion motions windows events data in
  let files := fly_data_by_file data in
  let hits := hits_of (first_hit_by_motion windows) motions mob in
  let flies := flies_of (first_hit_by_motion windows) (first_fly_by_motion files events) motions mob in
  match hits, flies with
  | [], [] => timing_for table mob = None
  | [], f :: _ => exists r dur,
      timing_for table mob =
        Some {| proc := Proc_Projectile r (fly_flight f.1); mat_action_duration_ms := dur |} /\
      Forall (fun p => r <= fly_release_ms p.1) flies
  | _, _ => exists d dur,
      timing_for table mob = Some {| proc := Proc_Melee d; mat_action_duration_ms := dur |} /\
      (exists p q, p ∈ hits /\ q ∈ hits /\ hit_start_ms p.1 <= d <= hit_start_ms q.1) /\
      ((forall p q, p ∈ hits -> q ∈ hits -> hit_start_ms p.1 <= hit_end_ms q.1) ->
       forall p, p ∈ hits -> hit_start_ms p.1 <= d <= hit_end_ms p.1) /\
      Forall (fun p => clamp_duration (duration_ms p.2) <= dur) hits
  end.
Proof.
  intros Hl Hw. cbv zeta. pose proof (hits_of_small windows motions mob Hl Hw) as Hs.
  unfold mob_attack_timings_from_motion.
  set (hm := first_hit_by_motion windows) in *.
  set (fm := first_fly_by_motion (fly_data_by_file data) events) in *.
  destruct (push_motions_lookup hm fm motions ∅ ∅ mob) as [E1 E2].
  destruct (fold_left (push_motion hm fm) motions (∅, ∅)) as [melee proj]. cbn [fst snd] in E1, E2.
  rewrite insert_projectile_fold, insert_melee_fold, E1, E2. unfold accumulated. rewrite !lookup_empty.
  unfold from_option, id. pose proof (melee_acc_fold _ Hs) as Ha.
  destruct (hits_of hm motions mob) as [| h hs] eqn:Eh.
  - cbn [mbind option_bind]. change (timing_for MobAttackTimingTable_default mob) with ((∅ : gmap Z MobAttackTiming) !! mob).
    rewrite lookup_empty. destruct (flies_of hm fm motions mob) as [| f fs]; [done |].
    assert (forall l acc r0 f0, earliest_release_ms acc = Some r0 -> proj_flight acc = Some f0 ->
      exists r, earliest_release_ms (fold_left push_fly l acc) = Some r /\
        proj_flight (fold_left push_fly l acc) = Some f0 /\ r <= r0 /\
        Forall (fun p => r <= fly_release_ms p.1) l) as HF.
    { clear. induction l as [| p l IH]; intros acc r0 f0 Hr Hf; [exists r0; cbn; split_and!; auto; lia |].
      cbn [fold_left].
      destruct (IH (push_fly acc p) (Z.min r0 (fly_release_ms p.1)) f0) as (r & R1 & R2 & R3 & R4).
      - cbn. by rewrite Hr.
      - cbn. by rewrite Hf.
      - exists r. split_and!; try done; [lia |]. constructor; [lia | done]. }
    destruct (HF fs (push_fly ProjectileAccumulator_default f) (fly_release_ms f.1) (fly_flight f.1) eq_refl eq_refl)
      as (r & R1 & R2 & R3 & R4).
    unfold ProjectileAccumulator_timing. cbn [mbind option_bind fold_left].
    rewrite R1, R2. cbn [mbind option_bind]. unfold from_option, id. do 2 eexists. split; [done |]. by constructor.
  - destruct (timing_parts_spec (h :: hs) (fold_left push_hit (h :: hs) MeleeAccumulator_default))
      as (d & Ed & D1 & D2); [done | apply Hs | done |].
    cbn [mbind option_bind]. rewrite Ed.
    exists d, (melee_max_duration_ms (fold_left push_hit (h :: hs) MeleeAccumulator_default)).
    destruct (flies_of hm fm motions mob); (split_and!; [done | exact D1 | exact D2 | apply Ha]).
Qed.

(** ** A concrete instance *)

Definition sample_motions : list MobAttackMotion :=
  [ {| mam_motion_id := 1; mam_mob_id := 101; weight := 70; duration_ms := 900 |};
    {| mam_motion_id := 2; mam_mob_id := 101; weight := 30; duration_ms := 1100 |} ].
Definition sample_windows : list MotionHitWindow :=
  [ {| mhw_motion_id := 1; mhw_start_ms := 300; mhw_end_ms := Some 500 |};
    {| mhw_motion_id := 2; mhw_start_ms := 420; mhw_end_ms := Some 600 |} ].

Lemma mob_attack_timings_spec_witness :
  exists d dur,
    timing_for (mob_attack_timings_from_motion sample_motions sample_windows [] []) 101 =
      Some {| proc := Proc_Melee d; mat_action_duration_ms := dur |} /\ 300 <= d <= 500.
Proof.
  pose proof (mob_attack_timings_spec sample_motions sample_windows [] [] 101 ltac:(by vm_compute)
    ltac:(repeat constructor; by vm_compute)) as H. cbv zeta in H.
  set (hits := hits_of _ _ _) in H. vm_compute in hits. subst hits. cbv beta iota in H.
  destruct H as (d & dur & H1 & _ & H2 & _). exists d, dur. split; [exact H1 |].
  refine (H2 _ (_, _) (list_elem_of_here _ _)).
  intros p q Hp Hq. rewrite !elem_of_cons, elem_of_nil in Hp, Hq.
  destruct Hp as [-> | [-> | []]], Hq as [-> | [-> | []]]; by vm_compute.
Defined.
