(* ===== verification/Wire.v ===== *)
(** Binary reading and writing: byte strings, the little-endian integers of
    [binrw], and the interface [Wire] between the packet types and the codec.

    A reader works on a prefix of the bytes received so far.  It succeeds with
    the unread rest, reports that it needs more bytes, or fails for good.  The
    laws say that a packet is recognised by its own bytes alone: a longer input
    never changes an answer, and a proper prefix of a packet is incomplete. *)
From S2P Require Import Prelude.

Abbreviation bytes := (list Z).

Definition is_byte (b : Z) : Prop := 0 <= b <= 255.

(** Reader errors, by how the codec tells them apart. *)
Inductive ReadError : Type :=
| AssertFail
| NoVariantMatch
| BadMagic.

Inductive read_result (A : Type) : Type :=
| ReadOk (a : A) (rest : bytes)
| ReadEof
| ReadErr (e : ReadError).
Arguments ReadOk {A} a rest.
Arguments ReadEof {A}.
Arguments ReadErr {A} e.

Definition reader (A : Type) : Type := bytes -> read_result A.

Definition rd_bind {A B} (r : reader A) (k : A -> reader B) : reader B := fun l =>
  match r l with
  | ReadOk a rest => k a rest
  | ReadEof => ReadEof
  | ReadErr e => ReadErr e
  end.
Definition rd_ret {A} (a : A) : reader A := fun l => ReadOk a l.
Definition rd_fail {A} (e : ReadError) : reader A := fun _ => ReadErr e.
Notation "'read' x '<-' r ';' k" := (rd_bind r (fun x => k))
  (at level 200, x name, r at level 100, k at level 200) : rust_scope.

(** ** Well-behaved readers *)

(** What a reader of an unbounded input may do: consume a non-trivial or empty
    chunk [c] and nothing else, independently of what follows; fail for good; or
    wait. *)
Record reader_ok {A} (r : reader A) : Prop := {
  ro_ok : forall l a rest, r l = ReadOk a rest ->
    exists c, l = c ++ rest /\ (forall s, r (c ++ s) = ReadOk a s) /\
      (forall p q, c = p ++ q -> q <> [] -> r p = ReadEof);
  ro_err : forall l e s, r l = ReadErr e -> r (l ++ s) = ReadErr e }.

Lemma rd_ret_ok {A} (a : A) : reader_ok (rd_ret a).
Proof.
  split; unfold rd_ret.
  - intros l b rest [= <- <-]. exists []. split_and!; try done.
    intros p q E Hq. symmetry in E. apply app_eq_nil in E as [_ ->]. done.
  - done.
Qed.

Lemma rd_fail_ok {A} e : reader_ok (rd_fail e : reader A).
Proof. split; unfold rd_fail; [done |]. congruence. Qed.

Lemma app_split_cases {A} (c1 c2 p q : list A) :
  c1 ++ c2 = p ++ q -> (exists p2, p = c1 ++ p2 /\ c2 = p2 ++ q) \/ (exists q1, q1 <> [] /\ c1 = p ++ q1).
Proof.
  revert p. induction c1 as [| x c1 IH]; intros p E; cbn in E.
  - left. by exists p.
  - destruct p as [| y p]; cbn in E.
    + right. exists (x :: c1). done.
    + injection E as -> E. destruct (IH _ E) as [(p2 & -> & ->) | (q1 & Hq & ->)]; [left | right]; eauto.
Qed.

Lemma rd_bind_ok {A B} (r : reader A) (k : A -> reader B) :
  reader_ok r -> (forall a, reader_ok (k a)) -> reader_ok (rd_bind r k).
Proof.
  intros Hr Hk. split; unfold rd_bind.
  - intros l b rest H. destruct (r l) as [a rest1 | |] eqn:E; try discriminate.
    apply (ro_ok _ Hr) in E as (c1 & -> & S1 & P1).
    apply (ro_ok _ (Hk a)) in H as (c2 & -> & S2 & P2).
    exists (c1 ++ c2). split; [by rewrite app_assoc |]. split.
    + intros s. rewrite <- app_assoc, S1. apply S2.
    + intros p q Ep Hq. apply app_split_cases in Ep as [(p2 & -> & ->) | (q1 & Hq1 & ->)].
      * rewrite S1. eapply P2; [reflexivity | done].
      * by rewrite (P1 p q1 eq_refl Hq1).
  - intros l e s H. destruct (r l) as [a rest1 | |] eqn:E; try discriminate.
    + apply (ro_ok _ Hr) in E as (c1 & -> & S1 & P1). rewrite <- app_assoc, S1.
      by apply (ro_err _ (Hk a)).
    + injection H as <-. by rewrite (ro_err _ Hr _ _ s E).
Qed.

Lemma rd_if_ok {A} (b : bool) (r1 r2 : reader A) :
  reader_ok r1 -> reader_ok r2 -> reader_ok (if b then r1 else r2).
Proof. by destruct b. Qed.

Create HintDb wire discriminated.
#[export] Hint Resolve rd_ret_ok rd_fail_ok rd_bind_ok rd_if_ok : wire.

(** ** Integers *)

Definition read_u8 : reader Z := fun l =>
  match l with [] => ReadEof | b :: rest => ReadOk b rest end.

Lemma read_u8_ok : reader_ok read_u8.
Proof.
  split.
  - intros [| b l] a rest H; [done |]. injection H as <- <-. exists [b]. split_and!; try done.
    intros [| x p] q E Hq; [done |]. injection E as -> E. symmetry in E. apply app_eq_nil in E as [_ ->]. done.
  - by intros [| b l] e s H.
Qed.

(** [read_exact] of [n] bytes: all or nothing. *)
Definition read_exact (n : nat) : reader bytes := fun l =>
  if (length l <? n)%nat then ReadEof else ReadOk (take n l) (drop n l).

Lemma read_exact_ok n : reader_ok (read_exact n).
Proof.
  split; unfold read_exact.
  - intros l a rest H. destruct (Nat.ltb_spec (length l) n) as [| L]; [done |]. injection H as <- <-.
    exists (take n l). split; [by rewrite take_drop |].
    assert (length (take n l) = n) as E by (rewrite length_take; lia). split.
    + intros s. rewrite length_app, E. destruct (Nat.ltb_spec (n + length s) n); [lia |].
      rewrite take_app_length', drop_app_length' by done. done.
    + intros p q Ep Hq. apply (f_equal length) in Ep. rewrite E, length_app in Ep.
      destruct q; [done |]. cbn in Ep. destruct (Nat.ltb_spec (length p) n); [done | lia].
  - intros l e s H. by destruct (length l <? n)%nat.
Qed.

(** The value of little-endian bytes, and the bytes of a value. *)
Fixpoint le_value (l : bytes) : Z :=
  match l with [] => 0 | b :: l => b + 256 * le_value l end.
Fixpoint le_bytes (n : nat) (z : Z) : bytes :=
  match n with O => [] | S n => z mod 256 :: le_bytes n (z / 256) end.

Lemma le_bytes_length n z : length (le_bytes n z) = n.
Proof. revert z. induction n as [| n IH]; intros z; cbn; [done | by rewrite IH]. Qed.

Lemma le_bytes_byte n z : Forall is_byte (le_bytes n z).
Proof.
  revert z. induction n as [| n IH]; intros z; cbn [le_bytes]; constructor; [| apply IH].
  unfold is_byte. pose proof (Z.mod_pos_bound z 256). lia.
Qed.

Lemma le_value_bytes n z : le_value (le_bytes n z) = z mod 2 ^ (8 * Z.of_nat n).
Proof.
  revert z. induction n as [| n IH]; intros z; cbn [le_value le_bytes].
  - by rewrite Z.mod_1_r.
  - rewrite IH. replace (8 * Z.of_nat (S n)) with (8 + 8 * Z.of_nat n) by lia.
    rewrite Z.pow_add_r by lia. change (2 ^ 8) with 256.
    rewrite Z.rem_mul_r; [lia | lia |]. apply Z.pow_pos_nonneg; lia.
Qed.

Lemma le_bytes_value l : Forall is_byte l -> le_bytes (length l) (le_value l) = l.
Proof.
  induction 1 as [| b l Hb Hl IH]; [done |]. cbn [length le_value le_bytes]. unfold is_byte in Hb.
  replace (b + 256 * le_value l) with (b + le_value l * 256) by lia.
  rewrite Z_mod_plus_full, Z.mod_small, Z.div_add, Z.div_small, Z.add_0_l by lia. by rewrite IH.
Qed.

Lemma le_value_range l : Forall is_byte l -> 0 <= le_value l < 2 ^ (8 * Z.of_nat (length l)).
Proof.
  induction 1 as [| b l Hb Hl IH]; [done |]. cbn [length le_value]. unfold is_byte in Hb.
  replace (8 * Z.of_nat (S (length l))) with (8 + 8 * Z.of_nat (length l)) by lia.
  rewrite Z.pow_add_r by lia. change (2 ^ 8) with 256. lia.
Qed.

Definition read_u16 : reader Z := read l <- read_exact 2; rd_ret (le_value l).
Definition read_u32 : reader Z := read l <- read_exact 4; rd_ret (le_value l).
Definition read_i32 : reader Z := read l <- read_exact 4; rd_ret (wrap_s 32 (le_value l)).

#[export] Hint Resolve read_u8_ok read_exact_ok : wire.

Lemma read_u16_ok : reader_ok read_u16. Proof. unfold read_u16. auto with wire. Qed.
Lemma read_u32_ok : reader_ok read_u32. Proof. unfold read_u32. auto with wire. Qed.
Lemma read_i32_ok : reader_ok read_i32. Proof. unfold read_i32. auto with wire. Qed.
#[export] Hint Resolve read_u16_ok read_u32_ok read_i32_ok : wire.

Lemma read_exact_app l s : read_exact (length l) (l ++ s) = ReadOk l s.
Proof.
  unfold read_exact. rewrite length_app. destruct (Nat.ltb_spec (length l + length s) (length l)); [lia |].
  by rewrite take_app_length, drop_app_length.
Qed.

Lemma read_u32_bytes z s : is_u32 z -> read_u32 (le_bytes 4 z ++ s) = ReadOk z s.
Proof.
  intros H. unfold read_u32, rd_bind. pose proof (read_exact_app (le_bytes 4 z) s) as E.
  rewrite le_bytes_length in E. rewrite E. unfold rd_ret. rewrite le_value_bytes, Z.mod_small; [done |].
  cbn. unfold_widths. lia.
Qed.

Lemma read_u16_bytes z s : 0 <= z <= 65535 -> read_u16 (le_bytes 2 z ++ s) = ReadOk z s.
Proof.
  intros H. unfold read_u16, rd_bind. pose proof (read_exact_app (le_bytes 2 z) s) as E.
  rewrite le_bytes_length in E. rewrite E. unfold rd_ret. rewrite le_value_bytes, Z.mod_small; [done |].
  cbn. lia.
Qed.

Lemma wrap_s_mod z : wrap_s 32 (z mod 2 ^ 32) = wrap_s 32 z.
Proof. unfold wrap_s. by rewrite Zplus_mod_idemp_l. Qed.

Lemma read_i32_bytes z s : is_i32 z -> read_i32 (le_bytes 4 z ++ s) = ReadOk z s.
Proof.
  intros H. unfold read_i32, rd_bind. pose proof (read_exact_app (le_bytes 4 z) s) as E.
  rewrite le_bytes_length in E. rewrite E. unfold rd_ret. rewrite le_value_bytes.
  change (8 * Z.of_nat 4) with 32. by rewrite wrap_s_mod, wrap32_id.
Qed.

(** A reader built from the combinators is well behaved. *)
Ltac reader_ok_tac :=
  repeat first
    [ apply rd_bind_ok; [| intros ?]
    | apply rd_if_ok
    | match goal with |- reader_ok (match ?x with _ => _ end) => destruct x end
    | solve [auto with wire] ].

(** ** The interface of a packet type *)

(** [wire_read] is [BinRead::read_options], [wire_write] [BinWrite::write_options],
    and [wire_valid] the values the writer accepts and the reader produces. *)
Class Wire (A : Type) : Type := {
  wire_read : reader A;
  wire_write : A -> bytes;
  wire_valid : A -> Prop }.

Class WireLaws (A : Type) `{Wire A} : Prop := {
  wire_reader_ok : reader_ok (wire_read (A := A));
  wire_read_nil : wire_read (A := A) [] = ReadEof;
  wire_roundtrip : forall (a : A) s, wire_valid a -> wire_read (wire_write a ++ s) = ReadOk a s }.
