(* ===== verification/Protocol.v ===== *)
(** The packet layer of [zohar-protocol]: phases ([phase.rs]), the handshake
    record ([handshake.rs]), control packets with their opcodes
    ([control_pkt.rs]) and the fixed-width fields of game packets
    ([game_pkt.rs]), with their readers, writers and [Wire] instances. *)
From S2P Require Import Prelude Wire.

(** ** Phases *)
Inductive PhaseId : Type := Phase_Handshake | Phase_Login | Phase_Select | Phase_Loading | Phase_InGame | Phase_Auth.
#[export] Instance PhaseId_eq_dec : EqDecision PhaseId.
Proof. solve_decision. Defined.

Definition PhaseId_repr (p : PhaseId) : Z :=
  match p with
  | Phase_Handshake => 1 | Phase_Login => 2 | Phase_Select => 3 | Phase_Loading => 4
  | Phase_InGame => 5 | Phase_Auth => 10
  end.

Definition PhaseId_of_repr (b : Z) : option PhaseId :=
  match b with
  | 1 => Some Phase_Handshake | 2 => Some Phase_Login | 3 => Some Phase_Select
  | 4 => Some Phase_Loading | 5 => Some Phase_InGame | 10 => Some Phase_Auth
  | _ => None
  end.

Definition PhaseId_read : reader PhaseId :=
  read b <- read_u8; match PhaseId_of_repr b with Some p => rd_ret p | None => rd_fail NoVariantMatch end.
Definition PhaseId_write (p : PhaseId) : bytes := [PhaseId_repr p].

Lemma PhaseId_read_ok : reader_ok PhaseId_read.
Proof. unfold PhaseId_read. apply rd_bind_ok; [auto with wire |]. intros b. destruct (PhaseId_of_repr b); auto with wire. Qed.
#[export] Hint Resolve PhaseId_read_ok : wire.

(** ** The handshake record *)
Record HandshakeSyncData : Type := { hsd_handshake : Z; hsd_time : Z; hsd_delta : Z }.

(** [WireDeltaMillis]: an [i32] that must not be negative, both ways. *)
Definition read_delta : reader Z :=
  read v <- read_i32; if 0 <=? v then rd_ret v else rd_fail AssertFail.

Definition HandshakeSyncData_read : reader HandshakeSyncData :=
  read handshake <- read_u32;
  read time <- read_u32;
  read delta <- read_delta;
  rd_ret {| hsd_handshake := handshake; hsd_time := time; hsd_delta := delta |}.

Definition HandshakeSyncData_write (d : HandshakeSyncData) : bytes :=
  le_bytes 4 (hsd_handshake d) ++ le_bytes 4 (hsd_time d) ++ le_bytes 4 (hsd_delta d).

Definition HandshakeSyncData_valid (d : HandshakeSyncData) : Prop :=
  is_u32 (hsd_handshake d) /\ is_u32 (hsd_time d) /\ 0 <= hsd_delta d <= i32_max.

Lemma HandshakeSyncData_read_ok : reader_ok HandshakeSyncData_read.
Proof.
  unfold HandshakeSyncData_read, read_delta. reader_ok_tac.
Qed.
#[export] Hint Resolve HandshakeSyncData_read_ok : wire.

Lemma HandshakeSyncData_roundtrip d s :
  HandshakeSyncData_valid d -> HandshakeSyncData_read (HandshakeSyncData_write d ++ s) = ReadOk d s.
Proof.
  intros (H1 & H2 & H3). unfold HandshakeSyncData_read, HandshakeSyncData_write, read_delta, rd_bind.
  rewrite <- !app_assoc, read_u32_bytes, read_u32_bytes, read_i32_bytes by (done || (unfold_widths; lia)).
  destruct (Z.leb_spec 0 (hsd_delta d)); [| lia]. unfold rd_ret. by destruct d.
Qed.

(** ** Control packets *)
Definition OPCODE_HEARTBEAT_REQUEST : Z := 0x2C.
Definition OPCODE_HEARTBEAT_RESPONSE : Z := 0xFE.
Definition OPCODE_HANDSHAKE_REQUEST : Z := 0xFF.
Definition OPCODE_HANDSHAKE_RESPONSE : Z := 0xFF.
Definition OPCODE_TIME_SYNC_REQUEST : Z := 0xFC.
Definition OPCODE_TIME_SYNC_RESPONSE : Z := 0xFC.
Definition OPCODE_SET_CLIENT_PHASE : Z := 0xFD.

Definition is_unsequenced_c2s_opcode (opcode : Z) : bool :=
  (opcode =? OPCODE_HEARTBEAT_RESPONSE) || (opcode =? OPCODE_HANDSHAKE_RESPONSE).

Inductive ControlC2s : Type :=
| HeartbeatResponse
| HandshakeResponse (data : HandshakeSyncData)
| RequestTimeSync (data : HandshakeSyncData).

Inductive ControlS2c : Type :=
| RequestHeartbeat
| RequestHandshake (data : HandshakeSyncData)
| TimeSyncResponse
| SetClientPhase (phase : PhaseId).

Definition read_control_c2s_with_opcode (opcode : Z) : reader (option ControlC2s) :=
  if opcode =? OPCODE_HEARTBEAT_RESPONSE then rd_ret (Some HeartbeatResponse)
  else if opcode =? OPCODE_HANDSHAKE_RESPONSE then
    read data <- HandshakeSyncData_read; rd_ret (Some (HandshakeResponse data))
  else if opcode =? OPCODE_TIME_SYNC_REQUEST then
    read data <- HandshakeSyncData_read; rd_ret (Some (RequestTimeSync data))
  else rd_ret None.

Definition read_control_s2c_with_opcode (opcode : Z) : reader (option ControlS2c) :=
  if opcode =? OPCODE_HEARTBEAT_REQUEST then rd_ret (Some RequestHeartbeat)
  else if opcode =? OPCODE_HANDSHAKE_REQUEST then
    read data <- HandshakeSyncData_read; rd_ret (Some (RequestHandshake data))
  else if opcode =? OPCODE_TIME_SYNC_RESPONSE then rd_ret (Some TimeSyncResponse)
  else if opcode =? OPCODE_SET_CLIENT_PHASE then
    read phase <- PhaseId_read; rd_ret (Some (SetClientPhase phase))
  else rd_ret None.

Definition ControlC2s_opcode (p : ControlC2s) : Z :=
  match p with
  | HeartbeatResponse => OPCODE_HEARTBEAT_RESPONSE
  | HandshakeResponse _ => OPCODE_HANDSHAKE_RESPONSE
  | RequestTimeSync _ => OPCODE_TIME_SYNC_REQUEST
  end.

Definition ControlS2c_opcode (p : ControlS2c) : Z :=
  match p with
  | RequestHeartbeat => OPCODE_HEARTBEAT_REQUEST
  | RequestHandshake _ => OPCODE_HANDSHAKE_REQUEST
  | TimeSyncResponse => OPCODE_TIME_SYNC_RESPONSE
  | SetClientPhase _ => OPCODE_SET_CLIENT_PHASE
  end.

Definition ControlC2s_read : reader ControlC2s :=
  read opcode <- read_u8;
  read control <- read_control_c2s_with_opcode opcode;
  match control with Some control => rd_ret control | None => rd_fail AssertFail end.

Definition ControlS2c_read : reader ControlS2c :=
  read opcode <- read_u8;
  read control <- read_control_s2c_with_opcode opcode;
  match control with Some control => rd_ret control | None => rd_fail AssertFail end.

Definition ControlC2s_write (p : ControlC2s) : bytes :=
  ControlC2s_opcode p ::
  match p with
  | HeartbeatResponse => []
  | HandshakeResponse data | RequestTimeSync data => HandshakeSyncData_write data
  end.

Definition ControlS2c_write (p : ControlS2c) : bytes :=
  ControlS2c_opcode p ::
  match p with
  | RequestHeartbeat | TimeSyncResponse => []
  | RequestHandshake data => HandshakeSyncData_write data
  | SetClientPhase phase => PhaseId_write phase
  end.

Definition ControlC2s_valid (p : ControlC2s) : Prop :=
  match p with
  | HeartbeatResponse => True
  | HandshakeResponse data | RequestTimeSync data => HandshakeSyncData_valid data
  end.
Definition ControlS2c_valid (p : ControlS2c) : Prop :=
  match p with RequestHandshake data => HandshakeSyncData_valid data | _ => True end.

#[export] Instance ControlC2s_wire : Wire ControlC2s :=
  {| wire_read := ControlC2s_read; wire_write := ControlC2s_write; wire_valid := ControlC2s_valid |}.
#[export] Instance ControlS2c_wire : Wire ControlS2c :=
  {| wire_read := ControlS2c_read; wire_write := ControlS2c_write; wire_valid := ControlS2c_valid |}.

#[export] Instance ControlC2s_laws : WireLaws ControlC2s.
Proof.
  split.
  - cbn [wire_read ControlC2s_wire]. unfold ControlC2s_read, read_control_c2s_with_opcode. reader_ok_tac.
  - reflexivity.
  - intros p s Hv. cbn [wire_read wire_write ControlC2s_wire]. unfold ControlC2s_read, rd_bind.
    destruct p as [| d | d]; cbn [ControlC2s_write ControlC2s_opcode app read_u8];
      [done | |]; unfold read_control_c2s_with_opcode, rd_bind; cbn [Z.eqb Pos.eqb OPCODE_HEARTBEAT_RESPONSE
        OPCODE_HANDSHAKE_RESPONSE OPCODE_TIME_SYNC_REQUEST];
      by rewrite HandshakeSyncData_roundtrip.
Qed.

#[export] Instance ControlS2c_laws : WireLaws ControlS2c.
Proof.
  split.
  - cbn [wire_read ControlS2c_wire]. unfold ControlS2c_read, read_control_s2c_with_opcode. reader_ok_tac.
  - reflexivity.
  - intros p s Hv. cbn [wire_read wire_write ControlS2c_wire]. unfold ControlS2c_read, rd_bind.
    destruct p as [| d | | ph]; cbn [ControlS2c_write ControlS2c_opcode app read_u8]; [done | | done | by destruct ph].
    unfold read_control_s2c_with_opcode, rd_bind; cbn [Z.eqb Pos.eqb OPCODE_HEARTBEAT_REQUEST OPCODE_HANDSHAKE_REQUEST].
    by rewrite HandshakeSyncData_roundtrip.
Qed.
