(* ===== verification/GamePacket.v ===== *)
(** Fields and packets of the game protocol: fixed-width strings, zero-as-none
    fields and server addresses ([game_pkt.rs]), the opcode router
    ([route_packets.rs]) and the packets of the handshake and login phases
    ([game_pkt/handshake.rs], [game_pkt/login.rs]). *)
From S2P Require Import Prelude Wire Protocol.

(** ** [FixedString<N>] *)
Record FixedString : Type := { fs_buf : bytes; fs_len : nat }.

Section FixedString.
Variable N : nat.

Definition FixedString_default : FixedString := {| fs_buf := repeat 0 N; fs_len := 0 |}.

(** Create from the UTF-8 bytes of a string, truncating if necessary. *)
Definition FixedString_new (s : bytes) : FixedString :=
  let max_content := (N - 1)%nat in
  let copy_len := Nat.min (length s) max_content in
  {| fs_buf := take copy_len s ++ repeat 0 (N - copy_len)%nat; fs_len := copy_len |}.

(** [buf.iter().position(|&b| b == 0)] *)
Fixpoint position_zero (l : bytes) : option nat :=
  match l with
  | [] => None
  | b :: l => if b =? 0 then Some O else S <$> position_zero l
  end.

Definition FixedString_read : reader FixedString :=
  read buf <- read_exact N;
  rd_ret {| fs_buf := buf; fs_len := default N (position_zero buf) |}.

Definition FixedString_write (f : FixedString) : bytes := fs_buf f.

(** The text, before the lossy UTF-8 conversion. *)
Definition FixedString_content (f : FixedString) : bytes := take (fs_len f) (fs_buf f).

Lemma FixedString_read_ok : reader_ok FixedString_read.
Proof. unfold FixedString_read. reader_ok_tac. Qed.

Lemma position_zero_app (l : bytes) n :
  ~ (0 ∈ l) -> position_zero (l ++ repeat 0 n) = if (n =? 0)%nat then None else Some (length l).
Proof.
  intros Hl. induction l as [| b l IH]; cbn [app position_zero length].
  - by destruct n.
  - rewrite not_elem_of_cons in Hl. destruct Hl as [Hb Hl]. rewrite IH by done.
    destruct (Z.eqb_spec b 0); [congruence |]. by destruct (n =? 0)%nat.
Qed.

(** Fixed-width strings: a string without NUL bytes is written in exactly
    [N] bytes, truncated to [N - 1] so that a terminator always fits, and read
    back as the same value with the same text. *)
Theorem FixedString_roundtrip s rest :
  (0 < N)%nat -> ~ (0 ∈ s) ->
  let f := FixedString_new s in
  length (FixedString_write f) = N /\
  FixedString_content f = take (N - 1) s /\
  FixedString_read (FixedString_write f ++ rest) = ReadOk f rest.
Proof.
  intros HN Hs. cbv zeta. unfold FixedString_new. set (k := Nat.min (length s) (N - 1)).
  assert (length (take k s ++ repeat 0 (N - k)%nat) = N) as HL
    by (rewrite length_app, length_take, repeat_length; lia).
  assert (length (take k s) = k) as HK by (rewrite length_take; lia).
  split; [done |]. unfold FixedString_content, FixedString_write, FixedString_read, rd_bind.
  cbn [fs_buf fs_len]. split.
  - rewrite take_app_length' by done. unfold k. destruct (Nat.min_spec (length s) (N - 1)) as [[L ->] | [L ->]]; [| done].
    by rewrite !take_ge by lia.
  - pose proof (read_exact_app (take k s ++ repeat 0 (N - k)%nat) rest) as E. rewrite HL in E. rewrite E.
    unfold rd_ret. rewrite position_zero_app.
    + destruct (Nat.eqb_spec (N - k) 0); [lia |]. cbn. by rewrite HK.
    + intros H. apply Hs. rewrite <- (take_drop k s). by apply elem_of_app; left.
Qed.
End FixedString.

Definition PLAYER_NAME_MAX_LENGTH : nat := 25.

Lemma FixedString_roundtrip_witness :
  FixedString_read 25 (FixedString_write (FixedString_new 25 [90; 111; 104; 97; 114]) ++ [7]) =
    ReadOk (FixedString_new 25 [90; 111; 104; 97; 114]) [7].
Proof.
  apply (FixedString_roundtrip 25 [90; 111; 104; 97; 114] [7]); [lia |].
  rewrite !not_elem_of_cons. split_and!; (lia || apply not_elem_of_nil).
Defined.

(** ** [ZeroOpt<T>]: a value whose zero encoding means none *)
Class ZeroFallback (T : Type) : Type := {
  zf_width : nat;
  zf_try_from_primitive : Z -> option T;
  zf_into_primitive : T -> Z }.

Class ZeroFallbackLaws (T : Type) `{ZeroFallback T} : Prop := {
  zf_range : forall t : T, 0 <= zf_into_primitive t < 2 ^ (8 * Z.of_nat (zf_width (T := T)));
  zf_try_into : forall t : T, zf_try_from_primitive (zf_into_primitive t) = Some t }.

Section ZeroOpt.
Context {T : Type} `{ZF : ZeroFallback T}.

Definition ZeroOpt_read : reader (option T) :=
  read l <- read_exact zf_width;
  let raw := le_value l in
  if raw =? 0 then rd_ret None
  else match zf_try_from_primitive raw with
       | Some value => rd_ret (Some value)
       | None => rd_fail AssertFail
       end.

Definition ZeroOpt_write (v : option T) : bytes :=
  le_bytes zf_width (match v with Some t => zf_into_primitive t | None => 0 end).

Lemma ZeroOpt_read_ok : reader_ok ZeroOpt_read.
Proof. unfold ZeroOpt_read. reader_ok_tac. Qed.

(** An optional field encoded with zero as none reads back as it was
    written, except that a present value whose own encoding is zero comes back
    as none. *)
Theorem ZeroOpt_roundtrip `{!ZeroFallbackLaws T} (v : option T) rest :
  ZeroOpt_read (ZeroOpt_write v ++ rest) =
    ReadOk (match v with
            | Some t => if zf_into_primitive t =? 0 then None else Some t
            | None => None end) rest.
Proof.
  unfold ZeroOpt_read, ZeroOpt_write, rd_bind.
  set (z := match v with Some t => zf_into_primitive t | None => 0 end).
  pose proof (read_exact_app (le_bytes zf_width z) rest) as E. rewrite le_bytes_length in E. rewrite E.
  rewrite le_value_bytes.
  assert (0 <= z < 2 ^ (8 * Z.of_nat (zf_width (T := T)))) as Hz.
  { unfold z. destruct v; [apply zf_range |]. split; [done |]. apply Z.pow_pos_nonneg; lia. }
  rewrite Z.mod_small by done. unfold z. destruct v as [t |]; [| done].
  destruct (zf_into_primitive t =? 0); [done |]. by rewrite zf_try_into.
Qed.
End ZeroOpt.

(** [Empire] and [PlayerClassGendered] on the wire. *)
Inductive WireEmpire : Type := WireEmpire_Red | WireEmpire_Yellow | WireEmpire_Blue.
#[export] Instance WireEmpire_zf : ZeroFallback WireEmpire :=
  {| zf_width := 1;
     zf_try_from_primitive := fun z =>
       match z with 1 => Some WireEmpire_Red | 2 => Some WireEmpire_Yellow | 3 => Some WireEmpire_Blue | _ => None end;
     zf_into_primitive := fun e =>
       match e with WireEmpire_Red => 1 | WireEmpire_Yellow => 2 | WireEmpire_Blue => 3 end |}.
#[export] Instance WireEmpire_zf_laws : ZeroFallbackLaws WireEmpire.
Proof. split; by intros []. Qed.

Lemma ZeroOpt_roundtrip_witness :
  ZeroOpt_read (ZeroOpt_write (Some WireEmpire_Blue) ++ [9]) = ReadOk (Some WireEmpire_Blue) [9].
Proof. exact (ZeroOpt_roundtrip (Some WireEmpire_Blue) [9]). Defined.

(** ** Server addresses *)
Record WireServerAddr : Type := { srv_ipv4_addr : Z; srv_port : Z }.
Definition UNROUTABLE : WireServerAddr := {| srv_ipv4_addr := 0; srv_port := 0 |}.

(** An IP address as its octets: four, or sixteen of which an IPv4-mapped one
    starts with ten zeros and two [0xFF]. *)
Inductive IpAddr : Type := IpV4 (octets : bytes) | IpV6 (octets : bytes).

Definition to_ipv4_mapped (octets : bytes) : option bytes :=
  if bool_decide (take 12 octets = repeat 0 10 ++ [255; 255]) then Some (drop 12 octets) else None.

Definition from_socket_addr (ip : IpAddr) (port : Z) : option WireServerAddr :=
  octets ← match ip with IpV4 o => Some o | IpV6 o => to_ipv4_mapped o end;
  Some {| srv_ipv4_addr := wrap_s 32 (le_value octets); srv_port := port |}.

Definition WireServerAddr_read : reader WireServerAddr :=
  read ip <- read_i32; read port <- read_u16; rd_ret {| srv_ipv4_addr := ip; srv_port := port |}.
Definition WireServerAddr_write (a : WireServerAddr) : bytes :=
  le_bytes 4 (srv_ipv4_addr a) ++ le_bytes 2 (srv_port a).

(** ** The opcode router *)

(** Peek the opcode, seek back, and read the sub-packet it selects. *)
Definition route_packets {A} (routes : Z -> option (reader A)) : reader A := fun l =>
  match l with
  | [] => ReadEof
  | opcode :: _ =>
      match routes opcode with Some r => r l | None => ReadErr AssertFail end
  end.

Definition rd_map {A B} (f : A -> B) (r : reader A) : reader B := read a <- r; rd_ret (f a).

(** A routed reader waits for its opcode, so the chunk it consumes is not empty. *)
Lemma reader_ok_cons {A} (r : reader A) : reader_ok r -> r [] = ReadEof ->
  forall b l a rest, r (b :: l) = ReadOk a rest ->
  exists c, l = c ++ rest /\ (forall s, r (b :: c ++ s) = ReadOk a s) /\
    (forall p q, c = p ++ q -> q <> [] -> r (b :: p) = ReadEof).
Proof.
  intros Hr Hnil b l a rest E. destruct (ro_ok _ Hr _ _ _ E) as ([| b' c] & Ec & S & P).
  - specialize (S []). cbn in S. congruence.
  - injection Ec as <- ->. exists c. split; [done |]. split; [exact S |].
    intros p q -> Hq. by apply (P (b :: p) q).
Qed.

Lemma route_packets_ok {A} (routes : Z -> option (reader A)) :
  (forall opcode r, routes opcode = Some r -> reader_ok r /\ r [] = ReadEof) ->
  reader_ok (route_packets routes).
Proof.
  intros H. split; unfold route_packets.
  - intros [| b l] a rest E; [done |]. destruct (routes b) as [r |] eqn:R; [| done].
    destruct (H _ _ R) as [Hr Hnil].
    destruct (reader_ok_cons r Hr Hnil _ _ _ _ E) as (c & -> & S & P).
    exists (b :: c). split; [done |]. split.
    + intros s. cbn [app]. rewrite R. exact (S s).
    + intros [| x p] q Ep Hq; [done |]. injection Ep as <- ->. rewrite R. by apply (P p q).
  - intros [| b l] e s E; [done |]. cbn [app]. destruct (routes b) as [r |] eqn:R; [| done].
    destruct (H _ _ R) as [Hr _]. exact (ro_err _ Hr (b :: l) e s E).
Qed.

Lemma rd_map_ok {A B} (f : A -> B) (r : reader A) : reader_ok r -> reader_ok (rd_map f r).
Proof. intros H. unfold rd_map. apply rd_bind_ok; [done |]. intros a. apply rd_ret_ok. Qed.

(** A packet of a phase: a control packet or one of the phase's own. *)
Inductive PhasePacket (Ctl Spec : Type) : Type := Control (c : Ctl) | Specific (s : Spec).
Arguments Control {Ctl Spec} c.
Arguments Specific {Ctl Spec} s.

Section Routed.
Context {Ctl Spec : Type} `{WireLaws Ctl} `{WireLaws Spec}.
Variable control_opcodes specific_opcodes : list Z.

Definition phase_routes (opcode : Z) : option (reader (PhasePacket Ctl Spec)) :=
  if bool_decide (opcode ∈ control_opcodes) then Some (rd_map Control wire_read)
  else if bool_decide (opcode ∈ specific_opcodes) then Some (rd_map Specific wire_read)
  else None.

Definition phase_write (p : PhasePacket Ctl Spec) : bytes :=
  match p with Control c => wire_write c | Specific s => wire_write s end.

(** A value is sent under an opcode of its own route. *)
Definition phase_valid (p : PhasePacket Ctl Spec) : Prop :=
  match p with
  | Control c => wire_valid c /\ exists b l, wire_write c = b :: l /\ b ∈ control_opcodes
  | Specific s => wire_valid s /\ exists b l, wire_write s = b :: l /\ b ∈ specific_opcodes /\ ~ (b ∈ control_opcodes)
  end.

Definition routed_wire : Wire (PhasePacket Ctl Spec) :=
  {| wire_read := route_packets phase_routes; wire_write := phase_write; wire_valid := phase_valid |}.

Lemma routed_laws : @WireLaws _ routed_wire.
Proof.
  split; cbn [wire_read wire_write wire_valid routed_wire].
  - apply route_packets_ok. intros opcode r. unfold phase_routes.
    repeat case_bool_decide; intros [= <-]; (split; [apply rd_map_ok, wire_reader_ok |
      unfold rd_map, rd_bind; by rewrite wire_read_nil]).
  - done.
  - intros [c | c] s; cbn [phase_valid phase_write].
    + intros (Hv & b & l & E & Hb). pose proof (wire_roundtrip c s Hv) as R. rewrite E in R |- *.
      cbn [app route_packets]. unfold phase_routes. rewrite bool_decide_true by done.
      unfold rd_map, rd_bind. cbn [app] in R. by rewrite R.
    + intros (Hv & b & l & E & Hb & Hb'). pose proof (wire_roundtrip c s Hv) as R. rewrite E in R |- *.
      cbn [app route_packets]. unfold phase_routes. rewrite bool_decide_false, bool_decide_true by done.
      unfold rd_map, rd_bind. cbn [app] in R. by rewrite R.
Qed.
End Routed.

(** ** Pieces of the packet declarations *)

(** [#[brw(magic = ...)]] on a packet: its opcode. *)
Definition rd_magic (m : Z) : reader unit :=
  read b <- read_u8; if b =? m then rd_ret tt else rd_fail BadMagic.

Lemma rd_magic_ok m : reader_ok (rd_magic m).
Proof. unfold rd_magic. reader_ok_tac. Qed.
#[export] Hint Resolve rd_magic_ok : wire.

(** [#[br(count = size)]]: that many elements one after another. *)
Fixpoint rd_count {A} (r : reader A) (n : nat) : reader (list A) :=
  match n with
  | O => rd_ret []
  | S n => read a <- r; read l <- rd_count r n; rd_ret (a :: l)
  end.

Lemma rd_count_ok {A} (r : reader A) n : reader_ok r -> reader_ok (rd_count r n).
Proof. intros Hr. induction n as [| n IH]; cbn [rd_count]; reader_ok_tac; done. Qed.

Lemma rd_count_app {A} (r : reader A) (w : A -> bytes) l s :
  Forall (fun a => forall s, r (w a ++ s) = ReadOk a s) l ->
  rd_count r (length l) (concat (w <$> l) ++ s) = ReadOk l s.
Proof.
  induction 1 as [| a l Ha Hl IH]; [done |]. cbn [length rd_count fmap list_fmap concat]. unfold rd_bind.
  rewrite <- app_assoc, Ha. fold (fmap (M := list) w). by rewrite IH.
Qed.

(** ** Handshake phase packets *)
Inductive ServerStatus : Type := Offline | Online | OnlineBusy | Full.
Definition ServerStatus_repr (s : ServerStatus) : Z :=
  match s with Offline => 0 | Online => 1 | OnlineBusy => 2 | Full => 3 end.
Definition ServerStatus_read : reader ServerStatus :=
  read b <- read_u8;
  match b with
  | 0 => rd_ret Offline | 1 => rd_ret Online | 2 => rd_ret OnlineBusy | 3 => rd_ret Full
  | _ => rd_fail NoVariantMatch
  end.

Record ServerInfo : Type := { si_srv_port : Z; si_status : ServerStatus }.
Definition ServerInfo_read : reader ServerInfo :=
  read port <- read_u16; read status <- ServerStatus_read; rd_ret {| si_srv_port := port; si_status := status |}.
Definition ServerInfo_write (i : ServerInfo) : bytes :=
  le_bytes 2 (si_srv_port i) ++ [ServerStatus_repr (si_status i)].

Lemma ServerInfo_read_ok : reader_ok ServerInfo_read.
Proof. unfold ServerInfo_read, ServerStatus_read. reader_ok_tac. Qed.
#[export] Hint Resolve ServerInfo_read_ok rd_count_ok : wire.

Lemma ServerInfo_roundtrip i s :
  0 <= si_srv_port i <= 65535 -> ServerInfo_read (ServerInfo_write i ++ s) = ReadOk i s.
Proof.
  intros H. unfold ServerInfo_read, ServerInfo_write, rd_bind. rewrite <- app_assoc, read_u16_bytes by done.
  by destruct i as [p []].
Qed.

Inductive HandshakeGameC2sSpecific : Type := FetchChannelList.
Inductive HandshakeGameS2cSpecific : Type := ChannelListResponse (statuses : list ServerInfo) (is_ok : Z).

#[export] Instance HandshakeGameC2sSpecific_wire : Wire HandshakeGameC2sSpecific :=
  {| wire_read := read _ <- rd_magic 0xCE; rd_ret FetchChannelList;
     wire_write := fun _ => [0xCE];
     wire_valid := fun _ => True |}.

#[export] Instance HandshakeGameS2cSpecific_wire : Wire HandshakeGameS2cSpecific :=
  {| wire_read :=
       read _ <- rd_magic 0xD2;
       read size <- read_u32;
       read statuses <- rd_count ServerInfo_read (Z.to_nat size);
       read is_ok <- read_u8;
       rd_ret (ChannelListResponse statuses is_ok);
     wire_write := fun '(ChannelListResponse statuses is_ok) =>
       0xD2 :: le_bytes 4 (Z.of_nat (length statuses)) ++ concat (ServerInfo_write <$> statuses) ++ [is_ok];
     wire_valid := fun '(ChannelListResponse statuses is_ok) =>
       Z.of_nat (length statuses) <= u32_max /\ is_byte is_ok /\
       Forall (fun i => 0 <= si_srv_port i <= 65535) statuses |}.

#[export] Instance HandshakeGameC2sSpecific_laws : WireLaws HandshakeGameC2sSpecific.
Proof. split; cbn [wire_read HandshakeGameC2sSpecific_wire]; [reader_ok_tac | done |]. by intros []. Qed.

#[export] Instance HandshakeGameS2cSpecific_laws : WireLaws HandshakeGameS2cSpecific.
Proof.
  split; cbn [wire_read HandshakeGameS2cSpecific_wire]; [reader_ok_tac | done |].
  intros [statuses is_ok] s (Hn & Hb & Hs). cbn [wire_write wire_valid HandshakeGameS2cSpecific_wire] in *.
  unfold rd_bind at 1. cbn [app]. unfold rd_magic, rd_bind at 1. cbn [read_u8 Z.eqb Pos.eqb]. unfold rd_ret at 1.
  assert (is_u32 (Z.of_nat (length statuses))) as Hu by (unfold_widths; lia).
  unfold rd_bind. rewrite <- app_assoc, read_u32_bytes by done.
  rewrite Nat2Z.id, <- app_assoc, rd_count_app; [done |].
  eapply Forall_impl; [exact Hs |]. intros i Hi s'. by apply ServerInfo_roundtrip.
Qed.

Definition HandshakeGameC2s : Type := PhasePacket ControlC2s HandshakeGameC2sSpecific.
Definition HandshakeGameS2c : Type := PhasePacket ControlS2c HandshakeGameS2cSpecific.
Definition c2s_control_opcodes : list Z := [0xFE; 0xFF; 0xFC].
Definition s2c_control_opcodes : list Z := [0x2C; 0xFF; 0xFC; 0xFD].

#[export] Instance HandshakeGameC2s_wire : Wire HandshakeGameC2s := routed_wire c2s_control_opcodes [0xCE].
#[export] Instance HandshakeGameC2s_laws : WireLaws HandshakeGameC2s.
Proof. apply routed_laws. Qed.
#[export] Instance HandshakeGameS2c_wire : Wire HandshakeGameS2c := routed_wire s2c_control_opcodes [0xD2].
#[export] Instance HandshakeGameS2c_laws : WireLaws HandshakeGameS2c.
Proof. apply routed_laws. Qed.

(** ** Login phase packets *)
Inductive LoginC2sSpecific : Type := RequestTokenLogin (username : bytes) (token : Z) (enc_key : bytes).

#[export] Instance LoginC2sSpecific_wire : Wire LoginC2sSpecific :=
  {| wire_read :=
       read _ <- rd_magic 0x6D;
       read username <- read_exact 31;
       read token <- read_u32;
       read enc_key <- read_exact 16;
       rd_ret (RequestTokenLogin username token enc_key);
     wire_write := fun '(RequestTokenLogin username token enc_key) =>
       0x6D :: username ++ le_bytes 4 token ++ enc_key;
     wire_valid := fun '(RequestTokenLogin username token enc_key) =>
       length username = 31%nat /\ is_u32 token /\ length enc_key = 16%nat |}.

#[export] Instance LoginC2sSpecific_laws : WireLaws LoginC2sSpecific.
Proof.
  split; cbn [wire_read LoginC2sSpecific_wire]; [reader_ok_tac | done |].
  intros [u t k] s (Hu & Ht & Hk). cbn [wire_write LoginC2sSpecific_wire].
  unfold rd_bind at 1. cbn [app]. unfold rd_magic, rd_bind at 1. cbn [read_u8 Z.eqb Pos.eqb]. unfold rd_ret at 1.
  unfold rd_bind. rewrite <- Hu, <- app_assoc, read_exact_app, <- app_assoc, read_u32_bytes by done.
  rewrite <- Hk. by rewrite read_exact_app.
Qed.

Definition LoginC2s : Type := PhasePacket ControlC2s LoginC2sSpecific.
#[export] Instance LoginC2s_wire : Wire LoginC2s := routed_wire c2s_control_opcodes [0x6D].
#[export] Instance LoginC2s_laws : WireLaws LoginC2s.
Proof. apply routed_laws. Qed.

(** Every valid control packet and every valid login request can be sent in the
    login phase. *)
Lemma c2s_control_routed (c : ControlC2s) :
  exists b l, wire_write c = b :: l /\ b ∈ c2s_control_opcodes.
Proof. unfold c2s_control_opcodes. destruct c; eexists _, _; (split; [reflexivity |]); rewrite !elem_of_cons; auto. Qed.

Lemma LoginC2s_valid (p : LoginC2s) :
  match p with Control c => wire_valid c | Specific s => wire_valid s end -> wire_valid p.
Proof.
  destruct p as [c | [u t k]]; intros H.
  - split; [exact H | apply c2s_control_routed].
  - split; [exact H |]. eexists _, _. split; [reflexivity |]. unfold c2s_control_opcodes. split; [by left |].
    rewrite !not_elem_of_cons. split_and!; (lia || apply not_elem_of_nil).
Qed.
