(* ===== verification/Codec.v ===== *)
(** The packet codecs of a connection ([zohar-net/src/codec.rs]) and the packet
    sequencer ([zohar-protocol/src/pkt_seq.rs]).

    [decode] of either codec is an instance of [Decoder], the interface of
    [tokio_util::codec::Decoder]; the laws [DecoderLaws] are what a framed stream
    relies on.  Against the interface alone: how the bytes of a connection are
    cut into reads never changes what is received.  For the sequenced codec: a
    client's stream decodes to its packets, and a wrong sequence byte stops it. *)
From S2P Require Import Prelude Wire Protocol GamePacket.

(** ** [PacketSequencer] *)
Record SequenceMismatchError : Type := { sme_expected : Z; sme_got : Z }.

Record PacketSequencer : Type := {
  seq_bytes : bytes;
  seq_pos : nat;
  last_mismatch : option SequenceMismatchError }.

(** [PacketSequencer::default()], of the table compiled into the binary. *)
Definition PacketSequencer_default (SEQ_BYTES_RAW : bytes) : PacketSequencer :=
  {| seq_bytes := SEQ_BYTES_RAW; seq_pos := 0; last_mismatch := None |}.

(** [None] is the panic of an index out of the table. *)
Definition expected (s : PacketSequencer) : option Z := seq_bytes s !! seq_pos s.

Definition next_byte (s : PacketSequencer) : option (Z * PacketSequencer) :=
  byte ← seq_bytes s !! seq_pos s;
  let pos := S (seq_pos s) in
  Some (byte, {| seq_bytes := seq_bytes s;
                 seq_pos := if (pos =? length (seq_bytes s))%nat then 0%nat else pos;
                 last_mismatch := last_mismatch s |}).

Definition seq_check (s : PacketSequencer) (got : Z) : option (bool * PacketSequencer) :=
  '(exp, s) ← next_byte s;
  let matches := got =? exp in
  Some (matches, {| seq_bytes := seq_bytes s; seq_pos := seq_pos s;
                    last_mismatch := if matches then None else Some {| sme_expected := exp; sme_got := got |} |}).

(** [SequenceMismatchError::from] *)
Definition SequenceMismatchError_from (s : PacketSequencer) (got : Z) : SequenceMismatchError :=
  default {| sme_expected := got; sme_got := got |} (last_mismatch s).

(** The sequencer is inside its table. *)
Definition seq_wf (s : PacketSequencer) : Prop := (seq_pos s < length (seq_bytes s))%nat.

(** The byte a sequencer expects, and itself [k] bytes further. *)
Definition seq_at (s : PacketSequencer) (k : nat) : nat := ((seq_pos s + k) mod length (seq_bytes s))%nat.
Definition seq_byte (s : PacketSequencer) (k : nat) : Z := nth (seq_at s k) (seq_bytes s) 0.
Definition seq_advance (s : PacketSequencer) (k : nat) : PacketSequencer :=
  {| seq_bytes := seq_bytes s; seq_pos := seq_at s k;
     last_mismatch := match k with O => last_mismatch s | S _ => None end |}.

Lemma seq_at_0 s : seq_wf s -> seq_at s 0 = seq_pos s.
Proof. intros H. unfold seq_at. rewrite Nat.add_0_r. by apply Nat.mod_small. Qed.

Lemma seq_at_S s k : seq_wf s ->
  seq_at s (S k) = if (S (seq_at s k) =? length (seq_bytes s))%nat then 0%nat else S (seq_at s k).
Proof.
  unfold seq_wf, seq_at. intros H. set (n := length (seq_bytes s)) in *.
  replace (seq_pos s + S k)%nat with (seq_pos s + k + 1)%nat by lia.
  rewrite <- (Nat.Div0.add_mod_idemp_l (seq_pos s + k) 1 n). pose proof (Nat.mod_upper_bound (seq_pos s + k) n).
  rewrite Nat.add_1_r. destruct (Nat.eqb_spec (S ((seq_pos s + k) mod n)) n) as [-> | E].
  - by apply Nat.Div0.mod_same.
  - apply Nat.mod_small. lia.
Qed.

Lemma seq_at_lt s k : seq_wf s -> (seq_at s k < length (seq_bytes s))%nat.
Proof. unfold seq_wf, seq_at. intros H. apply Nat.mod_upper_bound. lia. Qed.

Lemma seq_advance_0 s : seq_wf s -> seq_advance s 0 = s.
Proof. intros H. unfold seq_advance. rewrite seq_at_0 by done. by destruct s. Qed.

Lemma seq_lookup s k : seq_wf s -> seq_bytes s !! seq_at s k = Some (seq_byte s k).
Proof.
  intros H. pose proof (seq_at_lt s k H). unfold seq_byte.
  destruct (nth_lookup_or_length (seq_bytes s) (seq_at s k) 0); [done | lia].
Qed.

Lemma next_byte_advance s k : seq_wf s ->
  next_byte (seq_advance s k) =
    Some (seq_byte s k, {| seq_bytes := seq_bytes s; seq_pos := seq_at s (S k);
                           last_mismatch := last_mismatch (seq_advance s k) |}).
Proof.
  intros H. unfold next_byte, seq_advance. cbn [seq_bytes seq_pos last_mismatch].
  rewrite seq_lookup by done. cbn [mbind option_bind]. by rewrite seq_at_S.
Qed.

Lemma seq_check_advance s k got : seq_wf s ->
  seq_check (seq_advance s k) got =
    Some (got =? seq_byte s k,
          if got =? seq_byte s k then seq_advance s (S k)
          else {| seq_bytes := seq_bytes s; seq_pos := seq_at s (S k);
                  last_mismatch := Some {| sme_expected := seq_byte s k; sme_got := got |} |}).
Proof.
  intros H. unfold seq_check. rewrite next_byte_advance by done. cbn [mbind option_bind seq_bytes seq_pos].
  by destruct (got =? seq_byte s k).
Qed.

(** Taking [k] bytes from the sequencer. *)
Fixpoint next_bytes (s : PacketSequencer) (k : nat) : option (list Z * PacketSequencer) :=
  match k with
  | O => Some ([], s)
  | S k => '(b, s) ← next_byte s; '(l, s) ← next_bytes s k; Some (b :: l, s)
  end.

(** The sequencer never leaves its table: from a position inside it, any
    number of bytes can be taken without an index panic, the [i]-th of them is the
    table's entry at the starting position plus [i] modulo the table's length, and
    the position afterwards is the starting one plus their number, modulo the
    length. *)
Theorem next_bytes_cycle s k :
  seq_wf s ->
  exists l s', next_bytes s k = Some (l, s') /\ length l = k /\ seq_wf s' /\
    seq_bytes s' = seq_bytes s /\
    seq_pos s' = ((seq_pos s + k) mod length (seq_bytes s))%nat /\
    (forall i b, l !! i = Some b -> seq_bytes s !! ((seq_pos s + i) mod length (seq_bytes s))%nat = Some b).
Proof.
  revert s. induction k as [| k IH]; intros s H.
  - exists [], s. split_and!; try done. by rewrite <- (seq_at_0 s H) at 1.
  - cbn [next_bytes]. pose proof (next_byte_advance s 0 H) as E. rewrite seq_advance_0 in E by done. rewrite E.
    cbn [mbind option_bind]. set (s1 := Build_PacketSequencer _ _ _).
    assert (seq_wf s1) as H1 by (unfold seq_wf; apply (seq_at_lt s 1 H)).
    destruct (IH s1 H1) as (l & s' & -> & Hl & Hw & Hb & Hp & Hi). cbn [mbind option_bind].
    exists (seq_byte s 0 :: l), s'.
    assert (forall i, ((seq_at s 1 + i) mod length (seq_bytes s) = (seq_pos s + S i) mod length (seq_bytes s))%nat) as Hshift.
    { intros i. unfold seq_at. rewrite Nat.Div0.add_mod_idemp_l. f_equal. lia. }
    split_and!; try done.
    + cbn. by rewrite Hl.
    + rewrite Hp. apply Hshift.
    + intros [| i] b Hb'.
      * injection Hb' as <-. apply (seq_lookup s 0 H).
      * apply Hi in Hb'. cbn [s1 seq_bytes seq_pos] in Hb'. by rewrite Hshift in Hb'.
Qed.

(** The first bytes of [pkt_seq_default.bin]. *)
Definition seq_sample : bytes := [175; 202; 138; 207; 72; 167; 84; 199].

Lemma next_bytes_cycle_witness :
  exists s', next_bytes (PacketSequencer_default seq_sample) 9 = Some (seq_sample ++ [175], s') /\ seq_pos s' = 1%nat.
Proof.
  destruct (next_bytes_cycle (PacketSequencer_default seq_sample) 9) as (l & s' & E & _ & _ & _ & P & _);
    [unfold seq_wf; cbn; lia |].
  exists s'. split; [| exact P]. vm_compute in E. injection E as <- <-. reflexivity.
Defined.

(** ** The decoder interface *)

(** [std::io::Error]s of a decoder, all of kind [InvalidData]; their texts, which
    repeat the bytes received, are left out. *)
Inductive DecodeError : Type :=
| InvalidPacket (e : ReadError)
| SequenceMismatch (e : SequenceMismatchError).

Inductive io_result (A : Type) : Type := IoOk (a : A) | IoErr (e : DecodeError).
Arguments IoOk {A} a.
Arguments IoErr {A} e.

(** [decode] from the codec's state and the buffer to the answer and what they
    become; [None] is a panic. *)
Class Decoder (S I : Type) : Type := {
  decode : S -> bytes -> option (io_result (option I) * S * bytes);
  decode_wf : S -> Prop }.

Class DecoderLaws (S I : Type) `{Decoder S I} : Prop := {
  dl_total : forall (st : S) src, decode_wf st ->
    exists r st' src', decode st src = Some (r, st', src') /\ decode_wf st';
  dl_more : forall (st st' : S) src src', decode st src = Some (IoOk None, st', src') -> st' = st /\ src' = src;
  dl_packet : forall (st st' : S) src src' p s, decode st src = Some (IoOk (Some p), st', src') ->
    (length src' < length src)%nat /\ decode st (src ++ s) = Some (IoOk (Some p), st', src' ++ s);
  dl_error : forall (st st' : S) src src' e s, decode st src = Some (IoErr e, st', src') ->
    src' = src /\ decode st (src ++ s) = Some (IoErr e, st', src ++ s);
  dl_empty : forall st : S, decode st [] = Some (IoOk None, st, []) }.

(** ** The two codecs *)
Inductive Stateless : Type := MkStateless.
Record Sequenced : Type := { sequencer : PacketSequencer }.

Section Codecs.
Context {I : Type} `{WireLaws I}.

(** [SimpleBinRwCodec::decode] *)
Definition decode_simple (st : Stateless) (src : bytes) : option (io_result (option I) * Stateless * bytes) :=
  match src with
  | [] => Some (IoOk None, st, src)
  | _ :: _ =>
      match wire_read src with
      | ReadOk packet rest => Some (IoOk (Some packet), st, rest)
      | ReadEof => Some (IoOk None, st, src)
      | ReadErr e => Some (IoErr (InvalidPacket e), st, src)
      end
  end.

(** [SequencedBinRwCodec::decode] *)
Definition decode_sequenced (st : Sequenced) (src : bytes) : option (io_result (option I) * Sequenced * bytes) :=
  match src with
  | [] => Some (IoOk None, st, src)
  | opcode :: _ =>
      let has_sequence := negb (is_unsequenced_c2s_opcode opcode) in
      match wire_read src with
      | ReadEof => Some (IoOk None, st, src)
      | ReadErr e => Some (IoErr (InvalidPacket e), st, src)
      | ReadOk packet rest =>
          if has_sequence then
            match rest with
            | [] => Some (IoOk None, st, src)
            | seq_byte :: rest =>
                '(matches, s) ← seq_check (sequencer st) seq_byte;
                let st := {| sequencer := s |} in
                if negb matches : bool then
                  exp ← expected s;
                  Some (IoErr (SequenceMismatch {| sme_expected := exp; sme_got := seq_byte |}), st, src)
                else Some (IoOk (Some packet), st, rest)
            end
          else Some (IoOk (Some packet), st, rest)
      end
  end.

#[export] Instance Stateless_decoder : Decoder Stateless I :=
  {| decode := decode_simple; decode_wf := fun _ => True |}.
#[export] Instance Sequenced_decoder : Decoder Sequenced I :=
  {| decode := decode_sequenced; decode_wf := fun st => seq_wf (sequencer st) |}.

(** A packet takes at least one byte, whatever follows it. *)
Lemma wire_read_app (l : bytes) (p : I) rest s :
  wire_read l = ReadOk p rest -> (length rest < length l)%nat /\ wire_read (l ++ s) = ReadOk p (rest ++ s).
Proof.
  intros E. destruct (ro_ok _ wire_reader_ok _ _ _ E) as (c & -> & S & _).
  split; [| by rewrite <- app_assoc, S]. rewrite length_app. destruct c; [| cbn; lia].
  specialize (S []). cbn in S. by rewrite wire_read_nil in S.
Qed.

#[export] Instance Stateless_laws : DecoderLaws Stateless I.
Proof.
  split; cbn [decode decode_wf Stateless_decoder]; unfold decode_simple.
  - intros st [| b l] _; [by eauto 6 |]. destruct (wire_read (b :: l)); by eauto 6.
  - intros st st' [| b l] src' E; [by injection E as -> -> |].
    destruct (wire_read (b :: l)); try discriminate E; by injection E as -> ->.
  - intros st st' [| b l] src' p s E; [discriminate E |]. cbn [app].
    destruct (wire_read (b :: l)) as [q rest | |] eqn:R; try discriminate E. injection E as -> -> ->.
    destruct (wire_read_app _ _ _ s R) as [? R']. cbn [app] in R'. by rewrite R'.
  - intros st st' [| b l] src' e s E; [discriminate E |]. cbn [app].
    destruct (wire_read (b :: l)) as [| | e'] eqn:R; try discriminate E. injection E as <- <- <-.
    pose proof (ro_err _ wire_reader_ok _ _ s R) as R'. cbn [app] in R'. by rewrite R'.
  - done.
Qed.

Lemma seq_check_total (s : PacketSequencer) got : seq_wf s ->
  exists m s', seq_check s got = Some (m, s') /\ seq_wf s' /\ exists e, expected s' = Some e.
Proof.
  intros H1. pose proof (seq_check_advance s 0 got H1) as E. rewrite seq_advance_0 in E by done.
  eexists _, _. split; [exact E |].
  assert (seq_bytes s !! seq_at s 1 = Some (seq_byte s 1)) as L by (by apply seq_lookup).
  pose proof (seq_at_lt s 1 H1). destruct (got =? seq_byte s 0); (split; [done |]; eexists; exact L).
Qed.

#[export] Instance Sequenced_laws : DecoderLaws Sequenced I.
Proof.
  split; cbn [decode decode_wf Sequenced_decoder]; unfold decode_sequenced.
  - intros st [| b l] Hw; [by eauto 6 |]. destruct (wire_read (b :: l)) as [p rest | |]; [| by eauto 6 ..].
    destruct (negb _); [| by eauto 6]. destruct rest as [| y rest]; [by eauto 6 |].
    destruct (seq_check_total _ y Hw) as (m & s' & -> & Hw' & e & He). cbn [mbind option_bind].
    destruct m; cbn [negb]; [by eauto 6 |]. rewrite He. cbn. by eauto 6.
  - intros st st' [| b l] src' E; [by injection E as -> -> |].
    destruct (wire_read (b :: l)) as [p rest | |]; try discriminate E; [| by injection E as -> ->].
    destruct (negb _); [| discriminate E]. destruct rest as [| y rest]; [by injection E as -> -> |].
    destruct (seq_check _ y) as [[[] s'] |]; cbn in E; try discriminate E.
    destruct (expected s'); discriminate E.
  - intros st st' [| b l] src' p s E; [discriminate E |]. cbn [app].
    destruct (wire_read (b :: l)) as [q rest | |] eqn:R; try discriminate E.
    destruct (wire_read_app _ _ _ s R) as [L R']. cbn [app] in R'. rewrite R'.
    destruct (negb _); [| by injection E as -> -> ->].
    destruct rest as [| y rest]; [discriminate E |]. cbn [app].
    destruct (seq_check _ y) as [[[] s'] |]; cbn [mbind option_bind negb] in E |- *; try discriminate E.
    + injection E as -> -> ->. split; [cbn in L |- *; lia | done].
    + destruct (expected s'); discriminate E.
  - intros st st' [| b l] src' e s E; [discriminate E |]. cbn [app].
    destruct (wire_read (b :: l)) as [q rest | | e'] eqn:R; try discriminate E.
    + destruct (wire_read_app _ _ _ s R) as [_ R']. cbn [app] in R'. rewrite R'.
      destruct (negb _); [| discriminate E]. destruct rest as [| y rest]; [discriminate E |]. cbn [app].
      destruct (seq_check _ y) as [[[] s'] |]; cbn [mbind option_bind negb] in E |- *; try discriminate E.
      destruct (expected s'); cbn [mbind option_bind] in E |- *; [| discriminate E]. by injection E as <- <- <-.
    + injection E as <- <- <-. pose proof (ro_err _ wire_reader_ok _ _ s R) as R'. cbn [app] in R'. by rewrite R'.
  - done.
Qed.
End Codecs.

(** ** Receiving *)

(** The read side of a framed stream: the codec, the bytes not decoded yet and
    the error that ended it. *)
Record Receiver (S : Type) : Type := { rx_codec : S; rx_buf : bytes; rx_error : option DecodeError }.
Arguments Build_Receiver {S} rx_codec rx_buf rx_error.
Arguments rx_codec {S} r.
Arguments rx_buf {S} r.
Arguments rx_error {S} r.

Section Receive.
Context {S I : Type} `{DecoderLaws S I}.

(** The packets [recv] returns before it waits for more bytes, by the decoder's
    contract: [decode] again until it needs more bytes or fails.  [None]: a
    panic, or not enough fuel. *)
Fixpoint decode_all (fuel : nat) (st : S) (src : bytes) : option (list I * Receiver S) :=
  match fuel with
  | O => None
  | Datatypes.S fuel =>
      match decode st src with
      | None => None
      | Some (IoErr e, st, src) => Some ([], Build_Receiver st src (Some e))
      | Some (IoOk None, st, src) => Some ([], Build_Receiver st src None)
      | Some (IoOk (Some p), st, src) => '(ps, rx) ← decode_all fuel st src; Some (p :: ps, rx)
      end
  end.

(** One more read from the socket.  After an error the connection is closed. *)
Definition receive (rx : Receiver S) (chunk : bytes) : option (list I * Receiver S) :=
  match rx_error rx with
  | Some _ => Some ([], rx)
  | None =>
      let src := rx_buf rx ++ chunk in
      decode_all (Datatypes.S (length src)) (rx_codec rx) src
  end.

Fixpoint receive_all (rx : Receiver S) (chunks : list bytes) : option (list I * Receiver S) :=
  match chunks with
  | [] => Some ([], rx)
  | chunk :: chunks =>
      '(ps, rx) ← receive rx chunk;
      '(qs, rx) ← receive_all rx chunks;
      Some (ps ++ qs, rx)
  end.

Lemma decode_all_total fuel st src : decode_wf st -> (length src < fuel)%nat ->
  exists ps rx, decode_all fuel st src = Some (ps, rx) /\ decode_wf (rx_codec rx).
Proof.
  revert st src. induction fuel as [| fuel IH]; intros st src Hw Hf; [lia |].
  cbn [decode_all]. destruct (dl_total st src Hw) as (r & st' & src' & E & Hw'). rewrite E.
  destruct r as [[p |] | e]; [| by eauto ..].
  destruct (dl_packet _ _ _ _ _ [] E) as [L _].
  destruct (IH st' src' Hw') as (ps & rx & -> & Hr); [lia |]. cbn [mbind option_bind]. by eauto.
Qed.

(** The answer does not depend on the fuel, once there is enough. *)
Lemma decode_all_fuel fuel fuel' st src r :
  decode_all fuel st src = Some r -> (fuel <= fuel')%nat -> decode_all fuel' st src = Some r.
Proof.
  revert fuel' st src r. induction fuel as [| fuel IH]; intros [| fuel'] st src r E Hf; try (done || lia).
  cbn [decode_all] in *. destruct (decode st src) as [[[[[p |] | e] st'] src'] |]; try done.
  destruct (decode_all fuel st' src') as [[ps rx] |] eqn:E'; [| discriminate E].
  by rewrite (IH fuel' _ _ _ E') by lia.
Qed.

Definition drain (st : S) (src : bytes) : option (list I * Receiver S) :=
  decode_all (Datatypes.S (length src)) st src.

Lemma drain_total st src : decode_wf st ->
  exists ps rx, drain st src = Some (ps, rx) /\ decode_wf (rx_codec rx).
Proof. intros Hw. apply decode_all_total; [done | lia]. Qed.

Lemma drain_eq st src : decode_wf st ->
  drain st src =
    match decode st src with
    | None => None
    | Some (IoErr e, st, src) => Some ([], Build_Receiver st src (Some e))
    | Some (IoOk None, st, src) => Some ([], Build_Receiver st src None)
    | Some (IoOk (Some p), st, src) => '(ps, rx) ← drain st src; Some (p :: ps, rx)
    end.
Proof.
  intros Hw. unfold drain at 1. cbn [decode_all].
  destruct (dl_total st src Hw) as (r & st' & src' & E & Hw'). rewrite E.
  destruct r as [[p |] | e]; [| done ..]. destruct (dl_packet _ _ _ _ _ [] E) as [L _].
  destruct (drain_total st' src' Hw') as (ps & rx & E' & _). rewrite E'.
  by rewrite (decode_all_fuel _ _ _ _ _ E') by lia.
Qed.

(** What more input adds: nothing after an error, and otherwise the packets of
    the unread rest followed by the new bytes. *)
Lemma drain_app st src s ps rx : decode_wf st -> drain st src = Some (ps, rx) ->
  drain st (src ++ s) =
    match rx_error rx with
    | Some e => Some (ps, Build_Receiver (rx_codec rx) (rx_buf rx ++ s) (Some e))
    | None => '(qs, rx) ← drain (rx_codec rx) (rx_buf rx ++ s); Some (ps ++ qs, rx)
    end.
Proof.
  revert st ps rx. induction src as [src IH] using (induction_ltof1 _ length). unfold ltof in IH.
  intros st ps rx Hw E. rewrite drain_eq in E by done. rewrite drain_eq by done.
  destruct (dl_total st src Hw) as (r & st' & src' & D & Hw'). rewrite D in E.
  destruct r as [[p |] | e].
  - destruct (dl_packet _ _ _ _ _ s D) as [L D']. rewrite D'.
    destruct (drain st' src') as [[qs rx'] |] eqn:E'; [| discriminate E]. injection E as <- <-.
    rewrite (IH src' L st' qs rx' Hw' E'). destruct (rx_error rx'); [done |].
    by destruct (drain (rx_codec rx') _) as [[] |].
  - destruct (dl_more _ _ _ _ D) as [-> ->]. injection E as <- <-. cbn [rx_error rx_codec rx_buf].
    rewrite <- drain_eq by done. by destruct (drain st _) as [[] |].
  - injection E as <- <-. destruct (dl_error _ _ _ _ _ s D) as [-> D']. by rewrite D'.
Qed.

(** Two receivers that no further input tells apart. *)
Definition rx_equiv (a b : Receiver S) : Prop :=
  rx_codec a = rx_codec b /\ rx_error a = rx_error b /\ (rx_error a = None -> rx_buf a = rx_buf b).

#[export] Instance rx_equiv_equivalence : Equivalence rx_equiv.
Proof.
  unfold rx_equiv. split.
  - done.
  - intros a b (H1 & H2 & H3). split_and!; try done. intros E. symmetry. apply H3. congruence.
  - intros a b c (H1 & H2 & H3) (H4 & H5 & H6). split_and!; [congruence .. |].
    intros E. rewrite H3 by done. apply H6. congruence.
Qed.

Lemma receive_app rx c1 c2 ps rx1 : decode_wf (rx_codec rx) -> receive rx c1 = Some (ps, rx1) ->
  exists qs rx2 rx2', receive rx1 c2 = Some (qs, rx2) /\ receive rx (c1 ++ c2) = Some (ps ++ qs, rx2') /\
    rx_equiv rx2' rx2 /\ decode_wf (rx_codec rx1).
Proof.
  intros Hw E. unfold receive in *. destruct (rx_error rx) eqn:Er.
  { injection E as <- <-. rewrite Er. exists [], rx, rx. done. }
  fold (drain (rx_codec rx) (rx_buf rx ++ c1)) in E.
  destruct (drain_total _ (rx_buf rx ++ c1) Hw) as (ps' & rx' & E' & Hw'). rewrite E' in E. injection E as -> ->.
  rewrite app_assoc. fold (drain (rx_codec rx) ((rx_buf rx ++ c1) ++ c2)). rewrite (drain_app _ _ c2 _ _ Hw E').
  destruct (rx_error rx1) eqn:Er1.
  - exists [], rx1. eexists. rewrite app_nil_r. split_and!; [done | reflexivity | by unfold rx_equiv; rewrite Er1 | done].
  - fold (drain (rx_codec rx1) (rx_buf rx1 ++ c2)).
    destruct (drain_total _ (rx_buf rx1 ++ c2) Hw') as (qs & rx2 & E2 & _). rewrite E2.
    cbn [mbind option_bind]. exists qs, rx2, rx2. done.
Qed.

Lemma receive_total rx c : decode_wf (rx_codec rx) ->
  exists ps rx', receive rx c = Some (ps, rx') /\ decode_wf (rx_codec rx').
Proof.
  intros Hw. unfold receive. destruct (rx_error rx); [by eauto |]. by apply decode_all_total; [| lia].
Qed.

Lemma receive_all_concat rx chunks :
  decode_wf (rx_codec rx) -> rx_error rx = None -> drain (rx_codec rx) (rx_buf rx) = Some ([], rx) ->
  exists ps rx1 rx2, receive_all rx chunks = Some (ps, rx1) /\ receive rx (concat chunks) = Some (ps, rx2) /\
    rx_equiv rx1 rx2.
Proof.
  intros Hw He Hd.
  assert (receive rx [] = Some ([], rx)) as E0.
  { unfold receive. rewrite He, app_nil_r. exact Hd. }
  clear He Hd. revert rx Hw E0. induction chunks as [| c chunks IH]; intros rx Hw E0; cbn [receive_all concat].
  - by exists [], rx, rx.
  - destruct (receive_total rx c Hw) as (ps & rx1 & E1 & Hw1). rewrite E1. cbn [mbind option_bind].
    assert (receive rx1 [] = Some ([], rx1)) as E1'.
    { destruct (receive_app rx c [] ps rx1 Hw E1) as (qs & rx2 & rx2' & Eq & Ea & (V1 & V2 & V3) & _).
      rewrite app_nil_r, E1 in Ea. injection Ea as Eps <-. rewrite Eq.
      rewrite <- (app_nil_r ps) in Eps at 1. apply app_inv_head in Eps. subst qs. do 2 f_equal.
      destruct (rx_error rx1) eqn:Er; [unfold receive in Eq; rewrite Er in Eq; congruence |].
      destruct rx1, rx2; cbn in *. rewrite V1, <- V2, Er, V3 by done. done. }
    destruct (IH rx1 Hw1 E1') as (qs & rx2 & rx3 & -> & E3 & V). cbn [mbind option_bind].
    destruct (receive_app rx c (concat chunks) ps rx1 Hw E1) as (qs' & rx4 & rx4' & E4 & E5 & V' & _).
    rewrite E3 in E4. injection E4 as <- <-. exists (ps ++ qs), rx2, rx4'. split_and!; try done.
    by rewrite V, V'.
Qed.

(** [C21] How a connection's bytes are cut into reads does not matter: whatever
    the bytes are, valid packets or not, receiving them chunk by chunk never
    panics and yields the packets, in order, the final error and the codec state
    of receiving them in one piece, and as long as there is no error also the
    same undecoded rest. *)
Theorem receive_fragmentation rx chunks :
  decode_wf (rx_codec rx) -> rx_error rx = None -> drain (rx_codec rx) (rx_buf rx) = Some ([], rx) ->
  exists ps rx1 rx2, receive_all rx chunks = Some (ps, rx1) /\ receive rx (concat chunks) = Some (ps, rx2) /\
    rx_equiv rx1 rx2.
Proof. apply receive_all_concat. Qed.
End Receive.

(** A new connection's receiver. *)
Definition rx_new {S} (st : S) : Receiver S := {| rx_codec := st; rx_buf := []; rx_error := None |}.

(** A heartbeat response and half a time synchronisation, byte by byte. *)
Lemma receive_fragmentation_witness :
  let rx := rx_new {| sequencer := PacketSequencer_default seq_sample |} in
  exists rx1 rx2,
    receive_all (I := LoginC2s) rx [[0xFE]; [0xFC; 1]; [2; 3]] = Some ([Control HeartbeatResponse], rx1) /\
    receive (I := LoginC2s) rx [0xFE; 0xFC; 1; 2; 3] = Some ([Control HeartbeatResponse], rx2) /\ rx_equiv rx1 rx2.
Proof.
  destruct (receive_fragmentation (I := LoginC2s) (rx_new {| sequencer := PacketSequencer_default seq_sample |})
    [[0xFE]; [0xFC; 1]; [2; 3]]) as (ps & rx1 & rx2 & E1 & E2 & V); [cbn; unfold seq_wf; cbn; lia | done | done |].
  assert (ps = [Control HeartbeatResponse]) as -> by (vm_compute in E2; injection E2 as <-; reflexivity).
  exists rx1, rx2. exact (conj E1 (conj E2 V)).
Defined.

(** ** The client's side of a sequenced stream *)
Section Stream.
Context {I : Type} `{WireLaws I}.

(** Does the packet carry a sequence byte? *)
Definition sequenced_packet (p : I) : bool :=
  match wire_write p with [] => true | opcode :: _ => negb (is_unsequenced_c2s_opcode opcode) end.

Definition sequenced_count (ps : list I) : nat := length (filter (fun p => Is_true (sequenced_packet p)) ps).

(** What a client sends that takes its sequence bytes from position [k] on. *)
Fixpoint client_stream (s : PacketSequencer) (k : nat) (ps : list I) : bytes :=
  match ps with
  | [] => []
  | p :: ps =>
      if sequenced_packet p then wire_write p ++ [seq_byte s k] ++ client_stream s (Datatypes.S k) ps
      else wire_write p ++ client_stream s k ps
  end.

Lemma sequenced_count_cons p ps :
  sequenced_count (p :: ps) = ((if sequenced_packet p then 1 else 0) + sequenced_count ps)%nat.
Proof. unfold sequenced_count. rewrite filter_cons. by destruct (sequenced_packet p). Qed.

(** The decoder on one packet of the client. *)
Lemma decode_client_packet st p rest : wire_valid p ->
  decode_sequenced st (wire_write p ++ rest) =
    if sequenced_packet p then
      match rest with
      | [] => Some (IoOk None, st, wire_write p)
      | b :: rest' =>
          '(matches, s) ← seq_check (sequencer st) b;
          if matches : bool then Some (IoOk (Some p), {| sequencer := s |}, rest')
          else exp ← expected s;
               Some (IoErr (SequenceMismatch {| sme_expected := exp; sme_got := b |}), {| sequencer := s |},
                     wire_write p ++ rest)
      end
    else Some (IoOk (Some p), st, rest).
Proof.
  intros Hv. pose proof (wire_roundtrip p rest Hv) as R. unfold sequenced_packet.
  destruct (wire_write p) as [| b l] eqn:Ew.
  { pose proof (wire_roundtrip p [] Hv) as R'. rewrite Ew in R'. cbn in R'. by rewrite wire_read_nil in R'. }
  cbn [app] in R |- *. unfold decode_sequenced. rewrite R. destruct (is_unsequenced_c2s_opcode b); cbn [negb]; [done |].
  destruct rest as [| y rest]; [by rewrite app_nil_r |]. by destruct (seq_check _ y) as [[[] s] |].
Qed.

Lemma drain_client_stream s k ps tail : seq_wf s -> Forall wire_valid ps ->
  drain (I := I) {| sequencer := seq_advance s k |} (client_stream s k ps ++ tail) =
    '(qs, rx) ← drain {| sequencer := seq_advance s (k + sequenced_count ps) |} tail; Some (ps ++ qs, rx).
Proof.
  intros Hs Hps. revert k. induction Hps as [| p ps Hp Hps IH]; intros k.
  - unfold sequenced_count. cbn [client_stream app length]. rewrite Nat.add_0_r. by destruct (drain _ tail) as [[] |].
  - assert (forall k, decode_wf (Decoder := Sequenced_decoder (I := I)) {| sequencer := seq_advance s k |}) as Hw
      by (intros j; apply (seq_at_lt s j Hs)).
    rewrite drain_eq by apply Hw. cbn [decode Sequenced_decoder]. rewrite sequenced_count_cons. cbn [client_stream].
    destruct (sequenced_packet p) eqn:Ep; rewrite <- app_assoc, decode_client_packet, Ep by done.
    + cbn [app sequencer]. rewrite seq_check_advance, Z.eqb_refl by done. cbn [mbind option_bind].
      rewrite IH. replace (Datatypes.S k + sequenced_count ps)%nat with (k + (1 + sequenced_count ps))%nat by lia.
      by destruct (drain _ tail) as [[] |].
    + rewrite IH. cbn [Nat.add]. by destruct (drain _ tail) as [[] |].
Qed.

Lemma MkSequenced_0 s : seq_wf s -> {| sequencer := s |} = {| sequencer := seq_advance s 0 |}.
Proof. intros Hs. by rewrite seq_advance_0. Qed.

(** [C19] A client that frames valid packets with the sequence bytes of the
    shared table is understood: however the network cuts its stream into reads,
    the server receives exactly these packets, in order, with no error and no
    byte left, and its sequencer has moved by the number of sequenced packets. *)
Theorem stream_roundtrip s ps chunks :
  seq_wf s -> Forall wire_valid ps -> concat chunks = client_stream s 0 ps ->
  receive_all (rx_new {| sequencer := s |}) chunks =
    Some (ps, rx_new {| sequencer := seq_advance s (sequenced_count ps) |}).
Proof.
  intros Hs Hps Ec.
  destruct (receive_all_concat (I := I) (rx_new {| sequencer := s |}) chunks) as (qs & rx1 & rx2 & E1 & E2 & V);
    [done .. |].
  rewrite E1. unfold receive in E2. cbn [rx_new rx_error rx_buf rx_codec app] in E2.
  fold (drain (I := I) {| sequencer := s |} (concat chunks)) in E2.
  rewrite Ec, <- (app_nil_r (client_stream s 0 ps)), (MkSequenced_0 s Hs) in E2.
  rewrite drain_client_stream in E2 by done. cbn in E2. rewrite app_nil_r in E2. injection E2 as <- <-.
  destruct rx1 as [s1 b1 e1], V as (V1 & V2 & V3). cbn in *. subst. by rewrite V3.
Qed.

(** Replayed or forged packets end the stream: after any valid packets, a
    sequenced packet with a sequence byte other than the one the table demands is
    not delivered and nothing after it is; the connection fails with a sequence
    mismatch.  The sequencer remembers the byte it demanded, but the error names
    as expected the table's following byte, since the check has consumed the
    demanded one when the error is built. *)
Theorem sequence_mismatch_rejected s ps p got tail :
  seq_wf s -> Forall wire_valid ps -> wire_valid p -> sequenced_packet p = true ->
  let k := sequenced_count ps in
  got <> seq_byte s k ->
  exists rx,
    receive (rx_new {| sequencer := s |}) (client_stream s 0 ps ++ wire_write p ++ [got] ++ tail) = Some (ps, rx) /\
    rx_error rx = Some (SequenceMismatch {| sme_expected := seq_byte s (Datatypes.S k); sme_got := got |}) /\
    last_mismatch (sequencer (rx_codec rx)) = Some {| sme_expected := seq_byte s k; sme_got := got |} /\
    (forall chunk, receive (I := I) rx chunk = Some ([], rx)).
Proof.
  intros Hs Hps Hp Ep k Hg. unfold receive. cbn [rx_new rx_error rx_buf rx_codec app].
  match goal with |- context [decode_all _ _ ?l] => fold (drain (I := I) {| sequencer := s |} l) end.
  rewrite (MkSequenced_0 s Hs), drain_client_stream, drain_eq by (done || apply (seq_at_lt s _ Hs)).
  cbn [decode Sequenced_decoder]. rewrite decode_client_packet, Ep by done. cbn [sequencer Nat.add]. fold k.
  rewrite seq_check_advance by done. destruct (Z.eqb_spec got (seq_byte s k)) as [| _]; [done |].
  cbn [mbind option_bind]. unfold expected. cbn [seq_bytes seq_pos]. rewrite seq_lookup by done.
  cbn [mbind option_bind]. rewrite app_nil_r. eexists. split_and!; reflexivity.
Qed.
End Stream.

(** ** A login *)
Definition sample_login : list LoginC2s :=
  [Control HeartbeatResponse;
   Specific (RequestTokenLogin (repeat 65 31) 123456 (repeat 7 16));
   Control (RequestTimeSync {| hsd_handshake := 5; hsd_time := 1000; hsd_delta := 20 |})].

Lemma sample_login_valid : Forall wire_valid sample_login.
Proof.
  do 3 (apply Forall_cons_2; [apply LoginC2s_valid; cbn; unfold HandshakeSyncData_valid; unfold_widths; cbn; lia |]).
  apply Forall_nil_2.
Qed.

Definition sample_sequencer : PacketSequencer := PacketSequencer_default seq_sample.
Lemma sample_sequencer_wf : seq_wf sample_sequencer.
Proof. unfold seq_wf. cbn. lia. Qed.

Lemma stream_roundtrip_witness :
  receive_all (I := LoginC2s) (rx_new {| sequencer := sample_sequencer |})
    (map (fun b => [b]) (client_stream sample_sequencer 0 sample_login)) =
  Some (sample_login, rx_new {| sequencer := seq_advance sample_sequencer 2 |}).
Proof.
  refine (stream_roundtrip (I := LoginC2s) sample_sequencer sample_login _ _ _ _); [exact sample_sequencer_wf | exact sample_login_valid |].
  reflexivity.
Defined.

Lemma sequence_mismatch_rejected_witness :
  exists rx,
    receive (I := LoginC2s) (rx_new {| sequencer := sample_sequencer |})
      (client_stream sample_sequencer 0 sample_login ++
       wire_write (Control (RequestTimeSync {| hsd_handshake := 5; hsd_time := 1000; hsd_delta := 20 |}) : LoginC2s) ++
       [175] ++ [1; 2; 3]) = Some (sample_login, rx) /\
    rx_error rx = Some (SequenceMismatch {| sme_expected := 207; sme_got := 175 |}).
Proof.
  edestruct (sequence_mismatch_rejected (I := LoginC2s) sample_sequencer sample_login
    (Control (RequestTimeSync {| hsd_handshake := 5; hsd_time := 1000; hsd_delta := 20 |})) 175 [1; 2; 3])
    as (rx & E & Ee & _ & _);
    [exact sample_sequencer_wf | exact sample_login_valid | | reflexivity | discriminate |].
  - apply LoginC2s_valid. cbn. unfold HandshakeSyncData_valid. unfold_widths. cbn. lia.
  - exists rx. exact (conj E Ee).
Defined.
