(* ===== verification/Connection.v ===== *)
(** Typed connections of the game server ([zohar-net/src/connection.rs] and
    [connection/game_conn.rs]): a connection is indexed by its phase, the index
    chooses the packet family, the codec and the data the state carries, and
    [into_next] is the only way from one phase to the next.

    The socket is the list of the reads still to come and the bytes written so
    far.  The phase-specific packet families are parameters, with the [Wire]
    interface; control packets are those of [Protocol]. *)
From S2P Require Import Prelude Wire Protocol GamePacket Codec.

(** ** Receiving one packet *)

(** What [recv] returns: a packet, the orderly end of the stream, a decoding
    error, or the error of a stream that ends inside a packet. *)
Inductive Received (I : Type) : Type :=
| Received_packet (p : I)
| Received_closed
| Received_error (e : DecodeError)
| Received_truncated.
Arguments Received_packet {I} p.
Arguments Received_closed {I}.
Arguments Received_error {I} e.
Arguments Received_truncated {I}.

(** A codec, the bytes not decoded yet, and the reads to come. *)
Record FramedRead (S : Type) : Type := { fr_codec : S; fr_buf : bytes; fr_incoming : list bytes }.
Arguments Build_FramedRead {S} fr_codec fr_buf fr_incoming.
Arguments fr_codec {S} f.
Arguments fr_buf {S} f.
Arguments fr_incoming {S} f.

Section Recv.
Context {S I : Type} `{DecoderLaws S I}.

(** [framed.next()]: decode what is buffered, read when that is not a packet
    yet, until the stream ends.  [None] is a panic of the decoder. *)
Fixpoint recv_from (codec : S) (buf : bytes) (incoming : list bytes) : option (Received I * FramedRead S) :=
  match decode codec buf with
  | None => None
  | Some (IoOk (Some p), codec, buf) => Some (Received_packet p, Build_FramedRead codec buf incoming)
  | Some (IoErr e, codec, buf) => Some (Received_error e, Build_FramedRead codec buf incoming)
  | Some (IoOk None, codec, buf) =>
      match incoming with
      | [] => Some (match buf with [] => Received_closed | _ => Received_truncated end,
                    Build_FramedRead codec buf [])
      | chunk :: incoming => recv_from codec (buf ++ chunk) incoming
      end
  end.

Definition recv_framed (f : FramedRead S) : option (Received I * FramedRead S) :=
  recv_from (fr_codec f) (fr_buf f) (fr_incoming f).

(** Everything that is still to be decoded. *)
Definition pending (f : FramedRead S) : bytes := fr_buf f ++ concat (fr_incoming f).

(** If the bytes to come start with a packet, [recv] returns it and leaves the
    bytes after it, wherever the reads cut them. *)
Lemma recv_packet f p codec rest :
  decode_wf (fr_codec f) -> decode (fr_codec f) (pending f) = Some (IoOk (Some p), codec, rest) ->
  exists f', recv_framed f = Some (Received_packet p, f') /\ fr_codec f' = codec /\ pending f' = rest.
Proof.
  destruct f as [c buf incoming]. unfold recv_framed, pending. cbn [fr_codec fr_buf fr_incoming].
  intros Hw. revert buf. induction incoming as [| chunk incoming IH]; intros buf D; cbn [recv_from concat] in *.
  - rewrite app_nil_r in D. rewrite D. eexists. split_and!; [done | done |]. cbn. by rewrite app_nil_r.
  - destruct (dl_total c buf Hw) as (r & st' & src' & E & _). rewrite E. destruct r as [[q |] | e].
    + destruct (dl_packet _ _ _ _ _ (chunk ++ concat incoming) E) as [_ E'].
      rewrite E' in D. injection D as <- <- <-. eexists. split_and!; [done | done |]. reflexivity.
    + destruct (dl_more _ _ _ _ E) as [-> ->]. apply IH. by rewrite <- app_assoc.
    + destruct (dl_error _ _ _ _ _ (chunk ++ concat incoming) E) as [_ E'].
      rewrite E' in D. discriminate D.
Qed.
End Recv.

(** ** Phases of a game connection *)
Inductive GamePhase : Type := P_HandshakeGame | P_Login | P_Select | P_Loading | P_InGame.
#[export] Instance GamePhase_eq_dec : EqDecision GamePhase.
Proof. solve_decision. Defined.

(** [ConnectionState::PHASE_ID] and [NextState::Next] *)
Definition PHASE_ID (p : GamePhase) : PhaseId :=
  match p with
  | P_HandshakeGame => Phase_Handshake | P_Login => Phase_Login | P_Select => Phase_Select
  | P_Loading => Phase_Loading | P_InGame => Phase_InGame
  end.

Definition Next (p : GamePhase) : GamePhase :=
  match p with
  | P_HandshakeGame => P_Login | P_Login => P_Select | P_Select => P_Loading
  | P_Loading => P_InGame | P_InGame => P_Select
  end.

(** [ConnectionState::Codec]: its state. *)
Definition CodecState (p : GamePhase) : Type :=
  match p with P_HandshakeGame => Stateless | _ => Sequenced end.

(** The data of a state; the loaded player's record is opaque here. *)
Record SelectedPlayer : Type := { sp_player_id : Z; sp_player_name : string }.
Record Select : Type := { select_username : string }.
Record Loading : Type := { loading_username : string; loading_player_id : Z; loading_player_name : string }.

Section Connections.
Variable LoadedPlayer : Type.

Record InGame : Type := {
  ingame_username : string; ingame_player_id : Z; ingame_player_name : string; loaded_player : LoadedPlayer }.

Definition StateData (p : GamePhase) : Type :=
  match p with
  | P_HandshakeGame | P_Login => unit
  | P_Select => Select | P_Loading => Loading | P_InGame => InGame
  end.

(** [NextState::Data] *)
Definition NextData (p : GamePhase) : Type :=
  match p with
  | P_HandshakeGame => unit | P_Login => string | P_Select => SelectedPlayer
  | P_Loading => LoadedPlayer | P_InGame => unit
  end.

(** [Authenticated::username] and [HasPlayer::player_id], where the state has them. *)
Definition username (p : GamePhase) : StateData p -> option string :=
  match p return StateData p -> option string with
  | P_HandshakeGame | P_Login => fun _ => None
  | P_Select => fun s => Some (select_username s)
  | P_Loading => fun s => Some (loading_username s)
  | P_InGame => fun s => Some (ingame_username s)
  end.
Definition player (p : GamePhase) : StateData p -> option SelectedPlayer :=
  match p return StateData p -> option SelectedPlayer with
  | P_Loading => fun s => Some {| sp_player_id := loading_player_id s; sp_player_name := loading_player_name s |}
  | P_InGame => fun s => Some {| sp_player_id := ingame_player_id s; sp_player_name := ingame_player_name s |}
  | _ => fun _ => None
  end.

(** The state each [NextState::transition] builds. *)
Definition transition_state (p : GamePhase) : StateData p -> NextData p -> StateData (Next p) :=
  match p return StateData p -> NextData p -> StateData (Next p) with
  | P_HandshakeGame => fun _ _ => tt
  | P_Login => fun _ name => {| select_username := name |}
  | P_Select => fun s sel =>
      {| loading_username := select_username s; loading_player_id := sp_player_id sel;
         loading_player_name := sp_player_name sel |}
  | P_Loading => fun s loaded =>
      {| ingame_username := loading_username s; ingame_player_id := loading_player_id s;
         ingame_player_name := loading_player_name s; loaded_player := loaded |}
  | P_InGame => fun s _ => {| select_username := ingame_username s |}
  end.

(** [transition_default] out of the handshake and [transition_with_sequencer]
    everywhere else. *)
Definition transition_codec (SEQ_BYTES_RAW : bytes) (p : GamePhase) : CodecState p -> CodecState (Next p) :=
  match p return CodecState p -> CodecState (Next p) with
  | P_HandshakeGame => fun _ => {| sequencer := PacketSequencer_default SEQ_BYTES_RAW |}
  | P_Login | P_Select | P_Loading | P_InGame => fun codec => {| sequencer := sequencer codec |}
  end.

(** ** Connections *)
Record Connection (p : GamePhase) : Type := {
  framed : FramedRead (CodecState p);
  outgoing : bytes;
  state : StateData p }.
Arguments Build_Connection {p} framed outgoing state.
Arguments framed {p} c.
Arguments outgoing {p} c.
Arguments state {p} c.

Variable SEQ_BYTES_RAW : bytes.

(** [Connection::<HandshakeGame>::new] on a stream whose reads are given. *)
Definition Connection_new (incoming : list bytes) : Connection P_HandshakeGame :=
  @Build_Connection P_HandshakeGame (Build_FramedRead (MkStateless : CodecState P_HandshakeGame) [] incoming) [] tt.

(** [into_next]: the socket and the unread bytes move to the next phase. *)
Definition into_next {p} (conn : Connection p) (data : NextData p) : Connection (Next p) :=
  Build_Connection
    (Build_FramedRead (transition_codec SEQ_BYTES_RAW p (fr_codec (framed conn))) (fr_buf (framed conn))
       (fr_incoming (framed conn)))
    (outgoing conn) (transition_state p (state conn) data).

(** The phases' own packet families. *)
Variable C2sSpec S2cSpec : GamePhase -> Type.
Context `{!forall p, Wire (PhasePacket ControlC2s (C2sSpec p))}.
Context `{!forall p, WireLaws (PhasePacket ControlC2s (C2sSpec p))}.
Context `{!forall p, Wire (PhasePacket ControlS2c (S2cSpec p))}.
Definition C2sPacket (p : GamePhase) : Type := PhasePacket ControlC2s (C2sSpec p).
Definition S2cPacket (p : GamePhase) : Type := PhasePacket ControlS2c (S2cSpec p).

(** [SetPhasePacket::set_phase] *)
Definition set_phase (p : GamePhase) (phase : PhaseId) : S2cPacket p := Control (SetClientPhase phase).

(** [send] and [send_many]: encode, and flush to the socket. *)
Definition send {p} (conn : Connection p) (packet : S2cPacket p) : Connection p :=
  Build_Connection (framed conn) (outgoing conn ++ wire_write packet) (state conn).
Definition send_many {p} (conn : Connection p) (packets : list (S2cPacket p)) : Connection p :=
  fold_left send packets conn.

Definition into_next_with_phase {p} (conn : Connection p) (data : NextData p) : Connection (Next p) :=
  into_next (send conn (set_phase p (PHASE_ID (Next p)))) data.

(** [recv], with the decoder of the phase. *)
#[local] Instance phase_decoder (p : GamePhase) : Decoder (CodecState p) (C2sPacket p) :=
  match p return Decoder (CodecState p) (C2sPacket p) with
  | P_HandshakeGame => Stateless_decoder
  | P_Login | P_Select | P_Loading | P_InGame => Sequenced_decoder
  end.
#[local] Instance phase_laws (p : GamePhase) : DecoderLaws (CodecState p) (C2sPacket p).
Proof. destruct p; exact _. Qed.

Definition recv {p} (conn : Connection p) : option (Received (C2sPacket p) * Connection p) :=
  '(r, f) ← recv_framed (framed conn); Some (r, Build_Connection f (outgoing conn) (state conn)).

Arguments recv {p} conn.

(** ** Sessions *)

(** What a client sends: packets of the current phase, and, after the last of
    them that makes the server move on with some data, those of the next. *)
Inductive Script : GamePhase -> Type :=
| Script_end {p} (ps : list (C2sPacket p)) : Script p
| Script_next {p} (ps : list (C2sPacket p)) (data : NextData p) (rest : Script (Next p)) : Script p.

Definition sequencer0 : PacketSequencer := PacketSequencer_default SEQ_BYTES_RAW.

(** Handshake packets are bare, the others continue one sequence. *)
Definition phase_sequenced (p : GamePhase) : bool := match p with P_HandshakeGame => false | _ => true end.
Definition phase_stream {p} (k : nat) (ps : list (C2sPacket p)) : bytes :=
  if phase_sequenced p then client_stream sequencer0 k ps else concat (wire_write <$> ps).
Definition phase_count {p} (ps : list (C2sPacket p)) : nat :=
  if phase_sequenced p then sequenced_count ps else 0%nat.

Fixpoint script_stream {p} (k : nat) (s : Script p) : bytes :=
  match s with
  | Script_end ps => phase_stream k ps
  | Script_next ps data rest => phase_stream k ps ++ script_stream (k + phase_count ps) rest
  end.

Fixpoint script_valid {p} (s : Script p) : Prop :=
  match s with
  | Script_end ps => Forall wire_valid ps
  | Script_next ps data rest => Forall wire_valid ps /\ script_valid rest
  end.

(** The packets with their phases, the phase announcements the server answers
    with, and the state it ends in. *)
Definition tagged {p} (ps : list (C2sPacket p)) : list { q : GamePhase & C2sPacket q } :=
  map (fun packet => existT p packet) ps.
Fixpoint script_packets {p} (s : Script p) : list { q : GamePhase & C2sPacket q } :=
  match s with
  | Script_end ps => tagged ps
  | Script_next ps data rest => tagged ps ++ script_packets rest
  end.
Fixpoint script_phases {p} (s : Script p) : bytes :=
  match s with
  | Script_end ps => []
  | @Script_next p ps data rest => wire_write (set_phase p (PHASE_ID (Next p))) ++ script_phases rest
  end.
Fixpoint script_state {p} (s : Script p) : StateData p -> { q : GamePhase & StateData q } :=
  match s with
  | Script_end ps => existT _
  | @Script_next p ps data rest => fun st => script_state rest (transition_state p st data)
  end.

(** The server: receive that many packets, then move on. *)
Fixpoint recv_n {p} (n : nat) (conn : Connection p) : option (list (C2sPacket p) * Connection p) :=
  match n with
  | O => Some ([], conn)
  | S n =>
      '(r, conn) ← recv conn;
      match r with
      | Received_packet packet => '(packets, conn) ← recv_n n conn; Some (packet :: packets, conn)
      | _ => None
      end
  end.

Fixpoint run_script {p} (s : Script p)
  : Connection p -> option (list { q : GamePhase & C2sPacket q } * { q : GamePhase & Connection q }) :=
  match s in Script p
    return Connection p -> option (list { q : GamePhase & C2sPacket q } * { q : GamePhase & Connection q }) with
  | @Script_end p ps => fun conn =>
      '(packets, conn) ← recv_n (length ps) conn; Some (tagged packets, existT p conn)
  | @Script_next p ps data rest => fun conn =>
      '(packets, conn) ← recv_n (length ps) conn;
      '(others, final) ← run_script rest (into_next_with_phase conn data);
      Some (tagged packets ++ others, final)
  end.

(** The codec of a phase after [k] sequence bytes. *)
Definition codec_at (k : nat) (p : GamePhase) : CodecState p :=
  match p with
  | P_HandshakeGame => MkStateless
  | P_Login | P_Select | P_Loading | P_InGame => {| sequencer := seq_advance sequencer0 k |}
  end.

Lemma transition_codec_at k p : seq_wf sequencer0 ->
  (p = P_HandshakeGame -> k = 0%nat) -> transition_codec SEQ_BYTES_RAW p (codec_at k p) = codec_at k (Next p).
Proof.
  intros Hs Hk. destruct p; cbn; try done. rewrite Hk by done. by rewrite seq_advance_0.
Qed.

Lemma codec_at_wf k p : seq_wf sequencer0 -> decode_wf (I := C2sPacket p) (codec_at k p).
Proof. intros Hs. destruct p; cbn; try done; apply (seq_at_lt sequencer0 k Hs). Qed.

(** The decoder of a phase on the client's next packet. *)
Lemma decode_phase_packet p k (packet : C2sPacket p) ps rest :
  seq_wf sequencer0 -> wire_valid packet ->
  decode (codec_at k p) (phase_stream k (packet :: ps) ++ rest) =
    Some (IoOk (Some packet), codec_at (k + phase_count [packet]) p,
          phase_stream (k + phase_count [packet]) ps ++ rest).
Proof.
  intros Hs Hv. unfold phase_stream, phase_count. destruct (phase_sequenced p) eqn:E.
  - rewrite sequenced_count_cons, (Nat.add_comm _ (sequenced_count [])).
    assert (decode (Decoder := Sequenced_decoder) {| sequencer := seq_advance sequencer0 k |}
      (client_stream sequencer0 k (packet :: ps) ++ rest) =
      Some (IoOk (Some packet), {| sequencer := seq_advance sequencer0 (k + (if sequenced_packet packet then 1 else 0)) |},
            client_stream sequencer0 (k + (if sequenced_packet packet then 1 else 0)) ps ++ rest)) as D.
    { cbn [decode Sequenced_decoder client_stream].
      destruct (sequenced_packet packet) eqn:Ep; rewrite <- app_assoc, decode_client_packet, Ep by done.
      - cbn [app sequencer]. rewrite seq_check_advance, Z.eqb_refl, Nat.add_1_r by done. done.
      - by rewrite Nat.add_0_r. }
    by destruct p.
  - destruct p; try discriminate E. cbn [decode phase_decoder Stateless_decoder codec_at fmap list_fmap concat].
    rewrite <- app_assoc. pose proof (wire_roundtrip packet (concat (wire_write <$> ps) ++ rest) Hv) as R.
    unfold decode_simple. destruct (wire_write packet ++ concat (wire_write <$> ps) ++ rest) eqn:El.
    + rewrite wire_read_nil in R. discriminate R.
    + rewrite R. done.
Qed.

Lemma recv_phase_packet {p} k (conn : Connection p) packet ps rest :
  seq_wf sequencer0 -> wire_valid packet -> fr_codec (framed conn) = codec_at k p ->
  pending (framed conn) = phase_stream k (packet :: ps) ++ rest ->
  exists f, recv conn = Some (Received_packet packet, Build_Connection f (outgoing conn) (state conn)) /\
    fr_codec f = codec_at (k + phase_count [packet]) p /\ pending f = phase_stream (k + phase_count [packet]) ps ++ rest.
Proof.
  intros Hs Hv Hc Hp.
  destruct (recv_packet (I := C2sPacket p) (framed conn) packet (codec_at (k + phase_count [packet]) p)
    (phase_stream (k + phase_count [packet]) ps ++ rest)) as (f & E & Ec & Ep).
  - rewrite Hc. by apply codec_at_wf.
  - rewrite Hc, Hp. by apply decode_phase_packet.
  - exists f. unfold recv. rewrite E. done.
Qed.

Lemma phase_count_cons {p} (packet : C2sPacket p) ps :
  phase_count (packet :: ps) = (phase_count [packet] + phase_count ps)%nat.
Proof.
  unfold phase_count. destruct (phase_sequenced p); [| done]. rewrite !sequenced_count_cons. unfold sequenced_count.
  cbn. lia.
Qed.

Lemma phase_stream_nil {p} k : phase_stream k ([] : list (C2sPacket p)) = [].
Proof. unfold phase_stream. by destruct (phase_sequenced p). Qed.

Lemma recv_n_stream {p} k (conn : Connection p) ps rest :
  seq_wf sequencer0 -> Forall wire_valid ps -> fr_codec (framed conn) = codec_at k p ->
  pending (framed conn) = phase_stream k ps ++ rest ->
  exists f, recv_n (length ps) conn = Some (ps, Build_Connection f (outgoing conn) (state conn)) /\
    fr_codec f = codec_at (k + phase_count ps) p /\ pending f = rest.
Proof.
  intros Hs Hv. revert k conn. induction Hv as [| packet ps Hv Hps IH]; intros k conn Hc Hp.
  - exists (framed conn). rewrite phase_stream_nil in Hp. cbn [length recv_n].
    assert (phase_count ([] : list (C2sPacket p)) = 0%nat) as -> by (unfold phase_count; by destruct (phase_sequenced p)).
    rewrite Nat.add_0_r. by destruct conn.
  - destruct (recv_phase_packet k conn packet ps rest Hs Hv Hc Hp) as (f & E & Ec & Ep).
    cbn [length recv_n]. rewrite E. cbn [mbind option_bind].
    destruct (IH _ (Build_Connection f (outgoing conn) (state conn)) Ec Ep) as (f' & E' & Ec' & Ep').
    rewrite E'. cbn [mbind option_bind outgoing state] in *. exists f'. split_and!; try done.
    rewrite Ec', (phase_count_cons packet ps), Nat.add_assoc. reflexivity.
Qed.

Lemma phase_count_handshake {p} (ps : list (C2sPacket p)) : p = P_HandshakeGame -> (0 + phase_count ps = 0)%nat.
Proof. unfold phase_count. by destruct p. Qed.

Lemma run_script_stream {p} (s : Script p) k (conn : Connection p) :
  seq_wf sequencer0 -> script_valid s -> (p = P_HandshakeGame -> k = 0%nat) ->
  fr_codec (framed conn) = codec_at k p -> pending (framed conn) = script_stream k s ->
  exists q (conn' : Connection q), run_script s conn = Some (script_packets s, existT q conn') /\
    pending (framed conn') = [] /\ outgoing conn' = outgoing conn ++ script_phases s /\
    existT q (state conn') = script_state s (state conn).
Proof.
  intros Hs. revert k conn. induction s as [p ps | p ps data rest IH]; intros k conn Hv Hk Hc Hp;
    cbn [run_script script_packets script_valid script_stream script_phases script_state] in *.
  - rewrite <- (app_nil_r (phase_stream k ps)) in Hp.
    destruct (recv_n_stream k conn ps [] Hs Hv Hc Hp) as (f & -> & _ & Ef). cbn [mbind option_bind].
    eexists p, _. split_and!; [reflexivity | exact Ef | by rewrite app_nil_r | reflexivity].
  - destruct Hv as [Hv Hr]. destruct (recv_n_stream k conn ps _ Hs Hv Hc Hp) as (f & -> & Ec & Ef).
    cbn [mbind option_bind].
    set (conn1 := into_next_with_phase _ data).
    destruct (IH (k + phase_count ps)%nat conn1 Hr) as (q & conn' & -> & E1 & E2 & E3).
    + intros E. by destruct p.
    + unfold conn1, into_next_with_phase, into_next, send. cbn [framed fr_codec]. rewrite Ec.
      apply transition_codec_at; [done |]. intros E. rewrite (Hk E). by apply phase_count_handshake.
    + exact Ef.
    + cbn [mbind option_bind]. exists q, conn'. split_and!; [done | exact E1 | | exact E3].
      rewrite E2. unfold conn1, into_next_with_phase, into_next, send. cbn [outgoing]. by rewrite app_assoc.
Qed.

(** [C22] A client may send ahead of the server's phase changes: if its stream
    holds, phase after phase, valid packets of that phase, bare in the handshake
    and from then on with one uninterrupted run of sequence bytes, then however
    the reads cut the stream, across phase boundaries included, a server that
    moves on after the last packet of each phase receives every packet in its
    phase, leaves no byte unread, announces each phase it enters and ends in the
    state that the transitions build. *)
Theorem session_pipelined (s : Script P_HandshakeGame) incoming :
  SEQ_BYTES_RAW <> [] -> script_valid s -> concat incoming = script_stream 0 s ->
  exists q (conn : Connection q), run_script s (Connection_new incoming) = Some (script_packets s, existT q conn) /\
    pending (framed conn) = [] /\ outgoing conn = script_phases s /\ existT q (state conn) = script_state s tt.
Proof.
  intros Hn Hv He. apply (run_script_stream s 0 (Connection_new incoming)); try done.
  unfold seq_wf, sequencer0. cbn. destruct SEQ_BYTES_RAW; [done | cbn; lia].
Qed.

(** ** Identity *)

(** One step of a connection, whatever is sent and received. *)
Inductive conn_step : { p : GamePhase & Connection p } -> { p : GamePhase & Connection p } -> Prop :=
| conn_recv p (conn conn' : Connection p) r : recv conn = Some (r, conn') -> conn_step (existT p conn) (existT p conn')
| conn_send p (conn : Connection p) packets : conn_step (existT p conn) (existT p (send_many conn packets))
| conn_next p (conn : Connection p) data : conn_step (existT p conn) (existT (Next p) (into_next_with_phase conn data)).

Definition conn_username (c : { p : GamePhase & Connection p }) : option string := username (projT1 c) (state (projT2 c)).
Definition conn_player (c : { p : GamePhase & Connection p }) : option SelectedPlayer := player (projT1 c) (state (projT2 c)).

Lemma send_many_state {p} (conn : Connection p) packets : state (send_many conn packets) = state conn.
Proof. unfold send_many. revert conn. induction packets as [| x packets IH]; intros conn; [done | exact (IH (send conn x))]. Qed.

Lemma recv_state {p} (conn conn' : Connection p) r : recv conn = Some (r, conn') -> state conn' = state conn.
Proof. unfold recv. destruct (recv_framed (framed conn)) as [[r' f] |]; [| done]. by intros [= <- <-]. Qed.

Lemma conn_step_username a b name :
  conn_step a b -> conn_username a = Some name -> conn_username b = Some name.
Proof.
  intros [p conn conn' r E | p conn packets | p conn data]; unfold conn_username; cbn [projT1 projT2].
  - by rewrite (recv_state _ _ _ E).
  - by rewrite send_many_state.
  - destruct conn as [f o st]. by destruct p.
Qed.

Lemma conn_step_player a b sel :
  conn_step a b -> projT1 b <> P_Select -> conn_player a = Some sel -> conn_player b = Some sel.
Proof.
  intros [p conn conn' r E | p conn packets | p conn data]; unfold conn_player; cbn [projT1 projT2].
  - by rewrite (recv_state _ _ _ E).
  - by rewrite send_many_state.
  - destruct conn as [f o st]. by destruct p.
Qed.

(** A connection keeps its identity: once it is authenticated it stays
    authenticated under the same user name whatever is received and sent and
    through every later phase, and as long as it does not return to the character
    selection it keeps the selected player. *)
Theorem identity_kept c c' name :
  conn_username c = Some name ->
  (rtc conn_step c c' -> conn_username c' = Some name) /\
  (forall sel, conn_player c = Some sel ->
    rtc (fun a b => conn_step a b /\ projT1 b <> P_Select) c c' -> conn_player c' = Some sel).
Proof.
  intros Hu. split.
  - intros R. induction R as [| a b c' S R IH]; [done |]. apply IH. by eapply conn_step_username.
  - intros sel Hp R. clear Hu. induction R as [| a b c' [S Hb] R IH]; [done |].
    apply IH. by eapply conn_step_player.
Qed.
End Connections.
Arguments outgoing {LoadedPlayer p} c.
Arguments framed {LoadedPlayer p} c.
Arguments state {LoadedPlayer p} c.

(** ** A login across the phase changes *)

(** Packet families for the concrete sessions: those of the handshake, and the
    login request from then on. *)
Definition sample_c2s (p : GamePhase) : Type :=
  match p with P_HandshakeGame => HandshakeGameC2sSpecific | _ => LoginC2sSpecific end.
Definition sample_s2c (p : GamePhase) : Type := HandshakeGameS2cSpecific.
#[export] Instance sample_c2s_wire (p : GamePhase) : Wire (PhasePacket ControlC2s (sample_c2s p)) :=
  match p return Wire (PhasePacket ControlC2s (sample_c2s p)) with
  | P_HandshakeGame => HandshakeGameC2s_wire
  | _ => LoginC2s_wire
  end.
#[export] Instance sample_c2s_laws (p : GamePhase) : WireLaws (PhasePacket ControlC2s (sample_c2s p)).
Proof. destruct p; exact _. Qed.
#[export] Instance sample_s2c_wire (p : GamePhase) : Wire (PhasePacket ControlS2c (sample_s2c p)) := HandshakeGameS2c_wire.

Definition sample_script : Script unit sample_c2s P_HandshakeGame :=
  @Script_next unit sample_c2s P_HandshakeGame [Control (HandshakeResponse {| hsd_handshake := 7; hsd_time := 20; hsd_delta := 0 |})] tt
    (@Script_next unit sample_c2s P_Login sample_login "zohar"%string
      (@Script_end unit sample_c2s P_Select [Control HeartbeatResponse])).

Lemma sample_script_valid : script_valid unit sample_c2s sample_script.
Proof.
  split; [| split; [exact sample_login_valid |]]; (apply Forall_cons_2; [| apply Forall_nil_2]).
  - split; [| apply c2s_control_routed]. cbn. unfold HandshakeSyncData_valid. unfold_widths. cbn. lia.
  - by apply LoginC2s_valid.
Qed.

Lemma session_pipelined_witness :
  let incoming := [script_stream unit seq_sample sample_c2s 0 sample_script] in
  exists conn : Connection unit P_Select,
    run_script unit seq_sample sample_c2s sample_s2c sample_script (Connection_new unit incoming) =
      Some (script_packets unit sample_c2s sample_script, existT P_Select conn) /\
    outgoing conn = [0xFD; 2; 0xFD; 3].
Proof.
  intros incoming. destruct (session_pipelined unit seq_sample sample_c2s sample_s2c sample_script incoming)
    as (q & conn & E & Ep & Eo & Es); [discriminate | exact sample_script_valid | reflexivity |].
  assert (q = P_Select) as -> by (exact (f_equal (@projT1 _ _) Es)).
  exists conn. split; [exact E |]. rewrite Eo. reflexivity.
Defined.

Lemma identity_kept_witness :
  let conn := @Build_Connection unit P_Select
    (@Build_FramedRead Sequenced {| sequencer := PacketSequencer_default seq_sample |} [] []) [] {| select_username := "zohar" |} in
  conn_username unit (existT P_Loading
    (into_next_with_phase unit seq_sample sample_s2c conn {| sp_player_id := 3; sp_player_name := "hero" |})) = Some "zohar"%string.
Proof.
  intros conn.
  apply (identity_kept unit seq_sample sample_c2s sample_s2c (existT P_Select conn)); [reflexivity |].
  apply rtc_once. apply (conn_next unit seq_sample sample_c2s sample_s2c P_Select conn).
Defined.
