(* ===== verification/Token.v ===== *)
(** Login tokens ([zohar-protocol/src/token.rs]): a token is the truncated MAC of
    the user name, the client's key and the number of the time slot.

    HMAC-SHA256 comes from the [hmac] and [sha2] crates: it is the parameter
    [hmac_sha256] of the section, a function of the key and the message whose
    digest has 32 bytes.  The system clock is an argument, in whole seconds since
    the Unix epoch. *)
From S2P Require Import Prelude Wire.

(** [secret] and the window, in whole seconds ([Duration::as_secs]). *)
Record TokenSigner : Type := { secret : bytes; window_secs : Z }.

(** [TokenSigner::new], of a window of seconds and nanoseconds: a zero window
    becomes one second. *)
Definition TokenSigner_new (secret : bytes) (secs nanos : Z) : TokenSigner :=
  {| secret := secret; window_secs := if (secs =? 0) && (nanos =? 0) then 1 else secs |}.

(** [current_slot] *)
Definition current_slot (s : TokenSigner) (now_secs : Z) : Z := now_secs / Z.max (window_secs s) 1.

Section Token.
Variable hmac_sha256 : bytes -> bytes -> bytes.

(** The message of a slot: the three [update]s. *)
Definition token_message (username enc_key : bytes) (slot : Z) : bytes :=
  username ++ enc_key ++ le_bytes 8 slot.

(** [token_for_slot]; [u32::from_le_bytes] of the first four bytes. *)
Definition token_for_slot (secret username enc_key : bytes) (slot : Z) : Z :=
  le_value (take 4 (hmac_sha256 secret (token_message username enc_key slot))).

Definition issue (s : TokenSigner) (now_secs : Z) (username enc_key : bytes) : Z :=
  token_for_slot (secret s) username enc_key (current_slot s now_secs).

Definition verify (s : TokenSigner) (now_secs : Z) (username enc_key : bytes) (token : Z) : bool :=
  let slot := current_slot s now_secs in
  let current := token_for_slot (secret s) username enc_key slot in
  if token =? current then true
  else if (0 <? slot) && (token =? token_for_slot (secret s) username enc_key (slot - 1)) then true
  else token =? token_for_slot (secret s) username enc_key (wrap_u 64 (slot + 1)).

Lemma current_slot_bounds s now : 0 <= now ->
  let w := Z.max (window_secs s) 1 in
  0 <= current_slot s now /\ current_slot s now * w <= now < (current_slot s now + 1) * w.
Proof.
  intros H w. unfold current_slot. fold w. assert (0 < w) by lia.
  pose proof (Z.div_mod now w). pose proof (Z.mod_pos_bound now w). pose proof (Z.div_pos now w). nia.
Qed.

(** The system clock's seconds fit 64 bits, with room for the next slot. *)
Definition clock (now : Z) : Prop := 0 <= now < u64_max.

Lemma next_slot_wrap s now : clock now -> wrap_u 64 (current_slot s now + 1) = current_slot s now + 1.
Proof.
  unfold clock. intros H. pose proof (current_slot_bounds s now) as B. cbv zeta in B. destruct B as [B1 B2]; [lia |].
  unfold wrap_u. apply Z.mod_small. unfold u64_max in *. split; [lia |]. change (2 ^ 64) with 18446744073709551616. nia.
Qed.

(** Verification accepts exactly the tokens of the previous, the current
    and the next slot: a token issued at one time is accepted at another whenever
    their slots differ by at most one, so for at least one window after it was
    issued; and two windows later it is rejected, unless its truncated digest
    happens to be that of a slot then valid. *)
Theorem verify_window s now username enc_key token :
  clock now ->
  (verify s now username enc_key token = true <->
   exists slot, Z.abs (slot - current_slot s now) <= 1 /\ 0 <= slot /\
     token = token_for_slot (secret s) username enc_key slot) /\
  (forall issued, clock issued -> issued <= now -> token = issue s issued username enc_key ->
     let w := Z.max (window_secs s) 1 in
     (now <= issued + w -> verify s now username enc_key token = true) /\
     (issued + 2 * w <= now ->
      (forall slot, Z.abs (slot - current_slot s now) <= 1 -> 0 <= slot ->
        token_for_slot (secret s) username enc_key slot <> token) ->
      verify s now username enc_key token = false)).
Proof.
  intros Hc. pose proof (current_slot_bounds s now) as B. cbv zeta in B. destruct B as [B1 B2]; [unfold clock in *; lia |].
  assert (verify s now username enc_key token = true <->
    exists slot, Z.abs (slot - current_slot s now) <= 1 /\ 0 <= slot /\
      token = token_for_slot (secret s) username enc_key slot) as Hiff.
  { unfold verify. rewrite next_slot_wrap by done. set (slot := current_slot s now) in *.
    destruct (Z.eqb_spec token (token_for_slot (secret s) username enc_key slot)) as [E0 | E0].
    { split; [| done]. intros _. exists slot. split_and!; [lia | lia | done]. }
    destruct (Z.ltb_spec 0 slot), (Z.eqb_spec token (token_for_slot (secret s) username enc_key (slot - 1)));
      cbn [andb]; try (split; [intros _ | done]; exists (slot - 1); split_and!; [lia | lia | done]);
      rewrite Z.eqb_eq; (split; [intros E; exists (slot + 1); split_and!; [lia | lia | done] |]);
      intros (j & J & J0 & E); assert (j = slot - 1 \/ j = slot \/ j = slot + 1) as [-> | [-> | ->]] by lia;
      try done; lia. }
  split; [exact Hiff |]. intros issued Hi Hle -> w.
  pose proof (current_slot_bounds s issued) as D. cbv zeta in D. destruct D as [D1 D2]; [unfold clock in *; lia |].
  fold w in B2, D2. assert (1 <= w) as Hw by (unfold w; lia). split.
  - intros Hn. apply Hiff. exists (current_slot s issued). split_and!; [nia | lia | done].
  - intros Hn Hcol. apply not_true_is_false. intros Hv. apply Hiff in Hv as (slot & S1 & S2 & E).
    apply (Hcol slot); done.
Qed.

(** The authenticated message is unambiguous: for client keys of the same
    length, two requests have the same message only when user name, key and slot
    agree. *)
Theorem token_message_injective user1 key1 slot1 user2 key2 slot2 :
  length key1 = length key2 -> is_u64 slot1 -> is_u64 slot2 ->
  token_message user1 key1 slot1 = token_message user2 key2 slot2 ->
  user1 = user2 /\ key1 = key2 /\ slot1 = slot2.
Proof.
  unfold token_message. intros Hk H1 H2 E.
  rewrite !app_assoc in E.
  assert (length (le_bytes 8 slot1) = length (le_bytes 8 slot2)) as L by (by rewrite !le_bytes_length).
  apply app_inj_2 in E as [E Es]; [| exact L]. apply app_inj_2 in E as [-> ->]; [| exact Hk].
  split_and!; try done. apply (f_equal le_value) in Es. rewrite !le_value_bytes in Es.
  unfold is_u64, u64_max in *. change (2 ^ (8 * Z.of_nat 8)) with 18446744073709551616 in Es.
  rewrite !Z.mod_small in Es by lia. done.
Qed.
End Token.

(** A digest that starts with the slot. *)
Definition sample_hmac (key message : bytes) : bytes := drop (length message - 8) message ++ repeat 0 24.
Definition sample_signer : TokenSigner := TokenSigner_new [1; 2; 3] 30 0.

Lemma verify_window_witness :
  let token := issue sample_hmac sample_signer 1040 [65] (repeat 7 16) in
  verify sample_hmac sample_signer 1065 [65] (repeat 7 16) token = true /\
  verify sample_hmac sample_signer 1100 [65] (repeat 7 16) token = false.
Proof.
  intros token. split.
  - destruct (verify_window sample_hmac sample_signer 1065 [65] (repeat 7 16) token) as [_ H];
      [unfold clock, u64_max; lia |].
    apply (H 1040); [unfold clock, u64_max; lia | lia | reflexivity | discriminate].
  - destruct (verify_window sample_hmac sample_signer 1100 [65] (repeat 7 16) token) as [_ H];
      [unfold clock, u64_max; lia |].
    apply (H 1040); [unfold clock, u64_max; lia | lia | reflexivity | discriminate |].
    intros slot Hs _. change (current_slot sample_signer 1100) with 36 in Hs.
    assert (slot = 35 \/ slot = 36 \/ slot = 37) as [-> | [-> | ->]] by lia; vm_compute; discriminate.
Defined.

Lemma token_message_injective_witness : [65; 66] = [65; 66] /\ repeat 7 16 = repeat 7 16 /\ 35 = 35.
Proof.
  apply (token_message_injective [65; 66] (repeat 7 16) 35 [65; 66] (repeat 7 16) 35);
    [reflexivity | unfold is_u64, u64_max; lia | unfold is_u64, u64_max; lia | reflexivity].
Defined.
