(* ===== verification/Handshake.v ===== *)
(** The clock handshake ([zohar-protocol/src/handshake.rs]): the server and the
    client exchange clock readings until the difference is within the tolerance.

    Instants are nanoseconds of the monotonic clock; a [Duration] is a
    non-negative number of nanoseconds. *)
From S2P Require Import Prelude Wire Protocol.

(** ** Durations on the wire *)
Definition NANOS_PER_MILLI : Z := 1000000.
Definition as_millis (d : Z) : Z := d / NANOS_PER_MILLI.
Definition from_millis (ms : Z) : Z := ms * NANOS_PER_MILLI.

(** [Instant::duration_since], zero when the other instant is later. *)
Definition duration_since (now earlier : Z) : Z := Z.max 0 (now - earlier).

(** [millis_i64] *)
Definition millis_i64 (d : Z) : Z := if i64_max <? as_millis d then i64_max else as_millis d.

(** [From<Duration>] of [WireMillis32] and of [WireDeltaMillis]. *)
Definition WireMillis32_from (d : Z) : Z := wrap_u 32 (as_millis d).
Definition WireDeltaMillis_from (d : Z) : Z := if i32_max <? as_millis d then i32_max else as_millis d.

(** ** The state machine *)
Definition HANDSHAKE_RETRY_LIMIT : Z := 32.
Definition HANDSHAKE_BIAS_TOLERANCE_MS : Z := 50.

Record HandshakeState : Type := {
  hs_id : Z;
  hs_server_start : Z;
  hs_last_sent : Z;
  hs_retries : Z;
  hs_handshaking : bool }.

Inductive HandshakeOutcome : Type :=
| CompletedInitial
| SendHandshakeSync (data : HandshakeSyncData)
| SendTimeSyncAck.

Inductive HandshakeError : Type := HandshakeMismatch | RetryLimitExceeded.

Definition with_seed (server_start now seed : Z) : HandshakeState :=
  {| hs_id := seed; hs_server_start := server_start; hs_last_sent := now; hs_retries := 0; hs_handshaking := true |}.

Definition set_last_sent (h : HandshakeState) (t : Z) : HandshakeState :=
  {| hs_id := hs_id h; hs_server_start := hs_server_start h; hs_last_sent := t;
     hs_retries := hs_retries h; hs_handshaking := hs_handshaking h |}.
Definition set_retries (h : HandshakeState) (n : Z) (handshaking : bool) : HandshakeState :=
  {| hs_id := hs_id h; hs_server_start := hs_server_start h; hs_last_sent := hs_last_sent h;
     hs_retries := n; hs_handshaking := handshaking |}.

Definition uptime_at (h : HandshakeState) (now : Z) : Z := duration_since now (hs_server_start h).

Definition build_sync_data (h : HandshakeState) (now delta : Z) : HandshakeSyncData :=
  {| hsd_handshake := hs_id h;
     hsd_time := WireMillis32_from (uptime_at h now);
     hsd_delta := WireDeltaMillis_from delta |}.

Definition sync_data (h : HandshakeState) (now delta : Z) : HandshakeState * HandshakeSyncData :=
  (set_last_sent h now, build_sync_data h now delta).
Definition initial_sync_data (h : HandshakeState) (now : Z) : HandshakeState * HandshakeSyncData :=
  sync_data h now 0.

(** The clock difference [handle] looks at. *)
Definition bias_ms (h : HandshakeState) (data : HandshakeSyncData) (now : Z) : Z :=
  millis_i64 (uptime_at h now) - millis_i64 (from_millis (hsd_time data) + from_millis (hsd_delta data)).

(** The correction [handle] proposes. *)
Definition correction_ms (h : HandshakeState) (data : HandshakeSyncData) (now : Z) : Z :=
  let server_uptime := uptime_at h now in
  let delta_ms := Z.quot (millis_i64 server_uptime - millis_i64 (from_millis (hsd_time data))) 2 in
  let delta_ms :=
    if delta_ms <? 0 then
      let last_sent_ms := millis_i64 (uptime_at h (hs_last_sent h)) in
      Z.quot (millis_i64 server_uptime - last_sent_ms) 2
    else delta_ms in
  if delta_ms <? 0 then 0 else delta_ms.

(** [handle]: the answer and the state afterwards. *)
Definition handle (h : HandshakeState) (data : HandshakeSyncData) (now : Z)
  : (HandshakeOutcome + HandshakeError) * HandshakeState :=
  if negb (hsd_handshake data =? hs_id h) then (inr HandshakeMismatch, h)
  else if (0 <=? bias_ms h data now) && (bias_ms h data now <=? HANDSHAKE_BIAS_TOLERANCE_MS) then
    if hs_handshaking h then (inl CompletedInitial, set_retries h 0 false)
    else (inl SendTimeSyncAck, h)
  else
    let reply := build_sync_data h now (from_millis (correction_ms h data now)) in
    if hs_handshaking h then
      let next_retry := Z.min (hs_retries h + 1) u8_max in
      if HANDSHAKE_RETRY_LIMIT <? next_retry then (inr RetryLimitExceeded, h)
      else (inl (SendHandshakeSync reply), set_last_sent (set_retries h next_retry true) now)
    else (inl (SendHandshakeSync reply), set_last_sent h now).

(** A connection's handshake messages, in the order they arrive. *)
Fixpoint handle_all (h : HandshakeState) (msgs : list (HandshakeSyncData * Z))
  : list (HandshakeOutcome + HandshakeError) * HandshakeState :=
  match msgs with
  | [] => ([], h)
  | (data, now) :: msgs =>
      let '(r, h) := handle h data now in
      let '(rs, h) := handle_all h msgs in
      (r :: rs, h)
  end.

(** ** Lemmas on the conversions *)
Lemma as_millis_from_millis ms : as_millis (from_millis ms) = ms.
Proof. unfold as_millis, from_millis, NANOS_PER_MILLI. by rewrite Z.div_mul. Qed.

Lemma as_millis_nonneg d : 0 <= d -> 0 <= as_millis d.
Proof. intros H. unfold as_millis, NANOS_PER_MILLI. apply Z.div_pos; lia. Qed.

Lemma uptime_nonneg h now : 0 <= uptime_at h now.
Proof. unfold uptime_at, duration_since. lia. Qed.

Lemma millis_i64_small d ms : as_millis d = ms -> ms <= i64_max -> millis_i64 d = ms.
Proof. unfold millis_i64. intros -> H. destruct (Z.ltb_spec i64_max ms); lia. Qed.

Lemma bias_ms_valid h data now : HandshakeSyncData_valid data ->
  bias_ms h data now = millis_i64 (uptime_at h now) - (hsd_time data + hsd_delta data).
Proof.
  intros (_ & Ht & Hd). unfold bias_ms. f_equal. apply millis_i64_small.
  - unfold from_millis. rewrite <- Z.mul_add_distr_r. apply as_millis_from_millis.
  - unfold_widths. unfold i64_max. lia.
Qed.

Lemma build_sync_data_valid h now delta :
  is_u32 (hs_id h) -> 0 <= delta -> HandshakeSyncData_valid (build_sync_data h now delta).
Proof.
  intros Hi Hd. unfold HandshakeSyncData_valid, build_sync_data. cbn [hsd_handshake hsd_time hsd_delta].
  pose proof (Z.mod_pos_bound (as_millis (uptime_at h now)) (2 ^ 32) eq_refl) as B.
  pose proof (as_millis_nonneg _ Hd) as D. unfold WireMillis32_from, WireDeltaMillis_from, wrap_u.
  split; [exact Hi |]. split; [unfold_widths; cbn in *; lia |].
  destruct (Z.ltb_spec i32_max (as_millis delta)); unfold_widths; lia.
Qed.

Lemma correction_nonneg h data now : 0 <= correction_ms h data now.
Proof.
  unfold correction_ms. cbv zeta.
  match goal with |- 0 <= (if ?x <? 0 then 0 else _) => destruct (Z.ltb_spec x 0); lia end.
Qed.

(** ** Properties of one message *)

(** The states of a connection. *)
Definition hs_wf (h : HandshakeState) : Prop :=
  is_u32 (hs_id h) /\ 0 <= hs_retries h <= HANDSHAKE_RETRY_LIMIT.

Definition within_tolerance (h : HandshakeState) (data : HandshakeSyncData) (now : Z) : bool :=
  (0 <=? bias_ms h data now) && (bias_ms h data now <=? HANDSHAKE_BIAS_TOLERANCE_MS).

(** What one message does to the parts of the state, and what it answers. *)
Inductive handle_step (h : HandshakeState) (data : HandshakeSyncData) (now : Z)
  : HandshakeOutcome + HandshakeError -> HandshakeState -> Prop :=
| step_mismatch : hsd_handshake data <> hs_id h -> handle_step h data now (inr HandshakeMismatch) h
| step_complete : hsd_handshake data = hs_id h -> within_tolerance h data now = true -> hs_handshaking h = true ->
    handle_step h data now (inl CompletedInitial) (set_retries h 0 false)
| step_ack : hsd_handshake data = hs_id h -> within_tolerance h data now = true -> hs_handshaking h = false ->
    handle_step h data now (inl SendTimeSyncAck) h
| step_exhausted : hsd_handshake data = hs_id h -> within_tolerance h data now = false -> hs_handshaking h = true ->
    hs_retries h = HANDSHAKE_RETRY_LIMIT ->
    handle_step h data now (inr RetryLimitExceeded) h
| step_retry : hsd_handshake data = hs_id h -> within_tolerance h data now = false -> hs_handshaking h = true ->
    hs_retries h < HANDSHAKE_RETRY_LIMIT ->
    handle_step h data now
      (inl (SendHandshakeSync (build_sync_data h now (from_millis (correction_ms h data now)))))
      (set_last_sent (set_retries h (hs_retries h + 1) true) now)
| step_resync : hsd_handshake data = hs_id h -> within_tolerance h data now = false -> hs_handshaking h = false ->
    handle_step h data now
      (inl (SendHandshakeSync (build_sync_data h now (from_millis (correction_ms h data now)))))
      (set_last_sent h now).

Lemma handle_steps h data now : hs_wf h ->
  handle_step h data now (fst (handle h data now)) (snd (handle h data now)).
Proof.
  intros [_ Hr]. unfold handle. fold (within_tolerance h data now).
  destruct (Z.eqb_spec (hsd_handshake data) (hs_id h)); cbn [negb]; [| by apply step_mismatch].
  destruct (within_tolerance h data now) eqn:Ew, (hs_handshaking h) eqn:Eh;
    [by apply step_complete | by apply step_ack | | by apply step_resync].
  unfold HANDSHAKE_RETRY_LIMIT in *. rewrite Z.min_l by (unfold u8_max; lia).
  destruct (Z.ltb_spec 32 (hs_retries h + 1));
    [apply step_exhausted | apply step_retry]; try done; unfold HANDSHAKE_RETRY_LIMIT; cbn [snd]; lia.
Qed.

Lemma handle_wf h data now : hs_wf h -> hs_wf (snd (handle h data now)).
Proof.
  intros Hw. destruct (handle_steps h data now Hw); try exact Hw;
    destruct Hw; split; try done; cbn; unfold HANDSHAKE_RETRY_LIMIT in *; lia.
Qed.

(** ** Runs *)
Definition is_completed (r : HandshakeOutcome + HandshakeError) : bool :=
  match r with inl CompletedInitial => true | _ => false end.
Definition is_sync (r : HandshakeOutcome + HandshakeError) : bool :=
  match r with inl (SendHandshakeSync _) => true | _ => false end.
Definition sent_sync (r : HandshakeOutcome + HandshakeError) : option HandshakeSyncData :=
  match r with inl (SendHandshakeSync d) => Some d | _ => None end.

Lemma handle_all_cons h data now msgs :
  handle_all h ((data, now) :: msgs) =
    (fst (handle h data now) :: fst (handle_all (snd (handle h data now)) msgs),
     snd (handle_all (snd (handle h data now)) msgs)).
Proof.
  cbn [handle_all]. destruct (handle h data now) as [r h']. cbn. by destruct (handle_all h' msgs).
Qed.

Lemma handle_all_sent h msgs : hs_wf h ->
  Forall (fun d => HandshakeSyncData_valid d /\ hsd_handshake d = hs_id h)
    (omap sent_sync (fst (handle_all h msgs))).
Proof.
  revert h. induction msgs as [| [data now] msgs IH]; intros h Hw; [apply Forall_nil_2 |].
  rewrite handle_all_cons. cbn [fst]. specialize (IH _ (handle_wf h data now Hw)).
  assert (hs_id (snd (handle h data now)) = hs_id h) as Hid by (by destruct (handle_steps h data now Hw)).
  rewrite Hid in IH. change (omap sent_sync (?r :: ?l)) with
    (match sent_sync r with Some d => d :: omap sent_sync l | None => omap sent_sync l end).
  destruct (handle_steps h data now Hw); cbn [sent_sync]; try exact IH; constructor; try exact IH;
    (split; [| done]); apply build_sync_data_valid; try apply Hw; unfold from_millis, NANOS_PER_MILLI;
    pose proof (correction_nonneg h data now); lia.
Qed.

Definition completions (rs : list (HandshakeOutcome + HandshakeError)) : nat := length (List.filter is_completed rs).
Definition corrections (rs : list (HandshakeOutcome + HandshakeError)) : nat := length (List.filter is_sync rs).

Lemma completions_cons r rs : completions (r :: rs) = ((if is_completed r then 1 else 0) + completions rs)%nat.
Proof. unfold completions. cbn [List.filter]. by destruct (is_completed r). Qed.
Lemma corrections_cons r rs : corrections (r :: rs) = ((if is_sync r then 1 else 0) + corrections rs)%nat.
Proof. unfold corrections. cbn [List.filter]. by destruct (is_sync r). Qed.

Lemma handle_all_over h msgs : hs_wf h -> hs_handshaking h = false ->
  completions (fst (handle_all h msgs)) = 0%nat /\ hs_handshaking (snd (handle_all h msgs)) = false.
Proof.
  revert h. induction msgs as [| [data now] msgs IH]; intros h Hw Hh; [done |].
  rewrite handle_all_cons. cbn [fst snd]. rewrite completions_cons.
  assert (is_completed (fst (handle h data now)) = false /\ hs_handshaking (snd (handle h data now)) = false) as [-> H2]
    by (destruct (handle_steps h data now Hw); cbn; split; congruence).
  exact (IH _ (handle_wf h data now Hw) H2).
Qed.

(** [C37] A connection's handshake, over any messages at any times: every message
    the server sends in answer carries the connection's id and fields the wire
    format accepts; it completes at most once, and completion is what ends the
    handshaking state, for good; and until then the server sends at most 32
    corrections, those it counted before included, so a client that never
    synchronises exhausts the limit. *)
Theorem handshake_run h msgs :
  hs_wf h -> hs_handshaking h = true ->
  let rs := fst (handle_all h msgs) in
  let h' := snd (handle_all h msgs) in
  Forall (fun d => HandshakeSyncData_valid d /\ hsd_handshake d = hs_id h) (omap sent_sync rs) /\
  completions rs = (if hs_handshaking h' then 0 else 1)%nat /\
  (hs_handshaking h' = true ->
    hs_retries h' = hs_retries h + Z.of_nat (corrections rs) /\ hs_retries h' <= HANDSHAKE_RETRY_LIMIT).
Proof.
  cbv zeta. intros Hw Hh. split; [by apply handle_all_sent |]. revert h Hw Hh.
  induction msgs as [| [data now] msgs IH]; intros h Hw Hh.
  { cbn. rewrite Hh. split; [done |]. intros _. destruct Hw. lia. }
  rewrite handle_all_cons. cbn [fst snd]. rewrite completions_cons, corrections_cons.
  pose proof (handle_wf h data now Hw) as Hw'.
  destruct (handle_steps h data now Hw) as [| | ? ? E | | |? ? E]; cbn [is_completed is_sync]; try congruence;
    try (exact (IH _ Hw Hh)).
  - destruct (handle_all_over _ msgs Hw' eq_refl) as [-> ->]. done.
  - destruct (IH _ Hw' eq_refl) as [IH1 IH2]. split; [exact IH1 |]. intros E.
    destruct (IH2 E) as [E1 E2]. split; [| exact E2]. rewrite E1. cbn [hs_retries set_last_sent set_retries]. lia.
Qed.

Definition sample_handshake : HandshakeState := with_seed 0 0 7.
Lemma sample_handshake_wf : hs_wf sample_handshake.
Proof. unfold hs_wf, HANDSHAKE_RETRY_LIMIT. cbn. unfold_widths. lia. Qed.

(** A late answer, then an exact one. *)
Lemma handshake_run_witness :
  let msgs := [({| hsd_handshake := 7; hsd_time := 0; hsd_delta := 0 |}, 200000000);
               ({| hsd_handshake := 7; hsd_time := 300; hsd_delta := 100 |}, 400000000)] in
  completions (fst (handle_all sample_handshake msgs)) = 1%nat /\
  omap sent_sync (fst (handle_all sample_handshake msgs)) = [{| hsd_handshake := 7; hsd_time := 200; hsd_delta := 100 |}].
Proof.
  intros msgs. destruct (handshake_run sample_handshake msgs sample_handshake_wf eq_refl) as (_ & E & _).
  split; [exact E | vm_compute; reflexivity].
Defined.

(** ** Uptimes beyond the wire clock *)

Lemma late_outside_tolerance h data now : HandshakeSyncData_valid data ->
  u32_max + i32_max + HANDSHAKE_BIAS_TOLERANCE_MS < as_millis (uptime_at h now) ->
  within_tolerance h data now = false.
Proof.
  intros Hv Hl. unfold within_tolerance. rewrite bias_ms_valid by done. destruct Hv as (_ & Ht & Hd).
  unfold HANDSHAKE_BIAS_TOLERANCE_MS in *. unfold_widths.
  assert (4294967295 + 2147483647 + 50 < millis_i64 (uptime_at h now)) as Hm.
  { unfold millis_i64. destruct (Z.ltb_spec i64_max (as_millis (uptime_at h now))); unfold i64_max in *; lia. }
  destruct (Z.leb_spec (millis_i64 (uptime_at h now) - (hsd_time data + hsd_delta data)) 50); lia.
Qed.

(** [C40] The clock on the wire has 32 bits of milliseconds, the uptime it is
    compared with does not wrap: on a server that has been up for longer than
    [u32::MAX + i32::MAX + 50] milliseconds (about 74.6 days) no message that the
    packet format can carry completes a handshake, however many are exchanged. *)
Theorem handshake_never_completes_late h msgs :
  hs_wf h ->
  Forall (fun '(data, now) => HandshakeSyncData_valid data /\
    u32_max + i32_max + HANDSHAKE_BIAS_TOLERANCE_MS < as_millis (duration_since now (hs_server_start h))) msgs ->
  completions (fst (handle_all h msgs)) = 0%nat /\
  hs_handshaking (snd (handle_all h msgs)) = hs_handshaking h.
Proof.
  intros Hw Hm. revert h Hw Hm. induction msgs as [| [data now] msgs IH]; intros h Hw Hm; [done |].
  apply Forall_cons_1 in Hm as [[Hv Hl] Hm].
  pose proof (late_outside_tolerance h data now Hv Hl) as Ho.
  rewrite handle_all_cons. cbn [fst snd]. rewrite completions_cons.
  assert (hs_server_start (snd (handle h data now)) = hs_server_start h) as Es by (by destruct (handle_steps h data now Hw)).
  destruct (IH (snd (handle h data now)) (handle_wf h data now Hw)) as [-> ->]; [by rewrite Es |].
  destruct (handle_steps h data now Hw); cbn; try congruence; done.
Qed.

Lemma handshake_never_completes_late_witness :
  completions (fst (handle_all sample_handshake
    [({| hsd_handshake := 7; hsd_time := u32_max; hsd_delta := i32_max |}, 75 * 86400 * 1000000000)])) = 0%nat.
Proof.
  apply (handshake_never_completes_late sample_handshake); [exact sample_handshake_wf |].
  apply Forall_cons_2; [| apply Forall_nil_2]. split; [| reflexivity].
  unfold HandshakeSyncData_valid. unfold_widths. cbn. lia.
Defined.

(** ** The client of the repository's tests

    [connect_through_login], [run_game_client] and [reply_to_ingame_handshake] of
    [zohar-gamesrv/tests/game_srv_test.rs] answer every request with the time they
    were sent and no delta. *)
Definition echo (sent : HandshakeSyncData) : HandshakeSyncData :=
  {| hsd_handshake := hsd_handshake sent; hsd_time := hsd_time sent; hsd_delta := 0 |}.

(** The exchange until the server neither completes nor gives up: each answer is
    handled at the next of the instants. *)
Fixpoint echo_run (h : HandshakeState) (sent : HandshakeSyncData) (instants : list Z)
  : option (HandshakeOutcome + HandshakeError) :=
  match instants with
  | [] => None
  | now :: instants =>
      match handle h (echo sent) now with
      | (inl (SendHandshakeSync correction), h) => echo_run h correction instants
      | (r, _) => Some r
      end
  end.

(** Uptimes and round trips in whole milliseconds, as the handshake counts them. *)
Definition uptime_ms (h : HandshakeState) (now : Z) : Z := as_millis (uptime_at h now).
Fixpoint round_trips (h : HandshakeState) (sent_at : Z) (instants : list Z) : list Z :=
  match instants with
  | [] => []
  | now :: instants => (uptime_ms h now - uptime_ms h sent_at) :: round_trips h now instants
  end.

Lemma round_trips_start h h' sent_at instants :
  hs_server_start h' = hs_server_start h -> round_trips h' sent_at instants = round_trips h sent_at instants.
Proof.
  intros E. revert sent_at. induction instants as [| now instants IH]; intros sent_at; [done |]. cbn. rewrite IH.
  unfold uptime_ms, uptime_at. by rewrite E.
Qed.

Lemma echo_bias h sent_at delta now :
  is_u32 (hs_id h) -> uptime_ms h sent_at <= u32_max -> uptime_ms h now <= u32_max -> 0 <= delta ->
  bias_ms h (echo (build_sync_data h sent_at delta)) now = uptime_ms h now - uptime_ms h sent_at.
Proof.
  intros Hi H0 H1 Hd. pose proof (as_millis_nonneg _ (uptime_nonneg h sent_at)) as P. unfold uptime_ms in *.
  assert (hsd_time (build_sync_data h sent_at delta) = as_millis (uptime_at h sent_at)) as Et.
  { cbn. unfold WireMillis32_from, wrap_u. apply Z.mod_small. revert H0 P. unfold_widths. lia. }
  rewrite bias_ms_valid.
  - cbn [echo hsd_time hsd_delta]. rewrite Et, Z.add_0_r. f_equal. apply millis_i64_small; [done |].
    revert H1. unfold_widths. unfold i64_max. lia.
  - destruct (build_sync_data_valid h sent_at delta Hi Hd) as (V1 & V2 & _). split; [exact V1 |]. split; [exact V2 |].
    cbn. unfold_widths. lia.
Qed.

Lemma handle_bias h data now :
  hs_wf h -> hs_handshaking h = true -> hsd_handshake data = hs_id h -> 0 <= bias_ms h data now ->
  handle h data now =
    if bias_ms h data now <=? HANDSHAKE_BIAS_TOLERANCE_MS then (inl CompletedInitial, set_retries h 0 false)
    else if hs_retries h <? HANDSHAKE_RETRY_LIMIT then
      (inl (SendHandshakeSync (build_sync_data h now (from_millis (correction_ms h data now)))),
       set_last_sent (set_retries h (hs_retries h + 1) true) now)
    else (inr RetryLimitExceeded, h).
Proof.
  intros [_ Hr] Hh Hid Hb. unfold handle. rewrite Hid, Z.eqb_refl, Hh, (proj2 (Z.leb_le 0 _) Hb). cbn [negb andb].
  destruct (_ <=? _); [done |]. unfold HANDSHAKE_RETRY_LIMIT in *. rewrite Z.min_l by (unfold u8_max; lia).
  destruct (Z.ltb_spec (hs_retries h) 32), (Z.ltb_spec 32 (hs_retries h + 1)); first [lia | done].
Qed.

(** The outcome by the round trips: [late] of them come before the first that is in time. *)
Definition echo_outcome (retries_left : nat) (trips : list Z) : option (HandshakeOutcome + HandshakeError) :=
  match list_find (fun trip => trip <= HANDSHAKE_BIAS_TOLERANCE_MS) trips with
  | Some (late, _) => if (late <=? retries_left)%nat then Some (inl CompletedInitial) else Some (inr RetryLimitExceeded)
  | None => if (length trips <=? retries_left)%nat then None else Some (inr RetryLimitExceeded)
  end.

Lemma echo_outcome_cons n trip trips :
  echo_outcome n (trip :: trips) =
    if trip <=? HANDSHAKE_BIAS_TOLERANCE_MS then Some (inl CompletedInitial)
    else match n with O => Some (inr RetryLimitExceeded) | S n => echo_outcome n trips end.
Proof.
  unfold echo_outcome. cbn [list_find]. destruct (Z.leb_spec trip HANDSHAKE_BIAS_TOLERANCE_MS); [by rewrite decide_True |].
  rewrite decide_False by lia.
  destruct (list_find _ trips) as [[i t] |], n; reflexivity.
Qed.

(** [C39] A client that echoes the time it is sent, as the clients of the
    repository's tests do, gets in exactly if it is in time often enough: on a
    monotonic clock and while the uptime fits the wire clock, each answer that takes
    over 50 ms costs one of the retries left, the first that takes at most 50 ms
    completes the handshake if no more answers were late than there were
    retries, and one late answer more ends the connection.  The corrections
    do not help such a client: with a steady round trip of over 50 ms it never
    completes. *)
Theorem echo_client_outcome h sent_at instants :
  hs_wf h -> hs_handshaking h = true ->
  Forall (fun now => uptime_ms h now <= u32_max) (sent_at :: instants) ->
  Forall (fun trip => 0 <= trip) (round_trips h sent_at instants) ->
  let '(h', sent) := initial_sync_data h sent_at in
  echo_run h' sent instants =
    echo_outcome (Z.to_nat (HANDSHAKE_RETRY_LIMIT - hs_retries h)) (round_trips h sent_at instants) /\
  (Forall (fun trip => HANDSHAKE_BIAS_TOLERANCE_MS < trip) (round_trips h sent_at instants) ->
     echo_run h' sent instants <> Some (inl CompletedInitial)).
Proof.
  intros Hw Hh Hu Ht. unfold initial_sync_data, sync_data.
  assert (forall instants h sent_at delta, 0 <= delta -> hs_wf h -> hs_handshaking h = true ->
    Forall (fun now => uptime_ms h now <= u32_max) (sent_at :: instants) ->
    Forall (fun trip => 0 <= trip) (round_trips h sent_at instants) ->
    echo_run h (build_sync_data h sent_at delta) instants =
      echo_outcome (Z.to_nat (HANDSHAKE_RETRY_LIMIT - hs_retries h)) (round_trips h sent_at instants)) as Run.
  { clear. induction instants as [| now instants IH]; intros h sent_at delta Hd Hw Hh Hu Ht; [done |].
    apply Forall_cons in Hu as [U0 Hu]. pose proof Hu as [U1 _]%Forall_cons.
    cbn [round_trips] in Ht. apply Forall_cons in Ht as [T Ht].
    pose proof (echo_bias h sent_at delta now (proj1 Hw) U0 U1 Hd) as Hb.
    cbn [echo_run round_trips]. rewrite handle_bias, Hb, echo_outcome_cons by (done || lia).
    destruct (_ <=? _); [done |]. destruct Hw as [Hi [R0 R1]].
    destruct (Z.ltb_spec (hs_retries h) HANDSHAKE_RETRY_LIMIT) as [L | L].
    - rewrite (Z2Nat.inj_sub _ _ R0). destruct (Z.to_nat HANDSHAKE_RETRY_LIMIT - Z.to_nat (hs_retries h))%nat as [| n] eqn:En;
        [unfold HANDSHAKE_RETRY_LIMIT in *; lia |].
      set (h2 := set_last_sent _ now). pose proof (correction_nonneg h (echo (build_sync_data h sent_at delta)) now) as Hc.
      assert (0 <= from_millis (correction_ms h (echo (build_sync_data h sent_at delta)) now)) as Hc'
        by (unfold from_millis, NANOS_PER_MILLI; lia).
      rewrite <- (round_trips_start h h2 now instants) in Ht |- * by done.
      change (build_sync_data h now) with (build_sync_data h2 now).
      rewrite (IH h2 now _ Hc'); [f_equal | split; [done |] | done | exact Hu | exact Ht];
        unfold h2, HANDSHAKE_RETRY_LIMIT in *; cbn [hs_retries set_last_sent set_retries]; lia.
    - rewrite (Z.le_antisymm _ _ R1 L), Z.sub_diag. done. }
  assert (echo_run (set_last_sent h sent_at) (build_sync_data h sent_at 0) instants =
    echo_outcome (Z.to_nat (HANDSHAKE_RETRY_LIMIT - hs_retries h)) (round_trips h sent_at instants)) as E
    by (rewrite <- (round_trips_start h (set_last_sent h sent_at)) in Ht |- * by done;
        by apply (Run instants (set_last_sent h sent_at) sent_at 0)).
  split; [exact E |]. intros Hl. rewrite E. unfold echo_outcome.
  assert (list_find (fun trip => trip <= HANDSHAKE_BIAS_TOLERANCE_MS) (round_trips h sent_at instants) = None) as ->.
  { apply list_find_None. eapply Forall_impl; [exact Hl |]. cbn. lia. }
  by destruct (_ <=? _)%nat.
Qed.

(** A round trip of 200 ms, then one of 40 ms. *)
Lemma echo_client_outcome_witness :
  let '(h', sent) := initial_sync_data sample_handshake 0 in
  echo_run h' sent [200000000; 240000000] = Some (inl CompletedInitial).
Proof.
  assert (Forall (fun now => uptime_ms sample_handshake now <= u32_max) [0; 200000000; 240000000]) as Hu
    by (repeat constructor; by vm_compute).
  assert (Forall (fun trip => 0 <= trip) (round_trips sample_handshake 0 [200000000; 240000000])) as Ht
    by (repeat constructor; by vm_compute).
  pose proof (echo_client_outcome sample_handshake 0 [200000000; 240000000] sample_handshake_wf eq_refl Hu Ht) as [E _].
  exact (eq_trans E eq_refl).
Defined.
