(* ===== verification/Space.v ===== *)
(** The metric vocabulary of [zohar-domain/src/coords.rs]: [f32] arithmetic,
    positions and boxes in metres, and the player snapshots that carry one
    ([entity/player.rs]). *)
From S2P Require Import Prelude Domain Float.

Definition usize_max : Z := u64_max.

(** [f32] arithmetic. *)
Definition f32_add := f_add binary32.
Definition f32_sub := f_sub binary32.
Definition f32_mul := f_mul binary32.
Definition f32_div := f_div binary32.
Definition f32_of_int := f_of_int binary32.
Definition f32_zero : spec_float := S754_zero false.
Definition f32_one : spec_float := f32_of_int 1.
Definition f32_half : spec_float := f_lit binary32 1 2.

(** [LocalPos], metres from the map's corner, and [WorldPos], metres in the
    world all maps lie in: two units of one point type. *)
Record LocalPos : Type := { pos_x : spec_float; pos_y : spec_float }.
Record WorldPos : Type := { world_x : spec_float; world_y : spec_float }.
Record LocalSize : Type := { size_width : spec_float; size_height : spec_float }.

#[export] Instance spec_float_eq_dec : EqDecision spec_float.
Proof. solve_decision. Defined.
#[export] Instance LocalPos_eq_dec : EqDecision LocalPos.
Proof. solve_decision. Defined.

(** ** Snapshots of a player *)
Notation PlayerId := Z (only parsing).
Notation MapId := string (only parsing).

Inductive PlayerExitKind : Type := Exit_Disconnect | Exit_Handoff.

Record PlayerRuntimeSnapshot : Type := {
  prs_id : PlayerId;
  prs_runtime_epoch : Z;
  prs_map_key : MapId;
  prs_local_pos : LocalPos;
  prs_playtime : Z;
  prs_current_hp : option Z;
  prs_current_sp : option Z;
  prs_current_stamina : option Z }.

Record PlayerProgressionSnapshot : Type := {
  pps_level : Z;
  pps_exp_in_level : Z;
  pps_core_stat_allocations : CoreStatAllocations;
  pps_stat_reset_count : Z }.

Record PlayerSnapshot : Type := {
  snapshot_runtime : PlayerRuntimeSnapshot; snapshot_progression : PlayerProgressionSnapshot }.

(** [PlayerSnapshot::player_id] *)
Definition player_id (s : PlayerSnapshot) : PlayerId := prs_id (snapshot_runtime s).

(** [PlayerSnapshot::with_runtime_location] *)
Definition with_runtime_location (s : PlayerSnapshot) (map_key : MapId) (local_pos : LocalPos) : PlayerSnapshot :=
  let r := snapshot_runtime s in
  {| snapshot_runtime :=
       {| prs_id := prs_id r; prs_runtime_epoch := prs_runtime_epoch r; prs_map_key := map_key;
          prs_local_pos := local_pos; prs_playtime := prs_playtime r; prs_current_hp := prs_current_hp r;
          prs_current_sp := prs_current_sp r; prs_current_stamina := prs_current_stamina r |};
     snapshot_progression := snapshot_progression s |}.
