(* ===== verification/Entities.v ===== *)
(** What observers see of an entity ([zohar-domain/src/appearance.rs]), with the
    identifiers and classifications of [entity.rs], [entity/mob.rs] and
    [entity/player/skill.rs]. *)
From S2P Require Import Prelude Domain Float Space.

(** [EntityId], [MobId]: [u32] identifiers. *)
Notation EntityId := Z (only parsing).
Notation MobId := Z (only parsing).

Inductive MovementKind : Type := Kind_Wait | Kind_Move | Kind_Attack | Kind_Combo.
#[export] Instance MovementKind_eq_dec : EqDecision MovementKind.
Proof. solve_decision. Defined.

Inductive PlayerGender : Type := Male | Female.
#[export] Instance PlayerGender_eq_dec : EqDecision PlayerGender.
Proof. solve_decision. Defined.

Inductive CoreStatKind : Type := Core_St | Core_Ht | Core_Dx | Core_Iq.

Inductive PortalBehavior : Type := Portal_MapTransfer | Portal_LocalReposition.
#[export] Instance PortalBehavior_eq_dec : EqDecision PortalBehavior.
Proof. solve_decision. Defined.
Inductive MobKind : Type := Mob_Monster | Mob_Npc | Mob_Stone | Mob_Portal (behavior : PortalBehavior).
#[export] Instance MobKind_eq_dec : EqDecision MobKind.
Proof. solve_decision. Defined.

Inductive SkillId : Type :=
| Skill_ThreeWayCut | Skill_SwordSpin | Skill_Berserk | Skill_AuraOfTheSword | Skill_Dash
| Skill_LifeForce | Skill_Shockwave | Skill_Bash | Skill_Stump | Skill_StrongBody
| Skill_SwordStrike | Skill_SwordOrb | Skill_Ambush | Skill_FastAttack | Skill_RollingDagger
| Skill_Stealth | Skill_PoisonousCloud | Skill_InsidiousPoison | Skill_RepetitiveShot | Skill_ArrowShower
| Skill_FireArrow | Skill_FeatherWalk | Skill_PoisonArrow | Skill_Spark | Skill_FingerStrike
| Skill_DragonSwirl | Skill_EnchantedBlade | Skill_Fear | Skill_EnchantedArmor | Skill_Dispel
| Skill_DarkStrike | Skill_FlameStrike | Skill_FlameSpirit | Skill_DarkProtection | Skill_SpiritStrike
| Skill_DarkOrb | Skill_FlyingTalisman | Skill_ShootingDragon | Skill_DragonRoar | Skill_Blessing
| Skill_Reflect | Skill_DragonAid | Skill_LightningThrow | Skill_SummonLightning | Skill_LightningClaw
| Skill_Cure | Skill_Swiftness | Skill_AttackUp | Skill_Leadership | Skill_Combo
| Skill_Fishing | Skill_Mining | Skill_LanguageShinsoo | Skill_LanguageChunjo | Skill_LanguageJinno
| Skill_Polymorph | Skill_HorseRiding | Skill_HorseSummon | Skill_HorseWildAttack | Skill_HorseCharge
| Skill_HorseEscape | Skill_HorseWildAttackRange | Skill_AddHp | Skill_PenetrationResistance | Skill_GuildEye
| Skill_GuildBlood | Skill_GuildBless | Skill_GuildSeonghwi | Skill_GuildAcceleration | Skill_GuildBunno
| Skill_GuildJumun | Skill_GuildTeleport | Skill_GuildDoor.

(** ** Public appearance *)
Inductive EntityKind : Type :=
| Entity_Player (class : PlayerClass) (gender : PlayerGender)
| Entity_Mob (mob_id : MobId) (mob_kind : MobKind).

Record EntityNameplate : Type := { plate_name : string; plate_empire : option Empire; plate_level : Z }.

Record EntityPublicEquipment : Type := { body_part : Z; weapon_part : Z; hair_part : Z }.
Record EntityPublicSpeeds : Type := { move_speed : Z; attack_speed : Z }.
Definition EntityPublicSpeeds_default : EntityPublicSpeeds := {| move_speed := 100; attack_speed := 100 |}.

Definition EntityStateFlags_DEAD : Z := Z.shiftl 1 0.
Definition EntityStateFlags_SPAWN : Z := Z.shiftl 1 1.
Definition EntityBuffFlags_SPAWN : Z := Z.shiftl 1 2.
Record EntityPublicFlags : Type := { state_flags : Z; buff_flags : Z }.
Record EntityPublicSocial : Type := { guild_id : Z; rank_pts : Z; pvp_mode : Z; mount_id : Z }.
Record EntityPublicState : Type := {
  eps_equipment : EntityPublicEquipment; eps_speeds : EntityPublicSpeeds; eps_flags : EntityPublicFlags;
  eps_social : EntityPublicSocial }.

Record EntitySnapshot : Type := {
  es_entity_id : EntityId; es_facing : Z; es_pos : LocalPos; es_kind : EntityKind;
  es_public_state : EntityPublicState; es_nameplate : option EntityNameplate }.

Record PlayerVisualProfile : Type := {
  pvp_name : string; pvp_gender : PlayerGender; pvp_empire : Empire; pvp_body_part : Z; pvp_guild_id : Z }.
Definition PlayerVisualProfile_default : PlayerVisualProfile :=
  {| pvp_name := ""; pvp_gender := Male; pvp_empire := Empire_Red; pvp_body_part := 0; pvp_guild_id := 0 |}.

Record PlayerAppearance : Type := {
  pa_name : string; pa_class : PlayerClass; pa_gender : PlayerGender; pa_empire : Empire; pa_body_part : Z;
  pa_level : Z; pa_guild_id : Z; pa_move_speed : Z; pa_attack_speed : Z }.

(** [PlayerAppearance::from_parts] and [Default]. *)
Definition PlayerAppearance_from_parts (visual_profile : PlayerVisualProfile) (class : PlayerClass)
    (level move_speed attack_speed : Z) : PlayerAppearance :=
  {| pa_name := pvp_name visual_profile; pa_class := class; pa_gender := pvp_gender visual_profile;
     pa_empire := pvp_empire visual_profile; pa_body_part := pvp_body_part visual_profile; pa_level := level;
     pa_guild_id := pvp_guild_id visual_profile; pa_move_speed := move_speed; pa_attack_speed := attack_speed |}.
Definition PlayerAppearance_default : PlayerAppearance :=
  PlayerAppearance_from_parts PlayerVisualProfile_default Warrior 1 100 100.
