(* ===== verification/Database.v ===== *)
(** The game database ([zohar-db]): the tables of the migrations and every query of
    [postgres_backend/queries.rs] as a function on them.

    A statement reads the clock once ([now], in microseconds), is atomic, and
    either fails without effect or leaves tables that satisfy the CHECK, UNIQUE and
    FOREIGN KEY constraints of the schema.  A comparison with NULL is not true.
    Text columns hold what [AsRefStr] writes and are read back by [parse_enum].
    Columns that no query reads ([created_at], [updated_at]) are left out; so are
    failures of the link to the server, which the callers' models add. *)
From S2P Require Import Prelude Domain Float Space Entities.
From Stdlib Require Import Ascii.

Inductive DbError : Type :=
| Db_Sqlx (context : string)
| Db_ParseEnum (kind value : string)
| Db_Invariant (message : string).
Definition DbResult (A : Type) : Type := result A DbError.

(** [OptionDbExt::db_invariant] *)
Definition db_invariant {A} (o : option A) (message : string) : DbResult A :=
  match o with Some a => Ok a | None => Err (Db_Invariant message) end.

(** ** Enumerations as text ([db_types.rs]) *)
Inductive PlayerBaseAppearance : Type := VariantA | VariantB.
#[export] Instance PlayerBaseAppearance_eq_dec : EqDecision PlayerBaseAppearance.
Proof. solve_decision. Defined.

Definition ascii_lower (c : ascii) : ascii :=
  let n := N_of_ascii c in if ((65 <=? n) && (n <=? 90))%N then ascii_of_N (n + 32) else c.
Fixpoint eq_ignore_ascii_case (s t : string) : bool :=
  match s, t with
  | EmptyString, EmptyString => true
  | String a s, String b t => Ascii.eqb (ascii_lower a) (ascii_lower b) && eq_ignore_ascii_case s t
  | _, _ => false
  end.

(** A type with a column representation: [AsRefStr] and [EnumString] with
    [ascii_case_insensitive]. *)
Class DbEnum (A : Type) := { variants : list (string * A); as_ref : A -> string }.
Definition parse_enum {A} `{!DbEnum A} (kind value : string) : DbResult A :=
  match List.find (fun v => eq_ignore_ascii_case (fst v) value) variants with
  | Some (_, a) => Ok a
  | None => Err (Db_ParseEnum kind value)
  end.

Definition DbEmpire : DbEnum Empire := {|
  variants := [("RED"%string, Empire_Red); ("YELLOW"%string, Empire_Yellow); ("BLUE"%string, Empire_Blue)];
  as_ref e := match e with Empire_Red => "RED" | Empire_Yellow => "YELLOW" | Empire_Blue => "BLUE" end |}.
#[export] Existing Instance DbEmpire.
Definition DbPlayerClass : DbEnum PlayerClass := {|
  variants := [("WARRIOR"%string, Warrior); ("NINJA"%string, Ninja); ("SURA"%string, Sura); ("SHAMAN"%string, Shaman)];
  as_ref c := match c with Warrior => "WARRIOR" | Ninja => "NINJA" | Sura => "SURA" | Shaman => "SHAMAN" end |}.
#[export] Existing Instance DbPlayerClass.
Definition DbPlayerGender : DbEnum PlayerGender := {|
  variants := [("M"%string, Male); ("F"%string, Female)];
  as_ref g := match g with Male => "M" | Female => "F" end |}.
#[export] Existing Instance DbPlayerGender.
Definition DbAppearance : DbEnum PlayerBaseAppearance := {|
  variants := [("A"%string, VariantA); ("B"%string, VariantB)];
  as_ref a := match a with VariantA => "A" | VariantB => "B" end |}.
#[export] Existing Instance DbAppearance.

(** ** Rows handed to the callers ([traits.rs]) *)
Record AccountRow : Type := { account_username : string; account_password_hash : string }.
Record ProfileRow : Type := {
  profile_username : string; profile_empire : option Empire; profile_delete_code : string; profile_is_banned : bool }.
Record PlayerCoreStatAllocationRow : Type := {
  row_allocated_str : Z; row_allocated_vit : Z; row_allocated_dex : Z; row_allocated_int : Z }.
Record PlayerSummaryRow : Type := {
  psr_id : PlayerId; psr_username : string; psr_slot : Z; psr_name : string; psr_class : PlayerClass;
  psr_gender : PlayerGender; psr_appearance : PlayerBaseAppearance; psr_level : Z; psr_playtime_secs : Z;
  psr_core_stat_allocations : PlayerCoreStatAllocationRow }.
Record PlayerStatsBootstrapRow : Type := {
  pbr_id : PlayerId; pbr_username : string; pbr_slot : Z; pbr_name : string; pbr_class : PlayerClass;
  pbr_gender : PlayerGender; pbr_appearance : PlayerBaseAppearance; pbr_level : Z; pbr_exp_in_level : Z;
  pbr_core_stat_allocations : PlayerCoreStatAllocationRow; pbr_stat_reset_count : Z; pbr_playtime_secs : Z;
  pbr_current_hp : option Z; pbr_current_sp : option Z; pbr_current_stamina : option Z }.
Record PlayerRuntimeStateRow : Type := {
  prr_player_id : PlayerId; prr_map_key : option string; prr_local_x : option spec_float;
  prr_local_y : option spec_float; prr_current_hp : option Z; prr_current_sp : option Z;
  prr_current_stamina : option Z; prr_runtime_epoch : Z }.
Inductive PlayerWriteOutcome : Type := Saved | StaleOwner.
Inductive CreatePlayerOutcome : Type := Created (player : PlayerSummaryRow) | NameTaken.
Inductive AcquireSessionResult : Type := Acquired | AlreadyOnOtherServer (server_id : string).

(** ** Tables *)
Record ProfileTable : Type := {
  pt_empire : option string; pt_delete_code : string; pt_banned_until : option Z }.
Record PlayerTable : Type := {
  pl_username : string; pl_slot : Z; pl_name : string; pl_class_name : string; pl_gender : string;
  pl_appearance : string; pl_deleted_at : option Z }.
Record ProgressionTable : Type := {
  pg_level : Z; pg_exp_in_level : Z; pg_allocated_str : Z; pg_allocated_vit : Z; pg_allocated_dex : Z;
  pg_allocated_int : Z; pg_stat_reset_count : Z; pg_playtime_secs : Z }.
Record RuntimeTable : Type := {
  rt_map_key : option string; rt_local_x : option spec_float; rt_local_y : option spec_float;
  rt_current_hp : option Z; rt_current_sp : option Z; rt_current_stamina : option Z; rt_runtime_epoch : Z }.
Record SessionTable : Type := {
  ss_server_id : option string; ss_connection_id : option string; ss_last_heartbeat : Z;
  ss_login_token : option Z; ss_login_issued_at : option Z; ss_peer_ip : option string; ss_state : string }.

Record Database : Type := {
  accounts : gmap string string;
  profiles : gmap string ProfileTable;
  players : gmap PlayerId PlayerTable;
  progressions : gmap PlayerId ProgressionTable;
  runtime_states : gmap PlayerId RuntimeTable;
  sessions : gmap string SessionTable;
  next_player_id : Z }.

Definition set_accounts (t : gmap string string) (db : Database) : Database :=
  {| accounts := t; profiles := profiles db; players := players db; progressions := progressions db;
     runtime_states := runtime_states db; sessions := sessions db; next_player_id := next_player_id db |}.
Definition set_profiles (t : gmap string ProfileTable) (db : Database) : Database :=
  {| accounts := accounts db; profiles := t; players := players db; progressions := progressions db;
     runtime_states := runtime_states db; sessions := sessions db; next_player_id := next_player_id db |}.
Definition set_players (t : gmap PlayerId PlayerTable) (db : Database) : Database :=
  {| accounts := accounts db; profiles := profiles db; players := t; progressions := progressions db;
     runtime_states := runtime_states db; sessions := sessions db; next_player_id := next_player_id db |}.
Definition set_progressions (t : gmap PlayerId ProgressionTable) (db : Database) : Database :=
  {| accounts := accounts db; profiles := profiles db; players := players db; progressions := t;
     runtime_states := runtime_states db; sessions := sessions db; next_player_id := next_player_id db |}.
Definition set_runtime_states (t : gmap PlayerId RuntimeTable) (db : Database) : Database :=
  {| accounts := accounts db; profiles := profiles db; players := players db; progressions := progressions db;
     runtime_states := t; sessions := sessions db; next_player_id := next_player_id db |}.
Definition set_sessions (t : gmap string SessionTable) (db : Database) : Database :=
  {| accounts := accounts db; profiles := profiles db; players := players db; progressions := progressions db;
     runtime_states := runtime_states db; sessions := t; next_player_id := next_player_id db |}.
Definition advance_player_id (db : Database) : Database :=
  {| accounts := accounts db; profiles := profiles db; players := players db; progressions := progressions db;
     runtime_states := runtime_states db; sessions := sessions db; next_player_id := next_player_id db + 1 |}.

(** [make_interval(secs => n)] in microseconds. *)
Definition make_interval (secs : Z) : Z := secs * 1000000.

(** ** Accounts *)
Definition find_account_by_username (username : string) (db : Database) : DbResult (option AccountRow) :=
  Ok ((fun hash => {| account_username := username; account_password_hash := hash |}) <$> accounts db !! username).
Definition update_password (username password_hash : string) (db : Database) : DbResult unit * Database :=
  (Ok tt,
   match accounts db !! username with
   | Some _ => set_accounts (<[username := password_hash]> (accounts db)) db
   | None => db
   end).

(** ** Profiles *)
Definition find_profile_by_username (now : Z) (username : string) (db : Database) : DbResult (option ProfileRow) :=
  match profiles db !! username with
  | None => Ok None
  | Some row =>
      let? empire :=
        match pt_empire row with
        | Some raw => let? e := parse_enum "empire" raw in Ok (Some e)
        | None => Ok None
        end in
      Ok (Some {| profile_username := username; profile_empire := empire; profile_delete_code := pt_delete_code row;
                  profile_is_banned := match pt_banned_until row with Some t => now <? t | None => false end |})
  end.

Definition get_or_create_profile (now : Z) (username : string) (db : Database) : DbResult ProfileRow * Database :=
  let db :=
    match profiles db !! username with
    | Some _ => db
    | None =>
        set_profiles (<[username := {| pt_empire := None; pt_delete_code := "1234567"; pt_banned_until := None |}]>
                        (profiles db)) db
    end in
  (let? row := find_profile_by_username now username db in
   db_invariant row "profile should exist after insert", db).

Definition update_profile_empire (username : string) (empire : Empire) (db : Database) : DbResult unit * Database :=
  (Ok tt,
   match profiles db !! username with
   | Some row =>
       set_profiles (<[username := {| pt_empire := Some (as_ref empire); pt_delete_code := pt_delete_code row;
                                      pt_banned_until := pt_banned_until row |}]> (profiles db)) db
   | None => db
   end).

Definition get_delete_code (username : string) (db : Database) : DbResult (option string) :=
  Ok (pt_delete_code <$> profiles db !! username).

(** ** Players *)
Definition live (p : PlayerTable) : bool := bool_decide (pl_deleted_at p = None).

Definition parse_player_core_stat_allocation_row (g : ProgressionTable) : PlayerCoreStatAllocationRow :=
  {| row_allocated_str := pg_allocated_str g; row_allocated_vit := pg_allocated_vit g;
     row_allocated_dex := pg_allocated_dex g; row_allocated_int := pg_allocated_int g |}.

Definition parse_player_summary_row (id : PlayerId) (p : PlayerTable) (g : ProgressionTable) : DbResult PlayerSummaryRow :=
  let? class := parse_enum "class" (pl_class_name p) in
  let? gender := parse_enum "gender" (pl_gender p) in
  let? appearance := parse_enum "appearance" (pl_appearance p) in
  Ok {| psr_id := id; psr_username := pl_username p; psr_slot := pl_slot p; psr_name := pl_name p; psr_class := class;
        psr_gender := gender; psr_appearance := appearance; psr_level := pg_level g;
        psr_playtime_secs := pg_playtime_secs g;
        psr_core_stat_allocations := parse_player_core_stat_allocation_row g |}.

Definition parse_player_stats_bootstrap_row (id : PlayerId) (p : PlayerTable) (g : ProgressionTable)
    (runtime : option RuntimeTable) : DbResult PlayerStatsBootstrapRow :=
  let? class := parse_enum "class" (pl_class_name p) in
  let? gender := parse_enum "gender" (pl_gender p) in
  let? appearance := parse_enum "appearance" (pl_appearance p) in
  Ok {| pbr_id := id; pbr_username := pl_username p; pbr_slot := pl_slot p; pbr_name := pl_name p; pbr_class := class;
        pbr_gender := gender; pbr_appearance := appearance; pbr_level := pg_level g;
        pbr_exp_in_level := pg_exp_in_level g;
        pbr_core_stat_allocations := parse_player_core_stat_allocation_row g;
        pbr_stat_reset_count := pg_stat_reset_count g; pbr_playtime_secs := pg_playtime_secs g;
        pbr_current_hp := runtime ≫= rt_current_hp; pbr_current_sp := runtime ≫= rt_current_sp;
        pbr_current_stamina := runtime ≫= rt_current_stamina |}.

Definition parse_player_runtime_state_row (id : PlayerId) (r : RuntimeTable) : PlayerRuntimeStateRow :=
  {| prr_player_id := id; prr_map_key := rt_map_key r; prr_local_x := rt_local_x r; prr_local_y := rt_local_y r;
     prr_current_hp := rt_current_hp r; prr_current_sp := rt_current_sp r;
     prr_current_stamina := rt_current_stamina r; prr_runtime_epoch := rt_runtime_epoch r |}.

(** [collect] of results: the first error wins. *)
Fixpoint collect {A} (l : list (DbResult A)) : DbResult (list A) :=
  match l with
  | [] => Ok []
  | r :: l => let? a := r in let? rest := collect l in Ok (a :: rest)
  end.

Definition slot_le (a b : Z * PlayerTable) : Prop := pl_slot (snd a) <= pl_slot (snd b).
#[export] Instance slot_le_dec : RelDecision slot_le.
Proof. intros a b. unfold slot_le. apply _. Defined.

(** The live players that satisfy a condition, by slot. *)
Definition select_players (where_ : PlayerTable -> bool) (db : Database) : list (PlayerId * PlayerTable) :=
  merge_sort slot_le (List.filter (fun '(_, p) => where_ p && live p) (map_to_list (players db))).

Definition list_player_summaries_for_user (username : string) (db : Database) : DbResult (list PlayerSummaryRow) :=
  collect (omap (fun '(id, p) => parse_player_summary_row id p <$> progressions db !! id)
             (select_players (fun p => bool_decide (pl_username p = username)) db)).

Definition find_player_summary_by_slot (username : string) (slot : Z) (db : Database)
  : DbResult (option PlayerSummaryRow) :=
  match omap (fun '(id, p) => parse_player_summary_row id p <$> progressions db !! id)
          (select_players (fun p => bool_decide (pl_username p = username) && (pl_slot p =? slot)) db) with
  | [] => Ok None
  | row :: _ => let? row := row in Ok (Some row)
  end.

Definition find_player_stats_bootstrap_by_id (id : PlayerId) (db : Database) : DbResult (option PlayerStatsBootstrapRow) :=
  match players db !! id, progressions db !! id with
  | Some p, Some g =>
      if live p then
        let? row := parse_player_stats_bootstrap_row id p g (runtime_states db !! id) in Ok (Some row)
      else Ok None
  | _, _ => Ok None
  end.

(** The constraints of an inserted player. *)
Definition slot_check (slot : Z) : bool := (0 <=? slot) && (slot <? 4).
Definition conflicts (p q : PlayerTable) : bool :=
  live p && live q &&
  (bool_decide (pl_name p = pl_name q) || (bool_decide (pl_username p = pl_username q) && (pl_slot p =? pl_slot q))).

Definition new_progression : ProgressionTable :=
  {| pg_level := 1; pg_exp_in_level := 0; pg_allocated_str := 0; pg_allocated_vit := 0; pg_allocated_dex := 0;
     pg_allocated_int := 0; pg_stat_reset_count := 0; pg_playtime_secs := 0 |}.
Definition new_runtime_state : RuntimeTable :=
  {| rt_map_key := None; rt_local_x := None; rt_local_y := None; rt_current_hp := None; rt_current_sp := None;
     rt_current_stamina := None; rt_runtime_epoch := 0 |}.

(** The transaction: a rollback undoes the rows but not the identity sequence. *)
Definition create_player (username : string) (slot : Z) (name : string) (class : PlayerClass) (gender : PlayerGender)
    (appearance : PlayerBaseAppearance) (db0 : Database) : DbResult CreatePlayerOutcome * Database :=
  let id := next_player_id db0 in
  if i64_max <? id then (Err (Db_Sqlx "insert player identity"), db0)
  else
    let db := advance_player_id db0 in
    let row := {| pl_username := username; pl_slot := slot; pl_name := name; pl_class_name := as_ref class;
                  pl_gender := as_ref gender; pl_appearance := as_ref appearance; pl_deleted_at := None |} in
    if negb (slot_check slot) then (Err (Db_Sqlx "insert player identity"), db)
    else if bool_decide (is_Some (players db !! id)) ||
            existsb (fun '(_, p) => conflicts row p) (map_to_list (players db)) then (Ok NameTaken, db)
    else
      match profiles db !! username with
      | None => (Err (Db_Sqlx "insert player identity"), db)
      | Some _ =>
          if bool_decide (is_Some (progressions db !! id)) then (Err (Db_Sqlx "insert player progression"), db)
          else if bool_decide (is_Some (runtime_states db !! id)) then (Err (Db_Sqlx "insert player runtime state"), db)
          else
            (let? summary := parse_player_summary_row id row new_progression in Ok (Created summary),
             set_runtime_states (<[id := new_runtime_state]> (runtime_states db))
               (set_progressions (<[id := new_progression]> (progressions db))
                  (set_players (<[id := row]> (players db)) db)))
      end.

Definition set_deleted_at (p : PlayerTable) (t : option Z) : PlayerTable :=
  {| pl_username := pl_username p; pl_slot := pl_slot p; pl_name := pl_name p; pl_class_name := pl_class_name p;
     pl_gender := pl_gender p; pl_appearance := pl_appearance p; pl_deleted_at := t |}.

Definition delete_player_with_code (now : Z) (username : string) (slot : Z) (delete_code : string) (db : Database)
  : DbResult bool * Database :=
  match profiles db !! username with
  | None => (Ok false, db)
  | Some profile =>
      let chosen (p : PlayerTable) : bool :=
        bool_decide (pl_username p = username) && (pl_slot p =? slot) && live p &&
        bool_decide (pt_delete_code profile = delete_code) in
      (Ok (existsb (fun '(_, p) => chosen p) (map_to_list (players db))),
       set_players ((fun p => if chosen p then set_deleted_at p (Some now) else p) <$> players db) db)
  end.

(** ** Player state *)
Definition list_player_runtime_states_for_user (username : string) (db : Database)
  : DbResult (list PlayerRuntimeStateRow) :=
  Ok (omap (fun '(id, p) => parse_player_runtime_state_row id <$> runtime_states db !! id)
        (select_players (fun p => bool_decide (pl_username p = username)) db)).

Definition find_player_runtime_state_by_player_id (player_id : PlayerId) (db : Database)
  : DbResult (option PlayerRuntimeStateRow) :=
  match players db !! player_id, runtime_states db !! player_id with
  | Some p, Some r => Ok (if live p then Some (parse_player_runtime_state_row player_id r) else None)
  | _, _ => Ok None
  end.

(** [PlayerPlaytime::as_secs_i64] of a duration in nanoseconds. *)
Definition as_secs_i64 (playtime : Z) : Z := Z.min (playtime / 1000000000) i64_max.

Definition written_runtime (s : PlayerRuntimeSnapshot) (epoch : Z) : RuntimeTable :=
  {| rt_map_key := Some (prs_map_key s); rt_local_x := Some (pos_x (prs_local_pos s));
     rt_local_y := Some (pos_y (prs_local_pos s)); rt_current_hp := prs_current_hp s;
     rt_current_sp := prs_current_sp s; rt_current_stamina := prs_current_stamina s; rt_runtime_epoch := epoch |}.
Definition written_progression (s : PlayerSnapshot) (old : ProgressionTable) : ProgressionTable :=
  let p := snapshot_progression s in
  let a := pps_core_stat_allocations p in
  {| pg_level := pps_level p; pg_exp_in_level := pps_exp_in_level p; pg_allocated_str := allocated_str a;
     pg_allocated_vit := allocated_vit a; pg_allocated_dex := allocated_dex a; pg_allocated_int := allocated_int a;
     pg_stat_reset_count := pps_stat_reset_count p;
     pg_playtime_secs := Z.max (pg_playtime_secs old) (as_secs_i64 (prs_playtime (snapshot_runtime s))) |}.
(** The CHECK constraints of [player_progression]. *)
Definition progression_check (g : ProgressionTable) : bool :=
  (1 <=? pg_level g) && (0 <=? pg_exp_in_level g) && (0 <=? pg_playtime_secs g) && (0 <=? pg_allocated_str g) &&
  (0 <=? pg_allocated_vit g) && (0 <=? pg_allocated_dex g) && (0 <=? pg_allocated_int g).

(** One statement: the runtime row of the right epoch is written, deleted player or
    not, and then the progression; a violated CHECK undoes both. *)
Definition save_player_snapshot (snapshot : PlayerSnapshot) (db : Database) : DbResult PlayerWriteOutcome * Database :=
  let r := snapshot_runtime snapshot in
  let id := prs_id r in
  let player_exists :=
    match players db !! id, runtime_states db !! id with Some p, Some _ => live p | _, _ => false end in
  let epoch_matches :=
    match runtime_states db !! id with Some rt => rt_runtime_epoch rt =? prs_runtime_epoch r | None => false end in
  let answer (updated : bool) : DbResult PlayerWriteOutcome :=
    if negb player_exists then Err (Db_Invariant "active player should exist when saving player snapshot")
    else if updated then Ok Saved else Ok StaleOwner in
  if negb epoch_matches then (answer false, db)
  else
    let db' := set_runtime_states (<[id := written_runtime r (prs_runtime_epoch r)]> (runtime_states db)) db in
    match progressions db !! id with
    | None => (answer false, db')
    | Some old =>
        let new := written_progression snapshot old in
        if negb (progression_check new) then (Err (Db_Sqlx "save player snapshot"), db)
        else (answer true, set_progressions (<[id := new]> (progressions db)) db')
    end.

(** ** Sessions *)
Definition stale (now threshold_secs : Z) (s : SessionTable) : bool :=
  ss_last_heartbeat s <? now - make_interval threshold_secs.
Definition is_state (s : SessionTable) (state : string) : bool := bool_decide (ss_state s = state).
Definition held_by (s : SessionTable) (server_id connection_id : string) : bool :=
  bool_decide (ss_server_id s = Some server_id) && bool_decide (ss_connection_id s = Some connection_id).

Definition acquire_session (now : Z) (username server_id connection_id : string) (stale_threshold_secs : Z) (db : Database)
  : DbResult AcquireSessionResult * Database :=
  let row :=
    match sessions db !! username with
    | None =>
        {| ss_server_id := Some server_id; ss_connection_id := Some connection_id; ss_last_heartbeat := now;
           ss_login_token := None; ss_login_issued_at := None; ss_peer_ip := None; ss_state := "ACTIVE" |}
    | Some s =>
        if is_state s "AUTHED" || stale now stale_threshold_secs s then
          {| ss_server_id := Some server_id; ss_connection_id := Some connection_id; ss_last_heartbeat := now;
             ss_login_token := ss_login_token s; ss_login_issued_at := ss_login_issued_at s;
             ss_peer_ip := ss_peer_ip s; ss_state := "ACTIVE" |}
        else s
    end in
  (match ss_connection_id row with
   | None => Err (Db_Sqlx "read connection_id")
   | Some c =>
       if bool_decide (c = connection_id) then Ok Acquired
       else match ss_server_id row with
            | Some server => Ok (AlreadyOnOtherServer server)
            | None => Err (Db_Sqlx "read server_id")
            end
   end, set_sessions (<[username := row]> (sessions db)) db).

Definition token_valid (now : Z) (login_token idle_ttl_secs : Z) (peer_ip : string) (s : SessionTable) : bool :=
  bool_decide (ss_login_token s = Some login_token) &&
  match ss_login_issued_at s with Some t => now - make_interval (Z.max idle_ttl_secs 0) <=? t | None => false end &&
  match ss_peer_ip s with Some ip => bool_decide (ip = peer_ip) | None => true end.

Definition resume_session_with_token (now : Z) (username : string) (login_token : Z) (server_id connection_id : string)
    (stale_threshold_secs idle_ttl_secs : Z) (peer_ip : string) (db : Database) : DbResult bool * Database :=
  match sessions db !! username with
  | None => (Ok false, db)
  | Some s =>
      if token_valid now login_token idle_ttl_secs peer_ip s &&
         (is_state s "AUTHED" || stale now (Z.max stale_threshold_secs 0) s || held_by s server_id connection_id)
      then
        (Ok true,
         set_sessions (<[username :=
           {| ss_server_id := Some server_id; ss_connection_id := Some connection_id; ss_last_heartbeat := now;
              ss_login_token := ss_login_token s; ss_login_issued_at := Some now; ss_peer_ip := Some peer_ip;
              ss_state := "ACTIVE" |}]> (sessions db)) db)
      else (Ok false, db)
  end.

Definition set_session_login_token (now : Z) (username : string) (login_token : Z) (db : Database)
  : DbResult unit * Database :=
  let row :=
    match sessions db !! username with
    | None =>
        {| ss_server_id := None; ss_connection_id := None; ss_last_heartbeat := now; ss_login_token := Some login_token;
           ss_login_issued_at := Some now; ss_peer_ip := None; ss_state := "AUTHED" |}
    | Some s =>
        let active := is_state s "ACTIVE" && bool_decide (is_Some (ss_server_id s)) &&
                      bool_decide (is_Some (ss_connection_id s)) in
        {| ss_server_id := if active then ss_server_id s else None;
           ss_connection_id := if active then ss_connection_id s else None;
           ss_last_heartbeat := if active then ss_last_heartbeat s else now;
           ss_login_token := Some login_token; ss_login_issued_at := Some now; ss_peer_ip := None;
           ss_state := if active then ss_state s else "AUTHED" |}
    end in
  (Ok tt, set_sessions (<[username := row]> (sessions db)) db).

Definition validate_login_token (now : Z) (username : string) (login_token idle_ttl_secs : Z) (peer_ip : string)
    (db : Database) : DbResult bool * Database :=
  match sessions db !! username with
  | None => (Ok false, db)
  | Some s =>
      if token_valid now login_token idle_ttl_secs peer_ip s && is_state s "AUTHED" then
        (Ok true,
         set_sessions (<[username :=
           {| ss_server_id := ss_server_id s; ss_connection_id := ss_connection_id s;
              ss_last_heartbeat := ss_last_heartbeat s; ss_login_token := ss_login_token s;
              ss_login_issued_at := Some now; ss_peer_ip := Some peer_ip; ss_state := ss_state s |}]> (sessions db)) db)
      else (Ok false, db)
  end.

Definition set_heartbeat (s : SessionTable) (t : Z) (state : string) : SessionTable :=
  {| ss_server_id := ss_server_id s; ss_connection_id := ss_connection_id s; ss_last_heartbeat := t;
     ss_login_token := ss_login_token s; ss_login_issued_at := ss_login_issued_at s; ss_peer_ip := ss_peer_ip s;
     ss_state := state |}.
Definition released (s : SessionTable) : SessionTable :=
  {| ss_server_id := None; ss_connection_id := None; ss_last_heartbeat := ss_last_heartbeat s;
     ss_login_token := ss_login_token s; ss_login_issued_at := ss_login_issued_at s; ss_peer_ip := ss_peer_ip s;
     ss_state := "AUTHED" |}.

Definition mark_session_stale (now : Z) (username server_id connection_id : string) (stale_threshold_secs : Z)
    (db : Database) : DbResult unit * Database :=
  (Ok tt,
   match sessions db !! username with
   | Some s =>
       if held_by s server_id connection_id then
         set_sessions (<[username := set_heartbeat s (now - make_interval (Z.max stale_threshold_secs 0 + 1)) "ACTIVE"]>
                         (sessions db)) db
       else db
   | None => db
   end).

(** The UPDATE that releases a session, and whether it found its row. *)
Definition release_row (username server_id connection_id : string) (t : gmap string SessionTable)
  : bool * gmap string SessionTable :=
  match t !! username with
  | Some s => if held_by s server_id connection_id then (true, <[username := released s]> t) else (false, t)
  | None => (false, t)
  end.
Definition release_session (username server_id connection_id : string) (db : Database) : DbResult bool * Database :=
  let '(found, t) := release_row username server_id connection_id (sessions db) in (Ok found, set_sessions t db).

Definition update_session_heartbeat (now : Z) (username : string) (db : Database) : DbResult unit * Database :=
  (Ok tt,
   match sessions db !! username with
   | Some s =>
       if is_state s "ACTIVE" then set_sessions (<[username := set_heartbeat s now (ss_state s)]> (sessions db)) db
       else db
   | None => db
   end).

(** ** The exit transaction: state and session, both or neither. *)
Definition commit_player_exit (username server_id connection_id : string) (snapshot : PlayerSnapshot) (db : Database)
  : DbResult unit * Database :=
  let r := snapshot_runtime snapshot in
  let id := prs_id r in
  let not_owned :=
    Err (Db_Invariant "active player should exist and own the runtime version when committing player exit") in
  match players db !! id, runtime_states db !! id with
  | Some p, Some rt =>
      if negb (live p && (rt_runtime_epoch rt =? prs_runtime_epoch r)) then (not_owned, db)
      else if i64_max <? rt_runtime_epoch rt + 1 then
        (Err (Db_Sqlx "save player runtime state during player exit"), db)
      else
        match progressions db !! id with
        | None => (not_owned, db)
        | Some old =>
            let new := written_progression snapshot old in
            if negb (progression_check new) then
              (Err (Db_Sqlx "save player runtime state during player exit"), db)
            else
              match release_row username server_id connection_id (sessions db) with
              | (false, _) => (Err (Db_Invariant "active session should exist when committing player exit"), db)
              | (true, t) =>
                  (Ok tt,
                   set_sessions t
                     (set_progressions (<[id := new]> (progressions db))
                        (set_runtime_states
                           (<[id := written_runtime r (rt_runtime_epoch rt + 1)]> (runtime_states db)) db)))
              end
        end
  | _, _ => (not_owned, db)
  end.

(** ** Any sequence of statements *)
Inductive DbOp : Type :=
| Op_update_password (username password_hash : string)
| Op_get_or_create (username : string)
| Op_update_empire (username : string) (empire : Empire)
| Op_create (username : string) (slot : Z) (name : string) (class : PlayerClass) (gender : PlayerGender)
    (appearance : PlayerBaseAppearance)
| Op_delete (username : string) (slot : Z) (delete_code : string)
| Op_save (snapshot : PlayerSnapshot)
| Op_acquire (username server_id connection_id : string) (threshold : Z)
| Op_resume (username : string) (token : Z) (server_id connection_id : string) (threshold ttl : Z) (ip : string)
| Op_set_token (username : string) (token : Z)
| Op_validate (username : string) (token ttl : Z) (ip : string)
| Op_mark_stale (username server_id connection_id : string) (threshold : Z)
| Op_release (username server_id connection_id : string)
| Op_commit_exit (username server_id connection_id : string) (snapshot : PlayerSnapshot)
| Op_heartbeat (username : string).

Definition db_step (now : Z) (op : DbOp) (db : Database) : Database :=
  match op with
  | Op_update_password u h => snd (update_password u h db)
  | Op_get_or_create u => snd (get_or_create_profile now u db)
  | Op_update_empire u e => snd (update_profile_empire u e db)
  | Op_create u s n c g a => snd (create_player u s n c g a db)
  | Op_delete u s code => snd (delete_player_with_code now u s code db)
  | Op_save snapshot => snd (save_player_snapshot snapshot db)
  | Op_acquire u s c th => snd (acquire_session now u s c th db)
  | Op_resume u t s c th ttl ip => snd (resume_session_with_token now u t s c th ttl ip db)
  | Op_set_token u t => snd (set_session_login_token now u t db)
  | Op_validate u t ttl ip => snd (validate_login_token now u t ttl ip db)
  | Op_mark_stale u s c th => snd (mark_session_stale now u s c th db)
  | Op_release u s c => snd (release_session u s c db)
  | Op_commit_exit u s c snapshot => snd (commit_player_exit u s c snapshot db)
  | Op_heartbeat u => snd (update_session_heartbeat now u db)
  end.
Definition db_run (ops : list (Z * DbOp)) (db : Database) : Database :=
  fold_left (fun db '(now, op) => db_step now op db) ops db.

(** What the migrations insert. *)
Definition seed_profile (empire : option string) : ProfileTable :=
  {| pt_empire := empire; pt_delete_code := "1234567"; pt_banned_until := None |}.
Definition seed_runtime : RuntimeTable :=
  {| rt_map_key := Some "metin2_map_c1"%string; rt_local_x := Some (f32_of_int 480); rt_local_y := Some (f32_of_int 736);
     rt_current_hp := None; rt_current_sp := None; rt_current_stamina := None; rt_runtime_epoch := 0 |}.
Definition seed_progression (level : Z) : ProgressionTable :=
  {| pg_level := level; pg_exp_in_level := 0; pg_allocated_str := 0; pg_allocated_vit := 0; pg_allocated_dex := 0;
     pg_allocated_int := 0; pg_stat_reset_count := 0; pg_playtime_secs := 0 |}.
Definition seed_database : Database :=
  {| accounts := list_to_map [("admin", "pw"); ("guest", "pw"); ("guest2", "pw"); ("guest3", "pw")]%string;
     profiles := list_to_map
       [("admin", seed_profile (Some "BLUE")); ("guest", seed_profile (Some "BLUE"));
        ("guest2", seed_profile None); ("guest3", seed_profile None)]%string;
     players := list_to_map
       [(1, {| pl_username := "admin"; pl_slot := 0; pl_name := "Admin"; pl_class_name := "WARRIOR"; pl_gender := "M";
               pl_appearance := "A"; pl_deleted_at := None |});
        (2, {| pl_username := "guest"; pl_slot := 0; pl_name := "Guest"; pl_class_name := "SHAMAN"; pl_gender := "F";
               pl_appearance := "B"; pl_deleted_at := None |})]%string;
     progressions := list_to_map [(1, seed_progression 99); (2, seed_progression 35)];
     runtime_states := list_to_map [(1, seed_runtime); (2, seed_runtime)];
     sessions := ∅; next_player_id := 3 |}.

(** ** Text round trips *)
Class DbEnumLaws (A : Type) `{!DbEnum A} := parse_as_ref : forall kind (a : A), parse_enum kind (as_ref a) = Ok a.
#[export] Instance DbEmpire_laws : DbEnumLaws Empire. Proof. by intros k []. Qed.
#[export] Instance DbPlayerClass_laws : DbEnumLaws PlayerClass. Proof. by intros k []. Qed.
#[export] Instance DbPlayerGender_laws : DbEnumLaws PlayerGender. Proof. by intros k []. Qed.
#[export] Instance DbAppearance_laws : DbEnumLaws PlayerBaseAppearance. Proof. by intros k []. Qed.

(** ** Well-formed tables: the schema's constraints and the session states *)
Record player_wf (db : Database) (id : PlayerId) (p : PlayerTable) : Prop := {
  pw_slot : 0 <= pl_slot p < 4;
  pw_class : exists c : PlayerClass, pl_class_name p = as_ref c;
  pw_gender : exists g : PlayerGender, pl_gender p = as_ref g;
  pw_appearance : exists a : PlayerBaseAppearance, pl_appearance p = as_ref a;
  pw_profile : is_Some (profiles db !! pl_username p);
  pw_progression : is_Some (progressions db !! id);
  pw_runtime : is_Some (runtime_states db !! id);
  pw_id : id < next_player_id db }.

Definition session_wf (s : SessionTable) : Prop :=
  (ss_state s = "ACTIVE"%string /\ is_Some (ss_server_id s) /\ is_Some (ss_connection_id s)) \/
  (ss_state s = "AUTHED"%string /\ ss_server_id s = None /\ ss_connection_id s = None).

Record db_wf (db : Database) : Prop := {
  wf_players : map_Forall (player_wf db) (players db);
  wf_unique : forall i j p q, i <> j -> players db !! i = Some p -> players db !! j = Some q -> conflicts p q = false;
  wf_progressions : map_Forall (fun id g => progression_check g = true /\ is_Some (players db !! id)) (progressions db);
  wf_runtimes : map_Forall (fun id r => is_Some (players db !! id)) (runtime_states db);
  wf_profiles : map_Forall (fun _ r => pt_empire r = None \/ exists e : Empire, pt_empire r = Some (as_ref e)) (profiles db);
  wf_sessions : map_Forall (fun _ s => session_wf s) (sessions db) }.

(** ** Preservation *)
Lemma player_wf_mono db db' id p :
  (forall u, is_Some (profiles db !! u) -> is_Some (profiles db' !! u)) ->
  (is_Some (progressions db !! id) -> is_Some (progressions db' !! id)) ->
  (is_Some (runtime_states db !! id) -> is_Some (runtime_states db' !! id)) ->
  next_player_id db <= next_player_id db' ->
  player_wf db id p -> player_wf db' id p.
Proof. intros Hp Hg Hr Hn []. split; auto; lia. Qed.

Lemma is_Some_insert `{Countable K} {A} (m : gmap K A) i j x : is_Some (m !! i) -> is_Some (<[j := x]> m !! i).
Proof. intros [y E]. destruct (decide (i = j)) as [-> |]; [rewrite lookup_insert_eq | rewrite lookup_insert_ne by done]; eauto. Qed.
#[local] Hint Resolve is_Some_insert : core.

Lemma db_wf_sessions db t : map_Forall (fun _ s => session_wf s) t -> db_wf db -> db_wf (set_sessions t db).
Proof.
  intros Ht []. split; cbn; try done.
  apply (map_Forall_impl _ _ _ wf_players0). intros. by apply (player_wf_mono db).
Qed.

Lemma db_wf_session db u s : session_wf s -> db_wf db -> db_wf (set_sessions (<[u := s]> (sessions db)) db).
Proof. intros Hs H. apply db_wf_sessions; [| done]. apply map_Forall_insert_2; [done | apply H]. Qed.

Lemma db_wf_accounts db t : db_wf db -> db_wf (set_accounts t db).
Proof.
  intros []. split; cbn; try done.
  apply (map_Forall_impl _ _ _ wf_players0). intros. by apply (player_wf_mono db).
Qed.

Lemma db_wf_profile db u r : (pt_empire r = None \/ exists e : Empire, pt_empire r = Some (as_ref e)) ->
  db_wf db -> db_wf (set_profiles (<[u := r]> (profiles db)) db).
Proof.
  intros Hr []. split; cbn; try done; [| by apply map_Forall_insert_2].
  apply (map_Forall_impl _ _ _ wf_players0). intros. apply (player_wf_mono db); cbn; auto with lia.
Qed.

Lemma db_wf_advance db : db_wf db -> db_wf (advance_player_id db).
Proof.
  intros []. split; cbn; try done.
  apply (map_Forall_impl _ _ _ wf_players0). intros. apply (player_wf_mono db); cbn; auto with lia.
Qed.

Lemma db_wf_runtime db id r : is_Some (players db !! id) -> db_wf db ->
  db_wf (set_runtime_states (<[id := r]> (runtime_states db)) db).
Proof.
  intros Hi []. split; cbn; try done; [| by apply map_Forall_insert_2].
  apply (map_Forall_impl _ _ _ wf_players0). intros. apply (player_wf_mono db); cbn; auto with lia.
Qed.

Lemma db_wf_progression db id g : is_Some (players db !! id) -> progression_check g = true -> db_wf db ->
  db_wf (set_progressions (<[id := g]> (progressions db)) db).
Proof.
  intros Hi Hg []. split; cbn; try done; [| by apply map_Forall_insert_2].
  apply (map_Forall_impl _ _ _ wf_players0). intros. apply (player_wf_mono db); cbn; auto with lia.
Qed.

Lemma conflicts_sym p q : conflicts p q = conflicts q p.
Proof.
  unfold conflicts. rewrite (andb_comm (live p)), (Z.eqb_sym (pl_slot p)).
  by rewrite (bool_decide_ext (pl_name p = pl_name q) (pl_name q = pl_name p)),
    (bool_decide_ext (pl_username p = pl_username q) (pl_username q = pl_username p)) by done.
Qed.

Lemma db_wf_players db (f : PlayerTable -> PlayerTable) :
  (forall p, f p = p \/ (exists t, f p = set_deleted_at p (Some t))) ->
  db_wf db -> db_wf (set_players (f <$> players db) db).
Proof.
  intros Hf [].
  assert (forall p q, conflicts p q = false -> conflicts (f p) (f q) = false) as Hc.
  { intros p q Hc. destruct (Hf p) as [-> | [t ->]], (Hf q) as [-> | [t' ->]]; [done | | done | done].
    unfold conflicts, live. cbn. by rewrite andb_false_r. }
  split; cbn.
  - intros id p. rewrite lookup_fmap. intros (q & E & ->)%fmap_Some. specialize (wf_players0 id q E).
    destruct (Hf q) as [-> | [t ->]]; [by apply (player_wf_mono db) |]. destruct wf_players0. by split.
  - intros i j p q Hij. rewrite !lookup_fmap. intros (p' & Ep & ->)%fmap_Some (q' & Eq & ->)%fmap_Some. eauto.
  - apply (map_Forall_impl _ _ _ wf_progressions0). intros id g [? [p E]]. split; [done |]. rewrite lookup_fmap, E. eauto.
  - apply (map_Forall_impl _ _ _ wf_runtimes0). intros id g [p E]. rewrite lookup_fmap, E. eauto.
  - done.
  - done.
Qed.

Lemma db_wf_new_player db id p : db_wf (advance_player_id db) -> id = next_player_id db ->
  slot_check (pl_slot p) = true -> is_Some (profiles db !! pl_username p) ->
  (exists c : PlayerClass, pl_class_name p = as_ref c) -> (exists g : PlayerGender, pl_gender p = as_ref g) ->
  (exists a : PlayerBaseAppearance, pl_appearance p = as_ref a) ->
  (forall j q, players db !! j = Some q -> conflicts p q = false) ->
  db_wf (set_runtime_states (<[id := new_runtime_state]> (runtime_states db))
           (set_progressions (<[id := new_progression]> (progressions db))
              (set_players (<[id := p]> (players db)) (advance_player_id db)))).
Proof.
  intros [] -> Hs Hp Hc Hg Ha Hx. unfold slot_check in Hs. split; cbn in *.
  - apply map_Forall_insert_2.
    + split; cbn; try done; [lia | by rewrite lookup_insert_eq | by rewrite lookup_insert_eq | lia].
    + apply (map_Forall_impl _ _ _ wf_players0). intros id q H. apply (player_wf_mono (advance_player_id db)); cbn; auto with lia.
  - intros i j q r Hij. destruct (decide (i = next_player_id db)) as [-> |], (decide (j = next_player_id db)) as [-> |]; try done.
    + rewrite lookup_insert_eq, lookup_insert_ne by done. intros [= <-]. eauto.
    + rewrite lookup_insert_eq, lookup_insert_ne by done. intros Hq [= <-]. rewrite conflicts_sym. eauto.
    + rewrite !lookup_insert_ne by done. eauto.
  - apply map_Forall_insert_2; [by rewrite lookup_insert_eq |].
    apply (map_Forall_impl _ _ _ wf_progressions0). intros i g [? ?]. auto.
  - apply map_Forall_insert_2; [by rewrite lookup_insert_eq |]. apply (map_Forall_impl _ _ _ wf_runtimes0). auto.
  - done.
  - done.
Qed.

Lemma no_conflict db p : existsb (fun '(_, q) => conflicts p q) (map_to_list (players db)) = false <->
  forall j q, players db !! j = Some q -> conflicts p q = false.
Proof.
  rewrite <- not_true_iff_false, existsb_exists. split.
  - intros Hn j q E. apply not_true_iff_false. intros Hc. apply Hn. exists (j, q). split; [| done].
    by apply list_elem_of_In, elem_of_map_to_list.
  - intros Hn ([j q] & Hi & Hc). apply list_elem_of_In, elem_of_map_to_list in Hi. rewrite (Hn _ _ Hi) in Hc. done.
Qed.

Lemma release_row_wf u s c t : map_Forall (fun _ s => session_wf s) t ->
  map_Forall (fun _ s => session_wf s) (snd (release_row u s c t)).
Proof.
  intros Ht. unfold release_row. destruct (t !! u) eqn:E; [| done]. destruct (held_by _ _ _); [| done].
  apply map_Forall_insert_2; [right; done | done].
Qed.

Lemma create_player_wf u s n c g a db : db_wf db -> db_wf (snd (create_player u s n c g a db)).
Proof.
  intros Hw. unfold create_player. destruct (i64_max <? next_player_id db); [done |].
  pose proof (db_wf_advance db Hw) as Ha. destruct (slot_check s) eqn:Es; cbn [negb]; [| done].
  destruct (bool_decide (is_Some (players (advance_player_id db) !! next_player_id db)) || _) eqn:Ec; [done |].
  apply orb_false_elim in Ec as [Ei Ec]. pose proof (proj1 (no_conflict (advance_player_id db) _) Ec) as Hx.
  destruct (profiles (advance_player_id db) !! u) eqn:Ep; [| done].
  destruct (bool_decide (is_Some (progressions _ !! _))); [done |].
  destruct (bool_decide (is_Some (runtime_states _ !! _))); [done |]. cbn [snd].
  refine (db_wf_new_player db _ _ Ha eq_refl _ _ _ _ _ _); cbn; eauto.
Qed.

Lemma save_player_snapshot_wf s db : db_wf db -> db_wf (snd (save_player_snapshot s db)).
Proof.
  intros Hw. unfold save_player_snapshot. cbv zeta. set (id := prs_id _).
  destruct (runtime_states db !! id) as [rt |] eqn:Er; cbn [negb]; [| done].
  destruct (rt_runtime_epoch rt =? _); cbn [negb]; [| done].
  pose proof (wf_runtimes db Hw _ _ Er) as Hi.
  assert (forall e, db_wf (set_runtime_states (<[id := written_runtime (snapshot_runtime s) e]> (runtime_states db)) db)) as Hr
    by (intros; by apply db_wf_runtime).
  destruct (progressions db !! id) as [old |] eqn:Eg; [| apply Hr].
  destruct (progression_check _) eqn:Ec; [| done]. cbn [snd negb]. by apply (db_wf_progression (set_runtime_states _ db)).
Qed.

Lemma commit_player_exit_wf u srv c s db : db_wf db -> db_wf (snd (commit_player_exit u srv c s db)).
Proof.
  intros Hw. unfold commit_player_exit. cbv zeta. set (id := prs_id _).
  destruct (players db !! id) as [p |] eqn:Ep; [| done]. destruct (runtime_states db !! id) as [rt |] eqn:Er; [| done].
  destruct (_ && _); cbn [negb]; [| done]. destruct (i64_max <? _); [done |].
  destruct (progressions db !! id) as [old |] eqn:Eg; [| done].
  destruct (progression_check _) eqn:Ec; [| done]. cbn [negb].
  pose proof (release_row_wf u srv c (sessions db) (wf_sessions db Hw)) as Hs.
  destruct (release_row _ _ _ _) as [[] t]; [| done]. apply db_wf_sessions; [done |].
  apply (db_wf_progression (set_runtime_states _ db)); [by exists p | done |]. apply db_wf_runtime; [by exists p | done].
Qed.

Lemma held_by_true s srv c : held_by s srv c = true <-> ss_server_id s = Some srv /\ ss_connection_id s = Some c.
Proof. unfold held_by. by rewrite andb_true_iff, !bool_decide_eq_true. Qed.

Lemma db_step_wf now op db : db_wf db -> db_wf (db_step now op db).
Proof.
  intros Hw. pose proof (wf_sessions db Hw) as Hs. destruct op; cbn [db_step].
  - unfold update_password. destruct (accounts db !! username); [by apply db_wf_accounts | done].
  - unfold get_or_create_profile. destruct (profiles db !! username); [done |]. apply db_wf_profile; auto.
  - unfold update_profile_empire. destruct (profiles db !! username); [apply db_wf_profile; eauto | done].
  - by apply create_player_wf.
  - unfold delete_player_with_code. destruct (profiles db !! username) as [pr |]; [| done]. apply db_wf_players; [| done].
    intros p. destruct (_ && _); eauto.
  - by apply save_player_snapshot_wf.
  - unfold acquire_session. destruct (sessions db !! username) as [s |] eqn:E; apply db_wf_session; try done.
    + destruct (_ || _); [by left | exact (Hs _ _ E)].
    + by left.
  - unfold resume_session_with_token. destruct (sessions db !! username) as [s |]; [| done].
    destruct (_ && _); [apply db_wf_session; [by left | done] | done].
  - unfold set_session_login_token. apply db_wf_session; [| done].
    destruct (sessions db !! username) as [s |] eqn:E; [| by right].
    destruct (Hs _ _ E) as [(H1 & [? H2] & [? H3]) | (H1 & H2 & H3)]; unfold is_state; cbn.
    + left. cbn. rewrite H1, H2, H3. done.
    + right. cbn. rewrite H1, H2, H3. done.
  - unfold validate_login_token. destruct (sessions db !! username) as [s |] eqn:E; [| done].
    destruct (_ && _); [apply db_wf_session; [exact (Hs _ _ E) | done] | done].
  - unfold mark_session_stale. destruct (sessions db !! username) as [s |] eqn:E; [| done].
    destruct (held_by s _ _) eqn:Eh; [| done]. apply held_by_true in Eh as [H1 H2].
    apply db_wf_session; [| done]. left. cbn. rewrite H1, H2. eauto.
  - unfold release_session. pose proof (release_row_wf username server_id connection_id (sessions db) Hs) as H.
    destruct (release_row _ _ _ _). by apply db_wf_sessions.
  - by apply commit_player_exit_wf.
  - unfold update_session_heartbeat. destruct (sessions db !! username) as [s |] eqn:E; [| done].
    destruct (is_state s _); [apply db_wf_session; [exact (Hs _ _ E) | done] | done].
Qed.

Lemma map_Forall_list_to_map {A} (P : string -> A -> Prop) l :
  Forall (fun p => P p.1 p.2) l -> map_Forall P (list_to_map l : gmap string A).
Proof. induction 1; cbn; [apply map_Forall_empty | by apply map_Forall_insert_2]. Qed.

Lemma seed_wf : db_wf seed_database.
Proof.
  split; cbn -[lookup].
  - repeat apply map_Forall_insert_2; [| | apply map_Forall_empty]; (split; cbn -[lookup];
      [lia | first [by exists Warrior | by exists Shaman] | first [by exists Male | by exists Female]
      | first [by exists VariantA | by exists VariantB] | vm_compute; eauto | vm_compute; eauto | vm_compute; eauto | lia]).
  - intros i j p q Hij Hi Hj. apply elem_of_map_to_list, list_elem_of_In in Hi, Hj. vm_compute in Hi, Hj.
    destruct Hi as [[= <- <-] | [[= <- <-] | []]], Hj as [[= <- <-] | [[= <- <-] | []]]; done.
  - repeat apply map_Forall_insert_2; [| | apply map_Forall_empty]; vm_compute; eauto.
  - repeat apply map_Forall_insert_2; [| | apply map_Forall_empty]; vm_compute; eauto.
  - repeat apply map_Forall_insert_2; [| | | | apply map_Forall_empty]; cbn; [right; by exists Empire_Blue | right; by exists Empire_Blue | by left | by left].
  - apply map_Forall_empty.
Qed.

(** [C13] The schema's constraints hold after any sequence of statements: every
    character belongs to a profile and has its progression and runtime rows, a
    live name and a live slot of an account are taken once, every enumeration
    column parses, and a session is either held by a named connection or
    authorised and held by none. *)
Theorem database_wf (ops : list (Z * DbOp)) (db : Database) : db_wf db -> db_wf (db_run ops db).
Proof.
  revert db. induction ops as [| [now op] ops IH]; intros db Hw; [exact Hw | exact (IH _ (db_step_wf now op db Hw))].
Qed.

Lemma database_wf_witness :
  db_wf seed_database /\
  db_wf (db_run [(5, Op_set_token "guest" 7); (6, Op_resume "guest" 7 "s1" "c1" 60 300 "10.0.0.1")]%string seed_database).
Proof. split; [exact seed_wf | apply (database_wf _ _ seed_wf)]. Defined.

(** ** The session lease *)
Definition holds (db : Database) (username server_id connection_id : string) (since : Z) : Prop :=
  exists s, sessions db !! username = Some s /\ held_by s server_id connection_id = true /\
            ss_state s = "ACTIVE"%string /\ since <= ss_last_heartbeat s.

(** A statement at [now] that does not give the lease up: it is not the holder
    that ends its own session, and a take-over comes before the lease is stale. *)
Definition respects (username server_id connection_id : string) (since : Z) (step : Z * DbOp) : Prop :=
  let '(now, op) := step in
  since <= now /\
  match op with
  | Op_acquire u _ _ threshold => u = username -> now <= since + make_interval threshold
  | Op_resume u _ _ _ threshold _ _ => u = username -> now <= since + make_interval (Z.max threshold 0)
  | Op_mark_stale u s c _ | Op_release u s c | Op_commit_exit u s c _ =>
      ~ (u = username /\ s = server_id /\ c = connection_id)
  | _ => True
  end.

Lemma held_by_false s srv c : held_by s srv c = false <-> ~ (ss_server_id s = Some srv /\ ss_connection_id s = Some c).
Proof. by rewrite <- held_by_true, not_true_iff_false. Qed.

Lemma held_by_unique s srv c srv' c' : held_by s srv c = true -> held_by s srv' c' = true -> srv = srv' /\ c = c'.
Proof. rewrite !held_by_true. intros [-> ->] [[= ->] [= ->]]. done. Qed.

(** Changing another account's session, or writing back a row that still holds. *)
Lemma holds_insert db u u' srv c since s :
  holds db u srv c since ->
  (u' = u -> held_by s srv c = true /\ ss_state s = "ACTIVE"%string /\ since <= ss_last_heartbeat s) ->
  holds (set_sessions (<[u' := s]> (sessions db)) db) u srv c since.
Proof.
  intros (s0 & E & H) Hs. destruct (decide (u' = u)) as [-> | Hn].
  - exists s. split; [apply lookup_insert_eq | by apply Hs].
  - exists s0. split; [cbn; by rewrite lookup_insert_ne | done].
Qed.

Lemma holds_ext db db' u srv c since : sessions db' = sessions db -> holds db u srv c since -> holds db' u srv c since.
Proof. unfold holds. by intros ->. Qed.

Lemma holds_release db db' u srv c since u' s' c' t b : holds db u srv c since -> ~ (u' = u /\ s' = srv /\ c' = c) ->
  release_row u' s' c' (sessions db) = (b, t) -> sessions db' = t -> holds db' u srv c since.
Proof.
  intros Hh Hn. unfold release_row. destruct (sessions db !! u') as [s |] eqn:E; [| intros [= _ <-] Et; exact (holds_ext _ _ _ _ _ _ Et Hh)].
  destruct (held_by s s' c') eqn:Eh; [| intros [= _ <-] Et; exact (holds_ext _ _ _ _ _ _ Et Hh)]. intros [= _ <-] Et.
  apply (holds_ext (set_sessions (<[u' := released s]> (sessions db)) db)); [done |].
  apply holds_insert; [done |]. intros ->. destruct Hn. destruct Hh as (s0 & E0 & H0 & _). simplify_eq.
  split; [done |]. eapply held_by_unique; eassumption.
Qed.

Lemma create_player_sessions u s n c g a db : sessions (snd (create_player u s n c g a db)) = sessions db.
Proof.
  unfold create_player. destruct (_ <? _); [done |]. destruct (negb _); [done |]. destruct (_ || _); [done |].
  destruct (profiles _ !! u); [| done]. destruct (bool_decide _); [done |]. by destruct (bool_decide _).
Qed.
Lemma save_player_snapshot_sessions s db : sessions (snd (save_player_snapshot s db)) = sessions db.
Proof.
  unfold save_player_snapshot. destruct (negb match _ with _ => _ end); [done |].
  destruct (progressions db !! _); [| done]. by destruct (negb _).
Qed.

Lemma holds_step u srv c since now op db :
  holds db u srv c since -> respects u srv c since (now, op) -> holds (db_step now op db) u srv c since.
Proof.
  intros Hh [Hnow Hr]. pose proof Hh as (s0 & E0 & H0 & A0 & T0). destruct op; cbn [db_step] in *.
  - unfold update_password. destruct (accounts db !! username); exact Hh.
  - unfold get_or_create_profile. destruct (profiles db !! username); exact Hh.
  - unfold update_profile_empire. destruct (profiles db !! username); exact Hh.
  - exact (holds_ext _ _ _ _ _ _ (create_player_sessions _ _ _ _ _ _ db) Hh).
  - unfold delete_player_with_code. destruct (profiles db !! username); exact Hh.
  - exact (holds_ext _ _ _ _ _ _ (save_player_snapshot_sessions _ db) Hh).
  - unfold acquire_session. apply holds_insert; [done |]. intros ->. rewrite E0.
    unfold is_state, stale. rewrite A0. specialize (Hr eq_refl). cbn [orb bool_decide].
    destruct (ss_last_heartbeat s0 <? now - make_interval threshold) eqn:Es; [lia |]. done.
  - unfold resume_session_with_token. destruct (sessions db !! username) as [s |] eqn:E; [| done].
    destruct (token_valid _ _ _ _ _); [| done]. unfold is_state, stale. cbn [andb].
    destruct (decide (username = u)) as [-> | Hn]; [| destruct (_ || _); [| done]; apply holds_insert; [done | by intros ->]].
    simplify_eq. rewrite A0. specialize (Hr eq_refl). cbn [orb bool_decide].
    destruct (_ <? now - make_interval (Z.max threshold 0)) eqn:Es; [lia |]. cbn [orb].
    destruct (held_by _ server_id connection_id) eqn:Eh; [| done].
    destruct (held_by_unique _ _ _ _ _ H0 Eh) as [-> ->]. apply holds_insert; [done |]. intros _.
    split; [by apply held_by_true | done].
  - unfold set_session_login_token. apply holds_insert; [done |]. intros ->. rewrite E0.
    apply held_by_true in H0 as [H1 H2]. unfold is_state. rewrite A0, H1, H2. cbn. split; [by apply held_by_true | done].
  - unfold validate_login_token. destruct (sessions db !! username) as [s |] eqn:E; [| done].
    destruct (_ && _); [| done]. apply holds_insert; [done |]. intros ->. by simplify_eq.
  - unfold mark_session_stale. destruct (sessions db !! username) as [s |] eqn:E; [| done].
    destruct (held_by s _ _) eqn:Eh; [| done]. apply holds_insert; [done |]. intros ->. simplify_eq. destruct Hr.
    split; [done |]. eapply held_by_unique; eassumption.
  - unfold release_session. destruct (release_row _ _ _ _) as [b t] eqn:Er.
    exact (holds_release _ (set_sessions t db) _ _ _ _ _ _ _ _ _ Hh Hr Er eq_refl).
  - unfold commit_player_exit. destruct (players db !! _); [| done]. destruct (runtime_states db !! _); [| done].
    destruct (negb _); [done |]. destruct (_ <? _); [done |]. destruct (progressions db !! _); [| done].
    destruct (negb _); [done |]. destruct (release_row _ _ _ _) as [[] t] eqn:Er; [| done].
    by apply (holds_release db _ u srv c since username server_id connection_id t true).
  - unfold update_session_heartbeat. destruct (sessions db !! username) as [s |] eqn:E; [| done].
    destruct (is_state s _); [| done]. apply holds_insert; [done |]. intros ->. simplify_eq. done.
Qed.

Lemma holds_run u srv c since ops db :
  holds db u srv c since -> Forall (respects u srv c since) ops -> holds (db_run ops db) u srv c since.
Proof.
  intros Hh Hf. revert db Hh. induction Hf as [| [now op] ops Hr Hf IH]; intros db Hh; [exact Hh |].
  exact (IH _ (holds_step _ _ _ _ _ _ _ Hh Hr)).
Qed.

(** [C12] A session lease excludes: whatever other connections do until the holder's
    heartbeat is older than their stale threshold, and whatever the holder does but
    give up, the holder keeps the session; a resume or an acquire by another
    connection at such a time is refused, even with the right token. *)
Theorem session_lease_exclusive (db : Database) (username server_id connection_id : string) (since : Z)
    (ops : list (Z * DbOp)) :
  holds db username server_id connection_id since ->
  Forall (respects username server_id connection_id since) ops ->
  let db' := db_run ops db in
  holds db' username server_id connection_id since /\
  (forall now token server' connection' threshold ttl ip,
     (server', connection') <> (server_id, connection_id) ->
     now <= since + make_interval (Z.max threshold 0) ->
     resume_session_with_token now username token server' connection' threshold ttl ip db' = (Ok false, db')) /\
  (forall now server' connection' threshold,
     connection' <> connection_id -> now <= since + make_interval threshold ->
     fst (acquire_session now username server' connection' threshold db') = Ok (AlreadyOnOtherServer server_id)).
Proof.
  intros Hh Hf db'. pose proof (holds_run _ _ _ _ _ _ Hh Hf) as H. fold db' in H. split; [exact H |].
  destruct H as (s & E & Hb & A & T). pose proof (proj1 (held_by_true _ _ _) Hb) as [H1 H2]. split.
  - intros now token server' connection' threshold ttl ip Hne Ht. unfold resume_session_with_token, is_state, stale.
    rewrite E, A. destruct (_ <? _) eqn:Es; [lia |]. cbn [orb bool_decide].
    destruct (held_by s server' connection') eqn:Eh; [| by rewrite andb_false_r].
    destruct Hne. by destruct (held_by_unique _ _ _ _ _ Hb Eh) as [-> ->].
  - intros now server' connection' threshold Hne Ht. unfold acquire_session, is_state, stale. rewrite E, A.
    change (bool_decide ("ACTIVE"%string = "AUTHED"%string)) with false. destruct (_ <? _) eqn:Es; [lia |].
    cbn [orb fst]. rewrite H2, H1. by rewrite bool_decide_false by congruence.
Qed.

Lemma session_lease_exclusive_witness :
  let db := db_run [(0, Op_set_token "guest" 7); (1, Op_resume "guest" 7 "s1" "c1" 60 300 "10.0.0.1")]%string seed_database in
  fst (resume_session_with_token 50000000 "guest" 7 "s2" "c2" 60 300 "10.0.0.1"
         (db_run [(40000000, Op_set_token "guest" 7)]%string db)) = Ok false.
Proof.
  cbv zeta. set (db := db_run _ seed_database).
  assert (holds db "guest" "s1" "c1" 1) as Hh.
  { destruct (sessions db !! "guest"%string) as [s |] eqn:E; [| vm_compute in E; discriminate].
    exists s. split; [exact E |]. vm_compute in E. injection E as <-. vm_compute. split; [reflexivity | split; [reflexivity | discriminate]]. }
  assert (Forall (respects "guest" "s1" "c1" 1) [(40000000, Op_set_token "guest" 7)]%string) as Hf.
  { constructor; [| constructor]. split; [lia | exact I]. }
  destruct (session_lease_exclusive db "guest" "s1" "c1" 1 _ Hh Hf) as (_ & H & _).
  rewrite H; [reflexivity | congruence | vm_compute; discriminate].
Defined.

(** ** Ownership of the runtime state *)
Definition epoch (db : Database) (id : PlayerId) : option Z := rt_runtime_epoch <$> runtime_states db !! id.

Lemma commit_player_exit_inv u srv c s db db' :
  commit_player_exit u srv c s db = (Ok tt, db') ->
  exists p rt old ss, let id := player_id s in
    players db !! id = Some p /\ live p = true /\
    runtime_states db !! id = Some rt /\ rt_runtime_epoch rt = prs_runtime_epoch (snapshot_runtime s) /\
    rt_runtime_epoch rt < i64_max /\
    progressions db !! id = Some old /\ progression_check (written_progression s old) = true /\
    sessions db !! u = Some ss /\ held_by ss srv c = true /\
    db' = set_sessions (<[u := released ss]> (sessions db))
            (set_progressions (<[id := written_progression s old]> (progressions db))
               (set_runtime_states
                  (<[id := written_runtime (snapshot_runtime s) (rt_runtime_epoch rt + 1)]> (runtime_states db)) db)).
Proof.
  unfold commit_player_exit, player_id. set (id := prs_id _).
  destruct (players db !! id) as [p |] eqn:Ep; [| done]. destruct (runtime_states db !! id) as [rt |] eqn:Er; [| done].
  destruct (live p && _) eqn:El; cbn [negb]; [| done]. apply andb_true_iff in El as [El Ee].
  destruct (i64_max <? _) eqn:Eb; [done |]. destruct (progressions db !! id) as [old |] eqn:Eg; [| done].
  destruct (progression_check _) eqn:Ec; cbn [negb]; [| done]. unfold release_row.
  destruct (sessions db !! u) as [ss |] eqn:Es; [| done]. destruct (held_by ss srv c) eqn:Eh; [| done].
  intros [= <-]. exists p, rt, old, ss. repeat split; try done; lia.
Qed.

Lemma commit_player_exit_err u srv c s db : (exists e, fst (commit_player_exit u srv c s db) = Err e) ->
  snd (commit_player_exit u srv c s db) = db.
Proof.
  intros [e He]. revert He. unfold commit_player_exit. destruct (players db !! _); [| done].
  destruct (runtime_states db !! _); [| done]. destruct (negb _); [done |]. destruct (_ <? _); [done |].
  destruct (progressions db !! _); [| done]. destruct (negb _); [done |]. by destruct (release_row _ _ _ _) as [[] t].
Qed.

Lemma epoch_insert db id id' r t : epoch db id = Some t -> (id' = id -> t <= rt_runtime_epoch r) ->
  exists t', epoch (set_runtime_states (<[id' := r]> (runtime_states db)) db) id = Some t' /\ t <= t'.
Proof.
  intros E H. unfold epoch in *. cbn. destruct (decide (id' = id)) as [-> | Hn].
  - rewrite lookup_insert_eq. cbn. eauto.
  - rewrite lookup_insert_ne by done. rewrite E. eauto with lia.
Qed.

Lemma epoch_step now op db id t : db_wf db -> epoch db id = Some t ->
  exists t', epoch (db_step now op db) id = Some t' /\ t <= t'.
Proof.
  intros Hw E. assert (forall db', runtime_states db' = runtime_states db -> exists t', epoch db' id = Some t' /\ t <= t') as Hk
    by (intros db' Hr; exists t; unfold epoch in *; by rewrite Hr).
  destruct op; cbn [db_step]; try (apply Hk; reflexivity).
  - apply Hk. unfold update_password. by destruct (accounts db !! username).
  - apply Hk. unfold get_or_create_profile. by destruct (profiles db !! username).
  - apply Hk. unfold update_profile_empire. by destruct (profiles db !! username).
  - unfold create_player. destruct (_ <? _); [by apply Hk |]. destruct (negb _); [by apply Hk |].
    destruct (_ || _); [by apply Hk |]. destruct (profiles _ !! _); [| by apply Hk].
    destruct (bool_decide _); [by apply Hk |]. destruct (bool_decide _) eqn:Er; [by apply Hk |]. cbn [snd].
    apply bool_decide_eq_false in Er. apply (epoch_insert db); [done |]. intros Hid. destruct Er. rewrite Hid. unfold epoch in E. cbn.
    by destruct (runtime_states db !! id).
  - apply Hk. unfold delete_player_with_code. by destruct (profiles db !! username).
  - unfold save_player_snapshot. cbv zeta. set (i := prs_id _). destruct (runtime_states db !! i) as [rt |] eqn:Er; [| by apply Hk].
    destruct (rt_runtime_epoch rt =? _) eqn:Ee; cbn [negb]; [| by apply Hk].
    assert (exists t', epoch (set_runtime_states (<[i := written_runtime (snapshot_runtime snapshot)
        (prs_runtime_epoch (snapshot_runtime snapshot))]> (runtime_states db)) db) id = Some t' /\ t <= t') as H.
    { apply epoch_insert; [done |]. intros <-. unfold epoch in E. rewrite Er in E. injection E as <-. cbn. lia. }
    destruct (progressions db !! i); [| done]. destruct (negb _); [by apply Hk | done].
  - apply Hk. unfold resume_session_with_token. destruct (sessions db !! username); [by destruct (_ && _) | done].
  - apply Hk. unfold validate_login_token. destruct (sessions db !! username); [by destruct (_ && _) | done].
  - apply Hk. unfold mark_session_stale. destruct (sessions db !! username); [by destruct (held_by _ _ _) | done].
  - apply Hk. unfold release_session. by destruct (release_row _ _ _ _).
  - destruct (commit_player_exit username server_id connection_id snapshot db) as [[[] | e] db'] eqn:Ec; cbn [snd].
    + apply commit_player_exit_inv in Ec as (p & rt & old & ss & Hc). cbv zeta in Hc.
      destruct Hc as (_ & _ & Er & _ & _ & _ & _ & _ & _ & ->).
      apply (epoch_insert db); [done |]. intros <-. unfold epoch in E. rewrite Er in E. injection E as <-. cbn. lia.
    + apply Hk. pose proof (commit_player_exit_err username server_id connection_id snapshot db) as He.
      rewrite Ec in He. cbn in He. by rewrite He by eauto.
  - apply Hk. unfold update_session_heartbeat. destruct (sessions db !! username); [by destruct (is_state _ _) | done].
Qed.

Lemma epoch_run ops db id t : db_wf db -> epoch db id = Some t -> exists t', epoch (db_run ops db) id = Some t' /\ t <= t'.
Proof.
  revert db t. induction ops as [| [now op] ops IH]; intros db t Hw E; [eauto with lia |].
  destruct (epoch_step now op db id t Hw E) as (t1 & E1 & H1).
  destruct (IH _ t1 (db_step_wf now op db Hw) E1) as (t2 & E2 & H2). exists t2. split; [exact E2 | lia].
Qed.

(** [C10] The exit transaction hands the runtime over for good: once it has committed for
    some version of a player, no snapshot of that or an older version is ever
    written again, whatever else the database executes in between; a late save
    is reported stale (or as an error) and a second exit is refused. *)
Theorem stale_writer_fenced (db db' : Database) (username server_id connection_id : string) (s : PlayerSnapshot)
    (ops : list (Z * DbOp)) (late : PlayerSnapshot) :
  db_wf db -> commit_player_exit username server_id connection_id s db = (Ok tt, db') ->
  player_id late = player_id s ->
  prs_runtime_epoch (snapshot_runtime late) <= prs_runtime_epoch (snapshot_runtime s) ->
  let db'' := db_run ops db' in
  fst (save_player_snapshot late db'') <> Ok Saved /\ snd (save_player_snapshot late db'') = db'' /\
  forall u srv c, exists e, commit_player_exit u srv c late db'' = (Err e, db'').
Proof.
  intros Hw Hc Hid He db''.
  assert (db_wf db') as Hw' by (rewrite <- (f_equal snd Hc : snd (commit_player_exit _ _ _ _ _) = db'); by apply commit_player_exit_wf).
  apply commit_player_exit_inv in Hc as (p & rt & old & ss & Hc). cbv zeta in Hc.
  destruct Hc as (_ & _ & Er & Hrt & _ & _ & _ & _ & _ & Hdb).
  assert (epoch db' (player_id s) = Some (rt_runtime_epoch rt + 1)) as Ee
    by (subst db'; unfold epoch; cbn; by rewrite lookup_insert_eq).
  destruct (epoch_run ops db' _ _ Hw' Ee) as (t & Et & Hlt). fold db'' in Et. unfold epoch in Et. rewrite <- Hid in Et.
  destruct (runtime_states db'' !! player_id late) as [rt' |] eqn:Er'; [| done]. injection Et as Et. unfold player_id in Er'.
  assert (rt_runtime_epoch rt' =? prs_runtime_epoch (snapshot_runtime late) = false) as Hn by lia.
  unfold save_player_snapshot, commit_player_exit. rewrite Er', Hn. cbn [negb].
  split; [destruct (negb _); done | split; [done |]]. intros u srv c.
  destruct (players db'' !! _); [| eauto]. rewrite andb_false_r. cbn [negb]. eauto.
Qed.

(** A snapshot of version 0 of the player with the given number. *)
Definition sample_snapshot (id level hp : Z) : PlayerSnapshot :=
  {| snapshot_runtime :=
       {| prs_id := id; prs_runtime_epoch := 0; prs_map_key := "metin2_map_c1";
          prs_local_pos := {| pos_x := f32_of_int 3; pos_y := f32_of_int 4 |}; prs_playtime := 61500000000;
          prs_current_hp := Some hp; prs_current_sp := None; prs_current_stamina := Some 7 |};
     snapshot_progression :=
       {| pps_level := level; pps_exp_in_level := 12;
          pps_core_stat_allocations := {| allocated_str := 1; allocated_vit := 2; allocated_dex := 3; allocated_int := 4 |};
          pps_stat_reset_count := 0 |} |}.
Definition sample_leased : Database :=
  db_run [(0, Op_set_token "guest" 7); (1, Op_resume "guest" 7 "s1" "c1" 60 300 "10.0.0.1")]%string seed_database.

Lemma stale_writer_fenced_witness :
  snd (save_player_snapshot (sample_snapshot 2 30 50)
         (snd (commit_player_exit "guest" "s1" "c1" (sample_snapshot 2 36 90) sample_leased))) =
  snd (commit_player_exit "guest" "s1" "c1" (sample_snapshot 2 36 90) sample_leased).
Proof.
  destruct (commit_player_exit "guest" "s1" "c1" (sample_snapshot 2 36 90) sample_leased) as [r db'] eqn:E.
  assert (r = Ok tt) as -> by (change r with (fst (r, db')); rewrite <- E; vm_compute; reflexivity).
  assert (db_wf sample_leased) as Hw by (unfold sample_leased; do 2 apply db_step_wf; exact seed_wf).
  assert (0 <= 0) as H0 by lia.
  exact (proj1 (proj2 (stale_writer_fenced sample_leased db' _ _ _ _ [] (sample_snapshot 2 30 50) Hw E eq_refl H0))).
Defined.

(** An exit is possible when the account's session is held by this connection, the
    player is live, the snapshot is of the current version, and its values are
    ones the schema accepts. *)
Definition may_exit (username server_id connection_id : string) (s : PlayerSnapshot) (db : Database) : Prop :=
  (exists p, players db !! player_id s = Some p /\ live p = true) /\
  (epoch db (player_id s) = Some (prs_runtime_epoch (snapshot_runtime s)) /\
   prs_runtime_epoch (snapshot_runtime s) < i64_max) /\
  (exists old, progressions db !! player_id s = Some old /\ progression_check (written_progression s old) = true) /\
  (exists ss, sessions db !! username = Some ss /\ held_by ss server_id connection_id = true).

(** [C14] The exit transaction is all or nothing: it succeeds exactly when the exit is
    possible, and then the player's state and progression are the snapshot's, the
    version has advanced by one and the session is free; otherwise the database is
    as before. *)
Theorem commit_player_exit_atomic (username server_id connection_id : string) (s : PlayerSnapshot) (db : Database) :
  let '(r, db') := commit_player_exit username server_id connection_id s db in
  (r = Ok tt <-> may_exit username server_id connection_id s db) /\
  (r <> Ok tt -> db' = db) /\
  (r = Ok tt ->
     runtime_states db' !! player_id s =
       Some (written_runtime (snapshot_runtime s) (prs_runtime_epoch (snapshot_runtime s) + 1)) /\
     (exists old, progressions db !! player_id s = Some old /\
                  progressions db' !! player_id s = Some (written_progression s old)) /\
     (exists ss, sessions db !! username = Some ss /\ sessions db' !! username = Some (released ss)) /\
     players db' = players db /\ profiles db' = profiles db /\ accounts db' = accounts db /\
     (forall i, i <> player_id s -> runtime_states db' !! i = runtime_states db !! i /\
                                   progressions db' !! i = progressions db !! i) /\
     (forall u, u <> username -> sessions db' !! u = sessions db !! u)).
Proof.
  destruct (commit_player_exit username server_id connection_id s db) as [r db'] eqn:E.
  split; [| split].
  - split.
    + intros ->. apply commit_player_exit_inv in E as (p & rt & old & ss & H). cbv zeta in H.
      destruct H as (Hp & Hl & Hr & He & Hb & Hg & Hc & Hs & Hh & _).
      unfold may_exit, epoch. rewrite Hr, <- He.
      exact (conj (ex_intro _ p (conj Hp Hl)) (conj (conj eq_refl Hb)
        (conj (ex_intro _ old (conj Hg Hc)) (ex_intro _ ss (conj Hs Hh))))).
    + intros ((p & Hp & Hl) & [He Hb] & (old & Hg & Hc) & (ss & Hs & Hh)).
      unfold epoch in He. destruct (runtime_states db !! player_id s) as [rt |] eqn:Hr; [| done]. injection He as He.
      unfold commit_player_exit, player_id, release_row in *. rewrite Hp, Hr, Hl, He, Hg, Hc, Hs, Hh, Z.eqb_refl in E. cbn [negb andb] in E.
      destruct (i64_max <? _) eqn:Eb; [lia |]. by injection E as <- _.
  - intros Hr. pose proof (commit_player_exit_err username server_id connection_id s db) as He. rewrite E in He. cbn in He.
    apply He. destruct r as [[] | e]; [done | eauto].
  - intros ->. apply commit_player_exit_inv in E as (p & rt & old & ss & H). cbv zeta in H.
    destruct H as (Hp & Hl & Hr & He & Hb & Hg & Hc & Hs & Hh & ->). cbn. rewrite He, !lookup_insert_eq.
    split; [done | split; [by exists old | split; [by exists ss |]]].
    repeat split; intros; by rewrite lookup_insert_ne.
Qed.

(** ** Saving and loading *)

(** What the next login reads of a written snapshot. *)
Definition bootstrap_of (id : PlayerId) (p : PlayerTable) (s : PlayerSnapshot) (playtime : Z)
    (class : PlayerClass) (gender : PlayerGender) (appearance : PlayerBaseAppearance) : PlayerStatsBootstrapRow :=
  let g := snapshot_progression s in
  let a := pps_core_stat_allocations g in
  {| pbr_id := id; pbr_username := pl_username p; pbr_slot := pl_slot p; pbr_name := pl_name p; pbr_class := class;
     pbr_gender := gender; pbr_appearance := appearance; pbr_level := pps_level g; pbr_exp_in_level := pps_exp_in_level g;
     pbr_core_stat_allocations :=
       {| row_allocated_str := allocated_str a; row_allocated_vit := allocated_vit a;
          row_allocated_dex := allocated_dex a; row_allocated_int := allocated_int a |};
     pbr_stat_reset_count := pps_stat_reset_count g; pbr_playtime_secs := playtime;
     pbr_current_hp := prs_current_hp (snapshot_runtime s); pbr_current_sp := prs_current_sp (snapshot_runtime s);
     pbr_current_stamina := prs_current_stamina (snapshot_runtime s) |}.

(** On well-formed tables a save has four outcomes, by the version and whether the
    player is live.  A save of the current version of a deleted player is answered
    with an error although it has been written. *)
Theorem save_player_snapshot_spec (s : PlayerSnapshot) (db : Database) (p : PlayerTable) :
  db_wf db -> players db !! player_id s = Some p ->
  exists rt old, runtime_states db !! player_id s = Some rt /\ progressions db !! player_id s = Some old /\
  save_player_snapshot s db =
    (if negb (rt_runtime_epoch rt =? prs_runtime_epoch (snapshot_runtime s)) then
       (if live p then Ok StaleOwner
        else Err (Db_Invariant "active player should exist when saving player snapshot"), db)
     else if negb (progression_check (written_progression s old)) then (Err (Db_Sqlx "save player snapshot"), db)
     else
       (if live p then Ok Saved
        else Err (Db_Invariant "active player should exist when saving player snapshot"),
        set_progressions (<[player_id s := written_progression s old]> (progressions db))
          (set_runtime_states (<[player_id s := written_runtime (snapshot_runtime s) (rt_runtime_epoch rt)]>
             (runtime_states db)) db))).
Proof.
  intros Hw Hp. destruct (wf_players db Hw _ _ Hp) as [_ _ _ _ _ [old Hg] [rt Hr] _].
  exists rt, old. split; [done | split; [done |]]. unfold player_id in *. unfold save_player_snapshot. rewrite Hp, Hr, Hg.
  destruct (Z.eqb_spec (rt_runtime_epoch rt) (prs_runtime_epoch (snapshot_runtime s))) as [<- |]; cbn [negb]; [| by destruct (live p)].
  destruct (progression_check _); cbn [negb]; by destruct (live p).
Qed.

Lemma save_player_snapshot_spec_witness :
  fst (save_player_snapshot (sample_snapshot 1 99 5)
         (snd (delete_player_with_code 3 "admin" 0 "1234567" seed_database))) =
  Err (Db_Invariant "active player should exist when saving player snapshot").
Proof.
  set (db := snd (delete_player_with_code 3 "admin" 0 "1234567" seed_database)).
  assert (db_wf db) as Hw by (apply (db_step_wf 3 (Op_delete "admin" 0 "1234567")%string); exact seed_wf).
  destruct (players db !! player_id (sample_snapshot 1 99 5)) as [p |] eqn:E; [| vm_compute in E; discriminate].
  destruct (save_player_snapshot_spec (sample_snapshot 1 99 5) db p Hw E) as (rt & old & Hr & Hg & ->).
  vm_compute in E, Hr, Hg. injection E as <-. injection Hr as <-. injection Hg as <-. vm_compute. reflexivity.
Defined.

Lemma commit_player_exit_atomic_witness :
  may_exit "guest" "s1" "c1" (sample_snapshot 2 36 90) sample_leased /\
  ~ may_exit "guest" "s1" "c2" (sample_snapshot 2 36 90) sample_leased.
Proof.
  pose proof (commit_player_exit_atomic "guest" "s1" "c1" (sample_snapshot 2 36 90) sample_leased) as H1.
  pose proof (commit_player_exit_atomic "guest" "s1" "c2" (sample_snapshot 2 36 90) sample_leased) as H2.
  destruct (commit_player_exit "guest" "s1" "c1" _ _) as [r1 db1] eqn:E1.
  destruct (commit_player_exit "guest" "s1" "c2" _ _) as [r2 db2] eqn:E2.
  apply (f_equal fst) in E1, E2. vm_compute in E1, E2. cbn in E1, E2. split.
  - apply (proj1 H1). symmetry. exact E1.
  - intros Hm. apply (proj1 H2) in Hm. rewrite <- E2 in Hm. discriminate Hm.
Defined.

Lemma parse_summary_total db id p g : player_wf db id p ->
  exists c ge a, pl_class_name p = as_ref c /\ pl_gender p = as_ref ge /\ pl_appearance p = as_ref a /\
  parse_player_summary_row id p g =
    Ok {| psr_id := id; psr_username := pl_username p; psr_slot := pl_slot p; psr_name := pl_name p; psr_class := c;
          psr_gender := ge; psr_appearance := a; psr_level := pg_level g; psr_playtime_secs := pg_playtime_secs g;
          psr_core_stat_allocations := parse_player_core_stat_allocation_row g |} /\
  forall r, parse_player_stats_bootstrap_row id p g r =
    Ok {| pbr_id := id; pbr_username := pl_username p; pbr_slot := pl_slot p; pbr_name := pl_name p; pbr_class := c;
          pbr_gender := ge; pbr_appearance := a; pbr_level := pg_level g; pbr_exp_in_level := pg_exp_in_level g;
          pbr_core_stat_allocations := parse_player_core_stat_allocation_row g;
          pbr_stat_reset_count := pg_stat_reset_count g; pbr_playtime_secs := pg_playtime_secs g;
          pbr_current_hp := r ≫= rt_current_hp; pbr_current_sp := r ≫= rt_current_sp;
          pbr_current_stamina := r ≫= rt_current_stamina |}.
Proof.
  intros [_ [c Hc] [ge Hg] [a Ha] _ _ _ _]. exists c, ge, a. do 3 (split; [done |]).
  unfold parse_player_summary_row, parse_player_stats_bootstrap_row. rewrite Hc, Hg, Ha, !parse_as_ref. done.
Qed.

(** Reading a player from rows that hold a snapshot. *)
Lemma load_written db s e p old : db_wf db ->
  players db !! player_id s = Some p -> live p = true ->
  runtime_states db !! player_id s = Some (written_runtime (snapshot_runtime s) e) ->
  progressions db !! player_id s = Some (written_progression s old) ->
  find_player_runtime_state_by_player_id (player_id s) db =
    Ok (Some {| prr_player_id := player_id s; prr_map_key := Some (prs_map_key (snapshot_runtime s));
                prr_local_x := Some (pos_x (prs_local_pos (snapshot_runtime s)));
                prr_local_y := Some (pos_y (prs_local_pos (snapshot_runtime s)));
                prr_current_hp := prs_current_hp (snapshot_runtime s);
                prr_current_sp := prs_current_sp (snapshot_runtime s);
                prr_current_stamina := prs_current_stamina (snapshot_runtime s); prr_runtime_epoch := e |}) /\
  exists class gender appearance,
    pl_class_name p = as_ref class /\ pl_gender p = as_ref gender /\ pl_appearance p = as_ref appearance /\
    find_player_stats_bootstrap_by_id (player_id s) db =
      Ok (Some (bootstrap_of (player_id s) p s
                  (Z.max (pg_playtime_secs old) (as_secs_i64 (prs_playtime (snapshot_runtime s)))) class gender appearance)).
Proof.
  intros Hw Hp Hl Hr Hg. destruct (parse_summary_total db _ _ (written_progression s old) (wf_players db Hw _ _ Hp))
    as (c & ge & a & H1 & H2 & H3 & _ & Hb).
  split.
  - unfold find_player_runtime_state_by_player_id. by rewrite Hp, Hr, Hl.
  - exists c, ge, a. do 3 (split; [done |]). unfold find_player_stats_bootstrap_by_id. by rewrite Hp, Hg, Hl, Hr, Hb.
Qed.

Lemma save_saved_inv s db db' : save_player_snapshot s db = (Ok Saved, db') ->
  exists p old, players db !! player_id s = Some p /\ live p = true /\ progressions db !! player_id s = Some old /\
  db' = set_progressions (<[player_id s := written_progression s old]> (progressions db))
          (set_runtime_states (<[player_id s := written_runtime (snapshot_runtime s) (prs_runtime_epoch (snapshot_runtime s))]>
             (runtime_states db)) db).
Proof.
  unfold save_player_snapshot, player_id. cbv zeta. set (id := prs_id _). intros E.
  destruct (runtime_states db !! id) as [rt |]; cbn [negb] in E.
  2: { destruct (players db !! id) as [p |]; done. }
  destruct (rt_runtime_epoch rt =? _); cbn [negb] in E.
  2: { destruct (players db !! id) as [p |]; [| done]. by destruct (live p). }
  destruct (progressions db !! id) as [old |].
  2: { destruct (players db !! id) as [p |]; [| done]. by destruct (live p). }
  destruct (progression_check _); cbn [negb] in E; [| done].
  destruct (players db !! id) as [p |]; [| done]. destruct (live p) eqn:Hl; [| done]. injection E as <-.
  exists p, old. done.
Qed.

(** [C15] What is saved is what the next load reads: after a save that is acknowledged,
    and after an exit that has committed, loading the player gives the snapshot's
    position, vitals, level, experience and allocations, with the version kept by
    the save and advanced by the exit, and a playing time that never decreases. *)
Theorem snapshot_roundtrip (s : PlayerSnapshot) (db : Database) (username server_id connection_id : string) :
  db_wf db ->
  let r := snapshot_runtime s in
  let loads (db' : Database) (e : Z) : Prop :=
    find_player_runtime_state_by_player_id (player_id s) db' =
      Ok (Some {| prr_player_id := player_id s; prr_map_key := Some (prs_map_key r);
                  prr_local_x := Some (pos_x (prs_local_pos r)); prr_local_y := Some (pos_y (prs_local_pos r));
                  prr_current_hp := prs_current_hp r; prr_current_sp := prs_current_sp r;
                  prr_current_stamina := prs_current_stamina r; prr_runtime_epoch := e |}) /\
    exists p old class gender appearance,
      players db !! player_id s = Some p /\ progressions db !! player_id s = Some old /\
      pl_class_name p = as_ref class /\ pl_gender p = as_ref gender /\ pl_appearance p = as_ref appearance /\
      find_player_stats_bootstrap_by_id (player_id s) db' =
        Ok (Some (bootstrap_of (player_id s) p s (Z.max (pg_playtime_secs old) (as_secs_i64 (prs_playtime r)))
                    class gender appearance)) in
  (forall db', save_player_snapshot s db = (Ok Saved, db') -> loads db' (prs_runtime_epoch r)) /\
  (forall db', commit_player_exit username server_id connection_id s db = (Ok tt, db') -> loads db' (prs_runtime_epoch r + 1)).
Proof.
  intros Hw r loads. split; intros db' E.
  - pose proof (save_player_snapshot_wf s db Hw) as Hw'. rewrite E in Hw'. cbn [snd] in Hw'.
    destruct (save_saved_inv s db db' E) as (p & old & Hp & Hl & Hg & ->).
    destruct (load_written _ s (prs_runtime_epoch r) p old Hw' Hp Hl) as (H1 & c & ge & a & H2 & H3 & H4 & H5);
      [apply lookup_insert_eq | apply lookup_insert_eq |].
    split; [exact H1 | by exists p, old, c, ge, a].
  - pose proof (commit_player_exit_wf username server_id connection_id s db Hw) as Hw'. rewrite E in Hw'. cbn [snd] in Hw'.
    apply commit_player_exit_inv in E as (p & rt & old & ss & H). cbv zeta in H.
    destruct H as (Hp & Hl & Hr & He & _ & Hg & _ & _ & _ & ->).
    destruct (load_written _ s (rt_runtime_epoch rt + 1) p old Hw' Hp Hl) as (H1 & c & ge & a & H2 & H3 & H4 & H5);
      [apply lookup_insert_eq | apply lookup_insert_eq |].
    unfold r. rewrite <- He. split; [exact H1 | by exists p, old, c, ge, a].
Qed.

Lemma snapshot_roundtrip_witness :
  (exists row, find_player_stats_bootstrap_by_id 2
     (snd (commit_player_exit "guest" "s1" "c1" (sample_snapshot 2 36 90) sample_leased)) = Ok (Some row) /\
     pbr_level row = 36 /\ pbr_current_hp row = Some 90 /\ pbr_playtime_secs row = 61).
Proof.
  assert (db_wf sample_leased) as Hw by (unfold sample_leased; do 2 apply db_step_wf; exact seed_wf).
  destruct (commit_player_exit "guest" "s1" "c1" (sample_snapshot 2 36 90) sample_leased) as [r db'] eqn:E.
  assert (r = Ok tt) as -> by (change r with (fst (r, db')); rewrite <- E; vm_compute; reflexivity).
  destruct (snapshot_roundtrip (sample_snapshot 2 36 90) sample_leased "guest" "s1" "c1" Hw) as [_ H].
  destruct (H db' E) as (_ & p & old & c & g & a & Hp & Hg & _ & _ & _ & Hl).
  exists (bootstrap_of 2 p (sample_snapshot 2 36 90) (Z.max (pg_playtime_secs old) 61) c g a).
  split; [exact Hl |]. vm_compute in Hg. injection Hg as <-. split; [reflexivity | split; reflexivity].
Defined.

(** ** Creating and deleting players *)
Lemma elem_of_filter_players (f : PlayerId * PlayerTable -> bool) db x :
  x ∈ List.filter f (map_to_list (players db)) <-> players db !! x.1 = Some x.2 /\ f x = true.
Proof. rewrite list_elem_of_In, filter_In, <- list_elem_of_In. destruct x. by rewrite elem_of_map_to_list. Qed.

Lemma select_unique db w id p :
  players db !! id = Some p -> w p = true -> live p = true ->
  (forall j q, players db !! j = Some q -> w q = true -> live q = true -> j = id) ->
  select_players w db = [(id, p)].
Proof.
  intros Hp Hw Hl Hu. unfold select_players. apply Permutation_singleton_r. rewrite (merge_sort_Permutation slot_le).
  apply NoDup_Permutation.
  - apply NoDup_ListNoDup, List.NoDup_filter, NoDup_ListNoDup, NoDup_map_to_list.
  - apply NoDup_singleton.
  - intros [j q]. rewrite elem_of_filter_players, list_elem_of_singleton. cbn. rewrite andb_true_iff. split.
    + intros (Hj & Hwq & Hlq). pose proof (Hu j q Hj Hwq Hlq) as ->. by rewrite Hp in Hj; injection Hj as ->.
    + intros [= -> ->]. done.
Qed.

Lemma conflicts_true p q : conflicts p q = true <->
  live p = true /\ live q = true /\
  (pl_name p = pl_name q \/ (pl_username p = pl_username q /\ pl_slot p = pl_slot q)).
Proof. unfold conflicts. rewrite !andb_true_iff, orb_true_iff, andb_true_iff, !bool_decide_eq_true, Z.eqb_eq. tauto. Qed.

(** The name is taken, or the slot of the account. *)
Definition name_or_slot_taken (username : string) (slot : Z) (name : string) (db : Database) : Prop :=
  exists id p, players db !! id = Some p /\ live p = true /\
    (pl_name p = name \/ (pl_username p = username /\ pl_slot p = slot)).

Lemma existsb_conflicts db row : live row = true ->
  existsb (fun '(_, q) => conflicts row q) (map_to_list (players db)) = true <->
  name_or_slot_taken (pl_username row) (pl_slot row) (pl_name row) db.
Proof.
  intros Hl. rewrite existsb_exists. unfold name_or_slot_taken. split.
  - intros ([j q] & Hi & Hc). apply list_elem_of_In, elem_of_map_to_list in Hi. apply conflicts_true in Hc as (_ & Hq & Ho).
    exists j, q. split; [done | split; [done |]]. destruct Ho as [-> | [-> ->]]; auto.
  - intros (j & q & Hi & Hq & Ho). exists (j, q). split; [by apply list_elem_of_In, elem_of_map_to_list |].
    apply conflicts_true. split; [done | split; [done |]]. destruct Ho as [-> | [-> ->]]; auto.
Qed.

(** Creating a character, on well-formed tables: it succeeds exactly for a slot in
    0..=3 of an existing profile when neither the name nor the slot is taken by a
    live character, and then the new character is found under its slot, at level
    one with nothing allocated, with no position yet; a taken slot is answered as a
    taken name; a slot out of range or an unknown profile is an error; and only in
    the first case are there new rows. *)
Theorem create_player_spec (username : string) (slot : Z) (name : string) (class : PlayerClass) (gender : PlayerGender)
    (appearance : PlayerBaseAppearance) (db : Database) :
  db_wf db -> next_player_id db <= i64_max ->
  let '(r, db') := create_player username slot name class gender appearance db in
  let row := {| psr_id := next_player_id db; psr_username := username; psr_slot := slot; psr_name := name;
                psr_class := class; psr_gender := gender; psr_appearance := appearance; psr_level := 1;
                psr_playtime_secs := 0;
                psr_core_stat_allocations :=
                  {| row_allocated_str := 0; row_allocated_vit := 0; row_allocated_dex := 0; row_allocated_int := 0 |} |} in
  if negb (slot_check slot) then (exists e, r = Err e) /\ db' = advance_player_id db
  else
    (name_or_slot_taken username slot name db -> r = Ok NameTaken /\ db' = advance_player_id db) /\
    (~ name_or_slot_taken username slot name db ->
       match profiles db !! username with
       | None => (exists e, r = Err e) /\ db' = advance_player_id db
       | Some _ =>
           r = Ok (Created row) /\ find_player_summary_by_slot username slot db' = Ok (Some row) /\
           epoch db' (next_player_id db) = Some 0 /\
           (forall id, id <> next_player_id db -> players db' !! id = players db !! id)
       end).
Proof.
  intros Hw Hn. pose proof (create_player_wf username slot name class gender appearance db Hw) as Hw'.
  unfold create_player in *. destruct (i64_max <? next_player_id db) eqn:Ei; [lia |]. cbv zeta in *.
  set (row := Build_PlayerTable _ _ _ _ _ _ _) in *.
  destruct (slot_check slot) eqn:Es; cbn [negb] in *; [| by eauto].
  assert (players db !! next_player_id db = None) as Hfresh.
  { apply eq_None_not_Some. intros [p Hp]. pose proof (pw_id _ _ _ (wf_players db Hw _ _ Hp)). lia. }
  assert (forall A (m : gmap PlayerId A), (forall x, m !! next_player_id db = Some x -> is_Some (players db !! next_player_id db)) ->
    bool_decide (is_Some (m !! next_player_id db)) = false) as Hnone.
  { intros A m Hm. apply bool_decide_eq_false. intros [x Hx]. destruct (Hm x Hx) as [p Hp]. by rewrite Hfresh in Hp. }
  rewrite (Hnone _ (players (advance_player_id db))) in * by eauto. cbn [orb] in *.
  destruct (existsb _ _) eqn:Ec.
  - apply (existsb_conflicts (advance_player_id db) row eq_refl) in Ec. split; [done | intros []; exact Ec].
  - assert (~ name_or_slot_taken username slot name db) as Hnt.
    { intros Ht. apply (existsb_conflicts (advance_player_id db) row eq_refl) in Ht. congruence. }
    change (profiles (advance_player_id db)) with (profiles db) in *.
    destruct (profiles db !! username) as [pr |] eqn:Ep; [| by split; eauto].
    rewrite (Hnone _ (progressions (advance_player_id db))) in * by (intros g Hg; exact (proj2 (wf_progressions db Hw _ _ Hg))).
    rewrite (Hnone _ (runtime_states (advance_player_id db))) in * by (intros g Hg; exact (wf_runtimes db Hw _ _ Hg)).
    cbn [snd] in Hw'. unfold parse_player_summary_row, row. cbn [pl_class_name pl_gender pl_appearance]. rewrite !parse_as_ref. cbn [rbind].
    split; [done | intros _]. split; [done |]. split; [| split].
    + unfold find_player_summary_by_slot.
      rewrite (select_unique _ _ (next_player_id db) row); [| apply lookup_insert_eq | | done |].
      * cbn -[parse_enum as_ref]. rewrite lookup_insert_eq. cbn -[parse_enum as_ref].
        unfold parse_player_summary_row, row. cbn -[parse_enum as_ref]. by rewrite !parse_as_ref.
      * cbn. by rewrite bool_decide_true, Z.eqb_refl by done.
      * intros j q Hj Hq Hl. apply andb_true_iff in Hq as [Hu Hs]. apply bool_decide_eq_true in Hu. cbn in Hj.
        destruct (decide (j = next_player_id db)) as [| Hne]; [done |]. rewrite lookup_insert_ne in Hj by done.
        destruct Hnt. exists j, q. split; [done | split; [done | right; split; [done | lia]]].
    + unfold epoch. cbn. by rewrite lookup_insert_eq.
    + intros id Hid. cbn. by rewrite lookup_insert_ne.
Qed.

Lemma create_player_spec_witness :
  fst (create_player "guest2" 3 "Fresh" Sura Female VariantB seed_database) <> Ok NameTaken /\
  fst (create_player "guest" 0 "Fresh" Sura Female VariantB seed_database) = Ok NameTaken.
Proof.
  assert (next_player_id seed_database <= i64_max) as Hn by (vm_compute; discriminate). split.
  - pose proof (create_player_spec "guest2" 3 "Fresh" Sura Female VariantB _ seed_wf Hn) as H.
    destruct (create_player "guest2" 3 "Fresh" _ _ _ _) as [r db'] eqn:E. cbn [negb] in H.
    destruct H as [_ H]. assert (~ name_or_slot_taken "guest2" 3 "Fresh" seed_database) as Hf.
    { intros (id & p & Hp & _ & Ho). apply elem_of_map_to_list, list_elem_of_In in Hp. vm_compute in Hp.
      destruct Hp as [[= <- <-] | [[= <- <-] | []]]; destruct Ho as [Ho | [Ho _]]; discriminate Ho. }
    specialize (H Hf). destruct (profiles seed_database !! "guest2"%string) eqn:Ep; [| vm_compute in Ep; discriminate].
    destruct H as [Hr _]. cbn [fst]. rewrite Hr. discriminate.
  - pose proof (create_player_spec "guest" 0 "Fresh" Sura Female VariantB _ seed_wf Hn) as H.
    destruct (create_player "guest" 0 "Fresh" _ _ _ _) as [r db'] eqn:E. cbn [negb] in H.
    destruct H as [H _]. refine (proj1 (H _)). destruct (players seed_database !! 2) as [p |] eqn:Ep; [| vm_compute in Ep; discriminate].
    exists 2, p. split; [exact Ep |]. vm_compute in Ep. injection Ep as <-. cbn. split; [reflexivity | right; split; reflexivity].
Defined.
