(* ===== verification/Persist.v ===== *)
(** The persistence worker ([zohar-core/src/runtime/player_persistence.rs]) and
    the requests the simulation sends it ([zohar-sim/src/persistence.rs]): one
    lane per player, which coalesces saves, lets an exit replace them and keeps at
    most one write of that player in flight.

    The runtime is a step relation.  A request is handled, ready lanes are
    dispatched, a spawned task runs against the database or panics, a task that
    ended is joined, or time passes; [HashMap] iteration order, task scheduling and
    the answers of the database are the events' choice.  The join of a panicked task
    yields an error, which the worker's loop passes over: the lane of that player
    then stays in flight.  A [oneshot] sender is an
    identifier and what becomes of it is recorded in order: a value is sent, or
    the sender is dropped. *)
From S2P Require Import Prelude Domain Float Space Entities Database.

(** ** Requests *)
Inductive SaveUrgency : Type := Autosave | FlushNow.

Definition Sender : Type := nat.
Definition PlayerPersistenceResult : Type := result unit string.

Inductive PlayerPersistenceRequest : Type :=
| SaveSnapshot (snapshot : PlayerSnapshot) (urgency : SaveUrgency) (reply : option Sender)
| CommitPlayerExit (exit_kind : PlayerExitKind) (username server_id connection_id : string)
    (snapshot : PlayerSnapshot) (reply : Sender).

(** What became of a sender: the value sent, or [None] for a dropped sender. *)
Definition Fate : Type := Sender * option PlayerPersistenceResult.
Definition answer (reply : option Sender) (r : PlayerPersistenceResult) : list Fate :=
  match reply with Some s => [(s, Some r)] | None => [] end.
Definition drop_sender (reply : option Sender) : list Fate :=
  match reply with Some s => [(s, None)] | None => [] end.

(** ** Lanes *)
Record PendingSave : Type := {
  save_snapshot : PlayerSnapshot; save_urgency : SaveUrgency; save_reply : option Sender }.
Record PendingExit : Type := {
  exit_kind : PlayerExitKind; exit_username : string; exit_server_id : string; exit_connection_id : string;
  exit_snapshot : PlayerSnapshot; exit_reply : Sender }.

Record PlayerPersistenceLane : Type := {
  in_flight : bool;
  pending_save : option PendingSave;
  pending_exit : option PendingExit;
  retry_at : option Z }.
Notation Lane := PlayerPersistenceLane.

Definition Lane_default : Lane :=
  {| in_flight := false; pending_save := None; pending_exit := None; retry_at := None |}.
Notation Lanes := (gmap PlayerId PlayerPersistenceLane).

Inductive DispatchKind : Type :=
| Dispatch_Save (snapshot : PlayerSnapshot) (urgency : SaveUrgency) (reply : option Sender)
| Dispatch_CommitPlayerExit (exit : PendingExit).
Record DispatchOp : Type := { op_player_id : PlayerId; op_kind : DispatchKind }.

Record CompletedDispatch : Type := {
  done_player_id : PlayerId; done_kind : DispatchKind; done_result : PlayerPersistenceResult }.

Definition MAX_CONCURRENT_SAVES : nat := 8.
(** One second, in nanoseconds. *)
Definition AUTOSAVE_RETRY_DELAY : Z := 1000000000.

(** [PlayerPersistenceLane::next_dispatch] *)
Definition next_dispatch (lane : Lane) : option DispatchOp * Lane :=
  match pending_exit lane with
  | Some exit =>
      (Some {| op_player_id := player_id (exit_snapshot exit); op_kind := Dispatch_CommitPlayerExit exit |},
       {| in_flight := in_flight lane; pending_save := pending_save lane; pending_exit := None;
          retry_at := retry_at lane |})
  | None =>
      (save ← pending_save lane;
       Some {| op_player_id := player_id (save_snapshot save);
               op_kind := Dispatch_Save (save_snapshot save) (save_urgency save) (save_reply save) |},
       {| in_flight := in_flight lane; pending_save := None; pending_exit := None; retry_at := retry_at lane |})
  end.

Definition is_idle (lane : Lane) : bool :=
  negb (in_flight lane) && bool_decide (pending_save lane = None) && bool_decide (pending_exit lane = None).

(** ** Handling a request *)
Definition set_pending_save (lane : Lane) (save : PendingSave) : Lane :=
  {| in_flight := in_flight lane; pending_save := Some save; pending_exit := pending_exit lane; retry_at := None |}.

(** A save coalesces with the pending one; a flush upgrades it, and takes its
    reply only when there is none yet.  An exit takes the place of whatever is
    pending. *)
Definition handle_request (request : PlayerPersistenceRequest) (lanes : Lanes) : Lanes * list Fate :=
  match request with
  | SaveSnapshot snapshot urgency reply =>
      let id := player_id snapshot in
      let lane := default Lane_default (lanes !! id) in
      match pending_exit lane with
      | Some _ => (<[id := lane]> lanes, answer reply (Err "player exit is already pending"%string))
      | None =>
          match pending_save lane with
          | Some pending =>
              match urgency with
              | FlushNow =>
                  let '(kept, fates) :=
                    match reply, save_reply pending with
                    | Some r, Some _ => (save_reply pending, answer reply (Err "player flush is already pending"%string))
                    | Some r, None => (Some r, [])
                    | None, _ => (save_reply pending, [])
                    end in
                  (<[id := set_pending_save lane
                             {| save_snapshot := snapshot; save_urgency := FlushNow; save_reply := kept |}]> lanes, fates)
              | Autosave =>
                  (<[id := set_pending_save lane
                             {| save_snapshot := snapshot; save_urgency := save_urgency pending;
                                save_reply := save_reply pending |}]> lanes, drop_sender reply)
              end
          | None =>
              (<[id := set_pending_save lane
                         {| save_snapshot := snapshot; save_urgency := urgency; save_reply := reply |}]> lanes, [])
          end
      end
  | CommitPlayerExit kind username server_id connection_id snapshot reply =>
      let id := player_id snapshot in
      let lane := default Lane_default (lanes !! id) in
      (<[id := {| in_flight := in_flight lane; pending_save := None;
                  pending_exit := Some {| exit_kind := kind; exit_username := username; exit_server_id := server_id;
                                          exit_connection_id := connection_id; exit_snapshot := snapshot;
                                          exit_reply := reply |};
                  retry_at := None |}]> lanes,
       drop_sender (pending_save lane ≫= save_reply) ++ drop_sender (exit_reply <$> pending_exit lane))
  end.

(** ** Dispatching *)

(** The priority of a lane that is ready: exits, then flushes, then autosaves
    whose retry time has come. *)
Definition lane_priority (lane : Lane) (now : Z) : option Z :=
  if in_flight lane then None
  else
    match pending_exit lane with
    | Some _ => Some 0
    | None =>
        save ← pending_save lane;
        match save_urgency save with
        | FlushNow => Some 1
        | Autosave =>
            match retry_at lane with
            | Some t => if now <? t then None else Some 2
            | None => Some 2
            end
        end
    end.

Definition key_le (a b : Z * PlayerId) : Prop := fst a <= fst b.
#[export] Instance key_le_dec : RelDecision key_le.
Proof. intros a b. unfold key_le. apply _. Defined.

(** [iter] is the order in which the [HashMap] iterates; that order being
    arbitrary, a stable sort gives every result of the unstable one. *)
Definition ready_player_ids (iter : list (PlayerId * Lane)) (now : Z) : list PlayerId :=
  snd <$> merge_sort key_le (omap (fun '(id, lane) => (fun p => (p, id)) <$> lane_priority lane now) iter).

(** A spawned task: before and after its future has completed, or after it
    panicked, when its join only yields an error. *)
Inductive Task : Type :=
| Running (op : DispatchOp)
| Finished (completed : CompletedDispatch)
| Panicked (op : DispatchOp).

Definition set_in_flight (lane : Lane) (b : bool) : Lane :=
  {| in_flight := b; pending_save := pending_save lane; pending_exit := pending_exit lane; retry_at := retry_at lane |}.

Fixpoint dispatch_loop (ids : list PlayerId) (lanes : Lanes) (tasks : list Task) : Lanes * list Task :=
  match ids with
  | [] => (lanes, tasks)
  | id :: ids =>
      if (MAX_CONCURRENT_SAVES <=? length tasks)%nat then (lanes, tasks)
      else
        match lanes !! id with
        | None => dispatch_loop ids lanes tasks
        | Some lane =>
            match next_dispatch lane with
            | (None, lane) => dispatch_loop ids (<[id := lane]> lanes) tasks
            | (Some op, lane) => dispatch_loop ids (<[id := set_in_flight lane true]> lanes) (tasks ++ [Running op])
            end
        end
  end.

Definition dispatch_ready_ops (iter : list (PlayerId * Lane)) (now : Z) (lanes : Lanes) (tasks : list Task)
  : Lanes * list Task :=
  if (MAX_CONCURRENT_SAVES <=? length tasks)%nat then (lanes, tasks)
  else dispatch_loop (ready_player_ids iter now) lanes tasks.

(** The answers of the database at the time a task runs. *)
Record Db : Type := {
  db_save_player_snapshot : PlayerSnapshot -> result PlayerWriteOutcome string;
  db_commit_player_exit : PlayerExitKind -> string -> string -> string -> PlayerSnapshot -> result unit string }.

(** The body of the spawned task. *)
Definition run_op (db : Db) (op : DispatchOp) : CompletedDispatch :=
  {| done_player_id := op_player_id op; done_kind := op_kind op;
     done_result :=
       match op_kind op with
       | Dispatch_Save snapshot urgency _ =>
           match db_save_player_snapshot db snapshot with
           | Err error => Err error
           | Ok outcome =>
               match urgency, outcome with
               | Autosave, Saved | Autosave, StaleOwner | FlushNow, Saved => Ok tt
               | FlushNow, StaleOwner =>
                   Err "owned player state flush rejected because runtime ownership moved"%string
               end
           end
       | Dispatch_CommitPlayerExit exit =>
           db_commit_player_exit db (exit_kind exit) (exit_username exit) (exit_server_id exit)
             (exit_connection_id exit) (exit_snapshot exit)
       end |}.

(** What the database confirmed: a snapshot saved, or an exit committed. *)
Definition db_confirms (db : Db) (op : DispatchOp) : bool :=
  match op_kind op with
  | Dispatch_Save snapshot _ _ =>
      match db_save_player_snapshot db snapshot with Ok Saved => true | Ok StaleOwner | Err _ => false end
  | Dispatch_CommitPlayerExit exit =>
      match db_commit_player_exit db (exit_kind exit) (exit_username exit) (exit_server_id exit)
              (exit_connection_id exit) (exit_snapshot exit) with
      | Ok _ => true
      | Err _ => false
      end
  end.

(** ** Joining a finished task *)
Definition set_retry_at (lane : Lane) (t : option Z) : Lane :=
  {| in_flight := in_flight lane; pending_save := pending_save lane; pending_exit := pending_exit lane; retry_at := t |}.

(** A failed autosave is queued again, unless something newer is pending. *)
Definition complete_lane (completed : CompletedDispatch) (now : Z) (lane : Lane) : Lane * list Fate :=
  let lane := set_in_flight lane false in
  match done_kind completed with
  | Dispatch_Save snapshot Autosave reply =>
      match done_result completed with
      | Err _ =>
          if bool_decide (is_Some (pending_exit lane)) || bool_decide (is_Some (pending_save lane)) then
            (set_retry_at lane None, drop_sender reply)
          else
            ({| in_flight := in_flight lane;
                pending_save := Some {| save_snapshot := snapshot; save_urgency := Autosave; save_reply := reply |};
                pending_exit := pending_exit lane; retry_at := Some (now + AUTOSAVE_RETRY_DELAY) |}, [])
      | Ok _ => (set_retry_at lane None, drop_sender reply)
      end
  | Dispatch_Save _ FlushNow reply => (lane, answer reply (done_result completed))
  | Dispatch_CommitPlayerExit exit => (lane, answer (Some (exit_reply exit)) (done_result completed))
  end.

Definition kind_reply (kind : DispatchKind) : option Sender :=
  match kind with Dispatch_Save _ _ reply => reply | Dispatch_CommitPlayerExit exit => Some (exit_reply exit) end.

(** Without its lane a completed operation is dropped, and its reply with it. *)
Definition handle_completed_dispatch (completed : CompletedDispatch) (now : Z) (lanes : Lanes) : Lanes * list Fate :=
  let id := done_player_id completed in
  match lanes !! id with
  | None => (lanes, drop_sender (kind_reply (done_kind completed)))
  | Some lane =>
      let '(lane, fates) := complete_lane completed now lane in
      (if is_idle lane then delete id lanes else <[id := lane]> lanes, fates)
  end.

(** When the worker wakes up for a retry. *)
Definition next_retry_deadline (iter : list (PlayerId * Lane)) : option Z :=
  let deadlines :=
    omap (fun '(_, lane) =>
      if in_flight lane then None
      else match pending_exit lane with Some _ => None | None => retry_at lane end) iter in
  match deadlines with
  | [] => None
  | t :: ts => Some (fold_left Z.min ts t)
  end.

(** ** The worker

    [written] lists every write attempted that was answered, [saved] those of
    them that the database confirmed. *)
Record Worker : Type := {
  lanes : Lanes;
  tasks : list Task;
  written : list CompletedDispatch;
  saved : list CompletedDispatch;
  fates : list Fate;
  now : Z;
  receiver_closed : bool }.
Definition Worker_new (t : Z) : Worker :=
  {| lanes := ∅; tasks := []; written := []; saved := []; fates := []; now := t; receiver_closed := false |}.

Inductive Event : Type :=
| Ev_request (request : option PlayerPersistenceRequest)
| Ev_dispatch (order : list PlayerId)
| Ev_run (i : nat) (db : Db)
| Ev_panic (i : nat)
| Ev_join (i : nat)
| Ev_clock (t : Z).

(** An event, where it can happen: [recv] yields nothing more once the channel
    is closed, and only a running task runs or panics, only a task that ended is
    joined.  A panic drops the task's future, and the sender in it; the join of a
    panicked task is an [Err], which matches no arm of the loop. *)
Definition worker_step (w : Worker) (ev : Event) : option Worker :=
  match ev with
  | Ev_request request =>
      if receiver_closed w then None
      else
        match request with
        | Some request =>
            let '(m, fs) := handle_request request (lanes w) in
            Some {| lanes := m; tasks := tasks w; written := written w; saved := saved w; fates := fates w ++ fs; now := now w;
                    receiver_closed := false |}
        | None => Some {| lanes := lanes w; tasks := tasks w; written := written w; saved := saved w; fates := fates w; now := now w;
                          receiver_closed := true |}
        end
  | Ev_dispatch order =>
      if map_order order (lanes w) then
        let '(m, ts) := dispatch_ready_ops (map_iter order (lanes w)) (now w) (lanes w) (tasks w) in
        Some {| lanes := m; tasks := ts; written := written w; saved := saved w; fates := fates w; now := now w;
                receiver_closed := receiver_closed w |}
      else None
  | Ev_run i db =>
      match tasks w !! i with
      | Some (Running op) =>
          let completed := run_op db op in
          Some {| lanes := lanes w; tasks := <[i := Finished completed]> (tasks w);
                  written := written w ++ [completed];
                  saved := if db_confirms db op then saved w ++ [completed] else saved w; fates := fates w; now := now w;
                  receiver_closed := receiver_closed w |}
      | _ => None
      end
  | Ev_panic i =>
      match tasks w !! i with
      | Some (Running op) =>
          Some {| lanes := lanes w; tasks := <[i := Panicked op]> (tasks w); written := written w; saved := saved w;
                  fates := fates w ++ drop_sender (kind_reply (op_kind op)); now := now w;
                  receiver_closed := receiver_closed w |}
      | _ => None
      end
  | Ev_join i =>
      match tasks w !! i with
      | Some (Panicked _) =>
          Some {| lanes := lanes w; tasks := delete i (tasks w); written := written w; saved := saved w;
                  fates := fates w; now := now w; receiver_closed := receiver_closed w |}
      | Some (Finished completed) =>
          let '(m, fs) := handle_completed_dispatch completed (now w) (lanes w) in
          Some {| lanes := m; tasks := delete i (tasks w); written := written w; saved := saved w; fates := fates w ++ fs; now := now w;
                  receiver_closed := receiver_closed w |}
      | _ => None
      end
  | Ev_clock t =>
      if now w <=? t then
        Some {| lanes := lanes w; tasks := tasks w; written := written w; saved := saved w; fates := fates w; now := t;
                receiver_closed := receiver_closed w |}
      else None
  end.

(** The condition under which [run_player_persistence_worker] returns. *)
Definition worker_returns (w : Worker) : bool :=
  receiver_closed w && bool_decide (tasks w = []) && bool_decide (lanes w = ∅).

(** ** Histories: the snapshots accepted, the senders received and the
    operations whose task panicked so far *)
Record History : Type := {
  accepted : list PlayerSnapshot; requested : list Sender; panicked : list DispatchOp }.
Definition no_history : History := {| accepted := []; requested := []; panicked := [] |}.

Definition request_snapshot (r : PlayerPersistenceRequest) : PlayerSnapshot :=
  match r with SaveSnapshot s _ _ | CommitPlayerExit _ _ _ _ s _ => s end.
Definition request_senders (r : PlayerPersistenceRequest) : list Sender :=
  match r with SaveSnapshot _ _ reply => option_list reply | CommitPlayerExit _ _ _ _ _ reply => [reply] end.

(** A save is turned away while the player's exit is pending. *)
Definition accepts (m : Lanes) (r : PlayerPersistenceRequest) : bool :=
  match r with
  | SaveSnapshot s _ _ => bool_decide (m !! player_id s ≫= pending_exit = None)
  | CommitPlayerExit _ _ _ _ _ _ => true
  end.

Definition observe (w : Worker) (ev : Event) (h : History) : History :=
  match ev with
  | Ev_request (Some r) =>
      {| accepted := if accepts (lanes w) r then accepted h ++ [request_snapshot r] else accepted h;
         requested := requested h ++ request_senders r; panicked := panicked h |}
  | Ev_panic i =>
      match tasks w !! i with
      | Some (Running op) =>
          {| accepted := accepted h; requested := requested h; panicked := panicked h ++ [op] |}
      | _ => h
      end
  | _ => h
  end.

Inductive reachable (t : Z) : Worker -> History -> Prop :=
| reachable_new : reachable t (Worker_new t) no_history
| reachable_step w h ev w' : reachable t w h -> worker_step w ev = Some w' -> reachable t w' (observe w ev h).

(** ** One player's part of the state *)
Definition task_player (t : Task) : PlayerId :=
  match t with Running op | Panicked op => op_player_id op | Finished c => done_player_id c end.
Definition kind_snapshot (k : DispatchKind) : PlayerSnapshot :=
  match k with Dispatch_Save s _ _ => s | Dispatch_CommitPlayerExit e => exit_snapshot e end.
Definition task_kind (t : Task) : DispatchKind :=
  match t with Running op | Panicked op => op_kind op | Finished c => done_kind c end.
Definition task_snapshot (t : Task) : PlayerSnapshot := kind_snapshot (task_kind t).
Definition done_snapshot (c : CompletedDispatch) : PlayerSnapshot := kind_snapshot (done_kind c).
Definition pending_snapshot (lane : Lane) : option PlayerSnapshot :=
  match pending_exit lane with Some e => Some (exit_snapshot e) | None => save_snapshot <$> pending_save lane end.

Definition accepted_of (id : PlayerId) (l : list PlayerSnapshot) : list PlayerSnapshot :=
  filter (fun s => player_id s = id) l.
Definition written_of (id : PlayerId) (l : list CompletedDispatch) : list CompletedDispatch :=
  filter (fun c => done_player_id c = id) l.
Definition tasks_of (id : PlayerId) (l : list Task) : list Task := filter (fun t => task_player t = id) l.
Definition panicked_of (id : PlayerId) (l : list DispatchOp) : list DispatchOp :=
  filter (fun op => op_player_id op = id) l.

Definition running_snapshots (ts : list Task) : list PlayerSnapshot :=
  flat_map (fun t => match t with Running op => [kind_snapshot (op_kind op)] | _ => [] end) ts.

(** A failed autosave, which its join queues again. *)
Definition to_retry (c : CompletedDispatch) : bool :=
  match done_kind c, done_result c with Dispatch_Save _ Autosave _, Err _ => true | _, _ => false end.

(** What may still be saved: by a task, or after its retry. *)
Definition unsaved_snapshots (ts : list Task) : list PlayerSnapshot :=
  flat_map (fun t =>
    match t with
    | Running op => [kind_snapshot (op_kind op)]
    | Finished c => if to_retry c then [done_snapshot c] else []
    | Panicked _ => []
    end) ts.

(** The database answered the attempt, and did not save: the owner was stale, or
    the write failed. *)
Definition refused (c : CompletedDispatch) : Prop := exists db op, c = run_op db op /\ db_confirms db op = false.

(** [in_order ws acc]: [ws] is read off [acc] going forward, an element possibly
    several times in a row. *)
Inductive in_order {A} : list A -> list A -> Prop :=
| in_order_nil acc : in_order [] acc
| in_order_here a ws acc : in_order ws (a :: acc) -> in_order (a :: ws) (a :: acc)
| in_order_skip a ws acc : in_order ws acc -> in_order ws (a :: acc).
#[export] Hint Constructors in_order : rust.

Lemma in_order_accept {A} (ws acc : list A) a : in_order ws acc -> in_order ws (acc ++ [a]).
Proof. induction 1; cbn; auto with rust. Qed.

Lemma in_order_last {A} (a : A) : in_order [a] [a].
Proof. auto with rust. Qed.

Lemma in_order_write {A} (ws acc : list A) a : in_order ws acc -> last acc = Some a -> in_order (ws ++ [a]) acc.
Proof.
  intros H L. induction H as [acc | b ws acc _ IH | b ws acc H IH]; cbn [app].
  - induction acc as [| b acc IH]; [done |]. destruct acc as [| c acc].
    + cbn in L. injection L as ->. apply in_order_last.
    + apply in_order_skip, IH. exact L.
  - apply in_order_here, IH, L.
  - destruct acc as [| c acc]; [| apply in_order_skip, IH; exact L].
    cbn in L. injection L as ->. inversion H; subst. apply in_order_last.
Qed.

Lemma in_order_app_l {A} (ws l acc : list A) : in_order (ws ++ l) acc -> in_order ws acc.
Proof.
  remember (ws ++ l) as wl eqn:E. intros H. revert ws E.
  induction H as [acc | a wl acc _ IH | a wl acc _ IH]; intros ws E.
  - destruct ws; [constructor | done].
  - destruct ws as [| b ws]; [constructor |]. injection E as <- E. by apply in_order_here, IH.
  - by apply in_order_skip, IH.
Qed.

(** A lane in flight has one task, or its task panicked and was joined. *)
Record player_inv (ol : option Lane) (ts : list Task) (ws sv : list CompletedDispatch) (pk : list DispatchOp)
    (acc : list PlayerSnapshot) : Prop := {
  pi_tasks : match ol with
             | None => ts = []
             | Some lane =>
                 if in_flight lane then (exists t, ts = [t]) \/ (ts = [] /\ pk <> [])
                 else ts = [] /\ is_Some (pending_snapshot lane)
             end;
  pi_pending : forall s, ol ≫= pending_snapshot = Some s -> last acc = Some s;
  pi_exit : is_Some (ol ≫= pending_exit) -> ol ≫= pending_save = None;
  pi_task : forall t, t ∈ ts -> ol ≫= pending_snapshot = None -> last acc = Some (task_snapshot t);
  pi_done : forall c, Finished c ∈ ts -> last ws = Some c;
  pi_quiet : ol = None ->
    last acc = done_snapshot <$> last ws /\ (forall c, last ws = Some c -> to_retry c = false);
  pi_order : in_order ((done_snapshot <$> ws) ++ running_snapshots ts) acc;
  pi_saved : sublist ((done_snapshot <$> sv) ++ unsaved_snapshots ts ++ option_list (ol ≫= pending_snapshot)) acc;
  pi_last : forall c, last ws = Some c -> last sv = Some c \/ refused c;
  pi_stuck : pk <> [] -> from_option in_flight false ol = true /\ forall t, t ∈ ts -> exists op, t = Panicked op;
  pi_gone : forall op, Panicked op ∈ ts -> op ∈ pk;
  pi_panicked : forall op, op ∈ pk -> ol ≫= pending_snapshot = None -> last acc = Some (kind_snapshot (op_kind op)) }.

(** ** Each event on the player's part *)
Lemma next_dispatch_spec lane op lane' :
  next_dispatch lane = (Some op, lane') ->
  pending_snapshot lane = Some (kind_snapshot (op_kind op)) /\ op_player_id op = player_id (kind_snapshot (op_kind op)) /\
  pending_exit lane' = None /\ in_flight lane' = in_flight lane /\
  ((is_Some (pending_exit lane) -> pending_save lane = None) -> pending_save lane' = None).
Proof.
  unfold next_dispatch, pending_snapshot. destruct (pending_exit lane) as [e |].
  - intros [= <- <-]. cbn. split_and!; try done. intros H. apply H. by eexists.
  - destruct (pending_save lane) as [s |]; cbn; [| done]. intros [= <- <-]. by split_and!.
Qed.

Lemma inv_accept ol lane' ts ws sv pk acc s :
  player_inv ol ts ws sv pk acc -> in_flight lane' = from_option in_flight false ol ->
  pending_snapshot lane' = Some s ->
  (is_Some (pending_exit lane') -> pending_save lane' = None) ->
  player_inv (Some lane') ts ws sv pk (acc ++ [s]).
Proof.
  intros [P1 P2 P3 P4 P5 P6 P7 P8 P9 P10 P11 P12] Hf Hs He. split; cbn.
  - rewrite Hf. destruct ol as [lane |]; cbn; [destruct (in_flight lane); [done |] |].
    + destruct P1. split; [done | by eexists].
    + split; [done | by eexists].
  - intros s' E. rewrite last_snoc. congruence.
  - exact He.
  - intros t _ E. congruence.
  - exact P5.
  - done.
  - by apply in_order_accept.
  - rewrite Hs, app_assoc. apply sublist_app; [| done]. etrans; [| exact P8]. apply sublist_app; [done |].
    by apply sublist_inserts_r.
  - exact P9.
  - intros N. split; [rewrite Hf; by apply P10 | by apply P10].
  - exact P11.
  - intros op _ E. congruence.
Qed.

(** A player whose lane is not in flight, or who has a task that did not panic,
    has no panicked operation. *)
Lemma inv_not_panicked ol ts ws sv pk acc :
  player_inv ol ts ws sv pk acc ->
  from_option in_flight false ol = false \/ (exists t, t ∈ ts /\ forall op, t <> Panicked op) -> pk = [].
Proof.
  intros P H. destruct pk as [| op pk]; [done |]. destruct (pi_stuck _ _ _ _ _ _ P) as [F T]; [done |].
  destruct H as [H | (t & Ht & N)]; [congruence |]. destruct (T t Ht) as [op' ->]. by destruct (N op').
Qed.

Lemma inv_dispatch lane op lane' ws sv pk acc :
  player_inv (Some lane) [] ws sv pk acc -> in_flight lane = false -> next_dispatch lane = (Some op, lane') ->
  player_inv (Some (set_in_flight lane' true)) [Running op] ws sv pk acc.
Proof.
  intros P Hf E. assert (pk = []) as -> by (eapply inv_not_panicked; [exact P | by left]).
  destruct P as [P1 P2 P3 P4 P5 P6 P7 P8 P9 P10 P11 P12].
  destruct (next_dispatch_spec _ _ _ E) as (Es & _ & Ee & _ & Ev).
  specialize (Ev P3). cbn in P2. specialize (P2 _ Es).
  assert (pending_snapshot (set_in_flight lane' true) = None) as En by (unfold pending_snapshot; cbn; by rewrite Ee, Ev).
  split; cbn; try done.
  - left. by eexists.
  - intros s H. congruence.
  - intros t Ht _. apply list_elem_of_singleton in Ht as ->. exact P2.
  - intros c Hc. by apply list_elem_of_singleton in Hc.
  - cbn in P7. rewrite app_nil_r in P7. by apply in_order_write.
  - rewrite En. cbn in P8. rewrite Es in P8. exact P8.
  - intros op' Hop. by apply list_elem_of_singleton in Hop.
  - by intros op' Hop%not_elem_of_nil.
Qed.

Lemma run_op_to_retry db op : to_retry (run_op db op) = true -> db_confirms db op = false.
Proof.
  unfold to_retry, db_confirms, run_op. cbn. destruct (op_kind op) as [s [|] r | e]; [| done | done].
  by destruct (db_save_player_snapshot db s) as [[|] |].
Qed.

Lemma inv_run ol op db ws sv pk acc :
  player_inv ol [Running op] ws sv pk acc ->
  player_inv ol [Finished (run_op db op)] (ws ++ [run_op db op])
    (if db_confirms db op then sv ++ [run_op db op] else sv) pk acc.
Proof.
  intros P. assert (pk = []) as -> by (eapply inv_not_panicked; [exact P | right; eexists; split; [by left | done]]).
  destruct P as [P1 P2 P3 P4 P5 P6 P7 P8 P9 P10 P11 P12]. split; try done.
  - destruct ol as [lane |]; [| done]. destruct (in_flight lane); [left; by eexists | by destruct P1].
  - intros t Ht. apply list_elem_of_singleton in Ht as ->. apply (P4 (Running op)). by apply list_elem_of_singleton.
  - intros c Hc. apply list_elem_of_singleton in Hc as [= ->]. apply last_snoc.
  - intros ->. done.
  - rewrite fmap_app. cbn. rewrite app_nil_r. exact P7.
  - cbn in *. destruct (to_retry (run_op db op)) eqn:Er.
    + by rewrite (run_op_to_retry _ _ Er).
    + destruct (db_confirms db op); cbn; [by rewrite fmap_app, <- app_assoc |].
      etrans; [| exact P8]. apply sublist_app; [done |]. by apply sublist_cons.
  - intros c. rewrite last_snoc. intros [= <-]. destruct (db_confirms db op) eqn:Ec; [left; apply last_snoc |].
    right. by exists db, op.
  - intros op' Hop. by apply list_elem_of_singleton in Hop.
Qed.

Lemma inv_panic ol op ws sv pk acc :
  player_inv ol [Running op] ws sv pk acc -> player_inv ol [Panicked op] ws sv (pk ++ [op]) acc.
Proof.
  intros P. assert (pk = []) as -> by (eapply inv_not_panicked; [exact P | right; eexists; split; [by left | done]]).
  destruct P as [P1 P2 P3 P4 P5 P6 P7 P8 P9 P10 P11 P12].
  assert (ol ≫= pending_snapshot = None -> last acc = Some (kind_snapshot (op_kind op))) as La.
  { apply (P4 (Running op)). by apply list_elem_of_singleton. }
  assert (exists lane, ol = Some lane /\ in_flight lane = true) as (lane & -> & Hf).
  { destruct ol as [lane |]; [| done]. exists lane. split; [done |]. destruct (in_flight lane); [done | by destruct P1]. }
  split; try done; cbn.
  - rewrite Hf. left. by eexists.
  - intros t ->%list_elem_of_singleton. exact La.
  - intros c Hc. by apply list_elem_of_singleton in Hc.
  - rewrite app_nil_r. exact (in_order_app_l _ _ _ P7).
  - cbn in P8. etrans; [| exact P8]. apply sublist_app; [done |]. by apply sublist_cons.
  - intros _. split; [done |]. intros t ->%list_elem_of_singleton. by eexists.
  - intros op' Hop. apply list_elem_of_singleton in Hop as [= ->]. by apply list_elem_of_singleton.
  - intros op' ->%list_elem_of_singleton. exact La.
Qed.

(** The join of a panicked task changes no lane. *)
Lemma inv_join_panicked ol op ws sv pk acc :
  player_inv ol [Panicked op] ws sv pk acc -> player_inv ol [] ws sv pk acc.
Proof.
  intros [P1 P2 P3 P4 P5 P6 P7 P8 P9 P10 P11 P12].
  assert (pk <> []) as N by (intros ->; eapply not_elem_of_nil, (P11 op), list_elem_of_singleton; done).
  destruct (P10 N) as [Hf _]. destruct ol as [lane |]; [| done]. cbn in Hf.
  split; try done; cbn.
  - rewrite Hf. by right.
  - by intros t Ht%not_elem_of_nil.
  - by intros c Hc%not_elem_of_nil.
  - intros _. split; [done |]. by intros t Ht%not_elem_of_nil.
  - by intros op' Hop%not_elem_of_nil.
Qed.

Lemma pending_snapshot_None lane :
  pending_snapshot lane = None <-> pending_exit lane = None /\ pending_save lane = None.
Proof. unfold pending_snapshot. destruct (pending_exit lane), (pending_save lane); cbn; intuition congruence. Qed.

(** A completed lane keeps what is pending, or queues the failed autosave. *)
Lemma complete_lane_spec c t lane lane' fs :
  complete_lane c t lane = (lane', fs) ->
  in_flight lane' = false /\ pending_exit lane' = pending_exit lane /\
  (pending_save lane' = pending_save lane \/
   pending_snapshot lane = None /\ pending_snapshot lane' = Some (done_snapshot c)).
Proof.
  unfold complete_lane, done_snapshot. destruct (done_kind c) as [s [|] reply | e]; [| intros [= <- <-]; auto ..].
  destruct (done_result c); [intros [= <- <-]; auto |].
  destruct (_ || _)%bool eqn:E; [intros [= <- <-]; auto |].
  apply orb_false_iff in E as [E1 E2]. apply bool_decide_eq_false in E1, E2.
  apply eq_None_not_Some in E1, E2. cbn in E1, E2. intros [= <- <-]. cbn. split_and!; try done.
  right. rewrite pending_snapshot_None. unfold pending_snapshot. cbn. by rewrite E1, E2.
Qed.

Lemma is_idle_pending lane : in_flight lane = false -> is_idle lane = true <-> pending_snapshot lane = None.
Proof.
  intros H. unfold is_idle. rewrite H, pending_snapshot_None. cbn.
  rewrite andb_true_iff, !bool_decide_eq_true. tauto.
Qed.

(** A lane that is idle after the join queued no retry. *)
Lemma idle_no_retry c t lane lane' fs :
  complete_lane c t lane = (lane', fs) -> is_idle lane' = true -> to_retry c = false.
Proof.
  unfold complete_lane, to_retry. destruct (done_kind c) as [s [|] reply | e]; [| done | done].
  destruct (done_result c) as [u | err]; [done |]. destruct (_ || _)%bool eqn:E; intros [= <- _] I; exfalso; revert I.
  - unfold is_idle. cbn. apply orb_true_iff in E as [[x E]%bool_decide_eq_true | [x E]%bool_decide_eq_true]; cbn in E.
    + rewrite (bool_decide_eq_false_2 (pending_exit lane = None)) by congruence. by rewrite andb_false_r.
    + by rewrite (bool_decide_eq_false_2 (pending_save lane = None)) by congruence.
  - done.
Qed.

(** What is pending after the join was pending before, or is the retry. *)
Lemma join_unsaved c t lane lane' fs :
  complete_lane c t lane = (lane', fs) ->
  sublist (option_list (pending_snapshot lane'))
    ((if to_retry c then [done_snapshot c] else []) ++ option_list (pending_snapshot lane)).
Proof.
  unfold complete_lane, to_retry, done_snapshot, pending_snapshot. destruct (done_kind c) as [s [|] reply | e];
    [| by intros [= <- _] | by intros [= <- _]].
  destruct (done_result c) as [u | err]; [by intros [= <- _] |].
  destruct (_ || _)%bool eqn:E; intros [= <- _]; cbn; [by apply sublist_cons |].
  apply orb_false_iff in E as [E1 E2]. apply bool_decide_eq_false in E1, E2. cbn in E1, E2.
  apply eq_None_not_Some in E1, E2. by rewrite E1, E2.
Qed.

Lemma inv_join lane c t lane' fs ws sv pk acc :
  player_inv (Some lane) [Finished c] ws sv pk acc -> complete_lane c t lane = (lane', fs) ->
  player_inv (if is_idle lane' then None else Some lane') [] ws sv pk acc.
Proof.
  intros P E. assert (pk = []) as -> by (eapply inv_not_panicked; [exact P | right; eexists; split; [by left | done]]).
  destruct P as [P1 P2 P3 P4 P5 P6 P7 P8 P9 P10 P11 P12]. destruct (complete_lane_spec _ _ _ _ _ E) as (Hf & Ee & Hp).
  cbn in *. rewrite app_nil_r in P7.
  assert (last ws = Some c) as Lw by (apply P5; by apply list_elem_of_singleton).
  assert (pending_snapshot lane = None -> last acc = Some (done_snapshot c)) as La.
  { intros En. by apply (P4 (Finished c)); [apply list_elem_of_singleton |]. }
  assert (forall s, pending_snapshot lane' = Some s -> last acc = Some s) as Hs.
  { intros s Es. destruct Hp as [Ep | [En Ec]].
    - apply P2. unfold pending_snapshot in *. by rewrite <- Ee, <- Ep.
    - rewrite Ec in Es. injection Es as <-. by apply La. }
  assert (sublist ((done_snapshot <$> sv) ++ option_list (pending_snapshot lane')) acc) as P8'.
  { etrans; [| exact P8]. apply sublist_app; [done |]. rewrite app_nil_r. exact (join_unsaved _ _ _ _ _ E). }
  destruct (is_idle lane') eqn:Ei.
  - pose proof (idle_no_retry _ _ _ _ _ E Ei) as Hr.
    apply is_idle_pending in Ei; [| done]. rewrite Ei in P8'. split; cbn; try done; [.. | by rewrite app_nil_r | |].
    + by intros t' Ht%not_elem_of_nil.
    + by intros c' Hc%not_elem_of_nil.
    + intros _. rewrite Lw. cbn. split; [| by intros c' [= <-]]. apply La. destruct Hp as [Ep | [En Ec]]; [| congruence].
      apply pending_snapshot_None in Ei as [? ?]. apply pending_snapshot_None. by rewrite <- Ep, <- Ee.
    + by intros op Hop%not_elem_of_nil.
    + by intros op Hop%not_elem_of_nil.
  - split; cbn; [| done | | | | done | by rewrite app_nil_r | done | done | done | |].
    + rewrite Hf. split; [done |]. destruct (pending_snapshot lane') eqn:En; [by eexists |].
      apply is_idle_pending in En; [congruence | done].
    + rewrite Ee. intros [e He]. destruct Hp as [-> | [En _]]; [apply P3; by eexists |].
      apply pending_snapshot_None in En. destruct En; congruence.
    + by intros t' Ht%not_elem_of_nil.
    + by intros c' Hc%not_elem_of_nil.
    + by intros op Hop%not_elem_of_nil.
    + by intros op Hop%not_elem_of_nil.
Qed.

(** ** The worker's invariant *)
Record worker_inv (m : Lanes) (ts : list Task) (ws sv : list CompletedDispatch) (pk : list DispatchOp)
    (acc : list PlayerSnapshot) : Prop := {
  wi_player : forall id,
    player_inv (m !! id) (tasks_of id ts) (written_of id ws) (written_of id sv) (panicked_of id pk) (accepted_of id acc);
  wi_bound : (length ts <= MAX_CONCURRENT_SAVES)%nat }.

Lemma last_accepted_of id acc s : last (accepted_of id acc) = Some s -> player_id s = id.
Proof. intros H%last_Some_elem_of. by apply list_elem_of_filter in H as [? _]. Qed.

Lemma pending_player m ts ws sv pk acc id lane s :
  worker_inv m ts ws sv pk acc -> m !! id = Some lane -> pending_snapshot lane = Some s -> player_id s = id.
Proof.
  intros [P _] El Es. apply (last_accepted_of id acc), (pi_pending _ _ _ _ _ _ (P id)). rewrite El. exact Es.
Qed.

(** A task in the list, and the lists with it replaced or taken out. *)
Lemma task_at (ts : list Task) i t t' :
  ts !! i = Some t ->
  exists l1 l2, ts = l1 ++ t :: l2 /\ <[i := t']> ts = l1 ++ t' :: l2 /\ delete i ts = l1 ++ l2.
Proof.
  intros H. exists (take i ts), (drop (S i) ts). split; [by rewrite take_drop_middle |].
  split; [apply insert_take_drop; by eapply lookup_lt_Some | apply delete_take_drop].
Qed.

Lemma tasks_of_app id l1 l2 : tasks_of id (l1 ++ l2) = tasks_of id l1 ++ tasks_of id l2.
Proof. apply filter_app. Qed.
Lemma tasks_of_here id t l : task_player t = id -> tasks_of id (t :: l) = t :: tasks_of id l.
Proof. intros H. unfold tasks_of. by rewrite filter_cons_True. Qed.
Lemma tasks_of_other id t l : task_player t <> id -> tasks_of id (t :: l) = tasks_of id l.
Proof. intros H. unfold tasks_of. by rewrite filter_cons_False. Qed.

(** At most one task is its player's. *)
Lemma only_task ol l1 t l2 ws sv pk acc :
  player_inv ol (tasks_of (task_player t) (l1 ++ t :: l2)) ws sv pk acc ->
  tasks_of (task_player t) l1 = [] /\ tasks_of (task_player t) l2 = [] /\
  exists lane, ol = Some lane /\ in_flight lane = true.
Proof.
  intros P%pi_tasks. rewrite tasks_of_app, tasks_of_here in P by done.
  destruct ol as [lane |]; [| by destruct (tasks_of _ l1)].
  destruct (in_flight lane) eqn:E; [| by destruct P, (tasks_of (task_player t) l1)].
  destruct P as [[t' P] | [P _]]; [| by destruct (tasks_of (task_player t) l1)].
  destruct (tasks_of (task_player t) l1) as [| ? [|]], (tasks_of (task_player t) l2); try discriminate P. eauto.
Qed.

Lemma next_dispatch_ready lane : is_Some (pending_snapshot lane) -> exists op lane', next_dispatch lane = (Some op, lane').
Proof.
  unfold pending_snapshot, next_dispatch. destruct (pending_exit lane), (pending_save lane); cbn; eauto. by intros [? ?].
Qed.

Lemma dispatch_loop_inv ids m ts ws sv pk acc m' ts' :
  worker_inv m ts ws sv pk acc -> NoDup ids -> (forall id lane, id ∈ ids -> m !! id = Some lane -> in_flight lane = false) ->
  dispatch_loop ids m ts = (m', ts') -> worker_inv m' ts' ws sv pk acc.
Proof.
  revert m ts. induction ids as [| id ids IH]; intros m ts W N F; cbn [dispatch_loop]; [by intros [= <- <-] |].
  apply NoDup_cons in N as [Nid N].
  destruct (MAX_CONCURRENT_SAVES <=? length ts)%nat eqn:B; [by intros [= <- <-] |]. apply Nat.leb_gt in B.
  assert (forall id' lane, id' ∈ ids -> m !! id' = Some lane -> in_flight lane = false) as F'.
  { intros id' lane H. apply F. by right. }
  destruct (m !! id) as [lane |] eqn:El; [| by apply IH].
  pose proof (F id lane ltac:(by left) El) as Hf.
  pose proof (wi_player _ _ _ _ _ _ W id) as P. rewrite El in P.
  pose proof (pi_tasks _ _ _ _ _ _ P) as Pt. cbn in Pt. rewrite Hf in Pt. destruct Pt as [Et Es].
  destruct (next_dispatch_ready lane Es) as (op & lane' & En). rewrite En. rewrite Et in P.
  destruct (next_dispatch_spec _ _ _ En) as (Ep & Eid & _).
  assert (op_player_id op = id) as Eop.
  { rewrite Eid. by apply (pending_player m ts ws sv pk acc id lane). }
  apply IH; [| done |].
  - split; [| rewrite length_app; cbn; unfold MAX_CONCURRENT_SAVES in *; lia].
    intros id'. rewrite tasks_of_app. destruct (decide (id' = id)) as [-> | Ne].
    + rewrite lookup_insert_eq, Et. unfold tasks_of. rewrite filter_cons_True by done. cbn. by apply (inv_dispatch lane).
    + rewrite lookup_insert_ne by done. rewrite tasks_of_other by (cbn; congruence). cbn. rewrite app_nil_r.
      apply (wi_player _ _ _ _ _ _ W).
  - intros id' lane'' Hin. rewrite lookup_insert_ne by (intros ->; done). by apply F'.
Qed.

(** What a request does to the lanes. *)
Lemma handle_request_lanes r m m' fs :
  handle_request r m = (m', fs) ->
  if accepts m r then
    exists lane', m' = <[player_id (request_snapshot r) := lane']> m /\
      in_flight lane' = from_option in_flight false (m !! player_id (request_snapshot r)) /\
      pending_snapshot lane' = Some (request_snapshot r) /\ (is_Some (pending_exit lane') -> pending_save lane' = None)
  else m' = m.
Proof.
  destruct r as [s u reply | k un si ci s reply]; cbn [handle_request accepts request_snapshot].
  - destruct (m !! player_id s) as [lane |] eqn:El; cbn [from_option id mbind option_bind].
    + destruct (pending_exit lane) eqn:Ee.
      * intros [= <- _]. rewrite bool_decide_eq_false_2 by done. by apply insert_id.
      * rewrite bool_decide_eq_true_2 by done.
        destruct (pending_save lane); [destruct u, reply, (save_reply p) |]; intros [= <- _];
          (eexists; split; [done |]; unfold pending_snapshot; cbn; rewrite ?Ee; cbn; split_and!; try done; by intros [? ?]).
    + rewrite bool_decide_eq_true_2 by done. cbn. intros [= <- _].
      eexists. split; [done |]. unfold pending_snapshot. cbn. by split_and!.
  - intros [= <- _]. eexists. split; [done |]. cbn. split_and!; try done. by destruct (m !! player_id s).
Qed.

Lemma accepted_of_app id l s :
  accepted_of id (l ++ [s]) = accepted_of id l ++ (if decide (player_id s = id) then [s] else []).
Proof. unfold accepted_of. by rewrite filter_app. Qed.
Lemma written_of_app id l c :
  written_of id (l ++ [c]) = written_of id l ++ (if decide (done_player_id c = id) then [c] else []).
Proof. unfold written_of. by rewrite filter_app. Qed.

Lemma handle_request_inv r m ts ws sv pk acc m' fs :
  worker_inv m ts ws sv pk acc -> handle_request r m = (m', fs) ->
  worker_inv m' ts ws sv pk (if accepts m r then acc ++ [request_snapshot r] else acc).
Proof.
  intros [P B] E. pose proof (handle_request_lanes r m m' fs E) as H.
  destruct (accepts m r); [| by subst]. destruct H as (lane' & -> & Hf & Hs & He). split; [| done].
  intros id. rewrite accepted_of_app. destruct (decide (player_id (request_snapshot r) = id)) as [<- | Ne].
  - rewrite lookup_insert_eq. by apply (inv_accept (m !! player_id (request_snapshot r))).
  - rewrite lookup_insert_ne, app_nil_r by done. apply P.
Qed.

(** A task of one player is replaced: the other players' tasks are the same, and
    it was this player's only one. *)
Lemma task_inv (ol : option Lane) (ts : list Task) i t t' id (Q : list Task -> Prop) :
  ts !! i = Some t -> task_player t' = task_player t ->
  (task_player t = id -> forall l1 l2, ts = l1 ++ t :: l2 -> tasks_of id l1 = [] /\ tasks_of id l2 = []) ->
  (task_player t = id -> tasks_of id ts = [t] -> Q [t']) ->
  (task_player t <> id -> Q (tasks_of id ts)) -> Q (tasks_of id (<[i := t']> ts)).
Proof.
  intros Hi Et Ho Hh Hn. destruct (task_at ts i t t' Hi) as (l1 & l2 & E & -> & _). rewrite E in Hh, Hn.
  destruct (decide (task_player t = id)) as [Eid | Ne].
  - destruct (Ho Eid l1 l2 E) as [E1 E2]. rewrite !tasks_of_app, !tasks_of_here, E1, E2 in * by congruence. by apply Hh.
  - rewrite !tasks_of_app, !tasks_of_other in * by congruence. by apply Hn.
Qed.

Lemma running_only ol ts op ws sv pk acc :
  player_inv ol (tasks_of (op_player_id op) ts) ws sv pk acc -> forall l1 l2, ts = l1 ++ Running op :: l2 ->
  tasks_of (op_player_id op) l1 = [] /\ tasks_of (op_player_id op) l2 = [].
Proof. intros P l1 l2 ->. by destruct (only_task _ l1 (Running op) l2 _ _ _ _ P) as (E1 & E2 & _). Qed.

Lemma run_inv i op db m ts ws sv pk acc :
  worker_inv m ts ws sv pk acc -> ts !! i = Some (Running op) ->
  worker_inv m (<[i := Finished (run_op db op)]> ts) (ws ++ [run_op db op])
    (if db_confirms db op then sv ++ [run_op db op] else sv) pk acc.
Proof.
  intros [P B] Hi. split; [| by rewrite length_insert]. intros id. specialize (P id).
  apply (task_inv (m !! id) ts i (Running op)); try done; cbn [task_player].
  - intros <-. by eapply running_only.
  - intros <- E. rewrite E in P. pose proof (inv_run _ _ db _ _ _ _ P) as H.
    rewrite written_of_app, decide_True by done. destruct (db_confirms db op); [| done].
    by rewrite written_of_app, decide_True by done.
  - intros Ne. rewrite written_of_app, decide_False, app_nil_r by done. destruct (db_confirms db op); [| done].
    by rewrite written_of_app, decide_False, app_nil_r by done.
Qed.

Lemma panicked_of_app id l op :
  panicked_of id (l ++ [op]) = panicked_of id l ++ (if decide (op_player_id op = id) then [op] else []).
Proof. unfold panicked_of. by rewrite filter_app. Qed.

Lemma panic_inv i op m ts ws sv pk acc :
  worker_inv m ts ws sv pk acc -> ts !! i = Some (Running op) ->
  worker_inv m (<[i := Panicked op]> ts) ws sv (pk ++ [op]) acc.
Proof.
  intros [P B] Hi. split; [| by rewrite length_insert]. intros id. specialize (P id).
  apply (task_inv (m !! id) ts i (Running op)); try done; cbn [task_player].
  - intros <-. by eapply running_only.
  - intros <- E. rewrite E in P. rewrite panicked_of_app, decide_True by done. by apply inv_panic.
  - intros Ne. by rewrite panicked_of_app, decide_False, app_nil_r by done.
Qed.

Lemma join_panicked_inv i op m ts ws sv pk acc :
  worker_inv m ts ws sv pk acc -> ts !! i = Some (Panicked op) -> worker_inv m (delete i ts) ws sv pk acc.
Proof.
  intros [P B] Hi. destruct (task_at ts i _ (Panicked op) Hi) as (l1 & l2 & Et & _ & ->).
  split; [| rewrite Et, !length_app in B; cbn in B; rewrite length_app; lia].
  intros id. specialize (P id). rewrite Et in P. destruct (decide (op_player_id op = id)) as [<- | Ne].
  - destruct (only_task _ l1 (Panicked op) l2 _ _ _ _ P) as (E1 & E2 & _). cbn in E1, E2.
    rewrite tasks_of_app, tasks_of_here, E1, E2 in P by done. rewrite tasks_of_app, E1, E2.
    by apply (inv_join_panicked _ op).
  - by rewrite tasks_of_app, tasks_of_other, <- tasks_of_app in P by done.
Qed.

Lemma join_inv i c t m ts ws sv pk acc m' fs :
  worker_inv m ts ws sv pk acc -> ts !! i = Some (Finished c) -> handle_completed_dispatch c t m = (m', fs) ->
  worker_inv m' (delete i ts) ws sv pk acc.
Proof.
  intros [P B] Hi E. destruct (task_at ts i _ (Finished c) Hi) as (l1 & l2 & Et & _ & ->).
  split; [| rewrite Et, !length_app in B; cbn in B; rewrite length_app; lia].
  pose proof (P (done_player_id c)) as Pc. rewrite Et in Pc.
  destruct (only_task _ l1 (Finished c) l2 _ _ _ _ Pc) as (E1 & E2 & lane & El & _). cbn in E1, E2, El.
  unfold handle_completed_dispatch in E. rewrite El in E.
  destruct (complete_lane c t lane) as [lane' fs'] eqn:Ec. injection E as <- <-.
  intros id. destruct (decide (done_player_id c = id)) as [<- | Ne].
  - rewrite tasks_of_app, tasks_of_here, E1, E2, El in Pc by done. rewrite tasks_of_app, E1, E2. cbn [app] in *.
    pose proof (inv_join lane c t lane' fs' _ _ _ _ Pc Ec) as H.
    destruct (is_idle lane'); [by rewrite lookup_delete_eq | by rewrite lookup_insert_eq].
  - specialize (P id). rewrite Et, tasks_of_app, tasks_of_other, <- tasks_of_app in P by done.
    destruct (is_idle lane'); [by rewrite lookup_delete_ne | by rewrite lookup_insert_ne].
Qed.

(** ** Ready lanes *)
Lemma ready_player_ids_perm iter t :
  ready_player_ids iter t ≡ₚ omap (fun '(id, lane) => (fun _ => id) <$> lane_priority lane t) iter.
Proof.
  unfold ready_player_ids. rewrite merge_sort_Permutation. apply reflexive_eq.
  induction iter as [| [id lane] iter IH]; [done |]. cbn. destruct (lane_priority lane t); cbn; [by f_equal | exact IH].
Qed.

Lemma elem_of_ready iter t id :
  id ∈ ready_player_ids iter t <-> exists lane, (id, lane) ∈ iter /\ is_Some (lane_priority lane t).
Proof.
  rewrite ready_player_ids_perm, list_elem_of_omap. split.
  - intros ([x lane] & Hx & E). destruct (lane_priority lane t) eqn:El; [| done]. injection E as ->. eauto.
  - intros (lane & Hin & [p Hp]). exists (id, lane). by rewrite Hp.
Qed.

Lemma ready_NoDup iter t : NoDup (fst <$> iter) -> NoDup (ready_player_ids iter t).
Proof.
  intros N. rewrite ready_player_ids_perm. induction iter as [| [id lane] iter IH]; [constructor |].
  cbn in N. apply NoDup_cons in N as [Nid N]. cbn. destruct (lane_priority lane t) as [p |]; cbn; [| by apply IH].
  constructor; [| by apply IH]. intros ([x l] & Hx & E)%list_elem_of_omap.
  destruct (lane_priority l t); [| done]. injection E as ->. apply Nid. apply list_elem_of_fmap. by exists (id, l).
Qed.

Lemma lane_priority_free lane t : is_Some (lane_priority lane t) -> in_flight lane = false.
Proof. unfold lane_priority. destruct (in_flight lane); [by intros [? ?] | done]. Qed.

Lemma dispatch_inv order t m ts ws sv pk acc m' ts' :
  worker_inv m ts ws sv pk acc -> NoDup order -> dispatch_ready_ops (map_iter order m) t m ts = (m', ts') ->
  worker_inv m' ts' ws sv pk acc.
Proof.
  intros W N. unfold dispatch_ready_ops. destruct (_ <=? _)%nat; [by intros [= <- <-] |]. intros E.
  apply (dispatch_loop_inv _ _ _ _ _ _ _ _ _ W) in E; [done | by apply ready_NoDup, map_iter_NoDup |].
  intros id lane (lane' & Hin & Hp)%elem_of_ready El. apply elem_of_map_iter in Hin as [_ El'].
  rewrite El in El'. injection El' as <-. by apply (lane_priority_free lane t).
Qed.

Lemma reachable_inv t w h : reachable t w h ->
  worker_inv (lanes w) (tasks w) (written w) (saved w) (panicked h) (accepted h).
Proof.
  induction 1 as [| w h ev w' _ W E].
  - split; [| cbn; unfold MAX_CONCURRENT_SAVES; lia]. intros id. cbn. rewrite lookup_empty.
    split; cbn; try done; first [by intros ? ?%not_elem_of_nil | constructor].
  - destruct ev as [[r |] | order | i db | i | i | t']; cbn [worker_step observe] in *.
    + destruct (receiver_closed w); [done |]. destruct (handle_request r (lanes w)) as [m fs] eqn:Er.
      injection E as <-. by apply (handle_request_inv r _ _ _ _ _ _ m fs).
    + destruct (receiver_closed w); [done |]. by injection E as <-.
    + destruct (map_order order (lanes w)) eqn:Eo; [| done]. apply map_order_spec in Eo as [No _].
      destruct (dispatch_ready_ops _ _ _ _) as [m ts] eqn:Ed. injection E as <-. by apply (dispatch_inv order (now w) (lanes w) (tasks w)).
    + destruct (tasks w !! i) as [[op | c | op] |] eqn:Ei; try done. injection E as <-. by apply run_inv.
    + destruct (tasks w !! i) as [[op | c | op] |] eqn:Ei; try done. injection E as <-. by apply panic_inv.
    + destruct (tasks w !! i) as [[op | c | op] |] eqn:Ei; try done.
      * destruct (handle_completed_dispatch c (now w) (lanes w)) as [m fs] eqn:Ec. injection E as <-.
        by apply (join_inv i c (now w) (lanes w) _ _ _ _ _ m fs).
      * injection E as <-. by apply (join_panicked_inv i op).
    + destruct (_ <=? _); [| done]. by injection E as <-.
Qed.

(** ** What becomes of the senders *)
Definition lane_senders (lane : Lane) : list Sender :=
  option_list (pending_save lane ≫= save_reply) ++ option_list (exit_reply <$> pending_exit lane).
Definition task_senders (t : Task) : list Sender :=
  match t with
  | Running op => option_list (kind_reply (op_kind op))
  | Finished c => option_list (kind_reply (done_kind c))
  | Panicked _ => []
  end.

(** The senders still waiting, in the lanes and in the tasks. *)
Definition held (m : Lanes) (ts : list Task) : list Sender := map_concat lane_senders m ++ (ts ≫= task_senders).

Lemma answer_senders reply r : (answer reply r).*1 = option_list reply.
Proof. by destruct reply. Qed.
Lemma drop_senders reply : (drop_sender reply).*1 = option_list reply.
Proof. by destruct reply. Qed.

Ltac solve_senders := cbn; rewrite ?answer_senders, ?drop_senders, ?app_nil_r; cbn; solve_Permutation.

(** Replacing a lane. *)
Lemma insert_senders (m : Lanes) id lane' fs new :
  lane_senders lane' ++ fs ≡ₚ from_option lane_senders [] (m !! id) ++ new ->
  map_concat lane_senders (<[id := lane']> m) ++ fs ≡ₚ map_concat lane_senders m ++ new.
Proof. intros E. rewrite map_concat_insert, (map_concat_lookup _ m id). rewrite <- !app_assoc, !(Permutation_app_comm (map_concat _ _)), !app_assoc. by rewrite E. Qed.

Lemma handle_request_senders r m m' fs :
  handle_request r m = (m', fs) ->
  map_concat lane_senders m' ++ fs.*1 ≡ₚ map_concat lane_senders m ++ request_senders r.
Proof.
  destruct r as [s u reply | k un si ci s reply]; cbn [handle_request request_senders].
  - set (lane := default Lane_default (m !! player_id s)).
    assert (lane_senders lane ≡ₚ from_option lane_senders [] (m !! player_id s)) as El by (unfold lane; by destruct (m !! _)).
    destruct (pending_exit lane) eqn:Ee.
    + intros [= <- <-]. apply insert_senders. by rewrite answer_senders, El.
    + rewrite <- (app_nil_r (lane_senders lane)) in El. unfold lane_senders at 1 in El. rewrite Ee in El. cbn in El. rewrite app_nil_r in El.
      destruct (pending_save lane) as [p |]; [destruct u, reply, (save_reply p) eqn:Er |]; intros [= <- <-];
        apply insert_senders; rewrite <- El; unfold lane_senders; cbn; rewrite ?Ee, ?Er; solve_senders.
  - intros [= <- <-]. apply insert_senders. rewrite fmap_app, !drop_senders. unfold lane_senders at 1. cbn.
    destruct (m !! player_id s) as [lane |]; unfold lane_senders; cbn; [| done]. solve_Permutation.
Qed.

Lemma next_dispatch_senders lane op lane' :
  next_dispatch lane = (Some op, lane') -> lane_senders lane ≡ₚ lane_senders lane' ++ option_list (kind_reply (op_kind op)).
Proof.
  unfold next_dispatch, lane_senders. destruct (pending_exit lane) as [e |].
  - intros [= <- <-]. cbn. by rewrite app_nil_r.
  - destruct (pending_save lane) as [p |]; cbn; [| done]. intros [= <- <-]. cbn. by rewrite app_nil_r.
Qed.

Lemma dispatch_loop_senders ids m ts m' ts' :
  dispatch_loop ids m ts = (m', ts') -> held m' ts' ≡ₚ held m ts.
Proof.
  revert m ts. induction ids as [| id ids IH]; intros m ts; cbn [dispatch_loop]; [by intros [= <- <-] |].
  destruct (_ <=? _)%nat; [by intros [= <- <-] |]. destruct (m !! id) as [lane |] eqn:El; [| apply IH].
  destruct (next_dispatch lane) as [[op |] lane'] eqn:En; intros E; rewrite (IH _ _ E); unfold held.
  - rewrite bind_app. cbn. rewrite app_nil_r, (Permutation_app_comm (ts ≫= task_senders)), !app_assoc. f_equiv.
    rewrite <- (app_nil_r (map_concat lane_senders m)). apply insert_senders. rewrite El, app_nil_r. symmetry.
    exact (next_dispatch_senders lane op lane' En).
  - f_equiv. rewrite <- (app_nil_r (map_concat _ (<[_ := _]> m))), <- (app_nil_r (map_concat lane_senders m)).
    apply insert_senders. rewrite El, !app_nil_r. revert En. unfold next_dispatch. cbn [from_option]. unfold lane_senders.
    destruct (pending_exit lane); [done |]. destruct (pending_save lane); cbn; [done |].
    by intros [= <-].
Qed.

Lemma complete_lane_senders c t lane lane' fs :
  complete_lane c t lane = (lane', fs) ->
  lane_senders lane' ++ fs.*1 ≡ₚ lane_senders lane ++ option_list (kind_reply (done_kind c)).
Proof.
  unfold complete_lane. destruct (done_kind c) as [s [|] reply | e]; cbn [kind_reply].
  - destruct (done_result c); [intros [= <- <-]; by rewrite drop_senders |].
    destruct (_ || _)%bool eqn:E; [intros [= <- <-]; by rewrite drop_senders |].
    apply orb_false_iff in E as [E1 E2]. apply bool_decide_eq_false in E1, E2.
    apply eq_None_not_Some in E1, E2. cbn in E1, E2. intros [= <- <-].
    unfold lane_senders. cbn. by rewrite E1, E2, !app_nil_r.
  - intros [= <- <-]. by destruct reply.
  - by intros [= <- <-].
Qed.

Lemma is_idle_senders lane : is_idle lane = true -> lane_senders lane = [].
Proof.
  unfold is_idle, lane_senders. intros [[_ ->%bool_decide_eq_true]%andb_true_iff ->%bool_decide_eq_true]%andb_true_iff. done.
Qed.

Lemma handle_completed_senders c t m m' fs :
  handle_completed_dispatch c t m = (m', fs) ->
  map_concat lane_senders m' ++ fs.*1 ≡ₚ map_concat lane_senders m ++ option_list (kind_reply (done_kind c)).
Proof.
  unfold handle_completed_dispatch. destruct (m !! done_player_id c) as [lane |] eqn:El.
  - destruct (complete_lane c t lane) as [lane' fs'] eqn:Ec. pose proof (complete_lane_senders _ _ _ _ _ Ec) as H.
    destruct (is_idle lane') eqn:Ei; intros [= <- <-].
    + rewrite (is_idle_senders _ Ei) in H. rewrite (map_concat_lookup _ m (done_player_id c)), El. cbn in *.
      rewrite H. solve_Permutation.
    + apply insert_senders. by rewrite El.
  - intros [= <- <-]. by rewrite drop_senders.
Qed.

(** ** Confirmed writes *)

(** A completed operation the database confirmed when it ran: a flush it saved,
    or an exit it committed. *)
Definition confirmed (c : CompletedDispatch) : Prop :=
  exists db op, c = run_op db op /\
    match op_kind op with
    | Dispatch_Save s FlushNow _ => db_save_player_snapshot db s = Ok Saved
    | Dispatch_Save s Autosave _ => False
    | Dispatch_CommitPlayerExit e =>
        db_commit_player_exit db (exit_kind e) (exit_username e) (exit_server_id e) (exit_connection_id e)
          (exit_snapshot e) = Ok tt
    end.

Record replies_inv (w : Worker) (h : History) : Prop := {
  ri_senders : (fates w).*1 ++ held (lanes w) (tasks w) ≡ₚ requested h;
  ri_ran : forall c, c ∈ written w -> exists db op, c = run_op db op;
  ri_finished : forall c, Finished c ∈ tasks w -> c ∈ written w;
  ri_acks : forall s, (s, Some (Ok tt)) ∈ fates w ->
              exists c, c ∈ written w /\ kind_reply (done_kind c) = Some s /\ confirmed c }.

Lemma confirmed_ok db op :
  done_result (run_op db op) = Ok tt ->
  match op_kind op with Dispatch_Save _ Autosave _ => False | _ => True end -> confirmed (run_op db op).
Proof.
  intros H K. exists db, op. split; [done |]. cbn in H. destruct (op_kind op) as [s [|] r | e]; [done | | done].
  destruct (db_save_player_snapshot db s) as [[|] |]; by inversion H.
Qed.

Lemma handle_request_no_ack r m m' fs s : handle_request r m = (m', fs) -> (s, Some (Ok tt)) ∉ fs.
Proof.
  destruct r as [sn u reply | k un si ci sn reply]; cbn [handle_request].
  - destruct (pending_exit _).
    + intros [= _ <-] Hin. destruct reply; cbn in Hin; [by apply list_elem_of_singleton in Hin | by apply not_elem_of_nil in Hin].
    + destruct (pending_save _) as [p |]; [destruct u, reply, (save_reply p) |]; intros [= _ <-] Hin; cbn in Hin;
        first [by apply not_elem_of_nil in Hin | by apply list_elem_of_singleton in Hin].
  - intros [= _ <-] [Hin | Hin]%elem_of_app;
      [destruct (pending_save _ ≫= _) | destruct (exit_reply <$> _)]; cbn in Hin;
      first [by apply not_elem_of_nil in Hin | by apply list_elem_of_singleton in Hin].
Qed.

Lemma handle_completed_acks c t m m' fs s :
  handle_completed_dispatch c t m = (m', fs) -> (s, Some (Ok tt)) ∈ fs ->
  kind_reply (done_kind c) = Some s /\ done_result c = Ok tt /\
  match done_kind c with Dispatch_Save _ Autosave _ => False | _ => True end.
Proof.
  unfold handle_completed_dispatch. destruct (m !! done_player_id c) as [lane |].
  - unfold complete_lane. destruct (done_kind c) as [sn [|] [r |] | e]; cbn [kind_reply];
      destruct (done_result c) as [[] | err]; try destruct (_ || _)%bool; intros [= _ <-] Hin; cbn in Hin;
      first [by apply not_elem_of_nil in Hin | apply list_elem_of_singleton in Hin; injection Hin as ->; done
            | by apply list_elem_of_singleton in Hin].
  - intros [= _ <-] Hin. destruct (kind_reply _); cbn in Hin;
      first [by apply not_elem_of_nil in Hin | by apply list_elem_of_singleton in Hin].
Qed.

(** A task run or joined, among the senders held. *)
Lemma held_at m l1 t l2 : held m (l1 ++ t :: l2) ≡ₚ held m (l1 ++ l2) ++ task_senders t.
Proof. unfold held. rewrite !bind_app. cbn. solve_Permutation. Qed.

Lemma finished_insert (ts : list Task) i op t c :
  ts !! i = Some (Running op) -> Finished c ∈ <[i := t]> ts -> t = Finished c \/ Finished c ∈ ts.
Proof.
  intros Hi. destruct (task_at ts i _ t Hi) as (l1 & l2 & -> & -> & _).
  rewrite !elem_of_app, !elem_of_cons. intros [H | [<- | H]]; auto.
Qed.

Lemma finished_delete (ts : list Task) i t c :
  ts !! i = Some t -> Finished c ∈ ts -> t = Finished c \/ Finished c ∈ delete i ts.
Proof.
  intros Hi. destruct (task_at ts i _ t Hi) as (l1 & l2 & -> & _ & ->).
  rewrite !elem_of_app, !elem_of_cons. intros [H | [<- | H]]; auto.
Qed.

Lemma elem_of_delete (ts : list Task) i t' t : ts !! i = Some t' -> t ∈ delete i ts -> t ∈ ts.
Proof.
  intros Hi. destruct (task_at ts i _ t' Hi) as (l1 & l2 & -> & _ & ->). rewrite !elem_of_app, elem_of_cons. tauto.
Qed.

Lemma finished_keep (ts : list Task) i op t c :
  ts !! i = Some (Running op) -> Finished c ∈ ts -> Finished c ∈ <[i := t]> ts.
Proof.
  intros Hi. destruct (task_at ts i _ t Hi) as (l1 & l2 & -> & -> & _).
  rewrite !elem_of_app, !elem_of_cons. intros [H | [[=] | H]]; auto.
Qed.

Lemma dispatch_loop_keeps ids m ts m' ts' t :
  dispatch_loop ids m ts = (m', ts') -> t ∈ ts -> t ∈ ts'.
Proof.
  revert m ts. induction ids as [| id ids IH]; intros m ts; cbn [dispatch_loop]; [by intros [= <- <-] |].
  destruct (_ <=? _)%nat; [by intros [= <- <-] |]. destruct (m !! id) as [lane |]; [| apply IH].
  destruct (next_dispatch lane) as [[op |] lane']; intros E Hin; apply (IH _ _ E); [| done].
  apply elem_of_app. by left.
Qed.

Lemma dispatch_loop_finished ids m ts m' ts' c :
  dispatch_loop ids m ts = (m', ts') -> Finished c ∈ ts' -> Finished c ∈ ts.
Proof.
  revert m ts. induction ids as [| id ids IH]; intros m ts; cbn [dispatch_loop]; [by intros [= <- <-] |].
  destruct (_ <=? _)%nat; [by intros [= <- <-] |]. destruct (m !! id) as [lane |]; [| apply IH].
  destruct (next_dispatch lane) as [[op |] lane']; intros E Hin; apply (IH _ _ E) in Hin; [| done].
  apply elem_of_app in Hin as [Hin | Hin]; [done |]. by apply list_elem_of_singleton in Hin.
Qed.

Lemma drop_sender_no_ack reply s r : (s, Some r) ∉ drop_sender reply.
Proof. destruct reply; cbn; intros H; [by apply list_elem_of_singleton in H | by apply not_elem_of_nil in H]. Qed.

Lemma replies_step w h ev w' : replies_inv w h -> worker_step w ev = Some w' -> replies_inv w' (observe w ev h).
Proof.
  intros [S R F A] E. destruct ev as [[r |] | order | i db | i | i | t']; cbn [worker_step observe] in *.
  - destruct (receiver_closed w); [done |]. destruct (handle_request r (lanes w)) as [m fs] eqn:Er. injection E as <-.
    split; cbn; try done.
    + rewrite <- S, fmap_app. unfold held. rewrite <- !app_assoc.
      pose proof (handle_request_senders _ _ _ _ Er) as H.
      rewrite (Permutation_app_comm (tasks w ≫= task_senders) (request_senders r)), !app_assoc,
        <- (app_assoc _ (map_concat lane_senders (lanes w))), <- H. solve_Permutation.
    + intros s [Hin | Hin]%elem_of_app; [by apply A | by destruct (handle_request_no_ack _ _ _ _ s Er)].
  - destruct (receiver_closed w); [done |]. injection E as <-. by split.
  - destruct (map_order order (lanes w)); [| done]. unfold dispatch_ready_ops in E.
    destruct (_ <=? _)%nat; [injection E as <-; by split |].
    destruct (dispatch_loop _ _ _) as [m ts] eqn:Ed. injection E as <-. split; cbn; try done.
    + by rewrite (dispatch_loop_senders _ _ _ _ _ Ed).
    + intros c Hc. by apply F, (dispatch_loop_finished _ _ _ _ _ c Ed).
  - destruct (tasks w !! i) as [[op | c | op] |] eqn:Ei; try done. injection E as <-.
    split; cbn [lanes tasks written fates].
    + rewrite <- S. destruct (task_at (tasks w) i _ (Finished (run_op db op)) Ei) as (l1 & l2 & -> & -> & _).
      by rewrite !held_at.
    + intros c [Hin | ->%list_elem_of_singleton]%elem_of_app; [by apply R | eauto].
    + intros c [[= <-] | Hc]%(finished_insert _ _ op _ c Ei); apply elem_of_app; [right; by left | left; by apply F].
    + intros s (c & Hc & Hk & Hok)%A. exists c. split; [by apply elem_of_app; left | done].
  - destruct (tasks w !! i) as [[op | c | op] |] eqn:Ei; try done. injection E as <-.
    split; cbn [lanes tasks written fates requested]; [| done | |].
    + rewrite <- S, fmap_app, drop_senders. destruct (task_at (tasks w) i _ (Panicked op) Ei) as (l1 & l2 & -> & -> & _).
      rewrite !held_at. cbn [task_senders]. solve_Permutation.
    + intros c [[=] | Hc]%(finished_insert _ _ op _ c Ei). by apply F.
    + intros s [Hin | Hin]%elem_of_app; [by apply A | by apply drop_sender_no_ack in Hin].
  - destruct (tasks w !! i) as [[op | c | op] |] eqn:Ei; try done.
    2: { injection E as <-. split; cbn [lanes tasks written fates]; [| done | | done].
         - rewrite <- S. destruct (task_at (tasks w) i _ (Panicked op) Ei) as (l1 & l2 & -> & _ & ->).
           rewrite held_at. cbn [task_senders]. by rewrite app_nil_r.
         - intros c Hc%(elem_of_delete _ _ _ _ Ei). by apply F. }
    destruct (handle_completed_dispatch c (now w) (lanes w)) as [m fs] eqn:Ec. injection E as <-.
    destruct (task_at (tasks w) i _ (Finished c) Ei) as (l1 & l2 & Et & _ & Ed).
    split; cbn [lanes tasks written fates]; [| done | |].
    + rewrite <- S, Ed, Et, held_at, fmap_app. unfold held. pose proof (handle_completed_senders _ _ _ _ _ Ec) as H.
      change (task_senders (Finished c)) with (option_list (kind_reply (done_kind c))).
      rewrite <- !app_assoc, (Permutation_app_comm ((l1 ++ l2) ≫= task_senders)), !app_assoc,
        <- (app_assoc _ (map_concat lane_senders (lanes w))), <- H. solve_Permutation.
    + intros c' Hin%(elem_of_delete _ _ _ _ Ei). by apply F.
    + intros s [Hin | Hin]%elem_of_app; [by apply A |].
      destruct (handle_completed_acks _ _ _ _ _ _ Ec Hin) as (Hk & Hr & Ha).
      assert (c ∈ written w) as Hc by (apply F; rewrite Et; apply elem_of_app; right; by left).
      exists c. split; [done |]. split; [done |]. destruct (R c Hc) as (db & op & ->). by apply confirmed_ok.
  - destruct (_ <=? _); [| done]. injection E as <-. by split.
Qed.

Lemma reachable_replies t w h : reachable t w h -> replies_inv w h.
Proof.
  induction 1 as [| w h ev w' _ IH E]; [| by apply (replies_step w)].
  split; cbn; try done; by intros ? ?%not_elem_of_nil.
Qed.

(** [C32] Replies are neither lost nor given twice, and a positive one is true:
    the senders received are exactly those answered or dropped and those still
    held by a lane or a task, each once; an [Ok] reply is sent only after the
    database confirmed, in a write that carried this very sender, that it saved a
    flush or committed an exit. *)
Theorem worker_replies t w h :
  reachable t w h ->
  (fates w).*1 ++ held (lanes w) (tasks w) ≡ₚ requested h /\
  forall s, (s, Some (Ok tt)) ∈ fates w ->
    exists c, c ∈ written w /\ kind_reply (done_kind c) = Some s /\ confirmed c.
Proof. intros [S R F A]%reachable_replies. by split. Qed.

(** ** Confirmed, or given up *)

(** The result of a flush or an exit reached its sender. *)
Definition told (fs : list Fate) (c : CompletedDispatch) : Prop :=
  match done_kind c with
  | Dispatch_Save _ Autosave _ => True
  | k => forall r, kind_reply k = Some r -> (r, Some (done_result c)) ∈ fs
  end.

(** An attempt that saved nothing and is not repeated: an autosave whose owner is
    stale; a flush the database did not save, or an exit it did not commit, with an
    error sent to whoever waits for it. *)
Definition given_up (fs : list Fate) (c : CompletedDispatch) : Prop :=
  exists db op, c = run_op db op /\
    match op_kind op with
    | Dispatch_Save s Autosave _ => db_save_player_snapshot db s = Ok StaleOwner
    | Dispatch_Save s FlushNow reply =>
        db_save_player_snapshot db s <> Ok Saved /\ forall r, reply = Some r -> exists e, (r, Some (Err e)) ∈ fs
    | Dispatch_CommitPlayerExit e =>
        exists err, db_commit_player_exit db (exit_kind e) (exit_username e) (exit_server_id e) (exit_connection_id e)
                      (exit_snapshot e) = Err err /\ (exit_reply e, Some (Err err)) ∈ fs
    end.

Lemma refused_given_up fs c : refused c -> to_retry c = false -> told fs c -> given_up fs c.
Proof.
  intros (db & op & -> & N) Hr T. exists db, op. split; [done |]. revert N Hr T.
  unfold db_confirms, to_retry, told. cbn. destruct (op_kind op) as [s [|] reply | e]; cbn.
  - by destruct (db_save_player_snapshot db s) as [[|] |].
  - intros N _ T. destruct (db_save_player_snapshot db s) as [[|] |] eqn:E; [done | |];
      (split; [done |]; intros r Hr; specialize (T r Hr); cbn in T; by eexists).
  - intros N _ T. destruct (db_commit_player_exit _ _ _ _ _ _) as [u | err]; [done |].
    exists err. split; [done |]. by apply T.
Qed.

Lemma complete_lane_told c t lane lane' fs : complete_lane c t lane = (lane', fs) -> told fs c.
Proof.
  unfold complete_lane, told. destruct (done_kind c) as [s [|] reply | e]; [done | |]; intros [= _ <-] r; cbn.
  - intros ->. by left.
  - intros [= <-]. by left.
Qed.

Lemma told_app fs fs' c : told fs c \/ told fs' c -> told (fs ++ fs') c.
Proof.
  unfold told. destruct (done_kind c) as [s [|] reply | e]; [done | |]; intros [H | H] r Hr; apply elem_of_app; eauto.
Qed.

(** Every attempt is to be joined, or its result is out. *)
Lemma reachable_told t w h c :
  reachable t w h -> c ∈ written w -> Finished c ∈ tasks w \/ told (fates w) c.
Proof.
  induction 1 as [| w h ev w' Rw IH E]; [by intros ?%not_elem_of_nil |].
  destruct ev as [[r |] | order | i db | i | i | t']; cbn [worker_step] in E.
  - destruct (receiver_closed w); [done |]. destruct (handle_request r (lanes w)) as [m fs]. injection E as <-.
    intros [H | H]%IH; [by left | right; by apply told_app; left].
  - destruct (receiver_closed w); [done |]. injection E as <-. exact IH.
  - destruct (map_order order (lanes w)); [| done]. unfold dispatch_ready_ops in E.
    destruct (_ <=? _)%nat; [injection E as <-; exact IH |].
    destruct (dispatch_loop _ _ _) as [m ts] eqn:Ed. injection E as <-. intros [H | H]%IH; [left | by right].
    by apply (dispatch_loop_keeps _ _ _ _ _ _ Ed).
  - destruct (tasks w !! i) as [[op | c' | op] |] eqn:Ei; try done. injection E as <-. cbn.
    pose proof (finished_keep (tasks w) i op (Finished (run_op db op)) c Ei) as K.
    intros [[H | H]%IH | ->%list_elem_of_singleton]%elem_of_app; [left; by apply K | by right | left].
    apply (list_elem_of_insert (tasks w) i). by eapply lookup_lt_Some.
  - destruct (tasks w !! i) as [[op | c' | op] |] eqn:Ei; try done. injection E as <-. cbn.
    intros [H | H]%IH; [left; by apply (finished_keep (tasks w) i op) | right; by apply told_app; left].
  - destruct (tasks w !! i) as [[op | c' | op] |] eqn:Ei; try done.
    + destruct (handle_completed_dispatch c' (now w) (lanes w)) as [m fs] eqn:Ec. injection E as <-. cbn.
      intros [H | H]%IH; [| right; by apply told_app; left].
      destruct (finished_delete _ _ _ c Ei H) as [[= ->] | H']; [right; apply told_app; right | by left].
      destruct (reachable_inv _ _ _ Rw) as [P _]. specialize (P (done_player_id c)).
      destruct (task_at (tasks w) i _ (Finished c) Ei) as (l1 & l2 & Et & _). rewrite Et in P.
      destruct (only_task _ l1 (Finished c) l2 _ _ _ _ P) as (_ & _ & lane & El & _). cbn in El.
      unfold handle_completed_dispatch in Ec. rewrite El in Ec.
      destruct (complete_lane c (now w) lane) as [lane' fs'] eqn:Ecl. injection Ec as _ <-.
      by apply (complete_lane_told c (now w) lane lane').
    + injection E as <-. cbn. intros [H | H]%IH; [| by right].
      destruct (finished_delete _ _ _ c Ei H) as [[=] | H']; by left.
  - destruct (_ <=? _); [| done]. injection E as <-. exact IH.
Qed.

Lemma reachable_saved t w h c :
  reachable t w h -> c ∈ saved w -> exists db op, c = run_op db op /\ db_confirms db op = true.
Proof.
  induction 1 as [| w h ev w' Rw IH E]; [by intros ?%not_elem_of_nil |].
  destruct ev as [[r |] | order | i db | i | i | t']; cbn [worker_step] in E.
  - destruct (receiver_closed w); [done |]. destruct (handle_request r (lanes w)). by injection E as <-.
  - destruct (receiver_closed w); [done |]. by injection E as <-.
  - destruct (map_order order (lanes w)); [| done]. destruct (dispatch_ready_ops _ _ _ _). by injection E as <-.
  - destruct (tasks w !! i) as [[op | c' | op] |] eqn:Ei; try done. injection E as <-. cbn.
    destruct (db_confirms db op) eqn:Ec; [| done]. intros [H | ->%list_elem_of_singleton]%elem_of_app; [by apply IH | eauto].
  - destruct (tasks w !! i) as [[op | c' | op] |] eqn:Ei; try done. by injection E as <-.
  - destruct (tasks w !! i) as [[op | c' | op] |] eqn:Ei; try done; [| by injection E as <-].
    destruct (handle_completed_dispatch c' (now w) (lanes w)). by injection E as <-.
  - destruct (_ <=? _); [| done]. by injection E as <-.
Qed.

(** Where the last accepted snapshot of a player is. *)
Definition last_snapshot_kept (w : Worker) (h : History) (id : PlayerId) (s : PlayerSnapshot) : Prop :=
  match lanes w !! id with
  | Some lane =>
      pending_snapshot lane = Some s \/
      (exists t, t ∈ tasks w /\ task_player t = id /\ task_snapshot t = s) \/
      (exists op, op ∈ panicked h /\ op_player_id op = id /\ kind_snapshot (op_kind op) = s)
  | None =>
      exists c, last (written_of id (written w)) = Some c /\ done_snapshot c = s /\
        (last (written_of id (saved w)) = Some c \/ given_up (fates w) c)
  end.

Lemma reachable_kept t w h id s :
  reachable t w h -> last (accepted_of id (accepted h)) = Some s -> last_snapshot_kept w h id s.
Proof.
  intros R L. pose proof (reachable_inv _ _ _ R) as [P _]. specialize (P id). unfold last_snapshot_kept.
  destruct P as [P1 P2 _ P4 _ P6 _ _ P9 _ _ P12]. destruct (lanes w !! id) as [lane |]; cbn in *.
  - destruct (pending_snapshot lane) as [s' |] eqn:Es; [left; specialize (P2 _ eq_refl); congruence | right].
    destruct (in_flight lane); [| by destruct P1 as [_ [? ?]]]. destruct P1 as [[t' P1] | [_ N]].
    + left. exists t'. assert (t' ∈ tasks_of id (tasks w)) as Ht by (rewrite P1; by left).
      specialize (P4 t' Ht eq_refl). apply list_elem_of_filter in Ht as [Hp Ht]. split_and!; [done | done | congruence].
    + right. destruct (panicked_of id (panicked h)) as [| op l] eqn:El; [done |].
      assert (op ∈ panicked_of id (panicked h)) as Hop by (rewrite El; by left).
      specialize (P12 op ltac:(left) eq_refl). apply list_elem_of_filter in Hop as [Hp Hop].
      exists op. split_and!; [done | done | congruence].
  - destruct (P6 eq_refl) as [La Hr]. rewrite L in La. symmetry in La. apply fmap_Some in La as (c & Lc & ->).
    exists c. split; [done |]. split; [done |]. destruct (P9 c Lc) as [H | H]; [by left | right].
    apply refused_given_up; [done | by apply Hr |]. apply last_Some_elem_of, list_elem_of_filter in Lc as [Ep Hc].
    destruct (reachable_told _ _ _ _ R Hc) as [Ht | Ht]; [| done]. exfalso.
    apply (not_elem_of_nil (Finished c)). rewrite <- P1. by apply list_elem_of_filter.
Qed.

(** [C7] The worker saves the last snapshot of every player, in order.  At most
    eight tasks are in flight, at most one per player.  What is attempted for a
    player follows the order in which the player's snapshots were accepted, and what
    the database confirmed is a subsequence of them, none twice.  The last
    accepted snapshot is never lost without an answer: while the player has a lane
    it is pending, in a task, or was in a task that panicked; once the lane is gone
    the last attempt was for that snapshot, and either the database confirmed it,
    or it was given up, which happens only to an autosave whose owner is stale, and
    to a flush or an exit the database refused, whose sender, if there is one, was
    sent the error.  So a failed autosave is not given up. *)
Theorem worker_writes_in_order t w h :
  reachable t w h ->
  (length (tasks w) <= MAX_CONCURRENT_SAVES)%nat /\
  (forall c, c ∈ saved w -> exists db op, c = run_op db op /\ db_confirms db op = true) /\
  forall id, (length (tasks_of id (tasks w)) <= 1)%nat /\
    in_order (done_snapshot <$> written_of id (written w)) (accepted_of id (accepted h)) /\
    sublist (done_snapshot <$> written_of id (saved w)) (accepted_of id (accepted h)) /\
    forall s, last (accepted_of id (accepted h)) = Some s -> last_snapshot_kept w h id s.
Proof.
  intros R. pose proof (reachable_inv _ _ _ R) as [P B]. split; [done |].
  split; [intros c; by apply (reachable_saved t w h) |].
  intros id. specialize (P id). split; [| split; [| split]].
  - pose proof (pi_tasks _ _ _ _ _ _ P) as T. destruct (lanes w !! id) as [lane |]; [| rewrite T; cbn; lia].
    destruct (in_flight lane); [destruct T as [[? ->] | [-> _]] | destruct T as [-> _]]; cbn; lia.
  - eapply in_order_app_l, P.
  - etrans; [| apply P]. by apply sublist_inserts_r.
  - intros s. by apply (reachable_kept t).
Qed.

(** ** Draining *)
Fixpoint worker_run (w : Worker) (evs : list Event) : option Worker :=
  match evs with [] => Some w | ev :: evs => w' ← worker_step w ev; worker_run w' evs end.

Lemma worker_run_app w evs1 evs2 : worker_run w (evs1 ++ evs2) = (w' ← worker_run w evs1; worker_run w' evs2).
Proof.
  revert w. induction evs1 as [| ev evs1 IH]; intros w; cbn [app worker_run]; [done |].
  destruct (worker_step w ev); cbn; [apply IH | done].
Qed.

(** No request comes in, no task panics, and the database does not fail to save. *)
Definition quiet (ev : Event) : Prop :=
  match ev with
  | Ev_request _ | Ev_panic _ => False
  | Ev_run _ db => forall s e, db_save_player_snapshot db s <> Err e
  | _ => True
  end.
Definition is_task_event (ev : Event) : bool := match ev with Ev_run _ _ | Ev_join _ => true | _ => false end.

(** The work left: a pending write is still to be dispatched, run and joined; a
    failed autosave starts over. *)
Definition lane_work (lane : Lane) : nat :=
  (if pending_save lane then 3 else 0) + (if pending_exit lane then 3 else 0).
Definition task_work (t : Task) : nat :=
  match t with
  | Running _ => 2
  | Finished c =>
      match done_kind c, done_result c with Dispatch_Save _ Autosave _, Err _ => 4 | _, _ => 1 end
  | Panicked _ => 1
  end.
Definition work (m : Lanes) (ts : list Task) : nat :=
  length (map_concat (fun lane => repeat tt (lane_work lane)) m) + sum_list (task_work <$> ts).

Lemma map_work_insert (m : Lanes) id lane' k k' :
  (lane_work lane' + k' <= from_option lane_work 0 (m !! id) + k)%nat ->
  (length (map_concat (fun lane => repeat tt (lane_work lane)) (<[id := lane']> m)) + k' <=
   length (map_concat (fun lane => repeat tt (lane_work lane)) m) + k)%nat.
Proof.
  intros H. rewrite map_concat_insert, (map_concat_lookup _ m id), !length_app, repeat_length.
  destruct (m !! id); cbn in *; rewrite ?repeat_length; lia.
Qed.

Lemma next_dispatch_work lane op lane' :
  next_dispatch lane = (Some op, lane') -> (lane_work lane' + 3 <= lane_work lane)%nat.
Proof.
  unfold next_dispatch, lane_work. destruct (pending_exit lane); [intros [= _ <-]; cbn; lia |].
  destruct (pending_save lane); cbn; [| done]. intros [= _ <-]. cbn. lia.
Qed.

Lemma sum_work_app l1 l2 : sum_list (task_work <$> (l1 ++ l2)) = (sum_list (task_work <$> l1) + sum_list (task_work <$> l2))%nat.
Proof. by rewrite fmap_app, sum_list_with_app. Qed.

Lemma dispatch_loop_work ids m ts m' ts' :
  dispatch_loop ids m ts = (m', ts') ->
  (work m' ts' + length ts' <= work m ts + length ts)%nat /\ (length ts <= length ts')%nat.
Proof.
  revert m ts. induction ids as [| id ids IH]; intros m ts; cbn [dispatch_loop]; [intros [= <- <-]; lia |].
  destruct (_ <=? _)%nat; [intros [= <- <-]; lia |]. destruct (m !! id) as [lane |] eqn:El; [| apply IH].
  destruct (next_dispatch lane) as [[op |] lane'] eqn:En; intros E; apply IH in E as [E L].
  - rewrite length_app in *. cbn [length] in *. split; [| lia]. etrans; [exact E |]. unfold work. rewrite sum_work_app.
    pose proof (map_work_insert m id (set_in_flight lane' true) 0 3) as H. rewrite El in H.
    pose proof (next_dispatch_work _ _ _ En). cbn in *. unfold lane_work in *. cbn in H. lia.
  - split; [| done]. etrans; [exact E |]. unfold work.
    pose proof (map_work_insert m id lane' 0 0) as H. rewrite El in H. cbn in H.
    assert (lane_work lane' = lane_work lane); [| lia]. revert En. unfold next_dispatch, lane_work.
    destruct (pending_exit lane); [done |]. destruct (pending_save lane); cbn; [done |]. by intros [= <-].
Qed.

Lemma complete_lane_work c t lane lane' fs :
  complete_lane c t lane = (lane', fs) -> (lane_work lane' + 1 <= lane_work lane + task_work (Finished c))%nat.
Proof.
  unfold complete_lane, task_work. destruct (done_kind c) as [s [|] reply | e]; [| intros [= <- <-]; unfold lane_work; cbn; lia ..].
  destruct (done_result c); [intros [= <- <-]; unfold lane_work; cbn; lia |].
  destruct (_ || _)%bool eqn:E; [intros [= <- <-]; unfold lane_work; cbn; lia |].
  intros [= <- <-]. unfold lane_work. cbn. destruct (pending_save lane), (pending_exit lane); lia.
Qed.

Lemma quiet_step w ev w' :
  quiet ev -> worker_step w ev = Some w' ->
  (work (lanes w') (tasks w') + (if is_task_event ev then 1 else 0) <= work (lanes w) (tasks w))%nat /\
  receiver_closed w' = receiver_closed w.
Proof.
  intros Q E. destruct ev as [r | order | i db | i | i | t']; cbn [worker_step is_task_event] in *; [done | | | done | |].
  - destruct (map_order order (lanes w)); [| done]. unfold dispatch_ready_ops in E.
    destruct (_ <=? _)%nat; [injection E as <-; cbn; split; [lia | done] |].
    destruct (dispatch_loop _ _ _) as [m ts] eqn:Ed. injection E as <-. cbn.
    apply dispatch_loop_work in Ed. split; [lia | done].
  - destruct (tasks w !! i) as [[op | c | op] |] eqn:Ei; try done. injection E as <-. cbn [lanes tasks receiver_closed].
    split; [| done]. destruct (task_at (tasks w) i _ (Finished (run_op db op)) Ei) as (l1 & l2 & -> & -> & _).
    unfold work. rewrite !sum_work_app. cbn. destruct (op_kind op) as [s [|] reply | e]; [| cbn; lia | cbn; lia].
    destruct (db_save_player_snapshot db s) as [[|] | e] eqn:Es; [cbn; lia .. |]. by destruct (Q s e).
  - destruct (tasks w !! i) as [[op | c | op] |] eqn:Ei; try done.
    2: { injection E as <-. cbn [lanes tasks receiver_closed]. split; [| done].
         destruct (task_at (tasks w) i _ (Panicked op) Ei) as (l1 & l2 & -> & _ & ->). unfold work. rewrite !sum_work_app. cbn. lia. }
    destruct (handle_completed_dispatch c (now w) (lanes w)) as [m fs] eqn:Ec. injection E as <-. cbn [lanes tasks receiver_closed].
    split; [| done]. destruct (task_at (tasks w) i _ (Finished c) Ei) as (l1 & l2 & -> & _ & ->).
    unfold work. rewrite !sum_work_app. cbn [fmap list_fmap sum_list sum_list_with]. unfold handle_completed_dispatch in Ec.
    assert (1 <= task_work (Finished c))%nat.
    { cbn. destruct (done_kind c) as [s [|] reply |], (done_result c); lia. }
    destruct (lanes w !! done_player_id c) as [lane |] eqn:El; [| injection Ec as <- <-; unfold id; lia].
    destruct (complete_lane c (now w) lane) as [lane' fs'] eqn:Ecl. pose proof (complete_lane_work _ _ _ _ _ Ecl) as H1.
    destruct (is_idle lane'); injection Ec as <- <-.
    + rewrite (map_concat_lookup _ (lanes w) (done_player_id c)), El, length_app. cbn [from_option]. rewrite repeat_length.
      unfold id. lia.
    + pose proof (map_work_insert (lanes w) (done_player_id c) lane' (task_work (Finished c)) 1) as H2. rewrite El in H2.
      specialize (H2 H1). unfold id. lia.
  - destruct (_ <=? _); [| done]. injection E as <-. cbn. split; [lia | done].
Qed.

Lemma quiet_run w evs w' :
  Forall quiet evs -> worker_run w evs = Some w' ->
  (work (lanes w') (tasks w') + length (filter is_task_event evs) <= work (lanes w) (tasks w))%nat /\
  receiver_closed w' = receiver_closed w.
Proof.
  intros Q. revert w. induction Q as [| ev evs Qe _ IH]; intros w; cbn [worker_run].
  - intros [= <-]. cbn. split; [lia | done].
  - destruct (worker_step w ev) as [w1 |] eqn:E; cbn [mbind option_bind]; [| done]. intros R.
    destruct (quiet_step _ _ _ Qe E) as [H1 C1]. destruct (IH _ R) as [H2 C2]. split; [| congruence].
    rewrite filter_cons. case_decide as D; destruct (is_task_event ev); cbn in *; try done; lia.
Qed.

(** As long as something is left, some quiet events make it less. *)
Lemma drain_progress t w h :
  reachable t w h -> panicked h = [] -> tasks w <> [] \/ lanes w <> ∅ ->
  exists evs w', Forall quiet evs /\ worker_run w evs = Some w' /\
    (work (lanes w') (tasks w') < work (lanes w) (tasks w))%nat.
Proof.
  intros R Hpk. pose proof (reachable_inv _ _ _ R) as [P B]. rewrite Hpk in P.
  destruct (tasks w) as [| [op | c | op] ts] eqn:Et.
  - intros [| Hm]; [done |]. destruct (map_choose (lanes w) Hm) as (id & lane & El).
    set (t' := Z.max (now w) (default 0 (retry_at lane))). set (order := elements (dom (lanes w))).
    pose proof (pi_tasks _ _ _ _ _ _ (P id)) as T. rewrite El in T. cbn in T.
    destruct (in_flight lane) eqn:Ef; [by destruct T as [[? ?] | [_ ?]] |]. destruct T as [_ Hp].
    assert (is_Some (lane_priority lane t')) as Hr.
    { unfold lane_priority. rewrite Ef. unfold pending_snapshot in Hp. destruct (pending_exit lane); [by eexists |].
      destruct (pending_save lane) as [s |]; cbn; [| by destruct Hp]. destruct (save_urgency s); [| by eexists].
      destruct (retry_at lane) as [r |] eqn:Er; [| by eexists]. destruct (Z.ltb_spec t' r); [| by eexists].
      subst t'. cbn in *. lia. }
    assert (id ∈ ready_player_ids (map_iter order (lanes w)) t') as Hin.
    { apply elem_of_ready. exists lane. split; [| done]. apply elem_of_map_iter. split; [| done].
      by apply elem_of_elements, (elem_of_dom_2 _ _ lane). }
    destruct (dispatch_ready_ops (map_iter order (lanes w)) t' (lanes w) []) as [m ts] eqn:Ed.
    exists [Ev_clock t'; Ev_dispatch order]. eexists. split; [by repeat constructor |]. split.
    { cbn [worker_run worker_step]. rewrite (proj2 (Z.leb_le (now w) t')) by (subst t'; lia).
      cbn [mbind option_bind lanes tasks now]. unfold order. rewrite (map_order_elements (lanes w)), Et.
      fold order. by rewrite Ed. }
    cbn. unfold dispatch_ready_ops in Ed. cbn in Ed.
    destruct (ready_player_ids _ t') as [| id' ids] eqn:Eids; [by apply not_elem_of_nil in Hin |].
    assert (id' ∈ ready_player_ids (map_iter order (lanes w)) t') as Hin' by (rewrite Eids; left).
    apply elem_of_ready in Hin' as (lane' & Hi' & Hr'). apply elem_of_map_iter in Hi' as [_ El'].
    pose proof (pi_tasks _ _ _ _ _ _ (P id')) as T'. rewrite El' in T'. cbn in T'.
    rewrite (lane_priority_free _ _ Hr') in T'. destruct T' as [_ Hp'].
    destruct (next_dispatch_ready _ Hp') as (op & lane'' & En). cbn in Ed. rewrite El', En in Ed.
    apply dispatch_loop_work in Ed as [E1 E2]. cbn in E1, E2.
    pose proof (map_work_insert (lanes w) id' (set_in_flight lane'' true) 0 3) as H1. rewrite El' in H1.
    pose proof (next_dispatch_work _ _ _ En) as H2. unfold work in *. unfold lane_work in *. cbn in *. lia.
  - intros _. set (db := {| db_save_player_snapshot := fun _ => Ok Saved; db_commit_player_exit := fun _ _ _ _ _ => Ok tt |}).
    assert (quiet (Ev_run 0 db)) as Q by done.
    destruct (worker_step w (Ev_run 0 db)) as [w' |] eqn:E; [| cbn in E; by rewrite Et in E].
    destruct (quiet_step _ _ _ Q E) as [H _]. cbn [is_task_event] in H. rewrite Et in H.
    exists [Ev_run 0 db], w'. cbn [worker_run]. rewrite E. split; [by constructor |]. split; [done | lia].
  - intros _. assert (quiet (Ev_join 0)) as Q by done.
    destruct (worker_step w (Ev_join 0)) as [w' |] eqn:E.
    2: { cbn in E. rewrite Et in E. cbn in E. by destruct (handle_completed_dispatch _ _ _). }
    destruct (quiet_step _ _ _ Q E) as [H _]. cbn [is_task_event] in H. rewrite Et in H.
    exists [Ev_join 0], w'. cbn [worker_run]. rewrite E. split; [by constructor |]. split; [done | lia].
  - intros _. assert (quiet (Ev_join 0)) as Q by done.
    destruct (worker_step w (Ev_join 0)) as [w' |] eqn:E; [| cbn in E; by rewrite Et in E].
    destruct (quiet_step _ _ _ Q E) as [H _]. cbn [is_task_event] in H. rewrite Et in H.
    exists [Ev_join 0], w'. cbn [worker_run]. rewrite E. split; [by constructor |]. split; [done | lia].
Qed.

Lemma reachable_run t w h evs w' : reachable t w h -> Forall quiet evs -> worker_run w evs = Some w' -> reachable t w' h.
Proof.
  intros R Q. revert w R. induction Q as [| ev evs Qe _ IH]; intros w R; cbn [worker_run]; [by intros [= <-] |].
  destruct (worker_step w ev) as [w1 |] eqn:E; cbn [mbind option_bind]; [| done]. apply IH.
  replace h with (observe w ev h) by (by destruct ev). by apply (reachable_step t w h ev).
Qed.

(** A panicked operation stays on record, and nothing is attempted for its
    player any more. *)
Lemma panicked_step t w h ev w' op :
  reachable t w h -> worker_step w ev = Some w' -> op ∈ panicked h ->
  op ∈ panicked (observe w ev h) /\
  written_of (op_player_id op) (written w') = written_of (op_player_id op) (written w).
Proof.
  intros R E Hop. destruct ev as [[r |] | order | i db | i | i | t']; cbn [worker_step observe] in *.
  - destruct (receiver_closed w); [done |]. destruct (handle_request r (lanes w)). by injection E as <-.
  - destruct (receiver_closed w); [done |]. by injection E as <-.
  - destruct (map_order order (lanes w)); [| done]. destruct (dispatch_ready_ops _ _ _ _). by injection E as <-.
  - destruct (tasks w !! i) as [[op' | c' | op'] |] eqn:Ei; try done. injection E as <-. split; [done |]. cbn [written].
    rewrite written_of_app, decide_False, app_nil_r; [done |]. cbn. intros Eid.
    destruct (reachable_inv _ _ _ R) as [P _]. destruct (pi_stuck _ _ _ _ _ _ (P (op_player_id op))) as [_ T].
    { intros H. apply (not_elem_of_nil op). rewrite <- H. by apply list_elem_of_filter. }
    destruct (T (Running op')) as [? [=]]. apply list_elem_of_filter. split; [done | by eapply list_elem_of_lookup_2].
  - destruct (tasks w !! i) as [[op' | c' | op'] |] eqn:Ei; try done. injection E as <-. split; [| done].
    apply elem_of_app. by left.
  - destruct (tasks w !! i) as [[op' | c' | op'] |] eqn:Ei; try done; [| by injection E as <-].
    destruct (handle_completed_dispatch c' (now w) (lanes w)). by injection E as <-.
  - destruct (_ <=? _); [| done]. by injection E as <-.
Qed.

Lemma panicked_lane t w h op : reachable t w h -> op ∈ panicked h -> is_Some (lanes w !! op_player_id op).
Proof.
  intros R Hop. destruct (reachable_inv _ _ _ R) as [P _].
  destruct (pi_stuck _ _ _ _ _ _ (P (op_player_id op))) as [F _].
  { intros H. apply (not_elem_of_nil op). rewrite <- H. by apply list_elem_of_filter. }
  destruct (lanes w !! op_player_id op); [by eexists | done].
Qed.

Lemma panicked_forever t w h evs w' op :
  reachable t w h -> op ∈ panicked h -> worker_run w evs = Some w' ->
  worker_returns w' = false /\
  written_of (op_player_id op) (written w') = written_of (op_player_id op) (written w).
Proof.
  revert w h. induction evs as [| ev evs IH]; intros w h R Hop; cbn [worker_run].
  - intros [= <-]. split; [| done]. unfold worker_returns. destruct (panicked_lane _ _ _ _ R Hop) as [lane El].
    rewrite (bool_decide_eq_false_2 (lanes w = ∅)); [by rewrite andb_false_r |]. intros Em. by rewrite Em, lookup_empty in El.
  - destruct (worker_step w ev) as [w1 |] eqn:E; cbn [mbind option_bind]; [| done]. intros Er.
    destruct (panicked_step t w h ev w1 op R E Hop) as [Hop' Ew].
    destruct (IH w1 _ (reachable_step _ _ _ _ _ R E) Hop' Er) as [H1 H2]. split; [done | congruence].
Qed.

(** [C33] The worker drains unless a task panicked, and then it never does.
    From any reachable state in which no task has panicked, and without new
    requests, there is a schedule under which every lane and task is gone, so that
    the worker returns if its channel is closed.  While the database does not fail to
    save, no schedule without requests and panics runs or joins more tasks
    than the work there was.  Once a task has panicked no run whatsoever,
    with requests or without, brings the worker to return, and no write of that
    task's player is attempted again. *)
Theorem worker_drains t w h :
  reachable t w h ->
  (panicked h = [] ->
   exists evs w', Forall quiet evs /\ worker_run w evs = Some w' /\ tasks w' = [] /\ lanes w' = ∅ /\
     worker_returns w' = receiver_closed w) /\
  (forall evs w', Forall quiet evs -> worker_run w evs = Some w' ->
     (length (filter is_task_event evs) <= work (lanes w) (tasks w))%nat) /\
  (forall op evs w', op ∈ panicked h -> worker_run w evs = Some w' ->
     worker_returns w' = false /\
     written_of (op_player_id op) (written w') = written_of (op_player_id op) (written w)).
Proof.
  intros R. split; [| split].
  2: { intros evs w' Q E; destruct (quiet_run _ _ _ Q E) as [H _]; lia. }
  2: { intros op evs w' Hop. by apply (panicked_forever t w h). }
  intros Hpk. remember (work (lanes w) (tasks w)) as n eqn:En. revert w En R.
  induction n as [n IH] using lt_wf_ind; intros w -> R.
  destruct (decide (tasks w = [] /\ lanes w = ∅)) as [[E1 E2] | N].
  - exists [], w. split_and!; try done. unfold worker_returns. rewrite E1, E2.
    rewrite !bool_decide_eq_true_2 by done. by rewrite !andb_true_r.
  - destruct (drain_progress t w h R Hpk) as (evs & w1 & Q1 & E1 & L).
    { destruct (decide (tasks w = [])); [right; tauto | by left]. }
    destruct (IH _ L w1 eq_refl (reachable_run _ _ _ _ _ R Q1 E1)) as (evs2 & w2 & Q2 & E2 & T & M & C).
    exists (evs ++ evs2), w2. split; [by apply Forall_app |].
    split; [by rewrite worker_run_app, E1 |]. split; [done |]. split; [done |].
    rewrite C. by apply (quiet_run w evs).
Qed.

(** ** A run *)
Fixpoint history_run (w : Worker) (h : History) (evs : list Event) : option (Worker * History) :=
  match evs with [] => Some (w, h) | ev :: evs => w' ← worker_step w ev; history_run w' (observe w ev h) evs end.

Lemma history_run_reachable t evs w h w' h' :
  reachable t w h -> history_run w h evs = Some (w', h') -> reachable t w' h'.
Proof.
  revert w h. induction evs as [| ev evs IH]; intros w h R; cbn [history_run]; [by intros [= <- <-] |].
  destruct (worker_step w ev) as [w1 |] eqn:E; cbn [mbind option_bind]; [| done].
  by apply IH, (reachable_step t w h ev).
Qed.

Definition sample_snapshot (id hp : Z) : PlayerSnapshot :=
  {| snapshot_runtime :=
       {| prs_id := id; prs_runtime_epoch := 0; prs_map_key := "zohar_map_a1"; prs_local_pos := {| pos_x := f32_one; pos_y := f32_one |};
          prs_playtime := 0; prs_current_hp := Some hp; prs_current_sp := None; prs_current_stamina := None |};
     snapshot_progression :=
       {| pps_level := 1; pps_exp_in_level := 0;
          pps_core_stat_allocations := {| allocated_str := 0; allocated_vit := 0; allocated_dex := 0; allocated_int := 0 |};
          pps_stat_reset_count := 0 |} |}.
Definition sample_db : Db :=
  {| db_save_player_snapshot := fun _ => Ok Saved; db_commit_player_exit := fun _ _ _ _ _ => Ok tt |}.
Definition failing_db : Db :=
  {| db_save_player_snapshot := fun _ => Err "connection lost"%string; db_commit_player_exit := fun _ _ _ _ _ => Ok tt |}.

(** An autosave that fails while a newer flush is already waiting. *)
Definition sample_events : list Event :=
  [Ev_request (Some (SaveSnapshot (sample_snapshot 1 100) Autosave None)); Ev_dispatch [1];
   Ev_request (Some (SaveSnapshot (sample_snapshot 1 70) FlushNow (Some 7%nat))); Ev_run 0 failing_db; Ev_join 0;
   Ev_dispatch [1]; Ev_run 0 sample_db].
Definition sample_end : option (Worker * History) :=
  history_run (Worker_new 0) no_history (sample_events ++ [Ev_join 0]).
Definition sample_mid : option (Worker * History) :=
  history_run (Worker_new 0) no_history sample_events.

Lemma sample_reachable evs w h :
  history_run (Worker_new 0) no_history evs = Some (w, h) -> reachable 0 w h.
Proof. apply history_run_reachable, reachable_new. Qed.

(** A run in which a task panics, and a save comes in afterwards. *)
Definition panic_end : option (Worker * History) :=
  history_run (Worker_new 0) no_history
    [Ev_request (Some (SaveSnapshot (sample_snapshot 1 100) Autosave None)); Ev_dispatch [1]; Ev_panic 0; Ev_join 0;
     Ev_request (Some (SaveSnapshot (sample_snapshot 1 70) FlushNow (Some 7%nat))); Ev_request None; Ev_dispatch [1]].

Lemma worker_writes_in_order_witness :
  exists w h c, sample_end = Some (w, h) /\ lanes w !! 1 = None /\
    last (written_of 1 (written w)) = Some c /\ done_snapshot c = sample_snapshot 1 70 /\
    last (written_of 1 (saved w)) = Some c.
Proof.
  destruct sample_end as [[w h] |] eqn:E; [| vm_compute in E; discriminate].
  destruct (worker_writes_in_order 0 w h (sample_reachable _ w h E)) as (_ & _ & H).
  assert (lanes w !! 1 = None) as El by (vm_compute in E; injection E as <- _; reflexivity).
  assert (last (accepted_of 1 (accepted h)) = Some (sample_snapshot 1 70)) as La
    by (vm_compute in E; injection E as _ <-; reflexivity).
  assert (last (written_of 1 (written w)) = last (written_of 1 (saved w))) as Es
    by (vm_compute in E; injection E as <- _; reflexivity).
  destruct (H 1) as (_ & _ & _ & K). specialize (K (sample_snapshot 1 70) La).
  unfold last_snapshot_kept in K. rewrite El in K. destruct K as (c & Hc & Hs & _). exists w, h, c.
  split; [reflexivity |]. split; [exact El |]. split; [exact Hc |]. split; [exact Hs |]. rewrite <- Es. exact Hc.
Defined.

Lemma worker_replies_witness :
  exists w h c, sample_end = Some (w, h) /\ c ∈ written w /\ kind_reply (done_kind c) = Some 7%nat /\ confirmed c.
Proof.
  destruct sample_end as [[w h] |] eqn:E; [| vm_compute in E; discriminate].
  destruct (worker_replies 0 w h (sample_reachable _ w h E)) as [_ H].
  assert ((7%nat, Some (Ok tt)) ∈ fates w) as Hin by (vm_compute in E; injection E as <- _; left).
  destruct (H 7%nat Hin) as (c & Hc & Hk & Hok). exists w, h, c. exact (conj eq_refl (conj Hc (conj Hk Hok))).
Defined.

Lemma worker_drains_witness :
  (exists w h, sample_mid = Some (w, h) /\
    exists evs w', Forall quiet evs /\ worker_run w evs = Some w' /\ tasks w' = [] /\ lanes w' = ∅) /\
  (exists w h, panic_end = Some (w, h) /\ tasks w = [] /\ receiver_closed w = true /\
    forall evs w', worker_run w evs = Some w' -> worker_returns w' = false).
Proof.
  split.
  - destruct sample_mid as [[w h] |] eqn:E; [| vm_compute in E; discriminate].
    destruct (worker_drains 0 w h (sample_reachable _ w h E)) as (D & _).
    assert (panicked h = []) as Hpk by (vm_compute in E; injection E as _ <-; reflexivity).
    destruct (D Hpk) as (evs & w' & Q & R & T & L & _).
    exists w, h. split; [reflexivity |]. exists evs, w'. exact (conj Q (conj R (conj T L))).
  - destruct panic_end as [[w h] |] eqn:E; [| vm_compute in E; discriminate].
    destruct (worker_drains 0 w h (sample_reachable _ w h E)) as (_ & _ & D).
    assert (exists op, op ∈ panicked h) as [op Hop] by (vm_compute in E; injection E as _ <-; eexists; left).
    exists w, h. split; [reflexivity |]. split; [vm_compute in E; by injection E as <- _ |].
    split; [vm_compute in E; by injection E as <- _ |].
    intros evs w' Er. exact (proj1 (D op evs w' Hop Er)).
Defined.
