(* ===== verification/Text.v ===== *)
(** Text: Rust strings are UTF-8 bytes.  What the sources use of [str] and
    [char] in the standard library (lossy decoding, characters, white space), and
    [decode_cstr] of [zohar-protocol/src/lib.rs]. *)
From S2P Require Import Prelude Wire.
From Stdlib Require Import Ascii.
From Stdlib Require String.

(** A [String] of the model holds the bytes. *)
Definition bytes_of (s : string) : bytes := map (fun a => Z.of_N (N_of_ascii a)) (String.list_ascii_of_string s).
Definition of_bytes (l : bytes) : string := String.string_of_list_ascii (map (fun b => ascii_of_N (Z.to_N b)) l).

Lemma of_bytes_of s : of_bytes (bytes_of s) = s.
Proof.
  unfold of_bytes, bytes_of. rewrite map_map. rewrite <- (String.string_of_list_ascii_of_string s) at 2. f_equal.
  induction (String.list_ascii_of_string s) as [| a l IH]; [done |]. cbn. by rewrite N2Z.id, ascii_N_embedding, IH.
Qed.
Lemma bytes_of_bytes s : Forall is_byte (bytes_of s).
Proof.
  unfold bytes_of. induction (String.list_ascii_of_string s) as [| a l IH]; constructor; [| exact IH].
  pose proof (N_ascii_bounded a). unfold is_byte. lia.
Qed.
Lemma bytes_of_of_bytes l : Forall is_byte l -> bytes_of (of_bytes l) = l.
Proof.
  unfold of_bytes, bytes_of. rewrite String.list_ascii_of_string_of_list_ascii, map_map. induction 1 as [| b l Hb Hl IH]; [done |].
  cbn. unfold is_byte in Hb. rewrite N_ascii_embedding by lia. by rewrite Z2N.id, IH by lia.
Qed.

(** ** Decoding ([core::str::lossy], [from_utf8_lossy]) *)
Definition is_cont (b : Z) : bool := Z.land b 192 =? 128.
Definition between (lo b hi : Z) : bool := (lo <=? b) && (b <=? hi).

(** The first byte says how many follow and narrows the range of the second. *)
Definition second_ok (first second : Z) : bool :=
  if between 0xC2 first 0xDF then is_cont second
  else if first =? 0xE0 then between 0xA0 second 0xBF
  else if between 0xE1 first 0xEC then between 0x80 second 0xBF
  else if first =? 0xED then between 0x80 second 0x9F
  else if between 0xEE first 0xEF then between 0x80 second 0xBF
  else if first =? 0xF0 then between 0x90 second 0xBF
  else if between 0xF1 first 0xF3 then between 0x80 second 0xBF
  else if first =? 0xF4 then between 0x80 second 0x8F
  else false.
Definition utf8_char_width (first : Z) : nat :=
  if first <? 0x80 then 1 else if between 0xC2 first 0xDF then 2 else if between 0xE0 first 0xEF then 3
  else if between 0xF0 first 0xF4 then 4 else 0.

(** One step at the head of the input: whether a character was read, and the
    number of bytes used; a missing byte reads as zero ([safe_get]). *)
Definition utf8_step (first : Z) (l : bytes) : bool * nat :=
  let at_ i := nth i l 0 in
  match utf8_char_width first with
  | 1%nat => (true, 1%nat)
  | 2%nat => if second_ok first (at_ 0%nat) then (true, 2%nat) else (false, 1%nat)
  | 3%nat =>
      if negb (second_ok first (at_ 0%nat)) then (false, 1%nat)
      else if negb (is_cont (at_ 1%nat)) then (false, 2%nat) else (true, 3%nat)
  | 4%nat =>
      if negb (second_ok first (at_ 0%nat)) then (false, 1%nat)
      else if negb (is_cont (at_ 1%nat)) then (false, 2%nat)
      else if negb (is_cont (at_ 2%nat)) then (false, 3%nat) else (true, 4%nat)
  | _ => (false, 1%nat)
  end.

Definition REPLACEMENT : bytes := [0xEF; 0xBF; 0xBD].

(** Every step uses at least one byte, so the length of the input is enough fuel. *)
Fixpoint lossy_from (fuel : nat) (l : bytes) : bytes :=
  match fuel, l with
  | S fuel, b :: l =>
      let '(ok, n) := utf8_step b l in
      (if ok then take n (b :: l) else REPLACEMENT) ++ lossy_from fuel (drop n (b :: l))
  | _, _ => []
  end.
Definition from_utf8_lossy (l : bytes) : bytes := lossy_from (length l) l.
Fixpoint valid_from (fuel : nat) (l : bytes) : bool :=
  match fuel, l with
  | S fuel, b :: l => let '(ok, n) := utf8_step b l in ok && valid_from fuel (drop n (b :: l))
  | _, _ => true
  end.
Definition is_utf8 (l : bytes) : bool := valid_from (length l) l.

Fixpoint until_nul (l : bytes) : bytes :=
  match l with b :: l => if b =? 0 then [] else b :: until_nul l | [] => [] end.
Definition decode_cstr (l : bytes) : string := of_bytes (from_utf8_lossy (until_nul l)).

(** ** Characters *)

(** The code points of valid UTF-8. *)
Definition decode_char (l : bytes) : Z :=
  match l with
  | [a] => a
  | [a; b] => Z.lor (Z.shiftl (Z.land a 0x1F) 6) (Z.land b 0x3F)
  | [a; b; c] => Z.lor (Z.shiftl (Z.land a 0x0F) 12) (Z.lor (Z.shiftl (Z.land b 0x3F) 6) (Z.land c 0x3F))
  | [a; b; c; d] =>
      Z.lor (Z.shiftl (Z.land a 0x07) 18)
        (Z.lor (Z.shiftl (Z.land b 0x3F) 12) (Z.lor (Z.shiftl (Z.land c 0x3F) 6) (Z.land d 0x3F)))
  | _ => 0
  end.

(** A character is kept with its bytes. *)
Record char : Type := { char_bytes : bytes; code_point : Z }.
Fixpoint chars_from (fuel : nat) (l : bytes) : list char :=
  match fuel, l with
  | S fuel, b :: l =>
      let '(_, n) := utf8_step b l in
      {| char_bytes := take n (b :: l); code_point := decode_char (take n (b :: l)) |} :: chars_from fuel (drop n (b :: l))
  | _, _ => []
  end.
Definition chars (s : string) : list char := let l := bytes_of s in chars_from (length l) l.
Definition text_of (l : list char) : string := of_bytes (concat (char_bytes <$> l)).

(** [char::is_whitespace]: the Unicode property [White_Space]. *)
Definition is_whitespace (c : char) : bool :=
  let p := code_point c in
  between 0x09 p 0x0D || (p =? 0x20) || (p =? 0x85) || (p =? 0xA0) || (p =? 0x1680) || between 0x2000 p 0x200A ||
  (p =? 0x2028) || (p =? 0x2029) || (p =? 0x202F) || (p =? 0x205F) || (p =? 0x3000).
Fixpoint trim_start (l : list char) : list char :=
  match l with c :: l' => if is_whitespace c then trim_start l' else l | [] => [] end.
Definition trim (l : list char) : list char := rev (trim_start (rev (trim_start l))).

(** ** Facts *)
Lemma utf8_step_bounds b l ok n : utf8_step b l = (ok, n) -> (1 <= n)%nat /\ (n <= 4)%nat.
Proof.
  unfold utf8_step. destruct (utf8_char_width b) as [| [| [| [| [| w]]]]]; repeat case_match; intros [= <- <-]; lia.
Qed.

(** What is read looks only at the bytes it uses, and a read character does not
    run past the end. *)
Lemma second_ok_nonzero b : second_ok b 0 = false.
Proof. unfold second_ok. repeat match goal with |- context [if ?c then _ else _] => destruct c; [reflexivity |] end. reflexivity. Qed.
Lemma is_cont_zero : is_cont 0 = false. Proof. done. Qed.

Lemma utf8_step_fits b l n : utf8_step b l = (true, n) -> (n <= length (b :: l))%nat.
Proof.
  unfold utf8_step. destruct (utf8_char_width b) as [| [| [| [| [| w]]]]];
    destruct l as [| c [| d [| e l]]]; cbn [nth length]; rewrite ?second_ok_nonzero, ?is_cont_zero;
    repeat case_match; intros [= <-]; cbn in *; try lia; try discriminate.
Qed.

Lemma utf8_step_prefix b l n s :
  utf8_step b l = (true, n) -> utf8_step b (take (n - 1) l ++ s) = (true, n).
Proof.
  intros H. pose proof (utf8_step_fits _ _ _ H) as Hf. cbn [length] in Hf.
  assert (forall i, (i < n - 1)%nat -> nth i (take (n - 1) l ++ s) 0 = nth i l 0) as Hn.
  { intros i Hi. rewrite app_nth1 by (rewrite length_take; lia). rewrite !nth_lookup, lookup_take_lt by lia. done. }
  revert H. unfold utf8_step.
  destruct (utf8_char_width b) as [| [| [| [| [| w]]]]]; repeat case_match; intros [= <-]; cbn [Nat.sub] in *;
    rewrite ?Hn in * by lia; congruence.
Qed.

Lemma valid_from_fuel fuel fuel' l : (length l <= fuel)%nat -> (length l <= fuel')%nat -> valid_from fuel l = valid_from fuel' l.
Proof.
  revert fuel' l. induction fuel as [| fuel IH]; intros fuel' [| b l] H H'; cbn in H; try lia; [by destruct fuel' | by destruct fuel' |].
  destruct fuel' as [| fuel']; [cbn in H'; lia |]. cbn [valid_from]. destruct (utf8_step b l) as [ok n] eqn:E.
  pose proof (utf8_step_bounds _ _ _ _ E). f_equal. cbn in *. apply IH; rewrite length_drop; cbn; lia.
Qed.

Lemma is_utf8_cons b l n : utf8_step b l = (true, n) -> is_utf8 (b :: l) = is_utf8 (drop n (b :: l)).
Proof.
  intros E. unfold is_utf8 at 1. cbn [length valid_from]. rewrite E. cbn [andb].
  pose proof (utf8_step_bounds _ _ _ _ E). apply valid_from_fuel; [| done]. rewrite length_drop. cbn. lia.
Qed.

(** A character in front of valid text is valid text. *)
Lemma is_utf8_char b l n rest : utf8_step b l = (true, n) -> is_utf8 rest = true -> is_utf8 (take n (b :: l) ++ rest) = true.
Proof.
  intros E Hr. pose proof (utf8_step_bounds _ _ _ _ E) as [Hn _]. pose proof (utf8_step_fits _ _ _ E) as Hf.
  destruct n as [| n]; [lia |]. cbn [firstn app]. cbn [length] in Hf.
  pose proof (utf8_step_prefix b l (S n) rest E) as E'. replace (S n - 1)%nat with n in E' by lia.
  rewrite (is_utf8_cons _ _ _ E'). cbn [drop]. rewrite drop_app_length'; [done |]. rewrite length_take. lia.
Qed.

Lemma is_utf8_replacement rest : is_utf8 rest = true -> is_utf8 (REPLACEMENT ++ rest) = true.
Proof. intros H. apply (is_utf8_char 0xEF [0xBF; 0xBD] 3%nat rest); [done | exact H]. Qed.

Lemma lossy_from_utf8 fuel l : (length l <= fuel)%nat -> is_utf8 (lossy_from fuel l) = true.
Proof.
  revert l. induction fuel as [| fuel IH]; intros [| b l] H; try done. cbn [lossy_from].
  destruct (utf8_step b l) as [ok n] eqn:E. pose proof (utf8_step_bounds _ _ _ _ E) as [Hn _].
  assert (is_utf8 (lossy_from fuel (drop n (b :: l))) = true) as Hr.
  { apply IH. rewrite length_drop. cbn in *. lia. }
  destruct ok; [by apply is_utf8_char | by apply is_utf8_replacement].
Qed.

Lemma lossy_from_valid fuel l : (length l <= fuel)%nat -> valid_from fuel l = true -> lossy_from fuel l = l.
Proof.
  revert l. induction fuel as [| fuel IH]; intros [| b l] H; try done; [cbn in H; lia |]. cbn [lossy_from valid_from].
  destruct (utf8_step b l) as [ok n] eqn:E. pose proof (utf8_step_bounds _ _ _ _ E) as [Hn _].
  intros [-> Hv]%andb_prop. rewrite IH; [apply take_drop | rewrite length_drop; cbn in *; lia | done].
Qed.

(** Lossy decoding gives valid text, and keeps text that is valid. *)
Lemma from_utf8_lossy_spec l : is_utf8 (from_utf8_lossy l) = true /\ (is_utf8 l = true -> from_utf8_lossy l = l).
Proof. split; [by apply lossy_from_utf8 | by apply lossy_from_valid]. Qed.

Lemma until_nul_app l s : ~ (0 ∈ l) -> until_nul (l ++ 0 :: s) = l.
Proof.
  induction l as [| b l IH]; [done |]. intros H. cbn. destruct (Z.eqb_spec b 0) as [-> |]; [exfalso; apply H; by left |].
  rewrite IH; [done |]. intros Hi. apply H. by right.
Qed.

(** Text padded with NULs to a fixed width decodes to itself. *)
Lemma decode_cstr_padded s pad : is_utf8 (bytes_of s) = true -> ~ (0 ∈ bytes_of s) -> decode_cstr (bytes_of s ++ 0 :: pad) = s.
Proof.
  intros Hv Hz. unfold decode_cstr. rewrite until_nul_app by done.
  rewrite (proj2 (from_utf8_lossy_spec _)) by done. apply of_bytes_of.
Qed.
