(* ===== verification/Coords.v ===== *)
(** Maps and their place in the world ([zohar-gamesrv/src/coords.rs]): the
    validation of the content catalogue at start-up, the conversions between
    map-local, world and wire coordinates, and the choice of a spawn position.

    [HashMap]s that are iterated take the order of iteration as an argument.  The
    content types are those of [zohar-content/src/types], reduced to the fields
    read here. *)
From S2P Require Import Prelude Domain Float Space.

#[export] Instance Empire_countable : Countable Empire.
Proof.
  refine (inj_countable (fun e => match e with Empire_Red => 0 | Empire_Yellow => 1 | Empire_Blue => 2 end)
            (fun z => if z =? 0 then Some Empire_Red else if z =? 1 then Some Empire_Yellow else Some Empire_Blue) _).
  by intros [].
Defined.

(** ** Content *)
Record ContentMap : Type := {
  cm_map_id : MapId; cm_width : spec_float; cm_height : spec_float; cm_empire : option Empire;
  cm_base_x : option spec_float; cm_base_y : option spec_float }.
Record MapTownSpawn : Type := { mts_map_id : MapId; mts_empire : Empire; mts_x : spec_float; mts_y : spec_float }.
Record EmpireStartConfig : Type := {
  esc_empire : Empire; esc_start_map_id : MapId; esc_start_x : spec_float; esc_start_y : spec_float }.
Record ContentCatalog : Type := {
  cat_maps : list ContentMap; cat_town_spawns : list MapTownSpawn;
  cat_empire_start_configs : list EmpireStartConfig }.

(** ** Wire coordinates *)
Definition CM_PER_METER : spec_float := f32_of_int 100.
Definition wire_cm_to_meters (coord_cm : Z) : spec_float := f32_div (f32_of_int coord_cm) CM_PER_METER.
(** [f32::trunc] *)
Definition f32_trunc (x : spec_float) : spec_float :=
  if SFltb x f32_zero then f_ceil binary32 x else f_floor binary32 x.
Definition meters_to_wire_cm (coord_m : spec_float) : Z := f_to_i32 (f32_trunc (f32_mul coord_m CM_PER_METER)).
Record WireWorldPos : Type := { x_cm : Z; y_cm : Z }.
Definition to_protocol (pos : WorldPos) : WireWorldPos :=
  {| x_cm := meters_to_wire_cm (world_x pos); y_cm := meters_to_wire_cm (world_y pos) |}.

(** ** One map *)
Record MapCoordMeta : Type := {
  meta_map_id : MapId; base_x : spec_float; base_y : spec_float; map_width : spec_float; map_height : spec_float;
  meta_empire : option Empire }.

Definition contains_local (m : MapCoordMeta) (local : LocalPos) : bool :=
  if negb (f_is_finite (pos_x local)) || negb (f_is_finite (pos_y local)) then false
  else
    SFleb f32_zero (pos_x local) && SFltb (pos_x local) (map_width m) &&
    SFleb f32_zero (pos_y local) && SFltb (pos_y local) (map_height m).

Definition meta_to_world (m : MapCoordMeta) (local : LocalPos) : WorldPos :=
  {| world_x := f32_add (base_x m) (pos_x local); world_y := f32_add (base_y m) (pos_y local) |}.
Definition meta_to_local (m : MapCoordMeta) (world : WorldPos) : option LocalPos :=
  let local := {| pos_x := f32_sub (world_x world) (base_x m); pos_y := f32_sub (world_y world) (base_y m) |} in
  if contains_local m local then Some local else None.

(** ** The validated catalogue *)
Record EmpireStart : Type := { start_map_id : MapId; start_x : spec_float; start_y : spec_float }.
Record EmpireStarts : Type := { red : EmpireStart; yellow : EmpireStart; blue : EmpireStart }.
Definition starts_get (s : EmpireStarts) (empire : Empire) : EmpireStart :=
  match empire with Empire_Red => red s | Empire_Yellow => yellow s | Empire_Blue => blue s end.

Record ContentCoords : Type := {
  maps : gmap MapId MapCoordMeta;
  town_spawns : gmap (MapId * Empire) LocalPos;
  empire_starts : EmpireStarts }.

Inductive CoordsError : Type :=
| MissingBase (map_id : MapId) | NonFiniteOrigin (map_id : MapId) | NonFiniteDimensions (map_id : MapId)
| InvalidDimensions (map_id : MapId) | NonFiniteProjection (map_id : MapId) | DuplicateMap (map_id : MapId)
| NoMaps
| TownSpawnUnknownMap (map_id : MapId) | TownSpawnOutOfBounds (map_id : MapId) | DuplicateTownSpawn (map_id : MapId)
| StartNonFinite (empire : Empire) | StartUnknownMap (empire : Empire) | StartOutOfBounds (empire : Empire)
| DuplicateStart (empire : Empire) | MissingStart (empire : Empire).

(** The checks of one map. *)
Definition check_map (map : ContentMap) : result MapCoordMeta CoordsError :=
  let id := cm_map_id map in
  match cm_base_x map, cm_base_y map with
  | Some bx, Some by_ =>
      if negb (f_is_finite bx) || negb (f_is_finite by_) then Err (NonFiniteOrigin id)
      else if negb (f_is_finite (cm_width map)) || negb (f_is_finite (cm_height map)) then Err (NonFiniteDimensions id)
      else if SFleb (cm_width map) f32_zero || SFleb (cm_height map) f32_zero then Err (InvalidDimensions id)
      else if negb (f_is_finite (f32_add bx (f32_sub (cm_width map) f32_one))) ||
              negb (f_is_finite (f32_add by_ (f32_sub (cm_height map) f32_one))) then Err (NonFiniteProjection id)
      else Ok {| meta_map_id := id; base_x := bx; base_y := by_; map_width := cm_width map;
                 map_height := cm_height map; meta_empire := cm_empire map |}
  | _, _ => Err (MissingBase id)
  end.

Fixpoint add_maps (l : list ContentMap) (m : gmap MapId MapCoordMeta) : result (gmap MapId MapCoordMeta) CoordsError :=
  match l with
  | [] => Ok m
  | map :: l =>
      let? meta := check_map map in
      match m !! cm_map_id map with
      | Some _ => Err (DuplicateMap (cm_map_id map))
      | None => add_maps l (<[cm_map_id map := meta]> m)
      end
  end.

Fixpoint add_town_spawns (m : gmap MapId MapCoordMeta) (l : list MapTownSpawn) (spawns : gmap (MapId * Empire) LocalPos)
  : result (gmap (MapId * Empire) LocalPos) CoordsError :=
  match l with
  | [] => Ok spawns
  | spawn :: l =>
      let local_pos := {| pos_x := mts_x spawn; pos_y := mts_y spawn |} in
      match m !! mts_map_id spawn with
      | None => Err (TownSpawnUnknownMap (mts_map_id spawn))
      | Some map =>
          if negb (contains_local map local_pos) then Err (TownSpawnOutOfBounds (mts_map_id spawn))
          else
            match spawns !! (mts_map_id spawn, mts_empire spawn) with
            | Some _ => Err (DuplicateTownSpawn (mts_map_id spawn))
            | None => add_town_spawns m l (<[(mts_map_id spawn, mts_empire spawn) := local_pos]> spawns)
            end
      end
  end.

(** The three [Option<EmpireStart>] variables. *)
Record PartialStarts : Type := { p_red : option EmpireStart; p_yellow : option EmpireStart; p_blue : option EmpireStart }.
Definition partial_get (p : PartialStarts) (empire : Empire) : option EmpireStart :=
  match empire with Empire_Red => p_red p | Empire_Yellow => p_yellow p | Empire_Blue => p_blue p end.
Definition partial_set (p : PartialStarts) (empire : Empire) (s : EmpireStart) : PartialStarts :=
  match empire with
  | Empire_Red => {| p_red := Some s; p_yellow := p_yellow p; p_blue := p_blue p |}
  | Empire_Yellow => {| p_red := p_red p; p_yellow := Some s; p_blue := p_blue p |}
  | Empire_Blue => {| p_red := p_red p; p_yellow := p_yellow p; p_blue := Some s |}
  end.

Fixpoint add_starts (m : gmap MapId MapCoordMeta) (l : list EmpireStartConfig) (p : PartialStarts)
  : result PartialStarts CoordsError :=
  match l with
  | [] => Ok p
  | start :: l =>
      let empire := esc_empire start in
      if negb (f_is_finite (esc_start_x start)) || negb (f_is_finite (esc_start_y start)) then Err (StartNonFinite empire)
      else
        match m !! esc_start_map_id start with
        | None => Err (StartUnknownMap empire)
        | Some map =>
            if negb (contains_local map {| pos_x := esc_start_x start; pos_y := esc_start_y start |}) then
              Err (StartOutOfBounds empire)
            else
              match partial_get p empire with
              | Some _ => Err (DuplicateStart empire)
              | None =>
                  add_starts m l (partial_set p empire
                    {| start_map_id := esc_start_map_id start; start_x := esc_start_x start; start_y := esc_start_y start |})
              end
        end
  end.

Definition require_start (p : PartialStarts) (empire : Empire) : result EmpireStart CoordsError :=
  match partial_get p empire with Some s => Ok s | None => Err (MissingStart empire) end.

(** [ContentCoords::from_catalog] *)
Definition from_catalog (catalog : ContentCatalog) : result ContentCoords CoordsError :=
  let? m := add_maps (cat_maps catalog) ∅ in
  if decide (m = ∅) then Err NoMaps
  else
    let? spawns := add_town_spawns m (cat_town_spawns catalog) ∅ in
    let? p := add_starts m (cat_empire_start_configs catalog) {| p_red := None; p_yellow := None; p_blue := None |} in
    let? r := require_start p Empire_Red in
    let? y := require_start p Empire_Yellow in
    let? b := require_start p Empire_Blue in
    Ok {| maps := m; town_spawns := spawns; empire_starts := {| red := r; yellow := y; blue := b |} |}.

(** ** Queries *)
Record PersistedPlayerPos : Type := { pp_map_key : MapId; pp_local_x : spec_float; pp_local_y : spec_float }.
Record ResolvedSpawn : Type := { rs_map_id : MapId; rs_local_pos : LocalPos; rs_used_fallback : bool }.

(** A player's stored row, its columns nullable one by one. *)
Definition persisted_from_runtime_state (map_key : option MapId) (local_x local_y : option spec_float)
  : option PersistedPlayerPos :=
  match map_key, local_x, local_y with
  | Some k, Some x, Some y => Some {| pp_map_key := k; pp_local_x := x; pp_local_y := y |}
  | _, _, _ => None
  end.

Definition map_id_from_str (c : ContentCoords) (code : MapId) : option MapId :=
  match maps c !! code with Some _ => Some code | None => None end.
Definition is_valid_map (c : ContentCoords) (map_id : MapId) : bool := bool_decide (is_Some (maps c !! map_id)).
Definition map_empire (c : ContentCoords) (map_id : MapId) : option Empire := maps c !! map_id ≫= meta_empire.
Definition map_local_size (c : ContentCoords) (map_id : MapId) : option LocalSize :=
  meta ← maps c !! map_id; Some {| size_width := map_width meta; size_height := map_height meta |}.

Definition local_to_world (c : ContentCoords) (map_id : MapId) (local_pos : LocalPos) : option WorldPos :=
  map ← maps c !! map_id; if contains_local map local_pos then Some (meta_to_world map local_pos) else None.
Definition world_to_local (c : ContentCoords) (map_id : MapId) (world_pos : WorldPos) : option LocalPos :=
  map ← maps c !! map_id; meta_to_local map world_pos.
Definition world_wire_to_local (c : ContentCoords) (map_id : MapId) (pos : WireWorldPos) : option LocalPos :=
  world_to_local c map_id {| world_x := wire_cm_to_meters (x_cm pos); world_y := wire_cm_to_meters (y_cm pos) |}.

(** The loop over the maps gives up at the second map that contains the point. *)
Fixpoint resolve_loop (world_pos : WorldPos) (iter : list (MapId * MapCoordMeta)) (resolved : option (MapId * LocalPos))
  : option (MapId * LocalPos) :=
  match iter with
  | [] => resolved
  | (map_id, map) :: iter =>
      match meta_to_local map world_pos with
      | None => resolve_loop world_pos iter resolved
      | Some local_pos =>
          match resolved with Some _ => None | None => resolve_loop world_pos iter (Some (map_id, local_pos)) end
      end
  end.
Definition resolve_world_destination (order : list MapId) (c : ContentCoords) (world_pos : WorldPos)
  : option (MapId * LocalPos) := resolve_loop world_pos (map_iter order (maps c)) None.

Fixpoint town_loop (map_id : MapId) (iter : list ((MapId * Empire) * LocalPos)) (fallback : option LocalPos)
  : option LocalPos :=
  match iter with
  | [] => fallback
  | ((spawn_map_id, _), pos) :: iter =>
      if decide (spawn_map_id = map_id) then
        match fallback with Some _ => None | None => town_loop map_id iter (Some pos) end
      else town_loop map_id iter fallback
  end.
Definition resolve_town_spawn (order : list (MapId * Empire)) (c : ContentCoords) (map_id : MapId)
    (preferred_empire : Empire) : option LocalPos :=
  match town_spawns c !! (map_id, preferred_empire) with
  | Some pos => Some pos
  | None => town_loop map_id (map_iter order (town_spawns c)) None
  end.

Definition start_spawn (c : ContentCoords) (empire : Empire) : ResolvedSpawn :=
  let start := starts_get (empire_starts c) empire in
  {| rs_map_id := start_map_id start; rs_local_pos := {| pos_x := start_x start; pos_y := start_y start |};
     rs_used_fallback := true |}.

Definition resolve_town_restart (order : list (MapId * Empire)) (c : ContentCoords) (map_id : MapId) (empire : Empire)
  : ResolvedSpawn :=
  match resolve_town_spawn order c map_id empire with
  | Some local_pos => {| rs_map_id := map_id; rs_local_pos := local_pos; rs_used_fallback := false |}
  | None => start_spawn c empire
  end.

(** [None] is the panic of [expect] on a start map that does not exist. *)
Definition resolve_spawn (c : ContentCoords) (persisted : option PersistedPlayerPos) (empire : Empire)
  : option ResolvedSpawn :=
  let fallback :=
    _ ← maps c !! start_map_id (starts_get (empire_starts c) empire); Some (start_spawn c empire) in
  match persisted with
  | None => fallback
  | Some saved =>
      match maps c !! pp_map_key saved with
      | None => fallback
      | Some map =>
          let local_pos := {| pos_x := pp_local_x saved; pos_y := pp_local_y saved |} in
          if contains_local map local_pos then
            Some {| rs_map_id := meta_map_id map; rs_local_pos := local_pos; rs_used_fallback := false |}
          else fallback
      end
  end.

Definition resolve_spawn_for_player (c : ContentCoords) (player : option (option MapId * option spec_float * option spec_float))
    (empire : Empire) : option ResolvedSpawn :=
  resolve_spawn c ('(k, x, y) ← player; persisted_from_runtime_state k x y) empire.

(** ** Valid catalogues *)
Definition meta_of (m : ContentMap) : MapCoordMeta :=
  {| meta_map_id := cm_map_id m; base_x := default f32_zero (cm_base_x m); base_y := default f32_zero (cm_base_y m);
     map_width := cm_width m; map_height := cm_height m; meta_empire := cm_empire m |}.

(** A side has a finite origin and positive finite length, and its last whole
    metre is still at a finite world coordinate. *)
Definition side_valid (base : option spec_float) (len : spec_float) : Prop :=
  exists b, base = Some b /\ f_is_finite b = true /\ f_is_finite len = true /\ SFleb len f32_zero = false /\
    f_is_finite (f32_add b (f32_sub len f32_one)) = true.
Definition map_valid (m : ContentMap) : Prop :=
  side_valid (cm_base_x m) (cm_width m) /\ side_valid (cm_base_y m) (cm_height m).

(** A position is on a map of the list. *)
Definition placed (l : list ContentMap) (id : MapId) (pos : LocalPos) : Prop :=
  exists m, m ∈ l /\ cm_map_id m = id /\ contains_local (meta_of m) pos = true.

Definition spawn_pos (s : MapTownSpawn) : LocalPos := {| pos_x := mts_x s; pos_y := mts_y s |}.
Definition spawn_key (s : MapTownSpawn) : MapId * Empire := (mts_map_id s, mts_empire s).
Definition config_pos (s : EmpireStartConfig) : LocalPos := {| pos_x := esc_start_x s; pos_y := esc_start_y s |}.
Definition config_start (s : EmpireStartConfig) : EmpireStart :=
  {| start_map_id := esc_start_map_id s; start_x := esc_start_x s; start_y := esc_start_y s |}.

Record catalog_valid (c : ContentCatalog) : Prop := {
  cv_maps : Forall map_valid (cat_maps c);
  cv_ids : NoDup (cm_map_id <$> cat_maps c);
  cv_some : cat_maps c <> [];
  cv_spawns : forall s, s ∈ cat_town_spawns c -> placed (cat_maps c) (mts_map_id s) (spawn_pos s);
  cv_spawn_keys : NoDup (spawn_key <$> cat_town_spawns c);
  cv_starts : forall s, s ∈ cat_empire_start_configs c -> placed (cat_maps c) (esc_start_map_id s) (config_pos s);
  cv_start_empires : NoDup (esc_empire <$> cat_empire_start_configs c);
  cv_all_empires : forall e, e ∈ esc_empire <$> cat_empire_start_configs c }.

Lemma check_map_spec m :
  match check_map m with Ok meta => map_valid m /\ meta = meta_of m | Err _ => ~ map_valid m end.
Proof.
  unfold check_map, map_valid, meta_of, side_valid. destruct (cm_base_x m) as [bx |]; [| intros [(? & ? & _) _]; done].
  destruct (cm_base_y m) as [by_ |]; [| intros [_ (? & ? & _)]; done]. cbn.
  destruct (f_is_finite bx) eqn:E1, (f_is_finite by_) eqn:E2; cbn;
    try (intros [(b1 & [= <-] & ?) (b2 & [= <-] & ?)]; intuition congruence).
  destruct (f_is_finite (cm_width m)) eqn:E3, (f_is_finite (cm_height m)) eqn:E4; cbn;
    try (intros [(b1 & [= <-] & ?) (b2 & [= <-] & ?)]; intuition congruence).
  destruct (SFleb (cm_width m) f32_zero) eqn:E5, (SFleb (cm_height m) f32_zero) eqn:E6; cbn;
    try (intros [(b1 & [= <-] & ?) (b2 & [= <-] & ?)]; intuition congruence).
  destruct (f_is_finite (f32_add bx _)) eqn:E7, (f_is_finite (f32_add by_ _)) eqn:E8; cbn;
    try (intros [(b1 & [= <-] & ?) (b2 & [= <-] & ?)]; intuition congruence).
  split; [| done]. split; eauto 10.
Qed.

(** The keys of [l] are distinct and none is taken yet. *)
Definition fresh {K A} (key : A -> K) (l : list A) (taken : K -> Prop) : Prop :=
  NoDup (key <$> l) /\ forall x, x ∈ l -> ~ taken (key x).

Lemma fresh_nil {K A} (key : A -> K) taken : fresh key [] taken.
Proof. split; [constructor |]. by intros ? ?%not_elem_of_nil. Qed.

Lemma fresh_cons {K A} (key : A -> K) x l (taken taken' : K -> Prop) :
  (forall k, taken' k <-> taken k \/ k = key x) -> fresh key (x :: l) taken <-> ~ taken (key x) /\ fresh key l taken'.
Proof.
  intros T. unfold fresh. cbn. rewrite NoDup_cons. split.
  - intros [[Nx N] H]. split; [apply H; by left |]. split; [done |]. intros y Hy [? | Ey]%T; [by apply (H y); [right |] |].
    apply Nx, list_elem_of_fmap. by exists y.
  - intros (Hx & N & H). split; [split; [| done] |].
    + intros (y & Ey & Hy)%list_elem_of_fmap. apply (H y Hy), T. by right.
    + intros y [-> | Hy]%elem_of_cons; [done |]. intros Ty. apply (H y Hy), T. by left.
Qed.

Lemma taken_insert {K A} `{Countable K} (m : gmap K A) k v k' : is_Some (<[k := v]> m !! k') <-> is_Some (m !! k') \/ k' = k.
Proof. rewrite lookup_insert_is_Some. destruct (decide (k = k')); intuition congruence. Qed.

(** The entries of a map to which those of [l] were added. *)
Lemma added_cons {K A V} `{Countable K} (key : A -> K) (val : A -> V) x l (m0 m : gmap K V) :
  ~ is_Some (m0 !! key x) ->
  (forall k v, m !! k = Some v <-> <[key x := val x]> m0 !! k = Some v \/ exists y, y ∈ l /\ key y = k /\ v = val y) ->
  forall k v, m !! k = Some v <-> m0 !! k = Some v \/ exists y, y ∈ x :: l /\ key y = k /\ v = val y.
Proof.
  intros Nx R k v. rewrite R, lookup_insert_Some. split.
  - intros [[[<- <-] | [N1 E1]] | (y & Hy & E)]; [right; exists x; split; [by left | done] | by left |].
    right. exists y. split; [by right | done].
  - intros [E1 | (y & [-> | Hy]%elem_of_cons & <- & ->)]; [| by left; left | right; by exists y].
    left. right. split; [| done]. intros <-. apply Nx. by exists v.
Qed.

Lemma added_nil {K A V} `{Countable K} (key : A -> K) (val : A -> V) (m : gmap K V) k v :
  m !! k = Some v <-> m !! k = Some v \/ exists y, y ∈ @nil A /\ key y = k /\ v = val y.
Proof. split; [auto |]. intros [| (? & ?%not_elem_of_nil & _)]; done. Qed.

Lemma add_maps_spec l m0 :
  match add_maps l m0 with
  | Ok m => (Forall map_valid l /\ fresh cm_map_id l (fun k => is_Some (m0 !! k))) /\
      forall id meta, m !! id = Some meta <-> m0 !! id = Some meta \/ exists x, x ∈ l /\ cm_map_id x = id /\ meta = meta_of x
  | Err _ => ~ (Forall map_valid l /\ fresh cm_map_id l (fun k => is_Some (m0 !! k)))
  end.
Proof.
  revert m0. induction l as [| x l IH]; intros m0; cbn [add_maps].
  { split; [split; [constructor | apply fresh_nil] |]. intros id meta. apply added_nil. }
  pose proof (check_map_spec x) as Cx. destruct (check_map x) as [meta | e]; cbn [rbind].
  2: { intros [F _]. by inversion F. }
  destruct Cx as [Vx ->]. specialize (IH (<[cm_map_id x := meta_of x]> m0)).
  pose proof (fresh_cons cm_map_id x l (fun k => is_Some (m0 !! k)) _ (taken_insert m0 (cm_map_id x) (meta_of x))) as Fr.
  cbn beta in Fr. destruct (m0 !! cm_map_id x) eqn:Ex.
  { intros [_ [Nx _]%Fr]. apply Nx. by eexists. }
  assert (~ is_Some (m0 !! cm_map_id x)) as Nx by (rewrite Ex; by intros [? ?]).
  destruct (add_maps l _) as [m | e].
  - destruct IH as [[F H] R]. split; [split; [by constructor |]; apply Fr; split; [by intros [? ?] | done] |].
    by apply added_cons.
  - intros [F [_ H]%Fr]. apply IH. inversion F; subst. by split.
Qed.

(** The maps built from a valid list. *)
Definition maps_of (l : list ContentMap) (m : gmap MapId MapCoordMeta) : Prop :=
  forall id meta, m !! id = Some meta <-> exists x, x ∈ l /\ cm_map_id x = id /\ meta = meta_of x.

Lemma placed_lookup l m id pos : maps_of l m -> placed l id pos <-> exists meta, m !! id = Some meta /\ contains_local meta pos = true.
Proof.
  intros M. split.
  - intros (x & Hx & <- & C). exists (meta_of x). split; [| done]. apply M. eauto.
  - intros (meta & (x & Hx & <- & ->)%M & C). by exists x.
Qed.

Lemma add_town_spawns_spec lm m l s0 :
  maps_of lm m ->
  match add_town_spawns m l s0 with
  | Ok s => ((forall x, x ∈ l -> placed lm (mts_map_id x) (spawn_pos x)) /\ fresh spawn_key l (fun k => is_Some (s0 !! k))) /\
      forall k pos, s !! k = Some pos <-> s0 !! k = Some pos \/ exists x, x ∈ l /\ spawn_key x = k /\ pos = spawn_pos x
  | Err _ => ~ ((forall x, x ∈ l -> placed lm (mts_map_id x) (spawn_pos x)) /\ fresh spawn_key l (fun k => is_Some (s0 !! k)))
  end.
Proof.
  intros M. revert s0. induction l as [| x l IH]; intros s0; cbn [add_town_spawns].
  { split; [split; [by intros ? ?%not_elem_of_nil | apply fresh_nil] |]. intros id meta. apply added_nil. }
  fold (spawn_pos x). fold (spawn_key x).
  pose proof (placed_lookup lm m (mts_map_id x) (spawn_pos x) M) as Px.
  destruct (m !! mts_map_id x) as [map |] eqn:Em.
  2: { intros [P _]. by destruct (proj1 Px (P x ltac:(by left))) as (? & ? & _). }
  destruct (contains_local map (spawn_pos x)) eqn:Ec; cbn [negb].
  2: { intros [P _]. destruct (proj1 Px (P x ltac:(by left))) as (? & ? & ?). congruence. }
  specialize (IH (<[spawn_key x := spawn_pos x]> s0)).
  pose proof (fresh_cons spawn_key x l (fun k => is_Some (s0 !! k)) _ (taken_insert s0 (spawn_key x) (spawn_pos x))) as Fr.
  cbn beta in Fr. destruct (s0 !! spawn_key x) eqn:Ex.
  { intros [_ [Nx _]%Fr]. apply Nx. by eexists. }
  assert (~ is_Some (s0 !! spawn_key x)) as Nx by (rewrite Ex; by intros [? ?]).
  destruct (add_town_spawns m l _) as [s | e].
  - destruct IH as [[F H] R]. split; [split; [| apply Fr; split; [by intros [? ?] | done]] | by apply added_cons].
    intros y [-> | Hy]%elem_of_cons; [apply Px; eauto | by apply F].
  - intros [F [_ H]%Fr]. apply IH. split; [| done]. intros y Hy. apply F. by right.
Qed.

Lemma partial_get_set p e s e' : partial_get (partial_set p e s) e' = if decide (e' = e) then Some s else partial_get p e'.
Proof. by destruct e, e'. Qed.

Lemma contains_finite m pos : contains_local m pos = true -> f_is_finite (pos_x pos) = true /\ f_is_finite (pos_y pos) = true.
Proof. unfold contains_local. by destruct (f_is_finite (pos_x pos)), (f_is_finite (pos_y pos)). Qed.

Lemma add_starts_spec lm m l p0 :
  maps_of lm m ->
  match add_starts m l p0 with
  | Ok p => ((forall x, x ∈ l -> placed lm (esc_start_map_id x) (config_pos x)) /\
             fresh esc_empire l (fun e => is_Some (partial_get p0 e))) /\
      forall e s, partial_get p e = Some s <->
        partial_get p0 e = Some s \/ exists x, x ∈ l /\ esc_empire x = e /\ s = config_start x
  | Err _ => ~ ((forall x, x ∈ l -> placed lm (esc_start_map_id x) (config_pos x)) /\
                fresh esc_empire l (fun e => is_Some (partial_get p0 e)))
  end.
Proof.
  intros M. revert p0. induction l as [| x l IH]; intros p0; cbn [add_starts].
  { split; [split; [by intros ? ?%not_elem_of_nil | apply fresh_nil] |].
    intros e s. split; [auto |]. intros [| (? & ?%not_elem_of_nil & _)]; done. }
  fold (config_pos x). fold (config_start x).
  pose proof (placed_lookup lm m (esc_start_map_id x) (config_pos x) M) as Px.
  destruct (_ || _)%bool eqn:Efin.
  { intros [P _]. destruct (proj1 Px (P x ltac:(by left))) as (map & _ & [E1 E2]%contains_finite). cbn in E1, E2.
    by rewrite E1, E2 in Efin. }
  destruct (m !! esc_start_map_id x) as [map |] eqn:Em.
  2: { intros [P _]. by destruct (proj1 Px (P x ltac:(by left))) as (? & ? & _). }
  destruct (contains_local map (config_pos x)) eqn:Ec; cbn [negb].
  2: { intros [P _]. destruct (proj1 Px (P x ltac:(by left))) as (? & ? & ?). congruence. }
  set (p1 := partial_set p0 (esc_empire x) (config_start x)). specialize (IH p1).
  assert (forall e, is_Some (partial_get p1 e) <-> is_Some (partial_get p0 e) \/ e = esc_empire x) as Tk.
  { intros e. unfold p1. rewrite partial_get_set. case_decide; [| tauto]. split; [auto | intros _; by eexists]. }
  pose proof (fresh_cons esc_empire x l (fun e => is_Some (partial_get p0 e)) _ Tk) as Fr.
  destruct (partial_get p0 (esc_empire x)) eqn:Ex.
  { intros [_ [Nx _]%Fr]. apply Nx. rewrite Ex. by eexists. }
  assert (~ is_Some (partial_get p0 (esc_empire x))) as Nx by (rewrite Ex; by intros [? ?]).
  destruct (add_starts m l p1) as [p | e].
  - destruct IH as [[F H] R]. split; [split; [| by apply Fr] |].
    + intros y [-> | Hy]%elem_of_cons; [apply Px; eauto | by apply F].
    + intros e s. rewrite R. unfold p1. rewrite partial_get_set. split.
      * case_decide as D; [intros [[= <-] | (y & Hy & Ey)] | intros [| (y & Hy & Ey)]; [by left |]];
          right; [exists x; split; [by left | done] | exists y; split; [by right | done] ..].
      * intros [E1 | (y & [-> | Hy]%elem_of_cons & <- & ->)]; [| left; by rewrite decide_True | right; by exists y].
        left. rewrite decide_False; [done |]. intros ->. apply Nx. by exists s.
  - intros [F [_ H]%Fr]. apply IH. split; [| done]. intros y Hy. apply F. by right.
Qed.

(** What a validated catalogue becomes. *)
Record coords_of (cat : ContentCatalog) (c : ContentCoords) : Prop := {
  co_maps : maps_of (cat_maps cat) (maps c);
  co_spawns : forall k pos, town_spawns c !! k = Some pos <->
                exists x, x ∈ cat_town_spawns cat /\ spawn_key x = k /\ pos = spawn_pos x;
  co_starts : forall e, exists x, x ∈ cat_empire_start_configs cat /\ esc_empire x = e /\
                starts_get (empire_starts c) e = config_start x }.

Lemma fresh_none {K A} (key : A -> K) l taken : (forall k, ~ taken k) -> fresh key l taken <-> NoDup (key <$> l).
Proof. intros T. split; [by intros [N _] | by split]. Qed.

Lemma nothing_taken {K A} `{Countable K} (k : K) : ~ is_Some ((∅ : gmap K A) !! k).
Proof. rewrite lookup_empty. by intros [? ?]. Qed.

Lemma require_start_spec p e :
  match require_start p e with Ok s => partial_get p e = Some s | Err _ => partial_get p e = None end.
Proof. unfold require_start. by destruct (partial_get p e). Qed.

Lemma maps_of_empty l m : maps_of l m -> m = ∅ <-> l = [].
Proof.
  intros M. split.
  - intros ->. destruct l as [| x l]; [done |].
    assert ((∅ : gmap MapId MapCoordMeta) !! cm_map_id x = Some (meta_of x)) as E by (apply M; exists x; split; [by left | done]).
    by rewrite lookup_empty in E.
  - intros ->. apply map_empty. intros id. apply eq_None_not_Some. intros [meta (? & ?%not_elem_of_nil & _)%M]. done.
Qed.

Lemma from_catalog_ok cat :
  match from_catalog cat with
  | Ok c => catalog_valid cat /\ coords_of cat c
  | Err _ => ~ catalog_valid cat
  end.
Proof.
  unfold from_catalog. pose proof (add_maps_spec (cat_maps cat) ∅) as Hm.
  pose proof (fresh_none cm_map_id (cat_maps cat) _ (nothing_taken (A := MapCoordMeta))) as Fm.
  destruct (add_maps (cat_maps cat) ∅) as [m | e]; cbn [rbind]; [| intros []; tauto].
  destruct Hm as [[Vm Nm%Fm] Rm].
  assert (maps_of (cat_maps cat) m) as M.
  { intros id meta. rewrite Rm, lookup_empty. split; [by intros [|] | auto]. }
  destruct (decide (m = ∅)) as [E0 | N0]; [intros [_ _ N _ _ _ _ _]; by apply N, (maps_of_empty _ m) |].
  pose proof (add_town_spawns_spec _ m (cat_town_spawns cat) ∅ M) as Hs.
  pose proof (fresh_none spawn_key (cat_town_spawns cat) _ (nothing_taken (A := LocalPos))) as Fs.
  destruct (add_town_spawns m _ ∅) as [spawns | e]; cbn [rbind]; [| intros []; tauto].
  destruct Hs as [[Ps Ns%Fs] Rs].
  pose proof (add_starts_spec _ m (cat_empire_start_configs cat) {| p_red := None; p_yellow := None; p_blue := None |} M) as Ht.
  pose proof (fresh_none esc_empire (cat_empire_start_configs cat)
    (fun e => is_Some (partial_get {| p_red := None; p_yellow := None; p_blue := None |} e)) ltac:(by intros [] [? ?])) as Ft.
  destruct (add_starts m _ _) as [p | e]; cbn [rbind]; [| intros []; tauto].
  destruct Ht as [[Pt Nt%Ft] Rt].
  assert (forall e s, partial_get p e = Some s <-> exists x, x ∈ cat_empire_start_configs cat /\ esc_empire x = e /\ s = config_start x) as Rp.
  { intros e s. rewrite Rt. split; [by intros [H | H]; [destruct e |] | auto]. }
  assert (forall e, partial_get p e = None -> ~ catalog_valid cat) as Nv.
  { intros e En [_ _ _ _ _ _ _ All]. destruct (proj1 (list_elem_of_fmap _ _ _) (All e)) as (x & Ex & Hx).
    assert (partial_get p e = Some (config_start x)) as Es by (apply Rp; by exists x). congruence. }
  pose proof (require_start_spec p Empire_Red) as Hr. destruct (require_start p Empire_Red) as [r | e]; cbn [rbind]; [| by apply (Nv Empire_Red)].
  pose proof (require_start_spec p Empire_Yellow) as Hy. destruct (require_start p Empire_Yellow) as [y | e]; cbn [rbind]; [| by apply (Nv Empire_Yellow)].
  pose proof (require_start_spec p Empire_Blue) as Hb. destruct (require_start p Empire_Blue) as [b | e]; cbn [rbind]; [| by apply (Nv Empire_Blue)].
  assert (forall e, partial_get p e = Some (starts_get {| red := r; yellow := y; blue := b |} e)) as Hp by (by intros []).
  split; split; cbn; try done.
  - intros E. by apply N0, (maps_of_empty _ _ M).
  - intros e. destruct (proj1 (Rp _ _) (Hp e)) as (x & Hx & Ex & _). apply list_elem_of_fmap. by exists x.
  - intros k pos. rewrite Rs, lookup_empty. split; [by intros [|] | auto].
  - intros e. destruct (proj1 (Rp _ _) (Hp e)) as (x & Hx & Ex & Es). by exists x.
Qed.

(** [C34] Start-up validation: [from_catalog] succeeds exactly on the valid
    catalogues - sound and distinct maps, at least one; town spawns inside their
    maps, one per map and empire; one start for each empire, inside its map - and
    what it builds holds exactly their maps, town spawns and starts. *)
Theorem from_catalog_spec cat :
  match from_catalog cat with
  | Ok c => catalog_valid cat /\ coords_of cat c
  | Err _ => ~ catalog_valid cat
  end.
Proof. apply from_catalog_ok. Qed.

(** ** Spawns *)
Section Validated.
Context (cat : ContentCatalog) (c : ContentCoords) (Hc : catalog_valid cat) (Co : coords_of cat c).

Lemma start_placed e : placed (cat_maps cat) (rs_map_id (start_spawn c e)) (rs_local_pos (start_spawn c e)).
Proof. destruct (co_starts _ _ Co e) as (x & Hx & Ex & Es). unfold start_spawn. rewrite Es. cbn. by apply (cv_starts _ Hc x). Qed.

Lemma resolve_spawn_ok persisted empire :
  exists s, resolve_spawn c persisted empire = Some s /\ placed (cat_maps cat) (rs_map_id s) (rs_local_pos s) /\
    if rs_used_fallback s then s = start_spawn c empire /\
      forall saved, persisted = Some saved ->
        ~ placed (cat_maps cat) (pp_map_key saved) {| pos_x := pp_local_x saved; pos_y := pp_local_y saved |}
    else exists saved, persisted = Some saved /\ rs_map_id s = pp_map_key saved /\
        rs_local_pos s = {| pos_x := pp_local_x saved; pos_y := pp_local_y saved |}.
Proof.
  pose proof (start_placed empire) as Pl. pose proof (placed_lookup _ _ (rs_map_id (start_spawn c empire)) (rs_local_pos (start_spawn c empire)) (co_maps _ _ Co)) as Lk.
  destruct (proj1 Lk Pl) as (meta & Em & _). unfold resolve_spawn. cbn [rs_map_id start_spawn] in Em. rewrite Em. cbn [mbind option_bind].
  destruct persisted as [saved |]; [| exists (start_spawn c empire); by split_and!].
  set (pos := {| pos_x := pp_local_x saved; pos_y := pp_local_y saved |}).
  pose proof (placed_lookup _ _ (pp_map_key saved) pos (co_maps _ _ Co)) as Ls.
  destruct (maps c !! pp_map_key saved) as [map |] eqn:Es.
  - destruct (contains_local map pos) eqn:Ec.
    + eexists. split; [done |]. cbn. destruct (proj1 (co_maps _ _ Co _ _) Es) as (x & Hx & Ex & ->). cbn.
      split; [| by exists saved]. rewrite Ex. apply Ls. eauto.
    + exists (start_spawn c empire). split_and!; try done. cbn. split; [done |]. intros saved' [= <-] (? & [= <-] & ?)%Ls. congruence.
  - exists (start_spawn c empire). split_and!; try done. cbn. split; [done |]. by intros saved' [= <-] (? & ? & _)%Ls.
Qed.

Lemma town_loop_from map_id iter fallback pos :
  town_loop map_id iter fallback = Some pos -> fallback = Some pos \/ exists e, ((map_id, e), pos) ∈ iter.
Proof.
  revert fallback. induction iter as [| [[id e] p] iter IH]; intros fallback; cbn [town_loop]; [auto |].
  case_decide as D; [destruct fallback; [done |] |]; intros [E | (e' & Hin)]%IH; try (right; exists e'; by right).
  - injection E as ->. subst. right. exists e. left.
  - by left.
Qed.

Lemma town_restart_placed order map_id empire :
  map_order order (town_spawns c) = true ->
  placed (cat_maps cat) (rs_map_id (resolve_town_restart order c map_id empire))
    (rs_local_pos (resolve_town_restart order c map_id empire)).
Proof.
  intros O. unfold resolve_town_restart. destruct (resolve_town_spawn order c map_id empire) as [pos |] eqn:E; [| apply start_placed]. cbn.
  assert (exists e, town_spawns c !! (map_id, e) = Some pos) as (e & Ee).
  { unfold resolve_town_spawn in E. destruct (town_spawns c !! (map_id, empire)) eqn:Et; [exists empire; congruence |].
    apply town_loop_from in E as [| (e & Hin)]; [done |]. apply elem_of_map_iter in Hin as [_ Hin]. by exists e. }
  apply (co_spawns _ _ Co) in Ee as (x & Hx & [= <- <-] & ->). by apply (cv_spawns _ Hc).
Qed.
End Validated.

(** [C36] Players land on maps: once a catalogue has been accepted, resolving a
    spawn never panics, and whatever position was persisted the result is a point
    inside an existing map - the persisted one exactly when that is, else the start
    of the player's empire; a restart in town lands inside a map too. *)
Theorem spawns_on_maps cat c :
  from_catalog cat = Ok c ->
  (forall persisted empire, exists s, resolve_spawn c persisted empire = Some s /\
     placed (cat_maps cat) (rs_map_id s) (rs_local_pos s) /\
     if rs_used_fallback s then s = start_spawn c empire /\
       forall saved, persisted = Some saved ->
         ~ placed (cat_maps cat) (pp_map_key saved) {| pos_x := pp_local_x saved; pos_y := pp_local_y saved |}
     else exists saved, persisted = Some saved /\ rs_map_id s = pp_map_key saved /\
         rs_local_pos s = {| pos_x := pp_local_x saved; pos_y := pp_local_y saved |}) /\
  (forall order map_id empire, map_order order (town_spawns c) = true ->
     placed (cat_maps cat) (rs_map_id (resolve_town_restart order c map_id empire))
       (rs_local_pos (resolve_town_restart order c map_id empire))).
Proof.
  intros E. pose proof (from_catalog_ok cat) as H. rewrite E in H. destruct H as [Hc Co].
  split; intros; [by apply (resolve_spawn_ok cat) | by apply town_restart_placed].
Qed.

(** ** World destinations *)

(** The single element of a list, if there is exactly one. *)
Definition only {A} (l : list A) : option A := match l with [x] => Some x | _ => None end.

Lemma only_Some {A} (l : list A) x : only l = Some x <-> l = [x].
Proof. destruct l as [| y [|]]; cbn; split; congruence. Qed.

Definition hits (w : WorldPos) (iter : list (MapId * MapCoordMeta)) : list (MapId * LocalPos) :=
  omap (fun '(id, m) => (fun pos => (id, pos)) <$> meta_to_local m w) iter.

Lemma hits_cons w id m iter :
  hits w ((id, m) :: iter) = match meta_to_local m w with Some pos => (id, pos) :: hits w iter | None => hits w iter end.
Proof. unfold hits. cbn. by destruct (meta_to_local m w). Qed.

Lemma resolve_loop_only w iter resolved :
  resolve_loop w iter resolved = only (option_list resolved ++ hits w iter).
Proof.
  revert resolved. induction iter as [| [id m] iter IH]; intros resolved; cbn [resolve_loop]; [by destruct resolved |].
  rewrite hits_cons. destruct (meta_to_local m w) as [pos |]; [| apply IH].
  destruct resolved; [by cbn; destruct (hits w iter) | apply IH].
Qed.

Lemma elem_of_hits w iter id pos : (id, pos) ∈ hits w iter <-> exists m, (id, m) ∈ iter /\ meta_to_local m w = Some pos.
Proof.
  unfold hits. rewrite list_elem_of_omap. split.
  - intros ([id' m] & Hin & E). destruct (meta_to_local m w) eqn:Em; [| done]. injection E as -> ->. eauto.
  - intros (m & Hin & E). exists (id, m). by rewrite E.
Qed.

Lemma hits_NoDup w iter : NoDup (fst <$> iter) -> NoDup (fst <$> hits w iter).
Proof.
  induction iter as [| [id m] iter IH]; [constructor |]. rewrite hits_cons. cbn [fmap list_fmap fst]. intros [N1 N2]%NoDup_cons.
  destruct (meta_to_local m w); cbn [fmap list_fmap fst]; [| by apply IH]. apply NoDup_cons. split; [| by apply IH].
  intros ([id' pos] & -> & (m' & Hin & _)%elem_of_hits)%list_elem_of_fmap. apply N1, list_elem_of_fmap. by exists (id', m').
Qed.

Lemma only_elem {A B} (f : A -> B) (l : list A) x :
  NoDup (f <$> l) -> only l = Some x <-> x ∈ l /\ forall y, y ∈ l -> f y = f x.
Proof.
  intros N. rewrite only_Some. split.
  - intros ->. split; [left |]. by intros y ->%list_elem_of_singleton.
  - intros [Hx Hall]. destruct l as [| y l]; [by apply not_elem_of_nil in Hx |].
    assert (y = x) as ->.
    { apply elem_of_cons in Hx as [-> | Hx]; [done |]. cbn in N. apply NoDup_cons in N as [N _].
      exfalso. apply N, list_elem_of_fmap. exists x. split; [apply Hall; left | done]. }
    destruct l as [| z l]; [done |]. cbn in N. apply NoDup_cons in N as [N _]. exfalso. apply N.
    rewrite <- (Hall z) by (right; left). left.
Qed.

(** A world position leads to a map exactly when it lies on one map only, and
    then to that map's local position, in whatever order the maps are tried; the
    world and local conversions of a single map agree with that choice. *)
Theorem resolve_world_destination_spec order c w id pos :
  map_order order (maps c) = true ->
  resolve_world_destination order c w = Some (id, pos) <->
  world_to_local c id w = Some pos /\ forall id' pos', world_to_local c id' w = Some pos' -> id' = id.
Proof.
  intros O. pose proof (proj1 (map_order_spec _ _) O) as [N D].
  assert (forall id' pos', (id', pos') ∈ hits w (map_iter order (maps c)) <-> world_to_local c id' w = Some pos') as Hh.
  { intros id' pos'. rewrite elem_of_hits. unfold world_to_local. split.
    - intros (m & [_ Em]%elem_of_map_iter & E). by rewrite Em.
    - destruct (maps c !! id') as [m |] eqn:Em; cbn; [| done]. intros E. exists m. split; [| done].
      apply elem_of_map_iter. split; [apply D; by rewrite Em | done]. }
  unfold resolve_world_destination. rewrite resolve_loop_only. cbn [option_list app].
  rewrite (only_elem fst) by apply hits_NoDup, map_iter_NoDup, N. rewrite Hh. split.
  - intros [E H]. split; [done |]. intros id' pos' E'%Hh. apply (H _ E').
  - intros [E H]. split; [done |]. intros [id' pos'] E'%Hh. apply (H id' pos' E').
Qed.

(** The wire's centimetres do not survive the conversion to metres and back. *)
Example wire_cm_lost : meters_to_wire_cm (wire_cm_to_meters 53) = 52 /\ meters_to_wire_cm (wire_cm_to_meters (-59)) = -58.
Proof. split; reflexivity. Qed.

(** ** The three starting towns *)
Definition town (id : string) (empire : Empire) (x y : Z) : ContentMap :=
  {| cm_map_id := id; cm_width := f32_of_int 1024; cm_height := f32_of_int 1280; cm_empire := Some empire;
     cm_base_x := Some (f32_of_int x); cm_base_y := Some (f32_of_int y) |}.
Definition start (id : string) (empire : Empire) (x y : Z) : EmpireStartConfig :=
  {| esc_empire := empire; esc_start_map_id := id; esc_start_x := f32_of_int x; esc_start_y := f32_of_int y |}.
Definition base_catalog : ContentCatalog :=
  {| cat_maps := [town "a1" Empire_Red 4096 8960; town "b1" Empire_Yellow 0 1024; town "c1" Empire_Blue 9216 2048];
     cat_town_spawns := [{| mts_map_id := "b1"; mts_empire := Empire_Yellow; mts_x := f32_of_int 560; mts_y := f32_of_int 560 |}];
     cat_empire_start_configs :=
       [start "a1" Empire_Red 597 682; start "b1" Empire_Yellow 557 555; start "c1" Empire_Blue 480 736] |}.

Lemma spawns_on_maps_witness :
  exists c s, from_catalog base_catalog = Ok c /\
    resolve_spawn c (Some {| pp_map_key := "a1"; pp_local_x := f32_of_int 5000; pp_local_y := f32_one |}) Empire_Blue = Some s /\
    placed (cat_maps base_catalog) (rs_map_id s) (rs_local_pos s).
Proof.
  destruct (from_catalog base_catalog) as [c | e] eqn:E; [| vm_compute in E; discriminate].
  destruct (spawns_on_maps base_catalog c E) as [H _].
  destruct (H (Some {| pp_map_key := "a1"; pp_local_x := f32_of_int 5000; pp_local_y := f32_one |}) Empire_Blue) as (s & Es & Ps & _).
  exists c, s. exact (conj eq_refl (conj Es Ps)).
Defined.

Lemma resolve_world_destination_spec_witness :
  exists c, from_catalog base_catalog = Ok c /\
    forall id pos, world_to_local c id {| world_x := f32_of_int 4108; world_y := f32_of_int 8994 |} = Some pos -> id = "a1"%string.
Proof.
  destruct (from_catalog base_catalog) as [c | e] eqn:E; [| vm_compute in E; discriminate].
  pose proof (resolve_world_destination_spec ["c1"; "b1"; "a1"]%string c
    {| world_x := f32_of_int 4108; world_y := f32_of_int 8994 |} "a1" {| pos_x := f32_of_int 12; pos_y := f32_of_int 34 |}) as H.
  exists c. split; [reflexivity |]. vm_compute in E. injection E as E. apply H; rewrite <- E; reflexivity.
Defined.
