(* ===== verification/MapPort.v ===== *)
(** The messages between the network threads and the simulation
    ([zohar-map-port/src/messages.rs], [values.rs], [bridge.rs]): what a client
    asks for, and what it is told. *)
From S2P Require Import Prelude Domain Float Space Entities.

(** [ClientTimestamp], [PacketDuration]: milliseconds in a [u32]. *)
Definition u32_sat (z : Z) : Z := clampc z 0 u32_max.
Definition ClientTimestamp_saturating_add (ts duration : Z) : Z := u32_sat (ts + duration).
Definition ClientTimestamp_saturating_sub (ts earlier : Z) : Z := u32_sat (ts - earlier).
Definition MovementArg_basic_attack : Z := 0.

Inductive ChatChannel : Type := Chat_Speak | Chat_Info | Chat_Notice | Chat_Command | Chat_Shout.

(** ** Intents *)
Inductive AttackIntent : Type := Attack_Basic | Attack_Skill (skill : SkillId).
Record AttackTargetIntent : Type := { ati_target : EntityId; ati_attack : AttackIntent }.
Record MoveIntent : Type := {
  mi_kind : MovementKind; mi_arg : Z; mi_facing : Z; mi_target : LocalPos; mi_client_ts : Z }.
Record ChatIntent : Type := { ci_channel : ChatChannel; ci_message : list Z }.
Inductive PlayerProgressionIntent : Type :=
| Progression_CoreStat (stat : CoreStatKind) (delta : Z)
| Progression_SkillLevel (skill : SkillId) (delta : Z).
Inductive PlayerRestartIntent : Type := Restart_Here | Restart_Town.

Inductive ClientIntent : Type :=
| Intent_Move (m : MoveIntent)
| Intent_SetMovementAnimation (animation : MovementAnimation)
| Intent_Chat (c : ChatIntent)
| Intent_Attack (a : AttackTargetIntent)
| Intent_Target (target : EntityId)
| Intent_Progression (p : PlayerProgressionIntent)
| Intent_Restart (r : PlayerRestartIntent).

(** ** Events *)
Record MovementEvent : Type := {
  me_entity_id : EntityId; me_kind : MovementKind; me_arg : Z; me_facing : Z; me_position : LocalPos;
  me_client_ts : Z; me_duration : Z }.

(** [==] of the derived [PartialEq]: positions compare as floats. *)
Definition MovementEvent_eqb (a b : MovementEvent) : bool :=
  (me_entity_id a =? me_entity_id b) && bool_decide (me_kind a = me_kind b) && (me_arg a =? me_arg b) &&
  (me_facing a =? me_facing b) &&
  (SFeqb (pos_x (me_position a)) (pos_x (me_position b)) && SFeqb (pos_y (me_position a)) (pos_y (me_position b))) &&
  (me_client_ts a =? me_client_ts b) && (me_duration a =? me_duration b).

Definition DamageInfoFlags_NORMAL : Z := Z.shiftl 1 0.
Definition DamageInfoFlags_POISON : Z := Z.shiftl 1 1.
Definition DamageInfoFlags_DODGE : Z := Z.shiftl 1 2.
Definition DamageInfoFlags_BLOCK : Z := Z.shiftl 1 3.
Definition DamageInfoFlags_PENETRATE : Z := Z.shiftl 1 4.
Definition DamageInfoFlags_CRITICAL : Z := Z.shiftl 1 5.

Inductive ProjectileEffectKind : Type := Projectile_Exp.
Inductive SpecialEffectType : Type := Special_Critical | Special_Penetrate.
Record ProjectileTargetEvent : Type := {
  pte_caster_entity_id : EntityId; pte_target_entity_id : EntityId; pte_target_pos : LocalPos; pte_append : bool }.
Record StatUpdate : Type := { su_stat : Stat; su_absolute : Z }.
Inductive PortalDestination : Type :=
| Dest_MapTransfer (world_pos : WorldPos)
| Dest_LocalReposition (local_pos : LocalPos).

Inductive PlayerEvent : Type :=
| EntitySpawn (snapshot : EntitySnapshot)
| SetEntityStats (entity_id : EntityId) (stats : list StatUpdate)
| SyncEntityHealthBar (entity_id : EntityId) (hp_pct : Z)
| DamageInfo (entity_id : EntityId) (flags damage : Z)
| CreateProjectileEffect (effect : ProjectileEffectKind) (start_entity_id end_entity_id : EntityId)
| SetProjectileTarget (event : ProjectileTargetEvent)
| SpecialEffect (effect : SpecialEffectType) (entity_id : EntityId)
| EntityStunned (entity_id : EntityId)
| EntityDead (entity_id : EntityId)
| EntityPublicStateChanged (entity_id : EntityId) (state : EntityPublicState)
| EntityMove (movement : MovementEvent)
| SetEntityMovementAnimation (entity_id : EntityId) (animation : MovementAnimation)
| EntityDespawn (entity_id : EntityId)
| Event_Chat (channel : ChatChannel) (sender_entity_id : option EntityId) (empire : option Empire) (message : list Z)
| RestartTown
| PortalEntered (destination : PortalDestination).

(** ** Bridge messages *)
Record EnterMsg : Type := {
  em_player_id : PlayerId; em_player_net_id : EntityId; em_runtime_epoch : Z; em_playtime : Z;
  em_initial_pos : LocalPos; em_visual_profile : PlayerVisualProfile; em_gameplay : PlayerGameplayBootstrap }.
Record LeaveMsg : Type := { lm_player_id : PlayerId; lm_player_net_id : EntityId }.
Record ClientIntentMsg : Type := { cim_player_id : PlayerId; cim_intent : ClientIntent }.
Record GlobalShoutMsg : Type := { gsm_from_player_name : string; gsm_from_empire : Empire; gsm_message_bytes : list Z }.

Lemma timestamp_saturating ts d : is_u32 ts -> is_u32 d -> ClientTimestamp_saturating_sub (ClientTimestamp_saturating_add ts d) ts = Z.min d (u32_max - ts).
Proof. unfold ClientTimestamp_saturating_sub, ClientTimestamp_saturating_add, u32_sat, clampc. unfold_widths. lia. Qed.
