(* ===== verification/Layout.v ===== *)
(** Declarative packet layouts: what the derive macros of [binrw] generate from the
    declarations of [zohar-protocol].

    A [field] is a value with its reader and writer; packets are tuples of fields
    under an opcode ([#[brw(magic = ...)]]), and an enumeration of packets is a
    list of cases, tried in order.  The laws of a layout follow from those of its
    fields, so a packet family proves only that its constructors match its
    cases. *)
From S2P Require Import Prelude Wire GamePacket Float Space.

(** [fd_size] is the number of bytes of a field of fixed size. *)
Record field (A : Type) : Type :=
  { fd_read : reader A; fd_write : A -> bytes; fd_valid : A -> Prop; fd_size : option nat }.
Arguments fd_read {A} f. Arguments fd_write {A} f a. Arguments fd_valid {A} f a. Arguments fd_size {A} f.

Record field_ok {A} (f : field A) : Prop := {
  fo_reader : reader_ok (fd_read f);
  fo_roundtrip : forall a s, fd_valid f a -> fd_read f (fd_write f a ++ s) = ReadOk a s;
  fo_size : forall a n, fd_valid f a -> fd_size f = Some n -> length (fd_write f a) = n }.

(** ** Integers: little-endian, two's complement when signed *)
Definition f_uint (n : nat) : field Z :=
  {| fd_read := read l <- read_exact n; rd_ret (le_value l); fd_write := le_bytes n;
     fd_valid := fun z => 0 <= z < 2 ^ (8 * Z.of_nat n); fd_size := Some n |}.
Definition f_sint (n : nat) : field Z :=
  {| fd_read := read l <- read_exact n; rd_ret (wrap_s (8 * Z.of_nat n) (le_value l)); fd_write := le_bytes n;
     fd_valid := fun z => - 2 ^ (8 * Z.of_nat n - 1) <= z < 2 ^ (8 * Z.of_nat n - 1); fd_size := Some n |}.
Definition f_u8 := f_uint 1.
Definition f_u16 := f_uint 2.
Definition f_u32 := f_uint 4.
Definition f_u64 := f_uint 8.
Definition f_i16 := f_sint 2.
Definition f_i32 := f_sint 4.

Lemma read_exact_le n z s : read_exact n (le_bytes n z ++ s) = ReadOk (le_bytes n z) s.
Proof. pose proof (read_exact_app (le_bytes n z) s) as E. by rewrite le_bytes_length in E. Qed.

Lemma f_uint_ok n : field_ok (f_uint n).
Proof.
  split; cbn [fd_read fd_write fd_valid fd_size f_uint]; [reader_ok_tac | | intros z ? _ [= <-]; apply le_bytes_length].
  intros z s Hz. unfold rd_bind.
  rewrite read_exact_le, le_value_bytes, Z.mod_small by done. done.
Qed.

Lemma f_sint_ok n : (0 < n)%nat -> field_ok (f_sint n).
Proof.
  intros Hn.
  split; cbn [fd_read fd_write fd_valid fd_size f_sint]; [reader_ok_tac | | intros z ? _ [= <-]; apply le_bytes_length].
  intros z s Hz. unfold rd_bind.
  rewrite read_exact_le, le_value_bytes. unfold rd_ret. f_equal. unfold wrap_s. rewrite Zplus_mod_idemp_l.
  set (w := 8 * Z.of_nat n) in *. assert (2 ^ w = 2 * 2 ^ (w - 1)) as Hw by (rewrite <- Z.pow_succ_r by lia; f_equal; lia).
  rewrite Z.mod_small; lia.
Qed.

(** ** Byte strings and text *)
Definition f_bytes (n : nat) : field bytes :=
  {| fd_read := read_exact n; fd_write := fun l => l; fd_valid := fun l => length l = n; fd_size := Some n |}.
Lemma f_bytes_ok n : field_ok (f_bytes n).
Proof. split; cbn; [apply read_exact_ok | intros l s <-; apply read_exact_app | intros l ? <- [= <-]; done]. Qed.

Definition f_string (n : nat) : field FixedString :=
  {| fd_read := FixedString_read n; fd_write := FixedString_write;
     fd_valid := fun f => length (fs_buf f) = n /\ fs_len f = default n (position_zero (fs_buf f)); fd_size := Some n |}.
Lemma f_string_ok n : field_ok (f_string n).
Proof.
  split; cbn; [apply FixedString_read_ok | | intros f ? [<- _] [= <-]; done]. intros [buf len] s [Hl He]. cbn in *. unfold FixedString_read, rd_bind, FixedString_write.
  cbn. rewrite <- Hl at 1. rewrite read_exact_app. by rewrite <- He.
Qed.

(** A string made by [FixedString::new] is one a reader produces. *)
Lemma FixedString_new_valid n s : (0 < n)%nat -> ~ (0 ∈ s) -> fd_valid (f_string n) (FixedString_new n s).
Proof.
  intros Hn Hs. cbn [fd_valid f_string]. unfold FixedString_new. cbn [fs_buf fs_len]. set (k := Nat.min (length s) (n - 1)).
  split; [rewrite length_app, length_take, repeat_length; lia |].
  rewrite position_zero_app by (intros H; apply Hs; rewrite <- (take_drop k s); apply elem_of_app; by left).
  destruct (Nat.eqb_spec (n - k) 0); [lia |]. cbn. rewrite length_take. lia.
Qed.

(** ** Enumerations: [#[brw(repr = u8)]], [IntoPrimitive] and [TryFromPrimitive] *)
Class ReprU8 (E : Type) : Type := { repr_u8 : E -> Z; repr_values : list E }.
Definition try_from_u8 {E} `{ReprU8 E} (z : Z) : option E := List.find (fun e => repr_u8 e =? z) repr_values.
Class ReprU8Laws (E : Type) `{ReprU8 E} : Prop := {
  repr_range : forall e : E, 0 <= repr_u8 e < 256;
  repr_find : forall e : E, try_from_u8 (repr_u8 e) = Some e }.

Definition f_enum {E : Type} `{ReprU8 E} : field E :=
  {| fd_read := read b <- read_u8; match try_from_u8 b with Some e => rd_ret e | None => rd_fail NoVariantMatch end;
     fd_write := fun e => [repr_u8 e];
     fd_valid := fun _ => True; fd_size := Some 1%nat |}.
Lemma f_enum_ok {E} `{ReprU8Laws E} : field_ok (f_enum (E := E)).
Proof.
  split; cbn [fd_read fd_write fd_valid fd_size f_enum]; [| | by intros e ? _ [= <-]].
  - apply rd_bind_ok; [apply read_u8_ok |]. intros b. destruct (try_from_u8 b); auto with wire.
  - intros e s _. cbn [app]. unfold rd_bind. cbn [read_u8]. by rewrite repr_find.
Qed.

Ltac repr_tac := split; intros []; first [reflexivity | split; reflexivity || discriminate].

(** [impl_zero_fallback_num_enum!] *)
#[export] Instance repr_zero_fallback {E} `{ReprU8 E} : ZeroFallback E :=
  {| zf_width := 1; zf_try_from_primitive := try_from_u8; zf_into_primitive := repr_u8 |}.

(** Enumerations are equal when their representations are. *)
Definition repr_eq_dec {E} `{ReprU8Laws E} : EqDecision E.
Proof.
  intros x y. destruct (decide (repr_u8 x = repr_u8 y)) as [E' | N]; [left | right; by intros ->].
  pose proof (repr_find x) as Hx. rewrite E', repr_find in Hx. congruence.
Defined.

(** A type in bijection with some values of a field. *)
Definition f_map {A B} (f : A -> B) (g : B -> A) (fa : field A) : field B :=
  {| fd_read := rd_map f (fd_read fa); fd_write := fun b => fd_write fa (g b);
     fd_valid := fun b => fd_valid fa (g b) /\ f (g b) = b; fd_size := fd_size fa |}.
Lemma f_map_ok {A B} (f : A -> B) (g : B -> A) fa : field_ok fa -> field_ok (f_map f g fa).
Proof.
  intros H. split; cbn; [apply rd_map_ok, H | | intros b n [Hv _]; by apply H]. intros b s [Hv Hb]. unfold rd_map, rd_bind. rewrite (fo_roundtrip _ H) by done.
  by rewrite Hb.
Qed.

(** [#[br(try_map = ...)]] *)
Definition f_try_map {A B} (f : A -> option B) (g : B -> A) (fa : field A) : field B :=
  {| fd_read := read a <- fd_read fa; match f a with Some b => rd_ret b | None => rd_fail AssertFail end;
     fd_write := fun b => fd_write fa (g b); fd_valid := fun b => fd_valid fa (g b) /\ f (g b) = Some b;
     fd_size := fd_size fa |}.
Lemma f_try_map_ok {A B} (f : A -> option B) (g : B -> A) fa : field_ok fa -> field_ok (f_try_map f g fa).
Proof.
  intros H. split; cbn; [| | intros b n [Hv _]; by apply H].
  - apply rd_bind_ok; [apply H |]. intros a. destruct (f a); auto with wire.
  - intros b s [Hv Hb]. unfold rd_bind. rewrite (fo_roundtrip _ H) by done. by rewrite Hb.
Qed.

(** ** [ZeroOpt] *)
Definition f_zero_opt {T} `{ZeroFallback T} : field (option T) :=
  {| fd_read := ZeroOpt_read; fd_write := ZeroOpt_write;
     fd_valid := fun o => match o with
       | Some t => 0 < zf_into_primitive t < 2 ^ (8 * Z.of_nat (zf_width (T := T))) /\ zf_try_from_primitive (zf_into_primitive t) = Some t
       | None => True end;
     fd_size := Some (zf_width (T := T)) |}.
Lemma f_zero_opt_ok {T} `{ZeroFallback T} : field_ok (f_zero_opt (T := T)).
Proof.
  split; cbn [fd_read fd_write fd_valid fd_size f_zero_opt];
    [apply ZeroOpt_read_ok | | intros o ? _ [= <-]; apply le_bytes_length]. intros o s Hv. unfold ZeroOpt_read, ZeroOpt_write, rd_bind.
  rewrite read_exact_le, le_value_bytes. destruct o as [t |].
  - destruct Hv as [Hr Ht]. rewrite Z.mod_small by lia. destruct (Z.eqb_spec (zf_into_primitive t) 0); [lia |]. by rewrite Ht.
  - by rewrite Z.mod_0_l by (apply Z.pow_nonzero; lia).
Qed.

(** ** Sequences of fields *)
Definition f_unit : field unit :=
  {| fd_read := rd_ret tt; fd_write := fun _ => []; fd_valid := fun _ => True; fd_size := Some 0%nat |}.
Definition f_pair {A B} (fa : field A) (fb : field B) : field (A * B) :=
  {| fd_read := read a <- fd_read fa; read b <- fd_read fb; rd_ret (a, b);
     fd_write := fun '(a, b) => fd_write fa a ++ fd_write fb b;
     fd_valid := fun '(a, b) => fd_valid fa a /\ fd_valid fb b;
     fd_size := m ← fd_size fa; n ← fd_size fb; Some (m + n)%nat |}.
(** [#[bw(calc = 0)]]: read and dropped, written as zeros. *)
Definition f_skip {A} (n : nat) (fa : field A) : field A :=
  {| fd_read := read _ <- read_exact n; fd_read fa; fd_write := fun a => repeat 0 n ++ fd_write fa a;
     fd_valid := fd_valid fa; fd_size := m ← fd_size fa; Some (n + m)%nat |}.
(** The same behind the field. *)
Definition f_then_skip {A} (fa : field A) (n : nat) : field A :=
  {| fd_read := read a <- fd_read fa; read _ <- read_exact n; rd_ret a;
     fd_write := fun a => fd_write fa a ++ repeat 0 n; fd_valid := fd_valid fa;
     fd_size := m ← fd_size fa; Some (m + n)%nat |}.
Definition f_array {A} (n : nat) (fa : field A) : field (list A) :=
  {| fd_read := rd_count (fd_read fa) n; fd_write := fun l => concat (fd_write fa <$> l);
     fd_valid := fun l => length l = n /\ Forall (fd_valid fa) l;
     fd_size := m ← fd_size fa; Some (n * m)%nat |}.

Lemma f_unit_ok : field_ok f_unit.
Proof. split; cbn; [auto with wire | by intros [] | by intros a ? _ [= <-]]. Qed.
Lemma f_pair_ok {A B} (fa : field A) (fb : field B) : field_ok fa -> field_ok fb -> field_ok (f_pair fa fb).
Proof.
  intros Ha Hb. split; cbn [fd_read fd_write fd_valid fd_size f_pair].
  - apply rd_bind_ok; [apply Ha |]. intros a. apply rd_bind_ok; [apply Hb |]. auto with wire.
  - intros [a b] s [Va Vb]. unfold rd_bind. rewrite <- app_assoc, (fo_roundtrip _ Ha) by done. by rewrite (fo_roundtrip _ Hb).
  - intros [a b] n [Va Vb]. destruct (fd_size fa) as [m |] eqn:Ea; [| done]. destruct (fd_size fb) as [k |] eqn:Eb; [| done].
    intros [= <-]. by rewrite length_app, (fo_size _ Ha a m Va Ea), (fo_size _ Hb b k Vb Eb).
Qed.
Lemma read_exact_repeat n s : read_exact n (repeat 0 n ++ s) = ReadOk (repeat 0 n) s.
Proof. pose proof (read_exact_app (repeat 0 n) s) as E. by rewrite repeat_length in E. Qed.
Lemma f_skip_ok {A} n (fa : field A) : field_ok fa -> field_ok (f_skip n fa).
Proof.
  intros Ha. split; cbn [fd_read fd_write fd_valid fd_size f_skip].
  - apply rd_bind_ok; [apply read_exact_ok |]. intros _. apply Ha.
  - intros a s V. unfold rd_bind. rewrite <- app_assoc, read_exact_repeat. by rewrite (fo_roundtrip _ Ha).
  - intros a k V. destruct (fd_size fa) as [m |] eqn:Ea; [| done]. intros [= <-].
    by rewrite length_app, repeat_length, (fo_size _ Ha a m V Ea).
Qed.
Lemma f_then_skip_ok {A} n (fa : field A) : field_ok fa -> field_ok (f_then_skip fa n).
Proof.
  intros Ha. split; cbn [fd_read fd_write fd_valid fd_size f_then_skip].
  - apply rd_bind_ok; [apply Ha |]. intros a. apply rd_bind_ok; [apply read_exact_ok |]. auto with wire.
  - intros a s V. unfold rd_bind. rewrite <- app_assoc, (fo_roundtrip _ Ha) by done. by rewrite read_exact_repeat.
  - intros a k V. destruct (fd_size fa) as [m |] eqn:Ea; [| done]. intros [= <-].
    by rewrite length_app, repeat_length, (fo_size _ Ha a m V Ea).
Qed.
Lemma f_array_ok {A} n (fa : field A) : field_ok fa -> field_ok (f_array n fa).
Proof.
  intros Ha. split; cbn [fd_read fd_write fd_valid fd_size f_array]; [apply rd_count_ok, Ha | |].
  - intros l s [<- V]. apply rd_count_app. eapply Forall_impl; [exact V |]. intros a Va s'. by apply (fo_roundtrip _ Ha).
  - intros l k [<- V]. destruct (fd_size fa) as [m |] eqn:Ea; [| done]. intros [= <-].
    induction V as [| a l Va V IH]; [done |]. cbn [fmap list_fmap concat length].
    rewrite length_app, (fo_size _ Ha a m Va Ea). fold (fmap (M := list) (fd_write fa)). rewrite IH. lia.
Qed.

(** A [u16] that counts the packet's own bytes ([overhead] of them before the
    text), some fields, and that much text. *)
Definition f_sized {A} (overhead : Z) (fa : field A) : field (A * bytes) :=
  {| fd_read :=
       read size <- read_u16; read a <- fd_read fa;
       read message <- read_exact (Z.to_nat (Z.max 0 (size - overhead))); rd_ret (a, message);
     fd_write := fun '(a, message) =>
       le_bytes 2 (wrap_u 16 (Z.of_nat (length message) + overhead)) ++ fd_write fa a ++ message;
     fd_valid := fun '(a, message) => fd_valid fa a /\ 0 <= overhead /\ Z.of_nat (length message) + overhead < 2 ^ 16;
     fd_size := None |}.
Lemma f_sized_ok {A} overhead (fa : field A) : field_ok fa -> field_ok (f_sized overhead fa).
Proof.
  intros Ha. split; cbn [fd_read fd_write fd_valid fd_size f_sized]; [| | done].
  - apply rd_bind_ok; [apply read_u16_ok |]. intros z. apply rd_bind_ok; [apply Ha |]. intros a.
    apply rd_bind_ok; [apply read_exact_ok |]. auto with wire.
  - intros [a message] s (Va & Ho & Hl). unfold wrap_u. change (2 ^ 16) with 65536 in *. rewrite Z.mod_small by lia.
    unfold rd_bind. rewrite <- !app_assoc, read_u16_bytes by lia. rewrite (fo_roundtrip _ Ha) by done.
    rewrite Z.max_r by lia. replace (Z.to_nat _) with (length message) by lia. by rewrite read_exact_app.
Qed.

Declare Scope layout_scope.
Delimit Scope layout_scope with layout.
Notation "a & b" := (f_pair a b) (at level 60, right associativity) : layout_scope.

(** ** Opcodes and cases *)

(** One variant: its opcode, its fields and its constructor. *)
Record case (A : Type) : Type := {
  case_opcode : Z; case_type : Type; case_field : field case_type;
  case_in : case_type -> A; case_out : A -> option case_type }.
Arguments case_opcode {A} c. Arguments case_type {A} c. Arguments case_field {A} c.
Arguments case_in {A} c t. Arguments case_out {A} c a.
Arguments Build_case {A} _ {_} _ _ _.

Fixpoint select_case {A} (cs : list (case A)) (opcode : Z) : reader A :=
  match cs with
  | [] => rd_fail BadMagic
  | c :: cs => if case_opcode c =? opcode then rd_map (case_in c) (fd_read (case_field c)) else select_case cs opcode
  end.
Fixpoint write_case {A} (cs : list (case A)) (a : A) : bytes :=
  match cs with
  | [] => []
  | c :: cs => match case_out c a with Some t => case_opcode c :: fd_write (case_field c) t | None => write_case cs a end
  end.
Fixpoint valid_case {A} (cs : list (case A)) (a : A) : Prop :=
  match cs with
  | [] => False
  | c :: cs => match case_out c a with Some t => fd_valid (case_field c) t | None => valid_case cs a end
  end.

Definition cases_wire {A} (cs : list (case A)) : Wire A :=
  {| wire_read := read opcode <- read_u8; select_case cs opcode; wire_write := write_case cs; wire_valid := valid_case cs |}.

(** The cases have well-behaved fields, constructors that [case_out] inverts, and
    distinct opcodes. *)
Record cases_ok {A} (cs : list (case A)) : Prop := {
  co_fields : Forall (fun c => field_ok (case_field c)) cs;
  co_out : Forall (fun c => forall a t, case_out c a = Some t -> case_in c t = a) cs;
  co_opcodes : NoDup (case_opcode <$> cs) }.

Lemma select_case_ok {A} (cs : list (case A)) opcode :
  Forall (fun c => field_ok (case_field c)) cs -> reader_ok (select_case cs opcode).
Proof.
  induction 1 as [| c cs Hc Hcs IH]; cbn [select_case]; [auto with wire |].
  apply rd_if_ok; [apply rd_map_ok, Hc | exact IH].
Qed.

Lemma select_case_write {A} (cs : list (case A)) a s : cases_ok cs -> valid_case cs a ->
  exists opcode l, write_case cs a = opcode :: l /\ opcode ∈ (case_opcode <$> cs) /\ select_case cs opcode (l ++ s) = ReadOk a s.
Proof.
  intros [Hf Ho Hn]. induction cs as [| c cs IH]; cbn [valid_case write_case select_case]; [done |].
  apply Forall_cons in Hf as [Hf Hfs]. apply Forall_cons in Ho as [Ho Hos]. cbn in Hn. apply NoDup_cons in Hn as [Hn Hns].
  destruct (case_out c a) as [t |] eqn:E; intros Hv.
  - exists (case_opcode c), (fd_write (case_field c) t). split; [done | split; [by left |]].
    rewrite Z.eqb_refl. unfold rd_map, rd_bind. rewrite (fo_roundtrip _ Hf) by done. by rewrite (Ho a t E).
  - destruct (IH Hfs Hos Hns Hv) as (opcode & l & Hw & Hi & Hr). exists opcode, l. split; [done | split; [by right |]].
    destruct (Z.eqb_spec (case_opcode c) opcode) as [<- |]; [done | exact Hr].
Qed.

Lemma cases_laws {A} (cs : list (case A)) : cases_ok cs -> @WireLaws A (cases_wire cs).
Proof.
  intros H. split; cbn [wire_read wire_write wire_valid cases_wire].
  - apply rd_bind_ok; [apply read_u8_ok |]. intros b. apply select_case_ok, H.
  - done.
  - intros a s Hv. destruct (select_case_write cs a s H Hv) as (opcode & l & -> & _ & Hr). exact Hr.
Qed.

(** The opcode a value is written under, for the router. *)
Lemma write_case_opcode {A} (cs : list (case A)) a : cases_ok cs -> valid_case cs a ->
  exists b l, write_case cs a = b :: l /\ b ∈ (case_opcode <$> cs).
Proof. intros H Hv. destruct (select_case_write cs a [] H Hv) as (b & l & E & Hi & _). by exists b, l. Qed.

(** The sizes of the frames, opcode included. *)
Definition frame_size {A} (cs : list (case A)) (opcode : Z) : option nat :=
  c ← List.find (fun c => case_opcode c =? opcode) cs; n ← fd_size (case_field c); Some (S n).

Lemma write_case_size {A} (cs : list (case A)) a : cases_ok cs -> valid_case cs a ->
  forall opcode l n, write_case cs a = opcode :: l -> frame_size cs opcode = Some n -> length (write_case cs a) = n.
Proof.
  intros [Hf Ho Hn]. induction cs as [| c cs IH]; [done |]. cbn [valid_case write_case].
  apply Forall_cons in Hf as [Hf Hfs]. apply Forall_cons in Ho as [Ho Hos]. cbn in Hn. apply NoDup_cons in Hn as [Hn Hns].
  unfold frame_size. cbn [List.find]. destruct (case_out c a) as [t |] eqn:E; intros Hv opcode l n.
  - intros [= <- <-]. rewrite Z.eqb_refl. cbn. destruct (fd_size (case_field c)) as [m |] eqn:Em; [| done].
    intros [= <-]. cbn [length]. by rewrite (fo_size _ Hf t m Hv Em).
  - intros El. destruct (Z.eqb_spec (case_opcode c) opcode) as [He |]; [| intros Hs; by apply (IH Hfs Hos Hns Hv opcode l)].
    destruct (write_case_opcode cs a ltac:(by split) Hv) as (b & l' & Eb & Hi). rewrite El in Eb. injection Eb as <- _. by subst.
Qed.

Create HintDb layout discriminated.

(** Decides [field_ok] by the shape of the field, unfolding the names. *)
Ltac field_ok_tac :=
  lazymatch goal with
  | |- field_ok (f_uint _) => apply f_uint_ok
  | |- field_ok (f_sint _) => apply f_sint_ok; lia
  | |- field_ok (f_bytes _) => apply f_bytes_ok
  | |- field_ok (f_string _) => apply f_string_ok
  | |- field_ok f_enum => apply f_enum_ok
  | |- field_ok f_zero_opt => apply f_zero_opt_ok
  | |- field_ok f_unit => apply f_unit_ok
  | |- field_ok (f_map _ _ _) => apply f_map_ok; field_ok_tac
  | |- field_ok (f_try_map _ _ _) => apply f_try_map_ok; field_ok_tac
  | |- field_ok (f_pair _ _) => apply f_pair_ok; field_ok_tac
  | |- field_ok (f_skip _ _) => apply f_skip_ok; field_ok_tac
  | |- field_ok (f_then_skip _ _) => apply f_then_skip_ok; field_ok_tac
  | |- field_ok (f_array _ _) => apply f_array_ok; field_ok_tac
  | |- field_ok (f_sized _ _) => apply f_sized_ok; field_ok_tac
  | |- field_ok ?f => first [solve [auto 1 with layout] | unfold f; field_ok_tac]
  end.

Ltac cases_ok_tac :=
  split;
  [ repeat (apply Forall_cons; split; [cbn [case_field]; field_ok_tac |]); apply Forall_nil_2
  | repeat (apply Forall_cons; split; [intros [] ? [= <-]; reflexivity |]); apply Forall_nil_2
  | cbn; apply (bool_decide_unpack _); vm_compute; exact I ].


(** ** Families of several packet enumerations ([route_packets!]) *)
Record route (A : Type) : Type := {
  route_opcodes : list Z; route_type : Type; route_wire : Wire route_type;
  route_in : route_type -> A; route_out : A -> option route_type }.
Arguments route_opcodes {A} r. Arguments route_type {A} r. Arguments route_wire {A} r.
Arguments route_in {A} r t. Arguments route_out {A} r a.
Arguments Build_route {A} _ {_ _} _ _.

Fixpoint select_route {A} (rs : list (route A)) (opcode : Z) : option (reader A) :=
  match rs with
  | [] => None
  | r :: rs =>
      if bool_decide (opcode ∈ route_opcodes r) then Some (rd_map (route_in r) (@wire_read _ (route_wire r)))
      else select_route rs opcode
  end.
Fixpoint write_route {A} (rs : list (route A)) (a : A) : bytes :=
  match rs with
  | [] => []
  | r :: rs => match route_out r a with Some t => @wire_write _ (route_wire r) t | None => write_route rs a end
  end.
(** A value is sent under an opcode of its own route. *)
Fixpoint valid_route {A} (rs : list (route A)) (a : A) : Prop :=
  match rs with
  | [] => False
  | r :: rs =>
      match route_out r a with
      | Some t => @wire_valid _ (route_wire r) t /\ exists b l, @wire_write _ (route_wire r) t = b :: l /\ b ∈ route_opcodes r
      | None => valid_route rs a
      end
  end.
Definition routes_wire {A} (rs : list (route A)) : Wire A :=
  {| wire_read := route_packets (select_route rs); wire_write := write_route rs; wire_valid := valid_route rs |}.

Record routes_ok {A} (rs : list (route A)) : Prop := {
  ros_laws : Forall (fun r => @WireLaws _ (route_wire r)) rs;
  ros_out : Forall (fun r => forall a t, route_out r a = Some t -> route_in r t = a) rs;
  ros_opcodes : NoDup (concat (route_opcodes <$> rs)) }.

Lemma select_route_ok {A} (rs : list (route A)) opcode r :
  Forall (fun r => @WireLaws _ (route_wire r)) rs -> select_route rs opcode = Some r -> reader_ok r /\ r [] = ReadEof.
Proof.
  induction 1 as [| r' rs Hr Hrs IH]; cbn [select_route]; [done |]. case_bool_decide; [| exact IH].
  intros [= <-]. split; [apply rd_map_ok, Hr |]. unfold rd_map, rd_bind. by rewrite (@wire_read_nil _ _ Hr).
Qed.

Lemma write_route_read {A} (rs : list (route A)) a s : routes_ok rs -> valid_route rs a ->
  exists b l r, write_route rs a = b :: l /\ b ∈ concat (route_opcodes <$> rs) /\ select_route rs b = Some r /\ r (b :: l ++ s) = ReadOk a s.
Proof.
  intros [Hl Ho Hn]. induction rs as [| r rs IH]; [done |]. cbn [valid_route write_route select_route fmap list_fmap concat] in *.
  apply Forall_cons in Hl as [Hl Hls]. apply Forall_cons in Ho as [Ho Hos]. apply NoDup_app in Hn as (Hn & Hd & Hns).
  destruct (route_out r a) as [t |] eqn:E.
  - intros (Hv & b & l & Ew & Hb). exists b, l, (rd_map (route_in r) (@wire_read _ (route_wire r))).
    split; [done |]. split; [apply elem_of_app; by left |]. rewrite bool_decide_true by done. split; [done |].
    unfold rd_map, rd_bind. pose proof (@wire_roundtrip _ _ Hl t s Hv) as R. rewrite Ew in R. cbn [app] in R.
    rewrite R. by rewrite (Ho a t E).
  - intros Hv. destruct (IH Hls Hos Hns Hv) as (b & l & r' & Ew & Hb & Hs & R). exists b, l, r'.
    split; [done |]. split; [apply elem_of_app; by right |]. rewrite bool_decide_false; [done |].
    intros Hb'. exact (Hd b Hb' Hb).
Qed.

Lemma routes_laws {A} (rs : list (route A)) : routes_ok rs -> @WireLaws A (routes_wire rs).
Proof.
  intros H. split; cbn [wire_read wire_write wire_valid routes_wire].
  - apply route_packets_ok. intros opcode r Hr. exact (select_route_ok rs opcode r (ros_laws _ H) Hr).
  - done.
  - intros a s Hv. destruct (write_route_read rs a s H Hv) as (b & l & r & -> & _ & Hs & R).
    cbn [app route_packets]. by rewrite Hs.
Qed.

Ltac routes_ok_tac :=
  split;
  [ repeat (apply Forall_cons; split; [cbn [route_wire]; exact _ |]); apply Forall_nil_2
  | repeat (apply Forall_cons; split; [intros [] ? [= <-]; reflexivity |]); apply Forall_nil_2
  | cbn; apply (bool_decide_unpack _); vm_compute; exact I ].
