(* ===== verification/Packets.v ===== *)
(** Packets of the select, loading and in-game phases, and the answers of the login
    phase ([game_pkt/login.rs], [select.rs], [loading.rs], [ingame.rs] and
    [ingame/*.rs]), declared as layouts. *)
From S2P Require Import Prelude Domain Float Wire Protocol GamePacket Space Entities Database Coords Layout.

(** ** Fields *)
Inductive PlayerClassGendered : Type :=
| WarriorMale | NinjaFemale | SuraMale | ShamanFemale | WarriorFemale | NinjaMale | SuraFemale | ShamanMale.
Definition PlayerClassGendered_repr (x : PlayerClassGendered) : Z :=
  match x with
  | WarriorMale => 0 | NinjaFemale => 1 | SuraMale => 2 | ShamanFemale => 3 | WarriorFemale => 4 | NinjaMale => 5
  | SuraFemale => 6 | ShamanMale => 7
  end.
#[export] Instance PlayerClassGendered_u8 : ReprU8 PlayerClassGendered :=
  {| repr_u8 := PlayerClassGendered_repr; repr_values :=
    [WarriorMale; NinjaFemale; SuraMale; ShamanFemale; WarriorFemale; NinjaMale; SuraFemale; ShamanMale] |}.
#[export] Instance PlayerClassGendered_u8_laws : ReprU8Laws PlayerClassGendered. Proof. by repr_tac. Qed.

Inductive WireSkillBranch : Type :=
| BranchA | BranchB.
Definition WireSkillBranch_repr (x : WireSkillBranch) : Z :=
  match x with
  | BranchA => 1 | BranchB => 2
  end.
#[export] Instance WireSkillBranch_u8 : ReprU8 WireSkillBranch :=
  {| repr_u8 := WireSkillBranch_repr; repr_values :=
    [BranchA; BranchB] |}.
#[export] Instance WireSkillBranch_u8_laws : ReprU8Laws WireSkillBranch. Proof. by repr_tac. Qed.

Inductive PlayerSelectSlot : Type :=
| Slot_First | Slot_Second | Slot_Third | Slot_Fourth.
Definition PlayerSelectSlot_repr (x : PlayerSelectSlot) : Z :=
  match x with
  | Slot_First => 0 | Slot_Second => 1 | Slot_Third => 2 | Slot_Fourth => 3
  end.
#[export] Instance PlayerSelectSlot_u8 : ReprU8 PlayerSelectSlot :=
  {| repr_u8 := PlayerSelectSlot_repr; repr_values :=
    [Slot_First; Slot_Second; Slot_Third; Slot_Fourth] |}.
#[export] Instance PlayerSelectSlot_u8_laws : ReprU8Laws PlayerSelectSlot. Proof. by repr_tac. Qed.

Inductive WirePlayerBaseAppearance : Type :=
| W_VariantA | W_VariantB.
Definition WirePlayerBaseAppearance_repr (x : WirePlayerBaseAppearance) : Z :=
  match x with
  | W_VariantA => 0 | W_VariantB => 1
  end.
#[export] Instance WirePlayerBaseAppearance_u8 : ReprU8 WirePlayerBaseAppearance :=
  {| repr_u8 := WirePlayerBaseAppearance_repr; repr_values :=
    [W_VariantA; W_VariantB] |}.
#[export] Instance WirePlayerBaseAppearance_u8_laws : ReprU8Laws WirePlayerBaseAppearance. Proof. by repr_tac. Qed.

Inductive CreatePlayerError : Type :=
| GenericFailure | NameAlreadyExists.
Definition CreatePlayerError_repr (x : CreatePlayerError) : Z :=
  match x with
  | GenericFailure => 0 | NameAlreadyExists => 1
  end.
#[export] Instance CreatePlayerError_u8 : ReprU8 CreatePlayerError :=
  {| repr_u8 := CreatePlayerError_repr; repr_values :=
    [GenericFailure; NameAlreadyExists] |}.
#[export] Instance CreatePlayerError_u8_laws : ReprU8Laws CreatePlayerError. Proof. by repr_tac. Qed.

Inductive ChatKind : Type :=
| ChatKind_Speak | ChatKind_Info | ChatKind_Notice | ChatKind_Command | ChatKind_Shout.
Definition ChatKind_repr (x : ChatKind) : Z :=
  match x with
  | ChatKind_Speak => 0 | ChatKind_Info => 1 | ChatKind_Notice => 2 | ChatKind_Command => 5 | ChatKind_Shout => 6
  end.
#[export] Instance ChatKind_u8 : ReprU8 ChatKind :=
  {| repr_u8 := ChatKind_repr; repr_values :=
    [ChatKind_Speak; ChatKind_Info; ChatKind_Notice; ChatKind_Command; ChatKind_Shout] |}.
#[export] Instance ChatKind_u8_laws : ReprU8Laws ChatKind. Proof. by repr_tac. Qed.

Inductive WireMovementKind : Type :=
| WMove_Wait | WMove_Move | WMove_Attack | WMove_Combo.
Definition WireMovementKind_repr (x : WireMovementKind) : Z :=
  match x with
  | WMove_Wait => 0 | WMove_Move => 1 | WMove_Attack => 2 | WMove_Combo => 3
  end.
#[export] Instance WireMovementKind_u8 : ReprU8 WireMovementKind :=
  {| repr_u8 := WireMovementKind_repr; repr_values :=
    [WMove_Wait; WMove_Move; WMove_Attack; WMove_Combo] |}.
#[export] Instance WireMovementKind_u8_laws : ReprU8Laws WireMovementKind. Proof. by repr_tac. Qed.

Inductive WireMovementAnimation : Type :=
| WAnim_Run | WAnim_Walk.
Definition WireMovementAnimation_repr (x : WireMovementAnimation) : Z :=
  match x with
  | WAnim_Run => 0 | WAnim_Walk => 1
  end.
#[export] Instance WireMovementAnimation_u8 : ReprU8 WireMovementAnimation :=
  {| repr_u8 := WireMovementAnimation_repr; repr_values :=
    [WAnim_Run; WAnim_Walk] |}.
#[export] Instance WireMovementAnimation_u8_laws : ReprU8Laws WireMovementAnimation. Proof. by repr_tac. Qed.

Inductive ProjectileKind : Type :=
| Projectile_Experience | Projectile_HpSmall | Projectile_HpMedium | Projectile_HpLarge | Projectile_SpSmall
| Projectile_SpMedium | Projectile_SpLarge | Projectile_FireworkA | Projectile_FireworkB | Projectile_FireworkC
| Projectile_FireworkD | Projectile_FireworkE | Projectile_FireworkF | Projectile_FireworkG
| Projectile_LightningClaw | Projectile_FlameSpirit.
Definition ProjectileKind_repr (x : ProjectileKind) : Z :=
  match x with
  | Projectile_Experience => 1 | Projectile_HpSmall => 15 | Projectile_HpMedium => 2 | Projectile_HpLarge => 3
  | Projectile_SpSmall => 4 | Projectile_SpMedium => 5 | Projectile_SpLarge => 6 | Projectile_FireworkA => 7
  | Projectile_FireworkB => 8 | Projectile_FireworkC => 9 | Projectile_FireworkD => 10
  | Projectile_FireworkE => 11 | Projectile_FireworkF => 12 | Projectile_FireworkG => 13
  | Projectile_LightningClaw => 14 | Projectile_FlameSpirit => 16
  end.
#[export] Instance ProjectileKind_u8 : ReprU8 ProjectileKind :=
  {| repr_u8 := ProjectileKind_repr; repr_values :=
    [Projectile_Experience; Projectile_HpSmall; Projectile_HpMedium; Projectile_HpLarge; Projectile_SpSmall;
     Projectile_SpMedium; Projectile_SpLarge; Projectile_FireworkA; Projectile_FireworkB; Projectile_FireworkC;
     Projectile_FireworkD; Projectile_FireworkE; Projectile_FireworkF; Projectile_FireworkG;
     Projectile_LightningClaw; Projectile_FlameSpirit] |}.
#[export] Instance ProjectileKind_u8_laws : ReprU8Laws ProjectileKind. Proof. by repr_tac. Qed.

Inductive SpecialEffectKind : Type :=
| Effect_RedSurge | Effect_BlueSurge | Effect_GreenSurge | Effect_PurpleSurge | Effect_CriticalStrike
| Effect_PiercingStrike | Effect_BlockedStrike | Effect_DodgedStrike | Effect_RedSurgeAlt | Effect_BlueSurgeAlt.
Definition SpecialEffectKind_repr (x : SpecialEffectKind) : Z :=
  match x with
  | Effect_RedSurge => 1 | Effect_BlueSurge => 2 | Effect_GreenSurge => 3 | Effect_PurpleSurge => 4
  | Effect_CriticalStrike => 5 | Effect_PiercingStrike => 6 | Effect_BlockedStrike => 7 | Effect_DodgedStrike => 8
  | Effect_RedSurgeAlt => 19 | Effect_BlueSurgeAlt => 20
  end.
#[export] Instance SpecialEffectKind_u8 : ReprU8 SpecialEffectKind :=
  {| repr_u8 := SpecialEffectKind_repr; repr_values :=
    [Effect_RedSurge; Effect_BlueSurge; Effect_GreenSurge; Effect_PurpleSurge; Effect_CriticalStrike;
     Effect_PiercingStrike; Effect_BlockedStrike; Effect_DodgedStrike; Effect_RedSurgeAlt; Effect_BlueSurgeAlt] |}.
#[export] Instance SpecialEffectKind_u8_laws : ReprU8Laws SpecialEffectKind. Proof. by repr_tac. Qed.

Inductive EntityType : Type :=
| Type_Monster | Type_Npc | Type_Stone | Type_Warp | Type_Player | Type_Goto.
Definition EntityType_repr (x : EntityType) : Z :=
  match x with
  | Type_Monster => 0 | Type_Npc => 1 | Type_Stone => 2 | Type_Warp => 3 | Type_Player => 6 | Type_Goto => 9
  end.
#[export] Instance EntityType_u8 : ReprU8 EntityType :=
  {| repr_u8 := EntityType_repr; repr_values :=
    [Type_Monster; Type_Npc; Type_Stone; Type_Warp; Type_Player; Type_Goto] |}.
#[export] Instance EntityType_u8_laws : ReprU8Laws EntityType. Proof. by repr_tac. Qed.

(** [Skill] *)
Inductive WireSkill : Type :=
| WSkill_ThreeWayCut | WSkill_SwordSpin | WSkill_Berserk | WSkill_AuraOfTheSword | WSkill_Dash | WSkill_LifeForce
| WSkill_Shockwave | WSkill_Bash | WSkill_Stump | WSkill_StrongBody | WSkill_SwordStrike | WSkill_SwordOrb
| WSkill_Ambush | WSkill_FastAttack | WSkill_RollingDagger | WSkill_Stealth | WSkill_PoisonousCloud
| WSkill_InsidiousPoison | WSkill_RepetitiveShot | WSkill_ArrowShower | WSkill_FireArrow | WSkill_FeatherWalk
| WSkill_PoisonArrow | WSkill_Spark | WSkill_FingerStrike | WSkill_DragonSwirl | WSkill_EnchantedBlade
| WSkill_Fear | WSkill_EnchantedArmor | WSkill_Dispel | WSkill_DarkStrike | WSkill_FlameStrike
| WSkill_FlameSpirit | WSkill_DarkProtection | WSkill_SpiritStrike | WSkill_DarkOrb | WSkill_FlyingTalisman
| WSkill_ShootingDragon | WSkill_DragonRoar | WSkill_Blessing | WSkill_Reflect | WSkill_DragonAid
| WSkill_LightningThrow | WSkill_SummonLightning | WSkill_LightningClaw | WSkill_Cure | WSkill_Swiftness
| WSkill_AttackUp | WSkill_Leadership | WSkill_Combo | WSkill_Fishing | WSkill_Mining | WSkill_LanguageShinsoo
| WSkill_LanguageChunjo | WSkill_LanguageJinno | WSkill_Polymorph | WSkill_HorseRiding | WSkill_HorseSummon
| WSkill_HorseWildAttack | WSkill_HorseCharge | WSkill_HorseEscape | WSkill_HorseWildAttackRange | WSkill_AddHp
| WSkill_PenetrationResistance | WSkill_GuildEye | WSkill_GuildBlood | WSkill_GuildBless | WSkill_GuildSeonghwi
| WSkill_GuildAcceleration | WSkill_GuildBunno | WSkill_GuildJumun | WSkill_GuildTeleport | WSkill_GuildDoor.
Definition WireSkill_repr (x : WireSkill) : Z :=
  match x with
  | WSkill_ThreeWayCut => 1 | WSkill_SwordSpin => 2 | WSkill_Berserk => 3 | WSkill_AuraOfTheSword => 4
  | WSkill_Dash => 5 | WSkill_LifeForce => 6 | WSkill_Shockwave => 16 | WSkill_Bash => 17 | WSkill_Stump => 18
  | WSkill_StrongBody => 19 | WSkill_SwordStrike => 20 | WSkill_SwordOrb => 21 | WSkill_Ambush => 31
  | WSkill_FastAttack => 32 | WSkill_RollingDagger => 33 | WSkill_Stealth => 34 | WSkill_PoisonousCloud => 35
  | WSkill_InsidiousPoison => 36 | WSkill_RepetitiveShot => 46 | WSkill_ArrowShower => 47 | WSkill_FireArrow => 48
  | WSkill_FeatherWalk => 49 | WSkill_PoisonArrow => 50 | WSkill_Spark => 51 | WSkill_FingerStrike => 61
  | WSkill_DragonSwirl => 62 | WSkill_EnchantedBlade => 63 | WSkill_Fear => 64 | WSkill_EnchantedArmor => 65
  | WSkill_Dispel => 66 | WSkill_DarkStrike => 76 | WSkill_FlameStrike => 77 | WSkill_FlameSpirit => 78
  | WSkill_DarkProtection => 79 | WSkill_SpiritStrike => 80 | WSkill_DarkOrb => 81 | WSkill_FlyingTalisman => 91
  | WSkill_ShootingDragon => 92 | WSkill_DragonRoar => 93 | WSkill_Blessing => 94 | WSkill_Reflect => 95
  | WSkill_DragonAid => 96 | WSkill_LightningThrow => 106 | WSkill_SummonLightning => 107
  | WSkill_LightningClaw => 108 | WSkill_Cure => 109 | WSkill_Swiftness => 110 | WSkill_AttackUp => 111
  | WSkill_Leadership => 121 | WSkill_Combo => 122 | WSkill_Fishing => 123 | WSkill_Mining => 124
  | WSkill_LanguageShinsoo => 126 | WSkill_LanguageChunjo => 127 | WSkill_LanguageJinno => 128
  | WSkill_Polymorph => 129 | WSkill_HorseRiding => 130 | WSkill_HorseSummon => 131
  | WSkill_HorseWildAttack => 137 | WSkill_HorseCharge => 138 | WSkill_HorseEscape => 139
  | WSkill_HorseWildAttackRange => 140 | WSkill_AddHp => 141 | WSkill_PenetrationResistance => 142
  | WSkill_GuildEye => 151 | WSkill_GuildBlood => 152 | WSkill_GuildBless => 153 | WSkill_GuildSeonghwi => 154
  | WSkill_GuildAcceleration => 155 | WSkill_GuildBunno => 156 | WSkill_GuildJumun => 157
  | WSkill_GuildTeleport => 158 | WSkill_GuildDoor => 159
  end.
#[export] Instance WireSkill_u8 : ReprU8 WireSkill :=
  {| repr_u8 := WireSkill_repr; repr_values :=
    [WSkill_ThreeWayCut; WSkill_SwordSpin; WSkill_Berserk; WSkill_AuraOfTheSword; WSkill_Dash; WSkill_LifeForce;
     WSkill_Shockwave; WSkill_Bash; WSkill_Stump; WSkill_StrongBody; WSkill_SwordStrike; WSkill_SwordOrb;
     WSkill_Ambush; WSkill_FastAttack; WSkill_RollingDagger; WSkill_Stealth; WSkill_PoisonousCloud;
     WSkill_InsidiousPoison; WSkill_RepetitiveShot; WSkill_ArrowShower; WSkill_FireArrow; WSkill_FeatherWalk;
     WSkill_PoisonArrow; WSkill_Spark; WSkill_FingerStrike; WSkill_DragonSwirl; WSkill_EnchantedBlade; WSkill_Fear;
     WSkill_EnchantedArmor; WSkill_Dispel; WSkill_DarkStrike; WSkill_FlameStrike; WSkill_FlameSpirit;
     WSkill_DarkProtection; WSkill_SpiritStrike; WSkill_DarkOrb; WSkill_FlyingTalisman; WSkill_ShootingDragon;
     WSkill_DragonRoar; WSkill_Blessing; WSkill_Reflect; WSkill_DragonAid; WSkill_LightningThrow;
     WSkill_SummonLightning; WSkill_LightningClaw; WSkill_Cure; WSkill_Swiftness; WSkill_AttackUp;
     WSkill_Leadership; WSkill_Combo; WSkill_Fishing; WSkill_Mining; WSkill_LanguageShinsoo; WSkill_LanguageChunjo;
     WSkill_LanguageJinno; WSkill_Polymorph; WSkill_HorseRiding; WSkill_HorseSummon; WSkill_HorseWildAttack;
     WSkill_HorseCharge; WSkill_HorseEscape; WSkill_HorseWildAttackRange; WSkill_AddHp;
     WSkill_PenetrationResistance; WSkill_GuildEye; WSkill_GuildBlood; WSkill_GuildBless; WSkill_GuildSeonghwi;
     WSkill_GuildAcceleration; WSkill_GuildBunno; WSkill_GuildJumun; WSkill_GuildTeleport; WSkill_GuildDoor] |}.
#[export] Instance WireSkill_u8_laws : ReprU8Laws WireSkill. Proof. by repr_tac. Qed.

Inductive WireStatPoint : Type :=
| Point_Level | Point_Voice | Point_Exp | Point_NextExp | Point_Hp | Point_MaxHp | Point_Sp | Point_MaxSp
| Point_Stamina | Point_MaxStamina | Point_Gold | Point_St | Point_Ht | Point_Dx | Point_Iq | Point_DefGrade
| Point_AttSpeed | Point_AttGrade | Point_MovSpeed | Point_ClientDefGrade | Point_CastingSpeed
| Point_MagicAttGrade | Point_MagicDefGrade | Point_EmpirePoint | Point_LevelStep | Point_StatPoints
| Point_SubSkillPoints | Point_SkillPoints | Point_WeaponMin | Point_WeaponMax | Point_HpRegen | Point_SpRegen
| Point_BowDistance | Point_HpRecovery | Point_SpRecovery | Point_PoisonPct | Point_StunPct | Point_SlowPct
| Point_CriticalPct | Point_PenetratePct | Point_CursePct | Point_AttBonusHuman | Point_AttBonusAnimal
| Point_AttBonusOrc | Point_AttBonusMilgyo | Point_AttBonusUndead | Point_AttBonusDevil | Point_AttBonusInsect
| Point_AttBonusFire | Point_AttBonusIce | Point_AttBonusDesert | Point_AttBonusMonster | Point_AttBonusWarrior
| Point_AttBonusAssassin | Point_AttBonusSura | Point_AttBonusShaman | Point_AttBonusTree | Point_ResistWarrior
| Point_ResistAssassin | Point_ResistSura | Point_ResistShaman | Point_StealHp | Point_StealSp | Point_ManaBurnPct
| Point_DamageSpRecover | Point_Block | Point_Dodge | Point_ResistSword | Point_ResistTwoHand | Point_ResistDagger
| Point_ResistBell | Point_ResistFan | Point_ResistBow | Point_ResistFire | Point_ResistElec | Point_ResistMagic
| Point_ResistWind | Point_ReflectMelee | Point_ReflectCurse | Point_PoisonReduce | Point_KillSpRecover
| Point_ExpDoubleBonus | Point_GoldDoubleBonus | Point_ItemDropBonus | Point_PotionBonus | Point_KillHpRecovery
| Point_ImmuneStun | Point_ImmuneSlow | Point_ImmuneFall | Point_PartyAttackerBonus | Point_PartyTankerBonus
| Point_AttBonus | Point_DefBonus | Point_AttGradeBonus | Point_DefGradeBonus | Point_MagicAttGradeBonus
| Point_MagicDefGradeBonus | Point_ResistNormalDamage | Point_HitHpRecovery | Point_HitSpRecovery
| Point_Manashield | Point_PartyBufferBonus | Point_PartySkillMasterBonus | Point_HpRecoverContinue
| Point_SpRecoverContinue | Point_StealGold | Point_Polymorph | Point_Mount | Point_PartyHasteBonus
| Point_PartyDefenderBonus | Point_StatResetCount | Point_HorseSkillPoints | Point_MallAttBonus
| Point_MallDefBonus | Point_MallExpBonus | Point_MallItemBonus | Point_MallGoldBonus | Point_MaxHpPct
| Point_MaxSpPct | Point_SkillDamageBonus | Point_NormalHitDamageBonus | Point_SkillDefendBonus
| Point_NormalHitDefendBonus | Point_PcBangExpBonus | Point_PcBangDropBonus | Point_RamadanCandyBonusExp
| Point_Energy | Point_EnergyEndTime | Point_CostumeAttrBonus | Point_MagicAttBonusPer
| Point_MeleeMagicAttBonusPer | Point_ResistIce | Point_ResistEarth | Point_ResistDark | Point_ResistCritical
| Point_ResistPenetrate.
Definition WireStatPoint_repr (x : WireStatPoint) : Z :=
  match x with
  | Point_Level => 1 | Point_Voice => 2 | Point_Exp => 3 | Point_NextExp => 4 | Point_Hp => 5 | Point_MaxHp => 6
  | Point_Sp => 7 | Point_MaxSp => 8 | Point_Stamina => 9 | Point_MaxStamina => 10 | Point_Gold => 11
  | Point_St => 12 | Point_Ht => 13 | Point_Dx => 14 | Point_Iq => 15 | Point_DefGrade => 16
  | Point_AttSpeed => 17 | Point_AttGrade => 18 | Point_MovSpeed => 19 | Point_ClientDefGrade => 20
  | Point_CastingSpeed => 21 | Point_MagicAttGrade => 22 | Point_MagicDefGrade => 23 | Point_EmpirePoint => 24
  | Point_LevelStep => 25 | Point_StatPoints => 26 | Point_SubSkillPoints => 27 | Point_SkillPoints => 28
  | Point_WeaponMin => 29 | Point_WeaponMax => 30 | Point_HpRegen => 32 | Point_SpRegen => 33
  | Point_BowDistance => 34 | Point_HpRecovery => 35 | Point_SpRecovery => 36 | Point_PoisonPct => 37
  | Point_StunPct => 38 | Point_SlowPct => 39 | Point_CriticalPct => 40 | Point_PenetratePct => 41
  | Point_CursePct => 42 | Point_AttBonusHuman => 43 | Point_AttBonusAnimal => 44 | Point_AttBonusOrc => 45
  | Point_AttBonusMilgyo => 46 | Point_AttBonusUndead => 47 | Point_AttBonusDevil => 48
  | Point_AttBonusInsect => 49 | Point_AttBonusFire => 50 | Point_AttBonusIce => 51 | Point_AttBonusDesert => 52
  | Point_AttBonusMonster => 53 | Point_AttBonusWarrior => 54 | Point_AttBonusAssassin => 55
  | Point_AttBonusSura => 56 | Point_AttBonusShaman => 57 | Point_AttBonusTree => 58 | Point_ResistWarrior => 59
  | Point_ResistAssassin => 60 | Point_ResistSura => 61 | Point_ResistShaman => 62 | Point_StealHp => 63
  | Point_StealSp => 64 | Point_ManaBurnPct => 65 | Point_DamageSpRecover => 66 | Point_Block => 67
  | Point_Dodge => 68 | Point_ResistSword => 69 | Point_ResistTwoHand => 70 | Point_ResistDagger => 71
  | Point_ResistBell => 72 | Point_ResistFan => 73 | Point_ResistBow => 74 | Point_ResistFire => 75
  | Point_ResistElec => 76 | Point_ResistMagic => 77 | Point_ResistWind => 78 | Point_ReflectMelee => 79
  | Point_ReflectCurse => 80 | Point_PoisonReduce => 81 | Point_KillSpRecover => 82 | Point_ExpDoubleBonus => 83
  | Point_GoldDoubleBonus => 84 | Point_ItemDropBonus => 85 | Point_PotionBonus => 86 | Point_KillHpRecovery => 87
  | Point_ImmuneStun => 88 | Point_ImmuneSlow => 89 | Point_ImmuneFall => 90 | Point_PartyAttackerBonus => 91
  | Point_PartyTankerBonus => 92 | Point_AttBonus => 93 | Point_DefBonus => 94 | Point_AttGradeBonus => 95
  | Point_DefGradeBonus => 96 | Point_MagicAttGradeBonus => 97 | Point_MagicDefGradeBonus => 98
  | Point_ResistNormalDamage => 99 | Point_HitHpRecovery => 100 | Point_HitSpRecovery => 101
  | Point_Manashield => 102 | Point_PartyBufferBonus => 103 | Point_PartySkillMasterBonus => 104
  | Point_HpRecoverContinue => 105 | Point_SpRecoverContinue => 106 | Point_StealGold => 107
  | Point_Polymorph => 108 | Point_Mount => 109 | Point_PartyHasteBonus => 110 | Point_PartyDefenderBonus => 111
  | Point_StatResetCount => 112 | Point_HorseSkillPoints => 113 | Point_MallAttBonus => 114
  | Point_MallDefBonus => 115 | Point_MallExpBonus => 116 | Point_MallItemBonus => 117
  | Point_MallGoldBonus => 118 | Point_MaxHpPct => 119 | Point_MaxSpPct => 120 | Point_SkillDamageBonus => 121
  | Point_NormalHitDamageBonus => 122 | Point_SkillDefendBonus => 123 | Point_NormalHitDefendBonus => 124
  | Point_PcBangExpBonus => 125 | Point_PcBangDropBonus => 126 | Point_RamadanCandyBonusExp => 127
  | Point_Energy => 128 | Point_EnergyEndTime => 129 | Point_CostumeAttrBonus => 130
  | Point_MagicAttBonusPer => 131 | Point_MeleeMagicAttBonusPer => 132 | Point_ResistIce => 133
  | Point_ResistEarth => 134 | Point_ResistDark => 135 | Point_ResistCritical => 136
  | Point_ResistPenetrate => 137
  end.
#[export] Instance WireStatPoint_u8 : ReprU8 WireStatPoint :=
  {| repr_u8 := WireStatPoint_repr; repr_values :=
    [Point_Level; Point_Voice; Point_Exp; Point_NextExp; Point_Hp; Point_MaxHp; Point_Sp; Point_MaxSp;
     Point_Stamina; Point_MaxStamina; Point_Gold; Point_St; Point_Ht; Point_Dx; Point_Iq; Point_DefGrade;
     Point_AttSpeed; Point_AttGrade; Point_MovSpeed; Point_ClientDefGrade; Point_CastingSpeed; Point_MagicAttGrade;
     Point_MagicDefGrade; Point_EmpirePoint; Point_LevelStep; Point_StatPoints; Point_SubSkillPoints;
     Point_SkillPoints; Point_WeaponMin; Point_WeaponMax; Point_HpRegen; Point_SpRegen; Point_BowDistance;
     Point_HpRecovery; Point_SpRecovery; Point_PoisonPct; Point_StunPct; Point_SlowPct; Point_CriticalPct;
     Point_PenetratePct; Point_CursePct; Point_AttBonusHuman; Point_AttBonusAnimal; Point_AttBonusOrc;
     Point_AttBonusMilgyo; Point_AttBonusUndead; Point_AttBonusDevil; Point_AttBonusInsect; Point_AttBonusFire;
     Point_AttBonusIce; Point_AttBonusDesert; Point_AttBonusMonster; Point_AttBonusWarrior; Point_AttBonusAssassin;
     Point_AttBonusSura; Point_AttBonusShaman; Point_AttBonusTree; Point_ResistWarrior; Point_ResistAssassin;
     Point_ResistSura; Point_ResistShaman; Point_StealHp; Point_StealSp; Point_ManaBurnPct; Point_DamageSpRecover;
     Point_Block; Point_Dodge; Point_ResistSword; Point_ResistTwoHand; Point_ResistDagger; Point_ResistBell;
     Point_ResistFan; Point_ResistBow; Point_ResistFire; Point_ResistElec; Point_ResistMagic; Point_ResistWind;
     Point_ReflectMelee; Point_ReflectCurse; Point_PoisonReduce; Point_KillSpRecover; Point_ExpDoubleBonus;
     Point_GoldDoubleBonus; Point_ItemDropBonus; Point_PotionBonus; Point_KillHpRecovery; Point_ImmuneStun;
     Point_ImmuneSlow; Point_ImmuneFall; Point_PartyAttackerBonus; Point_PartyTankerBonus; Point_AttBonus;
     Point_DefBonus; Point_AttGradeBonus; Point_DefGradeBonus; Point_MagicAttGradeBonus; Point_MagicDefGradeBonus;
     Point_ResistNormalDamage; Point_HitHpRecovery; Point_HitSpRecovery; Point_Manashield; Point_PartyBufferBonus;
     Point_PartySkillMasterBonus; Point_HpRecoverContinue; Point_SpRecoverContinue; Point_StealGold;
     Point_Polymorph; Point_Mount; Point_PartyHasteBonus; Point_PartyDefenderBonus; Point_StatResetCount;
     Point_HorseSkillPoints; Point_MallAttBonus; Point_MallDefBonus; Point_MallExpBonus; Point_MallItemBonus;
     Point_MallGoldBonus; Point_MaxHpPct; Point_MaxSpPct; Point_SkillDamageBonus; Point_NormalHitDamageBonus;
     Point_SkillDefendBonus; Point_NormalHitDefendBonus; Point_PcBangExpBonus; Point_PcBangDropBonus;
     Point_RamadanCandyBonusExp; Point_Energy; Point_EnergyEndTime; Point_CostumeAttrBonus; Point_MagicAttBonusPer;
     Point_MeleeMagicAttBonusPer; Point_ResistIce; Point_ResistEarth; Point_ResistDark; Point_ResistCritical;
     Point_ResistPenetrate] |}.
#[export] Instance WireStatPoint_u8_laws : ReprU8Laws WireStatPoint. Proof. by repr_tac. Qed.

(** [SkillBranch], [PlayerClassGendered] and [Skill] are zero-as-none fields by
    their representation; the codes below by their number. *)
Definition NetId : Type := Z.
#[export] Instance NetId_zf : ZeroFallback NetId :=
  {| zf_width := 4; zf_try_from_primitive := Some; zf_into_primitive := fun z => z |}.

(** Newtypes over an integer that is its own primitive. *)
Record VisualItemPartCode : Type := { vip_raw : Z }.
#[export] Instance VisualItemPartCode_zf : ZeroFallback VisualItemPartCode :=
  {| zf_width := 2; zf_try_from_primitive := fun z => Some {| vip_raw := z |}; zf_into_primitive := vip_raw |}.
Record HairShape : Type := { hair_raw : Z }.
#[export] Instance HairShape_zf : ZeroFallback HairShape :=
  {| zf_width := 2; zf_try_from_primitive := fun z => Some {| hair_raw := z |}; zf_into_primitive := hair_raw |}.
Record MobTemplateId : Type := { mob_raw : Z }.
#[export] Instance MobTemplateId_zf : ZeroFallback MobTemplateId :=
  {| zf_width := 4; zf_try_from_primitive := fun z => Some {| mob_raw := z |}; zf_into_primitive := mob_raw |}.

Definition f_net_id : field NetId := f_u32.
Definition f_empire : field WireEmpire :=
  f_try_map (zf_try_from_primitive (T := WireEmpire)) zf_into_primitive f_u8.
Definition f_pos : field WireWorldPos :=
  f_map (fun '(x, y) => {| x_cm := x; y_cm := y |}) (fun p => (x_cm p, y_cm p)) (f_pair f_i32 f_i32).
Definition f_server_addr : field WireServerAddr :=
  f_map (fun '(ip, port) => {| srv_ipv4_addr := ip; srv_port := port |})
    (fun a => (srv_ipv4_addr a, srv_port a)) (f_pair f_i32 f_u16).

(** The bits of an [f32]: sign, biased exponent, fraction. *)
Definition f32_to_bits (x : spec_float) : Z :=
  match x with
  | S754_zero s => if s then 2 ^ 31 else 0
  | S754_infinity s => (if s then 2 ^ 31 else 0) + 255 * 2 ^ 23
  | S754_nan => 255 * 2 ^ 23 + 2 ^ 22
  | S754_finite s m e => (if s then 2 ^ 31 else 0) + (e + 149) * 2 ^ 23 + Z.pos m
  end.
Definition f32_of_bits (b : Z) : spec_float :=
  let s := 2 ^ 31 <=? b in
  let exponent := b / 2 ^ 23 mod 256 in
  let fraction := b mod 2 ^ 23 in
  if exponent =? 255 then (if fraction =? 0 then S754_infinity s else S754_nan)
  else
    let m := if exponent =? 0 then fraction else 2 ^ 23 + fraction in
    match m with
    | Z.pos m => S754_finite s m (Z.max exponent 1 - 150)
    | _ => S754_zero s
    end.
Definition f_f32 : field spec_float :=
  {| fd_read := rd_map f32_of_bits (fd_read f_u32); fd_write := fun x => fd_write f_u32 (f32_to_bits x);
     fd_valid := fun x => valid_binary 24 128 x = true; fd_size := Some 4%nat |}.

Lemma f32_finite_bounds m e : bounded 24 128 m e = true ->
  Z.pos m < 2 ^ 24 /\ -149 <= e <= 104 /\ (e = -149 \/ 2 ^ 23 <= Z.pos m).
Proof.
  unfold bounded, canonical_mantissa, fexp, emin. rewrite andb_true_iff. intros [Hc He].
  apply Z.eqb_eq in Hc. apply Z.leb_le in He. pose proof (digits_pos_bounds m) as Hd. set (d := Z.pos (digits2_pos m)) in *.
  assert (d <= 24) as H24 by lia.
  assert (2 ^ d <= 2 ^ 24) by (apply Z.pow_le_mono_r; lia). split; [lia |]. split; [lia |].
  destruct (Z.eq_dec e (-149)) as [| Hn]; [by left | right].
  assert (d = 24) as E24 by lia. rewrite E24 in Hd. change (24 - 1) with 23 in Hd. lia.
Qed.

Lemma f32_bits_roundtrip x : valid_binary 24 128 x = true -> 0 <= f32_to_bits x < 2 ^ 32 /\ f32_of_bits (f32_to_bits x) = x.
Proof.
  destruct x as [s | s | | s m e]; [by destruct s | by destruct s | done |]. cbn [valid_binary]. intros Hv.
  destruct (f32_finite_bounds m e Hv) as (Hm & He & Hn). unfold f32_to_bits.
  change (2 ^ 24) with (2 * 2 ^ 23) in Hm. change (2 ^ 31) with (256 * 2 ^ 23). change (2 ^ 32) with (512 * 2 ^ 23).
  set (P := 2 ^ 23) in *. assert (0 < P) as HP by (by vm_compute).
  set (sb := if s then 256 * P else 0). assert (sb = 0 \/ sb = 256 * P) as Hs by (destruct s; auto).
  assert (0 <= (e + 149) * P <= 253 * P) as Hb by nia. split; [lia |].
  unfold f32_of_bits. change (2 ^ 31) with (256 * P). change (2 ^ 23) with P.
  set (b := sb + (e + 149) * P + Z.pos m).
  assert ((256 * P <=? b) = s) as -> by (unfold b, sb; destruct s; [apply Z.leb_le | apply Z.leb_gt]; lia).
  set (k := if s then 256 else 0). assert (sb = k * P) as Ek by (unfold sb, k; destruct s; lia).
  set (q := if Z.pos m <? P then 0 else 1).
  assert (0 <= Z.pos m - q * P < P) as Hr by (unfold q; destruct (Z.ltb_spec (Z.pos m) P); lia).
  assert (b = (k + e + 149 + q) * P + (Z.pos m - q * P)) as Eb by (unfold b; rewrite Ek; ring).
  assert (b / P = k + e + 149 + q) as -> by (symmetry; apply (Z.div_unique _ _ _ (Z.pos m - q * P)); lia).
  assert (b mod P = Z.pos m - q * P) as -> by (symmetry; apply (Z.mod_unique _ _ (k + e + 149 + q)); lia).
  assert ((k + e + 149 + q) mod 256 = e + 149 + q) as ->.
  { assert (0 <= q <= 1) by (unfold q; destruct (_ <? _); lia). unfold k. destruct s.
    - symmetry. apply (Z.mod_unique _ _ 1); lia.
    - apply Z.mod_small. lia. }
  unfold q in *. destruct (Z.ltb_spec (Z.pos m) P) as [Hlt | Hge].
  - destruct Hn as [-> | Hn]; [| lia]. cbn [Z.eqb Z.add Z.mul Z.sub]. reflexivity.
  - destruct (Z.eqb_spec (e + 149 + 1) 255); [lia |]. destruct (Z.eqb_spec (e + 149 + 1) 0); [lia |].
    replace (P + (Z.pos m - 1 * P)) with (Z.pos m) by lia. f_equal. lia.
Qed.

Lemma f_f32_ok : field_ok f_f32.
Proof.
  split; cbn [fd_read fd_write fd_valid fd_size f_f32];
    [apply rd_map_ok, f_uint_ok | | intros x ? _ [= <-]; apply le_bytes_length]. intros x s Hv.
  destruct (f32_bits_roundtrip x Hv) as [Hb Hr]. unfold rd_map, rd_bind. rewrite (fo_roundtrip _ (f_uint_ok 4)) by exact Hb.
  by rewrite Hr.
Qed.
#[export] Hint Resolve f_f32_ok : layout.


(** ** Login phase *)
Inductive LoginFailReason : Type := InvalidCredentials | AlreadyLoggedIn | BlockedAccount.
Inductive LoginS2cSpecific : Type :=
| LoginResultFail (reason : LoginFailReason)
| Login_SetAccountEmpire (empire : WireEmpire).

(** The server only writes these; the text is padded to nine bytes. *)
Definition LoginFailReason_magic (r : LoginFailReason) : bytes :=
  match r with
  | InvalidCredentials => [87; 82; 79; 78; 71; 80; 87; 68]
  | AlreadyLoggedIn => [65; 76; 82; 69; 65; 68; 89]
  | BlockedAccount => [66; 76; 79; 67; 75]
  end.
Definition pad_size_to (n : nat) (l : bytes) : bytes := l ++ repeat 0 (n - length l).
Definition LoginS2cSpecific_write (p : LoginS2cSpecific) : bytes :=
  match p with
  | LoginResultFail reason => 0x07 :: pad_size_to 9 (LoginFailReason_magic reason)
  | Login_SetAccountEmpire empire => 0x5A :: fd_write f_empire empire
  end.
Definition LoginS2c : Type := PhasePacket ControlS2c LoginS2cSpecific.

(** ** Select phase *)
Definition MAX_PLAYER_SLOTS : nat := 4.
Definition DELETE_CODE_MAX_LENGTH : nat := 7.
Definition GUILD_NAME_MAX_LENGTH : nat := 13.

Record Player : Type := {
  db_id : Z; player_name : FixedString; class_gendered : PlayerClassGendered; level : Z; playtime_minutes : Z;
  stat_str : Z; stat_vit : Z; stat_dex : Z; stat_int : Z; player_body_part : Z; changed_name : Z; player_hair_part : Z;
  server_addr : WireServerAddr }.
Definition Player_empty : Player :=
  {| db_id := 0; player_name := FixedString_default PLAYER_NAME_MAX_LENGTH; class_gendered := WarriorMale; level := 0;
     playtime_minutes := 0; stat_str := 0; stat_vit := 0; stat_dex := 0; stat_int := 0; player_body_part := 0;
     changed_name := 0; player_hair_part := 0; server_addr := UNROUTABLE |}.
Definition f_player : field Player :=
  f_map
    (fun '(id, (name, (cg, (lv, (pt, (s, (v, (d, (i, (body, (ch, (hair, addr)))))))))))) =>
      {| db_id := id; player_name := name; class_gendered := cg; level := lv; playtime_minutes := pt; stat_str := s;
         stat_vit := v; stat_dex := d; stat_int := i; player_body_part := body; changed_name := ch;
         player_hair_part := hair; server_addr := addr |})
    (fun p => (db_id p, (player_name p, (class_gendered p, (level p, (playtime_minutes p, (stat_str p, (stat_vit p,
      (stat_dex p, (stat_int p, (player_body_part p, (changed_name p, (player_hair_part p, server_addr p)))))))))))))
    (f_u32 & f_string PLAYER_NAME_MAX_LENGTH & f_enum & f_u8 & f_u32 & f_u8 & f_u8 & f_u8 & f_u8 & f_u16 & f_u8 & f_u16 &
     f_skip 12 (f_then_skip f_server_addr 1))%layout.

Inductive SelectC2sSpecific : Type :=
| SubmitEmpireChoice (empire : WireEmpire)
| RequestCreatePlayer (slot : PlayerSelectSlot) (name : bytes) (class_gender : PlayerClassGendered) (reserved : Z)
    (appearance : WirePlayerBaseAppearance) (reserved_stats : Z)
| RequestDeletePlayer (slot : PlayerSelectSlot) (code : bytes) (reserved : Z)
| SubmitPlayerChoice (slot : PlayerSelectSlot).

Definition SelectC2sSpecific_cases : list (case SelectC2sSpecific) :=
  [Build_case 0x5A f_empire SubmitEmpireChoice (fun a => match a with SubmitEmpireChoice e => Some e | _ => None end);
   Build_case 0x04
     (f_enum & f_bytes PLAYER_NAME_MAX_LENGTH & f_enum & f_u8 & f_enum & f_u32)%layout
     (fun '(slot, (name, (cg, (r, (ap, rs))))) => RequestCreatePlayer slot name cg r ap rs)
     (fun a => match a with RequestCreatePlayer slot name cg r ap rs => Some (slot, (name, (cg, (r, (ap, rs))))) | _ => None end);
   Build_case 0x05 (f_enum & f_bytes DELETE_CODE_MAX_LENGTH & f_u8)%layout
     (fun '(slot, (code, r)) => RequestDeletePlayer slot code r)
     (fun a => match a with RequestDeletePlayer slot code r => Some (slot, (code, r)) | _ => None end);
   Build_case 0x06 f_enum SubmitPlayerChoice (fun a => match a with SubmitPlayerChoice slot => Some slot | _ => None end)].

Inductive SelectS2cSpecific : Type :=
| SetAccountEmpire (empire : WireEmpire)
| SetPlayerChoices (players : list Player) (guild_ids : list Z) (guild_names : list FixedString)
| CreatePlayerResultOk (slot : PlayerSelectSlot) (new_player : Player)
| CreatePlayerResultFail (error : CreatePlayerError)
| DeletePlayerResultOk (slot : PlayerSelectSlot)
| DeletePlayerResultFail.

Definition SelectS2cSpecific_cases : list (case SelectS2cSpecific) :=
  [Build_case 0x5A f_empire SetAccountEmpire (fun a => match a with SetAccountEmpire e => Some e | _ => None end);
   Build_case 0x20
     (f_array MAX_PLAYER_SLOTS f_player & f_array MAX_PLAYER_SLOTS f_u32 &
      f_then_skip (f_array MAX_PLAYER_SLOTS (f_string GUILD_NAME_MAX_LENGTH)) 8)%layout
     (fun '(ps, (ids, names)) => SetPlayerChoices ps ids names)
     (fun a => match a with SetPlayerChoices ps ids names => Some (ps, (ids, names)) | _ => None end);
   Build_case 0x08 (f_enum & f_player)%layout (fun '(slot, p) => CreatePlayerResultOk slot p)
     (fun a => match a with CreatePlayerResultOk slot p => Some (slot, p) | _ => None end);
   Build_case 0x09 f_enum CreatePlayerResultFail (fun a => match a with CreatePlayerResultFail e => Some e | _ => None end);
   Build_case 0x0A f_enum DeletePlayerResultOk (fun a => match a with DeletePlayerResultOk s => Some s | _ => None end);
   Build_case 0x0B f_unit (fun _ => DeletePlayerResultFail)
     (fun a => match a with DeletePlayerResultFail => Some tt | _ => None end)].

(** ** Statistics *)
Definition STATS_COUNT : nat := 255.
Definition WireStatSnapshot : Type := list Z.
Definition WireStatSnapshot_default : WireStatSnapshot := repeat 0 STATS_COUNT.
Definition WireStatSnapshot_get (s : WireStatSnapshot) (stat : WireStatPoint) : Z := nth (Z.to_nat (repr_u8 stat)) s 0.
Definition WireStatSnapshot_set (s : WireStatSnapshot) (stat : WireStatPoint) (value : Z) : WireStatSnapshot :=
  <[Z.to_nat (repr_u8 stat) := value]> s.

Inductive StatsS2c : Type :=
| SetMainCharacterStats (stats : WireStatSnapshot)
| SyncEntityStat (net_id : NetId) (stat_id : WireStatPoint) (absolute : Z).
Definition StatsS2c_cases : list (case StatsS2c) :=
  [Build_case 0x10 (f_array STATS_COUNT f_u32) SetMainCharacterStats
     (fun a => match a with SetMainCharacterStats s => Some s | _ => None end);
   Build_case 0x11 (f_skip 3 (f_net_id & f_then_skip f_enum 4 & f_i32))%layout
     (fun '(id, (stat, v)) => SyncEntityStat id stat v)
     (fun a => match a with SyncEntityStat id stat v => Some (id, (stat, v)) | _ => None end)].

(** ** Loading phase *)
Inductive LoadingC2sSpecific : Type :=
| SubmitClientVersion (client version : bytes)
| SignalLoadingComplete.
Definition LoadingC2sSpecific_cases : list (case LoadingC2sSpecific) :=
  [Build_case 0xF1 (f_bytes 33 & f_bytes 33)%layout (fun '(c, v) => SubmitClientVersion c v)
     (fun a => match a with SubmitClientVersion c v => Some (c, v) | _ => None end);
   Build_case 0x0A f_unit (fun _ => SignalLoadingComplete)
     (fun a => match a with SignalLoadingComplete => Some tt | _ => None end)].

Inductive LoadingS2cSpecific : Type :=
| SetMainCharacter (net_id : NetId) (class_gender : PlayerClassGendered) (name : FixedString) (pos : WireWorldPos)
    (empire : WireEmpire) (skill_branch : option WireSkillBranch).
Definition LoadingS2cSpecific_cases : list (case LoadingS2cSpecific) :=
  [Build_case 0x71
     (f_net_id & f_then_skip f_enum 1 & f_string PLAYER_NAME_MAX_LENGTH & f_then_skip f_pos 4 & f_empire & f_zero_opt)%layout
     (fun '(id, (cg, (name, (pos, (e, sb))))) => SetMainCharacter id cg name pos e sb)
     (fun '(SetMainCharacter id cg name pos e sb) => Some (id, (cg, (name, (pos, (e, sb))))))].

(** ** In-game: chat *)
Inductive ChatC2s : Type := SubmitChatMessage (kind : ChatKind) (message : bytes).
Definition ChatC2s_cases : list (case ChatC2s) :=
  [Build_case 0x03 (f_sized 4 f_enum) (fun '(kind, m) => SubmitChatMessage kind m)
     (fun '(SubmitChatMessage kind m) => Some (kind, m))].
Inductive ChatS2c : Type :=
| NotifyChatMessage (kind : ChatKind) (net_id : option NetId) (empire : option WireEmpire) (message : bytes).
Definition ChatS2c_cases : list (case ChatS2c) :=
  [Build_case 0x04 (f_sized 9 (f_enum & f_zero_opt & f_zero_opt)%layout)
     (fun '((kind, (id, e)), m) => NotifyChatMessage kind id e m)
     (fun '(NotifyChatMessage kind id e m) => Some ((kind, (id, e)), m))].

(** ** In-game: combat *)
Inductive CombatC2s : Type :=
| InputAttack (attack_type : option WireSkill) (target : NetId) (unknown : Z)
| SignalTargetSwitch (target : NetId).
Definition CombatC2s_cases : list (case CombatC2s) :=
  [Build_case 0x02 (f_zero_opt & f_net_id & f_u16)%layout (fun '(a, (t, u)) => InputAttack a t u)
     (fun a => match a with InputAttack at_ t u => Some (at_, (t, u)) | _ => None end);
   Build_case 0x3D f_net_id SignalTargetSwitch (fun a => match a with SignalTargetSwitch t => Some t | _ => None end)].

Record ProjectileTarget : Type := { pt_caster : NetId; pt_target : option NetId; pt_fallback_target : WireWorldPos }.
Definition f_projectile_target : field ProjectileTarget :=
  f_map (fun '(c, (t, p)) => {| pt_caster := c; pt_target := t; pt_fallback_target := p |})
    (fun p => (pt_caster p, (pt_target p, pt_fallback_target p))) (f_net_id & f_zero_opt & f_pos)%layout.
Inductive CombatS2c : Type :=
| SetEntityStunned (target : NetId)
| SetEntityDead (target : NetId)
| Pkt_SyncEntityHealthBar (target : NetId) (hp_pct : Z)
| TriggerFloatingDamage (target : NetId) (flags damage : Z)
| TriggerSpecialEffect (kind : SpecialEffectKind) (target : NetId)
| TriggerProjectileEffect (kind : ProjectileKind) (from_entity to_entity : NetId)
| Pkt_SetProjectileTarget (target : ProjectileTarget)
| AddProjectileTarget (target : ProjectileTarget).
Definition CombatS2c_cases : list (case CombatS2c) :=
  [Build_case 0x0D f_net_id SetEntityStunned (fun a => match a with SetEntityStunned t => Some t | _ => None end);
   Build_case 0x0E f_net_id SetEntityDead (fun a => match a with SetEntityDead t => Some t | _ => None end);
   Build_case 0x3F (f_net_id & f_u8)%layout (fun '(t, p) => Pkt_SyncEntityHealthBar t p)
     (fun a => match a with Pkt_SyncEntityHealthBar t p => Some (t, p) | _ => None end);
   Build_case 0x87 (f_net_id & f_u8 & f_i32)%layout (fun '(t, (f, d)) => TriggerFloatingDamage t f d)
     (fun a => match a with TriggerFloatingDamage t f d => Some (t, (f, d)) | _ => None end);
   Build_case 0x72 (f_enum & f_net_id)%layout (fun '(k, t) => TriggerSpecialEffect k t)
     (fun a => match a with TriggerSpecialEffect k t => Some (k, t) | _ => None end);
   Build_case 0x46 (f_enum & f_net_id & f_net_id)%layout (fun '(k, (f, t)) => TriggerProjectileEffect k f t)
     (fun a => match a with TriggerProjectileEffect k f t => Some (k, (f, t)) | _ => None end);
   Build_case 0x47 f_projectile_target Pkt_SetProjectileTarget
     (fun a => match a with Pkt_SetProjectileTarget t => Some t | _ => None end);
   Build_case 0x45 f_projectile_target AddProjectileTarget
     (fun a => match a with AddProjectileTarget t => Some t | _ => None end)].

(** ** In-game: movement *)
Inductive MovementC2s : Type :=
| InputMovement (kind : WireMovementKind) (arg rot : Z) (pos : WireWorldPos) (ts : Z).
Definition MovementC2s_cases : list (case MovementC2s) :=
  [Build_case 0x07 (f_enum & f_u8 & f_u8 & f_pos & f_u32)%layout
     (fun '(k, (a, (r, (p, ts)))) => InputMovement k a r p ts)
     (fun '(InputMovement k a r p ts) => Some (k, (a, (r, (p, ts)))))].
Inductive MovementS2c : Type :=
| SyncEntityMovement (kind : WireMovementKind) (arg rot : Z) (net_id : NetId) (pos : WireWorldPos) (ts duration : Z)
| Pkt_SetEntityMovementAnimation (net_id : NetId) (animation : WireMovementAnimation).
Definition MovementS2c_cases : list (case MovementS2c) :=
  [Build_case 0x03 (f_enum & f_u8 & f_u8 & f_net_id & f_pos & f_u32 & f_u32)%layout
     (fun '(k, (a, (r, (id, (p, (ts, d)))))) => SyncEntityMovement k a r id p ts d)
     (fun a => match a with SyncEntityMovement k a r id p ts d => Some (k, (a, (r, (id, (p, (ts, d)))))) | _ => None end);
   Build_case 0x6F (f_net_id & f_enum)%layout (fun '(id, an) => Pkt_SetEntityMovementAnimation id an)
     (fun a => match a with Pkt_SetEntityMovementAnimation id an => Some (id, an) | _ => None end)].

(** ** In-game: system *)
Inductive SystemS2c : Type :=
| InitServerHandoff (destination_addr : WireServerAddr)
| SetServerTime (time : Z)
| SetChannelInfo (channel_id : Z).
Definition SystemS2c_cases : list (case SystemS2c) :=
  [Build_case 0x41 (f_skip 8 f_server_addr) InitServerHandoff (fun a => match a with InitServerHandoff d => Some d | _ => None end);
   Build_case 0x6A f_u32 SetServerTime (fun a => match a with SetServerTime t => Some t | _ => None end);
   Build_case 0x79 f_u8 SetChannelInfo (fun a => match a with SetChannelInfo c => Some c | _ => None end)].

(** ** In-game: world *)
Inductive NonPlayerEntityType : Type := NP_Monster | NP_Npc | NP_Stone | NP_Warp | NP_Goto.
Definition EntityType_from (t : NonPlayerEntityType) : EntityType :=
  match t with
  | NP_Monster => Type_Monster | NP_Npc => Type_Npc | NP_Stone => Type_Stone | NP_Warp => Type_Warp | NP_Goto => Type_Goto
  end.
Inductive EntityKindCode : Type :=
| Code_Player (class : PlayerClassGendered)
| Code_NonPlayer (entity_type : NonPlayerEntityType) (race : MobTemplateId).
Definition entity_type (e : EntityKindCode) : EntityType :=
  match e with Code_Player _ => Type_Player | Code_NonPlayer t _ => EntityType_from t end.
(** [RaceCode]: an identifier of 32 bits is cut to 16. *)
Definition race_code (e : EntityKindCode) : Z :=
  match e with Code_Player class => repr_u8 class | Code_NonPlayer _ race => wrap_u 16 (mob_raw race) end.
Definition EntityKindCode_try_from (wire : EntityType * Z) : option EntityKindCode :=
  let '(t, race) := wire in
  match t with
  | Type_Player => Code_Player <$> try_from_u8 (wrap_u 8 race)
  | Type_Monster => Some (Code_NonPlayer NP_Monster {| mob_raw := race |})
  | Type_Npc => Some (Code_NonPlayer NP_Npc {| mob_raw := race |})
  | Type_Stone => Some (Code_NonPlayer NP_Stone {| mob_raw := race |})
  | Type_Warp => Some (Code_NonPlayer NP_Warp {| mob_raw := race |})
  | Type_Goto => Some (Code_NonPlayer NP_Goto {| mob_raw := race |})
  end.
Definition f_entity_kind : field EntityKindCode :=
  f_try_map EntityKindCode_try_from (fun e => (entity_type e, race_code e)) (f_pair f_enum f_u16).

(** What the body and race codes stand for. *)
Inductive BodyPart : Type := Base (appearance : WirePlayerBaseAppearance) | Wedding | Equipped (item : Z).
Definition BodyPartCode_semantics (code : Z) : BodyPart :=
  match code with
  | 0 => Base W_VariantA
  | 1 => Base W_VariantB
  | 2 => Wedding
  | v => Equipped v
  end.
Definition BodyPartCode_from (value : BodyPart) : Z :=
  match value with Base b => repr_u8 b | Wedding => 2 | Equipped id => wrap_u 16 id end.
Inductive EntityRace : Type := Race_Player (class : PlayerClassGendered) | Race_NonPlayer (id : MobTemplateId).
Definition RaceCode_semantics (code : Z) (entity_type : EntityType) : option EntityRace :=
  match entity_type with
  | Type_Player => Race_Player <$> try_from_u8 (wrap_u 8 code)
  | _ => Some (Race_NonPlayer {| mob_raw := code |})
  end.
Definition RaceCode_from (race : EntityRace) : Z :=
  match race with Race_Player p => repr_u8 p | Race_NonPlayer id => wrap_u 16 (mob_raw id) end.

Record EntityVisualParts : Type := { evp_body : Z; evp_weapon : option VisualItemPartCode; evp_hair : option HairShape }.
Definition f_visual_parts : field EntityVisualParts :=
  f_map (fun '(b, (w, h)) => {| evp_body := b; evp_weapon := w; evp_hair := h |})
    (fun p => (evp_body p, (evp_weapon p, evp_hair p))) (f_u16 & f_then_skip f_zero_opt 2 & f_zero_opt)%layout.

Definition Wire_EntityStateFlags_DEAD : Z := Z.shiftl 1 0.
Definition Wire_EntityStateFlags_SPAWN : Z := Z.shiftl 1 1.
Definition Wire_EntityBuffFlags_SPAWN : Z := Z.shiftl 1 2.

Inductive WorldS2c : Type :=
| SpawnEntity (net_id : NetId) (angle : spec_float) (pos : WireWorldPos) (entity : EntityKindCode)
    (move_speed attack_speed state_flags buff_flags : Z)
| SetEntityProfile (net_id : NetId) (name : FixedString) (parts : EntityVisualParts) (empire : option WireEmpire)
    (guild_id level rank_pts pvp_mode : Z) (mount_id : option MobTemplateId)
| SyncEntity (net_id : NetId) (parts : EntityVisualParts) (move_speed attack_speed state_flags buff_flags : Z)
    (guild_id rank_pts pvp_mode : Z) (mount_id : option MobTemplateId)
| DestroyEntity (net_id : NetId).
Definition WorldS2c_cases : list (case WorldS2c) :=
  [Build_case 0x01 (f_net_id & f_f32 & f_then_skip f_pos 4 & f_entity_kind & f_u8 & f_u8 & f_u8 & f_u64)%layout
     (fun '(id, (a, (p, (e, (ms, (as_, (sf, bf))))))) => SpawnEntity id a p e ms as_ sf bf)
     (fun a => match a with SpawnEntity id an p e ms as_ sf bf => Some (id, (an, (p, (e, (ms, (as_, (sf, bf))))))) | _ => None end);
   Build_case 0x88
     (f_net_id & f_string PLAYER_NAME_MAX_LENGTH & f_visual_parts & f_zero_opt & f_u32 & f_u32 & f_i16 & f_u8 & f_zero_opt)%layout
     (fun '(id, (n, (p, (e, (g, (l, (r, (v, m)))))))) => SetEntityProfile id n p e g l r v m)
     (fun a => match a with SetEntityProfile id n p e g l r v m => Some (id, (n, (p, (e, (g, (l, (r, (v, m)))))))) | _ => None end);
   Build_case 0x13
     (f_net_id & f_visual_parts & f_u8 & f_u8 & f_u8 & f_u64 & f_u32 & f_i16 & f_u8 & f_zero_opt)%layout
     (fun '(id, (p, (ms, (as_, (sf, (bf, (g, (r, (v, m))))))))) => SyncEntity id p ms as_ sf bf g r v m)
     (fun a => match a with SyncEntity id p ms as_ sf bf g r v m => Some (id, (p, (ms, (as_, (sf, (bf, (g, (r, (v, m)))))))))
               | _ => None end);
   Build_case 0x02 f_net_id DestroyEntity (fun a => match a with DestroyEntity id => Some id | _ => None end)].

(** ** Auth server packets ([auth_pkt.rs]) *)
Inductive AuthC2sSpecific : Type := RequestPasswordLogin (username password enc_key : bytes).
Definition AuthC2sSpecific_cases : list (case AuthC2sSpecific) :=
  [Build_case 0x6F (f_bytes 31 & f_bytes 17 & f_bytes 16)%layout
     (fun '(u, (p, k)) => RequestPasswordLogin u p k) (fun '(RequestPasswordLogin u p k) => Some (u, (p, k)))].
Inductive LoginFailureReason : Type := Auth_InvalidCredentials | Auth_ServerAtCapacity.
Definition LoginFailureReason_magic (r : LoginFailureReason) : bytes :=
  match r with Auth_InvalidCredentials => [87; 82; 79; 78; 71; 80; 87; 68] | Auth_ServerAtCapacity => [70; 85; 76; 76] end.
Inductive AuthS2cSpecific : Type :=
| Auth_LoginResultFail (reason : LoginFailureReason)
| LoginResultOk (token is_ok : Z).
Definition AuthS2cSpecific_write (p : AuthS2cSpecific) : bytes :=
  match p with
  | Auth_LoginResultFail reason => 0x07 :: pad_size_to 13 (LoginFailureReason_magic reason)
  | LoginResultOk token is_ok => 0x96 :: fd_write (f_pair f_u32 f_u8) (token, is_ok)
  end.

(** ** Laws *)
Lemma SelectC2sSpecific_ok : cases_ok SelectC2sSpecific_cases. Proof. cases_ok_tac. Qed.
Lemma SelectS2cSpecific_ok : cases_ok SelectS2cSpecific_cases. Proof. cases_ok_tac. Qed.
Lemma StatsS2c_ok : cases_ok StatsS2c_cases. Proof. cases_ok_tac. Qed.
Lemma LoadingC2sSpecific_ok : cases_ok LoadingC2sSpecific_cases. Proof. cases_ok_tac. Qed.
Lemma LoadingS2cSpecific_ok : cases_ok LoadingS2cSpecific_cases. Proof. cases_ok_tac. Qed.
Lemma ChatC2s_ok : cases_ok ChatC2s_cases. Proof. cases_ok_tac. Qed.
Lemma ChatS2c_ok : cases_ok ChatS2c_cases. Proof. cases_ok_tac. Qed.
Lemma CombatC2s_ok : cases_ok CombatC2s_cases. Proof. cases_ok_tac. Qed.
Lemma CombatS2c_ok : cases_ok CombatS2c_cases. Proof. cases_ok_tac. Qed.
Lemma MovementC2s_ok : cases_ok MovementC2s_cases. Proof. cases_ok_tac. Qed.
Lemma MovementS2c_ok : cases_ok MovementS2c_cases. Proof. cases_ok_tac. Qed.
Lemma SystemS2c_ok : cases_ok SystemS2c_cases. Proof. cases_ok_tac. Qed.
Lemma WorldS2c_ok : cases_ok WorldS2c_cases. Proof. cases_ok_tac. Qed.
Lemma AuthC2sSpecific_ok : cases_ok AuthC2sSpecific_cases. Proof. cases_ok_tac. Qed.

(** ** The families on the wire, and the routers of the phases *)
#[export] Instance SelectC2sSpecific_wire : Wire SelectC2sSpecific := cases_wire SelectC2sSpecific_cases.
#[export] Instance SelectC2sSpecific_laws : WireLaws SelectC2sSpecific := cases_laws _ SelectC2sSpecific_ok.
#[export] Instance SelectS2cSpecific_wire : Wire SelectS2cSpecific := cases_wire SelectS2cSpecific_cases.
#[export] Instance SelectS2cSpecific_laws : WireLaws SelectS2cSpecific := cases_laws _ SelectS2cSpecific_ok.
#[export] Instance LoadingC2sSpecific_wire : Wire LoadingC2sSpecific := cases_wire LoadingC2sSpecific_cases.
#[export] Instance LoadingC2sSpecific_laws : WireLaws LoadingC2sSpecific := cases_laws _ LoadingC2sSpecific_ok.
#[export] Instance LoadingS2cSpecific_wire : Wire LoadingS2cSpecific := cases_wire LoadingS2cSpecific_cases.
#[export] Instance LoadingS2cSpecific_laws : WireLaws LoadingS2cSpecific := cases_laws _ LoadingS2cSpecific_ok.
#[export] Instance StatsS2c_wire : Wire StatsS2c := cases_wire StatsS2c_cases.
#[export] Instance StatsS2c_laws : WireLaws StatsS2c := cases_laws _ StatsS2c_ok.
#[export] Instance ChatC2s_wire : Wire ChatC2s := cases_wire ChatC2s_cases.
#[export] Instance ChatC2s_laws : WireLaws ChatC2s := cases_laws _ ChatC2s_ok.
#[export] Instance ChatS2c_wire : Wire ChatS2c := cases_wire ChatS2c_cases.
#[export] Instance ChatS2c_laws : WireLaws ChatS2c := cases_laws _ ChatS2c_ok.
#[export] Instance CombatC2s_wire : Wire CombatC2s := cases_wire CombatC2s_cases.
#[export] Instance CombatC2s_laws : WireLaws CombatC2s := cases_laws _ CombatC2s_ok.
#[export] Instance CombatS2c_wire : Wire CombatS2c := cases_wire CombatS2c_cases.
#[export] Instance CombatS2c_laws : WireLaws CombatS2c := cases_laws _ CombatS2c_ok.
#[export] Instance MovementC2s_wire : Wire MovementC2s := cases_wire MovementC2s_cases.
#[export] Instance MovementC2s_laws : WireLaws MovementC2s := cases_laws _ MovementC2s_ok.
#[export] Instance MovementS2c_wire : Wire MovementS2c := cases_wire MovementS2c_cases.
#[export] Instance MovementS2c_laws : WireLaws MovementS2c := cases_laws _ MovementS2c_ok.
#[export] Instance SystemS2c_wire : Wire SystemS2c := cases_wire SystemS2c_cases.
#[export] Instance SystemS2c_laws : WireLaws SystemS2c := cases_laws _ SystemS2c_ok.
#[export] Instance WorldS2c_wire : Wire WorldS2c := cases_wire WorldS2c_cases.
#[export] Instance WorldS2c_laws : WireLaws WorldS2c := cases_laws _ WorldS2c_ok.
#[export] Instance AuthC2sSpecific_wire : Wire AuthC2sSpecific := cases_wire AuthC2sSpecific_cases.
#[export] Instance AuthC2sSpecific_laws : WireLaws AuthC2sSpecific := cases_laws _ AuthC2sSpecific_ok.

Definition SelectC2s : Type := PhasePacket ControlC2s SelectC2sSpecific.
#[export] Instance SelectC2s_wire : Wire SelectC2s := routed_wire c2s_control_opcodes [0x5A; 0x04; 0x05; 0x06].
#[export] Instance SelectC2s_laws : WireLaws SelectC2s. Proof. apply routed_laws. Qed.
Definition SelectS2c : Type := PhasePacket ControlS2c SelectS2cSpecific.
#[export] Instance SelectS2c_wire : Wire SelectS2c :=
  routed_wire s2c_control_opcodes [0x5A; 0x20; 0x08; 0x09; 0x0A; 0x0B].
#[export] Instance SelectS2c_laws : WireLaws SelectS2c. Proof. apply routed_laws. Qed.
Definition LoadingC2s : Type := PhasePacket ControlC2s LoadingC2sSpecific.
#[export] Instance LoadingC2s_wire : Wire LoadingC2s := routed_wire c2s_control_opcodes [0xF1; 0x0A].
#[export] Instance LoadingC2s_laws : WireLaws LoadingC2s. Proof. apply routed_laws. Qed.
Definition AuthC2s : Type := PhasePacket ControlC2s AuthC2sSpecific.
#[export] Instance AuthC2s_wire : Wire AuthC2s := routed_wire c2s_control_opcodes [0x6F].
#[export] Instance AuthC2s_laws : WireLaws AuthC2s. Proof. apply routed_laws. Qed.

Inductive LoadingS2c : Type :=
| Loading_Control (c : ControlS2c) | Loading_Specific (p : LoadingS2cSpecific) | Loading_Stats (p : StatsS2c).
Definition LoadingS2c_routes : list (route LoadingS2c) :=
  [Build_route s2c_control_opcodes Loading_Control (fun a => match a with Loading_Control c => Some c | _ => None end);
   Build_route [0x71] Loading_Specific (fun a => match a with Loading_Specific p => Some p | _ => None end);
   Build_route [0x10; 0x11] Loading_Stats (fun a => match a with Loading_Stats p => Some p | _ => None end)].

Inductive InGameC2s : Type :=
| InGame_Control (c : ControlC2s) | InGame_Move (p : MovementC2s) | InGame_Chat (p : ChatC2s) | InGame_Combat (p : CombatC2s).
Definition InGameC2s_routes : list (route InGameC2s) :=
  [Build_route c2s_control_opcodes InGame_Control (fun a => match a with InGame_Control c => Some c | _ => None end);
   Build_route [0x06; 0x07] InGame_Move (fun a => match a with InGame_Move p => Some p | _ => None end);
   Build_route [0x03] InGame_Chat (fun a => match a with InGame_Chat p => Some p | _ => None end);
   Build_route [0x02; 0x3D] InGame_Combat (fun a => match a with InGame_Combat p => Some p | _ => None end)].

Inductive InGameS2c : Type :=
| S2c_Control (c : ControlS2c) | S2c_System (p : SystemS2c) | S2c_Move (p : MovementS2c) | S2c_Chat (p : ChatS2c)
| S2c_World (p : WorldS2c) | S2c_Stats (p : StatsS2c) | S2c_Combat (p : CombatS2c).
Definition InGameS2c_routes : list (route InGameS2c) :=
  [Build_route s2c_control_opcodes S2c_Control (fun a => match a with S2c_Control c => Some c | _ => None end);
   Build_route [0x41; 0x6A; 0x79] S2c_System (fun a => match a with S2c_System p => Some p | _ => None end);
   Build_route [0x03; 0x6F] S2c_Move (fun a => match a with S2c_Move p => Some p | _ => None end);
   Build_route [0x04] S2c_Chat (fun a => match a with S2c_Chat p => Some p | _ => None end);
   Build_route [0x01; 0x02; 0x13; 0x88] S2c_World (fun a => match a with S2c_World p => Some p | _ => None end);
   Build_route [0x10; 0x11] S2c_Stats (fun a => match a with S2c_Stats p => Some p | _ => None end);
   Build_route [0x0D; 0x0E; 0x3F; 0x45; 0x46; 0x47; 0x72; 0x87] S2c_Combat
     (fun a => match a with S2c_Combat p => Some p | _ => None end)].

Lemma LoadingS2c_routes_ok : routes_ok LoadingS2c_routes. Proof. routes_ok_tac. Qed.
Lemma InGameC2s_routes_ok : routes_ok InGameC2s_routes. Proof. routes_ok_tac. Qed.
Lemma InGameS2c_routes_ok : routes_ok InGameS2c_routes. Proof. routes_ok_tac. Qed.
#[export] Instance LoadingS2c_wire : Wire LoadingS2c := routes_wire LoadingS2c_routes.
#[export] Instance LoadingS2c_laws : WireLaws LoadingS2c := routes_laws _ LoadingS2c_routes_ok.
#[export] Instance InGameC2s_wire : Wire InGameC2s := routes_wire InGameC2s_routes.
#[export] Instance InGameC2s_laws : WireLaws InGameC2s := routes_laws _ InGameC2s_routes_ok.
#[export] Instance InGameS2c_wire : Wire InGameS2c := routes_wire InGameS2c_routes.
#[export] Instance InGameS2c_laws : WireLaws InGameS2c := routes_laws _ InGameS2c_routes_ok.

(** *** Every valid packet has a route *)

(** The packets of a family go out under opcodes of its route. *)
Lemma cases_routed {A} (cs : list (case A)) (opcodes : list Z) a : cases_ok cs -> valid_case cs a ->
  Forall (fun b => b ∈ opcodes) (case_opcode <$> cs) ->
  exists b l, write_case cs a = b :: l /\ b ∈ opcodes.
Proof.
  intros H Hv Hf. destruct (write_case_opcode cs a H Hv) as (b & l & E & Hi). exists b, l. split; [done |].
  by eapply Forall_forall in Hf.
Qed.
Lemma cases_routed_specific {A} (cs : list (case A)) (control opcodes : list Z) a : cases_ok cs -> valid_case cs a ->
  Forall (fun b => b ∈ opcodes /\ ~ (b ∈ control)) (case_opcode <$> cs) ->
  exists b l, write_case cs a = b :: l /\ b ∈ opcodes /\ ~ (b ∈ control).
Proof.
  intros H Hv Hf. destruct (write_case_opcode cs a H Hv) as (b & l & E & Hi). exists b, l. split; [done |].
  by eapply Forall_forall in Hf.
Qed.
Lemma s2c_control_routed (c : ControlS2c) : exists b l, wire_write c = b :: l /\ b ∈ s2c_control_opcodes.
Proof. unfold s2c_control_opcodes. destruct c; eexists _, _; (split; [reflexivity |]); rewrite !elem_of_cons; auto. Qed.

Ltac routed_tac := cbn; apply (bool_decide_unpack _); vm_compute; exact I.

Definition SelectC2s_payload_valid (p : SelectC2s) : Prop :=
  match p with Control c => wire_valid c | Specific s => wire_valid s end.
Definition SelectS2c_payload_valid (p : SelectS2c) : Prop :=
  match p with Control c => wire_valid c | Specific s => wire_valid s end.
Definition LoadingC2s_payload_valid (p : LoadingC2s) : Prop :=
  match p with Control c => wire_valid c | Specific s => wire_valid s end.
Definition LoadingS2c_payload_valid (p : LoadingS2c) : Prop :=
  match p with Loading_Control c => wire_valid c | Loading_Specific s => wire_valid s | Loading_Stats s => wire_valid s end.
Definition InGameC2s_payload_valid (p : InGameC2s) : Prop :=
  match p with
  | InGame_Control c => wire_valid c | InGame_Move s => wire_valid s | InGame_Chat s => wire_valid s
  | InGame_Combat s => wire_valid s
  end.
Definition InGameS2c_payload_valid (p : InGameS2c) : Prop :=
  match p with
  | S2c_Control c => wire_valid c | S2c_System s => wire_valid s | S2c_Move s => wire_valid s | S2c_Chat s => wire_valid s
  | S2c_World s => wire_valid s | S2c_Stats s => wire_valid s | S2c_Combat s => wire_valid s
  end.

Lemma SelectC2s_valid p : SelectC2s_payload_valid p -> wire_valid p.
Proof.
  destruct p as [c | p]; intros H; (split; [exact H |]); [apply c2s_control_routed |].
  apply (cases_routed_specific _ _ _ _ SelectC2sSpecific_ok H). routed_tac.
Qed.
Lemma SelectS2c_valid p : SelectS2c_payload_valid p -> wire_valid p.
Proof.
  destruct p as [c | p]; intros H; (split; [exact H |]); [apply s2c_control_routed |].
  apply (cases_routed_specific _ _ _ _ SelectS2cSpecific_ok H). routed_tac.
Qed.
Lemma LoadingC2s_valid p : LoadingC2s_payload_valid p -> wire_valid p.
Proof.
  destruct p as [c | p]; intros H; (split; [exact H |]); [apply c2s_control_routed |].
  apply (cases_routed_specific _ _ _ _ LoadingC2sSpecific_ok H). routed_tac.
Qed.
Lemma LoadingS2c_valid p : LoadingS2c_payload_valid p -> wire_valid p.
Proof.
  destruct p as [c | p | p]; intros H; (split; [exact H |]); [apply s2c_control_routed | |].
  - apply (cases_routed _ _ _ LoadingS2cSpecific_ok H). routed_tac.
  - apply (cases_routed _ _ _ StatsS2c_ok H). routed_tac.
Qed.
Lemma InGameC2s_valid p : InGameC2s_payload_valid p -> wire_valid p.
Proof.
  destruct p as [c | p | p | p]; intros H; (split; [exact H |]); [apply c2s_control_routed | | |].
  - apply (cases_routed _ _ _ MovementC2s_ok H). routed_tac.
  - apply (cases_routed _ _ _ ChatC2s_ok H). routed_tac.
  - apply (cases_routed _ _ _ CombatC2s_ok H). routed_tac.
Qed.
Lemma InGameS2c_valid p : InGameS2c_payload_valid p -> wire_valid p.
Proof.
  destruct p as [c | p | p | p | p | p | p]; intros H; (split; [exact H |]); [apply s2c_control_routed | | | | | |].
  - apply (cases_routed _ _ _ SystemS2c_ok H). routed_tac.
  - apply (cases_routed _ _ _ MovementS2c_ok H). routed_tac.
  - apply (cases_routed _ _ _ ChatS2c_ok H). routed_tac.
  - apply (cases_routed _ _ _ WorldS2c_ok H). routed_tac.
  - apply (cases_routed _ _ _ StatsS2c_ok H). routed_tac.
  - apply (cases_routed _ _ _ CombatS2c_ok H). routed_tac.
Qed.

(** ** Properties *)

(** What the codec needs of a packet type: a packet followed by anything reads back
    and leaves what follows it, and a proper prefix of its bytes is not yet one. *)
Definition self_delimiting {A} `{Wire A} (p : A) : Prop :=
  (forall s, wire_read (wire_write p ++ s) = ReadOk p s) /\
  (forall part missing, wire_write p = part ++ missing -> missing <> [] -> wire_read (A := A) part = ReadEof).

Lemma wire_self_delimiting {A} `{WireLaws A} (p : A) : wire_valid p -> self_delimiting p.
Proof.
  intros Hv. split; [intros s; by apply wire_roundtrip |]. intros part missing E Hm.
  pose proof (wire_roundtrip p [] Hv) as R. destruct (ro_ok _ wire_reader_ok _ _ _ R) as (c & Ec & _ & P).
  rewrite !app_nil_r in Ec. apply (P part missing); congruence.
Qed.

(** [C16] [C] Every packet of the select, loading and in-game phases whose fields fit
    their wire widths is written so that it reads back, alone or followed by other
    bytes, and no shorter piece of it is taken for a packet. *)
Theorem phase_packets_self_delimiting :
  (forall p : SelectC2s, SelectC2s_payload_valid p -> self_delimiting p) /\
  (forall p : SelectS2c, SelectS2c_payload_valid p -> self_delimiting p) /\
  (forall p : LoadingC2s, LoadingC2s_payload_valid p -> self_delimiting p) /\
  (forall p : LoadingS2c, LoadingS2c_payload_valid p -> self_delimiting p) /\
  (forall p : InGameC2s, InGameC2s_payload_valid p -> self_delimiting p) /\
  (forall p : InGameS2c, InGameS2c_payload_valid p -> self_delimiting p).
Proof.
  split_and!; intros p H; apply wire_self_delimiting;
    [by apply SelectC2s_valid | by apply SelectS2c_valid | by apply LoadingC2s_valid | by apply LoadingS2c_valid
    | by apply InGameC2s_valid | by apply InGameS2c_valid].
Qed.

Definition sample_spawn : InGameS2c :=
  S2c_World (SpawnEntity 7 (S754_zero false) {| x_cm := 300; y_cm := 450 |} (Code_NonPlayer NP_Monster {| mob_raw := 101 |}) 100 100 0 0).

Lemma phase_packets_self_delimiting_witness :
  wire_read (wire_write sample_spawn ++ [1; 2]) = ReadOk sample_spawn [1; 2].
Proof.
  refine (proj1 (proj2 (proj2 (proj2 (proj2 (proj2 phase_packets_self_delimiting)))) sample_spawn _) [1; 2]).
  cbn. split_and!; try done; lia.
Defined.

(** The family's packets under these opcodes are written in these many bytes. *)
Definition frames {A} (cs : list (case A)) (opcodes : list Z) (sizes : list nat) : Prop :=
  frame_size cs <$> opcodes = Some <$> sizes /\
  forall p opcode l n, valid_case cs p -> write_case cs p = opcode :: l -> frame_size cs opcode = Some n ->
    length (write_case cs p) = n.
Lemma frames_intro {A} (cs : list (case A)) opcodes sizes :
  cases_ok cs -> frame_size cs <$> opcodes = Some <$> sizes -> frames cs opcodes sizes.
Proof. intros H E. split; [done |]. intros p opcode l n Hv El. by apply (write_case_size cs p H Hv opcode l). Qed.

(** [C] The frames have the sizes the legacy client expects: a packet of a fixed
    layout is written in exactly the number of bytes of its opcode's frame. *)
Theorem legacy_frame_sizes :
  frames SelectC2sSpecific_cases [0x5A; 0x04; 0x05; 0x06] [2; 34; 10; 2]%nat /\
  frames SelectS2cSpecific_cases [0x5A; 0x20; 0x08; 0x09; 0x0A; 0x0B] [2; 329; 65; 2; 2; 1]%nat /\
  frames LoadingC2sSpecific_cases [0xF1; 0x0A] [67; 1]%nat /\
  frames LoadingS2cSpecific_cases [0x71] [46]%nat /\
  frames StatsS2c_cases [0x10; 0x11] [1021; 17]%nat /\
  frames MovementC2s_cases [0x07] [16]%nat /\
  frames MovementS2c_cases [0x03; 0x6F] [24; 6]%nat /\
  frames CombatC2s_cases [0x02; 0x3D] [8; 5]%nat /\
  frames CombatS2c_cases [0x0D; 0x0E; 0x3F; 0x87; 0x46; 0x47; 0x45; 0x72] [5; 5; 6; 10; 10; 17; 17; 6]%nat /\
  frames SystemS2c_cases [0x41; 0x6A; 0x79] [15; 5; 2]%nat /\
  frames WorldS2c_cases [0x01; 0x88; 0x13; 0x02] [35; 54; 35; 5]%nat.
Proof.
  split_and!; apply frames_intro; first [
    exact SelectC2sSpecific_ok |
    exact SelectS2cSpecific_ok |
    exact LoadingC2sSpecific_ok |
    exact LoadingS2cSpecific_ok |
    exact StatsS2c_ok |
    exact MovementC2s_ok |
    exact MovementS2c_ok |
    exact CombatC2s_ok |
    exact CombatS2c_ok |
    exact SystemS2c_ok |
    exact WorldS2c_ok | by vm_compute].
Qed.
