(* ===== verification/Adapters.v ===== *)
(** Between the domain and the wire: [zohar-gamesrv/src/adapters.rs], with the
    class and creation tables of [new_player_defaults.rs].

    [ToDomain] and [ToProtocol] are classes, indexed like the traits by both
    types; the pairs that exist in both directions are inverse to each other. *)
From S2P Require Import Prelude BTree Domain Samples StatsApi Hydrate Float Space Entities Database Coords MapPort Text Wire GamePacket Layout Packets.

Class ToDomain (A T : Type) : Type := to_domain : A -> T.
Class ToProtocol (A T : Type) : Type := to_wire : A -> T.
Class WireIso (A T : Type) `{ToDomain A T, ToProtocol T A} : Prop := {
  to_wire_to_domain : forall a : A, to_wire (to_domain a : T) = a;
  to_domain_to_wire : forall t : T, to_domain (to_wire t : A) = t }.
Ltac iso_tac := split; intros x; repeat (destruct x as [[] []] || destruct x); reflexivity.

Definition NetId_to_domain : ToDomain NetId EntityId := fun id => id.
#[export] Existing Instance NetId_to_domain.
Definition EntityId_to_protocol : ToProtocol EntityId NetId := fun id => id.
#[export] Existing Instance EntityId_to_protocol.

Definition MovementKind_to_domain : ToDomain WireMovementKind MovementKind := fun x =>
  match x with
  | WMove_Wait => Kind_Wait | WMove_Move => Kind_Move | WMove_Attack => Kind_Attack | WMove_Combo => Kind_Combo
  end.
#[export] Existing Instance MovementKind_to_domain.
Definition DomainMovementKind_to_protocol : ToProtocol MovementKind WireMovementKind := fun x =>
  match x with
  | Kind_Wait => WMove_Wait | Kind_Move => WMove_Move | Kind_Attack => WMove_Attack | Kind_Combo => WMove_Combo
  end.
#[export] Existing Instance DomainMovementKind_to_protocol.
#[export] Instance MovementKind_iso : WireIso WireMovementKind MovementKind. Proof. iso_tac. Qed.

Definition MovementAnimation_to_domain : ToDomain WireMovementAnimation MovementAnimation := fun x =>
  match x with
  | WAnim_Run => Run | WAnim_Walk => Walk
  end.
#[export] Existing Instance MovementAnimation_to_domain.
Definition DomainMovementAnimation_to_protocol : ToProtocol MovementAnimation WireMovementAnimation := fun x =>
  match x with
  | Run => WAnim_Run | Walk => WAnim_Walk
  end.
#[export] Existing Instance DomainMovementAnimation_to_protocol.
#[export] Instance MovementAnimation_iso : WireIso WireMovementAnimation MovementAnimation. Proof. iso_tac. Qed.

Definition ChatKind_to_domain : ToDomain ChatKind ChatChannel := fun x =>
  match x with
  | ChatKind_Speak => Chat_Speak | ChatKind_Info => Chat_Info | ChatKind_Notice => Chat_Notice
  | ChatKind_Command => Chat_Command | ChatKind_Shout => Chat_Shout
  end.
#[export] Existing Instance ChatKind_to_domain.
Definition ChatChannel_to_protocol : ToProtocol ChatChannel ChatKind := fun x =>
  match x with
  | Chat_Speak => ChatKind_Speak | Chat_Info => ChatKind_Info | Chat_Notice => ChatKind_Notice
  | Chat_Command => ChatKind_Command | Chat_Shout => ChatKind_Shout
  end.
#[export] Existing Instance ChatChannel_to_protocol.
#[export] Instance ChatKind_iso : WireIso ChatKind ChatChannel. Proof. iso_tac. Qed.

Definition Appearance_to_domain : ToDomain WirePlayerBaseAppearance PlayerBaseAppearance := fun x =>
  match x with
  | W_VariantA => VariantA | W_VariantB => VariantB
  end.
#[export] Existing Instance Appearance_to_domain.
Definition DomainAppearance_to_protocol : ToProtocol PlayerBaseAppearance WirePlayerBaseAppearance := fun x =>
  match x with
  | VariantA => W_VariantA | VariantB => W_VariantB
  end.
#[export] Existing Instance DomainAppearance_to_protocol.
#[export] Instance Appearance_iso : WireIso WirePlayerBaseAppearance PlayerBaseAppearance. Proof. iso_tac. Qed.

Definition ClassGendered_to_domain : ToDomain PlayerClassGendered (PlayerClass * PlayerGender) := fun x =>
  match x with
  | WarriorMale => (Warrior, Male) | WarriorFemale => (Warrior, Female) | NinjaMale => (Ninja, Male)
  | NinjaFemale => (Ninja, Female) | SuraMale => (Sura, Male) | SuraFemale => (Sura, Female)
  | ShamanMale => (Shaman, Male) | ShamanFemale => (Shaman, Female)
  end.
#[export] Existing Instance ClassGendered_to_domain.
Definition DomainClassGender_to_protocol : ToProtocol (PlayerClass * PlayerGender) PlayerClassGendered := fun x =>
  match x with
  | (Warrior, Male) => WarriorMale | (Warrior, Female) => WarriorFemale | (Ninja, Male) => NinjaMale
  | (Ninja, Female) => NinjaFemale | (Sura, Male) => SuraMale | (Sura, Female) => SuraFemale
  | (Shaman, Male) => ShamanMale | (Shaman, Female) => ShamanFemale
  end.
#[export] Existing Instance DomainClassGender_to_protocol.
#[export] Instance ClassGendered_iso : WireIso PlayerClassGendered (PlayerClass * PlayerGender). Proof. iso_tac. Qed.

Definition Empire_to_domain : ToDomain WireEmpire Empire := fun x =>
  match x with
  | WireEmpire_Red => Empire_Red | WireEmpire_Yellow => Empire_Yellow | WireEmpire_Blue => Empire_Blue
  end.
#[export] Existing Instance Empire_to_domain.
Definition DomainEmpire_to_protocol : ToProtocol Empire WireEmpire := fun x =>
  match x with
  | Empire_Red => WireEmpire_Red | Empire_Yellow => WireEmpire_Yellow | Empire_Blue => WireEmpire_Blue
  end.
#[export] Existing Instance DomainEmpire_to_protocol.
#[export] Instance Empire_iso : WireIso WireEmpire Empire. Proof. iso_tac. Qed.

Definition Skill_to_domain : ToDomain WireSkill SkillId := fun x =>
  match x with
  | WSkill_ThreeWayCut => Skill_ThreeWayCut | WSkill_SwordSpin => Skill_SwordSpin | WSkill_Berserk => Skill_Berserk
  | WSkill_AuraOfTheSword => Skill_AuraOfTheSword | WSkill_Dash => Skill_Dash | WSkill_LifeForce => Skill_LifeForce
  | WSkill_Shockwave => Skill_Shockwave | WSkill_Bash => Skill_Bash | WSkill_Stump => Skill_Stump
  | WSkill_StrongBody => Skill_StrongBody | WSkill_SwordStrike => Skill_SwordStrike
  | WSkill_SwordOrb => Skill_SwordOrb | WSkill_Ambush => Skill_Ambush | WSkill_FastAttack => Skill_FastAttack
  | WSkill_RollingDagger => Skill_RollingDagger | WSkill_Stealth => Skill_Stealth
  | WSkill_PoisonousCloud => Skill_PoisonousCloud | WSkill_InsidiousPoison => Skill_InsidiousPoison
  | WSkill_RepetitiveShot => Skill_RepetitiveShot | WSkill_ArrowShower => Skill_ArrowShower
  | WSkill_FireArrow => Skill_FireArrow | WSkill_FeatherWalk => Skill_FeatherWalk
  | WSkill_PoisonArrow => Skill_PoisonArrow | WSkill_Spark => Skill_Spark
  | WSkill_FingerStrike => Skill_FingerStrike | WSkill_DragonSwirl => Skill_DragonSwirl
  | WSkill_EnchantedBlade => Skill_EnchantedBlade | WSkill_Fear => Skill_Fear
  | WSkill_EnchantedArmor => Skill_EnchantedArmor | WSkill_Dispel => Skill_Dispel
  | WSkill_DarkStrike => Skill_DarkStrike | WSkill_FlameStrike => Skill_FlameStrike
  | WSkill_FlameSpirit => Skill_FlameSpirit | WSkill_DarkProtection => Skill_DarkProtection
  | WSkill_SpiritStrike => Skill_SpiritStrike | WSkill_DarkOrb => Skill_DarkOrb
  | WSkill_FlyingTalisman => Skill_FlyingTalisman | WSkill_ShootingDragon => Skill_ShootingDragon
  | WSkill_DragonRoar => Skill_DragonRoar | WSkill_Blessing => Skill_Blessing | WSkill_Reflect => Skill_Reflect
  | WSkill_DragonAid => Skill_DragonAid | WSkill_LightningThrow => Skill_LightningThrow
  | WSkill_SummonLightning => Skill_SummonLightning | WSkill_LightningClaw => Skill_LightningClaw
  | WSkill_Cure => Skill_Cure | WSkill_Swiftness => Skill_Swiftness | WSkill_AttackUp => Skill_AttackUp
  | WSkill_Leadership => Skill_Leadership | WSkill_Combo => Skill_Combo | WSkill_Fishing => Skill_Fishing
  | WSkill_Mining => Skill_Mining | WSkill_LanguageShinsoo => Skill_LanguageShinsoo
  | WSkill_LanguageChunjo => Skill_LanguageChunjo | WSkill_LanguageJinno => Skill_LanguageJinno
  | WSkill_Polymorph => Skill_Polymorph | WSkill_HorseRiding => Skill_HorseRiding
  | WSkill_HorseSummon => Skill_HorseSummon | WSkill_HorseWildAttack => Skill_HorseWildAttack
  | WSkill_HorseCharge => Skill_HorseCharge | WSkill_HorseEscape => Skill_HorseEscape
  | WSkill_HorseWildAttackRange => Skill_HorseWildAttackRange | WSkill_AddHp => Skill_AddHp
  | WSkill_PenetrationResistance => Skill_PenetrationResistance | WSkill_GuildEye => Skill_GuildEye
  | WSkill_GuildBlood => Skill_GuildBlood | WSkill_GuildBless => Skill_GuildBless
  | WSkill_GuildSeonghwi => Skill_GuildSeonghwi | WSkill_GuildAcceleration => Skill_GuildAcceleration
  | WSkill_GuildBunno => Skill_GuildBunno | WSkill_GuildJumun => Skill_GuildJumun
  | WSkill_GuildTeleport => Skill_GuildTeleport | WSkill_GuildDoor => Skill_GuildDoor
  end.
#[export] Existing Instance Skill_to_domain.
Definition SkillId_to_protocol : ToProtocol SkillId WireSkill := fun x =>
  match x with
  | Skill_ThreeWayCut => WSkill_ThreeWayCut | Skill_SwordSpin => WSkill_SwordSpin | Skill_Berserk => WSkill_Berserk
  | Skill_AuraOfTheSword => WSkill_AuraOfTheSword | Skill_Dash => WSkill_Dash | Skill_LifeForce => WSkill_LifeForce
  | Skill_Shockwave => WSkill_Shockwave | Skill_Bash => WSkill_Bash | Skill_Stump => WSkill_Stump
  | Skill_StrongBody => WSkill_StrongBody | Skill_SwordStrike => WSkill_SwordStrike
  | Skill_SwordOrb => WSkill_SwordOrb | Skill_Ambush => WSkill_Ambush | Skill_FastAttack => WSkill_FastAttack
  | Skill_RollingDagger => WSkill_RollingDagger | Skill_Stealth => WSkill_Stealth
  | Skill_PoisonousCloud => WSkill_PoisonousCloud | Skill_InsidiousPoison => WSkill_InsidiousPoison
  | Skill_RepetitiveShot => WSkill_RepetitiveShot | Skill_ArrowShower => WSkill_ArrowShower
  | Skill_FireArrow => WSkill_FireArrow | Skill_FeatherWalk => WSkill_FeatherWalk
  | Skill_PoisonArrow => WSkill_PoisonArrow | Skill_Spark => WSkill_Spark
  | Skill_FingerStrike => WSkill_FingerStrike | Skill_DragonSwirl => WSkill_DragonSwirl
  | Skill_EnchantedBlade => WSkill_EnchantedBlade | Skill_Fear => WSkill_Fear
  | Skill_EnchantedArmor => WSkill_EnchantedArmor | Skill_Dispel => WSkill_Dispel
  | Skill_DarkStrike => WSkill_DarkStrike | Skill_FlameStrike => WSkill_FlameStrike
  | Skill_FlameSpirit => WSkill_FlameSpirit | Skill_DarkProtection => WSkill_DarkProtection
  | Skill_SpiritStrike => WSkill_SpiritStrike | Skill_DarkOrb => WSkill_DarkOrb
  | Skill_FlyingTalisman => WSkill_FlyingTalisman | Skill_ShootingDragon => WSkill_ShootingDragon
  | Skill_DragonRoar => WSkill_DragonRoar | Skill_Blessing => WSkill_Blessing | Skill_Reflect => WSkill_Reflect
  | Skill_DragonAid => WSkill_DragonAid | Skill_LightningThrow => WSkill_LightningThrow
  | Skill_SummonLightning => WSkill_SummonLightning | Skill_LightningClaw => WSkill_LightningClaw
  | Skill_Cure => WSkill_Cure | Skill_Swiftness => WSkill_Swiftness | Skill_AttackUp => WSkill_AttackUp
  | Skill_Leadership => WSkill_Leadership | Skill_Combo => WSkill_Combo | Skill_Fishing => WSkill_Fishing
  | Skill_Mining => WSkill_Mining | Skill_LanguageShinsoo => WSkill_LanguageShinsoo
  | Skill_LanguageChunjo => WSkill_LanguageChunjo | Skill_LanguageJinno => WSkill_LanguageJinno
  | Skill_Polymorph => WSkill_Polymorph | Skill_HorseRiding => WSkill_HorseRiding
  | Skill_HorseSummon => WSkill_HorseSummon | Skill_HorseWildAttack => WSkill_HorseWildAttack
  | Skill_HorseCharge => WSkill_HorseCharge | Skill_HorseEscape => WSkill_HorseEscape
  | Skill_HorseWildAttackRange => WSkill_HorseWildAttackRange | Skill_AddHp => WSkill_AddHp
  | Skill_PenetrationResistance => WSkill_PenetrationResistance | Skill_GuildEye => WSkill_GuildEye
  | Skill_GuildBlood => WSkill_GuildBlood | Skill_GuildBless => WSkill_GuildBless
  | Skill_GuildSeonghwi => WSkill_GuildSeonghwi | Skill_GuildAcceleration => WSkill_GuildAcceleration
  | Skill_GuildBunno => WSkill_GuildBunno | Skill_GuildJumun => WSkill_GuildJumun
  | Skill_GuildTeleport => WSkill_GuildTeleport | Skill_GuildDoor => WSkill_GuildDoor
  end.
#[export] Existing Instance SkillId_to_protocol.
#[export] Instance Skill_iso : WireIso WireSkill SkillId. Proof. iso_tac. Qed.

(** [ToProtocol<u8>] of a skill and of an attack. *)
Definition SkillId_to_u8 : ToProtocol SkillId Z := fun x => repr_u8 (to_wire x : WireSkill).
#[export] Existing Instance SkillId_to_u8.
Definition AttackIntent_to_u8 : ToProtocol AttackIntent Z := fun a =>
  match a with Attack_Basic => 0 | Attack_Skill skill => to_wire skill end.
#[export] Existing Instance AttackIntent_to_u8.

Inductive SkillBranch : Type :=
| Branch_WarriorBody | Branch_WarriorMental | Branch_NinjaBladeFight | Branch_NinjaArchery | Branch_SuraWeaponry
| Branch_SuraBlackMagic | Branch_ShamanDragon | Branch_ShamanHealing.
Definition SkillBranch_to_protocol : ToProtocol SkillBranch WireSkillBranch := fun b =>
  match b with
  | Branch_WarriorBody | Branch_NinjaBladeFight | Branch_SuraWeaponry | Branch_ShamanDragon => BranchA
  | Branch_WarriorMental | Branch_NinjaArchery | Branch_SuraBlackMagic | Branch_ShamanHealing => BranchB
  end.
#[export] Existing Instance SkillBranch_to_protocol.
Definition option_to_protocol {T U} `{ToProtocol T U} : ToProtocol (option T) (option U) := option_map to_wire.
#[export] Existing Instance option_to_protocol.

Definition EntityKind_to_protocol : ToProtocol EntityKind EntityKindCode := fun k =>
  match k with
  | Entity_Player class gender => Code_Player (to_wire (class, gender))
  | Entity_Mob mob_id kind =>
      Code_NonPlayer
        match kind with
        | Mob_Npc => NP_Npc | Mob_Monster => NP_Monster | Mob_Stone => NP_Stone
        | Mob_Portal Portal_MapTransfer => NP_Warp | Mob_Portal Portal_LocalReposition => NP_Goto
        end {| mob_raw := mob_id |}
  end.
#[export] Existing Instance EntityKind_to_protocol.

(** ** Statistics *)
Definition Stat_to_protocol : ToProtocol Stat (option WireStatPoint) := fun s =>
  match s with
  | Stat.ArmorDefence | Stat.MaxHpPrePctBonus | Stat.BonusMaxHp | Stat.BonusMaxSp | Stat.BonusMaxStamina => None
  | Stat.Level => Some Point_Level | Stat.Exp => Some Point_Exp | Stat.NextExp => Some Point_NextExp
  | Stat.Hp => Some Point_Hp | Stat.MaxHp => Some Point_MaxHp | Stat.Sp => Some Point_Sp
  | Stat.MaxSp => Some Point_MaxSp | Stat.Stamina => Some Point_Stamina | Stat.MaxStamina => Some Point_MaxStamina
  | Stat.Gold => Some Point_Gold | Stat.St => Some Point_St | Stat.Ht => Some Point_Ht | Stat.Dx => Some Point_Dx
  | Stat.Iq => Some Point_Iq | Stat.DefGrade => Some Point_DefGrade | Stat.AttSpeed => Some Point_AttSpeed
  | Stat.AttGrade => Some Point_AttGrade | Stat.MovSpeed => Some Point_MovSpeed
  | Stat.DisplayedDefGrade => Some Point_ClientDefGrade | Stat.CastingSpeed => Some Point_CastingSpeed
  | Stat.MagicAttGrade => Some Point_MagicAttGrade | Stat.MagicDefGrade => Some Point_MagicDefGrade
  | Stat.LevelStep => Some Point_LevelStep | Stat.StatPoints => Some Point_StatPoints
  | Stat.HpRecovery => Some Point_HpRecovery | Stat.SpRecovery => Some Point_SpRecovery
  | Stat.ImmuneStun => Some Point_ImmuneStun | Stat.ImmuneSlow => Some Point_ImmuneSlow
  | Stat.ImmuneFall => Some Point_ImmuneFall | Stat.PartyTankerBonus => Some Point_PartyTankerBonus
  | Stat.AttGradeBonus => Some Point_AttGradeBonus | Stat.DefGradeBonus => Some Point_DefGradeBonus
  | Stat.MagicAttGradeBonus => Some Point_MagicAttGradeBonus
  | Stat.MagicDefGradeBonus => Some Point_MagicDefGradeBonus
  | Stat.PartySkillMasterBonus => Some Point_PartySkillMasterBonus | Stat.Polymorph => Some Point_Polymorph
  | Stat.Mount => Some Point_Mount | Stat.PartyHasteBonus => Some Point_PartyHasteBonus
  | Stat.PartyDefenderBonus => Some Point_PartyDefenderBonus | Stat.StatResetCount => Some Point_StatResetCount
  | Stat.MaxHpPct => Some Point_MaxHpPct | Stat.MaxSpPct => Some Point_MaxSpPct
  end.
#[export] Existing Instance Stat_to_protocol.

Definition StatSnapshot_to_protocol : ToProtocol StatSnapshot WireStatSnapshot := fun s =>
  fold_left (fun wire '(stat, value) =>
    match to_wire stat : option WireStatPoint with Some point => WireStatSnapshot_set wire point value | None => wire end)
    (ss_values s) WireStatSnapshot_default.
#[export] Existing Instance StatSnapshot_to_protocol.

(** ** Tables for new characters ([new_player_defaults.rs]) *)
Record PlayerCreateBaseStats : Type := { create_str : Z; create_vit : Z; create_dex : Z; create_int : Z }.
Definition PlayerCreateBaseStatTable : Type := list (PlayerClass * PlayerCreateBaseStats).
Definition PlayerCreateBaseStatTable_default : PlayerCreateBaseStatTable :=
  [(Warrior, {| create_str := 6; create_vit := 4; create_dex := 3; create_int := 3 |});
   (Ninja, {| create_str := 4; create_vit := 3; create_dex := 6; create_int := 3 |});
   (Sura, {| create_str := 5; create_vit := 3; create_dex := 3; create_int := 5 |});
   (Shaman, {| create_str := 3; create_vit := 4; create_dex := 3; create_int := 6 |})].

(** The base values of a class in the content database. *)
Record ContentClassBaseStats : Type := {
  cc_player_class : PlayerClass; cc_base_strength : Z; cc_base_vitality : Z; cc_base_dexterity : Z; cc_base_intelligence : Z }.
Definition u8_try_from (z : Z) : option Z := if (0 <=? z) && (z <=? u8_max) then Some z else None.
Definition from_content_rows (content_rows : list ContentClassBaseStats) : PlayerCreateBaseStatTable :=
  omap (fun row =>
    s ← u8_try_from (cc_base_strength row); v ← u8_try_from (cc_base_vitality row);
    d ← u8_try_from (cc_base_dexterity row); i ← u8_try_from (cc_base_intelligence row);
    Some (cc_player_class row, {| create_str := s; create_vit := v; create_dex := d; create_int := i |})) content_rows.
Definition create_table_get (t : PlayerCreateBaseStatTable) (class : PlayerClass) : option PlayerCreateBaseStats :=
  snd <$> List.find (fun '(candidate, _) => bool_decide (candidate = class)) t.
Definition create_table_resolve (t : PlayerCreateBaseStatTable) (class : PlayerClass) (a : PlayerCoreStatAllocationRow)
  : option PlayerStats :=
  base ← create_table_get t class;
  Some {| Domain.stat_str := create_str base +% row_allocated_str a; Domain.stat_vit := create_vit base +% row_allocated_vit a;
          Domain.stat_dex := create_dex base +% row_allocated_dex a; Domain.stat_int := create_int base +% row_allocated_int a |}.

Record EmpireStartMaps : Type := { start_red : MapId; start_yellow : MapId; start_blue : MapId }.
Definition EmpireStartMaps_default : EmpireStartMaps :=
  {| start_red := "metin2_map_a1"; start_yellow := "metin2_map_b1"; start_blue := "metin2_map_c1" |}.
Definition from_options (red yellow blue : option string) : EmpireStartMaps :=
  let defaults := EmpireStartMaps_default in
  {| start_red := default (start_red defaults) red; start_yellow := default (start_yellow defaults) yellow;
     start_blue := default (start_blue defaults) blue |}.
Definition blank (s : string) : bool := match trim (chars s) with [] => true | _ => false end.
Definition validate (m : EmpireStartMaps) : result EmpireStartMaps string :=
  if blank (start_red m) then Err "red start map code cannot be empty"%string
  else if blank (start_yellow m) then Err "yellow start map code cannot be empty"%string
  else if blank (start_blue m) then Err "blue start map code cannot be empty"%string
  else Ok m.
Definition map_id_for_empire (m : EmpireStartMaps) (empire : Empire) : MapId :=
  match empire with Empire_Red => start_red m | Empire_Yellow => start_yellow m | Empire_Blue => start_blue m end.

(** ** Character summaries *)
Inductive PlayerSlot : Type := PlayerSlot_First | PlayerSlot_Second | PlayerSlot_Third | PlayerSlot_Fourth.
Record PlayerSummary : Type := {
  sum_id : PlayerId; sum_slot : PlayerSlot; sum_name : string; sum_class : PlayerClass; sum_gender : PlayerGender;
  sum_appearance : PlayerBaseAppearance; sum_level : Z; sum_playtime : Z; sum_stats : PlayerStats }.

Inductive PlayerSummaryStats : Type := Stats_Rules (rules : PlayerStatRules) | Stats_CreateBase (t : PlayerCreateBaseStatTable).
Definition summary_resolve (stats : PlayerSummaryStats) (class : PlayerClass) (a : PlayerCoreStatAllocationRow)
  : option PlayerStats :=
  match stats with
  | Stats_Rules rules =>
      resolve_player_stats (class_stats rules) class
        {| allocated_str := row_allocated_str a; allocated_vit := row_allocated_vit a;
           allocated_dex := row_allocated_dex a; allocated_int := row_allocated_int a |}
  | Stats_CreateBase t => create_table_resolve t class a
  end.

(** [PlayerPlaytime], in nanoseconds. *)
Definition from_secs_i64 (secs : Z) : Z := Z.max secs 0 * 1000000000.
Definition whole_minutes_u32 (playtime : Z) : Z :=
  let minutes := playtime / 1000000000 / 60 in if u32_max <? minutes then u32_max else minutes.

Definition to_domain_with_stats (row : PlayerSummaryRow) (stats : PlayerSummaryStats) : PlayerSummary :=
  {| sum_id := psr_id row;
     sum_slot := match psr_slot row with
                 | 0 => PlayerSlot_First | 1 => PlayerSlot_Second | 2 => PlayerSlot_Third | 3 => PlayerSlot_Fourth
                 | _ => PlayerSlot_First
                 end;
     sum_name := psr_name row; sum_class := psr_class row; sum_gender := psr_gender row;
     sum_appearance := psr_appearance row; sum_level := psr_level row;
     sum_playtime := from_secs_i64 (psr_playtime_secs row);
     sum_stats := default {| Domain.stat_str := 0; Domain.stat_vit := 0; Domain.stat_dex := 0; Domain.stat_int := 0 |}
       (summary_resolve stats (psr_class row) (psr_core_stat_allocations row)) |}.

(** [u32::try_from], [u8::try_from] with the fallbacks of [to_protocol_player]. *)
Definition to_protocol_player (s : PlayerSummary) (endpoint : WireServerAddr) : Player :=
  {| db_id := if (0 <=? sum_id s) && (sum_id s <=? u32_max) then sum_id s else 0;
     player_name := FixedString_new PLAYER_NAME_MAX_LENGTH (bytes_of (sum_name s));
     class_gendered := to_wire (sum_class s, sum_gender s);
     level := default u8_max (u8_try_from (sum_level s));
     playtime_minutes := whole_minutes_u32 (sum_playtime s);
     Packets.stat_str := default 0 (u8_try_from (Domain.stat_str (sum_stats s)));
     Packets.stat_vit := default 0 (u8_try_from (Domain.stat_vit (sum_stats s)));
     Packets.stat_dex := default 0 (u8_try_from (Domain.stat_dex (sum_stats s)));
     Packets.stat_int := default 0 (u8_try_from (Domain.stat_int (sum_stats s)));
     player_body_part := repr_u8 (to_wire (sum_appearance s) : WirePlayerBaseAppearance);
     changed_name := 0; player_hair_part := 0; server_addr := endpoint |}.

(** ** Facts *)
Lemma u8_try_from_range z n : u8_try_from z = Some n -> n = z /\ 0 <= n < 256.
Proof. unfold u8_try_from. case_bools; intros [= <-]; zbool. unfold_widths. lia. Qed.
Lemma default_u8_range d z : 0 <= d < 256 -> 0 <= default d (u8_try_from z) < 256.
Proof. destruct (u8_try_from z) as [n |] eqn:E; cbn; [apply u8_try_from_range in E; lia | done]. Qed.

Lemma from_content_rows_range rows class base :
  create_table_get (from_content_rows rows) class = Some base ->
  0 <= create_str base < 256 /\ 0 <= create_vit base < 256 /\ 0 <= create_dex base < 256 /\ 0 <= create_int base < 256.
Proof.
  unfold create_table_get. intros H. apply fmap_Some in H as ([c b] & Hf & ->). apply find_some in Hf as [Hi _].
  apply list_elem_of_In, list_elem_of_omap in Hi as (row & _ & E). repeat (apply bind_Some in E as (? & ?%u8_try_from_range & E)).
  injection E as <- <-. cbn. lia.
Qed.
