(* ===== verification/Encode.v ===== *)
(** What a player is shown: the packets the map's events are encoded into
    ([zohar-gamesrv/src/handlers/ingame.rs] and the encoders of [ingame/*.rs]).

    An event whose fields have the values their Rust types allow is encoded into
    packets that are valid on the wire exactly when it fits the wire format: mob
    identifiers of 16 bits, chat messages shorter than the size field can say, no
    zero byte in a name and no entity 0 where 0 stands for none.  Not every
    event of the map does. *)
From S2P Require Import Prelude BTree Domain Samples StatsApi Float Wire Protocol GamePacket Space Entities Text.
From S2P Require Import Coords MapPort Layout Packets Adapters.

(** [FlagsMapper::map] *)
Definition map_flags (rules : list (Z * Z)) (source : Z) : Z :=
  fold_left (fun acc flag => Z.lor acc flag)
    (omap (fun '(src, dst) => if Z.land source src =? src then Some dst else None) rules) 0.

(** ** World *)
Definition visual_parts (e : EntityPublicEquipment) : EntityVisualParts :=
  {| evp_body := body_part e;
     evp_weapon := if weapon_part e =? 0 then None else Some {| vip_raw := weapon_part e |};
     evp_hair := if hair_part e =? 0 then None else Some {| hair_raw := hair_part e |} |}.
Definition angle_from_facing (facing : Z) : spec_float := f32_mul (f32_of_int facing) (f32_of_int 5).
Definition encode_entity_state_flags (flags : Z) : Z :=
  map_flags [(EntityStateFlags_DEAD, Wire_EntityStateFlags_DEAD); (EntityStateFlags_SPAWN, Wire_EntityStateFlags_SPAWN)] flags.
Definition encode_entity_buff_flags (flags : Z) : Z := map_flags [(EntityBuffFlags_SPAWN, Wire_EntityBuffFlags_SPAWN)] flags.
Definition mount_template (mount : Z) : option MobTemplateId := if mount =? 0 then None else Some {| mob_raw := mount |}.

Definition encode_entity_spawn (s : EntitySnapshot) (map_id : MapId) (coords : ContentCoords) : list InGameS2c :=
  match local_to_world coords map_id (es_pos s) with
  | None => []
  | Some world_pos =>
      let state := es_public_state s in
      let net_id : NetId := to_wire (es_entity_id s) in
      S2c_World (SpawnEntity net_id (angle_from_facing (es_facing s)) (to_protocol world_pos) (to_wire (es_kind s))
                   (move_speed (eps_speeds state)) (attack_speed (eps_speeds state))
                   (encode_entity_state_flags (state_flags (eps_flags state)))
                   (encode_entity_buff_flags (buff_flags (eps_flags state)))) ::
      match es_nameplate s with
      | Some plate =>
          [S2c_World (SetEntityProfile net_id (FixedString_new PLAYER_NAME_MAX_LENGTH (bytes_of (plate_name plate)))
                        (visual_parts (eps_equipment state)) (to_wire (plate_empire plate)) (guild_id (eps_social state))
                        (plate_level plate) (rank_pts (eps_social state)) (pvp_mode (eps_social state))
                        (mount_template (mount_id (eps_social state))))]
      | None => []
      end
  end.
Definition encode_entity_despawn (entity_id : EntityId) : list InGameS2c := [S2c_World (DestroyEntity (to_wire entity_id))].
Definition encode_entity_public_state_change (entity_id : EntityId) (state : EntityPublicState) : list InGameS2c :=
  [S2c_World (SyncEntity (to_wire entity_id) (visual_parts (eps_equipment state)) (move_speed (eps_speeds state))
                (attack_speed (eps_speeds state)) (encode_entity_state_flags (state_flags (eps_flags state)))
                (encode_entity_buff_flags (buff_flags (eps_flags state))) (guild_id (eps_social state))
                (rank_pts (eps_social state)) (pvp_mode (eps_social state)) (mount_template (mount_id (eps_social state))))].

(** ** Statistics *)
Definition encode_entity_stat (entity_id : EntityId) (stat : Stat) (absolute : Z) : list InGameS2c :=
  match to_wire stat : option WireStatPoint with
  | Some stat_id => [S2c_Stats (SyncEntityStat (to_wire entity_id) stat_id absolute)]
  | None => []
  end.
Definition encode_entity_stats (entity_id : EntityId) (stats : list StatUpdate) : list InGameS2c :=
  concat ((fun update => encode_entity_stat entity_id (su_stat update) (su_absolute update)) <$> stats).

(** ** Combat *)
Definition FloatingDamageFlags_of : list (Z * Z) :=
  [(DamageInfoFlags_NORMAL, Z.shiftl 1 0); (DamageInfoFlags_POISON, Z.shiftl 1 1); (DamageInfoFlags_DODGE, Z.shiftl 1 2);
   (DamageInfoFlags_BLOCK, Z.shiftl 1 3); (DamageInfoFlags_PENETRATE, Z.shiftl 1 4); (DamageInfoFlags_CRITICAL, Z.shiftl 1 5)].
Definition encode_floating_damage_flags (flags : Z) : Z := map_flags FloatingDamageFlags_of flags.
Definition encode_entity_health_bar (entity_id : EntityId) (hp_pct : Z) : list InGameS2c :=
  [S2c_Combat (Pkt_SyncEntityHealthBar (to_wire entity_id) (Z.min hp_pct 100))].
Definition encode_damage_info (entity_id : EntityId) (flags damage : Z) : list InGameS2c :=
  [S2c_Combat (TriggerFloatingDamage (to_wire entity_id) (encode_floating_damage_flags flags) damage)].
Definition encode_entity_stunned (entity_id : EntityId) : list InGameS2c := [S2c_Combat (SetEntityStunned (to_wire entity_id))].
Definition encode_entity_dead (entity_id : EntityId) : list InGameS2c := [S2c_Combat (SetEntityDead (to_wire entity_id))].
Definition encode_projectile_kind (effect : ProjectileEffectKind) : ProjectileKind :=
  match effect with Projectile_Exp => Projectile_Experience end.
Definition encode_special_effect_kind (effect : SpecialEffectType) : SpecialEffectKind :=
  match effect with Special_Critical => Effect_CriticalStrike | Special_Penetrate => Effect_PiercingStrike end.
Definition encode_projectile (effect : ProjectileEffectKind) (start_entity_id end_entity_id : EntityId) : list InGameS2c :=
  [S2c_Combat (TriggerProjectileEffect (encode_projectile_kind effect) (to_wire start_entity_id) (to_wire end_entity_id))].
Definition encode_projectile_target (event : ProjectileTargetEvent) (map_id : MapId) (coords : ContentCoords) : list InGameS2c :=
  match local_to_world coords map_id (pte_target_pos event) with
  | None => []
  | Some world_pos =>
      let pkt_body := {| pt_caster := to_wire (pte_caster_entity_id event); pt_target := to_wire (Some (pte_target_entity_id event));
                         pt_fallback_target := to_protocol world_pos |} in
      [S2c_Combat (if pte_append event then AddProjectileTarget pkt_body else Pkt_SetProjectileTarget pkt_body)]
  end.
Definition encode_special_effect (effect : SpecialEffectType) (entity_id : EntityId) : list InGameS2c :=
  [S2c_Combat (TriggerSpecialEffect (encode_special_effect_kind effect) (to_wire entity_id))].

(** ** Movement and chat *)
Definition encode_entity_move (m : MovementEvent) (map_id : MapId) (coords : ContentCoords) : list InGameS2c :=
  match local_to_world coords map_id (me_position m) with
  | None => []
  | Some world_pos =>
      [S2c_Move (SyncEntityMovement (to_wire (me_kind m)) (me_arg m) (me_facing m) (to_wire (me_entity_id m))
                   (to_protocol world_pos) (me_client_ts m) (me_duration m))]
  end.
Definition encode_entity_movement_animation (entity_id : EntityId) (animation : MovementAnimation) : list InGameS2c :=
  [S2c_Move (Pkt_SetEntityMovementAnimation (to_wire entity_id) (to_wire animation))].
Definition encode_chat_event (channel : ChatChannel) (sender_entity_id : option EntityId) (empire : option Empire)
    (message : bytes) : list InGameS2c :=
  [S2c_Chat (NotifyChatMessage (to_wire channel) (to_wire sender_entity_id) (to_wire empire) message)].

(** ** [map_event_to_packets] *)
Definition map_event_to_packets (event : PlayerEvent) (map_id : MapId) (coords : ContentCoords) : list InGameS2c :=
  match event with
  | EntitySpawn snapshot => encode_entity_spawn snapshot map_id coords
  | SetEntityStats entity_id stats => encode_entity_stats entity_id stats
  | SyncEntityHealthBar entity_id hp_pct => encode_entity_health_bar entity_id hp_pct
  | DamageInfo entity_id flags damage => encode_damage_info entity_id flags damage
  | CreateProjectileEffect effect start_entity_id end_entity_id => encode_projectile effect start_entity_id end_entity_id
  | SetProjectileTarget event => encode_projectile_target event map_id coords
  | SpecialEffect effect entity_id => encode_special_effect effect entity_id
  | EntityStunned entity_id => encode_entity_stunned entity_id
  | EntityDead entity_id => encode_entity_dead entity_id
  | EntityPublicStateChanged entity_id state => encode_entity_public_state_change entity_id state
  | EntityMove event => encode_entity_move event map_id coords
  | SetEntityMovementAnimation entity_id animation => encode_entity_movement_animation entity_id animation
  | EntityDespawn entity_id => encode_entity_despawn entity_id
  | Event_Chat channel sender_entity_id empire message => encode_chat_event channel sender_entity_id empire message
  | RestartTown => []
  | PortalEntered _ => []
  end.

(** ** Events as their types allow them *)
Definition is_u16 (z : Z) : Prop := 0 <= z < 2 ^ 16.
Definition is_u8' (z : Z) : Prop := 0 <= z < 2 ^ 8.
Definition is_net_id (z : Z) : Prop := 0 <= z < 2 ^ 32.

Record public_state_ok (s : EntityPublicState) : Prop := {
  pso_body : is_u16 (body_part (eps_equipment s));
  pso_weapon : is_u16 (weapon_part (eps_equipment s));
  pso_hair : is_u16 (hair_part (eps_equipment s));
  pso_move : is_u8' (move_speed (eps_speeds s));
  pso_attack : is_u8' (attack_speed (eps_speeds s));
  pso_guild : is_net_id (guild_id (eps_social s));
  pso_rank : - 2 ^ 15 <= rank_pts (eps_social s) < 2 ^ 15;
  pso_pvp : is_u8' (pvp_mode (eps_social s));
  pso_mount : is_net_id (mount_id (eps_social s)) }.

(** The ranges the fields' types have: a mob's identifier has 32 bits, an entity
    may be 0, a message may have any length and a name any bytes. *)
Definition kind_ok (k : EntityKind) : Prop := match k with Entity_Player _ _ => True | Entity_Mob id _ => is_net_id id end.

Definition event_ok (event : PlayerEvent) : Prop :=
  match event with
  | EntitySpawn s =>
      is_net_id (es_entity_id s) /\ 0 <= es_facing s < 72 /\ kind_ok (es_kind s) /\ public_state_ok (es_public_state s) /\
      (forall plate, es_nameplate s = Some plate -> is_net_id (plate_level plate))
  | SetEntityStats id stats => is_net_id id /\ Forall (fun u => - 2 ^ 31 <= su_absolute u < 2 ^ 31) stats
  | SyncEntityHealthBar id pct => is_net_id id /\ is_u8' pct
  | DamageInfo id _ damage => is_net_id id /\ - 2 ^ 31 <= damage < 2 ^ 31
  | CreateProjectileEffect _ a b => is_net_id a /\ is_net_id b
  | SetProjectileTarget e => is_net_id (pte_caster_entity_id e) /\ is_net_id (pte_target_entity_id e)
  | SpecialEffect _ id | EntityStunned id | EntityDead id | EntityDespawn id | SetEntityMovementAnimation id _ => is_net_id id
  | EntityPublicStateChanged id s => is_net_id id /\ public_state_ok s
  | EntityMove m =>
      is_net_id (me_entity_id m) /\ is_u8' (me_arg m) /\ is_u8' (me_facing m) /\ is_net_id (me_client_ts m) /\
      is_net_id (me_duration m)
  | Event_Chat _ sender _ _ => forall id, sender = Some id -> is_net_id id
  | RestartTown | PortalEntered _ => True
  end.

(** What the wire format asks for besides.  A name is cut to its first 24 bytes;
    nothing is sent for a position that is not on the map. *)
Definition name_fits (name : string) : Prop := ~ (0 ∈ take (PLAYER_NAME_MAX_LENGTH - 1) (bytes_of name)).
Definition kind_fits (k : EntityKind) : Prop := match k with Entity_Player _ _ => True | Entity_Mob id _ => is_u16 id end.
Definition event_fits (event : PlayerEvent) (map_id : MapId) (coords : ContentCoords) : Prop :=
  match event with
  | EntitySpawn s =>
      local_to_world coords map_id (es_pos s) = None \/
      kind_fits (es_kind s) /\ (forall plate, es_nameplate s = Some plate -> name_fits (plate_name plate))
  | SetProjectileTarget e =>
      local_to_world coords map_id (pte_target_pos e) = None \/ pte_target_entity_id e <> 0
  | Event_Chat _ sender _ message => sender <> Some 0 /\ Z.of_nat (length message) + 9 < 2 ^ 16
  | _ => True
  end.

(** ** Facts *)
Lemma lor_range a b w : 0 < w -> 0 <= a < 2 ^ w -> 0 <= b < 2 ^ w -> 0 <= Z.lor a b < 2 ^ w.
Proof.
  intros Hw [Ha Ha'] [Hb Hb']. split; [by apply Z.lor_nonneg |].
  destruct (Z.eq_dec (Z.lor a b) 0) as [-> | Hn]; [by apply Z.pow_pos_nonneg; lia |].
  assert (0 < Z.lor a b) as Hp by (pose proof (proj2 (Z.lor_nonneg a b) (conj Ha Hb)); lia).
  apply Z.log2_lt_pow2; [exact Hp |]. rewrite Z.log2_lor by done.
  assert (forall x, 0 <= x -> x < 2 ^ w -> Z.log2 x < w) as Hl.
  { intros x Hx Hx'. destruct (Z.eq_dec x 0) as [-> |]; [cbn; lia |]. apply Z.log2_lt_pow2; lia. }
  pose proof (Hl a Ha Ha'). pose proof (Hl b Hb Hb'). lia.
Qed.
Lemma fold_lor_range l w acc : 0 < w -> Forall (fun d => 0 <= d < 2 ^ w) l -> 0 <= acc < 2 ^ w ->
  0 <= fold_left (fun acc flag => Z.lor acc flag) l acc < 2 ^ w.
Proof. intros Hw Hf. revert acc. induction Hf; intros acc Ha; [exact Ha |]. cbn. apply IHHf. by apply lor_range. Qed.
Lemma map_flags_range rules source w : 0 < w -> Forall (fun '(_, dst) => 0 <= dst < 2 ^ w) rules -> 0 <= map_flags rules source < 2 ^ w.
Proof.
  intros Hw Hr. apply fold_lor_range; [done | | split; [done | apply Z.pow_pos_nonneg; lia]].
  induction Hr as [| [src dst] rules Hd Hr IH]; [constructor |]. cbn. destruct (_ =? _); [by constructor | exact IH].
Qed.
Lemma state_flags_range f : 0 <= encode_entity_state_flags f < 2 ^ 8.
Proof. apply map_flags_range; [lia |]. repeat constructor; by vm_compute. Qed.
Lemma buff_flags_range f : 0 <= encode_entity_buff_flags f < 2 ^ 64.
Proof. apply map_flags_range; [lia |]. repeat constructor; by vm_compute. Qed.
Lemma damage_flags_range f : 0 <= encode_floating_damage_flags f < 2 ^ 8.
Proof. apply map_flags_range; [lia |]. repeat constructor; by vm_compute. Qed.

Lemma wire_pos_valid p : fd_valid f_pos (to_protocol p).
Proof.
  assert (forall x, - 2 ^ (8 * Z.of_nat 4 - 1) <= meters_to_wire_cm x < 2 ^ (8 * Z.of_nat 4 - 1)) as H.
  { intros x. pose proof (f_to_i32_range (f32_trunc (f32_mul x CM_PER_METER))) as R. unfold is_i32 in R. unfold meters_to_wire_cm.
    change (2 ^ (8 * Z.of_nat 4 - 1)) with (i32_max + 1). change i32_min with (- (i32_max + 1)) in R. lia. }
  split; [split; apply H | done].
Qed.

Lemma angle_valid facing : 0 <= facing < 72 -> valid_binary 24 128 (angle_from_facing facing) = true.
Proof.
  intros H.
  assert (Forall (fun n => valid_binary 24 128 (angle_from_facing (Z.of_nat n)) = true) (seq 0 72)) as Hf
    by (apply Forall_forall; apply Forall_forall; apply (bool_decide_unpack _); by vm_compute).
  rewrite Forall_forall in Hf. rewrite <- (Z2Nat.id facing) by lia. apply Hf. apply elem_of_seq. lia.
Qed.

Ltac wire_range :=
  cbn; cbv [to_wire EntityId_to_protocol]; change (8 * Z.of_nat 4) with 32; change (8 * Z.of_nat 2) with 16;
  change (8 * Z.of_nat 1) with 8; change (8 * Z.of_nat 8) with 64; lia.

Lemma zero_opt_valid_none {T} `{ZeroFallback T} : fd_valid (f_zero_opt (T := T)) None.
Proof. done. Qed.
Lemma empire_opt_valid (e : option Empire) : fd_valid f_zero_opt (to_wire e : option WireEmpire).
Proof. by destruct e as [[] |]. Qed.
Lemma net_id_opt_valid (o : option EntityId) : (forall id, o = Some id -> is_net_id id) ->
  fd_valid f_zero_opt (to_wire o : option NetId) <-> o <> Some 0.
Proof.
  destruct o as [id |]; intros H; [| done]. specialize (H id eq_refl). unfold is_net_id in H. split.
  - intros [Hr _] [= ->]. revert Hr. cbn. cbv [to_wire EntityId_to_protocol]. lia.
  - intros Hn. assert (id <> 0) by (by intros ->). split; [wire_range | done].
Qed.
Lemma mount_valid m : is_net_id m -> fd_valid f_zero_opt (mount_template m).
Proof. unfold is_net_id, mount_template. destruct (Z.eqb_spec m 0); [done |]. split; [wire_range | done]. Qed.

Lemma visual_parts_valid e : is_u16 (body_part e) -> is_u16 (weapon_part e) -> is_u16 (hair_part e) ->
  fd_valid f_visual_parts (visual_parts e).
Proof.
  unfold is_u16. intros Hb Hw Hh. unfold visual_parts.
  split; [| done]. split; [wire_range |]. split; cbn [evp_weapon evp_hair].
  - destruct (Z.eqb_spec (weapon_part e) 0); [done | split; [wire_range | done]].
  - destruct (Z.eqb_spec (hair_part e) 0); [done | split; [wire_range | done]].
Qed.

Lemma kind_valid k : kind_ok k -> fd_valid f_entity_kind (to_wire k) <-> kind_fits k.
Proof.
  destruct k as [class gender | id kind]; cbn.
  - intros _. split; [done |]. intros _. by destruct class, gender.
  - unfold is_net_id, is_u16. intros H. split.
    + intros [_ E]. assert (wrap_u 16 id = id) as <- by (destruct kind as [| | | []]; cbn in E; congruence).
      unfold wrap_u. apply Z.mod_pos_bound. lia.
    + intros H'. unfold wrap_u. rewrite Z.mod_small by lia. split; [split; [done |]; wire_range |].
      by destruct kind as [| | | []].
Qed.

Lemma position_zero_in (l l' : bytes) : 0 ∈ l -> exists i, position_zero (l ++ l') = Some i /\ (i < length l)%nat.
Proof.
  induction l as [| b l IH]; [by intros ?%not_elem_of_nil |]. intros Hin. cbn.
  destruct (Z.eqb_spec b 0) as [-> | N]; [exists 0%nat; split; [done | lia] |].
  apply elem_of_cons in Hin as [Hin | Hin]; [congruence |]. destruct (IH Hin) as (i & -> & Hi). exists (S i).
  split; [done | lia].
Qed.

Lemma name_valid s :
  fd_valid (f_string PLAYER_NAME_MAX_LENGTH) (FixedString_new PLAYER_NAME_MAX_LENGTH (bytes_of s)) <-> name_fits s.
Proof.
  unfold name_fits. set (n := PLAYER_NAME_MAX_LENGTH). set (l := bytes_of s).
  assert (take (Nat.min (length l) (n - 1)) l = take (n - 1) l) as Et.
  { destruct (Nat.le_ge_cases (length l) (n - 1)); [| by rewrite Nat.min_r]. rewrite Nat.min_l, !take_ge by lia. done. }
  unfold FixedString_new. cbn [fd_valid f_string fs_buf fs_len]. rewrite Et. split.
  - intros [_ E] Hin. destruct (position_zero_in _ (repeat 0 (n - Nat.min (length l) (n - 1))) Hin) as (i & Ei & Hi).
    rewrite Ei in E. cbn [default from_option id] in E. rewrite length_take in Hi. lia.
  - intros H. assert (1 <= n)%nat by (unfold n, PLAYER_NAME_MAX_LENGTH; lia).
    split; [rewrite length_app, length_take, repeat_length; lia |].
    rewrite position_zero_app by done. destruct (Nat.eqb_spec (n - Nat.min (length l) (n - 1)) 0); [lia |]. cbn.
    rewrite length_take. lia.
Qed.

(** Opens a packet's validity into the conditions on its fields. *)
Ltac payload_tac :=
  cbn [InGameS2c_payload_valid wire_valid WorldS2c_wire CombatS2c_wire MovementS2c_wire StatsS2c_wire ChatS2c_wire cases_wire
       valid_case WorldS2c_cases CombatS2c_cases MovementS2c_cases StatsS2c_cases ChatS2c_cases case_out case_field];
  repeat match goal with |- fd_valid (f_pair _ _) (_, _) => split end.
Ltac field_tac :=
  first [ apply visual_parts_valid; assumption | apply mount_valid; assumption | apply kind_valid; assumption | apply name_valid; assumption
        | apply wire_pos_valid | apply empire_opt_valid | exact I | done | wire_range ].
Ltac event_tac := unfold is_net_id, is_u8' in *; repeat (constructor; [payload_tac; field_tac |]); constructor.

Lemma encode_state_valid id st : is_net_id id -> public_state_ok st ->
  Forall InGameS2c_payload_valid (encode_entity_public_state_change id st).
Proof.
  intros Hi []. pose proof (state_flags_range (state_flags (eps_flags st))).
  pose proof (buff_flags_range (buff_flags (eps_flags st))). event_tac.
Qed.
Lemma encode_spawn_valid s map_id coords : event_ok (EntitySpawn s) ->
  Forall InGameS2c_payload_valid (encode_entity_spawn s map_id coords) <-> event_fits (EntitySpawn s) map_id coords.
Proof.
  intros (Hi & Hf & Hk & [] & Hp). unfold encode_entity_spawn, event_fits. destruct (local_to_world _ _ _) as [w |].
  2: { split; [by left | constructor]. }
  pose proof (state_flags_range (state_flags (eps_flags (es_public_state s)))).
  pose proof (buff_flags_range (buff_flags (eps_flags (es_public_state s)))).
  rewrite Forall_cons. split.
  - intros [V1 V2]. right. split.
    + apply kind_valid; [done |]. revert V1. cbn [InGameS2c_payload_valid wire_valid WorldS2c_wire cases_wire valid_case
        WorldS2c_cases case_out case_field]. intros (_ & _ & _ & V & _). exact V.
    + intros plate E. rewrite E in V2. rewrite Forall_singleton in V2. apply name_valid. revert V2.
      cbn [InGameS2c_payload_valid wire_valid WorldS2c_wire cases_wire valid_case WorldS2c_cases case_out case_field].
      intros (_ & V & _). exact V.
  - intros [[=] | [Fk Fn]]. split.
    + unfold is_net_id, is_u8' in *. payload_tac; first [by apply angle_valid | field_tac].
    + destruct (es_nameplate s) as [plate |]; [| constructor]. pose proof (Fn plate eq_refl) as Hn.
      pose proof (Hp plate eq_refl) as Hl. unfold is_net_id, is_u8' in *. apply Forall_singleton. payload_tac; field_tac.
Qed.
Lemma encode_stats_valid id stats : event_ok (SetEntityStats id stats) ->
  Forall InGameS2c_payload_valid (encode_entity_stats id stats).
Proof.
  intros [Hi Hs]. unfold encode_entity_stats. induction Hs as [| u stats Hu Hs IH]; [constructor |].
  cbn. apply Forall_app. split; [| exact IH]. unfold encode_entity_stat. destruct (to_wire (su_stat u)); [event_tac | constructor].
Qed.
Lemma encode_target_valid e map_id coords : event_ok (SetProjectileTarget e) ->
  Forall InGameS2c_payload_valid (encode_projectile_target e map_id coords) <-> event_fits (SetProjectileTarget e) map_id coords.
Proof.
  intros (Hc & Ht). unfold encode_projectile_target, event_fits. destruct (local_to_world _ _ _) as [w |].
  2: { split; [by left | constructor]. }
  assert (forall b : ProjectileTarget, fd_valid f_projectile_target b <->
    InGameS2c_payload_valid (S2c_Combat (if pte_append e then AddProjectileTarget b else Pkt_SetProjectileTarget b))) as Hb
    by (intros b; by destruct (pte_append e)).
  rewrite Forall_singleton, <- Hb.
  pose proof (net_id_opt_valid (Some (pte_target_entity_id e)) ltac:(by intros ? [= <-])) as Hz. split.
  - intros [(_ & V & _) _]. right. intros E. apply Hz in V. by rewrite E in V.
  - intros [[=] | Hn]. split; [| done]. split; [unfold is_net_id in *; wire_range |].
    split; [| apply wire_pos_valid]. apply Hz. by intros [= E].
Qed.
Lemma encode_move_valid m map_id coords : event_ok (EntityMove m) ->
  Forall InGameS2c_payload_valid (encode_entity_move m map_id coords).
Proof.
  intros (Hi & Ha & Hf & Ht & Hd). unfold encode_entity_move. destruct (local_to_world _ _ _) as [w |]; [| constructor]. event_tac.
Qed.
Lemma encode_chat_valid c sender empire message map_id coords : event_ok (Event_Chat c sender empire message) ->
  Forall InGameS2c_payload_valid (encode_chat_event c sender empire message) <->
  event_fits (Event_Chat c sender empire message) map_id coords.
Proof.
  cbn [event_ok event_fits]. intros Hs. unfold encode_chat_event. rewrite Forall_singleton, <- (net_id_opt_valid sender Hs). split.
  - intros [(_ & V & _) [_ L]]. by split.
  - intros [V L]. payload_tac. cbn [fd_valid f_sized]. split; [| lia]. split; [done |]. split; [exact V | apply empire_opt_valid].
Qed.

Lemma encode_valid_iff event map_id coords : event_ok event ->
  Forall InGameS2c_payload_valid (map_event_to_packets event map_id coords) <-> event_fits event map_id coords.
Proof.
  intros Hok. destruct event; cbn [map_event_to_packets];
    try by first [apply encode_spawn_valid | apply encode_target_valid | apply encode_chat_valid].
  all: cbn [event_fits event_ok] in *; (split; [done | intros _]).
  - by apply encode_stats_valid.
  - destruct Hok as [Hi Hp]. event_tac.
  - destruct Hok as [Hi Hp]. pose proof (damage_flags_range flags). event_tac.
  - destruct Hok as [Ha Hb]. event_tac.
  - event_tac.
  - event_tac.
  - event_tac.
  - destruct Hok as [Hi Hs]. by apply encode_state_valid.
  - by apply encode_move_valid.
  - event_tac.
  - event_tac.
  - constructor.
  - constructor.
Qed.

(** [C17] An event of the map is encoded into packets that are valid on the wire,
    exactly when it fits the wire format.  For field values that their Rust types
    allow, nothing more is asked of moves, state changes, statistics, damage and
    effects; a mob that is shown must have an identifier below 2^16 and its name no
    zero byte, a projectile's target must not be entity 0, and a chat message must
    leave its size field below 2^16 and not come from entity 0.  What fits reads
    back from the bytes sent, whatever follows it.  Positions outside the map are
    dropped, not sent, and at most two packets come of an event, one for each
    statistic of an update. *)
Theorem map_events_encode_valid (event : PlayerEvent) (map_id : MapId) (coords : ContentCoords) :
  event_ok event ->
  (Forall InGameS2c_payload_valid (map_event_to_packets event map_id coords) <-> event_fits event map_id coords) /\
  (event_fits event map_id coords -> Forall self_delimiting (map_event_to_packets event map_id coords)) /\
  (length (map_event_to_packets event map_id coords) <=
     match event with SetEntityStats _ stats => length stats | _ => 2 end)%nat /\
  (forall pos, local_to_world coords map_id pos = None ->
     match event with
     | EntitySpawn s => es_pos s = pos -> map_event_to_packets event map_id coords = []
     | SetProjectileTarget e => pte_target_pos e = pos -> map_event_to_packets event map_id coords = []
     | EntityMove m => me_position m = pos -> map_event_to_packets event map_id coords = []
     | _ => True
     end).
Proof.
  intros Hok. assert (Forall InGameS2c_payload_valid (map_event_to_packets event map_id coords) <->
    event_fits event map_id coords) as Hv by by apply encode_valid_iff.
  split; [exact Hv |]. split; [| split].
  - intros Hf%Hv. eapply Forall_impl; [exact Hf |]. intros p Hp. by apply wire_self_delimiting, InGameS2c_valid.
  - destruct event; cbn [map_event_to_packets]; unfold encode_entity_spawn, encode_projectile_target, encode_entity_move;
      try (repeat case_match; cbn; lia). unfold encode_entity_stats. clear Hok Hv.
    induction stats as [| u stats IH]; [done |]. cbn. rewrite length_app. unfold encode_entity_stat at 1.
    pose proof (IH : (length (concat ((fun update => encode_entity_stat entity_id (su_stat update) (su_absolute update)) <$> stats)) <= length stats)%nat).
    destruct (to_wire (su_stat u) : option WireStatPoint); cbn; lia.
  - intros pos Hp. destruct event; try exact I; intros E; cbn [map_event_to_packets];
      unfold encode_entity_spawn, encode_projectile_target, encode_entity_move; by rewrite E, Hp.
Qed.

(** ** What does not fit *)

(** A chat message whose size field wraps: the reader takes the remainder for the
    size and leaves the rest of the message in front of the next packet. *)
Lemma long_chat_cut kind net_id empire (message s : bytes) :
  fd_valid (f_enum & f_zero_opt & f_zero_opt)%layout (kind, (net_id, empire)) ->
  2 ^ 16 <= Z.of_nat (length message) + 9 < 2 ^ 17 ->
  let kept := Z.to_nat (Z.of_nat (length message) + 9 - 2 ^ 16 - 9) in
  wire_read (wire_write (NotifyChatMessage kind net_id empire message) ++ s) =
    ReadOk (NotifyChatMessage kind net_id empire (take kept message)) (drop kept message ++ s).
Proof.
  intros V L kept. set (h := (f_enum & f_zero_opt & f_zero_opt)%layout) in *.
  change (rd_map (fun '((kind, (id, e)), m) => NotifyChatMessage kind id e m) (fd_read (f_sized 9 h))
    (fd_write (f_sized 9 h) ((kind, (net_id, empire)), message) ++ s) =
    ReadOk (NotifyChatMessage kind net_id empire (take kept message)) (drop kept message ++ s)).
  unfold rd_map, rd_bind. cbn [fd_read fd_write f_sized]. unfold rd_bind, wrap_u.
  assert (field_ok h) as Hh by (unfold h; field_ok_tac).
  set (size := (Z.of_nat (length message) + 9) mod 2 ^ 16).
  assert (size = Z.of_nat (length message) + 9 - 2 ^ 16) as Es.
  { unfold size. symmetry. apply (Z.mod_unique _ _ 1); lia. }
  rewrite <- !app_assoc, read_u16_bytes by (change (2 ^ 16) with 65536 in *; lia). rewrite (fo_roundtrip _ Hh) by done.
  assert (Z.to_nat (Z.max 0 (size - 9)) = kept) as -> by (unfold kept; lia).
  rewrite <- (take_drop kept message) at 1. rewrite <- app_assoc.
  assert (length (take kept message) = kept) as Lk by (rewrite length_take; change (2 ^ 17) with 131072 in *; unfold kept; lia).
  rewrite <- Lk at 1. by rewrite read_exact_app.
Qed.

(** A mob of an identifier that does not fit is shown as another one. *)
Lemma large_mob_id_cut id kind :
  is_net_id id -> ~ is_u16 id ->
  exists k, EntityKindCode_try_from (entity_type (to_wire (Entity_Mob id kind)), race_code (to_wire (Entity_Mob id kind))) = Some k /\
    k <> to_wire (Entity_Mob id kind).
Proof.
  unfold is_net_id, is_u16. intros H N. assert (wrap_u 16 id <> id) as Hw.
  { intros E. apply N. rewrite <- E. unfold wrap_u. apply Z.mod_pos_bound. lia. }
  destruct kind as [| | | []]; cbn; eexists; (split; [done |]); congruence.
Qed.

Definition sample_monster : EntitySnapshot :=
  {| es_entity_id := 7; es_facing := 71; es_pos := {| pos_x := f32_of_int 12; pos_y := f32_of_int 34 |};
     es_kind := Entity_Mob 101 Mob_Monster;
     es_public_state :=
       {| eps_equipment := {| body_part := 0; weapon_part := 19; hair_part := 0 |};
          eps_speeds := EntityPublicSpeeds_default; eps_flags := {| state_flags := 3; buff_flags := 0 |};
          eps_social := {| guild_id := 0; rank_pts := -5; pvp_mode := 0; mount_id := 0 |} |};
     es_nameplate := Some {| plate_name := "Wolf"; plate_empire := None; plate_level := 4 |} |}.

Lemma map_events_encode_valid_witness :
  exists coords, from_catalog base_catalog = Ok coords /\
    (length (map_event_to_packets (EntitySpawn sample_monster) "a1" coords) = 2)%nat /\
    Forall InGameS2c_payload_valid (map_event_to_packets (EntitySpawn sample_monster) "a1" coords).
Proof.
  destruct (from_catalog base_catalog) as [c | e] eqn:E; [| vm_compute in E; discriminate].
  exists c. split; [reflexivity |]. split.
  - vm_compute in E. injection E as <-. by vm_compute.
  - apply map_events_encode_valid.
    + cbn. unfold is_net_id, is_u16, is_u8'. split_and!; try lia.
      * split; cbn; unfold is_net_id, is_u16, is_u8'; lia.
      * intros plate [= <-]. unfold is_net_id. cbn. lia.
    + right. split; [cbn; unfold is_u16; lia |]. intros plate [= <-]. apply (bool_decide_unpack _). by vm_compute.
Defined.

(** ** Statistics as the client indexes them *)
#[export] Instance WireStatPoint_eq_dec : EqDecision WireStatPoint := repr_eq_dec.

Lemma WireStatSnapshot_set_length s p v : length (WireStatSnapshot_set s p v) = length s.
Proof. apply length_insert. Qed.
Lemma point_in_range (p : WireStatPoint) : (Z.to_nat (repr_u8 p) < STATS_COUNT)%nat.
Proof. destruct p; by vm_compute; lia. Qed.
Lemma WireStatSnapshot_get_set s p q v : length s = STATS_COUNT ->
  WireStatSnapshot_get (WireStatSnapshot_set s p v) q = if decide (p = q) then v else WireStatSnapshot_get s q.
Proof.
  intros Hl. unfold WireStatSnapshot_get, WireStatSnapshot_set. rewrite !nth_lookup. pose proof (point_in_range p).
  destruct (decide (p = q)) as [-> | Hn]; [by rewrite (list_lookup_insert_eq (s : list Z)) by (unfold WireStatSnapshot in *; lia) |].
  rewrite (list_lookup_insert_ne (s : list Z)); [done |]. intros He. apply Hn.
  pose proof (repr_find p) as Hp. pose proof (repr_find q) as Hq. pose proof (repr_range p). pose proof (repr_range q).
  replace (repr_u8 q) with (repr_u8 p) in Hq by lia. congruence.
Qed.

Lemma stat_point_inj (a b : Stat) (p : WireStatPoint) :
  to_wire a = Some p -> to_wire b = Some p -> a = b.
Proof. destruct a; intros [= <-]; destruct b; intros E; first [reflexivity | discriminate E]. Qed.

Definition put_point (wire : WireStatSnapshot) (entry : Stat * Z) : WireStatSnapshot :=
  let '(stat, value) := entry in
  match to_wire stat : option WireStatPoint with Some point => WireStatSnapshot_set wire point value | None => wire end.
Lemma put_points_length m wire : length (fold_left put_point m wire) = length wire.
Proof.
  revert wire. induction m as [| [stat v] m IH]; intros wire; [done |]. cbn [fold_left]. rewrite IH. unfold put_point.
  destruct (to_wire stat); [apply WireStatSnapshot_set_length | done].
Qed.
Lemma put_points_other m wire p : length wire = STATS_COUNT -> (forall stat v, (stat, v) ∈ m -> to_wire stat <> Some p) ->
  WireStatSnapshot_get (fold_left put_point m wire) p = WireStatSnapshot_get wire p.
Proof.
  revert wire. induction m as [| [stat v] m IH]; intros wire Hl Hn; [done |]. cbn [fold_left].
  rewrite IH; [| rewrite <- Hl; apply (put_points_length [(stat, v)]) | intros; apply (Hn _ v0); by right].
  unfold put_point. pose proof (Hn stat v (list_elem_of_here _ _)) as Hs. destruct (to_wire stat) as [q |]; [| done].
  rewrite WireStatSnapshot_get_set by done. destruct (decide (q = p)); [congruence | done].
Qed.
Lemma put_points_elem m wire p stat v : bt_sorted m -> length wire = STATS_COUNT -> (stat, v) ∈ m -> to_wire stat = Some p ->
  WireStatSnapshot_get (fold_left put_point m wire) p = v.
Proof.
  intros Hs. revert wire. induction Hs as [| [s0 v0] m Hs IH Hlt]; intros wire Hl Hi Hp; [by apply not_elem_of_nil in Hi |].
  cbn [fold_left]. apply elem_of_cons in Hi as [[= <- <-] | Hi].
  - rewrite put_points_other.
    + unfold put_point. rewrite Hp, WireStatSnapshot_get_set by done. by rewrite decide_True.
    + rewrite <- Hl. apply (put_points_length [(stat, v)]).
    + intros s1 v1 H1 E1. rewrite Forall_forall in Hlt. specialize (Hlt _ H1). unfold bt_lt in Hlt. cbn in Hlt.
      rewrite (stat_point_inj s1 stat p E1 Hp) in Hlt. lia.
  - apply IH; [| done | done]. rewrite <- Hl. apply (put_points_length [(s0, v0)]).
Qed.

(** [C18] [C] The table of statistics a character enters with holds at every point the
    value of the statistic that has it, and zero at the points no statistic of the
    snapshot has. *)
Theorem stat_snapshot_to_wire (s : StatSnapshot) :
  bt_sorted (ss_values s) ->
  let wire : WireStatSnapshot := to_wire s in
  length wire = STATS_COUNT /\
  (forall stat p, to_wire stat = Some p -> WireStatSnapshot_get wire p = snapshot_get s stat) /\
  (forall p, (forall stat, bt_get (ss_values s) stat <> None -> to_wire stat <> Some p) -> WireStatSnapshot_get wire p = 0).
Proof.
  intros Hs. cbv zeta.
  change (to_wire s : WireStatSnapshot) with (fold_left put_point (ss_values s) WireStatSnapshot_default).
  assert (length WireStatSnapshot_default = STATS_COUNT) as Hd by apply repeat_length.
  assert (forall p, WireStatSnapshot_get WireStatSnapshot_default p = 0) as Hz.
  { intros p. unfold WireStatSnapshot_get, WireStatSnapshot_default. apply nth_repeat. }
  split; [by rewrite put_points_length |]. split.
  - intros stat p Hp. unfold snapshot_get. destruct (bt_get (ss_values s) stat) as [v |] eqn:E.
    + cbn. apply bt_get_elem in E. by apply (put_points_elem _ _ p stat v).
    + cbn. rewrite put_points_other; [apply Hz | done |]. intros s1 v1 H1 E1.
      rewrite (stat_point_inj s1 stat p E1 Hp) in H1. apply (bt_elem_get _ _ _ Hs) in H1. congruence.
  - intros p Hn. rewrite put_points_other; [apply Hz | done |]. intros s1 v1 H1 E1. apply (Hn s1); [| done].
    rewrite (bt_elem_get _ _ _ Hs H1). discriminate.
Qed.

Lemma stat_snapshot_to_wire_witness :
  WireStatSnapshot_get (to_wire {| ss_values := [(Stat.Level, 12); (Stat.Hp, 345)] |}) Point_Hp = 345.
Proof.
  refine (proj1 (proj2 (stat_snapshot_to_wire {| ss_values := [(Stat.Level, 12); (Stat.Hp, 345)] |} _)) Stat.Hp Point_Hp eq_refl).
  repeat constructor.
Defined.
