(* ===== verification/Commands.v ===== *)
(** Slash commands ([zohar-gamesrv/src/handlers/ingame/chat/command.rs] and
    [command/*.rs]): splitting a chat line into words, recognising a command, and
    the texts a player is answered with.

    The [clap] crate is an argument: which command an argument vector is, the
    text of its errors, and the summaries of its commands. *)
From S2P Require Import Prelude Domain Float Space Entities MapPort Text Wire.

(** ** Words *)
Definition is_quote (c : char) : bool := (code_point c =? 34) || (code_point c =? 39).
Definition char_eqb (a b : char) : bool := code_point a =? code_point b.

(** The loop of [tokenize]; every round uses at least one character. *)
Fixpoint tokenize_from (fuel : nat) (l : list char) (quote : option char) (current : list char) : list (list char) :=
  let finish := match current with [] => [] | _ => [current] end in
  match fuel, l with
  | S fuel, ch :: l =>
      match quote with
      | Some delim =>
          if char_eqb ch delim then tokenize_from fuel l None current else tokenize_from fuel l quote (current ++ [ch])
      | None =>
          if is_quote ch then tokenize_from fuel l (Some ch) current
          else if is_whitespace ch then finish ++ tokenize_from fuel (trim_start l) None []
          else tokenize_from fuel l None (current ++ [ch])
      end
  | _, _ => finish
  end.
Definition tokenize (input : list char) : list (list char) :=
  let l := trim input in tokenize_from (length l) l None [].

(** ** Text helpers *)
Definition str (s : string) : list char := chars s.
Fixpoint strip_prefix (p l : list char) : option (list char) :=
  match p, l with
  | [], _ => Some l
  | a :: p, b :: l => if char_eqb a b then strip_prefix p l else None
  | _ :: _, [] => None
  end.
Definition strip_or_keep (p : string) (l : list char) : list char := default l (strip_prefix (str p) l).
Definition starts_with (p : string) (l : list char) : bool := bool_decide (is_Some (strip_prefix (str p) l)).

Definition collapse_to_one_line (message : list char) : list char :=
  (fix words (l current : list char) (sep : bool) : list char :=
     match l with
     | [] => current
     | c :: l =>
         if is_whitespace c then words l current (match current with [] => false | _ => true end)
         else words l (if sep then current ++ str " " ++ [c] else current ++ [c]) false
     end) message [] false.
Definition normalize_command_name (name : list char) : list char :=
  if starts_with "/" name then name else str "/" ++ name.
Definition normalize_usage (usage : list char) : list char :=
  let usage := trim (strip_or_keep "Usage:" (trim usage)) in
  str "/" ++ strip_or_keep "/" (strip_or_keep "chat-command " usage).
(** [str::lines] *)
Fixpoint lines_from (l line : list char) : list (list char) :=
  match l with
  | [] => match line with [] => [] | _ => [line] end
  | c :: l =>
      if code_point c =? 10 then
        (match rev line with c' :: line' => if code_point c' =? 13 then rev line' else line | [] => line end) :: lines_from l []
      else lines_from l (line ++ [c])
  end.
Definition lines (l : list char) : list (list char) := lines_from l [].

(** ** Commands *)
Inductive SessionCommand : Type := PhaseSelect | Logout | Quit.
Inductive PreferencesCommand : Type := SetWalkMode | SetRunMode.
Inductive RestartCommand : Type := RestartCmd_Here | RestartCmd_Town.
Inductive StatsCommand : Type := StatsCmd_Increase (stat : CoreStatKind) | StatsCmd_Decrease (stat : CoreStatKind).
Inductive TeleportCommand : Type := Warp (x y : spec_float) | Goto (target : string) (y : option string).
Inductive KnownCommand : Type :=
| Cmd_Session (c : SessionCommand) | Cmd_Preferences (c : PreferencesCommand) | Cmd_Restart (c : RestartCommand)
| Cmd_Stats (c : StatsCommand) | Cmd_Teleport (c : TeleportCommand).
Inductive ParsedCommand : Type :=
| Cmd_Unknown (spelled raw_full : list char) | Cmd_Feedback (message : list char) | Cmd_Known (c : KnownCommand).

Inductive ClapError : Type := InvalidSubcommand | OtherClapError (text : list char).
(** What is used of [clap]: parsing an argument vector without its program name,
    and the description and usage of the subcommand with a name or alias. *)
Record Clap : Type := {
  try_parse_from : list (list char) -> result KnownCommand ClapError;
  find_subcommand : list char -> option (option (list char) * list char) }.

Definition command_summary (clap : Clap) (name : list char) : option (list char) :=
  '(about, usage) ← find_subcommand clap name;
  let about := default (str "No help available.") about in
  Some (normalize_command_name name ++ str ": " ++ collapse_to_one_line about ++ str " Usage: " ++ normalize_usage usage ++ str ".").

(** The loop over the lines of an error: its details and its usage. *)
Fixpoint clap_lines (ls : list (list char)) (details : list (list char)) (usage : option (list char)) (collecting : bool)
  : list (list char) * option (list char) :=
  match ls with
  | [] => (details, usage)
  | line :: ls =>
      match strip_prefix (str "error:") line with
      | Some rest => clap_lines ls (details ++ [trim rest]) usage true
      | None =>
          match strip_prefix (str "Usage:") line with
          | Some rest => clap_lines ls details (Some (normalize_usage (trim rest))) false
          | None =>
              if starts_with "For more information" line then clap_lines ls details usage collecting
              else clap_lines ls (if collecting then details ++ [line] else details) usage collecting
          end
      end
  end.
Fixpoint join (sep : list char) (l : list (list char)) : list char :=
  match l with [] => [] | [a] => a | a :: l => a ++ sep ++ join sep l end.
Definition format_clap_feedback (spelled err : list char) : list char :=
  let ls := List.filter (fun l => match l with [] => false | _ => true end) (trim <$> lines err) in
  let '(details, usage) := clap_lines ls [] None false in
  let message := collapse_to_one_line (join (str " ") details) in
  let message := match message with [] => str "Invalid command." | _ => message end in
  let message := match usage with Some usage => message ++ str " Usage: " ++ usage ++ str "." | None => message end in
  normalize_command_name spelled ++ str ": " ++ message.

Definition is_help_flag (flag : list char) : bool :=
  bool_decide (code_point <$> flag = code_point <$> str "--help") || bool_decide (code_point <$> flag = code_point <$> str "-h").

(** [None] is a line that is not a command. *)
Definition parse (clap : Clap) (input : list char) : option ParsedCommand :=
  body ← strip_prefix (str "/") (trim input);
  let tokens := tokenize body in
  let spelled := str "/" ++ default [] (head tokens) in
  let unknown := Cmd_Unknown spelled input in
  let by_clap :=
    match try_parse_from clap tokens with
    | Ok command => Cmd_Known command
    | Err InvalidSubcommand => unknown
    | Err (OtherClapError text) => Cmd_Feedback (format_clap_feedback spelled text)
    end in
  Some match tokens with
       | [command; flag] =>
           if is_help_flag flag then
             match command_summary clap command with Some message => Cmd_Feedback message | None => unknown end
           else by_clap
       | _ => by_clap
       end.

(** ** Answers *)
Definition text_bytes (l : list char) : bytes := concat (char_bytes <$> l).
(** [format!("{message}\0").into_bytes()] *)
Definition info_message (message : list char) : bytes := text_bytes message ++ [0].
Definition prefixed_message (command_name message : list char) : list char :=
  normalize_command_name command_name ++ str ": " ++ collapse_to_one_line message.

(** ** Coordinates: [str::parse::<f32>] *)
Definition digit (b : Z) : option Z := if between 48 b 57 then Some (b - 48) else None.
Fixpoint digits_from (l : bytes) (acc : Z) (count : nat) : Z * nat * bytes :=
  match l with
  | b :: l' => match digit b with Some d => digits_from l' (acc * 10 + d) (S count) | None => (acc, count, l) end
  | [] => (acc, count, [])
  end.
Definition parse_exponent (l : bytes) : option Z :=
  match l with
  | [] => Some 0
  | b :: l =>
      if (b =? 101) || (b =? 69) then
        let '(neg, l) := match l with 45 :: l' => (true, l') | 43 :: l' => (false, l') | _ => (false, l) end in
        match digits_from l 0 0 with
        | (e, S _, []) => Some (if neg : bool then - e else e)
        | _ => None
        end
      else None
  end.
Definition lowercase (b : Z) : Z := if between 65 b 90 then b + 32 else b.
(** The nearest [f32] of [m * 10 ^ e]: one exact division, rounded once. *)
Definition f32_of_decimal (neg : bool) (m e : Z) : spec_float :=
  match m with
  | Z.pos p =>
      if 0 <=? e then binary_normalize 24 128 ((if neg then -1 else 1) * (Z.pos p * 10 ^ e)) 0 neg
      else SFdiv 24 128 (S754_finite neg p 0) (S754_finite false (Z.to_pos (10 ^ (- e))) 0)
  | _ => S754_zero neg
  end.
Definition parse_f32 (s : string) : option spec_float :=
  let l := bytes_of s in
  let '(neg, l) := match l with 45 :: l' => (true, l') | 43 :: l' => (false, l') | _ => (false, l) end in
  let word := lowercase <$> l in
  if bool_decide (word = bytes_of "inf") || bool_decide (word = bytes_of "infinity") then Some (S754_infinity neg)
  else if bool_decide (word = bytes_of "nan") then Some S754_nan
  else
    let '(int, n, l) := digits_from l 0 0 in
    let '(m, k, l) := match l with 46 :: l' => digits_from l' int 0 | _ => (int, 0%nat, l) end in
    if (n + k =? 0)%nat then None
    else e ← parse_exponent l; Some (f32_of_decimal neg m (e - Z.of_nat k)).
