(* ===== verification/Interact.v ===== *)
(** Programs that talk to their environment: interaction trees, the finite runs
    of a tree, and a program logic over an environment.

    An environment is a type of states with, for every event, what must hold when
    a program performs it and which answers may come with which next state.
    A triple says of every finite run: whatever event comes next is allowed, and a
    result satisfies the postcondition.  Loops are [ITree.iter]; nothing here
    assumes that they end. *)
From ITree Require Import ITree.
From ITree.Props Require Import Finite.
From Stdlib Require Import Eqdep.
From S2P Require Import Prelude.

Notation "'let*' x := m 'in' k" := (ITree.bind m (fun x => k))
  (at level 200, x pattern, m at level 100, k at level 200) : rust_scope.

(** Inversion of dependent pairs. *)
Ltac inv_pairs := repeat match goal with H : existT _ _ = existT _ _ |- _ => apply inj_pair2 in H; subst end.

Section Logic.
Context {E : Type -> Type}.

(** ** Finite runs *)
Inductive Occ : Type := occ (A : Type) (e : E A) (a : A).
Arguments occ {A} e a.
(** [n] counts the nodes passed. *)
Inductive steps {R} : nat -> itree' E R -> list Occ -> itree' E R -> Prop :=
| steps_refl o : steps 0 o [] o
| steps_tau n t l o : steps n (observe t) l o -> steps (S n) (TauF t) l o
| steps_vis n A (e : E A) k a l o : steps n (observe (k a)) l o -> steps (S n) (VisF e k) (occ e a :: l) o.

(** A run of a sequence is a run of its first part, or a result of it and a run of
    the rest. *)
Lemma observe_bind_eq {R T} (t : itree E R) (k : R -> itree E T) :
  observe (ITree.bind t k) =
    match observe t with
    | RetF r => observe (k r)
    | TauF t => TauF (ITree.bind t k)
    | VisF e ke => VisF e (fun x => ITree.bind (ke x) k)
    end.
Proof. unfold observe at 1. cbn. unfold observe. by destruct (_observe t). Qed.

Lemma steps_bind {R T} n (t : itree E R) (k : R -> itree E T) l v :
  steps n (observe (ITree.bind t k)) l v ->
  (exists m t', steps m (observe t) l (observe t') /\ v = observe (ITree.bind t' k)) \/
  (exists r l1 l2 m m', (m' + m <= n)%nat /\ l = l1 ++ l2 /\ steps m (observe t) l1 (RetF r) /\ steps m' (observe (k r)) l2 v).
Proof.
  intros H. remember (observe (ITree.bind t k)) as o eqn:Eo. revert t Eo.
  induction H as [o | n u l o H IH | n A e k' a l o H IH]; intros t Eo.
  - left. exists 0%nat, t. by split; [constructor |].
  - rewrite observe_bind_eq in Eo. destruct (observe t) as [r | t1 | B e1 k1] eqn:Et; [| | discriminate Eo].
    + right. exists r, [], l, 0%nat, (S n). split; [lia |]. split; [done |]. split; [constructor |]. rewrite <- Eo. by constructor.
    + injection Eo as ->. destruct (IH t1 eq_refl) as [(m & t' & H1 & H2) | (r & l1 & l2 & m & m' & Hm & H1 & H2 & H3)].
      * left. exists (S m), t'. split; [by constructor | done].
      * right. exists r, l1, l2, (S m), m'. split; [lia |]. split; [done |]. split; [by constructor | done].
  - rewrite observe_bind_eq in Eo. destruct (observe t) as [r | t1 | B e1 k1] eqn:Et; [| discriminate Eo |].
    + right. exists r, [], (occ e a :: l), 0%nat, (S n). split; [lia |]. split; [done |]. split; [constructor |].
      rewrite <- Eo. by constructor.
    + inversion Eo. subst. inv_pairs.
      destruct (IH (k1 a) eq_refl) as [(m & t' & H1 & H2) | (r & l1 & l2 & m & m' & Hm & H1 & H2 & H3)].
      * left. exists (S m), t'. split; [by constructor | done].
      * right. exists r, (occ e1 a :: l1), l2, (S m), m'. subst l. split; [lia |]. split; [done |]. split; [by constructor | done].
Qed.

(** ** Environments *)
Record Environment : Type := {
  env_state : Type;
  env_allows : forall A, E A -> env_state -> Prop;
  env_answers : forall A, E A -> A -> env_state -> env_state -> Prop }.
Variable W : Environment.
Notation G := (env_state W).

Inductive evolves : G -> list Occ -> G -> Prop :=
| evolves_nil g : evolves g [] g
| evolves_cons A (e : E A) a l g g' g'' :
    env_answers W A e a g g' -> evolves g' l g'' -> evolves g (occ e a :: l) g''.
Lemma evolves_app g l1 l2 g' : evolves g (l1 ++ l2) g' -> exists g1, evolves g l1 g1 /\ evolves g1 l2 g'.
Proof.
  revert g. induction l1 as [| o l1 IH]; intros g H; cbn in H; [exists g; by split; [constructor |] |].
  inversion H. subst. destruct (IH _ H5) as (g1 & H1 & H2). exists g1. split; [by econstructor | done].
Qed.

Definition holds_at {R} (Q : R -> G -> Prop) (o : itree' E R) (g : G) : Prop :=
  match o with
  | RetF r => Q r g
  | TauF _ => True
  | VisF e _ => env_allows W _ e g
  end.
Definition triple {R} (P : G -> Prop) (t : itree E R) (Q : R -> G -> Prop) : Prop :=
  forall g n l o g', P g -> steps n (observe t) l o -> evolves g l g' -> holds_at Q o g'.

(** ** Rules *)
Lemma triple_ret {R} (P : G -> Prop) (r : R) Q : (forall g, P g -> Q r g) -> triple P (Ret r) Q.
Proof. intros H g n l o g' Hp Hs He. cbn in Hs. inversion Hs; subst. inversion He; subst. cbn. auto. Qed.

Lemma triple_conseq {R} (P P' : G -> Prop) (t : itree E R) (Q Q' : R -> G -> Prop) :
  triple P' t Q' -> (forall g, P g -> P' g) -> (forall r g, Q' r g -> Q r g) -> triple P t Q.
Proof.
  intros H Hp Hq g n l o g' Hg Hs He. specialize (H g n l o g' (Hp _ Hg) Hs He). destruct o; cbn in *; auto.
Qed.

Lemma triple_vis {A R} (P : G -> Prop) (e : E A) (k : A -> itree E R) Q :
  (forall g, P g -> env_allows W A e g) ->
  (forall a, triple (fun g' => exists g, P g /\ env_answers W A e a g g') (k a) Q) ->
  triple P (Vis e k) Q.
Proof.
  intros Ha Hk g n l o g' Hp Hs He. cbn in Hs. inversion Hs; subst.
  - inversion He; subst. cbn. auto.
  - inv_pairs. inversion He; subst. inv_pairs. eapply Hk; [| eassumption | eassumption]. eauto.
Qed.

Lemma triple_bind {R T} (P : G -> Prop) (t : itree E R) (M : R -> G -> Prop) (k : R -> itree E T) Q :
  triple P t M -> (forall r, triple (M r) (k r) Q) -> triple P (ITree.bind t k) Q.
Proof.
  intros Ht Hk g n l o g' Hp Hs He.
  apply steps_bind in Hs as [(m & t' & Hs & ->) | (r & l1 & l2 & m & m' & _ & -> & H1 & H2)].
  - pose proof (Ht g m l _ g' Hp Hs He) as H. rewrite observe_bind_eq.
    destruct (observe t') as [r | t1 | A e k1]; cbn in H |- *; [| done | done].
    apply (Hk r g' 0%nat [] _ g' H); constructor.
  - apply evolves_app in He as (g1 & E1 & E2). apply (Hk r g1 m' l2 o g'); [| done | done].
    apply (Ht g m l1 _ g1 Hp H1 E1).
Qed.

Lemma triple_trigger {A} (P : G -> Prop) (e : E A) (Q : A -> G -> Prop) :
  (forall g, P g -> env_allows W A e g) ->
  (forall a g g', P g -> env_answers W A e a g g' -> Q a g') ->
  triple P (ITree.trigger e) Q.
Proof.
  intros Ha Hq. apply triple_vis; [exact Ha |]. intros a. apply triple_ret. intros g' (g & Hp & Hg). eauto.
Qed.

(** The invariant rule of a loop: by induction on the length of the run. *)
Lemma triple_iter {I R} (body : I -> itree E (I + R)) (Inv : I -> G -> Prop) Q :
  (forall i, triple (Inv i) (body i) (fun r g => match r with inl j => Inv j g | inr x => Q x g end)) ->
  forall i, triple (Inv i) (ITree.iter body i) Q.
Proof.
  intros Hb i g n. revert i g. induction (lt_wf n) as [n _ IH]. intros i g l o g' Hp Hs He.
  assert (observe (ITree.iter body i) =
    observe (ITree.bind (body i) (fun lr => match lr with inl j => Tau (ITree.iter body j) | inr r => Ret r end))) as Ei
    by reflexivity.
  rewrite Ei in Hs. apply steps_bind in Hs as [(m & t' & Hs & ->) | (r & l1 & l2 & m & m' & Hm & -> & H1 & H2)].
  - pose proof (Hb i g m l _ g' Hp Hs He) as H. rewrite observe_bind_eq.
    destruct (observe t') as [[j | x] | t1 | A e k1]; cbn in H |- *; done.
  - apply evolves_app in He as (g1 & E1 & E2). pose proof (Hb i g m l1 _ g1 Hp H1 E1) as H. cbn in H.
    destruct r as [j | x]; cbn in H2.
    + inversion H2; subst; [inversion E2; subst; done |]. eapply (IH n0); [lia | exact H | eassumption | exact E2].
    + inversion H2; subst. inversion E2; subst. exact H.
Qed.

(** A precondition may be split, and pure facts moved out. *)
Lemma triple_pre {R} (P : G -> Prop) (t : itree E R) Q :
  (forall g, P g -> triple (fun g' => g' = g) t Q) -> triple P t Q.
Proof. intros H g n l o g' Hp. exact (H g Hp g n l o g' eq_refl). Qed.
Lemma triple_exists {B R} (P : B -> G -> Prop) (t : itree E R) Q :
  (forall b, triple (P b) t Q) -> triple (fun g => exists b, P b g) t Q.
Proof. intros H g n l o g' [b Hp]. exact (H b g n l o g' Hp). Qed.
Lemma triple_pure {R} (F : Prop) (P : G -> Prop) (t : itree E R) Q :
  (F -> triple P t Q) -> triple (fun g => F /\ P g) t Q.
Proof. intros H g n l o g' [Hf Hp]. exact (H Hf g n l o g' Hp). Qed.
End Logic.
Arguments Occ E : clear implicits.
Arguments Environment E : clear implicits.
