(* ===== verification/Session.v ===== *)
(** What the phase handlers of a session share
    ([zohar-gamesrv/src/handlers/types.rs], [runtime.rs], [session_health.rs],
    [control.rs], [lib.rs]): the effects a handler asks for, its errors, the
    events of the outside world, and the loop of a phase.

    A handler is an interaction tree ([Interact.v]) over [SessionE]: every call
    whose answer the handler does not decide is an event.  [&mut] of the clock
    handshake and of the session tracker is the state [Timers]; [?] is the bind
    of [Handler].  Module [Drain] is the controller that tells sessions to end
    ([drain.rs]). *)
From ITree Require Import ITree.
From S2P Require Import Prelude BTree Domain Samples StatsApi Hydrate Float Space Entities Database Coords MapPort Text Wire Protocol GamePacket Layout Packets Adapters Codec Connection Token Handshake Persist Interact.

(** ** Phases and their packets *)
Record LoadedPlayer : Type := {
  lp_net_id : NetId; lp_map_id : MapId; lp_runtime_epoch : Z; lp_playtime : Z; lp_initial_pos : LocalPos;
  lp_visual_profile : PlayerVisualProfile; lp_gameplay : PlayerGameplayBootstrap }.

Definition C2s (p : GamePhase) : Type :=
  match p with
  | P_HandshakeGame => HandshakeGameC2s | P_Login => LoginC2s | P_Select => SelectC2s
  | P_Loading => LoadingC2s | P_InGame => InGameC2s
  end.
Definition S2c (p : GamePhase) : Type :=
  match p with
  | P_HandshakeGame => HandshakeGameS2c | P_Login => LoginS2c | P_Select => SelectS2c
  | P_Loading => LoadingS2c | P_InGame => InGameS2c
  end.
(** [From<ControlS2c>] *)
Definition from_control (p : GamePhase) : ControlS2c -> S2c p :=
  match p return ControlS2c -> S2c p with
  | P_HandshakeGame | P_Login | P_Select => Control
  | P_Loading => Loading_Control
  | P_InGame => S2c_Control
  end.
Notation Data p := (NextData LoadedPlayer p).
Notation State p := (StateData LoadedPlayer p).

(** ** Results and effects of a phase *)
Inductive DisconnectDisposition : Type := Standard | HandoffPrepared.
(** [anyhow::Error]: a [Disconnect] can be recovered from it, any other error is
    only logged. *)
Inductive PhaseError : Type := PE_Disconnect (reason : string) (disposition : DisconnectDisposition) | PE_Other.
Definition disconnect (reason : string) : PhaseError := PE_Disconnect reason Standard.
Definition handoff_disconnect (reason : string) : PhaseError := PE_Disconnect reason HandoffPrepared.

Inductive SessionLeaseAction : Type := Release | AlreadyReleased | RetainUntilStale.
Inductive SessionEnd : Type :=
| BeforeLogin
| AfterLogin (username : string) (lease_action : SessionLeaseAction)
| Handoff (username : string).
Definition session_end_for_disconnect (end_ : SessionEnd) (d : DisconnectDisposition) : SessionEnd :=
  match d, end_ with
  | HandoffPrepared, AfterLogin username _ => Handoff username
  | _, _ => end_
  end.

Record PhaseEffects (p : GamePhase) : Type := {
  fx_send : list (S2c p); fx_transition : option (Data p); fx_disconnect : option PhaseError }.
Arguments Build_PhaseEffects {p} _ _ _.
Arguments fx_send {p} _.
Arguments fx_transition {p} _.
Arguments fx_disconnect {p} _.
Definition fx_empty {p} : PhaseEffects p := Build_PhaseEffects [] None None.
Definition fx_one {p} (packet : S2c p) : PhaseEffects p := Build_PhaseEffects [packet] None None.
Definition fx_many {p} (packets : list (S2c p)) : PhaseEffects p := Build_PhaseEffects packets None None.
Definition fx_next {p} (data : Data p) : PhaseEffects p := Build_PhaseEffects [] (Some data) None.
Definition fx_close {p} (reason : string) : PhaseEffects p := Build_PhaseEffects [] None (Some (disconnect reason)).
Definition with_disconnect {p} (reason : string) (fx : PhaseEffects p) : PhaseEffects p :=
  Build_PhaseEffects (fx_send fx) (fx_transition fx) (Some (disconnect reason)).
Definition with_handoff_disconnect {p} (reason : string) (fx : PhaseEffects p) : PhaseEffects p :=
  Build_PhaseEffects (fx_send fx) (fx_transition fx) (Some (handoff_disconnect reason)).

(** ** Session liveness ([session_health.rs]) *)
Definition HEARTBEAT_TIMEOUT_MULTIPLIER : Z := 3.
Definition DURATION_MAX : Z := u64_max * 1000000000 + 999999999.
Inductive SessionTick : Type := SendHeartbeat | TimedOut.
Record SessionTracker : Type := { last_rx : Z; heartbeat_interval : Z; timeout : Z }.
Definition SessionTracker_new (now interval : Z) : SessionTracker :=
  let t := interval * HEARTBEAT_TIMEOUT_MULTIPLIER in
  {| last_rx := now; heartbeat_interval := interval;
     timeout := if DURATION_MAX <? t then u64_max * 1000000000 else t |}.
Definition mark_rx (s : SessionTracker) (now : Z) : SessionTracker :=
  {| last_rx := now; heartbeat_interval := heartbeat_interval s; timeout := timeout s |}.
Definition on_tick (s : SessionTracker) (now : Z) : option SessionTick :=
  let since_rx := duration_since now (last_rx s) in
  if timeout s <=? since_rx then Some TimedOut
  else if heartbeat_interval s <=? since_rx then Some SendHeartbeat
  else None.

(** ** Calls to the database *)
Inductive DbCall : Type -> Type :=
| Call_resume (username : string) (token : Z) (server_id connection_id : string) (stale_threshold_secs idle_ttl_secs : Z)
    (peer_ip : string) : DbCall bool
| Call_validate_token (username : string) (token idle_ttl_secs : Z) (peer_ip : string) : DbCall bool
| Call_set_login_token (username : string) (token : Z) : DbCall unit
| Call_release (username server_id connection_id : string) : DbCall bool
| Call_update_heartbeat (username : string) : DbCall unit
| Call_get_or_create_profile (username : string) : DbCall ProfileRow
| Call_find_profile (username : string) : DbCall (option ProfileRow)
| Call_update_empire (username : string) (empire : Empire) : DbCall unit
| Call_list_summaries (username : string) : DbCall (list PlayerSummaryRow)
| Call_list_runtime_states (username : string) : DbCall (list PlayerRuntimeStateRow)
| Call_find_summary (username : string) (slot : Z) : DbCall (option PlayerSummaryRow)
| Call_create_player (username : string) (slot : Z) (name : string) (class : PlayerClass) (gender : PlayerGender)
    (appearance : PlayerBaseAppearance) : DbCall CreatePlayerOutcome
| Call_delete_player (username : string) (slot : Z) (code : string) : DbCall bool
| Call_find_stats_bootstrap (id : PlayerId) : DbCall (option PlayerStatsBootstrapRow)
| Call_find_runtime_state (id : PlayerId) : DbCall (option PlayerRuntimeStateRow).

Definition db_exec (now : Z) {A} (c : DbCall A) (db : Database) : DbResult A * Database :=
  match c in DbCall A return DbResult A * Database with
  | Call_resume u t srv conn stale idle ip => resume_session_with_token now u t srv conn stale idle ip db
  | Call_validate_token u t idle ip => validate_login_token now u t idle ip db
  | Call_set_login_token u t => set_session_login_token now u t db
  | Call_release u srv conn => release_session u srv conn db
  | Call_update_heartbeat u => update_session_heartbeat now u db
  | Call_get_or_create_profile u => get_or_create_profile now u db
  | Call_find_profile u => (find_profile_by_username now u db, db)
  | Call_update_empire u e => update_profile_empire u e db
  | Call_list_summaries u => (list_player_summaries_for_user u db, db)
  | Call_list_runtime_states u => (list_player_runtime_states_for_user u db, db)
  | Call_find_summary u slot => (find_player_summary_by_slot u slot db, db)
  | Call_create_player u slot name class gender appearance => create_player u slot name class gender appearance db
  | Call_delete_player u slot code => delete_player_with_code now u slot code db
  | Call_find_stats_bootstrap id => (find_player_stats_bootstrap_by_id id db, db)
  | Call_find_runtime_state id => (find_player_runtime_state_by_player_id id db, db)
  end.

(** ** Events *)
Record ChannelEntry : Type := { ce_channel_id : Z; ce_port : Z; ce_ready : bool }.
Record SocketAddr : Type := { sa_ip : IpAddr; sa_port : Z }.

(** What [tokio::select!] woke up for. *)
Inductive Wake (p : GamePhase) : Type :=
| Wake_drain | Wake_tick | Wake_packet (r : Received (C2s p)) | Wake_map (event : option PlayerEvent).
Arguments Wake_drain {p}.
Arguments Wake_tick {p}.
Arguments Wake_packet {p} r.
Arguments Wake_map {p} event.

(** A request of the persistence worker that is answered, and what becomes of it. *)
Inductive PersistenceOp : Type :=
| Op_flush (snapshot : PlayerSnapshot)
| Op_exit (kind : PlayerExitKind) (username server_id connection_id : string) (snapshot : PlayerSnapshot).
Inductive Enqueued : Type := Queue_accepted | Queue_closed | Queue_timeout.
Inductive Reply : Type := Reply_result (r : PlayerPersistenceResult) | Reply_dropped | Reply_timeout.

Inductive SessionE : Type -> Type :=
(* [Instant::now()]; the seconds of [SystemTime::now()] since the epoch *)
| E_now : SessionE Z
| E_unix_secs : SessionE Z
(* the socket: [false] is an input/output error *)
| E_peer_ip : SessionE (option string)
| E_send_many (p : GamePhase) (packets : list (S2c p)) : SessionE bool
| E_recv (p : GamePhase) : SessionE (Received (C2s p))
(* [tokio::select!] over the drain signal, the heartbeat tick, the socket and,
    in the game, the events of the map *)
| E_select (p : GamePhase) (drain_enabled map_enabled : bool) : SessionE (Wake p)
| E_is_draining : SessionE bool
| E_db {A} (call : DbCall A) : SessionE (DbResult A)
| E_list_channels : SessionE (option (list ChannelEntry))
| E_resolve (channel_id : Z) (map_id : MapId) : SessionE (option SocketAddr)
| E_publish_shout (from_player_name : string) (from_empire : Empire) (message : string) : SessionE bool
(* the map's queue: [false] and [None] are errors *)
| E_reserve_net_id : SessionE (option EntityId)
| E_enter_player (msg : EnterMsg) : SessionE bool
| E_leave_and_snapshot (msg : LeaveMsg) : SessionE (option PlayerSnapshot)
| E_send_leave (msg : LeaveMsg) : SessionE bool
| E_capture (msg : LeaveMsg) : SessionE (option PlayerSnapshot)
| E_try_intent (msg : ClientIntentMsg) : SessionE bool
| E_try_recv : SessionE (option PlayerEvent)
(* the persistence worker's queue, with a deadline *)
| E_enqueue (op : PersistenceOp) (deadline : Z) : SessionE Enqueued
| E_await (op : PersistenceOp) (deadline : Z) : SessionE Reply
| E_panic : SessionE Empty_set.

(** ** Handlers *)
Record Timers : Type := { tm_handshake : HandshakeState; tm_session : SessionTracker }.
Definition Handler (X A : Type) : Type := Timers -> itree SessionE (result (A * Timers) X).
Definition h_ret {X A} (a : A) : Handler X A := fun t => Ret (Ok (a, t)).
Definition h_fail {X A} (e : X) : Handler X A := fun t => Ret (Err e).
Definition h_bind {X A B} (m : Handler X A) (k : A -> Handler X B) : Handler X B :=
  fun t => let* r := m t in match r with Ok (a, t') => k a t' | Err e => Ret (Err e) end.
Notation "'let^' x := m 'in' k" := (h_bind m (fun x => k))
  (at level 200, x pattern, m at level 100, k at level 200) : rust_scope.
Definition event {X A} (e : SessionE A) : Handler X A := fun t => let* a := ITree.trigger e in Ret (Ok (a, t)).
Definition h_modify {X A} (f : Timers -> A * Timers) : Handler X A := fun t => Ret (Ok (f t)).
Definition h_panic {X A} : Handler X A := let^ v := event E_panic in match v : Empty_set with end.
(** [?] on a call to the database *)
Definition db_call {A} (c : DbCall A) : Handler PhaseError A :=
  let^ r := event (E_db c) in match r with Ok a => h_ret a | Err _ => h_fail PE_Other end.
(** [loop] *)
Definition h_loop {X I R} (body : I -> Handler X (I + R)) (i : I) : Handler X R :=
  fun t => ITree.iter (fun '(i, t) =>
    let* r := body i t in
    match r with
    | Ok (inl j, t') => Ret (inl (j, t'))
    | Ok (inr r, t') => Ret (inr (Ok (r, t')))
    | Err e => Ret (inr (Err e))
    end) (i, t).

(** ** The clock messages of every phase after the handshake ([control.rs]) *)
Inductive ControlDecision (p : GamePhase) : Type := Handled (packets : list (S2c p)) | Reject (reason : string).
Arguments Handled {p} packets.
Arguments Reject {p} reason.
Definition handle_handshake (data : HandshakeSyncData) (now : Z) : Handler PhaseError HandshakeOutcome :=
  let^ r := h_modify (fun t =>
    let '(r, h) := handle (tm_handshake t) data now in (r, {| tm_handshake := h; tm_session := tm_session t |})) in
  match r with inl outcome => h_ret outcome | inr _ => h_fail PE_Other end.
Definition handle_session_control {p} (control : ControlC2s) (now : Z) : Handler PhaseError (ControlDecision p) :=
  match control with
  | HeartbeatResponse => h_ret (Handled [])
  | RequestTimeSync data =>
      let^ outcome := handle_handshake data now in
      h_ret (Handled match outcome with
                     | SendTimeSyncAck => [from_control p TimeSyncResponse]
                     | SendHandshakeSync data => [from_control p (RequestHandshake data)]
                     | CompletedInitial => []
                     end)
  | HandshakeResponse _ => h_ret (Reject "SyncReply is only valid during handshake")
  end.
(** The arms of [handle_packet] for a control packet. *)
Definition control_effects {p} (control : ControlC2s) (now : Z) : Handler PhaseError (PhaseEffects p) :=
  let^ decision := handle_session_control control now in
  h_ret match decision with Handled packets => fx_many packets | Reject reason => fx_close reason end.
Definition session_mark_rx {X} (now : Z) : Handler X unit :=
  h_modify (fun t => (tt, {| tm_handshake := tm_handshake t; tm_session := mark_rx (tm_session t) now |})).
Definition session_on_tick {X} (now : Z) : Handler X (option SessionTick) :=
  h_modify (fun t => (on_tick (tm_session t) now, t)).

(** ** The course of a phase ([apply_effects], [drive_*], [run_phase]) *)
Definition send_packets {p} (packets : list (S2c p)) : Handler PhaseError unit :=
  let^ ok := event (E_send_many p packets) in if ok : bool then h_ret tt else h_fail PE_Other.
Definition apply_effects {p} (fx : PhaseEffects p) : Handler PhaseError (option (Data p)) :=
  let^ _ := send_packets (fx_send fx) in
  match fx_disconnect fx with Some error => h_fail error | None => h_ret (fx_transition fx) end.
(** [conn.into_next_with_phase(data)] *)
Definition into_next_phase {p} (st : State p) (data : Data p) : Handler PhaseError (State (Next p)) :=
  let^ _ := send_packets [from_control p (SetClientPhase (PHASE_ID (Next p)))] in
  h_ret (transition_state LoadedPlayer p st data).

(** One turn of the loop; the clock is read before the wait. *)
Definition wait_effects {p} (drain_enabled : bool) (handle_tick : Z -> Handler PhaseError (PhaseEffects p))
    (handle_packet : C2s p -> Z -> Handler PhaseError (PhaseEffects p)) : Handler PhaseError (PhaseEffects p) :=
  let^ now := event E_now in
  let^ wake := event (E_select p drain_enabled false) in
  match wake with
  | Wake_drain => h_ret (fx_close "server draining")
  | Wake_tick => handle_tick now
  | Wake_packet (Received_packet packet) => handle_packet packet now
  | Wake_packet Received_closed => h_fail (disconnect "connection closed")
  | Wake_packet Received_truncated | Wake_packet (Received_error _) => h_fail PE_Other
  | Wake_map _ => h_ret fx_empty
  end.
Definition phase_loop {p} (drain_enabled : bool) (handle_tick : Z -> Handler PhaseError (PhaseEffects p))
    (handle_packet : C2s p -> Z -> Handler PhaseError (PhaseEffects p)) (st : State p) : Handler PhaseError (State (Next p)) :=
  h_loop (fun _ : unit =>
    let^ fx := wait_effects drain_enabled handle_tick handle_packet in
    let^ data := apply_effects fx in
    match data with
    | Some data => let^ next := into_next_phase st data in h_ret (inr next)
    | None => h_ret (inl tt)
    end) tt.
(** [state.drain.is_some_and(is_draining)] at the start of a phase *)
Definition reject_when_draining (drain_enabled : bool) : Handler PhaseError unit :=
  if drain_enabled then
    let^ draining := event E_is_draining in
    if draining : bool then h_fail (disconnect "server draining") else h_ret tt
  else h_ret tt.

(** The tick of the phases after the login: the heartbeat of the session row is
    renewed first, and an error of it is only logged. *)
Definition tick_with_heartbeat {p} (username : string) (beat : Z -> Timers -> list (S2c p)) (now : Z)
  : Handler PhaseError (PhaseEffects p) :=
  let^ tick := session_on_tick now in
  match tick with
  | Some SendHeartbeat =>
      let^ _ := event (E_db (Call_update_heartbeat username)) in
      let^ packets := h_modify (fun t => (beat now t, t)) in
      h_ret (fx_many packets)
  | Some TimedOut => h_ret (fx_close "heartbeat timeout")
  | None => h_ret fx_empty
  end.

Definition run_phase {A} (end_ : SessionEnd) (fut : Handler PhaseError A) : Handler SessionEnd A :=
  fun t => let* r := fut t in
  match r with
  | Ok a => Ret (Ok a)
  | Err (PE_Disconnect _ disposition) => Ret (Err (session_end_for_disconnect end_ disposition))
  | Err PE_Other => Ret (Err end_)
  end.

(** ** What all connections of a server share ([lib.rs]) *)
(** [Duration::as_secs() as i64] *)
Definition ttl_secs (d : Z) : Z := wrap_s 64 (d / 1000000000).
Record GameContext : Type := {
  gc_player_stats : PlayerStatRules; gc_token_signer : TokenSigner; gc_login_token_idle_ttl : Z; gc_coords : ContentCoords;
  gc_heartbeat_interval : Z; gc_server_id : string; gc_active_session_stale_threshold : Z; gc_channel_id : Z;
  gc_advertised_port : Z; gc_map_id : MapId }.
Record GatewayContext : Type := {
  gw_create_base_stats : PlayerCreateBaseStatTable; gw_empire_start_maps : EmpireStartMaps; gw_token_signer : TokenSigner;
  gw_login_token_idle_ttl : Z; gw_heartbeat_interval : Z; gw_channel_id : Z; gw_advertised_port : Z }.

(** * Draining ([zohar-gamesrv/src/drain.rs], [zohar-core/src/runtime/shutdown.rs]) *)
Module Drain.
(** [tokio::sync::watch] with a [bool]: its value, which a send does not change when
    there is no receiver, as its documentation says. *)
Class Watch : Type := {
  WatchTx : Type;
  watch_channel : bool -> WatchTx;
  watch_send : bool -> WatchTx -> WatchTx;
  watch_subscribe : WatchTx -> WatchTx;
  watch_unsubscribe : WatchTx -> WatchTx;
  watch_value : WatchTx -> bool;
  receivers : WatchTx -> nat }.
Class WatchLaws `{Watch} : Prop := {
  channel_new v : watch_value (watch_channel v) = v /\ receivers (watch_channel v) = 0%nat;
  send_heard v tx : receivers tx <> 0%nat -> watch_value (watch_send v tx) = v;
  send_unheard v tx : receivers tx = 0%nat -> watch_value (watch_send v tx) = watch_value tx;
  send_receivers v tx : receivers (watch_send v tx) = receivers tx;
  subscribe_value tx : watch_value (watch_subscribe tx) = watch_value tx;
  subscribe_receivers tx : receivers (watch_subscribe tx) = S (receivers tx);
  unsubscribe_value tx : watch_value (watch_unsubscribe tx) = watch_value tx;
  unsubscribe_receivers tx : receivers (watch_unsubscribe tx) = pred (receivers tx) }.

Section Controller.
Context `{Watch}.
Record Inner : Type := { draining : bool; active_connections : Z; drain_tx : WatchTx }.
(** [new] drops the receiver it is given. *)
Definition controller_new : Inner := {| draining := false; active_connections := 0; drain_tx := watch_channel false |}.
Definition set_drain_tx (i : Inner) (tx : WatchTx) : Inner :=
  {| draining := draining i; active_connections := active_connections i; drain_tx := tx |}.
(** The two steps of [begin_draining]: the swap, with whether a send follows, and the send. *)
Definition begin_swap (i : Inner) : bool * Inner :=
  (negb (draining i), {| draining := true; active_connections := active_connections i; drain_tx := drain_tx i |}).
Definition begin_send (i : Inner) : Inner := set_drain_tx i (watch_send true (drain_tx i)).
Definition begin_draining (i : Inner) : bool * Inner :=
  let '(first, i) := begin_swap i in if first then (true, begin_send i) else (false, i).
Definition subscribe (i : Inner) : Inner := set_drain_tx i (watch_subscribe (drain_tx i)).
(** The atomic counter wraps around. *)
Definition track_connection (i : Inner) : Inner :=
  {| draining := draining i; active_connections := wrap_u 64 (active_connections i + 1); drain_tx := drain_tx i |}.
Definition drop_guard (i : Inner) : Inner :=
  {| draining := draining i; active_connections := wrap_u 64 (active_connections i - 1); drain_tx := drain_tx i |}.

(** *** Any interleaving *)
(** The callers between the swap and the send, and the guards alive. *)
Record System : Type := { inner : Inner; sending : nat; guards : nat }.
Inductive DrainOp : Type := Op_begin | Op_send | Op_track | Op_drop | Op_subscribe | Op_unsubscribe.
Definition drain_step (op : DrainOp) (s : System) : option System :=
  match op with
  | Op_begin =>
      let '(first, i) := begin_swap (inner s) in
      Some {| inner := i; sending := if first then S (sending s) else sending s; guards := guards s |}
  | Op_send =>
      match sending s with
      | O => None
      | S n => Some {| inner := begin_send (inner s); sending := n; guards := guards s |}
      end
  | Op_track => Some {| inner := track_connection (inner s); sending := sending s; guards := S (guards s) |}
  | Op_drop =>
      match guards s with
      | O => None
      | S n => Some {| inner := drop_guard (inner s); sending := sending s; guards := n |}
      end
  | Op_subscribe => Some {| inner := subscribe (inner s); sending := sending s; guards := guards s |}
  | Op_unsubscribe =>
      match receivers (drain_tx (inner s)) with
      | O => None
      | S _ => Some {| inner := set_drain_tx (inner s) (watch_unsubscribe (drain_tx (inner s))); sending := sending s;
                       guards := guards s |}
      end
  end.
Fixpoint drain_run (ops : list DrainOp) (s : System) : option System :=
  match ops with [] => Some s | op :: ops => s ← drain_step op s; drain_run ops s end.
Definition drain_start : System := {| inner := controller_new; sending := 0; guards := 0 |}.
End Controller.

(** ** [poll_server_drain] *)
Record ShutdownDrainState : Type := { grace_period : Z; started_at : option Z; exit_requested : bool }.
(** With the clock, the flag and the counts it reads; whether it asks for the exit. *)
Definition poll_server_drain (now : Z) (draining : bool) (active_connections active_players : Z) (s : ShutdownDrainState)
  : ShutdownDrainState * bool :=
  if exit_requested s || negb draining then (s, false)
  else
    let started := default now (started_at s) in
    let elapsed := Z.max 0 (now - started) in
    let exit := ((active_connections =? 0) && (active_players =? 0)) || (grace_period s <=? elapsed) in
    ({| grace_period := grace_period s; started_at := Some started; exit_requested := exit |}, exit).
Record Poll : Type := { p_now : Z; p_draining : bool; p_connections : Z; p_players : Z }.
Fixpoint poll_all (polls : list Poll) (s : ShutdownDrainState) : list bool * ShutdownDrainState :=
  match polls with
  | [] => ([], s)
  | p :: polls =>
      let '(s, exit) := poll_server_drain (p_now p) (p_draining p) (p_connections p) (p_players p) s in
      let '(exits, s) := poll_all polls s in (exit :: exits, s)
  end.

Section Theorems.
Context `{WatchLaws}.
Lemma drain_run_app ops later s : drain_run (ops ++ later) s = s ← drain_run ops s; drain_run later s.
Proof. revert s. induction ops as [| op ops IH]; intros s; cbn; [done |]. destruct (drain_step op s); cbn; auto. Qed.

(** The guards are counted, the flag is never lowered, at most one send is under way,
    none before the flag is set, and the value is the flag's once sent. *)
Record drain_inv (s : System) : Prop := {
  di_counted : active_connections (inner s) = wrap_u 64 (Z.of_nat (guards s));
  di_sending : (sending s <= 1)%nat;
  di_flag : draining (inner s) = false -> sending s = 0%nat /\ watch_value (drain_tx (inner s)) = false }.
Lemma wrap_u64_add z d : wrap_u 64 (wrap_u 64 z + d) = wrap_u 64 (z + d).
Proof. unfold wrap_u. by rewrite Z.add_mod_idemp_l. Qed.
Lemma drain_step_inv op s s' : drain_inv s -> drain_step op s = Some s' -> drain_inv s'.
Proof.
  intros [C N F]. destruct op; cbn [drain_step begin_swap].
  - intros [= <-]. split; cbn [inner sending guards draining active_connections]; [exact C | | done].
    destruct (draining (inner s)) eqn:E; cbn; [lia |]. destruct (F eq_refl). lia.
  - destruct (sending s) as [| n] eqn:E; [done |]. intros [= <-]. split; cbn; [exact C | lia |]. intros D. by destruct (F D).
  - intros [= <-]. split; cbn; [| exact N | exact F]. rewrite C, wrap_u64_add. f_equal. lia.
  - destruct (guards s) as [| n] eqn:E; [done |]. intros [= <-]. split; cbn; [| exact N | exact F].
    rewrite C. replace (wrap_u 64 (Z.of_nat (S n)) - 1) with (wrap_u 64 (Z.of_nat (S n)) + -1) by lia.
    rewrite wrap_u64_add. f_equal. lia.
  - intros [= <-]. split; cbn; [exact C | exact N |]. intros D. rewrite subscribe_value. by apply F.
  - destruct (receivers _); [done |]. intros [= <-]. split; cbn; [exact C | exact N |]. intros D. rewrite unsubscribe_value. by apply F.
Qed.
Lemma drain_run_inv ops s s' : drain_inv s -> drain_run ops s = Some s' -> drain_inv s'.
Proof.
  revert s. induction ops as [| op ops IH]; intros s I; cbn; [by intros [= <-] |].
  destruct (drain_step op s) as [s1 |] eqn:E; [| done]. cbn. by apply IH, (drain_step_inv op s).
Qed.
Lemma drain_start_inv : drain_inv drain_start.
Proof. split; cbn; [done | lia |]. intros _. split; [done |]. by apply channel_new. Qed.

(** What has happened once draining began with nobody listening. *)
Definition unheard (s : System) : Prop := draining (inner s) = true /\ sending s = 0%nat /\ watch_value (drain_tx (inner s)) = false.
Lemma unheard_step op s s' : unheard s -> drain_step op s = Some s' -> unheard s'.
Proof.
  intros (D & N & V). destruct op; cbn [drain_step begin_swap].
  - intros [= <-]. unfold unheard. cbn. by rewrite D.
  - by rewrite N.
  - by intros [= <-].
  - destruct (guards s); [done |]. by intros [= <-].
  - intros [= <-]. unfold unheard. cbn. by rewrite subscribe_value.
  - destruct (receivers _); [done |]. intros [= <-]. unfold unheard. cbn. by rewrite unsubscribe_value.
Qed.
Lemma unheard_run ops s s' : unheard s -> drain_run ops s = Some s' -> unheard s'.
Proof.
  revert s. induction ops as [| op ops IH]; intros s I; cbn; [by intros [= <-] |].
  destruct (drain_step op s) as [s1 |] eqn:E; [| done]. cbn. by apply IH, (unheard_step op s).
Qed.

(** The controller in any interleaving of its callers: the connections are
    counted exactly, and the signal is given at most once and only to a server that
    drains; a signal given while a receiver exists is seen by it and by every later
    one. *)
Theorem drain_controller ops s : drain_run ops drain_start = Some s ->
  active_connections (inner s) = wrap_u 64 (Z.of_nat (guards s)) /\ (sending s <= 1)%nat /\
  (watch_value (drain_tx (inner s)) = true -> draining (inner s) = true) /\
  (forall later s', receivers (drain_tx (inner s)) <> 0%nat -> drain_run (Op_send :: later) s = Some s' ->
     watch_value (drain_tx (inner s')) = true).
Proof.
  intros E. destruct (drain_run_inv _ _ _ drain_start_inv E) as [C N F]. split_and!; [done.. | |].
  - intros V. destruct (draining (inner s)) eqn:D; [done |]. destruct (F eq_refl). congruence.
  - intros later s' R. cbn. destruct (sending s) as [| n] eqn:Es; [done |]. cbn.
    set (s1 := {| inner := _ |}). assert (watch_value (drain_tx (inner s1)) = true) as V by (cbn; by apply send_heard).
    assert (draining (inner s1) = true /\ sending s1 = 0%nat) as [D Z0].
    { split; cbn; [| lia]. destruct (draining (inner s)) eqn:D; [done |]. destruct (F eq_refl). lia. }
    revert V D Z0. generalize s1. clear - H0. induction later as [| op later IH]; intros t V D Z0; cbn; [by intros [= <-] |].
    destruct (drain_step op t) as [t1 |] eqn:E; [| done]. cbn.
    assert (watch_value (drain_tx (inner t1)) = true /\ draining (inner t1) = true /\ sending t1 = 0%nat) as (V1 & D1 & Z1).
    { destruct op; cbn [drain_step begin_swap] in E.
      - injection E as <-. cbn. by rewrite D.
      - by rewrite Z0 in E.
      - by injection E as <-.
      - destruct (guards t); [done |]. by injection E as <-.
      - injection E as <-. cbn. by rewrite subscribe_value.
      - destruct (receivers _); [done |]. injection E as <-. cbn. by rewrite unsubscribe_value. }
    by apply IH.
Qed.

(** Draining that begins while no session listens is never signalled: a session that
    saw the flag down and subscribes after it does not see the value change, in any
    continuation, and stays until the grace period is over. *)
Theorem drain_missed ops s later s' :
  drain_run ops drain_start = Some s -> draining (inner s) = false -> receivers (drain_tx (inner s)) = 0%nat ->
  drain_run (Op_begin :: Op_send :: later) s = Some s' ->
  draining (inner s') = true /\ watch_value (drain_tx (inner s')) = false.
Proof.
  intros E D R. destruct (drain_run_inv _ _ _ drain_start_inv E) as [_ _ F]. destruct (F D) as [Z0 V]. cbn. rewrite D, Z0. cbn.
  intros E'. apply unheard_run in E' as (? & _ & ?); [done |]. split; [done |]. split; [done |]. cbn. by rewrite send_unheard.
Qed.
End Theorems.

(** Polling ends a draining server: it asks for the exit at most once, never before
    the drain, before the grace period is over only when no connection and no player
    is left, and at the latest with the first poll after that period. *)
Lemma poll_all_done polls s : exit_requested s = true -> fst (poll_all polls s) = map (fun _ => false) polls.
Proof.
  intros E. revert s E. induction polls as [| p polls IH]; intros s E; cbn; [done |]. unfold poll_server_drain. rewrite E. cbn.
  specialize (IH s E). destruct (poll_all polls s). cbn in *. by rewrite IH.
Qed.
Theorem shutdown_polls before p after grace :
  let start := {| grace_period := grace; started_at := None; exit_requested := false |} in
  let '(exits, s) := poll_all before start in
  let '(s', exit) := poll_server_drain (p_now p) (p_draining p) (p_connections p) (p_players p) s in
  (exit = true -> p_draining p = true /\ ((p_connections p = 0 /\ p_players p = 0) \/
     exists t, started_at s' = Some t /\ grace <= Z.max 0 (p_now p - t))) /\
  (exit = true -> Forall (fun e => e = false) exits /\ fst (poll_all after s') = map (fun _ => false) after) /\
  (p_draining p = true -> forall t, started_at s = Some t -> grace <= p_now p - t -> 0 <= grace ->
     exit_requested s' = true).
Proof.
  intros start. assert (forall polls s0, grace_period s0 = grace ->
    grace_period (snd (poll_all polls s0)) = grace /\
    (exit_requested (snd (poll_all polls s0)) = false -> Forall (fun e => e = false) (fst (poll_all polls s0)))) as Run.
  { induction polls as [| q polls IH]; intros s0 G; [done |]. cbn [poll_all].
    destruct (poll_server_drain _ _ _ _ s0) as [s1 exit] eqn:E.
    assert (grace_period s1 = grace /\ (exit = true -> exit_requested s1 = true)) as [G1 X1].
    { unfold poll_server_drain in E. destruct (_ || _); injection E as <- <-; [done |]. cbn. by split. }
    specialize (IH s1 G1). destruct (poll_all polls s1) as [exits s2] eqn:Ep. cbn in *. destruct IH as [G2 X2]. split; [done |].
    intros X. constructor; [| by apply X2]. destruct exit; [| done]. exfalso.
    assert (exit_requested s2 = true) as X3; [| congruence].
    specialize (X1 eq_refl). revert Ep. clear - X1. revert exits. generalize polls. intros l. revert s1 X1.
    induction l as [| q l IH]; intros s1 X1 exits; cbn; [by intros [= _ <-] |]. unfold poll_server_drain. rewrite X1. cbn.
    destruct (poll_all l s1) as [es t] eqn:El. intros [= _ <-]. by eapply IH. }
  specialize (Run before start eq_refl). destruct (poll_all before start) as [exits s]. cbn in Run. destruct Run as [G X].
  destruct (poll_server_drain _ _ _ _ s) as [s' exit] eqn:E. unfold poll_server_drain in E.
  destruct (exit_requested s) eqn:Er; cbn [orb] in E; [injection E as <- <-; done |].
  destruct (p_draining p); cbn [negb] in E; [| injection E as <- <-; done]. injection E as <- <-. rewrite G. split_and!.
  - intros [[C%Z.eqb_eq P%Z.eqb_eq]%andb_true_iff | L%Z.leb_le]%orb_true_iff; split; try done; [by left |]. right. by eexists.
  - intros Ex. split; [by apply X |]. apply poll_all_done. exact Ex.
  - intros _ t Et L N. cbn. rewrite Et. cbn. apply orb_true_iff. right. apply Z.leb_le. lia.
Qed.

(** *** A drain nobody hears *)
#[local] Instance sample_watch : Watch :=
  {| WatchTx := bool * nat;
     watch_channel v := (v, 0%nat);
     watch_send v tx := match snd tx with O => tx | S n => (v, S n) end;
     watch_subscribe tx := (fst tx, S (snd tx));
     watch_unsubscribe tx := (fst tx, pred (snd tx));
     watch_value := fst; receivers := snd |}.
#[local] Instance sample_watch_laws : WatchLaws.
Proof. split; try done; intros v [b [| n]]; cbn; intros; congruence. Qed.
Lemma drain_missed_example : exists s,
  drain_run [Op_track; Op_begin; Op_send; Op_subscribe] drain_start = Some s /\
  draining (inner s) = true /\ watch_value (drain_tx (inner s)) = false /\ guards s = 1%nat.
Proof.
  destruct (drain_run [Op_track; Op_begin; Op_send; Op_subscribe] drain_start) as [s |] eqn:E; [| discriminate].
  destruct (drain_missed [Op_track] _ [Op_subscribe] s eq_refl eq_refl eq_refl E) as [D V].
  exists s. split_and!; [done.. |]. by injection E as <-.
Qed.
End Drain.
