(* ===== verification/Phases.v ===== *)
(** The phases before the game ([zohar-gamesrv/src/handlers/handshake.rs],
    [login.rs], [select.rs], [loading.rs]), as handlers over [Session.v].

    [try_join!] of two queries is one query after the other: both only read. *)
From ITree Require Import ITree.
From S2P Require Import Prelude BTree Domain Samples StatSource StatsApi Hydrate Float Space Entities Database Coords MapPort Text Wire Protocol GamePacket Layout Packets Adapters Codec Connection Token Handshake Persist Interact Session.

(** ** Handshake phase *)
Module HandshakePhase.
Definition set_handshake (t : Timers) (h : HandshakeState) : Timers := {| tm_handshake := h; tm_session := tm_session t |}.
Definition handle_enter : Handler PhaseError (PhaseEffects P_HandshakeGame) :=
  let^ now := event E_now in
  let^ data := h_modify (fun t => let '(h, data) := initial_sync_data (tm_handshake t) now in (data, set_handshake t h)) in
  h_ret (@fx_many P_HandshakeGame [Control (SetClientPhase (PHASE_ID P_HandshakeGame)); Control (RequestHandshake data)]).

Definition server_info (entry : ChannelEntry) : ServerInfo :=
  {| si_srv_port := ce_port entry; si_status := if ce_ready entry then OnlineBusy else Offline |}.
Definition channel_list (srv_port : Z) (has_directory : bool) : Handler PhaseError (list ServerInfo * bool) :=
  let own := [{| si_srv_port := srv_port; si_status := OnlineBusy |}] in
  if has_directory then
    let^ entries := event E_list_channels in
    h_ret match entries with Some entries => (server_info <$> entries, true) | None => (own, false) end
  else h_ret (own, true).

Definition handle_packet (srv_port : Z) (has_directory : bool) (packet : HandshakeGameC2s)
  : Handler PhaseError (PhaseEffects P_HandshakeGame) :=
  let^ now := event E_now in
  match packet with
  | Control (HandshakeResponse data) =>
      let^ outcome := handle_handshake data now in
      h_ret match outcome with
            | CompletedInitial => @fx_next P_HandshakeGame tt
            | SendHandshakeSync data => @fx_one P_HandshakeGame (Control (RequestHandshake data))
            | SendTimeSyncAck => fx_empty
            end
  | Control HeartbeatResponse => h_ret (fx_close "heartbeat not allowed during handshake")
  | Control (RequestTimeSync _) => h_ret (fx_close "time sync request not allowed during handshake")
  | Specific FetchChannelList =>
      let^ (statuses, is_ok) := channel_list srv_port has_directory in
      h_ret (@fx_one P_HandshakeGame (Specific (ChannelListResponse statuses (if is_ok : bool then 1 else 0))))
  end.

Definition recv_packet : Handler PhaseError HandshakeGameC2s :=
  let^ r := event (E_recv P_HandshakeGame) in
  match r with
  | Received_packet packet => h_ret packet
  | Received_closed => h_fail (disconnect "connection closed")
  | Received_truncated | Received_error _ => h_fail PE_Other
  end.
Definition drive_handshake (srv_port : Z) (has_directory : bool) : Handler PhaseError (State P_Login) :=
  let^ fx := handle_enter in
  let^ data := apply_effects fx in
  match data with
  | Some data => @into_next_phase P_HandshakeGame tt data
  | None =>
      h_loop (fun _ : unit =>
        let^ packet := recv_packet in
        let^ fx := handle_packet srv_port has_directory packet in
        let^ data := apply_effects fx in
        match data with
        | Some data => let^ next := @into_next_phase P_HandshakeGame tt data in h_ret (inr next)
        | None => h_ret (inl tt)
        end) tt
  end.
Definition run_handshake (advertised_port : Z) (has_directory : bool) : Handler SessionEnd (State P_Login) :=
  run_phase BeforeLogin (drive_handshake advertised_port has_directory).
End HandshakePhase.

(** ** Login phase *)
Module LoginPhase.
Section Login.
Variable hmac_sha256 : bytes -> bytes -> bytes.
Record TokenLoginInput : Type := { tl_username : string; tl_token : Z; tl_enc_key : bytes }.
Inductive PersistedCheckMode : Type :=
| ClaimActive (server_id connection_id : string) (stale_threshold_secs : Z)
| ValidateOnly.
Inductive AuthDecision : Type := Accepted (username : string) (empire : option Empire) | Rejected (reason : LoginFailReason).
Record LoginDeps : Type := {
  ld_token_signer : TokenSigner; ld_peer_ip : string; ld_idle_ttl_secs : Z; ld_mode : PersistedCheckMode }.

Definition try_persisted_login (deps : LoginDeps) (input : TokenLoginInput) : Handler PhaseError bool :=
  match ld_mode deps with
  | ClaimActive server_id connection_id stale_threshold_secs =>
      db_call (Call_resume (tl_username input) (tl_token input) server_id connection_id stale_threshold_secs
                 (ld_idle_ttl_secs deps) (ld_peer_ip deps))
  | ValidateOnly =>
      db_call (Call_validate_token (tl_username input) (tl_token input) (ld_idle_ttl_secs deps) (ld_peer_ip deps))
  end.
Definition try_totp_bootstrap (deps : LoginDeps) (input : TokenLoginInput) : Handler PhaseError bool :=
  let^ now_secs := event E_unix_secs in
  if verify hmac_sha256 (ld_token_signer deps) now_secs (bytes_of (tl_username input)) (tl_enc_key input) (tl_token input) then
    let^ _ := db_call (Call_set_login_token (tl_username input) (tl_token input)) in
    try_persisted_login deps input
  else h_ret false.
Definition authenticate_token_login (deps : LoginDeps) (input : TokenLoginInput) : Handler PhaseError AuthDecision :=
  let^ persisted := try_persisted_login deps input in
  let^ accepted := if persisted : bool then h_ret true else try_totp_bootstrap deps input in
  if accepted : bool then
    let^ profile := db_call (Call_get_or_create_profile (tl_username input)) in
    h_ret (if profile_is_banned profile then Rejected BlockedAccount
           else Accepted (tl_username input) (profile_empire profile))
  else h_ret (Rejected InvalidCredentials).

Definition handle_tick (now : Z) : Handler PhaseError (PhaseEffects P_Login) :=
  let^ tick := session_on_tick now in
  h_ret match tick with
        | Some SendHeartbeat => @fx_one P_Login (Control RequestHeartbeat)
        | Some TimedOut => fx_close "heartbeat timeout"
        | None => fx_empty
        end.
Definition handle_packet (deps : LoginDeps) (packet : LoginC2s) (now : Z) : Handler PhaseError (PhaseEffects P_Login) :=
  let^ _ := session_mark_rx now in
  match packet with
  | Control control => control_effects control now
  | Specific (RequestTokenLogin username token enc_key) =>
      let input := {| tl_username := decode_cstr username; tl_token := token; tl_enc_key := enc_key |} in
      let^ decision := authenticate_token_login deps input in
      h_ret match decision with
            | Accepted username empire =>
                @Build_PhaseEffects P_Login
                  match empire with Some e => [Specific (Login_SetAccountEmpire (to_wire e))] | None => [] end
                  (Some username) None
            | Rejected reason =>
                with_disconnect "invalid login key" (@fx_one P_Login (Specific (LoginResultFail reason)))
            end
  end.
Definition drive_login (deps : LoginDeps) (drain_enabled : bool) : Handler PhaseError (State P_Select) :=
  let^ _ := reject_when_draining drain_enabled in
  @phase_loop P_Login drain_enabled handle_tick (handle_packet deps) tt.

(** [None] of the peer address is the error that ends the session. *)
Definition run_login (deps_of : string -> LoginDeps) (drain_enabled : bool) : Handler SessionEnd (State P_Select) :=
  let^ peer_ip := event E_peer_ip in
  match peer_ip with
  | None => h_fail BeforeLogin
  | Some peer_ip => run_phase BeforeLogin (drive_login (deps_of peer_ip) drain_enabled)
  end.
Definition run_login_core (connection_id : string) (ctx : GameContext) : Handler SessionEnd (State P_Select) :=
  run_login (fun peer_ip =>
    {| ld_token_signer := gc_token_signer ctx; ld_peer_ip := peer_ip; ld_idle_ttl_secs := ttl_secs (gc_login_token_idle_ttl ctx);
       ld_mode := ClaimActive (gc_server_id ctx) connection_id (ttl_secs (gc_active_session_stale_threshold ctx)) |}) true.
Definition run_login_gateway (ctx : GatewayContext) : Handler SessionEnd (State P_Select) :=
  run_login (fun peer_ip =>
    {| ld_token_signer := gw_token_signer ctx; ld_peer_ip := peer_ip; ld_idle_ttl_secs := ttl_secs (gw_login_token_idle_ttl ctx);
       ld_mode := ValidateOnly |}) false.
End Login.
End LoginPhase.

(** ** Select phase *)
Module SelectPhase.
Inductive SelectRouting : Type := Routing_Core (coords : ContentCoords) | Routing_Gateway (empire_start_maps : EmpireStartMaps).
Inductive SelectMode : Type := CoreTransition | GatewayBrowseOnly.
Record SelectRuntime : Type := {
  sr_player_stats : PlayerSummaryStats; sr_routing : SelectRouting; sr_drain : bool; sr_channel_id : Z; sr_mode : SelectMode;
  sr_username : string }.
Definition stats_support_class (stats : PlayerSummaryStats) (class : PlayerClass) : bool :=
  match stats with
  | Stats_Rules rules => supports_class rules class
  | Stats_CreateBase base_stats => bool_decide (is_Some (create_table_get base_stats class))
  end.

(** Where a row of [player_runtime_state] says the player is. *)
Definition persisted_position (row : PlayerRuntimeStateRow) : option MapId * option spec_float * option spec_float :=
  (prr_map_key row, prr_local_x row, prr_local_y row).
Definition resolve_player_map_id (rt : SelectRuntime) (runtime_state : option PlayerRuntimeStateRow) (fallback_empire : Empire)
  : Handler PhaseError MapId :=
  match sr_routing rt with
  | Routing_Core coords =>
      match resolve_spawn_for_player coords (persisted_position <$> runtime_state) fallback_empire with
      | Some spawn => h_ret (rs_map_id spawn)
      | None => h_panic
      end
  | Routing_Gateway empire_start_maps =>
      h_ret match runtime_state ≫= prr_map_key with
            | Some (String _ _ as map_key) => map_key
            | _ => map_id_for_empire empire_start_maps fallback_empire
            end
  end.
(** [.ok().flatten().and_then(|profile| profile.empire)] *)
Definition profile_empire_of (username : string) : Handler PhaseError (option Empire) :=
  let^ profile := event (E_db (Call_find_profile username)) in
  h_ret match profile with Ok (Some profile) => profile_empire profile | _ => None end.
(** [None] is any of its errors: the callers only log them. *)
Definition resolve_player_endpoint (rt : SelectRuntime) (runtime_state : option PlayerRuntimeStateRow)
  : Handler PhaseError (option WireServerAddr) :=
  let^ empire := profile_empire_of (sr_username rt) in
  let^ map_id := resolve_player_map_id rt runtime_state (default Empire_Red empire) in
  let^ endpoint := event (E_resolve (sr_channel_id rt) map_id) in
  h_ret (endpoint ← endpoint; from_socket_addr (sa_ip endpoint) (sa_port endpoint)).

Definition runtime_by_player_id (runtime_states : list PlayerRuntimeStateRow) : gmap PlayerId PlayerRuntimeStateRow :=
  fold_left (fun m r => <[prr_player_id r := r]> m) runtime_states ∅.
Fixpoint build_slots (rt : SelectRuntime) (db_players : list PlayerSummaryRow) (runtime : gmap PlayerId PlayerRuntimeStateRow)
    (slots : list Z) : Handler PhaseError (list Player) :=
  match slots with
  | [] => h_ret []
  | slot :: slots =>
      let^ player :=
        match List.find (fun p => psr_slot p =? slot) db_players with
        | None => h_ret Player_empty
        | Some db_player =>
            let^ endpoint := resolve_player_endpoint rt (runtime !! psr_id db_player) in
            h_ret (to_protocol_player (to_domain_with_stats db_player (sr_player_stats rt)) (default UNROUTABLE endpoint))
        end in
      let^ players := build_slots rt db_players runtime slots in
      h_ret (player :: players)
  end.
Definition build_players_pkt (rt : SelectRuntime) (db_players : list PlayerSummaryRow)
    (runtime_states : list PlayerRuntimeStateRow) : Handler PhaseError SelectS2c :=
  let^ players := build_slots rt db_players (runtime_by_player_id runtime_states) [0; 1; 2; 3] in
  h_ret (Specific (SetPlayerChoices players (repeat 0 4) (repeat (FixedString_default GUILD_NAME_MAX_LENGTH) MAX_PLAYER_SLOTS))).

Definition handle_enter (rt : SelectRuntime) : Handler PhaseError (PhaseEffects P_Select) :=
  let^ players := db_call (Call_list_summaries (sr_username rt)) in
  let^ runtime_states := db_call (Call_list_runtime_states (sr_username rt)) in
  let^ packet := build_players_pkt rt players runtime_states in
  h_ret (@fx_one P_Select packet).
Definition handle_tick (rt : SelectRuntime) : Z -> Handler PhaseError (PhaseEffects P_Select) :=
  @tick_with_heartbeat P_Select (sr_username rt) (fun _ _ => [Control RequestHeartbeat]).

Definition specific (p : SelectS2cSpecific) : PhaseEffects P_Select := @fx_one P_Select (Specific p).
Definition create_failed (e : CreatePlayerError) : PhaseEffects P_Select := specific (CreatePlayerResultFail e).
Definition valid_name_len (name : string) : bool := (2 <=? String.length name)%nat && (String.length name <=? 16)%nat.
Definition handle_create (rt : SelectRuntime) (slot : PlayerSelectSlot) (name : bytes) (class_gender : PlayerClassGendered)
    (appearance : WirePlayerBaseAppearance) : Handler PhaseError (PhaseEffects P_Select) :=
  let name := decode_cstr name in
  let slot_index := repr_u8 slot in
  let '(class, gender) := (to_domain class_gender : PlayerClass * PlayerGender) in
  if negb (valid_name_len name) then h_ret (create_failed GenericFailure)
  else if 4 <=? slot_index then h_ret (create_failed GenericFailure)
  else if negb (stats_support_class (sr_player_stats rt) class) then h_ret (create_failed GenericFailure)
  else
    let^ outcome := db_call (Call_create_player (sr_username rt) slot_index name class gender (to_domain appearance)) in
    match outcome with
    | Created player =>
        match try_from_u8 slot_index with
        | None => h_ret (fx_close "invalid player slot from create outcome")
        | Some slot =>
            let^ endpoint := resolve_player_endpoint rt None in
            h_ret (specific (CreatePlayerResultOk slot
              (to_protocol_player (to_domain_with_stats player (sr_player_stats rt)) (default UNROUTABLE endpoint))))
        end
    | NameTaken => h_ret (create_failed NameAlreadyExists)
    end.
Definition handle_delete (rt : SelectRuntime) (slot : PlayerSelectSlot) (code : bytes) : Handler PhaseError (PhaseEffects P_Select) :=
  let slot_index := repr_u8 slot in
  if 4 <=? slot_index then h_ret (specific DeletePlayerResultFail)
  else
    let^ deleted := db_call (Call_delete_player (sr_username rt) slot_index (decode_cstr code)) in
    h_ret (if deleted : bool then
             match try_from_u8 slot_index with
             | None => fx_close "invalid player slot from delete outcome"
             | Some slot => specific (DeletePlayerResultOk slot)
             end
           else specific DeletePlayerResultFail).
Definition handle_choice (rt : SelectRuntime) (slot : PlayerSelectSlot) : Handler PhaseError (PhaseEffects P_Select) :=
  match sr_mode rt with
  | GatewayBrowseOnly => h_ret (fx_close "submit player choice is only supported in core mode")
  | CoreTransition =>
      let^ player := db_call (Call_find_summary (sr_username rt) (repr_u8 slot)) in
      h_ret match player with
            | Some player => @fx_next P_Select {| sp_player_id := psr_id player; sp_player_name := psr_name player |}
            | None => fx_empty
            end
  end.
Definition handle_packet (rt : SelectRuntime) (packet : SelectC2s) (now : Z) : Handler PhaseError (PhaseEffects P_Select) :=
  let^ _ := session_mark_rx now in
  match packet with
  | Control control => control_effects control now
  | Specific (SubmitEmpireChoice empire) =>
      let empire := (to_domain empire : Empire) in
      let^ _ := db_call (Call_update_empire (sr_username rt) empire) in
      h_ret (specific (SetAccountEmpire (to_wire empire)))
  | Specific (RequestCreatePlayer slot name class_gender _ appearance _) => handle_create rt slot name class_gender appearance
  | Specific (RequestDeletePlayer slot code _) => handle_delete rt slot code
  | Specific (SubmitPlayerChoice slot) => handle_choice rt slot
  end.

Definition drive_select (rt : SelectRuntime) (st : State P_Select) : Handler PhaseError (State P_Loading) :=
  let^ _ := reject_when_draining (sr_drain rt) in
  let^ fx := handle_enter rt in
  let^ data := apply_effects fx in
  match data with
  | Some data => into_next_phase st data
  | None => @phase_loop P_Select (sr_drain rt) (handle_tick rt) (handle_packet rt) st
  end.
Definition run_select_core (ctx : GameContext) (st : State P_Select) : Handler SessionEnd (State P_Loading) :=
  let rt := {| sr_player_stats := Stats_Rules (gc_player_stats ctx); sr_routing := Routing_Core (gc_coords ctx); sr_drain := true;
               sr_channel_id := gc_channel_id ctx; sr_mode := CoreTransition; sr_username := select_username st |} in
  run_phase (AfterLogin (select_username st) Release) (drive_select rt st).
Definition run_select_gateway (ctx : GatewayContext) (st : State P_Select) : Handler SessionEnd Empty_set :=
  let rt := {| sr_player_stats := Stats_CreateBase (gw_create_base_stats ctx);
               sr_routing := Routing_Gateway (gw_empire_start_maps ctx); sr_drain := false;
               sr_channel_id := gw_channel_id ctx; sr_mode := GatewayBrowseOnly; sr_username := select_username st |} in
  let^ _ := run_phase (AfterLogin (select_username st) Release) (drive_select rt st) in
  h_fail (AfterLogin (select_username st) Release).
End SelectPhase.

(** ** Loading phase *)
Module LoadingPhase.
Section Loading.
Context `{GrowthRng}.
Definition DEAD_RECONNECT_HP : Z := 1.
Definition normalize_loaded_hp (current_hp : option Z) : option Z :=
  (fun hp => if hp <=? 0 then DEAD_RECONNECT_HP else hp) <$> current_hp.
Definition gameplay_bootstrap_from_row (player : PlayerStatsBootstrapRow) : PlayerGameplayBootstrap :=
  let a := pbr_core_stat_allocations player in
  {| pgb_player_id := pbr_id player; pgb_class := pbr_class player; pgb_level := pbr_level player;
     pgb_exp_in_level := pbr_exp_in_level player;
     pgb_core_stat_allocations :=
       {| allocated_str := row_allocated_str a; allocated_vit := row_allocated_vit a;
          allocated_dex := row_allocated_dex a; allocated_int := row_allocated_int a |};
     pgb_stat_reset_count := pbr_stat_reset_count player; pgb_current_hp := normalize_loaded_hp (pbr_current_hp player);
     pgb_current_sp := pbr_current_sp player; pgb_current_stamina := pbr_current_stamina player |}.
Record PreparedLoadingStats : Type := { pls_gameplay : PlayerGameplayBootstrap; pls_packet_points : WireStatSnapshot }.
(** [None] outside is a panic. *)
Definition prepare_loading_stats (ctx : GameContext) (player : PlayerStatsBootstrapRow) : option (option PreparedLoadingStats) :=
  let gameplay := gameplay_bootstrap_from_row player in
  option_map (option_map (fun hydrated =>
    {| pls_gameplay := gameplay; pls_packet_points := to_wire (bs_stat_snapshot (hyd_bootstrap_sync hydrated)) |}))
    (hydrate_player (gc_player_stats ctx) gameplay).

Definition handle_enter (ctx : GameContext) (entry : LoadedPlayer) (initial_stats : WireStatSnapshot)
  : Handler PhaseError (PhaseEffects P_Loading) :=
  match local_to_world (gc_coords ctx) (lp_map_id entry) (lp_initial_pos entry) with
  | None => h_panic
  | Some spawn_pos =>
      let profile := lp_visual_profile entry in
      h_ret (@fx_many P_Loading
        [Loading_Specific (SetMainCharacter (lp_net_id entry) (to_wire (pgb_class (lp_gameplay entry), pvp_gender profile))
           (FixedString_new PLAYER_NAME_MAX_LENGTH (bytes_of (pvp_name profile))) (to_protocol spawn_pos)
           (to_wire (pvp_empire profile)) (to_wire (None : option SkillBranch)));
         Loading_Stats (SetMainCharacterStats initial_stats)])
  end.
Definition handle_tick (username : string) : Z -> Handler PhaseError (PhaseEffects P_Loading) :=
  @tick_with_heartbeat P_Loading username (fun _ _ => [Loading_Control RequestHeartbeat]).
Definition handle_packet (entry : LoadedPlayer) (packet : LoadingC2s) (now : Z) : Handler PhaseError (PhaseEffects P_Loading) :=
  let^ _ := session_mark_rx now in
  match packet with
  | Control control => control_effects control now
  | Specific (SubmitClientVersion _ _) => h_ret fx_empty
  | Specific SignalLoadingComplete => h_ret (@fx_next P_Loading entry)
  end.
Definition drive_loading (ctx : GameContext) (entry : LoadedPlayer) (initial_stats : WireStatSnapshot) (st : State P_Loading)
  : Handler PhaseError (State P_InGame) :=
  let^ _ := reject_when_draining true in
  let^ fx := handle_enter ctx entry initial_stats in
  let^ data := apply_effects fx in
  match data with
  | Some data => into_next_phase st data
  | None => @phase_loop P_Loading true (handle_tick (loading_username st)) (handle_packet entry) st
  end.

(** A query before the phase starts: its error ends the session. *)
Definition or_end {A} (end_ : SessionEnd) (c : DbCall A) : Handler SessionEnd A :=
  let^ r := event (E_db c) in match r with Ok a => h_ret a | Err _ => h_fail end_ end.
Definition load_entry (ctx : GameContext) (st : State P_Loading) : Handler SessionEnd (LoadedPlayer * WireStatSnapshot) :=
  let end_ := AfterLogin (loading_username st) Release in
  let player_id := loading_player_id st in
  let^ player := or_end end_ (Call_find_stats_bootstrap player_id) in
  let^ runtime_state := or_end end_ (Call_find_runtime_state player_id) in
  match player with
  | None => h_fail end_
  | Some player =>
      let^ profile := event (E_db (Call_find_profile (loading_username st))) in
      match (match profile with Ok (Some profile) => profile_empire profile | _ => None end) with
      | None => h_panic
      | Some player_empire =>
          match resolve_spawn_for_player (gc_coords ctx) (SelectPhase.persisted_position <$> runtime_state) player_empire with
          | None => h_panic
          | Some resolved_spawn =>
              let^ entity_id := event E_reserve_net_id in
              match entity_id with
              | None => h_fail end_
              | Some entity_id =>
                  match prepare_loading_stats ctx player with
                  | None => h_panic
                  | Some None => h_fail end_
                  | Some (Some prepared) =>
                      h_ret ({| lp_net_id := to_wire entity_id; lp_map_id := rs_map_id resolved_spawn;
                                lp_runtime_epoch := default 0 (prr_runtime_epoch <$> runtime_state);
                                lp_playtime := from_secs_i64 (pbr_playtime_secs player);
                                lp_initial_pos := rs_local_pos resolved_spawn;
                                lp_visual_profile :=
                                  {| pvp_name := loading_player_name st; pvp_gender := pbr_gender player;
                                     pvp_empire := player_empire;
                                     pvp_body_part := repr_u8 (to_wire (pbr_appearance player) : WirePlayerBaseAppearance);
                                     pvp_guild_id := 0 |};
                                lp_gameplay := pls_gameplay prepared |}, pls_packet_points prepared)
                  end
              end
          end
      end
  end.
Definition run_loading (ctx : GameContext) (st : State P_Loading) : Handler SessionEnd (State P_InGame) :=
  let end_ := AfterLogin (loading_username st) Release in
  let^ draining := event E_is_draining in
  if draining : bool then h_fail end_
  else
    let^ (entry, initial_stats) := load_entry ctx st in
    run_phase end_ (drive_loading ctx entry initial_stats st).
End Loading.
End LoadingPhase.
