(* ===== verification/InGameSession.v ===== *)
(** The game phase of a session ([zohar-gamesrv/src/handlers/ingame.rs] and
    [ingame/*.rs]): packets of the client and events of the map, slash commands,
    relocation to another server, entering the map and leaving it. *)
From ITree Require Import ITree.
From S2P Require Import Prelude BTree Domain StatSource Samples StatsApi Hydrate Float Wire Protocol GamePacket Codec.
From S2P Require Import Connection Token Handshake Space Entities Database Persist Text Coords MapPort Layout Packets.
From S2P Require Import Adapters Encode Commands Interact Session Phases.

Notation Fx := (PhaseEffects P_InGame).
Definition fx_send1 (packet : InGameS2c) : Fx := @fx_one P_InGame packet.
Definition SERVER_DRAIN_GRACE_PERIOD : Z := 20 * 1000000000.

Record InGameCtx : Type := {
  ig_ctx : GameContext; ig_username : string; ig_connection_id : string; ig_player_name : string; ig_player_id : PlayerId;
  ig_player_net_id : EntityId; ig_map_id : MapId; ig_player_empire : Empire }.

(** ** Requests of the persistence worker *)
Definition PLAYER_PERSISTENCE_TIMEOUT : Z := 3 * 1000000000.
Inductive PersistError : Type := Enqueue_failed | Enqueue_timed_out | Op_failed (error : string) | Reply_channel_dropped | Op_timed_out.
Definition player_persistence_timeout : itree SessionE Z :=
  let* draining := ITree.trigger E_is_draining in
  Ret (if draining : bool then SERVER_DRAIN_GRACE_PERIOD else PLAYER_PERSISTENCE_TIMEOUT).
Definition await_persistence_result (op : PersistenceOp) (deadline : Z) : itree SessionE (result unit PersistError) :=
  let* reply := ITree.trigger (E_await op deadline) in
  Ret match reply with
      | Reply_result (Ok _) => Ok tt
      | Reply_result (Err error) => Err (Op_failed error)
      | Reply_dropped => Err Reply_channel_dropped
      | Reply_timeout => Err Op_timed_out
      end.
Definition run_persistence_op (op : PersistenceOp) (timeout : Z) : itree SessionE (result unit PersistError) :=
  let* now := ITree.trigger E_now in
  let deadline := now + timeout in
  let* queued := ITree.trigger (E_enqueue op deadline) in
  match queued with
  | Queue_accepted => await_persistence_result op deadline
  | Queue_closed => Ret (Err Enqueue_failed)
  | Queue_timeout => Ret (Err Enqueue_timed_out)
  end.
Definition flush_player_state (snapshot : PlayerSnapshot) : itree SessionE (result unit PersistError) :=
  let* timeout := player_persistence_timeout in
  run_persistence_op (Op_flush snapshot) timeout.
Definition commit_exit (ctx : GameContext) (kind : PlayerExitKind) (username connection_id : string) (snapshot : PlayerSnapshot)
  : itree SessionE (result unit PersistError) :=
  let* timeout := player_persistence_timeout in
  run_persistence_op (Op_exit kind username (gc_server_id ctx) connection_id snapshot) timeout.

(** A computation that does not fail and leaves the timers alone. *)
Definition lift {X A} (m : itree SessionE A) : Handler X A := fun t => let* a := m in Ret (Ok (a, t)).

(** ** Messages to the player *)
Definition chat_message (kind : ChatKind) (message : bytes) : Fx := fx_send1 (S2c_Chat (NotifyChatMessage kind None None message)).
Definition info_feedback (message : list char) : Fx := chat_message ChatKind_Info (info_message message).
Definition prefixed_info_feedback (command_name message : list char) : Fx :=
  info_feedback (prefixed_message command_name message).
Definition relocation_info_feedback (prefix message : string) : Fx :=
  chat_message ChatKind_Info (bytes_of ("[" ++ prefix ++ "] " ++ message)%string ++ [0]).

(** ** Relocation ([relocation.rs]) *)
Inductive RelocationError : Type :=
| UnknownWorldDestination | LocalDestinationOutOfBounds | UnknownMapCode | AmbiguousTownSpawn | RoutingUnavailable
| NonIpv4Endpoint | CommitFailed.
Definition RelocationError_text (e : RelocationError) : string :=
  match e with
  | UnknownWorldDestination => "Target does not map to a known position in current content."
  | LocalDestinationOutOfBounds => "Target is outside the current map bounds."
  | UnknownMapCode => "Unknown map code."
  | AmbiguousTownSpawn => "Target does not have a unique town spawn for routing."
  | RoutingUnavailable => "Map routing is unavailable for that destination."
  | NonIpv4Endpoint => "Map routing returned a non-IPv4 endpoint."
  | CommitFailed => "Relocation failed. Please try again."
  end.
Record ResolvedRelocation : Type := { rr_map_id : MapId; rr_local_pos : LocalPos }.

Section Relocation.
(** The order in which the coordinate maps are iterated. *)
Variables (map_order : list MapId) (town_order : list (MapId * Empire)).

Definition resolve_world_relocation (state : InGameCtx) (world_pos : WorldPos) : result ResolvedRelocation RelocationError :=
  match resolve_world_destination map_order (gc_coords (ig_ctx state)) world_pos with
  | None => Err UnknownWorldDestination
  | Some (map_id, local_pos) => Ok {| rr_map_id := map_id; rr_local_pos := local_pos |}
  end.
Definition resolve_local_relocation (state : InGameCtx) (local_pos : LocalPos) : result ResolvedRelocation RelocationError :=
  match local_to_world (gc_coords (ig_ctx state)) (ig_map_id state) local_pos with
  | None => Err LocalDestinationOutOfBounds
  | Some _ => Ok {| rr_map_id := ig_map_id state; rr_local_pos := local_pos |}
  end.
Definition resolve_map_id_relocation (state : InGameCtx) (map_id : MapId) : result ResolvedRelocation RelocationError :=
  if negb (is_valid_map (gc_coords (ig_ctx state)) map_id) then Err UnknownMapCode
  else match resolve_town_spawn town_order (gc_coords (ig_ctx state)) map_id (ig_player_empire state) with
       | None => Err AmbiguousTownSpawn
       | Some local_pos => Ok {| rr_map_id := map_id; rr_local_pos := local_pos |}
       end.
Definition resolve_town_relocation (state : InGameCtx) : ResolvedRelocation :=
  let spawn := resolve_town_restart town_order (gc_coords (ig_ctx state)) (ig_map_id state) (ig_player_empire state) in
  {| rr_map_id := rs_map_id spawn; rr_local_pos := rs_local_pos spawn |}.

Definition leave_msg (state : InGameCtx) : LeaveMsg :=
  {| lm_player_id := ig_player_id state; lm_player_net_id := ig_player_net_id state |}.
Definition dispatch_handoff (state : InGameCtx) (relocation : ResolvedRelocation)
  : itree SessionE (result Fx RelocationError) :=
  let* endpoint := ITree.trigger (E_resolve (gc_channel_id (ig_ctx state)) (rr_map_id relocation)) in
  match endpoint with
  | None => Ret (Err RoutingUnavailable)
  | Some endpoint =>
      match from_socket_addr (sa_ip endpoint) (sa_port endpoint) with
      | None => Ret (Err NonIpv4Endpoint)
      | Some destination_addr =>
          let* snapshot := ITree.trigger (E_capture (leave_msg state)) in
          match snapshot with
          | None => Ret (Err CommitFailed)
          | Some snapshot =>
              let snapshot := with_runtime_location snapshot (rr_map_id relocation) (rr_local_pos relocation) in
              let* committed := commit_exit (ig_ctx state) Exit_Handoff (ig_username state) (ig_connection_id state) snapshot in
              Ret match committed with
                  | Err _ => Err CommitFailed
                  | Ok _ => Ok (with_handoff_disconnect "relocation handoff" (fx_send1 (S2c_System (InitServerHandoff destination_addr))))
                  end
          end
      end
  end.
(** [dispatch_handoff(..).await.unwrap_or_else(feedback)] *)
Definition handoff_or (state : InGameCtx) (feedback : RelocationError -> Fx) (r : result ResolvedRelocation RelocationError)
  : itree SessionE Fx :=
  match r with
  | Err error => Ret (feedback error)
  | Ok relocation =>
      let* fx := dispatch_handoff state relocation in
      Ret match fx with Ok fx => fx | Err error => feedback error end
  end.
Definition portal_info_feedback (message : string) : Fx := relocation_info_feedback "Portal" message.
Definition handle_portal_entry (state : InGameCtx) (destination : PortalDestination) : itree SessionE Fx :=
  match destination with
  | Dest_MapTransfer world_pos =>
      handoff_or state (fun e => portal_info_feedback (RelocationError_text e)) (resolve_world_relocation state world_pos)
  | Dest_LocalReposition _ => Ret (portal_info_feedback "Portal is not supported yet.")
  end.
Definition handle_restart_town (state : InGameCtx) : itree SessionE Fx :=
  handoff_or state (fun e => relocation_info_feedback "restart_town" (RelocationError_text e)) (Ok (resolve_town_relocation state)).

(** ** Commands ([chat/command/*.rs]) *)
Definition intent_msg (state : InGameCtx) (intent : ClientIntent) : ClientIntentMsg :=
  {| cim_player_id := ig_player_id state; cim_intent := intent |}.
Definition try_send_client_intent (state : InGameCtx) (intent : ClientIntent) (command_name : string) : itree SessionE Fx :=
  let* ok := ITree.trigger (E_try_intent (intent_msg state intent)) in
  Ret (if ok : bool then fx_empty else prefixed_info_feedback (str command_name) (str "Server is busy. Please try again.")).

Definition execute_session (c : SessionCommand) : Fx :=
  match c with
  | PhaseSelect => @fx_next P_InGame tt
  | Logout =>
      with_disconnect "client requested logout"
        (chat_message ChatKind_Info (bytes_of "Back to login window. Please wait." ++ [0]))
  | Quit => with_disconnect "client requested quit" (chat_message ChatKind_Command (bytes_of "quit" ++ [0]))
  end.
Definition execute_preferences (state : InGameCtx) (c : PreferencesCommand) : itree SessionE Fx :=
  let '(animation, command_name) :=
    match c with SetWalkMode => (Walk, "set_walk_mode"%string) | SetRunMode => (Run, "set_run_mode"%string) end in
  try_send_client_intent state (Intent_SetMovementAnimation animation) command_name.
Definition execute_restart (state : InGameCtx) (c : RestartCommand) : itree SessionE Fx :=
  let '(intent, command_name) :=
    match c with RestartCmd_Here => (Restart_Here, "restart_here"%string) | RestartCmd_Town => (Restart_Town, "restart_town"%string) end in
  try_send_client_intent state (Intent_Restart intent) command_name.
Definition core_stat_intent (stat : CoreStatKind) (delta : Z) : ClientIntent := Intent_Progression (Progression_CoreStat stat delta).
Definition execute_stats (state : InGameCtx) (c : StatsCommand) : itree SessionE Fx :=
  let '(intent, command_name) :=
    match c with
    | StatsCmd_Increase stat => (core_stat_intent stat 1, "stat"%string)
    | StatsCmd_Decrease stat => (core_stat_intent stat (-1), "stat-"%string)
    end in
  try_send_client_intent state intent command_name.

Inductive TeleportCommandError : Type := InvalidGotoUsage | NonFiniteCoords | Relocation (e : RelocationError).
Definition TeleportCommandError_text (e : TeleportCommandError) : string :=
  match e with
  | InvalidGotoUsage => "Expected `/goto <LOCAL_X_M> <LOCAL_Y_M>` or `/goto <MAP_CODE>`."
  | NonFiniteCoords => "Coordinates must be finite numbers."
  | Relocation e => RelocationError_text e
  end.
Inductive GotoTarget : Type := LocalCoords (x y : spec_float) | GotoMapId (map_id : MapId).
Definition parse_goto_target (target : string) (y : option string) : result GotoTarget TeleportCommandError :=
  match y with
  | Some y =>
      match parse_f32 target, parse_f32 y with
      | Some x, Some y => Ok (LocalCoords x y)
      | _, _ => Err InvalidGotoUsage
      end
  | None => Ok (GotoMapId target)
  end.
Definition map_relocation {A} (r : result A RelocationError) : result A TeleportCommandError :=
  match r with Ok a => Ok a | Err e => Err (Relocation e) end.
Definition resolve_local_goto_destination (state : InGameCtx) (x y : spec_float) : result ResolvedRelocation TeleportCommandError :=
  if negb (f_is_finite x) || negb (f_is_finite y) then Err NonFiniteCoords
  else map_relocation (resolve_local_relocation state {| pos_x := x; pos_y := y |}).
Definition resolve_goto_relocation (state : InGameCtx) (target : GotoTarget) : result ResolvedRelocation TeleportCommandError :=
  match target with
  | LocalCoords x y => resolve_local_goto_destination state x y
  | GotoMapId map_id => map_relocation (resolve_map_id_relocation state map_id)
  end.
Definition teleport_relocation (state : InGameCtx) (c : TeleportCommand) : result ResolvedRelocation TeleportCommandError :=
  match c with
  | Warp x y =>
      if negb (f_is_finite x) || negb (f_is_finite y) then Err NonFiniteCoords
      else map_relocation (resolve_world_relocation state {| world_x := x; world_y := y |})
  | Goto target y => let? target := parse_goto_target target y in resolve_goto_relocation state target
  end.
Definition execute_teleport (state : InGameCtx) (c : TeleportCommand) : itree SessionE Fx :=
  let command_name := match c with Warp _ _ => "warp"%string | Goto _ _ => "goto"%string end in
  let finish e := prefixed_info_feedback (str command_name) (str (TeleportCommandError_text e)) in
  match teleport_relocation state c with
  | Err error => Ret (finish error)
  | Ok relocation =>
      let* fx := dispatch_handoff state relocation in
      Ret match fx with Ok fx => fx | Err error => finish (Relocation error) end
  end.
Definition execute (state : InGameCtx) (command : ParsedCommand) : itree SessionE Fx :=
  match command with
  | Cmd_Known (Cmd_Session c) => Ret (execute_session c)
  | Cmd_Known (Cmd_Preferences c) => execute_preferences state c
  | Cmd_Known (Cmd_Restart c) => execute_restart state c
  | Cmd_Known (Cmd_Stats c) => execute_stats state c
  | Cmd_Known (Cmd_Teleport c) => execute_teleport state c
  | Cmd_Feedback message => Ret (info_feedback message)
  | Cmd_Unknown spelled raw_full =>
      Ret (prefixed_info_feedback spelled (str "Unimplemented command: `" ++ raw_full ++ str "`."))
  end.

(** ** Packets of the client ([chat.rs], [combat.rs], [movement.rs]) *)
Variable clap : Clap.
Definition send_intent (state : InGameCtx) (intent : ClientIntent) : itree SessionE Fx :=
  let* _ := ITree.trigger (E_try_intent (intent_msg state intent)) in Ret fx_empty.
Definition handle_chat_packet (state : InGameCtx) (packet : ChatC2s) : itree SessionE Fx :=
  let '(SubmitChatMessage kind message) := packet in
  let text := decode_cstr message in
  match parse clap (trim (chars text)) with
  | Some cmd => execute state cmd
  | None =>
      match kind with
      | ChatKind_Shout =>
          let* _ := ITree.trigger (E_publish_shout (ig_player_name state) (ig_player_empire state) text) in Ret fx_empty
      | _ => send_intent state (Intent_Chat {| ci_channel := to_domain kind; ci_message := message |})
      end
  end.
Definition handle_combat_packet (state : InGameCtx) (packet : CombatC2s) : itree SessionE Fx :=
  match packet with
  | InputAttack attack_type target _ =>
      let attack := match attack_type with None => Attack_Basic | Some skill => Attack_Skill (to_domain skill) end in
      send_intent state (Intent_Attack {| ati_target := to_domain target; ati_attack := attack |})
  | SignalTargetSwitch target => send_intent state (Intent_Target (to_domain target))
  end.
Definition handle_movement_packet (state : InGameCtx) (packet : MovementC2s) : itree SessionE Fx :=
  let '(InputMovement kind arg rot pos ts) := packet in
  match world_wire_to_local (gc_coords (ig_ctx state)) (ig_map_id state) pos with
  | None => Ret fx_empty
  | Some local_pos =>
      send_intent state (Intent_Move
        {| mi_kind := to_domain kind; mi_arg := arg; mi_facing := Facing72_from_wrapped rot; mi_target := local_pos;
           mi_client_ts := ts |})
  end.
Definition handle_packet (state : InGameCtx) (packet : InGameC2s) : Handler PhaseError Fx :=
  let^ now := event E_now in
  let^ _ := session_mark_rx now in
  match packet with
  | InGame_Control control => control_effects control now
  | InGame_Chat packet => lift (handle_chat_packet state packet)
  | InGame_Combat packet => lift (handle_combat_packet state packet)
  | InGame_Move packet => lift (handle_movement_packet state packet)
  end.

(** ** The clock *)
Definition server_time (now : Z) (t : Timers) : InGameS2c :=
  S2c_System (SetServerTime (WireMillis32_from (uptime_at (tm_handshake t) now))).
Definition enter_packets (state : InGameCtx) : Handler PhaseError (list InGameS2c) :=
  let^ now := event E_now in
  h_modify (fun t =>
    let '(h, data) := sync_data (tm_handshake t) now 0 in
    ([server_time now t; S2c_System (SetChannelInfo (Z.min (gc_channel_id (ig_ctx state)) u8_max));
      S2c_Control (RequestHandshake data)], {| tm_handshake := h; tm_session := tm_session t |})).
Definition handle_session_tick (state : InGameCtx) : Handler PhaseError Fx :=
  let^ now := event E_now in
  @tick_with_heartbeat P_InGame (ig_username state) (fun now t => [S2c_Control RequestHeartbeat; server_time now t]) now.

(** ** Events of the map *)
Definition MAP_EVENT_BURST_LIMIT : nat := 32.
Definition map_event_to_effects (state : InGameCtx) (event : PlayerEvent) : itree SessionE Fx :=
  match event with
  | PortalEntered destination => handle_portal_entry state destination
  | RestartTown => handle_restart_town state
  | other => Ret (@fx_many P_InGame (map_event_to_packets other (ig_map_id state) (gc_coords (ig_ctx state))))
  end.
(** The turns of the burst; [pending_packets] wait until its end. *)
Fixpoint burst_from (state : InGameCtx) (max_events : nat) (next_event : option PlayerEvent) (pending_packets : list InGameS2c)
  : Handler PhaseError (option unit) :=
  let flush := @send_packets P_InGame in
  match max_events with
  | O => let^ _ := flush pending_packets in h_ret None
  | S max_events =>
      let^ event :=
        match next_event with Some event => h_ret (Some event) | None => event E_try_recv end in
      match event with
      | None => let^ _ := flush pending_packets in h_ret None
      | Some event =>
          let^ fx := lift (map_event_to_effects state event) in
          let pending_packets := pending_packets ++ fx_send fx in
          match fx_disconnect fx, fx_transition fx with
          | Some error, _ => let^ _ := flush pending_packets in h_fail error
          | None, Some transition => let^ _ := flush pending_packets in h_ret (Some transition)
          | None, None => burst_from state max_events None pending_packets
          end
      end
  end.
Definition drain_outbound_burst (state : InGameCtx) (first_event : option PlayerEvent) (max_events : nat)
  : Handler PhaseError (option unit) := burst_from state max_events first_event [].

(** ** The loop of the phase *)
(** One turn: [Some data] leaves the phase. *)
Definition ingame_turn (state : InGameCtx) : Handler PhaseError (option unit) :=
  let^ drained := drain_outbound_burst state None MAP_EVENT_BURST_LIMIT in
  match drained with
  | Some data => h_ret (Some data)
  | None =>
      let apply (fx : Handler PhaseError Fx) := let^ fx := fx in @apply_effects P_InGame fx in
      let^ wake := event (E_select P_InGame true true) in
      match wake with
      | Wake_drain => apply (h_ret (fx_close "server draining"))
      | Wake_tick => apply (handle_session_tick state)
      | Wake_packet (Received_packet packet) => apply (handle_packet state packet)
      | Wake_packet Received_closed => h_fail (disconnect "connection closed")
      | Wake_packet Received_truncated | Wake_packet (Received_error _) => h_fail PE_Other
      | Wake_map (Some event) => drain_outbound_burst state (Some event) MAP_EVENT_BURST_LIMIT
      | Wake_map None => h_ret None
      end
  end.
Definition drive_ingame (state : InGameCtx) (st : State P_InGame) : Handler PhaseError (State P_Select) :=
  let^ _ := reject_when_draining true in
  let^ packets := enter_packets state in
  let^ _ := @send_packets P_InGame packets in
  h_loop (fun _ : unit =>
    let^ data := ingame_turn state in
    match data with
    | Some data => let^ next := @into_next_phase P_InGame st data in h_ret (inr next)
    | None => h_ret (inl tt)
    end) tt.

(** ** Entering and leaving the map *)
Definition player_entry (st : State P_InGame) : LoadedPlayer := loaded_player _ st.
Definition prepare_ingame (connection_id : string) (ctx : GameContext) (st : State P_InGame)
  : Handler SessionEnd (InGameCtx * option LeaveMsg) :=
  let end_ := AfterLogin (ingame_username _ st) Release in
  let^ draining := event E_is_draining in
  if draining : bool then h_fail end_
  else
    let entry := player_entry st in
    let net_id := (to_domain (lp_net_id entry) : EntityId) in
    if negb (bool_decide (lp_map_id entry = gc_map_id ctx)) then h_fail end_
    else
      let^ entered := event (E_enter_player
        {| em_player_id := ingame_player_id _ st; em_player_net_id := net_id; em_runtime_epoch := lp_runtime_epoch entry;
           em_playtime := lp_playtime entry; em_initial_pos := lp_initial_pos entry;
           em_visual_profile := lp_visual_profile entry; em_gameplay := lp_gameplay entry |}) in
      let state :=
        {| ig_ctx := ctx; ig_username := ingame_username _ st; ig_connection_id := connection_id;
           ig_player_name := ingame_player_name _ st; ig_player_id := ingame_player_id _ st; ig_player_net_id := net_id;
           ig_map_id := lp_map_id entry; ig_player_empire := pvp_empire (lp_visual_profile entry) |} in
      h_ret (state, if entered : bool then Some (leave_msg state) else None).

Definition finalize_ingame_result {A} (state : InGameCtx) (source_map_leave : option LeaveMsg) (r : result A SessionEnd)
  : itree SessionE (result A SessionEnd) :=
  match source_map_leave with
  | None => Ret r
  | Some leave_msg =>
      match r with
      | Ok next_conn =>
          let* snapshot := ITree.trigger (E_leave_and_snapshot leave_msg) in
          match snapshot with
          | None => Ret (Err (AfterLogin (ig_username state) Release))
          | Some snapshot =>
              let* flushed := flush_player_state snapshot in
              match flushed with
              | Ok _ => Ret (Ok next_conn)
              | Err _ =>
                  let* committed := commit_exit (ig_ctx state) Exit_Disconnect (ig_username state) (ig_connection_id state) snapshot in
                  Ret (Err (AfterLogin (ig_username state) match committed with Ok _ => AlreadyReleased | Err _ => RetainUntilStale end))
              end
          end
      | Err (Handoff username) =>
          let* _ := ITree.trigger (E_send_leave leave_msg) in
          Ret (Err (Handoff username))
      | Err (AfterLogin username _) =>
          let* snapshot := ITree.trigger (E_leave_and_snapshot leave_msg) in
          match snapshot with
          | None => Ret (Err (AfterLogin username Release))
          | Some snapshot =>
              let* committed := commit_exit (ig_ctx state) Exit_Disconnect username (ig_connection_id state) snapshot in
              Ret (Err (AfterLogin username match committed with Ok _ => AlreadyReleased | Err _ => RetainUntilStale end))
          end
      | Err BeforeLogin => Ret (Err BeforeLogin)
      end
  end.

Definition run_ingame (connection_id : string) (ctx : GameContext) (st : State P_InGame) : Handler SessionEnd (State P_Select) :=
  let^ (state, source_map_leave) := prepare_ingame connection_id ctx st in
  fun t =>
    let* r := run_phase (AfterLogin (ig_username state) Release) (drive_ingame state st) t in
    finalize_ingame_result state source_map_leave r.
End Relocation.

(** A connection through all its phases ([zohar-gamesrv/src/handlers.rs]). *)
Section Core.
Context `{GrowthRng}.
Variable hmac_sha256 : bytes -> bytes -> bytes.
Variables (map_order : list MapId) (town_order : list (MapId * Empire)).
Variable clap : Clap.

(** [SessionTracker::new(Instant::now(), ctx.heartbeat_interval)] *)
Definition start_session (interval : Z) : Handler SessionEnd unit :=
  let^ now := event E_now in
  h_modify (fun t => (tt, {| tm_handshake := tm_handshake t; tm_session := SessionTracker_new now interval |})).

(** From character selection into the game and back. *)
Definition game_turn (connection_id : string) (ctx : GameContext) (st : State P_Select) : Handler SessionEnd (State P_Select) :=
  let^ loading := SelectPhase.run_select_core ctx st in
  let^ ingame := LoadingPhase.run_loading ctx loading in
  run_ingame map_order town_order clap connection_id ctx ingame.
Definition run_core_connection (connection_id : string) (ctx : GameContext) : Handler SessionEnd Empty_set :=
  let^ _ := HandshakePhase.run_handshake (gc_advertised_port ctx) false in
  let^ _ := start_session (gc_heartbeat_interval ctx) in
  let^ st := LoginPhase.run_login_core hmac_sha256 connection_id ctx in
  h_loop (fun st => let^ st := game_turn connection_id ctx st in h_ret (inl st)) st.

Definition on_session_end (ctx : GameContext) (username connection_id : string) : itree SessionE unit :=
  let* _ := ITree.trigger (E_db (Call_release username (gc_server_id ctx) connection_id)) in Ret tt.
(** The tracker is created after the handshake; [None] is a connection refused
    because the server is draining. *)
Definition no_session : SessionTracker := {| last_rx := 0; heartbeat_interval := 0; timeout := 0 |}.
Definition core_result (connection_id : string) (ctx : GameContext) (server_start seed : Z) : itree SessionE (option SessionEnd) :=
  let* draining := ITree.trigger E_is_draining in
  if draining : bool then Ret None
  else
    let* now := ITree.trigger E_now in
    let* r := run_core_connection connection_id ctx
                {| tm_handshake := with_seed server_start now seed; tm_session := no_session |} in
    Ret (Some match r with Ok (never, _) => match never : Empty_set with end | Err end_ => end_ end).
Definition handle_conn_core (connection_id : string) (ctx : GameContext) (server_start seed : Z) : itree SessionE unit :=
  let* end_ := core_result connection_id ctx server_start seed in
  match end_ with
  | Some (AfterLogin username Release) => on_session_end ctx username connection_id
  | Some (AfterLogin _ AlreadyReleased) | Some (AfterLogin _ RetainUntilStale) | Some (Handoff _) | Some BeforeLogin | None => Ret tt
  end.

Definition run_gateway_connection (ctx : GatewayContext) : Handler SessionEnd Empty_set :=
  let^ _ := HandshakePhase.run_handshake (gw_advertised_port ctx) true in
  let^ _ := start_session (gw_heartbeat_interval ctx) in
  let^ st := LoginPhase.run_login_gateway hmac_sha256 ctx in
  SelectPhase.run_select_gateway ctx st.
Definition handle_conn_gateway (ctx : GatewayContext) (server_start seed : Z) : itree SessionE unit :=
  let* now := ITree.trigger E_now in
  let* _ := run_gateway_connection ctx {| tm_handshake := with_seed server_start now seed; tm_session := no_session |} in
  Ret tt.
End Core.
