(* ===== verification/SessionLogic.v ===== *)
(** Reasoning about session handlers: the triples of [Interact.v] on [Handler],
    the classes of events a handler uses, and the invariants it therefore keeps. *)
From ITree Require Import ITree.
From S2P Require Import Prelude Protocol GamePacket Connection Handshake Packets Interact Session.

(** ** Triples on handlers *)
Section Rules.
Context (W : Environment SessionE).
Notation G := (env_state W).
Definition htriple {X A} (P : G -> Prop) (m : Handler X A) (Q : A -> G -> Prop) (Qe : X -> G -> Prop) : Prop :=
  forall t, triple W P (m t) (fun r g => match r with Ok (a, _) => Q a g | Err e => Qe e g end).

Lemma htriple_ret {X A} (P : G -> Prop) (a : A) Q (Qe : X -> G -> Prop) : (forall g, P g -> Q a g) -> htriple P (h_ret a) Q Qe.
Proof. intros H t. by apply triple_ret. Qed.
Lemma htriple_fail {X A} (P : G -> Prop) (e : X) (Q : A -> G -> Prop) Qe : (forall g, P g -> Qe e g) -> htriple P (h_fail e) Q Qe.
Proof. intros H t. by apply triple_ret. Qed.
Lemma htriple_modify {X A} (P : G -> Prop) (f : Timers -> A * Timers) Q (Qe : X -> G -> Prop) :
  (forall a g, P g -> Q a g) -> htriple P (h_modify f) Q Qe.
Proof. intros H t. apply triple_ret. intros g Hg. destruct (f t). auto. Qed.
Lemma htriple_conseq {X A} (P P' : G -> Prop) (m : Handler X A) (Q Q' : A -> G -> Prop) (Qe Qe' : X -> G -> Prop) :
  htriple P' m Q' Qe' -> (forall g, P g -> P' g) -> (forall a g, Q' a g -> Q a g) -> (forall e g, Qe' e g -> Qe e g) ->
  htriple P m Q Qe.
Proof. intros H Hp Hq He t. eapply triple_conseq; [apply H | done |]. intros [[a t'] | e] g; auto. Qed.
Lemma htriple_bind {X A B} (P : G -> Prop) (m : Handler X A) (M : A -> G -> Prop) (k : A -> Handler X B) Q Qe :
  htriple P m M Qe -> (forall a, htriple (M a) (k a) Q Qe) -> htriple P (h_bind m k) Q Qe.
Proof.
  intros Hm Hk t. eapply triple_bind; [apply Hm |]. intros [[a t'] | e]; [apply Hk |]. by apply triple_ret.
Qed.
Lemma htriple_event {X A} (P : G -> Prop) (e : SessionE A) (Q : A -> G -> Prop) (Qe : X -> G -> Prop) :
  (forall g, P g -> env_allows W _ e g) -> (forall a g g', P g -> env_answers W _ e a g g' -> Q a g') ->
  htriple P (event e) Q Qe.
Proof.
  intros Ha Hq t. eapply triple_bind; [by eapply (triple_trigger W P e Q) |]. intros a. by apply triple_ret.
Qed.
Lemma htriple_loop {X I R} (body : I -> Handler X (I + R)) (Inv : I -> G -> Prop) Q Qe i :
  (forall i, htriple (Inv i) (body i) (fun r g => match r with inl j => Inv j g | inr x => Q x g end) Qe) ->
  htriple (Inv i) (h_loop body i) Q Qe.
Proof.
  intros Hb t. unfold h_loop.
  refine (triple_iter W _ (fun it g => Inv it.1 g) (fun r g => match r with Ok (a, _) => Q a g | Err e => Qe e g end) _ (i, t)).
  intros [j t']. eapply triple_bind; [apply Hb |].
  intros [[[j' | x] t''] | e]; apply triple_ret; auto.
Qed.
Lemma htriple_run_phase {A} (P : G -> Prop) end_ (m : Handler PhaseError A) Q (Qe : SessionEnd -> G -> Prop) :
  htriple P m Q (fun e => Qe match e with PE_Disconnect _ d => session_end_for_disconnect end_ d | PE_Other => end_ end) ->
  htriple P (run_phase end_ m) Q Qe.
Proof.
  intros H t. eapply triple_bind; [apply H |]. intros [[a t'] | [reason d |]]; apply triple_ret; auto.
Qed.
End Rules.

(** ** The events a program uses *)
Definition EventPred : Type := forall A, SessionE A -> Prop.

(** A program that uses only events of [ks], and whose results are [Q]:
    a triple in the environment that answers anything. *)
Definition any_answer (ks : EventPred) : Environment SessionE :=
  {| env_state := unit; env_allows A e _ := ks A e; env_answers A e a g g' := True |}.
Definition uses {R} (ks : EventPred) (t : itree SessionE R) (Q : R -> Prop) : Prop :=
  triple (any_answer ks) (fun _ => True) t (fun r _ => Q r).
(** Errors that do not hand the player over. *)
Class Std (X : Type) : Type := std : X -> bool.
#[export] Instance PhaseError_std : Std PhaseError := fun e =>
  match e with PE_Disconnect _ HandoffPrepared => false | _ => true end.
Definition huses {X A} `{Std X} (ks : EventPred) (m : Handler X A) (Q : A -> Prop) : Prop :=
  htriple (any_answer ks) (fun _ => True) m (fun a _ => Q a) (fun e _ => std e = true).
(** An error of this kind, in a state where [E] holds. *)
Definition failing {X G : Type} `{Std X} (E : G -> Prop) (e : X) (g : G) : Prop := std e = true /\ E g.

(** Every invariant of an environment that these events keep is kept. *)
Definition keeps (W : Environment SessionE) (I : env_state W -> Prop) (ks : EventPred) : Prop :=
  forall A (e : SessionE A) g, ks A e -> I g ->
  env_allows W A e g /\ forall a g', env_answers W A e a g g' -> I g'.

Lemma any_answer_evolves ks l : evolves (any_answer ks) tt l tt.
Proof. induction l as [| [A e a] l IH]; [constructor |]. by econstructor. Qed.

Lemma uses_triple {R} (W : Environment SessionE) (I : env_state W -> Prop) ks (t : itree SessionE R) (Q : R -> Prop) :
  uses ks t Q -> keeps W I ks -> triple W I t (fun r g => Q r /\ I g).
Proof.
  intros Hu Hk g n l o g' Hg Hs He.
  assert (forall n l o, steps n (observe t) l o -> holds_at (any_answer ks) (fun r _ => Q r) o tt) as Hu'.
  { intros m l' o' Hs'. apply (Hu tt m l' o' tt Logic.I Hs' (any_answer_evolves ks l')). }
  clear Hu. remember (observe t) as o0 eqn:Eo. clear Eo t. revert g Hg He.
  induction Hs as [o0 | n u l o Hs IH | n A e k a l o Hs IH]; intros g Hg He.
  - pose proof (Hu' 0%nat [] o0 (steps_refl o0)) as H. inversion He; subst.
    destruct o0 as [r | t | A e k]; cbn in H |- *; [done | done |]. by apply (Hk A e g').
  - apply (IH (fun m l' o' H => Hu' (S m) l' o' (steps_tau m u l' o' H)) g Hg He).
  - inversion He; subst. inv_pairs. pose proof (Hu' 0%nat [] _ (steps_refl _)) as H. cbn in H.
    destruct (Hk A e g H Hg) as [_ Hans].
    refine (IH (fun m l' o' H => Hu' (S m) _ o' (steps_vis m A e k a l' o' H)) g'0 (Hans _ _ ltac:(eassumption)) ltac:(eassumption)).
Qed.
Lemma uses_keeps {R} (W : Environment SessionE) (I : env_state W -> Prop) ks (t : itree SessionE R) :
  keeps W I ks -> uses ks t (fun _ => True) -> triple W I t (fun _ => I).
Proof. intros Hk Hu. eapply triple_conseq; [exact (uses_triple W I ks t _ Hu Hk) | done |]. by intros r g [_ Hg]. Qed.
Lemma huses_htriple {X A} `{Std X} (W : Environment SessionE) (I : env_state W -> Prop) ks (m : Handler X A) (Q : A -> Prop) :
  huses ks m Q -> keeps W I ks -> htriple W I m (fun a g => Q a /\ I g) (failing I).
Proof.
  intros Hu Hk t. eapply triple_conseq;
    [apply (uses_triple W I ks (m t) (fun r => match r with Ok (a, _) => Q a | Err e => std e = true end)) | done |]; [| done |].
  - intros g n l o g' _ Hs He. specialize (Hu t g n l o g' Logic.I Hs He). destruct o as [[[a t'] | e] | |]; exact Hu.
  - intros [[a t'] | e] g; done.
Qed.

(** Rules of [uses]. *)
Section Uses.
Context (ks : EventPred).
Lemma uses_ret {R} (r : R) (Q : R -> Prop) : Q r -> uses ks (Ret r) Q.
Proof. intros H. by apply triple_ret. Qed.
Lemma uses_bind {R T} (t : itree SessionE R) (M : R -> Prop) (k : R -> itree SessionE T) Q :
  uses ks t M -> (forall r, M r -> uses ks (k r) Q) -> uses ks (ITree.bind t k) Q.
Proof.
  intros Ht Hk. eapply triple_bind; [exact Ht |]. intros r g n l o g' Hm. exact (Hk r Hm g n l o g' Logic.I).
Qed.
Lemma uses_trigger {A} (e : SessionE A) (Q : A -> Prop) : ks A e -> (forall a, Q a) -> uses ks (ITree.trigger e) Q.
Proof. intros He HQ. apply triple_trigger; [done | auto]. Qed.
Lemma uses_weaken {R} (t : itree SessionE R) (Q Q' : R -> Prop) : uses ks t Q' -> (forall r, Q' r -> Q r) -> uses ks t Q.
Proof. intros H HQ. eapply triple_conseq; [exact H | done | auto]. Qed.

Lemma huses_ret {X A} `{Std X} (a : A) (Q : A -> Prop) : Q a -> huses (X := X) ks (h_ret a) Q.
Proof. intros HQ. by apply htriple_ret. Qed.
Lemma huses_fail {X A} `{Std X} (e : X) (Q : A -> Prop) : std e = true -> huses ks (h_fail e) Q.
Proof. intros H'. by apply htriple_fail. Qed.
Lemma huses_modify {X A} `{Std X} (f : Timers -> A * Timers) (Q : A -> Prop) : (forall a, Q a) -> huses (X := X) ks (h_modify f) Q.
Proof. intros HQ. apply htriple_modify. auto. Qed.
Lemma huses_bind {X A B} `{Std X} (m : Handler X A) (M : A -> Prop) (k : A -> Handler X B) Q :
  huses ks m M -> (forall a, M a -> huses ks (k a) Q) -> huses ks (h_bind m k) Q.
Proof.
  intros Hm Hk. eapply htriple_bind; [exact Hm |]. intros a t g n l o g' Ha. exact (Hk a Ha t g n l o g' Logic.I).
Qed.
Lemma huses_event {X A} `{Std X} (e : SessionE A) (Q : A -> Prop) : ks A e -> (forall a, Q a) -> huses (X := X) ks (event e) Q.
Proof. intros He HQ. apply htriple_event; auto. Qed.
Lemma huses_weaken {X A} `{Std X} (m : Handler X A) (Q Q' : A -> Prop) : huses ks m Q' -> (forall a, Q' a -> Q a) -> huses ks m Q.
Proof. intros Hm HQ. eapply htriple_conseq; [exact Hm | done | auto | done]. Qed.
Lemma huses_panic {X A} `{Std X} (Q : A -> Prop) : ks _ E_panic -> huses (X := X) ks h_panic Q.
Proof. intros Hp. apply (huses_bind _ (fun _ => True)); [by apply huses_event | intros []]. Qed.
Lemma huses_db {A} (c : DbCall A) : ks _ (E_db c) -> huses ks (db_call c) (fun _ => True).
Proof.
  intros H. apply (huses_bind _ (fun _ => True)); [by apply huses_event |]. intros [a | e] _; [by apply huses_ret | by apply huses_fail].
Qed.
End Uses.

(** ** Packets that do not announce a phase *)
Definition announces (p : GamePhase) : S2c p -> option PhaseId :=
  match p return S2c p -> option PhaseId with
  | P_HandshakeGame | P_Login | P_Select =>
      fun x => match x with Control (SetClientPhase phase) => Some phase | _ => None end
  | P_Loading => fun x => match x with Loading_Control (SetClientPhase phase) => Some phase | _ => None end
  | P_InGame => fun x => match x with S2c_Control (SetClientPhase phase) => Some phase | _ => None end
  end.
Definition quiet_packets {p} (l : list (S2c p)) : Prop := Forall (fun x => announces p x = None) l.
Definition quiet {p} (fx : PhaseEffects p) : Prop := quiet_packets (fx_send fx).
(** Effects that announce nothing and do not hand the player over. *)
Definition tame {p} (fx : PhaseEffects p) : Prop := quiet fx /\ forall e, fx_disconnect fx = Some e -> std e = true.

Lemma announces_control p c : announces p (from_control p c) = match c with SetClientPhase phase => Some phase | _ => None end.
Proof. by destruct p, c. Qed.

(** What the loop of a phase does by itself. *)
Definition loop_event (p : GamePhase) : EventPred := fun A e =>
  match e with
  | E_now | E_is_draining => True
  | E_recv q | E_select q _ _ => q = p
  | E_send_many q packets => q = p /\ quiet_packets packets
  | _ => False
  end.

Lemma control_decision_quiet (ks : EventPred) {p} (c : ControlC2s) (now : Z) :
  huses (X := PhaseError) ks (handle_session_control (p := p) c now) (fun d => match d with Handled l => quiet_packets l | Reject _ => True end).
Proof.
  unfold handle_session_control. destruct c as [| data | data]; [apply huses_ret; constructor | by apply huses_ret |].
  apply (huses_bind _ _ (fun _ => True)).
  - unfold handle_handshake. apply (huses_bind _ _ (fun _ => True)); [by apply huses_modify |].
    intros [o | e] _; [by apply huses_ret | by apply huses_fail].
  - intros [| d |] _; apply huses_ret; repeat constructor; by rewrite announces_control.
Qed.

(** ** The loop of a phase *)
Section Phase.
Context (W : Environment SessionE).
Notation G := (env_state W).

(** A fact that the precondition implies may be assumed. *)
Lemma htriple_known {X A} (F : Prop) (P : G -> Prop) (m : Handler X A) Q (Qe : X -> G -> Prop) :
  (forall g, P g -> F) -> (F -> htriple W P m Q Qe) -> htriple W P m Q Qe.
Proof. intros Hf H t g n l o g' Hp. exact (H (Hf g Hp) t g n l o g' Hp). Qed.

Lemma htriple_event_keeps {X A} (J : G -> Prop) ks (e : SessionE A) (Qe : X -> G -> Prop) :
  keeps W J ks -> ks A e -> htriple W J (event e) (fun _ => J) Qe.
Proof. intros Hk He. apply htriple_event; [intros g Hg | intros a g g' Hg]; by apply (Hk A e g). Qed.

(** Sending packets that announce nothing keeps what the loop of a phase keeps. *)
Lemma htriple_send {p} (J : G -> Prop) (packets : list (S2c p)) :
  quiet_packets packets -> keeps W J (loop_event p) ->
  htriple W J (send_packets packets) (fun _ => J) (fun e g => e = PE_Other /\ J g).
Proof.
  intros Hq Hk. unfold send_packets. apply (htriple_bind _ _ _ (fun _ => J)).
  - by apply (htriple_event_keeps _ _ _ _ Hk).
  - intros []; [by apply htriple_ret | by apply htriple_fail].
Qed.

Context {p : GamePhase} (J : G -> Prop) (M : PhaseEffects p -> G -> Prop) (Qe : PhaseError -> G -> Prop).
Hypothesis M_kept : forall fx, keeps W (M fx) (loop_event p).
Hypothesis M_quiet : forall fx g, M fx g -> quiet fx.
Hypothesis M_error : forall fx e g, M fx g -> fx_disconnect fx = Some e \/ e = PE_Other -> Qe e g.

Lemma htriple_apply fx :
  htriple W (M fx) (apply_effects fx) (fun data g => data = fx_transition fx /\ fx_disconnect fx = None /\ M fx g) Qe.
Proof.
  apply (htriple_known (quiet fx)); [apply M_quiet |]. intros Hq. unfold apply_effects.
  apply (htriple_bind _ _ _ (fun _ => M fx)).
  - eapply htriple_conseq; [by apply (htriple_send (M fx)) | done | done |]. intros e g [-> H]. eauto.
  - intros _. destruct (fx_disconnect fx) as [e |] eqn:E; [apply htriple_fail | apply htriple_ret]; eauto.
Qed.

Context (Q : State (Next p) -> G -> Prop).
Hypothesis J_kept : keeps W J (loop_event p).
Hypothesis J_error : forall e g, std e = true -> J g -> Qe e g.
Hypothesis M_again : forall fx g, M fx g -> fx_disconnect fx = None -> fx_transition fx = None -> J g.

Lemma htriple_phase_loop drain_enabled handle_tick handle_packet (st : State p) :
  (forall r g, J g -> M (fx_close r) g) -> (forall g, J g -> M fx_empty g) ->
  (forall now, htriple W J (handle_tick now) M Qe) ->
  (forall packet now, htriple W J (handle_packet packet now) M Qe) ->
  (forall fx data, fx_transition fx = Some data -> fx_disconnect fx = None ->
     htriple W (M fx) (into_next_phase st data) Q Qe) ->
  htriple W J (phase_loop drain_enabled handle_tick handle_packet st) Q Qe.
Proof.
  intros Hclose Hempty Htick Hpacket Hnext. apply (htriple_loop _ _ (fun _ => J)). intros _.
  apply (htriple_bind _ _ _ M).
  - unfold wait_effects. apply (htriple_bind _ _ _ (fun _ => J)).
    { by apply (htriple_event_keeps _ _ _ _ J_kept). }
    intros now. apply (htriple_bind _ _ _ (fun _ => J)).
    { by apply (htriple_event_keeps _ _ _ _ J_kept). }
    intros [| | [] | ev]; auto using htriple_ret, htriple_fail.
  - intros fx. eapply htriple_bind; [apply htriple_apply |]. intros data. cbv beta.
    apply (htriple_known (data = fx_transition fx /\ fx_disconnect fx = None)); [intros g H; tauto |]. intros [-> Hd].
    destruct (fx_transition fx) as [d |] eqn:Et.
    + eapply htriple_bind.
      * eapply htriple_conseq; [by apply (Hnext fx d) | intros g H; apply H | intros a g H; exact H | intros e g H; exact H].
      * intros next. by apply htriple_ret.
    + apply htriple_ret. intros g (_ & _ & H). eauto.
Qed.
End Phase.
