(* ===== verification/Footprints.v ===== *)
(** Which events each phase handler uses, and that no handler announces a phase:
    [uses] of [SessionLogic.v], established once for every invariant. *)
From ITree Require Import ITree.
From S2P Require Import Prelude Domain StatSource Protocol GamePacket Connection Handshake Space Entities Database.
From S2P Require Import Coords MapPort Packets Encode Commands Interact Session Phases InGameSession SessionLogic.

(** ** Events of a phase *)
Definition account_call (username : string) {A} (c : DbCall A) : Prop :=
  match c with
  | Call_update_heartbeat u | Call_find_profile u | Call_update_empire u _ | Call_list_summaries u
  | Call_list_runtime_states u | Call_find_summary u _ | Call_create_player u _ _ _ _ _ | Call_delete_player u _ _ => u = username
  | _ => False
  end.
Definition handshake_event : EventPred := fun A e =>
  match e with E_list_channels => True | _ => loop_event P_HandshakeGame A e end.
Definition select_event (username : string) : EventPred := fun A e =>
  match e with
  | E_db c => account_call username c
  | E_resolve _ _ | E_panic => True
  | _ => loop_event P_Select A e
  end.
Definition loading_event (username : string) (id : PlayerId) : EventPred := fun A e =>
  match e with
  | E_db (Call_find_stats_bootstrap i) | E_db (Call_find_runtime_state i) => i = id
  | E_db (Call_update_heartbeat u) | E_db (Call_find_profile u) => u = username
  | E_reserve_net_id | E_panic => True
  | _ => loop_event P_Loading A e
  end.
(** What a login asks for a username. *)
Definition claim_event (username : string) : EventPred := fun A e =>
  match e with
  | E_unix_secs => True
  | E_db (Call_resume u _ _ _ _ _ _) | E_db (Call_validate_token u _ _ _) | E_db (Call_set_login_token u _)
  | E_db (Call_get_or_create_profile u) => u = username
  | _ => False
  end.
Definition ingame_event (state : InGameCtx) : EventPred := fun A e =>
  match e with
  | E_db (Call_update_heartbeat u) => u = ig_username state
  | E_resolve _ _ | E_publish_shout _ _ _ | E_try_recv => True
  | E_capture msg => msg = leave_msg state
  | E_try_intent msg => cim_player_id msg = ig_player_id state
  | E_enqueue (Op_exit Exit_Handoff u server conn _) _ | E_await (Op_exit Exit_Handoff u server conn _) _ =>
      u = ig_username state /\ server = gc_server_id (ig_ctx state) /\ conn = ig_connection_id state
  | _ => loop_event P_InGame A e
  end.

(** Effects that neither announce nor leave the phase. *)
Definition stays {p} (fx : PhaseEffects p) : Prop := tame fx /\ fx_transition fx = None.

Ltac tame_tac := split; [repeat constructor; done | by intros e [= <-]].
Ltac uses_side := first [done | by repeat split | by repeat constructor | tame_tac | by (split; [tame_tac | done])].
Ltac uses_step :=
  lazymatch goal with
  | |- huses _ (h_bind (event _) _) _ => apply (huses_bind _ _ (fun _ => True)); [apply huses_event; uses_side | intros ? _]
  | |- huses _ (h_bind (db_call _) _) _ => apply (huses_bind _ _ (fun _ => True)); [apply huses_db; uses_side | intros ? _]
  | |- huses _ (h_bind (h_modify _) _) _ => apply (huses_bind _ _ (fun _ => True)); [by apply huses_modify | intros ? _]
  | |- huses _ (h_bind (h_ret _) _) _ => eapply huses_bind; [by apply huses_ret | intros ? ?]
  | |- huses _ (h_ret _) _ => apply huses_ret
  | |- huses _ (h_fail _) _ => by apply huses_fail
  | |- huses _ h_panic _ => apply huses_panic; uses_side
  | |- huses _ (event _) _ => apply huses_event; uses_side
  | |- huses _ (db_call _) _ => apply huses_db; uses_side
  | |- huses _ (let _ := _ in _) _ => cbv zeta
  | |- huses _ (match ?x with _ => _ end) _ => destruct x eqn:?
  | |- huses _ (h_bind (match ?x with _ => _ end) _) _ => destruct x eqn:?
  end.
Ltac uses_tac := repeat (uses_step; try uses_side).

(** ** Before the game *)
Lemma handshake_packet_uses port directory packet :
  huses handshake_event (HandshakePhase.handle_packet port directory packet) tame.
Proof.
  unfold HandshakePhase.handle_packet. uses_step. destruct packet as [[| data | data] | []].
  - uses_tac.
  - apply (huses_bind _ _ (fun _ => True)); [| intros [| d |] _; uses_tac].
    unfold handle_handshake. uses_tac.
  - uses_tac.
  - apply (huses_bind _ _ (fun _ => True)); [unfold HandshakePhase.channel_list | intros [l ok] _]; uses_tac.
Qed.

Lemma login_tick_uses now : huses (loop_event P_Login) (LoginPhase.handle_tick now) stays.
Proof. unfold LoginPhase.handle_tick, session_on_tick. uses_step. uses_step. destruct a as [[] |]; uses_side. Qed.

Lemma persisted_uses deps input : huses (claim_event (LoginPhase.tl_username input)) (LoginPhase.try_persisted_login deps input) (fun _ => True).
Proof. unfold LoginPhase.try_persisted_login. destruct (LoginPhase.ld_mode deps); by apply huses_db. Qed.
Lemma authenticate_uses hmac deps input :
  huses (claim_event (LoginPhase.tl_username input)) (LoginPhase.authenticate_token_login hmac deps input)
    (fun d => forall u e, d = LoginPhase.Accepted u e -> u = LoginPhase.tl_username input).
Proof.
  unfold LoginPhase.authenticate_token_login. apply (huses_bind _ _ (fun _ => True)); [apply persisted_uses |]. intros persisted _.
  apply (huses_bind _ _ (fun _ => True)).
  - destruct persisted; [by apply huses_ret |]. unfold LoginPhase.try_totp_bootstrap. uses_step.
    destruct (Token.verify _ _ _ _ _ _); [| by apply huses_ret].
    apply (huses_bind _ _ (fun _ => True)); [by apply huses_db | intros _ _; apply persisted_uses].
  - intros [] _; [| by apply huses_ret]. apply (huses_bind _ _ (fun _ => True)); [by apply huses_db |].
    intros profile _. apply huses_ret. intros u e. by destruct (profile_is_banned profile); intros [= <- _].
Qed.

Lemma tick_uses (ks : EventPred) {p} username beat now :
  (forall now t, quiet_packets (beat now t)) -> ks _ (E_db (Call_update_heartbeat username)) ->
  huses ks (tick_with_heartbeat (p := p) username beat now) stays.
Proof.
  intros Hb Hk. unfold tick_with_heartbeat, session_on_tick. uses_step. destruct a as [[] |]; [| uses_tac | uses_tac].
  uses_step. apply (huses_bind _ _ quiet_packets); [| intros l Hl; apply huses_ret; (split; [by split | done])].
  intros t. apply triple_ret. intros _ _. apply Hb.
Qed.

Lemma control_stays {p} (c : ControlC2s) now (ks : EventPred) : huses ks (control_effects (p := p) c now) stays.
Proof.
  unfold control_effects. apply (huses_bind _ _ (fun d => match d with Handled l => quiet_packets l | Reject _ => True end)).
  - apply control_decision_quiet.
  - intros [l | r] Hd; apply huses_ret; (split; [| done]); [by split | tame_tac].
Qed.

Section SelectUses.
Context (rt : SelectPhase.SelectRuntime).
Notation ks := (select_event (SelectPhase.sr_username rt)).

Lemma map_id_uses runtime_state empire : huses ks (SelectPhase.resolve_player_map_id rt runtime_state empire) (fun _ => True).
Proof. unfold SelectPhase.resolve_player_map_id. uses_tac. Qed.
Lemma endpoint_uses runtime_state : huses ks (SelectPhase.resolve_player_endpoint rt runtime_state) (fun _ => True).
Proof.
  unfold SelectPhase.resolve_player_endpoint. apply (huses_bind _ _ (fun _ => True)).
  { unfold SelectPhase.profile_empire_of. uses_tac. }
  intros empire _. apply (huses_bind _ _ (fun _ => True)); [apply map_id_uses |]. intros map_id _. uses_tac.
Qed.
Lemma slots_uses db_players runtime slots : huses ks (SelectPhase.build_slots rt db_players runtime slots) (fun _ => True).
Proof.
  induction slots as [| slot slots IH]; cbn [SelectPhase.build_slots]; [by apply huses_ret |].
  apply (huses_bind _ _ (fun _ => True)).
  { destruct (List.find _ _); [| uses_tac]. apply (huses_bind _ _ (fun _ => True)); [apply endpoint_uses |]. intros ? _. uses_tac. }
  intros player _. apply (huses_bind _ _ (fun _ => True)); [exact IH |]. intros ? _. uses_tac.
Qed.
Lemma select_enter_uses : huses ks (SelectPhase.handle_enter rt) stays.
Proof.
  unfold SelectPhase.handle_enter. uses_step. uses_step.
  apply (huses_bind _ _ (fun packet => announces P_Select packet = None)).
  - unfold SelectPhase.build_players_pkt. apply (huses_bind _ _ (fun _ => True)); [apply slots_uses |]. intros ? _. uses_tac.
  - intros packet Hp. apply huses_ret. split; [by repeat constructor | done].
Qed.
Lemma select_tick_uses now : huses ks (SelectPhase.handle_tick rt now) stays.
Proof. apply tick_uses; [intros; by repeat constructor | done]. Qed.
Lemma create_uses slot name class_gender appearance : huses ks (SelectPhase.handle_create rt slot name class_gender appearance) stays.
Proof.
  unfold SelectPhase.handle_create. cbv zeta. destruct (_ : PlayerClass * PlayerGender) as [class gender].
  destruct (negb _); [uses_tac |]. destruct (4 <=? _); [uses_tac |]. destruct (negb _); [uses_tac |].
  uses_step. destruct a; [| uses_tac]. destruct (Layout.try_from_u8 _); [| uses_tac].
  apply (huses_bind _ _ (fun _ => True)); [apply endpoint_uses |]. intros ? _. uses_tac.
Qed.
Lemma delete_uses slot code : huses ks (SelectPhase.handle_delete rt slot code) stays.
Proof.
  unfold SelectPhase.handle_delete. cbv zeta. destruct (4 <=? _); [uses_tac |]. uses_step.
  destruct a; [destruct (Layout.try_from_u8 _) |]; uses_tac.
Qed.
Lemma choice_uses slot : huses ks (SelectPhase.handle_choice rt slot) tame.
Proof. unfold SelectPhase.handle_choice. destruct (SelectPhase.sr_mode rt); [| uses_tac]. uses_step. destruct a; uses_tac. Qed.
End SelectUses.

Section LoadingUses.
Context `{GrowthRng} (username : string) (id : PlayerId).
Notation ks := (loading_event username id).
Lemma loading_enter_uses ctx entry stats : huses ks (LoadingPhase.handle_enter ctx entry stats) stays.
Proof. unfold LoadingPhase.handle_enter. uses_tac. Qed.
Lemma loading_tick_uses now : huses ks (LoadingPhase.handle_tick username now) stays.
Proof. apply tick_uses; [intros; by repeat constructor | done]. Qed.
Lemma loading_packet_uses entry packet now :
  huses ks (LoadingPhase.handle_packet entry packet now)
    (fun fx => tame fx /\ forall data, fx_transition fx = Some data -> data = entry).
Proof.
  unfold LoadingPhase.handle_packet, session_mark_rx. uses_step. destruct packet as [c | [|]].
  - eapply huses_weaken; [apply control_stays |]. intros fx [Hq Ht]. rewrite Ht. done.
  - apply huses_ret. split; [tame_tac | done].
  - apply huses_ret. split; [tame_tac |]. by intros data [= <-].
Qed.
(** The end of the session that the queries before the phase fail with. *)
Definition load_end (end_ : SessionEnd) : bool :=
  match end_ with AfterLogin u Release => bool_decide (u = username) | _ => false end.
Lemma load_entry_uses ctx (st : State P_Loading) : loading_username st = username -> loading_player_id st = id ->
  @huses _ _ load_end ks (LoadingPhase.load_entry ctx st) (fun _ => True).
Proof.
  intros Hu Hi. unfold LoadingPhase.load_entry, LoadingPhase.or_end. cbv zeta.
  assert (std (Std := load_end) (AfterLogin (loading_username st) Release) = true) as Hend by (apply bool_decide_eq_true; done).
  apply (huses_bind _ _ (fun _ => True)); [uses_tac |]. intros player _.
  apply (huses_bind _ _ (fun _ => True)); [uses_tac |]. intros runtime _. uses_tac.
Qed.
End LoadingUses.

(** ** In the game *)
(** Packets of map events announce nothing. *)
Lemma map_event_packets_quiet event map_id coords : @quiet_packets P_InGame (map_event_to_packets event map_id coords).
Proof.
  destruct event; cbn [map_event_to_packets]; try (repeat constructor; done);
    unfold encode_entity_spawn, encode_projectile_target, encode_entity_move, encode_entity_stats; repeat case_match;
    try (repeat constructor; done).
  apply Forall_concat, Forall_fmap, Forall_true. intros update. cbn. unfold encode_entity_stat. case_match; by repeat constructor.
Qed.

(** Effects of a handler that does not hand the player over. *)
Definition handoff (fx : Fx) : Prop := exists reason, fx_disconnect fx = Some (PE_Disconnect reason HandoffPrepared).
Definition plain (fx : Fx) : Prop := quiet fx /\ ~ handoff fx.
Ltac plain_tac := split; [repeat constructor; done | intros [? ?]; discriminate].

(** Requests of the persistence worker. *)
Definition persist_event : EventPred := fun A e =>
  match e with E_now | E_is_draining | E_enqueue _ _ | E_await _ _ => True | _ => False end.
Lemma persist_op_uses (ks : EventPred) op timeout :
  ks _ E_now -> (forall d, ks _ (E_enqueue op d)) -> (forall d, ks _ (E_await op d)) ->
  uses ks (run_persistence_op op timeout) (fun _ => True).
Proof.
  intros H1 H2 H3. unfold run_persistence_op, await_persistence_result.
  apply (uses_bind _ _ (fun _ => True)); [by apply uses_trigger |]. intros now _. cbv zeta.
  apply (uses_bind _ _ (fun _ => True)); [by apply uses_trigger |]. intros [] _; [| by apply uses_ret ..].
  apply (uses_bind _ _ (fun _ => True)); [by apply uses_trigger |]. intros r _. by apply uses_ret.
Qed.
Lemma commit_exit_uses (ks : EventPred) ctx kind u conn snapshot :
  ks _ E_now -> ks _ E_is_draining -> (forall d, ks _ (E_enqueue (Op_exit kind u (gc_server_id ctx) conn snapshot) d)) ->
  (forall d, ks _ (E_await (Op_exit kind u (gc_server_id ctx) conn snapshot) d)) ->
  uses ks (commit_exit ctx kind u conn snapshot) (fun _ => True).
Proof.
  intros H1 H2 H3 H4. unfold commit_exit, player_persistence_timeout.
  apply (uses_bind _ _ (fun _ => True)); [| intros timeout _; by apply persist_op_uses].
  apply (uses_bind _ _ (fun _ => True)); [by apply uses_trigger |]. intros d _. by apply uses_ret.
Qed.
Lemma flush_uses snapshot : uses persist_event (flush_player_state snapshot) (fun _ => True).
Proof.
  unfold flush_player_state, player_persistence_timeout.
  apply (uses_bind _ _ (fun _ => True)); [| intros timeout _; by apply persist_op_uses].
  apply (uses_bind _ _ (fun _ => True)); [by apply uses_trigger |]. intros d _. by apply uses_ret.
Qed.

Lemma commit_keeps (W : Environment SessionE) I ctx kind u conn snapshot : keeps W I persist_event ->
  triple W I (commit_exit ctx kind u conn snapshot) (fun _ => I).
Proof. intros Hk. by apply (uses_keeps _ _ _ _ Hk), commit_exit_uses. Qed.
Lemma flush_keeps (W : Environment SessionE) I snapshot : keeps W I persist_event ->
  triple W I (flush_player_state snapshot) (fun _ => I).
Proof. intros Hk. apply (uses_keeps _ _ _ _ Hk), flush_uses. Qed.

Section InGameUses.
Context (map_order : list MapId) (town_order : list (MapId * Empire)) (clap : Clap) (state : InGameCtx).
Notation ks := (ingame_event state).

Lemma try_send_uses intent name : uses ks (try_send_client_intent state intent name) plain.
Proof.
  unfold try_send_client_intent. apply (uses_bind _ _ (fun _ => True)); [by apply uses_trigger |]. intros [] _; apply uses_ret; plain_tac.
Qed.
Lemma send_intent_uses intent : uses ks (send_intent state intent) plain.
Proof.
  unfold send_intent. apply (uses_bind _ _ (fun _ => True)); [by apply uses_trigger |]. intros ok _; apply uses_ret; plain_tac.
Qed.
Lemma combat_uses packet : uses ks (handle_combat_packet state packet) plain.
Proof. destruct packet; apply send_intent_uses. Qed.
Lemma movement_uses packet : uses ks (handle_movement_packet state packet) plain.
Proof. destruct packet. cbn. destruct (world_wire_to_local _ _ _); [apply send_intent_uses | apply uses_ret; plain_tac]. Qed.
(** ** What a turn of the game phase establishes

    [J] holds between turns; a handler that prepares a handoff establishes [H]. *)
Context (W : Environment SessionE).
Notation G := (env_state W).
Context (J H : G -> Prop).
Hypothesis J_kept : keeps W J ks.
Hypothesis H_kept : keeps W H (loop_event P_InGame).
Hypothesis H_J : forall g, H g -> J g.
Hypothesis commit_spec : forall snapshot,
  triple W J (commit_exit (ig_ctx state) Exit_Handoff (ig_username state) (ig_connection_id state) snapshot)
    (fun r g => match r with Ok _ => H g | Err _ => J g end).

Definition after (fx : Fx) (g : G) : Prop := quiet fx /\ J g /\ (handoff fx -> H g).
Definition failed (e : PhaseError) (g : G) : Prop := J g /\ ((exists r, e = PE_Disconnect r HandoffPrepared) -> H g).

Lemma plain_after (m : itree SessionE Fx) : uses ks m plain -> triple W J m after.
Proof.
  intros Hu. eapply triple_conseq; [exact (uses_triple W J ks m plain Hu J_kept) | done |]. intros fx g [[Hq Hn] Hg]. by split.
Qed.
Lemma J_loop : keeps W J (loop_event P_InGame).
Proof. intros A e g He. apply J_kept. destruct e; try done; destruct call; done. Qed.
Lemma after_kept fx : keeps W (after fx) (loop_event P_InGame).
Proof.
  intros A e g He (Hq & Hg & Hh). destruct (J_loop A e g He Hg) as [Ha Hb]. split; [done |].
  intros a g' Hans. split; [done |]. split; [by eapply Hb |]. intros Hf.
  destruct (H_kept A e g He (Hh Hf)) as [_ Hb']. by eapply Hb'.
Qed.
Lemma failed_other g : J g -> failed PE_Other g.
Proof. intros Hg. split; [done | by intros [? ?]]. Qed.
Lemma failed_standard r g : J g -> failed (disconnect r) g.
Proof. intros Hg. split; [done | by intros [? ?]]. Qed.
Hint Resolve failed_other failed_standard : core.

Lemma control_after c now : htriple W J (control_effects (p := P_InGame) c now) after failed.
Proof.
  unfold control_effects. apply (htriple_bind _ _ _ (fun d g => match d with Handled l => @quiet_packets P_InGame l | Reject _ => True end /\ J g)).
  - unfold handle_session_control. destruct c as [| data | data]; [apply htriple_ret; intros; by repeat constructor | by apply htriple_ret |].
    apply (htriple_bind _ _ _ (fun _ => J)).
    + unfold handle_handshake. apply (htriple_bind _ _ _ (fun _ => J)); [by apply htriple_modify |].
      intros [o | e]; [by apply htriple_ret | apply htriple_fail; auto].
    + intros [| d |]; apply htriple_ret; intros; by repeat constructor.
  - intros [l | r]; apply htriple_ret; intros g [Hl Hg]; (split; [| split; [done | by intros [? ?]]]); [exact Hl | constructor].
Qed.
Lemma tick_after : htriple W J (handle_session_tick state) after failed.
Proof.
  unfold handle_session_tick, tick_with_heartbeat, session_on_tick.
  apply (htriple_bind _ _ _ (fun _ => J)); [by apply (htriple_event_keeps _ _ _ _ _ J_kept) |]. intros now.
  apply (htriple_bind _ _ _ (fun _ => J)); [by apply htriple_modify |].
  intros [[] |]; [| apply htriple_ret; intros g Hg; (split; [constructor | split; [done | by intros [? ?]]]) ..].
  apply (htriple_bind _ _ _ (fun _ => J)); [by apply (htriple_event_keeps _ _ _ _ _ J_kept) |]. intros _.
  apply (htriple_bind _ _ _ (fun l g => @quiet_packets P_InGame l /\ J g)).
  - intros t. apply triple_ret. intros g Hg. by repeat constructor.
  - intros l. apply htriple_ret. intros g [Hl Hg]. split; [done | split; [done | by intros [? ?]]].
Qed.
Lemma enter_packets_spec : htriple W J (enter_packets state) (fun l g => @quiet_packets P_InGame l /\ J g) failed.
Proof.
  unfold enter_packets. apply (htriple_bind _ _ _ (fun _ => J)); [by apply (htriple_event_keeps _ _ _ _ _ J_kept) |].
  intros now t. apply triple_ret. intros g Hg. by repeat constructor.
Qed.

(** ** Handoffs *)
Lemma dispatch_spec relocation :
  triple W J (dispatch_handoff state relocation)
    (fun r g => match r with Ok fx => quiet fx /\ H g | Err _ => J g end).
Proof.
  unfold dispatch_handoff. apply (triple_bind _ _ _ (fun _ => J)).
  { apply (uses_keeps _ _ _ _ J_kept). by apply uses_trigger. }
  intros [endpoint |]; [| by apply triple_ret]. destruct (from_socket_addr _ _) as [addr |]; [| by apply triple_ret].
  apply (triple_bind _ _ _ (fun _ => J)).
  { apply (uses_keeps _ _ _ _ J_kept). by apply uses_trigger. }
  intros [snapshot |]; [| by apply triple_ret]. eapply triple_bind; [apply commit_spec |].
  intros [u | e]; apply triple_ret; [| done]. intros g Hg. split; [repeat constructor | done].
Qed.
(** A handoff, or what the player is told instead. *)
Lemma handoff_after {E} relocation (finish : E -> Fx) (wrap : RelocationError -> E) :
  (forall e, plain (finish e)) ->
  triple W J (let* fx := dispatch_handoff state relocation in
              Ret match fx with Ok fx => fx | Err error => finish (wrap error) end) after.
Proof.
  intros Hf. eapply triple_bind; [apply dispatch_spec |]. intros [fx | e]; apply triple_ret; intros g Hg.
  - destruct Hg as [Hq Hg]. split; [done | split; auto].
  - destruct (Hf (wrap e)) as [Hq Hn]. split; [done | split; [done | by intros ?%Hn]].
Qed.
Lemma plain_ret (fx : Fx) : plain fx -> triple W J (Ret fx) after.
Proof. intros H'. apply plain_after, uses_ret, H'. Qed.
Lemma handoff_or_after feedback r : (forall e, plain (feedback e)) -> triple W J (handoff_or state feedback r) after.
Proof.
  intros Hf. unfold handoff_or. destruct r as [relocation | e]; [| apply plain_ret, Hf].
  exact (handoff_after relocation feedback id Hf).
Qed.
Lemma teleport_after c : triple W J (execute_teleport map_order town_order state c) after.
Proof.
  unfold execute_teleport. cbv zeta. destruct (teleport_relocation _ _ _ _) as [relocation | e]; [| apply plain_ret; plain_tac].
  apply (handoff_after relocation (fun e => prefixed_info_feedback _ (str (TeleportCommandError_text e))) Relocation). intros e. plain_tac.
Qed.
Lemma execute_after command : triple W J (execute map_order town_order state command) after.
Proof.
  destruct command as [spelled raw | message | [c | c | c | c | c]]; cbn [execute].
  - apply plain_ret. plain_tac.
  - apply plain_ret. plain_tac.
  - apply plain_ret. destruct c; plain_tac.
  - apply plain_after. destruct c; apply try_send_uses.
  - apply plain_after. destruct c; apply try_send_uses.
  - apply plain_after. destruct c; apply try_send_uses.
  - apply teleport_after.
Qed.
Lemma chat_after packet : triple W J (handle_chat_packet map_order town_order clap state packet) after.
Proof.
  destruct packet as [kind message]. cbn [handle_chat_packet]. cbv zeta. destruct (parse clap _) as [cmd |]; [apply execute_after |].
  apply plain_after. destruct kind; try apply send_intent_uses.
  apply (uses_bind _ _ (fun _ => True)); [by apply uses_trigger |]. intros ok _. apply uses_ret. plain_tac.
Qed.
Lemma lift_after (m : itree SessionE Fx) : triple W J m after -> htriple W J (lift m) after failed.
Proof. intros Hm t. eapply triple_bind; [exact Hm |]. intros fx. by apply triple_ret. Qed.
Lemma packet_after packet : htriple W J (InGameSession.handle_packet map_order town_order clap state packet) after failed.
Proof.
  unfold InGameSession.handle_packet, session_mark_rx.
  apply (htriple_bind _ _ _ (fun _ => J)); [by apply (htriple_event_keeps _ _ _ _ _ J_kept) |]. intros now.
  apply (htriple_bind _ _ _ (fun _ => J)); [by apply htriple_modify |]. intros _.
  destruct packet; [apply control_after | apply lift_after ..].
  - apply plain_after, movement_uses.
  - apply chat_after.
  - apply plain_after, combat_uses.
Qed.
Lemma event_after event : triple W J (map_event_to_effects map_order town_order state event) after.
Proof.
  assert (forall e, plain (@fx_many P_InGame (map_event_to_packets e (ig_map_id state) (gc_coords (ig_ctx state))))) as Hm.
  { intros e. split; [apply map_event_packets_quiet | by intros [? ?]]. }
  destruct event; cbn [map_event_to_effects]; try apply plain_ret, Hm.
  - apply handoff_or_after. intros e. plain_tac.
  - destruct destination; cbn [handle_portal_entry]; [| apply plain_ret; plain_tac]. apply handoff_or_after. intros e. plain_tac.
Qed.

(** ** Turns *)
Lemma flush_then {A} (K : G -> Prop) packets (rest : Handler PhaseError A) Q :
  @quiet_packets P_InGame packets -> keeps W K (loop_event P_InGame) -> (forall g, K g -> J g) ->
  htriple W K rest Q failed -> htriple W K (let^ _ := @send_packets P_InGame packets in rest) Q failed.
Proof.
  intros Hq Hk HJ Hr. apply (htriple_bind _ _ _ (fun _ => K)); [| done].
  eapply htriple_conseq; [by apply (htriple_send W K) | done | done |]. intros e g [-> Hg]. auto.
Qed.
Lemma burst_spec n first pending : @quiet_packets P_InGame pending ->
  htriple W J (burst_from map_order town_order state n first pending) (fun _ => J) failed.
Proof.
  revert first pending. induction n as [| n IH]; intros first pending Hq; cbn [burst_from].
  { apply flush_then; [done | apply J_loop | done | by apply htriple_ret]. }
  apply (htriple_bind _ _ _ (fun _ => J)).
  { destruct first; [by apply htriple_ret | by apply (htriple_event_keeps _ _ _ _ _ J_kept)]. }
  intros [ev |]; [| apply flush_then; [done | apply J_loop | done | by apply htriple_ret]].
  apply (htriple_bind _ _ _ after); [apply lift_after, event_after |]. intros fx. cbv zeta.
  apply (htriple_known _ (quiet fx)); [by intros g [? _] |]. intros Hf.
  assert (@quiet_packets P_InGame (pending ++ fx_send fx)) as Hq' by (apply Forall_app; done).
  destruct (fx_disconnect fx) as [e |] eqn:Ed.
  - apply flush_then; [done | apply after_kept | by intros g (_ & Hg & _) |]. apply htriple_fail.
    intros g (_ & Hg & Hh). split; [done |]. intros [r ->]. apply Hh. by exists r.
  - apply (htriple_conseq _ _ J _ _ (fun _ => J) _ failed); [| by intros g (_ & Hg & _) | done | done].
    destruct (fx_transition fx) as [data |]; [| by apply IH].
    apply flush_then; [done | apply J_loop | done | by apply htriple_ret].
Qed.
Lemma apply_spec (m : Handler PhaseError Fx) : htriple W J m after failed ->
  htriple W J (let^ fx := m in @apply_effects P_InGame fx) (fun _ => J) failed.
Proof.
  intros Hm. eapply htriple_bind; [exact Hm |]. intros fx.
  eapply htriple_conseq; [apply (htriple_apply W after failed) | done | by intros a g (_ & _ & _ & Hg & _) | done].
  - apply after_kept.
  - by intros fx' g [Hq _].
  - intros fx' e g (_ & Hg & Hh) [Hd | ->]; [| auto]. split; [done |]. intros [r ->]. apply Hh. by exists r.
Qed.
Lemma turn_spec : htriple W J (ingame_turn map_order town_order clap state) (fun _ => J) failed.
Proof.
  unfold ingame_turn, drain_outbound_burst. apply (htriple_bind _ _ _ (fun _ => J)); [apply burst_spec; constructor |].
  intros [data |]; [by apply htriple_ret |]. cbv zeta.
  apply (htriple_bind _ _ _ (fun _ => J)); [by apply (htriple_event_keeps _ _ _ _ _ J_kept) |].
  intros [| | [packet | | e |] | [ev |]].
  - apply apply_spec, htriple_ret. intros g Hg. split; [constructor | split; [done | by intros [? ?]]].
  - apply apply_spec, tick_after.
  - apply apply_spec, packet_after.
  - apply htriple_fail; auto.
  - apply htriple_fail; auto.
  - apply htriple_fail; auto.
  - apply burst_spec. constructor.
  - by apply htriple_ret.
Qed.

(** The game phase: what its end establishes, when announcing the next phase
    keeps [J] and establishes [Q]. *)
Lemma drive_ingame_spec (st : State P_InGame) (Q : State P_Select -> G -> Prop) :
  (forall data, htriple W J (@into_next_phase P_InGame st data) Q failed) ->
  htriple W J (drive_ingame map_order town_order clap state st) Q failed.
Proof.
  intros Hnext. unfold drive_ingame. apply (htriple_bind _ _ _ (fun _ => J)).
  { unfold reject_when_draining. apply (htriple_bind _ _ _ (fun _ => J)); [by apply (htriple_event_keeps _ _ _ _ _ J_kept) |].
    intros []; [apply htriple_fail | apply htriple_ret]; auto. }
  intros _. eapply htriple_bind; [apply enter_packets_spec |].
  intros packets. cbv beta. apply (htriple_known _ (@quiet_packets P_InGame packets)); [by intros g [? _] |]. intros Hq.
  apply (htriple_conseq _ _ J _ _ Q _ failed); [| by intros g [_ Hg] | done | done].
  apply flush_then; [done | apply J_loop | done |].
  apply (htriple_loop _ _ (fun _ => J)). intros _. apply (htriple_bind _ _ _ (fun _ => J)); [apply turn_spec |].
  intros [data |]; [| by apply htriple_ret]. eapply htriple_bind; [apply Hnext |]. intros st'. by apply htriple_ret.
Qed.
End InGameUses.

(** ** The phases, for any assertion their events keep *)
Section PhaseSpecs.
Context (W : Environment SessionE).
Notation G := (env_state W).

Lemma keeps_and (J K : G -> Prop) ks : keeps W J ks -> keeps W K ks -> keeps W (fun g => J g /\ K g) ks.
Proof. intros H1 H2 A e g He [Hj Hk]. destruct (H1 A e g He Hj), (H2 A e g He Hk). split; eauto. Qed.
Lemma keeps_weaken (J : G -> Prop) (ks ks' : EventPred) : keeps W J ks' -> (forall A e, ks A e -> ks' A e) -> keeps W J ks.
Proof. intros H Hw A e g He. apply H. auto. Qed.
Lemma keeps_pure (F : Prop) (J : G -> Prop) ks : keeps W J ks -> keeps W (fun g => F /\ J g) ks.
Proof. intros H A e g He [Hf Hj]. destruct (H A e g He Hj). split; eauto. Qed.

Lemma reject_spec {p} (J : G -> Prop) drain : keeps W J (loop_event p) ->
  htriple W J (reject_when_draining drain) (fun _ => J) (failing J).
Proof.
  intros Hk. unfold reject_when_draining. destruct drain; [| by apply htriple_ret].
  apply (htriple_bind _ _ _ (fun _ => J)); [by apply (htriple_event_keeps _ _ _ _ _ Hk) |].
  intros []; [by apply htriple_fail | by apply htriple_ret].
Qed.
Lemma failing_weaken (J E : G -> Prop) (e : PhaseError) g : (forall g, J g -> E g) -> failing J e g -> failing E e g.
Proof. intros HE [Hs Hg]. split; auto. Qed.
Lemma fail_spec {X A} `{Std X} (J E : G -> Prop) (e : X) (Q : A -> G -> Prop) : std e = true -> (forall g, J g -> E g) ->
  htriple W J (h_fail e) Q (failing E).
Proof. intros Hs HE. apply htriple_fail. intros g Hg. split; auto. Qed.
Lemma tame_error {p} (fx : PhaseEffects p) (E : G -> Prop) e g : tame fx -> E g -> fx_disconnect fx = Some e \/ e = PE_Other -> failing E e g.
Proof. intros [_ Hd] Hg [He | ->]; (split; [| done]); [by apply Hd | done]. Qed.

Lemma drive_handshake_spec (J0 J E : G -> Prop) M0 Q port directory :
  keeps W J handshake_event -> (forall g, J g -> E g) ->
  htriple W J0 HandshakePhase.handle_enter M0 (failing E) ->
  (forall fx, htriple W (M0 fx) (apply_effects fx) (fun d g => d = None /\ J g) (failing E)) ->
  (forall d, htriple W J (@into_next_phase P_HandshakeGame tt d) Q (failing E)) ->
  htriple W J0 (HandshakePhase.drive_handshake port directory) Q (failing E).
Proof.
  intros Hk HE Henter Happly Hnext.
  assert (keeps W J (loop_event P_HandshakeGame)) as Hl by (eapply keeps_weaken; [exact Hk | by intros A []]).
  unfold HandshakePhase.drive_handshake.
  eapply htriple_bind; [exact Henter |]. intros fx0. eapply htriple_bind; [apply Happly |]. intros d. apply (htriple_known _ (d = None)); [by intros g [? _] |]. intros ->.
  apply (htriple_conseq _ _ J _ _ Q _ (failing E)); [| by intros g [_ ?] | done | done].
  apply (htriple_loop _ _ (fun _ => J)). intros _. apply (htriple_bind _ _ _ (fun _ => J)).
  { unfold HandshakePhase.recv_packet. apply (htriple_bind _ _ _ (fun _ => J)); [by apply (htriple_event_keeps _ _ _ _ _ Hl) |].
    intros []; [by apply htriple_ret | by apply fail_spec ..]. }
  intros packet. eapply htriple_bind.
  { eapply htriple_conseq; [by apply (huses_htriple W J handshake_event), Hk; apply handshake_packet_uses | done | by intros a g Hg; exact Hg | by intros e g; apply failing_weaken]. }
  intros fx. eapply htriple_bind; [apply (htriple_apply W (fun fx g => tame fx /\ J g) (failing E)) |].
  - intros fx'. by apply keeps_pure.
  - by intros fx' g [[? _] _].
  - intros fx' e g [? ?]. apply tame_error; auto.
  - intros d. destruct d as [d |].
    + eapply htriple_bind; [| intros st; by apply htriple_ret].
      apply (htriple_conseq _ _ J _ _ Q _ (failing E)); [apply Hnext | by intros g (_ & _ & _ & ?) | done | done].
    + apply htriple_ret. by intros g (_ & _ & _ & ?).
Qed.

(** A phase that is entered with packets of its own and then loops. *)
Lemma enter_then_loop {p} (J E : G -> Prop) (Q : State (Next p) -> G -> Prop) drain (enter : Handler PhaseError (PhaseEffects p))
    (loop : Handler PhaseError (State (Next p))) (st : State p) (ks : EventPred) :
  keeps W J ks -> (forall A e, loop_event p A e -> ks A e) -> (forall g, J g -> E g) ->
  huses ks enter stays -> htriple W J loop Q (failing E) ->
  htriple W J
    (let^ _ := reject_when_draining drain in
     let^ fx := enter in
     let^ data := apply_effects fx in
     match data with Some data => into_next_phase st data | None => loop end) Q (failing E).
Proof.
  intros Hk Hl HE Henter Hloop.
  assert (keeps W J (loop_event p)) as Hlk by (eapply keeps_weaken; [exact Hk | done]).
  apply (htriple_bind _ _ _ (fun _ => J)).
  { eapply htriple_conseq; [by apply (reject_spec (p := p)) | done | done | by intros e g; apply failing_weaken]. }
  intros _. eapply htriple_bind.
  { eapply htriple_conseq; [exact (huses_htriple W J ks _ _ Henter Hk) | done | by intros a g Hg; exact Hg | by intros e g; apply failing_weaken]. }
  intros fx. eapply htriple_bind; [apply (htriple_apply W (fun fx g => stays fx /\ J g) (failing E)) |].
  - intros fx'. by apply keeps_pure.
  - by intros fx' g [[[? _] _] _].
  - intros fx' e g [[? _] ?]. apply tame_error; auto.
  - intros data. apply (htriple_known _ (data = None)); [by intros g (-> & _ & [_ ->] & _) |]. intros ->.
    apply (htriple_conseq _ _ J _ _ Q _ (failing E)); [exact Hloop | by intros g (_ & _ & _ & ?) | done | done].
Qed.

(** [D] is what holds of the character that is chosen. *)
Lemma drive_select_spec (J E : G -> Prop) (D : SelectedPlayer -> G -> Prop) Q rt (st : State P_Select) :
  keeps W J (select_event (SelectPhase.sr_username rt)) -> (forall g, J g -> E g) ->
  (forall d, keeps W (fun g => J g /\ D d g) (loop_event P_Select)) ->
  (forall slot, htriple W J (SelectPhase.handle_choice rt slot)
     (fun fx g => tame fx /\ J g /\ forall d, fx_transition fx = Some d -> D d g) (failing J)) ->
  (forall d, htriple W (fun g => J g /\ D d g) (@into_next_phase P_Select st d) Q (failing E)) ->
  htriple W J (SelectPhase.drive_select rt st) Q (failing E).
Proof.
  intros Hk HE HD Hchoice Hnext.
  assert (keeps W J (loop_event P_Select)) as Hl by (eapply keeps_weaken; [exact Hk | by intros A []]).
  apply (enter_then_loop (p := P_Select) J E Q _ _ _ st _ Hk); [by intros A [] | done | apply select_enter_uses |].
  pose (M := fun (fx : PhaseEffects P_Select) g => tame fx /\ J g /\ forall d, fx_transition fx = Some d -> D d g).
  assert (forall m : Handler PhaseError _, huses (select_event (SelectPhase.sr_username rt)) m stays -> htriple W J m M (failing J)) as Hstay.
  { intros m Hm. eapply htriple_conseq; [exact (huses_htriple W J _ m _ Hm Hk) | done | | done].
    intros fx g [[Hq Ht] Hg]. split; [done | split; [done |]]. intros d. by rewrite Ht. }
  assert (forall m : Handler PhaseError _, htriple W J m M (failing J) -> htriple W J m M (failing E)) as Herr.
  { intros m Hm. eapply htriple_conseq; [exact Hm | done | done | by intros e g; apply failing_weaken]. }
  apply (htriple_phase_loop W J M (failing E)).
  - intros fx A e g He (Hq & Hg & Hd). destruct (Hl A e g He Hg) as [Ha Hb]. split; [done |].
    intros a g' Hans. split; [done |]. split; [by eapply Hb |]. intros d Ed.
    destruct (HD d A e g He (conj Hg (Hd d Ed))) as [_ Hb']. by eapply Hb'.
  - by intros fx g [[? _] _].
  - intros fx e g (Ht & Hg & _). apply tame_error; auto.
  - done.
  - intros e g Hs Hg. split; auto.
  - by intros fx g (_ & ? & _).
  - intros r g Hg. split; [tame_tac | by split].
  - intros g Hg. split; [tame_tac | by split].
  - intros now. apply Herr, Hstay, select_tick_uses.
  - intros packet now. apply Herr. unfold SelectPhase.handle_packet, session_mark_rx.
    apply (htriple_bind _ _ _ (fun _ => J)); [by apply htriple_modify |]. intros _.
    destruct packet as [c | [empire | slot name cg r ap rs | slot code r | slot]].
    + apply Hstay, control_stays.
    + apply Hstay. uses_tac.
    + apply Hstay, create_uses.
    + apply Hstay, delete_uses.
    + apply Hchoice.
  - intros fx d Ed _. eapply htriple_conseq; [apply Hnext | | done | done]. intros g (_ & Hg & Hd). auto.
Qed.

Lemma drive_loading_spec `{GrowthRng} (J E : G -> Prop) Q ctx entry stats id (st : State P_Loading) :
  keeps W J (loading_event (loading_username st) id) -> (forall g, J g -> E g) ->
  htriple W J (@into_next_phase P_Loading st entry) Q (failing E) ->
  htriple W J (LoadingPhase.drive_loading ctx entry stats st) Q (failing E).
Proof.
  intros Hk HE Hnext.
  assert (keeps W J (loop_event P_Loading)) as Hl by (eapply keeps_weaken; [exact Hk | by intros A []]).
  apply (enter_then_loop (p := P_Loading) J E Q _ _ _ st _ Hk); [by intros A [] | done | apply loading_enter_uses |].
  pose (M := fun (fx : PhaseEffects P_Loading) g => (tame fx /\ forall data, fx_transition fx = Some data -> data = entry) /\ J g).
  apply (htriple_phase_loop W J M (failing E)).
  - intros fx. by apply keeps_pure.
  - by intros fx g [[[? _] _] _].
  - intros fx e g [[Ht _] Hg]. apply tame_error; auto.
  - done.
  - intros e g Hs Hg. split; auto.
  - by intros fx g [_ ?].
  - intros r g Hg. split; [split; [tame_tac | done] | done].
  - intros g Hg. split; [split; [tame_tac | done] | done].
  - intros now. eapply htriple_conseq; [exact (huses_htriple W J _ _ _ (loading_tick_uses (loading_username st) id now) Hk) | done | | by intros e g; apply failing_weaken].
    intros fx g [[Hq Ht] Hg]. split; [split; [done |] | done]. by rewrite Ht.
  - intros packet now.
    eapply htriple_conseq; [exact (huses_htriple W J _ _ _ (loading_packet_uses (loading_username st) id entry packet now) Hk) | done | done | by intros e g; apply failing_weaken].
  - intros fx d Ed _. apply (htriple_known _ (d = entry)); [intros g [[_ Hd] _]; by apply Hd |]. intros ->.
    eapply htriple_conseq; [exact Hnext | by intros g [_ ?] | done | done].
Qed.

(** [A] is what a decision about a login establishes. *)
Lemma drive_login_spec hmac (J E : G -> Prop) (A : LoginPhase.AuthDecision -> G -> Prop) Q deps drain :
  keeps W J (loop_event P_Login) -> keeps W E (loop_event P_Login) -> (forall d, keeps W (A d) (loop_event P_Login)) ->
  (forall g, J g -> E g) -> (forall d g, A d g -> E g) ->
  (forall input, htriple W J (LoginPhase.authenticate_token_login hmac deps input) A (failing E)) ->
  (forall u e, htriple W (A (LoginPhase.Accepted u e)) (@into_next_phase P_Login tt u) Q (failing E)) ->
  htriple W J (LoginPhase.drive_login hmac deps drain) Q (failing E).
Proof.
  intros HJ HEk HA HE HAE Hauth Hnext. unfold LoginPhase.drive_login. apply (htriple_bind _ _ _ (fun _ => J)).
  { apply (htriple_conseq _ _ J _ _ (fun _ => J) _ (failing J)); [by apply (reject_spec (p := P_Login)) | done | done | by intros e g; apply failing_weaken]. }
  intros _.
  pose (M := fun (fx : PhaseEffects P_Login) g => tame fx /\
    match fx_disconnect fx, fx_transition fx with
    | Some _, _ => E g
    | None, Some u => exists e, A (LoginPhase.Accepted u e) g
    | None, None => J g
    end).
  assert (forall m : Handler PhaseError _, huses (loop_event P_Login) m stays -> htriple W J m M (failing E)) as Hstay.
  { intros m Hm. eapply htriple_conseq; [exact (huses_htriple W J _ m _ Hm HJ) | done | | by intros e g; apply failing_weaken].
    intros fx g [[Hq Ht] Hg]. split; [done |]. rewrite Ht. destruct (fx_disconnect fx); auto. }
  apply (htriple_phase_loop W J M (failing E)).
  - intros fx. apply keeps_pure. destruct (fx_disconnect fx) as [e |]; [done |]. destruct (fx_transition fx) as [u |]; [| done].
    intros B ev g He [e Hg]. destruct (HA _ B ev g He Hg) as [Ha Hb]. split; [done |]. intros a g' Hans. exists e. by eapply Hb.
  - by intros fx g [[? _] _].
  - intros fx e g [Ht Hg]. apply tame_error; [done |]. destruct (fx_disconnect fx); [done |].
    destruct (fx_transition fx); [destruct Hg as [e' Hg] |]; eauto.
  - done.
  - intros e g Hs Hg. split; auto.
  - intros fx g [_ Hg] Hd Ht. by rewrite Hd, Ht in Hg.
  - intros r g Hg. split; [tame_tac | cbn; auto].
  - intros g Hg. split; [tame_tac | done].
  - intros now. apply Hstay, login_tick_uses.
  - intros packet now. unfold LoginPhase.handle_packet, session_mark_rx.
    apply (htriple_bind _ _ _ (fun _ => J)); [by apply htriple_modify |]. intros _.
    destruct packet as [c | [username token key]]; [apply Hstay, control_stays |].
    cbv zeta. eapply htriple_bind; [apply Hauth |]. intros [u e | r]; apply htriple_ret; intros g Hg.
    + split; [split; [destruct e; by repeat constructor | done] | by exists e].
    + split; [tame_tac | cbn; eauto].
  - intros fx u Ht Hd. apply (htriple_conseq _ _ (fun g => exists e, A (LoginPhase.Accepted u e) g) _ _ Q _ (failing E)); [| | done | done].
    + intros t g n l o g' [e Hg]. exact (Hnext u e t g n l o g' Hg).
    + intros g [_ Hg]. by rewrite Hd, Ht in Hg.
Qed.

(** Where announcing a phase keeps the assertion. *)
Definition send_event : EventPred := fun A e => match e with E_send_many _ _ => True | _ => False end.
Lemma send_keeps {p} (J : G -> Prop) (packets : list (S2c p)) : keeps W J send_event ->
  htriple W J (send_packets packets) (fun _ => J) (failing J).
Proof.
  intros Hk. unfold send_packets. apply (htriple_bind _ _ _ (fun _ => J)); [by apply (htriple_event_keeps _ _ _ _ _ Hk) |].
  intros []; [by apply htriple_ret | by apply htriple_fail].
Qed.
Lemma next_keeps {p} (J : G -> Prop) (st : State p) data : keeps W J send_event ->
  htriple W J (into_next_phase st data) (fun st' g => st' = transition_state LoadedPlayer p st data /\ J g) (failing J).
Proof.
  intros Hk. unfold into_next_phase. apply (htriple_bind _ _ _ (fun _ => J)); [by apply send_keeps |]. intros _. by apply htriple_ret.
Qed.
Lemma handshake_keeps (J : G -> Prop) port directory : keeps W J handshake_event -> keeps W J send_event ->
  htriple W J (HandshakePhase.drive_handshake port directory) (fun _ => J) (failing J).
Proof.
  intros Hk Hs.
  apply (drive_handshake_spec J J J (fun fx g => (fx_disconnect fx = None /\ fx_transition fx = None) /\ J g) (fun _ => J)); [done | done | | |].
  - unfold HandshakePhase.handle_enter. apply (htriple_bind _ _ _ (fun _ => J)).
    { by apply (htriple_event_keeps _ _ _ _ _ Hk). }
    intros now. apply (htriple_bind _ _ _ (fun _ => J)); [by apply htriple_modify |]. intros data. by apply htriple_ret.
  - intros fx. apply (htriple_known _ (fx_disconnect fx = None /\ fx_transition fx = None)); [by intros g [? _] |]. intros [Hd Ht].
    unfold apply_effects. apply (htriple_bind _ _ _ (fun _ => J)).
    { apply (htriple_conseq _ _ J _ _ (fun _ => J) _ (failing J)); [by apply send_keeps | by intros g [_ ?] | done | done]. }
    intros _. rewrite Hd. apply htriple_ret. by rewrite Ht.
  - intros d. eapply htriple_conseq; [by apply next_keeps | done | by intros a g [_ ?] | done].
Qed.

(** The states of a connection between its phases: what an end with a released
    lease needs. *)
Lemma run_phase_spec {A} P end_ (m : Handler PhaseError A) Q (J : G -> Prop) (E : SessionEnd -> G -> Prop) :
  htriple W P m Q (failing J) -> (forall g, J g -> E end_ g) -> htriple W P (run_phase end_ m) Q E.
Proof.
  intros Hm HE. apply htriple_run_phase. apply (htriple_conseq _ _ P _ _ Q _ (failing J)); [done | done | done |].
  intros [r [] |] g [Hs Hg]; try done; [destruct end_ |]; auto.
Qed.
Lemma run_select_core_spec J D E Q ctx (st : State P_Select) :
  keeps W J (select_event (select_username st)) -> (forall g, J g -> E (AfterLogin (select_username st) Release) g) ->
  (forall d, keeps W (fun g => J g /\ D d g) (loop_event P_Select)) ->
  (forall rt slot, SelectPhase.sr_username rt = select_username st -> htriple W J (SelectPhase.handle_choice rt slot)
     (fun fx g => tame fx /\ J g /\ forall d, fx_transition fx = Some d -> D d g) (failing J)) ->
  (forall d, htriple W (fun g => J g /\ D d g) (@into_next_phase P_Select st d) Q (failing J)) ->
  htriple W J (SelectPhase.run_select_core ctx st) Q E.
Proof.
  intros Hk HE HD Hc Hn. unfold SelectPhase.run_select_core. cbv zeta. apply (run_phase_spec _ _ _ _ J); [| done].
  apply (drive_select_spec J J D); auto.
Qed.
Lemma run_loading_spec `{GrowthRng} J E Q ctx (st : State P_Loading) :
  keeps W J (loading_event (loading_username st) (loading_player_id st)) ->
  (forall g, J g -> E (AfterLogin (loading_username st) Release) g) ->
  (forall entry, htriple W J (@into_next_phase P_Loading st entry) Q (failing J)) ->
  htriple W J (LoadingPhase.run_loading ctx st) Q E.
Proof.
  intros Hk HE Hn. unfold LoadingPhase.run_loading. cbv zeta.
  apply (htriple_bind _ _ _ (fun _ => J)); [by apply (htriple_event_keeps _ _ _ _ _ Hk) |].
  intros []; [by apply htriple_fail |]. eapply htriple_bind.
  - eapply htriple_conseq; [exact (huses_htriple W J _ _ _ (load_entry_uses _ _ ctx st eq_refl eq_refl) Hk) | done | by intros a g Hg; exact Hg |].
    intros e g [He Hg]. destruct e as [| u [] | u]; try discriminate He. apply bool_decide_eq_true in He as ->. auto.
  - intros [entry stats]. apply (run_phase_spec _ _ _ _ J); [| done].
    apply (htriple_conseq _ _ J _ _ Q _ (failing J)); [| by intros g [_ ?] | done | done].
    by apply (drive_loading_spec J J Q ctx entry stats (loading_player_id st)).
Qed.

(** The assertions between the phases of a connection. *)
Lemma run_core_spec `{GrowthRng} hmac map_order town_order clap connection_id ctx (J0 Jl : G -> Prop) (Js : State P_Select -> G -> Prop)
    (Jd : State P_Loading -> G -> Prop) (Jg : State P_InGame -> G -> Prop) (E : SessionEnd -> G -> Prop) :
  htriple W J0 (HandshakePhase.run_handshake (gc_advertised_port ctx) false) (fun _ => Jl) E ->
  keeps W Jl (loop_event P_Login) ->
  htriple W Jl (LoginPhase.run_login_core hmac connection_id ctx) Js E ->
  (forall st, htriple W (Js st) (SelectPhase.run_select_core ctx st) Jd E) ->
  (forall st, htriple W (Jd st) (LoadingPhase.run_loading ctx st) Jg E) ->
  (forall st, htriple W (Jg st) (run_ingame map_order town_order clap connection_id ctx st) Js E) ->
  htriple W J0 (run_core_connection hmac map_order town_order clap connection_id ctx) (fun never _ => match never : Empty_set with end) E.
Proof.
  intros Hh Hk Hl Hs Hd Hg. unfold run_core_connection. eapply htriple_bind; [exact Hh |]. intros u0.
  apply (htriple_bind _ _ _ (fun _ => Jl)).
  { unfold start_session. apply (htriple_bind _ _ _ (fun _ => Jl)); [by apply (htriple_event_keeps _ _ _ _ _ Hk) |].
    intros now. by apply htriple_modify. }
  intros u. eapply htriple_bind; [exact Hl |]. intros st. apply (htriple_loop _ _ Js). intros st'.
  eapply htriple_bind; [| intros st2; by apply htriple_ret]. unfold game_turn.
  eapply htriple_bind; [apply Hs |]. intros loading. eapply htriple_bind; [apply Hd |]. intros ingame. apply Hg.
Qed.
(** Without a decision that matters, a login keeps what its events keep. *)
Lemma login_keeps hmac (J : G -> Prop) deps drain : keeps W J (loop_event P_Login) -> (forall u, keeps W J (claim_event u)) ->
  keeps W J send_event ->
  htriple W J (LoginPhase.drive_login hmac deps drain) (fun _ => J) (failing J).
Proof.
  intros Hl Hc Hs. apply (drive_login_spec hmac J J (fun _ => J)); try done.
  - intros input. eapply htriple_conseq; [exact (huses_htriple W J _ _ _ (authenticate_uses hmac deps input) (Hc _)) | done | by intros d g [_ ?] | done].
  - intros u e. eapply htriple_conseq; [by apply next_keeps | done | by intros a g [_ ?] | done].
Qed.
Lemma login_core_spec hmac connection_id ctx P Q J E :
  keeps W P (fun A e => match e with E_peer_ip => True | _ => False end) -> (forall g, P g -> E BeforeLogin g) ->
  (forall deps, LoginPhase.ld_mode deps = LoginPhase.ClaimActive (gc_server_id ctx) connection_id (ttl_secs (gc_active_session_stale_threshold ctx)) ->
     htriple W P (LoginPhase.drive_login hmac deps true) Q (failing J)) ->
  (forall g, J g -> E BeforeLogin g) ->
  htriple W P (LoginPhase.run_login_core hmac connection_id ctx) Q E.
Proof.
  intros Hk HE Hd HJ. unfold LoginPhase.run_login_core, LoginPhase.run_login.
  apply (htriple_bind _ _ _ (fun _ => P)); [by apply (htriple_event_keeps _ _ _ _ _ Hk) |].
  intros [ip |]; [| by apply htriple_fail]. apply (run_phase_spec _ _ _ _ J); [by apply Hd | done].
Qed.
End PhaseSpecs.
