(* ===== verification/SessionPresence.v ===== *)
(** A connection and its character on the map: it enters at most once before it
    leaves, speaks only for the character it brought, and never ends while the
    character is still there. *)
From ITree Require Import ITree.
From S2P Require Import Prelude Domain StatSource Wire Protocol GamePacket Connection Handshake Space Entities.
From S2P Require Import Database Coords MapPort Packets Commands Interact Session Phases InGameSession SessionLogic.
From S2P Require Import Footprints.

(** The character that entered last, and whether it has not been asked to leave.

    A leave counts as done whatever its answer.  The map fails it only when it has
    gone itself or has no active player of that id and net id
    (leave_player_and_snapshot in zohar-sim/src/runtime/player/persistence.rs), so an error too means that the
    character is not there (its other errors are components missing that every
    player has); that the map answers so is read off its code and assumed
    here. *)
Definition Presence : Type := option (LeaveMsg * bool).
Definition absent (g : Presence) : Prop := forall msg, g <> Some (msg, true).
Definition entered_as (m : EnterMsg) : LeaveMsg := {| lm_player_id := em_player_id m; lm_player_net_id := em_player_net_id m |}.
Definition presence_env : Environment SessionE :=
  {| env_state := Presence;
     env_allows A e g :=
       match e with
       | E_enter_player _ => absent g
       | E_leave_and_snapshot msg | E_send_leave msg => g = Some (msg, true)
       | E_capture msg => exists b, g = Some (msg, b)
       | E_try_intent m => exists msg b, g = Some (msg, b) /\ cim_player_id m = lm_player_id msg
       | _ => True
       end;
     env_answers A e a g g' :=
       match e in SessionE A return A -> Prop with
       | E_enter_player m => fun entered => g' = Some (entered_as m, entered)
       | E_leave_and_snapshot _ => fun _ => g' = None
       | E_send_leave _ => fun _ => g' = None
       | _ => fun _ => g' = g
       end a |}.

Ltac keep_tac := intros A e g He Hg; destruct e; try done; (split; [try done | by intros a g' ->]).
Lemma select_keeps u J : keeps presence_env J (select_event u).
Proof. keep_tac. Qed.
Lemma loading_keeps u id J : keeps presence_env J (loading_event u id).
Proof. keep_tac. Qed.
Lemma handshake_event_keeps J : keeps presence_env J handshake_event.
Proof. keep_tac. Qed.
Lemma persist_keeps J : keeps presence_env J persist_event.
Proof. keep_tac. Qed.
Lemma ingame_keeps state b : keeps presence_env (fun g => g = Some (leave_msg state, b)) (ingame_event state).
Proof.
  intros A e g He ->. destruct e; try done; (split; [try done | by intros a g' ->]).
  - exists b. by rewrite He.
  - exists (leave_msg state), b. by rewrite He.
Qed.

Section Presence.
Context `{GrowthRng} (hmac_sha256 : bytes -> bytes -> bytes) (map_order : list MapId) (town_order : list (MapId * Empire)) (clap : Clap).
Context (connection_id : string) (ctx : GameContext).
Notation W := presence_env.

Lemma finalize_presence {A} state b (r : result A SessionEnd) : r <> Err BeforeLogin ->
  triple W (fun g => g = Some (leave_msg state, b))
    (finalize_ingame_result state (if b then Some (leave_msg state) else None) r) (fun _ => absent).
Proof.
  intros Hr. destruct b; [| apply triple_ret; intros g ->; by intros msg].
  assert (forall R (k : option PlayerSnapshot -> itree SessionE R), (forall s, triple W (fun g => g = None) (k s) (fun _ => absent)) ->
    triple W (fun g => g = Some (leave_msg state, true)) (ITree.bind (ITree.trigger (E_leave_and_snapshot (leave_msg state))) k) (fun _ => absent)) as Hl.
  { intros R k Hk. apply (triple_bind W _ _ (fun _ g => g = None)); [by apply triple_trigger | exact Hk]. }
  assert (forall R (x : R), triple W (fun g => g = None) (Ret x) (fun _ => absent)) as Hret.
  { intros R x. apply triple_ret. intros g ->. by intros msg. }
  cbn [finalize_ingame_result]. destruct r as [st | [| u la | u]]; [| done | |].
  - apply Hl. intros [snapshot |]; [| apply Hret].
    eapply triple_bind; [apply flush_keeps, persist_keeps |]. intros [fl | fe]; [apply Hret |].
    eapply triple_bind; [apply commit_keeps, persist_keeps |]. intros c. apply Hret.
  - apply Hl. intros [snapshot |]; [| apply Hret].
    eapply triple_bind; [apply commit_keeps, persist_keeps |]. intros c. apply Hret.
  - apply (triple_bind W _ _ (fun _ g => g = None)); [by apply triple_trigger |]. intros ok. apply Hret.
Qed.
Lemma prepare_presence st :
  htriple W absent (prepare_ingame connection_id ctx st)
    (fun r g => exists b, r.2 = (if b : bool then Some (leave_msg r.1) else None) /\ g = Some (leave_msg r.1, b)) (fun _ => absent).
Proof.
  unfold prepare_ingame. cbv zeta. apply (htriple_bind W _ _ (fun _ => absent)); [by apply htriple_event; [| intros a g g' Hg ->] |].
  intros []; [by apply htriple_fail |]. destruct (negb _); [by apply htriple_fail |].
  eapply (htriple_bind W _ _ (fun b g => g = Some (_, b))).
  - apply htriple_event; [done |]. intros b g g' _ ->. reflexivity.
  - intros b. apply htriple_ret. intros g ->. by exists b.
Qed.
Lemma ingame_presence st :
  htriple W absent (run_ingame map_order town_order clap connection_id ctx st) (fun _ => absent) (fun _ => absent).
Proof.
  unfold run_ingame. eapply htriple_bind; [apply prepare_presence |]. intros [state leave] t. cbn [fst snd].
  apply (triple_exists W). intros b. apply triple_pure. intros ->.
  set (J := fun g : Presence => g = Some (leave_msg state, b)).
  apply (triple_bind W _ _ (fun r g => r <> Err BeforeLogin /\ J g)).
  - eapply triple_conseq; [apply (htriple_run_phase W J _ _ (fun _ => J) (fun e g => e <> BeforeLogin /\ J g)) | done |].
    + eapply htriple_conseq; [apply (drive_ingame_spec map_order town_order clap state W J J) with (Q := fun _ => J) | done | done |].
      * apply ingame_keeps.
      * intros A e g He. apply (ingame_keeps state b). by destruct e.
      * done.
      * intros snapshot. eapply triple_conseq; [apply (commit_keeps W J), persist_keeps | done | by intros []].
      * intros data. eapply htriple_conseq; [apply (next_keeps W J) | done | by intros a g [_ ?] | ].
        { by keep_tac. }
        intros e g [Hs Hg]. split; [done | by intros [r ->]].
      * intros e g [Hg _]. split; [| done]. by destruct e as [r [] |].
    + intros [[a t'] | e] g; [by split | intros [He Hg]; split; [congruence | done]].
  - intros r. apply triple_pure. intros Hr. eapply triple_conseq; [by apply (finalize_presence state b r) | done |]. by intros [[? ?] |].
Qed.

(** [C4] [C] In every run of a connection, whatever the clients, the database and the
    map answer: the character enters the map only while it is not on it; it is
    asked to leave only when it is there, by the identifiers it entered with;
    snapshots and intents name the same character; and however the connection
    ends, no character it brought is left on the map. *)
Theorem connection_presence :
  htriple W absent (run_core_connection hmac_sha256 map_order town_order clap connection_id ctx) (fun never _ => match never : Empty_set with end)
    (fun _ => absent).
Proof.
  apply (run_core_spec W _ _ _ _ _ _ absent absent (fun _ => absent) (fun _ => absent) (fun _ => absent)).
  - apply (run_phase_spec W _ _ _ _ absent); [| done]. apply handshake_keeps; [apply handshake_event_keeps | keep_tac].
  - keep_tac.
  - apply (login_core_spec W _ _ _ absent _ absent); [keep_tac | done | | done]. intros deps _. apply login_keeps; [keep_tac | intros u; keep_tac | keep_tac].
  - intros st. apply (run_select_core_spec W absent (fun _ _ => True)); [apply select_keeps | done | | |].
    + intros d A e g He [Hg _]. apply (select_keeps "" (fun g => absent g /\ True) A e g); [by destruct e | done].
    + intros rt slot E. eapply htriple_conseq; [exact (huses_htriple W absent _ _ _ (choice_uses rt slot) (select_keeps _ absent)) | done | by intros fx g [? ?] | done].
    + intros d. eapply htriple_conseq; [apply (next_keeps W absent); keep_tac | by intros g [? _] | by intros a g [_ ?] | done].
  - intros st. apply (run_loading_spec W absent); [apply loading_keeps | done |].
    intros entry. eapply htriple_conseq; [apply (next_keeps W absent); keep_tac | done | by intros a g [_ ?] | done].
  - apply ingame_presence.
Qed.
End Presence.
