(* ===== verification/SessionLease.v ===== *)
(** A connection and its session lease: which accounts a connection can still
    hold when it ends, over the tables of [Database.v] and with any other
    statements running in between. *)
From ITree Require Import ITree.
From S2P Require Import Prelude Domain StatSource Wire Protocol GamePacket Connection Handshake Space Entities.
From S2P Require Import Database Coords MapPort Packets Commands Interact Session Phases InGameSession SessionLogic.
From S2P Require Import Footprints.

Section Lease.
Context (server_id connection_id : string).

(** The account's session is held by this connection. *)
Definition mine (db : Database) (u : string) : Prop :=
  exists s, sessions db !! u = Some s /\ held_by s server_id connection_id = true.
Definition only (u : string) (db : Database) : Prop := forall u', mine db u' -> u' = u.
Definition none (db : Database) : Prop := forall u', ~ mine db u'.

(** Statements of others: anything but a claim by this connection. *)
Definition claims (op : DbOp) : bool :=
  match op with
  | Op_acquire _ s c _ | Op_resume _ _ s c _ _ _ => bool_decide (s = server_id) && bool_decide (c = connection_id)
  | _ => false
  end.
Definition others (db db' : Database) : Prop := exists ops, Forall (fun step => claims step.2 = false) ops /\ db' = db_run ops db.

(** A statement runs on the tables as the others left them; it answers what it
    answers, or fails with or without its effect.  An exit that the persistence
    worker confirms has been committed. *)
Definition lease_env : Environment SessionE :=
  {| env_state := Database;
     env_allows A e db := True;
     env_answers A e a db db' :=
       match e in SessionE A return A -> Prop with
       | @E_db A c => fun r => exists now db1, others db db1 /\
           ((r, db') = db_exec now c db1 \/ (exists error, r = Err error) /\ (db' = db1 \/ db' = snd (db_exec now c db1)))
       | E_await (Op_exit _ u s c snapshot) _ => fun reply =>
           match reply with
           | Reply_result (Ok _) => exists db1 db2, others db db1 /\ Database.commit_player_exit u s c snapshot db1 = (Ok tt, db2) /\ others db2 db'
           | _ => others db db'
           end
       | _ => fun _ => others db db'
       end a |}.

(** ** Nothing but a claim extends what is held *)
Lemma mine_insert db u' s' u :
  mine (set_sessions (<[u' := s']> (sessions db)) db) u -> (u' = u -> held_by s' server_id connection_id = true -> mine db u) -> mine db u.
Proof.
  intros (s & E & Hs) H. cbn in E. destruct (decide (u' = u)) as [-> | Hn].
  - rewrite lookup_insert_eq in E. injection E as ->. auto.
  - rewrite lookup_insert_ne in E by done. by exists s.
Qed.
Lemma mine_ext db db' u : sessions db' = sessions db -> mine db' u -> mine db u.
Proof. unfold mine. by intros ->. Qed.
Lemma release_row_mine db u' s c b t u : release_row u' s c (sessions db) = (b, t) -> mine (set_sessions t db) u -> mine db u.
Proof.
  unfold release_row. destruct (sessions db !! u') as [row |] eqn:E; [destruct (held_by row s c) |].
  - intros [= _ <-] H. apply (mine_insert _ _ _ _ H). intros _. by unfold held_by.
  - by intros [= _ <-].
  - by intros [= _ <-].
Qed.
Lemma released_none db u b t : only u db -> release_row u server_id connection_id (sessions db) = (b, t) -> none (set_sessions t db).
Proof.
  intros Ho Hr u' Hm. pose proof (release_row_mine _ _ _ _ _ _ u' Hr Hm) as Hm'. pose proof (Ho _ Hm') as ->.
  destruct Hm' as (s & E & Hs). destruct Hm as (s' & E' & Hs'). unfold release_row in Hr. rewrite E, Hs in Hr.
  injection Hr as <- <-. cbn in E'. rewrite lookup_insert_eq in E'. injection E' as <-. discriminate Hs'.
Qed.

Lemma mine_step now op db u : claims op = false -> mine (db_step now op db) u -> mine db u.
Proof.
  intros Hc. destruct op; cbn [db_step claims] in *.
  - unfold update_password. by destruct (accounts db !! username).
  - unfold get_or_create_profile. by destruct (profiles db !! username).
  - unfold update_profile_empire. by destruct (profiles db !! username).
  - apply mine_ext, create_player_sessions.
  - unfold delete_player_with_code. by destruct (profiles db !! username).
  - apply mine_ext, save_player_snapshot_sessions.
  - assert (forall h t i p st, held_by {| ss_server_id := Some server_id0; ss_connection_id := Some connection_id0; ss_last_heartbeat := h;
      ss_login_token := t; ss_login_issued_at := i; ss_peer_ip := p; ss_state := st |} server_id connection_id = true -> False) as Hno.
    { intros h t i p st [[= ->] [= ->]]%held_by_true. apply andb_false_iff in Hc as [Hc%bool_decide_eq_false | Hc%bool_decide_eq_false]; by destruct Hc. }
    intros H. apply (mine_insert _ _ _ _ H). intros -> Hs. destruct (sessions db !! u) as [s |] eqn:E; [| by apply Hno in Hs].
    destruct (_ || _); [by apply Hno in Hs | by exists s].
  - unfold resume_session_with_token. destruct (sessions db !! username) as [s |]; [| done]. destruct (token_valid _ _ _ _ _ && _); [| done].
    intros H. apply (mine_insert _ _ _ _ H). intros -> [[= ->] [= ->]]%held_by_true. apply andb_false_iff in Hc as [Hc%bool_decide_eq_false | Hc%bool_decide_eq_false]; by destruct Hc.
  - intros H. apply (mine_insert _ _ _ _ H). intros ->. destruct (sessions db !! u) as [s |] eqn:E; [| done].
    unfold held_by at 1. cbn. destruct (_ && _ && _); [| done]. intros Hs. by exists s.
  - unfold validate_login_token. destruct (sessions db !! username) as [s |] eqn:E; [| done]. destruct (_ && _); [| done].
    intros H. apply (mine_insert _ _ _ _ H). intros -> Hs. by exists s.
  - unfold mark_session_stale. destruct (sessions db !! username) as [s |] eqn:E; [| done]. destruct (held_by s _ _); [| done].
    intros H. apply (mine_insert _ _ _ _ H). intros -> Hs. by exists s.
  - unfold release_session. destruct (release_row _ _ _ _) as [b t] eqn:Er. exact (release_row_mine _ _ _ _ _ _ u Er).
  - unfold Database.commit_player_exit. destruct (players db !! _); [| done]. destruct (runtime_states db !! _); [| done].
    destruct (negb _); [done |]. destruct (_ <? _); [done |]. destruct (progressions db !! _); [| done].
    destruct (negb _); [done |]. destruct (release_row _ _ _ _) as [[] t] eqn:Er; [| done].
    intros H. apply (release_row_mine _ _ _ _ _ _ u Er). exact H.
  - unfold update_session_heartbeat. destruct (sessions db !! username) as [s |] eqn:E; [| done]. destruct (is_state s _); [| done].
    intros H. apply (mine_insert _ _ _ _ H). intros -> Hs. by exists s.
Qed.
Lemma mine_others db db' u : others db db' -> mine db' u -> mine db u.
Proof.
  intros (ops & Hf & ->). revert db. induction Hf as [| [now op] ops Hc Hf IH]; intros db; [done |].
  intros H. apply (mine_step now op db u Hc). exact (IH _ H).
Qed.
Lemma only_others u db db' : others db db' -> only u db -> only u db'.
Proof. intros Ho H u' Hm. apply H. by eapply mine_others. Qed.
Lemma none_others db db' : others db db' -> none db -> none db'.
Proof. intros Ho H u' Hm. apply (H u'). by eapply mine_others. Qed.
Lemma none_only u db : none db -> only u db.
Proof. intros H u' Hm. by destruct (H u'). Qed.

(** ** What the events of the phases keep *)
Definition claim_of {A} (c : DbCall A) (u : string) : bool :=
  match c with Call_resume u' _ _ _ _ _ _ => bool_decide (u' = u) | _ => false end.
Lemma exec_mine {A} now (c : DbCall A) db u : claim_of c u = false -> mine (snd (db_exec now c db)) u -> mine db u.
Proof.
  intros Hc. destruct c; cbn [db_exec snd claim_of] in *; try done.
  - unfold resume_session_with_token. destruct (sessions db !! username) as [s |]; [| done].
    destruct (token_valid _ _ _ _ _ && _); [| done]. intros H. apply (mine_insert _ _ _ _ H). intros ->.
    by rewrite bool_decide_true in Hc.
  - exact (mine_step now (Op_validate username token idle_ttl_secs peer_ip) db u eq_refl).
  - exact (mine_step now (Op_set_token username token) db u eq_refl).
  - exact (mine_step now (Op_release username server_id0 connection_id0) db u eq_refl).
  - exact (mine_step now (Op_heartbeat username) db u eq_refl).
  - exact (mine_step now (Op_get_or_create username) db u eq_refl).
  - exact (mine_step now (Op_update_empire username empire) db u eq_refl).
  - exact (mine_step now (Op_create username slot name class gender appearance) db u eq_refl).
  - exact (mine_step now (Op_delete username slot code) db u eq_refl).
Qed.
(** An event that claims at most the account [u]. *)
Definition claims_only (u : string) : EventPred := fun A e =>
  match e with E_db c => forall u', u' <> u -> claim_of c u' = false | _ => True end.
Lemma answers_mine A (e : SessionE A) a db db' u :
  (match e with E_db c => claim_of c u = false | _ => True end) -> env_answers lease_env A e a db db' -> mine db' u -> mine db u.
Proof.
  intros Hc Ha Hm.
  assert (others db db' -> mine db u) as Ho by (intros H; by eapply mine_others).
  destruct e; cbn in Ha; try by apply Ho.
  - destruct Ha as (now & db1 & H1 & [H2 | [_ [-> | ->]]]); apply (mine_others _ _ _ H1); [| done | by eapply exec_mine].
    apply (exec_mine now call db1 u Hc). by rewrite <- H2.
  - destruct op as [snapshot | kind u' s c snapshot]; [by apply Ho |]. destruct a as [[x | error] | |]; try by apply Ho.
    destruct Ha as (db1 & db2 & H1 & H2 & H3). apply (mine_others _ _ _ H1).
    apply (mine_step 0 (Op_commit_exit u' s c snapshot) db1 u eq_refl). cbn. rewrite H2. by apply (mine_others _ _ _ H3).
Qed.
Lemma keeps_only u : keeps lease_env (only u) (claims_only u).
Proof.
  intros A e db He Hu. split; [exact Logic.I |]. intros a db' Ha u' Hm. destruct (decide (u' = u)) as [| Hn]; [done |].
  apply Hu. apply (answers_mine A e a db db' u'); [| exact Ha | exact Hm]. destruct e; try done. by apply He.
Qed.
(** No claim at all. *)
Definition no_claim : EventPred := fun A e => match e with E_db c => forall u, claim_of c u = false | _ => True end.
Lemma keeps_none : keeps lease_env none no_claim.
Proof.
  intros A e db He Hu. split; [exact Logic.I |]. intros a db' Ha u Hm. apply (Hu u).
  apply (answers_mine A e a db db' u); [| exact Ha | exact Hm]. by destruct e.
Qed.
End Lease.

Section LeaseTheorem.
Context `{GrowthRng} (hmac_sha256 : bytes -> bytes -> bytes) (map_order : list MapId) (town_order : list (MapId * Empire)) (clap : Clap).
Context (connection_id : string) (ctx : GameContext).
Notation W := (lease_env (gc_server_id ctx) connection_id).
Notation only := (only (gc_server_id ctx) connection_id).
Notation none := (none (gc_server_id ctx) connection_id).

Lemma commit_releases kind u snapshot :
  triple W (only u) (commit_exit ctx kind u connection_id snapshot) (fun r db => match r with Ok _ => none db | Err _ => only u db end).
Proof.
  pose proof (keeps_only (gc_server_id ctx) connection_id u) as Hk.
  unfold commit_exit, player_persistence_timeout, run_persistence_op, await_persistence_result.
  apply (triple_bind W _ _ (fun _ => only u)).
  { apply (uses_keeps W _ _ _ Hk). apply (uses_bind _ _ (fun _ => True)); [by apply uses_trigger |]. intros d _. by apply uses_ret. }
  intros timeout. apply (triple_bind W _ _ (fun _ => only u)); [apply (uses_keeps W _ _ _ Hk); by apply uses_trigger |].
  intros now. cbv zeta. apply (triple_bind W _ _ (fun _ => only u)); [apply (uses_keeps W _ _ _ Hk); by apply uses_trigger |].
  intros []; [| by apply triple_ret ..].
  apply (triple_bind W _ _ (fun reply db => match reply with Reply_result (Ok _) => none db | _ => only u db end)).
  - apply triple_trigger; [done |]. intros reply db db' Hu Ha. destruct reply as [[x | e] | |]; cbn in Ha.
    + destruct Ha as (db1 & db2 & H1 & H2 & H3). apply (none_others _ _ db2); [done |].
      pose proof (only_others _ _ u db db1 H1 Hu) as Hu1. clear H1 H3. unfold Database.commit_player_exit in H2. cbv zeta in H2.
      destruct (players db1 !! _); [| discriminate H2]. destruct (runtime_states db1 !! _); [| discriminate H2].
      destruct (negb _); [discriminate H2 |]. destruct (_ <? _); [discriminate H2 |].
      destruct (progressions db1 !! _); [| discriminate H2]. destruct (negb _); [discriminate H2 |].
      destruct (release_row _ _ _ _) as [[] t] eqn:Er; [| discriminate H2]. injection H2 as <-.
      exact (released_none _ _ db1 u true t Hu1 Er).
    + by apply (only_others _ _ u db).
    + by apply (only_others _ _ u db).
    + by apply (only_others _ _ u db).
  - intros [[x | e] | |]; by apply triple_ret.
Qed.

(** What an end of the session leaves held. *)
Definition lease_at_end (end_ : SessionEnd) (db : Database) : Prop :=
  match end_ with
  | BeforeLogin => exists u, only u db
  | AfterLogin u AlreadyReleased | Handoff u => none db
  | AfterLogin u Release | AfterLogin u RetainUntilStale => only u db
  end.
Definition lease_after {A} (F : A -> Prop) (u : string) (r : result A SessionEnd) (db : Database) : Prop :=
  match r with
  | Ok x => F x /\ only u db
  | Err (Handoff _) => none db
  | Err (AfterLogin u' action) => u' = u /\ action = Release /\ only u db
  | Err BeforeLogin => False
  end.
Lemma finalize_lease {A} (F : A -> Prop) state leave (r : result A SessionEnd) : ig_ctx state = ctx -> ig_connection_id state = connection_id ->
  triple W (lease_after F (ig_username state) r) (finalize_ingame_result state leave r)
    (fun r db => match r with Ok x => F x /\ only (ig_username state) db | Err e => lease_at_end e db end).
Proof.
  intros Hctx Hconn. pose proof (keeps_only (gc_server_id ctx) connection_id (ig_username state)) as Hk.
  destruct leave as [msg |]; cbn [finalize_ingame_result].
  2: { apply triple_ret. intros db. destruct r as [x | [| u' [] | u']]; cbn; try done. by intros (-> & _ & ?). by intros (-> & ? & ?). by intros (-> & ? & ?). }
  destruct r as [x | [| u' action | u']]; cbn [lease_after].
  - apply triple_pure. intros Hx.
    apply (triple_bind W _ _ (fun _ => only (ig_username state))); [apply (uses_keeps W _ _ _ Hk); by apply uses_trigger |].
    intros [snapshot |]; [| by apply triple_ret].
    apply (triple_bind W _ _ (fun _ => only (ig_username state))).
    { apply flush_keeps. apply (keeps_weaken W _ _ _ Hk). by intros B []. }
    intros [fl | fe]; [by apply triple_ret |]. rewrite Hctx, Hconn.
    eapply triple_bind; [apply commit_releases |]. intros [y | e]; by apply triple_ret.
  - apply triple_ret. done.
  - apply triple_pure. intros ->. apply triple_pure. intros ->.
    apply (triple_bind W _ _ (fun _ => only (ig_username state))); [apply (uses_keeps W _ _ _ Hk); by apply uses_trigger |].
    intros [snapshot |]; [| by apply triple_ret]. rewrite Hctx, Hconn.
    eapply triple_bind; [apply commit_releases |]. intros [y | e]; by apply triple_ret.
  - apply (triple_bind W _ _ (fun _ => none)); [| intros ok; by apply triple_ret].
    apply (uses_keeps W _ _ _ (keeps_none (gc_server_id ctx) connection_id)). by apply uses_trigger.
Qed.

Lemma claim_keeps u : keeps W (only u) (claim_event u).
Proof.
  apply (keeps_weaken W _ _ _ (keeps_only _ _ u)). intros A e He. destruct e; try done. intros u' Hn. destruct call; try done.
  cbn in He |- *. subst. by apply bool_decide_eq_false.
Qed.
Lemma some_kept : keeps W (fun db => exists u, only u db) (loop_event P_Login).
Proof.
  intros A e db He [u Hu]. split; [exact Logic.I |]. intros a db' Ha. exists u.
  destruct (keeps_only (gc_server_id ctx) connection_id u A e db) as [_ H']; [by destruct e | done | by eapply H'].
Qed.
Lemma ingame_lease (st : State P_InGame) :
  htriple W (only (ingame_username _ st)) (run_ingame map_order town_order clap connection_id ctx st)
    (fun st' => only (select_username st')) lease_at_end.
Proof.
  set (u := ingame_username _ st). pose proof (keeps_only (gc_server_id ctx) connection_id u) as Hk.
  unfold run_ingame.
  apply (htriple_bind W _ _ (fun r db => (ig_ctx r.1 = ctx /\ ig_connection_id r.1 = connection_id /\ ig_username r.1 = u) /\ only u db)).
  { unfold prepare_ingame. cbv zeta. apply (htriple_bind W _ _ (fun _ => only u)); [by apply (htriple_event_keeps _ _ _ _ _ Hk) |].
    intros []; [by apply htriple_fail |]. destruct (negb _); [by apply htriple_fail |].
    apply (htriple_bind W _ _ (fun _ => only u)); [by apply (htriple_event_keeps _ _ _ _ _ Hk) |]. intros b. by apply htriple_ret. }
  intros [state leave] t. cbn [fst snd]. apply triple_pure. intros (Hctx & Hconn & Hu).
  apply (triple_bind W _ _ (lease_after (fun p : State P_Select * Timers => select_username p.1 = u) u)).
  - eapply triple_conseq; [apply (htriple_run_phase W (only u) _ _ (fun st' db => select_username st' = u /\ only u db)
       (fun e db => match e with Handoff _ => none db | AfterLogin u' a => u' = u /\ a = Release /\ only u db | BeforeLogin => False end)) | done |].
    + eapply htriple_conseq; [apply (drive_ingame_spec map_order town_order clap state W (only u) none) | done | intros a db Hd; exact Hd |].
      * apply (keeps_weaken W _ _ _ Hk). intros A e He. destruct e; try done. by destruct call.
      * apply (keeps_weaken W _ _ _ (keeps_none _ _)). intros A e He. by destruct e.
      * intros db. apply none_only.
      * intros snapshot. rewrite Hctx, Hconn, Hu. apply commit_releases.
      * intros data. eapply htriple_conseq; [apply (next_keeps W (only u)), (keeps_weaken W _ _ _ Hk) | done | |].
        { intros A e He. by destruct e. }
        { intros st' db [-> Hd]. split; [by destruct st | done]. }
        { intros e db [Hs Hd]. split; [done |]. by intros [r ->]. }
      * intros e db [Hd Hh]. rewrite Hu. destruct e as [r [] |]; cbn; [done | apply Hh; by exists r | done].
    + intros [[a t'] | e] db; [done |]. by destruct e.
  - intros r. rewrite <- Hu. eapply triple_conseq; [by apply finalize_lease | done |].
    intros [[st' t'] | e] db; [| done]. cbn. by intros [-> Hd].
Qed.

(** [C3] [C] In every run of a connection, with any statements of others in between:
    an end before the login leaves at most one account leased to the connection,
    the end of a session leaves at most the session's own account, and nothing is
    leased after a handoff or a committed exit.  Releasing the session then
    leaves nothing leased. *)
Theorem connection_lease :
  htriple W none (run_core_connection hmac_sha256 map_order town_order clap connection_id ctx)
    (fun never _ => match never : Empty_set with end) lease_at_end
  /\ forall db u, only u db -> none (snd (release_session u (gc_server_id ctx) connection_id db)).
Proof.
  split.
  2: { intros db u Hu. unfold release_session. destruct (release_row _ _ _ _) as [b t] eqn:E. exact (released_none _ _ db u b t Hu E). }
  pose proof (fun u => keeps_only (gc_server_id ctx) connection_id u) as Hk. pose proof (keeps_none (gc_server_id ctx) connection_id) as Hn.
  apply (run_core_spec W _ _ _ _ _ _ none none (fun st => only (select_username st)) (fun st => only (loading_username st))
    (fun st => only (ingame_username _ st))).
  - apply (run_phase_spec W _ _ _ _ none).
    + apply handshake_keeps; apply (keeps_weaken W _ _ _ Hn); intros A e He; by destruct e.
    + intros db Hd. exists "". by apply none_only.
  - apply (keeps_weaken W _ _ _ Hn). intros A e He. by destruct e.
  - apply (login_core_spec W _ _ _ _ _ (fun db => exists u, only u db)); [| | | done].
    + apply (keeps_weaken W _ _ _ Hn). intros A e He. by destruct e.
    + intros db Hd. exists "". by apply none_only.
    + intros deps _. apply (drive_login_spec W hmac_sha256 none (fun db => exists u, only u db)
        (fun d db => match d with LoginPhase.Accepted u _ => only u db | LoginPhase.Rejected _ => exists u, only u db end)).
      * apply (keeps_weaken W _ _ _ Hn). intros A e He. by destruct e.
      * apply some_kept.
      * intros [u e | r]; [| apply some_kept]. apply (keeps_weaken W _ _ _ (Hk u)). intros A ev He. by destruct ev.
      * intros db Hd. exists "". by apply none_only.
      * intros [u e | r] db Hd; [by exists u | done].
      * intros input. eapply htriple_conseq; [exact (huses_htriple W _ _ _ _ (authenticate_uses hmac_sha256 deps input) (claim_keeps _)) | | |].
        { intros db. apply none_only. }
        { intros [u e | r] db [Hq Hd]; [by rewrite (Hq u e eq_refl) | by eexists]. }
        { intros e db [Hs Hd]. split; [done | by eexists]. }
      * intros u e. eapply htriple_conseq; [apply (next_keeps W (only u)), (keeps_weaken W _ _ _ (Hk u)) | done | |].
        { intros A ev He. by destruct ev. }
        { by intros st db [-> Hd]. }
        { intros er db [Hs Hd]. split; [done | by exists u]. }
  - intros st. apply (run_select_core_spec W (only (select_username st)) (fun _ _ => True)).
    + apply (keeps_weaken W _ _ _ (Hk _)). intros A e He. destruct e; try done. by destruct call.
    + done.
    + intros d. eapply keeps_weaken; [apply (keeps_and W _ _ (loop_event P_Select)); [apply (keeps_weaken W _ _ _ (Hk _)) |] | done].
      { intros A e He. by destruct e. }
      { by intros A e db. }
    + intros rt slot E. eapply htriple_conseq; [apply (huses_htriple W (only (select_username st)) _ _ _ (choice_uses rt slot)) | done | by intros fx db [? ?] | done].
      apply (keeps_weaken W _ _ _ (Hk _)). intros A e He. destruct e; try done. by destruct call.
    + intros d. eapply htriple_conseq; [apply (next_keeps W (only (select_username st))), (keeps_weaken W _ _ _ (Hk _)) | by intros db [? _] | | done].
      { intros A e He. by destruct e. }
      { intros st' db [-> Hd]. by destruct st. }
  - intros st. apply (run_loading_spec W (only (loading_username st))).
    + apply (keeps_weaken W _ _ _ (Hk _)). intros A e He. destruct e; try done. by destruct call.
    + done.
    + intros entry. eapply htriple_conseq; [apply (next_keeps W (only (loading_username st))), (keeps_weaken W _ _ _ (Hk _)) | done | | done].
      { intros A e He. by destruct e. }
      { intros st' db [-> Hd]. by destruct st. }
  - apply ingame_lease.
Qed.
End LeaseTheorem.
