(* ===== verification/Channel.v ===== *)
(** The interface of a bounded channel ([tokio::sync::mpsc]), a library the
    sources use: what its documentation says of [try_send] and [send], for a state
    that also covers whatever the receiver does in between. *)
From S2P Require Import Prelude.

Inductive TrySendError : Type := Send_Full | Send_Closed.

Class Mpsc (Ch E : Type) := {
  (** [Sender::try_send] and the awaited [Sender::send] *)
  try_send : Ch -> E -> result unit TrySendError * Ch;
  send_await : Ch -> E -> result unit unit * Ch;
  (** the values accepted so far, in the order in which the receiver gets them *)
  accepted_values : Ch -> list E }.

Class MpscLaws (Ch E : Type) `{Mpsc Ch E} : Prop := {
  try_send_spec (ch : Ch) (e : E) :
    accepted_values (snd (try_send ch e)) =
      accepted_values ch ++ (match fst (try_send ch e) with Ok _ => [e] | Err _ => [] end);
  send_await_spec (ch : Ch) (e : E) :
    accepted_values (snd (send_await ch e)) =
      accepted_values ch ++ (match fst (send_await ch e) with Ok _ => [e] | Err _ => [] end) }.

(** A channel whose receiver follows a script: before each send it takes some
    values or goes away. *)
Module Scripted.
Record Channel (E : Type) : Type := {
  capacity : nat; queued : nat; log : list E; closed : bool; script : list (option nat) }.
Arguments capacity {E} c.
Arguments queued {E} c.
Arguments log {E} c.
Arguments closed {E} c.
Arguments script {E} c.

(** The receiver's next move: [Some n] takes up to [n] values, [None] closes. *)
Definition advance {E} (c : Channel E) : Channel E :=
  match script c with
  | [] => c
  | Some n :: rest =>
      {| capacity := capacity c; queued := queued c - n; log := log c; closed := closed c; script := rest |}
  | None :: rest => {| capacity := capacity c; queued := queued c; log := log c; closed := true; script := rest |}
  end.

Definition offer {E} (c : Channel E) (e : E) : result unit TrySendError * Channel E :=
  let c := advance c in
  if closed c then (Err Send_Closed, c)
  else if (queued c <? capacity c)%nat then
    (Ok tt, {| capacity := capacity c; queued := S (queued c); log := log c ++ [e]; closed := false; script := script c |})
  else (Err Send_Full, c).

(** An awaited send has waited for room. *)
Definition offer_await {E} (c : Channel E) (e : E) : result unit unit * Channel E :=
  let c := advance c in
  if closed c then (Err tt, c)
  else (Ok tt, {| capacity := capacity c; queued := Nat.min (S (queued c)) (capacity c); log := log c ++ [e];
                  closed := false; script := script c |}).

#[export] Instance channel_mpsc {E} : Mpsc (Channel E) E :=
  {| try_send := offer; send_await := offer_await; accepted_values := log |}.

Lemma log_advance {E} (c : Channel E) : log (advance c) = log c.
Proof. unfold advance. by destruct (script c) as [| [n |] rest]. Qed.

#[export] Instance channel_laws {E} : MpscLaws (Channel E) E.
Proof.
  split; intros c e; cbn; unfold offer, offer_await; rewrite <- (log_advance c);
    destruct (closed _); [| destruct (_ <? _)%nat | |]; cbn; by rewrite ?app_nil_r.
Qed.

Definition open_channel {E} (n : nat) (moves : list (option nat)) : Channel E :=
  {| capacity := n; queued := 0; log := []; closed := false; script := moves |}.
End Scripted.
Export (hints) Scripted.
