(* ===== verification/Outbox.v ===== *)
(** The outbox of a player ([zohar-sim/src/outbox.rs]): a queue of reliable
    events and the movements still to be told, coalesced per entity, flushed into
    a bounded channel without ever waiting for it. *)
From S2P Require Import Prelude Domain Float Space Entities MapPort Channel.

Section Outbox.
Context {Ch : Type} `{Mpsc Ch PlayerEvent}.

Record PlayerOutbox : Type := {
  owner_player_id : option PlayerId;
  events : list PlayerEvent;
  movement_latest_player : gmap EntityId MovementEvent;
  movement_remote : list MovementEvent;
  tx : Ch }.

Record PlayerOutboxStats : Type := { sent_reliable : nat; sent_movement : nat; total_events : nat }.

Definition PlayerOutbox_new (ch : Ch) : PlayerOutbox :=
  {| owner_player_id := None; events := []; movement_latest_player := ∅; movement_remote := []; tx := ch |}.

Definition set_owner_player_id (player : PlayerId) (ob : PlayerOutbox) : PlayerOutbox :=
  {| owner_player_id := Some player; events := events ob; movement_latest_player := movement_latest_player ob;
     movement_remote := movement_remote ob; tx := tx ob |}.

Definition push_reliable (event : PlayerEvent) (ob : PlayerOutbox) : PlayerOutbox :=
  {| owner_player_id := owner_player_id ob; events := events ob ++ [event];
     movement_latest_player := movement_latest_player ob; movement_remote := movement_remote ob; tx := tx ob |}.

(** The movement state alone. *)
Definition set_movement (latest : gmap EntityId MovementEvent) (remote : list MovementEvent) (ob : PlayerOutbox)
  : PlayerOutbox :=
  {| owner_player_id := owner_player_id ob; events := events ob; movement_latest_player := latest;
     movement_remote := remote; tx := tx ob |}.

Definition push_remote_movement_update (movement : MovementEvent) (ob : PlayerOutbox) : PlayerOutbox :=
  match last (movement_remote ob) with
  | Some back =>
      if MovementEvent_eqb back movement then ob
      else set_movement (movement_latest_player ob) (movement_remote ob ++ [movement]) ob
  | None => set_movement (movement_latest_player ob) (movement_remote ob ++ [movement]) ob
  end.

Definition push_remote_movement (movement : MovementEvent) (ob : PlayerOutbox) : PlayerOutbox :=
  push_remote_movement_update movement ob.

Definition set_latest_movement_with_priority (movement : MovementEvent) (prioritize : bool) (ob : PlayerOutbox)
  : PlayerOutbox :=
  let id := me_entity_id movement in
  if prioritize then
    set_movement (<[id := movement]> (movement_latest_player ob))
      (List.filter (fun queued => negb (me_entity_id queued =? id)) (movement_remote ob)) ob
  else
    push_remote_movement_update movement
      (set_movement (delete id (movement_latest_player ob)) (movement_remote ob) ob).

(** ** Flushing *)
Inductive FlushOutcome : Type := Flush_Complete | Flush_Full | Flush_Closed.

(** The loop over the reliable events: the outcome, the events left, the channel
    and the number sent. *)
Fixpoint flush_reliable (queue : list PlayerEvent) (ch : Ch) (sent : nat)
  : FlushOutcome * list PlayerEvent * Ch * nat :=
  match queue with
  | [] => (Flush_Complete, [], ch, sent)
  | event :: rest =>
      match try_send ch event with
      | (Ok _, ch) => flush_reliable rest ch (S sent)
      | (Err Send_Full, ch) => (Flush_Full, event :: rest, ch, sent)
      | (Err Send_Closed, ch) => (Flush_Closed, rest, ch, sent)
      end
  end.

(** [flush_movement_bucket]: the bucket is taken and iterated in some order; when
    the channel is full the movements left are put back. *)
Fixpoint flush_movement_bucket (iter : list (EntityId * MovementEvent)) (ch : Ch) (sent : nat)
  : FlushOutcome * gmap EntityId MovementEvent * Ch * nat :=
  match iter with
  | [] => (Flush_Complete, ∅, ch, sent)
  | (_, movement) :: pending =>
      match try_send ch (EntityMove movement) with
      | (Ok _, ch) => flush_movement_bucket pending ch (S sent)
      | (Err Send_Full, ch) =>
          (Flush_Full,
           fold_left (fun bucket '(_, rest) => <[me_entity_id rest := rest]> bucket) pending
             (<[me_entity_id movement := movement]> ∅), ch, sent)
      | (Err Send_Closed, ch) => (Flush_Closed, ∅, ch, sent)
      end
  end.

Fixpoint flush_remote_movement_queue (queue : list MovementEvent) (ch : Ch) (sent : nat)
  : FlushOutcome * list MovementEvent * Ch * nat :=
  match queue with
  | [] => (Flush_Complete, [], ch, sent)
  | movement :: rest =>
      match try_send ch (EntityMove movement) with
      | (Ok _, ch) => flush_remote_movement_queue rest ch (S sent)
      | (Err Send_Full, ch) => (Flush_Full, movement :: rest, ch, sent)
      | (Err Send_Closed, ch) => (Flush_Closed, [], ch, sent)
      end
  end.

Definition stats (reliable movement : nat) : PlayerOutboxStats :=
  {| sent_reliable := reliable; sent_movement := movement; total_events := reliable + movement |}.

(** [flush]; [order] is the iteration order of the movement bucket.  A full
    channel ends the loop over the reliable events, but movements are tried all
    the same. *)
Definition flush (order : list EntityId) (ob : PlayerOutbox) : PlayerOutboxStats * PlayerOutbox :=
  let rebuild queue latest remote ch :=
    {| owner_player_id := owner_player_id ob; events := queue; movement_latest_player := latest;
       movement_remote := remote; tx := ch |} in
  let '(outcome, queue, ch, reliable) := flush_reliable (events ob) (tx ob) 0 in
  match outcome with
  | Flush_Closed => (stats reliable 0, rebuild [] ∅ [] ch)
  | _ =>
      let '(outcome, bucket, ch, moved) :=
        flush_movement_bucket (map_iter order (movement_latest_player ob)) ch 0 in
      match outcome with
      | Flush_Full => (stats reliable moved, rebuild queue bucket (movement_remote ob) ch)
      | Flush_Closed => (stats reliable moved, rebuild queue ∅ [] ch)
      | Flush_Complete =>
          let '(outcome, remote, ch, moved) := flush_remote_movement_queue (movement_remote ob) ch moved in
          match outcome with
          | Flush_Closed => (stats reliable moved, rebuild queue ∅ [] ch)
          | _ => (stats reliable moved, rebuild queue bucket remote ch)
          end
      end
  end.

(** ** Operations in sequence *)
Inductive OutboxOp : Type :=
| Op_reliable (event : PlayerEvent)
| Op_latest (movement : MovementEvent) (prioritize : bool)
| Op_remote (movement : MovementEvent)
| Op_flush (order : list EntityId).

Definition outbox_step (op : OutboxOp) (ob : PlayerOutbox) : option PlayerOutbox :=
  match op with
  | Op_reliable event => Some (push_reliable event ob)
  | Op_latest movement prioritize => Some (set_latest_movement_with_priority movement prioritize ob)
  | Op_remote movement => Some (push_remote_movement movement ob)
  | Op_flush order => if map_order order (movement_latest_player ob) then Some (snd (flush order ob)) else None
  end.
Fixpoint outbox_run (ops : list OutboxOp) (ob : PlayerOutbox) : option PlayerOutbox :=
  match ops with [] => Some ob | op :: ops => ob' ← outbox_step op ob; outbox_run ops ob' end.
End Outbox.
Arguments PlayerOutbox : clear implicits.

(** ** What is told of an entity *)
Definition moves_of (e : EntityId) (l : list MovementEvent) : list MovementEvent :=
  filter (fun m => me_entity_id m = e) l.
Lemma moves_of_app e l1 l2 : moves_of e (l1 ++ l2) = moves_of e l1 ++ moves_of e l2.
Proof. apply filter_app. Qed.
Lemma moves_here e m l : me_entity_id m = e -> moves_of e (m :: l) = m :: moves_of e l.
Proof. intros E. unfold moves_of. by rewrite filter_cons_True. Qed.
Lemma moves_other e m l : me_entity_id m <> e -> moves_of e (m :: l) = moves_of e l.
Proof. intros E. unfold moves_of. by rewrite filter_cons_False. Qed.
#[global] Arguments moves_of : simpl never.

(** [interleaved l1 l2 l]: [l] is made of [l1] and [l2], each in its order. *)
Inductive interleaved {A} : list A -> list A -> list A -> Prop :=
| interleaved_nil : interleaved [] [] []
| interleaved_left a l1 l2 l : interleaved l1 l2 l -> interleaved (a :: l1) l2 (a :: l)
| interleaved_right a l1 l2 l : interleaved l1 l2 l -> interleaved l1 (a :: l2) (a :: l).
#[export] Hint Constructors interleaved : rust.

Lemma interleaved_lefts {A} (l : list A) : interleaved l [] l.
Proof. induction l; auto with rust. Qed.
Lemma interleaved_rights {A} (l : list A) : interleaved [] l l.
Proof. induction l; auto with rust. Qed.
Lemma interleaved_app {A} (l1 l2 l k1 k2 k : list A) :
  interleaved l1 l2 l -> interleaved k1 k2 k -> interleaved (l1 ++ k1) (l2 ++ k2) (l ++ k).
Proof. induction 1; cbn; auto with rust. Qed.
Lemma interleaved_then {A} (l1 l2 : list A) : interleaved l1 l2 (l1 ++ l2).
Proof.
  pose proof (interleaved_app _ _ _ _ _ _ (interleaved_lefts l1) (interleaved_rights l2)) as H. by rewrite app_nil_r in H.
Qed.

(** The entries of a bucket: one movement per entity, under its identifier. *)
Definition keyed (l : list (EntityId * MovementEvent)) : Prop :=
  NoDup (fst <$> l) /\ forall e m, (e, m) ∈ l -> me_entity_id m = e.

Lemma keyed_tail p l : keyed (p :: l) -> keyed l.
Proof. intros [N K]. apply NoDup_cons in N as [_ N]. split; [done |]. intros e m Hin. apply K. by right. Qed.

Lemma keyed_other e l : keyed l -> e ∉ fst <$> l -> moves_of e (snd <$> l) = [].
Proof.
  induction l as [| [k m] l IH]; intros K N; [done |]. cbn in N. apply not_elem_of_cons in N as [N1 N2]. cbn.
  rewrite moves_other; [by apply IH; [eapply keyed_tail |] |].
  destruct K as [_ K]. rewrite (K k m) by left. done.
Qed.

Lemma keyed_moves e m l : keyed l -> (e, m) ∈ l -> moves_of e (snd <$> l) = [m].
Proof.
  induction l as [| [k n] l IH]; intros K Hin; [by apply not_elem_of_nil in Hin |].
  assert (me_entity_id n = k) as En by (apply K; left).
  pose proof (keyed_tail _ _ K) as Kt. pose proof K as [N _]. cbn in N. apply NoDup_cons in N as [N _]. cbn.
  apply elem_of_cons in Hin as [[= -> ->] | Hin].
  - rewrite moves_here by done. f_equal. by apply keyed_other.
  - rewrite moves_other; [by apply IH |]. rewrite En. intros ->. apply N.
    apply list_elem_of_fmap. by exists (e, m).
Qed.

Lemma keyed_app l1 l2 : keyed (l1 ++ l2) -> keyed l1 /\ keyed l2.
Proof.
  intros [N K]. rewrite fmap_app in N. apply NoDup_app in N as (N1 & _ & N2).
  split; (split; [done |]; intros e m Hin; apply K, elem_of_app; auto).
Qed.

Lemma map_iter_keyed order (m : gmap EntityId MovementEvent) :
  map_order order m = true -> (forall e x, m !! e = Some x -> me_entity_id x = e) -> keyed (map_iter order m).
Proof.
  intros [N _]%map_order_spec K. split; [by apply map_iter_NoDup |]. intros e x [_ Hx]%elem_of_map_iter. by apply K.
Qed.

Lemma map_iter_moves order (m : gmap EntityId MovementEvent) e :
  map_order order m = true -> (forall e x, m !! e = Some x -> me_entity_id x = e) ->
  moves_of e (snd <$> map_iter order m) = option_list (m !! e).
Proof.
  intros O K. pose proof (map_iter_keyed order m O K) as Kl. apply map_order_spec in O as [N D].
  destruct (m !! e) as [x |] eqn:E.
  - apply keyed_moves; [done |]. apply elem_of_map_iter. split; [apply D; by rewrite E | done].
  - apply keyed_other; [done |]. intros ([k y] & -> & [_ Hin]%elem_of_map_iter)%list_elem_of_fmap. cbn in E. congruence.
Qed.

(** The bucket the movements left are put back into. *)
Definition refill (bucket : gmap EntityId MovementEvent) (l : list (EntityId * MovementEvent)) : gmap EntityId MovementEvent :=
  fold_left (fun bucket '(_, rest) => <[me_entity_id rest := rest]> bucket) l bucket.

Lemma refill_lookup e l bucket :
  keyed l -> option_list (refill bucket l !! e) =
    if decide (e ∈ fst <$> l) then moves_of e (snd <$> l) else option_list (bucket !! e).
Proof.
  revert bucket. induction l as [| [k m] l IH]; intros bucket K; [done |].
  assert (me_entity_id m = k) as Em by (apply K; left). pose proof (keyed_tail _ _ K) as Kt.
  pose proof K as [N _]. cbn in N. apply NoDup_cons in N as [N _].
  change (refill bucket ((k, m) :: l)) with (refill (<[me_entity_id m := m]> bucket) l). rewrite IH by done. cbn [fmap list_fmap fst snd].
  destruct (decide (e ∈ fst <$> l)) as [Hin | Hout].
  - rewrite decide_True by (by right). rewrite moves_other; [done |]. rewrite Em. by intros ->.
  - destruct (decide (k = e)) as [-> | Ne].
    + rewrite decide_True by left. rewrite Em, lookup_insert_eq. rewrite moves_here by done.
      cbn. f_equal. symmetry. by apply keyed_other.
    + rewrite decide_False by (by intros [-> | ?]%elem_of_cons). by rewrite Em, lookup_insert_ne.
Qed.

Lemma refill_moves e l : keyed l -> option_list (refill ∅ l !! e) = moves_of e (snd <$> l).
Proof.
  intros K. rewrite refill_lookup by done. case_decide as D; [done |].
  rewrite keyed_other by done. by rewrite lookup_empty.
Qed.

(** ** Flushing into a channel that stays open *)
Section Deliver.
Context {Ch : Type} `{MpscLaws Ch PlayerEvent}.
(** States in which the receiver is there and will be. *)
Context (alive : Ch -> Prop).
Context (alive_send : forall ch (event : PlayerEvent), alive ch ->
  fst (try_send ch event) <> Err Send_Closed /\ alive (snd (try_send ch event))).

Lemma flush_reliable_spec queue ch n o rest ch' n' :
  alive ch -> flush_reliable queue ch n = (o, rest, ch', n') ->
  exists sent, queue = sent ++ rest /\ accepted_values ch' = accepted_values ch ++ sent /\ alive ch' /\ o <> Flush_Closed.
Proof.
  revert ch n. induction queue as [| ev queue IH]; intros ch n A; cbn [flush_reliable].
  - intros [= <- <- <- <-]. exists []. by rewrite !app_nil_r.
  - pose proof (try_send_spec ch ev) as S. destruct (alive_send ch ev A) as [C A'].
    destruct (try_send ch ev) as [[u | [|]] ch1]; cbn in *; [| | done].
    + intros E. destruct (IH _ _ A' E) as (sent & -> & Ea & ? & ?). exists (ev :: sent).
      by rewrite Ea, S, <- app_assoc.
    + intros [= <- <- <- <-]. exists []. by rewrite S.
Qed.

Lemma flush_remote_spec queue ch n o rest ch' n' :
  alive ch -> flush_remote_movement_queue queue ch n = (o, rest, ch', n') ->
  exists sent, queue = sent ++ rest /\ accepted_values ch' = accepted_values ch ++ (EntityMove <$> sent) /\
    alive ch' /\ o <> Flush_Closed.
Proof.
  revert ch n. induction queue as [| m queue IH]; intros ch n A; cbn [flush_remote_movement_queue].
  - intros [= <- <- <- <-]. exists []. by rewrite !app_nil_r.
  - pose proof (try_send_spec ch (EntityMove m)) as S. destruct (alive_send ch (EntityMove m) A) as [C A'].
    destruct (try_send ch (EntityMove m)) as [[u | [|]] ch1]; cbn in *; [| | done].
    + intros E. destruct (IH _ _ A' E) as (sent & -> & Ea & ? & ?). exists (m :: sent).
      by rewrite Ea, S, <- app_assoc.
    + intros [= <- <- <- <-]. exists []. by rewrite S.
Qed.

Lemma flush_bucket_spec iter ch n o bucket ch' n' :
  alive ch -> flush_movement_bucket iter ch n = (o, bucket, ch', n') ->
  exists sent rest, iter = sent ++ rest /\ bucket = refill ∅ rest /\
    accepted_values ch' = accepted_values ch ++ (EntityMove <$> (snd <$> sent)) /\ alive ch' /\ o <> Flush_Closed /\
    (o = Flush_Complete -> rest = []).
Proof.
  revert ch n. induction iter as [| [k m] iter IH]; intros ch n A; cbn [flush_movement_bucket].
  - intros [= <- <- <- <-]. exists [], []. by rewrite !app_nil_r.
  - pose proof (try_send_spec ch (EntityMove m)) as S. destruct (alive_send ch (EntityMove m) A) as [C A'].
    destruct (try_send ch (EntityMove m)) as [[u | [|]] ch1]; cbn in *; [| | done].
    + intros E. destruct (IH _ _ A' E) as (sent & rest & -> & -> & Ea & ? & ? & ?). exists ((k, m) :: sent), rest.
      cbn. by rewrite Ea, S, <- app_assoc.
    + intros [= <- <- <- <-]. exists [], ((k, m) :: iter). by rewrite S.
Qed.

Implicit Types ob : PlayerOutbox Ch.

(** What waits to be told of an entity. *)
Definition pending (e : EntityId) (ob : PlayerOutbox Ch) : list MovementEvent :=
  option_list (movement_latest_player ob !! e) ++ moves_of e (movement_remote ob).
Definition bucket_ok (ob : PlayerOutbox Ch) : Prop :=
  forall e m, movement_latest_player ob !! e = Some m -> me_entity_id m = e.

(** A flush moves a prefix of what waits to the channel: [r] of the reliable
    events, then [mv] of the movements, in order for every entity. *)
Lemma flush_spec order ob :
  alive (tx ob) -> bucket_ok ob -> map_order order (movement_latest_player ob) = true ->
  let ob' := snd (flush order ob) in
  alive (tx ob') /\ bucket_ok ob' /\
  exists r mv, events ob = r ++ events ob' /\
    accepted_values (tx ob') = accepted_values (tx ob) ++ r ++ (EntityMove <$> mv) /\
    forall e, moves_of e mv ++ pending e ob' = pending e ob.
Proof.
  intros A K O. unfold flush.
  destruct (flush_reliable (events ob) (tx ob) 0) as [[[o1 queue] ch1] n1] eqn:E1.
  destruct (flush_reliable_spec _ _ _ _ _ _ _ A E1) as (s1 & Es1 & Ea1 & A1 & C1).
  destruct (flush_movement_bucket (map_iter order (movement_latest_player ob)) ch1 0) as [[[o2 bucket] ch2] n2] eqn:E2.
  destruct (flush_bucket_spec _ _ _ _ _ _ _ A1 E2) as (s2 & r2 & Es2 & -> & Ea2 & A2 & C2 & D2).
  pose proof (map_iter_keyed _ _ O K) as Kd. rewrite Es2 in Kd. apply keyed_app in Kd as [_ Kr].
  assert (forall e, moves_of e (snd <$> s2) ++ option_list (refill ∅ r2 !! e) = option_list (movement_latest_player ob !! e)) as Eb.
  { intros e. rewrite refill_moves, <- moves_of_app, <- fmap_app, <- Es2 by done. by apply map_iter_moves. }
  assert (forall e m, refill ∅ r2 !! e = Some m -> me_entity_id m = e) as Kb.
  { intros e m Em. pose proof (refill_moves e r2 Kr) as Er. rewrite Em in Er. cbn in Er.
    assert (m ∈ moves_of e (snd <$> r2)) as Hin by (rewrite <- Er; left). by apply list_elem_of_filter in Hin as [? _]. }
  assert (forall ch3 s3 r3, movement_remote ob = s3 ++ r3 -> alive ch3 -> (s3 = [] \/ r2 = []) ->
    accepted_values ch3 = accepted_values ch2 ++ (EntityMove <$> s3) ->
    let ob' := {| owner_player_id := owner_player_id ob; events := queue; movement_latest_player := refill ∅ r2;
                  movement_remote := r3; tx := ch3 |} in
    alive (tx ob') /\ bucket_ok ob' /\
    exists r mv, events ob = r ++ events ob' /\
      accepted_values (tx ob') = accepted_values (tx ob) ++ r ++ (EntityMove <$> mv) /\
      forall e, moves_of e mv ++ pending e ob' = pending e ob) as Fin.
  { intros ch3 s3 r3 Er A3 Hs Ea3 ob'. cbn. split; [done |]. split; [exact Kb |].
    exists s1, ((snd <$> s2) ++ s3). split; [done |]. split.
    - by rewrite Ea3, Ea2, Ea1, fmap_app, !app_assoc.
    - intros e. unfold pending. cbn. rewrite Er, !moves_of_app, <- Eb.
      destruct Hs as [-> | ->]; cbn; rewrite ?lookup_empty, ?app_nil_r; cbn; by rewrite <- ?app_assoc, ?app_nil_r. }
  destruct o1; [| | done]; (destruct o2; [| | done];
    [destruct (flush_remote_movement_queue (movement_remote ob) ch2 n2) as [[[o3 remote] ch3] n3] eqn:E3;
       destruct (flush_remote_spec _ _ _ _ _ _ _ A2 E3) as (s3 & Es3 & Ea3 & A3 & C3);
       (destruct o3; [| | done]; cbn [snd]; by apply (Fin ch3 s3); auto)
    | cbn [snd]; apply (Fin ch2 []); [done | done | by left | by rewrite app_nil_r]]).
Qed.

(** ** Histories *)
Definition op_move (op : OutboxOp) : option MovementEvent :=
  match op with Op_latest m _ | Op_remote m => Some m | _ => None end.
Definition op_event (op : OutboxOp) : option PlayerEvent :=
  match op with Op_reliable event => Some event | _ => None end.
(** The movements given for an entity, the reliable events given. *)
Definition given (e : EntityId) (ops : list OutboxOp) : list MovementEvent := moves_of e (omap op_move ops).
Definition pushed (ops : list OutboxOp) : list PlayerEvent := omap op_event ops.

(** The same movement, or one that [==] takes for it. *)
Definition same_move (m p : MovementEvent) : Prop := p = m \/ MovementEvent_eqb p m = true.

(** [r] and [mv] are the reliable events and the movements sent so far, after
    what the channel held before. *)
Record outbox_inv (base : list PlayerEvent) (ops : list OutboxOp) ob (r : list PlayerEvent) (mv : list MovementEvent)
    : Prop := {
  oi_alive : alive (tx ob);
  oi_bucket : bucket_ok ob;
  oi_log : exists log, accepted_values (tx ob) = base ++ log /\ interleaved r (EntityMove <$> mv) log;
  oi_reliable : r ++ events ob = pushed ops;
  oi_order : forall e, sublist (moves_of e mv ++ pending e ob) (given e ops);
  oi_latest : forall e m, last (given e ops) = Some m ->
                exists p, last (moves_of e mv ++ pending e ob) = Some p /\ same_move m p }.

Lemma eqb_entity a b : MovementEvent_eqb a b = true -> me_entity_id a = me_entity_id b.
Proof. unfold MovementEvent_eqb. rewrite !andb_true_iff, Z.eqb_eq. tauto. Qed.

Lemma moves_of_filter_other e id l :
  moves_of e (List.filter (fun queued => negb (me_entity_id queued =? id)) l) = if decide (e = id) then [] else moves_of e l.
Proof.
  induction l as [| m l IH]; [by case_decide |]. cbn. destruct (Z.eqb_spec (me_entity_id m) id) as [E | E]; cbn.
  - rewrite IH. case_decide; [done |]. rewrite moves_other; congruence.
  - destruct (decide (me_entity_id m = e)) as [<- | N].
    + rewrite moves_here, IH by done. rewrite !decide_False by done. by rewrite moves_here.
    + rewrite moves_other, IH by done. case_decide; [done |]. by rewrite moves_other.
Qed.

Lemma given_snoc e ops op :
  given e (ops ++ [op]) = given e ops ++ match op_move op with Some m => moves_of e [m] | None => [] end.
Proof. unfold given. rewrite omap_app, moves_of_app. f_equal. cbn. by destruct (op_move op). Qed.

(** Adding to the queue of movements. *)
Lemma push_remote_spec m ob :
  let ob' := push_remote_movement_update m ob in
  tx ob' = tx ob /\ events ob' = events ob /\ movement_latest_player ob' = movement_latest_player ob /\
  (movement_remote ob' = movement_remote ob ++ [m] \/
   movement_remote ob' = movement_remote ob /\
     exists back, last (movement_remote ob) = Some back /\ MovementEvent_eqb back m = true).
Proof.
  unfold push_remote_movement_update. destruct (last (movement_remote ob)) as [back |]; [| cbn; auto].
  destruct (MovementEvent_eqb back m) eqn:E; cbn; eauto 10.
Qed.

Lemma moves_last e l back : last l = Some back -> me_entity_id back = e -> last (moves_of e l) = Some back.
Proof. intros [l' ->]%last_Some E. rewrite moves_of_app, moves_here by done. apply last_snoc. Qed.

(** A new movement [m] at the end of what waits for its entity, where all else
    about the entity was kept or dropped. *)
Lemma inv_move base ops op ob ob' r mv m :
  outbox_inv base ops ob r mv -> op_move op = Some m -> op_event op = None ->
  tx ob' = tx ob -> events ob' = events ob -> bucket_ok ob' ->
  (forall e, e <> me_entity_id m -> pending e ob' = pending e ob) ->
  (exists kept p, pending (me_entity_id m) ob' = kept ++ [p] /\ same_move m p /\
     (p = m /\ sublist kept (pending (me_entity_id m) ob) \/ sublist (kept ++ [p]) (pending (me_entity_id m) ob))) ->
  outbox_inv base (ops ++ [op]) ob' r mv.
Proof.
  intros [A K G R O L] Em Ee Et Ev Kb Hother (kept & p & Ep & Sp & Hp). split; try done.
  - by rewrite Et.
  - by rewrite Et.
  - rewrite Ev, R. unfold pushed. rewrite omap_app. cbn. by rewrite Ee, app_nil_r.
  - intros e. rewrite given_snoc, Em. destruct (decide (me_entity_id m = e)) as [<- | N].
    + rewrite Ep, moves_here by done. change (moves_of (me_entity_id m) []) with (@nil MovementEvent).
      destruct Hp as [[-> S] | S].
      * rewrite app_assoc. apply sublist_app; [| done]. etrans; [| apply O]. by apply sublist_app.
      * apply sublist_inserts_r. etrans; [| apply O]. by apply sublist_app.
    + rewrite moves_other, app_nil_r, Hother by done. apply O.
  - intros e m'. rewrite given_snoc, Em. destruct (decide (me_entity_id m = e)) as [<- | N].
    + rewrite moves_here by done. change (moves_of (me_entity_id m) []) with (@nil MovementEvent).
      rewrite last_snoc. intros [= <-]. exists p. split; [| done]. by rewrite Ep, app_assoc, last_snoc.
    + rewrite moves_other, app_nil_r, Hother by done. apply L.
Qed.

Lemma outbox_step_inv base ops op ob ob' r mv :
  outbox_inv base ops ob r mv -> outbox_step op ob = Some ob' ->
  exists r' mv', outbox_inv base (ops ++ [op]) ob' r' mv'.
Proof.
  intros I E. pose proof I as [A K G R O L]. destruct op as [event | m prioritize | m | order]; cbn [outbox_step] in E.
  - exists r, mv. injection E as <-. split; try done.
    + cbn. rewrite app_assoc, R. unfold pushed. by rewrite omap_app.
    + intros e. rewrite given_snoc. cbn. rewrite app_nil_r. apply O.
    + intros e m. rewrite given_snoc. cbn. rewrite app_nil_r. apply L.
  - exists r, mv. injection E as <-. unfold set_latest_movement_with_priority. destruct prioritize.
    + apply (inv_move base ops _ ob _ r mv m I); try done.
      * intros e x. cbn. destruct (decide (me_entity_id m = e)) as [<- | N]; [rewrite lookup_insert_eq; congruence |].
        rewrite lookup_insert_ne by done. apply K.
      * intros e N. unfold pending. cbn. rewrite lookup_insert_ne, moves_of_filter_other, decide_False by done. done.
      * exists [], m. unfold pending. cbn. rewrite lookup_insert_eq, moves_of_filter_other, decide_True by done.
        split; [done |]. split; [by left |]. left. split; [done |]. apply sublist_nil_l.
    + set (ob1 := set_movement _ _ ob). destruct (push_remote_spec m ob1) as (E1 & E2 & E3 & E4).
      apply (inv_move base ops _ ob _ r mv m I); try done.
      * intros e x. rewrite E3. cbn. rewrite lookup_delete_Some. intros [_ H']. by apply K.
      * intros e N. unfold pending. rewrite E3. cbn. rewrite lookup_delete_ne by done. f_equal.
        destruct E4 as [-> | [-> _]]; [| done]. cbn. by rewrite moves_of_app, moves_other, app_nil_r.
      * unfold pending. rewrite E3. cbn. rewrite lookup_delete_eq. cbn.
        destruct E4 as [-> | [-> (back & Eb & Eq)]]; cbn.
        -- exists (moves_of (me_entity_id m) (movement_remote ob)), m. rewrite moves_of_app, moves_here by done.
           split; [done |]. split; [by left |]. left. split; [done |]. by apply sublist_inserts_l.
        -- pose proof (moves_last _ _ _ Eb (eqb_entity _ _ Eq)) as [kept Ek]%last_Some. cbn in Ek.
           exists kept, back. rewrite Ek. split; [done |]. split; [by right |]. right. by apply sublist_inserts_l.
  - exists r, mv. injection E as <-. unfold push_remote_movement. destruct (push_remote_spec m ob) as (E1 & E2 & E3 & E4).
    apply (inv_move base ops _ ob _ r mv m I); try done.
    + intros e x. rewrite E3. apply K.
    + intros e N. unfold pending. rewrite E3. f_equal.
      destruct E4 as [-> | [-> _]]; [| done]. by rewrite moves_of_app, moves_other, app_nil_r.
    + unfold pending. rewrite E3. destruct E4 as [-> | [-> (back & Eb & Eq)]].
      * exists (option_list (movement_latest_player ob !! me_entity_id m) ++ moves_of (me_entity_id m) (movement_remote ob)), m.
        rewrite moves_of_app, moves_here, app_assoc by done. split; [done |]. split; [by left |]. by left.
      * pose proof (moves_last _ _ _ Eb (eqb_entity _ _ Eq)) as [kept Ek]%last_Some.
        exists (option_list (movement_latest_player ob !! me_entity_id m) ++ kept), back. rewrite Ek, app_assoc.
        split; [done |]. split; [by right |]. by right.
  - destruct (map_order order (movement_latest_player ob)) eqn:Eo; [| done]. injection E as <-.
    destruct (flush_spec order ob A K Eo) as (A' & K' & r' & mv' & Ev & Ea & P').
    destruct G as (log & El & G). exists (r ++ r'), (mv ++ mv'). split; try done.
    + exists (log ++ r' ++ (EntityMove <$> mv')). split; [by rewrite Ea, El, <- app_assoc |].
      rewrite fmap_app. apply interleaved_app; [done | apply interleaved_then].
    + rewrite <- app_assoc, <- Ev, R. unfold pushed. rewrite omap_app. cbn. by rewrite app_nil_r.
    + intros e. rewrite given_snoc, moves_of_app, <- app_assoc, P'. cbn. rewrite app_nil_r. apply O.
    + intros e m. rewrite given_snoc, moves_of_app, <- app_assoc, P'. cbn. rewrite app_nil_r. apply L.
Qed.

Lemma outbox_run_inv base past ops ob ob' r mv :
  outbox_inv base past ob r mv -> outbox_run ops ob = Some ob' ->
  exists r' mv', outbox_inv base (past ++ ops) ob' r' mv'.
Proof.
  revert past ob r mv. induction ops as [| op ops IH]; intros past ob r mv I; cbn [outbox_run].
  - intros [= <-]. exists r, mv. by rewrite app_nil_r.
  - destruct (outbox_step op ob) as [ob1 |] eqn:E; cbn [mbind option_bind]; [| done]. intros E'.
    rewrite (app_assoc past [op] ops : past ++ op :: ops = _).
    destruct (outbox_step_inv base past op ob ob1 r mv I E) as (r1 & mv1 & I1). by apply (IH _ ob1 r1 mv1).
Qed.

(** [C9] The outbox delivers.  While the receiver stays, whatever is pushed,
    coalesced and flushed, and whenever the channel is full, what the receiver is
    given is an interleaving of two sequences, reliable events [r] and
    movements [mv].  Of the reliable events, movements pushed as such included,
    [r] and those waiting are exactly those pushed, in order.  Of every
    entity, the other movements sent and waiting are some of those given, in order,
    and the last of them is the last one given, or one that compares equal to it. *)
Theorem outbox_delivers ch ops ob :
  alive ch -> outbox_run ops (PlayerOutbox_new ch) = Some ob ->
  exists log r mv, accepted_values (tx ob) = accepted_values ch ++ log /\ interleaved r (EntityMove <$> mv) log /\
    r ++ events ob = pushed ops /\
    forall e, sublist (moves_of e mv ++ pending e ob) (given e ops) /\
      forall m, last (given e ops) = Some m -> exists p, last (moves_of e mv ++ pending e ob) = Some p /\ same_move m p.
Proof.
  intros A Er. destruct (outbox_run_inv (accepted_values ch) [] ops (PlayerOutbox_new ch) ob [] []) as (r & mv & [_ _ G R O L]).
  - split; cbn; try done. exists []. rewrite app_nil_r. split; [done | constructor].
  - done.
  - destruct G as (log & El & G). exists log, r, mv. split_and!; try done; intros e; split; [apply O | apply L].
Qed.
End Deliver.

(** ** A receiver that is slow at first *)
Definition staying {E} (c : Scripted.Channel E) : Prop := Scripted.closed c = false /\ None ∉ Scripted.script c.

Lemma staying_send (c : Scripted.Channel PlayerEvent) event :
  staying c -> fst (try_send c event) <> Err Send_Closed /\ staying (snd (try_send c event)).
Proof.
  intros [Hc Hs]. cbn. unfold Scripted.offer.
  assert (staying (Scripted.advance c)) as [Ac As].
  { unfold staying, Scripted.advance. destruct (Scripted.script c) as [| [n |] moves] eqn:Em; [by rewrite Em | |].
    - cbn. apply not_elem_of_cons in Hs as [_ Hs]. done.
    - apply not_elem_of_cons in Hs as [Hs _]. done. }
  rewrite Ac. destruct (_ <? _)%nat; cbn; by split.
Qed.

Definition sample_move (e : EntityId) (ts : Z) : MovementEvent :=
  {| me_entity_id := e; me_kind := Kind_Move; me_arg := 0; me_facing := 0;
     me_position := {| pos_x := f32_one; pos_y := f32_one |}; me_client_ts := ts; me_duration := 80 |}.
(** The channel holds one value: the second movement replaces the first while it waits. *)
Definition sample_ops : list OutboxOp :=
  [Op_reliable (EntityDespawn 5); Op_reliable (EntityMove (sample_move 9 500)); Op_latest (sample_move 101 1000) true; Op_flush [101];
   Op_latest (sample_move 101 2000) true; Op_flush [101]].
Definition sample_channel : Scripted.Channel PlayerEvent := Scripted.open_channel 1 [Some 0%nat; Some 0%nat; Some 1%nat].

Lemma outbox_delivers_witness :
  exists ob, outbox_run sample_ops (PlayerOutbox_new sample_channel) = Some ob /\
    exists r mv p, r ++ events ob = [EntityDespawn 5; EntityMove (sample_move 9 500)] /\
      last (moves_of 101 mv ++ pending 101 ob) = Some p /\ same_move (sample_move 101 2000) p.
Proof.
  destruct (outbox_run sample_ops (PlayerOutbox_new sample_channel)) as [ob |] eqn:E; [| vm_compute in E; discriminate].
  assert (staying sample_channel) as A.
  { split; [reflexivity |]. cbn. rewrite !not_elem_of_cons. split_and!; try discriminate. apply not_elem_of_nil. }
  destruct (outbox_delivers staying staying_send sample_channel sample_ops ob A E) as (log & r & mv & _ & _ & Hr & H).
  exists ob. split; [reflexivity |]. destruct (proj2 (H 101) (sample_move 101 2000) eq_refl) as (p & Hp & Sp).
  exists r, mv, p. split; [exact Hr |]. split; [exact Hp | exact Sp].
Defined.
