(* ===== verification/Replication.v ===== *)
(** The replication graph ([zohar-sim/src/replication.rs]): which observer has
    been told of which entity, indexed both ways.  The abstract specification is a
    set of edges; the two [HashMap]s of [HashSet]s refine it.

    A [Vec] collected from a [HashSet] is in no particular order; [elements] stands
    for it and the theorems speak of its members only. *)
From S2P Require Import Prelude Domain Float Space Entities.

Notation eset := (gset EntityId) (only parsing).

Record InterestConfig : Type := { spawn_radius : spec_float; despawn_radius : spec_float }.
Definition InterestConfig_default : InterestConfig :=
  {| spawn_radius := f32_of_int 110; despawn_radius := f32_of_int 120 |}.

Record VisibilityDiff : Type := { vd_entered : list EntityId; vd_left : list EntityId }.

Record ReplicationGraph : Type := {
  visible_by_observer : gmap EntityId eset;
  observers_by_target : gmap EntityId eset }.
Definition ReplicationGraph_default : ReplicationGraph :=
  {| visible_by_observer := ∅; observers_by_target := ∅ |}.

(** One index with an edge added, or taken out together with an emptied row. *)
Definition index_insert (row x : EntityId) (m : gmap EntityId eset) : gmap EntityId eset :=
  <[row := default ∅ (m !! row) ∪ {[x]}]> m.
Definition index_remove (row x : EntityId) (m : gmap EntityId eset) : gmap EntityId eset :=
  match m !! row with
  | Some s => let s := s ∖ {[x]} in if decide (s = ∅) then delete row m else <[row := s]> m
  | None => m
  end.

Definition reconcile_observer (observer : EntityId) (spawn_candidates retain_candidates : eset) (g : ReplicationGraph)
  : VisibilityDiff * ReplicationGraph :=
  let old_visible := default ∅ (visible_by_observer g !! observer) in
  let new_visible := (old_visible ∩ retain_candidates) ∪ spawn_candidates in
  let entered := elements (new_visible ∖ old_visible) in
  let left := elements (old_visible ∖ new_visible) in
  let observers := fold_left (fun m target => index_insert target observer m) entered (observers_by_target g) in
  let observers := fold_left (fun m target => index_remove target observer m) left observers in
  let visible :=
    if decide (new_visible = ∅) then delete observer (visible_by_observer g)
    else <[observer := new_visible]> (visible_by_observer g) in
  ({| vd_entered := entered; vd_left := left |}, {| visible_by_observer := visible; observers_by_target := observers |}).

Definition remove_observer (observer : EntityId) (g : ReplicationGraph) : list EntityId * ReplicationGraph :=
  match visible_by_observer g !! observer with
  | None => ([], g)
  | Some targets =>
      (elements targets,
       {| visible_by_observer := delete observer (visible_by_observer g);
          observers_by_target :=
            fold_left (fun m target => index_remove target observer m) (elements targets) (observers_by_target g) |})
  end.

Definition remove_target (target : EntityId) (g : ReplicationGraph) : list EntityId * ReplicationGraph :=
  match observers_by_target g !! target with
  | None => ([], g)
  | Some observers =>
      (elements observers,
       {| visible_by_observer :=
            fold_left (fun m observer => index_remove observer target m) (elements observers) (visible_by_observer g);
          observers_by_target := delete target (observers_by_target g) |})
  end.

Definition remove_visibility (observer target : EntityId) (g : ReplicationGraph) : bool * ReplicationGraph :=
  match visible_by_observer g !! observer with
  | None => (false, g)
  | Some targets =>
      let removed := bool_decide (target ∈ targets) in
      (removed,
       {| visible_by_observer := index_remove observer target (visible_by_observer g);
          observers_by_target :=
            if removed then index_remove target observer (observers_by_target g) else observers_by_target g |})
  end.

Definition observers_for (target : EntityId) (g : ReplicationGraph) : list EntityId :=
  elements (default ∅ (observers_by_target g !! target)).
Definition targets_for (observer : EntityId) (g : ReplicationGraph) : list EntityId :=
  elements (default ∅ (visible_by_observer g !! observer)).
Definition is_visible (observer target : EntityId) (g : ReplicationGraph) : bool :=
  match visible_by_observer g !! observer with Some targets => bool_decide (target ∈ targets) | None => false end.

(** ** The indexes *)

(** The members of a row; rows that are there are not empty. *)
Definition row (m : gmap EntityId eset) (k : EntityId) : eset := default ∅ (m !! k).
Definition dense (m : gmap EntityId eset) : Prop := forall k s, m !! k = Some s -> s <> ∅.

Lemma row_index_insert r x m k : row (index_insert r x m) k = row m k ∪ (if decide (k = r) then {[x]} else ∅).
Proof.
  unfold row, index_insert. destruct (decide (k = r)) as [-> | N].
  - by rewrite lookup_insert_eq.
  - rewrite lookup_insert_ne by done. set_solver.
Qed.

Lemma row_index_remove r x m k : row (index_remove r x m) k = row m k ∖ (if decide (k = r) then {[x]} else ∅).
Proof.
  unfold row, index_remove. destruct (m !! r) as [s |] eqn:E.
  - destruct (decide (s ∖ {[x]} = ∅)) as [Es | Es], (decide (k = r)) as [-> | N].
    + rewrite lookup_delete_eq, E. cbn. set_solver.
    + rewrite lookup_delete_ne by done. set_solver.
    + by rewrite lookup_insert_eq, E.
    + rewrite lookup_insert_ne by done. set_solver.
  - destruct (decide (k = r)) as [-> | N]; [rewrite E; cbn; set_solver | set_solver].
Qed.

Lemma dense_insert m r s : dense m -> s <> ∅ -> dense (<[r := s]> m).
Proof. intros D Hs k s'. destruct (decide (r = k)) as [<- | N]; [rewrite lookup_insert_eq; congruence | rewrite lookup_insert_ne by done; apply D]. Qed.
Lemma dense_delete m r : dense m -> dense (delete r m).
Proof. intros D k s. rewrite lookup_delete_Some. intros [_ E]. by apply (D k). Qed.
Lemma dense_index_insert r x m : dense m -> dense (index_insert r x m).
Proof. intros D. apply dense_insert; [done | set_solver]. Qed.
Lemma dense_index_remove r x m : dense m -> dense (index_remove r x m).
Proof.
  intros D. unfold index_remove. destruct (m !! r); [| done].
  case_decide; [by apply dense_delete | by apply dense_insert].
Qed.

(** The same over a list of rows. *)
Lemma fold_index_insert l x m :
  dense m -> let m' := fold_left (fun m r => index_insert r x m) l m in
  dense m' /\ forall k y, y ∈ row m' k <-> y ∈ row m k \/ (y = x /\ k ∈ l).
Proof.
  revert m. induction l as [| r l IH]; intros m D; cbn; [split; [done |]; set_solver |].
  destruct (IH (index_insert r x m) (dense_index_insert r x m D)) as [D' R]. split; [done |].
  intros k y. rewrite R, row_index_insert. case_decide; set_solver.
Qed.
Lemma fold_index_remove l x m :
  dense m -> let m' := fold_left (fun m r => index_remove r x m) l m in
  dense m' /\ forall k y, y ∈ row m' k <-> y ∈ row m k /\ ~ (y = x /\ k ∈ l).
Proof.
  revert m. induction l as [| r l IH]; intros m D; cbn; [split; [done |]; set_solver |].
  destruct (IH (index_remove r x m) (dense_index_remove r x m D)) as [D' R]. split; [done |].
  intros k y. rewrite R, row_index_remove. case_decide; set_solver.
Qed.

(** ** The specification: a set of edges *)
Definition Edges : Type := EntityId -> EntityId -> Prop.

Inductive GraphOp : Type :=
| Reconcile (observer : EntityId) (spawn_candidates retain_candidates : eset)
| RemoveObserver (observer : EntityId)
| RemoveTarget (target : EntityId)
| RemoveVisibility (observer target : EntityId).

(** The edges after an operation; hysteresis is in the first. *)
Definition spec_step (op : GraphOp) (E : Edges) : Edges := fun o t =>
  match op with
  | Reconcile observer spawn retain => if decide (o = observer) then (E o t /\ t ∈ retain) \/ t ∈ spawn else E o t
  | RemoveObserver observer => E o t /\ o <> observer
  | RemoveTarget target => E o t /\ t <> target
  | RemoveVisibility observer target => E o t /\ ~ (o = observer /\ t = target)
  end.

(** What the caller is told: the edges that appeared and those that vanished. *)
Inductive Told : Type :=
| Told_diff (diff : VisibilityDiff)
| Told_gone (entities : list EntityId)
| Told_removed (removed : bool).

Definition graph_step (op : GraphOp) (g : ReplicationGraph) : Told * ReplicationGraph :=
  match op with
  | Reconcile observer spawn retain =>
      let '(diff, g) := reconcile_observer observer spawn retain g in (Told_diff diff, g)
  | RemoveObserver observer => let '(gone, g) := remove_observer observer g in (Told_gone gone, g)
  | RemoveTarget target => let '(gone, g) := remove_target target g in (Told_gone gone, g)
  | RemoveVisibility observer target =>
      let '(removed, g) := remove_visibility observer target g in (Told_removed removed, g)
  end.

(** An answer tells the difference between the edges before and after. *)
Definition tells (op : GraphOp) (told : Told) (E E' : Edges) : Prop :=
  match op, told with
  | Reconcile observer _ _, Told_diff diff =>
      NoDup (vd_entered diff) /\ NoDup (vd_left diff) /\
      forall t, (t ∈ vd_entered diff <-> E' observer t /\ ~ E observer t) /\ (t ∈ vd_left diff <-> E observer t /\ ~ E' observer t)
  | RemoveObserver observer, Told_gone gone => NoDup gone /\ forall t, t ∈ gone <-> E observer t
  | RemoveTarget target, Told_gone gone => NoDup gone /\ forall o, o ∈ gone <-> E o target
  | RemoveVisibility observer target, Told_removed removed => removed = true <-> E observer target
  | _, _ => False
  end.

Record graph_refines (g : ReplicationGraph) (E : Edges) : Prop := {
  gr_visible : forall o t, t ∈ row (visible_by_observer g) o <-> E o t;
  gr_observers : forall o t, o ∈ row (observers_by_target g) t <-> E o t;
  gr_dense : dense (visible_by_observer g) /\ dense (observers_by_target g) }.

Lemma row_delete m k k' y : y ∈ row (delete k m) k' <-> y ∈ row m k' /\ k' <> k.
Proof.
  unfold row. destruct (decide (k' = k)) as [-> | N]; [rewrite lookup_delete_eq; cbn; set_solver |].
  rewrite lookup_delete_ne by done. set_solver.
Qed.
Lemma row_insert m k s k' y : y ∈ row (<[k := s]> m) k' <-> (if decide (k' = k) then y ∈ s else y ∈ row m k').
Proof.
  unfold row. destruct (decide (k' = k)) as [-> | N]; [by rewrite lookup_insert_eq |].
  by rewrite lookup_insert_ne.
Qed.

Lemma graph_step_refines op g E :
  graph_refines g E -> let '(told, g') := graph_step op g in graph_refines g' (spec_step op E) /\ tells op told E (spec_step op E).
Proof.
  intros [V O [Dv Do]]. destruct op as [o spawn retain | o | t | o t]; cbn [graph_step].
  - unfold reconcile_observer. fold (row (visible_by_observer g) o).
    set (old := row (visible_by_observer g) o). set (new := old ∩ retain ∪ spawn).
    destruct (fold_index_insert (elements (new ∖ old)) o (observers_by_target g) Do) as [D1 R1].
    destruct (fold_index_remove (elements (old ∖ new)) o _ D1) as [D2 R2].
    assert (forall t, t ∈ old <-> E o t) as Vo by (intros t; apply V).
    assert (forall t, t ∈ new <-> E o t /\ t ∈ retain \/ t ∈ spawn) as Vn.
    { intros t. unfold new. by rewrite elem_of_union, elem_of_intersection, Vo. }
    split; [split; cbn |]; [| | split |].
    + intros o' t. case_decide as En.
      * rewrite row_delete, V. case_decide as Eo; [| tauto]. subst o'. rewrite <- Vn, En. set_solver.
      * rewrite row_insert. case_decide as Eo; [subst o'; apply Vn | apply V].
    + intros o' t. rewrite R2, R1, O, !elem_of_elements, !elem_of_difference. case_decide as Eo; [subst o' | tauto].
      rewrite <- Vn, <- Vo. destruct (decide (t ∈ old)), (decide (t ∈ new)); tauto.
    + case_decide; [by apply dense_delete | by apply dense_insert].
    + done.
    + cbn. split; [apply NoDup_elements |]. split; [apply NoDup_elements |]. intros t. rewrite decide_True by done.
      by rewrite !elem_of_elements, !elem_of_difference, <- Vo, Vn, <- Vo.
  - unfold remove_observer. destruct (visible_by_observer g !! o) as [targets |] eqn:Eo.
    + destruct (fold_index_remove (elements targets) o (observers_by_target g) Do) as [D R].
      assert (forall t, t ∈ targets <-> E o t) as Vo by (intros t; rewrite <- V; unfold row; by rewrite Eo).
      split; [split; cbn |]; [| | split; [by apply dense_delete | done] |].
      * intros o' t. rewrite row_delete, V. done.
      * intros o' t. rewrite R, O, elem_of_elements, Vo. destruct (decide (o' = o)) as [-> |]; tauto.
      * cbn. split; [apply NoDup_elements |]. intros t. by rewrite elem_of_elements.
    + assert (forall t, ~ E o t) as Vo by (intros t; rewrite <- V; unfold row; rewrite Eo; set_solver).
      split; [split; cbn; [| | done] |]; [intros o' t; rewrite V | intros o' t; rewrite O |].
      * split; [| tauto]. intros H. split; [done |]. intros ->. by apply (Vo t).
      * split; [| tauto]. intros H. split; [done |]. intros ->. by apply (Vo t).
      * cbn. split; [constructor |]. intros t. split; [by intros ?%not_elem_of_nil | by intros ?%Vo].
  - unfold remove_target. destruct (observers_by_target g !! t) as [observers |] eqn:Et.
    + destruct (fold_index_remove (elements observers) t (visible_by_observer g) Dv) as [D R].
      assert (forall o, o ∈ observers <-> E o t) as Ot by (intros o; rewrite <- O; unfold row; by rewrite Et).
      split; [split; cbn |]; [| | split; [done | by apply dense_delete] |].
      * intros o t'. rewrite R, V, elem_of_elements, Ot. destruct (decide (t' = t)) as [-> |]; tauto.
      * intros o t'. rewrite row_delete, O. done.
      * cbn. split; [apply NoDup_elements |]. intros o. by rewrite elem_of_elements.
    + assert (forall o, ~ E o t) as Ot by (intros o; rewrite <- O; unfold row; rewrite Et; set_solver).
      split; [split; cbn; [| | done] |]; [intros o t'; rewrite V | intros o t'; rewrite O |].
      * split; [| tauto]. intros H. split; [done |]. intros ->. by apply (Ot o).
      * split; [| tauto]. intros H. split; [done |]. intros ->. by apply (Ot o).
      * cbn. split; [constructor |]. intros o. split; [by intros ?%not_elem_of_nil | by intros ?%Ot].
  - unfold remove_visibility. destruct (visible_by_observer g !! o) as [targets |] eqn:Eo.
    + assert (forall t, t ∈ targets <-> E o t) as Vo by (intros t'; rewrite <- V; unfold row; by rewrite Eo).
      split; [split; cbn |]; [| | split |].
      * intros o' t'. rewrite row_index_remove, elem_of_difference, V. case_decide; set_solver.
      * intros o' t'. case_bool_decide as Hin.
        -- rewrite row_index_remove, elem_of_difference, O. case_decide; set_solver.
        -- rewrite O. rewrite Vo in Hin. split; [| tauto]. intros H. split; [done |]. by intros [-> ->].
      * by apply dense_index_remove.
      * destruct (bool_decide _); [by apply dense_index_remove | done].
      * cbn. rewrite bool_decide_eq_true. apply Vo.
    + assert (forall t, ~ E o t) as Vo by (intros t'; rewrite <- V; unfold row; rewrite Eo; set_solver).
      split; [split; cbn; [| | done] |]; [intros o' t'; rewrite V | intros o' t'; rewrite O |].
      * split; [| tauto]. intros H. split; [done |]. intros [-> ->]. by apply (Vo t).
      * split; [| tauto]. intros H. split; [done |]. intros [-> ->]. by apply (Vo t).
      * cbn. split; [done | by intros ?%Vo].
Qed.

Definition graph_run (ops : list GraphOp) : ReplicationGraph :=
  fold_left (fun g op => snd (graph_step op g)) ops ReplicationGraph_default.
Definition spec_run (ops : list GraphOp) : Edges := fold_left (fun E op => spec_step op E) ops (fun _ _ => False).

Lemma graph_run_refines ops : graph_refines (graph_run ops) (spec_run ops).
Proof.
  induction ops as [| op ops IH] using rev_ind.
  - split; cbn; [.. | by split]; intros o t; unfold row; rewrite lookup_empty; cbn; set_solver.
  - unfold graph_run, spec_run. rewrite !fold_left_app. cbn [fold_left].
    pose proof (graph_step_refines op _ _ IH) as H. unfold graph_run, spec_run in H.
    destruct (graph_step op _) as [told g']. apply H.
Qed.

(** [C8] The replication graph refines a set of edges: after any operations, the
    three queries answer exactly from the edges these operations leave, where an
    edge is made by entering the spawn candidates and lasts as long as the target
    stays among the retain candidates; and the next operation tells its caller
    exactly the edges that appear and vanish, each once. *)
Theorem replication_refines ops :
  let g := graph_run ops in
  (forall o t, is_visible o t g = true <-> spec_run ops o t) /\
  (forall o t, o ∈ observers_for t g <-> spec_run ops o t) /\
  (forall o t, t ∈ targets_for o g <-> spec_run ops o t) /\
  forall op, tells op (fst (graph_step op g)) (spec_run ops) (spec_run (ops ++ [op])).
Proof.
  intros g. pose proof (graph_run_refines ops) as R. fold g in R. pose proof R as [V O _]. split; [| split; [| split]].
  - intros o t. rewrite <- V. unfold is_visible, row. destruct (visible_by_observer g !! o); cbn.
    + by rewrite bool_decide_eq_true.
    + split; [done | by intros ?%not_elem_of_empty].
  - intros o t. unfold observers_for. by rewrite elem_of_elements, <- O.
  - intros o t. unfold targets_for. by rewrite elem_of_elements, <- V.
  - intros op. unfold spec_run. rewrite fold_left_app. cbn [fold_left].
    pose proof (graph_step_refines op g (spec_run ops) R) as H. destruct (graph_step op g) as [told g']. apply H.
Qed.
