(* ===== verification/Grid.v ===== *)
(** The terrain grid of the navigation component ([zohar-sim/src/navigation/grid.rs]):
    square cells of [f32] metres with one byte of flags each, the cell of a
    position, and the four neighbours of a cell. *)
From S2P Require Import Prelude Domain Float Space.

Record GridCell : Type := { cell_x : Z; cell_y : Z }.
#[export] Instance GridCell_eq_dec : EqDecision GridCell.
Proof. solve_decision. Defined.

Definition manhattan_distance (a b : GridCell) : Z :=
  Z.abs (cell_x a - cell_x b) + Z.abs (cell_y a - cell_y b).

Record TerrainFlagsGrid : Type := {
  cell_size_m : spec_float;
  inv_cell_size_m : spec_float;
  width : Z;
  height : Z;
  flags : list Z }.

(** [TerrainFlagsGrid::new] *)
Definition TerrainFlagsGrid_new (size : spec_float) (w h : Z) (fl : list Z) : option TerrainFlagsGrid :=
  if negb (f_is_finite size) || SFleb size f32_zero || (w =? 0) || (h =? 0) then None
  else if usize_max <? w * h then None
  else if negb (Z.of_nat (length fl) =? w * h) then None
  else Some {| cell_size_m := size; inv_cell_size_m := f32_div f32_one size; width := w; height := h; flags := fl |}.

Definition contains_cell (g : TerrainFlagsGrid) (cell : GridCell) : bool :=
  (cell_x cell <? width g) && (cell_y cell <? height g).

Definition index_of (g : TerrainFlagsGrid) (cell : GridCell) : option Z :=
  if contains_cell g cell then Some (cell_y cell * width g + cell_x cell) else None.

(** The index is inside [flags] by construction, see [grid_wf]. *)
Definition flags_at (g : TerrainFlagsGrid) (cell : GridCell) : option Z :=
  idx ← index_of g cell; flags g !! Z.to_nat idx.

Definition axis_cell (g : TerrainFlagsGrid) (coord_m : spec_float) (limit : Z) : option Z :=
  if negb (f_is_finite coord_m) || SFltb coord_m f32_zero then None
  else
    let cell := f_floor binary32 (f32_mul coord_m (inv_cell_size_m g)) in
    if negb (f_is_finite cell) || SFltb cell f32_zero then None
    else
      let cell := f_to_int 0 usize_max cell in
      if cell <? limit then Some cell else None.

Definition cell_for_point (g : TerrainFlagsGrid) (pos : LocalPos) : option GridCell :=
  x ← axis_cell g (pos_x pos) (width g);
  y ← axis_cell g (pos_y pos) (height g);
  Some {| cell_x := x; cell_y := y |}.

Definition cell_center (g : TerrainFlagsGrid) (cell : GridCell) : option LocalPos :=
  if contains_cell g cell then
    Some {| pos_x := f32_mul (f32_add (f32_of_int (cell_x cell)) f32_half) (cell_size_m g);
            pos_y := f32_mul (f32_add (f32_of_int (cell_y cell)) f32_half) (cell_size_m g) |}
  else None.

(** Row by row. *)
Definition all_cells (g : TerrainFlagsGrid) : list GridCell :=
  flat_map (fun y => map (fun x => {| cell_x := x; cell_y := y |}) (seqZ 0 (width g))) (seqZ 0 (height g)).

(** [checked_sub(1)] and [checked_add(1)] on [usize]. *)
Definition checked_pred (z : Z) : option Z := if 1 <=? z then Some (z - 1) else None.
Definition checked_succ (z : Z) : option Z := if z <? usize_max then Some (z + 1) else None.

Definition neighbors4 (g : TerrainFlagsGrid) (cell : GridCell) : list GridCell :=
  List.filter (contains_cell g) (omap id
    [ (fun x => {| cell_x := x; cell_y := cell_y cell |}) <$> checked_pred (cell_x cell);
      (fun x => {| cell_x := x; cell_y := cell_y cell |}) <$> checked_succ (cell_x cell);
      (fun y => {| cell_x := cell_x cell; cell_y := y |}) <$> checked_pred (cell_y cell);
      (fun y => {| cell_x := cell_x cell; cell_y := y |}) <$> checked_succ (cell_y cell) ]).

Record GridBounds : Type := { min_x : Z; max_x : Z; min_y : Z; max_y : Z }.

Definition search_bounds (g : TerrainFlagsGrid) (center : GridCell) (radius_cells : Z) : GridBounds :=
  {| min_x := Z.max 0 (cell_x center - radius_cells);
     max_x := Z.min (Z.min (cell_x center + radius_cells) usize_max) (width g - 1);
     min_y := Z.max 0 (cell_y center - radius_cells);
     max_y := Z.min (Z.min (cell_y center + radius_cells) usize_max) (height g - 1) |}.

Definition bounds_contains (b : GridBounds) (cell : GridCell) : bool :=
  (min_x b <=? cell_x cell) && (cell_x cell <=? max_x b) && (min_y b <=? cell_y cell) && (cell_y cell <=? max_y b).

(** [WalkabilityView::is_walkable_cell] *)
Definition is_walkable_cell (g : TerrainFlagsGrid) (cell : GridCell) : bool :=
  match flags_at g cell with Some f => is_walkable f | None => false end.

(** ** Facts *)

(** Cells are pairs of [usize]. *)
Definition cell_ok (cell : GridCell) : Prop := 0 <= cell_x cell /\ 0 <= cell_y cell.

Record grid_wf (g : TerrainFlagsGrid) : Prop := {
  gw_width : 0 < width g;
  gw_height : 0 < height g;
  gw_len : Z.of_nat (length (flags g)) = width g * height g;
  gw_max : width g * height g <= usize_max }.

Lemma TerrainFlagsGrid_new_wf size w h fl g :
  0 <= w -> 0 <= h -> TerrainFlagsGrid_new size w h fl = Some g -> grid_wf g.
Proof.
  intros Hw Hh. unfold TerrainFlagsGrid_new.
  destruct (Z.eqb_spec w 0); [by rewrite orb_true_r |].
  destruct (Z.eqb_spec h 0); [by rewrite orb_true_r |]. rewrite !orb_false_r.
  destruct (_ || _); [done |]. destruct (Z.ltb_spec usize_max (w * h)); [done |].
  destruct (Z.eqb_spec (Z.of_nat (length fl)) (w * h)); [| done]. intros [= <-].
  split; cbn; lia.
Qed.

(** A cell inside the grid. *)
Definition in_grid (g : TerrainFlagsGrid) (c : GridCell) : Prop :=
  0 <= cell_x c < width g /\ 0 <= cell_y c < height g.

Lemma contains_cell_spec g c : cell_ok c -> contains_cell g c = true <-> in_grid g c.
Proof. unfold contains_cell, in_grid, cell_ok. rewrite andb_true_iff, !Z.ltb_lt. lia. Qed.

Definition idx (g : TerrainFlagsGrid) (c : GridCell) : nat := Z.to_nat (cell_y c * width g + cell_x c).

Lemma index_of_in g c : in_grid g c -> index_of g c = Some (cell_y c * width g + cell_x c).
Proof.
  intros H. unfold index_of. by rewrite (proj2 (contains_cell_spec g c ltac:(unfold in_grid, cell_ok in *; lia))).
Qed.

Lemma idx_lt g c : grid_wf g -> in_grid g c -> (idx g c < length (flags g))%nat.
Proof. intros [W H L _] [X Y]. unfold idx. nia. Qed.

Lemma idx_inj g c d : in_grid g c -> in_grid g d -> idx g c = idx g d -> c = d.
Proof.
  intros [X Y] [X' Y'] E. unfold idx in E. destruct c as [cx cy], d as [dx dy]. cbn in *.
  assert (cy * width g + cx = dy * width g + dx) as E' by nia.
  assert (cy = dy) as <- by nia. f_equal. lia.
Qed.

Lemma in_all_cells g c : In c (all_cells g) <-> in_grid g c.
Proof.
  unfold all_cells, in_grid. rewrite in_flat_map. split.
  - intros (y & Hy & Hc). apply in_map_iff in Hc as (x & <- & Hx).
    apply list_elem_of_In, elem_of_seqZ in Hy, Hx. cbn. lia.
  - intros [Hx Hy]. exists (cell_y c). split; [apply list_elem_of_In, elem_of_seqZ; lia |].
    apply in_map_iff. exists (cell_x c). split; [by destruct c | apply list_elem_of_In, elem_of_seqZ; lia].
Qed.

(** Two cells share an edge. *)
Definition adjacent (c d : GridCell) : Prop := manhattan_distance c d = 1.

Lemma adjacent_sym c d : adjacent c d -> adjacent d c.
Proof. unfold adjacent, manhattan_distance. lia. Qed.

Lemma in_neighbors4 g c d : grid_wf g -> in_grid g c ->
  In d (neighbors4 g c) <-> in_grid g d /\ adjacent c d.
Proof.
  intros [W H L M] [X Y]. unfold neighbors4. rewrite filter_In.
  assert (width g <= usize_max /\ height g <= usize_max) as [Mw Mh] by nia.
  unfold checked_pred, checked_succ, adjacent, manhattan_distance.
  rewrite <- list_elem_of_In, list_elem_of_omap. split.
  - intros [(o & Ho & Ed) Hc]. unfold id in Ed. subst o.
    rewrite !elem_of_cons, elem_of_nil in Ho.
    assert (cell_ok d /\ Z.abs (cell_x c - cell_x d) + Z.abs (cell_y c - cell_y d) = 1) as [O A].
    { unfold cell_ok. destruct Ho as [Ho | [Ho | [Ho | [Ho | []]]]]; revert Ho;
        match goal with |- context [if ?b then _ else _] => destruct b eqn:E end; cbn; try done;
        intros [= ->]; cbn; rewrite ?Z.leb_le, ?Z.ltb_lt in E; lia. }
    split; [| exact A]. by apply contains_cell_spec.
  - intros [Hd A]. split; [| apply contains_cell_spec; [unfold in_grid, cell_ok in *; lia | done]].
    exists (Some d). split; [| done]. destruct d as [dx dy], c as [cx cy]; unfold in_grid in *; cbn in *.
    rewrite !elem_of_cons.
    assert ((dx = cx - 1 /\ dy = cy) \/ (dx = cx + 1 /\ dy = cy) \/ (dx = cx /\ dy = cy - 1) \/ (dx = cx /\ dy = cy + 1))
      as [[-> ->] | [[-> ->] | [[-> ->] | [-> ->]]]] by lia.
    + left. by rewrite (proj2 (Z.leb_le 1 cx)) by lia.
    + right; left. by rewrite (proj2 (Z.ltb_lt cx usize_max)) by lia.
    + right; right; left. by rewrite (proj2 (Z.leb_le 1 cy)) by lia.
    + right; right; right; left. by rewrite (proj2 (Z.ltb_lt cy usize_max)) by lia.
Qed.

Lemma is_walkable_in_grid g c : cell_ok c -> is_walkable_cell g c = true -> in_grid g c.
Proof.
  intros Hok. unfold is_walkable_cell, flags_at, index_of.
  destruct (contains_cell g c) eqn:E; [| done]. intros _. by apply contains_cell_spec.
Qed.

(** Connection through walkable cells that share edges. *)
Definition walkable_step (g : TerrainFlagsGrid) (c d : GridCell) : Prop :=
  adjacent c d /\ in_grid g d /\ is_walkable_cell g d = true.
Definition connected (g : TerrainFlagsGrid) : GridCell -> GridCell -> Prop := rtc (walkable_step g).
Definition walkable (g : TerrainFlagsGrid) (c : GridCell) : Prop := in_grid g c /\ is_walkable_cell g c = true.

Lemma connected_walkable g c d : connected g c d -> walkable g c -> walkable g d.
Proof. intros H. induction H as [| c d e [A [B C]] _ IH]; [done |]. intros _. by apply IH. Qed.

Lemma connected_sym g c d : walkable g c -> connected g c d -> connected g d c.
Proof.
  intros Hc H. induction H as [| c d e S H IH]; [constructor |].
  assert (walkable g d) as Hd by (destruct S as (_ & ? & ?); done).
  transitivity d; [by apply IH |]. apply rtc_once. destruct S as (A & _). split; [by apply adjacent_sym | exact Hc].
Qed.

(** A wall of three cells through a grid of nine. *)
Definition sample_grid : option TerrainFlagsGrid :=
  TerrainFlagsGrid_new f32_one 3 3 [0; 1; 0; 0; 1; 2; 4; 128; 0].
Lemma sample_grid_wf g : sample_grid = Some g -> grid_wf g.
Proof. apply (TerrainFlagsGrid_new_wf _ 3 3); lia. Qed.
