(* ===== verification/Reachability.v ===== *)
(** Reachability labels ([zohar-sim/src/navigation/reachability.rs]): a breadth-first
    flood fill gives every walkable cell the number of its connected component, in
    one byte, so that whether two cells are connected is a comparison.

    The queue loop runs on fuel, the number of cells: every turn takes one cell
    from the queue and a cell enters the queue at most once, so it never runs out
    ([flood_total]).  [None] is a panic. *)
From S2P Require Import Prelude Domain Float Space Grid.

Definition UNASSIGNED_COMPONENT : Z := 0.

Record ReachabilityGrid : Type := { rg_width : Z; rg_height : Z; components : list Z }.

Section Flood.
Variable g : TerrainFlagsGrid.

Definition component_at (comps : list Z) (cell : GridCell) : option Z :=
  idx ← index_of g cell; comps !! Z.to_nat idx.

(** One neighbour: labelled and queued unless it is labelled or blocked. *)
Definition visit_neighbor (id : Z) (s : list Z * list GridCell) (neighbor : GridCell) : list Z * list GridCell :=
  let '(comps, queue) := s in
  let i := idx g neighbor in
  if negb (default 0 (comps !! i) =? UNASSIGNED_COMPONENT) || negb (is_walkable_cell g neighbor) then (comps, queue)
  else (<[i := id]> comps, queue ++ [neighbor]).

Fixpoint flood_loop (fuel : nat) (id : Z) (comps : list Z) (queue : list GridCell) : option (list Z) :=
  match queue with
  | [] => Some comps
  | current :: queue =>
      match fuel with
      | O => None
      | S fuel =>
          let '(comps, queue) := fold_left (visit_neighbor id) (neighbors4 g current) (comps, queue) in
          flood_loop fuel id comps queue
      end
  end.

Definition flood_fill_component (comps : list Z) (seed : GridCell) (id : Z) : option (list Z) :=
  flood_loop (length comps) id (<[idx g seed := id]> comps) [seed].

(** The body of the loop over all cells, and the loop. *)
Definition label_cell (cell : GridCell) (comps : list Z) (next_component_id : Z) : option (list Z * Z) :=
  if negb (default 0 (comps !! idx g cell) =? UNASSIGNED_COMPONENT) || negb (is_walkable_cell g cell)
  then Some (comps, next_component_id)
  else
    comps ← flood_fill_component comps cell next_component_id;
    if next_component_id + 1 <=? u8_max then Some (comps, next_component_id + 1) else None.

Fixpoint label_cells (cells : list GridCell) (comps : list Z) (next_component_id : Z) : option (list Z * Z) :=
  match cells with
  | [] => Some (comps, next_component_id)
  | cell :: cells =>
      '(comps, next_component_id) ← label_cell cell comps next_component_id;
      label_cells cells comps next_component_id
  end.

Definition ReachabilityGrid_new : option ReachabilityGrid :=
  '(comps, _) ← label_cells (all_cells g) (repeat UNASSIGNED_COMPONENT (Z.to_nat (width g * height g))) 1;
  Some {| rg_width := width g; rg_height := height g; components := comps |}.
End Flood.

Definition component_for_cell (r : ReachabilityGrid) (cell : GridCell) : option Z :=
  if (rg_width r <=? cell_x cell) || (rg_height r <=? cell_y cell) then None
  else
    component ← components r !! Z.to_nat (cell_y cell * rg_width r + cell_x cell);
    if component =? UNASSIGNED_COMPONENT then None else Some component.

Definition same_component (r : ReachabilityGrid) (start goal : GridCell) : bool :=
  match component_for_cell r start, component_for_cell r goal with
  | Some a, Some b => a =? b
  | _, _ => false
  end.

(** ** The flood fill *)
Section FloodFacts.
Variable g : TerrainFlagsGrid.
Hypothesis Hg : grid_wf g.

(** The label of a cell. *)
Definition label (comps : list Z) (c : GridCell) : Z := default 0 (comps !! idx g c).
Definition unlabelled (comps : list Z) : nat := length (List.filter (fun z => z =? 0) comps).

Lemma label_insert comps c d id : in_grid g c -> in_grid g d -> length comps = length (flags g) ->
  label (<[idx g c := id]> comps) d = if decide (d = c) then id else label comps d.
Proof.
  intros Hc Hd Hl. unfold label. destruct (decide (d = c)) as [-> | Hne].
  - by rewrite list_lookup_insert_eq by (rewrite Hl; by apply idx_lt).
  - rewrite list_lookup_insert_ne; [done |]. intros E. apply Hne. symmetry. by apply (idx_inj g).
Qed.

Lemma unlabelled_insert comps i id : comps !! i = Some 0 -> id <> 0 ->
  (S (unlabelled (<[i := id]> comps)) = unlabelled comps)%nat.
Proof.
  intros Hi Hid. unfold unlabelled. revert i Hi. induction comps as [| z comps IH]; intros [| i] Hi; try done.
  - injection Hi as ->. cbn. destruct (Z.eqb_spec id 0); [done | done].
  - cbn. specialize (IH i Hi). destruct (z =? 0); cbn; rewrite <- IH; done.
Qed.

Lemma label_lookup comps c : in_grid g c -> length comps = length (flags g) ->
  comps !! idx g c = Some (label comps c).
Proof.
  intros Hc Hl. unfold label. destruct (lookup_lt_is_Some_2 comps (idx g c)) as [z ->]; [| done].
  rewrite Hl. by apply idx_lt.
Qed.

(** What a flood with label [id] has done to [base] so far: it only labels
    walkable cells connected to the seed, and the neighbours of a cell it has
    labelled and that is not queued any more are all labelled. *)
Record flooding (base : list Z) (seed : GridCell) (id : Z) (comps : list Z) (queue : list GridCell) : Prop := {
  fl_len : length comps = length (flags g);
  fl_old : forall c, in_grid g c -> label base c <> 0 -> label comps c = label base c;
  fl_new : forall c, in_grid g c -> label base c = 0 -> label comps c <> 0 ->
    label comps c = id /\ walkable g c /\ connected g seed c;
  fl_queue : forall c, In c queue -> in_grid g c /\ label base c = 0 /\ label comps c = id;
  fl_seed : label comps seed = id;
  fl_closed : forall c d, in_grid g c -> label base c = 0 -> label comps c <> 0 -> ~ In c queue ->
    walkable_step g c d -> label comps d <> 0 }.

(** Visiting the neighbours of a labelled cell [cur]. *)
Lemma visit_neighbors_ok base seed id cur l comps queue :
  id <> 0 -> walkable g cur -> connected g seed cur ->
  (forall d, In d l -> in_grid g d /\ adjacent cur d) ->
  length comps = length (flags g) ->
  (forall c, in_grid g c -> label base c <> 0 -> label comps c = label base c) ->
  (forall c, in_grid g c -> label base c = 0 -> label comps c <> 0 ->
    label comps c = id /\ walkable g c /\ connected g seed c) ->
  (forall c, In c queue -> in_grid g c /\ label base c = 0 /\ label comps c = id) ->
  let '(comps', queue') := fold_left (visit_neighbor g id) l (comps, queue) in
  length comps' = length (flags g) /\
  (forall c, in_grid g c -> label base c <> 0 -> label comps' c = label base c) /\
  (forall c, in_grid g c -> label base c = 0 -> label comps' c <> 0 ->
    label comps' c = id /\ walkable g c /\ connected g seed c) /\
  (forall c, In c queue' -> in_grid g c /\ label base c = 0 /\ label comps' c = id) /\
  (forall c, in_grid g c -> label comps c <> 0 -> label comps' c = label comps c) /\
  (forall c, In c queue -> In c queue') /\
  (forall c, in_grid g c -> label comps c = 0 -> label comps' c <> 0 -> In c queue') /\
  (forall d, In d l -> is_walkable_cell g d = true -> label comps' d <> 0) /\
  (unlabelled comps' + length queue' = unlabelled comps + length queue)%nat.
Proof.
  intros Hid Hcur Hconn. revert comps queue. induction l as [| d l IH]; intros comps queue Hadj Hl Hold Hnew Hq.
  - cbn [fold_left]. split_and!; try done.
  - cbn [fold_left]. destruct (Hadj d (or_introl eq_refl)) as [Hd Ha].
    assert (forall d', In d' l -> in_grid g d' /\ adjacent cur d') as Hadj' by (intros; apply Hadj; by right).
    unfold visit_neighbor at 2. fold (label comps d).
    destruct (Z.eqb_spec (label comps d) UNASSIGNED_COMPONENT) as [E0 | E0]; cbn [negb orb].
    2:{ specialize (IH comps queue Hadj' Hl Hold Hnew Hq). destruct (fold_left _ l (comps, queue)) as [comps' queue'].
        destruct IH as (I1 & I2 & I3 & I4 & I5 & I6 & I7 & I8 & I9). split_and!; try done.
        intros d' [<- | Hin] Hw'; [| by apply I8]. by rewrite I5. }
    destruct (is_walkable_cell g d) eqn:Ew; cbn [negb].
    2:{ specialize (IH comps queue Hadj' Hl Hold Hnew Hq). destruct (fold_left _ l (comps, queue)) as [comps' queue'].
        destruct IH as (I1 & I2 & I3 & I4 & I5 & I6 & I7 & I8 & I9). split_and!; try done.
        intros d' [<- | Hin] Hw'; [congruence | by apply I8]. }
    assert (label base d = 0) as Hbd.
    { destruct (Z.eq_dec (label base d) 0) as [| N]; [done |]. specialize (Hold d Hd N). unfold UNASSIGNED_COMPONENT in E0. congruence. }
    assert (forall c, in_grid g c -> label (<[idx g d := id]> comps) c = if decide (c = d) then id else label comps c) as Hins
      by (intros; by apply label_insert).
    specialize (IH (<[idx g d := id]> comps) (queue ++ [d]) Hadj').
    destruct (fold_left _ l _) as [comps' queue'].
    destruct IH as (I1 & I2 & I3 & I4 & I5 & I6 & I7 & I8 & I9).
    + by rewrite length_insert.
    + intros c Hc N. rewrite Hins by done. destruct (decide (c = d)) as [-> |]; [congruence | by apply Hold].
    + intros c Hc N. rewrite Hins by done. destruct (decide (c = d)) as [-> |]; [| by apply Hnew]. intros _.
      split_and!; try done. transitivity cur; [done |]. by apply rtc_once.
    + intros c Hin. apply in_app_iff in Hin as [Hin | [<- | []]].
      * destruct (Hq c Hin) as (Hc & B & C). rewrite Hins by done. split_and!; try done. by destruct (decide _).
      * rewrite Hins by done. split_and!; try done. by destruct (decide _).
    + assert (label comps' d = id) as Kd.
      { rewrite I5; [| done |]; rewrite Hins by done; by destruct (decide (d = d)). }
      assert (forall c, in_grid g c -> label comps c <> 0 -> label comps' c = label comps c) as K.
      { intros c Hc N. assert (c <> d) by (intros ->; unfold UNASSIGNED_COMPONENT in E0; congruence).
        rewrite I5; [| done |]; rewrite Hins by done; by destruct (decide (c = d)). }
      split_and!; try done.
      * intros c Hin. apply I6, in_app_iff. by left.
      * intros c Hc E N. destruct (decide (c = d)) as [-> | Hne]; [apply I6, in_app_iff; right; by left |].
        apply I7; [done | | done]. rewrite Hins by done. by destruct (decide _).
      * intros d' [<- | Hin] Hw'; [by rewrite Kd | by apply I8].
      * rewrite I9. rewrite length_app. cbn [length].
        assert (comps !! idx g d = Some 0) as El by (rewrite label_lookup by done; f_equal; exact E0).
        pose proof (unlabelled_insert comps (idx g d) id El Hid). lia.
Qed.

(** The loop ends, with every reached cell labelled. *)
Lemma flood_loop_ok base seed id fuel comps queue :
  id <> 0 -> in_grid g seed -> flooding base seed id comps queue -> (unlabelled comps + length queue <= fuel)%nat ->
  exists comps', flood_loop g fuel id comps queue = Some comps' /\ flooding base seed id comps' [].
Proof.
  intros Hid Hseed. revert comps queue. induction fuel as [| fuel IH]; intros comps [| cur queue] Hf Hfuel;
    cbn [flood_loop]; try (by exists comps); [cbn in Hfuel; lia |].
  destruct Hf as [Fl Fo Fn Fq Fs Fc].
  destruct (Fq cur (or_introl eq_refl)) as (Hcur & Hb & Hc).
  destruct (Fn cur Hcur Hb) as (_ & Hw & Hconn); [congruence |].
  pose proof (visit_neighbors_ok base seed id cur (neighbors4 g cur) comps queue Hid Hw Hconn) as V.
  destruct (fold_left _ _ _) as [comps' queue']. destruct V as (I1 & I2 & I3 & I4 & I5 & I6 & I7 & I8 & I9);
    [by intros d Hd; apply in_neighbors4 in Hd | done .. | intros c Hin; apply Fq; by right |].
  apply IH; [| cbn in Hfuel; lia].
  split; try done.
  - rewrite I5; [done | done | congruence].
  - intros c d Hcg Hbc Hlc Hnq Hstep. assert (in_grid g d) as Hd by apply Hstep.
    destruct (Z.eq_dec (label comps c) 0) as [E0 | N0]; [exfalso; apply Hnq; by apply I7 |].
    destruct (decide (c = cur)) as [-> | Hne].
    + apply I8; [| apply Hstep]. apply in_neighbors4; [done | done |]. split; [done | apply Hstep].
    + rewrite I5; [| done |]; apply (Fc c d Hcg Hbc N0); try done;
        intros [-> | Hin]; try done; by apply Hnq, I6.
Qed.

(** Labels so far respect adjacency: what touches a labelled cell is labelled. *)
Definition closed (comps : list Z) : Prop :=
  forall c d, in_grid g c -> label comps c <> 0 -> walkable_step g c d -> label comps d <> 0.

Lemma unlabelled_le comps : (unlabelled comps <= length comps)%nat.
Proof. unfold unlabelled. apply filter_length_le. Qed.

(** [flood_fill_component] labels exactly the component of its seed. *)
Lemma flood_total base seed id :
  id <> 0 -> length base = length (flags g) -> closed base -> walkable g seed -> label base seed = 0 ->
  exists comps, flood_fill_component g base seed id = Some comps /\ length comps = length (flags g) /\
    (forall c, in_grid g c ->
      (connected g seed c /\ label comps c = id) \/ (~ connected g seed c /\ label comps c = label base c)).
Proof.
  intros Hid Hl Hcl Hw Hb0. assert (in_grid g seed) as Hs by apply Hw.
  assert (forall c, in_grid g c -> label (<[idx g seed := id]> base) c = if decide (c = seed) then id else label base c) as Hins
    by (intros; by apply label_insert).
  destruct (flood_loop_ok base seed id (length base) (<[idx g seed := id]> base) [seed]) as (comps & E & F); try done.
  - split.
    + by rewrite length_insert.
    + intros c Hc N. rewrite Hins by done. destruct (decide (c = seed)) as [-> |]; congruence.
    + intros c Hc E. rewrite Hins by done. destruct (decide (c = seed)) as [-> |]; [| done]. intros _. done.
    + intros c [<- | []]. rewrite Hins by done. split_and!; try done. by destruct (decide _).
    + rewrite Hins by done. by destruct (decide _).
    + intros c d Hc E. rewrite Hins by done. destruct (decide (c = seed)) as [-> |]; [| done].
      intros _ Hn. exfalso. apply Hn. by left.
  - assert (base !! idx g seed = Some 0) as El by (rewrite label_lookup by done; by rewrite Hb0).
    pose proof (unlabelled_insert base (idx g seed) id El Hid). pose proof (unlabelled_le base). cbn. lia.
  - exists comps. split; [exact E |]. destruct F as [Fl Fo Fn Fq Fs Fc]. split; [done |].
    assert (forall c, connected g seed c -> walkable g c /\ label base c = 0 /\ label comps c = id) as K.
    { apply (rtc_ind_r (R := walkable_step g) (fun c => walkable g c /\ label base c = 0 /\ label comps c = id) seed); [done |].
      intros d e _ S (Hd & Bd & Ld). assert (walkable g e) as He by (destruct S as (_ & ? & ?); done).
      assert (label base e = 0) as Be.
      { destruct (Z.eq_dec (label base e) 0) as [| N]; [done |]. exfalso.
        apply (Hcl e d (proj1 He) N); [| exact Bd]. destruct S as (A & _). split; [by apply adjacent_sym | exact Hd]. }
      split_and!; [done | done |]. apply (Fn e (proj1 He) Be). apply (Fc d e (proj1 Hd) Bd); [congruence | by intros [] | done]. }
    intros c Hc. destruct (Z.eq_dec (label base c) 0) as [B | B].
    + destruct (Z.eq_dec (label comps c) 0) as [L | L].
      * right. split; [| congruence]. intros Hcon. apply Hid. destruct (K c Hcon) as (_ & _ & <-). exact L.
      * left. split; apply (Fn c Hc B L).
    + right. split; [| by apply Fo]. intros Hcon. by apply B, K.
Qed.

(** ** The whole grid *)

(** After the cells [done] have been looked at, with [n] the next label. *)
Record labelling (comps : list Z) (n : Z) (looked : list GridCell) : Prop := {
  lb_len : length comps = length (flags g);
  lb_range : forall c, in_grid g c -> label comps c <> 0 -> walkable g c /\ 1 <= label comps c < n;
  lb_conn : forall c d, walkable g c -> walkable g d -> label comps c <> 0 ->
    (label comps d = label comps c <-> connected g c d);
  lb_done : forall c, In c looked -> walkable g c -> label comps c <> 0;
  lb_used : forall k, 1 <= k < n -> exists c, walkable g c /\ label comps c = k }.

Lemma labelling_closed comps n looked : labelling comps n looked -> closed comps.
Proof.
  intros [_ R C _ _] c d Hc N S. destruct (R c Hc N) as [Hw _].
  assert (walkable g d) as Hd by (destruct S as (_ & ? & ?); done).
  rewrite (proj2 (C c d Hw Hd N)); [done |]. by apply rtc_once.
Qed.

(** Labelling one more component. *)
Lemma labelling_flood comps n looked cell comps' :
  1 <= n -> labelling comps n looked -> walkable g cell -> label comps cell = 0 ->
  flood_fill_component g comps cell n = Some comps' -> labelling comps' (n + 1) (looked ++ [cell]).
Proof.
  intros Hn L Hw H0 E. pose proof (labelling_closed _ _ _ L) as Hcl. destruct L as [Ll Lr Lc Ld Lu].
  destruct (flood_total comps cell n) as (comps2 & E2 & Hl & Hout); try done; [lia |].
  rewrite E in E2. injection E2 as <-.
  assert (forall c d, in_grid g c -> label comps c <> 0 -> connected g cell d -> label comps' d <> label comps c) as Hfar.
  { intros c d Hc N Hcon. assert (walkable g d) as Hd by (by apply (connected_walkable g cell)).
    destruct (Hout d (proj1 Hd)) as [[_ ->] | [? _]]; [| done]. destruct (Lr c Hc N). lia. }
  split.
  - done.
  - intros c Hc N. destruct (Hout c Hc) as [[Hcon ->] | [_ Ec]]; [| rewrite Ec in N |- *; destruct (Lr c Hc N); lia || (split; [done | lia])].
    split; [by apply (connected_walkable g cell) | lia].
  - intros c d Hc Hd N. destruct (Hout c (proj1 Hc)) as [[Hcc ->] | [Hcc Ec]], (Hout d (proj1 Hd)) as [[Hcd Ed] | [Hcd Ed]].
    + split; [intros _ | done]. transitivity cell; [by apply connected_sym | done].
    + split; intros H.
      * exfalso. assert (label comps d <> 0) as Nd by (rewrite <- Ed, H; lia). destruct (Lr d (proj1 Hd) Nd). lia.
      * exfalso. apply Hcd. by transitivity c.
    + rewrite Ec in N |- *. split; intros H.
      * exfalso. by apply (Hfar c d (proj1 Hc) N Hcd).
      * exfalso. apply Hcc. transitivity d; [done | by apply connected_sym].
    + rewrite Ec in N |- *. rewrite Ed. by apply Lc.
  - intros c Hin Hc. destruct (Hout c (proj1 Hc)) as [[_ ->] | [Hcc ->]]; [lia |].
    apply in_app_iff in Hin as [Hin | [<- | []]]; [by apply Ld |]. exfalso. apply Hcc. done.
  - intros k Hk. destruct (Z.eq_dec k n) as [-> | Hne].
    + exists cell. split; [done |]. destruct (Hout cell (proj1 Hw)) as [[_ ->] | [Hcc _]]; [done |]. exfalso. apply Hcc. done.
    + destruct (Lu k) as (c & Hc & Ec); [lia |]. exists c. split; [done |].
      destruct (Hout c (proj1 Hc)) as [[Hcon _] | [_ ->]]; [| done].
      exfalso. assert (label comps c <> 0) as N by lia.
      pose proof (proj2 (Lc c cell Hc Hw N) (connected_sym g _ _ Hw Hcon)). lia.
Qed.

(** [k] walkable cells, no two of them connected. *)
Definition separate (k : nat) : Prop :=
  exists cells : list GridCell, length cells = k /\
    (forall c, In c cells -> walkable g c) /\
    (forall i j c d, cells !! i = Some c -> cells !! j = Some d -> i <> j -> ~ connected g c d).

(** Labels in use are components. *)
Lemma labelling_separate comps n looked k :
  labelling comps n looked -> Z.of_nat k < n -> separate k.
Proof.
  intros [Ll Lr Lc Ld Lu] Hk.
  assert (forall m, Z.of_nat m < n -> exists cells : list GridCell, length cells = m /\
    (forall i c, cells !! i = Some c -> walkable g c /\ label comps c = Z.of_nat i + 1)) as Hreps.
  { induction m as [| m IH]; intros Hm; [by exists [] |].
    destruct IH as (cells & Hlen & Hc); [lia |]. destruct (Lu (Z.of_nat m + 1)) as (c & Hw & Ec); [lia |].
    exists (cells ++ [c]). split; [rewrite length_app, Hlen; cbn; lia |].
    intros i d Hi. apply lookup_snoc_Some in Hi as [[? Hi] | [-> ->]]; [by apply Hc | by rewrite Hlen]. }
  destruct (Hreps k Hk) as (cells & Hlen & Hc). exists cells. split; [done |]. split.
  - intros c Hin. apply list_elem_of_In, list_elem_of_lookup in Hin as [i Hi]. by apply (Hc i).
  - intros i j c d Hi Hj Hne Hcon. destruct (Hc i c Hi) as [Hw1 E1], (Hc j d Hj) as [Hw2 E2].
    apply Hne. pose proof (proj2 (Lc c d Hw1 Hw2 ltac:(lia)) Hcon). lia.
Qed.

Lemma label_cells_ok cells comps n looked :
  (forall c, In c cells -> in_grid g c) -> 1 <= n <= 255 -> labelling comps n looked ->
  match label_cells g cells comps n with
  | Some (comps', n') => labelling comps' n' (looked ++ cells) /\ 1 <= n' <= 255
  | None => separate 255
  end.
Proof.
  revert comps n looked. induction cells as [| cell cells IH]; intros comps n looked Hin Hn L; cbn [label_cells].
  { by rewrite app_nil_r. }
  unfold label_cell. fold (label comps cell).
  assert (in_grid g cell) as Hc by (apply Hin; by left).
  assert (forall c, In c cells -> in_grid g c) as Hin' by (intros; apply Hin; by right).
  replace (looked ++ cell :: cells) with ((looked ++ [cell]) ++ cells) by (by rewrite <- app_assoc).
  destruct (Z.eqb_spec (label comps cell) UNASSIGNED_COMPONENT) as [E | E]; cbn [negb orb].
  2:{ cbn [mbind option_bind]. apply IH; [done | done |]. destruct L as [Ll Lr Lc Ld Lu]. split; try done.
      intros c Hi Hw. apply in_app_iff in Hi as [Hi | [<- | []]]; [by apply Ld | exact E]. }
  destruct (is_walkable_cell g cell) eqn:Ew; cbn [negb].
  2:{ cbn [mbind option_bind]. apply IH; [done | done |]. destruct L as [Ll Lr Lc Ld Lu]. split; try done.
      intros c Hi Hw. apply in_app_iff in Hi as [Hi | [<- | []]]; [by apply Ld |]. destruct Hw. congruence. }
  destruct (flood_total comps cell n) as (comps' & E' & _); try done; [lia | apply L | by eapply labelling_closed |].
  pose proof (labelling_flood comps n looked cell comps' ltac:(lia) L (conj Hc Ew) E E') as L'.
  rewrite E'. cbn [mbind option_bind]. unfold u8_max. destruct (Z.leb_spec (n + 1) 255); cbn [mbind option_bind].
  - apply IH; [done | lia | done].
  - apply (labelling_separate comps' (n + 1) (looked ++ [cell])); [done | lia].
Qed.

Lemma labelling_start : labelling (repeat UNASSIGNED_COMPONENT (Z.to_nat (width g * height g))) 1 [].
Proof.
  assert (forall c, label (repeat UNASSIGNED_COMPONENT (Z.to_nat (width g * height g))) c = 0) as H0.
  { intros c. unfold label. destruct (_ !! _) as [z |] eqn:E; [| done].
    apply list_elem_of_lookup_2, list_elem_of_In, repeat_spec in E. by rewrite E. }
  split.
  - rewrite repeat_length. destruct Hg as [W H L M]. lia.
  - intros c _ N. by rewrite H0 in N.
  - intros c d _ _ N. by rewrite H0 in N.
  - intros c [].
  - intros k Hk. lia.
Qed.

(** The labels of at most 254 components cannot tell 255 cells apart. *)
Lemma labelling_not_separate comps n looked :
  labelling comps n looked -> 1 <= n <= 255 -> (forall c, in_grid g c -> In c looked) -> ~ separate 255.
Proof.
  intros [Ll Lr Lc Ld Lu] Hn Hall (cells & Hlen & Hw & Hsep).
  assert (NoDup (label comps <$> cells)) as Hnd.
  { apply NoDup_alt. intros i j x Hi Hj. rewrite list_lookup_fmap in Hi, Hj.
    destruct (cells !! i) as [c |] eqn:Ei; [| done]. destruct (cells !! j) as [d |] eqn:Ej; [| done].
    cbn in Hi, Hj. injection Hi as <-. injection Hj as Hj. destruct (Nat.eq_dec i j) as [| Hne]; [done |]. exfalso.
    assert (walkable g c) as Hc by (apply Hw, list_elem_of_In; by eapply list_elem_of_lookup_2).
    assert (walkable g d) as Hd by (apply Hw, list_elem_of_In; by eapply list_elem_of_lookup_2).
    apply (Hsep i j c d Ei Ej Hne), (Lc c d Hc Hd); [| done]. apply Ld; [apply Hall, Hc | done]. }
  apply NoDup_ListNoDup in Hnd. apply (List.NoDup_incl_length (A := Z) (l' := seqZ 1 254)) in Hnd.
  - rewrite length_fmap, Hlen, length_seqZ in Hnd. lia.
  - intros x Hx. apply in_map_iff in Hx as (c & <- & Hc). apply list_elem_of_In, elem_of_seqZ.
    destruct (Hw c Hc) as [Hg' Hw']. destruct (Lr c Hg'); [| lia]. apply Ld; [by apply Hall | done].
Qed.
End FloodFacts.

Lemma component_for_label g r c :
  rg_width r = width g -> rg_height r = height g -> length (components r) = length (flags g) -> grid_wf g ->
  in_grid g c -> component_for_cell r c = if label g (components r) c =? 0 then None else Some (label g (components r) c).
Proof.
  intros Ew Eh Hl Hg Hc. unfold component_for_cell. rewrite Ew, Eh.
  destruct Hc as [[X1 X2] [Y1 Y2]] eqn:Ec.
  rewrite (proj2 (Z.leb_gt (width g) (cell_x c))), (proj2 (Z.leb_gt (height g) (cell_y c))) by lia. cbn [orb].
  fold (idx g c). by rewrite (label_lookup g Hg (components r) c Hc Hl).
Qed.

Lemma new_decides g r :
  grid_wf g -> ReachabilityGrid_new g = Some r ->
  ~ separate g 255 /\
  forall start goal, in_grid g start -> in_grid g goal ->
    (same_component r start goal = true <-> walkable g start /\ walkable g goal /\ connected g start goal).
Proof.
  intros Hg. unfold ReachabilityGrid_new. 
  pose proof (label_cells_ok g Hg (all_cells g) _ 1 [] (fun c => proj1 (in_all_cells g c)) ltac:(lia) (labelling_start g Hg)) as H.
  destruct (label_cells g _ _ 1) as [[comps n] |]; cbn [mbind option_bind]; [| done]. intros [= <-].
  destruct H as [L Hn]. cbn [app] in L.
  assert (forall c, in_grid g c -> In c (all_cells g)) as Hall by (intros; by apply in_all_cells).
  split; [by eapply labelling_not_separate |]. destruct L as [Ll Lr Lc Ld Lu].
  intros c d Hc Hd. unfold same_component. set (r := Build_ReachabilityGrid _ _ comps).
  rewrite !(component_for_label g r) by done. cbn [components r].
  destruct (Z.eqb_spec (label g comps c) 0) as [E1 | E1].
  { split; [done |]. intros (Hw & _ & _). exfalso. apply (Ld c); [by apply Hall | done | done]. }
  destruct (Lr c Hc E1) as [Hwc _].
  destruct (Z.eqb_spec (label g comps d) 0) as [E2 | E2].
  { split; [done |]. intros (_ & Hw & _). exfalso. apply (Ld d); [by apply Hall | done | done]. }
  destruct (Lr d Hd E2) as [Hwd _]. rewrite Z.eqb_eq. split.
  - intros E. split_and!; try done. by apply Lc.
  - intros (_ & _ & Hcon). symmetry. by apply Lc.
Qed.

(** The construction panics on 255 components. *)
Lemma new_panics g : grid_wf g -> ReachabilityGrid_new g = None -> separate g 255.
Proof.
  intros Hg. unfold ReachabilityGrid_new.
  pose proof (label_cells_ok g Hg (all_cells g) _ 1 [] (fun c => proj1 (in_all_cells g c)) ltac:(lia) (labelling_start g Hg)) as H.
  destruct (label_cells g _ _ 1) as [[comps n] |]; [done | intros _; exact H].
Qed.

(** [C30] The reachability grid decides connection: it is built without running
    out of fuel, and for any two cells of the grid [same_component] holds exactly
    when both are walkable and a path of edge-sharing walkable cells joins them.
    Its construction panics exactly when the map has 255 or more components, one
    fewer than its message admits. *)
Theorem reachability_exact g :
  grid_wf g ->
  match ReachabilityGrid_new g with
  | Some r => ~ separate g 255 /\
      forall start goal, in_grid g start -> in_grid g goal ->
        (same_component r start goal = true <->
         walkable g start /\ walkable g goal /\ connected g start goal)
  | None => separate g 255
  end.
Proof.
  intros Hg. destruct (ReachabilityGrid_new g) as [r |] eqn:E; [by apply new_decides | by apply new_panics].
Qed.

Lemma reachability_exact_witness :
  exists g r, sample_grid = Some g /\ ReachabilityGrid_new g = Some r /\
    connected g {| cell_x := 0; cell_y := 0 |} {| cell_x := 0; cell_y := 2 |} /\
    ~ connected g {| cell_x := 0; cell_y := 1 |} {| cell_x := 2; cell_y := 1 |}.
Proof.
  destruct sample_grid as [g |] eqn:Eg; [| vm_compute in Eg; discriminate].
  assert (grid_wf g) as Hg by (apply (TerrainFlagsGrid_new_wf _ 3 3 _ g ltac:(lia) ltac:(lia) Eg)).
  pose proof (reachability_exact g Hg) as H.
  vm_compute in Eg. injection Eg as Eg. 
  destruct (ReachabilityGrid_new g) as [r |] eqn:Er; [| subst g; vm_compute in Er; discriminate].
  exists g, r. split_and!; [by rewrite <- Eg | done | |].
  - apply H; subst g; [unfold in_grid; cbn; lia .. |]. vm_compute in Er. injection Er as <-. reflexivity.
  - intros Hcon. destruct H as [_ H].
    assert (same_component r {| cell_x := 0; cell_y := 1 |} {| cell_x := 2; cell_y := 1 |} = true) as E.
    { apply H; subst g; [unfold in_grid; cbn; lia .. |]. split_and!; [split; [unfold in_grid; cbn; lia | reflexivity] .. | exact Hcon]. }
    subst g. vm_compute in Er. injection Er as <-. discriminate E.
Defined.
