(* ===== verification/Segment.v ===== *)
(** Straight segments over the grid ([zohar-sim/src/navigation/segment.rs]): the
    bounded Amanatides/Woo traversal, in the [f32] arithmetic of the source, with
    the corner case of the collision test.

    The traversal's loop runs on fuel, [width + height + 1] turns: every turn moves
    the cursor along an axis that has a direction, and the test rejects a cell
    outside the grid ([trace_total]).  [None] of [trace_from] is lack of fuel. *)
From S2P Require Import Prelude Domain Float Space Grid.

Definition f32_infinity : spec_float := S754_infinity false.
Definition f32_abs (x : spec_float) : spec_float := SFabs x.

(** The literals of the source. *)
Definition CLIP_BACKOFF_EPSILON_M : spec_float := f_div binary32 (f32_of_int 1) (f32_of_int 1000).
Definition f32_epsilon : spec_float := f_div binary32 (f32_of_int 1) (f32_of_int (2 ^ 23)).

Inductive SegmentTrace : Type :=
| Complete
| Blocked (cell : GridCell) (enter_t : spec_float).

Record GridCursor : Type := { cur_x : Z; cur_y : Z }.
Definition from_cell (c : GridCell) : GridCursor := {| cur_x := cell_x c; cur_y := cell_y c |}.
(** [as usize] of a negative [isize] is a huge index. *)
Definition to_cell (c : GridCursor) : GridCell := {| cell_x := wrap_u 64 (cur_x c); cell_y := wrap_u 64 (cur_y c) |}.

Inductive StepKind : Type := StepX | StepY | StepCorner.

Record SegmentTraversal : Type := {
  tr_current : GridCursor;
  tr_target : GridCursor;
  tr_step_x : Z;
  tr_step_y : Z;
  tr_t_max_x : spec_float;
  tr_t_max_y : spec_float;
  tr_t_delta_x : spec_float;
  tr_t_delta_y : spec_float;
  tr_last_enter_t : spec_float }.

Definition step_direction (delta : spec_float) : Z :=
  if SFltb f32_zero delta then 1 else if SFltb delta f32_zero then -1 else 0.

Definition first_boundary (cell step : Z) (size : spec_float) : spec_float :=
  let boundary_cell := if 0 <? step then cell + 1 else cell in
  f32_mul (f32_of_int boundary_cell) size.

Definition initial_boundary_t (boundary_m start_coord_m delta_m : spec_float) (step : Z) : spec_float :=
  if step =? 0 then f32_infinity else f32_div (f32_sub boundary_m start_coord_m) delta_m.

Definition boundary_step_t (size delta_m : spec_float) (step : Z) : spec_float :=
  if step =? 0 then f32_infinity else f32_div size (f32_abs delta_m).

Section Segment.
Variable g : TerrainFlagsGrid.

(** [SegmentTraversal::new] *)
Definition SegmentTraversal_new (start goal : LocalPos) : option SegmentTraversal :=
  start_cell ← cell_for_point g start;
  goal_cell ← cell_for_point g goal;
  let dx := f32_sub (pos_x goal) (pos_x start) in
  let dy := f32_sub (pos_y goal) (pos_y start) in
  let step_x := step_direction dx in
  let step_y := step_direction dy in
  let current := from_cell start_cell in
  let first_boundary_x := first_boundary (cur_x current) step_x (cell_size_m g) in
  let first_boundary_y := first_boundary (cur_y current) step_y (cell_size_m g) in
  Some {| tr_current := current;
          tr_target := from_cell goal_cell;
          tr_step_x := step_x;
          tr_step_y := step_y;
          tr_t_max_x := initial_boundary_t first_boundary_x (pos_x start) dx step_x;
          tr_t_max_y := initial_boundary_t first_boundary_y (pos_y start) dy step_y;
          tr_t_delta_x := boundary_step_t (cell_size_m g) dx step_x;
          tr_t_delta_y := boundary_step_t (cell_size_m g) dy step_y;
          tr_last_enter_t := f32_zero |}.

Definition reached_target (t : SegmentTraversal) : bool :=
  (cur_x (tr_current t) =? cur_x (tr_target t)) && (cur_y (tr_current t) =? cur_y (tr_target t)).

Definition current_cell (t : SegmentTraversal) : GridCell := to_cell (tr_current t).

Definition advance (t : SegmentTraversal) (x y : bool) (enter_t : spec_float) : SegmentTraversal :=
  {| tr_current := {| cur_x := if x then cur_x (tr_current t) + tr_step_x t else cur_x (tr_current t);
                      cur_y := if y then cur_y (tr_current t) + tr_step_y t else cur_y (tr_current t) |};
     tr_target := tr_target t; tr_step_x := tr_step_x t; tr_step_y := tr_step_y t;
     tr_t_max_x := if x then f32_add (tr_t_max_x t) (tr_t_delta_x t) else tr_t_max_x t;
     tr_t_max_y := if y then f32_add (tr_t_max_y t) (tr_t_delta_y t) else tr_t_max_y t;
     tr_t_delta_x := tr_t_delta_x t; tr_t_delta_y := tr_t_delta_y t; tr_last_enter_t := enter_t |}.

Definition step (t : SegmentTraversal) : StepKind * SegmentTraversal :=
  if SFltb (tr_t_max_x t) (tr_t_max_y t) then (StepX, advance t true false (tr_t_max_x t))
  else if SFltb (tr_t_max_y t) (tr_t_max_x t) then (StepY, advance t false true (tr_t_max_y t))
  else (StepCorner, advance t true true (tr_t_max_x t)).

(** The loop of [trace]. *)
Fixpoint trace_from (allow_cell : GridCell -> bool) (fuel : nat) (t : SegmentTraversal) : option SegmentTrace :=
  if reached_target t then Some Complete
  else
    match fuel with
    | O => None
    | S fuel =>
        let previous := tr_current t in
        let '(kind, t) := step t in
        match kind with
        | StepX | StepY =>
            let cell := current_cell t in
            if negb (allow_cell cell) then Some (Blocked cell (tr_last_enter_t t)) else trace_from allow_cell fuel t
        | StepCorner =>
            let x_cell := {| cell_x := wrap_u 64 (cur_x (tr_current t)); cell_y := wrap_u 64 (cur_y previous) |} in
            let y_cell := current_cell t in
            if negb (allow_cell x_cell) then Some (Blocked x_cell (tr_last_enter_t t))
            else if negb (allow_cell y_cell) then Some (Blocked y_cell (tr_last_enter_t t))
            else trace_from allow_cell fuel t
        end
    end.

Definition trace_fuel : nat := S (Z.to_nat (width g + height g)).

Definition trace (allow_cell : GridCell -> bool) (t : SegmentTraversal) : option SegmentTrace :=
  let start_cell := current_cell t in
  if negb (allow_cell start_cell) then Some (Blocked start_cell f32_zero)
  else if bool_decide (start_cell = to_cell (tr_target t)) then Some Complete
  else trace_from allow_cell trace_fuel t.

(** [walk_segment]: outside the grid, or the trace. *)
Definition walk_segment (start goal : LocalPos) (allow_cell : GridCell -> bool) : option (option SegmentTrace) :=
  match SegmentTraversal_new start goal with
  | None => Some None
  | Some t => r ← trace allow_cell t; Some (Some r)
  end.

Definition can_stand (pos : LocalPos) : bool :=
  match cell_for_point g pos with Some cell => is_walkable_cell g cell | None => false end.

Definition segment_clear (start goal : LocalPos) : bool :=
  match walk_segment start goal (is_walkable_cell g) with Some (Some Complete) => true | _ => false end.

(** [f32::hypot] is the platform's. *)
Variable hypot : spec_float -> spec_float -> spec_float.

Definition clip_segment (start goal : LocalPos) : LocalPos :=
  match walk_segment start goal (is_walkable_cell g) with
  | Some (Some Complete) => goal
  | Some (Some (Blocked _ enter_t)) =>
      let dx := f32_sub (pos_x goal) (pos_x start) in
      let dy := f32_sub (pos_y goal) (pos_y start) in
      let segment_len := hypot dx dy in
      if negb (f_is_finite segment_len) || SFleb segment_len f32_epsilon || SFleb enter_t f32_zero then start
      else
        let backoff_t := f_min (f32_div CLIP_BACKOFF_EPSILON_M segment_len) enter_t in
        let clipped_t := f_max (f32_sub enter_t backoff_t) f32_zero in
        {| pos_x := f32_add (pos_x start) (f32_mul dx clipped_t);
           pos_y := f32_add (pos_y start) (f32_mul dy clipped_t) |}
  | _ => start
  end.
End Segment.

(** ** A clear segment stays on connected ground *)
Section Clear.
Variable g : TerrainFlagsGrid.
Hypothesis Hg : grid_wf g.

Definition cursor_ok (c : GridCursor) : Prop := 0 <= cur_x c < width g /\ 0 <= cur_y c < height g.
Definition steps_ok (t : SegmentTraversal) : Prop := -1 <= tr_step_x t <= 1 /\ -1 <= tr_step_y t <= 1.

Lemma sides_max : width g <= usize_max /\ height g <= usize_max.
Proof. destruct Hg as [W H L M]. split; nia. Qed.

Lemma wrap_cell_id z : 0 <= z <= usize_max -> wrap_u 64 z = z.
Proof. intros H. unfold wrap_u. apply Z.mod_small. unfold usize_max, u64_max in H. change (2 ^ 64) with 18446744073709551616. lia. Qed.

(** A step away from the grid lands on an index no grid has. *)
Lemma wrap_cell_in z limit : -1 <= z <= usize_max -> limit <= usize_max -> 0 <= wrap_u 64 z < limit -> 0 <= z.
Proof.
  intros Hz Hl Hw. destruct (Z.eq_dec z (-1)) as [-> |]; [| lia]. exfalso. revert Hw. unfold wrap_u.
  change (-1 mod 2 ^ 64) with 18446744073709551615. unfold usize_max, u64_max in Hl. lia.
Qed.

Lemma to_cell_ok c : cursor_ok c -> to_cell c = {| cell_x := cur_x c; cell_y := cur_y c |}.
Proof.
  intros [X Y]. pose proof sides_max. unfold to_cell. rewrite (wrap_cell_id (cur_x c)), (wrap_cell_id (cur_y c)) by lia. done.
Qed.

(** The cell of a moved cursor, if it is walkable. *)
Lemma walkable_cursor x y : -1 <= x <= usize_max -> -1 <= y <= usize_max ->
  is_walkable_cell g {| cell_x := wrap_u 64 x; cell_y := wrap_u 64 y |} = true ->
  0 <= x < width g /\ 0 <= y < height g /\ walkable g {| cell_x := x; cell_y := y |}.
Proof.
  intros Hx Hy Hw. pose proof sides_max as [Mw Mh].
  assert (forall z, 0 <= wrap_u 64 z) as Hpos by (intros z; unfold wrap_u; apply Z.mod_pos_bound; done).
  assert (in_grid g {| cell_x := wrap_u 64 x; cell_y := wrap_u 64 y |}) as Hi.
  { apply is_walkable_in_grid; [split; apply Hpos | exact Hw]. }
  destruct Hi as [Ix Iy]. cbn in Ix, Iy.
  pose proof (wrap_cell_in x (width g) Hx Mw Ix). pose proof (wrap_cell_in y (height g) Hy Mh Iy).
  rewrite (wrap_cell_id x) in Hw, Ix by lia. rewrite (wrap_cell_id y) in Hw, Iy by lia. split_and!; try lia. split; [unfold in_grid; cbn; lia | exact Hw].
Qed.

Lemma step_fields t : tr_target (snd (step t)) = tr_target t /\ tr_step_x (snd (step t)) = tr_step_x t /\
  tr_step_y (snd (step t)) = tr_step_y t /\
  tr_current (snd (step t)) =
    {| cur_x := match fst (step t) with StepY => cur_x (tr_current t) | _ => cur_x (tr_current t) + tr_step_x t end;
       cur_y := match fst (step t) with StepX => cur_y (tr_current t) | _ => cur_y (tr_current t) + tr_step_y t end |}.
Proof. unfold step. by destruct (SFltb (tr_t_max_x t) (tr_t_max_y t)), (SFltb (tr_t_max_y t) (tr_t_max_x t)). Qed.

(** One step along an axis. *)
Lemma axis_step_connected x y x' y' :
  walkable g {| cell_x := x; cell_y := y |} -> walkable g {| cell_x := x'; cell_y := y' |} ->
  Z.abs (x - x') + Z.abs (y - y') <= 1 -> connected g {| cell_x := x; cell_y := y |} {| cell_x := x'; cell_y := y' |}.
Proof.
  intros H1 H2 Hd. destruct (Z.eq_dec (Z.abs (x - x') + Z.abs (y - y')) 1) as [E | N].
  - apply rtc_once. split; [exact E | exact H2].
  - assert (x = x') as -> by lia. assert (y = y') as -> by lia. constructor.
Qed.

Lemma trace_from_connected fuel t :
  cursor_ok (tr_current t) -> cursor_ok (tr_target t) -> steps_ok t -> walkable g (current_cell t) ->
  trace_from (is_walkable_cell g) fuel t = Some Complete -> connected g (current_cell t) (to_cell (tr_target t)).
Proof.
  revert t. induction fuel as [| fuel IH]; intros t Hc Ht [Sx Sy] Hw E; cbn [trace_from] in E.
  all: destruct (reached_target t) eqn:R;
    [apply andb_true_iff in R as [Rx Ry]; apply Z.eqb_eq in Rx, Ry; unfold current_cell;
     destruct (tr_current t), (tr_target t); cbn in *; subst; constructor |].
  { discriminate E. }
  unfold current_cell in *. rewrite (to_cell_ok _ Hc) in Hw |- *.
  destruct (step_fields t) as (F1 & F2 & F3 & F4). pose proof sides_max as [Mw Mh].
  destruct (step t) as [kind t']. cbn [fst snd] in *.
  assert (forall x y, tr_current t' = {| cur_x := x; cur_y := y |} -> -1 <= x <= usize_max -> -1 <= y <= usize_max ->
    is_walkable_cell g {| cell_x := wrap_u 64 x; cell_y := wrap_u 64 y |} = true ->
    trace_from (is_walkable_cell g) fuel t' = Some Complete ->
    walkable g {| cell_x := x; cell_y := y |} /\ connected g {| cell_x := x; cell_y := y |} (to_cell (tr_target t))) as Hnext.
  { intros x y Ec Hx Hy Hw' E'. destruct (walkable_cursor x y Hx Hy Hw') as (X & Y & W). split; [exact W |].
    assert (cursor_ok (tr_current t')) as Hc' by (rewrite Ec; split; assumption).
    pose proof (to_cell_ok _ Hc') as Ecell. rewrite Ec in Ecell. cbn in Ecell.
    specialize (IH t' Hc'). rewrite F1, Ec, Ecell in IH. apply IH; try done. unfold steps_ok. rewrite F2, F3. done. }
  destruct Hc as [Cx Cy]. destruct kind; cbn in F4.
  - destruct (is_walkable_cell g (to_cell (tr_current t'))) eqn:W; cbn [negb] in E; [| discriminate E].
    rewrite F4 in W. destruct (Hnext _ _ F4) as [W' C']; try done; [lia | lia |].
    etrans; [| exact C']. apply axis_step_connected; [done | done | lia].
  - destruct (is_walkable_cell g (to_cell (tr_current t'))) eqn:W; cbn [negb] in E; [| discriminate E].
    rewrite F4 in W. destruct (Hnext _ _ F4) as [W' C']; try done; [lia | lia |].
    etrans; [| exact C']. apply axis_step_connected; [done | done | lia].
  - match type of E with context [negb ?b] => destruct b eqn:W1; cbn [negb] in E; [| discriminate E] end.
    destruct (is_walkable_cell g (to_cell (tr_current t'))) eqn:W; cbn [negb] in E; [| discriminate E].
    rewrite F4 in W, W1. cbn in W1. destruct (Hnext _ _ F4) as [W' C']; try done; [lia | lia |].
    destruct (walkable_cursor (cur_x (tr_current t) + tr_step_x t) (cur_y (tr_current t))) as (_ & _ & W1');
      [lia | lia | exact W1 |].
    etrans; [| exact C']. etrans; [apply (axis_step_connected _ _ _ _ Hw W1') | apply (axis_step_connected _ _ _ _ W1' W')]; lia.
Qed.

Lemma axis_cell_range coord limit c : axis_cell g coord limit = Some c -> 0 <= c < limit.
Proof.
  unfold axis_cell. destruct (_ || _); [done |]. destruct (_ || _); [done |].
  match goal with |- context [Z.ltb ?x limit] => pose proof (f_to_int_range 0 usize_max (f_floor binary32 (f32_mul coord (inv_cell_size_m g)))) as B; destruct (Z.ltb_spec x limit) end; [| done].
  intros [= <-]. split; [apply B; unfold usize_max, u64_max; lia | done].
Qed.

Lemma cell_for_point_in pos c : cell_for_point g pos = Some c -> in_grid g c.
Proof.
  unfold cell_for_point. destruct (axis_cell g (pos_x pos) _) as [x |] eqn:Ex; [| done].
  destruct (axis_cell g (pos_y pos) _) as [y |] eqn:Ey; [| done]. cbn. intros [= <-].
  apply axis_cell_range in Ex, Ey. done.
Qed.

Lemma step_direction_range d : -1 <= step_direction d <= 1.
Proof. unfold step_direction. destruct (SFltb f32_zero d), (SFltb d f32_zero); lia. Qed.

Lemma clear_connected start goal a b :
  cell_for_point g start = Some a -> cell_for_point g goal = Some b -> segment_clear g start goal = true ->
  walkable g a /\ walkable g b /\ connected g a b.
Proof.
  intros Ea Eb. unfold segment_clear, walk_segment, SegmentTraversal_new. rewrite Ea, Eb. cbn [mbind option_bind].
  pose proof (cell_for_point_in _ _ Ea) as Ia. pose proof (cell_for_point_in _ _ Eb) as Ib.
  match goal with |- context [trace g _ ?t] => set (t0 := t) end.
  assert (cursor_ok (tr_current t0)) as Hc by exact Ia. assert (cursor_ok (tr_target t0)) as Ht by exact Ib.
  assert (current_cell t0 = a) as Ca by (unfold current_cell; rewrite (to_cell_ok _ Hc); by destruct a).
  assert (to_cell (tr_target t0) = b) as Cb by (rewrite (to_cell_ok _ Ht); by destruct b).
  unfold trace. rewrite Ca, Cb. destruct (is_walkable_cell g a) eqn:Wa; cbn [negb]; [| done].
  assert (walkable g a) as Hwa by done. intros E.
  assert (connected g a b) as Hcon.
  { revert E. case_bool_decide as Eab; [intros _; rewrite <- Eab; constructor |].
    destruct (trace_from _ _ t0) as [[] |] eqn:E; try done. intros _.
    apply (trace_from_connected _ t0) in E; try done; rewrite ?Ca, ?Cb in *; try done.
    split; apply step_direction_range. }
  split; [done |]. split; [| done]. by apply (connected_walkable g a).
Qed.

(** What the collision test accepts can be walked: if a segment is clear,
    both ends lie on walkable cells of the grid, and the cells are joined by a
    path of edge-sharing walkable cells, corners included, whatever the rounding
    of the traversal's [f32] arithmetic. *)
Theorem segment_clear_connected start goal :
  segment_clear g start goal = true ->
  exists a b, cell_for_point g start = Some a /\ cell_for_point g goal = Some b /\
    walkable g a /\ walkable g b /\ connected g a b.
Proof.
  intros E. destruct (cell_for_point g start) as [a |] eqn:Ea;
    [| by unfold segment_clear, walk_segment, SegmentTraversal_new in E; rewrite Ea in E].
  destruct (cell_for_point g goal) as [b |] eqn:Eb;
    [| by unfold segment_clear, walk_segment, SegmentTraversal_new in E; rewrite Ea, Eb in E].
  destruct (clear_connected start goal a b Ea Eb E) as (Wa & Wb & Hcon). by exists a, b.
Qed.
End Clear.

(** ** The traversal ends *)
Section Total.
Variable g : TerrainFlagsGrid.
Hypothesis Hg : grid_wf g.

(** A value of the type [f32]. *)
Definition f32_valid (x : spec_float) : Prop := valid_binary 24 128 x = true.
Definition pos_valid (p : LocalPos) : Prop := f32_valid (pos_x p) /\ f32_valid (pos_y p).

Lemma axis_cell_finite coord limit c : axis_cell g coord limit = Some c -> f_is_finite coord = true.
Proof. unfold axis_cell. by destruct (f_is_finite coord). Qed.

(** Zeros of either sign are in the same cell. *)
Lemma axis_cell_zero a b limit : axis_cell g (S754_zero a) limit = axis_cell g (S754_zero b) limit.
Proof.
  unfold axis_cell. cbn [f_is_finite negb orb SFltb SFcompare f32_zero]. unfold f32_mul, f_mul.
  by destruct (inv_cell_size_m g) as [[] | [] | | []], a, b.
Qed.

(** Without a direction on an axis, both ends have the same coordinate there. *)
Lemma no_direction_same_cell a b limit ca cb :
  f32_valid a -> f32_valid b -> step_direction (f32_sub b a) = 0 ->
  axis_cell g a limit = Some ca -> axis_cell g b limit = Some cb -> ca = cb.
Proof.
  intros Va Vb Hs Ea Eb.
  assert (f_no_sign (f_sub binary32 b a)) as Hn.
  { unfold step_direction, f32_zero, f32_sub in Hs. unfold f_no_sign.
    destruct (SFltb (S754_zero false) _); [done |]. by destruct (SFltb _ (S754_zero false)). }
  destruct (f_sub_no_sign binary32 eq_refl b a Vb Va (axis_cell_finite _ _ _ Eb) (axis_cell_finite _ _ _ Ea) Hn)
    as [-> | (x & y & -> & ->)]; [congruence |].
  rewrite (axis_cell_zero x y) in Eb. congruence.
Qed.

Lemma no_direction_same_point start goal a b :
  pos_valid start -> pos_valid goal ->
  step_direction (f32_sub (pos_x goal) (pos_x start)) = 0 -> step_direction (f32_sub (pos_y goal) (pos_y start)) = 0 ->
  cell_for_point g start = Some a -> cell_for_point g goal = Some b -> a = b.
Proof.
  intros [Vx Vy] [Wx Wy] Zx Zy Ea Eb. unfold cell_for_point in Ea, Eb.
  destruct (axis_cell g (pos_x start) _) as [ax |] eqn:Eax; [| done].
  destruct (axis_cell g (pos_y start) _) as [ay |] eqn:Eay; [| done]. injection Ea as <-.
  destruct (axis_cell g (pos_x goal) _) as [bx |] eqn:Ebx; [| done].
  destruct (axis_cell g (pos_y goal) _) as [by' |] eqn:Eby; [| done]. injection Eb as <-.
  f_equal; [exact (no_direction_same_cell _ _ _ _ _ Vx Wx Zx Eax Ebx) | exact (no_direction_same_cell _ _ _ _ _ Vy Wy Zy Eay Eby)].
Qed.

(** An axis without direction is never chosen. *)
Definition axis_idle (t : SegmentTraversal) : Prop :=
  (tr_step_x t = 0 -> tr_t_max_x t = f32_infinity /\ tr_t_delta_x t = f32_infinity) /\
  (tr_step_y t = 0 -> tr_t_max_y t = f32_infinity /\ tr_t_delta_y t = f32_infinity).

Lemma infinity_not_less x : SFltb f32_infinity x = false.
Proof. unfold SFltb. by destruct x as [| [] | |]. Qed.

Lemma step_idle t : axis_idle t -> axis_idle (snd (step t)).
Proof.
  intros [Ix Iy]. unfold step.
  destruct (SFltb (tr_t_max_x t) (tr_t_max_y t)), (SFltb (tr_t_max_y t) (tr_t_max_x t)); cbn [snd];
    (split; [intros E; destruct (Ix E) as [Ex Dx] | intros E; destruct (Iy E) as [Ey Dy]]);
    cbn [advance tr_t_max_x tr_t_max_y tr_t_delta_x tr_t_delta_y]; rewrite ?Ex, ?Dx, ?Ey, ?Dy; done.
Qed.

(** How far the cursor can still go on an axis of [limit] cells. *)
Definition to_go (dir pos limit : Z) : Z := if 0 <? dir then limit - pos else if dir <? 0 then pos + 1 else 0.
Definition measure (t : SegmentTraversal) : Z :=
  to_go (tr_step_x t) (cur_x (tr_current t)) (width g) + to_go (tr_step_y t) (cur_y (tr_current t)) (height g).

Lemma to_go_step dir pos limit : -1 <= dir <= 1 -> dir <> 0 -> to_go dir (pos + dir) limit = to_go dir pos limit - 1.
Proof. intros H N. unfold to_go. destruct (Z.ltb_spec 0 dir), (Z.ltb_spec dir 0); lia. Qed.

Lemma to_go_bounds dir pos limit : 0 <= pos < limit -> 0 <= to_go dir pos limit <= limit /\ (dir <> 0 -> 0 < to_go dir pos limit).
Proof. intros H. unfold to_go. destruct (Z.ltb_spec 0 dir), (Z.ltb_spec dir 0); lia. Qed.

(** What the loop maintains. *)
Record traversing (t : SegmentTraversal) : Prop := {
  tv_cursor : cursor_ok g (tr_current t);
  tv_steps : steps_ok t;
  tv_idle : axis_idle t;
  tv_moves : tr_step_x t <> 0 \/ tr_step_y t <> 0 }.

Lemma step_measure t : traversing t ->
  measure (snd (step t)) < measure t /\ steps_ok (snd (step t)) /\ axis_idle (snd (step t)) /\
  (tr_step_x (snd (step t)) <> 0 \/ tr_step_y (snd (step t)) <> 0) /\
  -1 <= cur_x (tr_current (snd (step t))) <= usize_max /\ -1 <= cur_y (tr_current (snd (step t))) <= usize_max.
Proof.
  intros [[Cx Cy] [Sx Sy] I M]. destruct (step_fields t) as (F1 & F2 & F3 & F4).
  pose proof (sides_max g Hg) as [Mw Mh]. pose proof (step_idle t I) as I'.
  unfold steps_ok, measure. rewrite F2, F3, F4. cbn [cur_x cur_y].
  split; [| split_and!; try done; destruct (fst (step t)); lia].
  destruct I as [Ix Iy]. unfold step.
  destruct (SFltb (tr_t_max_x t) (tr_t_max_y t)) eqn:L1; [| destruct (SFltb (tr_t_max_y t) (tr_t_max_x t)) eqn:L2]; cbn [fst].
  - assert (tr_step_x t <> 0) as N by (intros E; destruct (Ix E) as [E' _]; rewrite E', infinity_not_less in L1; done).
    rewrite to_go_step by done. lia.
  - assert (tr_step_y t <> 0) as N by (intros E; destruct (Iy E) as [E' _]; rewrite E', infinity_not_less in L2; done).
    rewrite (to_go_step (tr_step_y t)) by done. lia.
  - destruct (Z.eq_dec (tr_step_x t) 0) as [E | N], (Z.eq_dec (tr_step_y t) 0) as [E' | N'];
      rewrite ?E, ?E', ?Z.add_0_r; rewrite ?(to_go_step (tr_step_x t)), ?(to_go_step (tr_step_y t)) by done; lia.
Qed.

Lemma trace_from_total fuel t : traversing t -> measure t <= Z.of_nat fuel ->
  exists r, trace_from (is_walkable_cell g) fuel t = Some r.
Proof.
  revert t. induction fuel as [| fuel IH]; intros t T Hm; cbn [trace_from];
    (destruct (reached_target t); [by eexists |]).
  { exfalso. destruct T as [[Cx Cy] _ _ M]. unfold measure in Hm.
    pose proof (to_go_bounds (tr_step_x t) _ _ Cx). pose proof (to_go_bounds (tr_step_y t) _ _ Cy). lia. }
  destruct (step_measure t T) as (Hlt & S' & I' & M' & Bx & By).
  destruct (step t) as [kind t'] eqn:Es. cbn [snd] in *.
  assert (is_walkable_cell g (current_cell t') = true -> exists r, trace_from (is_walkable_cell g) fuel t' = Some r) as Hgo.
  { intros W. apply IH; [| lia]. destruct (walkable_cursor g Hg _ _ Bx By W) as (X & Y & _).
    split; try done. }
  destruct kind; repeat match goal with |- context [negb ?b] => destruct b eqn:?; cbn [negb]; [| by eexists] end; by apply Hgo.
Qed.

(** The collision test always answers: for any two [f32] positions, on any
    grid, the traversal ends within [width + height] turns, so walking a segment
    is never cut short, whatever the rounding of its boundary times. *)
Theorem walk_segment_total start goal :
  pos_valid start -> pos_valid goal -> exists r, walk_segment g start goal (is_walkable_cell g) = Some r.
Proof.
  intros Vs Vg. unfold walk_segment, SegmentTraversal_new.
  destruct (cell_for_point g start) as [a |] eqn:Ea; [| by eexists].
  destruct (cell_for_point g goal) as [b |] eqn:Eb; [| by eexists]. cbn [mbind option_bind].
  pose proof (cell_for_point_in g _ _ Ea) as Ia. pose proof (cell_for_point_in g _ _ Eb) as Ib.
  match goal with |- context [trace g _ ?t] => set (t0 := t) end. unfold trace.
  destruct (is_walkable_cell g (current_cell t0)); cbn [negb mbind option_bind]; [| by eexists].
  case_bool_decide as Eab; [by eexists |].
  destruct (trace_from_total (trace_fuel g) t0) as [r ->]; [| | by eexists].
  - split; [exact Ia | split; apply step_direction_range | |].
    + unfold axis_idle, t0, initial_boundary_t, boundary_step_t. cbn. split; intros ->; done.
    + destruct (Z.eq_dec (tr_step_x t0) 0) as [Zx | N]; [| by left].
      destruct (Z.eq_dec (tr_step_y t0) 0) as [Zy | N]; [| by right]. exfalso. apply Eab.
      assert (a = b) as E by (by apply (no_direction_same_point start goal)).
      unfold current_cell, t0. cbn [tr_current tr_target]. by rewrite E.
  - unfold measure, trace_fuel. destruct Ia as [Ix Iy].
    pose proof (to_go_bounds (tr_step_x t0) _ _ Ix). pose proof (to_go_bounds (tr_step_y t0) _ _ Iy).
    change (cur_x (tr_current t0)) with (cell_x a). change (cur_y (tr_current t0)) with (cell_y a). lia.
Qed.
End Total.

(** From the middle of the left column of the sample grid down to its end. *)
Definition sample_start : LocalPos := {| pos_x := f32_half; pos_y := f32_half |}.
Definition sample_goal : LocalPos := {| pos_x := f32_half; pos_y := f_lit binary32 5 2 |}.

Lemma segment_clear_connected_witness :
  exists g, sample_grid = Some g /\
    connected g {| cell_x := 0; cell_y := 0 |} {| cell_x := 0; cell_y := 2 |}.
Proof.
  destruct sample_grid as [g |] eqn:Eg; [| vm_compute in Eg; discriminate]. exists g. split; [done |].
  pose proof (sample_grid_wf g Eg) as Hg. vm_compute in Eg. injection Eg as Eg.
  destruct (segment_clear_connected g Hg sample_start sample_goal) as (a & b & Ea & Eb & _ & _ & H);
    [subst g; vm_compute; reflexivity |].
  subst g. vm_compute in Ea, Eb. injection Ea as <-. injection Eb as <-. exact H.
Defined.

Lemma walk_segment_total_witness :
  exists g r, sample_grid = Some g /\ walk_segment g sample_start sample_goal (is_walkable_cell g) = Some r.
Proof.
  destruct sample_grid as [g |] eqn:Eg; [| vm_compute in Eg; discriminate].
  destruct (walk_segment_total g (sample_grid_wf g Eg) sample_start sample_goal) as [r E];
    [split; vm_compute; reflexivity .. |].
  exists g, r. split; [done | exact E].
Defined.
