(* ===== verification/Planner.v ===== *)
(** Planning over the grid ([zohar-sim/src/navigation/planner.rs]) and the map
    navigator ([zohar-sim/src/navigation.rs]): direct segments first, then a
    bounded search for a cell path, pruned to way points.

    The search is [astar] of the [pathfinding] crate and [f32::hypot] is the
    platform's: both are parameters.  Of the search the safety theorem uses that
    a path it returns leads from the start to a goal along successors. *)
From S2P Require Import Prelude Domain Float Space Grid Reachability Segment.

Record LocalPlanScope : Type := { local_search_radius_m : spec_float }.
Definition LocalPlanScope_default : LocalPlanScope := {| local_search_radius_m := f32_of_int 20 |}.

(** [search_radius_cells] *)
Definition search_radius_cells (scope : LocalPlanScope) (g : TerrainFlagsGrid) : option Z :=
  if negb (f_is_finite (local_search_radius_m scope)) || SFleb (local_search_radius_m scope) f32_zero then None
  else
    let cells := f_ceil binary32 (f32_mul (local_search_radius_m scope) (inv_cell_size_m g)) in
    if negb (f_is_finite cells) || SFltb cells f32_one || SFltb (f32_of_int usize_max) cells then None
    else Some (f_to_int 0 usize_max cells).

(** [PartialEq] of positions. *)
Definition pos_eqb (a b : LocalPos) : bool := SFeqb (pos_x a) (pos_x b) && SFeqb (pos_y a) (pos_y b).

Record NavPath : Type := { path_cells : list GridCell; waypoints : list LocalPos }.

Section Planner.
Variable hypot : spec_float -> spec_float -> spec_float.
Variable astar : GridCell -> (GridCell -> list (GridCell * Z)) -> (GridCell -> Z) -> (GridCell -> bool) ->
  option (list GridCell * Z).

Definition goal_is_in_scope (scope : LocalPlanScope) (start goal : LocalPos) : bool :=
  let distance := hypot (f32_sub (pos_x goal) (pos_x start)) (f32_sub (pos_y goal) (pos_y start)) in
  f_is_finite distance && SFleb distance (local_search_radius_m scope).

(** The successors the search sees. *)
Definition successors (g : TerrainFlagsGrid) (bounds : GridBounds) (cell : GridCell) : list (GridCell * Z) :=
  map (fun neighbor => (neighbor, 1))
    (List.filter (fun neighbor => bounds_contains bounds neighbor && is_walkable_cell g neighbor) (neighbors4 g cell)).

Definition find_local_cell_path (g : TerrainFlagsGrid) (reach : ReachabilityGrid) (start goal : GridCell)
    (scope : LocalPlanScope) : option (list GridCell) :=
  if negb (is_walkable_cell g start) || negb (is_walkable_cell g goal) || negb (same_component reach start goal) then None
  else
    radius ← search_radius_cells scope g;
    let bounds := search_bounds g start radius in
    if negb (bounds_contains bounds goal) then None
    else
      '(path, _) ← astar start (successors g bounds) (fun cell => manhattan_distance cell goal)
                     (fun cell => bool_decide (cell = goal));
      Some path.

(** The anchor of each cell: the start, the centres, the goal. *)
Fixpoint later_anchors (g : TerrainFlagsGrid) (goal : LocalPos) (cells : list GridCell) : list LocalPos :=
  match cells with
  | [] => []
  | [_] => [goal]
  | cell :: cells =>
      match cell_center g cell with
      | Some center => center :: later_anchors g goal cells
      | None => later_anchors g goal cells
      end
  end.

Definition anchor_positions (g : TerrainFlagsGrid) (cells : list GridCell) (start goal : LocalPos) : list LocalPos :=
  match cells with
  | [] => []
  | _ :: cells =>
      let anchors := start :: later_anchors g goal cells in
      if (length anchors =? 1)%nat && negb (pos_eqb start goal) then anchors ++ [goal] else anchors
  end.

(** Skip anchors while the segment from [anchor] to the next one is clear: the
    furthest anchor seen, and those after it. *)
Fixpoint skip_clear (clear : LocalPos -> LocalPos -> bool) (anchor furthest : LocalPos) (after : list LocalPos)
  : LocalPos * list LocalPos :=
  match after with
  | [] => (furthest, [])
  | next :: rest => if clear anchor next then skip_clear clear anchor next rest else (furthest, after)
  end.

(** The way points after [anchor]; [after] are the anchors behind it. *)
Fixpoint prune_from (clear : LocalPos -> LocalPos -> bool) (fuel : nat) (anchor : LocalPos) (after : list LocalPos)
  : list LocalPos :=
  match fuel, after with
  | S fuel, next :: rest =>
      let '(furthest, rest) := skip_clear clear anchor next rest in
      furthest :: prune_from clear fuel furthest rest
  | _, _ => []
  end.

Definition prune_cells_to_path (g : TerrainFlagsGrid) (cells : list GridCell) (start goal : LocalPos)
    (clear : LocalPos -> LocalPos -> bool) : NavPath :=
  match anchor_positions g cells start goal with
  | [] => {| path_cells := []; waypoints := [] |}
  | first :: after =>
      {| path_cells := cells; waypoints := first :: prune_from clear (length after) first after |}
  end.

(** ** [MapNavigator] *)
Record MapNavigator : Type := { terrain : TerrainFlagsGrid; reachability : ReachabilityGrid }.

(** [None] is the panic of too many components. *)
Definition MapNavigator_new (g : TerrainFlagsGrid) : option MapNavigator :=
  reach ← ReachabilityGrid_new g; Some {| terrain := g; reachability := reach |}.

Inductive RouteResolution : Type :=
| InvalidEndpoints
| Direct (start_cell goal_cell : GridCell)
| OutOfScope
| Unreachable
| Planned (cells : list GridCell).

Section Navigator.
Variable nav : MapNavigator.

Definition resolve_endpoints (start goal : LocalPos) : option (GridCell * GridCell) :=
  start_cell ← cell_for_point (terrain nav) start;
  goal_cell ← cell_for_point (terrain nav) goal;
  Some (start_cell, goal_cell).

Definition nav_same_component (start goal : LocalPos) : bool :=
  match resolve_endpoints start goal with
  | Some (start_cell, goal_cell) => same_component (reachability nav) start_cell goal_cell
  | None => false
  end.

Definition resolve_route (start goal : LocalPos) (scope : LocalPlanScope) : RouteResolution :=
  match resolve_endpoints start goal with
  | None => InvalidEndpoints
  | Some (start_cell, goal_cell) =>
      if segment_clear (terrain nav) start goal then Direct start_cell goal_cell
      else if negb (goal_is_in_scope scope start goal) then OutOfScope
      else if negb (same_component (reachability nav) start_cell goal_cell) then Unreachable
      else
        match find_local_cell_path (terrain nav) (reachability nav) start_cell goal_cell scope with
        | None => Unreachable
        | Some cells => Planned cells
        end
  end.

Definition build_path (cells : list GridCell) (start goal : LocalPos) : NavPath :=
  prune_cells_to_path (terrain nav) cells start goal (segment_clear (terrain nav)).

Definition build_direct_path (start_cell goal_cell : GridCell) (start goal : LocalPos) : NavPath :=
  build_path [start_cell; goal_cell] start goal.

Definition next_waypoint_from_path (path : NavPath) : option LocalPos :=
  match waypoints path !! 1%nat with Some w => Some w | None => last (waypoints path) end.

Definition next_waypoint_with_scope (start goal : LocalPos) (scope : LocalPlanScope) : option LocalPos :=
  match resolve_route start goal scope with
  | Direct _ _ => Some goal
  | Planned cells => next_waypoint_from_path (build_path cells start goal)
  | InvalidEndpoints | OutOfScope | Unreachable => None
  end.

Definition find_path_with_scope (start goal : LocalPos) (scope : LocalPlanScope) : option NavPath :=
  match resolve_route start goal scope with
  | Direct start_cell goal_cell => Some (build_direct_path start_cell goal_cell start goal)
  | Planned cells => Some (build_path cells start goal)
  | InvalidEndpoints | OutOfScope | Unreachable => None
  end.

Definition next_waypoint (start goal : LocalPos) : option LocalPos :=
  next_waypoint_with_scope start goal LocalPlanScope_default.
Definition find_path (start goal : LocalPos) : option NavPath :=
  find_path_with_scope start goal LocalPlanScope_default.
End Navigator.
End Planner.

(** ** Pruning *)

(** Every two neighbours of [x :: l] are related. *)
Fixpoint chain {A} (P : A -> A -> Prop) (x : A) (l : list A) : Prop :=
  match l with [] => True | y :: l => P x y /\ chain P y l end.

Lemma chain_impl {A} (P Q : A -> A -> Prop) x l :
  (forall a b, P a b -> Q a b) -> chain P x l -> chain Q x l.
Proof. intros H. revert x. induction l as [| y l IH]; intros x; [done |]. intros [? ?]. split; auto. Qed.

Lemma chain_lookup {A} (P : A -> A -> Prop) x l pre a b post :
  chain P x l -> x :: l = pre ++ a :: b :: post -> P a b.
Proof.
  revert x l. induction pre as [| y pre IH]; intros x l C E; cbn in E; injection E as -> E.
  - subst l. apply C.
  - destruct l as [| z l]; [by destruct pre |]. apply (IH z l); [apply C | exact E].
Qed.

Section Prune.
Variable clear : LocalPos -> LocalPos -> bool.
Variable anchors : list LocalPos.

(** A leg of the pruned path: in sight, or between neighbouring anchors. *)
Definition leg (a b : LocalPos) : Prop :=
  clear a b = true \/ exists pre post, anchors = pre ++ a :: b :: post.

Lemma skip_clear_leg a f after w rest :
  leg a f -> skip_clear clear a f after = (w, rest) ->
  leg a w /\ exists pre, f :: after = pre ++ w :: rest.
Proof.
  revert f. induction after as [| n after IH]; intros f L; cbn [skip_clear].
  - intros [= <- <-]. split; [done |]. by exists [].
  - destruct (clear a n) eqn:E.
    + intros H. destruct (IH n (or_introl E) H) as (Lw & pre & Ep). split; [done |].
      exists (f :: pre). by rewrite Ep.
    + intros [= <- <-]. split; [done |]. by exists [].
Qed.

Lemma prune_from_chain fuel a after pre :
  anchors = pre ++ a :: after -> (length after <= fuel)%nat ->
  chain leg a (prune_from clear fuel a after) /\ last (a :: prune_from clear fuel a after) = last (a :: after).
Proof.
  revert a after pre. induction fuel as [| fuel IH]; intros a [| n rest] pre E Hf; cbn [prune_from]; try done;
    [cbn in Hf; lia |].
  destruct (skip_clear clear a n rest) as [w after] eqn:Es.
  destruct (skip_clear_leg a n rest w after) as (L & pre' & Ep); [right; by exists pre, rest | done |].
  assert (length (n :: rest) = length (pre' ++ w :: after)) as El by (by rewrite Ep).
  rewrite length_app in El. cbn [length] in El, Hf.
  destruct (IH w after (pre ++ a :: pre')) as [C La]; [| lia |].
  { rewrite E, Ep. by rewrite <- app_assoc. }
  split; [done |]. rewrite Ep.
  transitivity (last (w :: prune_from clear fuel w after)); [done |]. rewrite La.
  replace (a :: pre' ++ w :: after) with ((a :: pre') ++ w :: after) by done. by rewrite last_app_cons.
Qed.
End Prune.

(** ** Routes *)

(** What the search of the [pathfinding] crate promises of a path it returns. *)
Definition astar_sound
    (astar : GridCell -> (GridCell -> list (GridCell * Z)) -> (GridCell -> Z) -> (GridCell -> bool) ->
             option (list GridCell * Z)) : Prop :=
  forall start succ h success path cost, astar start succ h success = Some (path, cost) ->
    exists rest goal, path = start :: rest /\ last path = Some goal /\ success goal = true /\
      chain (fun a b => exists w, In (b, w) (succ a)) start rest.

Section Routes.
Variable hypot : spec_float -> spec_float -> spec_float.
Variable astar : GridCell -> (GridCell -> list (GridCell * Z)) -> (GridCell -> Z) -> (GridCell -> bool) ->
  option (list GridCell * Z).
Variable nav : MapNavigator.
Hypothesis Hg : grid_wf (terrain nav).
Hypothesis Hreach : ReachabilityGrid_new (terrain nav) = Some (reachability nav).
#[local] Abbreviation g := (terrain nav).

Lemma same_component_connected a b : in_grid g a -> in_grid g b ->
  (same_component (reachability nav) a b = true <-> walkable g a /\ walkable g b /\ connected g a b).
Proof. intros Ha Hb. by apply (new_decides g (reachability nav) Hg Hreach). Qed.

Lemma successors_step bounds a b w : in_grid g a -> In (b, w) (successors g bounds a) -> walkable_step g a b.
Proof.
  intros Ha Hin. unfold successors in Hin. apply in_map_iff in Hin as (c & [= -> <-] & Hc).
  apply filter_In in Hc as [Hn Hf]. apply andb_true_iff in Hf as [_ Hw].
  apply in_neighbors4 in Hn as [Hi Hadj]; [| done | done]. by split.
Qed.

Lemma steps_chain bounds a rest : walkable g a ->
  chain (fun a b => exists w, In (b, w) (successors g bounds a)) a rest -> chain (walkable_step g) a rest.
Proof.
  revert a. induction rest as [| b rest IH]; intros a Ha; [done |]. intros [(w & Hin) C].
  pose proof (successors_step bounds a b w (proj1 Ha) Hin) as S. split; [done |]. apply IH; [| exact C].
  destruct S as (_ & ? & ?). done.
Qed.

(** A position stands for a cell as its centre or by lying in it. *)
Definition stands_for (c : GridCell) (p : LocalPos) : Prop := cell_center g c = Some p \/ cell_for_point g p = Some c.

(** The anchors of a cell path, cell by cell. *)
Lemma later_anchors_stand goal goal_cell cells a :
  cell_for_point g goal = Some goal_cell -> last (a :: cells) = Some goal_cell ->
  (forall c, In c cells -> in_grid g c) -> Forall2 stands_for cells (later_anchors g goal cells).
Proof.
  intros Eg. revert a. induction cells as [| c cells IH]; intros a Hl Hin; [constructor |].
  destruct cells as [| d cells].
  - cbn in Hl. injection Hl as ->. cbn. constructor; [by right | constructor].
  - cbn [later_anchors]. unfold cell_center at 1.
    assert (in_grid g c) as Hc by (apply Hin; by left).
    rewrite (proj2 (contains_cell_spec g c ltac:(unfold in_grid, cell_ok in *; lia)) Hc). constructor.
    + left. unfold cell_center. by rewrite (proj2 (contains_cell_spec g c ltac:(unfold in_grid, cell_ok in *; lia)) Hc).
    + apply (IH c); [exact Hl | intros; apply Hin; by right].
Qed.

Lemma same_cell_clear start goal c :
  cell_for_point g start = Some c -> cell_for_point g goal = Some c -> is_walkable_cell g c = true ->
  segment_clear g start goal = true.
Proof.
  intros Ea Eb Hw. pose proof (cell_for_point_in g _ _ Ea) as Ic.
  unfold segment_clear, walk_segment, SegmentTraversal_new. rewrite Ea, Eb. cbn [mbind option_bind]. unfold trace.
  cbn [current_cell tr_current tr_target].
  assert (to_cell (from_cell c) = c) as E by (rewrite (to_cell_ok g Hg) by exact Ic; by destruct c).
  unfold current_cell. cbn [tr_current]. rewrite E, Hw. cbn [negb]. by rewrite bool_decide_true.
Qed.

(** One leg of a path: in sight, or from one cell to a walkable neighbour. *)
Definition route_leg (a b : LocalPos) : Prop :=
  segment_clear g a b = true \/
  exists c d, walkable g c /\ walkable_step g c d /\ stands_for c a /\ stands_for d b.

Lemma anchors_leg anchors cells c p a b :
  Forall2 stands_for (c :: cells) (p :: anchors) -> walkable g c -> chain (walkable_step g) c cells ->
  leg (segment_clear g) (p :: anchors) a b -> route_leg a b.
Proof.
  intros F Hc C [L | (pre & post & E)]; [by left | right].
  rewrite E in F. apply Forall2_app_inv_r in F as (pre' & rest & _ & F & Ec).
  apply Forall2_cons_inv_r in F as (c1 & rest1 & S1 & F & ->).
  apply Forall2_cons_inv_r in F as (d1 & rest2 & S2 & _ & ->).
  exists c1, d1. assert (walkable_step g c1 d1) as W by (by apply (chain_lookup _ c cells pre' c1 d1 rest2)).
  split_and!; try done.
  clear -C Hc Ec Hg. revert c cells C Hc Ec. induction pre' as [| y pre' IH]; intros c cells C Hc Ec; injection Ec as -> Ec; [done |].
  destruct cells as [| z cells]; [by destruct pre' |]. destruct C as [(_ & Hz) C]. by apply (IH z cells).
Qed.

Lemma chain_in_grid c cells : walkable g c -> chain (walkable_step g) c cells -> forall d, In d (c :: cells) -> walkable g d.
Proof.
  revert c. induction cells as [| d cells IH]; intros c Hc C e Hin.
  - destruct Hin as [<- | []]. done.
  - destruct Hin as [<- | Hin]; [done |]. destruct C as [(_ & Hd) C]. by apply (IH d).
Qed.

Lemma chain_connected c cells d : chain (walkable_step g) c cells -> last (c :: cells) = Some d -> connected g c d.
Proof.
  revert c. induction cells as [| e cells IH]; intros c C L.
  - cbn in L. injection L as <-. constructor.
  - destruct C as [S C]. eapply rtc_l; [exact S |]. by apply IH.
Qed.

Lemma later_anchors_last goal cells x : cells <> [] -> last (x :: later_anchors g goal cells) = Some goal.
Proof.
  intros N. assert (exists l, later_anchors g goal cells = l ++ [goal]) as [l ->].
  { induction cells as [| c [| d cells] IH]; [done | by exists [] |].
    destruct IH as [l E]; [done |]. cbn [later_anchors] in E |- *. rewrite E.
    destruct (cell_center g c) as [p |]; [by exists (p :: l) | by exists l]. }
  rewrite app_comm_cons. apply last_snoc.
Qed.

(** A path pruned from a walkable cell path. *)
Lemma build_path_ok start goal a b cells :
  cell_for_point g start = Some a -> cell_for_point g goal = Some b ->
  walkable g a -> chain (walkable_step g) a cells -> last (a :: cells) = Some b -> cells <> [] ->
  exists legs, waypoints (build_path nav (a :: cells) start goal) = start :: legs /\ legs <> [] /\
    last (start :: legs) = Some goal /\ chain route_leg start legs /\
    path_cells (build_path nav (a :: cells) start goal) = a :: cells.
Proof.
  intros Ea Eb Hw C L N. unfold build_path, prune_cells_to_path, anchor_positions.
  destruct cells as [| c cells]; [done |].
  assert (Forall2 stands_for (c :: cells) (later_anchors g goal (c :: cells))) as F.
  { apply (later_anchors_stand goal b (c :: cells) a Eb L). intros d Hd. apply (chain_in_grid a (c :: cells) Hw C). by right. }
  pose proof (Forall2_length _ _ _ F) as El. set (after := later_anchors g goal (c :: cells)) in *.
  assert ((length (start :: after) =? 1)%nat = false) as -> by (apply Nat.eqb_neq; cbn in El |- *; lia). cbn [andb].
  cbn [waypoints path_cells].
  destruct (prune_from_chain (segment_clear g) (start :: after) (length after) start after [] eq_refl (le_n _)) as [Hch Hla].
  eexists. split; [reflexivity |]. split; [| split; [| split; [| reflexivity]]].
  - destruct after; [by inversion F |]. cbn [length prune_from]. by destruct (skip_clear _ _ _ _).
  - rewrite Hla. by apply later_anchors_last.
  - eapply chain_impl; [| exact Hch]. intros x y. apply (anchors_leg after (c :: cells) a start); try done.
    constructor; [by right | exact F].
Qed.

Lemma find_local_cell_path_ok a b scope cells :
  astar_sound astar -> in_grid g a -> find_local_cell_path astar g (reachability nav) a b scope = Some cells ->
  exists rest, cells = a :: rest /\ walkable g a /\ walkable g b /\ chain (walkable_step g) a rest /\ last cells = Some b.
Proof.
  intros Hs Ha. unfold find_local_cell_path.
  destruct (is_walkable_cell g a) eqn:Wa; [| done]. destruct (is_walkable_cell g b) eqn:Wb; [| done].
  destruct (negb (same_component (reachability nav) a b)); [done |]. cbn [negb orb].
  destruct (search_radius_cells scope g) as [radius |]; [| done]. cbn [mbind option_bind].
  destruct (negb (bounds_contains _ b)); [done |].
  destruct (astar _ _ _ _) as [[path cost] |] eqn:E; [| done]. cbn. intros [= <-].
  destruct (Hs _ _ _ _ _ _ E) as (rest & e & -> & L & Ok & C). apply bool_decide_eq_true in Ok as ->.
  assert (walkable g a) as Hwa by done. pose proof (steps_chain _ a rest Hwa C) as C'.
  exists rest. split_and!; try done. apply (chain_in_grid a rest Hwa C'). by apply last_Some_elem_of, list_elem_of_In in L.
Qed.

Lemma find_path_legs start goal scope path :
  astar_sound astar -> find_path_with_scope hypot astar nav start goal scope = Some path ->
  exists legs, waypoints path = start :: legs /\ legs <> [] /\ last (start :: legs) = Some goal /\ chain route_leg start legs /\
    nav_same_component nav start goal = true.
Proof.
  intros Hs. unfold find_path_with_scope, resolve_route, nav_same_component. unfold resolve_endpoints.
  destruct (cell_for_point g start) as [a |] eqn:Ea; [| done].
  destruct (cell_for_point g goal) as [b |] eqn:Eb; [| done]. cbn [mbind option_bind].
  pose proof (cell_for_point_in g _ _ Ea) as Ia. pose proof (cell_for_point_in g _ _ Eb) as Ib.
  destruct (segment_clear g start goal) eqn:Ec.
  - intros [= <-]. destruct (clear_connected g Hg start goal a b Ea Eb Ec) as (Wa & Wb & Hcon).
    exists [goal]. split; [reflexivity |]. split; [done |]. split; [reflexivity |]. split; [by split; [left |] |].
    by apply same_component_connected.
  - destruct (goal_is_in_scope hypot scope start goal); cbn [negb]; [| done].
    destruct (same_component (reachability nav) a b) eqn:Esc; cbn [negb]; [| done].
    destruct (find_local_cell_path astar g (reachability nav) a b scope) as [cells |] eqn:Ef; [| done].
    intros [= <-]. destruct (find_local_cell_path_ok a b scope cells Hs Ia Ef) as (rest & -> & Wa & Wb & C & L).
    destruct rest as [| c rest].
    { exfalso. cbn in L. injection L as ->. rewrite (same_cell_clear start goal b Ea Eb (proj2 Wb)) in Ec. done. }
    destruct (build_path_ok start goal a b (c :: rest) Ea Eb Wa C L) as (legs & E1 & E2 & E3 & E4 & _); [done |].
    by exists legs.
Qed.

(** [C29] A path the navigator returns can be walked: it starts at the start and
    ends at the goal, every leg of it is either a segment the collision test
    accepts or goes from a walkable cell to an edge-sharing walkable one, and the
    cells of start and goal are connected, as [same_component] then says. *)
Theorem find_path_walkable start goal scope path :
  astar_sound astar -> find_path_with_scope hypot astar nav start goal scope = Some path ->
  exists legs, waypoints path = start :: legs /\ legs <> [] /\ last (start :: legs) = Some goal /\ chain route_leg start legs /\
    nav_same_component nav start goal = true.
Proof. apply find_path_legs. Qed.

(** The next way point is that of the path: [next_waypoint] answers exactly
    when [find_path] does, and then with the path's second point. *)
Theorem next_waypoint_consistent start goal scope :
  astar_sound astar ->
  next_waypoint_with_scope hypot astar nav start goal scope =
    (path ← find_path_with_scope hypot astar nav start goal scope; waypoints path !! 1%nat).
Proof.
  intros Hs. unfold next_waypoint_with_scope, find_path_with_scope.
  destruct (resolve_route hypot astar nav start goal scope) as [| a b | | | cells] eqn:E; try done.
  cbn [mbind option_bind]. unfold next_waypoint_from_path.
  destruct (find_path_legs start goal scope (build_path nav cells start goal) Hs) as (legs & -> & N & _).
  { unfold find_path_with_scope. by rewrite E. }
  by destruct legs.
Qed.
End Routes.

(** ** A route around a wall *)

(** A depth-first search in place of the crate's. *)
Fixpoint dfs (depth : nat) (succ : GridCell -> list (GridCell * Z)) (success : GridCell -> bool) (cell : GridCell)
  : option (list GridCell) :=
  if success cell then Some [cell]
  else
    match depth with
    | O => None
    | S depth =>
        (fix try (l : list (GridCell * Z)) : option (list GridCell) :=
           match l with
           | [] => None
           | (next, _) :: l => match dfs depth succ success next with Some path => Some (cell :: path) | None => try l end
           end) (succ cell)
    end.
Definition sample_astar (start : GridCell) (succ : GridCell -> list (GridCell * Z)) (h : GridCell -> Z)
    (success : GridCell -> bool) : option (list GridCell * Z) :=
  path ← dfs 5 succ success start; Some (path, 0).

Lemma dfs_sound depth succ success cell path : dfs depth succ success cell = Some path ->
  exists rest goal, path = cell :: rest /\ last path = Some goal /\ success goal = true /\
    chain (fun a b => exists w, In (b, w) (succ a)) cell rest.
Proof.
  revert cell path. induction depth as [| depth IH]; intros cell path; cbn [dfs];
    (destruct (success cell) eqn:Es; [intros [= <-]; by exists [], cell |]); [done |].
  assert (forall l, incl l (succ cell) -> forall p, (fix try (l : list (GridCell * Z)) : option (list GridCell) :=
           match l with
           | [] => None
           | (next, _) :: l => match dfs depth succ success next with Some path => Some (cell :: path) | None => try l end
           end) l = Some p -> exists rest goal, p = cell :: rest /\ last p = Some goal /\ success goal = true /\
    chain (fun a b => exists w, In (b, w) (succ a)) cell rest) as H.
  { induction l as [| [next w] l IHl]; intros Hi p E; [done |].
    destruct (dfs depth succ success next) as [path' |] eqn:En.
    - injection E as <-. destruct (IH _ _ En) as (rest & goal & -> & L & Ok & C).
      exists (next :: rest), goal. split; [done |]. split; [exact L |]. split; [exact Ok |]. split; [| exact C].
      exists w. apply Hi. by left.
    - apply IHl; [| exact E]. intros x Hx. apply Hi. by right. }
  exact (H (succ cell) (incl_refl _) path).
Qed.

Lemma sample_astar_sound : astar_sound sample_astar.
Proof.
  intros start succ h success path cost. unfold sample_astar.
  destruct (dfs 5 succ success start) as [p |] eqn:E; [| done]. intros [= <- _]. by apply (dfs_sound 5).
Qed.

Definition sample_hypot (dx dy : spec_float) : spec_float := f32_abs dx.
Definition sample_walled : option TerrainFlagsGrid := TerrainFlagsGrid_new f32_one 3 2 [0; 1; 0; 0; 0; 0].
Definition sample_nav : option MapNavigator := g ← sample_walled; MapNavigator_new g.
Definition sample_goal_right : LocalPos := {| pos_x := f_lit binary32 5 2; pos_y := f32_half |}.

Lemma sample_nav_ok nav : sample_nav = Some nav ->
  grid_wf (terrain nav) /\ ReachabilityGrid_new (terrain nav) = Some (reachability nav).
Proof.
  unfold sample_nav, sample_walled, MapNavigator_new.
  destruct (TerrainFlagsGrid_new _ _ _ _) as [g |] eqn:Eg; [| done]. cbn [mbind option_bind].
  destruct (ReachabilityGrid_new g) as [r |] eqn:Er; [| done]. cbn [mbind option_bind]. intros [= <-].
  split; [| exact Er]. apply (TerrainFlagsGrid_new_wf _ 3 2 _ g ltac:(lia) ltac:(lia) Eg).
Qed.

Lemma find_path_walkable_witness :
  exists nav path, sample_nav = Some nav /\
    find_path sample_hypot sample_astar nav sample_start sample_goal_right = Some path /\
    length (path_cells path) = 5%nat /\ last (waypoints path) = Some sample_goal_right.
Proof.
  destruct sample_nav as [nav |] eqn:En; [| vm_compute in En; discriminate].
  destruct (sample_nav_ok nav En) as [Hg Hr].
  destruct (find_path sample_hypot sample_astar nav sample_start sample_goal_right) as [path |] eqn:Ep;
    [| exfalso; revert Ep; vm_compute in En; injection En as <-; vm_compute; discriminate].
  destruct (find_path_walkable sample_hypot sample_astar nav Hg Hr sample_start sample_goal_right
    LocalPlanScope_default path sample_astar_sound Ep) as (legs & Ew & _ & L & _ & _).
  exists nav, path. split; [done |]. split; [done |]. split; [| by rewrite Ew].
  clear -En Ep. vm_compute in En. injection En as <-. vm_compute in Ep. injection Ep as <-. reflexivity.
Defined.

Lemma next_waypoint_consistent_witness :
  exists nav, sample_nav = Some nav /\
    next_waypoint sample_hypot sample_astar nav sample_start sample_goal_right =
      (path ← find_path sample_hypot sample_astar nav sample_start sample_goal_right; waypoints path !! 1%nat).
Proof.
  destruct sample_nav as [nav |] eqn:En; [| vm_compute in En; discriminate].
  destruct (sample_nav_ok nav En) as [Hg Hr]. exists nav. split; [done |].
  apply (next_waypoint_consistent sample_hypot sample_astar nav Hg Hr sample_start sample_goal_right
    LocalPlanScope_default sample_astar_sound).
Defined.
