(* ===== verification/SimTime.v ===== *)
(** Simulated time ([zohar-sim/src/runtime/time.rs]): instants and durations in
    milliseconds of a [u64], and the clock that paces a periodic task.

    The catch-up loop of the clock runs on fuel; [advance_past_total] says how
    much is enough, and [advance_past_stuck] at which instant none is. *)
From S2P Require Import Prelude MapPort.

Notation SimInstant := Z (only parsing).
Notation SimDuration := Z (only parsing).

Definition u64_sat (z : Z) : Z := clampc z 0 u64_max.

(** [Duration]s are nanoseconds. *)
Definition nanos_per_milli : Z := 1000000.
Definition SimInstant_from_elapsed (elapsed : Z) : SimInstant := Z.min (elapsed / nanos_per_milli) u64_max.
Definition SimInstant_saturating_add (self duration : Z) : SimInstant := u64_sat (self + duration).
Definition SimInstant_saturating_sub (self earlier : Z) : SimDuration := u64_sat (self - earlier).
Definition SimInstant_overflowing_sub (self earlier : Z) : SimDuration * bool :=
  (wrap_u 64 (self - earlier), self <? earlier).
Definition to_client_timestamp (self : SimInstant) : Z := Z.min self u32_max.
Definition SimDuration_as_duration (self : SimDuration) : Z := self * nanos_per_milli.
Definition SimDuration_from_duration (value : Z) : SimDuration := Z.min (value / nanos_per_milli) u64_max.
Definition elapsed_since (self : SimInstant) (event : option SimInstant) : option Z :=
  event ← event;
  let '(sim_duration, did_underflow) := SimInstant_overflowing_sub self event in
  if did_underflow then None else Some (SimDuration_as_duration sim_duration).

(** ** The ticker clock *)
Record SimTickerClock : Type := {
  last_processed_at : SimInstant; next_due_at : SimInstant; cadence : SimDuration }.

(** [None] is the failed assertion of a null cadence. *)
Definition SimTickerClock_scheduled (last_processed next_due cadence : Z) : option SimTickerClock :=
  if 0 <? cadence then
    Some {| last_processed_at := last_processed; next_due_at := next_due; cadence := cadence |}
  else None.

Definition SimTickerClock_phased (seed now cadence : Z) : option SimTickerClock :=
  if 0 <? cadence then
    let phase_ms := Z.abs seed mod cadence in
    let now_phase := now mod cadence in
    let delay_ms := if now_phase <? phase_ms then phase_ms - now_phase else cadence - (now_phase - phase_ms) in
    SimTickerClock_scheduled now (SimInstant_saturating_add now (Z.max delay_ms 1)) cadence
  else None.

Definition is_due (self : SimTickerClock) (now : SimInstant) : bool := next_due_at self <=? now.

Fixpoint advance_past (fuel : nat) (self : SimTickerClock) (now : SimInstant) : option SimTickerClock :=
  if next_due_at self <=? now then
    match fuel with
    | O => None
    | S fuel =>
        advance_past fuel
          {| last_processed_at := last_processed_at self;
             next_due_at := SimInstant_saturating_add (next_due_at self) (cadence self);
             cadence := cadence self |} now
    end
  else Some self.

Definition advance_fuel (self : SimTickerClock) (now : SimInstant) : nat :=
  S (Z.to_nat ((now - next_due_at self) / cadence self)).

Definition advance_due (self : SimTickerClock) (now : SimInstant) : option (option SimDuration * SimTickerClock) :=
  if negb (is_due self now) then Some (None, self)
  else
    let elapsed := SimInstant_saturating_sub now (last_processed_at self) in
    let self := {| last_processed_at := now; next_due_at := next_due_at self; cadence := cadence self |} in
    self ← advance_past (advance_fuel self now) self now;
    Some (Some elapsed, self).

Definition retry_after (self : SimTickerClock) (now : SimInstant) (delay : SimDuration) : SimTickerClock :=
  {| last_processed_at := now; next_due_at := SimInstant_saturating_add now delay; cadence := cadence self |}.

(** ** The clock's invariant *)
Record clock_wf (c : SimTickerClock) : Prop := {
  cw_last : is_u64 (last_processed_at c);
  cw_due : is_u64 (next_due_at c);
  cw_cadence : 0 < cadence c <= u64_max }.

Lemma u64_sat_range z : is_u64 (u64_sat z).
Proof. unfold u64_sat, clampc. unfold_widths. lia. Qed.
Lemma SimInstant_saturating_add_range a b : is_u64 (SimInstant_saturating_add a b).
Proof. apply u64_sat_range. Qed.
Lemma SimInstant_saturating_sub_range a b : is_u64 (SimInstant_saturating_sub a b).
Proof. apply u64_sat_range. Qed.
#[export] Hint Resolve u64_sat_range SimInstant_saturating_add_range SimInstant_saturating_sub_range : rust.

Lemma phased_wf seed now cad : is_u64 now -> 0 < cad <= u64_max ->
  exists c, SimTickerClock_phased seed now cad = Some c /\ clock_wf c /\ cadence c = cad /\ last_processed_at c = now.
Proof.
  intros Hn Hc. unfold SimTickerClock_phased, SimTickerClock_scheduled.
  destruct (Z.ltb_spec 0 cad); [| lia]. eexists. split; [reflexivity |]. cbn.
  split; [split; cbn; auto with rust | done].
Qed.

(** The first tick of a phased clock: within one cadence, at an instant congruent
    to the seed. *)
Lemma phased_due seed now cad c : 0 < cad -> 0 <= now -> now + cad <= u64_max ->
  SimTickerClock_phased seed now cad = Some c ->
  now < next_due_at c <= now + cad /\ next_due_at c mod cad = Z.abs seed mod cad.
Proof.
  intros Hc H0 Hn. unfold SimTickerClock_phased, SimTickerClock_scheduled.
  destruct (Z.ltb_spec 0 cad); [| lia]. intros [= <-]. cbn. unfold SimInstant_saturating_add, u64_sat, clampc.
  pose proof (Z.mod_pos_bound (Z.abs seed) cad ltac:(lia)) as Hp.
  pose proof (Z.mod_pos_bound now cad ltac:(lia)) as Hw.
  pose proof (Z.div_mod now cad ltac:(lia)) as Hd.
  set (p := Z.abs seed mod cad) in *. set (r := now mod cad) in *.
  assert (forall k, (cad * k + p) mod cad = p) as Hk.
  { intros k. rewrite (Z.mul_comm cad k), Z.add_comm, Z_mod_plus_full. apply Z.mod_small. lia. }
  destruct (Z.ltb_spec r p).
  - assert (Z.max 0 (Z.min (now + Z.max (p - r) 1) u64_max) = now + (p - r)) as -> by lia. split; [lia |].
    replace (now + (p - r)) with (cad * (now / cad) + p) by lia. apply Hk.
  - assert (Z.max 0 (Z.min (now + Z.max (cad - (r - p)) 1) u64_max) = now + (cad - (r - p))) as -> by lia.
    split; [lia |]. replace (now + (cad - (r - p))) with (cad * (now / cad + 1) + p) by lia. apply Hk.
Qed.

(** The catch-up loop ends, on the grid of the old due time, within one cadence
    of [now], unless it hits the end of time. *)
Lemma advance_past_total fuel c now : clock_wf c -> 0 <= now < u64_max ->
  (Z.to_nat ((now - next_due_at c) / cadence c + 1) <= fuel)%nat ->
  exists c', advance_past fuel c now = Some c' /\ clock_wf c' /\ cadence c' = cadence c /\
    last_processed_at c' = last_processed_at c /\ now < next_due_at c' /\
    (now + cadence c <= u64_max -> next_due_at c <= now ->
       next_due_at c' <= now + cadence c /\ next_due_at c' mod cadence c = next_due_at c mod cadence c).
Proof.
  revert c. induction fuel as [| fuel IH]; intros c [Hl [Hd0 Hd] Hc] Hn Hf; cbn [advance_past].
  all: destruct (Z.leb_spec (next_due_at c) now) as [L | L];
    [| exists c; split; [done |]; do 4 (split; [done |]); lia].
  - exfalso. assert (0 <= (now - next_due_at c) / cadence c) by (apply Z.div_pos; lia). lia.
  - set (d := SimInstant_saturating_add (next_due_at c) (cadence c)).
    assert (Hd' : d = Z.min (next_due_at c + cadence c) u64_max).
    { unfold d, SimInstant_saturating_add, u64_sat, clampc. lia. }
    destruct (IH {| last_processed_at := last_processed_at c; next_due_at := d; cadence := cadence c |})
      as (c' & E & W & E1 & E2 & E3 & E4); cbn in *.
    + split; cbn; [done | | done]. unfold is_u64. lia.
    + done.
    + destruct (Z.le_gt_cases (next_due_at c + cadence c) u64_max).
      * rewrite Hd', Z.min_l by lia.
        replace (now - (next_due_at c + cadence c)) with (now - next_due_at c + (-1) * cadence c) by lia.
        rewrite Z.div_add by lia. lia.
      * assert ((now - d) / cadence c < 0) by (apply Z.div_lt_upper_bound; lia). lia.
    + exists c'. split; [done |]. do 4 (split; [done |]). intros Hs _.
      assert (d = next_due_at c + cadence c) as Ed by lia.
      destruct (Z.le_gt_cases d now) as [Ld | Ld].
      * destruct (E4 Hs Ld) as [B1 B2]. split; [done |]. rewrite B2, Ed.
        rewrite <- (Z_mod_plus_full (next_due_at c) 1 (cadence c)). by rewrite Z.mul_1_l.
      * assert (next_due_at c' = d) as ->.
        { revert E. destruct fuel; cbn; destruct (Z.leb_spec d now); try lia; intros [= <-]; done. }
        rewrite Ed. split; [lia |].
        rewrite <- (Z_mod_plus_full (next_due_at c) 1 (cadence c)). by rewrite Z.mul_1_l.
Qed.

(** At the last instant the loop never ends: a due clock saturates there and
    stays due. *)
Lemma advance_past_stuck fuel c : clock_wf c -> advance_past fuel c u64_max = None.
Proof.
  revert c. induction fuel as [| fuel IH]; intros c [Hl [Hd0 Hd] Hc]; cbn [advance_past];
    (destruct (Z.leb_spec (next_due_at c) u64_max); [| lia]); [done |].
  apply IH. split; cbn; auto with rust.
Qed.

(** A due clock ticks once and then waits again; the time handed out is the time
    since the tick before. *)
Lemma advance_due_total c now : clock_wf c -> 0 <= now < u64_max ->
  exists r c', advance_due c now = Some (r, c') /\ clock_wf c' /\ cadence c' = cadence c /\ is_due c' now = false /\
    (is_due c now = false -> r = None /\ c' = c) /\
    (is_due c now = true -> r = Some (SimInstant_saturating_sub now (last_processed_at c)) /\ last_processed_at c' = now).
Proof.
  intros W Hn. unfold advance_due. destruct (is_due c now) eqn:D; cbn [negb].
  - destruct (advance_past_total (advance_fuel {| last_processed_at := now; next_due_at := next_due_at c; cadence := cadence c |} now)
      {| last_processed_at := now; next_due_at := next_due_at c; cadence := cadence c |} now) as (c' & E & W' & E1 & E2 & E3 & E4).
    + destruct W. split; cbn; try done. unfold is_u64. lia.
    + done.
    + unfold advance_fuel. cbn.
      assert (0 <= (now - next_due_at c) / cadence c).
      { unfold is_due in D. zbool. destruct W. apply Z.div_pos; lia. }
      lia.
    + rewrite E. cbn. exists (Some (SimInstant_saturating_sub now (last_processed_at c))), c'. cbn in *.
      split; [done |]. split; [done |]. split; [done |]. split; [unfold is_due; by apply Z.leb_gt |]. by split.
  - exists None, c. by split_and!.
Qed.

Lemma retry_after_wf c now delay : clock_wf c -> is_u64 now -> clock_wf (retry_after c now delay).
Proof. intros [Hl Hd Hc] Hn. split; cbn; auto with rust. Qed.

(** Time elapsed is exact, and absent for an event in the future. *)
Lemma elapsed_since_spec now at_ : is_u64 now -> is_u64 at_ ->
  elapsed_since now (Some at_) = if now <? at_ then None else Some ((now - at_) * nanos_per_milli).
Proof.
  intros Hn Ha. unfold elapsed_since, SimInstant_overflowing_sub. cbn.
  destruct (Z.ltb_spec now at_); [done |]. unfold SimDuration_as_duration, wrap_u.
  rewrite Z.mod_small; [done |]. unfold is_u64, u64_max in *. change (2 ^ 64) with 18446744073709551616. lia.
Qed.

(** ** Polling a clock *)

(** Polls at the given instants: the time handed out in all, and the clock after. *)
Fixpoint poll_all (c : SimTickerClock) (polls : list SimInstant) : option (Z * SimTickerClock) :=
  match polls with
  | [] => Some (0, c)
  | now :: polls =>
      match advance_due c now with
      | None => None
      | Some (elapsed, c) =>
          match poll_all c polls with
          | None => None
          | Some (total, c) => Some (default 0 elapsed + total, c)
          end
      end
  end.

(** [C27] A ticker loses no time and counts none twice: whatever the instants of the
    polls (non-decreasing, before the end of time), the catch-up loop ends every
    time, the durations handed out add up to the time from the last tick before
    them to the last tick among them, and no poll leaves the clock due. *)
Theorem ticker_conserves_time polls c :
  clock_wf c -> Sorted Z.le (last_processed_at c :: polls) -> Forall (fun now => now < u64_max) polls ->
  exists total c', poll_all c polls = Some (total, c') /\ clock_wf c' /\ cadence c' = cadence c /\
    total = last_processed_at c' - last_processed_at c /\
    (forall now, last polls = Some now -> last_processed_at c' <= now < next_due_at c').
Proof.
  revert c. induction polls as [| now polls IH]; intros c W S F.
  { exists 0, c. split_and!; auto; try lia. done. }
  apply Sorted_inv in S as [S H]. apply HdRel_inv in H. apply Forall_cons in F as [Fn F].
  pose proof (cw_last c W) as L0. unfold is_u64 in L0.
  destruct (advance_due_total c now W ltac:(lia)) as (r & c1 & E & W1 & K1 & D1 & I1 & T1).
  assert (default 0 r = last_processed_at c1 - last_processed_at c /\ last_processed_at c1 <= now) as [R1 L1].
  { destruct (is_due c now).
    - destruct T1 as [-> ->]; [done |]. cbn. unfold SimInstant_saturating_sub, u64_sat, clampc. lia.
    - destruct I1 as [-> ->]; [done |]. cbn. lia. }
  destruct (IH c1 W1) as (total & c' & E' & W' & K' & T' & N'); [| done |].
  { destruct polls as [| p polls]; [by repeat constructor |].
    apply Sorted_inv in S as [S Hd]. apply HdRel_inv in Hd. constructor; [done | constructor; lia]. }
  exists (default 0 r + total), c'. cbn [poll_all]. rewrite E, E'. split; [done |]. split; [done |].
  split; [congruence |]. split; [lia |]. intros now' L. destruct polls as [| p polls]; [| by apply N'].
  cbn in L. injection L as <-. cbn in E'. injection E' as <- <-. unfold is_due in D1. zbool. lia.
Qed.

Lemma ticker_conserves_time_witness :
  exists total c', poll_all {| last_processed_at := 0; next_due_at := 700; cadence := 1000 |} [500; 700; 3900; 4100] =
    Some (total, c') /\ total = 3900 /\ next_due_at c' = 4700.
Proof.
  destruct (ticker_conserves_time [500; 700; 3900; 4100] {| last_processed_at := 0; next_due_at := 700; cadence := 1000 |})
    as (total & c' & E & _ & _ & T & _).
  - split; cbn; unfold is_u64, u64_max; lia.
  - repeat constructor; cbn; lia.
  - repeat constructor; unfold u64_max; lia.
  - exists total, c'. split; [exact E |]. vm_compute in E. injection E as <- <-. split; reflexivity.
Defined.
