(* ===== verification/Motion.v ===== *)
(** Motion on the map ([zohar-sim/src/motion.rs], the functions of
    [runtime/spatial.rs] that read no world, [runtime/rules/]): speed tables, the
    position of an actor along its segment, durations, clamping and facings.

    The vectors' [length], [square_length] and [dot] are the [euclid] crate's and
    [atan2] the platform's: operations of the class [VectorMath].  Random numbers
    come from the class [RandomSource]. *)
From S2P Require Import Prelude Domain Float Space Entities CombatTiming MapPort SimTime.

Class VectorMath : Type := {
  vec_length : spec_float -> spec_float -> spec_float;
  vec_square_length : spec_float -> spec_float -> spec_float;
  vec_dot : LocalPos -> LocalPos -> spec_float;
  (** [y.atan2(x).to_degrees()] *)
  atan2_degrees : spec_float -> spec_float -> spec_float;
  vec_cos : spec_float -> spec_float;
  vec_sin : spec_float -> spec_float }.

(** [rand]: a value of an inclusive range of integers, a value of a half-open or
    inclusive range of floats. *)
Class RandomSource : Type := {
  Rng : Type;
  random_range : Z -> Z -> Rng -> Z * Rng;
  random_range_f32 : spec_float -> spec_float -> Rng -> spec_float * Rng;
  random_range_f32_inclusive : spec_float -> spec_float -> Rng -> spec_float * Rng }.
Class RandomLaws `{RandomSource} : Prop := {
  random_range_bounds lo hi r : lo <= hi -> lo <= fst (random_range lo hi r) <= hi }.

(** ** Vectors *)
Definition mk_pos (x y : spec_float) : LocalPos := {| pos_x := x; pos_y := y |}.
Definition pos_sub (a b : LocalPos) : LocalPos := mk_pos (f32_sub (pos_x a) (pos_x b)) (f32_sub (pos_y a) (pos_y b)).
Definition pos_add (a b : LocalPos) : LocalPos := mk_pos (f32_add (pos_x a) (pos_x b)) (f32_add (pos_y a) (pos_y b)).
Definition pos_scale (v : LocalPos) (t : spec_float) : LocalPos := mk_pos (f32_mul (pos_x v) t) (f32_mul (pos_y v) t).
Definition pos_div (v : LocalPos) (t : spec_float) : LocalPos := mk_pos (f32_div (pos_x v) t) (f32_div (pos_y v) t).
(** [==] of positions. *)
Definition pos_eq (a b : LocalPos) : bool := SFeqb (pos_x a) (pos_x b) && SFeqb (pos_y a) (pos_y b).

Definition f32_lit (n d : Z) : spec_float := f_lit binary32 n d.

(** [%] of floats: the exact remainder, with the sign of the dividend; and
    [rem_euclid]. *)
Definition f32_rem (x y : spec_float) : spec_float :=
  match x, y with
  | S754_nan, _ | _, S754_nan | S754_infinity _, _ | _, S754_zero _ => S754_nan
  | _, S754_infinity _ | S754_zero _, _ => x
  | S754_finite s mx ex, S754_finite _ my ey =>
      let e := Z.min ex ey in
      let r := (Z.pos mx * 2 ^ (ex - e)) mod (Z.pos my * 2 ^ (ey - e)) in
      if r =? 0 then S754_zero s else binary_normalize 24 128 (if s then - r else r) e s
  end.
Definition f32_rem_euclid (x y : spec_float) : spec_float :=
  let r := f32_rem x y in if SFltb r f32_zero then f32_add r (SFabs y) else r.

(** [trunc]: the integer part. *)
Definition f32_trunc (x : spec_float) : spec_float :=
  match x with S754_finite true _ _ => f_ceil binary32 x | _ => f_floor binary32 x end.

(** [clamp], which panics when the bounds are not in order. *)
Definition f32_clamp (x lo hi : spec_float) : option spec_float :=
  if SFleb lo hi then Some (if SFltb x lo then lo else if SFltb hi x then hi else x) else None.

(** ** Motion speeds ([motion.rs]) *)
Inductive MotionMoveMode : Type := Motion_Run | Motion_Walk.
Record MotionSpeeds : Type := {
  run_units_per_sec : option spec_float; walk_units_per_sec : option spec_float }.
Definition MotionSpeeds_default : MotionSpeeds := {| run_units_per_sec := None; walk_units_per_sec := None |}.

Definition speed_for_mode (self : MotionSpeeds) (mode : MotionMoveMode) : option spec_float :=
  match mode with
  | Motion_Run => run_units_per_sec self
  | Motion_Walk =>
      match walk_units_per_sec self with Some w => Some w | None => run_units_per_sec self end
  end.

(** The field a mode names, written. *)
Definition set_speed (mode : MotionMoveMode) (units_per_sec : spec_float) (s : MotionSpeeds) : MotionSpeeds :=
  match mode with
  | Motion_Run => {| run_units_per_sec := Some units_per_sec; walk_units_per_sec := walk_units_per_sec s |}
  | Motion_Walk => {| run_units_per_sec := run_units_per_sec s; walk_units_per_sec := Some units_per_sec |}
  end.

Record PlayerMotionProfileKey : Type := { pmk_class : PlayerClass; pmk_gender : PlayerGender }.
#[export] Instance PlayerMotionProfileKey_eq_dec : EqDecision PlayerMotionProfileKey.
Proof. solve_decision. Defined.

Definition PlayerMotionSpeedTable : Type := list (PlayerMotionProfileKey * MotionSpeeds).

Fixpoint player_speeds_find (self : PlayerMotionSpeedTable) (key : PlayerMotionProfileKey) : option MotionSpeeds :=
  match self with
  | [] => None
  | (candidate, speeds) :: rest => if decide (candidate = key) then Some speeds else player_speeds_find rest key
  end.
Definition player_speed_for (self : PlayerMotionSpeedTable) (key : PlayerMotionProfileKey) (mode : MotionMoveMode)
  : option spec_float := speeds ← player_speeds_find self key; speed_for_mode speeds mode.

Fixpoint player_upsert_speed (self : PlayerMotionSpeedTable) (key : PlayerMotionProfileKey) (mode : MotionMoveMode)
    (units_per_sec : spec_float) : PlayerMotionSpeedTable :=
  match self with
  | [] => [(key, set_speed mode units_per_sec MotionSpeeds_default)]
  | (candidate, speeds) :: rest =>
      if decide (candidate = key) then (candidate, set_speed mode units_per_sec speeds) :: rest
      else (candidate, speeds) :: player_upsert_speed rest key mode units_per_sec
  end.

Notation MobMotionSpeedTable := (gmap MobId MotionSpeeds) (only parsing).
Definition mob_speed_for (self : MobMotionSpeedTable) (mob_id : MobId) (mode : MotionMoveMode) : option spec_float :=
  speeds ← self !! mob_id; speed_for_mode speeds mode.
Definition mob_upsert_speed (self : MobMotionSpeedTable) (mob_id : MobId) (mode : MotionMoveMode)
    (units_per_sec : spec_float) : MobMotionSpeedTable :=
  <[mob_id := set_speed mode units_per_sec (default MotionSpeeds_default (self !! mob_id))]> self.

Inductive MotionEntityKey : Type := MotionKey_Player (key : PlayerMotionProfileKey) | MotionKey_Mob (mob_id : MobId).
#[export] Instance MotionEntityKey_eq_dec : EqDecision MotionEntityKey.
Proof. solve_decision. Defined.
Record EntityMotionSpeedTable : Type := { ems_player : PlayerMotionSpeedTable; ems_mob : MobMotionSpeedTable }.
Definition EntityMotionSpeedTable_default : EntityMotionSpeedTable := {| ems_player := []; ems_mob := ∅ |}.

Definition speed_for (self : EntityMotionSpeedTable) (entity : MotionEntityKey) (mode : MotionMoveMode)
  : option spec_float :=
  match entity with
  | MotionKey_Player key => player_speed_for (ems_player self) key mode
  | MotionKey_Mob mob_id => mob_speed_for (ems_mob self) mob_id mode
  end.
Definition upsert_speed (self : EntityMotionSpeedTable) (entity : MotionEntityKey) (mode : MotionMoveMode)
    (units_per_sec : spec_float) : EntityMotionSpeedTable :=
  match entity with
  | MotionKey_Player key =>
      {| ems_player := player_upsert_speed (ems_player self) key mode units_per_sec; ems_mob := ems_mob self |}
  | MotionKey_Mob mob_id =>
      {| ems_player := ems_player self; ems_mob := mob_upsert_speed (ems_mob self) mob_id mode units_per_sec |}
  end.

(** ** The segments actors move along *)
Definition DEFAULT_RUN_MOTION_SPEED_METER_PER_SEC : spec_float := f32_lit 9 2.
Definition MAX_MOVE_PACKET_STEP_M : spec_float := f32_of_int 25.

Record PlayerMotionState : Type := {
  pm_start_pos : LocalPos; pm_end_pos : LocalPos; pm_start_ts : Z; pm_end_ts : Z; pm_last_client_ts : Z }.
Record MobMotionState : Type := {
  mm_start_pos : LocalPos; mm_end_pos : LocalPos; mm_start_at : SimInstant; mm_end_at : SimInstant }.

Definition movement_kind_priority (kind : MovementKind) : Z :=
  match kind with Kind_Move => 0 | Kind_Wait => 1 | _ => 2 end.

(** [start + (end - start) * (elapsed / total)] *)
Definition interpolate (start_pos end_pos : LocalPos) (elapsed total : Z) : LocalPos :=
  pos_add start_pos (pos_scale (pos_sub end_pos start_pos) (f32_div (f32_of_int elapsed) (f32_of_int total))).

Definition sample_player_motion_state_at (current_pos : LocalPos) (motion : PlayerMotionState) (packet_ts : Z)
  : LocalPos :=
  if (pm_last_client_ts motion =? 0) || (packet_ts <=? pm_last_client_ts motion) then current_pos
  else if pm_end_ts motion <=? pm_start_ts motion then current_pos
  else if pm_end_ts motion <=? packet_ts then pm_end_pos motion
  else
    let total := ClientTimestamp_saturating_sub (pm_end_ts motion) (pm_start_ts motion) in
    if total =? 0 then current_pos
    else interpolate (pm_start_pos motion) (pm_end_pos motion)
           (ClientTimestamp_saturating_sub packet_ts (pm_start_ts motion)) total.

Definition sample_player_visual_position_at (motion : PlayerMotionState) (packet_ts : Z) : LocalPos :=
  if pm_end_ts motion <=? pm_start_ts motion then pm_end_pos motion
  else if packet_ts <=? pm_start_ts motion then pm_start_pos motion
  else if pm_end_ts motion <=? packet_ts then pm_end_pos motion
  else
    let total := ClientTimestamp_saturating_sub (pm_end_ts motion) (pm_start_ts motion) in
    if total =? 0 then pm_end_pos motion
    else interpolate (pm_start_pos motion) (pm_end_pos motion)
           (ClientTimestamp_saturating_sub packet_ts (pm_start_ts motion)) total.

Definition sample_mob_motion_at (motion : MobMotionState) (now : SimInstant) : LocalPos :=
  if mm_end_at motion <=? mm_start_at motion then mm_end_pos motion
  else if now <=? mm_start_at motion then mm_start_pos motion
  else if mm_end_at motion <=? now then mm_end_pos motion
  else
    let total := SimInstant_saturating_sub (mm_end_at motion) (mm_start_at motion) in
    if total =? 0 then mm_end_pos motion
    else interpolate (mm_start_pos motion) (mm_end_pos motion)
           (SimInstant_saturating_sub now (mm_start_at motion)) total.

Definition trunc_to_wire_cm (coord_m : spec_float) : spec_float :=
  f32_div (f32_trunc (f32_mul coord_m (f32_of_int 100))) (f32_of_int 100).
Definition snap_local_to_wire_cm (pos : LocalPos) : LocalPos :=
  mk_pos (trunc_to_wire_cm (pos_x pos)) (trunc_to_wire_cm (pos_y pos)).

Definition degrees_to_facing (degrees : spec_float) : Z :=
  let normalized := f32_rem_euclid degrees (f32_of_int 360) in
  Facing72_from_wrapped (wrap_u 8 (f_to_i32 (f32_div normalized (f32_of_int 5)) mod 72)).

(** ** Attack ranges and gates ([rules/combat.rs]) *)
Definition PLAYER_MELEE_REACH_M : spec_float := f32_lit 3 2.
Record AttackTiming : Type := { attack_gate : SimDuration; fallback_action_duration : Z }.
Definition effective_attack_range_m (range : Z) (_ : MobBattleType) : spec_float :=
  f_max (f32_div (f32_of_int range) (f32_of_int 100)) (f32_lit 3 2).
Definition speed_scaled_action_duration_ms (speed base_ms : Z) : Z :=
  let speed := Z.max speed 1 in
  let duration_percent := if speed <? 100 then 200 - speed else if speed =? 100 then 100 else 10000 / speed in
  u32_sat (base_ms * duration_percent) / 100.
Definition attack_timing_for_mob (attack_speed : Z) : AttackTiming :=
  {| attack_gate := speed_scaled_action_duration_ms attack_speed 2000; fallback_action_duration := 2000 |}.

(** ** Positions on the map ([rules/movement.rs]) *)
Definition CLOSE_CHASE_EPSILON_M : spec_float := f32_lit 1 100.
Definition clamp_axis_to_map (coord max_exclusive : spec_float) : option spec_float :=
  if negb (f_is_finite coord) then Some f32_zero
  else if negb (f_is_finite max_exclusive) || SFleb max_exclusive f32_zero then Some f32_zero
  else f32_clamp coord f32_zero (f32_sub max_exclusive (f32_lit 1 1000)).
Definition sanitize_player_target_to_map (requested : LocalPos) (map_size : LocalSize) : option LocalPos :=
  x ← clamp_axis_to_map (pos_x requested) (size_width map_size);
  y ← clamp_axis_to_map (pos_y requested) (size_height map_size);
  Some (mk_pos x y).

(** ** Distances and durations *)
Section Distances.
Context `{VectorMath}.

Definition vlength (v : LocalPos) : spec_float := vec_length (pos_x v) (pos_y v).
Definition distance (from to : LocalPos) : spec_float := vlength (pos_sub to from).

Definition clamp_step_towards (from to : LocalPos) (max_step : spec_float) : LocalPos :=
  let delta := pos_sub to from in
  let distance := vlength delta in
  if SFleb distance max_step || SFleb distance (f32_lit 1 100) then to
  else pos_add from (pos_scale delta (f32_div max_step distance)).

Definition sanitize_packet_target (current_pos requested_pos : LocalPos) : LocalPos :=
  clamp_step_towards current_pos requested_pos MAX_MOVE_PACKET_STEP_M.

Definition duration_from_motion_speed (motion_speed_mps : spec_float) (move_speed_attr : Z)
    (start_pos target_pos : LocalPos) : Z :=
  if SFleb motion_speed_mps f32_zero || (move_speed_attr =? 0) then 0
  else
    let dist := vlength (pos_sub target_pos start_pos) in
    let base_dur := f32_mul (f32_div dist motion_speed_mps) (f32_of_int 1000) in
    f_to_u32 (f32_mul base_dur (f32_div (f32_of_int 100) (f32_of_int move_speed_attr))).

Definition calculate_move_duration_ms (motion_speeds : EntityMotionSpeedTable) (appearance : PlayerAppearance)
    (animation : MovementAnimation) (start_pos target_pos : LocalPos) : Z :=
  let profile_key := {| pmk_class := pa_class appearance; pmk_gender := pa_gender appearance |} in
  let motion_speed :=
    default DEFAULT_RUN_MOTION_SPEED_METER_PER_SEC
      (speed_for motion_speeds (MotionKey_Player profile_key)
         (match animation with Run => Motion_Run | Walk => Motion_Walk end)) in
  duration_from_motion_speed motion_speed (pa_move_speed appearance) start_pos target_pos.

Definition calculate_mob_move_duration_ms (motion_speeds : EntityMotionSpeedTable) (mob_id : MobId)
    (move_mode : MotionMoveMode) (move_speed_attr : Z) (start_pos target_pos : LocalPos) : Z :=
  let motion_speed :=
    default DEFAULT_RUN_MOTION_SPEED_METER_PER_SEC (speed_for motion_speeds (MotionKey_Mob mob_id) move_mode) in
  duration_from_motion_speed motion_speed move_speed_attr start_pos target_pos.

Definition calculate_mob_duration (motion_speeds : EntityMotionSpeedTable) (mob_id : MobId) (kind : MovementKind)
    (from to : LocalPos) (move_speed : Z) : option Z :=
  if negb (bool_decide (kind = Kind_Move)) && negb (bool_decide (kind = Kind_Wait)) then None
  else
    let duration :=
      calculate_mob_move_duration_ms motion_speeds mob_id Motion_Run move_speed
        (snap_local_to_wire_cm from) (snap_local_to_wire_cm to) in
    if 0 <? duration then Some duration else None.

Definition desired_destination_unchanged (current_segment_end_pos : option LocalPos) (desired : LocalPos) : bool :=
  match current_segment_end_pos with
  | Some segment_end_pos => SFleb (distance segment_end_pos desired) (f32_lit 1 20)
  | None => false
  end.

Definition mob_run_speed_mps (motion_speeds : EntityMotionSpeedTable) (mob_id : MobId) (move_speed : Z)
  : option spec_float :=
  let speed :=
    default DEFAULT_RUN_MOTION_SPEED_METER_PER_SEC (speed_for motion_speeds (MotionKey_Mob mob_id) Motion_Run) in
  let scaled := f32_mul speed (f32_div (f32_of_int move_speed) (f32_of_int 100)) in
  if SFltb f32_zero scaled then Some scaled else None.

Definition rotation_from_delta (from to : LocalPos) (fallback_rot : Z) : Z :=
  let delta := pos_sub to from in
  if SFleb (vec_square_length (pos_x delta) (pos_y delta)) (f32_lit 1 10000) then fallback_rot
  else
    let angle := f32_rem_euclid (atan2_degrees (pos_x delta) (pos_y delta)) (f32_of_int 360) in
    degrees_to_facing angle.

(** [has_exceeded_leash]: the leash distance is a constant [None]. *)
Definition has_exceeded_leash (current_pos target_pos home_pos : LocalPos) : bool :=
  let MOB_LEASH_DISTANCE_M : option spec_float := None in
  match MOB_LEASH_DISTANCE_M with
  | None => false
  | Some leash_distance_m =>
      SFltb leash_distance_m (distance current_pos home_pos) || SFltb leash_distance_m (distance target_pos home_pos)
  end.

Definition predict_moving_target_position (motion_speeds : EntityMotionSpeedTable)
    (current_pos target_pos : LocalPos) (motion : PlayerMotionState) (packet_ts : Z) (mob_id : MobId)
    (mob_move_speed : Z) : option LocalPos :=
  if (pm_end_ts motion <=? pm_start_ts motion) || (pm_end_ts motion <=? packet_ts) then None
  else
    let remaining_ms := ClientTimestamp_saturating_sub (pm_end_ts motion) packet_ts in
    if remaining_ms =? 0 then None
    else
      let target_delta := pos_sub (pm_end_pos motion) target_pos in
      if SFleb (vlength target_delta) CLOSE_CHASE_EPSILON_M then None
      else
        let to_target := pos_sub target_pos current_pos in
        let current_distance := vlength to_target in
        if SFleb current_distance CLOSE_CHASE_EPSILON_M then None
        else
          let remaining_s := f32_div (f32_of_int remaining_ms) (f32_of_int 1000) in
          let target_velocity := pos_div target_delta remaining_s in
          mob_speed_mps ← mob_run_speed_mps motion_speeds mob_id mob_move_speed;
          let closing_speed :=
            f32_sub mob_speed_mps (vec_dot target_velocity (pos_div to_target current_distance)) in
          if SFltb closing_speed (f32_lit 1 10) then None
          else
            let meet_time_s := f32_div current_distance closing_speed in
            if negb (f_is_finite meet_time_s) || SFleb meet_time_s f32_zero then None
            else
              let predicted_target := pos_add target_pos (pos_scale target_velocity meet_time_s) in
              Some (if SFltb current_distance (distance current_pos predicted_target)
                    then clamp_step_towards current_pos predicted_target current_distance
                    else predicted_target).
End Distances.

(** ** Random choices *)
Section Random.
Context `{RandomSource}.

Definition random_facing (rng : Rng) : Z * Rng :=
  let '(v, rng) := random_range 0 71 rng in (Facing72_from_wrapped v, rng).

(** The bounds are [Duration]s. *)
Definition random_duration_between_ms (min max : Z) (rng : Rng) : SimDuration * Rng :=
  let min_ms := SimDuration_from_duration min in
  let max_ms := SimDuration_from_duration max in
  random_range (Z.min min_ms max_ms) (Z.max min_ms max_ms) rng.

Record WeightedGroupChoice : Type := { wgc_members : list MobId; wgc_weight : Z }.
Inductive SpawnTemplate : Type :=
| Template_Mob (mob_id : MobId)
| Template_Group (members : list MobId)
| Template_GroupGroup (choices : list WeightedGroupChoice).

Definition choice_weight (c : WeightedGroupChoice) : Z := Z.max (wgc_weight c) 1.
(** [sum] of [u32]s wraps around. *)
Definition total_weight (choices : list WeightedGroupChoice) : Z :=
  fold_left (fun sum c => wrap_u 32 (sum + choice_weight c)) choices 0.

Fixpoint pick_ticket (choices : list WeightedGroupChoice) (ticket : Z) : option WeightedGroupChoice :=
  match choices with
  | [] => None
  | choice :: rest =>
      if ticket <=? choice_weight choice then Some choice else pick_ticket rest (ticket - choice_weight choice)
  end.

Definition pick_group_group_choice (choices : list WeightedGroupChoice) (rng : Rng)
  : option WeightedGroupChoice * Rng :=
  let total := total_weight choices in
  if total =? 0 then (None, rng)
  else
    let '(ticket, rng) := random_range 1 total rng in
    (match pick_ticket choices ticket with Some c => Some c | None => last choices end, rng).

Definition expand_spawn_template (template : SpawnTemplate) (rng : Rng) : list MobId * Rng :=
  match template with
  | Template_Mob mob_id => ([mob_id], rng)
  | Template_Group members => (members, rng)
  | Template_GroupGroup choices =>
      let '(choice, rng) := pick_group_group_choice choices rng in
      (match choice with Some c => wgc_members c | None => [] end, rng)
  end.
End Random.

(** ** Speed tables *)
Lemma player_find_upsert t key mode v key' :
  player_speeds_find (player_upsert_speed t key mode v) key' =
    if decide (key' = key) then Some (set_speed mode v (default MotionSpeeds_default (player_speeds_find t key)))
    else player_speeds_find t key'.
Proof.
  induction t as [| [c s] t IH]; cbn.
  - destruct (decide (key = key')), (decide (key' = key)); congruence.
  - destruct (decide (c = key)) as [-> |]; cbn.
    + destruct (decide (key = key')), (decide (key' = key)); congruence.
    + rewrite IH. destruct (decide (c = key')), (decide (key' = key)); congruence.
Qed.

Lemma speed_for_set_speed mode v s : speed_for_mode (set_speed mode v s) mode = Some v.
Proof. by destruct mode. Qed.

(** What was written is read back; other keys are not touched. *)
Lemma speed_for_upsert t key mode v key' mode' :
  speed_for (upsert_speed t key mode v) key' mode' =
    if decide (key' = key) then
      speed_for_mode (set_speed mode v
        (match key with
         | MotionKey_Player k => default MotionSpeeds_default (player_speeds_find (ems_player t) k)
         | MotionKey_Mob k => default MotionSpeeds_default (ems_mob t !! k)
         end)) mode'
    else speed_for t key' mode'.
Proof.
  destruct key as [k | k], key' as [k' | k']; cbn; unfold player_speed_for, mob_speed_for, mob_upsert_speed;
    try (destruct (decide _); congruence).
  - rewrite player_find_upsert. repeat case_decide; simplify_eq; done.
  - destruct (decide (MotionKey_Mob k' = MotionKey_Mob k)) as [[= ->] | N];
      [by rewrite lookup_insert_eq | rewrite lookup_insert_ne by congruence; done].
Qed.

(** ** Segments *)
Lemma sample_mob_motion_end m now : mm_end_at m <= now -> sample_mob_motion_at m now = mm_end_pos m \/
  (now <= mm_start_at m < mm_end_at m).
Proof. intros L. unfold sample_mob_motion_at. case_bools; zbool; auto; lia. Qed.

Lemma sample_mob_motion_spec m now :
  (mm_end_at m <= mm_start_at m -> sample_mob_motion_at m now = mm_end_pos m) /\
  (mm_start_at m < mm_end_at m -> now <= mm_start_at m -> sample_mob_motion_at m now = mm_start_pos m) /\
  (mm_start_at m < mm_end_at m -> mm_end_at m <= now -> sample_mob_motion_at m now = mm_end_pos m) /\
  (0 <= mm_start_at m < now -> now < mm_end_at m -> mm_end_at m <= u64_max ->
     sample_mob_motion_at m now =
       interpolate (mm_start_pos m) (mm_end_pos m) (now - mm_start_at m) (mm_end_at m - mm_start_at m)).
Proof.
  unfold sample_mob_motion_at, SimInstant_saturating_sub, u64_sat, clampc.
  split_and!; intros; repeat (match goal with |- context [if ?b then _ else _] => destruct b eqn:? end; zbool; try done; try lia).
  f_equal; lia.
Qed.

(** A mob standing still is where its segment is. *)
Lemma sample_mob_motion_still pos start at_ now :
  sample_mob_motion_at {| mm_start_pos := pos; mm_end_pos := pos; mm_start_at := start; mm_end_at := start |} at_ = pos /\
  sample_mob_motion_at {| mm_start_pos := pos; mm_end_pos := pos; mm_start_at := start; mm_end_at := start |} now = pos.
Proof. unfold sample_mob_motion_at. cbn. rewrite Z.leb_refl. done. Qed.

Lemma sample_player_visual_spec m ts : 
  (pm_end_ts m <= pm_start_ts m \/ pm_start_ts m < ts /\ pm_end_ts m <= ts ->
     sample_player_visual_position_at m ts = pm_end_pos m) /\
  (ts <= pm_start_ts m < pm_end_ts m -> sample_player_visual_position_at m ts = pm_start_pos m).
Proof.
  unfold sample_player_visual_position_at.
  split; intros; repeat (match goal with |- context [if ?b then _ else _] => destruct b eqn:? end; zbool; try done; try lia).
Qed.

(** ** Floats in order *)
Lemma SFcompare_swap a b : SFcompare b a = option_map CompOpp (SFcompare a b).
Proof.
  destruct a as [[|] | [|] | | [|] ma ea], b as [[|] | [|] | | [|] mb eb]; cbn; try done.
  all: rewrite (Z.compare_antisym ea eb); destruct (ea ?= eb); cbn; try done;
    rewrite !(Pos.compare_cont_spec ma mb), !(Pos.compare_cont_spec mb ma), (Pos.compare_antisym ma mb);
    by destruct (ma ?= mb)%positive.
Qed.
Lemma SFltb_false_leb a b : f_is_nan a = false -> f_is_nan b = false -> SFltb a b = false -> SFleb b a = true.
Proof.
  unfold SFltb, SFleb. rewrite (SFcompare_swap a b). intros Na Nb.
  destruct (SFcompare a b) as [[] |] eqn:E; try done.
  destruct a as [| [|] | | [|] ? ?], b as [| [|] | | [|] ? ?]; cbn in *; try done;
    by destruct (_ ?= _)%Z.
Qed.
Lemma SFleb_not_nan a b : SFleb a b = true -> f_is_nan a = false /\ f_is_nan b = false.
Proof. by destruct a, b. Qed.
Lemma SFleb_refl a : f_is_nan a = false -> SFleb a a = true.
Proof. destruct a as [| [|] | | [|] ? ?]; cbn; try done; intros _; unfold SFleb, SFcompare;
  rewrite Z.compare_refl, Pos.compare_cont_spec, Pos.compare_refl; done. Qed.

Lemma f32_clamp_bounds x lo hi r : f_is_nan x = false -> f32_clamp x lo hi = Some r ->
  SFleb lo r = true /\ SFleb r hi = true.
Proof.
  unfold f32_clamp. intros Nx. destruct (SFleb lo hi) eqn:L; [| done]. intros [= <-].
  destruct (SFleb_not_nan _ _ L) as [Nl Nh].
  destruct (SFltb x lo) eqn:E1; [by split; [apply SFleb_refl |] |].
  destruct (SFltb hi x) eqn:E2; [by split; [| apply SFleb_refl] |].
  split; by apply SFltb_false_leb.
Qed.

(** A destination asked for is brought onto the map: on every axis the result is
    zero or lies between zero and a millimetre short of the edge; the clamp
    panics only on a map thinner than a millimetre. *)
Lemma clamp_axis_bounds coord size r : clamp_axis_to_map coord size = Some r ->
  r = f32_zero \/ (SFleb f32_zero r = true /\ SFleb r (f32_sub size (f32_lit 1 1000)) = true).
Proof.
  unfold clamp_axis_to_map. destruct (f_is_finite coord) eqn:F; cbn [negb]; [| by intros [= <-]; left].
  destruct (_ || _); [by intros [= <-]; left |]. intros E. right. apply (f32_clamp_bounds coord); [| done].
  by destruct coord.
Qed.
Lemma clamp_axis_total coord size :
  SFleb f32_zero (f32_sub size (f32_lit 1 1000)) = true -> is_Some (clamp_axis_to_map coord size).
Proof. intros L. unfold clamp_axis_to_map, f32_clamp. rewrite L. case_bools; by eexists. Qed.

Lemma degrees_to_facing_range d : 0 <= degrees_to_facing d <= 71.
Proof.
  unfold degrees_to_facing, Facing72_from_wrapped, wrap_u.
  pose proof (Z.mod_pos_bound (f_to_i32 (f32_div (f32_rem_euclid d (f32_of_int 360)) (f32_of_int 5))) 72 ltac:(lia)).
  rewrite (Z.mod_small _ (2 ^ 8)) by lia. rewrite Z.rem_small by lia. lia.
Qed.
Lemma rotation_from_delta_range `{VectorMath} a b fb : 0 <= fb <= 71 -> 0 <= rotation_from_delta a b fb <= 71.
Proof. intros F. unfold rotation_from_delta. destruct (SFleb _ _); [done | apply degrees_to_facing_range]. Qed.

(** A faster mob never waits longer between attacks; the gate lies between 0.78
    and 3.98 seconds. *)
Lemma attack_gate_antitone s t : 0 <= s <= t -> t <= 255 ->
  780 <= attack_gate (attack_timing_for_mob t) <= attack_gate (attack_timing_for_mob s) /\
  attack_gate (attack_timing_for_mob s) <= 3980.
Proof.
  intros Hs Ht. unfold attack_timing_for_mob, speed_scaled_action_duration_ms, u32_sat, clampc. cbn [attack_gate].
  set (p := fun x => if Z.max x 1 <? 100 then 200 - Z.max x 1 else if Z.max x 1 =? 100 then 100 else 10000 / Z.max x 1).
  change (if Z.max s 1 <? 100 then _ else _) with (p s). change (if Z.max t 1 <? 100 then _ else _) with (p t).
  assert (forall x, 0 <= x <= 255 -> 39 <= p x <= 199) as Hb.
  { intros x Hx. unfold p. destruct (Z.ltb_spec (Z.max x 1) 100); [lia |].
    destruct (Z.eqb_spec (Z.max x 1) 100); [lia |]. split.
    - apply Z.div_le_lower_bound; lia.
    - apply Z.div_le_upper_bound; lia. }
  assert (p t <= p s) as Hm.
  { unfold p. destruct (Z.ltb_spec (Z.max s 1) 100), (Z.ltb_spec (Z.max t 1) 100); try lia.
    - destruct (Z.eqb_spec (Z.max t 1) 100); [lia |].
      assert (10000 / Z.max t 1 <= 100) by (apply Z.div_le_upper_bound; lia). lia.
    - destruct (Z.eqb_spec (Z.max t 1) 100), (Z.eqb_spec (Z.max s 1) 100); try lia.
      + apply Z.div_le_upper_bound; lia.
      + apply Z.div_le_compat_l; lia. }
  pose proof (Hb s ltac:(lia)). pose proof (Hb t ltac:(lia)). unfold u32_max.
  rewrite !(Z.min_l _ 4294967295), !Z.max_r by lia.
  replace (2000 * p t) with (20 * p t * 100) by lia. replace (2000 * p s) with (20 * p s * 100) by lia.
  rewrite !Z.div_mul by lia. lia.
Qed.

(** ** Weighted choices *)
Definition weight_sum (choices : list WeightedGroupChoice) : Z := fold_right (fun c sum => choice_weight c + sum) 0 choices.

Lemma weight_sum_cons c l : weight_sum (c :: l) = choice_weight c + weight_sum l.
Proof. done. Qed.
Lemma weight_sum_nonneg choices : 0 <= weight_sum choices.
Proof. induction choices as [| c l IH]; [done |]. rewrite weight_sum_cons. unfold choice_weight. lia. Qed.

Lemma total_weight_sum choices : weight_sum choices <= u32_max -> total_weight choices = weight_sum choices.
Proof.
  unfold total_weight. enough (forall acc, 0 <= acc -> acc + weight_sum choices <= u32_max ->
    fold_left (fun sum c => wrap_u 32 (sum + choice_weight c)) choices acc = acc + weight_sum choices) as E.
  { intros Hw. rewrite E; lia. }
  induction choices as [| c l IH]; intros acc H0 Hs; [cbn; lia |]. rewrite weight_sum_cons in Hs |- *. cbn [fold_left].
  pose proof (weight_sum_nonneg l). assert (1 <= choice_weight c) by (unfold choice_weight; lia).
  assert (wrap_u 32 (acc + choice_weight c) = acc + choice_weight c) as E.
  { unfold wrap_u. apply Z.mod_small. change (2 ^ 32) with (u32_max + 1). lia. }
  rewrite E, IH; lia.
Qed.

(** The ticket [t] picks the choice whose share of [1..=total] holds it: every
    choice gets exactly its weight of the tickets. *)
Lemma pick_ticket_share pre c post t :
  weight_sum pre < t <= weight_sum pre + choice_weight c -> pick_ticket (pre ++ c :: post) t = Some c.
Proof.
  revert t. induction pre as [| d pre IH]; intros t Ht.
  - cbn in *. destruct (Z.leb_spec t (choice_weight c)); [done | lia].
  - rewrite weight_sum_cons in Ht. pose proof (weight_sum_nonneg pre). cbn [app pick_ticket].
    destruct (Z.leb_spec t (choice_weight d)); [lia |]. apply IH. lia.
Qed.

Lemma pick_ticket_total choices t : 1 <= t <= weight_sum choices -> is_Some (pick_ticket choices t).
Proof.
  revert t. induction choices as [| c l IH]; intros t Ht; [cbn in Ht; lia |]. rewrite weight_sum_cons in Ht. cbn.
  destruct (Z.leb_spec t (choice_weight c)); [by eexists |]. apply IH. lia.
Qed.

Lemma pick_ticket_elem choices t c : pick_ticket choices t = Some c -> c ∈ choices.
Proof.
  revert t. induction choices as [| d l IH]; intros t; cbn; [done |].
  destruct (t <=? choice_weight d); [intros [= <-]; apply list_elem_of_here |].
  intros E. by apply list_elem_of_further, (IH _ E).
Qed.

(** A template of groups with tickets enough never falls back: some group is
    picked, and it is one of the template. *)
Lemma pick_group_group_choice_spec `{RandomLaws} choices rng :
  choices <> [] -> weight_sum choices <= u32_max ->
  exists c, fst (pick_group_group_choice choices rng) = Some c /\ c ∈ choices.
Proof.
  intros Hne Hw. unfold pick_group_group_choice. rewrite total_weight_sum by done.
  assert (1 <= weight_sum choices) as H1.
  { destruct choices as [| c l]; [done |]. rewrite weight_sum_cons. pose proof (weight_sum_nonneg l). unfold choice_weight. lia. }
  destruct (Z.eqb_spec (weight_sum choices) 0); [lia |].
  pose proof (random_range_bounds 1 (weight_sum choices) rng H1) as B.
  destruct (random_range 1 (weight_sum choices) rng) as [t rng']. cbn in *.
  destruct (pick_ticket_total choices t B) as [c E]. rewrite E. exists c. split; [done | by apply pick_ticket_elem in E].
Qed.
