(* ===== verification/Aoi.v ===== *)
(** The spatial index ([zohar-sim/src/aoi.rs]): entities by position, over the
    grid of the [flat_spatial] crate.  The grid is an interface with what its
    documentation says of it: handles are fresh, a position set takes effect no
    earlier than the next maintenance, and only live handles are found. *)
From S2P Require Import Prelude Domain Float Space Entities Motion.

Class FlatSpatial : Type := {
  FlatGrid : Type;
  GridHandle : Type;
  handle_eq_dec :: EqDecision GridHandle;
  grid_new : Z -> FlatGrid;
  grid_insert : LocalPos -> EntityId -> FlatGrid -> GridHandle * FlatGrid;
  grid_set_position : GridHandle -> LocalPos -> FlatGrid -> FlatGrid;
  grid_remove_maintain : GridHandle -> FlatGrid -> FlatGrid;
  grid_maintain : FlatGrid -> FlatGrid;
  grid_get : GridHandle -> FlatGrid -> option (LocalPos * EntityId);
  grid_query_around : LocalPos -> spec_float -> FlatGrid -> list (GridHandle * LocalPos) }.

(** The object behind a handle. *)
Definition grid_object `{FlatSpatial} (h : GridHandle) (g : FlatGrid) : option EntityId := snd <$> grid_get h g.

Class FlatSpatialLaws `{FlatSpatial} : Prop := {
  grid_object_new h n : grid_object h (grid_new n) = None;
  grid_insert_fresh pos e g : grid_object (fst (grid_insert pos e g)) g = None;
  grid_insert_here pos e g : grid_object (fst (grid_insert pos e g)) (snd (grid_insert pos e g)) = Some e;
  grid_insert_other pos e g h :
    h <> fst (grid_insert pos e g) -> grid_object h (snd (grid_insert pos e g)) = grid_object h g;
  grid_set_position_object h pos g h' : grid_object h' (grid_set_position h pos g) = grid_object h' g;
  grid_remove_here h g : grid_object h (grid_remove_maintain h g) = None;
  grid_remove_other h g h' : h' <> h -> grid_object h' (grid_remove_maintain h g) = grid_object h' g;
  grid_maintain_object g h : grid_object h (grid_maintain g) = grid_object h g;
  grid_query_live center radius g h pos :
    (h, pos) ∈ grid_query_around center radius g -> is_Some (grid_object h g) }.

Definition CELL_SIZE : Z := 55.

Section Aoi.
Context `{FlatSpatial}.

Record SpatialIndex : Type := { si_grid : FlatGrid; si_handles : gmap EntityId GridHandle }.
Definition with_cell_size (cell_size : Z) : SpatialIndex := {| si_grid := grid_new cell_size; si_handles := ∅ |}.
Definition SpatialIndex_new : SpatialIndex := with_cell_size CELL_SIZE.

Definition si_insert (entity_id : EntityId) (pos : LocalPos) (self : SpatialIndex) : GridHandle * SpatialIndex :=
  let '(handle, grid) := grid_insert pos entity_id (si_grid self) in
  (handle, {| si_grid := grid; si_handles := <[entity_id := handle]> (si_handles self) |}).
Definition si_update_position (entity_id : EntityId) (pos : LocalPos) (self : SpatialIndex) : SpatialIndex :=
  match si_handles self !! entity_id with
  | Some handle => {| si_grid := grid_set_position handle pos (si_grid self); si_handles := si_handles self |}
  | None => self
  end.
Definition si_remove (entity_id : EntityId) (self : SpatialIndex) : option GridHandle * SpatialIndex :=
  match si_handles self !! entity_id with
  | Some handle =>
      (Some handle,
       {| si_grid := grid_remove_maintain handle (si_grid self); si_handles := delete entity_id (si_handles self) |})
  | None => (None, self)
  end.
Definition si_maintain (self : SpatialIndex) : SpatialIndex :=
  {| si_grid := grid_maintain (si_grid self); si_handles := si_handles self |}.
(** [None] is the [expect] on the handle of a result. *)
Definition query_in_radius (center : LocalPos) (radius : spec_float) (self : SpatialIndex) : option (list EntityId) :=
  mapM (fun '(handle, _) => grid_object handle (si_grid self)) (grid_query_around center radius (si_grid self)).
Definition si_get_handle (entity_id : EntityId) (self : SpatialIndex) : option GridHandle := si_handles self !! entity_id.
Definition si_contains (entity_id : EntityId) (self : SpatialIndex) : bool := bool_decide (is_Some (si_handles self !! entity_id)).
Definition si_len (self : SpatialIndex) : nat := size (si_handles self).
Definition si_is_empty (self : SpatialIndex) : bool := bool_decide (si_handles self = ∅).

(** Handles and objects name each other. *)
Record spatial_wf (s : SpatialIndex) : Prop := {
  sw_handle e h : si_handles s !! e = Some h -> grid_object h (si_grid s) = Some e;
  sw_object e h : grid_object h (si_grid s) = Some e -> si_handles s !! e = Some h }.

Definition spatial_ids (s : SpatialIndex) : gset EntityId := dom (si_handles s).

Context `{!FlatSpatialLaws}.

Lemma spatial_new_wf n : spatial_wf (with_cell_size n).
Proof. split; cbn; intros e h; [by rewrite lookup_empty |]. by rewrite grid_object_new. Qed.

Lemma si_insert_wf e pos s : spatial_wf s -> e ∉ spatial_ids s ->
  spatial_wf (snd (si_insert e pos s)) /\ spatial_ids (snd (si_insert e pos s)) = {[e]} ∪ spatial_ids s.
Proof.
  intros [W1 W2] N. unfold spatial_ids in N. apply not_elem_of_dom in N. unfold si_insert.
  pose proof (grid_insert_fresh pos e (si_grid s)) as F. pose proof (grid_insert_here pos e (si_grid s)) as G.
  pose proof (grid_insert_other pos e (si_grid s)) as O.
  destruct (grid_insert pos e (si_grid s)) as [h g]. cbn in *.
  split; [split; cbn |]; [| | apply dom_insert_L].
  - intros e' h'. destruct (decide (e' = e)) as [-> | Ne].
    + rewrite lookup_insert_eq. by intros [= <-].
    + rewrite lookup_insert_ne by done. intros E. rewrite O; [by apply W1 |].
      intros ->. apply W1 in E. congruence.
  - intros e' h' E. destruct (decide (e' = e)) as [-> | Ne].
    + rewrite lookup_insert_eq. f_equal. destruct (decide (h' = h)) as [-> | Nh]; [done |].
      rewrite O in E by done. apply W2 in E. congruence.
    + rewrite lookup_insert_ne by done. apply W2. rewrite <- O; [done |]. intros ->. congruence.
Qed.

Lemma si_update_position_wf e pos s : spatial_wf s ->
  spatial_wf (si_update_position e pos s) /\ spatial_ids (si_update_position e pos s) = spatial_ids s.
Proof.
  intros [W1 W2]. unfold si_update_position. destruct (si_handles s !! e); [| by split; [split |]].
  split; [| done]. split; cbn; intros e' h'; rewrite grid_set_position_object; auto.
Qed.

Lemma si_maintain_wf s : spatial_wf s -> spatial_wf (si_maintain s) /\ spatial_ids (si_maintain s) = spatial_ids s.
Proof. intros [W1 W2]. split; [| done]. split; cbn; intros e' h'; rewrite grid_maintain_object; auto. Qed.

Lemma si_remove_wf e s : spatial_wf s ->
  spatial_wf (snd (si_remove e s)) /\ spatial_ids (snd (si_remove e s)) = spatial_ids s ∖ {[e]}.
Proof.
  intros [W1 W2]. unfold si_remove. destruct (si_handles s !! e) as [h |] eqn:E; cbn.
  - split; [| apply dom_delete_L]. split; cbn; intros e' h'.
    + rewrite lookup_delete_Some. intros [Ne E']. rewrite grid_remove_other; [by apply W1 |].
      intros ->. apply W1 in E, E'. congruence.
    + destruct (decide (h' = h)) as [-> | Nh]; [by rewrite grid_remove_here |].
      rewrite grid_remove_other by done. intros E'. apply W2 in E'. rewrite lookup_delete_Some. split; [congruence | done].
  - split; [by split |]. unfold spatial_ids. assert (e ∉ dom (si_handles s)) by (by apply not_elem_of_dom). set_solver.
Qed.

(** A query never trips over a dead handle, and finds only entities of the index. *)
Lemma query_in_radius_total center radius s : spatial_wf s ->
  exists ids, query_in_radius center radius s = Some ids /\ Forall (fun e => e ∈ spatial_ids s) ids.
Proof.
  intros [W1 W2]. unfold query_in_radius.
  pose proof (fun h pos => grid_query_live center radius (si_grid s) h pos) as L.
  induction (grid_query_around center radius (si_grid s)) as [| [h pos] l IH]; [by exists [] |].
  destruct (L h pos) as [e E]; [apply list_elem_of_here |].
  destruct IH as (ids & Ei & F); [intros h' pos' I; apply (L h' pos'); by apply list_elem_of_further |].
  exists (e :: ids). cbn. rewrite E. cbn. setoid_rewrite Ei. split; [done |]. constructor; [| done].
  apply elem_of_dom. exists h. by apply W2.
Qed.
End Aoi.

(** A grid that is a list of what was put into it, with the positions still to be
    applied. *)
Module ListGrid.
Record cell : Type := { cell_handle : nat; cell_pos : LocalPos; cell_next : LocalPos; cell_obj : EntityId }.
Record t : Type := { next_handle : nat; cells : list cell }.

Definition find_cell (h : nat) (g : t) : option cell := List.find (fun c => (cell_handle c =? h)%nat) (cells g).
Definition map_cells (f : cell -> cell) (g : t) : t := {| next_handle := next_handle g; cells := map f (cells g) |}.
Definition settle (c : cell) : cell :=
  {| cell_handle := cell_handle c; cell_pos := cell_next c; cell_next := cell_next c; cell_obj := cell_obj c |}.

(** [insert] hands out the next number above all that are in use. *)
Definition fresh (g : t) : nat := S (fold_right Nat.max (next_handle g) (map cell_handle (cells g))).
Arguments fresh : simpl never.

Definition insert (pos : LocalPos) (e : EntityId) (g : t) : nat * t :=
  let h := fresh g in
  (h, {| next_handle := h; cells := {| cell_handle := h; cell_pos := pos; cell_next := pos; cell_obj := e |} :: cells g |}).
Definition set_position (h : nat) (pos : LocalPos) : t -> t :=
  map_cells (fun c => if (cell_handle c =? h)%nat
    then {| cell_handle := h; cell_pos := cell_pos c; cell_next := pos; cell_obj := cell_obj c |} else c).
Definition remove_maintain (h : nat) (g : t) : t :=
  {| next_handle := next_handle g; cells := map settle (List.filter (fun c => negb (cell_handle c =? h)%nat) (cells g)) |}.
Definition get (h : nat) (g : t) : option (LocalPos * EntityId) := (fun c => (cell_pos c, cell_obj c)) <$> find_cell h g.
(** Everything within the box of half side [radius]. *)
Definition within (center : LocalPos) (radius : spec_float) (p : LocalPos) : bool :=
  SFleb (SFabs (f32_sub (pos_x p) (pos_x center))) radius && SFleb (SFabs (f32_sub (pos_y p) (pos_y center))) radius.
Definition query_around (center : LocalPos) (radius : spec_float) (g : t) : list (nat * LocalPos) :=
  map (fun c => (cell_handle c, cell_pos c)) (List.filter (fun c => within center radius (cell_pos c)) (cells g)).

#[export] Instance list_grid : FlatSpatial :=
  {| FlatGrid := t; GridHandle := nat; grid_new := fun _ => {| next_handle := 0; cells := [] |};
     grid_insert := insert; grid_set_position := set_position; grid_remove_maintain := remove_maintain;
     grid_maintain := map_cells settle; grid_get := get; grid_query_around := query_around |}.

Lemma get_map f h g : (forall c, cell_handle (f c) = cell_handle c) -> (forall c, cell_obj (f c) = cell_obj c) ->
  grid_object h (map_cells f g) = grid_object h g.
Proof.
  intros Fh Fo. unfold grid_object. cbn. unfold get, find_cell. cbn. induction (cells g) as [| c l IH]; cbn; [done |].
  rewrite Fh. destruct (cell_handle c =? h)%nat; [| done]. cbn. by rewrite Fo.
Qed.

Lemma fresh_above g c : c ∈ cells g -> (cell_handle c < fresh g)%nat.
Proof.
  unfold fresh. intros I. enough (cell_handle c <= fold_right Nat.max (next_handle g) (map cell_handle (cells g)))%nat by lia.
  induction (cells g) as [| d l IH]; [by apply not_elem_of_nil in I |]. cbn.
  apply elem_of_cons in I as [<- | I]; [| specialize (IH I)]; lia.
Qed.

Lemma find_cell_elem h g c : find_cell h g = Some c -> c ∈ cells g /\ cell_handle c = h.
Proof. unfold find_cell. intros E. apply List.find_some in E as [I E]. by apply list_elem_of_In in I; apply Nat.eqb_eq in E. Qed.

#[export] Instance list_grid_laws : FlatSpatialLaws.
Proof.
  split.
  - done.
  - intros pos e g. unfold grid_object. cbn. unfold get. destruct (find_cell (fresh g) g) as [c |] eqn:E; [| done].
    apply find_cell_elem in E as [I E]. apply fresh_above in I. lia.
  - intros pos e g. unfold grid_object. cbn. unfold get, find_cell. cbn. by rewrite Nat.eqb_refl.
  - intros pos e g h N. unfold grid_object. cbn in *. unfold get, find_cell. cbn.
    destruct (Nat.eqb_spec (fresh g) h) as [E |]; [by subst h | done].
  - intros h pos g h'. apply get_map; intros c; cbn; destruct (Nat.eqb_spec (cell_handle c) h); by subst.
  - intros h g. unfold grid_object. cbn. unfold get, find_cell. cbn.
    induction (cells g) as [| c l IH]; cbn; [done |]. destruct (Nat.eqb_spec (cell_handle c) h) as [E | N]; cbn; [done |].
    destruct (Nat.eqb_spec (cell_handle c) h); [congruence | done].
  - intros h g h' N. unfold grid_object. cbn. unfold get, find_cell. cbn.
    induction (cells g) as [| c l IH]; cbn; [done |]. destruct (Nat.eqb_spec (cell_handle c) h) as [E | Nh]; cbn.
    + destruct (Nat.eqb_spec (cell_handle c) h'); [congruence |]. done.
    + destruct (Nat.eqb_spec (cell_handle c) h'); [done |]. done.
  - intros g h. by apply get_map.
  - intros center radius g h pos. cbn. unfold query_around. intros I. apply list_elem_of_In, in_map_iff in I as (c & [= <- <-] & I).
    apply List.filter_In in I as [I _]. unfold grid_object. cbn. unfold get, find_cell.
    destruct (List.find _ _) eqn:E; [by eexists |].
    apply (List.find_none _ _ E) in I. by rewrite Nat.eqb_refl in I.
Qed.
End ListGrid.
