(* ===== verification/SimTypes.v ===== *)
(** The data of a map's simulation: content ([zohar-domain/src/entity/mob.rs],
    [mob/behavior.rs], [mob/spawn.rs], [zohar-sim/src/chat.rs],
    [runtime/config.rs]), the components of its entities ([runtime/common.rs],
    [runtime/player.rs], [runtime/mob.rs], [runtime/life.rs]), and the facts,
    actions and attack commands its systems hand to each other
    ([runtime/facts.rs], [runtime/action.rs], [runtime/combat.rs]). *)
From S2P Require Import Prelude Domain Float Space Entities StatSource StatsApi Hydrate Recovery CombatTiming MapPort.
From S2P Require Import Replication Outbox Channel Persist Planner SimTime Motion Aoi.

(** An entity of the world: an index no two live entities share. *)
Notation Entity := Z (only parsing).

(** ** Content *)
Definition BHV_NO_MOVE : Z := Z.shiftl 1 0.
Definition BHV_AGGRESSIVE : Z := Z.shiftl 1 1.
Definition bhv_contains (flags flag : Z) : bool := Z.land flags flag =? flag.
Definition can_wander (flags : Z) : bool := negb (bhv_contains flags BHV_NO_MOVE).

Inductive MobRank : Type := Rank_Pawn | Rank_SuperPawn | Rank_Knight | Rank_SuperKnight | Rank_Boss | Rank_King.
Record MobCombatStats : Type := {
  mc_strength : Z; mc_dexterity : Z; mc_vitality : Z; mc_intelligence : Z; mc_damage_min : Z; mc_damage_max : Z;
  mc_max_hp : Z; mc_defense : Z; mc_damage_multiplier : spec_float }.
Record MobPrototypeDef : Type := {
  mp_mob_id : MobId; mp_mob_kind : MobKind; mp_name : string; mp_rank : MobRank; mp_battle_type : MobBattleType;
  mp_level : Z; mp_move_speed : Z; mp_attack_speed : Z; mp_aggressive_sight : Z; mp_attack_range : Z;
  mp_combat_extent_m : spec_float; mp_combat : MobCombatStats; mp_experience : Z; mp_bhv_flags : Z;
  mp_empire : option Empire }.

Inductive Direction : Type := North | NorthEast | East | SouthEast | South | SouthWest | West | NorthWest.
Definition to_angle (d : Direction) : spec_float :=
  match d with
  | North => f32_of_int 0 | NorthEast => f32_of_int 45 | East => f32_of_int 90 | SouthEast => f32_of_int 135
  | South => f32_of_int 180 | SouthWest => f32_of_int 225 | West => f32_of_int 270 | NorthWest => f32_of_int 315
  end.
Inductive FacingStrategy : Type := Facing_Random | Facing_Fixed (direction : Direction).

Record LocalBox : Type := { box_min : LocalPos; box_max : LocalPos }.
Definition from_center_half_extent (center : LocalPos) (extent : LocalSize) : LocalBox :=
  {| box_min := mk_pos (f32_sub (pos_x center) (size_width extent)) (f32_sub (pos_y center) (size_height extent));
     box_max := mk_pos (f32_add (pos_x center) (size_width extent)) (f32_add (pos_y center) (size_height extent)) |}.
(** [Point2D::max] and [min] are [f32]'s on each axis. *)
Definition box_intersect (a b : LocalBox) : option LocalBox :=
  let mn := mk_pos (f_max (pos_x (box_min a)) (pos_x (box_min b))) (f_max (pos_y (box_min a)) (pos_y (box_min b))) in
  let mx := mk_pos (f_min (pos_x (box_max a)) (pos_x (box_max b))) (f_min (pos_y (box_max a)) (pos_y (box_max b))) in
  if SFltb (pos_x mx) (pos_x mn) || SFltb (pos_y mx) (pos_y mn) then None
  else Some {| box_min := mn; box_max := mx |}.

Record SpawnArea : Type := { area_center : LocalPos; area_extent : LocalSize; area_bounds : LocalBox }.
Definition SpawnArea_new (center : LocalPos) (extent : LocalSize) : SpawnArea :=
  {| area_center := center; area_extent := extent; area_bounds := from_center_half_extent center extent |}.
Record SpawnRuleDef : Type := {
  sr_template : SpawnTemplate; sr_area : SpawnArea; sr_facing : FacingStrategy; sr_max_count : Z; sr_regen_time : Z }.

Record MobChatStrategyInterval : Type := { interval_min_sec : Z; interval_max_sec : Z }.
Record MobChatLine : Type := { line_source_key : string; line_text : string }.
Record MobChatContent : Type := {
  strategy_type_defaults : list ((string * MobKind) * MobChatStrategyInterval);
  strategy_mob_overrides : gmap (string * MobId) MobChatStrategyInterval;
  lines_by_mob : gmap (string * MobId) (list MobChatLine) }.
(** A lookup in a map keyed by a context and a kind. *)
Definition kind_defaults_get (m : list ((string * MobKind) * MobChatStrategyInterval)) (key : string * MobKind)
  : option MobChatStrategyInterval :=
  snd <$> List.find (fun entry => bool_decide (fst entry = key)) m.
Definition strategy_for (self : MobChatContent) (context : string) (mob_kind : MobKind) (mob_id : MobId)
  : option MobChatStrategyInterval :=
  match strategy_mob_overrides self !! (context, mob_id) with
  | Some s => Some s
  | None => kind_defaults_get (strategy_type_defaults self) (context, mob_kind)
  end.
Definition lines_for (self : MobChatContent) (context : string) (mob_id : MobId) : option (list MobChatLine) :=
  lines_by_mob self !! (context, mob_id).

(** The durations of [WanderConfig] are nanoseconds. *)
Record WanderConfig : Type := {
  decision_pause_idle_min : Z; decision_pause_idle_max : Z; post_move_pause_min : Z; post_move_pause_max : Z;
  wander_chance_denominator : Z; step_min_m : spec_float; step_max_m : spec_float }.
Definition WanderConfig_default : WanderConfig :=
  {| decision_pause_idle_min := 3 * 10 ^ 9; decision_pause_idle_max := 5 * 10 ^ 9;
     post_move_pause_min := 1 * 10 ^ 9; post_move_pause_max := 3 * 10 ^ 9;
     wander_chance_denominator := 7; step_min_m := f32_of_int 3; step_max_m := f32_of_int 7 |}.

Record SharedConfig : Type := {
  sc_motion_speeds : EntityMotionSpeedTable;
  sc_mob_attack_timings : MobAttackTimingTable;
  sc_mobs : gmap MobId MobPrototypeDef;
  sc_player_stats : PlayerStatRules;
  sc_wander : WanderConfig;
  sc_mob_chat : MobChatContent }.

Inductive MapInstanceKind : Type := Instance_Shared | Instance_Instanced (id : Z).
Record MapInstanceKey : Type := { mik_channel_id : Z; mik_map_id : MapId; mik_instance : MapInstanceKind }.
Record MapConfig : Type := {
  mcfg_map_key : MapInstanceKey;
  mcfg_empire : option Empire;
  mcfg_local_size : LocalSize;
  mcfg_navigator : option MapNavigator;
  mcfg_spawn_rules : list SpawnRuleDef }.

(** ** Limits *)
Definition MAX_MOVE_INTENTS_PER_TICK : nat := 64.
Definition MAX_CHAT_INTENTS_PER_TICK : nat := 16.
Definition MAX_ATTACK_INTENTS_PER_TICK : nat := 16.
Definition MAX_PROGRESSION_INTENTS_PER_TICK : nat := 8.
Definition MAX_MOB_STIMULI_PER_TICK : nat := 16.

(** ** Components of every actor *)
Record LocalTransform : Type := { lt_pos : LocalPos; lt_rot : Z }.

Inductive ActorLifePhase : Type :=
| Alive
| Dying (entered_at dead_at : SimInstant)
| Dead (entered_at : SimInstant)
    (restart_here_allowed_at restart_town_allowed_at forced_respawn_at cleanup_at : option SimInstant).
#[export] Instance ActorLifePhase_eq_dec : EqDecision ActorLifePhase.
Proof. solve_decision. Defined.

(** ** Components of a player *)
Inductive PlayerCommand : Type :=
| Command_Move (kind : MovementKind) (arg rot : Z) (target : LocalPos) (ts : Z)
| Command_SetMovementAnimation (animation : MovementAnimation)
| Command_Attack (target : EntityId) (attack : AttackIntent)
| Command_SelectTarget (target : EntityId).

Record PlayerActivityComp : Type := {
  last_movement_start_at : option SimInstant;
  last_attack_at : option SimInstant;
  last_walk_started_at : option SimInstant;
  preferred_movement_animation : MovementAnimation }.
Definition PlayerActivityComp_default : PlayerActivityComp :=
  {| last_movement_start_at := None; last_attack_at := None; last_walk_started_at := None;
     preferred_movement_animation := Run |}.

Record PlayerTicker (T : Type) : Type := { pt_clock : SimTickerClock; pt_state : T }.
Arguments pt_clock {T} p.
Arguments pt_state {T} p.
Record PlayerStatTickerComp : Type := {
  tick_passive_hp : PlayerTicker PlayerPassiveHpRecoveryState;
  tick_passive_sp : PlayerTicker PlayerPassiveSpRecoveryState;
  tick_stamina_ticker : PlayerTicker PlayerStaminaState }.

(** A reply channel: its sender is with the persistence worker, or it answered at
    once when there is none. *)
Inductive ReplyRx : Type := Rx_worker (sender : Sender) | Rx_answered.

Record PlayerPersistenceState : Type := {
  pp_dirty : bool;
  pp_runtime_epoch : Z;
  pp_persisted_playtime : Z;
  pp_entered_map_at : SimInstant;
  pp_autosave : SimTickerClock }.

(** ** Components of a mob *)
Record SpawnRuleState : Type := {
  srs_rule : SpawnRuleDef; active_instances : Z; srs_entities : gset EntityId; respawn_at : option SimInstant }.
Inductive MobBrainMode : Type := Brain_Idle | Brain_Pursuit | Brain_Return | Brain_AttackWindup.
#[export] Instance MobBrainMode_eq_dec : EqDecision MobBrainMode.
Proof. solve_decision. Defined.
(** [MobAggro::ProvokedBy] *)
Record MobAggro : Type := { provoked_by : EntityId }.
Record MobBrainState : Type := {
  brain_mode : MobBrainMode;
  brain_target : option EntityId;
  next_attack_at : SimInstant;
  attack_windup_until : SimInstant;
  next_rethink_at : SimInstant;
  wander_next_decision_at : SimInstant;
  wander_wait_until : option SimInstant }.
#[export] Instance MobBrainState_eq_dec : EqDecision MobBrainState.
Proof. solve_decision. Defined.
Definition MobBrainState_default : MobBrainState :=
  {| brain_mode := Brain_Idle; brain_target := None; next_attack_at := 0; attack_windup_until := 0;
     next_rethink_at := 0; wander_next_decision_at := 0; wander_wait_until := None |}.

(** ** Components of the map *)
Record PendingMovement : Type := {
  pmv_mover_player_id : option PlayerId; pmv_entity_id : EntityId; pmv_new_pos : LocalPos; pmv_kind : MovementKind;
  pmv_reliable : bool; pmv_arg : Z; pmv_rot : Z; pmv_ts : Z; pmv_duration : Z }.
Record PendingLocalChat : Type := {
  plc_speaker_player_id : PlayerId; plc_speaker_entity_id : EntityId; plc_speaker_empire : Empire;
  plc_channel : ChatChannel; plc_speaker_name : string; plc_message : list Z }.
(** [scheduled_spawns] is a heap of (instant, rule index), least first. *)
Record MapSpawnRules : Type := { msr_rules : list SpawnRuleState; scheduled_spawns : list (SimInstant * nat) }.

(** ** Facts of a tick *)
Record ActorRef : Type := { ar_entity : Entity; ar_id : EntityId }.
#[export] Instance ActorRef_eq_dec : EqDecision ActorRef.
Proof. solve_decision. Defined.
Definition HitFlags_NORMAL : Z := Z.shiftl 1 0.
Definition HitFlags_POISON : Z := Z.shiftl 1 1.
Definition HitFlags_DODGE : Z := Z.shiftl 1 2.
Definition HitFlags_BLOCK : Z := Z.shiftl 1 3.
Definition HitFlags_PENETRATE : Z := Z.shiftl 1 4.
Definition HitFlags_CRITICAL : Z := Z.shiftl 1 5.

Record ActorDamaged : Type := { dmg_attacker : ActorRef; dmg_victim : ActorRef; dmg_damage : Z; dmg_flags : Z }.
Record ActorResourceChanged : Type := { arc_actor : ActorRef; arc_stat : Stat; arc_previous : Z; arc_current : Z }.
Record ActorHpDepleted : Type := { hpd_victim : ActorRef; hpd_killer : option ActorRef }.
Record ActorDespawned : Type := { dsp_actor_id : EntityId; dsp_recipients : list Entity }.
Record PlayerStaminaTimerChanged : Type := {
  stc_player : ActorRef; stc_command : PlayerStaminaTimerCommand; stc_current_stamina : Z }.
Record ProjectileTargetedFact : Type := { ptf_caster : ActorRef; ptf_target : ActorRef }.
(** The one kind of [ProjectileVisualEffect] is [Experience]. *)
Record ProjectileVisualEffect : Type := { pve_start : ActorRef; pve_end : ActorRef }.
Inductive PointVisualEffect : Type := LevelStep_effect (actor : ActorRef) | LevelUp_effect (actor : ActorRef) (level : Z).
Definition point_effect_actor (e : PointVisualEffect) : ActorRef :=
  match e with LevelStep_effect actor | LevelUp_effect actor _ => actor end.
Inductive ActorSpecialEffectKind : Type := SpecialKind_Critical | SpecialKind_Piercing.
Record ActorSpecialEffect : Type := { ase_actor : ActorRef; ase_effect : ActorSpecialEffectKind }.

Record CombatFacts : Type := { cf_damaged : list ActorDamaged; cf_hp_depleted : list ActorHpDepleted }.
Record LifeFacts : Type := {
  lf_dying_started : list ActorRef; lf_death_finalized : list ActorRef; lf_cleanup_due : list ActorRef }.
Record VisualFacts : Type := {
  vf_projectile_targets : list ProjectileTargetedFact; vf_projectile_effects : list ProjectileVisualEffect;
  vf_point_effects : list PointVisualEffect; vf_special_effects : list ActorSpecialEffect }.
Record FrameFacts : Type := {
  ff_combat : CombatFacts;
  ff_resources_changed : list ActorResourceChanged;
  ff_life : LifeFacts;
  ff_despawned : list ActorDespawned;
  ff_player_dirty : list Entity;
  ff_stamina_timer_changed : list PlayerStaminaTimerChanged;
  ff_visuals : VisualFacts }.
Definition FrameFacts_default : FrameFacts :=
  {| ff_combat := {| cf_damaged := []; cf_hp_depleted := [] |}; ff_resources_changed := [];
     ff_life := {| lf_dying_started := []; lf_death_finalized := []; lf_cleanup_due := [] |};
     ff_despawned := []; ff_player_dirty := []; ff_stamina_timer_changed := [];
     ff_visuals := {| vf_projectile_targets := []; vf_projectile_effects := []; vf_point_effects := [];
                      vf_special_effects := [] |} |}.

(** ** Attack commands and actions *)
Inductive AttackCommand : Type :=
| PlayerBasicAttack (attacker_entity victim_entity : Entity)
| MobBasicAttack (attacker_entity victim_entity : Entity).
Inductive DelayedAttackKind : Type :=
| Delayed_Resolve (command : AttackCommand)
| Delayed_ReleaseProjectile (command : AttackCommand) (flight : FlyTiming).
Record DelayedAttackCommand : Type := { dac_due_at : SimInstant; dac_kind : DelayedAttackKind }.
Inductive AttackDamageSchedule : Type :=
| Schedule_Immediate
| Schedule_Delayed (delay : SimDuration)
| Schedule_Projectile (release_delay : SimDuration) (flight : FlyTiming).

Inductive MobActionCompletion : Type :=
| Completion_None
| RethinkAtActionEnd
| RethinkAtActionEndOrDelay (max_delay_ms : SimDuration)
| IdleWander (post_move_pause_ms : SimDuration).

Inductive Action : Type :=
| Action_PlayerMotion (player_entity : Entity) (player_id : PlayerId) (entity_id : EntityId) (kind : MovementKind)
    (arg rot : Z) (end_pos : LocalPos) (ts duration : Z) (motion : PlayerMotionState)
| Action_PlayerAttack (player_entity : Entity) (entity_id : EntityId) (target_entity : Entity) (pos : LocalPos)
    (rot : Z) (attack : AttackIntent) (ts duration : Z)
| Action_MobMotion (mob_entity : Entity) (entity_id : EntityId) (start_pos end_pos : LocalPos) (rot : Z)
    (kind : MovementKind) (ts duration : Z) (next_brain : MobBrainState)
| Action_MobAttack (mob_entity : Entity) (entity_id : EntityId) (target_entity : Entity) (pos : LocalPos) (rot ts duration : Z)
    (damage_schedule : AttackDamageSchedule) (set_projectile_target : bool) (next_brain : MobBrainState).

Record MobAggroDispatch : Type := { attacked_mob_entity : Entity; dispatch_aggro : MobAggro }.
