(* ===== verification/SimWorld.v ===== *)
(** The world of a map's simulation: entities as bundles of typed components,
    resources, and the operations of Bevy's [World] that the systems of
    [zohar-sim/src/runtime] use.

    A system is a function of the world that may panic ([None]): [world.entity(e)]
    panics when [e] is gone.  Which entity ids are handed out, the order in which a
    query visits its matches and what the other end of a reply channel did are the
    environment's; the world counts the choices made so far ([w_fate]), so that no
    two of them need agree. *)
From S2P Require Import Prelude Domain StatSource StatsApi Hydrate Recovery Float CombatTiming Space Entities Persist.
From S2P Require Import MapPort Channel Outbox Replication SimTime Motion Aoi SimTypes.
From Stdlib Require Import Eqdep_dec.

(** ** What the simulation is given *)
Inductive TryRecv (A : Type) : Type := Recv_Value (a : A) | Recv_Empty | Recv_Closed.
Arguments Recv_Value {A} a.
Arguments Recv_Empty {A}.
Arguments Recv_Closed {A}.

Class SimEnv : Type := {
  env_math :: VectorMath;
  env_random :: RandomSource;
  env_spatial :: FlatSpatial;
  env_growth :: GrowthRng;
  (** [f32::hypot] *)
  env_hypot : spec_float -> spec_float -> spec_float;
  (** the channels to the players' connections and to the persistence worker *)
  OutTx : Type;
  env_out :: Mpsc OutTx PlayerEvent;
  PersistTx : Type;
  env_persist :: Mpsc PersistTx PlayerPersistenceRequest;
  (** the order of a query, or of a hash map's iteration; the answer on a reply channel *)
  query_order : nat -> gset Entity -> list Entity;
  (** [sort_unstable_by_key] of the movements: equal keys come in some order *)
  env_sort : nat -> list PendingMovement -> list PendingMovement;
  poll_reply : nat -> Sender -> TryRecv PlayerPersistenceResult }.

(** The key the movements are sorted by. *)
Definition movement_key_le (a b : PendingMovement) : Prop :=
  pmv_entity_id a < pmv_entity_id b \/ pmv_entity_id a = pmv_entity_id b /\
  (pmv_ts a < pmv_ts b \/ pmv_ts a = pmv_ts b /\
   movement_kind_priority (pmv_kind a) <= movement_kind_priority (pmv_kind b)).

Class SimEnvLaws `{SimEnv} : Prop := {
  env_random_laws :: RandomLaws;
  env_spatial_laws :: FlatSpatialLaws;
  query_order_perm n s : query_order n s ≡ₚ elements s;
  env_sort_perm n l : env_sort n l ≡ₚ l;
  env_sort_sorted n l : Sorted movement_key_le (env_sort n l) }.

(** ** Components *)
Inductive CompKind : Type :=
| K_MapMarker | K_MapInstanceKey | K_MapEmpire | K_MapSpatial | K_MapReplication | K_MapSpawnRules
| K_MapPendingMovements | K_MapPendingLocalChats | K_MapDirtyEntityPublicStates
| K_NetEntityId | K_LocalTransform | K_ActorLife
| K_PlayerMarker | K_PlayerMotion | K_PlayerActivity | K_PlayerStatTicker | K_PlayerAppearance | K_PlayerProgression
| K_PlayerStats | K_PlayerMovementAnimation | K_PlayerOutbox | K_PlayerTarget | K_PlayerCommandQueue
| K_ChatIntentQueue | K_PlayerProgressionIntentQueue | K_PlayerRestartIntentQueue | K_PlayerPendingDurableFlush
| K_PlayerPersistence
| K_MobMarker | K_MobRef | K_MobStats | K_MobPackId | K_MobHomeAnchor | K_MobBrainState | K_MobAggroQueue
| K_MobMotion | K_MobChatState | K_MobDeathRewardClaim.
#[export] Instance CompKind_eq_dec : EqDecision CompKind.
Proof. solve_decision. Defined.

Inductive ResKind : Type :=
| R_Runtime | R_PlayerIndex | R_NetEntityIndex | R_PlayerCount | R_PortalPoll | R_ActionBuffer | R_MobAggroDispatch
| R_AttackCommands | R_DelayedAttacks | R_FrameFacts | R_Shared | R_MapConfig | R_PersistencePort.
#[export] Instance ResKind_eq_dec : EqDecision ResKind.
Proof. solve_decision. Defined.

Section World.
Context `{SimEnv}.

(** The type of a component. *)
Definition comp (k : CompKind) : Type :=
  match k with
  | K_MapMarker => unit | K_MapInstanceKey => MapInstanceKey | K_MapEmpire => option Empire
  | K_MapSpatial => SpatialIndex | K_MapReplication => ReplicationGraph | K_MapSpawnRules => MapSpawnRules
  | K_MapPendingMovements => list PendingMovement | K_MapPendingLocalChats => list PendingLocalChat
  | K_MapDirtyEntityPublicStates => list EntityId
  | K_NetEntityId => EntityId | K_LocalTransform => LocalTransform | K_ActorLife => ActorLifePhase
  | K_PlayerMarker => PlayerId | K_PlayerMotion => PlayerMotionState | K_PlayerActivity => PlayerActivityComp
  | K_PlayerStatTicker => PlayerStatTickerComp | K_PlayerAppearance => PlayerAppearance
  | K_PlayerProgression => PlayerGameplayBootstrap | K_PlayerStats => ActorStatsRuntime
  | K_PlayerMovementAnimation => MovementAnimation | K_PlayerOutbox => @PlayerOutbox OutTx
  | K_PlayerTarget => option EntityId | K_PlayerCommandQueue => list PlayerCommand
  | K_ChatIntentQueue => list ChatIntent | K_PlayerProgressionIntentQueue => list PlayerProgressionIntent
  | K_PlayerRestartIntentQueue => list PlayerRestartIntent | K_PlayerPendingDurableFlush => option ReplyRx
  | K_PlayerPersistence => PlayerPersistenceState
  | K_MobMarker => unit | K_MobRef => MobId | K_MobStats => ActorStatsRuntime | K_MobPackId => Z
  | K_MobHomeAnchor => LocalPos | K_MobBrainState => MobBrainState | K_MobAggroQueue => list MobAggro
  | K_MobMotion => MobMotionState | K_MobChatState => SimInstant | K_MobDeathRewardClaim => ActorRef
  end.

Definition Bundle : Type := forall k, option (comp k).
Definition bundle_empty : Bundle := fun _ => None.
Definition bundle_set (k : CompKind) (v : option (comp k)) (b : Bundle) : Bundle := fun k' =>
  match decide (k = k') with
  | left e => eq_rect k (fun k => option (comp k)) v k' e
  | right _ => b k'
  end.

(** ** Resources *)
Record RuntimeState : Type := {
  next_net_id : Z; next_pack_id : Z; map_entity : option Entity; is_dirty : bool; sim_now : SimInstant; rng : Rng }.
Definition packet_now (s : RuntimeState) : Z := to_client_timestamp (sim_now s).
Definition with_dirty (d : bool) (s : RuntimeState) : RuntimeState :=
  {| next_net_id := next_net_id s; next_pack_id := next_pack_id s; map_entity := map_entity s; is_dirty := d;
     sim_now := sim_now s; rng := rng s |}.
Definition with_rng (r : Rng) (s : RuntimeState) : RuntimeState :=
  {| next_net_id := next_net_id s; next_pack_id := next_pack_id s; map_entity := map_entity s; is_dirty := is_dirty s;
     sim_now := sim_now s; rng := r |}.
Definition with_map_entity (m : option Entity) (s : RuntimeState) : RuntimeState :=
  {| next_net_id := next_net_id s; next_pack_id := next_pack_id s; map_entity := m; is_dirty := is_dirty s;
     sim_now := sim_now s; rng := rng s |}.
Definition with_sim_now (now : SimInstant) (s : RuntimeState) : RuntimeState :=
  {| next_net_id := next_net_id s; next_pack_id := next_pack_id s; map_entity := map_entity s; is_dirty := is_dirty s;
     sim_now := now; rng := rng s |}.
Definition with_pack_id (p : Z) (s : RuntimeState) : RuntimeState :=
  {| next_net_id := next_net_id s; next_pack_id := p; map_entity := map_entity s; is_dirty := is_dirty s;
     sim_now := sim_now s; rng := rng s |}.

(** [next_entity_id]: the ids wrap around and skip zero. *)
Definition next_entity_id (s : RuntimeState) : EntityId * RuntimeState :=
  let id := wrap_u 32 (next_net_id s + 1) in
  let id := if id =? 0 then 1 else id in
  (id, {| next_net_id := id; next_pack_id := next_pack_id s; map_entity := map_entity s; is_dirty := is_dirty s;
          sim_now := sim_now s; rng := rng s |}).

Record PortalPollState : Type := { next_poll_at : SimInstant; overlaps : gmap Entity Entity }.

Definition res (r : ResKind) : Type :=
  match r with
  | R_Runtime => RuntimeState
  | R_PlayerIndex => gmap PlayerId Entity
  | R_NetEntityIndex => gmap EntityId Entity
  | R_PlayerCount => Z
  | R_PortalPoll => PortalPollState
  | R_ActionBuffer => list Action
  | R_MobAggroDispatch => list MobAggroDispatch
  | R_AttackCommands => list AttackCommand
  | R_DelayedAttacks => list DelayedAttackCommand
  | R_FrameFacts => FrameFacts
  | R_Shared => SharedConfig
  | R_MapConfig => MapConfig
  | R_PersistencePort => option PersistTx
  end.

(** The components whose change is observed ([Ref::is_changed], [is_added]) keep
    the entities written, and added, since the observing system last ran. *)
Record World : Type := {
  w_entities : gmap Entity Bundle;
  w_next_entity : Entity;
  w_fate : nat;
  w_changed : CompKind -> gset Entity;
  w_added : CompKind -> gset Entity;
  w_res : forall r, res r }.

Definition set_entities (es : gmap Entity Bundle) (w : World) : World :=
  {| w_entities := es; w_next_entity := w_next_entity w; w_fate := w_fate w; w_changed := w_changed w;
     w_added := w_added w; w_res := w_res w |}.
Definition set_res (r : ResKind) (v : res r) (w : World) : World :=
  {| w_entities := w_entities w; w_next_entity := w_next_entity w; w_fate := w_fate w; w_changed := w_changed w;
     w_added := w_added w;
     w_res := fun r' => match decide (r = r') with
                        | left e => eq_rect r res v r' e
                        | right _ => w_res w r'
                        end |}.

(** ** Code that runs in the world *)
Definition Sim (A : Type) : Type := World -> option (A * World).
Definition done_ {A} (a : A) : Sim A := fun w => Some (a, w).
Definition panic {A} : Sim A := fun _ => None.
Definition sim_bind {A B} (m : Sim A) (k : A -> Sim B) : Sim B := fun w =>
  match m w with Some (a, w) => k a w | None => None end.
(** A value that may be a panic. *)
Definition unwrap {A} (o : option A) : Sim A := match o with Some a => done_ a | None => panic end.
End World.
Declare Scope sim_scope.
Delimit Scope sim_scope with sim.
Notation "x <~ m ; k" := (sim_bind m (fun x => k))
  (at level 100, m at next level, k at level 200, right associativity) : sim_scope.
Notation "' p <~ m ; k" := (sim_bind m (fun x => match x with p => k end))
  (at level 100, p strict pattern, m at next level, k at level 200, right associativity) : sim_scope.
Notation "m ;; k" := (sim_bind m (fun _ => k))
  (at level 100, k at level 200, right associativity) : sim_scope.
(** [let Some(x) = o else { return d }] *)
Notation "'let_some' x ':=' o 'else' d ; k" := (match o with Some x => k | None => d end)
  (at level 200, x name, o at level 100, d at level 100, k at level 200) : sim_scope.
#[global] Open Scope sim_scope.

Section Ops.
Context `{SimEnv}.

Fixpoint for_each {A} (l : list A) (f : A -> Sim unit) : Sim unit :=
  match l with [] => done_ tt | a :: l => f a ;; for_each l f end.
(** A loop over a list that carries a value. *)
Fixpoint fold_sim {A B} (f : B -> A -> Sim B) (l : list A) (b : B) : Sim B :=
  match l with [] => done_ b | a :: l => b <~ f b a; fold_sim f l b end.
Definition when (b : bool) (m : Sim unit) : Sim unit := if b then m else done_ tt.

(** *** Reading *)
Definition bundle_get (k : CompKind) (b : option Bundle) : option (comp k) := match b with Some b => b k | None => None end.
Definition get (k : CompKind) (e : Entity) (w : World) : option (comp k) := bundle_get k (w_entities w !! e).
Definition contains (e : Entity) (w : World) : bool := bool_decide (is_Some (w_entities w !! e)).
Definition reads_w {A} (f : World -> A) : Sim A := fun w => Some (f w, w).
Definition resource (r : ResKind) : Sim (res r) := reads_w (fun w => w_res w r).
Definition runtime : Sim RuntimeState := resource R_Runtime.
(** [world.entity(e).get::<C>()] and [contains::<C>()]; a missing entity panics. *)
Definition entity_get (k : CompKind) (e : Entity) : Sim (option (comp k)) := fun w =>
  if contains e w then Some (get k e w, w) else None.
Definition entity_has (k : CompKind) (e : Entity) : Sim bool := fun w =>
  if contains e w then Some (bool_decide (is_Some (get k e w)), w) else None.
(** [query.get(world, e)] on one component: no entity is no match. *)
Definition query_get (k : CompKind) (e : Entity) : Sim (option (comp k)) := reads_w (get k e).
Definition entity_alive (e : Entity) : Sim bool := reads_w (contains e).

(** *** Writing *)
Definition kind_add (k : CompKind) (e : Entity) (f : CompKind -> gset Entity) : CompKind -> gset Entity :=
  fun k' => if decide (k = k') then {[e]} ∪ f k' else f k'.
Definition kind_drop (e : Entity) (f : CompKind -> gset Entity) : CompKind -> gset Entity := fun k => f k ∖ {[e]}.

(** A component of a live entity written through [Mut]. *)
Definition write (k : CompKind) (e : Entity) (v : comp k) (w : World) : World :=
  match w_entities w !! e with
  | Some b =>
      {| w_entities := <[e := bundle_set k (Some v) b]> (w_entities w); w_next_entity := w_next_entity w;
         w_fate := w_fate w; w_changed := kind_add k e (w_changed w); w_added := w_added w; w_res := w_res w |}
  | None => w
  end.
Definition sim_write (k : CompKind) (e : Entity) (v : comp k) : Sim unit := fun w => Some (tt, write k e v w).
(** [if let Some(mut c) = world.entity_mut(e).get_mut::<C>() { c.update(f) }] *)
Definition modify (k : CompKind) (e : Entity) (f : comp k -> comp k) : Sim unit :=
  c <~ entity_get k e;
  match c with Some v => sim_write k e (f v) | None => done_ tt end.
(** [entity_mut(e).insert(c)], [remove::<C>()] *)
Definition insert_comp (k : CompKind) (e : Entity) (v : comp k) : Sim unit := fun w =>
  match w_entities w !! e with
  | Some b =>
      Some (tt, {| w_entities := <[e := bundle_set k (Some v) b]> (w_entities w); w_next_entity := w_next_entity w;
                   w_fate := w_fate w; w_changed := kind_add k e (w_changed w);
                   w_added := if decide (is_Some (b k)) then w_added w else kind_add k e (w_added w);
                   w_res := w_res w |})
  | None => None
  end.
Definition remove_comp (k : CompKind) (e : Entity) : Sim unit := fun w =>
  match w_entities w !! e with
  | Some b => Some (tt, set_entities (<[e := bundle_set k None b]> (w_entities w)) w)
  | None => None
  end.
Definition set_resource_ (r : ResKind) (v : res r) : Sim unit := fun w => Some (tt, set_res r v w).
Definition update_resource (r : ResKind) (f : res r -> res r) : Sim unit := fun w => Some (tt, set_res r (f (w_res w r)) w).
Definition mark_map_dirty : Sim unit := update_resource R_Runtime (with_dirty true).

(** [spawn] and [despawn], before their observers. *)
Definition spawn_bundle (b : Bundle) : Sim Entity := fun w =>
  let e := w_next_entity w in
  Some (e, {| w_entities := <[e := b]> (w_entities w); w_next_entity := e + 1; w_fate := w_fate w;
              w_changed := fun k => if decide (is_Some (b k)) then {[e]} ∪ w_changed w k else w_changed w k;
              w_added := fun k => if decide (is_Some (b k)) then {[e]} ∪ w_added w k else w_added w k;
              w_res := w_res w |}).
Definition erase (e : Entity) : Sim unit := fun w =>
  Some (tt, {| w_entities := delete e (w_entities w); w_next_entity := w_next_entity w; w_fate := w_fate w;
               w_changed := kind_drop e (w_changed w); w_added := kind_drop e (w_added w); w_res := w_res w |}).

(** *** The environment's choices *)
Definition matches (ks : list CompKind) (b : Bundle) : bool := forallb (fun k => bool_decide (is_Some (b k))) ks.
Definition matching (ks : list CompKind) (w : World) : gset Entity :=
  dom (filter (fun '(_, b) => matches ks b = true) (w_entities w)).
Definition next_fate (w : World) : World :=
  {| w_entities := w_entities w; w_next_entity := w_next_entity w; w_fate := S (w_fate w); w_changed := w_changed w;
     w_added := w_added w; w_res := w_res w |}.
(** A [HashMap] or a [HashSet] iterated. *)
Definition in_some_order (s : gset Entity) : Sim (list Entity) := fun w => Some (query_order (w_fate w) s, next_fate w).
Definition query (ks : list CompKind) : Sim (list Entity) := fun w =>
  Some (query_order (w_fate w) (matching ks w), next_fate w).
Definition try_recv (rx : ReplyRx) : Sim (TryRecv PlayerPersistenceResult) := fun w =>
  match rx with
  | Rx_worker s => Some (poll_reply (w_fate w) s, next_fate w)
  | Rx_answered => Some (Recv_Value (Ok tt), w)
  end.
(** [oneshot::channel]: a sender no one has. *)
Definition oneshot_channel : Sim Sender := fun w => Some (w_fate w, next_fate w).
Definition unstable_sort (l : list PendingMovement) : Sim (list PendingMovement) := fun w =>
  Some (env_sort (w_fate w) l, next_fate w).
(** A random choice from the runtime's generator. *)
Definition with_random {A} (f : Rng -> A * Rng) : Sim A :=
  s <~ runtime;
  let '(a, r) := f (rng s) in
  update_resource R_Runtime (with_rng r) ;; done_ a.

(** [changed] since the observing system last ran, and not just added. *)
Definition changed_not_added (k : CompKind) (e : Entity) (w : World) : bool :=
  bool_decide (e ∈ w_changed w k) && negb (bool_decide (e ∈ w_added w k)).
Definition observed (k : CompKind) : Sim unit := fun w =>
  Some (tt, {| w_entities := w_entities w; w_next_entity := w_next_entity w; w_fate := w_fate w;
               w_changed := fun k' => if decide (k = k') then ∅ else w_changed w k';
               w_added := fun k' => if decide (k = k') then ∅ else w_added w k'; w_res := w_res w |}).
End Ops.

(** Reading after writing: what [World]'s operations leave of each component and
    resource ([SimWorld]). *)
Section Frame.
Context `{SimEnv}.

Lemma bundle_set_eq k v b : bundle_set k v b k = v.
Proof.
  unfold bundle_set. destruct (decide (k = k)) as [e | n]; [| done].
  by rewrite (UIP_dec CompKind_eq_dec e eq_refl).
Qed.
Lemma bundle_set_ne k k' v b : k <> k' -> bundle_set k v b k' = b k'.
Proof. intros N. unfold bundle_set. by destruct (decide (k = k')). Qed.

Lemma res_set_eq r v w : w_res (set_res r v w) r = v.
Proof.
  cbn. destruct (decide (r = r)) as [e | n]; [| done].
  by rewrite (UIP_dec ResKind_eq_dec e eq_refl).
Qed.
Lemma res_set_ne r r' v w : r <> r' -> w_res (set_res r v w) r' = w_res w r'.
Proof. intros N. cbn. by destruct (decide (r = r')). Qed.

(** A live entity. *)
Definition live (e : Entity) (w : World) : Prop := is_Some (w_entities w !! e).
#[export] Instance live_dec e w : Decision (live e w).
Proof. unfold live. apply _. Defined.
Lemma contains_live e w : contains e w = true <-> live e w.
Proof. unfold contains. by rewrite bool_decide_eq_true. Qed.
Lemma get_live k e v w : get k e w = Some v -> live e w.
Proof. unfold get, live. destruct (w_entities w !! e); cbn; [by eexists | done]. Qed.

Lemma write_entities k e v w b : w_entities w !! e = Some b ->
  w_entities (write k e v w) = <[e := bundle_set k (Some v) b]> (w_entities w).
Proof. intros E. unfold write. by rewrite E. Qed.
Lemma get_write_eq k e v w : live e w -> get k e (write k e v w) = Some v.
Proof.
  intros [b E]. unfold get. rewrite (write_entities _ _ _ _ _ E), lookup_insert_eq. apply bundle_set_eq.
Qed.
Lemma get_write_ne k e v w k' e' : k <> k' \/ e <> e' -> get k' e' (write k e v w) = get k' e' w.
Proof.
  intros N. unfold get, write. destruct (w_entities w !! e) as [b |] eqn:E; [| done]. cbn [w_entities].
  destruct (decide (e = e')) as [-> | Ne].
  - rewrite lookup_insert_eq, E. apply bundle_set_ne. by destruct N.
  - by rewrite lookup_insert_ne.
Qed.
Lemma res_write k e v w r : w_res (write k e v w) r = w_res w r.
Proof. unfold write. by destruct (w_entities w !! e). Qed.
Lemma get_set_res r v w k e : get k e (set_res r v w) = get k e w.
Proof. done. Qed.
End Frame.
