(* ===== verification/SimSample.v ===== *)
(** A concrete environment for the simulation, for the theorems' witnesses: a
    counter for a random number generator, a list for the grid, taxicab vectors,
    scripted channels, and every choice the first one. *)
From S2P Require Import Prelude Domain StatSource Samples StatsApi Hydrate Recovery Float CombatTiming Space Entities.
From S2P Require Import Persist MapPort Channel Outbox Replication SimTime Motion Aoi SimTypes SimWorld.

Definition taxicab (x y : spec_float) : spec_float := f32_add (SFabs x) (SFabs y).
#[export] Instance sample_math : VectorMath :=
  {| vec_length := taxicab; vec_square_length x y := f32_mul (taxicab x y) (taxicab x y);
     vec_dot a b := f32_add (f32_mul (pos_x a) (pos_x b)) (f32_mul (pos_y a) (pos_y b));
     atan2_degrees _ _ := f32_zero; vec_cos _ := f32_of_int 1; vec_sin _ := f32_zero |}.

#[export] Instance sample_random : RandomSource :=
  {| Rng := Z;
     random_range lo hi r := (if lo <=? hi then lo + r mod (hi - lo + 1) else lo, r + 1);
     random_range_f32 lo _ r := (lo, r + 1);
     random_range_f32_inclusive lo _ r := (lo, r + 1) |}.
#[export] Instance sample_random_laws : RandomLaws.
Proof.
  split. cbn. intros lo hi r L. destruct (Z.leb_spec lo hi); [| lia].
  pose proof (Z.mod_pos_bound r (hi - lo + 1) ltac:(lia)). lia.
Qed.

#[export] Existing Instance ListGrid.list_grid.
#[export] Existing Instance ListGrid.list_grid_laws.
#[export] Instance movement_key_le_dec a b : Decision (movement_key_le a b).
Proof. unfold movement_key_le. apply _. Defined.
#[export] Instance movement_key_le_total : Total movement_key_le.
Proof. intros a b. unfold movement_key_le. lia. Qed.

#[export] Instance sample_env : SimEnv :=
  {| env_growth := Samples.sample_rng;
     env_hypot := taxicab;
     OutTx := Scripted.Channel PlayerEvent;
     PersistTx := Scripted.Channel PlayerPersistenceRequest;
     query_order _ s := elements s;
     env_sort _ l := merge_sort movement_key_le l;
     poll_reply _ _ := Recv_Empty |}.
#[export] Instance sample_env_laws : SimEnvLaws.
Proof.
  split; try apply _; intros.
  - done.
  - apply merge_sort_Permutation.
  - apply Sorted_merge_sort, _.
Qed.

(** ** A small map *)
Definition sample_proto (mob_id : MobId) : MobPrototypeDef :=
  {| mp_mob_id := mob_id; mp_mob_kind := Mob_Monster; mp_name := "Wild Dog"; mp_rank := Rank_Pawn;
     mp_battle_type := BattleMelee; mp_level := 3; mp_move_speed := 100; mp_attack_speed := 100;
     mp_aggressive_sight := 2000; mp_attack_range := 175; mp_combat_extent_m := f32_of_int 1;
     mp_combat := {| mc_strength := 5; mc_dexterity := 5; mc_vitality := 5; mc_intelligence := 5; mc_damage_min := 2;
                     mc_damage_max := 6; mc_max_hp := 126; mc_defense := 4; mc_damage_multiplier := f32_of_int 1 |};
     mp_experience := 15; mp_bhv_flags := BHV_AGGRESSIVE; mp_empire := None |}.
Definition sample_shared : SharedConfig :=
  {| sc_motion_speeds := EntityMotionSpeedTable_default; sc_mob_attack_timings := MobAttackTimingTable_default;
     sc_mobs := {[101 := sample_proto 101]}; sc_player_stats := sample_rules; sc_wander := WanderConfig_default;
     sc_mob_chat := {| strategy_type_defaults := []; strategy_mob_overrides := ∅; lines_by_mob := ∅ |} |}.
Definition sample_map (rules : list SpawnRuleDef) : MapConfig :=
  {| mcfg_map_key := {| mik_channel_id := 1; mik_map_id := "metin2_map_a1"%string; mik_instance := Instance_Shared |};
     mcfg_empire := Some Empire_Red; mcfg_local_size := {| size_width := f32_of_int 100; size_height := f32_of_int 100 |};
     mcfg_navigator := None; mcfg_spawn_rules := rules |}.
Definition sample_queue : Scripted.Channel PlayerPersistenceRequest :=
  {| Scripted.capacity := 1; Scripted.queued := 0; Scripted.log := []; Scripted.closed := false; Scripted.script := [] |}.
