(* ===== verification/SimLife.v ===== *)
(** Life and death of actors ([zohar-sim/src/runtime/life.rs]) and the facts of a
    tick ([runtime/facts.rs]): the phases of [ActorLifeComp], their timers, and the
    systems that move actors between them. *)
From S2P Require Import Prelude Domain Float Space Entities MapPort SimTime Motion SimTypes SimWorld.

Definition DYING_TO_DEAD_DELAY : SimDuration := 3000.
Definition PLAYER_RESTART_HERE_DELAY : SimDuration := 10000.
Definition PLAYER_RESTART_TOWN_DELAY : SimDuration := 7000.
Definition PLAYER_FORCED_RESPAWN_DELAY : SimDuration := 180000.
Definition MOB_CORPSE_MIN_DELAY : SimDuration := 6000.
Definition MOB_CORPSE_JITTER_MS : Z := 4000.

(** ** [ActorLifeComp] *)
Inductive RestartReadiness : Type := Ready | Waiting (retry_after : SimDuration).

Definition is_alive (phase : ActorLifePhase) : bool := match phase with Alive => true | _ => false end.
Definition is_dead (phase : ActorLifePhase) : bool := match phase with Dead _ _ _ _ _ => true | _ => false end.
Definition is_dying (phase : ActorLifePhase) : bool := match phase with Dying _ _ => true | _ => false end.
Definition can_act (phase : ActorLifePhase) : bool := is_alive phase.
Definition can_be_combat_target (phase : ActorLifePhase) : bool := negb (is_dead phase).
Definition can_take_combat_damage (phase : ActorLifePhase) : bool := is_alive phase.
Definition can_regenerate (phase : ActorLifePhase) : bool := is_alive phase.

Definition restart_readiness (now : SimInstant) (allowed_at : option SimInstant) : option RestartReadiness :=
  allowed_at ← allowed_at;
  if allowed_at <=? now then Some Ready else Some (Waiting (SimInstant_saturating_sub allowed_at now)).
Definition restart_here_allowed_at (phase : ActorLifePhase) : option SimInstant :=
  match phase with Dead _ here _ _ _ => here | _ => None end.
Definition restart_town_allowed_at (phase : ActorLifePhase) : option SimInstant :=
  match phase with Dead _ _ town _ _ => town | _ => None end.
Definition restart_here_readiness (phase : ActorLifePhase) (now : SimInstant) : option RestartReadiness :=
  restart_readiness now (restart_here_allowed_at phase).
Definition restart_town_readiness (phase : ActorLifePhase) (now : SimInstant) : option RestartReadiness :=
  restart_readiness now (restart_town_allowed_at phase).
Definition forced_respawn_due (phase : ActorLifePhase) (now : SimInstant) : bool :=
  match phase with Dead _ _ _ (Some at_) _ => at_ <=? now | _ => false end.

(** [restart] and [begin_dying]: the phase after, and whether it changed. *)
Definition life_restart (phase : ActorLifePhase) : bool * ActorLifePhase :=
  if negb (is_dead phase) then (false, phase) else (true, Alive).
Definition begin_dying (now : SimInstant) (phase : ActorLifePhase) : bool * ActorLifePhase :=
  if negb (is_alive phase) then (false, phase)
  else (true, Dying now (SimInstant_saturating_add now DYING_TO_DEAD_DELAY)).

Definition mob_cleanup_at (now : SimInstant) (entity_id : EntityId) : SimInstant :=
  let jitter := entity_id mod MOB_CORPSE_JITTER_MS in
  SimInstant_saturating_add (SimInstant_saturating_add now MOB_CORPSE_MIN_DELAY) jitter.
Definition then_some {A} (b : bool) (a : A) : option A := if b then Some a else None.
Definition death_phase (now : SimInstant) (entity_id : EntityId) (is_player is_mob : bool) : ActorLifePhase :=
  Dead now
    (then_some is_player (SimInstant_saturating_add now PLAYER_RESTART_HERE_DELAY))
    (then_some is_player (SimInstant_saturating_add now PLAYER_RESTART_TOWN_DELAY))
    (then_some is_player (SimInstant_saturating_add now PLAYER_FORCED_RESPAWN_DELAY))
    (then_some is_mob (mob_cleanup_at now entity_id)).

(** ** Appending facts *)
Definition with_life (f : LifeFacts -> LifeFacts) (x : FrameFacts) : FrameFacts :=
  {| ff_combat := ff_combat x; ff_resources_changed := ff_resources_changed x; ff_life := f (ff_life x);
     ff_despawned := ff_despawned x; ff_player_dirty := ff_player_dirty x;
     ff_stamina_timer_changed := ff_stamina_timer_changed x; ff_visuals := ff_visuals x |}.
Definition push_dying_started (a : ActorRef) (l : LifeFacts) : LifeFacts :=
  {| lf_dying_started := lf_dying_started l ++ [a]; lf_death_finalized := lf_death_finalized l;
     lf_cleanup_due := lf_cleanup_due l |}.
Definition push_death_finalized (a : ActorRef) (l : LifeFacts) : LifeFacts :=
  {| lf_dying_started := lf_dying_started l; lf_death_finalized := lf_death_finalized l ++ [a];
     lf_cleanup_due := lf_cleanup_due l |}.
Definition push_cleanup_due (a : ActorRef) (l : LifeFacts) : LifeFacts :=
  {| lf_dying_started := lf_dying_started l; lf_death_finalized := lf_death_finalized l;
     lf_cleanup_due := lf_cleanup_due l ++ [a] |}.
Definition with_combat (f : CombatFacts -> CombatFacts) (x : FrameFacts) : FrameFacts :=
  {| ff_combat := f (ff_combat x); ff_resources_changed := ff_resources_changed x; ff_life := ff_life x;
     ff_despawned := ff_despawned x; ff_player_dirty := ff_player_dirty x;
     ff_stamina_timer_changed := ff_stamina_timer_changed x; ff_visuals := ff_visuals x |}.
Definition push_damaged (d : ActorDamaged) (c : CombatFacts) : CombatFacts :=
  {| cf_damaged := cf_damaged c ++ [d]; cf_hp_depleted := cf_hp_depleted c |}.
Definition push_hp_depleted (d : ActorHpDepleted) (c : CombatFacts) : CombatFacts :=
  {| cf_damaged := cf_damaged c; cf_hp_depleted := cf_hp_depleted c ++ [d] |}.
Definition with_visuals (f : VisualFacts -> VisualFacts) (x : FrameFacts) : FrameFacts :=
  {| ff_combat := ff_combat x; ff_resources_changed := ff_resources_changed x; ff_life := ff_life x;
     ff_despawned := ff_despawned x; ff_player_dirty := ff_player_dirty x;
     ff_stamina_timer_changed := ff_stamina_timer_changed x; ff_visuals := f (ff_visuals x) |}.
Definition push_projectile_target (p : ProjectileTargetedFact) (v : VisualFacts) : VisualFacts :=
  {| vf_projectile_targets := vf_projectile_targets v ++ [p]; vf_projectile_effects := vf_projectile_effects v;
     vf_point_effects := vf_point_effects v; vf_special_effects := vf_special_effects v |}.
Definition push_projectile_effect (p : ProjectileVisualEffect) (v : VisualFacts) : VisualFacts :=
  {| vf_projectile_targets := vf_projectile_targets v; vf_projectile_effects := vf_projectile_effects v ++ [p];
     vf_point_effects := vf_point_effects v; vf_special_effects := vf_special_effects v |}.
Definition push_point_effect (p : PointVisualEffect) (v : VisualFacts) : VisualFacts :=
  {| vf_projectile_targets := vf_projectile_targets v; vf_projectile_effects := vf_projectile_effects v;
     vf_point_effects := vf_point_effects v ++ [p]; vf_special_effects := vf_special_effects v |}.
Definition push_despawned (d : ActorDespawned) (x : FrameFacts) : FrameFacts :=
  {| ff_combat := ff_combat x; ff_resources_changed := ff_resources_changed x; ff_life := ff_life x;
     ff_despawned := ff_despawned x ++ [d]; ff_player_dirty := ff_player_dirty x;
     ff_stamina_timer_changed := ff_stamina_timer_changed x; ff_visuals := ff_visuals x |}.
Definition push_resource_changed (c : ActorResourceChanged) (x : FrameFacts) : FrameFacts :=
  {| ff_combat := ff_combat x; ff_resources_changed := ff_resources_changed x ++ [c]; ff_life := ff_life x;
     ff_despawned := ff_despawned x; ff_player_dirty := ff_player_dirty x;
     ff_stamina_timer_changed := ff_stamina_timer_changed x; ff_visuals := ff_visuals x |}.
Definition push_stamina_timer (c : PlayerStaminaTimerChanged) (x : FrameFacts) : FrameFacts :=
  {| ff_combat := ff_combat x; ff_resources_changed := ff_resources_changed x; ff_life := ff_life x;
     ff_despawned := ff_despawned x; ff_player_dirty := ff_player_dirty x;
     ff_stamina_timer_changed := ff_stamina_timer_changed x ++ [c]; ff_visuals := ff_visuals x |}.
(** [PersistenceFacts::mark_player_dirty] *)
Definition facts_mark_player_dirty (player : Entity) (x : FrameFacts) : FrameFacts :=
  {| ff_combat := ff_combat x; ff_resources_changed := ff_resources_changed x; ff_life := ff_life x;
     ff_despawned := ff_despawned x;
     ff_player_dirty := if decide (player ∈ ff_player_dirty x) then ff_player_dirty x else ff_player_dirty x ++ [player];
     ff_stamina_timer_changed := ff_stamina_timer_changed x; ff_visuals := ff_visuals x |}.

Section Life.
Context `{SimEnv}.

Definition facts : Sim FrameFacts := resource R_FrameFacts.
Definition update_facts (f : FrameFacts -> FrameFacts) : Sim unit := update_resource R_FrameFacts f.
Definition reset_frame_facts : Sim unit := set_resource_ R_FrameFacts FrameFacts_default.

(** ** Readers *)
Definition life_test (test : ActorLifePhase -> bool) (absent : bool) (entity : Entity) : Sim bool :=
  life <~ entity_get K_ActorLife entity;
  done_ (match life with Some phase => test phase | None => absent end).
Definition actor_can_act : Entity -> Sim bool := life_test can_act true.
Definition actor_can_take_combat_damage : Entity -> Sim bool := life_test can_take_combat_damage true.
Definition actor_is_dying : Entity -> Sim bool := life_test is_dying false.
Definition actor_can_be_combat_target : Entity -> Sim bool := life_test can_be_combat_target true.

(** ** Dying *)
Definition stop_brain (brain : MobBrainState) : MobBrainState :=
  {| brain_mode := Brain_Idle; brain_target := None; next_attack_at := next_attack_at brain; attack_windup_until := 0;
     next_rethink_at := 0; wander_next_decision_at := wander_next_decision_at brain;
     wander_wait_until := wander_wait_until brain |}.
Definition stop_motion (now : SimInstant) (motion : MobMotionState) : MobMotionState :=
  {| mm_start_pos := mm_end_pos motion; mm_end_pos := mm_end_pos motion; mm_start_at := now; mm_end_at := now |}.
Definition stop_actor_activity_for_dying (entity : Entity) (now : SimInstant) : Sim unit :=
  alive <~ entity_alive entity;
  when alive
    (modify K_MobBrainState entity stop_brain ;;
     modify K_MobAggroQueue entity (fun _ => []) ;;
     modify K_MobMotion entity (stop_motion now)).

(** The actor is there and still answers to its id. *)
Definition actor_is_current (actor : ActorRef) : Sim bool :=
  alive <~ entity_alive (ar_entity actor);
  if negb alive then done_ false
  else
    net <~ entity_get K_NetEntityId (ar_entity actor);
    done_ (match net with Some net_id => net_id =? ar_id actor | None => false end).

Definition begin_actor_dying (actor : ActorRef) : Sim bool :=
  state <~ runtime;
  let now := sim_now state in
  current <~ actor_is_current actor;
  if negb current then done_ false
  else
    life <~ entity_get K_ActorLife (ar_entity actor);
    let_some phase := life else done_ false;
    let '(began, phase) := begin_dying now phase in
    if negb began then done_ false
    else
      sim_write K_ActorLife (ar_entity actor) phase ;;
      update_facts (with_life (push_dying_started actor)) ;;
      stop_actor_activity_for_dying (ar_entity actor) now ;;
      done_ true.

Definition process_life_events : Sim unit :=
  effects <~ facts;
  for_each (map hpd_victim (cf_hp_depleted (ff_combat effects))) (fun victim => begin_actor_dying victim ;; done_ tt).

Definition finalize_dying_actor_death (actor : ActorRef) : Sim bool :=
  state <~ runtime;
  let now := sim_now state in
  current <~ actor_is_current actor;
  if negb current then done_ false
  else
    is_player <~ entity_has K_PlayerMarker (ar_entity actor);
    is_mob <~ entity_has K_MobMarker (ar_entity actor);
    life <~ entity_get K_ActorLife (ar_entity actor);
    let_some phase := life else done_ false;
    if negb (is_dying phase) then done_ false
    else
      sim_write K_ActorLife (ar_entity actor) (death_phase now (ar_id actor) is_player is_mob) ;;
      update_facts (with_life (push_death_finalized actor)) ;;
      done_ true.

(** What a tick makes of one actor: dead now, or a corpse to clear away. *)
Inductive LifecycleStep : Type := Step_NewlyDead | Step_Cleanup | Step_None.
Definition lifecycle_step (now : SimInstant) (is_mob : bool) (phase : ActorLifePhase) : LifecycleStep :=
  match phase with
  | Dying _ dead_at => if dead_at <=? now then Step_NewlyDead else Step_None
  | Dead _ _ _ _ (Some cleanup_at) => if is_mob && (cleanup_at <=? now) then Step_Cleanup else Step_None
  | _ => Step_None
  end.

(** The loop over the query: the newly dead and those due for cleanup. *)
Definition lifecycle_visit (now : SimInstant) (found : list ActorRef * list ActorRef) (entity : Entity)
  : Sim (list ActorRef * list ActorRef) :=
  let '(newly_dead, cleanup) := found in
  net <~ query_get K_NetEntityId entity;
  life <~ query_get K_ActorLife entity;
  match net, life with
  | Some net_id, Some phase =>
      player <~ query_get K_PlayerMarker entity;
      mob <~ query_get K_MobMarker entity;
      let is_player := bool_decide (is_Some player) in
      let is_mob := bool_decide (is_Some mob) in
      let actor := {| ar_entity := entity; ar_id := net_id |} in
      match lifecycle_step now is_mob phase with
      | Step_NewlyDead =>
          sim_write K_ActorLife entity (death_phase now net_id is_player is_mob) ;;
          done_ (newly_dead ++ [actor], cleanup)
      | Step_Cleanup => done_ (newly_dead, cleanup ++ [actor])
      | Step_None => done_ (newly_dead, cleanup)
      end
  | _, _ => done_ (newly_dead, cleanup)
  end.

Definition process_actor_lifecycle : Sim unit :=
  state <~ runtime;
  entities <~ query [K_NetEntityId; K_ActorLife];
  '(newly_dead, cleanup) <~ fold_sim (lifecycle_visit (sim_now state)) entities ([], []);
  for_each newly_dead (fun actor => update_facts (with_life (push_death_finalized actor))) ;;
  for_each cleanup (fun actor => update_facts (with_life (push_cleanup_due actor))).
End Life.
