(* ===== verification/SimQuery.v ===== *)
(** Reading the world ([zohar-sim/src/runtime/spatial.rs], [spawn_payload.rs]),
    telling its players ([fanout.rs]) and changing an actor's resources
    ([actor_stats.rs]). *)
From S2P Require Import Prelude Domain Float Space Entities StatSource ActorState StatsApi CombatTiming MapPort.
From S2P Require Import Replication Outbox Channel SimTime Motion Aoi SimTypes SimWorld SimLife.

(** [f32::total_cmp(a, b).is_lt()]; the one NaN of the model is the positive one. *)
Definition f32_total_lt (a b : spec_float) : bool :=
  if f_is_nan a then false
  else if f_is_nan b then true
  else
    match SFcompare a b with
    | Some Lt => true
    | Some Eq => match a, b with S754_zero true, S754_zero false => true | _, _ => false end
    | _ => false
    end.

(** [Iterator::min_by]: the first of the least. *)
Fixpoint min_by_distance (best : option (EntityId * spec_float)) (l : list (EntityId * spec_float))
  : option (EntityId * spec_float) :=
  match l with
  | [] => best
  | c :: l =>
      min_by_distance
        (match best with
         | Some b => if f32_total_lt (snd c) (snd b) then Some c else Some b
         | None => Some c
         end) l
  end.

(** [Entity::PLACEHOLDER], which no live entity is. *)
Definition ENTITY_PLACEHOLDER : Entity := -1.

(** ** Public appearance ([spawn_payload.rs]) *)
Definition EntityPublicFlags_default : EntityPublicFlags := {| state_flags := 0; buff_flags := 0 |}.
Definition EntityPublicEquipment_default : EntityPublicEquipment :=
  {| body_part := 0; weapon_part := 0; hair_part := 0 |}.
Definition EntityPublicSocial_default : EntityPublicSocial :=
  {| guild_id := 0; rank_pts := 0; pvp_mode := 0; mount_id := 0 |}.

Definition player_public_state (a : PlayerAppearance) : EntityPublicState :=
  {| eps_equipment := {| body_part := pa_body_part a; weapon_part := 0; hair_part := 0 |};
     eps_speeds := Build_EntityPublicSpeeds (pa_move_speed a) (pa_attack_speed a);
     eps_flags := EntityPublicFlags_default;
     eps_social := {| guild_id := pa_guild_id a; rank_pts := 0; pvp_mode := 0; mount_id := 0 |} |}.

Definition mob_public_state (mob_kind : MobKind) (move_speed_ attack_speed_ : Z) : EntityPublicState :=
  {| eps_equipment := EntityPublicEquipment_default;
     eps_speeds := Build_EntityPublicSpeeds move_speed_ attack_speed_;
     eps_flags :=
       if decide (mob_kind = Mob_Stone)
       then {| state_flags := EntityStateFlags_SPAWN; buff_flags := EntityBuffFlags_SPAWN |}
       else EntityPublicFlags_default;
     eps_social := EntityPublicSocial_default |}.

Definition public_state_with_life_phase (s : EntityPublicState) (life : option ActorLifePhase) : EntityPublicState :=
  match life with
  | Some phase =>
      if is_dead phase then
        {| eps_equipment := eps_equipment s; eps_speeds := eps_speeds s;
           eps_flags := {| state_flags := Z.lor (state_flags (eps_flags s)) EntityStateFlags_DEAD;
                           buff_flags := buff_flags (eps_flags s) |};
           eps_social := eps_social s |}
      else s
  | None => s
  end.

Definition snapshot_with_life_phase (s : EntitySnapshot) (life : option ActorLifePhase) : EntitySnapshot :=
  {| es_entity_id := es_entity_id s; es_facing := es_facing s; es_pos := es_pos s; es_kind := es_kind s;
     es_public_state := public_state_with_life_phase (es_public_state s) life; es_nameplate := es_nameplate s |}.

Definition make_player_snapshot (net_id : EntityId) (pos : LocalPos) (rot : Z) (a : PlayerAppearance) : EntitySnapshot :=
  {| es_entity_id := net_id; es_facing := rot; es_pos := pos; es_kind := Entity_Player (pa_class a) (pa_gender a);
     es_public_state := player_public_state a;
     es_nameplate := Some {| plate_name := pa_name a; plate_empire := Some (pa_empire a); plate_level := pa_level a |} |}.

Section Query.
Context `{SimEnv}.

(** ** Lookups *)
Definition net_entity (entity_id : EntityId) : Sim (option Entity) :=
  index <~ resource R_NetEntityIndex; done_ (index !! entity_id).
Definition the_map : Sim (option Entity) := state <~ runtime; done_ (map_entity state).

(** [?] inside a loop over ids. *)
Definition entity_position (entity_id : EntityId) : Sim (option LocalPos) :=
  entity <~ net_entity entity_id;
  let_some entity := entity else done_ None;
  transform <~ entity_get K_LocalTransform entity;
  done_ (lt_pos <$> transform).

Definition target_combat_extent_m (target_entity : Entity) : Sim spec_float :=
  mob_ref <~ entity_get K_MobRef target_entity;
  let_some mob_id := mob_ref else done_ f32_zero;
  shared <~ resource R_Shared;
  let_some proto := sc_mobs shared !! mob_id else done_ f32_zero;
  done_ (f_max (mp_combat_extent_m proto) f32_zero).

Definition map_is_visible (map_entity : Entity) (observer target : EntityId) : Sim bool :=
  replication <~ entity_get K_MapReplication map_entity;
  done_ (match replication with Some g => is_visible observer target g | None => false end).

Definition validate_player_attack (map_entity : Entity) (attacker_net_id : EntityId) (attacker_pos : LocalPos)
    (target : EntityId) : Sim (option Entity) :=
  target_entity <~ net_entity target;
  let_some target_entity := target_entity else done_ None;
  attacker <~ net_entity attacker_net_id;
  if target_entity =? default ENTITY_PLACEHOLDER attacker then done_ None
  else
    targetable <~ actor_can_be_combat_target target_entity;
    if negb targetable then done_ None
    else
      visible <~ map_is_visible map_entity attacker_net_id target;
      if negb visible then done_ None
      else
        transform <~ entity_get K_LocalTransform target_entity;
        let_some transform := transform else done_ None;
        extent <~ target_combat_extent_m target_entity;
        let max_distance_m := f32_add PLAYER_MELEE_REACH_M extent in
        done_ (if SFleb (distance attacker_pos (lt_pos transform)) max_distance_m then Some target_entity else None).

Definition mob_pack_members (attacked_mob_entity : Entity) : Sim (list Entity) :=
  attacked_pack_id <~ entity_get K_MobPackId attacked_mob_entity;
  match attacked_pack_id with
  | Some pack_id =>
      entities <~ query [K_MobPackId];
      w <~ reads_w (fun w => w);
      done_ (List.filter (fun e => bool_decide (get K_MobPackId e w = Some pack_id)) entities)
  | None => done_ [attacked_mob_entity]
  end.

(** The candidates of [acquire_aggressive_target] with their distances. *)
Definition aggressive_candidate (current_pos : LocalPos) (found : list (EntityId * spec_float)) (candidate : EntityId)
  : Sim (list (EntityId * spec_float)) :=
  entity <~ net_entity candidate;
  let_some entity := entity else done_ found;
  marker <~ entity_get K_PlayerMarker entity;
  let_some _player := marker else done_ found;
  transform <~ entity_get K_LocalTransform entity;
  let_some transform := transform else done_ found;
  done_ (found ++ [(candidate, distance current_pos (lt_pos transform))]).

Definition acquire_aggressive_target (map_entity : Entity) (current_pos : LocalPos) (proto : MobPrototypeDef)
  : Sim (option EntityId) :=
  if negb (bhv_contains (mp_bhv_flags proto) BHV_AGGRESSIVE) then done_ None
  else
    let sight_m := f32_div (f32_of_int (mp_aggressive_sight proto)) (f32_of_int 100) in
    if SFleb sight_m f32_zero then done_ None
    else
      spatial <~ entity_get K_MapSpatial map_entity;
      let_some spatial := spatial else done_ None;
      ids <~ unwrap (query_in_radius current_pos sight_m spatial);
      found <~ fold_sim (aggressive_candidate current_pos) ids [];
      done_ (fst <$> min_by_distance None found).

Definition player_position (entity_id : EntityId) (packet_ts : Z) : Sim (option LocalPos) :=
  entity <~ net_entity entity_id;
  let_some entity := entity else done_ None;
  marker <~ entity_get K_PlayerMarker entity;
  let_some _player := marker else done_ None;
  transform <~ entity_get K_LocalTransform entity;
  let_some transform := transform else done_ None;
  motion <~ entity_get K_PlayerMotion entity;
  let motion :=
    default {| pm_start_pos := lt_pos transform; pm_end_pos := lt_pos transform; pm_start_ts := packet_ts;
               pm_end_ts := packet_ts; pm_last_client_ts := 0 |} motion in
  done_ (Some (sample_player_visual_position_at motion packet_ts)).

Definition chase_target_position (current_pos : LocalPos) (entity_id : EntityId) (packet_ts : Z) (mob_id : MobId)
    (mob_move_speed : Z) (battle_type : MobBattleType) (shared : SharedConfig) : Sim (option LocalPos) :=
  target_pos <~ player_position entity_id packet_ts;
  let_some target_pos := target_pos else done_ None;
  entity <~ net_entity entity_id;
  let_some entity := entity else done_ None;
  motion <~ entity_get K_PlayerMotion entity;
  let_some motion := motion else done_ None;
  match battle_type with
  | BattleRange | BattleMagic => done_ (Some target_pos)
  | _ =>
      done_ (Some (default target_pos
        (predict_moving_target_position (sc_motion_speeds shared) current_pos target_pos motion packet_ts mob_id
           mob_move_speed)))
  end.

Definition sampled_mob_position (mob_entity : Entity) (now : SimInstant) : Sim (option LocalPos) :=
  transform <~ entity_get K_LocalTransform mob_entity;
  let_some transform := transform else done_ None;
  motion <~ entity_get K_MobMotion mob_entity;
  done_ (Some (match motion with Some m => sample_mob_motion_at m now | None => lt_pos transform end)).

Definition mob_movement_in_flight (mob_entity : Entity) (now : SimInstant) : Sim bool :=
  motion <~ entity_get K_MobMotion mob_entity;
  done_ (match motion with
         | Some m => (now <? mm_end_at m) && negb (pos_eq (mm_end_pos m) (mm_start_pos m))
         | None => false
         end).

(** The system that moves every mob's transform to where its segment has it. *)
Definition mob_motion_update (now : SimInstant) (w : World) (e : Entity) : option (EntityId * LocalPos) :=
  net_id ← get K_NetEntityId e w;
  motion ← get K_MobMotion e w;
  transform ← get K_LocalTransform e w;
  let sampled_pos := sample_mob_motion_at motion now in
  if negb (pos_eq sampled_pos (lt_pos transform)) then Some (net_id, sampled_pos) else None.

Definition set_pos (pos : LocalPos) (t : LocalTransform) : LocalTransform := {| lt_pos := pos; lt_rot := lt_rot t |}.

Definition sample_mob_motion : Sim unit :=
  state <~ runtime;
  let_some map_entity := map_entity state else done_ tt;
  entities <~ query [K_NetEntityId; K_MobMotion; K_LocalTransform];
  updates <~ reads_w (fun w => omap (mob_motion_update (sim_now state) w) entities);
  if bool_decide (updates = []) then done_ tt
  else
    net_index <~ resource R_NetEntityIndex;
    for_each updates (fun '(net_id, sampled_pos) =>
      let_some entity := net_index !! net_id else done_ tt;
      modify K_LocalTransform entity (set_pos sampled_pos)) ;;
    modify K_MapSpatial map_entity (fun spatial =>
      fold_left (fun spatial '(net_id, sampled_pos) => si_update_position net_id sampled_pos spatial) updates spatial) ;;
    mark_map_dirty.

(** ** Telling players ([fanout.rs]) *)
Inductive ActorAudience : Type := Audience_Observers | Audience_ViewAndSelf.

Definition outbox_push (player_entity : Entity) (event : PlayerEvent) : Sim unit :=
  modify K_PlayerOutbox player_entity (push_reliable event).

(** [sort_unstable_by_key] and [dedup] of ids. *)
Definition sort_ids (ids : list EntityId) : list EntityId := merge_sort Z.le ids.
Fixpoint dedup_ids (ids : list EntityId) : list EntityId :=
  match ids with
  | a :: ((b :: _) as rest) => if a =? b then dedup_ids rest else a :: dedup_ids rest
  | _ => ids
  end.

Definition actor_audience_recipients (actor_id : EntityId) (audience : ActorAudience) : Sim (list Entity) :=
  map_entity <~ the_map;
  let_some map_entity := map_entity else done_ [];
  replication <~ entity_get K_MapReplication map_entity;
  let recipient_ids := match replication with Some g => observers_for actor_id g | None => [] end in
  let recipient_ids :=
    match audience with Audience_ViewAndSelf => recipient_ids ++ [actor_id] | Audience_Observers => recipient_ids end in
  net_index <~ resource R_NetEntityIndex;
  done_ (omap (fun recipient_id => net_index !! recipient_id) (dedup_ids (sort_ids recipient_ids))).

Definition broadcast_actor_event (actor_id : EntityId) (audience : ActorAudience) (make_event : EntityId -> PlayerEvent)
  : Sim unit :=
  recipients <~ actor_audience_recipients actor_id audience;
  for_each recipients (fun player_entity => outbox_push player_entity (make_event actor_id)).

(** ** Snapshots of the world's actors *)
Definition map_empire : Sim (option Empire) :=
  map_entity <~ the_map;
  let_some map_entity := map_entity else done_ None;
  emp <~ entity_get K_MapEmpire map_entity;
  done_ (match emp with Some e => e | None => None end).

(** [format!("[{}] {}", id, name)] (decimal digits). *)
Definition npc_name (net_id : EntityId) (name : string) : string := ("[" ++ pretty.pretty net_id ++ "] " ++ name)%string.

Definition make_entity_snapshot (shared : SharedConfig) (target_id : EntityId) : Sim (option EntitySnapshot) :=
  target_entity <~ net_entity target_id;
  let_some target_entity := target_entity else done_ None;
  player <~ entity_get K_PlayerMarker target_entity;
  net_id <~ entity_get K_NetEntityId target_entity;
  transform <~ entity_get K_LocalTransform target_entity;
  appearance <~ entity_get K_PlayerAppearance target_entity;
  life <~ entity_get K_ActorLife target_entity;
  match player, net_id, transform, appearance with
  | Some _, Some net_id, Some transform, Some appearance =>
      done_ (Some (snapshot_with_life_phase
        (make_player_snapshot net_id (lt_pos transform) (lt_rot transform) appearance) life))
  | _, _, _, _ =>
      mob_ref <~ entity_get K_MobRef target_entity;
      let_some mob_id := mob_ref else done_ None;
      let_some transform := transform else done_ None;
      let_some net_id := net_id else done_ None;
      let_some proto := sc_mobs shared !! mob_id else done_ None;
      nameplate <~
        (if decide (mp_mob_kind proto = Mob_Npc) then
           map_empire <~ map_empire;
           done_ (Some {| plate_name := npc_name net_id (mp_name proto);
                          plate_empire := match mp_empire proto with Some e => Some e | None => map_empire end;
                          plate_level := 0 |})
         else done_ None);
      done_ (Some {| es_entity_id := net_id; es_facing := lt_rot transform; es_pos := lt_pos transform;
                     es_kind := Entity_Mob mob_id (mp_mob_kind proto);
                     es_public_state :=
                       public_state_with_life_phase
                         (mob_public_state (mp_mob_kind proto) (mp_move_speed proto) (mp_attack_speed proto)) life;
                     es_nameplate := nameplate |})
  end.

Definition make_entity_public_state (shared : SharedConfig) (target_id : EntityId) : Sim (option EntityPublicState) :=
  target_entity <~ net_entity target_id;
  let_some target_entity := target_entity else done_ None;
  appearance <~ entity_get K_PlayerAppearance target_entity;
  life <~ entity_get K_ActorLife target_entity;
  match appearance with
  | Some a => done_ (Some (public_state_with_life_phase (player_public_state a) life))
  | None =>
      mob_ref <~ entity_get K_MobRef target_entity;
      let_some mob_id := mob_ref else done_ None;
      let_some proto := sc_mobs shared !! mob_id else done_ None;
      done_ (Some (public_state_with_life_phase
        (mob_public_state (mp_mob_kind proto) (mp_move_speed proto) (mp_attack_speed proto)) life))
  end.

(** ** Resources of an actor ([actor_stats.rs]) *)

(** [with_api_mut] on a component: the closure's panic, its state and its result. *)
Definition stats_api {T} (k : CompKind) (runtime_of : comp k -> ActorStatsRuntime) (wrap : ActorStatsRuntime -> comp k)
    (e : Entity) (stats : comp k)
    (f : ActorStatSource -> ActorStatState unit unit -> option (ActorStatState unit unit * T)) : Sim T :=
  '(stats, t) <~ unwrap (with_api_mut f (runtime_of stats));
  sim_write k e (wrap stats) ;; done_ t.
Definition player_stats_api {T} := @stats_api T K_PlayerStats (fun s => s) (fun s => s).
Definition mob_stats_api {T} := @stats_api T K_MobStats (fun s => s) (fun s => s).

(** The trait [StatsComp]: a component that holds an actor's stats. *)
Inductive StatsComp : Type := Stats_Player | Stats_Mob.
Definition stats_kind (c : StatsComp) : CompKind := match c with Stats_Player => K_PlayerStats | Stats_Mob => K_MobStats end.
Definition stats_comp_api {T} (c : StatsComp) : Entity -> comp (stats_kind c) ->
    (ActorStatSource -> ActorStatState unit unit -> option (ActorStatState unit unit * T)) -> Sim T :=
  match c with Stats_Player => player_stats_api | Stats_Mob => mob_stats_api end.

Definition apply_resource_inner (c : StatsComp) (entity : Entity) (application : ResourceApplication)
  : Sim (result (option ResourceApplicationResult) StatWriteError) :=
  stats <~ entity_get (stats_kind c) entity;
  let_some stats := stats else done_ (Ok None);
  r <~ stats_comp_api c entity stats (fun _ => apply_resource application);
  done_ (match r with Ok result => Ok (Some result) | Err e => Err e end).

Definition apply_resource_of (c : StatsComp) (actor : ActorRef) (application : ResourceApplication)
  : Sim (result (option ResourceApplicationResult) StatWriteError) :=
  r <~ apply_resource_inner c (ar_entity actor) application;
  match r with
  | Ok (Some result) =>
      when (negb (rr_is_noop result))
        (update_facts (push_resource_changed
           {| arc_actor := actor; arc_stat := rr_stat result; arc_previous := rr_previous result;
              arc_current := rr_current result |})) ;;
      done_ r
  | _ => done_ r
  end.

Definition apply_actor_resource (actor : ActorRef) (application : ResourceApplication)
  : Sim (result (option ResourceApplicationResult) StatWriteError) :=
  is_player <~ entity_has K_PlayerStats (ar_entity actor);
  if is_player then apply_resource_of Stats_Player actor application
  else
    is_mob <~ entity_has K_MobStats (ar_entity actor);
    if is_mob then apply_resource_of Stats_Mob actor application
    else done_ (Ok None).
End Query.
