(* ===== verification/SimAction.v ===== *)
(** Actions ([zohar-sim/src/runtime/action/plan.rs], [apply.rs]) and the schedule
    of attack damage (the first part of [combat.rs]): how an intent or a mob's
    decision becomes an action, and what applying it does. *)
From S2P Require Import Prelude Domain Float Space Entities StatsApi CombatTiming MapPort Replication Outbox Channel.
From S2P Require Import SimTime Motion Aoi SimTypes SimWorld SimLife SimQuery.

Definition PacketDuration_ZERO : Z := 0.
Definition MovementArg_ZERO : Z := 0.

Definition command_attacker (c : AttackCommand) : Entity :=
  match c with PlayerBasicAttack attacker _ | MobBasicAttack attacker _ => attacker end.
Definition command_victim (c : AttackCommand) : Entity :=
  match c with PlayerBasicAttack _ victim | MobBasicAttack _ victim => victim end.

(** [resolve_mob_follow_up] *)
Definition set_next_rethink (at_ : SimInstant) (b : MobBrainState) : MobBrainState :=
  {| brain_mode := brain_mode b; brain_target := brain_target b; next_attack_at := next_attack_at b;
     attack_windup_until := attack_windup_until b; next_rethink_at := at_;
     wander_next_decision_at := wander_next_decision_at b; wander_wait_until := wander_wait_until b |}.
Definition resolve_mob_follow_up (next_brain : MobBrainState) (completion : MobActionCompletion) (now : SimInstant)
    (action_duration : Z) : MobBrainState :=
  match completion with
  | Completion_None => next_brain
  | RethinkAtActionEnd => set_next_rethink (SimInstant_saturating_add now action_duration) next_brain
  | RethinkAtActionEndOrDelay max_delay_ms =>
      set_next_rethink (SimInstant_saturating_add now (Z.min action_duration max_delay_ms)) next_brain
  | IdleWander post_move_pause_ms =>
      let movement_end := SimInstant_saturating_add now action_duration in
      {| brain_mode := brain_mode next_brain; brain_target := brain_target next_brain;
         next_attack_at := next_attack_at next_brain; attack_windup_until := attack_windup_until next_brain;
         next_rethink_at := next_rethink_at next_brain;
         wander_next_decision_at := SimInstant_saturating_add movement_end post_move_pause_ms;
         wander_wait_until := Some movement_end |}
  end.

(** The motion a move packet starts: a segment, or a stop at its end. *)
Definition player_move_motion (kind : MovementKind) (old_pos end_pos : LocalPos) (ts duration : Z) : PlayerMotionState :=
  if bool_decide (kind = Kind_Move) && (0 <? duration) then
    {| pm_start_pos := old_pos; pm_end_pos := end_pos; pm_start_ts := ts;
       pm_end_ts := ClientTimestamp_saturating_add ts duration; pm_last_client_ts := ts |}
  else
    {| pm_start_pos := end_pos; pm_end_pos := end_pos; pm_start_ts := ts; pm_end_ts := ts; pm_last_client_ts := ts |}.

Section Action.
Context `{SimEnv}.

(** ** Planning *)
Definition build_player_move_action (shared : SharedConfig) (map_size : LocalSize) (player_entity : Entity)
    (player_id : PlayerId) (kind : MovementKind) (arg rot : Z) (target : LocalPos) (ts : Z) : Sim (option Action) :=
  entity_id <~ entity_get K_NetEntityId player_entity;
  let_some entity_id := entity_id else done_ None;
  transform <~ entity_get K_LocalTransform player_entity;
  let_some transform := transform else done_ None;
  player_motion <~ entity_get K_PlayerMotion player_entity;
  let_some player_motion := player_motion else done_ None;
  appearance <~ entity_get K_PlayerAppearance player_entity;
  let_some appearance := appearance else done_ None;
  animation <~ entity_get K_PlayerMovementAnimation player_entity;
  let movement_animation := default Run animation in
  let old_pos := sample_player_motion_state_at (lt_pos transform) player_motion ts in
  let requested_pos := sanitize_packet_target old_pos target in
  end_pos <~ unwrap (sanitize_player_target_to_map requested_pos map_size);
  let duration :=
    if decide (kind = Kind_Move) then
      calculate_move_duration_ms (sc_motion_speeds shared) appearance movement_animation old_pos end_pos
    else PacketDuration_ZERO in
  done_ (Some (Action_PlayerMotion player_entity player_id entity_id kind arg rot end_pos ts duration
                 (player_move_motion kind old_pos end_pos ts duration))).

Definition build_player_attack_action (player_entity : Entity) (target : EntityId) (target_entity : Entity)
    (attack : AttackIntent) : Sim (option Action) :=
  state <~ runtime;
  entity_id <~ entity_get K_NetEntityId player_entity;
  let_some entity_id := entity_id else done_ None;
  transform <~ entity_get K_LocalTransform player_entity;
  let_some transform := transform else done_ None;
  target_pos <~ entity_position target;
  let rot :=
    match target_pos with
    | Some target_pos => rotation_from_delta (lt_pos transform) target_pos (lt_rot transform)
    | None => lt_rot transform
    end in
  done_ (Some (Action_PlayerAttack player_entity entity_id target_entity (lt_pos transform) rot attack
                 (packet_now state) 600)).

Definition build_mob_move_action (mob_entity : Entity) (kind : MovementKind) (destination face_to : LocalPos)
    (next_brain : MobBrainState) (completion : MobActionCompletion) : Sim (option Action) :=
  state <~ runtime;
  let now := sim_now state in
  shared <~ resource R_Shared;
  entity_id <~ entity_get K_NetEntityId mob_entity;
  let_some entity_id := entity_id else done_ None;
  mob_ref <~ entity_get K_MobRef mob_entity;
  let_some mob_id := mob_ref else done_ None;
  transform <~ entity_get K_LocalTransform mob_entity;
  let_some transform := transform else done_ None;
  start_pos <~ sampled_mob_position mob_entity now;
  let_some start_pos := start_pos else done_ None;
  let rot := rotation_from_delta start_pos face_to (lt_rot transform) in
  let duration :=
    calculate_mob_duration (sc_motion_speeds shared) mob_id kind start_pos destination
      (match sc_mobs shared !! mob_id with Some proto => mp_move_speed proto | None => 0 end) in
  let_some duration := duration else done_ None;
  done_ (Some (Action_MobMotion mob_entity entity_id (snap_local_to_wire_cm start_pos)
                 (snap_local_to_wire_cm destination) rot kind (packet_now state) duration
                 (resolve_mob_follow_up next_brain completion now duration))).

Definition build_mob_attack_action (mob_entity : Entity) (target : EntityId) (face_to : LocalPos)
    (windup_duration_ms : Z) (damage_schedule : AttackDamageSchedule) (set_projectile_target : bool)
    (next_brain : MobBrainState) (completion : MobActionCompletion) : Sim (option Action) :=
  state <~ runtime;
  let now := sim_now state in
  entity_id <~ entity_get K_NetEntityId mob_entity;
  let_some entity_id := entity_id else done_ None;
  target_entity <~ net_entity target;
  let_some target_entity := target_entity else done_ None;
  start_pos <~ sampled_mob_position mob_entity now;
  let_some start_pos := start_pos else done_ None;
  transform <~ entity_get K_LocalTransform mob_entity;
  let_some transform := transform else done_ None;
  let rot := rotation_from_delta start_pos face_to (lt_rot transform) in
  done_ (Some (Action_MobAttack mob_entity entity_id target_entity (snap_local_to_wire_cm start_pos) rot
                 (packet_now state) windup_duration_ms damage_schedule set_projectile_target
                 (resolve_mob_follow_up next_brain completion now windup_duration_ms))).

(** ** Scheduling damage *)
Definition schedule_attack_damage (now : SimInstant) (command : AttackCommand) (schedule : AttackDamageSchedule)
  : Sim unit :=
  match schedule with
  | Schedule_Immediate => update_resource R_AttackCommands (fun l => l ++ [command])
  | Schedule_Delayed delay =>
      update_resource R_DelayedAttacks (fun l =>
        l ++ [{| dac_due_at := SimInstant_saturating_add now delay; dac_kind := Delayed_Resolve command |}])
  | Schedule_Projectile release_delay flight =>
      update_resource R_DelayedAttacks (fun l =>
        l ++ [{| dac_due_at := SimInstant_saturating_add now release_delay;
                 dac_kind := Delayed_ReleaseProjectile command flight |}])
  end.

(** ** Applying *)
Definition mark_player_dirty (player_entity : Entity) : Sim unit :=
  update_facts (facts_mark_player_dirty player_entity).
Definition set_mob_brain (mob_entity : Entity) (next_brain : MobBrainState) : Sim unit :=
  modify K_MobBrainState mob_entity (fun _ => next_brain).
Definition push_pending_movement (map_entity : Entity) (movement : PendingMovement) : Sim unit :=
  modify K_MapPendingMovements map_entity (fun pending => pending ++ [movement]).
Definition apply_mob_motion_state (mob_entity : Entity) (now : SimInstant) (start_pos end_pos : LocalPos) (duration : Z)
  : Sim unit :=
  modify K_MobMotion mob_entity (fun _ =>
    {| mm_start_pos := start_pos; mm_end_pos := end_pos; mm_start_at := now;
       mm_end_at := SimInstant_saturating_add now duration |}).

Definition set_movement_start (now : SimInstant) (a : PlayerActivityComp) : PlayerActivityComp :=
  {| last_movement_start_at := Some now; last_attack_at := last_attack_at a;
     last_walk_started_at := last_walk_started_at a; preferred_movement_animation := preferred_movement_animation a |}.
Definition set_last_attack (now : SimInstant) (a : PlayerActivityComp) : PlayerActivityComp :=
  {| last_movement_start_at := last_movement_start_at a; last_attack_at := Some now;
     last_walk_started_at := last_walk_started_at a; preferred_movement_animation := preferred_movement_animation a |}.
Definition place (pos : LocalPos) (rot : Z) (_ : LocalTransform) : LocalTransform := {| lt_pos := pos; lt_rot := rot |}.
Definition set_rot (rot : Z) (t : LocalTransform) : LocalTransform := {| lt_pos := lt_pos t; lt_rot := rot |}.

Definition apply_player_motion (map_entity player_entity : Entity) (player_id : PlayerId) (entity_id : EntityId)
    (kind : MovementKind) (arg rot : Z) (end_pos : LocalPos) (ts duration : Z) (motion : PlayerMotionState)
  : Sim (option PendingMovement) :=
  state <~ runtime;
  let now := sim_now state in
  modify K_LocalTransform player_entity (place end_pos rot) ;;
  modify K_PlayerMotion player_entity (fun _ => motion) ;;
  modify K_PlayerActivity player_entity (set_movement_start now) ;;
  modify K_MapSpatial map_entity (si_update_position entity_id end_pos) ;;
  mark_player_dirty player_entity ;;
  done_ (Some {| pmv_mover_player_id := Some player_id; pmv_entity_id := entity_id; pmv_new_pos := end_pos;
                 pmv_kind := kind; pmv_reliable := false; pmv_arg := arg; pmv_rot := rot; pmv_ts := ts;
                 pmv_duration := duration |}).

Definition apply_player_attack (player_entity : Entity) (entity_id : EntityId) (target_entity : Entity) (pos : LocalPos)
    (rot ts duration : Z) : Sim PendingMovement :=
  state <~ runtime;
  let now := sim_now state in
  modify K_LocalTransform player_entity (set_rot rot) ;;
  modify K_PlayerActivity player_entity (set_last_attack now) ;;
  update_resource R_AttackCommands (fun l => l ++ [PlayerBasicAttack player_entity target_entity]) ;;
  marker <~ entity_get K_PlayerMarker player_entity;
  player_id <~ unwrap marker;
  done_ {| pmv_mover_player_id := Some player_id; pmv_entity_id := entity_id; pmv_new_pos := pos;
           pmv_kind := Kind_Attack; pmv_reliable := true; pmv_arg := MovementArg_basic_attack; pmv_rot := rot;
           pmv_ts := ts; pmv_duration := duration |}.

Definition apply_mob_motion (map_entity : Entity) (now : SimInstant) (mob_entity : Entity) (entity_id : EntityId)
    (start_pos end_pos : LocalPos) (rot : Z) (kind : MovementKind) (ts duration : Z) (next_brain : MobBrainState)
  : Sim PendingMovement :=
  modify K_LocalTransform mob_entity (place start_pos rot) ;;
  apply_mob_motion_state mob_entity now start_pos end_pos duration ;;
  modify K_MapSpatial map_entity (si_update_position entity_id start_pos) ;;
  set_mob_brain mob_entity next_brain ;;
  done_ {| pmv_mover_player_id := None; pmv_entity_id := entity_id; pmv_new_pos := end_pos; pmv_kind := kind;
           pmv_reliable := false; pmv_arg := MovementArg_ZERO; pmv_rot := rot; pmv_ts := ts; pmv_duration := duration |}.

Definition apply_mob_attack (map_entity : Entity) (now : SimInstant) (mob_entity : Entity) (entity_id : EntityId)
    (pos : LocalPos) (rot ts duration : Z) (damage_schedule : AttackDamageSchedule) (set_projectile_target : bool)
    (next_brain : MobBrainState) (target_entity : Entity) : Sim PendingMovement :=
  modify K_LocalTransform mob_entity (place pos rot) ;;
  apply_mob_motion_state mob_entity now pos pos PacketDuration_ZERO ;;
  modify K_MapSpatial map_entity (si_update_position entity_id pos) ;;
  set_mob_brain mob_entity next_brain ;;
  attacker_id <~ entity_get K_NetEntityId mob_entity;
  victim_id <~ entity_get K_NetEntityId target_entity;
  match set_projectile_target, attacker_id, victim_id with
  | true, Some attacker_id, Some victim_id =>
      update_facts (with_visuals (push_projectile_target
        {| ptf_caster := {| ar_entity := mob_entity; ar_id := attacker_id |};
           ptf_target := {| ar_entity := target_entity; ar_id := victim_id |} |}))
  | _, _, _ => done_ tt
  end ;;
  schedule_attack_damage now (MobBasicAttack mob_entity target_entity) damage_schedule ;;
  done_ {| pmv_mover_player_id := None; pmv_entity_id := entity_id; pmv_new_pos := pos; pmv_kind := Kind_Attack;
           pmv_reliable := true; pmv_arg := MovementArg_basic_attack; pmv_rot := rot; pmv_ts := ts;
           pmv_duration := duration |}.

(** What an action does: the movement to announce, if any, and whether the map
    changed. *)
Definition action_effect (map_entity : Entity) (now : SimInstant) (action : Action) : Sim (option PendingMovement * bool) :=
  match action with
  | Action_PlayerMotion player_entity player_id entity_id kind arg rot end_pos ts duration motion =>
      can <~ actor_can_act player_entity;
      if negb can then done_ (None, false)
      else
        movement <~ apply_player_motion map_entity player_entity player_id entity_id kind arg rot end_pos ts duration motion;
        done_ (movement, true)
  | Action_PlayerAttack player_entity entity_id target_entity pos rot _attack ts duration =>
      can <~ actor_can_act player_entity;
      if negb can then done_ (None, false)
      else
        movement <~ apply_player_attack player_entity entity_id target_entity pos rot ts duration;
        done_ (Some movement, false)
  | Action_MobMotion mob_entity entity_id start_pos end_pos rot kind ts duration next_brain =>
      can <~ actor_can_act mob_entity;
      if negb can then done_ (None, false)
      else
        movement <~ apply_mob_motion map_entity now mob_entity entity_id start_pos end_pos rot kind ts duration next_brain;
        done_ (Some movement, true)
  | Action_MobAttack mob_entity entity_id target_entity pos rot ts duration damage_schedule set_projectile_target next_brain =>
      can <~ actor_can_act mob_entity;
      targetable <~ (if can then actor_can_be_combat_target target_entity else done_ false);
      if negb can || negb targetable then
        set_mob_brain mob_entity MobBrainState_default ;; done_ (None, false)
      else
        movement <~ apply_mob_attack map_entity now mob_entity entity_id pos rot ts duration damage_schedule
                      set_projectile_target next_brain target_entity;
        done_ (Some movement, true)
  end.

Definition apply_action (action : Action) : Sim unit :=
  state <~ runtime;
  let_some map_entity := map_entity state else done_ tt;
  '(movement, dirty) <~ action_effect map_entity (sim_now state) action;
  when dirty mark_map_dirty ;;
  match movement with Some movement => push_pending_movement map_entity movement | None => done_ tt end.

Definition process_actions : Sim unit :=
  actions <~ resource R_ActionBuffer;
  set_resource_ R_ActionBuffer [] ;;
  for_each actions apply_action.
End Action.
