(* ===== verification/SimCombat.v ===== *)
(** Attacks ([zohar-sim/src/runtime/combat.rs]): releasing what is due, resolving
    each command against the actors as they are now, and the damage done. *)
From S2P Require Import Prelude Domain StatSource ActorState StatsApi Float Combat CombatTiming Space Entities.
From S2P Require Import MapPort Channel Outbox Replication SimTime Motion Aoi SimTypes SimWorld SimLife SimQuery.
From S2P Require Import SimAction.

Definition PLACEHOLDER_PLAYER_DAMAGE_MIN : Z := 8.
Definition PLACEHOLDER_PLAYER_DAMAGE_MAX : Z := 12.

Inductive DamageRoll : Type := PlaceholderPlayerWeapon | MobPrototype_roll (combat : MobCombatStats).
Record CombatantSnapshot : Type := { cb_actor : ActorRef; cb_stats : CombatStats; cb_damage_roll : DamageRoll }.
Record ResolvedHit : Type := { hit_damage : Z; hit_flags : Z }.
Record CombatOutcome : Type := { co_attacker : CombatantSnapshot; co_victim : CombatantSnapshot; co_hit : ResolvedHit }.

Definition resolve_normal_hit (input : NormalHitInput) : ResolvedHit :=
  {| hit_damage := damage (normal_hit_damage input); hit_flags := HitFlags_NORMAL |}.

Definition delayed_due (now : SimInstant) (d : DelayedAttackCommand) : bool := dac_due_at d <=? now.

(** [None] when a limited read panics. *)
Definition combat_stats_from_runtime (runtime : ActorStatsRuntime) : option CombatStats :=
  level ← runtime_read_limited runtime Stat.Level;
  dx ← runtime_read_limited runtime Stat.Dx;
  att ← runtime_read_limited runtime Stat.AttGrade;
  def ← runtime_read_limited runtime Stat.DefGrade;
  Some {| cs_level := level; cs_dx := dx; Combat.attack_grade := att; defence_grade := def |}.

Section Combat.
Context `{SimEnv}.

(** [AttackCommand::live_entities] *)
Definition command_live (command : AttackCommand) (w : World) : bool :=
  contains (command_attacker command) w && contains (command_victim command) w.
Definition live_entities (command : AttackCommand) : Sim bool := reads_w (command_live command).

Definition enqueue_live_attack_command (command : AttackCommand) : Sim unit :=
  live <~ live_entities command;
  when live (update_resource R_AttackCommands (fun l => l ++ [command])).

Definition combat_distance (a b : LocalPos) : spec_float :=
  env_hypot (f32_sub (pos_x a) (pos_x b)) (f32_sub (pos_y a) (pos_y b)).
Definition actor_distance (command : AttackCommand) : Sim (option spec_float) :=
  a <~ entity_get K_LocalTransform (command_attacker command);
  let_some a := a else done_ None;
  b <~ entity_get K_LocalTransform (command_victim command);
  let_some b := b else done_ None;
  done_ (Some (combat_distance (lt_pos a) (lt_pos b))).
Definition projectile_travel_delay (command : AttackCommand) (flight : FlyTiming) : Sim SimDuration :=
  distance_m <~ actor_distance command;
  done_ (projectile_travel_ms (default f32_zero distance_m) flight).

(** One command that is due: its damage now, or a projectile on its way. *)
Definition release_due (now : SimInstant) (scheduled : DelayedAttackCommand) : Sim unit :=
  match dac_kind scheduled with
  | Delayed_Resolve command => enqueue_live_attack_command command
  | Delayed_ReleaseProjectile command flight =>
      live <~ live_entities command;
      if negb live then done_ tt
      else
        travel <~ projectile_travel_delay command flight;
        let impact := SimInstant_saturating_add (dac_due_at scheduled) travel in
        if impact <=? now then enqueue_live_attack_command command
        else update_resource R_DelayedAttacks (fun l => l ++ [{| dac_due_at := impact; dac_kind := Delayed_Resolve command |}])
  end.

Definition release_due_attack_commands : Sim unit :=
  state <~ runtime;
  let now := sim_now state in
  delayed <~ resource R_DelayedAttacks;
  set_resource_ R_DelayedAttacks (List.filter (fun d => negb (delayed_due now d)) delayed) ;;
  for_each (List.filter (delayed_due now) delayed) (release_due now).

Definition mob_combat_stats (mob_entity : Entity) : Sim (option MobCombatStats) :=
  mob_ref <~ entity_get K_MobRef mob_entity;
  shared <~ resource R_Shared;
  done_ (mob_id ← mob_ref; proto ← sc_mobs shared !! mob_id; Some (mp_combat proto)).

Definition combatant_snapshot (entity : Entity) : Sim (option CombatantSnapshot) :=
  id <~ entity_get K_NetEntityId entity;
  let_some id := id else done_ None;
  let actor := {| ar_entity := entity; ar_id := id |} in
  player_stats <~ entity_get K_PlayerStats entity;
  match player_stats with
  | Some stats =>
      combat <~ unwrap (combat_stats_from_runtime stats);
      done_ (Some {| cb_actor := actor; cb_stats := combat; cb_damage_roll := PlaceholderPlayerWeapon |})
  | None =>
      mob_stats <~ entity_get K_MobStats entity;
      let_some stats := mob_stats else done_ None;
      combat <~ unwrap (combat_stats_from_runtime stats);
      proto_combat <~ mob_combat_stats entity;
      let_some proto_combat := proto_combat else done_ None;
      done_ (Some {| cb_actor := actor; cb_stats := combat; cb_damage_roll := MobPrototype_roll proto_combat |})
  end.

Definition roll_damage (damage_min damage_max : Z) : Sim DamageRolls :=
  weapon <~ with_random (random_range (Z.min damage_min damage_max) (Z.max damage_min damage_max));
  low <~ with_random (random_range 1 5);
  done_ {| weapon_or_mob_damage := weapon; low_damage_fallback := low |}.

Definition normal_hit_input (attacker victim : CombatantSnapshot) : Sim NormalHitInput :=
  rolls <~ (match cb_damage_roll attacker with
            | PlaceholderPlayerWeapon => roll_damage PLACEHOLDER_PLAYER_DAMAGE_MIN PLACEHOLDER_PLAYER_DAMAGE_MAX
            | MobPrototype_roll combat =>
                roll_damage (Z.max (mc_damage_min combat) 0)
                  (Z.max (Z.max (mc_damage_max combat) (mc_damage_min combat)) 0)
            end);
  let input := unmodified (cb_stats attacker) (cb_stats victim) rolls in
  done_ (match cb_damage_roll attacker with
         | MobPrototype_roll combat =>
             {| Combat.attacker := Combat.attacker input; Combat.victim := Combat.victim input;
                Combat.rolls := Combat.rolls input; refine_bonus := refine_bonus input;
                party_attacker_bonus := party_attacker_bonus input; attack_bonus_pct := attack_bonus_pct input;
                melee_magic_attack_bonus_pct := melee_magic_attack_bonus_pct input;
                defence_bonus_pct := defence_bonus_pct input;
                damage_multiplier := f_max (mc_damage_multiplier combat) f32_zero;
                ignore_defence := ignore_defence input; ignore_target_rating := ignore_target_rating input |}
         | PlaceholderPlayerWeapon => input
         end).

Definition resolve_attack_command (command : AttackCommand) : Sim (option CombatOutcome) :=
  can <~ actor_can_act (command_attacker command);
  vulnerable <~ (if can then actor_can_take_combat_damage (command_victim command) else done_ false);
  if negb can || negb vulnerable then done_ None
  else
    attacker <~ combatant_snapshot (command_attacker command);
    let_some attacker := attacker else done_ None;
    victim <~ combatant_snapshot (command_victim command);
    let_some victim := victim else done_ None;
    input <~ normal_hit_input attacker victim;
    done_ (Some {| co_attacker := attacker; co_victim := victim; co_hit := resolve_normal_hit input |}).

(** Whether the damage killed; [None] when there was no one to hurt. *)
Definition apply_resource_damage (victim : ActorRef) (amount : Z) : Sim (option bool) :=
  r <~ apply_actor_resource victim (StatSource.damage amount);
  done_ (match r with
         | Ok (Some result) =>
             Some (bool_decide (rr_stat result = Stat.Hp) && (0 <? rr_previous result) && (rr_current result <=? 0))
         | _ => None
         end).

Definition apply_combat_outcome (outcome : CombatOutcome) : Sim (option bool) :=
  applied <~ apply_resource_damage (cb_actor (co_victim outcome)) (hit_damage (co_hit outcome));
  let_some killed := applied else done_ None;
  update_facts (with_combat (push_damaged
    {| dmg_attacker := cb_actor (co_attacker outcome); dmg_victim := cb_actor (co_victim outcome);
       dmg_damage := hit_damage (co_hit outcome); dmg_flags := hit_flags (co_hit outcome) |})) ;;
  done_ (Some killed).

(** A blow to an actor who is dying ends it. *)
Definition try_finalize_dying_victim (command : AttackCommand) : Sim bool :=
  can <~ actor_can_act (command_attacker command);
  dying <~ (if can then actor_is_dying (command_victim command) else done_ false);
  if negb can || negb dying then done_ false
  else
    victim <~ combatant_snapshot (command_victim command);
    let_some victim := victim else done_ false;
    finalize_dying_actor_death (cb_actor victim).

Definition process_attack_command (command : AttackCommand) : Sim unit :=
  live <~ live_entities command;
  if negb live then done_ tt
  else
    finalized <~ try_finalize_dying_victim command;
    if (finalized : bool) then done_ tt
    else
      outcome <~ resolve_attack_command command;
      let_some outcome := outcome else done_ tt;
      applied <~ apply_combat_outcome outcome;
      let_some killed := applied else done_ tt;
      when killed
        (update_facts (with_combat (push_hp_depleted
           {| hpd_victim := cb_actor (co_victim outcome); hpd_killer := Some (cb_actor (co_attacker outcome)) |}))).

Definition process_attack_commands : Sim unit :=
  release_due_attack_commands ;;
  commands <~ resource R_AttackCommands;
  set_resource_ R_AttackCommands [] ;;
  for_each commands process_attack_command.
End Combat.

(** ** Releasing loses nothing *)
Section Release.
Context `{SimEnv}.

Definition scheduled_command (d : DelayedAttackCommand) : AttackCommand :=
  match dac_kind d with Delayed_Resolve command | Delayed_ReleaseProjectile command _ => command end.

Lemma command_live_entities command w w' : w_entities w' = w_entities w -> command_live command w' = command_live command w.
Proof. intros E. unfold command_live, contains. by rewrite E. Qed.

Lemma travel_delay_total command flight w : command_live command w = true ->
  exists delay, projectile_travel_delay command flight w = Some (delay, w).
Proof.
  unfold command_live. intros L. apply andb_prop in L as [La Lv].
  unfold projectile_travel_delay, actor_distance, entity_get, sim_bind, done_. rewrite La.
  destruct (get K_LocalTransform (command_attacker command) w); [| by eexists]. rewrite Lv.
  destruct (get K_LocalTransform (command_victim command) w); by eexists.
Qed.

(** One command: released now, in flight, or gone with its actors. *)
Lemma release_due_one now d w : exists w' released flights,
  release_due now d w = Some (tt, w') /\ w_entities w' = w_entities w /\
  w_res w' R_AttackCommands = w_res w R_AttackCommands ++ released /\
  w_res w' R_DelayedAttacks = w_res w R_DelayedAttacks ++ flights /\
  (forall r, r <> R_AttackCommands -> r <> R_DelayedAttacks -> w_res w' r = w_res w r) /\
  Forall (fun f => now < dac_due_at f /\ exists command, dac_kind f = Delayed_Resolve command) flights /\
  released ++ map scheduled_command flights = (if command_live (scheduled_command d) w then [scheduled_command d] else []).
Proof.
  unfold release_due, enqueue_live_attack_command, live_entities, scheduled_command.
  assert (forall command, exists w' released flights,
    (when (command_live command w) (update_resource R_AttackCommands (fun l => l ++ [command]))) w = Some (tt, w') /\
    w_entities w' = w_entities w /\
    w_res w' R_AttackCommands = w_res w R_AttackCommands ++ released /\
    w_res w' R_DelayedAttacks = w_res w R_DelayedAttacks ++ flights /\
    (forall r, r <> R_AttackCommands -> r <> R_DelayedAttacks -> w_res w' r = w_res w r) /\
    Forall (fun f => now < dac_due_at f /\ exists command, dac_kind f = Delayed_Resolve command) flights /\
    released ++ map scheduled_command flights = (if command_live command w then [command] else [])) as Now.
  { intros command. destruct (command_live command w); unfold when, update_resource, done_.
    - eexists _, [command], []. split; [done |]. split; [done |]. split; [by rewrite res_set_eq |].
      split; [by rewrite app_nil_r |]. split; [| split; [constructor | done]].
      intros r N _. by apply res_set_ne.
    - exists w, [], []. rewrite !app_nil_r. split_and!; auto. }
  destruct d as [due [command | command flight]]; cbn [dac_kind dac_due_at]; unfold sim_bind, reads_w; [apply Now |].
  destruct (command_live command w) eqn:L; cbn [negb]; unfold done_.
  - destruct (travel_delay_total command flight w L) as [delay ->]. case_match eqn:D.
    + destruct (Now command) as (w' & rel & fl & R). exists w', rel, fl. rewrite L in R. by rewrite L.
    + apply Z.leb_gt in D. eexists _, [], [_]. split; [done |]. split; [done |]. split; [by rewrite app_nil_r |].
      split; [by rewrite res_set_eq |]. split; [intros r _ N; by apply res_set_ne |].
      split; [| done]. repeat constructor; [exact D | by eexists].
  - exists w, [], []. rewrite !app_nil_r. split_and!; auto.
Qed.

Lemma release_due_all now l : forall w, exists w' released flights,
  for_each l (release_due now) w = Some (tt, w') /\ w_entities w' = w_entities w /\
  w_res w' R_AttackCommands = w_res w R_AttackCommands ++ released /\
  w_res w' R_DelayedAttacks = w_res w R_DelayedAttacks ++ flights /\
  (forall r, r <> R_AttackCommands -> r <> R_DelayedAttacks -> w_res w' r = w_res w r) /\
  Forall (fun f => now < dac_due_at f /\ exists command, dac_kind f = Delayed_Resolve command) flights /\
  released ++ map scheduled_command flights ≡ₚ List.filter (fun c => command_live c w) (map scheduled_command l).
Proof.
  induction l as [| d l IH]; intros w.
  - exists w, [], []. rewrite !app_nil_r. split_and!; auto.
  - destruct (release_due_one now d w) as (w1 & r1 & f1 & E1 & N1 & A1 & D1 & O1 & F1 & P1).
    destruct (IH w1) as (w2 & r2 & f2 & E2 & N2 & A2 & D2 & O2 & F2 & P2).
    exists w2, (r1 ++ r2), (f1 ++ f2). cbn [for_each map List.filter]. unfold sim_bind. rewrite E1.
    split; [exact E2 |]. split; [congruence |]. split; [by rewrite A2, A1, app_assoc |].
    split; [by rewrite D2, D1, app_assoc |]. split; [intros r Na Nd; by rewrite O2, O1 |]. split; [by apply Forall_app |].
    rewrite map_app. rewrite (Permutation_app_comm (map _ f1)), !app_assoc, <- (app_assoc r1), P2.
    assert (List.filter (fun c => command_live c w1) (map scheduled_command l) =
            List.filter (fun c => command_live c w) (map scheduled_command l)) as ->.
    { apply List.filter_ext. intros c. by apply command_live_entities. }
    rewrite Permutation_app_comm, app_assoc, (Permutation_app_comm _ r1), P1.
    by destruct (command_live (scheduled_command d) w).
Qed.

(** [C26] Releasing the delayed attacks never fails, leaves none that is due, and
    loses or doubles none: those not due stay first and in order; of those due,
    each whose two actors still exist is either handed to this tick's attacks or
    flies on as a hit for a later instant, and the others are dropped. *)
Theorem release_due_conserves w :
  let now := sim_now (w_res w R_Runtime) in
  let delayed := w_res w R_DelayedAttacks in
  exists w' released flights, release_due_attack_commands w = Some (tt, w') /\ w_entities w' = w_entities w /\
    w_res w' R_DelayedAttacks = List.filter (fun d => negb (delayed_due now d)) delayed ++ flights /\
    w_res w' R_AttackCommands = w_res w R_AttackCommands ++ released /\
    Forall (fun d => delayed_due now d = false) (w_res w' R_DelayedAttacks) /\
    Forall (fun f => exists command, dac_kind f = Delayed_Resolve command) flights /\
    released ++ map scheduled_command flights ≡ₚ
      List.filter (fun c => command_live c w) (map scheduled_command (List.filter (delayed_due now) delayed)).
Proof.
  cbv zeta. unfold release_due_attack_commands, runtime, resource, reads_w, set_resource_, sim_bind.
  set (now := sim_now _). set (delayed := w_res w R_DelayedAttacks).
  destruct (release_due_all now (List.filter (delayed_due now) delayed)
    (set_res R_DelayedAttacks (List.filter (fun d => negb (delayed_due now d)) delayed) w))
    as (w' & rel & fl & E & N & A & D & _ & F & P).
  exists w', rel, fl. split; [exact E |]. split; [exact N |]. rewrite res_set_eq in D. split; [exact D |].
  split; [rewrite A; f_equal; by apply res_set_ne |]. split; [| split; [by eapply Forall_impl; [exact F | intros ? []] |]].
  - rewrite D. apply Forall_app. split.
    + apply List.Forall_forall. intros d I. apply List.filter_In in I as [_ I]. by apply negb_true_iff.
    + eapply Forall_impl; [exact F |]. intros f [L _]. unfold delayed_due. by apply Z.leb_gt.
  - exact P.
Qed.
End Release.
