(* ===== verification/SimAi.v ===== *)
(** The mobs' decisions ([zohar-sim/src/runtime/mob/ai.rs], [mob/aggro.rs]): who a
    mob turns on, when it attacks, where it walks. *)
From S2P Require Import Prelude Domain Float Space Entities CombatTiming MapPort Replication Outbox Channel Grid.
From S2P Require Import Segment Reachability Planner SimTime Motion Aoi SimTypes SimWorld SimLife SimQuery SimAction.

Definition LEGACY_CHASE_FOLLOW_DISTANCE_RATIO : spec_float := f32_lit 9 10.
Definition LEGACY_ATTACK_THRESHOLD_RATIO : spec_float := f32_lit 115 100.
Definition HOME_ARRIVAL_RADIUS_M : spec_float := f32_lit 3 4.
Definition LEGACY_CHASE_RETHINK_MS : Z := 200.
Definition POST_ATTACK_SETTLE_MS : Z := 100.
Definition RANGED_POST_MOVE_ATTACK_SETTLE_MS : Z := 200.
Definition IDLE_WANDER_MAX_ATTEMPTS : nat := 8.
Definition IDLE_WANDER_DISTANCE_EPSILON_M : spec_float := f32_lit 1 4.
(** [f32::consts::TAU], 13176795 / 2 ^ 21. *)
Definition TAU : spec_float := f32_lit 13176795 2097152.

Definition mob_follow_distance_m (attack_range_m : spec_float) : spec_float :=
  f32_mul (f_max attack_range_m f32_zero) LEGACY_CHASE_FOLLOW_DISTANCE_RATIO.

Record MobContext : Type := {
  cx_proto : MobPrototypeDef; cx_map_entity : Entity; cx_now : SimInstant; cx_now_ts : Z;
  cx_current_pos : LocalPos; cx_current_rot : Z; cx_home_pos : LocalPos; cx_movement_in_flight : bool;
  cx_segment_end_pos : option LocalPos; cx_segment_end_at : option SimInstant }.

(** ** Brains *)
Definition set_wander (next_decision : SimInstant) (wait : option SimInstant) (b : MobBrainState) : MobBrainState :=
  {| brain_mode := brain_mode b; brain_target := brain_target b; next_attack_at := next_attack_at b;
     attack_windup_until := attack_windup_until b; next_rethink_at := next_rethink_at b;
     wander_next_decision_at := next_decision; wander_wait_until := wait |}.
Definition set_pursuit (target : EntityId) (now : SimInstant) (b : MobBrainState) : MobBrainState :=
  {| brain_mode := Brain_Pursuit; brain_target := Some target; next_attack_at := next_attack_at b;
     attack_windup_until := attack_windup_until b; next_rethink_at := now;
     wander_next_decision_at := wander_next_decision_at b; wander_wait_until := wander_wait_until b |}.
Definition set_returning (b : MobBrainState) : MobBrainState :=
  {| brain_mode := Brain_Return; brain_target := None; next_attack_at := next_attack_at b;
     attack_windup_until := attack_windup_until b; next_rethink_at := next_rethink_at b;
     wander_next_decision_at := wander_next_decision_at b; wander_wait_until := wander_wait_until b |}.
Definition set_windup (until next_attack : SimInstant) (b : MobBrainState) : MobBrainState :=
  {| brain_mode := Brain_AttackWindup; brain_target := brain_target b; next_attack_at := next_attack;
     attack_windup_until := until; next_rethink_at := next_rethink_at b;
     wander_next_decision_at := wander_next_decision_at b; wander_wait_until := wander_wait_until b |}.
Definition transition_to_idle (now : SimInstant) (b : MobBrainState) : MobBrainState :=
  {| brain_mode := Brain_Idle; brain_target := None; next_attack_at := next_attack_at b; attack_windup_until := 0;
     next_rethink_at := 0; wander_next_decision_at := Z.max (wander_next_decision_at b) now; wander_wait_until := None |}.

Inductive WindupState : Type :=
| Windup_Blocked
| Windup_Proceed (state_changed : bool) (min_rethink_at : option SimInstant).

Definition handle_attack_windup (now : SimInstant) (brain : MobBrainState) : WindupState * MobBrainState :=
  if negb (bool_decide (brain_mode brain = Brain_AttackWindup)) then (Windup_Proceed false None, brain)
  else if now <? attack_windup_until brain then (Windup_Blocked, brain)
  else
    let settle := SimInstant_saturating_add now POST_ATTACK_SETTLE_MS in
    let brain :=
      {| brain_mode := brain_mode brain; brain_target := brain_target brain; next_attack_at := next_attack_at brain;
         attack_windup_until := 0; next_rethink_at := settle;
         wander_next_decision_at := wander_next_decision_at brain; wander_wait_until := wander_wait_until brain |} in
    let brain :=
      match brain_target brain with
      | Some target =>
          {| brain_mode := Brain_Pursuit; brain_target := Some target; next_attack_at := next_attack_at brain;
             attack_windup_until := attack_windup_until brain; next_rethink_at := next_rethink_at brain;
             wander_next_decision_at := wander_next_decision_at brain; wander_wait_until := wander_wait_until brain |}
      | None => set_next_rethink settle (transition_to_idle now brain)
      end in
    (Windup_Proceed true (Some (next_rethink_at brain)), brain).

Definition attack_damage_schedule (effect_timing : MobAttackEffectTiming) : AttackDamageSchedule :=
  match eff_damage effect_timing with
  | Immediate => Schedule_Immediate
  | DelayedMs delay_ms => Schedule_Delayed delay_ms
  | Damage_Projectile release_delay_ms flight => Schedule_Projectile release_delay_ms flight
  end.
Definition waits_for_movement_before_attack (battle_type : MobBattleType) : bool :=
  match battle_type with BattleRange | BattleMagic => true | _ => false end.

Definition is_inside_map (map_size : LocalSize) (candidate : LocalPos) : bool :=
  f_is_finite (pos_x candidate) && f_is_finite (pos_y candidate) &&
  SFleb f32_zero (pos_x candidate) && SFleb f32_zero (pos_y candidate) &&
  SFltb (pos_x candidate) (size_width map_size) && SFltb (pos_y candidate) (size_height map_size).

Section Ai.
Context `{SimEnv}.

(** ** Aggro *)
Definition queue_mob_aggro (mob_entity : Entity) (aggro : MobAggro) : Sim unit :=
  modify K_MobAggroQueue mob_entity (fun queue =>
    let queue := queue ++ [aggro] in drop (length queue - MAX_MOB_STIMULI_PER_TICK) queue).

Definition route_mob_aggro : Sim unit :=
  dispatches <~ resource R_MobAggroDispatch;
  set_resource_ R_MobAggroDispatch [] ;;
  for_each dispatches (fun dispatch =>
    alive <~ entity_alive (attacked_mob_entity dispatch);
    is_mob <~ (if alive then entity_has K_MobRef (attacked_mob_entity dispatch) else done_ false);
    when (alive && is_mob)
      (members <~ mob_pack_members (attacked_mob_entity dispatch);
       for_each members (fun mob_entity => queue_mob_aggro mob_entity (dispatch_aggro dispatch)))).

Definition drain_mob_aggro (mob_entity : Entity) : Sim (list MobAggro) :=
  queue <~ entity_get K_MobAggroQueue mob_entity;
  let_some queue := queue else done_ [];
  sim_write K_MobAggroQueue mob_entity [] ;;
  done_ queue.

(** [aggros.iter().rev().find_map(..)]: [aggros] comes latest first. *)
Fixpoint find_live_provoker (aggros : list MobAggro) : Sim (option EntityId) :=
  match aggros with
  | [] => done_ None
  | aggro :: rest =>
      entity <~ net_entity (provoked_by aggro);
      match entity with
      | Some entity =>
          targetable <~ actor_can_be_combat_target entity;
          if (targetable : bool) then done_ (Some (provoked_by aggro)) else find_live_provoker rest
      | None => find_live_provoker rest
      end
  end.
Definition latest_live_provoker (aggros : list MobAggro) : Sim (option EntityId) := find_live_provoker (rev aggros).

Definition apply_new_aggro (aggros : list MobAggro) (now : SimInstant) (brain : MobBrainState) : Sim (bool * MobBrainState) :=
  target_id <~ latest_live_provoker aggros;
  let_some target_id := target_id else done_ (false, brain);
  if bool_decide (brain_target brain = Some target_id) && bool_decide (brain_mode brain = Brain_Pursuit)
  then done_ (false, brain)
  else done_ (true, set_pursuit target_id now brain).

Definition acquire_idle_target (context : MobContext) (brain : MobBrainState) : Sim (bool * MobBrainState) :=
  if bool_decide (is_Some (brain_target brain)) || negb (bool_decide (brain_mode brain = Brain_Idle))
  then done_ (false, brain)
  else
    acquired <~ acquire_aggressive_target (cx_map_entity context) (cx_current_pos context) (cx_proto context);
    let_some acquired := acquired else done_ (false, brain);
    acquired_entity <~ net_entity acquired;
    let_some acquired_entity := acquired_entity else done_ (false, brain);
    targetable <~ actor_can_be_combat_target acquired_entity;
    if negb targetable then done_ (false, brain)
    else done_ (true, set_pursuit acquired (cx_now context) brain).

(** The target's position when it is still worth pursuing; else the mob goes home. *)
Definition validate_target (context : MobContext) (brain : MobBrainState)
  : Sim (option LocalPos * bool * MobBrainState) :=
  let_some target := brain_target brain else done_ (None, false, brain);
  target_entity <~ net_entity target;
  targetable <~ (match target_entity with Some e => actor_can_be_combat_target e | None => done_ false end);
  if negb targetable then done_ (None, true, set_returning brain)
  else
    target_pos <~ player_position target (cx_now_ts context);
    match target_pos with
    | Some pos =>
        if has_exceeded_leash (cx_current_pos context) pos (cx_home_pos context)
        then done_ (None, true, set_returning brain)
        else done_ (Some pos, false, brain)
    | None => done_ (None, true, set_returning brain)
    end.

(** ** Context *)
Definition collect_mob_context (mob_entity : Entity) : Sim (option MobContext) :=
  mob_ref <~ entity_get K_MobRef mob_entity;
  let_some mob_id := mob_ref else done_ None;
  can <~ actor_can_act mob_entity;
  if negb can then done_ None
  else
    shared <~ resource R_Shared;
    let_some proto := sc_mobs shared !! mob_id else done_ None;
    state <~ runtime;
    let now := sim_now state in
    let map_entity := default ENTITY_PLACEHOLDER (map_entity state) in
    current_pos <~ sampled_mob_position mob_entity now;
    let_some current_pos := current_pos else done_ None;
    transform <~ entity_get K_LocalTransform mob_entity;
    let_some transform := transform else done_ None;
    anchor <~ entity_get K_MobHomeAnchor mob_entity;
    in_flight <~ mob_movement_in_flight mob_entity now;
    motion <~ entity_get K_MobMotion mob_entity;
    done_ (Some {| cx_proto := proto; cx_map_entity := map_entity; cx_now := now; cx_now_ts := packet_now state;
                   cx_current_pos := current_pos; cx_current_rot := lt_rot transform;
                   cx_home_pos := default current_pos anchor; cx_movement_in_flight := in_flight;
                   cx_segment_end_pos := mm_end_pos <$> motion; cx_segment_end_at := mm_end_at <$> motion |}).

(** ** Decisions: the action planned, and the brain after *)
Definition handle_return (mob_entity : Entity) (context : MobContext) (brain : MobBrainState)
  : Sim (option Action * MobBrainState) :=
  if SFleb (distance (cx_current_pos context) (cx_home_pos context)) HOME_ARRIVAL_RADIUS_M
  then done_ (None, transition_to_idle (cx_now context) brain)
  else if cx_now context <? next_rethink_at brain then done_ (None, brain)
  else
    action <~ build_mob_move_action mob_entity Kind_Wait (cx_home_pos context) (cx_home_pos context) brain
                (RethinkAtActionEndOrDelay LEGACY_CHASE_RETHINK_MS);
    done_ (action, brain).

(** [current_pos.shifted(heading, step_distance)]: a rotation of the crate [euclid]. *)
Definition shifted (pos : LocalPos) (heading distance : spec_float) : LocalPos :=
  pos_add pos (mk_pos (f32_sub (f32_mul (vec_cos heading) distance) (f32_mul (vec_sin heading) f32_zero))
                      (f32_add (f32_mul (vec_sin heading) distance) (f32_mul (vec_cos heading) f32_zero))).

(** [!nav.can_stand(c) || !nav.same_component(p, c) || !nav.segment_clear(p, c)];
    no navigator blocks nothing. *)
Definition wander_blocked (navigator : option MapNavigator) (current_pos candidate : LocalPos) : bool :=
  match navigator with
  | Some nav =>
      negb (can_stand (terrain nav) candidate) || negb (nav_same_component nav current_pos candidate) ||
      negb (segment_clear (terrain nav) current_pos candidate)
  | None => false
  end.

Fixpoint wander_attempts (attempts : nat) (map_size : LocalSize) (navigator : option MapNavigator)
    (current_pos : LocalPos) (current_rot : Z) (step_min step_max : spec_float) (rng : Rng)
  : option (LocalPos * Z) * Rng :=
  match attempts with
  | O => (None, rng)
  | S attempts =>
      let '(heading, rng) := random_range_f32 f32_zero TAU rng in
      let '(step_distance, rng) := random_range_f32_inclusive step_min step_max rng in
      let candidate := shifted current_pos heading step_distance in
      if negb (is_inside_map map_size candidate) || wander_blocked navigator current_pos candidate ||
         SFleb (distance current_pos candidate) IDLE_WANDER_DISTANCE_EPSILON_M
      then wander_attempts attempts map_size navigator current_pos current_rot step_min step_max rng
      else (Some (candidate, rotation_from_delta current_pos candidate current_rot), rng)
  end.
Definition sample_idle_wander_target (map_size : LocalSize) (navigator : option MapNavigator) (current_pos : LocalPos)
    (current_rot : Z) (step_min_m step_max_m : spec_float) (rng : Rng) : option (LocalPos * Z) * Rng :=
  wander_attempts IDLE_WANDER_MAX_ATTEMPTS map_size navigator current_pos current_rot (f_min step_min_m step_max_m)
    (f_max step_min_m step_max_m) rng.

Definition handle_idle (mob_entity : Entity) (context : MobContext) (brain : MobBrainState)
  : Sim (option Action * MobBrainState) :=
  if match wander_wait_until brain with Some wait_until => cx_now context <? wait_until | None => false end
  then done_ (None, brain)
  else
    let brain := set_wander (wander_next_decision_at brain) None brain in
    if negb (can_wander (mp_bhv_flags (cx_proto context))) then done_ (None, brain)
    else
      let next_decision_at :=
        if 0 <? wander_next_decision_at brain then wander_next_decision_at brain else cx_now context in
      if cx_now context <? next_decision_at then done_ (None, brain)
      else
        shared <~ resource R_Shared;
        let wander := sc_wander shared in
        pause <~ with_random (random_duration_between_ms (decision_pause_idle_min wander) (decision_pause_idle_max wander));
        let pause_until := SimInstant_saturating_add (cx_now context) pause in
        draw <~ with_random (random_range 0 (Z.max (wander_chance_denominator wander) 1 - 1));
        if negb (draw =? 0) then done_ (None, set_wander pause_until None brain)
        else
          map <~ resource R_MapConfig;
          destination <~ with_random (sample_idle_wander_target (mcfg_local_size map) (mcfg_navigator map)
                           (cx_current_pos context) (cx_current_rot context) (step_min_m wander) (step_max_m wander));
          match destination with
          | None => done_ (None, set_wander pause_until (wander_wait_until brain) brain)
          | Some (destination, _) =>
              post_move_pause_ms <~ with_random
                (random_duration_between_ms (post_move_pause_min wander) (post_move_pause_max wander));
              action <~ build_mob_move_action mob_entity Kind_Wait destination destination brain
                          (IdleWander post_move_pause_ms);
              match action with
              | Some action => done_ (Some action, brain)
              | None => done_ (None, set_wander pause_until (wander_wait_until brain) brain)
              end
          end.

Definition handle_pursuit (mob_entity : Entity) (context : MobContext) (brain : MobBrainState) (target : EntityId)
    (target_pos : LocalPos) : Sim (option Action * MobBrainState) :=
  let proto := cx_proto context in
  let now := cx_now context in
  shared <~ resource R_Shared;
  chase_target_pos <~ chase_target_position (cx_current_pos context) target (cx_now_ts context) (mp_mob_id proto)
                        (mp_move_speed proto) (mp_battle_type proto) shared;
  let chase_target_pos := default target_pos chase_target_pos in
  let attack_range_m := effective_attack_range_m (mp_attack_range proto) (mp_battle_type proto) in
  let follow_distance_m := mob_follow_distance_m attack_range_m in
  let attack_threshold_m := f32_mul (f_max attack_range_m f32_zero) LEGACY_ATTACK_THRESHOLD_RATIO in
  let target_distance_m := distance (cx_current_pos context) target_pos in
  let segment_end_in_attack_range :=
    match cx_segment_end_pos context with
    | Some segment_end_pos => SFleb (distance segment_end_pos target_pos) attack_threshold_m
    | None => false
    end in
  let segment_end_at := default now (cx_segment_end_at context) in
  let in_flight := cx_movement_in_flight context in
  let later := set_next_rethink (SimInstant_saturating_add now LEGACY_CHASE_RETHINK_MS) brain in
  if in_flight && waits_for_movement_before_attack (mp_battle_type proto) then
    done_ (None,
           if segment_end_in_attack_range
           then set_next_rethink (SimInstant_saturating_add segment_end_at RANGED_POST_MOVE_ATTACK_SETTLE_MS) brain
           else brain)
  else if negb in_flight && (now <? next_rethink_at brain) then done_ (None, brain)
  else if (next_attack_at brain <=? now) && SFleb target_distance_m attack_threshold_m then
    let timing := attack_timing_for_mob (mp_attack_speed proto) in
    let effect_timing := mob_attack_effect_timing (mp_battle_type proto)
      (timing_for (sc_mob_attack_timings shared) (mp_mob_id proto)) (fallback_action_duration timing) in
    let packet_duration := action_duration_ms effect_timing in
    let brain := set_windup (SimInstant_saturating_add now packet_duration)
                   (SimInstant_saturating_add now (attack_gate timing)) brain in
    action <~ build_mob_attack_action mob_entity target target_pos packet_duration
                (attack_damage_schedule effect_timing) (CombatTiming.set_projectile_target effect_timing) brain RethinkAtActionEnd;
    done_ (action, brain)
  else if in_flight && segment_end_in_attack_range then done_ (None, set_next_rethink segment_end_at brain)
  else if now <? next_rethink_at brain then done_ (None, brain)
  else
    let chase_distance_m := distance (cx_current_pos context) chase_target_pos in
    let step_len := f_max (f32_sub chase_distance_m follow_distance_m) f32_zero in
    if SFleb step_len CLOSE_CHASE_EPSILON_M then done_ (None, later)
    else
      let destination := clamp_step_towards (cx_current_pos context) chase_target_pos step_len in
      if desired_destination_unchanged (cx_segment_end_pos context) destination then done_ (None, later)
      else
        action <~ build_mob_move_action mob_entity Kind_Wait destination chase_target_pos brain
                    (RethinkAtActionEndOrDelay LEGACY_CHASE_RETHINK_MS);
        done_ (action, brain).

Definition persist_brain_if_changed (mob_entity : Entity) (brain : MobBrainState) (state_changed : bool) : Sim unit :=
  when state_changed (set_mob_brain mob_entity brain).

(** ** The system *)
Definition raise_rethink (min_rethink_at : option SimInstant) (brain : MobBrainState) : MobBrainState :=
  match min_rethink_at with
  | Some at_ => if next_rethink_at brain <? at_ then set_next_rethink at_ brain else brain
  | None => brain
  end.

(** The decision of a mob whose target has been validated; [None]: it keeps a
    target it cannot see, and decides nothing. *)
Definition mob_decision (mob_entity : Entity) (context : MobContext) (brain : MobBrainState)
    (target_pos : option LocalPos) : Sim (option (option Action * MobBrainState)) :=
  match brain_target brain, brain_mode brain with
  | Some target, _ =>
      let_some target_pos := target_pos else done_ None;
      d <~ handle_pursuit mob_entity context brain target target_pos;
      done_ (Some d)
  | None, Brain_Return => d <~ handle_return mob_entity context brain; done_ (Some d)
  | None, _ => d <~ handle_idle mob_entity context brain; done_ (Some d)
  end.

(** One mob's turn: the action it plans, if any. *)
Definition mob_turn (mob_entity : Entity) : Sim (option Action) :=
  alive <~ entity_alive mob_entity;
  if negb alive then done_ None
  else
    context <~ collect_mob_context mob_entity;
    let_some context := context else done_ None;
    brain <~ entity_get K_MobBrainState mob_entity;
    let_some brain := brain else done_ None;
    match handle_attack_windup (cx_now context) brain with
    | (Windup_Blocked, _) => done_ None
    | (Windup_Proceed changed_by_windup min_rethink_at, brain) =>
        aggros <~ drain_mob_aggro mob_entity;
        '(changed_by_aggro, brain) <~ apply_new_aggro aggros (cx_now context) brain;
        '(acquired, brain) <~ acquire_idle_target context brain;
        '(target_pos, lost_target, brain) <~ validate_target context brain;
        let state_changed := changed_by_windup || changed_by_aggro || acquired || lost_target in
        let brain_before_decision := raise_rethink min_rethink_at brain in
        decision <~ mob_decision mob_entity context brain_before_decision target_pos;
        match decision with
        | None => persist_brain_if_changed mob_entity brain_before_decision state_changed ;; done_ None
        | Some (Some action, _) => done_ (Some action)
        | Some (None, brain) =>
            let state_changed := state_changed || negb (bool_decide (brain = brain_before_decision)) in
            persist_brain_if_changed mob_entity brain state_changed ;; done_ None
        end
    end.

Definition process_mob_ai : Sim unit :=
  mob_entities <~ query [K_MobRef];
  actions <~ fold_sim (fun actions mob_entity =>
               planned <~ mob_turn mob_entity;
               done_ (match planned with Some action => actions ++ [action] | None => actions end)) mob_entities [];
  update_resource R_ActionBuffer (fun buffer => buffer ++ actions).
End Ai.
