(* ===== verification/SimReplication.v ===== *)
(** What players see ([zohar-sim/src/runtime/net/replication.rs], the talking
    messages of [spatial.rs], [net/outbox.rs]): visibility reconciled with the
    spatial index, and the pending states, movements and chats told to whoever
    observes them. *)
From S2P Require Import Prelude Domain Float Space Entities Wire MapPort Replication Outbox Channel Text SimTime Motion Aoi.
From S2P Require Import SimTypes SimWorld SimLife SimQuery.

(** ** Talking *)
Definition format_talking_message (from_name : string) (message_bytes : bytes) : bytes :=
  bytes_of from_name ++ bytes_of " : " ++ until_nul message_bytes ++ [0].
Definition format_global_shout (from_player_name : string) (message_bytes : bytes) : bytes :=
  bytes_of from_player_name ++ bytes_of " : " ++ from_utf8_lossy (until_nul message_bytes) ++ [0].

Definition resolve_cross_empire_preserve_pct : Z := 10.

Definition is_ascii_lowercase (b : Z) : bool := between 97 b 122.
Definition is_ascii_alphabetic (b : Z) : bool := is_ascii_lowercase b || between 65 b 90.
Definition remap_ascii_letter_by_empire (source_empire : Empire) (letter : Z) : Z :=
  let shift := match source_empire with Empire_Red => 5 | Empire_Yellow => 11 | Empire_Blue => 17 end in
  let base := if is_ascii_lowercase letter then 97 else 65 in
  (letter - base + shift) mod 26 + base.
Definition is_high (b : Z) : bool := negb (Z.land b 128 =? 0).
Definition QUESTION : Z := 63.

Section Talk.
Context `{RandomSource}.
Definition should_convert (preserve_pct : Z) (rng : Rng) : bool * Rng :=
  let '(draw, rng) := random_range 1 100 rng in (preserve_pct <? draw, rng).

Fixpoint obfuscate_body (source_empire : Empire) (preserve_pct : Z) (body : bytes) (rng : Rng) : bytes * Rng :=
  match body with
  | [] => ([], rng)
  | byte :: rest =>
      if is_ascii_alphabetic byte then
        let '(convert, rng) := should_convert preserve_pct rng in
        let '(out, rng) := obfuscate_body source_empire preserve_pct rest rng in
        ((if convert then remap_ascii_letter_by_empire source_empire byte else byte) :: out, rng)
      else if is_high byte then
        let '(convert, rng) := should_convert preserve_pct rng in
        match rest with
        | second :: rest' =>
            if is_high second then
              let '(out, rng) := obfuscate_body source_empire preserve_pct rest' rng in
              ((if convert then [QUESTION; QUESTION] else [byte; second]) ++ out, rng)
            else
              let '(out, rng) := obfuscate_body source_empire preserve_pct rest rng in
              ((if convert then QUESTION else byte) :: out, rng)
        | [] => ([if convert then QUESTION else byte], rng)
        end
      else
        let '(out, rng) := obfuscate_body source_empire preserve_pct rest rng in (byte :: out, rng)
  end.
Definition obfuscate_cross_empire_talking_body (source_empire : Empire) (body : bytes) (preserve_pct : Z) (rng : Rng)
  : bytes * Rng := obfuscate_body source_empire (Z.min preserve_pct 100) body rng.
End Talk.

Section Replicate.
Context `{SimEnv}.

Record ObserverRecipient : Type := { or_entity : Entity; or_empire : Empire }.
Record VisibilityObserver : Type := { vo_player_id : PlayerId; vo_net_id : EntityId; vo_pos : LocalPos }.

(** ** Visibility *)
Definition maintain_spatial (map_entity : Entity) : Sim unit := modify K_MapSpatial map_entity si_maintain.

Definition visibility_observer (w : World) (e : Entity) : option VisibilityObserver :=
  player_id ← get K_PlayerMarker e w;
  net_id ← get K_NetEntityId e w;
  transform ← get K_LocalTransform e w;
  Some {| vo_player_id := player_id; vo_net_id := net_id; vo_pos := lt_pos transform |}.
Definition collect_visibility_observers : Sim (list VisibilityObserver) :=
  entities <~ query [K_PlayerMarker; K_NetEntityId; K_LocalTransform];
  reads_w (fun w => omap (visibility_observer w) entities).

Definition visibility_candidates (map_entity : Entity) (observer_pos : LocalPos) (radius : spec_float)
    (observer_net_id : EntityId) : Sim (option (gset EntityId)) :=
  spatial <~ entity_get K_MapSpatial map_entity;
  let_some spatial := spatial else done_ None;
  ids <~ unwrap (query_in_radius observer_pos radius spatial);
  done_ (Some (list_to_set ids ∖ {[observer_net_id]})).

Definition reconcile_visibility (map_entity : Entity) (observer : VisibilityObserver)
    (spawn_candidates retain_candidates : gset EntityId) : Sim VisibilityDiff :=
  replication <~ entity_get K_MapReplication map_entity;
  replication <~ unwrap replication;
  let '(diff, replication) := reconcile_observer (vo_net_id observer) spawn_candidates retain_candidates replication in
  sim_write K_MapReplication map_entity replication ;;
  done_ diff.

Definition rollback_entered_visibility (map_entity : Entity) (observer_net_id : EntityId) (target_ids : list EntityId)
  : Sim unit :=
  when (negb (bool_decide (target_ids = [])))
    (modify K_MapReplication map_entity (fun replication =>
       fold_left (fun g target_id => snd (remove_visibility observer_net_id target_id g)) target_ids replication)).

(** The snapshots that could be made, and the targets for which none could. *)
Definition entered_snapshot (shared : SharedConfig) (found : list EntitySnapshot * list EntityId) (target_id : EntityId)
  : Sim (list EntitySnapshot * list EntityId) :=
  let '(snapshots, failed) := found in
  snapshot <~ make_entity_snapshot shared target_id;
  done_ (match snapshot with
         | Some snapshot => (snapshots ++ [snapshot], failed)
         | None => (snapshots, failed ++ [target_id])
         end).

(** The animation of the actor an id names. *)
Definition movement_animation_of (entity_id : EntityId) : Sim (option MovementAnimation) :=
  entity <~ net_entity entity_id;
  match entity with Some entity => entity_get K_PlayerMovementAnimation entity | None => done_ None end.

Definition with_animations (snapshots : list EntitySnapshot) : Sim (list (EntitySnapshot * option MovementAnimation)) :=
  fold_sim (fun found snapshot =>
    animation <~ movement_animation_of (es_entity_id snapshot);
    done_ (found ++ [(snapshot, animation)])) snapshots [].

(** A spawn, and the walk that follows it. *)
Definition spawn_events (snapshot : EntitySnapshot) (animation : option MovementAnimation) : list PlayerEvent :=
  EntitySpawn snapshot ::
  (if bool_decide (animation = Some Walk) then [SetEntityMovementAnimation (es_entity_id snapshot) Walk] else []).
Definition diff_events (entered : list (EntitySnapshot * option MovementAnimation)) (left : list EntityId)
  : list PlayerEvent :=
  concat (map (fun '(snapshot, animation) => spawn_events snapshot animation) entered) ++ map EntityDespawn left.
Definition push_all (events : list PlayerEvent) (ob : @PlayerOutbox OutTx) : @PlayerOutbox OutTx :=
  fold_left (fun ob event => push_reliable event ob) events ob.

Definition queue_visibility_diff (shared : SharedConfig) (map_entity : Entity) (observer : VisibilityObserver)
    (diff : VisibilityDiff) : Sim unit :=
  player_index <~ resource R_PlayerIndex;
  match player_index !! vo_player_id observer with
  | None => rollback_entered_visibility map_entity (vo_net_id observer) (vd_entered diff)
  | Some observer_entity =>
      '(snapshots, failed_targets) <~ fold_sim (entered_snapshot shared) (vd_entered diff) ([], []);
      rollback_entered_visibility map_entity (vo_net_id observer) failed_targets ;;
      entered <~ with_animations snapshots;
      has_outbox <~ entity_has K_PlayerOutbox observer_entity;
      if negb has_outbox
      then rollback_entered_visibility map_entity (vo_net_id observer) (map es_entity_id snapshots)
      else modify K_PlayerOutbox observer_entity (push_all (diff_events entered (vd_left diff)))
  end.

Definition reconcile_one_observer (shared : SharedConfig) (map_entity : Entity) (observer : VisibilityObserver)
    (interest_config : InterestConfig) : Sim unit :=
  spawn_candidates <~ visibility_candidates map_entity (vo_pos observer) (spawn_radius interest_config)
                        (vo_net_id observer);
  let_some spawn_candidates := spawn_candidates else done_ tt;
  retain_candidates <~ visibility_candidates map_entity (vo_pos observer) (despawn_radius interest_config)
                         (vo_net_id observer);
  let_some retain_candidates := retain_candidates else done_ tt;
  diff <~ reconcile_visibility map_entity observer spawn_candidates retain_candidates;
  queue_visibility_diff shared map_entity observer diff.

Definition aoi_reconcile : Sim unit :=
  state <~ runtime;
  if negb (is_dirty state) then done_ tt
  else
    shared <~ resource R_Shared;
    let_some map_entity := map_entity state else done_ tt;
    count <~ resource R_PlayerCount;
    if count =? 0 then update_resource R_Runtime (with_dirty false)
    else
      maintain_spatial map_entity ;;
      observers <~ collect_visibility_observers;
      for_each observers (fun observer => reconcile_one_observer shared map_entity observer InterestConfig_default) ;;
      update_resource R_Runtime (with_dirty false).

Definition bootstrap_observer_snapshot (observer_player_id : PlayerId) (observer_net_id : EntityId)
    (observer_pos : LocalPos) : Sim unit :=
  map_entity <~ the_map;
  let_some map_entity := map_entity else done_ tt;
  shared <~ resource R_Shared;
  maintain_spatial map_entity ;;
  reconcile_one_observer shared map_entity
    {| vo_player_id := observer_player_id; vo_net_id := observer_net_id; vo_pos := observer_pos |} InterestConfig_default.

(** ** Flushing *)
Fixpoint collect_recipients (ids : list EntityId) : Sim (list ObserverRecipient) :=
  match ids with
  | [] => done_ []
  | recipient_id :: ids =>
      entity <~ net_entity recipient_id;
      recipient <~
        (let_some entity := entity else done_ None;
         appearance <~ entity_get K_PlayerAppearance entity;
         done_ ((fun a => {| or_entity := entity; or_empire := pa_empire a |}) <$> appearance));
      rest <~ collect_recipients ids;
      done_ (option_list recipient ++ rest)
  end.
Definition observer_recipients (map_entity : Entity) (subject_entity_id : EntityId) (include_subject : bool)
  : Sim (list ObserverRecipient) :=
  replication <~ entity_get K_MapReplication map_entity;
  let recipient_ids := match replication with Some g => observers_for subject_entity_id g | None => [] end in
  let recipient_ids := recipient_ids ++ (if include_subject then [subject_entity_id] else []) in
  collect_recipients (dedup_ids (sort_ids recipient_ids)).

Definition mark_dirty (entity_id : EntityId) (pending : list EntityId) : list EntityId :=
  if decide (entity_id ∈ pending) then pending else pending ++ [entity_id].

(** The players whose component changed since it was added. *)
Definition changed_players (k : CompKind) (entities : list Entity) (w : World) : list Entity :=
  List.filter (fun e => changed_not_added k e w) entities.

Definition queue_changed_player_public_states : Sim unit :=
  state <~ runtime;
  match map_entity state with
  | None => done_ tt
  | Some map_entity =>
      pending <~ query_get K_MapDirtyEntityPublicStates map_entity;
      match pending with
      | None => done_ tt
      | Some _ =>
          entities <~ query [K_NetEntityId; K_PlayerAppearance; K_PlayerMarker];
          changed <~ reads_w (changed_players K_PlayerAppearance entities);
          for_each changed (fun e =>
            net_id <~ query_get K_NetEntityId e;
            let_some net_id := net_id else done_ tt;
            modify K_MapDirtyEntityPublicStates map_entity (mark_dirty net_id))
      end
  end ;;
  observed K_PlayerAppearance.

Definition flush_dirty_entity_public_states (map_entity : Entity) (dirty_entity_ids : list EntityId) : Sim unit :=
  shared <~ resource R_Shared;
  for_each dirty_entity_ids (fun entity_id =>
    public_state <~ make_entity_public_state shared entity_id;
    let_some public_state := public_state else done_ tt;
    recipients <~ observer_recipients map_entity entity_id true;
    for_each recipients (fun r => outbox_push (or_entity r) (EntityPublicStateChanged entity_id public_state))).

Definition animation_update (w : World) (e : Entity) : option (EntityId * MovementAnimation) :=
  net_id ← get K_NetEntityId e w;
  animation ← get K_PlayerMovementAnimation e w;
  Some (net_id, animation).
(** An exclusive system: what it sees as changed is what was written since its
    last run, whether or not there was a map then. *)
Definition flush_changed_player_movement_animations : Sim unit :=
  state <~ runtime;
  match map_entity state with
  | None => done_ tt
  | Some map_entity =>
      entities <~ query [K_NetEntityId; K_PlayerMovementAnimation; K_PlayerMarker];
      updates <~ reads_w (fun w => omap (animation_update w) (changed_players K_PlayerMovementAnimation entities w));
      for_each updates (fun '(entity_id, animation) =>
        recipients <~ observer_recipients map_entity entity_id true;
        for_each recipients (fun r => outbox_push (or_entity r) (SetEntityMovementAnimation entity_id animation)))
  end ;;
  observed K_PlayerMovementAnimation.

Definition movement_event (m : PendingMovement) : MovementEvent :=
  {| me_entity_id := pmv_entity_id m; me_kind := pmv_kind m; me_arg := pmv_arg m; me_facing := pmv_rot m;
     me_position := pmv_new_pos m; me_client_ts := pmv_ts m; me_duration := pmv_duration m |}.
Definition push_movement_event (m : PendingMovement) (ob : @PlayerOutbox OutTx) : @PlayerOutbox OutTx :=
  if pmv_reliable m then push_reliable (EntityMove (movement_event m)) ob
  else if bool_decide (is_Some (pmv_mover_player_id m)) &&
          (bool_decide (pmv_kind m = Kind_Move) || bool_decide (pmv_kind m = Kind_Wait))
  then set_latest_movement_with_priority (movement_event m) true ob
  else push_remote_movement (movement_event m) ob.
Definition flush_pending_movements (map_entity : Entity) (pending_movements : list PendingMovement) : Sim unit :=
  for_each pending_movements (fun m =>
    let include_subject := bool_decide (is_Some (pmv_mover_player_id m)) && bool_decide (pmv_kind m = Kind_Attack) in
    recipients <~ observer_recipients map_entity (pmv_entity_id m) include_subject;
    for_each recipients (fun r => modify K_PlayerOutbox (or_entity r) (push_movement_event m))).

(** The message's body is what stands between the name and the final zero. *)
Definition local_chat_message_for (pending_chat : PendingLocalChat) (recipient_empire : Empire) (preserve_pct : Z)
  : Sim bytes :=
  let message := format_talking_message (plc_speaker_name pending_chat) (plc_message pending_chat) in
  let message_body_start := (length (bytes_of (plc_speaker_name pending_chat)) + 3)%nat in
  let message_body_end := (length message - 1)%nat in
  if negb (bool_decide (recipient_empire = plc_speaker_empire pending_chat)) &&
     (message_body_start <? message_body_end)%nat
  then
    body <~ with_random (obfuscate_cross_empire_talking_body (plc_speaker_empire pending_chat)
              (take (message_body_end - message_body_start) (drop message_body_start message)) preserve_pct);
    done_ (take message_body_start message ++ body ++ drop message_body_end message)
  else done_ message.
Definition push_local_chat_event (recipient : ObserverRecipient) (pending_chat : PendingLocalChat) (preserve_pct : Z)
  : Sim unit :=
  message <~ local_chat_message_for pending_chat (or_empire recipient) preserve_pct;
  outbox_push (or_entity recipient)
    (Event_Chat (plc_channel pending_chat) (Some (plc_speaker_entity_id pending_chat))
       (Some (plc_speaker_empire pending_chat)) message).
Definition flush_pending_local_chats (map_entity : Entity) (pending_local_chats : list PendingLocalChat) : Sim unit :=
  for_each pending_local_chats (fun pending_chat =>
    recipients <~ observer_recipients map_entity (plc_speaker_entity_id pending_chat) true;
    for_each recipients (fun r => push_local_chat_event r pending_chat resolve_cross_empire_preserve_pct)).

Record PendingReplicationFlush : Type := {
  prf_dirty_public_states : list EntityId; prf_movements : list PendingMovement; prf_local_chats : list PendingLocalChat }.
(** [std::mem::take] of a component that is a vector. *)
Definition take_comp {A} (k : CompKind) (e : Entity) (of_comp : comp k -> list A) (nil_comp : comp k) : Sim (option (list A)) :=
  c <~ entity_get k e;
  let_some c := c else done_ None;
  sim_write k e nil_comp ;;
  done_ (Some (of_comp c)).
Definition drain_replication (map_entity : Entity) : Sim (option PendingReplicationFlush) :=
  dirty <~ take_comp K_MapDirtyEntityPublicStates map_entity (fun l => l) [];
  movements <~ take_comp K_MapPendingMovements map_entity (fun l => l) [];
  let_some movements := movements else done_ None;
  chats <~ take_comp K_MapPendingLocalChats map_entity (fun l => l) [];
  done_ (Some {| prf_dirty_public_states := default [] dirty; prf_movements := movements;
                 prf_local_chats := default [] chats |}).

Definition replication_flush : Sim unit :=
  map_entity <~ the_map;
  let_some map_entity := map_entity else done_ tt;
  pending <~ drain_replication map_entity;
  let_some pending := pending else done_ tt;
  movements <~ unstable_sort (prf_movements pending);
  flush_dirty_entity_public_states map_entity (prf_dirty_public_states pending) ;;
  flush_pending_movements map_entity movements ;;
  flush_pending_local_chats map_entity (prf_local_chats pending).

(** ** The outboxes *)
Definition player_entities_on_map : Sim (list Entity) := query [K_PlayerMarker].

Definition flush_outbox (e : Entity) : Sim unit :=
  outbox <~ entity_get K_PlayerOutbox e;
  let_some outbox := outbox else done_ tt;
  order <~ in_some_order (dom (movement_latest_player outbox));
  sim_write K_PlayerOutbox e (snd (flush order outbox)).
Definition outbox_flush : Sim unit :=
  player_entities <~ player_entities_on_map;
  for_each player_entities flush_outbox.
End Replicate.
