(* ===== verification/SimPresence.v ===== *)
(** Players on the map ([zohar-sim/src/runtime/player/lifecycle.rs]): entering,
    leaving, and the observers that keep the indexes in step with the entities. *)
From S2P Require Import Prelude Domain Float Space Entities StatSource StatsApi Hydrate Recovery MapPort Replication Outbox.
From S2P Require Import Channel Persist SimTime Motion Aoi SimTypes SimWorld SimLife SimQuery SimReplication.

Definition AUTOSAVE_INTERVAL : SimDuration := 30000.
Definition AUTOSAVE_RETRY_DELAY : SimDuration := 1000.
Definition STAT_TICKER_CADENCE : SimDuration := 250.

(** [PlayerPersistenceState::initial] *)
Definition PlayerPersistenceState_initial (player : PlayerId) (runtime_epoch persisted_playtime : Z) (now : SimInstant)
  : option PlayerPersistenceState :=
  autosave ← SimTickerClock_phased player now AUTOSAVE_INTERVAL;
  Some {| pp_dirty := false; pp_runtime_epoch := runtime_epoch; pp_persisted_playtime := persisted_playtime;
          pp_entered_map_at := now; pp_autosave := autosave |}.

(** [PlayerTicker::initial], [PlayerStatTickerComp::initial] *)
Definition PlayerTicker_initial {T} (state : T) (player : PlayerId) (now : SimInstant) (cadence : SimDuration)
  : option (PlayerTicker T) :=
  clock ← SimTickerClock_phased player now cadence;
  Some {| pt_clock := clock; pt_state := state |}.
Definition hp_recovery_default : PlayerPassiveHpRecoveryState := {| hp_accumulator := RateAccumulator_default |}.
Definition sp_recovery_default : PlayerPassiveSpRecoveryState := {| sp_accumulator := RateAccumulator_default |}.
Definition PlayerStatTickerComp_initial (player : PlayerId) (now : SimInstant) : option PlayerStatTickerComp :=
  hp ← PlayerTicker_initial hp_recovery_default player now STAT_TICKER_CADENCE;
  sp ← PlayerTicker_initial sp_recovery_default player now STAT_TICKER_CADENCE;
  stamina ← PlayerTicker_initial PlayerStaminaState_default player now STAT_TICKER_CADENCE;
  Some {| tick_passive_hp := hp; tick_passive_sp := sp; tick_stamina_ticker := stamina |}.

Section Presence.
Context `{SimEnv}.

(** ** Observers *)
Definition on_player_added (entity : Entity) : Sim unit :=
  marker <~ query_get K_PlayerMarker entity;
  let_some player := marker else done_ tt;
  net <~ query_get K_NetEntityId entity;
  let_some net_id := net else done_ tt;
  transform <~ query_get K_LocalTransform entity;
  let_some transform := transform else done_ tt;
  update_resource R_PlayerIndex (<[player := entity]>) ;;
  update_resource R_NetEntityIndex (<[net_id := entity]>) ;;
  update_resource R_PlayerCount (fun n => Z.min (n + 1) u32_max) ;;
  state <~ runtime;
  match map_entity state with
  | Some map_entity =>
      spatial <~ query_get K_MapSpatial map_entity;
      match spatial with
      | Some s => sim_write K_MapSpatial map_entity (snd (si_insert net_id (lt_pos transform) s))
      | None => done_ tt
      end
  | None => done_ tt
  end ;;
  mark_map_dirty.

(** What stays of the map's pending work when a player is gone. *)
Definition chat_stays (player : PlayerId) (net_id : EntityId) (chat : PendingLocalChat) : bool :=
  negb (plc_speaker_player_id chat =? player) && negb (plc_speaker_entity_id chat =? net_id).
Definition movement_stays (player : PlayerId) (net_id : EntityId) (m : PendingMovement) : bool :=
  negb (pmv_entity_id m =? net_id) && negb (bool_decide (pmv_mover_player_id m = Some player)).

(** The observers of the player who are players with an outbox. *)
Definition tell_despawn (entity : Entity) (net_id : EntityId) (observer_net : EntityId) : Sim unit :=
  index <~ resource R_NetEntityIndex;
  match index !! observer_net with
  | Some observer_entity =>
      if observer_entity =? entity then done_ tt
      else
        net <~ query_get K_NetEntityId observer_entity;
        marker <~ query_get K_PlayerMarker observer_entity;
        outbox <~ query_get K_PlayerOutbox observer_entity;
        match net, marker, outbox with
        | Some _, Some _, Some outbox =>
            sim_write K_PlayerOutbox observer_entity (push_reliable (EntityDespawn net_id) outbox)
        | _, _, _ => done_ tt
        end
  | None => done_ tt
  end.

Definition forget_player_on_map (map_entity entity : Entity) (player : PlayerId) (net_id : EntityId) : Sim unit :=
  spatial <~ query_get K_MapSpatial map_entity;
  let_some spatial := spatial else done_ tt;
  replication <~ query_get K_MapReplication map_entity;
  let_some replication := replication else done_ tt;
  chats <~ query_get K_MapPendingLocalChats map_entity;
  let_some chats := chats else done_ tt;
  movements <~ query_get K_MapPendingMovements map_entity;
  let_some movements := movements else done_ tt;
  states <~ query_get K_MapDirtyEntityPublicStates map_entity;
  let_some states := states else done_ tt;
  let '(_, replication) := remove_observer net_id replication in
  let '(observers, replication) := remove_target net_id replication in
  sim_write K_MapReplication map_entity replication ;;
  sim_write K_MapSpatial map_entity (snd (si_remove net_id spatial)) ;;
  sim_write K_MapPendingLocalChats map_entity (List.filter (chat_stays player net_id) chats) ;;
  sim_write K_MapPendingMovements map_entity (List.filter (movement_stays player net_id) movements) ;;
  sim_write K_MapDirtyEntityPublicStates map_entity (List.filter (fun id => negb (id =? net_id)) states) ;;
  for_each observers (tell_despawn entity net_id).

Definition on_player_removed (entity : Entity) : Sim unit :=
  marker <~ query_get K_PlayerMarker entity;
  let_some player := marker else done_ tt;
  net <~ query_get K_NetEntityId entity;
  let_some net_id := net else done_ tt;
  state <~ runtime;
  match map_entity state with
  | Some map_entity => forget_player_on_map map_entity entity player net_id
  | None => done_ tt
  end ;;
  update_resource R_PlayerIndex (delete player) ;;
  update_resource R_NetEntityIndex (delete net_id) ;;
  count <~ resource R_PlayerCount;
  let count := Z.max (count - 1) 0 in
  set_resource_ R_PlayerCount count ;;
  update_resource R_Runtime (with_dirty (0 <? count)).

(** [world.despawn]: the observers of the components removed run first. *)
Definition despawn (entity : Entity) : Sim unit :=
  alive <~ entity_alive entity;
  if negb alive then done_ tt
  else
    marker <~ query_get K_PlayerMarker entity;
    when (bool_decide (is_Some marker)) (on_player_removed entity) ;;
    erase entity.

(** ** Entering and leaving *)
Definition standing_at (pos : LocalPos) : PlayerMotionState :=
  {| pm_start_pos := pos; pm_end_pos := pos; pm_start_ts := 0; pm_end_ts := 0; pm_last_client_ts := 0 |}.

Definition player_bundle (msg : EnterMsg) (appearance : PlayerAppearance) (stats : ActorStatsRuntime)
    (outbox : @PlayerOutbox OutTx) (persistence : PlayerPersistenceState) : Bundle := fun k =>
  match k as k return option (comp k) with
  | K_PlayerMarker => Some (em_player_id msg)
  | K_NetEntityId => Some (em_player_net_id msg)
  | K_LocalTransform => Some {| lt_pos := em_initial_pos msg; lt_rot := 0 |}
  | K_PlayerMotion => Some (standing_at (em_initial_pos msg))
  | K_PlayerAppearance => Some appearance
  | K_PlayerProgression => Some (em_gameplay msg)
  | K_PlayerProgressionIntentQueue => Some []
  | K_PlayerPendingDurableFlush => Some None
  | K_PlayerStats => Some stats
  | K_PlayerMovementAnimation => Some Run
  | K_PlayerOutbox => Some outbox
  | K_PlayerTarget => Some None
  | K_PlayerCommandQueue => Some []
  | K_ChatIntentQueue => Some []
  | K_PlayerPersistence => Some persistence
  | _ => None
  end.

(** The appearance a player enters with. *)
Definition entering_appearance (msg : EnterMsg) (hydrated : HydratedPlayerStats) : PlayerAppearance :=
  let public := pub_stats (bs_public_state (hyd_bootstrap_sync hydrated)) in
  PlayerAppearance_from_parts (em_visual_profile msg) (pgb_class (em_gameplay msg)) (ps_level public)
    (ps_move_speed public) (ps_attack_speed public).

Definition handle_player_enter (msg : EnterMsg) (outbox : @PlayerOutbox OutTx) : Sim unit :=
  state <~ runtime;
  let now := sim_now state in
  shared <~ resource R_Shared;
  hydrated <~ unwrap (hydrate_player (sc_player_stats shared) (em_gameplay msg));
  hydrated <~ unwrap hydrated;
  let appearance := entering_appearance msg hydrated in
  index <~ resource R_PlayerIndex;
  match index !! em_player_id msg with Some existing_entity => despawn existing_entity | None => done_ tt end ;;
  let snapshot := make_player_snapshot (em_player_net_id msg) (em_initial_pos msg) 0 appearance in
  let outbox := push_reliable (EntitySpawn snapshot) (set_owner_player_id (em_player_id msg) outbox) in
  persistence <~ unwrap (PlayerPersistenceState_initial (em_player_id msg) (em_runtime_epoch msg) (em_playtime msg) now);
  player_entity <~ spawn_bundle (player_bundle msg appearance
                     (ActorStatsRuntime_new (hyd_source hydrated) (hyd_state hydrated)) outbox persistence);
  on_player_added player_entity ;;
  tickers <~ unwrap (PlayerStatTickerComp_initial (em_player_id msg) now);
  insert_comp K_ActorLife player_entity Alive ;;
  insert_comp K_PlayerActivity player_entity PlayerActivityComp_default ;;
  insert_comp K_PlayerRestartIntentQueue player_entity [] ;;
  insert_comp K_PlayerStatTicker player_entity tickers ;;
  bootstrap_observer_snapshot (em_player_id msg) (em_player_net_id msg) (em_initial_pos msg) ;;
  flush_outbox player_entity ;;
  mark_map_dirty.

(** The entity of a leave request, when it is still the one the request names. *)
Definition handle_player_leave (msg : LeaveMsg) : Sim unit :=
  index <~ resource R_PlayerIndex;
  let_some entity := index !! lm_player_id msg else done_ tt;
  net <~ entity_get K_NetEntityId entity;
  let_some current_net_id := net else done_ tt;
  if negb (current_net_id =? lm_player_net_id msg) then done_ tt else despawn entity.
End Presence.
