(* ===== verification/SimSave.v ===== *)
(** Saving players and spending their stat points
    ([zohar-sim/src/runtime/player/persistence.rs], [player/progression.rs], the
    handle of [persistence.rs]): the snapshot of a player, the autosave, and the
    durable flush a progression waits for. *)
From S2P Require Import Prelude Domain StatSource ActorState StatsApi Hydrate Recovery Float Space Entities Persist.
From S2P Require Import Text MapPort Channel Outbox Replication Segment Planner SimTime Motion Aoi SimTypes SimWorld.
From S2P Require Import SimSample SimLife SimQuery SimAction SimReplication SimPresence.

Definition DEAD_DISCONNECT_RESTART_HP : Z := 50.

(** [PlayerPlaytime::saturating_add]; durations are nanoseconds. *)
Definition PlayerPlaytime_saturating_add (playtime elapsed : Z) : Z := Z.min (playtime + elapsed) duration_max.

Record CurrentResources : Type := { cr_hp : option Z; cr_sp : option Z; cr_stamina : option Z }.
Definition current_resources (stats : ActorStatsRuntime) : CurrentResources :=
  {| cr_hp := Some (runtime_read_packet stats Stat.Hp); cr_sp := Some (runtime_read_packet stats Stat.Sp);
     cr_stamina := Some (runtime_read_packet stats Stat.Stamina) |}.
Definition reconnect_resources (stats : ActorStatsRuntime) (life : option ActorLifePhase) : CurrentResources :=
  let resources := current_resources stats in
  match life with
  | Some phase =>
      if negb (is_alive phase)
      then {| cr_hp := Some DEAD_DISCONNECT_RESTART_HP; cr_sp := cr_sp resources; cr_stamina := cr_stamina resources |}
      else resources
  | None => resources
  end.
Definition current_playtime (persistence : PlayerPersistenceState) (now : SimInstant) : Z :=
  PlayerPlaytime_saturating_add (pp_persisted_playtime persistence)
    (SimDuration_as_duration (SimInstant_saturating_sub now (pp_entered_map_at persistence))).

Definition player_progression_snapshot (progression : PlayerGameplayBootstrap) : PlayerProgressionSnapshot :=
  {| pps_level := pgb_level progression; pps_exp_in_level := pgb_exp_in_level progression;
     pps_core_stat_allocations := pgb_core_stat_allocations progression;
     pps_stat_reset_count := pgb_stat_reset_count progression |}.

Definition set_autosave (clock : SimTickerClock) (p : PlayerPersistenceState) : PlayerPersistenceState :=
  {| pp_dirty := pp_dirty p; pp_runtime_epoch := pp_runtime_epoch p; pp_persisted_playtime := pp_persisted_playtime p;
     pp_entered_map_at := pp_entered_map_at p; pp_autosave := clock |}.
Definition set_dirty (dirty : bool) (p : PlayerPersistenceState) : PlayerPersistenceState :=
  {| pp_dirty := dirty; pp_runtime_epoch := pp_runtime_epoch p; pp_persisted_playtime := pp_persisted_playtime p;
     pp_entered_map_at := pp_entered_map_at p; pp_autosave := pp_autosave p |}.

(** ** Progression errors *)
Definition core_stat_to_stat (stat : CoreStatKind) : Stat :=
  match stat with Core_St => Stat.St | Core_Ht => Stat.Ht | Core_Dx => Stat.Dx | Core_Iq => Stat.Iq end.
Definition core_stat_from_stat (stat : Stat) : option CoreStatKind :=
  match stat with
  | Stat.St => Some Core_St | Stat.Ht => Some Core_Ht | Stat.Dx => Some Core_Dx | Stat.Iq => Some Core_Iq | _ => None
  end.

Inductive ProgressionError : Type :=
| MissingPlayerState
| MissingPlayerClassConfig (player : PlayerId) (stat : CoreStatKind)
| InvalidProgressionState
| NoStatPoints
| NoStatResetPoints
| StatAtBaseFloor (stat : CoreStatKind)
| StatAtCap (stat : CoreStatKind) (cap : Z)
| SkillNotImplemented
| UnsupportedDelta (delta : Z)
| PersistenceQueue (source : TrySendError)
| StatWriteOutOfRange (stat : Stat) (min : option Z) (max attempted : Z)
| StatWriteFailed (stat : Stat) (error : StatWriteError).

(** [{:?}] of the derived [Debug]s, and the messages. *)
Definition stat_debug (s : Stat) : string :=
  match s with
  | Stat.Level => "Level" | Stat.Exp => "Exp" | Stat.NextExp => "NextExp" | Stat.Hp => "Hp" | Stat.MaxHp => "MaxHp"
  | Stat.Sp => "Sp" | Stat.MaxSp => "MaxSp" | Stat.Stamina => "Stamina" | Stat.MaxStamina => "MaxStamina"
  | Stat.Gold => "Gold" | Stat.St => "St" | Stat.Ht => "Ht" | Stat.Dx => "Dx" | Stat.Iq => "Iq"
  | Stat.DefGrade => "DefGrade" | Stat.AttSpeed => "AttSpeed" | Stat.AttGrade => "AttGrade"
  | Stat.MovSpeed => "MovSpeed" | Stat.DisplayedDefGrade => "DisplayedDefGrade" | Stat.CastingSpeed => "CastingSpeed"
  | Stat.MagicAttGrade => "MagicAttGrade" | Stat.MagicDefGrade => "MagicDefGrade" | Stat.LevelStep => "LevelStep"
  | Stat.StatPoints => "StatPoints" | Stat.HpRecovery => "HpRecovery" | Stat.SpRecovery => "SpRecovery"
  | Stat.ImmuneStun => "ImmuneStun" | Stat.ImmuneSlow => "ImmuneSlow" | Stat.ImmuneFall => "ImmuneFall"
  | Stat.PartyTankerBonus => "PartyTankerBonus" | Stat.AttGradeBonus => "AttGradeBonus"
  | Stat.DefGradeBonus => "DefGradeBonus" | Stat.MagicAttGradeBonus => "MagicAttGradeBonus"
  | Stat.MagicDefGradeBonus => "MagicDefGradeBonus" | Stat.PartySkillMasterBonus => "PartySkillMasterBonus"
  | Stat.Polymorph => "Polymorph" | Stat.Mount => "Mount" | Stat.PartyHasteBonus => "PartyHasteBonus"
  | Stat.PartyDefenderBonus => "PartyDefenderBonus" | Stat.StatResetCount => "StatResetCount"
  | Stat.MaxHpPct => "MaxHpPct" | Stat.MaxSpPct => "MaxSpPct" | Stat.ArmorDefence => "ArmorDefence"
  | Stat.MaxHpPrePctBonus => "MaxHpPrePctBonus" | Stat.BonusMaxHp => "BonusMaxHp" | Stat.BonusMaxSp => "BonusMaxSp"
  | Stat.BonusMaxStamina => "BonusMaxStamina"
  end%string.
Definition core_stat_debug (s : CoreStatKind) : string :=
  match s with Core_St => "St" | Core_Ht => "Ht" | Core_Dx => "Dx" | Core_Iq => "Iq" end%string.
Definition option_debug (o : option Z) : string :=
  match o with Some n => "Some(" ++ pretty.pretty n ++ ")" | None => "None" end%string.
Definition queue_error_text (e : TrySendError) : string :=
  match e with
  | Send_Full => "player persistence queue is full"
  | Send_Closed => "player persistence queue is closed"
  end%string.
Definition stat_write_error_text (e : StatWriteError) : string :=
  match e with
  | NotStored stat => stat_debug stat ++ " is not a stored stat"
  | RequiresTypedProgression stat => stat_debug stat ++ " must be updated via the typed progression API"
  | OutOfRange stat value min max =>
      stat_debug stat ++ " value " ++ pretty.pretty value ++ " is outside the allowed range " ++ option_debug min ++
      "..=" ++ pretty.pretty max
  | NotResource stat => stat_debug stat ++ " is not a resource stat"
  end%string.
Definition progression_error_text (e : ProgressionError) : string :=
  match e with
  | MissingPlayerState => "Player state is incomplete."
  | MissingPlayerClassConfig player stat =>
      "Missing player stat rules for DbId(" ++ pretty.pretty player ++
      ", PhantomData<zohar_domain::entity::player::PlayerTag>) " ++ core_stat_debug stat ++ "."
  | InvalidProgressionState => "Player progression state is invalid."
  | NoStatPoints => "No stat points available."
  | NoStatResetPoints => "No stat reset points available."
  | StatAtBaseFloor stat => core_stat_debug stat ++ " is already at its class base value."
  | StatAtCap stat cap => core_stat_debug stat ++ " is already at max (" ++ pretty.pretty cap ++ ")."
  | SkillNotImplemented => "Skill progression is not implemented yet."
  | UnsupportedDelta delta => "Unsupported progression delta " ++ pretty.pretty delta ++ "."
  | PersistenceQueue source => "Progression persistence queue failure: " ++ queue_error_text source ++ "."
  | StatWriteOutOfRange stat min max attempted =>
      stat_debug stat ++ " write out of range (" ++ pretty.pretty attempted ++ ", expected " ++ option_debug min ++
      "..=" ++ pretty.pretty max ++ ")."
  | StatWriteFailed stat error => "Failed to write " ++ stat_debug stat ++ ": " ++ stat_write_error_text error ++ "."
  end%string.

Definition map_stat_write_error (stat : Stat) (error : StatWriteError) : ProgressionError :=
  match error with
  | OutOfRange _ value min max =>
      match core_stat_from_stat stat with
      | Some core => if max <? value then StatAtCap core max else StatWriteOutOfRange stat min max value
      | None => StatWriteOutOfRange stat min max value
      end
  | other => StatWriteFailed stat other
  end.

Record ValidatedCoreStatSave : Type := {
  vs_stat : CoreStatKind; vs_progression : PlayerProgressionSnapshot; vs_new_absolute : Z; vs_stat_points_delta : Z }.

(** ** What a change of a core stat does to the allocations *)
Definition core_absolute (stat : CoreStatKind) (s : PlayerStats) : Z :=
  match stat with Core_St => stat_str s | Core_Ht => stat_vit s | Core_Dx => stat_dex s | Core_Iq => stat_int s end.
Definition allocation_of (stat : CoreStatKind) (a : CoreStatAllocations) : Z :=
  match stat with
  | Core_St => allocated_str a | Core_Ht => allocated_vit a | Core_Dx => allocated_dex a | Core_Iq => allocated_int a
  end.
Definition set_allocation (stat : CoreStatKind) (v : Z) (a : CoreStatAllocations) : CoreStatAllocations :=
  {| allocated_str := if stat is Core_St then v else allocated_str a;
     allocated_vit := if stat is Core_Ht then v else allocated_vit a;
     allocated_dex := if stat is Core_Dx then v else allocated_dex a;
     allocated_int := if stat is Core_Iq then v else allocated_int a |}.
(** The allocations, the reset count, the new value of the stat and the change of
    the points available. *)
Definition core_stat_change (stat : CoreStatKind) (delta stat_points : Z) (stats : PlayerStats) (allocations : CoreStatAllocations)
    (stat_reset_count : Z) : result (CoreStatAllocations * Z * Z * Z) ProgressionError :=
  let slot := allocation_of stat allocations in
  let current_absolute := core_absolute stat stats in
  if delta =? 1 then
    if stat_reset_count <? 0 then Err InvalidProgressionState
    else if stat_points <=? 0 then Err NoStatPoints
    else Ok (set_allocation stat (slot +% 1) allocations, stat_reset_count, current_absolute +% 1, -1)
  else if delta =? -1 then
    if stat_reset_count <=? 0 then Err NoStatResetPoints
    else if slot <=? 0 then Err (StatAtBaseFloor stat)
    else Ok (set_allocation stat (slot - 1) allocations, stat_reset_count - 1, current_absolute -% 1, 1)
  else Err (UnsupportedDelta delta).

Section Save.
Context `{SimEnv}.

(** ** Snapshots *)
Definition snapshot_local_pos (map : MapConfig) (state : RuntimeState) (transform : LocalTransform)
    (motion : option PlayerMotionState) : LocalPos :=
  match motion with
  | None => lt_pos transform
  | Some motion =>
      let sampled := sample_player_visual_position_at motion (packet_now state) in
      match mcfg_navigator map with
      | Some navigator =>
          if can_stand (terrain navigator) sampled then sampled
          else
            let clipped := clip_segment (terrain navigator) env_hypot (pm_start_pos motion) sampled in
            if can_stand (terrain navigator) clipped then clipped else sampled
      | None => sampled
      end
  end.

Definition player_runtime_snapshot (map : MapConfig) (state : RuntimeState) (player : PlayerId) (runtime_epoch playtime : Z)
    (transform : LocalTransform) (motion : option PlayerMotionState) (resources : CurrentResources) : PlayerRuntimeSnapshot :=
  {| prs_id := player; prs_runtime_epoch := runtime_epoch; prs_map_key := mik_map_id (mcfg_map_key map);
     prs_local_pos := snapshot_local_pos map state transform motion; prs_playtime := playtime;
     prs_current_hp := cr_hp resources; prs_current_sp := cr_sp resources; prs_current_stamina := cr_stamina resources |}.

(** ** Marking *)
Definition set_player_dirty (player_entity : Entity) : Sim unit :=
  alive <~ entity_alive player_entity;
  when alive (modify K_PlayerPersistence player_entity (set_dirty true)).
Definition process_player_dirty_events : Sim unit :=
  effects <~ facts;
  for_each (map (fun c => ar_entity (arc_actor c)) (ff_resources_changed effects) ++ ff_player_dirty effects)
    set_player_dirty.

(** ** The queue of the persistence worker *)
Definition schedule_save (request : PlayerPersistenceRequest) : Sim (result unit TrySendError) :=
  port <~ resource R_PersistencePort;
  match port with
  | None => done_ (Ok tt)
  | Some ch =>
      let '(r, ch) := try_send ch request in
      set_resource_ R_PersistencePort (Some ch) ;;
      done_ r
  end.
Definition try_schedule_autosave (snapshot : PlayerSnapshot) : Sim (result unit TrySendError) :=
  schedule_save (SaveSnapshot snapshot Autosave None).
Definition try_schedule_flush (snapshot : PlayerSnapshot) : Sim (result ReplyRx TrySendError) :=
  port <~ resource R_PersistencePort;
  match port with
  | None => done_ (Ok Rx_answered)
  | Some _ =>
      reply <~ oneshot_channel;
      r <~ schedule_save (SaveSnapshot snapshot FlushNow (Some reply));
      done_ (match r with Ok _ => Ok (Rx_worker reply) | Err e => Err e end)
  end.

(** ** Autosave *)
Definition autosave_kinds : list CompKind :=
  [K_PlayerMarker; K_LocalTransform; K_PlayerProgression; K_PlayerStats; K_PlayerPersistence].

(** [None] in the clock is the loop that does not end. *)
Definition advance_autosave (player_entity : Entity) (persistence : PlayerPersistenceState) (now : SimInstant) : Sim unit :=
  '(_, clock) <~ unwrap (advance_due (pp_autosave persistence) now);
  sim_write K_PlayerPersistence player_entity (set_autosave clock persistence).

Definition autosave_snapshot (map : MapConfig) (state : RuntimeState) (player_entity : Entity) (player : PlayerId)
    (transform : LocalTransform) (progression : PlayerGameplayBootstrap) (stats : ActorStatsRuntime)
    (persistence : PlayerPersistenceState) (motion : option PlayerMotionState) : PlayerSnapshot :=
  {| snapshot_runtime := player_runtime_snapshot map state player (pp_runtime_epoch persistence)
       (current_playtime persistence (sim_now state)) transform motion (current_resources stats);
     snapshot_progression := player_progression_snapshot progression |}.

Definition autosave_player (map : MapConfig) (state : RuntimeState) (player_entity : Entity) : Sim unit :=
  let now := sim_now state in
  marker <~ query_get K_PlayerMarker player_entity;
  let_some player := marker else done_ tt;
  transform <~ query_get K_LocalTransform player_entity;
  let_some transform := transform else done_ tt;
  progression <~ query_get K_PlayerProgression player_entity;
  let_some progression := progression else done_ tt;
  stats <~ query_get K_PlayerStats player_entity;
  let_some stats := stats else done_ tt;
  persistence <~ query_get K_PlayerPersistence player_entity;
  let_some persistence := persistence else done_ tt;
  if negb (is_due (pp_autosave persistence) now) then done_ tt
  else
    pending_flush <~ query_get K_PlayerPendingDurableFlush player_entity;
    if match pending_flush with Some (Some _) => true | _ => false end then done_ tt
    else if negb (pp_dirty persistence) then advance_autosave player_entity persistence now
    else
      motion <~ query_get K_PlayerMotion player_entity;
      r <~ try_schedule_autosave
             (autosave_snapshot map state player_entity player transform progression stats persistence motion);
      match r with
      | Ok _ => advance_autosave player_entity (set_dirty false persistence) now
      | Err _ =>
          sim_write K_PlayerPersistence player_entity
            (set_autosave (retry_after (pp_autosave persistence) now AUTOSAVE_RETRY_DELAY) persistence)
      end.
Definition enqueue_due_autosaves : Sim unit :=
  map <~ resource R_MapConfig;
  state <~ runtime;
  entities <~ query autosave_kinds;
  for_each entities (autosave_player map state).

(** ** Captured snapshots; [None] stands for the error that refuses one *)
Definition capture_player_snapshot (player_entity : Entity) (progression : PlayerProgressionSnapshot)
  : Sim (option PlayerSnapshot) :=
  marker <~ entity_get K_PlayerMarker player_entity;
  let_some player := marker else done_ None;
  transform <~ entity_get K_LocalTransform player_entity;
  let_some transform := transform else done_ None;
  persistence <~ entity_get K_PlayerPersistence player_entity;
  let_some persistence := persistence else done_ None;
  stats <~ entity_get K_PlayerStats player_entity;
  let_some stats := stats else done_ None;
  map <~ resource R_MapConfig;
  state <~ runtime;
  motion <~ entity_get K_PlayerMotion player_entity;
  done_ (Some {| snapshot_runtime := player_runtime_snapshot map state player (pp_runtime_epoch persistence)
                   (current_playtime persistence (sim_now state)) transform motion (current_resources stats);
                 snapshot_progression := progression |}).

Definition active_player_entity (msg : LeaveMsg) : Sim (option Entity) :=
  index <~ resource R_PlayerIndex;
  let_some entity := index !! lm_player_id msg else done_ None;
  net <~ entity_get K_NetEntityId entity;
  let_some current_net_id := net else done_ None;
  if negb (current_net_id =? lm_player_net_id msg) then done_ None else done_ (Some entity).

Definition capture_active_player_snapshot (msg : LeaveMsg) : Sim (option PlayerSnapshot) :=
  entity <~ active_player_entity msg;
  let_some entity := entity else done_ None;
  progression <~ entity_get K_PlayerProgression entity;
  let_some progression := progression else done_ None;
  capture_player_snapshot entity (player_progression_snapshot progression).

Definition leave_player_and_snapshot (msg : LeaveMsg) : Sim (option PlayerSnapshot) :=
  entity <~ active_player_entity msg;
  let_some entity := entity else done_ None;
  transform <~ entity_get K_LocalTransform entity;
  let_some transform := transform else done_ None;
  persistence <~ entity_get K_PlayerPersistence entity;
  let_some persistence := persistence else done_ None;
  progression <~ entity_get K_PlayerProgression entity;
  let_some progression := progression else done_ None;
  stats <~ entity_get K_PlayerStats entity;
  let_some stats := stats else done_ None;
  life <~ entity_get K_ActorLife entity;
  map <~ resource R_MapConfig;
  state <~ runtime;
  motion <~ entity_get K_PlayerMotion entity;
  let snapshot :=
    {| snapshot_runtime := player_runtime_snapshot map state (lm_player_id msg) (pp_runtime_epoch persistence)
         (current_playtime persistence (sim_now state)) transform motion (reconnect_resources stats life);
       snapshot_progression := player_progression_snapshot progression |} in
  despawn entity ;;
  done_ (Some snapshot).

(** ** Progression *)
Definition feedback_event (message : string) : PlayerEvent :=
  Event_Chat Chat_Info None None (bytes_of message ++ [0]).
Definition push_feedback (player_entity : Entity) (message : string) : Sim unit :=
  outbox_push player_entity (feedback_event message).

(** The state of the reply a player waits for. *)
Definition poll_pending_save (player_entity : Entity) : Sim (option PlayerPersistenceResult) :=
  pending <~ query_get K_PlayerPendingDurableFlush player_entity;
  match pending with
  | Some (Some rx) =>
      reply <~ try_recv rx;
      done_ (match reply with
             | Recv_Value r => Some r
             | Recv_Empty => None
             | Recv_Closed => Some (Err "player state flush reply dropped"%string)
             end)
  | _ => done_ None
  end.
Definition finalize_pending_save (player_entity : Entity) : Sim unit :=
  poll <~ poll_pending_save player_entity;
  let_some r := poll else done_ tt;
  sim_write K_PlayerPendingDurableFlush player_entity None ;;
  match r with
  | Ok _ => done_ tt
  | Err error =>
      mark_player_dirty player_entity ;;
      push_feedback player_entity (error ++ "; player state will retry on the next autosave.")%string
  end.
Definition has_pending_save (player_entity : Entity) : Sim bool :=
  pending <~ query_get K_PlayerPendingDurableFlush player_entity;
  done_ (match pending with Some (Some _) => true | _ => false end).

Definition validate_core_stat_intent (player_entity : Entity) (stat : CoreStatKind) (delta : Z)
  : Sim (result ValidatedCoreStatSave ProgressionError) :=
  shared <~ resource R_Shared;
  marker <~ query_get K_PlayerMarker player_entity;
  let_some player := marker else done_ (Err MissingPlayerState);
  progression <~ query_get K_PlayerProgression player_entity;
  let_some progression := progression else done_ (Err MissingPlayerState);
  stats <~ query_get K_PlayerStats player_entity;
  let_some stats := stats else done_ (Err MissingPlayerState);
  let_some current_stats :=
    resolve_player_stats (class_stats (sc_player_stats shared)) (pgb_class progression)
      (pgb_core_stat_allocations progression) else done_ (Err (MissingPlayerClassConfig player stat));
  match core_stat_change stat delta (runtime_read_packet stats Stat.StatPoints) current_stats
          (pgb_core_stat_allocations progression) (pgb_stat_reset_count progression) with
  | Err e => done_ (Err e)
  | Ok (allocations, stat_reset_count, new_absolute, stat_points_delta) =>
      valid <~ unwrap (validate_stored_stat stats (core_stat_to_stat stat) new_absolute);
      match valid with
      | Err e => done_ (Err (map_stat_write_error (core_stat_to_stat stat) e))
      | Ok _ =>
          done_ (Ok {| vs_stat := stat;
                       vs_progression := {| pps_level := pgb_level progression;
                                            pps_exp_in_level := pgb_exp_in_level progression;
                                            pps_core_stat_allocations := allocations;
                                            pps_stat_reset_count := stat_reset_count |};
                       vs_new_absolute := new_absolute; vs_stat_points_delta := stat_points_delta |})
      end
  end.

(** The three writes of [apply_stat_kernel_update]; the first that fails ends it. *)
Definition kernel_writes (source : ActorStatSource) (stat_id : Stat) (new_absolute points stat_reset_count : Z)
    (state : ActorStatState unit unit) : option (ActorStatState unit unit * result unit ProgressionError) :=
  match set_stored_stat source stat_id new_absolute state with
  | None => None
  | Some (state, Err e) => Some (state, Err (map_stat_write_error stat_id e))
  | Some (state, Ok _) =>
      match set_stored_stat source Stat.StatPoints points state with
      | None => None
      | Some (state, Err e) => Some (state, Err (map_stat_write_error Stat.StatPoints e))
      | Some (state, Ok _) =>
          match set_stored_stat source Stat.StatResetCount stat_reset_count state with
          | None => None
          | Some (state, Err e) => Some (state, Err (map_stat_write_error Stat.StatResetCount e))
          | Some (state, Ok _) => Some (state, Ok tt)
          end
      end
  end.
Definition apply_public_state (update : ActorPublicState) (a : PlayerAppearance) : PlayerAppearance :=
  {| pa_name := pa_name a; pa_class := pa_class a; pa_gender := pa_gender a; pa_empire := pa_empire a;
     pa_body_part := pa_body_part a; pa_level := ps_level (pub_stats update); pa_guild_id := pa_guild_id a;
     pa_move_speed := ps_move_speed (pub_stats update); pa_attack_speed := ps_attack_speed (pub_stats update) |}.
(** [stats.normalize()] of a player, its public state shown in the appearance. *)
Definition normalize_player (player_entity : Entity) (stats : ActorStatsRuntime) (appearance : PlayerAppearance) : Sim unit :=
  '(stats, sync) <~ unwrap (normalize stats);
  sim_write K_PlayerStats player_entity stats ;;
  match sync_public sync with
  | Some update => sim_write K_PlayerAppearance player_entity (apply_public_state update appearance)
  | None => done_ tt
  end.
Definition apply_stat_kernel_update (player_entity : Entity) (stats : ActorStatsRuntime) (appearance : PlayerAppearance)
    (stat : CoreStatKind) (new_absolute stat_reset_count stat_points_delta : Z) : Sim (result unit ProgressionError) :=
  let points := runtime_read_packet stats Stat.StatPoints +% stat_points_delta in
  '(stats, r) <~ unwrap (with_api_mut (fun source =>
    kernel_writes source (core_stat_to_stat stat) new_absolute points stat_reset_count) stats);
  sim_write K_PlayerStats player_entity stats ;;
  match r with
  | Err e => done_ (Err e)
  | Ok _ => normalize_player player_entity stats appearance ;; done_ (Ok tt)
  end.

Definition set_progression (p : PlayerProgressionSnapshot) (b : PlayerGameplayBootstrap) : PlayerGameplayBootstrap :=
  {| pgb_player_id := pgb_player_id b; pgb_class := pgb_class b; pgb_level := pgb_level b;
     pgb_exp_in_level := pgb_exp_in_level b; pgb_core_stat_allocations := pps_core_stat_allocations p;
     pgb_stat_reset_count := pps_stat_reset_count p; pgb_current_hp := pgb_current_hp b; pgb_current_sp := pgb_current_sp b;
     pgb_current_stamina := pgb_current_stamina b |}.
Definition apply_validated_core_stat_save (player_entity : Entity) (validated : ValidatedCoreStatSave)
  : Sim (result unit ProgressionError) :=
  progression <~ query_get K_PlayerProgression player_entity;
  let_some progression := progression else done_ (Err MissingPlayerState);
  stats <~ query_get K_PlayerStats player_entity;
  let_some stats := stats else done_ (Err MissingPlayerState);
  appearance <~ query_get K_PlayerAppearance player_entity;
  let_some appearance := appearance else done_ (Err MissingPlayerState);
  r <~ apply_stat_kernel_update player_entity stats appearance (vs_stat validated) (vs_new_absolute validated)
         (pps_stat_reset_count (vs_progression validated)) (vs_stat_points_delta validated);
  match r with
  | Err e => done_ (Err e)
  | Ok _ =>
      sim_write K_PlayerProgression player_entity (set_progression (vs_progression validated) progression) ;;
      done_ (Ok tt)
  end.

Definition enqueue_progression_intent (player_entity : Entity) (intent : PlayerProgressionIntent)
  : Sim (result (option ReplyRx) ProgressionError) :=
  match intent with
  | Progression_CoreStat stat delta =>
      validated <~ validate_core_stat_intent player_entity stat delta;
      match validated with
      | Err e => done_ (Err e)
      | Ok validated =>
          snapshot <~ capture_player_snapshot player_entity (vs_progression validated);
          let_some snapshot := snapshot else done_ (Err MissingPlayerState);
          reply <~ try_schedule_flush snapshot;
          match reply with
          | Err e => done_ (Err (PersistenceQueue e))
          | Ok rx =>
              applied <~ apply_validated_core_stat_save player_entity validated;
              done_ (match applied with Err e => Err e | Ok _ => Ok (Some rx) end)
          end
      end
  | Progression_SkillLevel _ _ => done_ (Err SkillNotImplemented)
  end.

(** The intents in order, until one waits for its save; those after it stay. *)
Fixpoint run_progression_intents (player_entity : Entity) (intents : list PlayerProgressionIntent)
  : Sim (list PlayerProgressionIntent) :=
  match intents with
  | [] => done_ []
  | intent :: intents =>
      r <~ enqueue_progression_intent player_entity intent;
      match r with
      | Ok (Some save) =>
          pending <~ query_get K_PlayerPendingDurableFlush player_entity;
          when (bool_decide (is_Some pending)) (sim_write K_PlayerPendingDurableFlush player_entity (Some save)) ;;
          done_ intents
      | Ok None => run_progression_intents player_entity intents
      | Err error =>
          push_feedback player_entity (progression_error_text error) ;;
          run_progression_intents player_entity intents
      end
  end.
Definition enqueue_progression_intents (player_entity : Entity) : Sim unit :=
  queue <~ query_get K_PlayerProgressionIntentQueue player_entity;
  let_some intents := queue else done_ tt;
  sim_write K_PlayerProgressionIntentQueue player_entity [] ;;
  if bool_decide (intents = []) then done_ tt
  else
    remaining <~ run_progression_intents player_entity intents;
    if bool_decide (remaining = []) then done_ tt
    else
      queue <~ query_get K_PlayerProgressionIntentQueue player_entity;
      let_some queue := queue else done_ tt;
      sim_write K_PlayerProgressionIntentQueue player_entity (remaining ++ queue).

Definition progress_player (player_entity : Entity) : Sim unit :=
  alive <~ entity_alive player_entity;
  if negb alive then done_ tt
  else
    finalize_pending_save player_entity ;;
    waiting <~ has_pending_save player_entity;
    if (waiting : bool) then done_ tt
    else
      enqueue_progression_intents player_entity ;;
      finalize_pending_save player_entity.
Definition process_player_progression : Sim unit :=
  player_entities <~ player_entities_on_map;
  for_each player_entities progress_player.
End Save.

(** ** What an autosave does *)
Section AutosaveSpec.
Context `{SimEnv} `{!MpscLaws PersistTx PlayerPersistenceRequest}.

(** The requests the persistence worker has been sent. *)
Definition requested (w : World) : list PlayerPersistenceRequest :=
  match w_res w R_PersistencePort with Some ch => accepted_values ch | None => [] end.
Definition flush_pending (e : Entity) (w : World) : bool :=
  match get K_PlayerPendingDurableFlush e w with Some (Some _) => true | _ => false end.
(** Nothing but the player's persistence component is different. *)
Definition only_persistence (e : Entity) (w w' : World) : Prop :=
  (forall k e', k <> K_PlayerPersistence \/ e <> e' -> get k e' w' = get k e' w) /\
  (forall r, r <> R_PersistencePort -> w_res w' r = w_res w r).

Lemma write_only_persistence e p w : only_persistence e w (write K_PlayerPersistence e p w).
Proof.
  split; [intros k e' [N | N]; apply get_write_ne; auto | intros r _; apply res_write].
Qed.
Lemma requested_write k e v w : requested (write k e v w) = requested w.
Proof. unfold requested. by rewrite res_write. Qed.

Lemma try_schedule_autosave_spec snapshot w : exists r w',
  try_schedule_autosave snapshot w = Some (r, w') /\ (forall k e, get k e w' = get k e w) /\
  (forall k, k <> R_PersistencePort -> w_res w' k = w_res w k) /\
  (forall e, live e w -> live e w') /\
  match r with
  | Ok _ => w_res w R_PersistencePort = None \/ requested w' = requested w ++ [SaveSnapshot snapshot Autosave None]
  | Err _ => requested w' = requested w
  end.
Proof.
  unfold try_schedule_autosave, schedule_save, sim_bind, resource, reads_w, set_resource_, done_.
  destruct (w_res w R_PersistencePort) as [ch |] eqn:P.
  - pose proof (try_send_spec ch (SaveSnapshot snapshot Autosave None)) as S.
    destruct (try_send ch _) as [r ch'] eqn:T. cbn in S. eexists r, _. split; [done |]. split; [done |].
    split; [intros k N; by apply res_set_ne |]. split; [done |]. unfold requested.
    rewrite res_set_eq, P, S. destruct r; [by right |]. by rewrite app_nil_r.
  - eexists (Ok tt), w. split_and!; auto.
Qed.

Lemma live_write k e v w e' : live e' w -> live e' (write k e v w).
Proof.
  unfold live, write. destruct (w_entities w !! e) eqn:E; [| done]. cbn. intros L.
  destruct (decide (e = e')) as [-> |]; [rewrite lookup_insert_eq | rewrite lookup_insert_ne]; done.
Qed.

(** [C24] An autosave runs only when the player's clock is due and no durable flush
    is pending; then the clock always moves past the present.  A clean player
    sends nothing; a dirty one has exactly its current snapshot sent and becomes
    clean, or, when the queue refuses it, stays dirty and is tried again in a
    second.  Nothing else in the world changes. *)
Theorem autosave_player_spec e w player transform progression stats p :
  get K_PlayerMarker e w = Some player -> get K_LocalTransform e w = Some transform ->
  get K_PlayerProgression e w = Some progression -> get K_PlayerStats e w = Some stats ->
  get K_PlayerPersistence e w = Some p -> clock_wf (pp_autosave p) ->
  let map := w_res w R_MapConfig in
  let state := w_res w R_Runtime in
  let now := sim_now state in
  0 <= now < u64_max ->
  exists w' p', autosave_player map state e w = Some (tt, w') /\ only_persistence e w w' /\
    get K_PlayerPersistence e w' = Some p' /\ clock_wf (pp_autosave p') /\
    (is_due (pp_autosave p) now = false \/ flush_pending e w = true -> w' = w) /\
    (is_due (pp_autosave p) now = true -> flush_pending e w = false ->
       is_due (pp_autosave p') now = false /\
       (pp_dirty p = false -> pp_dirty p' = false /\ requested w' = requested w) /\
       (pp_dirty p = true ->
          (pp_dirty p' = false /\
             (w_res w R_PersistencePort = None \/ requested w' = requested w ++
                [SaveSnapshot (autosave_snapshot map state e player transform progression stats p
                                 (get K_PlayerMotion e w)) Autosave None]))
          \/ (p' = set_autosave (retry_after (pp_autosave p) now AUTOSAVE_RETRY_DELAY) p /\ requested w' = requested w))).
Proof.
  intros Gm Gt Gp Gs Gc W map state now Hn. unfold autosave_player, flush_pending.
  unfold query_get, sim_bind, reads_w, done_. rewrite Gm, Gt, Gp, Gs, Gc. cbn [sim_now]. fold now.
  pose proof (get_live _ _ _ _ Gc) as L.
  destruct (is_due (pp_autosave p) now) eqn:D; cbn [negb].
  2: { exists w, p. split_and!; done. }
  destruct (match get K_PlayerPendingDurableFlush e w with Some (Some _) => true | _ => false end) eqn:F.
  { exists w, p. split_and!; done. }
  destruct (advance_due_total (pp_autosave p) now W Hn) as (r & c & E & Wc & _ & Dc & _).
  unfold advance_autosave. destruct (pp_dirty p) eqn:Hd; cbn [negb].
  - destruct (try_schedule_autosave_spec
      (autosave_snapshot map state e player transform progression stats p (get K_PlayerMotion e w)) w)
      as (q & w1 & Es & G1 & R1 & L1 & Q1).
    rewrite Es. unfold sim_bind, unwrap, sim_write, done_. destruct q as [[] | err].
    + cbn [pp_autosave set_dirty]. rewrite E. eexists _, _. split; [done |]. split_and!.
      * split; [intros k e' N; rewrite get_write_ne by (by destruct N; [left | right]); apply G1 |].
        intros k N. rewrite res_write. auto.
      * apply get_write_eq. auto.
      * done.
      * intros [|]; done.
      * intros _ _. split; [done |]. split; [done |]. intros _. left. split; [done |].
        by rewrite requested_write.
    + eexists _, _. split; [done |]. split_and!.
      * split; [intros k e' N; rewrite get_write_ne by (by destruct N; [left | right]); apply G1 |].
        intros k N. rewrite res_write. auto.
      * apply get_write_eq. auto.
      * apply retry_after_wf; [done | unfold is_u64; lia].
      * intros [|]; done.
      * intros _ _. split.
        { unfold is_due. cbn. unfold SimInstant_saturating_add, u64_sat, clampc, AUTOSAVE_RETRY_DELAY. apply Z.leb_gt. lia. }
        split; [done |]. intros _. right. split; [done |]. by rewrite requested_write.
  - unfold sim_bind, unwrap, sim_write, done_. rewrite E. eexists _, _. split; [done |]. split_and!.
    + apply write_only_persistence.
    + by apply get_write_eq.
    + done.
    + intros [|]; done.
    + intros _ _. split; [done |]. split; [| done]. intros _. by rewrite requested_write.
Qed.
End AutosaveSpec.

(** A dirty player whose clock is due, and room in the queue. *)
Definition due_player : PlayerPersistenceState :=
  {| pp_dirty := true; pp_runtime_epoch := 1; pp_persisted_playtime := 0; pp_entered_map_at := 0;
     pp_autosave := {| last_processed_at := 0; next_due_at := 30000; cadence := 30000 |} |}.
Definition due_bundle : Bundle := fun k =>
  match k as k return option (comp k) with
  | K_PlayerMarker => Some 42
  | K_LocalTransform => Some {| lt_pos := mk_pos f32_zero f32_zero; lt_rot := 0 |}
  | K_PlayerProgression => Some sample_bootstrap
  | K_PlayerStats => Some (ActorStatsRuntime_new (Source_Player Samples.sample_player) (ActorStatState_new ActorKind_Player))
  | K_PlayerPersistence => Some due_player
  | _ => None
  end.
Definition due_res (r : ResKind) : res r :=
  match r as r return res r with
  | R_Runtime => {| next_net_id := 0; next_pack_id := 0; map_entity := None; is_dirty := false; sim_now := 31000; rng := 0 |}
  | R_PlayerIndex | R_NetEntityIndex => ∅
  | R_PlayerCount => 1
  | R_PortalPoll => {| next_poll_at := 0; overlaps := ∅ |}
  | R_ActionBuffer | R_MobAggroDispatch | R_AttackCommands | R_DelayedAttacks => []
  | R_FrameFacts => FrameFacts_default
  | R_Shared => sample_shared
  | R_MapConfig => sample_map []
  | R_PersistencePort => Some sample_queue
  end.
Definition due_world : World :=
  {| w_entities := {[0 := due_bundle]}; w_next_entity := 1; w_fate := 0; w_changed := fun _ => ∅; w_added := fun _ => ∅;
     w_res := due_res |}.
Lemma autosave_player_spec_witness : exists w' p',
  autosave_player (sample_map []) (due_res R_Runtime) 0 due_world = Some (tt, w') /\
  get K_PlayerPersistence 0 w' = Some p' /\
  (pp_dirty p' = false /\ length (requested w') = 1%nat \/ next_due_at (pp_autosave p') = 32000 /\ requested w' = []).
Proof.
  destruct (autosave_player_spec 0 due_world 42 {| lt_pos := mk_pos f32_zero f32_zero; lt_rot := 0 |} sample_bootstrap
    (ActorStatsRuntime_new (Source_Player Samples.sample_player) (ActorStatState_new ActorKind_Player)) due_player)
    as (w' & p' & E & _ & G & _ & _ & D); try reflexivity.
  - split; cbn; unfold is_u64, u64_max; lia.
  - cbn. unfold u64_max. lia.
  - exists w', p'. split; [exact E |]. split; [exact G |].
    destruct (D eq_refl eq_refl) as (_ & _ & [[Hd [R | R]] | [Hp R]]); [reflexivity | discriminate R | |].
    + left. split; [exact Hd |]. rewrite R. reflexivity.
    + right. rewrite Hp. split; [reflexivity | exact R].
Defined.

(** ** Stat points are conserved *)
Definition allocated_total (a : CoreStatAllocations) : Z :=
  allocated_str a + allocated_vit a + allocated_dex a + allocated_int a.

(** [C28] A change of a core stat that is accepted moves exactly one point between
    the points available and that stat: the points allocated and available add up
    to what they did, no other stat changes, taking a point back costs one reset
    and never goes below what was allocated; every other request is refused. *)
Theorem core_stat_change_conserves stat delta points stats allocations resets a r v d :
  is_i32 points -> is_i32 (allocation_of stat allocations) -> allocation_of stat allocations < i32_max ->
  is_i32 (core_absolute stat stats) -> i32_min < core_absolute stat stats < i32_max ->
  core_stat_change stat delta points stats allocations resets = Ok (a, r, v, d) ->
  allocated_total a + (points + d) = allocated_total allocations + points /\ d = - delta /\
  allocation_of stat a = allocation_of stat allocations + delta /\ v = core_absolute stat stats + delta /\
  (forall other, other <> stat -> allocation_of other a = allocation_of other allocations) /\
  0 <= r /\
  (delta = 1 /\ r = resets /\ 0 <= points + d \/ delta = -1 /\ r = resets - 1 /\ 0 <= allocation_of stat a).
Proof.
  intros Hp Hs Hsl Ha Hal. unfold core_stat_change.
  assert (allocation_of stat allocations +% 1 = allocation_of stat allocations + 1) as A1.
  { apply add32_id. unfold_widths; lia. }
  assert (core_absolute stat stats +% 1 = core_absolute stat stats + 1) as A2.
  { apply add32_id. unfold_widths; lia. }
  assert (core_absolute stat stats -% 1 = core_absolute stat stats - 1) as A3.
  { apply sub32_id. unfold_widths; lia. }
  rewrite A1, A2, A3.
  destruct (Z.eqb_spec delta 1) as [-> |].
  - destruct (Z.ltb_spec resets 0); [done |]. destruct (Z.leb_spec points 0); [done |]. intros [= <- <- <- <-].
    split_and!; try lia; destruct stat; unfold allocated_total; cbn; try lia; intros []; done.
  - destruct (Z.eqb_spec delta (-1)) as [-> |]; [| done].
    destruct (Z.leb_spec resets 0); [done |]. destruct (Z.leb_spec (allocation_of stat allocations) 0); [done |].
    intros [= <- <- <- <-].
    split_and!; try lia; destruct stat; unfold allocated_total; cbn in *; try lia; intros []; done.
Qed.
Lemma core_stat_change_conserves_witness :
  exists a, core_stat_change Core_Ht 1 3 {| stat_str := 6; stat_vit := 6; stat_dex := 3; stat_int := 3 |}
      (pgb_core_stat_allocations sample_bootstrap) 0 = Ok (a, 0, 7, -1) /\ allocated_total a = 4.
Proof.
  destruct (core_stat_change Core_Ht 1 3 {| stat_str := 6; stat_vit := 6; stat_dex := 3; stat_int := 3 |}
      (pgb_core_stat_allocations sample_bootstrap) 0) as [[[[a r] v] d] |] eqn:E; [| discriminate E].
  destruct (core_stat_change_conserves Core_Ht 1 3 {| stat_str := 6; stat_vit := 6; stat_dex := 3; stat_int := 3 |}
      (pgb_core_stat_allocations sample_bootstrap) 0 a r v d) as (T & D & _ & V & _ & _ & [(_ & R & _) | [X _]]);
    [unfold_widths; cbn; lia .. | exact E | | discriminate X].
  exists a. subst d. rewrite R, V. split; [reflexivity |]. change (allocated_total (pgb_core_stat_allocations sample_bootstrap)) with 3 in T. lia.
Defined.
