(* ===== verification/SimVitals.v ===== *)
(** A player's recovery, the synchronisation of stats and restarts
    ([zohar-sim/src/runtime/player/stat_tickers.rs], [stat_sync.rs], [restart.rs]). *)
From S2P Require Import Prelude Domain Float Space Entities StatSource ActorState StatsApi Hydrate Recovery MapPort Replication.
From S2P Require Import Outbox Channel Persist Text SimTime Motion Aoi SimTypes SimWorld SimLife SimQuery SimAction.
From S2P Require Import SimReplication SimPresence SimSave.

(** ** Tickers *)
Definition reset_ticker {T} (now : SimInstant) (state : T) (t : PlayerTicker T) : PlayerTicker T :=
  {| pt_clock := retry_after (pt_clock t) now STAT_TICKER_CADENCE; pt_state := state |}.
(** [reset_after_regeneration_pause], which is [reset_after_restart] too. *)
Definition reset_after_regeneration_pause (now : SimInstant) (t : PlayerStatTickerComp) : PlayerStatTickerComp :=
  {| tick_passive_hp := reset_ticker now hp_recovery_default (tick_passive_hp t);
     tick_passive_sp := reset_ticker now sp_recovery_default (tick_passive_sp t);
     tick_stamina_ticker := reset_ticker now PlayerStaminaState_default (tick_stamina_ticker t) |}.
Definition reset_after_restart : SimInstant -> PlayerStatTickerComp -> PlayerStatTickerComp :=
  reset_after_regeneration_pause.

Definition set_passive_hp (t : PlayerTicker PlayerPassiveHpRecoveryState) (c : PlayerStatTickerComp) : PlayerStatTickerComp :=
  {| tick_passive_hp := t; tick_passive_sp := tick_passive_sp c; tick_stamina_ticker := tick_stamina_ticker c |}.
Definition set_passive_sp (t : PlayerTicker PlayerPassiveSpRecoveryState) (c : PlayerStatTickerComp) : PlayerStatTickerComp :=
  {| tick_passive_hp := tick_passive_hp c; tick_passive_sp := t; tick_stamina_ticker := tick_stamina_ticker c |}.
Definition set_stamina_ticker (t : PlayerTicker PlayerStaminaState) (c : PlayerStatTickerComp) : PlayerStatTickerComp :=
  {| tick_passive_hp := tick_passive_hp c; tick_passive_sp := tick_passive_sp c; tick_stamina_ticker := t |}.

(** A ticker whose clock is due hands the time since its last tick to [tick];
    [None] is the loop of the clock that does not end. *)
Definition tick_due {T R} (now : SimInstant) (tick : T -> Z -> T * R) (t : PlayerTicker T)
  : option (option R * PlayerTicker T) :=
  match advance_due (pt_clock t) now with
  | None => None
  | Some (None, clock) => Some (None, {| pt_clock := clock; pt_state := pt_state t |})
  | Some (Some elapsed, clock) =>
      let '(state, r) := tick (pt_state t) (SimDuration_as_duration elapsed) in
      Some (Some r, {| pt_clock := clock; pt_state := state |})
  end.

Definition player_stat_activity (now : SimInstant) (movement_end_at : option SimInstant) (activity : PlayerActivityComp)
  : PlayerStatActivity :=
  {| movement :=
       match movement_end_at with
       | Some end_at =>
           if now <? end_at then Activity_Moving else stopped_for (default 0 (elapsed_since now (Some end_at)))
       | None => Activity_Idle
       end;
     since_attack := elapsed_since now (last_attack_at activity);
     since_walk_started := elapsed_since now (last_walk_started_at activity) |}.
Definition player_movement_end_at (motion : PlayerMotionState) (activity : PlayerActivityComp) : option SimInstant :=
  match last_movement_start_at activity with
  | Some movement_started_at =>
      Some (SimInstant_saturating_add movement_started_at
              (ClientTimestamp_saturating_sub (pm_end_ts motion) (pm_start_ts motion)))
  | None => None
  end.
Definition sp_recovery_profile (class : PlayerClass) : PlayerSpRecoveryProfile :=
  match class with Shaman => Caster | _ => Standard end.

(** The animation an override asks for, and the activity it leaves. *)
Definition override_activity (now : SimInstant) (override_mode : PlayerStaminaMovementOverride) (a : PlayerActivityComp)
  : PlayerActivityComp :=
  match override_mode with
  | ForceWalk =>
      {| last_movement_start_at := last_movement_start_at a; last_attack_at := last_attack_at a;
         last_walk_started_at := Some now; preferred_movement_animation := preferred_movement_animation a |}
  | RevertToPreferred => a
  end.
Definition override_animation (override_mode : PlayerStaminaMovementOverride) (a : PlayerActivityComp) : MovementAnimation :=
  match override_mode with ForceWalk => Walk | RevertToPreferred => preferred_movement_animation a end.

(** ** Restarts *)
Inductive RestartHp : Type := RestartHp_Fixed (hp : Z) | RestartHp_HalfMax.
Inductive RestartVisibility : Type := Visibility_Here | Visibility_TownHandoff.
Inductive RestartPlacement : Type := Placement_Current | Placement_MoveTo (pos : LocalPos).
Definition MANUAL_RESTART_HP : Z := 50.

Definition restart_readiness_for (life : ActorLifePhase) (intent : PlayerRestartIntent) (now : SimInstant)
  : option RestartReadiness :=
  match intent with
  | Restart_Here => restart_here_readiness life now
  | Restart_Town => restart_town_readiness life now
  end.
(** [wait.as_millis().div_ceil(1_000).max(1)] *)
Definition wait_seconds (wait : SimDuration) : Z := Z.max ((wait + 999) / 1000) 1.
Definition cooldown_message (intent : PlayerRestartIntent) (retry_after : SimDuration) : string :=
  let seconds := pretty.pretty (wait_seconds retry_after) in
  match intent with
  | Restart_Here => "A new start is not possible at the moment. Please wait " ++ seconds ++ " seconds."
  | Restart_Town => "You cannot restart in the city yet. Wait another " ++ seconds ++ " seconds."
  end%string.
Definition restart_motion (pos : LocalPos) (packet_now : Z) (_ : PlayerMotionState) : PlayerMotionState :=
  {| pm_start_pos := pos; pm_end_pos := pos; pm_start_ts := packet_now; pm_end_ts := packet_now;
     pm_last_client_ts := packet_now |}.

Section Vitals.
Context `{SimEnv}.

(** ** Ticking *)
Definition pause_player_stat_tickers (player_entity : Entity) (now : SimInstant) : Sim unit :=
  modify K_PlayerStatTicker player_entity (reset_after_regeneration_pause now).

Definition current_player_stat_activity (player_entity : Entity) (now : SimInstant) : Sim (option PlayerStatActivity) :=
  activity <~ entity_get K_PlayerActivity player_entity;
  let_some activity := activity else done_ None;
  motion <~ entity_get K_PlayerMotion player_entity;
  let movement_end_at := match motion with Some m => player_movement_end_at m activity | None => None end in
  done_ (Some (player_stat_activity now movement_end_at activity)).

Definition actor_ref (player_entity : Entity) : Sim (option ActorRef) :=
  net <~ entity_get K_NetEntityId player_entity;
  done_ ((fun net_id => {| ar_entity := player_entity; ar_id := net_id |}) <$> net).

(** The value of the resource after the application; a refused one is a failed
    assertion of a debug build and none otherwise. *)
Definition apply_player_resource_application (player_entity : Entity) (application : option ResourceApplication)
  : Sim (option Z) :=
  let_some application := application else done_ None;
  actor <~ actor_ref player_entity;
  let_some actor := actor else done_ None;
  r <~ apply_actor_resource actor application;
  done_ (match r with Ok (Some result) => Some (rr_current result) | _ => None end).

Definition tick_passive_hp_of (player_entity : Entity) (activity : PlayerStatActivity) (now : SimInstant) : Sim unit :=
  stats <~ entity_get K_PlayerStats player_entity;
  let_some stats := stats else done_ tt;
  max_hp <~ unwrap (runtime_read_limited stats Stat.MaxHp);
  tickers <~ entity_get K_PlayerStatTicker player_entity;
  let_some tickers := tickers else done_ tt;
  '(application, ticker) <~ unwrap (tick_due now
     (fun state => tick_player_passive_hp_recovery state (runtime_read_packet stats Stat.Hp) max_hp activity)
     (tick_passive_hp tickers));
  sim_write K_PlayerStatTicker player_entity (set_passive_hp ticker tickers) ;;
  apply_player_resource_application player_entity (mjoin application) ;;
  done_ tt.

Definition tick_passive_sp_of (player_entity : Entity) (activity : PlayerStatActivity) (now : SimInstant) : Sim unit :=
  stats <~ entity_get K_PlayerStats player_entity;
  let_some stats := stats else done_ tt;
  progression <~ entity_get K_PlayerProgression player_entity;
  let_some progression := progression else done_ tt;
  max_hp <~ unwrap (runtime_read_limited stats Stat.MaxHp);
  max_sp <~ unwrap (runtime_read_limited stats Stat.MaxSp);
  tickers <~ entity_get K_PlayerStatTicker player_entity;
  let_some tickers := tickers else done_ tt;
  '(application, ticker) <~ unwrap (tick_due now
     (fun state => tick_player_passive_sp_recovery state (runtime_read_packet stats Stat.Hp) max_hp
                     (runtime_read_packet stats Stat.Sp) max_sp activity (sp_recovery_profile (pgb_class progression)))
     (tick_passive_sp tickers));
  sim_write K_PlayerStatTicker player_entity (set_passive_sp ticker tickers) ;;
  apply_player_resource_application player_entity (mjoin application) ;;
  done_ tt.

(** [query.get_mut] on the animation and the activity of a player. *)
Definition ascertain_movement_animation_change (player_entity : Entity) (now : SimInstant)
    (override_mode : PlayerStaminaMovementOverride) : Sim unit :=
  animation <~ query_get K_PlayerMovementAnimation player_entity;
  let_some animation := animation else done_ tt;
  activity <~ query_get K_PlayerActivity player_entity;
  let_some activity := activity else done_ tt;
  sim_write K_PlayerActivity player_entity (override_activity now override_mode activity) ;;
  let new_animation := override_animation override_mode activity in
  when (negb (bool_decide (animation = new_animation)))
    (sim_write K_PlayerMovementAnimation player_entity new_animation).

Definition report_stamina_timer (player_entity : Entity) (timer : option PlayerStaminaTimerCommand) (current_stamina : Z)
  : Sim unit :=
  match timer with
  | Some command =>
      player <~ actor_ref player_entity;
      match player with
      | Some player =>
          update_facts (push_stamina_timer
            {| stc_player := player; stc_command := command; stc_current_stamina := current_stamina |})
      | None => done_ tt
      end
  | None => done_ tt
  end.

Definition tick_stamina_of (player_entity : Entity) (activity : PlayerStatActivity) (now : SimInstant) : Sim unit :=
  stats <~ entity_get K_PlayerStats player_entity;
  let_some stats := stats else done_ tt;
  animation <~ entity_get K_PlayerMovementAnimation player_entity;
  let_some movement_mode := animation else done_ tt;
  max_stamina <~ unwrap (runtime_read_limited stats Stat.MaxStamina);
  tickers <~ entity_get K_PlayerStatTicker player_entity;
  let_some tickers := tickers else done_ tt;
  '(stamina_effect, ticker) <~ unwrap (tick_due now
     (fun state => tick_player_stamina state (runtime_read_packet stats Stat.Stamina) max_stamina activity movement_mode)
     (tick_stamina_ticker tickers));
  sim_write K_PlayerStatTicker player_entity (set_stamina_ticker ticker tickers) ;;
  let_some effect := stamina_effect else done_ tt;
  applied <~ apply_player_resource_application player_entity (se_application effect);
  stats <~ entity_get K_PlayerStats player_entity;
  let current_stamina :=
    match applied with
    | Some current => current
    | None => match stats with Some stats => runtime_read_packet stats Stat.Stamina | None => 0 end
    end in
  report_stamina_timer player_entity (se_timer effect) current_stamina ;;
  match se_movement_override effect with
  | Some override_mode => ascertain_movement_animation_change player_entity now override_mode
  | None => done_ tt
  end.

Definition tick_player (now : SimInstant) (player_entity : Entity) : Sim unit :=
  alive <~ entity_alive player_entity;
  if negb alive then done_ tt
  else
    regenerates <~ life_test can_regenerate true player_entity;
    if negb regenerates then pause_player_stat_tickers player_entity now
    else
      activity <~ current_player_stat_activity player_entity now;
      let_some activity := activity else done_ tt;
      tick_passive_hp_of player_entity activity now ;;
      tick_passive_sp_of player_entity activity now ;;
      tick_stamina_of player_entity activity now.
Definition process_player_stat_tickers : Sim unit :=
  state <~ runtime;
  players <~ player_entities_on_map;
  for_each players (tick_player (sim_now state)).

(** ** Synchronisation *)
Definition normalize_player_of (player_entity : Entity) : Sim unit :=
  stats <~ query_get K_PlayerStats player_entity;
  let_some stats := stats else done_ tt;
  appearance <~ query_get K_PlayerAppearance player_entity;
  let_some appearance := appearance else done_ tt;
  normalize_player player_entity stats appearance.
Definition normalize_player_stats_for_gameplay : Sim unit :=
  entities <~ query [K_PlayerStats; K_PlayerAppearance];
  for_each entities normalize_player_of.

Definition stat_updates_from_deltas (stat_deltas : list StatDelta) : list StatUpdate :=
  map (fun delta => {| su_stat := delta_stat delta; su_absolute := delta_value delta |}) stat_deltas.

Definition flush_player_stats (player_entity : Entity) : Sim unit :=
  alive <~ entity_alive player_entity;
  if negb alive then done_ tt
  else
    net <~ query_get K_NetEntityId player_entity;
    let_some entity_id := net else done_ tt;
    stats <~ query_get K_PlayerStats player_entity;
    let_some stats := stats else done_ tt;
    appearance <~ query_get K_PlayerAppearance player_entity;
    let_some appearance := appearance else done_ tt;
    '(stats, drained) <~ unwrap (drain_sync stats);
    sim_write K_PlayerStats player_entity stats ;;
    match drained_public drained with
    | Some update => sim_write K_PlayerAppearance player_entity (apply_public_state update appearance)
    | None => done_ tt
    end ;;
    if bool_decide (drained_deltas drained = []) then done_ tt
    else
      mark_player_dirty player_entity ;;
      outbox <~ query_get K_PlayerOutbox player_entity;
      let_some outbox := outbox else done_ tt;
      sim_write K_PlayerOutbox player_entity
        (push_reliable (SetEntityStats entity_id (stat_updates_from_deltas (drained_deltas drained))) outbox).
Definition flush_player_stats_sync : Sim unit :=
  player_entities <~ player_entities_on_map;
  for_each player_entities flush_player_stats.

(** ** Restarting *)
Definition push_chat (player_entity : Entity) (channel : ChatChannel) (message : string) : Sim unit :=
  outbox_push player_entity (Event_Chat channel None None (bytes_of message ++ [0])).
Definition close_restart_window (player_entity : Entity) : Sim unit :=
  push_chat player_entity Chat_Command "CloseRestartWindow".
Definition push_restart_cooldown_feedback (player_entity : Entity) (intent : PlayerRestartIntent) (retry : SimDuration)
  : Sim unit := push_chat player_entity Chat_Info (cooldown_message intent retry).

Definition restart_hp_of (hp : RestartHp) (stats : ActorStatsRuntime) : Z :=
  match hp with
  | RestartHp_Fixed value => value
  | RestartHp_HalfMax => Z.quot (runtime_read_packet stats Stat.MaxHp) 2
  end.

Definition apply_restart_state (player_entity : Entity) (net_id : EntityId) (placement : RestartPlacement) (hp : RestartHp)
  : Sim unit :=
  state <~ runtime;
  transform <~ entity_get K_LocalTransform player_entity;
  let motion_pos := match placement with Placement_Current => lt_pos <$> transform | Placement_MoveTo pos => Some pos end in
  modify K_ActorLife player_entity (fun phase => snd (life_restart phase)) ;;
  match placement with
  | Placement_MoveTo pos => modify K_LocalTransform player_entity (set_pos pos)
  | Placement_Current => done_ tt
  end ;;
  match motion_pos with
  | Some pos => modify K_PlayerMotion player_entity (restart_motion pos (packet_now state))
  | None => done_ tt
  end ;;
  modify K_PlayerMovementAnimation player_entity (fun _ => Run) ;;
  modify K_PlayerActivity player_entity (fun _ => PlayerActivityComp_default) ;;
  modify K_PlayerStatTicker player_entity (reset_after_restart (sim_now state)) ;;
  modify K_PlayerTarget player_entity (fun _ => None) ;;
  stats <~ entity_get K_PlayerStats player_entity;
  match stats with
  | Some stats =>
      player_stats_api player_entity stats (fun _ => set_resource Stat.Hp (restart_hp_of hp stats)) ;; done_ tt
  | None => done_ tt
  end ;;
  match placement, map_entity state with
  | Placement_MoveTo pos, Some map_entity =>
      modify K_MapSpatial map_entity (fun spatial => si_maintain (si_update_position net_id pos spatial))
  | _, _ => done_ tt
  end ;;
  mark_player_dirty player_entity.

Definition current_targets (observer : EntityId) : Sim (list EntityId) :=
  map_entity <~ the_map;
  let_some map_entity := map_entity else done_ [];
  replication <~ entity_get K_MapReplication map_entity;
  done_ (match replication with Some g => targets_for observer g | None => [] end).

Definition push_spawn_bundle (player_entity : Entity) (snapshot : EntitySnapshot) : Sim unit :=
  movement_animation <~ movement_animation_of (es_entity_id snapshot);
  outbox_push player_entity (EntitySpawn snapshot) ;;
  when (bool_decide (movement_animation = Some Walk))
    (outbox_push player_entity (SetEntityMovementAnimation (es_entity_id snapshot) Walk)).

Definition show_restart_here (player_entity : Entity) (net_id : EntityId) : Sim bool :=
  shared <~ resource R_Shared;
  snapshot <~ make_entity_snapshot shared net_id;
  let_some snapshot := snapshot else done_ false;
  broadcast_actor_event net_id Audience_Observers EntityDespawn ;;
  broadcast_actor_event net_id Audience_Observers (fun _ => EntitySpawn snapshot) ;;
  outbox_push player_entity (EntityDespawn net_id) ;;
  push_spawn_bundle player_entity snapshot ;;
  nearby <~ current_targets net_id;
  for_each nearby (fun target_id =>
    target_snapshot <~ make_entity_snapshot shared target_id;
    let_some target_snapshot := target_snapshot else done_ tt;
    push_spawn_bundle player_entity target_snapshot) ;;
  done_ true.

Definition restart_player (player_entity : Entity) (placement : RestartPlacement) (hp : RestartHp)
    (visibility : RestartVisibility) : Sim unit :=
  net <~ entity_get K_NetEntityId player_entity;
  let_some net_id := net else done_ tt;
  apply_restart_state player_entity net_id placement hp ;;
  close_restart_window player_entity ;;
  shown <~ (match visibility with
            | Visibility_Here => show_restart_here player_entity net_id
            | Visibility_TownHandoff => outbox_push player_entity RestartTown ;; done_ true
            end);
  when shown mark_map_dirty.

Definition restart_here (player_entity : Entity) (hp : RestartHp) : Sim unit :=
  transform <~ entity_get K_LocalTransform player_entity;
  let_some transform := transform else done_ tt;
  restart_player player_entity (Placement_MoveTo (lt_pos transform)) hp Visibility_Here.
Definition restart_town (player_entity : Entity) (hp : RestartHp) : Sim unit :=
  restart_player player_entity Placement_Current hp Visibility_TownHandoff.
Definition restart_by_intent (player_entity : Entity) (intent : PlayerRestartIntent) (hp : RestartHp) : Sim unit :=
  match intent with Restart_Here => restart_here player_entity hp | Restart_Town => restart_town player_entity hp end.

Definition process_requested_restart (now : SimInstant) (player_entity : Entity) (intent : PlayerRestartIntent) : Sim unit :=
  life <~ entity_get K_ActorLife player_entity;
  let_some life := life else done_ tt;
  if negb (is_dead life) then close_restart_window player_entity
  else
    match restart_readiness_for life intent now with
    | Some Ready => restart_by_intent player_entity intent (RestartHp_Fixed MANUAL_RESTART_HP)
    | Some (Waiting retry) => push_restart_cooldown_feedback player_entity intent retry
    | None => done_ tt
    end.

(** The last intent of every queue that has one; the queues are emptied. *)
Definition drain_restart_intent (found : list (Entity * PlayerRestartIntent)) (entity : Entity)
  : Sim (list (Entity * PlayerRestartIntent)) :=
  queue <~ query_get K_PlayerRestartIntentQueue entity;
  match queue with
  | Some queue =>
      match last queue with
      | Some intent =>
          sim_write K_PlayerRestartIntentQueue entity [] ;;
          done_ (found ++ [(entity, intent)])
      | None => done_ found
      end
  | None => done_ found
  end.
Definition drain_restart_intents : Sim (list (Entity * PlayerRestartIntent)) :=
  entities <~ query [K_PlayerRestartIntentQueue];
  fold_sim drain_restart_intent entities [].

Definition respawn_forced (now : SimInstant) (w : World) (e : Entity) : bool :=
  match get K_ActorLife e w with Some life => forced_respawn_due life now | None => false end.
Definition forced_respawn_players (now : SimInstant) : Sim (list Entity) :=
  entities <~ query [K_ActorLife; K_PlayerMarker];
  reads_w (fun w => List.filter (respawn_forced now w) entities).

Definition process_player_restarts : Sim unit :=
  state <~ runtime;
  let now := sim_now state in
  requested <~ drain_restart_intents;
  for_each requested (fun '(player_entity, intent) => process_requested_restart now player_entity intent) ;;
  forced <~ forced_respawn_players now;
  for_each forced (fun player_entity => restart_town player_entity RestartHp_HalfMax).
End Vitals.
