(* ===== verification/SimIntents.v ===== *)
(** What players ask for and what they are shown of it
    ([zohar-sim/src/runtime/net/ingress.rs], [player/actions.rs], [player/chat.rs],
    [player/target.rs], [projection.rs]): the queues of intents, the commands
    carried out, the selected target, and the facts of a tick as events. *)
From S2P Require Import Prelude Domain Float Space Entities Wire StatSource StatsApi Recovery MapPort Replication Outbox Channel.
From S2P Require Import Persist Text SimTime Motion Aoi SimTypes SimWorld SimLife SimQuery SimAction SimAi SimReplication.
From S2P Require Import SimPresence SimSave SimVitals.

(** ** Queues ([ingress.rs]) *)
Definition is_move_command (c : PlayerCommand) : bool := match c with Command_Move _ _ _ _ _ => true | _ => false end.
Definition is_attack_command (c : PlayerCommand) : bool := match c with Command_Attack _ _ => true | _ => false end.
(** [==] of the fields; positions compare as floats. *)
Definition player_move_commands_match (lhs rhs : PlayerCommand) : bool :=
  match lhs, rhs with
  | Command_Move k a r t s, Command_Move k' a' r' t' s' =>
      bool_decide (k = k') && (a =? a') && (r =? r') && pos_eq t t' && (s =? s')
  | _, _ => false
  end.
Definition player_animation_commands_match (lhs rhs : PlayerCommand) : bool :=
  match lhs, rhs with
  | Command_SetMovementAnimation a, Command_SetMovementAnimation b => bool_decide (a = b)
  | _, _ => false
  end.

(** [retain] that drops the first of the bucket until [max_len] are left. *)
Fixpoint drop_matching (excess : nat) (matches_bucket : PlayerCommand -> bool) (queue : list PlayerCommand)
  : list PlayerCommand :=
  match queue with
  | [] => []
  | c :: rest =>
      if matches_bucket c then
        match excess with
        | S excess => drop_matching excess matches_bucket rest
        | O => c :: drop_matching O matches_bucket rest
        end
      else c :: drop_matching excess matches_bucket rest
  end.
Definition trim_player_commands (max_len : nat) (matches_bucket : PlayerCommand -> bool) (queue : list PlayerCommand)
  : list PlayerCommand :=
  let matching := length (List.filter matches_bucket queue) in
  if (matching <=? max_len)%nat then queue else drop_matching (matching - max_len) matches_bucket queue.
Definition push_player_command (command : PlayerCommand) (queue : list PlayerCommand) : list PlayerCommand :=
  let repeats (matches : PlayerCommand -> PlayerCommand -> bool) :=
    match last queue with Some last => matches last command | None => false end in
  match command with
  | Command_Move _ _ _ _ _ =>
      if repeats player_move_commands_match then queue
      else trim_player_commands MAX_MOVE_INTENTS_PER_TICK is_move_command (queue ++ [command])
  | Command_SetMovementAnimation _ =>
      if repeats player_animation_commands_match then queue else queue ++ [command]
  | Command_Attack _ _ => trim_player_commands MAX_ATTACK_INTENTS_PER_TICK is_attack_command (queue ++ [command])
  | Command_SelectTarget _ => queue ++ [command]
  end.

(** A push that keeps the last [n]. *)
Definition push_capped {A} (n : nat) (a : A) (queue : list A) : list A :=
  let queue := queue ++ [a] in drop (length queue - n) queue.

(** ** Flags of a hit, as the client has them ([target.rs]) *)
Definition HIT_FLAG_MAP : list (Z * Z) :=
  [(HitFlags_NORMAL, DamageInfoFlags_NORMAL); (HitFlags_POISON, DamageInfoFlags_POISON);
   (HitFlags_DODGE, DamageInfoFlags_DODGE); (HitFlags_BLOCK, DamageInfoFlags_BLOCK);
   (HitFlags_PENETRATE, DamageInfoFlags_PENETRATE); (HitFlags_CRITICAL, DamageInfoFlags_CRITICAL)].
Definition flags_contain (flags flag : Z) : bool := Z.land flags flag =? flag.
Definition damage_info_flags (flags : Z) : Z :=
  fold_left (fun out '(from, to) => if flags_contain flags from then Z.lor out to else out) HIT_FLAG_MAP 0.
(** The percentage of a mob's health. *)
Definition health_bar_percent (hp max_hp : Z) : Z :=
  if max_hp <=? 0 then 0 else clampc (Z.quot (clampc hp 0 max_hp * 100) max_hp) 0 100.

(** ** Events of facts ([projection.rs]) *)
Definition map_special_effect (e : ActorSpecialEffectKind) : SpecialEffectType :=
  match e with SpecialKind_Critical => Special_Critical | SpecialKind_Piercing => Special_Penetrate end.
Definition point_visual_stat_update (e : PointVisualEffect) : StatUpdate :=
  match e with
  | LevelStep_effect _ => {| su_stat := Stat.LevelStep; su_absolute := 0 |}
  | LevelUp_effect _ level => {| su_stat := Stat.Level; su_absolute := level |}
  end.
Definition stamina_timer_command (fact : PlayerStaminaTimerChanged) : bytes :=
  bytes_of (match stc_command fact with
            | Timer_Start consume_per_sec =>
                "StartStaminaConsume " ++ pretty.pretty consume_per_sec ++ " " ++ pretty.pretty (stc_current_stamina fact)
            | Timer_Stop => "StopStaminaConsume " ++ pretty.pretty (stc_current_stamina fact)
            end)%string ++ [0].
Definition special_effects_of (flags : Z) : list ActorSpecialEffectKind :=
  (if flags_contain flags HitFlags_CRITICAL then [SpecialKind_Critical] else []) ++
  (if flags_contain flags HitFlags_PENETRATE then [SpecialKind_Piercing] else []).

Section Intents.
Context `{SimEnv}.

(** ** Ingress *)
Inductive InboundEvent : Type :=
| Inbound_ReserveNetId
| Inbound_PlayerEnter (msg : EnterMsg) (outbox : @PlayerOutbox OutTx)
| Inbound_PlayerLeave (msg : LeaveMsg)
| Inbound_CapturePlayerSnapshot (msg : LeaveMsg)
| Inbound_PlayerLeaveAndSnapshot (msg : LeaveMsg)
| Inbound_ClientIntent (msg : ClientIntentMsg)
| Inbound_GlobalShout (msg : GlobalShoutMsg).
(** What goes back on a reply channel. *)
Inductive InboundReply : Type :=
| Reply_None
| Reply_NetId (id : EntityId)
| Reply_Snapshot (snapshot : option PlayerSnapshot).

Definition push_command (player_entity : Entity) (command : PlayerCommand) : Sim unit :=
  modify K_PlayerCommandQueue player_entity (push_player_command command).
Definition handle_client_intent (msg : ClientIntentMsg) : Sim unit :=
  index <~ resource R_PlayerIndex;
  let_some player_entity := index !! cim_player_id msg else done_ tt;
  match cim_intent msg with
  | Intent_Move m =>
      push_command player_entity (Command_Move (mi_kind m) (mi_arg m) (mi_facing m) (mi_target m) (mi_client_ts m))
  | Intent_SetMovementAnimation animation => push_command player_entity (Command_SetMovementAnimation animation)
  | Intent_Chat chat =>
      modify K_ChatIntentQueue player_entity
        (push_capped MAX_CHAT_INTENTS_PER_TICK {| ci_channel := ci_channel chat; ci_message := ci_message chat |})
  | Intent_Attack a => push_command player_entity (Command_Attack (ati_target a) (ati_attack a))
  | Intent_Target target => push_command player_entity (Command_SelectTarget target)
  | Intent_Progression p =>
      modify K_PlayerProgressionIntentQueue player_entity (push_capped MAX_PROGRESSION_INTENTS_PER_TICK p)
  | Intent_Restart r => modify K_PlayerRestartIntentQueue player_entity (fun _ => [r])
  end.

Definition handle_global_shout (msg : GlobalShoutMsg) : Sim unit :=
  let payload := format_global_shout (gsm_from_player_name msg) (gsm_message_bytes msg) in
  player_entities <~ player_entities_on_map;
  for_each player_entities (fun entity =>
    appearance <~ entity_get K_PlayerAppearance entity;
    let_some appearance := appearance else done_ tt;
    when (bool_decide (pa_empire appearance = gsm_from_empire msg))
      (outbox_push entity (Event_Chat Chat_Shout None (Some (gsm_from_empire msg)) payload))).

Definition handle_inbound (event : InboundEvent) : Sim InboundReply :=
  match event with
  | Inbound_ReserveNetId =>
      state <~ runtime;
      let '(id, state) := next_entity_id state in
      set_resource_ R_Runtime state ;; done_ (Reply_NetId id)
  | Inbound_PlayerEnter msg outbox => handle_player_enter msg outbox ;; done_ Reply_None
  | Inbound_PlayerLeave msg => handle_player_leave msg ;; done_ Reply_None
  | Inbound_CapturePlayerSnapshot msg => s <~ capture_active_player_snapshot msg; done_ (Reply_Snapshot s)
  | Inbound_PlayerLeaveAndSnapshot msg => s <~ leave_player_and_snapshot msg; done_ (Reply_Snapshot s)
  | Inbound_ClientIntent msg => handle_client_intent msg ;; done_ Reply_None
  | Inbound_GlobalShout msg => handle_global_shout msg ;; done_ Reply_None
  end.
(** The events that have arrived, in order, with what is replied to each. *)
Definition drain_inbound (events : list InboundEvent) : Sim (list InboundReply) :=
  fold_sim (fun replies event => reply <~ handle_inbound event; done_ (replies ++ [reply])) events [].

(** ** Targets *)
Definition target_is_selectable (map_entity : Entity) (player_net_id target_id : EntityId) : Sim bool :=
  entity <~ net_entity target_id;
  if negb (bool_decide (is_Some entity)) || (target_id =? player_net_id) then done_ false
  else map_is_visible map_entity player_net_id target_id.
Definition set_selected_target (player_entity : Entity) (selected : option EntityId) : Sim unit :=
  modify K_PlayerTarget player_entity (fun _ => selected).
Definition push_health_bar (player_entity : Entity) (entity_id : EntityId) (hp_pct : Z) : Sim unit :=
  outbox_push player_entity (SyncEntityHealthBar entity_id (Z.min hp_pct 100)).
Definition push_damage_info (player_entity : Entity) (entity_id : EntityId) (dmg flags : Z) : Sim unit :=
  outbox_push player_entity (DamageInfo entity_id (damage_info_flags flags) dmg).

Definition health_bar_percent_for_entity (entity : Entity) : Sim Z :=
  is_player <~ entity_has K_PlayerStats entity;
  if (is_player : bool) then done_ 0
  else
    stats <~ entity_get K_MobStats entity;
    let_some stats := stats else done_ 0;
    max_hp <~ unwrap (runtime_read_limited stats Stat.MaxHp);
    if max_hp <=? 0 then done_ 0
    else
      hp <~ unwrap (runtime_read_limited stats Stat.Hp);
      done_ (health_bar_percent hp max_hp).
Definition health_bar_percent_for_entity_id (entity_id : EntityId) : Sim (option Z) :=
  entity <~ net_entity entity_id;
  let_some entity := entity else done_ None;
  pct <~ health_bar_percent_for_entity entity;
  done_ (Some pct).

Definition select_target (map_entity player_entity : Entity) (player_net_id target_id : EntityId) : Sim unit :=
  selectable <~ (if target_id =? 0 then done_ false else target_is_selectable map_entity player_net_id target_id);
  if negb selectable then
    set_selected_target player_entity None ;;
    push_health_bar player_entity 0 0
  else
    set_selected_target player_entity (Some target_id) ;;
    hp_pct <~ health_bar_percent_for_entity_id target_id;
    match hp_pct with Some hp_pct => push_health_bar player_entity target_id hp_pct | None => done_ tt end.

Definition targeter (target_id : EntityId) (w : World) (e : Entity) : option (Entity * EntityId) :=
  net_id ← get K_NetEntityId e w;
  selected ← get K_PlayerTarget e w;
  if bool_decide (selected = Some target_id) then Some (e, net_id) else None.
Definition broadcast_entity_health_bar_to_targeters (target_id : EntityId) : Sim unit :=
  map_entity <~ the_map;
  let_some map_entity := map_entity else done_ tt;
  hp_pct <~ health_bar_percent_for_entity_id target_id;
  let_some hp_pct := hp_pct else done_ tt;
  entities <~ query [K_NetEntityId; K_PlayerTarget; K_PlayerMarker];
  candidates <~ reads_w (fun w => omap (targeter target_id w) entities);
  for_each candidates (fun '(player_entity, player_net_id) =>
    visible <~ map_is_visible map_entity player_net_id target_id;
    when visible (push_health_bar player_entity target_id hp_pct)).
Definition send_damage_info_to_selected_target (player_entity : Entity) (target_id : EntityId) (dmg flags : Z) : Sim unit :=
  selected <~ entity_get K_PlayerTarget player_entity;
  match selected with
  | Some (Some selected) => when (selected =? target_id) (push_damage_info player_entity target_id dmg flags)
  | _ => done_ tt
  end.

(** ** Commands *)
Definition set_preferred_animation (now : SimInstant) (animation : MovementAnimation) (a : PlayerActivityComp)
  : PlayerActivityComp :=
  {| last_movement_start_at := last_movement_start_at a; last_attack_at := last_attack_at a;
     last_walk_started_at := if bool_decide (animation = Walk) then Some now else last_walk_started_at a;
     preferred_movement_animation := animation |}.
Definition set_player_movement_animation (player_entity : Entity) (animation : MovementAnimation) : Sim unit :=
  state <~ runtime;
  current <~ entity_get K_PlayerMovementAnimation player_entity;
  let_some current := current else done_ tt;
  when (negb (bool_decide (current = animation))) (sim_write K_PlayerMovementAnimation player_entity animation) ;;
  modify K_PlayerActivity player_entity (set_preferred_animation (sim_now state) animation).

(** What a command leaves to do at the end: an aggro to dispatch, a spatial index
    to maintain. *)
Definition run_attack (map_entity player_entity : Entity) (attacker_net_id target : EntityId) (attack : AttackIntent)
  : Sim (option MobAggroDispatch) :=
  transform <~ entity_get K_LocalTransform player_entity;
  let_some transform := transform else done_ None;
  target_entity <~ validate_player_attack map_entity attacker_net_id (lt_pos transform) target;
  let_some target_entity := target_entity else done_ None;
  action <~ build_player_attack_action player_entity target target_entity attack;
  match action with Some action => apply_action action | None => done_ tt end ;;
  is_mob <~ entity_has K_MobRef target_entity;
  done_ (if (is_mob : bool)
         then Some {| attacked_mob_entity := target_entity; dispatch_aggro := {| provoked_by := attacker_net_id |} |}
         else None).
Definition run_command (map_entity player_entity : Entity) (player : PlayerId) (attacker_net_id : EntityId)
    (command : PlayerCommand) : Sim (bool * option MobAggroDispatch) :=
  match command with
  | Command_Move kind arg rot target ts =>
      shared <~ resource R_Shared;
      map <~ resource R_MapConfig;
      action <~ build_player_move_action shared (mcfg_local_size map) player_entity player kind arg rot target ts;
      match action with
      | Some action =>
          apply_action action ;;
          done_ (match action with Action_PlayerMotion _ _ _ _ _ _ _ _ _ _ => true | _ => false end, None)
      | None => done_ (false, None)
      end
  | Command_SetMovementAnimation animation =>
      set_player_movement_animation player_entity animation ;; done_ (false, None)
  | Command_SelectTarget target =>
      select_target map_entity player_entity attacker_net_id target ;; done_ (false, None)
  | Command_Attack target attack =>
      dispatch <~ run_attack map_entity player_entity attacker_net_id target attack;
      done_ (false, dispatch)
  end.

(** The commands of one player, taken from the queue. *)
Definition run_player_commands (map_entity : Entity) (found : bool * list MobAggroDispatch) (player_entity : Entity)
  : Sim (bool * list MobAggroDispatch) :=
  alive <~ entity_alive player_entity;
  if negb alive then done_ found
  else
    marker <~ entity_get K_PlayerMarker player_entity;
    let_some player := marker else done_ found;
    net <~ entity_get K_NetEntityId player_entity;
    let_some attacker_net_id := net else done_ found;
    queue <~ entity_get K_PlayerCommandQueue player_entity;
    let_some commands := queue else done_ found;
    sim_write K_PlayerCommandQueue player_entity [] ;;
    can <~ actor_can_act player_entity;
    if negb can then done_ found
    else
      fold_sim (fun '(spatial_dirty, dispatches) command =>
        '(moved, dispatch) <~ run_command map_entity player_entity player attacker_net_id command;
        done_ (spatial_dirty || moved, dispatches ++ option_list dispatch)) commands found.
Definition process_player_actions : Sim unit :=
  map_entity <~ the_map;
  let_some map_entity := map_entity else done_ tt;
  player_entities <~ player_entities_on_map;
  '(spatial_dirty, dispatches) <~ fold_sim (run_player_commands map_entity) player_entities (false, []);
  when spatial_dirty (maintain_spatial map_entity) ;;
  update_resource R_MobAggroDispatch (fun buffer => buffer ++ dispatches).

(** ** Chat *)
Definition enqueue_local_chat_intents (player : PlayerId) (net_id : EntityId) (emp : Empire) (name : string)
    (chat_intents : list ChatIntent) : Sim unit :=
  if bool_decide (chat_intents = []) then done_ tt
  else
    map_entity <~ the_map;
    let_some map_entity := map_entity else done_ tt;
    modify K_MapPendingLocalChats map_entity (fun pending =>
      pending ++ map (fun chat =>
        {| plc_speaker_player_id := player; plc_speaker_entity_id := net_id; plc_speaker_empire := emp;
           plc_channel := ci_channel chat; plc_speaker_name := name; plc_message := ci_message chat |}) chat_intents).
Definition process_chat_of (player_entity : Entity) : Sim unit :=
  alive <~ entity_alive player_entity;
  if negb alive then done_ tt
  else
    marker <~ entity_get K_PlayerMarker player_entity;
    let_some player := marker else done_ tt;
    appearance <~ entity_get K_PlayerAppearance player_entity;
    let_some appearance := appearance else done_ tt;
    net <~ entity_get K_NetEntityId player_entity;
    let_some net_id := net else done_ tt;
    queue <~ entity_get K_ChatIntentQueue player_entity;
    let_some chat_intents := queue else done_ tt;
    sim_write K_ChatIntentQueue player_entity [] ;;
    enqueue_local_chat_intents player net_id (pa_empire appearance) (pa_name appearance) chat_intents.
Definition process_chat_intents : Sim unit :=
  player_entities <~ player_entities_on_map;
  for_each player_entities process_chat_of.

(** ** Projection *)
Definition broadcast_special_effect (actor : ActorRef) (effect : ActorSpecialEffectKind) : Sim unit :=
  broadcast_actor_event (ar_id actor) Audience_ViewAndSelf (SpecialEffect (map_special_effect effect)).
Definition broadcast_point_visual_effect (effect : PointVisualEffect) : Sim unit :=
  broadcast_actor_event (ar_id (point_effect_actor effect)) Audience_Observers
    (fun entity_id => SetEntityStats entity_id [point_visual_stat_update effect]).

Definition project_damage (effect : ActorDamaged) : Sim unit :=
  let victim := dmg_victim effect in
  let attacker := dmg_attacker effect in
  is_mob <~ entity_has K_MobStats (ar_entity victim);
  when is_mob (broadcast_entity_health_bar_to_targeters (ar_id victim)) ;;
  by_player <~ entity_has K_PlayerMarker (ar_entity attacker);
  when by_player
    (send_damage_info_to_selected_target (ar_entity attacker) (ar_id victim) (dmg_damage effect) (dmg_flags effect)) ;;
  is_player <~ entity_has K_PlayerMarker (ar_entity victim);
  when is_player (push_damage_info (ar_entity victim) (ar_id victim) (dmg_damage effect) (dmg_flags effect)) ;;
  for_each (special_effects_of (dmg_flags effect)) (broadcast_special_effect victim).
Definition project_projectile_target (t : ProjectileTargetedFact) : Sim unit :=
  transform <~ entity_get K_LocalTransform (ar_entity (ptf_target t));
  let_some transform := transform else done_ tt;
  broadcast_actor_event (ar_id (ptf_caster t)) Audience_ViewAndSelf (fun shooter_entity_id =>
    SetProjectileTarget {| pte_caster_entity_id := shooter_entity_id; pte_target_entity_id := ar_id (ptf_target t);
                           pte_target_pos := lt_pos transform; pte_append := false |}).
Definition project_despawned (effect : ActorDespawned) : Sim unit :=
  for_each (dsp_recipients effect) (fun player_entity => outbox_push player_entity (EntityDespawn (dsp_actor_id effect))).
Definition project_stamina_timer (fact : PlayerStaminaTimerChanged) : Sim unit :=
  outbox_push (ar_entity (stc_player fact)) (Event_Chat Chat_Command None None (stamina_timer_command fact)).

(** Each list of facts is read when its turn comes. *)
Definition for_facts {A} (part : FrameFacts -> list A) (f : A -> Sim unit) : Sim unit :=
  effects <~ facts; for_each (part effects) f.
Definition project_frame_facts : Sim unit :=
  for_facts (fun x => cf_damaged (ff_combat x)) project_damage ;;
  for_facts (fun x => lf_dying_started (ff_life x))
    (fun actor => broadcast_actor_event (ar_id actor) Audience_ViewAndSelf EntityStunned) ;;
  for_facts (fun x => lf_death_finalized (ff_life x))
    (fun actor => broadcast_actor_event (ar_id actor) Audience_ViewAndSelf EntityDead) ;;
  for_facts (fun x => vf_projectile_effects (ff_visuals x))
    (fun effect => broadcast_actor_event (ar_id (pve_start effect)) Audience_ViewAndSelf
                     (fun start_id => CreateProjectileEffect Projectile_Exp start_id (ar_id (pve_end effect)))) ;;
  for_facts (fun x => vf_projectile_targets (ff_visuals x)) project_projectile_target ;;
  for_facts (fun x => vf_point_effects (ff_visuals x)) broadcast_point_visual_effect ;;
  for_facts (fun x => vf_special_effects (ff_visuals x))
    (fun effect => broadcast_special_effect (ase_actor effect) (ase_effect effect)) ;;
  for_facts ff_despawned project_despawned ;;
  for_facts ff_stamina_timer_changed project_stamina_timer ;;
  reset_frame_facts.
End Intents.

(** ** The queues stay bounded *)

(** The last [n] of a list. *)
Definition last_n {A} (n : nat) (l : list A) : list A := drop (length l - n) l.
Definition is_select_command (c : PlayerCommand) : bool := match c with Command_SelectTarget _ => true | _ => false end.

Lemma last_n_length {A} n (l : list A) : (length (last_n n l) <= n)%nat.
Proof. unfold last_n. rewrite length_drop. lia. Qed.
Lemma last_n_short {A} n (l : list A) : (length l <= n)%nat -> last_n n l = l.
Proof. intros L. unfold last_n. by replace (length l - n)%nat with 0%nat by lia. Qed.
Lemma last_n_snoc {A} n (l : list A) a : last_n n (last_n n l ++ [a]) = last_n n (l ++ [a]).
Proof.
  unfold last_n. rewrite !length_app, length_drop. cbn. destruct (decide (length l <= n)%nat).
  - replace (length l - n)%nat with 0%nat by lia. rewrite drop_0. f_equal. lia.
  - rewrite !drop_app, drop_drop, length_drop.
    replace (length l - n + (length l - (length l - n) + 1 - n))%nat with (length l + 1 - n)%nat by lia.
    do 2 f_equal. lia.
Qed.

(** Capped pushes keep exactly the newest. *)
Lemma push_capped_last {A} n (l : list A) :
  fold_left (fun queue a => push_capped n a queue) l [] = last_n n l.
Proof.
  induction l as [| a l IH] using rev_ind; [done |].
  rewrite fold_left_app, IH. cbn. apply last_n_snoc.
Qed.

(** [drop_matching] drops the oldest of the bucket and nothing else. *)
Lemma drop_matching_filter k p queue : List.filter p (drop_matching k p queue) = drop k (List.filter p queue).
Proof.
  revert k. induction queue as [| c queue IH]; intros k; cbn; [by destruct k |].
  destruct (p c) eqn:E; [destruct k as [| k] |]; cbn; rewrite ?E, IH; by rewrite ?drop_0.
Qed.
Lemma drop_matching_other k p r queue : (forall c, p c = true -> r c = false) ->
  List.filter r (drop_matching k p queue) = List.filter r queue.
Proof.
  intros D. revert k. induction queue as [| c queue IH]; intros k; cbn; [done |].
  destruct (p c) eqn:E; [destruct k as [| k] |]; cbn; rewrite ?(D c E), IH; done.
Qed.
Lemma drop_matching_sublist k p queue : drop_matching k p queue `sublist_of` queue.
Proof.
  revert k. induction queue as [| c queue IH]; intros k; cbn; [constructor |].
  destruct (p c); [destruct k as [| k] |]; by constructor.
Qed.

Lemma trim_filter n p queue : List.filter p (trim_player_commands n p queue) = last_n n (List.filter p queue).
Proof.
  unfold trim_player_commands. destruct (Nat.leb_spec (length (List.filter p queue)) n).
  - by rewrite last_n_short.
  - apply drop_matching_filter.
Qed.
Lemma trim_other n p r queue : (forall c, p c = true -> r c = false) ->
  List.filter r (trim_player_commands n p queue) = List.filter r queue.
Proof. intros D. unfold trim_player_commands. case_match; [done | by apply drop_matching_other]. Qed.
Lemma trim_sublist n p queue : trim_player_commands n p queue `sublist_of` queue.
Proof. unfold trim_player_commands. case_match; [done | apply drop_matching_sublist]. Qed.

Lemma filter_snoc {A} (p : A -> bool) l a : List.filter p (l ++ [a]) = List.filter p l ++ (if p a then [a] else []).
Proof. rewrite List.filter_app. cbn. by destruct (p a). Qed.

(** What one push does to each bucket. *)
Lemma push_player_command_buckets c queue :
  push_player_command c queue `sublist_of` queue ++ [c] /\
  ((length (List.filter is_move_command queue) <= MAX_MOVE_INTENTS_PER_TICK)%nat ->
   (length (List.filter is_move_command (push_player_command c queue)) <= MAX_MOVE_INTENTS_PER_TICK)%nat) /\
  List.filter is_select_command (push_player_command c queue) = List.filter is_select_command (queue ++ [c]) /\
  (List.filter is_attack_command queue = last_n MAX_ATTACK_INTENTS_PER_TICK (List.filter is_attack_command queue) ->
   List.filter is_attack_command (push_player_command c queue) =
   last_n MAX_ATTACK_INTENTS_PER_TICK (List.filter is_attack_command (queue ++ [c]))).
Proof.
  assert (queue `sublist_of` queue ++ [c]) as S by by apply sublist_inserts_r.
  unfold push_player_command. destruct c; try case_match.
  all: rewrite ?filter_snoc, ?trim_filter; cbn; rewrite ?app_nil_r.
  all: repeat split; auto using last_n_length.
  all: rewrite ?trim_filter, ?trim_other, ?filter_snoc, ?app_nil_r; try (intros []; done); auto using trim_sublist, last_n_length.
Qed.

(** [C23] However many commands a client sends between two ticks, its queue holds
    at most 64 moves and exactly its last 16 attacks, in the order sent; every
    change of target is still there (their number has no bound). *)
Theorem player_queue_bounded cmds :
  let queue := fold_left (fun queue c => push_player_command c queue) cmds [] in
  queue `sublist_of` cmds /\
  (length (List.filter is_move_command queue) <= MAX_MOVE_INTENTS_PER_TICK)%nat /\
  List.filter is_attack_command queue = last_n MAX_ATTACK_INTENTS_PER_TICK (List.filter is_attack_command cmds) /\
  List.filter is_select_command queue = List.filter is_select_command cmds.
Proof.
  cbv zeta. induction cmds as [| c cmds (S & M & A & T)] using rev_ind; [cbn; split_and!; [constructor | lia | done | done] |].
  rewrite !fold_left_app. cbn [fold_left]. set (queue := fold_left _ cmds []) in *.
  destruct (push_player_command_buckets c queue) as (S' & M' & T' & A'). split_and!.
  - etrans; [exact S' |]. by apply sublist_app.
  - auto.
  - rewrite A', !filter_snoc, A.
    + destruct (is_attack_command c); [apply last_n_snoc |]. rewrite !app_nil_r. apply last_n_short, last_n_length.
    + rewrite A. symmetry. apply last_n_short, last_n_length.
  - by rewrite T', !filter_snoc, T.
Qed.
