(* ===== verification/SimSpawn.v ===== *)
(** Mobs coming and going ([zohar-sim/src/runtime/mob/spawn.rs], [cleanup.rs]): the
    map's entity, the spawn rules and their schedule, the mobs of a template, and
    the removal of a corpse. *)
From S2P Require Import Prelude Domain Float Space Entities StatSource ActorState StatsApi Hydrate MapPort Replication Outbox.
From S2P Require Import Channel Persist Segment Planner SimTime Motion Aoi SimTypes SimWorld SimLife SimQuery SimPresence.

(** ** The schedule: a heap, least first *)
Definition spawn_le (a b : SimInstant * nat) : bool :=
  (fst a <? fst b) || ((fst a =? fst b) && (snd a <=? snd b)%nat).
Fixpoint heap_push (x : SimInstant * nat) (heap : list (SimInstant * nat)) : list (SimInstant * nat) :=
  match heap with
  | [] => [x]
  | y :: rest => if spawn_le x y then x :: heap else y :: heap_push x rest
  end.

(** ** Rules *)
Definition set_rule (index : nat) (r : SpawnRuleState) (m : MapSpawnRules) : MapSpawnRules :=
  {| msr_rules := <[index := r]> (msr_rules m); scheduled_spawns := scheduled_spawns m |}.
Definition set_scheduled (heap : list (SimInstant * nat)) (m : MapSpawnRules) : MapSpawnRules :=
  {| msr_rules := msr_rules m; scheduled_spawns := heap |}.
Definition set_respawn_at (at_ : option SimInstant) (r : SpawnRuleState) : SpawnRuleState :=
  {| srs_rule := srs_rule r; active_instances := active_instances r; srs_entities := srs_entities r; respawn_at := at_ |}.
Definition record_spawned (ids : list EntityId) (r : SpawnRuleState) : SpawnRuleState :=
  {| srs_rule := srs_rule r; active_instances := active_instances r + 1;
     srs_entities := srs_entities r ∪ list_to_set ids; respawn_at := respawn_at r |}.
Definition max_count_of (r : SpawnRuleState) : Z := sr_max_count (srs_rule r).

(** A popped entry: whether its rule is to spawn, and the rules after. *)
Definition check_due_rule (respawned_at : SimInstant) (rule_index : nat) (m : MapSpawnRules) : bool * MapSpawnRules :=
  match msr_rules m !! rule_index with
  | None => (false, m)
  | Some r =>
      if negb (bool_decide (respawn_at r = Some respawned_at)) then (false, m)
      else if max_count_of r <=? active_instances r then (false, set_rule rule_index (set_respawn_at None r) m)
      else (true, m)
  end.
(** After the spawns: a rule still short of its count tries again in a millisecond. *)
Definition reschedule_rule (sim_now : SimInstant) (rule_index : nat) (r : SpawnRuleState) (m : MapSpawnRules) : MapSpawnRules :=
  if active_instances r <? max_count_of r then
    let retry_at := SimInstant_saturating_add sim_now 1 in
    set_scheduled (heap_push (retry_at, rule_index) (scheduled_spawns m))
      (set_rule rule_index (set_respawn_at (Some retry_at) r) m)
  else set_rule rule_index (set_respawn_at None r) m.

(** [release_mob_spawn_slot]: the first rule that owns the mob. *)
Fixpoint release_slot (entity_id : EntityId) (now : SimInstant) (idx : nat) (rules : list SpawnRuleState)
  : option (list SpawnRuleState * (SimInstant * nat)) :=
  match rules with
  | [] => None
  | r :: rest =>
      if decide (entity_id ∈ srs_entities r) then
        let respawn := SimInstant_saturating_add now (SimDuration_from_duration (sr_regen_time (srs_rule r))) in
        Some ({| srs_rule := srs_rule r;
                 active_instances := if 0 <? active_instances r then active_instances r - 1 else active_instances r;
                 srs_entities := srs_entities r ∖ {[entity_id]}; respawn_at := Some respawn |} :: rest, (respawn, idx))
      else
        match release_slot entity_id now (S idx) rest with Some (rest, entry) => Some (r :: rest, entry) | None => None end
  end.
Definition release_mob_spawn_slot (entity_id : EntityId) (now : SimInstant) (m : MapSpawnRules) : MapSpawnRules :=
  match release_slot entity_id now 0 (msr_rules m) with
  | Some (rules, entry) => {| msr_rules := rules; scheduled_spawns := heap_push entry (scheduled_spawns m) |}
  | None => m
  end.

(** ** Stats of a mob *)
Definition u32_as_i32_capped (v : Z) : Z := Z.min v i32_max.
Definition mob_stat_source (proto : MobPrototypeDef) : ActorStatSource :=
  let combat := mp_combat proto in
  Source_Mob
    {| mss_level := u32_as_i32_capped (mp_level proto);
       mss_core := {| cb_st := mc_strength combat; cb_ht := mc_vitality combat; cb_dx := mc_dexterity combat;
                      cb_iq := mc_intelligence combat |};
       mss_max_hp := Z.max (mc_max_hp combat) 1;
       mss_def_grade_flat := Z.max (mc_defense combat) 0;
       mss_balance := default_mob_balance_rules;
       mss_speeds := {| StatSource.move_speed := mp_move_speed proto; StatSource.attack_speed := mp_attack_speed proto;
                        StatSource.casting_speed := mp_attack_speed proto |} |}.
Section Stats.
Context `{GrowthRng}.
(** The closure given to the API: the sync, then the full health it makes room for. *)
Definition fill_mob_hp (source : ActorStatSource) (state : ActorStatState unit unit)
  : option (ActorStatState unit unit * unit) :=
  match api_sync source state with
  | None => None
  | Some (state, _) =>
      match api_read_limited source state Stat.MaxHp with
      | None => None
      | Some max_hp =>
          match set_resource Stat.Hp max_hp state with Some (state, _) => Some (state, tt) | None => None end
      end
  end.
Definition mob_stats_from_proto (proto : MobPrototypeDef) : option ActorStatsRuntime :=
  fst <$> with_api_mut fill_mob_hp (ActorStatsRuntime_new (mob_stat_source proto) (ActorStatState_new ActorKind_Mob)).
End Stats.

(** ** Positions *)
Definition map_local_bounds (local_size : LocalSize) : LocalBox :=
  {| box_min := mk_pos f32_zero f32_zero; box_max := mk_pos (size_width local_size) (size_height local_size) |}.
Definition MAX_SPAWN_POSITION_ATTEMPTS : nat := 32.

Section Positions.
Context `{RandomSource}.
(** [sample_pos] *)
Definition sample_pos (b : LocalBox) (rng : Rng) : LocalPos * Rng :=
  let '(x, rng) := random_range_f32_inclusive (pos_x (box_min b)) (pos_x (box_max b)) rng in
  let '(y, rng) := random_range_f32_inclusive (pos_y (box_min b)) (pos_y (box_max b)) rng in
  (mk_pos x y, rng).
Definition chained_group_member_bounds (pos : LocalPos) (rng : Rng) : LocalBox * Rng :=
  let '(extent_x, rng) := random_range_f32_inclusive (f32_of_int 3) (f32_of_int 5) rng in
  let '(extent_y, rng) := random_range_f32_inclusive (f32_of_int 3) (f32_of_int 5) rng in
  (from_center_half_extent pos {| size_width := extent_x; size_height := extent_y |}, rng).
Fixpoint sample_attempts (attempts : nat) (bounds : LocalBox) (navigator : option MapNavigator) (rng : Rng)
  : option LocalPos * Rng :=
  match attempts with
  | O => (None, rng)
  | S attempts =>
      let '(candidate, rng) := sample_pos bounds rng in
      if match navigator with Some nav => negb (can_stand (terrain nav) candidate) | None => false end
      then sample_attempts attempts bounds navigator rng
      else (Some candidate, rng)
  end.
Definition sample_spawn_position (bounds : option LocalBox) (navigator : option MapNavigator) (rng : Rng)
  : option LocalPos * Rng :=
  match bounds with
  | Some bounds => sample_attempts MAX_SPAWN_POSITION_ATTEMPTS bounds navigator rng
  | None => (None, rng)
  end.

(** The place of the next member of a template, near the one before. *)
Definition allowed_bounds (rule : SpawnRuleDef) (map_bounds : LocalBox) (previous_pos : option LocalPos) (rng : Rng)
  : option LocalBox * Rng :=
  match previous_pos with
  | Some prev_pos =>
      let '(chained, rng) := chained_group_member_bounds prev_pos rng in
      (match box_intersect (area_bounds (sr_area rule)) chained with
       | Some b => box_intersect b map_bounds
       | None => None
       end, rng)
  | None => (box_intersect (area_bounds (sr_area rule)) map_bounds, rng)
  end.
Definition spawn_place (rule : SpawnRuleDef) (map_bounds : LocalBox) (navigator : option MapNavigator)
    (previous_pos : option LocalPos) (rng : Rng) : option (LocalPos * Z) * Rng :=
  let '(bounds, rng) := allowed_bounds rule map_bounds previous_pos rng in
  let '(pos, rng) := sample_spawn_position bounds navigator rng in
  let '(rot, rng) :=
    match sr_facing rule with
    | Facing_Random => random_facing rng
    | Facing_Fixed direction => (degrees_to_facing (to_angle direction), rng)
    end in
  ((fun pos => (pos, rot)) <$> pos, rng).
End Positions.

Section Spawn.
Context `{SimEnv}.

(** ** One mob *)
Definition mob_bundle (entity_id : EntityId) (mob_id : MobId) (stats : ActorStatsRuntime) (pos : LocalPos) (rot : Z)
    (next_wander_decision_at : SimInstant) : Bundle := fun k =>
  match k as k return option (comp k) with
  | K_MobMarker => Some tt
  | K_NetEntityId => Some entity_id
  | K_MobRef => Some mob_id
  | K_MobStats => Some stats
  | K_ActorLife => Some Alive
  | K_LocalTransform => Some {| lt_pos := pos; lt_rot := rot |}
  | K_MobMotion => Some {| mm_start_pos := pos; mm_end_pos := pos; mm_start_at := 0; mm_end_at := 0 |}
  | K_MobAggroQueue => Some []
  | K_MobHomeAnchor => Some pos
  | K_MobBrainState =>
      Some {| brain_mode := Brain_Idle; brain_target := None; next_attack_at := 0; attack_windup_until := 0;
              next_rethink_at := 0; wander_next_decision_at := next_wander_decision_at; wander_wait_until := None |}
  | _ => None
  end.

Definition new_entity_id : Sim EntityId :=
  state <~ runtime;
  let '(id, state) := next_entity_id state in
  set_resource_ R_Runtime state ;; done_ id.
Definition first_wander (shared : SharedConfig) (proto : MobPrototypeDef) : Sim SimInstant :=
  if can_wander (mp_bhv_flags proto) then
    state <~ runtime;
    pause <~ with_random (random_duration_between_ms (decision_pause_idle_min (sc_wander shared))
               (decision_pause_idle_max (sc_wander shared)));
    done_ (SimInstant_saturating_add (sim_now state) pause)
  else done_ 0.

Definition spawn_one_mob (map_entity : Entity) (shared : SharedConfig) (mob_id : MobId) (pos : LocalPos) (rot : Z)
    (pack_id : option Z) : Sim (option EntityId) :=
  let_some proto := sc_mobs shared !! mob_id else done_ None;
  stats <~ unwrap (mob_stats_from_proto proto);
  entity_id <~ new_entity_id;
  next_wander_decision_at <~ first_wander shared proto;
  modify K_MapSpatial map_entity (fun spatial => snd (si_insert entity_id pos spatial)) ;;
  mob_entity <~ spawn_bundle (mob_bundle entity_id mob_id stats pos rot next_wander_decision_at);
  match pack_id with Some pack_id => insert_comp K_MobPackId mob_entity pack_id | None => done_ tt end ;;
  update_resource R_NetEntityIndex (<[entity_id := mob_entity]>) ;;
  done_ (Some entity_id).

(** ** One template *)
Definition next_pack : Sim Z :=
  state <~ runtime;
  let pack_id := wrap_u 32 (next_pack_id state + 1) in
  let pack_id := if pack_id =? 0 then 1 else pack_id in
  set_resource_ R_Runtime (with_pack_id pack_id state) ;; done_ pack_id.

(** The members in turn; nothing is spawned unless the first is. *)
Fixpoint spawn_members (map_entity : Entity) (shared : SharedConfig) (rule : SpawnRuleDef) (map_bounds : LocalBox)
    (navigator : option MapNavigator) (pack_id : option Z) (mob_ids : list MobId) (previous_pos : option LocalPos)
    (spawned : list EntityId) : Sim (list EntityId) :=
  match mob_ids with
  | [] => done_ spawned
  | mob_id :: rest =>
      let skip :=
        match previous_pos with
        | None => done_ []
        | Some _ => spawn_members map_entity shared rule map_bounds navigator pack_id rest previous_pos spawned
        end in
      place <~ with_random (spawn_place rule map_bounds navigator previous_pos);
      match place with
      | None => skip
      | Some (pos, rot) =>
          entity_id <~ spawn_one_mob map_entity shared mob_id pos rot pack_id;
          match entity_id with
          | None => skip
          | Some entity_id =>
              spawn_members map_entity shared rule map_bounds navigator pack_id rest (Some pos) (spawned ++ [entity_id])
          end
      end
  end.
Definition spawn_one_template (map_entity : Entity) (shared : SharedConfig) (rule : SpawnRuleDef) : Sim (list EntityId) :=
  map <~ resource R_MapConfig;
  mob_ids <~ with_random (expand_spawn_template (sr_template rule));
  pack_id <~ (if (1 <? length mob_ids)%nat then pack <~ next_pack; done_ (Some pack) else done_ None);
  spawn_members map_entity shared rule (map_local_bounds (mcfg_local_size map)) (mcfg_navigator map) pack_id mob_ids None [].

(** ** The rules of the map *)
Definition spawn_rules_of (map_entity : Entity) : Sim (option MapSpawnRules) := entity_get K_MapSpawnRules map_entity.
Definition rule_at (m : MapSpawnRules) (rule_index : nat) : Sim SpawnRuleState := unwrap (msr_rules m !! rule_index).

(** What a round of spawns adds to its rule.  Without the component the source's
    loop would spawn forever: that is [None], like a panic. *)
Definition add_instance (map_entity : Entity) (rule_index : nat) (spawned : list EntityId) : Sim unit :=
  rules <~ spawn_rules_of map_entity;
  rules <~ unwrap rules;
  r <~ rule_at rules rule_index;
  sim_write K_MapSpawnRules map_entity (set_rule rule_index (record_spawned spawned r) rules).

(** The [while] over what remains of a rule this tick: one template a turn. *)
Fixpoint spawn_rounds (remaining : nat) (map_entity : Entity) (shared : SharedConfig) (rule : SpawnRuleDef) (rule_index : nat)
  : Sim unit :=
  match remaining with
  | O => done_ tt
  | S remaining =>
      spawned <~ spawn_one_template map_entity shared rule;
      if bool_decide (spawned = []) then done_ tt
      else
        add_instance map_entity rule_index spawned ;;
        spawn_rounds remaining map_entity shared rule rule_index
  end.

Definition run_due_rule (map_entity : Entity) (shared : SharedConfig) (sim_now : SimInstant) (rule_index : nat) : Sim unit :=
  rules <~ spawn_rules_of map_entity;
  let_some rules := rules else done_ tt;
  r <~ rule_at rules rule_index;
  spawn_rounds (Z.to_nat (max_count_of r - active_instances r)) map_entity shared (srs_rule r) rule_index ;;
  rules <~ spawn_rules_of map_entity;
  let_some rules := rules else done_ tt;
  r <~ rule_at rules rule_index;
  sim_write K_MapSpawnRules map_entity (reschedule_rule sim_now rule_index r rules) ;;
  mark_map_dirty.

(** The [loop]; [None] when the fuel runs out. *)
Fixpoint spawn_loop (fuel : nat) (map_entity : Entity) (shared : SharedConfig) : Sim unit :=
  state <~ runtime;
  rules <~ spawn_rules_of map_entity;
  let_some rules := rules else done_ tt;
  match scheduled_spawns rules with
  | [] => done_ tt
  | (respawned_at, rule_index) :: heap =>
      if sim_now state <? respawned_at then done_ tt
      else
        match fuel with
        | O => panic
        | S fuel =>
            let '(should_spawn, rules) := check_due_rule respawned_at rule_index (set_scheduled heap rules) in
            sim_write K_MapSpawnRules map_entity rules ;;
            when should_spawn (run_due_rule map_entity shared (sim_now state) rule_index) ;;
            spawn_loop fuel map_entity shared
        end
  end.
Definition spawn_fuel (rules : option MapSpawnRules) : nat :=
  match rules with Some rules => length (scheduled_spawns rules) | None => O end.
Definition spawn_rules : Sim unit :=
  shared <~ resource R_Shared;
  map_entity <~ the_map;
  let_some map_entity := map_entity else done_ tt;
  rules <~ spawn_rules_of map_entity;
  spawn_loop (spawn_fuel rules) map_entity shared.

(** ** Startup *)
Fixpoint preload_rule (fuel : nat) (map_entity : Entity) (shared : SharedConfig) (rule_index : nat) : Sim unit :=
  rules <~ spawn_rules_of map_entity;
  let_some rules := rules else done_ tt;
  r <~ rule_at rules rule_index;
  if max_count_of r <=? active_instances r then done_ tt
  else
    match fuel with
    | O => panic
    | S fuel =>
        spawned <~ spawn_one_template map_entity shared (srs_rule r);
        if bool_decide (spawned = []) then done_ tt
        else
          add_instance map_entity rule_index spawned ;;
          preload_rule fuel map_entity shared rule_index
    end.
Definition preload_fuel (rules : MapSpawnRules) (rule_index : nat) : nat :=
  match msr_rules rules !! rule_index with Some r => Z.to_nat (max_count_of r - active_instances r) | None => O end.
Definition preload_map_to_spawn_cap_world : Sim unit :=
  shared <~ resource R_Shared;
  map_entity <~ the_map;
  let_some map_entity := map_entity else done_ tt;
  rules <~ spawn_rules_of map_entity;
  match rules with
  | Some rules =>
      for_each (seq 0 (length (msr_rules rules))) (fun rule_index =>
        preload_rule (preload_fuel rules rule_index) map_entity shared rule_index)
  | None => done_ tt
  end ;;
  modify K_MapSpawnRules map_entity (fun m =>
    {| msr_rules := map (set_respawn_at None) (msr_rules m); scheduled_spawns := [] |}).

Definition map_bundle (map : MapConfig) (rules : MapSpawnRules) : Bundle := fun k =>
  match k as k return option (comp k) with
  | K_MapMarker => Some tt
  | K_MapInstanceKey => Some (mcfg_map_key map)
  | K_MapEmpire => Some (mcfg_empire map)
  | K_MapSpatial => Some SpatialIndex_new
  | K_MapReplication => Some ReplicationGraph_default
  | K_MapSpawnRules => Some rules
  | K_MapPendingLocalChats => Some []
  | K_MapPendingMovements => Some []
  | K_MapDirtyEntityPublicStates => Some []
  | _ => None
  end.
Definition initial_rules (sim_now : SimInstant) (rules : list SpawnRuleDef) : MapSpawnRules :=
  {| msr_rules := map (fun rule => {| srs_rule := rule; active_instances := 0; srs_entities := ∅; respawn_at := Some sim_now |})
                    rules;
     scheduled_spawns := fold_left (fun heap idx => heap_push (sim_now, idx) heap) (seq 0 (length rules)) [] |}.
Definition bootstrap_map_runtime : Sim unit :=
  map <~ resource R_MapConfig;
  state <~ runtime;
  map_entity <~ spawn_bundle (map_bundle map (initial_rules (sim_now state) (mcfg_spawn_rules map)));
  update_resource R_Runtime (with_map_entity (Some map_entity)) ;;
  preload_map_to_spawn_cap_world.

(** ** Clearing a corpse away *)
Definition destroy_mob_entity (actor : ActorRef) : Sim unit :=
  alive <~ entity_alive (ar_entity actor);
  if negb alive then done_ tt
  else
    state <~ runtime;
    let_some map_entity := map_entity state else done_ tt;
    replication <~ entity_get K_MapReplication map_entity;
    let_some replication := replication else done_ tt;
    let '(observers, replication) := remove_target (ar_id actor) replication in
    sim_write K_MapReplication map_entity replication ;;
    modify K_MapSpatial map_entity (fun spatial => snd (si_remove (ar_id actor) spatial)) ;;
    modify K_MapPendingMovements map_entity (List.filter (fun m => negb (pmv_entity_id m =? ar_id actor))) ;;
    modify K_MapDirtyEntityPublicStates map_entity (List.filter (fun id => negb (id =? ar_id actor))) ;;
    modify K_MapSpawnRules map_entity (release_mob_spawn_slot (ar_id actor) (sim_now state)) ;;
    index <~ resource R_NetEntityIndex;
    update_facts (push_despawned {| dsp_actor_id := ar_id actor; dsp_recipients := omap (fun id => index !! id) observers |}) ;;
    update_resource R_NetEntityIndex (delete (ar_id actor)) ;;
    despawn (ar_entity actor) ;;
    mark_map_dirty.
Definition process_cleanup_events : Sim unit :=
  effects <~ facts;
  for_each (lf_cleanup_due (ff_life effects)) destroy_mob_entity.
End Spawn.

(** ** A slot per dead member *)

Lemma release_slot_owner entity_id now i idx rules r :
  rules !! idx = Some r -> entity_id ∈ srs_entities r ->
  (forall j r', (j < idx)%nat -> rules !! j = Some r' -> entity_id ∉ srs_entities r') ->
  exists rules' respawn, release_slot entity_id now i rules = Some (rules', (respawn, (i + idx)%nat)) /\
    respawn = SimInstant_saturating_add now (SimDuration_from_duration (sr_regen_time (srs_rule r))) /\
    rules' !! idx = Some {| srs_rule := srs_rule r;
      active_instances := if 0 <? active_instances r then active_instances r - 1 else active_instances r;
      srs_entities := srs_entities r ∖ {[entity_id]}; respawn_at := Some respawn |}.
Proof.
  revert i rules. induction idx as [| idx IH]; intros i [| r0 rules] L M O; try done; cbn in L |- *.
  - injection L as ->. rewrite decide_True by done. eexists _, _. rewrite Nat.add_0_r. by split_and!.
  - rewrite decide_False by (by apply (O 0%nat r0); [lia |]).
    destruct (IH (S i) rules L M) as (rules' & respawn & E & R & L').
    { intros j r' Hj Lj. apply (O (S j) r'); [lia | done]. }
    rewrite E. exists (r0 :: rules'), respawn. split; [by rewrite Nat.add_succ_r |]. done.
Qed.

(** One dead member of a group frees the slot of the whole group: the rule spawns
    again at the regeneration time, whoever of the group is still alive. *)
Lemma slot_reopens_per_member entity_id now idx m r :
  msr_rules m !! idx = Some r -> entity_id ∈ srs_entities r ->
  (forall j r', (j < idx)%nat -> msr_rules m !! j = Some r' -> entity_id ∉ srs_entities r') ->
  0 < active_instances r <= max_count_of r ->
  let m' := release_mob_spawn_slot entity_id now m in
  let at_ := SimInstant_saturating_add now (SimDuration_from_duration (sr_regen_time (srs_rule r))) in
  check_due_rule at_ idx m' = (true, m') /\ (at_, idx) ∈ scheduled_spawns m' /\
  (exists r', msr_rules m' !! idx = Some r' /\ srs_entities r' = srs_entities r ∖ {[entity_id]}).
Proof.
  intros L M O A. destruct (release_slot_owner entity_id now 0 idx (msr_rules m) r L M O) as (rules' & respawn & E & R & L').
  cbv zeta. unfold release_mob_spawn_slot. rewrite E, R in *. unfold check_due_rule. cbn [msr_rules scheduled_spawns].
  rewrite L'. cbn [respawn_at negb]. rewrite bool_decide_eq_true_2 by done. cbn [negb active_instances max_count_of srs_rule].
  unfold max_count_of in *. cbn [srs_rule].
  destruct (Z.ltb_spec 0 (active_instances r)); [| lia].
  destruct (Z.leb_spec (sr_max_count (srs_rule r)) (active_instances r - 1)); [lia |].
  split; [done |]. split; [| by eexists].
  clear. induction (scheduled_spawns m) as [| y l IH]; cbn; [apply list_elem_of_here |].
  case_match; [apply list_elem_of_here | by apply list_elem_of_further].
Qed.
