(* ===== verification/SimRewards.v ===== *)
(** Rewards, portals and idle chat ([zohar-sim/src/runtime/rewards.rs],
    [portal.rs], [mob/ambient_chat.rs]). *)
From S2P Require Import Prelude Domain Float Space Entities Wire StatSource ActorState StatsApi Progression Hydrate MapPort.
From S2P Require Import Replication Outbox Channel Persist Text Commands SimTime Motion Aoi SimTypes SimWorld SimLife SimQuery.
From S2P Require Import SimAction SimReplication SimSave.

(** ** Rewards *)
Record MobExpReward : Type := { mer_base_exp : Z; mer_level : Z }.
Record AppliedExpReward : Type := { show_stat_point_step : bool; aer_level_up : option Z }.
Inductive RewardError : Type :=
| Reward_MissingPlayerState
| Reward_InvalidStatWrite (stat : Stat) (source : StatWriteError).

Definition reward_visuals (source recipient : ActorRef) (applied : AppliedExpReward) (x : FrameFacts) : FrameFacts :=
  let x := if show_stat_point_step applied then with_visuals (push_point_effect (LevelStep_effect recipient)) x else x in
  let x :=
    match aer_level_up applied with
    | Some level => with_visuals (push_point_effect (LevelUp_effect recipient level)) x
    | None => x
    end in
  with_visuals (push_projectile_effect {| pve_start := source; pve_end := recipient |}) x.

Section Rewards.
Context `{SimEnv}.
Local Abbreviation State := (ActorStatState unit unit).

Definition mob_exp_reward (mob_entity : Entity) : Sim (option MobExpReward) :=
  mob_ref <~ entity_get K_MobRef mob_entity;
  let_some mob_id := mob_ref else done_ None;
  shared <~ resource R_Shared;
  let_some proto := sc_mobs shared !! mob_id else done_ None;
  done_ (Some {| mer_base_exp := mp_experience proto; mer_level := Z.min (mp_level proto) i32_max |}).

(** A mob whose health a player's blow exhausted remembers who it was. *)
Definition record_claim (death : ActorHpDepleted) : Sim unit :=
  let_some killer := hpd_killer death else done_ tt;
  let victim := ar_entity (hpd_victim death) in
  victim_alive <~ entity_alive victim;
  killer_alive <~ entity_alive (ar_entity killer);
  if negb victim_alive || negb killer_alive then done_ tt
  else
    by_player <~ entity_has K_PlayerMarker (ar_entity killer);
    if negb by_player then done_ tt
    else
      is_mob <~ entity_has K_MobRef victim;
      if negb is_mob then done_ tt
      else
        reward <~ mob_exp_reward victim;
        let_some reward := reward else done_ tt;
        if mer_base_exp reward <=? 0 then done_ tt else insert_comp K_MobDeathRewardClaim victim killer.
Definition record_mob_death_reward_claims : Sim unit :=
  effects <~ facts;
  for_each (cf_hp_depleted (ff_combat effects)) record_claim.

(** *** The stats of the reward *)
Definition reward_progression (outcome : PlayerMobExpRewardOutcome) (current_stat_points : Z) (source : ActorStatSource)
    (state : State) : option (State * result unit RewardError) :=
  let state := set_player_progression (mo_progression outcome) state in
  if 0 <? mo_stat_points_gained outcome then
    match set_stored_stat source Stat.StatPoints (sat_i32 (current_stat_points + mo_stat_points_gained outcome)) state with
    | None => None
    | Some (state, Ok _) => Some (state, Ok tt)
    | Some (state, Err e) => Some (state, Err (Reward_InvalidStatWrite Stat.StatPoints e))
    end
  else Some (state, Ok tt).
(** The caps are read before the three writes. *)
Fixpoint fill_resources (writes : list (Stat * Z)) (state : State) : option (State * result unit RewardError) :=
  match writes with
  | [] => Some (state, Ok tt)
  | (stat, value) :: writes =>
      match set_resource stat value state with
      | None => None
      | Some (state, Ok _) => fill_resources writes state
      | Some (state, Err e) => Some (state, Err (Reward_InvalidStatWrite stat e))
      end
  end.
Definition refill (source : ActorStatSource) (state : State) : option (State * result unit RewardError) :=
  max_hp ← api_read_limited source state Stat.MaxHp;
  max_sp ← api_read_limited source state Stat.MaxSp;
  max_stamina ← api_read_limited source state Stat.MaxStamina;
  fill_resources [(Stat.Hp, max_hp); (Stat.Sp, max_sp); (Stat.Stamina, max_stamina)] state.
Definition apply_reward_stats (stats : ActorStatsRuntime) (outcome : PlayerMobExpRewardOutcome)
  : option (ActorStatsRuntime * result unit RewardError) :=
  match with_api_mut (reward_progression outcome (runtime_read_packet stats Stat.StatPoints)) stats with
  | None => None
  | Some (stats, Err e) => Some (stats, Err e)
  | Some (stats, Ok _) =>
      if 0 <? mo_level_steps_gained outcome then
        match normalize stats with
        | None => None
        | Some (stats, _) => with_api_mut refill stats
        end
      else Some (stats, Ok tt)
  end.

Definition set_level_exp (level exp : Z) (b : PlayerGameplayBootstrap) : PlayerGameplayBootstrap :=
  {| pgb_player_id := pgb_player_id b; pgb_class := pgb_class b; pgb_level := level; pgb_exp_in_level := exp;
     pgb_core_stat_allocations := pgb_core_stat_allocations b; pgb_stat_reset_count := pgb_stat_reset_count b;
     pgb_current_hp := pgb_current_hp b; pgb_current_sp := pgb_current_sp b; pgb_current_stamina := pgb_current_stamina b |}.

Definition apply_player_exp_reward (player_entity : Entity) (mob_reward : MobExpReward)
  : Sim (result (option AppliedExpReward) RewardError) :=
  shared <~ resource R_Shared;
  progression <~ query_get K_PlayerProgression player_entity;
  let_some progression := progression else done_ (Err Reward_MissingPlayerState);
  stats <~ query_get K_PlayerStats player_entity;
  let_some stats := stats else done_ (Err Reward_MissingPlayerState);
  appearance <~ query_get K_PlayerAppearance player_entity;
  let_some appearance := appearance else done_ (Err Reward_MissingPlayerState);
  let current := progression_new (pgb_level progression) (clampc (pgb_exp_in_level progression) 0 u32_max)
    (clampc (runtime_read_packet stats Stat.NextExp) 0 i32_max) in
  let_some outcome :=
    LevelExpTable_apply_mob_exp_reward (level_exp (sc_player_stats shared)) current (mer_level mob_reward)
      (mer_base_exp mob_reward) else done_ (Ok None);
  sim_write K_PlayerProgression player_entity
    (set_level_exp (prog_level (mo_progression outcome)) (exp_in_level (mo_progression outcome)) progression) ;;
  '(stats, r) <~ unwrap (apply_reward_stats stats outcome);
  sim_write K_PlayerStats player_entity stats ;;
  match r with
  | Err e => done_ (Err e)
  | Ok _ =>
      normalize_player player_entity stats appearance ;;
      done_ (Ok (Some {| show_stat_point_step := 0 <? mo_stat_points_gained outcome; aer_level_up := mo_level_up outcome |}))
  end.

(** The killer is still the player the claim names. *)
Definition killer_is_current (killer : ActorRef) : Sim bool :=
  alive <~ entity_alive (ar_entity killer);
  if negb alive then done_ false
  else
    by_player <~ entity_has K_PlayerMarker (ar_entity killer);
    if negb by_player then done_ false
    else
      net <~ entity_get K_NetEntityId (ar_entity killer);
      done_ (match net with Some net_id => net_id =? ar_id killer | None => false end).

Definition grant_reward (actor : ActorRef) : Sim unit :=
  alive <~ entity_alive (ar_entity actor);
  if negb alive then done_ tt
  else
    claim <~ entity_get K_MobDeathRewardClaim (ar_entity actor);
    let_some killer := claim else done_ tt;
    current <~ killer_is_current killer;
    if negb current then remove_comp K_MobDeathRewardClaim (ar_entity actor)
    else
      reward <~ mob_exp_reward (ar_entity actor);
      let_some reward := reward else done_ tt;
      applied <~ apply_player_exp_reward (ar_entity killer) reward;
      match applied with
      | Ok (Some applied) =>
          mark_player_dirty (ar_entity killer) ;;
          update_facts (reward_visuals actor killer applied)
      | _ => done_ tt
      end ;;
      remove_comp K_MobDeathRewardClaim (ar_entity actor).
Definition grant_mob_death_rewards : Sim unit :=
  effects <~ facts;
  for_each (lf_death_finalized (ff_life effects)) grant_reward.
End Rewards.

(** ** Portals *)
Definition PORTAL_OVERLAP_RADIUS_M : spec_float := f32_of_int 3.
Definition PORTAL_POLL_INTERVAL : SimDuration := 200.

Definition finite_pos (x y : spec_float) : bool := f_is_finite x && f_is_finite y.
(** [split_whitespace]: the words between runs of white space. *)
Fixpoint split_whitespace_from (word l : list char) : list (list char) :=
  match l with
  | [] => if bool_decide (word = []) then [] else [word]
  | c :: l =>
      if is_whitespace c then (if bool_decide (word = []) then [] else [word]) ++ split_whitespace_from [] l
      else split_whitespace_from (word ++ [c]) l
  end.
Definition split_whitespace (l : list char) : list (list char) := split_whitespace_from [] l.
(** [name.split_whitespace().rev()]: the last two words. *)
Definition parse_portal_destination (behavior : PortalBehavior) (name : string) : option PortalDestination :=
  match rev (split_whitespace (chars name)) with
  | y_word :: x_word :: _ =>
      y ← parse_f32 (text_of y_word);
      x ← parse_f32 (text_of x_word);
      if negb (finite_pos x y) then None
      else
        Some (match behavior with
              | Portal_MapTransfer => Dest_MapTransfer {| world_x := x; world_y := y |}
              | Portal_LocalReposition => Dest_LocalReposition (mk_pos x y)
              end)
  | _ => None
  end.

Record PortalEntry : Type := { pe_entity : Entity; pe_pos : LocalPos; pe_destination : PortalDestination }.
Record PortalOverlap : Type := { po_portal_entity : Entity; po_destination : PortalDestination }.

(** An entity's index orders entities as their numbers do. *)
Definition candidate_is_nearer (current : option (PortalOverlap * spec_float)) (candidate : PortalOverlap * spec_float) : bool :=
  match current with
  | None => true
  | Some (current_overlap, current_dist) =>
      f32_total_lt (snd candidate) current_dist ||
      (SFeqb (snd candidate) current_dist && (po_portal_entity (fst candidate) <? po_portal_entity current_overlap))
  end.

Section Portal.
Context `{SimEnv}.

Definition distance_sq (a b : LocalPos) : spec_float := let delta := pos_sub a b in vec_dot delta delta.

Definition portal_entry (shared : SharedConfig) (w : World) (e : Entity) : option PortalEntry :=
  transform ← get K_LocalTransform e w;
  mob_id ← get K_MobRef e w;
  proto ← sc_mobs shared !! mob_id;
  match mp_mob_kind proto with
  | Mob_Portal behavior =>
      destination ← parse_portal_destination behavior (mp_name proto);
      Some {| pe_entity := e; pe_pos := lt_pos transform; pe_destination := destination |}
  | _ => None
  end.
Definition collect_portals : Sim (list PortalEntry) :=
  shared <~ resource R_Shared;
  entities <~ query [K_LocalTransform; K_MobRef];
  reads_w (fun w => omap (portal_entry shared w) entities).

Definition resolve_player_entity (entity_id : EntityId) : Sim (option Entity) :=
  entity <~ net_entity entity_id;
  let_some entity := entity else done_ None;
  marker <~ entity_get K_PlayerMarker entity;
  done_ (match marker with Some _ => Some entity | None => None end).
Definition sample_player_position (player_entity : Entity) (packet_now : Z) : Sim (option LocalPos) :=
  transform <~ entity_get K_LocalTransform player_entity;
  let_some transform := transform else done_ None;
  motion <~ entity_get K_PlayerMotion player_entity;
  done_ (Some (match motion with Some m => sample_player_visual_position_at m packet_now | None => lt_pos transform end)).

Notation Overlaps := (gmap Entity (PortalOverlap * spec_float)).
(** One entity near a portal: the player it is, when inside the radius and nearer
    than the portals seen before. *)
Definition overlap_candidate (packet_now : Z) (portal : PortalEntry) (best : Overlaps) (entity_id : EntityId) : Sim Overlaps :=
  player_entity <~ resolve_player_entity entity_id;
  let_some player_entity := player_entity else done_ best;
  player_pos <~ sample_player_position player_entity packet_now;
  let_some player_pos := player_pos else done_ best;
  let dist_sq := distance_sq player_pos (pe_pos portal) in
  if SFltb (f32_mul PORTAL_OVERLAP_RADIUS_M PORTAL_OVERLAP_RADIUS_M) dist_sq then done_ best
  else
    let candidate := ({| po_portal_entity := pe_entity portal; po_destination := pe_destination portal |}, dist_sq) in
    done_ (if candidate_is_nearer (best !! player_entity) candidate then <[player_entity := candidate]> best else best).
Definition portal_overlaps (spatial : SpatialIndex) (packet_now : Z) (best : Overlaps) (portal : PortalEntry) : Sim Overlaps :=
  ids <~ unwrap (query_in_radius (pe_pos portal) (f32_add MAX_MOVE_PACKET_STEP_M PORTAL_OVERLAP_RADIUS_M) spatial);
  fold_sim (overlap_candidate packet_now portal) ids best.
Definition collect_current_player_portal_overlaps (map_entity : Entity) (portals : list PortalEntry) (packet_now : Z)
  : Sim (gmap Entity PortalOverlap) :=
  spatial <~ entity_get K_MapSpatial map_entity;
  let_some spatial := spatial else done_ ∅;
  best <~ fold_sim (portal_overlaps spatial packet_now) portals ∅;
  done_ (fst <$> best).

(** A rising edge: the player was not over this portal at the last poll. *)
Definition newly_over (previous : gmap Entity Entity) (current : gmap Entity PortalOverlap) (player : Entity)
  : option PortalDestination :=
  overlap ← current !! player;
  if bool_decide (previous !! player = Some (po_portal_entity overlap)) then None else Some (po_destination overlap).

Definition process_portal_entries : Sim unit :=
  state <~ runtime;
  let_some map_entity := map_entity state else done_ tt;
  poll <~ resource R_PortalPoll;
  if sim_now state <? next_poll_at poll then done_ tt
  else
    set_resource_ R_PortalPoll
      {| next_poll_at := SimInstant_saturating_add (sim_now state) PORTAL_POLL_INTERVAL; overlaps := ∅ |} ;;
    portals <~ collect_portals;
    current_overlaps <~ collect_current_player_portal_overlaps map_entity portals (packet_now state);
    players <~ in_some_order (dom current_overlaps);
    for_each players (fun player =>
      match newly_over (overlaps poll) current_overlaps player with
      | Some destination => outbox_push player (PortalEntered destination)
      | None => done_ tt
      end) ;;
    update_resource R_PortalPoll (fun p =>
      {| next_poll_at := next_poll_at p; overlaps := po_portal_entity <$> current_overlaps |}).

(** ** Idle chat *)
Definition CHAT_CONTEXT_IDLE : string := "idle".
Definition random_interval_ms (min_ms max_ms : Z) (rng : Rng) : SimDuration * Rng :=
  if max_ms <=? min_ms then (min_ms, rng) else random_range min_ms max_ms rng.
(** The line as the client gets it: it ends in a zero. *)
Definition chat_line_bytes (text : string) : bytes :=
  let message := bytes_of text in
  if bool_decide (last message = Some 0) then message else message ++ [0].

(** Whether the mob speaks now; its next time is set when it does, and the first
    time it is asked. *)
Definition chat_turn (now : SimInstant) (mob_entity : Entity) (next_delay_ms : SimDuration) : Sim bool :=
  let next_emit_at := SimInstant_saturating_add now next_delay_ms in
  chat_state <~ entity_get K_MobChatState mob_entity;
  match chat_state with
  | Some at_ =>
      if now <? at_ then done_ false
      else sim_write K_MobChatState mob_entity next_emit_at ;; done_ true
  | None => insert_comp K_MobChatState mob_entity next_emit_at ;; done_ false
  end.
Definition idle_line (shared : SharedConfig) (now : SimInstant) (mob_entity : Entity) (mob_id : MobId)
  : Sim (option bytes) :=
  let_some proto := sc_mobs shared !! mob_id else done_ None;
  let_some strategy := strategy_for (sc_mob_chat shared) CHAT_CONTEXT_IDLE (mp_mob_kind proto) mob_id else done_ None;
  let_some lines := lines_for (sc_mob_chat shared) CHAT_CONTEXT_IDLE mob_id else done_ None;
  if bool_decide (lines = []) then done_ None
  else
    next_delay_ms <~ with_random (random_interval_ms (interval_min_sec strategy * 1000) (interval_max_sec strategy * 1000));
    should_emit <~ chat_turn now mob_entity next_delay_ms;
    if negb should_emit then done_ None
    else
      line_idx <~ with_random (random_range 0 (Z.of_nat (length lines) - 1));
      line <~ unwrap (lines !! Z.to_nat line_idx);
      done_ (Some (chat_line_bytes (line_text line))).
Definition chat_mob (w : World) (e : Entity) : option (Entity * MobId * EntityId) :=
  mob_id ← get K_MobRef e w;
  net_id ← get K_NetEntityId e w;
  Some (e, mob_id, net_id).
Definition idle_emission (shared : SharedConfig) (now : SimInstant) (emissions : list (EntityId * bytes))
    (mob : Entity * MobId * EntityId) : Sim (list (EntityId * bytes)) :=
  let '(mob_entity, mob_id, mob_net_id) := mob in
  line <~ idle_line shared now mob_entity mob_id;
  done_ (match line with Some message => emissions ++ [(mob_net_id, message)] | None => emissions end).
Definition emit_idle_chat : Sim unit :=
  recipients <~ player_entities_on_map;
  if bool_decide (recipients = []) then done_ tt
  else
    shared <~ resource R_Shared;
    state <~ runtime;
    entities <~ query [K_MobRef; K_NetEntityId];
    mobs <~ reads_w (fun w => omap (chat_mob w) entities);
    emissions <~ fold_sim (idle_emission shared (sim_now state)) mobs [];
    if bool_decide (emissions = []) then done_ tt
    else
      for_each recipients (fun recipient =>
        modify K_PlayerOutbox recipient
          (push_all (map (fun '(sender_entity_id, message) =>
                            Event_Chat Chat_Speak (Some sender_entity_id) None message) emissions))).
End Portal.
