(* ===== verification/SimSchedule.v ===== *)
(** A tick of the map ([zohar-sim/src/runtime/schedule.rs], [plugins.rs]): the
    systems in the order of their sets, and what surrounds them in a frame. *)
From S2P Require Import Prelude Domain Float Space Entities StatsApi MapPort Replication Outbox Channel Persist SimTime Motion.
From S2P Require Import Aoi SimTypes SimWorld SimLife SimQuery SimAction SimCombat SimAi SimReplication SimPresence SimSave.
From S2P Require Import SimVitals SimIntents SimSpawn SimRewards.

(** Durations of the fixed clock are nanoseconds. *)
Definition ACTIVE_SIM_TIMESTEP : Z := 40 * nanos_per_milli.
Definition IDLE_SIM_TIMESTEP : Z := 1000 * nanos_per_milli.
Record FixedTime : Type := { timestep : Z; overstep : Z }.

Definition sync_fixed_tick_rate (player_count : Z) (fixed_time : FixedTime) : FixedTime :=
  let previous := timestep fixed_time in
  let target := if 0 <? player_count then ACTIVE_SIM_TIMESTEP else IDLE_SIM_TIMESTEP in
  if previous =? target then fixed_time
  else
    {| timestep := target;
       overstep := if (previous =? IDLE_SIM_TIMESTEP) && (target =? ACTIVE_SIM_TIMESTEP) then 0 else overstep fixed_time |}.

(** What [configure_sim_schedule] chains. *)
Inductive SimSet : Type :=
| Set_DrainInbound | Set_SyncTickRate | Set_Sense | Set_StatsNormalize | Set_PlayerActions | Set_Think | Set_Act
| Set_Lifecycle | Set_Resources | Set_Projection | Set_Ambient | Set_AoiReconcile | Set_ReplicationFlush | Set_StatsFlush
| Set_OutboxFlush | Set_Autosave.

Section Schedule.
Context `{SimEnv}.

(** [elapsed] is the real time since the start, in nanoseconds. *)
Definition advance_sim_time (elapsed : Z) : Sim unit :=
  update_resource R_Runtime (with_sim_now (SimInstant_from_elapsed elapsed)).
Definition has_active_players : Sim bool :=
  count <~ resource R_PlayerCount; done_ (0 <? count).
Definition if_active (m : Sim unit) : Sim unit := active <~ has_active_players; when active m.

Definition run_set (s : SimSet) : Sim unit :=
  match s with
  | Set_Sense => sample_mob_motion ;; spawn_rules ;; process_player_progression
  | Set_StatsNormalize => if_active normalize_player_stats_for_gameplay
  | Set_PlayerActions => process_player_actions ;; process_portal_entries ;; route_mob_aggro
  | Set_Think => process_mob_ai
  | Set_Act => process_actions ;; process_attack_commands
  | Set_Lifecycle =>
      process_life_events ;; record_mob_death_reward_claims ;; process_actor_lifecycle ;; process_player_restarts ;;
      grant_mob_death_rewards ;; process_cleanup_events
  | Set_Resources => if_active process_player_stat_tickers
  | Set_Projection => process_player_dirty_events ;; project_frame_facts
  | Set_Ambient => process_chat_intents ;; emit_idle_chat
  | Set_AoiReconcile => if_active aoi_reconcile
  | Set_StatsFlush => flush_player_stats_sync
  | Set_ReplicationFlush =>
      queue_changed_player_public_states ;; flush_changed_player_movement_animations ;; replication_flush
  | Set_OutboxFlush => outbox_flush
  | Set_Autosave => enqueue_due_autosaves
  | Set_DrainInbound | Set_SyncTickRate => done_ tt
  end.
Definition FIXED_UPDATE : list SimSet :=
  [Set_Sense; Set_StatsNormalize; Set_PlayerActions; Set_Think; Set_Act; Set_Lifecycle; Set_Resources; Set_Projection;
   Set_Ambient; Set_AoiReconcile].
Definition FIXED_POST_UPDATE : list SimSet := [Set_StatsFlush; Set_ReplicationFlush; Set_OutboxFlush; Set_Autosave].

(** [FixedFirst], [FixedUpdate] and [FixedPostUpdate]. *)
Definition fixed_tick (elapsed : Z) : Sim unit :=
  advance_sim_time elapsed ;;
  for_each (FIXED_UPDATE ++ FIXED_POST_UPDATE) run_set.

(** A frame: the messages that have arrived, then the ticks that are due, each at
    the time its [FixedFirst] reads. *)
Definition frame (inbound : list InboundEvent) (ticks : list Z) : Sim (list InboundReply) :=
  replies <~ drain_inbound inbound;
  for_each ticks fixed_tick ;;
  done_ replies.
Definition startup : Sim unit := bootstrap_map_runtime.

(** The resources when the app is built. *)
Definition initial_runtime (r : Rng) : RuntimeState :=
  {| next_net_id := 0; next_pack_id := 0; map_entity := None; is_dirty := false; sim_now := 0; rng := r |}.
Definition initial_res (shared : SharedConfig) (map : MapConfig) (port : option PersistTx) (r : Rng) (k : ResKind) : res k :=
  match k as k return res k with
  | R_Runtime => initial_runtime r
  | R_PlayerIndex => ∅
  | R_NetEntityIndex => ∅
  | R_PlayerCount => 0
  | R_PortalPoll => {| next_poll_at := 0; overlaps := ∅ |}
  | R_ActionBuffer => []
  | R_MobAggroDispatch => []
  | R_AttackCommands => []
  | R_DelayedAttacks => []
  | R_FrameFacts => FrameFacts_default
  | R_Shared => shared
  | R_MapConfig => map
  | R_PersistencePort => port
  end.
Definition initial_world (shared : SharedConfig) (map : MapConfig) (port : option PersistTx) (r : Rng) : World :=
  {| w_entities := ∅; w_next_entity := 0; w_fate := 0; w_changed := fun _ => ∅; w_added := fun _ => ∅;
     w_res := initial_res shared map port r |}.
End Schedule.
