(* ===== verification/SimSafe.v ===== *)
(** The invariant of a map's world and the program logic of its systems: [wp m Q w]
    says that [m], run in [w], does not panic, keeps the invariant, moves the
    world forward ([ext]) and ends in [Q].  The systems' own lemmas are in the
    files that follow. *)
From S2P Require Import Prelude Domain StatSource ActorState StatsApi Hydrate StatsSafety Float CombatTiming Space.
From S2P Require Import Entities Persist MapPort Channel Outbox Replication SimTime Motion Aoi SimTypes SimWorld.
From S2P Require Import SimLife SimQuery.

(** ** Content under which nothing panics *)
Definition mob_content_ok (proto : MobPrototypeDef) : Prop :=
  mc_max_hp (mp_combat proto) <= i32_max /\ is_i64 (mp_experience proto).
Record shared_ok (n : Z) (shared : SharedConfig) : Prop := {
  so_rules : rules_ok n (sc_player_stats shared);
  so_mobs : forall id proto, sc_mobs shared !! id = Some proto -> mob_content_ok proto }.
(** A map at least a millimetre wide and high. *)
Definition axis_ok (size : spec_float) : Prop := SFleb f32_zero (f32_sub size (f32_lit 1 1000)) = true.
Definition map_config_ok (map : MapConfig) : Prop :=
  axis_ok (size_width (mcfg_local_size map)) /\ axis_ok (size_height (mcfg_local_size map)).

(** What does not change while a map runs, and the instant of the present tick.
    [s_ticking] is false between ticks; [s_rules] are the map's spawn rules while
    they must not change. *)
Record Setting : Type := {
  s_ticking : bool; s_map : Entity; s_now : SimInstant; s_levels : Z; s_shared : SharedConfig; s_config : MapConfig;
  s_rules : option MapSpawnRules }.

Definition cleanup_at_of (phase : ActorLifePhase) : option SimInstant :=
  match phase with Dead _ _ _ _ cleanup_at => cleanup_at | _ => None end.
(** A corpse this tick clears away. *)
Definition phase_doomed (now : SimInstant) (phase : ActorLifePhase) : bool :=
  match cleanup_at_of phase with Some at_ => at_ <=? now | None => false end.

Section Invariant.
Context `{SimEnv}.
Variable S : Setting.

Definition doomed (e : Entity) (w : World) : bool :=
  match get K_ActorLife e w with Some phase => phase_doomed (s_now S) phase | None => false end.
Lemma doomed_live e w : doomed e w = true -> live e w.
Proof. unfold doomed. destruct (get K_ActorLife e w) eqn:E; [intros _; by eapply get_live | done]. Qed.
(** An entity this tick keeps. *)
Definition safe (e : Entity) (w : World) : Prop := live e w /\ doomed e w = false.
Definition is_player (e : Entity) (w : World) : Prop := is_Some (get K_PlayerMarker e w).
(** A net id of a player. *)
Definition named_player (id : EntityId) (w : World) : Prop := exists e, is_player e w /\ get K_NetEntityId e w = Some id.

(** *** Components *)
Definition tickers_ok (t : PlayerStatTickerComp) : Prop :=
  clock_wf (pt_clock (tick_passive_hp t)) /\ clock_wf (pt_clock (tick_passive_sp t)) /\
  clock_wf (pt_clock (tick_stamina_ticker t)).
Definition player_stats_ok (r : ActorStatsRuntime) : Prop :=
  runtime_ok (s_levels S) r /\ exists player, ar_source r = Source_Player player.
Definition comp_ok (k : CompKind) : comp k -> Prop :=
  match k return comp k -> Prop with
  | K_PlayerStats => player_stats_ok
  | K_MobStats => fun stats => runtime_ok (s_levels S) stats
  | K_PlayerProgression => fun b => 1 <= pgb_level b <= s_levels S
  | K_PlayerStatTicker => tickers_ok
  | K_PlayerPersistence => fun p => clock_wf (pp_autosave p)
  | K_MapSpawnRules => fun m => length (msr_rules m) = length (mcfg_spawn_rules (s_config S))
  | _ => fun _ => True
  end.
Record bundle_ok (b : Bundle) : Prop := {
  bo_comp k v : b k = Some v -> comp_ok k v;
  bo_player : is_Some (b K_PlayerMarker) ->
    b K_MobMarker = None /\ is_Some (b K_NetEntityId) /\
    (forall phase, b K_ActorLife = Some phase -> cleanup_at_of phase = None);
  bo_restart : is_Some (b K_PlayerRestartIntentQueue) -> is_Some (b K_PlayerMarker) }.

(** Who observes is a player. *)
Definition graph_ok (g : ReplicationGraph) (w : World) : Prop :=
  exists E, graph_refines g E /\ forall o t, E o t -> named_player o w.

(** *** Facts *)
Definition cleanup_ok (actor : ActorRef) (w : World) : Prop :=
  ar_entity actor < w_next_entity w /\
  (live (ar_entity actor) w ->
  doomed (ar_entity actor) w = true /\ get K_PlayerMarker (ar_entity actor) w = None /\
  get K_NetEntityId (ar_entity actor) w = Some (ar_id actor)).
Record facts_ok (f : FrameFacts) (w : World) : Prop := {
  fo_damaged : Forall (fun d => safe (ar_entity (dmg_attacker d)) w /\ safe (ar_entity (dmg_victim d)) w)
    (cf_damaged (ff_combat f));
  fo_projectiles : Forall (fun t => safe (ar_entity (ptf_target t)) w) (vf_projectile_targets (ff_visuals f));
  fo_despawned : Forall (fun d => Forall (fun e => safe e w) (dsp_recipients d)) (ff_despawned f);
  fo_stamina : Forall (fun s => safe (ar_entity (stc_player s)) w) (ff_stamina_timer_changed f);
  fo_cleanup : Forall (fun a => cleanup_ok a w) (lf_cleanup_due (ff_life f)) }.
(** Between ticks there are no facts but the players to save. *)
Definition facts_quiet (f : FrameFacts) : Prop :=
  cf_damaged (ff_combat f) = [] /\ vf_projectile_targets (ff_visuals f) = [] /\ ff_despawned f = [] /\
  ff_stamina_timer_changed f = [] /\ lf_cleanup_due (ff_life f) = [].
Definition facts_inv (f : FrameFacts) (w : World) : Prop :=
  if s_ticking S then facts_ok f w else facts_quiet f.

(** *** Resources *)
Definition res_ok (r : ResKind) : res r -> World -> Prop :=
  match r return res r -> World -> Prop with
  | R_Runtime => fun s _ => map_entity s = Some (s_map S) /\ sim_now s = s_now S
  | R_NetEntityIndex => fun index w => forall id e, index !! id = Some e -> get K_NetEntityId e w = Some id
  | R_PlayerIndex => fun index w => forall p e, index !! p = Some e -> get K_PlayerMarker e w = Some p
  | R_ActionBuffer => fun buffer _ => buffer = []
  | R_FrameFacts => facts_inv
  | R_Shared => fun shared _ => shared = s_shared S
  | R_MapConfig => fun config _ => config = s_config S
  | _ => fun _ _ => True
  end.

Definition map_components : list CompKind :=
  [K_MapSpatial; K_MapReplication; K_MapSpawnRules; K_MapPendingMovements; K_MapPendingLocalChats;
   K_MapDirtyEntityPublicStates].

Record Inv (w : World) : Prop := {
  inv_next e : live e w -> e < w_next_entity w;
  inv_bundle e b : w_entities w !! e = Some b -> bundle_ok b;
  inv_res r : res_ok r (w_res w r) w;
  inv_map : Forall (fun k => is_Some (get k (s_map S) w)) map_components;
  inv_map_actor : get K_PlayerMarker (s_map S) w = None /\ get K_NetEntityId (s_map S) w = None;
  inv_graph g : get K_MapReplication (s_map S) w = Some g -> graph_ok g w;
  inv_rules rules : s_rules S = Some rules -> get K_MapSpawnRules (s_map S) w = Some rules;
  (** no corpse of this tick answers to a player's net id *)
  inv_distinct e id : s_ticking S = true -> named_player id w -> doomed e w = true -> get K_NetEntityId e w <> Some id;
  inv_now : 0 <= s_now S < u64_max;
  inv_shared : shared_ok (s_levels S) (s_shared S);
  inv_config : map_config_ok (s_config S) }.

Lemma inv_map_comp w k : Inv w -> In k map_components -> is_Some (get k (s_map S) w).
Proof. intros I. pose proof (inv_map _ I) as M. rewrite List.Forall_forall in M. apply M. Qed.
Lemma map_live w : Inv w -> live (s_map S) w.
Proof. intros I. destruct (inv_map_comp w K_MapSpatial I) as [s E]; [by left |]. by eapply get_live. Qed.

(** ** How the world moves *)
Definition kept (k : CompKind) : bool :=
  match k with K_PlayerMarker | K_MobMarker | K_NetEntityId => true | _ => false end.
Record ext (w w' : World) : Prop := {
  ext_live e : live e w -> live e w';
  ext_kept k e : kept k = true -> live e w -> get k e w' = get k e w;
  ext_doomed e : live e w -> doomed e w' = doomed e w;
  ext_next : w_next_entity w <= w_next_entity w';
  ext_new e : live e w' -> live e w \/ w_next_entity w <= e }.

Lemma ext_refl w : ext w w.
Proof. split; try done. by left. Qed.
Lemma ext_trans w1 w2 w3 : ext w1 w2 -> ext w2 w3 -> ext w1 w3.
Proof.
  intros [L1 K1 D1 N1 F1] [L2 K2 D2 N2 F2]. split; [auto | | | lia |].
  - intros k e Hk L. rewrite K2 by auto. auto.
  - intros e L. rewrite D2 by auto. auto.
  - intros e L. destruct (F2 e L) as [L' | ?]; [auto |]. right. lia.
Qed.

(** A property that lasts. *)
Class Stable (P : World -> Prop) : Prop := stable w w' : ext w w' -> P w -> P w'.

#[export] Instance stable_live e : Stable (live e).
Proof. intros w w' X. apply X. Qed.
#[export] Instance stable_safe e : Stable (safe e).
Proof. intros w w' X [L D]. split; [by apply X | by rewrite (ext_doomed _ _ X)]. Qed.
Lemma stable_kept k e v : kept k = true -> Stable (fun w => get k e w = Some v).
Proof. intros Hk w w' X G. rewrite (ext_kept _ _ X) by eauto using get_live. done. Qed.
#[export] Instance stable_marker e v : Stable (fun w => get K_PlayerMarker e w = Some v).
Proof. by apply stable_kept. Qed.
#[export] Instance stable_net e v : Stable (fun w => get K_NetEntityId e w = Some v).
Proof. by apply stable_kept. Qed.
#[export] Instance stable_mob e v : Stable (fun w => get K_MobMarker e w = Some v).
Proof. by apply stable_kept. Qed.
#[export] Instance stable_is_player e : Stable (is_player e).
Proof. intros w w' X [p G]. exists p. by apply (stable_marker e p w w'). Qed.
#[export] Instance stable_player_id id : Stable (named_player id).
Proof.
  intros w w' X (e & P & G). exists e. split; [by apply (stable_is_player e w w') | by apply (stable_net e id w w')].
Qed.
#[export] Instance stable_and P Q : Stable P -> Stable Q -> Stable (fun w => P w /\ Q w).
Proof. intros SP SQ w w' X [? ?]. split; eauto. Qed.
#[export] Instance stable_Forall {A} (P : A -> World -> Prop) l : (forall a, Stable (P a)) -> Stable (fun w => Forall (fun a => P a w) l).
Proof. intros SP w w' X F. eapply Forall_impl; [exact F |]. intros a Pa. by apply (SP a w w'). Qed.
#[export] Instance stable_all {A} (P : A -> World -> Prop) : (forall a, Stable (P a)) -> Stable (fun w => forall a, P a w).
Proof. intros SP w w' X F a. by apply (SP a w w'). Qed.
#[export] Instance stable_imp (P : Prop) (Q : World -> Prop) : Stable Q -> Stable (fun w => P -> Q w).
Proof. intros SQ w w' X F p. by apply (SQ w w'), F. Qed.
#[export] Instance stable_from_option {A} (P : A -> World -> Prop) o : (forall a, Stable (P a)) ->
  Stable (fun w => match o with Some a => P a w | None => True end).
Proof. intros SP w w' X. destruct o; [apply SP, X | done]. Qed.
Lemma stable_graph g : Stable (graph_ok g).
Proof. intros w w' X (E & R & P). exists E. split; [done |]. intros o t Ho. by apply (stable_player_id o w w'), (P o t). Qed.
#[export] Existing Instance stable_graph.
#[export] Instance stable_cleanup a : Stable (cleanup_ok a).
Proof.
  intros w w' X [N C]. split; [pose proof (ext_next _ _ X); lia |]. intros L'.
  destruct (ext_new _ _ X _ L') as [L | L]; [| lia]. destruct (C L) as (D & P & G).
  rewrite (ext_doomed _ _ X), !(ext_kept _ _ X) by done. done.
Qed.
Lemma stable_facts f : Stable (facts_inv f).
Proof.
  intros w w' X. unfold facts_inv. destruct (s_ticking S); [| done]. intros [F1 F2 F3 F4 F5]. split.
  - exact (stable_Forall (fun d w => safe (ar_entity (dmg_attacker d)) w /\ safe (ar_entity (dmg_victim d)) w) _ _ w w' X F1).
  - exact (stable_Forall (fun t => safe (ar_entity (ptf_target t))) _ _ w w' X F2).
  - exact (stable_Forall (fun d w => Forall (fun e => safe e w) (dsp_recipients d)) _ _ w w' X F3).
  - exact (stable_Forall (fun s => safe (ar_entity (stc_player s))) _ _ w w' X F4).
  - exact (stable_Forall cleanup_ok _ _ w w' X F5).
Qed.
Lemma stable_res r v : Stable (res_ok r v).
Proof.
  destruct r; try by intros w w'.
  - intros w w' X I p e E. apply (stable_marker e p w w' X). by apply I.
  - intros w w' X I id e E. apply (stable_net e id w w' X). by apply I.
  - apply stable_facts.
Qed.

(** ** The invariant step by step *)
Lemma player_id_back id w w' : ext w w' ->
  (forall e, live e w' -> ~ live e w -> get K_PlayerMarker e w' = None) -> named_player id w' -> named_player id w.
Proof.
  intros X F (e & [p P] & G). destruct (decide (live e w)) as [L | L].
  - exists e. rewrite !(ext_kept _ _ X) in P, G by done. split; [by exists p | done].
  - rewrite F in P by eauto using get_live. done.
Qed.
Lemma inv_step w w' : Inv w -> ext w w' ->
  (forall e, live e w' -> e < w_next_entity w') ->
  (forall e b, w_entities w' !! e = Some b -> bundle_ok b) ->
  (forall r, res_ok r (w_res w' r) w') ->
  Forall (fun k => is_Some (get k (s_map S) w')) map_components ->
  (forall g, get K_MapReplication (s_map S) w' = Some g -> graph_ok g w') ->
  (forall rules, s_rules S = Some rules -> get K_MapSpawnRules (s_map S) w' = Some rules) ->
  (s_ticking S = true -> forall e, live e w' -> ~ live e w -> get K_PlayerMarker e w' = None /\ doomed e w' = false) ->
  Inv w'.
Proof.
  intros I X N B R M G U F. split; try done; try apply I.
  - pose proof (map_live _ I) as L.
    rewrite !(ext_kept _ _ X) by done. apply I.
  - intros e id T P D E. destruct (decide (live e w)) as [L | L].
    + rewrite (ext_doomed _ _ X) in D by done. rewrite (ext_kept _ _ X) in E by done.
      apply (inv_distinct _ I e id T); [| done | done]. eapply player_id_back; [done | | done].
      intros e' L' L''. by apply F.
    + destruct (F T e) as [_ D']; [by apply doomed_live | done |]. congruence.
Qed.

(** Worlds that differ in what the invariant does not look at. *)
Lemma inv_same w w' : Inv w -> w_entities w' = w_entities w -> w_next_entity w' = w_next_entity w ->
  (forall r, w_res w' r = w_res w r) -> Inv w' /\ ext w w'.
Proof.
  intros I E N R.
  assert (forall k e, get k e w' = get k e w) as G by (intros k e; unfold get; by rewrite E).
  assert (forall e, live e w' <-> live e w) as L by (intros e; unfold live; by rewrite E).
  assert (forall e, doomed e w' = doomed e w) as D by (intros e; unfold doomed; by rewrite G).
  assert (ext w w') as X.
  { split; [by intros e; apply L | by intros; apply G | by intros; apply D | lia | intros e Le; left; by apply L]. }
  split; [| done]. apply (inv_step w w' I X).
  - intros e Le. rewrite N. apply I, L, Le.
  - intros e b. rewrite E. apply I.
  - intros r. rewrite R. apply (stable_res r _ w w' X), I.
  - eapply Forall_impl; [apply (inv_map _ I) |]. intros k. by rewrite G.
  - intros g. rewrite G. intros Eg. apply (stable_graph g w w' X). by apply (inv_graph w I).
  - intros rules U. rewrite G. by apply (inv_rules w I).
  - intros _ e Le Ln. by apply L in Le.
Qed.

Lemma inv_set_res r v w : Inv w -> res_ok r v w -> Inv (set_res r v w) /\ ext w (set_res r v w).
Proof.
  intros I Hv. assert (ext w (set_res r v w)) as X by (split; try done; by left). split; [| done].
  apply (inv_step w _ I X); try by apply I.
  - intros r'. apply (stable_res r' _ w _ X). destruct (decide (r = r')) as [<- | Nr].
    + by rewrite res_set_eq.
    + rewrite res_set_ne by done. apply I.
  - done.
Qed.

(** What a write must respect. *)
Definition write_ok (k : CompKind) (v : comp k) (e : Entity) (w : World) : Prop :=
  comp_ok k v /\ kept k = false /\
  match k return comp k -> Prop with
  | K_ActorLife => fun phase =>
      phase_doomed (s_now S) phase = doomed e w /\ (is_player e w -> cleanup_at_of phase = None)
  | K_MapReplication => fun g => graph_ok g w
  | K_PlayerRestartIntentQueue => fun _ => is_player e w
  | K_MapSpawnRules => fun _ => s_rules S = None
  | _ => fun _ => True
  end v.

(** A component set to [v], or taken away. *)
Lemma inv_set_comp k (o : option (comp k)) e b w w' : Inv w ->
  w_entities w !! e = Some b -> w_entities w' = <[e := bundle_set k o b]> (w_entities w) ->
  w_next_entity w' = w_next_entity w -> (forall r, w_res w' r = w_res w r) ->
  match o with Some v => write_ok k v e w | None => k = K_MobDeathRewardClaim end ->
  Inv w' /\ ext w w'.
Proof.
  intros I Eb E N R O.
  assert (live e w) as Le by by exists b.
  assert (forall k' e', k <> k' \/ e <> e' -> get k' e' w' = get k' e' w) as G.
  { intros k' e' Hn. unfold get. rewrite E. destruct (decide (e = e')) as [<- | Ne].
    - rewrite lookup_insert_eq, Eb. cbn. apply bundle_set_ne. by destruct Hn.
    - by rewrite lookup_insert_ne. }
  assert (get k e w' = o) as Gk by (unfold get; rewrite E, lookup_insert_eq; apply bundle_set_eq).
  assert (forall e', live e' w' <-> live e' w) as L.
  { intros e'. unfold live. rewrite E, lookup_insert_is_Some'. split; [intros [<- | ?]; done | by right]. }
  assert (kept k = false) as Hk by (destruct o as [v |]; [by destruct O as (_ & ? & _) | by subst]).
  assert (forall e', doomed e' w' = doomed e' w) as D.
  { intros e'. unfold doomed. destruct (decide (k = K_ActorLife /\ e = e')) as [[-> <-] | Hn].
    - rewrite Gk. destruct o as [v |]; [| by discriminate O]. destruct O as (_ & _ & Hd & _). rewrite Hd. done.
    - rewrite G; [done |]. destruct (decide (k = K_ActorLife)); [right | by left]. tauto. }
  assert (ext w w') as X.
  { split; [by intros e' ?; apply L | | by intros; apply D | lia | intros e' ?; left; by apply L].
    intros k' e' Hk' _. apply G. left. intros ->. congruence. }
  split; [| done]. apply (inv_step w w' I X).
  - intros e' Le'. rewrite N. apply I, L, Le'.
  - intros e' b'. rewrite E. intros Eb'. destruct (decide (e = e')) as [<- | Ne].
    2: { rewrite lookup_insert_ne in Eb' by done. by eapply inv_bundle. }
    rewrite lookup_insert_eq in Eb'. injection Eb' as <-. pose proof (inv_bundle _ I e b Eb) as [B1 B2 B3].
    assert (forall k', kept k' = true -> bundle_set k o b k' = b k') as Bk.
    { intros k' Hk'. apply bundle_set_ne. intros ->. congruence. }
    split.
    + intros k' v'. destruct (decide (k = k')) as [<- | Nk]; [rewrite bundle_set_eq | rewrite bundle_set_ne by done; apply B1].
      intros ->. apply O.
    + rewrite !Bk by done. intros P. destruct (B2 P) as (M & Ne & C). split; [done |]. split; [done |].
      intros phase. destruct (decide (k = K_ActorLife)) as [-> | Nk]; [rewrite bundle_set_eq | rewrite bundle_set_ne by done; apply C].
      intros ->. destruct O as (_ & _ & _ & Hc). apply Hc. unfold is_player, get. by rewrite Eb.
    + rewrite (Bk K_PlayerMarker) by done. destruct (decide (k = K_PlayerRestartIntentQueue)) as [-> | Nk].
      * rewrite bundle_set_eq. destruct o as [v |]; [| by intros [? [=]]]. destruct O as (_ & _ & P). intros _.
        unfold is_player, get in P. by rewrite Eb in P.
      * by rewrite bundle_set_ne.
  - intros r. rewrite R. apply (stable_res r _ w w' X), I.
  - apply List.Forall_forall. intros k' Ik. pose proof (inv_map _ I) as M. rewrite List.Forall_forall in M.
    destruct (decide (k = k' /\ e = s_map S)) as [[<- <-] | Hn].
    + rewrite Gk. destruct o; [by eexists |]. exfalso. rewrite O in Ik. cbn in Ik. intuition discriminate.
    + rewrite G; [by apply M |]. destruct (decide (k = k')); [right | by left]. tauto.
  - intros g Eg. apply (stable_graph g w w' X). destruct (decide (k = K_MapReplication /\ e = s_map S)) as [[-> ->] | Hn].
    + rewrite Gk in Eg. rewrite Eg in O. by destruct O as (_ & _ & ?).
    + rewrite G in Eg; [by apply (inv_graph w I) |]. destruct (decide (k = K_MapReplication)); [right | by left]. tauto.
  - intros rules U. destruct (decide (k = K_MapSpawnRules)) as [-> | Nk]; [| rewrite G by (by left); by apply (inv_rules w I)].
    destruct o as [v |]; [| done]. destruct O as (_ & _ & N0). congruence.
  - intros _ e' Le' Ln. by apply L in Le'.
Qed.

Lemma inv_write k v e w : Inv w -> live e w -> write_ok k v e w -> Inv (write k e v w) /\ ext w (write k e v w).
Proof.
  intros I [b Eb] O. apply (inv_set_comp k (Some v) e b w); auto.
  - by apply write_entities.
  - unfold write. by rewrite Eb.
  - intros r. apply res_write.
Qed.

(** A new entity. *)
Definition spawn_ok (b : Bundle) : Prop :=
  bundle_ok b /\
  (s_ticking S = true -> b K_PlayerMarker = None /\ forall phase, b K_ActorLife = Some phase -> phase_doomed (s_now S) phase = false).
Lemma inv_spawn b w w' : Inv w -> spawn_ok b ->
  w_entities w' = <[w_next_entity w := b]> (w_entities w) -> w_next_entity w' = w_next_entity w + 1 ->
  (forall r, w_res w' r = w_res w r) -> Inv w' /\ ext w w'.
Proof.
  intros I (Hb & Ht) E N R. set (e := w_next_entity w) in *.
  assert (~ live e w) as Ln by (intros L; pose proof (inv_next _ I e L); unfold e in *; lia).
  assert (forall e', live e' w' <-> e' = e \/ live e' w) as L.
  { intros e'. unfold live. rewrite E, lookup_insert_is_Some'. intuition congruence. }
  assert (forall k e', e <> e' -> get k e' w' = get k e' w) as G by (intros k e' Ne; unfold get; by rewrite E, lookup_insert_ne).
  assert (forall k, get k e w' = b k) as Ge by (intros k; unfold get; by rewrite E, lookup_insert_eq).
  assert (ext w w') as X.
  { split.
    - intros e' Le. apply L. by right.
    - intros k e' _ Le. apply G. by intros <-.
    - intros e' Le. unfold doomed. rewrite G; [done |]. by intros <-.
    - lia.
    - intros e' [-> | Le]%L; [right; unfold e; lia | by left]. }
  assert (e <> s_map S) as Nm by (intros Em; apply Ln; rewrite Em; by apply map_live).
  split; [| done]. apply (inv_step w w' I X).
  - intros e' [-> | Le]%L; [unfold e; lia |]. pose proof (inv_next _ I e' Le). lia.
  - intros e' b'. rewrite E. destruct (decide (e = e')) as [<- | Ne].
    + rewrite lookup_insert_eq. by intros [= <-].
    + rewrite lookup_insert_ne by done. apply I.
  - intros r. rewrite R. apply (stable_res r _ w w' X), I.
  - eapply Forall_impl; [apply (inv_map _ I) |]. intros k. by rewrite G by congruence.
  - intros g. rewrite G by congruence. intros Eg. apply (stable_graph g w w' X). by apply (inv_graph w I).
  - intros rules U. rewrite G by congruence. by apply (inv_rules w I).
  - intros T e' [-> | Le]%L Ln'; [| done]. destruct (Ht T) as [M D]. rewrite Ge. split; [done |]. unfold doomed. rewrite Ge.
    destruct (b K_ActorLife) as [phase |] eqn:El; [| done]. by apply D.
Qed.

(** ** The program logic *)
Definition wp {A} (m : Sim A) (Q : A -> World -> Prop) (w : World) : Prop :=
  exists a w', m w = Some (a, w') /\ Inv w' /\ ext w w' /\ Q a w'.
Notation ok m w := (wp m (fun _ _ => True) w).

Lemma wp_mono {A} (m : Sim A) (Q Q' : A -> World -> Prop) w : wp m Q w ->
  (forall a w', Inv w' -> ext w w' -> Q a w' -> Q' a w') -> wp m Q' w.
Proof. intros (a & w' & E & I & X & HQ) HM. exists a, w'. split_and!; auto. Qed.
Lemma wp_done {A} (a : A) (Q : A -> World -> Prop) w : Inv w -> Q a w -> wp (done_ a) Q w.
Proof. intros I HQ. exists a, w. split_and!; auto using ext_refl. Qed.
Lemma wp_step {A B} (m : Sim A) (k : A -> Sim B) (Q0 : A -> World -> Prop) Q w : wp m Q0 w ->
  (forall a w1, Inv w1 -> ext w w1 -> Q0 a w1 -> wp (k a) Q w1) -> wp (sim_bind m k) Q w.
Proof.
  intros (a & w1 & E & I & X & HQ) HK. destruct (HK a w1 I X HQ) as (b & w2 & E2 & I2 & X2 & HQ2).
  exists b, w2. unfold sim_bind. rewrite E. split_and!; eauto using ext_trans.
Qed.
Lemma wp_assoc {A B C} (m : Sim A) (k : A -> Sim B) (h : B -> Sim C) Q w :
  wp (sim_bind m (fun a => sim_bind (k a) h)) Q w -> wp (sim_bind (sim_bind m k) h) Q w.
Proof.
  intros (c & w' & E & R). exists c, w'. split; [| done]. revert E. unfold sim_bind. by destruct (m w) as [[a w1] |].
Qed.
Lemma wp_ret {A} (m : Sim A) Q w : wp (sim_bind m done_) Q w -> wp m Q w.
Proof.
  intros (a & w' & E & R). exists a, w'. split; [| done]. revert E. unfold sim_bind, done_. destruct (m w) as [[a1 w1] |]; done.
Qed.
(** A step that reads. *)
Lemma wp_read {A B} (m : Sim A) (a : A) (k : A -> Sim B) Q w : m w = Some (a, w) -> wp (k a) Q w -> wp (sim_bind m k) Q w.
Proof. intros E (b & w' & E' & R). exists b, w'. split; [| done]. unfold sim_bind. by rewrite E. Qed.
Lemma wp_bind_done {A B} (a : A) (k : A -> Sim B) Q w : wp (k a) Q w -> wp (sim_bind (done_ a) k) Q w.
Proof. by apply wp_read. Qed.
Lemma wp_unwrap {A B} (o : option A) (k : A -> Sim B) Q w :
  is_Some o -> (forall a, o = Some a -> wp (k a) Q w) -> wp (sim_bind (unwrap o) k) Q w.
Proof. intros [a ->] HK. apply (wp_read _ a); [done | auto]. Qed.

(** *** Reading *)
Lemma inv_comp k e v w : Inv w -> get k e w = Some v -> comp_ok k v.
Proof.
  intros I G. unfold get in G. destruct (w_entities w !! e) as [b |] eqn:E; [| done]. by eapply (bo_comp b); [eapply inv_bundle |].
Qed.
(** What a component read says. *)
Definition found (k : CompKind) (e : Entity) (w : World) (o : option (comp k)) : Prop :=
  get k e w = o /\ match o with Some v => comp_ok k v | None => True end.
Lemma found_get k e w : Inv w -> found k e w (get k e w).
Proof. intros I. unfold found. split; [done |]. destruct (get k e w) eqn:E; [by eapply inv_comp | done]. Qed.
Lemma wp_get {B} k e (f : option (comp k) -> Sim B) Q w : Inv w -> live e w ->
  (forall o, found k e w o -> wp (f o) Q w) -> wp (sim_bind (entity_get k e) f) Q w.
Proof.
  intros I L HK. apply (wp_read _ (get k e w)); [| by apply HK, found_get].
  unfold entity_get. by rewrite (proj2 (contains_live e w) L).
Qed.
Lemma wp_query_get {B} k e (f : option (comp k) -> Sim B) Q w : Inv w ->
  (forall o, found k e w o -> wp (f o) Q w) -> wp (sim_bind (query_get k e) f) Q w.
Proof. intros I HK. apply (wp_read _ (get k e w)); [done | by apply HK, found_get]. Qed.
Lemma wp_has {B} k e (f : bool -> Sim B) Q w : live e w ->
  (forall b : bool, (if b then exists v, get k e w = Some v else get k e w = None) -> wp (f b) Q w) ->
  wp (sim_bind (entity_has k e) f) Q w.
Proof.
  intros L HK. apply (wp_read _ (bool_decide (is_Some (get k e w)))).
  - unfold entity_has. by rewrite (proj2 (contains_live e w) L).
  - apply HK. case_bool_decide as D; [done |]. by apply eq_None_not_Some.
Qed.
Lemma wp_alive {B} e (f : bool -> Sim B) Q w :
  (forall b : bool, (if b then live e w else True) -> wp (f b) Q w) -> wp (sim_bind (entity_alive e) f) Q w.
Proof.
  intros HK. apply (wp_read _ (contains e w)); [done |]. apply HK. destruct (contains e w) eqn:E; [by apply contains_live | done].
Qed.
Lemma wp_runtime {B} (f : RuntimeState -> Sim B) Q w : Inv w ->
  (forall s, map_entity s = Some (s_map S) -> sim_now s = s_now S -> wp (f s) Q w) -> wp (sim_bind runtime f) Q w.
Proof. intros I HK. apply (wp_read _ (w_res w R_Runtime)); [done |]. destruct (inv_res _ I R_Runtime). by apply HK. Qed.
Lemma wp_resource {B} r (f : res r -> Sim B) Q w : Inv w ->
  (forall v, res_ok r v w -> wp (f v) Q w) -> wp (sim_bind (resource r) f) Q w.
Proof. intros I HK. apply (wp_read _ (w_res w r)); [done |]. apply HK, I. Qed.
Lemma wp_facts {B} (f : FrameFacts -> Sim B) Q w : Inv w ->
  (forall x, facts_inv x w -> wp (f x) Q w) -> wp (sim_bind facts f) Q w.
Proof. intros I. apply (wp_resource R_FrameFacts f Q w I). Qed.

(** *** Choices *)
Lemma inv_fate w : Inv w -> Inv (next_fate w) /\ ext w (next_fate w).
Proof. intros I. by apply inv_same. Qed.
Lemma elem_matching ks e w : e ∈ matching ks w -> live e w /\ forall k, k ∈ ks -> is_Some (get k e w).
Proof.
  unfold matching, matches. intros (b & [E F]%map_lookup_filter_Some)%elem_of_dom.
  split; [by exists b |]. intros k Ik. unfold get. rewrite E. cbn [bundle_get] in *.
  pose proof (proj1 (forallb_forall _ _) F k (proj1 (list_elem_of_In _ _) Ik)) as B. by apply bool_decide_eq_true in B.
Qed.
Lemma wp_query `{!SimEnvLaws} {B} ks (f : list Entity -> Sim B) Q w : Inv w ->
  (forall l w1, Inv w1 -> ext w w1 ->
     Forall (fun e => live e w1 /\ (K_PlayerMarker ∈ ks -> is_player e w1)) l -> wp (f l) Q w1) ->
  wp (sim_bind (query ks) f) Q w.
Proof.
  intros I HK. destruct (inv_fate w I) as [I1 X1].
  destruct (HK (query_order (w_fate w) (matching ks w)) (next_fate w) I1 X1) as (b & w2 & E & I2 & X2 & HQ).
  - apply List.Forall_forall. intros e Ie. apply list_elem_of_In in Ie. rewrite query_order_perm, elem_of_elements in Ie.
    apply elem_matching in Ie as [L M]. split; [done |]. intros Ik. by apply M.
  - exists b, w2. split; [done |]. split; [done |]. split; [by eapply ext_trans | done].
Qed.
Lemma wp_order `{!SimEnvLaws} {B} (s : gset Entity) (f : list Entity -> Sim B) Q w : Inv w ->
  (forall l w1, Inv w1 -> ext w w1 -> (forall e, e ∈ l -> e ∈ s) -> wp (f l) Q w1) ->
  wp (sim_bind (in_some_order s) f) Q w.
Proof.
  intros I HK. destruct (inv_fate w I) as [I1 X1].
  destruct (HK (query_order (w_fate w) s) (next_fate w) I1 X1) as (b & w2 & E & I2 & X2 & HQ).
  - intros e. by rewrite query_order_perm, elem_of_elements.
  - exists b, w2. split; [done |]. split; [done |]. split; [by eapply ext_trans | done].
Qed.
Lemma ok_try_recv rx w : Inv w -> ok (try_recv rx) w.
Proof.
  intros I. destruct rx as [s |]; [destruct (inv_fate w I) as [I1 X1] |]; eexists _, _; (split; [reflexivity |]); auto using ext_refl.
Qed.
Lemma ok_oneshot w : Inv w -> ok oneshot_channel w.
Proof. intros I. destruct (inv_fate w I) as [I1 X1]. eexists _, _. split; [reflexivity |]. auto. Qed.
Lemma wp_sort `{!SimEnvLaws} l w : Inv w -> wp (unstable_sort l) (fun l' _ => l' ≡ₚ l) w.
Proof. intros I. destruct (inv_fate w I) as [I1 X1]. eexists _, _. split; [reflexivity |]. split_and!; auto. apply env_sort_perm. Qed.

(** *** Writing *)
Lemma ok_write k e v w : Inv w -> (live e w -> write_ok k v e w) -> ok (sim_write k e v) w.
Proof.
  intros I O. destruct (decide (live e w)) as [L | L].
  - destruct (inv_write k v e w I L (O L)). eexists tt, _. split; [reflexivity |]. auto.
  - exists tt, w. unfold sim_write, write. destruct (w_entities w !! e) eqn:E; [exfalso; apply L; by eexists |].
    auto using ext_refl.
Qed.
Lemma ok_modify k e f w : Inv w -> live e w ->
  (forall v, get k e w = Some v -> comp_ok k v -> write_ok k (f v) e w) -> ok (modify k e f) w.
Proof.
  intros I L O. unfold modify. apply wp_get; [done.. |]. intros [v |] F; [| by apply wp_done].
  destruct F. apply ok_write; auto.
Qed.
Lemma ok_insert k e v w : Inv w -> live e w -> write_ok k v e w -> ok (insert_comp k e v) w.
Proof.
  intros I [b E] O. unfold insert_comp. eexists tt, _. rewrite E. split; [reflexivity |].
  enough (Inv _ /\ ext w _) as [? ?] by (split_and!; eauto). by apply (inv_set_comp k (Some v) e b w).
Qed.
Lemma ok_remove_claim e w : Inv w -> live e w -> ok (remove_comp K_MobDeathRewardClaim e) w.
Proof.
  intros I [b E]. unfold remove_comp. eexists tt, _. rewrite E. split; [reflexivity |].
  enough (Inv _ /\ ext w _) as [? ?] by (split_and!; eauto). by apply (inv_set_comp K_MobDeathRewardClaim None e b w).
Qed.
Lemma ok_set_resource r v w : Inv w -> res_ok r v w -> ok (set_resource_ r v) w.
Proof. intros I O. destruct (inv_set_res r v w I O). eexists tt, _. split; [reflexivity |]. auto. Qed.
Lemma ok_update r f w : Inv w -> res_ok r (f (w_res w r)) w -> ok (update_resource r f) w.
Proof. intros I O. destruct (inv_set_res r _ w I O). eexists tt, _. split; [reflexivity |]. auto. Qed.
Lemma ok_runtime f w : Inv w ->
  (forall s, map_entity (f s) = map_entity s /\ sim_now (f s) = sim_now s) -> ok (update_resource R_Runtime f) w.
Proof.
  intros I F. apply ok_update; [done |]. destruct (inv_res _ I R_Runtime) as [M N]. cbn.
  destruct (F (w_res w R_Runtime)) as [F1 F2]. by rewrite F1, F2.
Qed.
Lemma ok_set_runtime s w : Inv w -> map_entity s = Some (s_map S) -> sim_now s = s_now S -> ok (set_resource_ R_Runtime s) w.
Proof. intros I M N. by apply ok_set_resource. Qed.
Lemma ok_mark_map_dirty w : Inv w -> ok mark_map_dirty w.
Proof. intros I. by apply ok_runtime. Qed.
Lemma ok_observed k w : Inv w -> ok (observed k) w.
Proof.
  intros I. unfold observed. eexists tt, _. split; [reflexivity |].
  enough (Inv _ /\ ext w _) as [? ?] by (split_and!; eauto). by apply inv_same.
Qed.
Lemma wp_spawn b w : Inv w -> spawn_ok b ->
  wp (spawn_bundle b) (fun e w' => live e w' /\ forall k, get k e w' = b k) w.
Proof.
  intros I O. unfold spawn_bundle. eexists (w_next_entity w), _. split; [reflexivity |].
  match goal with |- Inv ?w' /\ _ => destruct (inv_spawn b w w' I O) as [I' X]; [done.. |] end.
  split; [done |]. split; [done |]. unfold live, get. cbn [w_entities]. rewrite lookup_insert_eq. split; [by eexists | done].
Qed.
Lemma wp_random {A} (f : Rng -> A * Rng) (P : A -> Prop) w : Inv w -> (forall r, P (fst (f r))) ->
  wp (with_random f) (fun a _ => P a) w.
Proof.
  intros I HP. unfold with_random. apply wp_runtime; [done |]. intros s _ _.
  pose proof (HP (rng s)) as Ha. destruct (f (rng s)) as [a r]. eapply wp_step; [by apply ok_runtime |].
  intros _ w1 I1 X1 _. by apply wp_done.
Qed.
Lemma ok_random {A} (f : Rng -> A * Rng) w : Inv w -> ok (with_random f) w.
Proof. intros I. by apply (wp_random f (fun _ => True)). Qed.

(** *** Loops *)
Lemma ok_for_each {A} (P : A -> World -> Prop) (l : list A) (f : A -> Sim unit) w :
  Inv w -> Forall (fun a => P a w) l -> (forall a, Stable (P a)) ->
  (forall a w1, Inv w1 -> ext w w1 -> P a w1 -> ok (f a) w1) -> ok (for_each l f) w.
Proof.
  intros I F SP Hf. enough (forall w1, Inv w1 -> ext w w1 -> ok (for_each l f) w1) as G by (apply G; [done | apply ext_refl]).
  induction l as [| a l IH]; intros w1 I1 X1; [by apply wp_done |]. apply Forall_cons in F as [Fa F]. cbn [for_each].
  eapply wp_step; [apply Hf; [done | done | by apply (SP a w w1)] |]. intros _ w2 I2 X2 _. apply IH; eauto using ext_trans.
Qed.
Lemma wp_fold {A B} (P : A -> World -> Prop) (R : B -> World -> Prop) (f : B -> A -> Sim B) (l : list A) b w :
  Inv w -> Forall (fun a => P a w) l -> (forall a, Stable (P a)) -> R b w ->
  (forall b a w1, Inv w1 -> ext w w1 -> P a w1 -> R b w1 -> wp (f b a) R w1) -> wp (fold_sim f l b) R w.
Proof.
  intros I F SP Rb Hf.
  enough (forall w1 b, Inv w1 -> ext w w1 -> R b w1 -> wp (fold_sim f l b) R w1) as G by (apply G; [done | apply ext_refl | done]).
  clear Rb b. induction l as [| a l IH]; intros w1 b I1 X1 R1; [by apply wp_done |]. apply Forall_cons in F as [Fa F]. cbn [fold_sim].
  eapply wp_step; [apply Hf; [done | done | by apply (SP a w w1) | done] |]. intros b2 w2 I2 X2 R2. apply IH; eauto using ext_trans.
Qed.
Lemma Forall_any {A} (l : list A) : Forall (fun _ => True) l.
Proof. by apply List.Forall_forall. Qed.
End Invariant.

(** Running a system by its code: the tactics that follow a system's steps through
    the program logic of [SimSafe], with the hint database of the systems' lemmas. *)
Notation ok S m w := (wp S m (fun _ _ => True) w).

(** ** Running a system by its code *)
Create HintDb sim.
#[export] Hint Constants Opaque : sim.
#[export] Hint Transparent comp res : sim.

(** Hypotheses that last are carried to the next world; the others are dropped. *)
Ltac carry S X w w' H :=
  let T := type of H in
  let P := eval pattern w in T in
  lazymatch P with
  | ?Q _ =>
      let H' := fresh in
      assert (Q w') as H' by exact (stable S (P := Q) w w' X H); cbv beta in H'; clear H; rename H' into H
  end.
Ltac carry_all X :=
  lazymatch type of X with
  | ext ?S ?w ?w' =>
      repeat match goal with
      | H : Inv S w |- _ => clear H
      | H : context [w] |- _ =>
          lazymatch type of H with ext _ _ _ => fail | _ => first [carry S X w w' H | clear H] end
      end;
      clear X; try clear w
  end.

Section Handy.
Context `{SimEnv} {S : Setting}.

Lemma safe_live e w : safe S e w -> live e w.
Proof. by intros []. Qed.
Lemma player_live e w : is_player e w -> live e w.
Proof. intros [p G]. by eapply get_live. Qed.
Lemma is_player_marker e p w : get K_PlayerMarker e w = Some p -> is_player e w.
Proof. intros G. by exists p. Qed.

Lemma wp_reads {A B} (g : World -> A) (f : A -> Sim B) Q w : wp S (f (g w)) Q w -> wp S (sim_bind (reads_w g) f) Q w.
Proof. by apply wp_read. Qed.
Lemma wp_the_map {B} (f : option Entity -> Sim B) Q w : Inv S w -> wp S (f (Some (s_map S))) Q w -> wp S (sim_bind the_map f) Q w.
Proof. intros I HK. unfold the_map. apply wp_assoc, wp_runtime; [done |]. intros s -> _. by apply wp_bind_done. Qed.
Lemma wp_net_entity {B} id (f : option Entity -> Sim B) Q w : Inv S w ->
  (forall o, match o with Some e => get K_NetEntityId e w = Some id | None => True end -> wp S (f o) Q w) ->
  wp S (sim_bind (net_entity id) f) Q w.
Proof.
  intros I HK. unfold net_entity. apply wp_assoc, wp_resource; [done |]. intros index R. apply wp_bind_done, HK.
  case_match eqn:E; [by apply R | done].
Qed.
Lemma ok_when b m w : Inv S w -> (b = true -> ok S m w) -> ok S (when b m) w.
Proof. intros I O. destruct b; [by apply O | by apply wp_done]. Qed.
Lemma wp_unit {B} (m : Sim unit) (k : Sim B) Q w : ok S m w -> (forall w1, Inv S w1 -> ext S w w1 -> wp S k Q w1) ->
  wp S (sim_bind m (fun _ => k)) Q w.
Proof. intros O HK. eapply wp_step; [exact O | auto]. Qed.
Lemma wp_query_live `{!SimEnvLaws} {B} ks (f : list Entity -> Sim B) Q w : Inv S w ->
  (forall l w1, Inv S w1 -> ext S w w1 -> Forall (fun e => live e w1) l -> wp S (f l) Q w1) ->
  wp S (sim_bind (query ks) f) Q w.
Proof. intros I HK. apply (wp_query S); [done |]. intros l w1 I1 X1 F. apply HK; [done | done |]. eapply Forall_impl; [exact F |]. by intros e [L _]. Qed.
Lemma wp_query_player `{!SimEnvLaws} {B} ks (f : list Entity -> Sim B) Q w : K_PlayerMarker ∈ ks -> Inv S w ->
  (forall l w1, Inv S w1 -> ext S w w1 -> Forall (fun e => is_player e w1) l -> wp S (f l) Q w1) ->
  wp S (sim_bind (query ks) f) Q w.
Proof.
  intros Ik I HK. apply (wp_query S); [done |]. intros l w1 I1 X1 F. apply HK; [done | done |].
  eapply Forall_impl; [exact F |]. intros e [_ P]. auto.
Qed.
End Handy.
(** *** Components the invariant says nothing of *)
Definition plain_kind (k : CompKind) : bool :=
  match k with
  | K_PlayerStats | K_MobStats | K_PlayerProgression | K_PlayerStatTicker | K_PlayerPersistence | K_MapSpawnRules
  | K_ActorLife | K_MapReplication | K_PlayerRestartIntentQueue | K_PlayerMarker | K_MobMarker | K_NetEntityId => false
  | _ => true
  end.
(** Resources of which the invariant says nothing. *)
Definition plain_res (r : ResKind) : bool :=
  match r with
  | R_Runtime | R_NetEntityIndex | R_PlayerIndex | R_ActionBuffer | R_FrameFacts | R_Shared | R_MapConfig => false
  | _ => true
  end.
Section Plain.
Context `{SimEnv} {S : Setting}.
Lemma plain_write_ok k v e w : plain_kind k = true -> write_ok S k v e w.
Proof. by destruct k. Qed.
Lemma ok_write_plain k e v w : plain_kind k = true -> Inv S w -> ok S (sim_write k e v) w.
Proof. intros P I. apply ok_write; [done |]. intros _. by apply plain_write_ok. Qed.
Lemma ok_insert_plain k e v w : plain_kind k = true -> Inv S w -> live e w -> ok S (insert_comp k e v) w.
Proof. intros P I L. apply ok_insert; [done.. |]. by apply plain_write_ok. Qed.
Lemma ok_modify_plain k e f w : plain_kind k = true -> Inv S w -> live e w -> ok S (modify k e f) w.
Proof. intros P I L. apply ok_modify; [done.. |]. intros v _ _. by apply plain_write_ok. Qed.
Lemma ok_update_plain r f w : plain_res r = true -> Inv S w -> ok S (update_resource r f) w.
Proof. intros P I. apply ok_update; [done |]. by destruct r. Qed.
Lemma ok_set_plain r v w : plain_res r = true -> Inv S w -> ok S (set_resource_ r v) w.
Proof. intros P I. apply ok_set_resource; [done |]. by destruct r. Qed.
End Plain.
#[export] Hint Extern 1 (plain_res _ = true) => reflexivity : sim.
#[export] Hint Resolve ok_update_plain ok_set_plain : sim.
#[export] Hint Extern 3 (wp _ (update_resource R_Runtime _) _ _) => apply ok_runtime; [| by intros] : sim.
#[export] Hint Extern 1 (plain_kind _ = true) => reflexivity : sim.
#[export] Hint Resolve ok_write_plain ok_insert_plain ok_modify_plain ok_remove_claim ok_random ok_mark_map_dirty ok_observed : sim.
#[export] Hint Resolve ok_try_recv ok_oneshot : sim.
#[export] Hint Resolve safe_live player_live map_live : sim.
#[export] Hint Extern 1 (live ?e ?w) =>
  match goal with G : get _ e w = Some _ |- _ => exact (get_live _ _ _ _ G) end : sim.
#[export] Hint Extern 1 (is_player ?e ?w) =>
  match goal with G : get K_PlayerMarker e w = Some _ |- _ => exact (is_player_marker _ _ _ G) end : sim.

Ltac sim_side := cbv beta; first [assumption | solve [eauto 4 with sim nocore] | done | solve [progress cbn; eauto 4 with sim nocore]].
(** Cases on what the code looks at. *)
Ltac sim_case x :=
  lazymatch x with
  | negb ?b => sim_case b
  | ?a || _ => sim_case a
  | ?a && _ => sim_case a
  | (_, _) => idtac
  | _ => first [is_var x; destruct x | let E := fresh "E" in destruct x eqn:E]
  end.
Ltac sim_tidy :=
  cbv beta iota zeta; cbn [negb andb orb];
  repeat match goal with
  | H : found _ ?k ?e ?w _ |- _ => let G := fresh "G" in let C := fresh "C" in destruct H as [G C]; cbn [comp_ok] in C
  | H : True |- _ => clear H
  | H : false = true |- _ => discriminate H
  | H : true = false |- _ => discriminate H
  | H : ?b = true |- _ => is_var b; subst b
  | H : ?b = false |- _ => is_var b; subst b
  | R : forall id e, ?v !! id = Some e -> get _ e ?w = Some id, E : ?v !! _ = Some _ |- _ => apply R in E
  | P : is_player ?e ?w, G : get K_PlayerMarker ?e ?w = None |- _ => exfalso; destruct P as [? P]; rewrite G in P; discriminate P
  | H : ar_entity _ = ?e |- _ => is_var e; subst e
  | H : context [snd (_, _)] |- _ => cbn [snd] in H
  | H : context [fst (_, _)] |- _ => cbn [fst] in H
  | H : ?A /\ _ |- _ => lazymatch A with _ <= _ => fail | _ => destruct H end
  | H : exists _, _ |- _ => destruct H
  | H : if true then _ else _ |- _ => cbv iota in H
  | H : if false then _ else _ |- _ => cbv iota in H
  | H : match Some _ with Some _ => _ | None => _ end |- _ => cbv iota beta in H
  | H : match None with Some _ => _ | None => _ end |- _ => cbv iota in H
  end.
Ltac sim_post := first [exact Logic.I | assumption | reflexivity | solve [cbn; split_and?; sim_side] | idtac].
Ltac sim_loop_step :=
  let a := fresh "a" in let w1 := fresh "w" in let I1 := fresh "I" in let X1 := fresh "X" in let Pa := fresh "P" in
  intros a w1 I1 X1 Pa; carry_all X1; cbv beta in Pa.
(** What is known of a list's elements in the present world, as a property of both. *)
Ltac with_elements l w tac :=
  match goal with
  | F : Forall _ l |- _ =>
      let T := type of F in
      let p := eval pattern w in T in
      lazymatch p with (fun w0 => Forall (fun a => @?P a w0) _) _ => tac P F end
  end.
Ltac sim_for_each :=
  lazymatch goal with
  | |- wp ?S (for_each ?l _) _ ?w =>
      first [ with_elements l w ltac:(fun P F =>
                apply (ok_for_each S P); [sim_side | exact F | intros ?; apply _ | sim_loop_step])
            | apply (ok_for_each S (fun _ _ => True)); [sim_side | apply Forall_any | intros ?; by intros ? ? ? ? | sim_loop_step] ]
  end.
(** A loop that carries a value of which nothing need be known. *)
Ltac sim_fold_step :=
  let b := fresh "b" in let a := fresh "a" in let w1 := fresh "w" in let I1 := fresh "I" in let X1 := fresh "X" in
  let Pa := fresh "P" in intros b a w1 I1 X1 Pa _; carry_all X1; cbv beta in Pa.
Ltac sim_fold :=
  lazymatch goal with
  | |- wp ?S (fold_sim _ ?l _) _ ?w =>
      first [ with_elements l w ltac:(fun P F =>
                apply (wp_fold S P (fun _ _ => True));
                [sim_side | exact F | intros ?; apply _ | exact Logic.I | sim_fold_step])
            | apply (wp_fold S (fun _ _ => True) (fun _ _ => True));
              [sim_side | apply Forall_any | intros ?; by intros ? ? ? ? | exact Logic.I | sim_fold_step] ]
  end.
Ltac sim_next :=
  let w1 := fresh "w" in let I1 := fresh "I" in let X1 := fresh "X" in intros w1 I1 X1; carry_all X1.
Ltac sim_next_with a Q0 :=
  let w1 := fresh "w" in let I1 := fresh "I" in let X1 := fresh "X" in intros a w1 I1 X1 Q0; carry_all X1; cbv beta in Q0.
Ltac sim_call := solve [eauto 6 with sim nocore].
Ltac sim_bound :=
  lazymatch goal with
  | |- wp _ (sim_bind (sim_bind _ _) _) _ _ => apply wp_assoc
  | |- wp _ (sim_bind (done_ _) _) _ _ => apply wp_bind_done
  | |- wp _ (sim_bind (entity_get _ _) _) _ _ =>
      let v := fresh "v" in let F := fresh "F" in apply wp_get; [sim_side | sim_side | intros [v |] F]
  | |- wp _ (sim_bind (query_get _ _) _) _ _ =>
      let v := fresh "v" in let F := fresh "F" in apply wp_query_get; [sim_side | intros [v |] F]
  | |- wp _ (sim_bind (entity_has _ _) _) _ _ =>
      let b := fresh "b" in let F := fresh "F" in apply wp_has; [sim_side | intros b F]
  | |- wp _ (sim_bind (entity_alive _) _) _ _ =>
      let b := fresh "b" in let L := fresh "L" in apply wp_alive; intros b L
  | |- wp _ (sim_bind runtime _) _ _ =>
      let s := fresh "s" in let M := fresh "M" in let N := fresh "N" in
      apply wp_runtime; [sim_side | intros s M N; rewrite ?M, ?N]
  | |- wp _ (sim_bind the_map _) _ _ => apply wp_the_map; [sim_side |]
  | |- wp _ (sim_bind (net_entity _) _) _ _ =>
      let e := fresh "e" in let N := fresh "N" in apply wp_net_entity; [sim_side | intros [e |] N]
  | |- wp _ (sim_bind (resource _) _) _ _ =>
      let v := fresh "v" in let R := fresh "R" in apply wp_resource; [sim_side | intros v R; cbn [res_ok] in R; try subst v]
  | |- wp _ (sim_bind facts _) _ _ =>
      let x := fresh "x" in let R := fresh "R" in apply wp_facts; [sim_side | intros x R]
  | |- wp _ (sim_bind (reads_w _) _) _ _ => apply wp_reads
  | |- wp _ (sim_bind (query _) _) _ _ =>
      let l := fresh "l" in let F := fresh "F" in
      first [apply wp_query_player; [set_solver | sim_side | sim_next_with l F] | apply wp_query_live; [sim_side | sim_next_with l F]]
  | |- wp _ (sim_bind (match ?x with _ => _ end) (fun _ : unit => _)) _ _ => apply wp_unit; [| sim_next]
  | |- wp _ (sim_bind (match ?x with _ => _ end) _) _ _ => sim_case x
  | |- wp _ (sim_bind ((match ?x with _ => _ end) _ _ _) _) _ _ => sim_case x
  | |- wp _ (sim_bind ((match ?x with _ => _ end) _ _) _) _ _ => sim_case x
  | |- wp _ (sim_bind ((match ?x with _ => _ end) _) _) _ _ => sim_case x
  | |- wp _ (sim_bind (when _ _) _) _ _ => apply wp_unit; [apply ok_when; [sim_side | intros ?] | sim_next]
  | |- wp _ (sim_bind (for_each _ _) _) _ _ => apply wp_unit; [sim_for_each | sim_next]
  | |- wp _ (sim_bind (fold_sim _ _ _) _) _ _ =>
      let a := fresh "a" in let Q0 := fresh "Q" in eapply wp_step; [sim_fold | sim_next_with a Q0]
  | |- wp _ (sim_bind (unwrap (Some _)) _) _ _ => apply wp_bind_done
  | |- wp _ (sim_bind (unwrap ?o) _) _ _ =>
      let a := fresh "a" in let E := fresh "E" in apply wp_unwrap; [sim_call | intros a E]
  | |- wp _ (sim_bind ?m (fun _ : unit => _)) _ _ => apply wp_unit; [sim_call | sim_next]
  | |- wp _ (sim_bind ?m _) _ _ =>
      let a := fresh "a" in let Q0 := fresh "Q" in eapply wp_step; [sim_call | sim_next_with a Q0]
  end.
Ltac sim_one :=
  lazymatch goal with
  | |- wp _ (sim_bind _ _) _ _ => sim_bound
  | |- wp _ (done_ _) _ _ => apply wp_done; [sim_side | sim_post]
  | |- wp _ (match ?x with _ => _ end) _ _ => sim_case x
  | |- wp _ ((match ?x with _ => _ end) _ _ _) _ _ => sim_case x
  | |- wp _ ((match ?x with _ => _ end) _ _) _ _ => sim_case x
  | |- wp _ ((match ?x with _ => _ end) _) _ _ => sim_case x
  | |- wp _ (when _ _) _ _ => apply ok_when; [sim_side | intros ?]
  | |- wp _ (for_each _ _) _ _ => sim_for_each
  | |- wp _ (fold_sim _ _ _) (fun _ _ => True) _ => sim_fold
  | |- wp _ (entity_get ?k _) _ _ => apply (wp_ret _ (A := option (comp k)))
  | |- wp _ (query_get ?k _) _ _ => apply (wp_ret _ (A := option (comp k)))
  | |- wp _ (reads_w _) _ _ => apply wp_ret
  | |- wp _ (query _) _ _ => apply wp_ret
  | |- wp _ _ (fun _ _ => True) _ => sim_call
  | |- wp _ _ _ _ => eapply wp_mono; [sim_call | let a := fresh "a" in let Q0 := fresh "Q" in sim_next_with a Q0; sim_post]
  end.
Ltac sim := sim_tidy; repeat (sim_one; sim_tidy).
(** As far as the next loop. *)
Ltac sim_to_loop :=
  sim_tidy; repeat (lazymatch goal with
          | |- wp _ (sim_bind (fold_sim _ _ _) _) _ _ => fail
          | |- wp _ (sim_bind (for_each _ _) _) _ _ => fail
          | |- wp _ (fold_sim _ _ _) _ _ => fail
          | |- wp _ (for_each _ _) _ _ => fail
          | _ => sim_one
          end; sim_tidy).
(** What follows a step done by hand. *)
Ltac sim_on := first [sim_next | let a := fresh "a" in let Q0 := fresh "Q" in sim_next_with a Q0]; sim_tidy; sim.
