(* ===== verification/SimActors.v ===== *)
(** Actors' life, the queries and the actions never panic ([SimLife], [SimQuery],
    [SimAction]). *)
From S2P Require Import Prelude Domain StatSource ActorState StatsApi Hydrate StatsSafety Float Combat CombatTiming.
From S2P Require Import Space Entities Persist MapPort Channel Outbox Replication SimTime Motion Aoi SimTypes.
From S2P Require Import SimWorld SimLife SimQuery SimAction SimCombat SimAi SimSafe.

Section Actors.
Context `{SimEnvLaws} `{!GrowthRngLaws} {S : Setting}.

(** ** Facts *)
Lemma Forall_push {A} (P : A -> Prop) l a : Forall P l -> P a -> Forall P (l ++ [a]).
Proof. intros F Pa. apply Forall_app. split; [done |]. by apply Forall_cons. Qed.
Lemma ok_update_facts f w : Inv S w -> (forall x, facts_inv S x w -> facts_inv S (f x) w) -> ok S (update_facts f) w.
Proof. intros I F. apply ok_update; [done |]. apply F, (inv_res _ _ I R_FrameFacts). Qed.
Lemma Forall_found {A B} (P : B -> Prop) (f : A -> option B) l : (forall a b, f a = Some b -> P b) -> Forall P (omap f l).
Proof. intros F. apply List.Forall_forall. intros b M. apply list_elem_of_In, list_elem_of_omap in M as (a & _ & E). eauto. Qed.
(** Facts the invariant does not look at. *)
Definition plain_facts (f : FrameFacts -> FrameFacts) : Prop := forall x,
  cf_damaged (ff_combat (f x)) = cf_damaged (ff_combat x) /\
  vf_projectile_targets (ff_visuals (f x)) = vf_projectile_targets (ff_visuals x) /\
  ff_despawned (f x) = ff_despawned x /\ ff_stamina_timer_changed (f x) = ff_stamina_timer_changed x /\
  lf_cleanup_due (ff_life (f x)) = lf_cleanup_due (ff_life x).
Lemma ok_plain_facts f w : plain_facts f -> Inv S w -> ok S (update_facts f) w.
Proof.
  intros P I. apply ok_update_facts; [done |]. intros x. destruct (P x) as (E1 & E2 & E3 & E4 & E5). unfold facts_inv.
  destruct (s_ticking S).
  - intros []. split; congruence.
  - unfold facts_quiet. by rewrite E1, E2, E3, E4, E5.
Qed.
Lemma ok_push_damaged d w : s_ticking S = true -> Inv S w -> safe S (ar_entity (dmg_attacker d)) w ->
  safe S (ar_entity (dmg_victim d)) w -> ok S (update_facts (with_combat (push_damaged d))) w.
Proof.
  intros T I A V. apply ok_update_facts; [done |]. intros x. unfold facts_inv. rewrite T. intros []. split; try done.
  by apply Forall_push.
Qed.
Lemma ok_push_projectile t w : s_ticking S = true -> Inv S w -> safe S (ar_entity (ptf_target t)) w ->
  ok S (update_facts (with_visuals (push_projectile_target t))) w.
Proof.
  intros T I A. apply ok_update_facts; [done |]. intros x. unfold facts_inv. rewrite T. intros []. split; try done.
  by apply Forall_push.
Qed.
Lemma ok_push_stamina s w : s_ticking S = true -> Inv S w -> safe S (ar_entity (stc_player s)) w ->
  ok S (update_facts (push_stamina_timer s)) w.
Proof.
  intros T I A. apply ok_update_facts; [done |]. intros x. unfold facts_inv. rewrite T. intros []. split; try done.
  by apply Forall_push.
Qed.
Lemma ok_push_cleanup a w : s_ticking S = true -> Inv S w -> cleanup_ok S a w ->
  ok S (update_facts (with_life (push_cleanup_due a))) w.
Proof.
  intros T I A. apply ok_update_facts; [done |]. intros x. unfold facts_inv. rewrite T. intros []. split; try done.
  by apply Forall_push.
Qed.
Hint Extern 3 (wp _ (update_facts _) _ _) => apply ok_plain_facts; [intros ?; repeat split |] : sim.
Hint Resolve ok_push_damaged ok_push_projectile ok_push_stamina ok_push_cleanup ok_mark_map_dirty : sim.

(** ** Life *)
Lemma alive_safe e w : live e w -> (forall phase, get K_ActorLife e w = Some phase -> cleanup_at_of phase = None) -> safe S e w.
Proof.
  intros L C. split; [done |]. unfold doomed. destruct (get K_ActorLife e w) as [phase |]; [| done].
  unfold phase_doomed. by rewrite C.
Qed.
Lemma player_safe e w : Inv S w -> is_player e w -> safe S e w.
Proof.
  intros I P. apply alive_safe; [by apply player_live |]. intros phase G. unfold is_player, get in *.
  destruct (w_entities w !! e) as [b |] eqn:E; [| done]. by apply (bo_player S b (inv_bundle _ _ I e b E)).
Qed.
Lemma wp_life_test test absent e w : Inv S w -> live e w ->
  wp S (life_test test absent e) (fun b w' => live e w' /\ forall phase, get K_ActorLife e w' = Some phase -> b = test phase) w.
Proof. intros I L. unfold life_test. sim; (split; [done | intros; congruence]). Qed.
Lemma wp_can_act e w : Inv S w -> live e w -> wp S (actor_can_act e) (fun b w' => if b : bool then safe S e w' else True) w.
Proof.
  intros I L. eapply wp_mono; [by apply wp_life_test |]. intros [] w' I' X [L' T]; [| done].
  apply alive_safe; [done |]. intros phase G. specialize (T phase G). by destruct phase.
Qed.
Lemma wp_can_take_damage e w : Inv S w -> live e w ->
  wp S (actor_can_take_combat_damage e) (fun b w' => if b : bool then safe S e w' else True) w.
Proof. apply wp_can_act. Qed.
Lemma wp_is_dying e w : Inv S w -> live e w -> ok S (actor_is_dying e) w.
Proof. intros I L. eapply wp_mono; [by apply wp_life_test | done]. Qed.
Lemma wp_can_be_target e w : Inv S w -> live e w ->
  wp S (actor_can_be_combat_target e) (fun b w' => if b : bool then safe S e w' else True) w.
Proof.
  intros I L. eapply wp_mono; [by apply wp_life_test |]. intros [] w' I' X [L' T]; [| done].
  apply alive_safe; [done |]. intros phase G. specialize (T phase G). by destruct phase.
Qed.
Lemma ok_life_test test absent e w : Inv S w -> live e w -> ok S (life_test test absent e) w.
Proof. intros I L. eapply wp_mono; [by apply wp_life_test | done]. Qed.
Hint Resolve wp_can_act wp_can_take_damage wp_is_dying wp_can_be_target ok_life_test : sim.

(** *** Dying *)
Lemma ok_stop_activity e now w : Inv S w -> ok S (stop_actor_activity_for_dying e now) w.
Proof. intros I. unfold stop_actor_activity_for_dying. sim. Qed.
Hint Resolve ok_stop_activity : sim.
Lemma wp_is_current a w : Inv S w ->
  wp S (actor_is_current a) (fun b w' => if b : bool then get K_NetEntityId (ar_entity a) w' = Some (ar_id a) else True) w.
Proof. intros I. unfold actor_is_current. sim. case_match eqn:E; [| done]. by apply Z.eqb_eq in E as <-. Qed.
Hint Resolve wp_is_current : sim.

(** A phase of a living actor's end that no tick before the next clears away. *)
Lemma begin_dying_kept now phase : begin_dying now phase = (true, snd (begin_dying now phase)) ->
  phase = Alive /\ cleanup_at_of (snd (begin_dying now phase)) = None.
Proof. by destruct phase. Qed.
Lemma later_not_due now d : 0 <= now < u64_max -> 1 <= d -> (SimInstant_saturating_add now d <=? now) = false.
Proof. intros N D. apply Z.leb_gt. unfold SimInstant_saturating_add, u64_sat, clampc. lia. Qed.
Lemma death_phase_kept now id p m : 0 <= now < u64_max -> phase_doomed now (death_phase now id p m) = false.
Proof.
  intros N. unfold phase_doomed, death_phase. cbn. destruct m; [| done]. cbn. unfold mob_cleanup_at, MOB_CORPSE_MIN_DELAY.
  apply Z.leb_gt. pose proof (Z.mod_pos_bound id MOB_CORPSE_JITTER_MS eq_refl).
  unfold SimInstant_saturating_add, u64_sat, clampc. lia.
Qed.
Lemma player_bundle_of e w (b : Bundle) : Inv S w -> w_entities w !! e = Some b -> is_player e w ->
  b K_MobMarker = None /\ is_Some (b K_NetEntityId).
Proof.
  intros I E P. unfold is_player, get in P. rewrite E in P. destruct (bo_player S b (inv_bundle _ _ I e b E) P) as (? & ? & _). done.
Qed.
Lemma player_not_mob e w : Inv S w -> is_player e w -> get K_MobMarker e w = None.
Proof.
  intros I P. destruct (player_live e w P) as [b E]. unfold get. rewrite E. by apply (player_bundle_of e w b).
Qed.
Lemma player_has_net e w : Inv S w -> is_player e w -> is_Some (get K_NetEntityId e w).
Proof.
  intros I P. destruct (player_live e w P) as [b E]. unfold get. rewrite E. by apply (player_bundle_of e w b).
Qed.
(** A change of phase that keeps the actor. *)
Lemma ok_write_life e phase w : Inv S w -> safe S e w -> phase_doomed (s_now S) phase = false ->
  (is_player e w -> cleanup_at_of phase = None) -> ok S (sim_write K_ActorLife e phase) w.
Proof. intros I [_ D] K P. apply ok_write; [done |]. intros _. split_and!; try done. by rewrite K, D. Qed.
Lemma phase_safe e phase w : get K_ActorLife e w = Some phase -> cleanup_at_of phase = None -> safe S e w.
Proof. intros G C. apply alive_safe; [by eapply get_live |]. intros p. rewrite G. by intros [= <-]. Qed.

Lemma ok_begin_dying a w : Inv S w -> ok S (begin_actor_dying a) w.
Proof.
  intros I. unfold begin_actor_dying. sim. destruct v; try discriminate. injection E as <-.
  apply wp_unit; [| sim_next; sim]. apply ok_write_life; auto. by eapply phase_safe.
Qed.
Hint Resolve ok_begin_dying : sim.
Lemma ok_process_life_events w : Inv S w -> ok S process_life_events w.
Proof. intros I. unfold process_life_events. sim. Qed.
(** The phase of an actor who dies: a player's corpse stays. *)
Lemma ok_die e id w (p m : bool) : Inv S w -> safe S e w -> (is_player e w -> m = false) ->
  ok S (sim_write K_ActorLife e (death_phase (s_now S) id p m)) w.
Proof.
  intros I Sf P. apply ok_write_life; [done | done | apply death_phase_kept, (inv_now _ _ I) |].
  intros Pl. by rewrite (P Pl).
Qed.
Lemma ok_finalize_dying a w : Inv S w -> ok S (finalize_dying_actor_death a) w.
Proof.
  intros I. unfold finalize_dying_actor_death. sim. destruct v; try discriminate.
  apply wp_unit; [| sim_next; sim]. apply ok_die; [done | by eapply phase_safe |].
  intros P. pose proof (player_not_mob _ _ I0 P). destruct b0; [by destruct F0; congruence | done].
Qed.
Hint Resolve ok_finalize_dying : sim.

Lemma newly_dead_phase now m phase : lifecycle_step now m phase = Step_NewlyDead -> cleanup_at_of phase = None.
Proof. destruct phase as [| | ? ? ? ? []]; cbn; try case_match; done. Qed.
Lemma cleanup_phase now m phase : lifecycle_step now m phase = Step_Cleanup -> m = true /\ phase_doomed now phase = true.
Proof. destruct phase as [| | ? ? ? ? []]; cbn; try case_match eqn:E; try done. intros _. by apply andb_prop in E. Qed.
Lemma cleanup_step e id phase w (mob : option (comp K_MobMarker)) : Inv S w -> get K_NetEntityId e w = Some id ->
  get K_ActorLife e w = Some phase -> get K_MobMarker e w = mob ->
  lifecycle_step (s_now S) (bool_decide (is_Some mob)) phase = Step_Cleanup -> cleanup_ok S {| ar_entity := e; ar_id := id |} w.
Proof.
  intros I N G M E. destruct (cleanup_phase _ _ _ E) as [B D]. apply bool_decide_eq_true in B.
  split; [by eapply inv_next, get_live |]. cbn. intros L. split_and!; [by unfold doomed; rewrite G | | done].
  destruct (get K_PlayerMarker e w) as [p |] eqn:P; [| done]. exfalso.
  rewrite (player_not_mob e w I) in M by (by exists p). subst mob. by destruct B.
Qed.
Lemma newly_dead_step e id phase w (p : bool) (mob : option (comp K_MobMarker)) : Inv S w -> get K_ActorLife e w = Some phase ->
  get K_MobMarker e w = mob -> lifecycle_step (s_now S) (bool_decide (is_Some mob)) phase = Step_NewlyDead ->
  ok S (sim_write K_ActorLife e (death_phase (s_now S) id p (bool_decide (is_Some mob)))) w.
Proof.
  intros I G M E. apply ok_die; [done | eapply phase_safe; [done | by eapply newly_dead_phase] |].
  intros P. rewrite (player_not_mob e w I P) in M. by subst mob.
Qed.
Lemma wp_lifecycle_visit found e w : s_ticking S = true -> Inv S w -> live e w -> Forall (fun a => cleanup_ok S a w) (snd found) ->
  wp S (lifecycle_visit (s_now S) found e) (fun found w' => Forall (fun a => cleanup_ok S a w') (snd found)) w.
Proof.
  intros T I L C. destruct found as [newly cleanup]. cbn [snd] in C. unfold lifecycle_visit. sim.
  all: try (apply wp_unit; [by eapply newly_dead_step | sim_next; by apply wp_done]).
  all: apply Forall_push; [done | by eapply cleanup_step].
Qed.
Lemma ok_process_lifecycle w : s_ticking S = true -> Inv S w -> ok S process_actor_lifecycle w.
Proof.
  intros T I. unfold process_actor_lifecycle. sim_to_loop.
  eapply wp_step; [eapply (wp_fold S (fun e => live e) (fun found w => Forall (fun a => cleanup_ok S a w) (snd found)))|].
  - done.
  - done.
  - intros e. apply _.
  - constructor.
  - intros found e w1 I1 X1 L1 C1. by apply wp_lifecycle_visit.
  - sim_next_with r C. sim.
Qed.

(** ** Queries *)
Lemma ok_entity_position id w : Inv S w -> ok S (entity_position id) w.
Proof. intros I. unfold entity_position. sim. Qed.
Lemma ok_combat_extent e w : Inv S w -> live e w -> ok S (target_combat_extent_m e) w.
Proof. intros I L. unfold target_combat_extent_m. sim. Qed.
Lemma ok_map_is_visible m o t w : Inv S w -> live m w -> ok S (map_is_visible m o t) w.
Proof. intros I L. unfold map_is_visible. sim. Qed.
Hint Resolve ok_entity_position ok_combat_extent ok_map_is_visible : sim.
Lemma wp_validate_attack m id pos target w : Inv S w -> live m w ->
  wp S (validate_player_attack m id pos target) (fun o w' => match o with Some e => live e w' | None => True end) w.
Proof. intros I L. unfold validate_player_attack. sim; destruct (SFleb _ _); sim_side. Qed.
Lemma wp_pack_members e w : Inv S w -> live e w -> wp S (mob_pack_members e) (fun l w' => Forall (fun e => live e w') l) w.
Proof.
  intros I L. unfold mob_pack_members. sim.
  - apply List.Forall_forall. intros e' M. apply List.filter_In in M as [M _].
    rewrite List.Forall_forall in F. auto.
  - by apply Forall_cons.
Qed.
Lemma query_in_radius_ok center radius s : is_Some (query_in_radius center radius s).
Proof.
  unfold query_in_radius. apply mapM_is_Some, List.Forall_forall. intros [h pos] M%list_elem_of_In.
  by eapply grid_query_live.
Qed.
Lemma ok_aggressive_candidate pos found id w : Inv S w -> ok S (aggressive_candidate pos found id) w.
Proof. intros I. unfold aggressive_candidate. sim. Qed.
Hint Resolve query_in_radius_ok wp_validate_attack wp_pack_members ok_aggressive_candidate : sim.
Lemma ok_acquire_target m pos proto w : Inv S w -> live m w -> ok S (acquire_aggressive_target m pos proto) w.
Proof. intros I L. unfold acquire_aggressive_target. sim. Qed.
Lemma ok_player_position id ts w : Inv S w -> ok S (player_position id ts) w.
Proof. intros I. unfold player_position. sim. Qed.
Hint Resolve ok_acquire_target ok_player_position : sim.
Lemma ok_chase_target pos id ts mob speed battle shared w : Inv S w ->
  ok S (chase_target_position pos id ts mob speed battle shared) w.
Proof. intros I. unfold chase_target_position. sim. Qed.
Lemma ok_sampled_position e now w : Inv S w -> live e w -> ok S (sampled_mob_position e now) w.
Proof. intros I L. unfold sampled_mob_position. sim. Qed.
Lemma ok_in_flight e now w : Inv S w -> live e w -> ok S (mob_movement_in_flight e now) w.
Proof. intros I L. unfold mob_movement_in_flight. sim. Qed.
Lemma ok_sample_motion w : Inv S w -> ok S sample_mob_motion w.
Proof. intros I. unfold sample_mob_motion. sim. Qed.
Hint Resolve ok_chase_target ok_sampled_position ok_in_flight : sim.

(** ** Telling players *)
Lemma ok_outbox_push e event w : Inv S w -> live e w -> ok S (outbox_push e event) w.
Proof. intros I L. unfold outbox_push. sim. Qed.
Hint Resolve ok_outbox_push : sim.
Lemma wp_recipients id audience w : Inv S w ->
  wp S (actor_audience_recipients id audience) (fun l w' => Forall (fun e => live e w') l) w.
Proof.
  intros I. unfold actor_audience_recipients. sim; apply Forall_found; intros id' e E; by eapply get_live, R.
Qed.
Hint Resolve wp_recipients : sim.
Lemma ok_broadcast id audience f w : Inv S w -> ok S (broadcast_actor_event id audience f) w.
Proof. intros I. unfold broadcast_actor_event. sim. Qed.
Lemma ok_map_empire w : Inv S w -> ok S map_empire w.
Proof. intros I. unfold map_empire. sim. Qed.
Hint Resolve ok_broadcast ok_map_empire : sim.
Lemma ok_make_snapshot shared id w : Inv S w -> ok S (make_entity_snapshot shared id) w.
Proof. intros I. unfold make_entity_snapshot. sim. Qed.
Lemma ok_make_public_state shared id w : Inv S w -> ok S (make_entity_public_state shared id) w.
Proof. intros I. unfold make_entity_public_state. sim. Qed.
Hint Resolve ok_make_snapshot ok_make_public_state : sim.

(** ** Resources of an actor *)
Notation closure_ok f stats := (forall state, actor_ok (s_levels S) (ar_source stats) state ->
  exists state' t, f (ar_source stats) state = Some (state', t) /\ actor_ok (s_levels S) (ar_source stats) state').
Lemma ok_write_player_stats e stats w : Inv S w -> player_stats_ok S stats -> ok S (sim_write K_PlayerStats e stats) w.
Proof. intros I O. apply ok_write; [done |]. by intros _. Qed.
Lemma ok_write_mob_stats e stats w : Inv S w -> runtime_ok (s_levels S) stats -> ok S (sim_write K_MobStats e stats) w.
Proof. intros I O. apply ok_write; [done |]. by intros _. Qed.
Hint Resolve ok_write_player_stats ok_write_mob_stats : sim.
(** A player's stats after the API. *)
Lemma wp_api {T B} (f : _ -> _ -> option (_ * T)) stats (k : _ -> Sim B) Q w :
  player_stats_ok S stats -> closure_ok f stats ->
  (forall stats' t, player_stats_ok S stats' -> wp S (k (stats', t)) Q w) -> wp S (sim_bind (unwrap (with_api_mut f stats)) k) Q w.
Proof.
  intros [R [p P]] F HK. destruct (with_api_mut_ok _ f stats R F) as (r' & t & -> & R' & Es).
  apply wp_bind_done, HK. split; [done |]. exists p. congruence.
Qed.
Lemma ok_player_api {T} e (stats : comp K_PlayerStats) (f : _ -> _ -> option (_ * T)) w :
  Inv S w -> player_stats_ok S stats -> closure_ok f stats -> ok S (player_stats_api e stats f) w.
Proof. intros I R F. unfold player_stats_api, stats_api. apply wp_api; [done.. |]. intros stats' t O. sim. Qed.
Lemma ok_mob_api {T} e (stats : comp K_MobStats) (f : _ -> _ -> option (_ * T)) w :
  Inv S w -> runtime_ok (s_levels S) stats -> closure_ok f stats -> ok S (mob_stats_api e stats f) w.
Proof.
  intros I R F. destruct (with_api_mut_ok _ f stats R F) as (r' & t & E & R' & Es).
  unfold mob_stats_api, stats_api. rewrite E. sim.
Qed.
Lemma ok_apply_inner c e a w : Inv S w -> live e w -> application_ok a -> ok S (apply_resource_inner c e a) w.
Proof.
  intros I L A. unfold apply_resource_inner. destruct c; cbn [stats_kind]; sim.
  - eapply wp_step; [apply ok_player_api; [done.. | intros state Os; by eapply apply_resource_ok] | sim_on].
  - eapply wp_step; [apply ok_mob_api; [done.. | intros state Os; by eapply apply_resource_ok] | sim_on].
Qed.
Hint Resolve ok_apply_inner : sim.
Lemma ok_apply_of c actor a w : Inv S w -> live (ar_entity actor) w -> application_ok a -> ok S (apply_resource_of c actor a) w.
Proof. intros I L A. unfold apply_resource_of. sim. Qed.
Hint Resolve ok_apply_of : sim.
Lemma ok_apply_actor actor a w : Inv S w -> live (ar_entity actor) w -> application_ok a -> ok S (apply_actor_resource actor a) w.
Proof. intros I L A. unfold apply_actor_resource. sim. Qed.
Hint Resolve ok_apply_actor : sim.

(** ** Actions *)
Lemma ok_build_player_move map_size shared e player kind arg rot target ts w : Inv S w -> live e w ->
  axis_ok (size_width map_size) -> axis_ok (size_height map_size) ->
  wp S (build_player_move_action shared map_size e player kind arg rot target ts)
    (fun o w' => match o with
                 | Some (Action_PlayerMotion e' _ _ _ _ _ _ _ _ _) => e' = e
                 | Some _ => False
                 | None => True
                 end) w.
Proof.
  intros I L Aw Ah. unfold build_player_move_action.
  assert (forall r, is_Some (sanitize_player_target_to_map r map_size)) as Hs.
  { intros r. unfold sanitize_player_target_to_map.
    destruct (clamp_axis_total (pos_x r) _ Aw) as [x ->]. destruct (clamp_axis_total (pos_y r) _ Ah) as [y ->]. by eexists. }
  sim.
Qed.
Definition action_ok (a : Action) (w : World) : Prop :=
  match a with
  | Action_PlayerMotion e _ _ _ _ _ _ _ _ _ => live e w
  | Action_PlayerAttack e _ _ _ _ _ _ _ => is_player e w
  | Action_MobMotion e _ _ _ _ _ _ _ _ => live e w
  | Action_MobAttack e _ target _ _ _ _ _ _ _ => live e w /\ live target w
  end.
#[export] Instance stable_action a : Stable S (action_ok a).
Proof. destruct a; cbn; apply _. Qed.
Lemma wp_build_player_attack e target target_entity attack w : Inv S w -> is_player e w ->
  wp S (build_player_attack_action e target target_entity attack) (fun o w' => match o with Some a => action_ok a w' | None => True end) w.
Proof. intros I L. unfold build_player_attack_action. sim. Qed.
Lemma wp_build_mob_move e kind destination face_to brain completion w : Inv S w -> live e w ->
  wp S (build_mob_move_action e kind destination face_to brain completion)
    (fun o w' => match o with Some a => action_ok a w' | None => True end) w.
Proof. intros I L. unfold build_mob_move_action. sim. Qed.
Lemma wp_build_mob_attack e target face_to windup schedule projectile brain completion w : Inv S w -> live e w ->
  wp S (build_mob_attack_action e target face_to windup schedule projectile brain completion)
    (fun o w' => match o with Some a => action_ok a w' | None => True end) w.
Proof. intros I L. unfold build_mob_attack_action. sim. Qed.
Hint Resolve wp_build_player_attack wp_build_mob_move wp_build_mob_attack : sim.

Lemma ok_schedule_damage now command schedule w : Inv S w -> ok S (schedule_attack_damage now command schedule) w.
Proof. intros I. unfold schedule_attack_damage. sim. Qed.
Lemma ok_mark_player_dirty e w : Inv S w -> ok S (mark_player_dirty e) w.
Proof. intros I. unfold mark_player_dirty. sim. Qed.
Lemma ok_set_brain e brain w : Inv S w -> live e w -> ok S (set_mob_brain e brain) w.
Proof. intros I L. unfold set_mob_brain. sim. Qed.
Hint Resolve ok_set_brain ok_schedule_damage ok_mark_player_dirty : sim.
Lemma ok_player_motion m e player id kind arg rot pos ts duration motion w : Inv S w -> live m w -> live e w ->
  ok S (apply_player_motion m e player id kind arg rot pos ts duration motion) w.
Proof. intros I Lm L. unfold apply_player_motion. sim. Qed.
Lemma ok_player_attack e id target pos rot ts duration w : Inv S w -> is_player e w ->
  ok S (apply_player_attack e id target pos rot ts duration) w.
Proof. intros I L. unfold apply_player_attack. sim. Qed.
Lemma ok_mob_motion m now e id start pos rot kind ts duration brain w : Inv S w -> live m w -> live e w ->
  ok S (apply_mob_motion m now e id start pos rot kind ts duration brain) w.
Proof. intros I Lm L. unfold apply_mob_motion, apply_mob_motion_state. sim. Qed.
Lemma ok_mob_attack m now e id pos rot ts duration schedule projectile brain target w : s_ticking S = true ->
  Inv S w -> live m w -> live e w -> safe S target w ->
  ok S (apply_mob_attack m now e id pos rot ts duration schedule projectile brain target) w.
Proof. intros T I Lm L Lt. unfold apply_mob_attack, apply_mob_motion_state. sim. Qed.
Hint Resolve ok_player_motion ok_player_attack ok_mob_motion ok_mob_attack : sim.
Lemma ok_action_effect m now a w : s_ticking S = true -> Inv S w -> live m w -> action_ok a w -> ok S (action_effect m now a) w.
Proof. intros T I Lm A. unfold action_effect. destruct a; cbn [action_ok] in A; sim. Qed.
Hint Resolve ok_action_effect : sim.
Lemma ok_apply_action a w : s_ticking S = true -> Inv S w -> action_ok a w -> ok S (apply_action a) w.
Proof. intros T I A. unfold apply_action, push_pending_movement. sim. Qed.
Hint Resolve ok_apply_action : sim.
End Actors.
#[export] Hint Resolve ok_push_damaged ok_push_projectile ok_push_stamina ok_push_cleanup ok_mark_map_dirty : sim.
#[export] Hint Resolve wp_can_act wp_can_take_damage wp_is_dying wp_can_be_target ok_life_test ok_stop_activity : sim.
#[export] Hint Resolve wp_is_current ok_begin_dying ok_finalize_dying ok_entity_position ok_combat_extent : sim.
#[export] Hint Resolve ok_map_is_visible query_in_radius_ok wp_validate_attack wp_pack_members : sim.
#[export] Hint Resolve ok_aggressive_candidate ok_acquire_target ok_player_position ok_chase_target : sim.
#[export] Hint Resolve ok_sampled_position ok_in_flight ok_outbox_push wp_recipients ok_broadcast ok_map_empire : sim.
#[export] Hint Resolve ok_make_snapshot ok_make_public_state ok_write_player_stats ok_write_mob_stats : sim.
#[export] Hint Resolve ok_apply_inner ok_apply_of ok_apply_actor wp_build_player_attack wp_build_mob_move : sim.
#[export] Hint Resolve wp_build_mob_attack ok_set_brain ok_schedule_damage ok_mark_player_dirty ok_player_motion : sim.
#[export] Hint Resolve ok_player_attack ok_mob_motion ok_mob_attack ok_action_effect ok_apply_action : sim.
#[export] Hint Extern 3 (wp _ (update_facts _) _ _) => apply ok_plain_facts; [intros ?; repeat split |] : sim.

(** Combat and the mobs' decisions never panic ([SimCombat], [SimAi]). *)
Section Fights.
Context `{SimEnvLaws} `{!GrowthRngLaws} {S : Setting}.

(** ** Combat *)
Lemma wp_live_entities {B} c (k : bool -> Sim B) Q w :
  (forall b : bool, (if b then live (command_attacker c) w /\ live (command_victim c) w else True) -> wp S (k b) Q w) ->
  wp S (sim_bind (live_entities c) k) Q w.
Proof.
  intros HK. unfold live_entities. apply wp_reads, HK. unfold command_live.
  destruct (contains (command_attacker c) w) eqn:A, (contains (command_victim c) w) eqn:V; try done.
  by rewrite !contains_live in *.
Qed.
Lemma combat_stats_ok r : runtime_ok (s_levels S) r -> is_Some (combat_stats_from_runtime r).
Proof.
  intros R. unfold combat_stats_from_runtime.
  destruct (runtime_read_limited_ok _ r Stat.Level R) as [a ->]. destruct (runtime_read_limited_ok _ r Stat.Dx R) as [b ->].
  destruct (runtime_read_limited_ok _ r Stat.AttGrade R) as [c ->]. destruct (runtime_read_limited_ok _ r Stat.DefGrade R) as [d ->].
  by eexists.
Qed.
Lemma player_combat_ok r : player_stats_ok S r -> is_Some (combat_stats_from_runtime r).
Proof. intros [R _]. by apply combat_stats_ok. Qed.
Hint Resolve combat_stats_ok player_combat_ok : sim.
Lemma ok_enqueue_live c w : Inv S w -> ok S (enqueue_live_attack_command c) w.
Proof. intros I. unfold enqueue_live_attack_command. apply wp_live_entities. intros b F. sim. Qed.
Lemma ok_travel_delay c flight w : Inv S w -> live (command_attacker c) w -> live (command_victim c) w ->
  ok S (projectile_travel_delay c flight) w.
Proof. intros I La Lv. unfold projectile_travel_delay, actor_distance. sim. Qed.
Hint Resolve ok_enqueue_live ok_travel_delay : sim.
Lemma ok_release_due now d w : Inv S w -> ok S (release_due now d) w.
Proof. intros I. unfold release_due. sim. apply wp_live_entities. intros b F. sim. Qed.
Hint Resolve ok_release_due : sim.
Lemma ok_release_due_commands w : Inv S w -> ok S release_due_attack_commands w.
Proof. intros I. unfold release_due_attack_commands. sim. Qed.
Lemma ok_mob_combat_stats e w : Inv S w -> live e w -> ok S (mob_combat_stats e) w.
Proof. intros I L. unfold mob_combat_stats. sim. Qed.
Hint Resolve ok_mob_combat_stats ok_release_due_commands : sim.
Lemma wp_snapshot e w : Inv S w -> live e w ->
  wp S (combatant_snapshot e) (fun o w' => match o with Some c => ar_entity (cb_actor c) = e | None => True end) w.
Proof. intros I L. unfold combatant_snapshot. sim. Qed.
Lemma ok_normal_input a v w : Inv S w -> ok S (normal_hit_input a v) w.
Proof. intros I. unfold normal_hit_input, roll_damage. sim. Qed.
Hint Resolve wp_snapshot ok_normal_input : sim.
Definition outcome_ok (o : CombatOutcome) (w : World) : Prop :=
  safe S (ar_entity (cb_actor (co_attacker o))) w /\ safe S (ar_entity (cb_actor (co_victim o))) w.
Lemma wp_resolve c w : Inv S w -> live (command_attacker c) w -> live (command_victim c) w ->
  wp S (resolve_attack_command c) (fun o w' => match o with Some o => outcome_ok o w' | None => True end) w.
Proof. intros I La Lv. unfold resolve_attack_command. sim. unfold outcome_ok; cbn; by rewrite Q1, Q2. Qed.
Lemma ok_resource_damage actor n w : Inv S w -> live (ar_entity actor) w -> ok S (apply_resource_damage actor n) w.
Proof.
  intros I L. unfold apply_resource_damage. assert (application_ok (StatSource.damage n)) by done. sim.
Qed.
Hint Resolve wp_resolve ok_resource_damage : sim.
Lemma ok_outcome o w : s_ticking S = true -> Inv S w -> outcome_ok o w -> ok S (apply_combat_outcome o) w.
Proof. intros T I [A V]. unfold apply_combat_outcome. sim. Qed.
Lemma ok_finalize_victim c w : Inv S w -> live (command_attacker c) w -> live (command_victim c) w ->
  ok S (try_finalize_dying_victim c) w.
Proof. intros I La Lv. unfold try_finalize_dying_victim. sim. Qed.
Hint Resolve ok_outcome ok_finalize_victim : sim.
Lemma ok_attack_command c w : s_ticking S = true -> Inv S w -> ok S (process_attack_command c) w.
Proof. intros T I. unfold process_attack_command. apply wp_live_entities. intros b F. sim. Qed.
Hint Resolve ok_attack_command : sim.
Lemma ok_attack_commands w : s_ticking S = true -> Inv S w -> ok S process_attack_commands w.
Proof. intros T I. unfold process_attack_commands. sim. Qed.

(** ** The mobs' decisions *)
Lemma ok_queue_aggro e aggro w : Inv S w -> live e w -> ok S (queue_mob_aggro e aggro) w.
Proof. intros I L. unfold queue_mob_aggro. sim. Qed.
Hint Resolve ok_queue_aggro : sim.
Lemma ok_route_aggro w : Inv S w -> ok S route_mob_aggro w.
Proof. intros I. unfold route_mob_aggro. sim. Qed.
Lemma ok_drain_aggro e w : Inv S w -> live e w -> ok S (drain_mob_aggro e) w.
Proof. intros I L. unfold drain_mob_aggro. sim. Qed.
Lemma ok_find_provoker aggros w : Inv S w -> ok S (find_live_provoker aggros) w.
Proof. revert w. induction aggros as [| a aggros IH]; intros w I; cbn [find_live_provoker]; sim; by apply IH. Qed.
Lemma ok_latest_provoker aggros w : Inv S w -> ok S (latest_live_provoker aggros) w.
Proof. apply ok_find_provoker. Qed.
Hint Resolve ok_drain_aggro ok_latest_provoker : sim.
Lemma ok_new_aggro aggros now brain w : Inv S w -> ok S (apply_new_aggro aggros now brain) w.
Proof. intros I. unfold apply_new_aggro. sim. Qed.
Definition context_ok (cx : MobContext) : Prop := cx_map_entity cx = s_map S.
Lemma context_map cx w : context_ok cx -> Inv S w -> live (cx_map_entity cx) w.
Proof. intros ->. apply map_live. Qed.
Hint Resolve context_map : sim.
Lemma ok_acquire_idle cx brain w : context_ok cx -> Inv S w -> ok S (acquire_idle_target cx brain) w.
Proof. intros C I. unfold acquire_idle_target. sim. Qed.
Lemma ok_validate_target cx brain w : Inv S w -> ok S (validate_target cx brain) w.
Proof. intros I. unfold validate_target. sim. Qed.
Lemma wp_context e w : Inv S w -> live e w ->
  wp S (collect_mob_context e) (fun o _ => match o with Some cx => context_ok cx | None => True end) w.
Proof. intros I L. unfold collect_mob_context. sim. Qed.
Hint Resolve ok_new_aggro ok_acquire_idle ok_validate_target wp_context : sim.
Notation planned_ok o w := (match o with Some a => action_ok a w | None => True end).
Lemma wp_handle_return e cx brain w : Inv S w -> live e w ->
  wp S (handle_return e cx brain) (fun d w' => planned_ok d.1 w') w.
Proof. intros I L. unfold handle_return. sim. Qed.
Lemma wp_handle_idle e cx brain w : Inv S w -> live e w -> wp S (handle_idle e cx brain) (fun d w' => planned_ok d.1 w') w.
Proof. intros I L. unfold handle_idle. sim. Qed.
Lemma wp_handle_pursuit e cx brain target pos w : Inv S w -> live e w ->
  wp S (handle_pursuit e cx brain target pos) (fun d w' => planned_ok d.1 w') w.
Proof. intros I L. unfold handle_pursuit. sim. Qed.
Hint Resolve wp_handle_return wp_handle_idle wp_handle_pursuit : sim.
Lemma wp_decision e cx brain pos w : Inv S w -> live e w ->
  wp S (mob_decision e cx brain pos) (fun o w' => match o with Some d => planned_ok d.1 w' | None => True end) w.
Proof. intros I L. unfold mob_decision. sim. Qed.
Hint Resolve wp_decision : sim.
Lemma wp_mob_turn e w : Inv S w -> wp S (mob_turn e) (fun o w' => planned_ok o w') w.
Proof. intros I. unfold mob_turn, persist_brain_if_changed. sim. Qed.
Hint Resolve wp_mob_turn : sim.

(** The actions planned are carried out before anything else looks at their buffer. *)
Lemma act_on actions w : s_ticking S = true -> Inv S w -> Forall (fun a => action_ok a w) actions ->
  ok S (update_resource R_ActionBuffer (fun buffer => buffer ++ actions) ;; process_actions) w.
Proof.
  intros T I F. pose proof (inv_res _ _ I R_ActionBuffer) as B. cbn in B.
  set (w1 := set_res R_ActionBuffer (w_res w R_ActionBuffer ++ actions) w).
  set (w2 := set_res R_ActionBuffer [] w1).
  destruct (inv_same S w w2 I) as [I2 X2]; [done | done | |].
  { intros r. unfold w2, w1. destruct (decide (R_ActionBuffer = r)) as [<- | N]; [by rewrite res_set_eq |].
    by rewrite !res_set_ne. }
  enough (ok S (for_each actions apply_action) w2) as (u & w3 & E & I3 & X3 & _).
  { exists u, w3. split; [| by eauto using ext_trans].
    unfold process_actions, update_resource, resource, reads_w, set_resource_, sim_bind. fold w1.
    assert (w_res w1 R_ActionBuffer = actions) as -> by (unfold w1; rewrite res_set_eq; cbn in B |- *; by rewrite B).
    exact E. }
  carry_all X2. sim.
Qed.
Lemma ok_think_act w : s_ticking S = true -> Inv S w -> ok S (process_mob_ai ;; process_actions) w.
Proof.
  intros T I. unfold process_mob_ai. sim_to_loop.
  eapply wp_step; [eapply (wp_fold S (fun e => live e) (fun actions w => Forall (fun a => action_ok a w) actions)) |].
  - done.
  - done.
  - intros e. apply _.
  - constructor.
  - intros actions e w1 I1 X1 L1 F1. sim. case_match; [by apply Forall_push | done].
  - sim_next_with r Q. by apply act_on.
Qed.
End Fights.
#[export] Hint Resolve combat_stats_ok player_combat_ok ok_enqueue_live ok_travel_delay ok_release_due : sim.
#[export] Hint Resolve ok_mob_combat_stats ok_release_due_commands wp_snapshot ok_normal_input wp_resolve : sim.
#[export] Hint Resolve ok_resource_damage ok_outcome ok_finalize_victim ok_attack_command ok_queue_aggro : sim.
#[export] Hint Resolve ok_drain_aggro ok_latest_provoker context_map ok_new_aggro ok_acquire_idle : sim.
#[export] Hint Resolve ok_validate_target wp_context wp_handle_return wp_handle_idle wp_handle_pursuit : sim.
#[export] Hint Resolve wp_decision wp_mob_turn : sim.
