(* ===== verification/SimUpkeep.v ===== *)
(** What players are shown, what is saved of them and how their vitals run never
    panics ([SimReplication], [SimSave], [SimVitals]). *)
From S2P Require Import Prelude Domain StatSource ActorState StatsApi Hydrate StatsSafety Recovery Float CombatTiming.
From S2P Require Import Wire Space Entities Persist Text MapPort Channel Outbox Replication SimTime Motion Aoi.
From S2P Require Import SimTypes SimWorld SimLife SimQuery SimAction SimReplication SimPresence SimSave SimVitals.
From S2P Require Import SimSafe SimActors.

(** What players are shown never panics ([SimReplication]). *)
Section Shown.
Context `{SimEnvLaws} `{!GrowthRngLaws} {S : Setting}.

(** ** The graph *)
Definition op_observer (op : GraphOp) (w : World) : Prop :=
  match op with Reconcile o _ _ => named_player o w | _ => True end.
Lemma graph_step_ok op g w : graph_ok g w -> op_observer op w -> graph_ok (snd (graph_step op g)) w.
Proof.
  intros (E & R & P) O. pose proof (graph_step_refines op g E R) as G.
  destruct (graph_step op g) as [told g']. destruct G as [R' _]. exists (spec_step op E). split; [exact R' |].
  intros o t Ho. destruct op; cbn in Ho, O.
  - destruct (decide (o = observer)) as [-> | N]; [exact O |].
    apply (P o t). revert Ho. unfold spec_step. intuition.
  - destruct Ho as [Ho _]. by apply (P o t).
  - destruct Ho as [Ho _]. by apply (P o t).
  - destruct Ho as [Ho _]. by apply (P o t).
Qed.
Lemma reconcile_ok o spawn retain g w : graph_ok g w -> named_player o w -> graph_ok (snd (reconcile_observer o spawn retain g)) w.
Proof. intros G P. pose proof (graph_step_ok (Reconcile o spawn retain) g w G P) as R. revert R. cbn. by destruct (reconcile_observer o spawn retain g). Qed.
Lemma remove_visibility_ok o t g w : graph_ok g w -> graph_ok (snd (remove_visibility o t g)) w.
Proof. intros G. pose proof (graph_step_ok (RemoveVisibility o t) g w G Logic.I) as R. revert R. cbn. by destruct (remove_visibility o t g). Qed.
Lemma remove_target_ok t g w : graph_ok g w -> graph_ok (snd (remove_target t g)) w.
Proof. intros G. pose proof (graph_step_ok (RemoveTarget t) g w G Logic.I) as R. revert R. cbn. by destruct (remove_target t g). Qed.
Lemma remove_observer_ok o g w : graph_ok g w -> graph_ok (snd (remove_observer o g)) w.
Proof. intros G. pose proof (graph_step_ok (RemoveObserver o) g w G Logic.I) as R. revert R. cbn. by destruct (remove_observer o g). Qed.
Lemma rollback_ok o targets g w : graph_ok g w ->
  graph_ok (fold_left (fun g t => snd (remove_visibility o t g)) targets g) w.
Proof. revert g. induction targets as [| t targets IH]; intros g G; [done |]. by apply IH, remove_visibility_ok. Qed.
Lemma ok_write_graph e g w : Inv S w -> graph_ok g w -> ok S (sim_write K_MapReplication e g) w.
Proof. intros I G. apply ok_write; [done |]. by intros _. Qed.
Hint Resolve ok_write_graph : sim.

(** ** Visibility *)
Lemma ok_maintain_spatial m w : Inv S w -> live m w -> ok S (maintain_spatial m) w.
Proof. intros I L. unfold maintain_spatial. sim. Qed.
Lemma wp_observers w : Inv S w ->
  wp S collect_visibility_observers (fun l w' => Forall (fun o => named_player (vo_net_id o) w') l) w.
Proof.
  intros I. unfold collect_visibility_observers. sim.
  apply Forall_found. intros e o E. unfold visibility_observer in E.
  destruct (get K_PlayerMarker e w0) as [p |] eqn:P; [| done]. destruct (get K_NetEntityId e w0) as [id |] eqn:N; [| done].
  destruct (get K_LocalTransform e w0); [| done]. injection E as <-. exists e. split; [by exists p | done].
Qed.
Lemma ok_candidates m pos radius id w : Inv S w -> live m w -> ok S (visibility_candidates m pos radius id) w.
Proof. intros I L. unfold visibility_candidates. sim. Qed.
Hint Resolve ok_maintain_spatial wp_observers ok_candidates : sim.
Lemma ok_reconcile_visibility o spawn retain w : Inv S w -> named_player (vo_net_id o) w ->
  ok S (reconcile_visibility (s_map S) o spawn retain) w.
Proof.
  intros I P. unfold reconcile_visibility. destruct (inv_map_comp _ _ K_MapReplication I) as [g G]; [by right; left |].
  sim; [| congruence]. pose proof (reconcile_ok _ spawn retain v w (inv_graph _ _ I _ G0) P) as R. rewrite E in R. sim.
Qed.
Lemma ok_rollback id targets w : Inv S w -> ok S (rollback_entered_visibility (s_map S) id targets) w.
Proof.
  intros I. unfold rollback_entered_visibility. apply ok_when; [done |]. intros _.
  apply ok_modify; [done | by apply map_live |]. intros g G _. split_and!; [done | done |]. cbn. by apply rollback_ok, (inv_graph _ _ I).
Qed.
Lemma ok_entered_snapshot shared found id w : Inv S w -> ok S (entered_snapshot shared found id) w.
Proof. intros I. unfold entered_snapshot. sim. Qed.
Lemma ok_movement_animation id w : Inv S w -> ok S (movement_animation_of id) w.
Proof. intros I. unfold movement_animation_of. sim. Qed.
Hint Resolve ok_reconcile_visibility ok_rollback ok_entered_snapshot ok_movement_animation : sim.
Lemma ok_with_animations l w : Inv S w -> ok S (with_animations l) w.
Proof. intros I. unfold with_animations. sim. Qed.
Hint Resolve ok_with_animations : sim.
Lemma ok_queue_diff shared o diff w : Inv S w -> ok S (queue_visibility_diff shared (s_map S) o diff) w.
Proof. intros I. unfold queue_visibility_diff. sim. Qed.
Hint Resolve ok_queue_diff : sim.
Lemma ok_reconcile_one shared o config w : Inv S w -> named_player (vo_net_id o) w ->
  ok S (reconcile_one_observer shared (s_map S) o config) w.
Proof. intros I P. unfold reconcile_one_observer. sim. Qed.
Hint Resolve ok_reconcile_one : sim.
Lemma ok_aoi_reconcile w : Inv S w -> ok S aoi_reconcile w.
Proof. intros I. unfold aoi_reconcile. sim. Qed.
Lemma ok_bootstrap_observer player id pos w : Inv S w -> named_player id w -> ok S (bootstrap_observer_snapshot player id pos) w.
Proof. intros I P. unfold bootstrap_observer_snapshot. sim. Qed.

(** ** Flushing *)
Notation recipients_ok l w := (Forall (fun r => live (or_entity r) w) l).
Lemma wp_collect_recipients ids w : Inv S w -> wp S (collect_recipients ids) (fun l w' => recipients_ok l w') w.
Proof.
  revert w. induction ids as [| id ids IH]; intros w I; cbn [collect_recipients]; [by apply wp_done |].
  sim; cbn; try done. apply Forall_cons. split; [sim_side | done].
Qed.
Hint Resolve wp_collect_recipients : sim.
Lemma wp_observer_recipients m id include w : Inv S w -> live m w ->
  wp S (observer_recipients m id include) (fun l w' => recipients_ok l w') w.
Proof. intros I L. unfold observer_recipients. sim. Qed.
Hint Resolve wp_observer_recipients : sim.
Lemma ok_queue_changed w : Inv S w -> ok S queue_changed_player_public_states w.
Proof. intros I. unfold queue_changed_player_public_states. sim. Qed.
Lemma ok_flush_states m ids w : Inv S w -> live m w -> ok S (flush_dirty_entity_public_states m ids) w.
Proof. intros I L. unfold flush_dirty_entity_public_states. sim. Qed.
Lemma ok_flush_animations w : Inv S w -> ok S flush_changed_player_movement_animations w.
Proof. intros I. unfold flush_changed_player_movement_animations. sim. Qed.
Lemma ok_flush_movements m l w : Inv S w -> live m w -> ok S (flush_pending_movements m l) w.
Proof. intros I L. unfold flush_pending_movements. sim. Qed.
Lemma ok_chat_message chat emp pct w : Inv S w -> ok S (local_chat_message_for chat emp pct) w.
Proof. intros I. unfold local_chat_message_for. sim. Qed.
Hint Resolve ok_chat_message : sim.
Lemma ok_flush_chats m l w : Inv S w -> live m w -> ok S (flush_pending_local_chats m l) w.
Proof. intros I L. unfold flush_pending_local_chats, push_local_chat_event. sim. Qed.
Hint Resolve ok_flush_states ok_flush_movements ok_flush_chats : sim.
Lemma ok_take_comp {A} k e (f : comp k -> list A) v w : plain_kind k = true -> Inv S w -> live e w -> ok S (take_comp k e f v) w.
Proof. intros P I L. unfold take_comp. sim. Qed.
Hint Resolve ok_take_comp : sim.
Lemma ok_drain m w : Inv S w -> live m w -> ok S (drain_replication m) w.
Proof. intros I L. unfold drain_replication. sim. Qed.
Lemma ok_sort l w : Inv S w -> ok S (unstable_sort l) w.
Proof. intros I. eapply wp_mono; [by apply wp_sort | done]. Qed.
Hint Resolve ok_drain ok_sort : sim.
Lemma ok_replication_flush w : Inv S w -> ok S replication_flush w.
Proof. intros I. unfold replication_flush. sim. Qed.

(** ** The outboxes *)
Lemma wp_players w : Inv S w -> wp S player_entities_on_map (fun l w' => Forall (fun e => is_player e w') l) w.
Proof. intros I. unfold player_entities_on_map. sim. Qed.
Hint Resolve wp_players : sim.
Lemma ok_flush_outbox e w : Inv S w -> live e w -> ok S (flush_outbox e) w.
Proof.
  intros I L. unfold flush_outbox. sim. apply (wp_order S); [done |]. intros order w1 I1 X1 _. carry_all X1. sim.
Qed.
Hint Resolve ok_flush_outbox : sim.
Lemma ok_outbox_flush w : Inv S w -> ok S outbox_flush w.
Proof. intros I. unfold outbox_flush. sim. Qed.
End Shown.
#[export] Hint Resolve ok_write_graph ok_maintain_spatial wp_observers ok_candidates ok_reconcile_visibility : sim.
#[export] Hint Resolve ok_rollback ok_entered_snapshot ok_movement_animation ok_with_animations ok_queue_diff : sim.
#[export] Hint Resolve ok_reconcile_one wp_collect_recipients wp_observer_recipients ok_chat_message : sim.
#[export] Hint Resolve ok_flush_states ok_flush_movements ok_flush_chats ok_take_comp ok_drain ok_sort wp_players : sim.
#[export] Hint Resolve ok_flush_outbox : sim.

(** Saving players and spending their stat points never panic ([SimSave]). *)
Section Kept.
Context `{SimEnvLaws} `{!GrowthRngLaws} {S : Setting}.

(** ** Marking and autosave *)
Lemma ok_write_persistence e p w : Inv S w -> clock_wf (pp_autosave p) -> ok S (sim_write K_PlayerPersistence e p) w.
Proof. intros I C. apply ok_write; [done |]. by intros _. Qed.
Lemma ok_set_dirty e b w : Inv S w -> live e w -> ok S (modify K_PlayerPersistence e (set_dirty b)) w.
Proof. intros I L. apply ok_modify; [done.. |]. by intros p _ C. Qed.
Hint Resolve ok_write_persistence ok_set_dirty : sim.
Lemma ok_set_player_dirty e w : Inv S w -> ok S (set_player_dirty e) w.
Proof. intros I. unfold set_player_dirty. sim. Qed.
Hint Resolve ok_set_player_dirty : sim.
Lemma ok_dirty_events w : Inv S w -> ok S process_player_dirty_events w.
Proof. intros I. unfold process_player_dirty_events. sim. Qed.
Lemma ok_schedule_save request w : Inv S w -> ok S (schedule_save request) w.
Proof. intros I. unfold schedule_save. sim. Qed.
Hint Resolve ok_schedule_save : sim.
Lemma ok_try_autosave snapshot w : Inv S w -> ok S (try_schedule_autosave snapshot) w.
Proof. intros I. unfold try_schedule_autosave. sim. Qed.
Lemma ok_try_flush snapshot w : Inv S w -> ok S (try_schedule_flush snapshot) w.
Proof. intros I. unfold try_schedule_flush. sim. Qed.
Hint Resolve ok_try_autosave ok_try_flush : sim.
Lemma ok_advance_autosave e p w : Inv S w -> clock_wf (pp_autosave p) -> ok S (advance_autosave e p (s_now S)) w.
Proof.
  intros I C. unfold advance_autosave.
  destruct (advance_due_total (pp_autosave p) (s_now S) C (inv_now _ _ I)) as (r & c & -> & Wc & _). sim.
Qed.
Hint Resolve ok_advance_autosave : sim.
Lemma now_u64 w : Inv S w -> is_u64 (s_now S).
Proof. intros I. pose proof (inv_now _ _ I). unfold is_u64. lia. Qed.
Lemma ok_autosave_player map state e w : Inv S w -> sim_now state = s_now S -> ok S (autosave_player map state e) w.
Proof.
  intros I N. unfold autosave_player. rewrite N. sim.
  all: apply ok_write_persistence; [done |]; cbn; apply retry_after_wf; [done | by eapply now_u64].
Qed.
Hint Resolve ok_autosave_player : sim.
Lemma ok_due_autosaves w : Inv S w -> ok S enqueue_due_autosaves w.
Proof. intros I. unfold enqueue_due_autosaves. sim. Qed.

(** ** Snapshots *)
Lemma ok_capture e p w : Inv S w -> live e w -> ok S (capture_player_snapshot e p) w.
Proof. intros I L. unfold capture_player_snapshot. sim. Qed.
Lemma wp_active msg w : Inv S w ->
  wp S (active_player_entity msg) (fun o w' => match o with Some e => is_player e w' | None => True end) w.
Proof. intros I. unfold active_player_entity. sim. Qed.
Hint Resolve ok_capture wp_active : sim.
Lemma ok_capture_active msg w : Inv S w -> ok S (capture_active_player_snapshot msg) w.
Proof. intros I. unfold capture_active_player_snapshot. sim. Qed.

(** ** Progression *)
Lemma ok_push_feedback e message w : Inv S w -> live e w -> ok S (push_feedback e message) w.
Proof. intros I L. unfold push_feedback. sim. Qed.
Lemma ok_poll_pending e w : Inv S w -> ok S (poll_pending_save e) w.
Proof. intros I. unfold poll_pending_save. sim. Qed.
Hint Resolve ok_push_feedback ok_poll_pending : sim.
Lemma ok_finalize_pending e w : Inv S w -> live e w -> ok S (finalize_pending_save e) w.
Proof. intros I L. unfold finalize_pending_save. sim. Qed.
Lemma ok_has_pending e w : Inv S w -> ok S (has_pending_save e) w.
Proof. intros I. unfold has_pending_save. sim. Qed.
Hint Resolve ok_finalize_pending ok_has_pending : sim.
Lemma player_validate_ok r stat v : player_stats_ok S r -> is_Some (validate_stored_stat r stat v).
Proof. intros [R _]. by eapply validate_stored_stat_ok. Qed.
Hint Resolve player_validate_ok : sim.
Lemma ok_validate_core e stat delta w : Inv S w -> ok S (validate_core_stat_intent e stat delta) w.
Proof. intros I. unfold validate_core_stat_intent. sim. Qed.
Lemma kernel_writes_ok n source stat v points resets (state : ActorStatState unit unit) : actor_ok n source state ->
  exists state' r, kernel_writes source stat v points resets state = Some (state', r) /\ actor_ok n source state'.
Proof.
  intros A. unfold kernel_writes.
  destruct (set_stored_stat_ok' n source stat v state A) as (s1 & r1 & -> & A1). destruct r1; [| by eauto].
  destruct (set_stored_stat_ok' n source Stat.StatPoints points s1 A1) as (s2 & r2 & -> & A2). destruct r2; [| by eauto].
  destruct (set_stored_stat_ok' n source Stat.StatResetCount resets s2 A2) as (s3 & r3 & -> & A3). destruct r3; eauto.
Qed.
Lemma ok_normalize_player e stats appearance w : Inv S w -> player_stats_ok S stats -> ok S (normalize_player e stats appearance) w.
Proof.
  intros I [R [p P]]. unfold normalize_player. destruct (normalize_ok _ stats R) as (r' & sync & -> & R' & Es).
  assert (player_stats_ok S r') by (split; [done | exists p; congruence]). sim.
Qed.
Hint Resolve ok_normalize_player : sim.
Lemma ok_kernel_update e stats appearance stat v resets delta w : Inv S w -> player_stats_ok S stats ->
  ok S (apply_stat_kernel_update e stats appearance stat v resets delta) w.
Proof.
  intros I P. unfold apply_stat_kernel_update. cbv zeta. apply wp_api; [done | intros state A; by apply kernel_writes_ok |].
  intros stats' r O. sim.
Qed.
Lemma ok_write_progression e p w : Inv S w -> 1 <= pgb_level p <= s_levels S -> ok S (sim_write K_PlayerProgression e p) w.
Proof. intros I C. apply ok_write; [done |]. by intros _. Qed.
Hint Resolve ok_validate_core ok_kernel_update ok_write_progression : sim.
Lemma ok_apply_core_save e v w : Inv S w -> ok S (apply_validated_core_stat_save e v) w.
Proof. intros I. unfold apply_validated_core_stat_save. sim. Qed.
Hint Resolve ok_apply_core_save : sim.
Lemma ok_enqueue_intent e intent w : Inv S w -> live e w -> ok S (enqueue_progression_intent e intent) w.
Proof. intros I L. unfold enqueue_progression_intent. sim. Qed.
Hint Resolve ok_enqueue_intent : sim.
Lemma ok_run_intents e intents w : Inv S w -> live e w -> ok S (run_progression_intents e intents) w.
Proof. revert w. induction intents as [| i intents IH]; intros w I L; cbn [run_progression_intents]; sim; by apply IH. Qed.
Hint Resolve ok_run_intents : sim.
Lemma ok_enqueue_intents e w : Inv S w -> live e w -> ok S (enqueue_progression_intents e) w.
Proof. intros I L. unfold enqueue_progression_intents. sim. Qed.
Hint Resolve ok_enqueue_intents : sim.
Lemma ok_progress_player e w : Inv S w -> ok S (progress_player e) w.
Proof. intros I. unfold progress_player. sim. Qed.
Hint Resolve ok_progress_player : sim.
Lemma ok_progression w : Inv S w -> ok S process_player_progression w.
Proof. intros I. unfold process_player_progression. sim. Qed.
End Kept.
#[export] Hint Resolve ok_write_persistence ok_set_dirty ok_set_player_dirty ok_schedule_save ok_try_autosave : sim.
#[export] Hint Resolve ok_try_flush ok_advance_autosave ok_autosave_player ok_capture wp_active ok_push_feedback : sim.
#[export] Hint Resolve ok_poll_pending ok_finalize_pending ok_has_pending player_validate_ok ok_normalize_player : sim.
#[export] Hint Resolve ok_validate_core ok_kernel_update ok_write_progression ok_apply_core_save : sim.
#[export] Hint Resolve ok_enqueue_intent ok_run_intents ok_enqueue_intents ok_progress_player : sim.

(** Recovery, stat synchronisation and restarts never panic ([SimVitals]). *)
Section Health.
Context `{SimEnvLaws} `{!GrowthRngLaws} {S : Setting}.

(** ** Tickers *)
Lemma reset_tickers_ok now t : is_u64 now -> tickers_ok t -> tickers_ok (reset_after_regeneration_pause now t).
Proof. intros N (A & B & C). split_and!; cbn; by apply retry_after_wf. Qed.
Lemma ok_write_tickers e t w : Inv S w -> tickers_ok t -> ok S (sim_write K_PlayerStatTicker e t) w.
Proof. intros I C. apply ok_write; [done |]. by intros _. Qed.
Hint Resolve ok_write_tickers : sim.
Lemma ok_reset_tickers e w : Inv S w -> live e w -> ok S (modify K_PlayerStatTicker e (reset_after_regeneration_pause (s_now S))) w.
Proof.
  intros I L. apply ok_modify; [done.. |]. intros t _ C. split_and!; [| done | done].
  apply reset_tickers_ok; [by eapply now_u64 | done].
Qed.
Hint Resolve ok_reset_tickers : sim.
Lemma ok_pause e w : Inv S w -> live e w -> ok S (pause_player_stat_tickers e (s_now S)) w.
Proof. intros I L. unfold pause_player_stat_tickers. sim. Qed.
Lemma ok_activity e now w : Inv S w -> live e w -> ok S (current_player_stat_activity e now) w.
Proof. intros I L. unfold current_player_stat_activity. sim. Qed.
Lemma wp_actor_ref e w : Inv S w -> live e w ->
  wp S (actor_ref e) (fun o w' => match o with Some a => ar_entity a = e | None => True end) w.
Proof. intros I L. unfold actor_ref. sim. Qed.
Hint Resolve ok_pause ok_activity wp_actor_ref : sim.
Notation may_apply o := (match o with Some a => application_ok a | None => True end).
Lemma ok_apply_player e a w : Inv S w -> live e w -> may_apply a -> ok S (apply_player_resource_application e a) w.
Proof. intros I L A. unfold apply_player_resource_application. sim. Qed.
Hint Resolve ok_apply_player : sim.
Lemma player_limited_ok r stat : player_stats_ok S r -> is_Some (runtime_read_limited r stat).
Proof. intros [R _]. by eapply runtime_read_limited_ok. Qed.
Lemma mob_limited_ok r stat : runtime_ok (s_levels S) r -> is_Some (runtime_read_limited r stat).
Proof. intros R. by eapply runtime_read_limited_ok. Qed.
Hint Resolve player_limited_ok mob_limited_ok : sim.
(** A due ticker's result is one its tick returns. *)
Lemma wp_tick_due {T R B} (P : R -> Prop) (tick : T -> Z -> T * R) t (k : _ -> Sim B) Q w : Inv S w -> clock_wf (pt_clock t) ->
  (forall state elapsed, P (snd (tick state elapsed))) ->
  (forall r t', clock_wf (pt_clock t') -> (match r with Some r => P r | None => True end) -> wp S (k (r, t')) Q w) ->
  wp S (sim_bind (unwrap (tick_due (s_now S) tick t)) k) Q w.
Proof.
  intros I C HP HK. unfold tick_due. destruct (advance_due_total (pt_clock t) (s_now S) C (inv_now _ _ I)) as (r & c & -> & Wc & _).
  destruct r as [elapsed |]; [| by apply wp_bind_done, HK].
  pose proof (HP (pt_state t) (SimDuration_as_duration elapsed)) as Hr. destruct (tick _ _) as [state r]. by apply wp_bind_done, HK.
Qed.
Lemma hp_application state hp max_hp activity elapsed : may_apply (snd (tick_player_passive_hp_recovery state hp max_hp activity elapsed)).
Proof. unfold tick_player_passive_hp_recovery. by destruct (accrue_passive_hp _ _ _ _ _) as [? []]. Qed.
Lemma sp_application state hp max_hp sp max_sp activity profile elapsed :
  may_apply (snd (tick_player_passive_sp_recovery state hp max_hp sp max_sp activity profile elapsed)).
Proof. unfold tick_player_passive_sp_recovery. by destruct (accrue_passive_sp _ _ _ _ _ _ _ _) as [? []]. Qed.
Lemma stamina_application state stamina max activity mode elapsed :
  may_apply (se_application (snd (tick_player_stamina state stamina max activity mode elapsed))).
Proof.
  unfold tick_player_stamina, tick_stamina. destruct (should_consume _).
  - unfold consume_running_stamina. destruct (accrue _ _ _) as [acc n]. cbv zeta. destruct (sat_i32 _ <=? 0).
    + cbn. by destruct (0 <? _).
    + destruct (start_stamina_consumption _ _). cbn. by destruct (0 <? _).
  - destruct (stop_stamina_consumption state). cbn. by destruct (snapshot_restore _).
Qed.
Lemma mjoin_apply (o : option (option ResourceApplication)) :
  (match o with Some r => may_apply r | None => True end) -> may_apply (mjoin o).
Proof. by destruct o. Qed.
(** The three tickers in turn: the clock, then what its tick asks for. *)
Lemma ok_tick_hp e activity w : Inv S w -> live e w -> ok S (tick_passive_hp_of e activity (s_now S)) w.
Proof.
  intros I L. unfold tick_passive_hp_of. sim. match goal with C : tickers_ok ?t |- _ => destruct C as (? & ? & ?) end.
  apply (wp_tick_due (fun r => may_apply r)); [done | done | intros; apply hp_application |]. intros r t' W A.
  pose proof (mjoin_apply r A). assert (tickers_ok (set_passive_hp t' v0)) by done. sim.
Qed.
Lemma ok_tick_sp e activity w : Inv S w -> live e w -> ok S (tick_passive_sp_of e activity (s_now S)) w.
Proof.
  intros I L. unfold tick_passive_sp_of. sim. match goal with C : tickers_ok ?t |- _ => destruct C as (? & ? & ?) end.
  apply (wp_tick_due (fun r => may_apply r)); [done | done | intros; apply sp_application |]. intros r t' W A.
  pose proof (mjoin_apply r A). assert (tickers_ok (set_passive_sp t' v1)) by done. sim.
Qed.
Lemma ok_change_animation e now mode w : Inv S w -> ok S (ascertain_movement_animation_change e now mode) w.
Proof. intros I. unfold ascertain_movement_animation_change. sim. Qed.
Lemma ok_report_timer e timer n w : s_ticking S = true -> Inv S w -> is_player e w -> ok S (report_stamina_timer e timer n) w.
Proof.
  intros T I P. unfold report_stamina_timer. sim. apply ok_push_stamina; [done.. |]. cbn. by apply player_safe.
Qed.
Hint Resolve ok_tick_hp ok_tick_sp ok_change_animation ok_report_timer : sim.
Lemma ok_tick_stamina e activity w : s_ticking S = true -> Inv S w -> is_player e w ->
  ok S (tick_stamina_of e activity (s_now S)) w.
Proof.
  intros T I P. unfold tick_stamina_of. sim. match goal with C : tickers_ok ?t |- _ => destruct C as (? & ? & ?) end.
  apply (wp_tick_due (fun r => may_apply (se_application r))); [done | done | intros; apply stamina_application |]. intros r t' W A.
  assert (tickers_ok (set_stamina_ticker t' v1)) by done. sim.
Qed.
Hint Resolve ok_tick_stamina : sim.
Lemma ok_tick_player e w : s_ticking S = true -> Inv S w -> is_player e w -> ok S (tick_player (s_now S) e) w.
Proof. intros T I P. unfold tick_player. sim. Qed.
Hint Resolve ok_tick_player : sim.
Lemma ok_stat_tickers w : s_ticking S = true -> Inv S w -> ok S process_player_stat_tickers w.
Proof. intros T I. unfold process_player_stat_tickers. sim. Qed.

(** ** Synchronisation *)
Lemma ok_normalize_of e w : Inv S w -> ok S (normalize_player_of e) w.
Proof. intros I. unfold normalize_player_of. sim. Qed.
Hint Resolve ok_normalize_of : sim.
Lemma ok_normalize_stats w : Inv S w -> ok S normalize_player_stats_for_gameplay w.
Proof. intros I. unfold normalize_player_stats_for_gameplay. sim. Qed.
Lemma ok_flush_stats e w : Inv S w -> ok S (flush_player_stats e) w.
Proof.
  intros I. unfold flush_player_stats. sim.
  match goal with C : player_stats_ok S ?r |- _ => destruct C as [R [p P]]; destruct (drain_sync_ok _ r R) as (r' & d & -> & R' & Es) end.
  assert (player_stats_ok S r') by (split; [done | exists p; congruence]). sim.
Qed.
Hint Resolve ok_flush_stats : sim.
Lemma ok_flush_stats_sync w : Inv S w -> ok S flush_player_stats_sync w.
Proof. intros I. unfold flush_player_stats_sync. sim. Qed.

(** ** Restarts *)
Lemma ok_revive e w : Inv S w -> is_player e w -> ok S (modify K_ActorLife e (fun phase => snd (life_restart phase))) w.
Proof.
  intros I P. apply ok_modify; [done | by apply player_live |]. intros phase G _.
  pose proof (player_safe e w I P) as [_ D].
  assert (cleanup_at_of phase = None) as C.
  { unfold is_player, get in *. destruct (w_entities w !! e) as [b |] eqn:E; [| done].
    by apply (bo_player S b (inv_bundle _ _ I e b E)). }
  assert (cleanup_at_of (snd (life_restart phase)) = None) as C' by by destruct phase.
  split_and!; [done | done | | done]. unfold phase_doomed. by rewrite C', D.
Qed.
Lemma ok_set_hp e (stats : comp K_PlayerStats) v w : Inv S w -> player_stats_ok S stats ->
  ok S (player_stats_api e stats (fun _ => set_resource Stat.Hp v)) w.
Proof. intros I P. apply ok_player_api; [done.. |]. intros state A. by eapply set_resource_ok. Qed.
Hint Resolve ok_revive ok_set_hp : sim.
Lemma ok_restart_state e id placement hp w : Inv S w -> is_player e w -> ok S (apply_restart_state e id placement hp) w.
Proof. intros I P. unfold apply_restart_state, reset_after_restart. sim. Qed.
Lemma ok_push_chat e channel message w : Inv S w -> live e w -> ok S (push_chat e channel message) w.
Proof. intros I L. unfold push_chat. sim. Qed.
Lemma ok_current_targets id w : Inv S w -> ok S (current_targets id) w.
Proof. intros I. unfold current_targets. sim. Qed.
Lemma ok_push_spawn e snapshot w : Inv S w -> live e w -> ok S (push_spawn_bundle e snapshot) w.
Proof. intros I L. unfold push_spawn_bundle. sim. Qed.
Hint Resolve ok_restart_state ok_push_chat ok_current_targets ok_push_spawn : sim.
Lemma ok_show_here e id w : Inv S w -> live e w -> ok S (show_restart_here e id) w.
Proof. intros I L. unfold show_restart_here. sim. Qed.
Lemma ok_close_window e w : Inv S w -> live e w -> ok S (close_restart_window e) w.
Proof. intros I L. unfold close_restart_window. sim. Qed.
Hint Resolve ok_show_here ok_close_window : sim.
Lemma ok_restart_player e placement hp visibility w : Inv S w -> is_player e w -> ok S (restart_player e placement hp visibility) w.
Proof. intros I P. unfold restart_player. sim. Qed.
Hint Resolve ok_restart_player : sim.
Lemma ok_restart_here e hp w : Inv S w -> is_player e w -> ok S (restart_here e hp) w.
Proof. intros I P. unfold restart_here. sim. Qed.
Lemma ok_restart_town e hp w : Inv S w -> is_player e w -> ok S (restart_town e hp) w.
Proof. intros I P. unfold restart_town. sim. Qed.
Hint Resolve ok_restart_here ok_restart_town : sim.
Lemma ok_requested_restart now e intent w : Inv S w -> is_player e w -> ok S (process_requested_restart now e intent) w.
Proof. intros I P. unfold process_requested_restart, restart_by_intent, push_restart_cooldown_feedback. sim. Qed.
Hint Resolve ok_requested_restart : sim.
(** A queue of restarts is a player's. *)
Lemma restart_queue_player e w : Inv S w -> is_Some (get K_PlayerRestartIntentQueue e w) -> is_player e w.
Proof.
  intros I. unfold is_player, get. destruct (w_entities w !! e) as [b |] eqn:E; [| by intros [? ?]].
  apply (bo_restart S b (inv_bundle _ _ I e b E)).
Qed.
Notation requested_ok l w := (Forall (fun r => is_player (fst r) w) l).
Lemma wp_drain_intents w : Inv S w -> wp S drain_restart_intents (fun l w' => requested_ok l w') w.
Proof.
  intros I. unfold drain_restart_intents. sim_to_loop.
  apply (wp_fold S (fun _ _ => True) (fun l w => requested_ok l w)); [done | apply Forall_any | intros ? ? ? ? ?; done | constructor |].
  intros found e w1 I1 X1 _ F1. unfold drain_restart_intent. sim.
  assert (is_player e w1) as P by (by apply restart_queue_player; [| exists v]).
  apply wp_unit; [apply ok_write; [done | by intros _] | sim_next]. apply wp_done; [done |]. by apply Forall_push.
Qed.
Hint Resolve wp_drain_intents : sim.
Lemma wp_forced now w : Inv S w -> wp S (forced_respawn_players now) (fun l w' => Forall (fun e => is_player e w') l) w.
Proof.
  intros I. unfold forced_respawn_players. sim. apply List.Forall_forall. intros e M. apply List.filter_In in M as [M _].
  rewrite List.Forall_forall in F. auto.
Qed.
Hint Resolve wp_forced : sim.
Lemma ok_restarts w : Inv S w -> ok S process_player_restarts w.
Proof. intros I. unfold process_player_restarts. sim. Qed.
End Health.
#[export] Hint Resolve ok_write_tickers ok_reset_tickers ok_pause ok_activity wp_actor_ref ok_apply_player : sim.
#[export] Hint Resolve player_limited_ok mob_limited_ok ok_tick_hp ok_tick_sp ok_change_animation ok_report_timer : sim.
#[export] Hint Resolve ok_tick_stamina ok_tick_player ok_normalize_of ok_flush_stats ok_revive ok_set_hp : sim.
#[export] Hint Resolve ok_restart_state ok_push_chat ok_current_targets ok_push_spawn ok_show_here : sim.
#[export] Hint Resolve ok_close_window ok_restart_player ok_restart_here ok_restart_town ok_requested_restart : sim.
#[export] Hint Resolve wp_drain_intents wp_forced : sim.
