(* ===== verification/SimAsked.v ===== *)
(** What players ask for, the projection of facts, rewards, portals and idle chat
    never panic ([SimIntents], [SimRewards]). *)
From S2P Require Import Prelude Domain StatSource Progression ActorState StatsApi StatsRecompute Hydrate StatsSafety.
From S2P Require Import Recovery Float CombatTiming Space Entities Persist Text MapPort Channel Outbox Replication.
From S2P Require Import SimTime Motion Aoi SimTypes SimWorld SimLife SimQuery SimAction SimAi SimReplication.
From S2P Require Import SimPresence SimSave SimVitals SimIntents SimRewards SimSafe SimActors SimUpkeep.

Section Asked.
Context `{SimEnvLaws} `{!GrowthRngLaws} {S : Setting}.

(** ** Ingress *)
Lemma ok_push_command e c w : Inv S w -> live e w -> ok S (push_command e c) w.
Proof. intros I L. unfold push_command. sim. Qed.
Lemma ok_restart_request e r w : Inv S w -> is_player e w -> ok S (modify K_PlayerRestartIntentQueue e (fun _ => [r])) w.
Proof. intros I P. apply ok_modify; [done | by apply player_live |]. done. Qed.
Hint Resolve ok_push_command ok_restart_request : sim.
Lemma ok_client_intent msg w : Inv S w -> ok S (handle_client_intent msg) w.
Proof. intros I. unfold handle_client_intent. sim. Qed.
Lemma ok_global_shout msg w : Inv S w -> ok S (handle_global_shout msg) w.
Proof. intros I. unfold handle_global_shout. sim. Qed.
Hint Resolve ok_client_intent ok_global_shout : sim.

(** ** Targets *)
Lemma ok_selectable m p t w : Inv S w -> live m w -> ok S (target_is_selectable m p t) w.
Proof. intros I L. unfold target_is_selectable. sim. Qed.
Lemma ok_health_percent e w : Inv S w -> live e w -> ok S (health_bar_percent_for_entity e) w.
Proof. intros I L. unfold health_bar_percent_for_entity. sim. Qed.
Hint Resolve ok_selectable ok_health_percent : sim.
Lemma ok_health_percent_id id w : Inv S w -> ok S (health_bar_percent_for_entity_id id) w.
Proof. intros I. unfold health_bar_percent_for_entity_id. sim. Qed.
Hint Resolve ok_health_percent_id : sim.
Lemma ok_select_target m e p t w : Inv S w -> live m w -> live e w -> ok S (select_target m e p t) w.
Proof. intros I Lm L. unfold select_target, set_selected_target, push_health_bar. sim. Qed.
Hint Resolve ok_select_target : sim.
Lemma ok_broadcast_bar t w : Inv S w -> ok S (broadcast_entity_health_bar_to_targeters t) w.
Proof.
  intros I. unfold broadcast_entity_health_bar_to_targeters, push_health_bar. sim_to_loop.
  assert (Forall (fun c => live (fst c) w) (omap (targeter t w) l)) as Fc.
  { apply Forall_found. intros e c E. unfold targeter in E. destruct (get K_NetEntityId e w) as [id |] eqn:G; [| done].
    destruct (get K_PlayerTarget e w); [| done]. cbn in E. case_bool_decide; [| done]. injection E as <-. by eapply get_live. }
  sim.
Qed.
Lemma ok_damage_info e t n flags w : Inv S w -> live e w -> ok S (push_damage_info e t n flags) w.
Proof. intros I L. unfold push_damage_info. sim. Qed.
Hint Resolve ok_broadcast_bar ok_damage_info : sim.
Lemma ok_send_damage_info e t n flags w : Inv S w -> live e w -> ok S (send_damage_info_to_selected_target e t n flags) w.
Proof. intros I L. unfold send_damage_info_to_selected_target. sim. Qed.
Hint Resolve ok_send_damage_info : sim.

(** ** Commands *)
Lemma ok_set_animation e a w : Inv S w -> live e w -> ok S (set_player_movement_animation e a) w.
Proof. intros I L. unfold set_player_movement_animation. sim. Qed.
Hint Resolve ok_set_animation : sim.
Lemma ok_run_attack m e id t attack w : s_ticking S = true -> Inv S w -> live m w -> is_player e w ->
  ok S (run_attack m e id t attack) w.
Proof. intros T I Lm P. unfold run_attack. sim. Qed.
Hint Resolve ok_run_attack : sim.
Lemma config_ok w : Inv S w -> axis_ok (size_width (mcfg_local_size (s_config S))) /\ axis_ok (size_height (mcfg_local_size (s_config S))).
Proof. intros I. apply (inv_config _ _ I). Qed.
Lemma ok_run_command m e p id c w : s_ticking S = true -> Inv S w -> live m w -> is_player e w ->
  ok S (run_command m e p id c) w.
Proof.
  intros T I Lm P. unfold run_command. destruct (config_ok w I) as [Aw Ah]. destruct c; sim_tidy; [| sim ..].
  apply wp_resource; [done |]. intros shared Rs. apply wp_resource; [done |]. intros map Rm. cbn in Rm. subst map.
  eapply wp_step; [apply ok_build_player_move; [done | by apply player_live | done | done] |].
  intros o w1 I1 X1 O. carry_all X1. destruct o as [a |]; [| sim]. destruct a; try done. subst.
  assert (action_ok (Action_PlayerMotion e player_id entity_id kind0 arg0 rot0 end_pos ts0 duration motion) w1) by (cbn; sim_side). sim.
Qed.
Hint Resolve ok_run_command : sim.
Lemma ok_player_commands m found e w : s_ticking S = true -> Inv S w -> live m w -> ok S (run_player_commands m found e) w.
Proof. intros T I Lm. unfold run_player_commands. sim. Qed.
Hint Resolve ok_player_commands : sim.
Lemma ok_player_actions w : s_ticking S = true -> Inv S w -> ok S process_player_actions w.
Proof. intros T I. unfold process_player_actions. sim. Qed.

(** ** Chat *)
Lemma ok_local_chat player id emp name intents w : Inv S w -> ok S (enqueue_local_chat_intents player id emp name intents) w.
Proof. intros I. unfold enqueue_local_chat_intents. sim. Qed.
Hint Resolve ok_local_chat : sim.
Lemma ok_chat_of e w : Inv S w -> ok S (process_chat_of e) w.
Proof. intros I. unfold process_chat_of. sim. Qed.
Hint Resolve ok_chat_of : sim.
Lemma ok_chat_intents w : Inv S w -> ok S process_chat_intents w.
Proof. intros I. unfold process_chat_intents. sim. Qed.

(** ** Projection *)
Lemma ok_project_damage d w : Inv S w -> safe S (ar_entity (dmg_attacker d)) w -> safe S (ar_entity (dmg_victim d)) w ->
  ok S (project_damage d) w.
Proof. intros I A V. unfold project_damage, broadcast_special_effect. sim. Qed.
Lemma ok_project_projectile t w : Inv S w -> safe S (ar_entity (ptf_target t)) w -> ok S (project_projectile_target t) w.
Proof. intros I A. unfold project_projectile_target. sim. Qed.
Lemma ok_project_despawned d w : Inv S w -> Forall (fun e => safe S e w) (dsp_recipients d) -> ok S (project_despawned d) w.
Proof. intros I A. unfold project_despawned. sim. Qed.
Lemma ok_project_stamina s w : Inv S w -> safe S (ar_entity (stc_player s)) w -> ok S (project_stamina_timer s) w.
Proof. intros I A. unfold project_stamina_timer. sim. Qed.
Hint Resolve ok_project_damage ok_project_projectile ok_project_despawned ok_project_stamina : sim.
(** A list of facts, with what the invariant knows of its members. *)
Lemma ok_for_facts {A} (P : A -> World -> Prop) (part : FrameFacts -> list A) (f : A -> Sim unit) w :
  (forall a, Stable S (P a)) -> s_ticking S = true -> Inv S w ->
  (forall x w, facts_ok S x w -> Forall (fun a => P a w) (part x)) ->
  (forall a w, Inv S w -> P a w -> ok S (f a) w) -> ok S (for_facts part f) w.
Proof.
  intros SP T I F Hf. unfold for_facts. apply wp_facts; [done |]. intros x R. unfold facts_inv in R. rewrite T in R.
  apply (ok_for_each S P); [done | by apply F | done |]. auto.
Qed.
Lemma ok_project w : s_ticking S = true -> Inv S w ->
  ok S (for_facts (fun x => cf_damaged (ff_combat x)) project_damage ;;
        for_facts (fun x => lf_dying_started (ff_life x))
          (fun actor => broadcast_actor_event (ar_id actor) Audience_ViewAndSelf EntityStunned) ;;
        for_facts (fun x => lf_death_finalized (ff_life x))
          (fun actor => broadcast_actor_event (ar_id actor) Audience_ViewAndSelf EntityDead) ;;
        for_facts (fun x => vf_projectile_effects (ff_visuals x))
          (fun effect => broadcast_actor_event (ar_id (pve_start effect)) Audience_ViewAndSelf
                           (fun start_id => CreateProjectileEffect Projectile_Exp start_id (ar_id (pve_end effect)))) ;;
        for_facts (fun x => vf_projectile_targets (ff_visuals x)) project_projectile_target ;;
        for_facts (fun x => vf_point_effects (ff_visuals x)) broadcast_point_visual_effect ;;
        for_facts (fun x => vf_special_effects (ff_visuals x))
          (fun effect => broadcast_special_effect (ase_actor effect) (ase_effect effect)) ;;
        for_facts ff_despawned project_despawned ;;
        for_facts ff_stamina_timer_changed project_stamina_timer) w.
Proof.
  intros T I.
  assert (forall A (part : FrameFacts -> list A) (f : A -> Sim unit), (forall a w, Inv S w -> ok S (f a) w) ->
    forall w, Inv S w -> ok S (for_facts part f) w) as Any.
  { intros A part f Hf w' I'. apply (ok_for_facts (fun _ _ => True)); try done; [intros; apply Forall_any | auto]. }
  apply wp_unit; [apply (ok_for_facts (fun d w => safe S (ar_entity (dmg_attacker d)) w /\ safe S (ar_entity (dmg_victim d)) w)); try done;
    [intros; apply _ | intros x w' F; exact (fo_damaged _ _ _ F) | intros d w' I' []; sim] |]. sim_next.
  apply wp_unit; [apply Any; [intros; sim | done] |]. sim_next.
  apply wp_unit; [apply Any; [intros; sim | done] |]. sim_next.
  apply wp_unit; [apply Any; [intros; sim | done] |]. sim_next.
  apply wp_unit; [apply (ok_for_facts (fun t => safe S (ar_entity (ptf_target t)))); try done;
    [intros; apply _ | intros x w' F; exact (fo_projectiles _ _ _ F) | intros d w' I' P; sim] |]. sim_next.
  apply wp_unit; [apply Any; [intros; unfold broadcast_point_visual_effect; sim | done] |]. sim_next.
  apply wp_unit; [apply Any; [intros; unfold broadcast_special_effect; sim | done] |]. sim_next.
  apply wp_unit; [apply (ok_for_facts (fun d w => Forall (fun e => safe S e w) (dsp_recipients d))); try done;
    [intros; apply _ | intros x w' F; exact (fo_despawned _ _ _ F) | intros d w' I' P; sim] |]. sim_next.
  apply (ok_for_facts (fun s => safe S (ar_entity (stc_player s)))); try done;
    [intros; apply _ | intros x w' F; exact (fo_stamina _ _ _ F) | intros d w' I' P; sim].
Qed.

(** ** Rewards *)
Lemma wp_mob_reward e w : Inv S w -> live e w ->
  wp S (mob_exp_reward e) (fun o _ => match o with Some r => is_i64 (mer_base_exp r) | None => True end) w.
Proof.
  intros I L. unfold mob_exp_reward. sim. cbn. pose proof (so_mobs _ _ (inv_shared _ _ I) _ _ E) as [_ M]. exact M.
Qed.
Hint Resolve wp_mob_reward : sim.
Lemma ok_record_claim d w : Inv S w -> ok S (record_claim d) w.
Proof. intros I. unfold record_claim. sim. Qed.
Hint Resolve ok_record_claim : sim.
Lemma ok_record_claims w : Inv S w -> ok S record_mob_death_reward_claims w.
Proof. intros I. unfold record_mob_death_reward_claims. sim. Qed.
(** A reward leaves the level within the table. *)
Lemma reward_level t n current mob_level base outcome : table_wf t n -> n <= i32_max -> is_i64 base ->
  1 <= prog_level current <= n -> LevelExpTable_apply_mob_exp_reward t current mob_level base = Some outcome ->
  1 <= prog_level (mo_progression outcome) <= n.
Proof.
  intros Ht Hn Hb Hl. unfold LevelExpTable_apply_mob_exp_reward.
  destruct (legacy_mob_exp_reward_facts (prog_level current) mob_level base (next_exp_in_level current) Hb) as [R0 R1].
  set (reward := legacy_mob_exp_reward _ _ _ _) in *. destruct (reward <=? 0); [done |].
  destruct (apply_player_exp_gain_inv _ _ current reward Ht Hn R1 Hl) as (p0 & s & _ & -> & [W _ _ _ _ _ _ _ _] & _).
  cbn -[Z.leb]. case_match; [done |]. intros [= <-]. cbn. unfold prog_wf in W. lia.
Qed.
Lemma reward_progression_ok n outcome points player state : 1 <= prog_level (mo_progression outcome) <= n ->
  actor_ok n (Source_Player player) state ->
  exists state' r, reward_progression outcome points (Source_Player player) state = Some (state', r) /\
    actor_ok n (Source_Player player) state'.
Proof.
  intros L A. unfold reward_progression. pose proof (set_player_progression_ok n _ player state A L) as A'.
  case_match; [| eauto].
  destruct (set_stored_stat_ok' n (Source_Player player) Stat.StatPoints
    (sat_i32 (points + mo_stat_points_gained outcome)) _ A') as (s' & r & -> & A''). destruct r; eauto.
Qed.
Lemma fill_resources_ok n source writes (state : ActorStatState unit unit) : actor_ok n source state ->
  exists state' r, fill_resources writes state = Some (state', r) /\ actor_ok n source state'.
Proof.
  revert state. induction writes as [| [stat v] writes IH]; intros state A; cbn [fill_resources]; [eauto |].
  destruct (set_resource_ok n source stat v state A) as (s' & r & -> & A'). destruct r; [by apply IH | eauto].
Qed.
Lemma refill_ok n source (state : ActorStatState unit unit) : actor_ok n source state ->
  exists state' r, refill source state = Some (state', r) /\ actor_ok n source state'.
Proof.
  intros A. unfold refill, api_read_limited. pose proof (ao_source _ _ _ (ao_actor _ _ _ A)) as Hs.
  destruct (read_limited_ok n source state Stat.MaxHp Hs) as [a ->]. cbn [mbind option_bind].
  destruct (read_limited_ok n source state Stat.MaxSp Hs) as [b ->]. cbn [mbind option_bind].
  destruct (read_limited_ok n source state Stat.MaxStamina Hs) as [c ->]. by apply fill_resources_ok.
Qed.
Lemma reward_stats_ok stats outcome : player_stats_ok S stats -> 1 <= prog_level (mo_progression outcome) <= s_levels S ->
  exists stats' r, apply_reward_stats stats outcome = Some (stats', r) /\ player_stats_ok S stats'.
Proof.
  intros [R [p P]] L. unfold apply_reward_stats.
  destruct (with_api_mut_ok _ (reward_progression outcome (runtime_read_packet stats Stat.StatPoints)) stats R) as (s1 & r1 & -> & R1 & E1).
  { rewrite P. intros state A. by apply reward_progression_ok. }
  assert (player_stats_ok S s1) by (split; [done | exists p; congruence]).
  destruct r1; [| by eauto]. case_match; [| by eauto].
  destruct (normalize_ok _ s1 R1) as (s2 & r2 & -> & R2 & E2).
  destruct (with_api_mut_ok _ refill s2 R2) as (s3 & r3 & -> & R3 & E3); [intros state A; by apply refill_ok |].
  do 2 eexists. split; [reflexivity |]. split; [done | exists p; congruence].
Qed.
Lemma ok_exp_reward e r w : Inv S w -> is_i64 (mer_base_exp r) -> ok S (apply_player_exp_reward e r) w.
Proof.
  intros I B. unfold apply_player_exp_reward. sim.
  destruct (so_rules _ _ (inv_shared _ _ I)) as (Ht & Hn & _).
  assert (1 <= prog_level (mo_progression p) <= s_levels S) as L by (by eapply reward_level; [..| exact E]).
  destruct (reward_stats_ok v0 p C0 L) as (stats & x & -> & O). sim.
Qed.
Hint Resolve ok_exp_reward : sim.
Lemma wp_killer_current killer w : Inv S w -> wp S (killer_is_current killer) (fun b w' => if b : bool then live (ar_entity killer) w' else True) w.
Proof. intros I. unfold killer_is_current. sim; by case_match. Qed.
Lemma ok_reward_visuals a k r w : Inv S w -> ok S (update_facts (reward_visuals a k r)) w.
Proof. intros I. apply ok_plain_facts; [| done]. intros x. unfold reward_visuals. repeat case_match; repeat split. Qed.
Hint Resolve wp_killer_current ok_reward_visuals : sim.
Lemma ok_grant a w : Inv S w -> ok S (grant_reward a) w.
Proof. intros I. unfold grant_reward. sim. Qed.
Hint Resolve ok_grant : sim.
Lemma ok_grants w : Inv S w -> ok S grant_mob_death_rewards w.
Proof. intros I. unfold grant_mob_death_rewards. sim. Qed.

(** ** Portals *)
Lemma ok_collect_portals w : Inv S w -> ok S collect_portals w.
Proof. intros I. unfold collect_portals. sim. Qed.
Lemma wp_resolve_player id w : Inv S w ->
  wp S (resolve_player_entity id) (fun o w' => match o with Some e => is_player e w' | None => True end) w.
Proof. intros I. unfold resolve_player_entity. sim. Qed.
Lemma ok_sample_player e now w : Inv S w -> live e w -> ok S (sample_player_position e now) w.
Proof. intros I L. unfold sample_player_position. sim. Qed.
Hint Resolve ok_collect_portals wp_resolve_player ok_sample_player : sim.
(** Whoever is over a portal is a live player. *)
Definition overlaps_ok {A} (m : gmap Entity A) (w : World) : Prop := forall e a, m !! e = Some a -> is_player e w.
#[local] Instance stable_overlaps {A} (m : gmap Entity A) : Stable S (overlaps_ok m).
Proof. intros w w' X O e a E. apply (stable_is_player S e w w' X). by eapply O. Qed.
Lemma wp_overlap_candidate now portal best id w : Inv S w -> overlaps_ok best w ->
  wp S (overlap_candidate now portal best id) (fun best w' => overlaps_ok best w') w.
Proof.
  intros I O. unfold overlap_candidate. sim. case_match; [| done]. intros e' a'. rewrite lookup_insert_Some.
  intros [[<- _] | [_ E']]; [done | by eapply O].
Qed.
Lemma wp_portal_overlaps spatial now best portal w : Inv S w -> overlaps_ok best w ->
  wp S (portal_overlaps spatial now best portal) (fun best w' => overlaps_ok best w') w.
Proof.
  intros I O. unfold portal_overlaps. sim_to_loop.
  apply (wp_fold S (fun _ _ => True) (fun best w => overlaps_ok best w)); [done | apply Forall_any | intros ? ? ? ? ?; done | done |].
  intros b id w1 I1 X1 _ O1. by apply wp_overlap_candidate.
Qed.
Lemma wp_current_overlaps m portals now w : Inv S w -> live m w ->
  wp S (collect_current_player_portal_overlaps m portals now) (fun o w' => overlaps_ok o w') w.
Proof.
  intros I L. unfold collect_current_player_portal_overlaps. sim_to_loop.
  eapply wp_step.
  - apply (wp_fold S (fun _ _ => True) (fun best w => overlaps_ok best w)); [done | apply Forall_any | intros ? ? ? ? ?; done | |].
    + by intros e a; rewrite lookup_empty.
    + intros b portal w1 I1 X1 _ O1. by apply wp_portal_overlaps.
  - sim_on. intros e a'. rewrite lookup_fmap. destruct (_ !! e) eqn:E; [| done]. intros _. by eapply Q.
Qed.
Hint Resolve wp_current_overlaps : sim.
Lemma ok_portals w : Inv S w -> ok S process_portal_entries w.
Proof.
  intros I. unfold process_portal_entries. sim. apply (wp_order S); [done |]. intros order w1 I1 X1 Io. carry_all X1.
  assert (Forall (fun e => is_player e w1) order) as F.
  { apply List.Forall_forall. intros e Ie%list_elem_of_In. apply Io, elem_of_dom in Ie as [o Eo]. by eapply Q. }
  sim.
Qed.

(** ** Idle chat *)
Lemma ok_chat_turn now e delay w : Inv S w -> live e w -> ok S (chat_turn now e delay) w.
Proof. intros I L. unfold chat_turn. sim. Qed.
Hint Resolve ok_chat_turn : sim.
Lemma wp_random_range lo hi w : lo <= hi -> Inv S w -> wp S (with_random (random_range lo hi)) (fun n _ => lo <= n <= hi) w.
Proof. intros L I. apply (wp_random S (random_range lo hi) (fun n => lo <= n <= hi)); [done |]. intros r. by apply random_range_bounds. Qed.
Lemma last_index {A} (l : list A) : bool_decide (l = []) = false -> 0 <= Z.of_nat (length l) - 1.
Proof. intros E%bool_decide_eq_false. destruct l; [done | cbn; lia]. Qed.
Lemma index_in {A} (l : list A) n : 0 <= n <= Z.of_nat (length l) - 1 -> is_Some (l !! Z.to_nat n).
Proof. intros L. apply lookup_lt_is_Some. lia. Qed.
#[local] Hint Resolve wp_random_range | 0 : sim.
Hint Resolve last_index index_in : sim.
Lemma ok_idle_line shared now e mob w : Inv S w -> live e w -> ok S (idle_line shared now e mob) w.
Proof.
  intros I L. unfold idle_line. sim.
Qed.
Hint Resolve ok_idle_line : sim.
Lemma ok_idle_emission shared now found mob w : Inv S w -> live (fst (fst mob)) w -> ok S (idle_emission shared now found mob) w.
Proof. intros I L. unfold idle_emission. destruct mob as [[e m] id]. cbn in L. sim. Qed.
Hint Resolve ok_idle_emission : sim.
Lemma ok_idle_chat w : Inv S w -> ok S emit_idle_chat w.
Proof.
  intros I. unfold emit_idle_chat. sim_to_loop.
  match goal with |- context [omap (chat_mob ?w0) ?l] =>
    assert (Forall (fun mob => live (fst (fst mob)) w0) (omap (chat_mob w0) l)) as Fm end.
  { apply Forall_found. intros e mob Em. unfold chat_mob in Em. destruct (get K_MobRef e _) as [m |] eqn:G; [| done].
    destruct (get K_NetEntityId e _); [| done]. injection Em as <-. by eapply get_live. }
  sim.
Qed.
End Asked.
#[export] Hint Resolve ok_push_command ok_restart_request ok_client_intent ok_global_shout ok_selectable : sim.
#[export] Hint Resolve ok_health_percent ok_health_percent_id ok_select_target ok_broadcast_bar ok_damage_info : sim.
#[export] Hint Resolve ok_send_damage_info ok_set_animation ok_run_attack ok_run_command ok_player_commands : sim.
#[export] Hint Resolve ok_local_chat ok_chat_of ok_project_damage ok_project_projectile ok_project_despawned : sim.
#[export] Hint Resolve ok_project_stamina wp_mob_reward ok_record_claim ok_exp_reward wp_killer_current : sim.
#[export] Hint Resolve ok_reward_visuals ok_grant ok_collect_portals wp_resolve_player ok_sample_player : sim.
#[export] Hint Resolve wp_current_overlaps ok_chat_turn last_index index_in ok_idle_line ok_idle_emission : sim.
