(* ===== verification/SimComing.v ===== *)
(** Mobs and players come and go without a panic, and leave a world that keeps the
    invariant ([SimSpawn], [SimPresence]). *)
From S2P Require Import Prelude Domain StatStore StatSource Progression ActorState StatsApi StatsRecompute Hydrate.
From S2P Require Import StatsSafety Recovery Float CombatTiming Space Entities Persist MapPort Channel Outbox.
From S2P Require Import Replication SimTime Motion Aoi SimTypes SimWorld SimLife SimQuery SimReplication SimPresence.
From S2P Require Import SimSave SimIntents SimSpawn SimSchedule SimSafe SimActors SimUpkeep SimAsked.

(** Entities leave the map without a panic: a player despawned between ticks, a
    corpse cleared away during one ([SimPresence], [SimSpawn]). *)
(** ** What code leaves alone *)
Section Keeps.
Context `{SimEnv}.
Definition keeps {A} (k : CompKind) (e : Entity) (m : Sim A) : Prop := forall w a w', m w = Some (a, w') -> get k e w' = get k e w.
Lemma keeps_done {A} k e (a : A) : keeps k e (done_ a).
Proof. by intros w a' w' [= _ <-]. Qed.
Lemma keeps_bind {A B} k e (m : Sim A) (f : A -> Sim B) : keeps k e m -> (forall a, keeps k e (f a)) -> keeps k e (sim_bind m f).
Proof.
  intros Km Kf w b w' E. unfold sim_bind in E. destruct (m w) as [[a w1] |] eqn:Em; [| done].
  rewrite (Kf a w1 b w' E). by apply (Km w a w1).
Qed.
Lemma keeps_reads {A} k e (f : World -> A) : keeps k e (reads_w f).
Proof. by intros w a' w' [= _ <-]. Qed.
Lemma keeps_write k e k' e' v : k' <> k -> keeps k e (sim_write k' e' v).
Proof. intros N w a w' [= _ <-]. apply get_write_ne. by left. Qed.
Lemma keeps_for_each {A} k e (l : list A) f : (forall a, keeps k e (f a)) -> keeps k e (for_each l f).
Proof. intros Kf. induction l as [| a l IH]; cbn [for_each]; [apply keeps_done |]. apply keeps_bind; [apply Kf | by intros _]. Qed.
Lemma wp_keeps {A} S k e (m : Sim A) w : wp S m (fun _ _ => True) w -> keeps k e m -> wp S m (fun _ w' => get k e w' = get k e w) w.
Proof. intros (a & w' & E & I & X & _) K. exists a, w'. split_and!; try done. by apply (K w a w'). Qed.
End Keeps.
Create HintDb keeps.
#[export] Hint Resolve keeps_done keeps_bind keeps_reads keeps_write keeps_for_each : keeps.
#[export] Hint Extern 1 (_ <> _) => discriminate : keeps.

Section Gone.
Context `{SimEnvLaws} `{!GrowthRngLaws} {S : Setting}.

(** ** Erasing *)
(** Nothing refers to the entity. *)
Record unreferenced (e : Entity) (w : World) : Prop := {
  un_net id : (w_res w R_NetEntityIndex : gmap EntityId Entity) !! id <> Some e;
  un_player p : (w_res w R_PlayerIndex : gmap PlayerId Entity) !! p <> Some e;
  un_graph g : get K_MapReplication (s_map S) w = Some g ->
    exists E, graph_refines g E /\ forall o t, E o t -> exists p, p <> e /\ is_player p w /\ get K_NetEntityId p w = Some o }.

Lemma inv_erase e w : Inv S w -> e <> s_map S -> (s_ticking S = true -> doomed S e w = true) -> unreferenced e w ->
  exists w', erase e w = Some (tt, w') /\ Inv S w' /\ (forall a, cleanup_ok S a w -> cleanup_ok S a w').
Proof.
  intros I Nm D [Un Up Ug]. eexists. split; [reflexivity |]. set (w' := {| w_entities := delete e (w_entities w) |}).
  assert (forall k e', e' <> e -> get k e' w' = get k e' w) as G by (intros k e' N; unfold get; cbn; by rewrite lookup_delete_ne).
  assert (forall k, get k e w' = None) as Ge by (intros k; unfold get; cbn; by rewrite lookup_delete_eq).
  assert (forall e', live e' w' <-> live e' w /\ e' <> e) as L.
  { intros e'. unfold live. cbn. rewrite lookup_delete_is_Some. intuition. }
  assert (forall e', e' <> e -> doomed S e' w' = doomed S e' w) as De by (intros e' N; unfold doomed; by rewrite G).
  assert (forall e', safe S e' w -> s_ticking S = true -> safe S e' w') as Sf.
  { intros e' [Le Dd] T. assert (e' <> e) by (intros ->; rewrite D in Dd by done; discriminate).
    split; [by apply L | by rewrite De]. }
  assert (forall a, cleanup_ok S a w -> cleanup_ok S a w') as Cl.
  { intros a [Na C]. split; [done |]. intros [Le N]%L. rewrite De, !G by done. auto. }
  assert (forall p, is_player p w' <-> is_player p w /\ p <> e) as P.
  { intros p. unfold is_player. destruct (decide (p = e)) as [-> | N]; [rewrite Ge | rewrite G by done]; [| tauto].
    split; [by intros [? ?] | by intros [_ ?]]. }
  split; [split |]; try done; try apply I.
  - intros e' [Le _]%L. cbn. by apply (inv_next _ _ I).
  - intros e' b Eb. cbn in Eb. apply lookup_delete_Some in Eb as [_ Eb]. by eapply inv_bundle.
  - intros r. pose proof (inv_res _ _ I r) as R. destruct r; try exact R.
    + intros p e' E. change ((w_res w R_PlayerIndex : gmap PlayerId Entity) !! p = Some e') in E.
      rewrite G; [by apply R |]. intros ->. by apply (Up p).
    + intros id e' E. change ((w_res w R_NetEntityIndex : gmap EntityId Entity) !! id = Some e') in E.
      rewrite G; [by apply R |]. intros ->. by apply (Un id).
    + cbn in R |- *. unfold facts_inv in *. destruct (s_ticking S) eqn:T; [| done]. destruct R as [F1 F2 F3 F4 F5]. split.
      * eapply Forall_impl; [exact F1 |]. intros d []. eauto.
      * eapply Forall_impl; [exact F2 |]. eauto.
      * eapply Forall_impl; [exact F3 |]. intros d F. eapply Forall_impl; [exact F |]. eauto.
      * eapply Forall_impl; [exact F4 |]. eauto.
      * eapply Forall_impl; [exact F5 |]. eauto.
  - eapply Forall_impl; [apply (inv_map _ _ I) |]. intros k. by rewrite G by congruence.
  - rewrite !G by congruence. apply I.
  - intros g. rewrite G by congruence. intros Eg. destruct (Ug g Eg) as (E & R & O). exists E. split; [done |].
    intros o t Eo. destruct (O o t Eo) as (p & Np & Pp & Np'). exists p. split; [by apply P | by rewrite G].
  - intros rules U. rewrite G by congruence. by apply (inv_rules _ _ I).
  - intros e' id T (p & [Pp Np]%P & Gp) Dd E.
    assert (e' <> e) by (intros ->; unfold doomed in Dd; by rewrite Ge in Dd).
    rewrite De in Dd by done. rewrite G in E, Gp by done. apply (inv_distinct _ _ I e' id T); [by exists p | done..].
Qed.

(** ** The indexes *)
Lemma ok_forget_net id w : Inv S w -> ok S (update_resource R_NetEntityIndex (delete id)) w.
Proof.
  intros I. apply ok_update; [done |]. intros id' e E.
  change (delete id (w_res w R_NetEntityIndex : gmap EntityId Entity) !! id' = Some e) in E.
  apply lookup_delete_Some in E as [_ E]. by apply (inv_res _ _ I R_NetEntityIndex).
Qed.
Lemma ok_forget_player p w : Inv S w -> ok S (update_resource R_PlayerIndex (delete p)) w.
Proof.
  intros I. apply ok_update; [done |]. intros p' e E.
  change (delete p (w_res w R_PlayerIndex : gmap PlayerId Entity) !! p' = Some e) in E.
  apply lookup_delete_Some in E as [_ E]. by apply (inv_res _ _ I R_PlayerIndex).
Qed.
Lemma ok_index_player p e w : Inv S w -> get K_PlayerMarker e w = Some p ->
  ok S (update_resource R_PlayerIndex (<[p := e]>)) w.
Proof.
  intros I G. apply ok_update; [done |]. intros p' e' E.
  change (<[p := e]> (w_res w R_PlayerIndex : gmap PlayerId Entity) !! p' = Some e') in E.
  apply lookup_insert_Some in E as [[<- <-] | [_ E]]; [done |]. by apply (inv_res _ _ I R_PlayerIndex).
Qed.

(** ** Code that lets entities go *)
Definition gone (m : Sim unit) (w : World) : Prop :=
  exists w', m w = Some (tt, w') /\ Inv S w' /\ (forall a, cleanup_ok S a w -> cleanup_ok S a w').
Lemma gone_ok m w : ok S m w -> gone m w.
Proof. intros ([] & w' & E & I & X & _). exists w'. split_and!; try done. intros a. by apply stable_cleanup. Qed.
Lemma gone_read {A} (m : Sim A) (a : A) k w : m w = Some (a, w) -> gone (k a) w -> gone (sim_bind m k) w.
Proof. intros E (w' & E' & R). exists w'. split; [| done]. unfold sim_bind. by rewrite E. Qed.
Lemma gone_after {A} (m : Sim A) (Q : A -> World -> Prop) k w : wp S m Q w ->
  (forall a w1, Inv S w1 -> ext S w w1 -> Q a w1 -> gone (k a) w1) -> gone (sim_bind m k) w.
Proof.
  intros (a & w1 & E & I & X & HQ) HK. destruct (HK a w1 I X HQ) as (w2 & E2 & I2 & C2). exists w2.
  unfold sim_bind. rewrite E. split_and!; try done. intros c Hc. apply C2. by apply (stable_cleanup S c w w1 X).
Qed.
Lemma gone_unit (m k : Sim unit) w : ok S m w -> (forall w1, Inv S w1 -> ext S w w1 -> gone k w1) -> gone (m ;; k) w.
Proof. intros O HK. apply (gone_after m (fun _ _ => True)); [done | auto]. Qed.
Lemma gone_before (m k : Sim unit) w : gone m w -> (forall w1, Inv S w1 -> gone k w1) -> gone (m ;; k) w.
Proof.
  intros (w1 & E & I & C) HK. destruct (HK w1 I) as (w2 & E2 & I2 & C2). exists w2. unfold sim_bind. rewrite E.
  split_and!; try done. auto.
Qed.
Lemma gone_erase e w : Inv S w -> e <> s_map S -> (s_ticking S = true -> doomed S e w = true) -> unreferenced e w -> gone (erase e) w.
Proof. apply inv_erase. Qed.

(** *** A corpse *)
Definition corpse (e : Entity) (id : EntityId) (w : World) : Prop :=
  doomed S e w = true /\ get K_PlayerMarker e w = None /\ get K_NetEntityId e w = Some id.
Lemma corpse_ext e id w w' : ext S w w' -> corpse e id w -> corpse e id w'.
Proof.
  intros X (D & P & N). pose proof (get_live _ _ _ _ N) as L. unfold corpse.
  by rewrite (ext_doomed _ _ _ X), !(ext_kept _ _ _ X) by done.
Qed.
#[export] Instance stable_corpse e id : Stable S (corpse e id).
Proof. intros w w' X. by apply corpse_ext. Qed.
Lemma corpse_not_map e id w : Inv S w -> corpse e id w -> e <> s_map S.
Proof. intros I (_ & _ & N) ->. destruct (inv_map_actor _ _ I) as [_ N']. congruence. Qed.
Lemma corpse_unreferenced e id w : Inv S w -> corpse e id w -> (w_res w R_NetEntityIndex : gmap EntityId Entity) !! id = None ->
  unreferenced e w.
Proof.
  intros I (D & P & N) U. split.
  - intros id' E. pose proof (inv_res _ _ I R_NetEntityIndex id' e E) as N'. congruence.
  - intros p E. pose proof (inv_res _ _ I R_PlayerIndex p e E) as P'. congruence.
  - intros g Eg. destruct (inv_graph _ _ I g Eg) as (E & R & O). exists E. split; [done |]. intros o t Eo.
    destruct (O o t Eo) as (p & Pp & Np). exists p. split_and!; try done. intros ->. destruct Pp. congruence.
Qed.
Lemma gone_corpse_tail e id w : Inv S w -> corpse e id w ->
  gone (update_resource R_NetEntityIndex (delete id) ;; despawn e ;; mark_map_dirty) w.
Proof.
  intros I C. destruct (ok_forget_net id w I) as (u & w1 & E & I1 & X1 & _).
  apply (gone_after _ (fun _ w' => (w_res w' R_NetEntityIndex : gmap EntityId Entity) !! id = None)).
  { exists u, w1. split_and!; try done. injection E as _ <-. rewrite res_set_eq.
    change (delete id (w_res w R_NetEntityIndex : gmap EntityId Entity) !! id = None). apply lookup_delete_eq. }
  clear u w1 E I1 X1. intros u w1 I1 X1 U. pose proof (corpse_ext e id w w1 X1 C) as C1.
  apply gone_before; [| intros w2 I2; by apply gone_ok, ok_mark_map_dirty]. unfold despawn.
  pose proof C1 as (D & P & N). apply (gone_read _ true).
  { unfold entity_alive, reads_w. by rewrite (proj2 (contains_live e w1) (get_live _ _ _ _ N)). }
  apply (gone_read _ None); [unfold query_get, reads_w; by rewrite P |]. cbn [negb bool_decide when].
  apply (gone_read _ tt); [done |]. apply gone_erase; [done | by eapply corpse_not_map | done |]. by eapply corpse_unreferenced.
Qed.
Lemma recipients_safe observers w : s_ticking S = true -> Inv S w -> Forall (fun o => named_player o w) observers ->
  Forall (fun e => safe S e w) (omap (fun id => (w_res w R_NetEntityIndex : gmap EntityId Entity) !! id) observers).
Proof.
  intros T I F. apply List.Forall_forall. intros e (o & Io & E)%list_elem_of_In%list_elem_of_omap.
  rewrite Forall_forall in F. pose proof (inv_res _ _ I R_NetEntityIndex o e E) as N. split; [by eapply get_live |].
  destruct (doomed S e w) eqn:D; [| done]. exfalso. by apply (inv_distinct _ _ I e o T (F o Io) D).
Qed.
Lemma target_observers t g w : graph_ok g w -> Forall (fun o => named_player o w) (fst (remove_target t g)).
Proof.
  intros (E & R & O). pose proof (graph_step_refines (RemoveTarget t) g E R) as G. cbn [graph_step] in G.
  destruct (remove_target t g) as [observers g']. destruct G as [_ [_ Told]]. apply List.Forall_forall.
  intros o Io%list_elem_of_In. apply (O o t). by apply Told.
Qed.
Lemma release_slot_length id now i rules rules' entry : release_slot id now i rules = Some (rules', entry) -> length rules' = length rules.
Proof.
  revert i rules'. induction rules as [| r rules IH]; intros i rules' E; [done |]. cbn in E. case_decide; [by injection E as <- _ |].
  destruct (release_slot id now (Datatypes.S i) rules) as [[rest e] |] eqn:Er; [| done]. injection E as <- <-. cbn. by rewrite (IH _ _ Er).
Qed.
Lemma ok_release_slot m id w : s_rules S = None -> Inv S w -> live m w ->
  ok S (modify K_MapSpawnRules m (release_mob_spawn_slot id (s_now S))) w.
Proof.
  intros N I L. apply ok_modify; [done.. |]. intros v _ C. split_and!; [| done | done]. cbn in C |- *. rewrite <- C.
  unfold release_mob_spawn_slot. destruct (release_slot _ _ _ _) as [[rules entry] |] eqn:E; [| done].
  by eapply release_slot_length.
Qed.
Lemma ok_push_despawned d w : s_ticking S = true -> Inv S w -> Forall (fun e => safe S e w) (dsp_recipients d) ->
  ok S (update_facts (push_despawned d)) w.
Proof.
  intros T I F. apply ok_update_facts; [done |]. intros x R. unfold facts_inv in *. rewrite T in *. destruct R as [F1 F2 F3 F4 F5].
  split; try done. cbn. by apply Forall_push.
Qed.
Lemma gone_mob actor w : s_ticking S = true -> s_rules S = None -> Inv S w -> cleanup_ok S actor w -> gone (destroy_mob_entity actor) w.
Proof.
  intros T Nr I [_ C]. unfold destroy_mob_entity. destruct (decide (live (ar_entity actor) w)) as [L | L].
  2: { apply (gone_read _ false); [| by apply gone_ok, wp_done]. unfold entity_alive, reads_w.
       destruct (contains (ar_entity actor) w) eqn:E; [| done]. by apply contains_live in E. }
  specialize (C L). change (corpse (ar_entity actor) (ar_id actor) w) in C.
  apply (gone_read _ true); [unfold entity_alive, reads_w; by rewrite (proj2 (contains_live _ w) L) |]. cbn [negb].
  destruct (inv_res _ _ I R_Runtime) as [M Hn]. cbn in M, Hn. apply (gone_read _ (w_res w R_Runtime)); [done |]. rewrite M, Hn.
  destruct (inv_map_comp _ _ K_MapReplication I) as [g G]; [by right; left |].
  apply (gone_read _ (Some g)); [unfold entity_get; rewrite (proj2 (contains_live _ w) (map_live _ _ I)); by rewrite G |].
  pose proof (inv_graph _ _ I g G) as Gr. pose proof (target_observers (ar_id actor) g w Gr) as Ob.
  pose proof (remove_target_ok (ar_id actor) g w Gr) as Gr'. destruct (remove_target (ar_id actor) g) as [observers g'].
  cbn [fst snd] in Ob, Gr'. clear Gr G L M Hn.
  apply gone_unit; [by apply ok_write_graph | sim_next]. do 3 (apply gone_unit; [apply ok_modify_plain; sim_side | sim_next]).
  apply gone_unit; [apply ok_release_slot; sim_side | sim_next]. eapply gone_read; [done |].
  apply gone_unit; [apply ok_push_despawned; [done.. |]; by apply recipients_safe | sim_next]. by apply gone_corpse_tail.
Qed.
Lemma gone_cleanup w : s_ticking S = true -> s_rules S = None -> Inv S w -> gone process_cleanup_events w.
Proof.
  intros T Nr I. unfold process_cleanup_events. apply (gone_read _ (w_res w R_FrameFacts)); [done |].
  pose proof (inv_res _ _ I R_FrameFacts) as F. cbn in F. unfold facts_inv in F. rewrite T in F. apply fo_cleanup in F. revert F.
  generalize (lf_cleanup_due (ff_life (w_res w R_FrameFacts))). intros l.
  induction l as [| a l IH] in w, I |- *; intros F; cbn [for_each]; [by apply gone_ok, wp_done |]. apply Forall_cons in F as [Fa F].
  destruct (gone_mob a w T Nr I Fa) as (w1 & E & I1 & C1). destruct (IH w1 I1) as (w2 & E2 & I2 & C2).
  - eapply Forall_impl; [exact F | exact C1].
  - exists w2. unfold sim_bind. rewrite E. split_and!; try done. auto.
Qed.

(** *** A player *)
Lemma ok_tell_despawn e id o w : Inv S w -> ok S (tell_despawn e id o) w.
Proof. intros I. unfold tell_despawn. sim. Qed.
Lemma keeps_tell_despawn m e id o : keeps K_MapReplication m (tell_despawn e id o).
Proof. unfold tell_despawn, resource, query_get. repeat first [case_match | apply keeps_bind; intros | by auto with keeps]. Qed.
Hint Resolve ok_tell_despawn : sim.
Hint Resolve keeps_tell_despawn : keeps.
(** No one observes under the id. *)
Definition unobserving (id : EntityId) (w : World) : Prop :=
  forall g, get K_MapReplication (s_map S) w = Some g -> exists E, graph_refines g E /\ forall o t, E o t -> named_player o w /\ o <> id.
Lemma unobserving_keeps id w w' : ext S w w' -> get K_MapReplication (s_map S) w' = get K_MapReplication (s_map S) w ->
  unobserving id w -> unobserving id w'.
Proof.
  intros X G U g. rewrite G. intros Eg. destruct (U g Eg) as (E & R & O). exists E. split; [done |]. intros o t Eo.
  destruct (O o t Eo) as [P N]. split; [| done]. by apply (stable_player_id S o w w').
Qed.
Lemma forgotten_graph id g w : graph_ok g w ->
  exists E, graph_refines (snd (remove_target id (snd (remove_observer id g)))) E /\ forall o t, E o t -> named_player o w /\ o <> id.
Proof.
  intros (E & R & O). pose proof (graph_step_refines (RemoveObserver id) g E R) as G1. cbn [graph_step] in G1.
  destruct (remove_observer id g) as [l1 g1]. destruct G1 as [R1 _]. pose proof (graph_step_refines (RemoveTarget id) g1 _ R1) as G2.
  cbn [graph_step snd] in G2 |- *. destruct (remove_target id g1) as [l2 g2]. destruct G2 as [R2 _]. eexists. split; [exact R2 |].
  intros o t [[Eo N] _]. split; [by apply (O o t) | done].
Qed.
Lemma wp_forget e p id w : Inv S w -> wp S (forget_player_on_map (s_map S) e p id) (fun _ w' => unobserving id w') w.
Proof.
  intros I. unfold forget_player_on_map.
  assert (forall {B} k (f : option (comp k) -> Sim B) Q, In k map_components ->
    (forall v, get k (s_map S) w = Some v -> wp S (f (Some v)) Q w) -> wp S (sim_bind (query_get k (s_map S)) f) Q w) as Get.
  { intros B k f Q Ik HK. apply wp_query_get; [done |]. intros o [G _]. destruct (inv_map_comp _ _ k I Ik) as [v Gv].
    rewrite Gv in G. subst o. by apply HK. }
  apply Get; [cbn; tauto | intros spatial _]. apply Get; [cbn; tauto | intros g Eg]. apply Get; [cbn; tauto | intros chats _].
  apply Get; [cbn; tauto | intros movements _]. apply Get; [cbn; tauto | intros states _]. clear Get.
  pose proof (forgotten_graph id g w (inv_graph _ _ I g Eg)) as U. pose proof (remove_observer_ok id g w (inv_graph _ _ I g Eg)) as G1.
  destruct (remove_observer id g) as [l1 g1]. cbn [snd] in U, G1. pose proof (remove_target_ok id g1 w G1) as G2.
  destruct (remove_target id g1) as [observers g2]. cbn [snd] in U, G2.
  apply (wp_step S _ _ (fun _ w' => unobserving id w')).
  { destruct (ok_write_graph (s_map S) g2 w I G2) as (u & w' & E & I' & X & _). exists u, w'. split_and!; try done.
    injection E as _ <-. intros g' Eg'. rewrite get_write_eq in Eg' by (by apply map_live). injection Eg' as <-.
    destruct U as (E & R & O). exists E. split; [done |]. intros o t Eo. destruct (O o t Eo) as [P N]. split; [| done].
    by apply (stable_player_id S o _ _ X). }
  intros _ w1 I1 _ U1. clear dependent w. rename w1 into w, I1 into I, U1 into U.
  assert (forall (m k : Sim unit) w, unobserving id w -> ok S m w -> keeps K_MapReplication (s_map S) m ->
    (forall w1, Inv S w1 -> unobserving id w1 -> wp S k (fun _ w' => unobserving id w') w1) ->
    wp S (m ;; k) (fun _ w' => unobserving id w') w) as Step.
  { intros m k w0 U0 O K HK. eapply wp_step; [by apply wp_keeps |]. intros u w1 I1 X1 G1. cbn in G1.
    apply HK; [done |]. by eapply unobserving_keeps. }
  do 4 (apply Step; [done | sim_side | auto with keeps | clear dependent w; intros w I U]).
  eapply wp_mono; [apply wp_keeps; [sim | auto with keeps] |]. intros u w1 _ X1 G1. cbn in G1. by eapply unobserving_keeps.
Qed.
Lemma wp_forget_indexes p id w : Inv S w ->
  wp S (update_resource R_PlayerIndex (delete p) ;; update_resource R_NetEntityIndex (delete id) ;;
        count <~ resource R_PlayerCount; let count := Z.max (count - 1) 0 in
        set_resource_ R_PlayerCount count ;; update_resource R_Runtime (with_dirty (0 <? count)))
    (fun _ w' => (forall k e, get k e w' = get k e w) /\ (w_res w' R_PlayerIndex : gmap PlayerId Entity) !! p = None /\
                 (w_res w' R_NetEntityIndex : gmap EntityId Entity) !! id = None) w.
Proof.
  intros I.
  assert (forall A (m : Sim A) (k : A -> Sim unit) Q w, ok S m w ->
    (forall a w1, m w = Some (a, w1) -> Inv S w1 -> wp S (k a) Q w1) -> wp S (sim_bind m k) Q w) as Step.
  { intros A m k Q w0 (a & w1 & E & I1 & X1 & _) HK. apply (wp_step S _ _ (fun a' w' => (a', w') = (a, w1))); [by exists a, w1 |].
    intros a' w' _ _ [= -> ->]. by apply HK. }
  apply Step; [by apply ok_forget_player |]. intros u w1 E1 I1. apply Step; [by apply ok_forget_net |]. intros u2 w2 E2 I2.
  apply wp_resource; [done |]. intros count _. cbv zeta. apply Step; [by apply ok_set_plain |]. intros u3 w3 E3 I3.
  assert (ok S (update_resource R_Runtime (with_dirty (0 <? Z.max (count - 1) 0))) w3) as (u4 & w4 & E4 & I4 & X4 & _) by by apply ok_runtime.
  exists u4, w4. split_and!; try done; injection E4 as _ <-; injection E3 as _ <-; injection E2 as _ <-; injection E1 as _ <-.
  - done.
  - rewrite !res_set_ne, res_set_eq by done. change (delete p (w_res w R_PlayerIndex : gmap PlayerId Entity) !! p = None). apply lookup_delete_eq.
  - rewrite !res_set_ne, res_set_eq by done. change (delete id (w_res w R_NetEntityIndex : gmap EntityId Entity) !! id = None). apply lookup_delete_eq.
Qed.
Lemma gone_despawn e w : s_ticking S = false -> Inv S w -> is_player e w -> gone (despawn e) w.
Proof.
  intros T I [p P]. destruct (player_has_net e w I) as [id N]; [by exists p |]. unfold despawn.
  apply (gone_read _ true).
  { unfold entity_alive, reads_w. by rewrite (proj2 (contains_live e w) (get_live _ _ _ _ N)). }
  apply (gone_read _ (Some p)); [unfold query_get, reads_w; by rewrite P |]. cbn [negb].
  rewrite bool_decide_eq_true_2 by (by eexists). cbn [when]. unfold on_player_removed.
  assert (wp S (forget_player_on_map (s_map S) e p id ;;
    update_resource R_PlayerIndex (delete p) ;; update_resource R_NetEntityIndex (delete id) ;;
    count <~ resource R_PlayerCount; let count := Z.max (count - 1) 0 in
    set_resource_ R_PlayerCount count ;; update_resource R_Runtime (with_dirty (0 <? count))) (fun _ w' => unreferenced e w') w) as Forget.
  { eapply wp_step; [by apply wp_forget |]. intros u w1 I1 X1 U1. cbn in U1. rewrite <- (ext_kept _ _ _ X1) in P, N by eauto using get_live.
    clear X1 I. eapply wp_mono; [by apply (wp_forget_indexes p id) |]. intros u2 w2 I2 X2 (G & Ip & In_). cbn in G. rewrite <- G in P, N.
    assert (unobserving id w2) as U2 by (eapply unobserving_keeps; [done | apply G | done]). split.
    - intros id' E. pose proof (inv_res _ _ I2 R_NetEntityIndex id' e E). congruence.
    - intros p' E. pose proof (inv_res _ _ I2 R_PlayerIndex p' e E). congruence.
    - intros g Eg. destruct (U2 g Eg) as (E & R & O). exists E. split; [done |]. intros o t Eo. destruct (O o t Eo) as [(q & Pq & Nq) No].
      exists q. split_and!; try done. intros ->. congruence. }
  eapply (gone_after _ (fun _ w' => unreferenced e w')).
  - eapply wp_read; [unfold query_get, reads_w; by rewrite P |]. eapply wp_read; [unfold query_get, reads_w; by rewrite N |].
    apply wp_runtime; [done |]. intros s M _. rewrite M. exact Forget.
  - intros u w1 I1 X1 U1. apply gone_erase; [done | | by rewrite T | done]. intros ->.
    destruct (inv_map_actor _ _ I) as [Pm _]. congruence.
Qed.
End Gone.

(** Mobs and players come and go without a panic, and leave a world that keeps the
    invariant ([SimSpawn], [SimPresence]). *)
(** ** Another setting of the same world *)
Section Settings.
Context `{SimEnv}.
(** The facts of one setting under another of the same instant. *)
Lemma bundle_ok_same S S' b : s_levels S' = s_levels S -> s_config S' = s_config S -> bundle_ok S b -> bundle_ok S' b.
Proof.
  intros L C [B1 B2 B3]. split; [| done | done]. intros k v E. specialize (B1 k v E). unfold comp_ok, player_stats_ok in *.
  destruct k; try done; by rewrite ?L, ?C.
Qed.
Lemma doomed_same S S' e w : s_now S' = s_now S -> doomed S' e w = doomed S e w.
Proof. intros N. unfold doomed. by rewrite N. Qed.
Lemma safe_same S S' e w : s_now S' = s_now S -> safe S e w -> safe S' e w.
Proof. intros N [L D]. split; [done |]. by rewrite (doomed_same S). Qed.
Lemma facts_ok_same S S' x w : s_now S' = s_now S -> facts_ok S x w -> facts_ok S' x w.
Proof.
  intros N [F1 F2 F3 F4 F5]. split.
  - eapply Forall_impl; [exact F1 |]. intros d []. eauto using safe_same.
  - eapply Forall_impl; [exact F2 |]. intros d. by apply safe_same.
  - eapply Forall_impl; [exact F3 |]. intros d F. eapply Forall_impl; [exact F |]. intros e. by apply safe_same.
  - eapply Forall_impl; [exact F4 |]. intros d. by apply safe_same.
  - eapply Forall_impl; [exact F5 |]. intros a [L C]. split; [done |]. by rewrite (doomed_same S).
Qed.
Lemma ext_same S S' w w' : s_now S' = s_now S -> ext S w w' -> ext S' w w'.
Proof.
  intros N [X1 X2 X3 X4 X5]. split; [exact X1 | exact X2 | | exact X4 | exact X5].
  intros e L. rewrite !(doomed_same S S') by done. auto.
Qed.
(** The invariant under a setting that agrees on all that stays. *)
Lemma inv_setting S S' w : Inv S w -> s_map S' = s_map S -> s_levels S' = s_levels S -> s_shared S' = s_shared S ->
  s_config S' = s_config S -> 0 <= s_now S' < u64_max ->
  sim_now (w_res w R_Runtime) = s_now S' -> facts_inv S' (w_res w R_FrameFacts) w ->
  (forall e id, s_ticking S' = true -> named_player id w -> doomed S' e w = true -> get K_NetEntityId e w <> Some id) ->
  (forall rules, s_rules S' = Some rules -> get K_MapSpawnRules (s_map S) w = Some rules) -> Inv S' w.
Proof.
  intros I M L Sh C N Rn F D U. split; try done; rewrite ?M, ?L, ?Sh, ?C; try apply I; try done.
  - intros e b E. eapply bundle_ok_same; [done | done |]. by eapply inv_bundle.
  - intros r. pose proof (inv_res _ _ I r) as R. destruct r; cbn in *; try done.
    + rewrite M. by split; [apply R |].
    + by rewrite Sh.
    + by rewrite C.
Qed.
End Settings.

(** ** Holding the spawn rules still *)
Definition with_rules (o : option MapSpawnRules) (S : Setting) : Setting :=
  {| s_ticking := s_ticking S; s_map := s_map S; s_now := s_now S; s_levels := s_levels S; s_shared := s_shared S;
     s_config := s_config S; s_rules := o |}.
Section Rules.
Context `{SimEnv} {S : Setting}.
Lemma inv_with_rules o w : Inv S w -> (forall rules, o = Some rules -> get K_MapSpawnRules (s_map S) w = Some rules) ->
  Inv (with_rules o S) w.
Proof.
  intros I R. apply (inv_setting S); try done; [apply I | by destruct (inv_res _ _ I R_Runtime) | | apply (inv_distinct _ _ I)].
  pose proof (inv_res _ _ I R_FrameFacts) as F. cbn in F. unfold facts_inv in *. cbn. destruct (s_ticking S); [| done].
  by eapply facts_ok_same; [| exact F].
Qed.
Lemma inv_any_rules o w : Inv (with_rules o S) w -> s_rules S = None -> Inv S w.
Proof.
  intros I N. apply (inv_setting (with_rules o S)); try done; [apply I | by destruct (inv_res _ _ I R_Runtime) | | apply (inv_distinct _ _ I) | by rewrite N].
  pose proof (inv_res _ _ I R_FrameFacts) as F. cbn in F. unfold facts_inv in *. cbn in F. destruct (s_ticking S); [| done].
  by eapply facts_ok_same; [| exact F].
Qed.
(** A step that leaves the rules alone: proved with the rules held still. *)
Lemma wp_same_rules {A} (m : Sim A) rules w : s_rules S = None -> Inv S w -> get K_MapSpawnRules (s_map S) w = Some rules ->
  (Inv (with_rules (Some rules) S) w -> ok (with_rules (Some rules) S) m w) ->
  wp S m (fun _ w' => get K_MapSpawnRules (s_map S) w' = Some rules) w.
Proof.
  intros N I G O. destruct O as (a & w' & E & I' & X & _); [apply inv_with_rules; [done | by intros ? [= <-]] |].
  exists a, w'. split; [done |]. split; [by eapply inv_any_rules |]. split; [by eapply ext_same; [| exact X] |].
  by apply (inv_rules _ _ I').
Qed.
End Rules.

Section Spawning.
Context `{SimEnvLaws} `{!GrowthRngLaws} {S : Setting}.

(** ** One mob *)
Lemma fill_mob_hp_ok n source state : actor_ok n source state ->
  exists state' t, fill_mob_hp source state = Some (state', t) /\ actor_ok n source state'.
Proof.
  intros A. unfold fill_mob_hp. destruct (api_sync_ok n _ state A) as (s1 & sync & -> & A1 & _). unfold api_read_limited.
  destruct (read_limited_ok n source s1 Stat.MaxHp (ao_source _ _ _ A)) as [v ->].
  destruct (set_resource_ok n _ Stat.Hp v s1 A1) as (s2 & r & -> & A2). eauto.
Qed.
Lemma mob_stats_ok n proto : 1 <= n <= i32_max -> mob_content_ok proto ->
  exists stats, mob_stats_from_proto proto = Some stats /\ runtime_ok n stats.
Proof.
  intros Hn [Hp _]. unfold mob_stats_from_proto.
  assert (source_ok n (mob_stat_source proto)) as So.
  { cbn. split; [split; [lia |] |]. - unfold_widths; lia. - split; cbn; lia. }
  assert (runtime_ok n (ActorStatsRuntime_new (mob_stat_source proto) (ActorStatState_new ActorKind_Mob))) as R.
  { split; [by apply new_mob_ok |]. vm_compute. split_and!; discriminate. }
  destruct (with_api_mut_ok n fill_mob_hp _ R) as (r & t & -> & R' & _); [| by eexists].
  intros state A. by apply fill_mob_hp_ok.
Qed.
Lemma levels_ok w : Inv S w -> 1 <= s_levels S <= i32_max.
Proof. intros I. destruct (so_rules _ _ (inv_shared _ _ I)) as ((? & _) & ? & _). done. Qed.
Lemma ok_new_id w : Inv S w -> ok S new_entity_id w.
Proof.
  intros I. unfold new_entity_id. apply wp_runtime; [done |]. intros s M N. unfold next_entity_id. cbv zeta.
  apply wp_unit; [by apply ok_set_runtime | sim_next; sim].
Qed.
Lemma ok_first_wander shared proto w : Inv S w -> ok S (first_wander shared proto) w.
Proof. intros I. unfold first_wander. sim. Qed.
Hint Resolve ok_new_id ok_first_wander : sim.
Lemma mob_spawn_ok id mob stats pos rot at_ : runtime_ok (s_levels S) stats -> spawn_ok S (mob_bundle id mob stats pos rot at_).
Proof.
  intros R. split; [split |].
  - intros k v E. destruct k; try done. by injection E as <-.
  - by intros [? ?].
  - by intros [? ?].
  - intros _. split; [done |]. by intros phase [= <-].
Qed.
Lemma ok_index id e w : Inv S w -> get K_NetEntityId e w = Some id ->
  ok S (update_resource R_NetEntityIndex (<[id := e]>)) w.
Proof.
  intros I G. apply ok_update; [done |]. intros id' e' E.
  change (<[id := e]> (w_res w R_NetEntityIndex : gmap EntityId Entity) !! id' = Some e') in E.
  apply lookup_insert_Some in E as [[<- <-] | [_ E]]; [done |]. by apply (inv_res _ _ I R_NetEntityIndex).
Qed.
Hint Resolve ok_index : sim.
Lemma wp_spawn_mob id mob stats pos rot at_ w : Inv S w -> runtime_ok (s_levels S) stats ->
  wp S (spawn_bundle (mob_bundle id mob stats pos rot at_)) (fun e w' => get K_NetEntityId e w' = Some id) w.
Proof.
  intros I R. eapply wp_mono; [by apply wp_spawn, mob_spawn_ok |]. intros e w' _ _ [_ G]. by rewrite G.
Qed.
Hint Resolve wp_spawn_mob : sim.
Lemma ok_spawn_mob m mob pos rot pack w : Inv S w -> live m w -> ok S (spawn_one_mob m (s_shared S) mob pos rot pack) w.
Proof.
  intros I L. unfold spawn_one_mob. sim_to_loop.
  destruct (mob_stats_ok (s_levels S) m0 (levels_ok w I)) as (stats & -> & R); [by eapply (so_mobs _ _ (inv_shared _ _ I)) |].
  sim.
Qed.
Hint Resolve ok_spawn_mob : sim.
Lemma ok_next_pack w : Inv S w -> ok S next_pack w.
Proof. intros I. unfold next_pack. sim. apply wp_unit; [by apply ok_set_runtime | sim_next; sim]. Qed.
Lemma ok_spawn_members m rule bounds nav pack mobs previous spawned w : Inv S w -> live m w ->
  ok S (spawn_members m (s_shared S) rule bounds nav pack mobs previous spawned) w.
Proof.
  revert previous spawned w. induction mobs as [| mob mobs IH]; intros previous spawned w I L; cbn [spawn_members]; [by apply wp_done |].
  sim; by apply IH.
Qed.
Hint Resolve ok_next_pack ok_spawn_members : sim.
Lemma ok_spawn_template m rule w : Inv S w -> live m w -> ok S (spawn_one_template m (s_shared S) rule) w.
Proof. intros I L. unfold spawn_one_template. sim. Qed.
End Spawning.

(** ** The rules of the map *)
Section Schedule.
Context `{SimEnvLaws} `{!GrowthRngLaws} {S : Setting}.
Notation has_rules rules w := (get K_MapSpawnRules (s_map S) w = Some rules).
Lemma rules_length rules w : Inv S w -> has_rules rules w -> length (msr_rules rules) = length (mcfg_spawn_rules (s_config S)).
Proof. intros I G. by pose proof (inv_comp _ _ _ _ _ I G). Qed.
Lemma wp_rules {B} rules (k : _ -> Sim B) Q w : Inv S w -> has_rules rules w ->
  wp S (k (Some rules)) Q w -> wp S (sim_bind (spawn_rules_of (s_map S)) k) Q w.
Proof.
  intros I G HK. unfold spawn_rules_of. apply (wp_get S K_MapSpawnRules); [done | by apply map_live |]. intros o [E _]. rewrite G in E. by subst o.
Qed.
Lemma wp_template rule rules w : s_rules S = None -> Inv S w -> has_rules rules w ->
  wp S (spawn_one_template (s_map S) (s_shared S) rule) (fun _ w' => has_rules rules w') w.
Proof.
  intros N I G. apply wp_same_rules; [done.. |]. intros I'.
  apply (ok_spawn_template (S := with_rules (Some rules) S)); [done |]. by apply (map_live (with_rules (Some rules) S)).
Qed.
Lemma wp_write_rules rules w : s_rules S = None -> Inv S w -> length (msr_rules rules) = length (mcfg_spawn_rules (s_config S)) ->
  wp S (sim_write K_MapSpawnRules (s_map S) rules) (fun _ w' => has_rules rules w') w.
Proof.
  intros N I L. pose proof (map_live _ _ I) as Lm. destruct (inv_write S K_MapSpawnRules rules (s_map S) w I Lm) as [I' X']; [done |].
  exists tt, (write K_MapSpawnRules (s_map S) rules w). split_and!; try done. by apply get_write_eq.
Qed.
Lemma wp_add_instance idx spawned rules r w : s_rules S = None -> Inv S w -> has_rules rules w -> msr_rules rules !! idx = Some r ->
  wp S (add_instance (s_map S) idx spawned) (fun _ w' => has_rules (set_rule idx (record_spawned spawned r) rules) w') w.
Proof.
  intros N I G E. unfold add_instance. apply (wp_rules rules); [done.. |]. apply wp_bind_done. unfold rule_at. rewrite E.
  apply wp_bind_done. apply wp_write_rules; [done.. |]. cbn. rewrite length_insert. by eapply rules_length.
Qed.
Lemma wp_rounds n rule idx rules w : s_rules S = None -> Inv S w -> has_rules rules w -> is_Some (msr_rules rules !! idx) ->
  wp S (spawn_rounds n (s_map S) (s_shared S) rule idx)
    (fun _ w' => exists rules', has_rules rules' w' /\ scheduled_spawns rules' = scheduled_spawns rules /\
                   is_Some (msr_rules rules' !! idx)) w.
Proof.
  revert rules w. induction n as [| n IH]; intros rules w N I G [r E]; cbn [spawn_rounds]; [apply wp_done; eauto |].
  eapply wp_step; [by apply wp_template |]. intros spawned w1 I1 _ G1. case_match; [apply wp_done; [done | exists rules; by rewrite E] |].
  eapply wp_step; [by apply (wp_add_instance idx spawned rules r) |]. intros u w2 I2 _ G2.
  eapply wp_mono; [apply (IH _ w2 N I2 G2) |].
  - cbn. rewrite list_lookup_insert_eq; [by eexists |]. by eapply lookup_lt_Some.
  - intros u' w3 _ _ (rules' & G3 & E3 & L3). by exists rules'.
Qed.
(** The entries of a schedule that are due. *)
Definition due_entries (heap : list (SimInstant * nat)) : nat := length (List.filter (fun entry => fst entry <=? s_now S) heap).
Lemma due_push x heap : s_now S < fst x -> due_entries (heap_push x heap) = due_entries heap.
Proof.
  intros L. unfold due_entries. induction heap as [| y heap IH]; cbn [heap_push List.filter].
  - destruct (Z.leb_spec (fst x) (s_now S)); [lia | done].
  - case_match; cbn [List.filter]; [destruct (Z.leb_spec (fst x) (s_now S)); [lia | done] |].
    destruct (fst y <=? s_now S); cbn; by rewrite IH.
Qed.
Lemma wp_mark_dirty k e w : Inv S w -> wp S mark_map_dirty (fun _ w' => get k e w' = get k e w) w.
Proof.
  intros I. destruct (ok_mark_map_dirty S w I) as (u & w' & E & I' & X & _). exists u, w'. split_and!; try done.
  by injection E as <- <-.
Qed.
Lemma wp_due_rule idx rules w : s_rules S = None -> Inv S w -> has_rules rules w -> is_Some (msr_rules rules !! idx) ->
  wp S (run_due_rule (s_map S) (s_shared S) (s_now S) idx)
    (fun _ w' => exists rules', has_rules rules' w' /\ due_entries (scheduled_spawns rules') = due_entries (scheduled_spawns rules)) w.
Proof.
  intros N I G [r E]. unfold run_due_rule. apply (wp_rules rules); [done.. |]. unfold rule_at. rewrite E. apply wp_bind_done.
  eapply wp_step; [apply (wp_rounds _ _ idx rules); [done.. | by exists r] |]. intros u w1 I1 X1 (rules1 & G1 & S1 & r1 & E1).
  apply (wp_rules rules1); [done.. |]. rewrite E1. apply wp_bind_done.
  eapply wp_step; [apply wp_write_rules; [done.. |] |].
  - unfold reschedule_rule. case_match; cbn; rewrite length_insert; by eapply rules_length.
  - intros u2 w2 I2 X2 G2. eapply wp_mono; [by apply (wp_mark_dirty K_MapSpawnRules (s_map S)) |]. intros u3 w3 _ _ G3. rewrite G2 in G3.
    eexists. split; [exact G3 |]. unfold reschedule_rule.
    case_match; cbn [scheduled_spawns set_scheduled set_rule]; [| by rewrite S1]. rewrite due_push; [by rewrite S1 |]. cbn. pose proof (inv_now _ _ I). unfold SimInstant_saturating_add, u64_sat, clampc. lia.
Qed.
Lemma ok_spawn_loop fuel rules w : s_rules S = None -> Inv S w -> has_rules rules w ->
  (due_entries (scheduled_spawns rules) <= fuel)%nat -> ok S (spawn_loop fuel (s_map S) (s_shared S)) w.
Proof.
  revert rules w. induction fuel as [| fuel IH]; intros rules w N I G D; cbn [spawn_loop].
  all: [> apply (wp_runtime S); [done |]; intros s M Hn; rewrite ?Hn; apply (wp_rules rules); [done.. |] ..].
  all: [> destruct (scheduled_spawns rules) as [| [at_ idx] heap] eqn:Hs; [by apply wp_done |] ..].
  all: unfold due_entries in D; cbn [List.filter fst] in D.
  all: [> destruct (Z.ltb_spec (s_now S) at_); [by apply wp_done |] ..].
  all: rewrite (proj2 (Z.leb_le at_ (s_now S))) in D by done; cbn [length] in D.
  1: lia.
  destruct (check_due_rule at_ idx (set_scheduled heap rules)) as [should rules1] eqn:C.
  assert (scheduled_spawns rules1 = heap /\ length (msr_rules rules1) = length (msr_rules rules) /\
          (should = true -> is_Some (msr_rules rules1 !! idx))) as (H1' & L1 & R1).
  { unfold check_due_rule in C. cbn [msr_rules set_scheduled] in C. destruct (msr_rules rules !! idx) as [r |] eqn:E.
    - case_match; [| case_match]; injection C as <- <-; cbn; rewrite ?length_insert, ?E; by split_and!.
    - by injection C as <- <-. }
  eapply wp_step; [apply wp_write_rules; [done.. | rewrite L1; by eapply rules_length] |]. intros u w1 I1 X1 G1.
  assert (wp S (when should (run_due_rule (s_map S) (s_shared S) (s_now S) idx))
    (fun _ w' => exists rules', has_rules rules' w' /\ due_entries (scheduled_spawns rules') = due_entries heap) w1) as O.
  { destruct should; cbn [when]; [| apply wp_done; [done | exists rules1; by rewrite H1']].
    rewrite <- H1'. apply wp_due_rule; auto. }
  eapply wp_step; [exact O |]. intros u2 w2 I2 X2 (rules2 & G2 & D2). apply (IH rules2); try done.
  rewrite D2. unfold due_entries. lia.
Qed.
Lemma ok_spawn_rules w : s_rules S = None -> Inv S w -> ok S spawn_rules w.
Proof.
  intros N I. unfold spawn_rules. apply wp_resource; [done |]. intros shared Rs. cbn in Rs. subst shared.
  apply wp_the_map; [done |]. destruct (inv_map_comp _ _ K_MapSpawnRules I) as [rules G]; [by right; right; left |].
  apply (wp_rules rules); [done.. |]. apply (ok_spawn_loop _ rules); [done.. |]. apply List.filter_length_le.
Qed.
End Schedule.

(** ** Players *)
Section Players.
Context `{SimEnvLaws} `{!GrowthRngLaws} {S : Setting}.

(** Code that runs to its end and keeps the invariant. *)
Definition runs {A} (m : Sim A) (w : World) : Prop := exists a w', m w = Some (a, w') /\ Inv S w'.
Lemma runs_wp {A} (m : Sim A) Q w : wp S m Q w -> runs m w.
Proof. intros (a & w' & E & I & _). by exists a, w'. Qed.
Lemma runs_gone m w : gone (S := S) m w -> runs m w.
Proof. intros (w' & E & I & _). by exists tt, w'. Qed.
Lemma runs_after {A B} (m : Sim A) Q (k : A -> Sim B) w : wp S m Q w ->
  (forall a w1, Inv S w1 -> ext S w w1 -> Q a w1 -> runs (k a) w1) -> runs (sim_bind m k) w.
Proof.
  intros (a & w1 & E & I & X & HQ) HK. destruct (HK a w1 I X HQ) as (b & w2 & E2 & I2). exists b, w2. unfold sim_bind. by rewrite E.
Qed.
Lemma runs_before {A B} (m : Sim A) (k : A -> Sim B) w : runs m w -> (forall a w1, Inv S w1 -> runs (k a) w1) -> runs (sim_bind m k) w.
Proof. intros (a & w1 & E & I) HK. destruct (HK a w1 I) as (b & w2 & E2 & I2). exists b, w2. unfold sim_bind. by rewrite E. Qed.
Lemma runs_read {A B} (m : Sim A) a (k : A -> Sim B) w : m w = Some (a, w) -> runs (k a) w -> runs (sim_bind m k) w.
Proof. intros E (b & w2 & E2 & I2). exists b, w2. unfold sim_bind. by rewrite E. Qed.
Lemma runs_get {B} k e (f : option (comp k) -> Sim B) w : live e w -> (forall o, get k e w = o -> runs (f o) w) ->
  runs (sim_bind (entity_get k e) f) w.
Proof.
  intros L HK. apply (runs_read _ (get k e w)); [| by apply HK]. unfold entity_get. by rewrite (proj2 (contains_live e w) L).
Qed.
Lemma runs_done {A} (a : A) w : Inv S w -> runs (done_ a) w.
Proof. intros I. by exists a, w. Qed.

(** *** Leaving *)
Lemma indexed_player p e w : Inv S w -> (w_res w R_PlayerIndex : gmap PlayerId Entity) !! p = Some e -> is_player e w.
Proof. intros I E. exists p. by apply (inv_res _ _ I R_PlayerIndex). Qed.
Lemma runs_leave msg w : s_ticking S = false -> Inv S w -> runs (handle_player_leave msg) w.
Proof.
  intros T I. unfold handle_player_leave. apply (runs_read _ (w_res w R_PlayerIndex)); [done |].
  destruct ((w_res w R_PlayerIndex : gmap PlayerId Entity) !! lm_player_id msg) as [e |] eqn:E.
  - pose proof (indexed_player _ _ _ I E) as P. change (res R_PlayerIndex) with (gmap PlayerId Entity). rewrite E.
    apply runs_get; [by apply player_live |]. intros [id |] _; [| by apply runs_done]. case_match; [by apply runs_done |].
    by apply runs_gone, gone_despawn.
  - change (res R_PlayerIndex) with (gmap PlayerId Entity). rewrite E. by apply runs_done.
Qed.
Lemma runs_leave_snapshot msg w : s_ticking S = false -> Inv S w -> runs (leave_player_and_snapshot msg) w.
Proof.
  intros T I. unfold leave_player_and_snapshot. eapply runs_after; [by apply wp_active |]. intros [e |] w1 I1 _ P; [| by apply runs_done].
  cbv beta iota in P. pose proof (player_live _ _ P) as L. clear dependent w.
  do 4 (apply runs_get; [done |]; intros [] _; [| by apply runs_done]). apply runs_get; [done |]. intros life _.
  apply (runs_read _ (w_res w1 R_MapConfig)); [done |]. apply (runs_read _ (w_res w1 R_Runtime)); [done |].
  apply runs_get; [done |]. intros motion _. apply runs_before; [by apply runs_gone, gone_despawn |]. intros _ w2 I2. by apply runs_done.
Qed.

(** *** Entering *)
Lemma persistence_ok player epoch playtime now : is_u64 now ->
  exists p, PlayerPersistenceState_initial player epoch playtime now = Some p /\ clock_wf (pp_autosave p).
Proof.
  intros N. destruct (phased_wf player now AUTOSAVE_INTERVAL N) as (c & E & W & _); [unfold AUTOSAVE_INTERVAL, u64_max; lia |].
  unfold PlayerPersistenceState_initial. rewrite E. by eexists.
Qed.
Lemma tickers_initial_ok player now : is_u64 now -> exists t, PlayerStatTickerComp_initial player now = Some t /\ tickers_ok t.
Proof.
  intros N. destruct (phased_wf player now STAT_TICKER_CADENCE N) as (c & E & W & _); [unfold STAT_TICKER_CADENCE, u64_max; lia |].
  unfold PlayerStatTickerComp_initial, PlayerTicker_initial. rewrite E. by eexists.
Qed.
Lemma player_spawn_ok msg appearance stats outbox persistence : s_ticking S = false -> player_stats_ok S stats ->
  1 <= pgb_level (em_gameplay msg) <= s_levels S -> clock_wf (pp_autosave persistence) ->
  spawn_ok S (player_bundle msg appearance stats outbox persistence).
Proof.
  intros T St Lv Cl. split; [split | by rewrite T].
  - intros k v E. destruct k; try done; by injection E as <-.
  - intros _. split; [done |]. by split; [eexists |].
  - by intros [? ?].
Qed.
Lemma ok_on_added e p id w : Inv S w -> get K_PlayerMarker e w = Some p -> get K_NetEntityId e w = Some id -> ok S (on_player_added e) w.
Proof.
  intros I P N. unfold on_player_added. apply wp_query_get; [done |]. intros o [G _]. rewrite P in G. subst o.
  apply wp_query_get; [done |]. intros o [G _]. rewrite N in G. subst o. sim_to_loop.
  apply wp_unit; [by apply ok_index_player | sim_next]. apply wp_unit; [by apply ok_index | sim_next]. sim.
Qed.
Lemma ok_set_alive e w : Inv S w -> safe S e w -> ok S (insert_comp K_ActorLife e Alive) w.
Proof. intros I [L D]. apply ok_insert; [done.. |]. split_and!; try done. Qed.
Lemma ok_set_restart_queue e w : Inv S w -> is_player e w -> ok S (insert_comp K_PlayerRestartIntentQueue e []) w.
Proof. intros I P. apply ok_insert; [done | by apply player_live | by split_and!]. Qed.
Lemma ok_set_tickers e t w : Inv S w -> is_player e w -> tickers_ok t -> ok S (insert_comp K_PlayerStatTicker e t) w.
Proof. intros I P T. apply ok_insert; [done | by apply player_live | by split_and!]. Qed.
Lemma runs_enter msg outbox w : s_ticking S = false -> Inv S w ->
  (exists h, hydrate_player (sc_player_stats (s_shared S)) (em_gameplay msg) = Some (Some h)) -> runs (handle_player_enter msg outbox) w.
Proof.
  intros T I [h Hh]. unfold handle_player_enter. destruct (inv_res _ _ I R_Runtime) as [_ Hn]. pose proof (inv_res _ _ I R_Shared) as Sh.
  cbn in Hn, Sh. apply (runs_read _ (w_res w R_Runtime)); [done |]. apply (runs_read _ (w_res w R_Shared)); [done |]. rewrite Hn, Sh, Hh.
  destruct (hydrate_player_ok _ _ _ h (so_rules _ _ (inv_shared _ _ I)) Hh) as (St & Lv & Pl).
  do 2 (eapply runs_read; [reflexivity |]). apply (runs_read _ (w_res w R_PlayerIndex)); [done |]. cbv zeta.
  destruct (persistence_ok (em_player_id msg) (em_runtime_epoch msg) (em_playtime msg) (s_now S) (now_u64 _ I)) as (p & Ep & Cp).
  destruct (tickers_initial_ok (em_player_id msg) (s_now S) (now_u64 _ I)) as (t & Et & Ct). rewrite Ep, Et.
  apply runs_before.
  { destruct ((w_res w R_PlayerIndex : gmap PlayerId Entity) !! em_player_id msg) as [e |] eqn:E;
      change (res R_PlayerIndex) with (gmap PlayerId Entity); rewrite E; [| by apply runs_done].
    apply runs_gone, gone_despawn; [done.. |]. by eapply indexed_player. }
  clear dependent w. intros _ w I. eapply runs_read; [reflexivity |].
  eapply runs_after.
  { apply wp_spawn; [done |]. by apply player_spawn_ok. }
  intros e w1 I1 X (L & G). clear dependent w. rename I1 into I. pose proof (G K_PlayerMarker) as P. pose proof (G K_NetEntityId) as N.
  pose proof (G K_ActorLife) as Al. cbn in P, N, Al.
  assert (safe S e w1) as Sf by (split; [done |]; unfold doomed; by rewrite Al). clear G Al L.
  pose proof (is_player_marker _ _ _ P) as Pp. apply (runs_wp _ (fun _ _ => True)). apply wp_unit; [by eapply ok_on_added | sim_next].
  apply wp_bind_done. apply wp_unit; [by apply ok_set_alive | sim_next]. apply wp_unit; [by apply ok_insert_plain; sim_side | sim_next].
  apply wp_unit; [by apply ok_set_restart_queue | sim_next]. apply wp_unit; [by apply ok_set_tickers | sim_next].
  apply wp_unit; [apply ok_bootstrap_observer; [done | by exists e] | sim_next]. sim.
Qed.
(** The messages of the network and of the loading players: whoever enters can be
    hydrated. *)
Definition event_ok (shared : SharedConfig) (event : InboundEvent) : Prop :=
  match event with
  | Inbound_PlayerEnter msg _ => exists h, hydrate_player (sc_player_stats shared) (em_gameplay msg) = Some (Some h)
  | _ => True
  end.
Lemma runs_inbound event w : s_ticking S = false -> event_ok (s_shared S) event -> Inv S w -> runs (handle_inbound event) w.
Proof.
  intros T E I. destruct event; cbn [handle_inbound event_ok] in *.
  - apply (runs_wp _ (fun _ _ => True)), wp_runtime; [done |]. intros s M N. unfold next_entity_id. cbv zeta.
    apply wp_unit; [by apply ok_set_runtime | sim_next; sim].
  - apply runs_before; [by apply runs_enter |]. intros _ w1 I1. by apply runs_done.
  - apply runs_before; [by apply runs_leave |]. intros _ w1 I1. by apply runs_done.
  - eapply runs_after; [by apply ok_capture_active |]. intros s w1 I1 _ _. by apply runs_done.
  - apply runs_before; [by apply runs_leave_snapshot |]. intros s w1 I1. by apply runs_done.
  - eapply runs_after; [by apply ok_client_intent |]. intros s w1 I1 _ _. by apply runs_done.
  - eapply runs_after; [by apply ok_global_shout |]. intros s w1 I1 _ _. by apply runs_done.
Qed.
End Players.

(** ** The map filled before it opens *)
Section Preload.
Context `{SimEnvLaws} `{!GrowthRngLaws} {S : Setting}.
Notation has_rules rules w := (get K_MapSpawnRules (s_map S) w = Some rules).
Lemma ok_preload_rule fuel idx rules r w : s_rules S = None -> Inv S w -> has_rules rules w -> msr_rules rules !! idx = Some r ->
  max_count_of r - active_instances r <= Z.of_nat fuel ->
  wp S (preload_rule fuel (s_map S) (s_shared S) idx)
    (fun _ w' => exists rules', has_rules rules' w' /\ forall j, j <> idx -> msr_rules rules' !! j = msr_rules rules !! j) w.
Proof.
  revert rules r w. induction fuel as [| fuel IH]; intros rules r w N I G E D; cbn [preload_rule].
  all: apply (wp_rules rules); [done.. |]; unfold rule_at; rewrite E; apply wp_bind_done.
  all: destruct (Z.leb_spec (max_count_of r) (active_instances r)); [apply wp_done; [done | by exists rules] |].
  1: lia.
  eapply wp_step; [by apply wp_template |]. intros spawned w1 I1 _ G1. case_match; [apply wp_done; [done | by exists rules] |].
  eapply wp_step; [by apply (wp_add_instance idx spawned rules r) |]. intros u w2 I2 _ G2.
  eapply wp_mono; [apply (IH _ (record_spawned spawned r) w2 N I2 G2) |].
  - cbn. apply list_lookup_insert_eq. by eapply lookup_lt_Some.
  - unfold max_count_of, record_spawned in *. cbn. lia.
  - intros u' w3 _ _ (rules' & G3 & R3). exists rules'. split; [done |]. intros j Nj. rewrite R3 by done. cbn.
    by rewrite list_lookup_insert_ne.
Qed.
Lemma preload_fuel_enough rules idx r : msr_rules rules !! idx = Some r ->
  max_count_of r - active_instances r <= Z.of_nat (preload_fuel rules idx).
Proof. intros E. unfold preload_fuel. rewrite E. lia. Qed.
(** Every rule, each with the room it had at first. *)
Lemma ok_preload_rules rules0 l rules w : s_rules S = None -> NoDup l -> Inv S w -> has_rules rules w ->
  (forall j, j ∈ l -> msr_rules rules !! j = msr_rules rules0 !! j /\ is_Some (msr_rules rules0 !! j)) ->
  ok S (for_each l (fun idx => preload_rule (preload_fuel rules0 idx) (s_map S) (s_shared S) idx)) w.
Proof.
  intros N. revert rules w. induction l as [| idx l IH]; intros rules w D I G R; cbn [for_each]; [by apply wp_done |].
  apply NoDup_cons in D as [Ni D]. destruct (R idx) as [E [r Er]]; [apply list_elem_of_here |].
  eapply wp_step; [apply (ok_preload_rule _ idx rules r); [done.. | congruence | by apply preload_fuel_enough] |].
  intros u w1 I1 _ (rules' & G1 & R1). apply (IH rules'); try done. intros j Hj.
  rewrite R1 by (intros ->; done). apply R. by apply list_elem_of_further.
Qed.
Lemma ok_preload w : s_rules S = None -> Inv S w -> ok S preload_map_to_spawn_cap_world w.
Proof.
  intros N I. unfold preload_map_to_spawn_cap_world. apply wp_resource; [done |]. intros shared Rs. cbn in Rs. subst shared.
  apply wp_the_map; [done |]. destruct (inv_map_comp _ _ K_MapSpawnRules I) as [rules G]; [by right; right; left |].
  apply (wp_rules rules); [done.. |]. apply wp_unit.
  - apply (ok_preload_rules rules _ rules); try done; [apply NoDup_seq |]. intros j [_ Hj]%elem_of_seq. split; [done |].
    by apply lookup_lt_is_Some_2.
  - intros w1 I1 _. apply ok_modify; [done | by apply map_live |]. intros v _ C. split_and!; [| done | done]. cbn in *. by rewrite length_map.
Qed.
End Preload.

(** ** From the empty world *)
Section Startup.
Context `{SimEnvLaws} `{!GrowthRngLaws}.
Definition quiet_setting (n : Z) (shared : SharedConfig) (map : MapConfig) (now : SimInstant) : Setting :=
  {| s_ticking := false; s_map := 0; s_now := now; s_levels := n; s_shared := shared; s_config := map; s_rules := None |}.
Lemma inv_opened n shared map port r w : shared_ok n shared -> map_config_ok map ->
  (_ <~ spawn_bundle (map_bundle map (initial_rules 0 (mcfg_spawn_rules map)));
   update_resource R_Runtime (with_map_entity (Some 0))) (initial_world shared map port r) = Some (tt, w) ->
  Inv (quiet_setting n shared map 0) w.
Proof.
  intros Sh Mc E. cbv beta iota delta [sim_bind spawn_bundle update_resource initial_world] in E. injection E as <-.
  assert (forall e b, w_entities (set_res R_Runtime (with_map_entity (Some 0) (initial_runtime r))
    {| w_entities := <[0 := map_bundle map (initial_rules 0 (mcfg_spawn_rules map))]> ∅; w_next_entity := 0 + 1; w_fate := 0;
       w_changed := fun _ => ∅; w_added := fun _ => ∅; w_res := initial_res shared map port r |}) !! e = Some b ->
    e = 0 /\ b = map_bundle map (initial_rules 0 (mcfg_spawn_rules map))) as One.
  { cbn. intros e b [[<- <-] | [_ Eb]]%lookup_insert_Some; [done |]. by rewrite lookup_empty in Eb. }
  split; try done.
  - intros e [b Eb]. cbn in Eb |- *. apply One in Eb as [-> _]. lia.
  - intros e b Eb. cbn in Eb. apply One in Eb as [_ ->]. split.
    + intros k v Ek. destruct k; try done. injection Ek as <-. cbn. by rewrite length_map.
    + by intros [? ?].
    + by intros [? ?].
  - intros k. destruct k; cbn; try done.
  - repeat constructor; by eexists.
  - intros g Eg. cbn in Eg. injection Eg as <-. exists (fun _ _ => False). split; [apply (graph_run_refines []) | done].
Qed.
Lemma runs_startup n shared map port r : shared_ok n shared -> map_config_ok map ->
  exists w, startup (initial_world shared map port r) = Some (tt, w) /\ Inv (quiet_setting n shared map 0) w.
Proof.
  intros Sh Mc. unfold startup, bootstrap_map_runtime.
  eassert (_ = Some (tt, _)) as E by (apply (eq_refl ((_ <~ spawn_bundle (map_bundle map (initial_rules 0 (mcfg_spawn_rules map)));
    update_resource R_Runtime (with_map_entity (Some 0))) (initial_world shared map port r)))).
  pose proof (inv_opened n shared map port r _ Sh Mc E) as I.
  destruct (ok_preload (S := quiet_setting n shared map 0) _ eq_refl I) as ([] & w' & E' & I' & _). exists w'. split; [exact E' | exact I'].
Qed.
End Startup.
