(* ===== verification/SimSafety.v ===== *)
(** The simulation never panics: the ticks and the inbound messages, from startup on
    ([SimSchedule], [SimIntents]), in any order that the network and the clock give. *)
From S2P Require Import Prelude Domain StatSource Samples Progression ActorState StatsApi Hydrate StatsSafety.
From S2P Require Import Recovery Float CombatTiming Space Entities Persist MapPort Channel Outbox Replication SimTime.
From S2P Require Import Motion Aoi SimTypes SimWorld SimSample SimLife SimQuery SimAction SimCombat SimAi.
From S2P Require Import SimReplication SimPresence SimSave SimVitals SimIntents SimSpawn SimRewards SimSchedule.
From S2P Require Import SimSafe SimActors SimUpkeep SimAsked SimComing.

(** ** From one setting to another *)
Section Turns.
Context `{SimEnv}.
Definition turns (S S' : Setting) (m : Sim unit) (w : World) : Prop := exists w', m w = Some (tt, w') /\ Inv S' w'.
Lemma turns_step S S1 S' (m k : Sim unit) w : turns S S1 m w -> (forall w1, Inv S1 w1 -> turns S1 S' k w1) -> turns S S' (m ;; k) w.
Proof. intros (w1 & E & I) HK. destruct (HK w1 I) as (w2 & E2 & I2). exists w2. unfold sim_bind. by rewrite E. Qed.
Lemma turns_ok S m w : ok S m w -> turns S S m w.
Proof. intros ([] & w' & E & I & _). by exists w'. Qed.
Lemma turns_gone S m w : gone (S := S) m w -> turns S S m w.
Proof. intros (w' & E & I & _). by exists w'. Qed.
Lemma sim_bind_assoc {A B C} (m : Sim A) (k : A -> Sim B) (h : B -> Sim C) w :
  sim_bind (sim_bind m k) h w = sim_bind m (fun a => sim_bind (k a) h) w.
Proof. unfold sim_bind. by destruct (m w) as [[a w1] |]. Qed.
Lemma turns_same S S' (m m' : Sim unit) w : (forall w, m w = m' w) -> turns S S' m' w -> turns S S' m w.
Proof. intros E (w' & E' & I). exists w'. by rewrite E. Qed.
Lemma turns_assoc S S' (a b k : Sim unit) w : turns S S' (a ;; b ;; k) w -> turns S S' ((a ;; b) ;; k) w.
Proof. apply turns_same. intros w1. apply sim_bind_assoc. Qed.
(** A net id of a player is no one else's. *)
Definition ids_distinct (w : World) : Prop := forall e p id,
  is_player p w -> get K_NetEntityId p w = Some id -> get K_NetEntityId e w = Some id -> is_player e w.

Definition ticking_setting (n : Z) (shared : SharedConfig) (map : MapConfig) (now : SimInstant) : Setting :=
  {| s_ticking := true; s_map := 0; s_now := now; s_levels := n; s_shared := shared; s_config := map; s_rules := None |}.
Lemma player_not_doomed n shared map now now' e w : Inv (quiet_setting n shared map now) w -> is_player e w ->
  doomed (ticking_setting n shared map now') e w = false.
Proof.
  intros I P. unfold doomed. destruct (get K_ActorLife e w) as [phase |] eqn:G; [| done]. unfold phase_doomed.
  unfold get in G. destruct (w_entities w !! e) as [b |] eqn:Eb; [| done]. unfold is_player, get in P. rewrite Eb in P.
  destruct (bo_player _ _ (inv_bundle _ _ I e b Eb) P) as (_ & _ & C). by rewrite (C phase G).
Qed.
Lemma turns_clock n shared map now elapsed w : Inv (quiet_setting n shared map now) w -> ids_distinct w ->
  0 <= SimInstant_from_elapsed elapsed < u64_max ->
  turns (quiet_setting n shared map now) (ticking_setting n shared map (SimInstant_from_elapsed elapsed)) (advance_sim_time elapsed) w.
Proof.
  intros I D N. eexists. split; [reflexivity |]. set (S' := ticking_setting n shared map (SimInstant_from_elapsed elapsed)).
  split; try apply I; try done.
  - intros e b E. eapply (bundle_ok_same (quiet_setting n shared map now)); [done.. |]. exact (inv_bundle _ _ I e b E).
  - intros r. pose proof (inv_res _ _ I r) as R. destruct r; try exact R.
    + split; [apply R | done].
    + change (facts_quiet (w_res w R_FrameFacts)) in R. destruct R as (R1 & R2 & R3 & R4 & R5).
      change (facts_ok S' (w_res w R_FrameFacts) (set_res R_Runtime (with_sim_now (SimInstant_from_elapsed elapsed) (w_res w R_Runtime)) w)).
      split; rewrite ?R1, ?R2, ?R3, ?R4, ?R5; constructor.
  - intros e id _ (p & P & Np) Dd Ne. pose proof (player_not_doomed _ _ _ _ (SimInstant_from_elapsed elapsed) e w I (D e p id P Np Ne)) as Nd.
    change (doomed S' e w = true) in Dd. unfold S' in Dd. congruence.
Qed.
Lemma turns_reset n shared map now w : Inv (ticking_setting n shared map now) w ->
  turns (ticking_setting n shared map now) (quiet_setting n shared map now) reset_frame_facts w.
Proof.
  intros I. eexists. split; [reflexivity |].
  destruct (inv_set_res (ticking_setting n shared map now) R_FrameFacts FrameFacts_default w I) as [I' _]; [by split |].
  apply (inv_setting (ticking_setting n shared map now)); try done; [apply I | by destruct (inv_res _ _ I R_Runtime)].
Qed.
End Turns.

(** ** A tick *)
Section Tick.
Context `{SimEnvLaws} `{!GrowthRngLaws}.

Lemma ok_if_active S m w : Inv S w -> ok S m w -> ok S (if_active m) w.
Proof.
  intros I O. unfold if_active, has_active_players. apply wp_assoc, wp_resource; [done |]. intros count _. apply wp_bind_done.
  by apply ok_when.
Qed.
Lemma turns_sets S S' s sets w : turns S S' (run_set s ;; for_each sets run_set) w -> turns S S' (for_each (s :: sets) run_set) w.
Proof. done. Qed.
Lemma turns_set S S' s sets w : ok S (run_set s) w -> (forall w1, Inv S w1 -> turns S S' (for_each sets run_set) w1) ->
  turns S S' (for_each (s :: sets) run_set) w.
Proof. intros O HK. apply (turns_step S S); [by apply turns_ok | done]. Qed.

Section Ticking.
Context {S : Setting} (T : s_ticking S = true) (Nr : s_rules S = None).
Lemma ok_sense w : Inv S w -> ok S (run_set Set_Sense) w.
Proof.
  intros I. apply wp_unit; [by apply ok_sample_motion | sim_next]. apply wp_unit; [by apply ok_spawn_rules | sim_next].
  by apply ok_progression.
Qed.
Lemma ok_normalize w : Inv S w -> ok S (run_set Set_StatsNormalize) w.
Proof. intros I. apply ok_if_active; [done |]. by apply ok_normalize_stats. Qed.
Lemma ok_act w : Inv S w -> ok S (run_set Set_PlayerActions) w.
Proof.
  intros I. apply wp_unit; [by apply ok_player_actions | sim_next]. apply wp_unit; [by apply ok_portals | sim_next].
  by apply ok_route_aggro.
Qed.
(** The mobs' decisions are carried out before anything else happens. *)
Lemma turns_think sets S' w : Inv S w -> (forall w1, Inv S w1 -> turns S S' (for_each sets run_set) w1) ->
  turns S S' (for_each (Set_Think :: Set_Act :: sets) run_set) w.
Proof.
  intros I HK. apply (turns_same _ _ _ ((process_mob_ai ;; process_actions) ;; process_attack_commands ;; for_each sets run_set)).
  - intros w1. rewrite sim_bind_assoc. cbn [for_each run_set]. unfold sim_bind at 1 4. destruct (process_mob_ai w1) as [[u w2] |]; [| done].
    apply sim_bind_assoc.
  - apply (turns_step S S); [by apply turns_ok, ok_think_act |]. intros w1 I1.
    apply (turns_step S S); [by apply turns_ok, ok_attack_commands | done].
Qed.
Lemma turns_lifecycle w : Inv S w -> turns S S (run_set Set_Lifecycle) w.
Proof.
  intros I. cbn [run_set].
  apply (turns_step S S); [by apply turns_ok, ok_process_life_events | clear dependent w; intros w I].
  apply (turns_step S S); [by apply turns_ok, ok_record_claims | clear dependent w; intros w I].
  apply (turns_step S S); [by apply turns_ok, ok_process_lifecycle | clear dependent w; intros w I].
  apply (turns_step S S); [by apply turns_ok, ok_restarts | clear dependent w; intros w I].
  apply (turns_step S S); [by apply turns_ok, ok_grants | clear dependent w; intros w I].
  by apply turns_gone, gone_cleanup.
Qed.
Lemma ok_resources w : Inv S w -> ok S (run_set Set_Resources) w.
Proof. intros I. apply ok_if_active; [done |]. by apply ok_stat_tickers. Qed.
End Ticking.

Lemma turns_projection n shared map now w : Inv (ticking_setting n shared map now) w ->
  turns (ticking_setting n shared map now) (quiet_setting n shared map now) (run_set Set_Projection) w.
Proof.
  intros I. set (L := ticking_setting n shared map now). apply (turns_step L L); [by apply turns_ok, ok_dirty_events |].
  intros w1 I1. destruct (ok_project (S := L) w1 eq_refl I1) as ([] & w2 & E & I2 & _).
  destruct (turns_reset n shared map now w2 I2) as (w3 & E3 & I3). exists w3. split; [| exact I3]. unfold project_frame_facts.
  revert E3. generalize reset_frame_facts. intros m E3. rewrite <- E3. clear - E. revert E. unfold sim_bind.
  repeat match goal with |- context [match ?x with Some _ => _ | None => _ end] => destruct x as [[? ?] |]; [| done] end.
  by intros [= _ <-].
Qed.
(** What follows the projection of the facts: chat, visibility and the flushes. *)
Lemma turns_rest S w : Inv S w -> turns S S (for_each (Set_Ambient :: Set_AoiReconcile :: FIXED_POST_UPDATE) run_set) w.
Proof.
  intros I. unfold FIXED_POST_UPDATE.
  apply turns_set; [apply wp_unit; [by apply ok_chat_intents | sim_next]; by apply ok_idle_chat | clear dependent w; intros w I].
  apply turns_set; [apply ok_if_active; [done |]; by apply ok_aoi_reconcile | clear dependent w; intros w I].
  apply turns_set; [by apply ok_flush_stats_sync | clear dependent w; intros w I].
  apply turns_set; [| clear dependent w; intros w I].
  { apply wp_unit; [by apply ok_queue_changed | sim_next]. apply wp_unit; [by apply ok_flush_animations | sim_next].
    by apply ok_replication_flush. }
  apply turns_set; [by apply ok_outbox_flush | clear dependent w; intros w I].
  apply turns_set; [by apply ok_due_autosaves | clear dependent w; intros w I]. by apply turns_ok, wp_done.
Qed.
Lemma turns_tick n shared map now elapsed w : Inv (quiet_setting n shared map now) w -> ids_distinct w ->
  0 <= SimInstant_from_elapsed elapsed < u64_max ->
  turns (quiet_setting n shared map now) (quiet_setting n shared map (SimInstant_from_elapsed elapsed)) (fixed_tick elapsed) w.
Proof.
  intros I D N. eapply turns_step; [by apply turns_clock |]. clear dependent w. clear N. generalize (SimInstant_from_elapsed elapsed).
  intros t w I. set (L := ticking_setting n shared map t) in *. cbn [FIXED_UPDATE app].
  assert (s_ticking L = true) as T by done. assert (s_rules L = None) as Nr by done.
  apply turns_set; [by apply ok_sense | clear dependent w; intros w I]. apply turns_set; [by apply ok_normalize | clear dependent w; intros w I].
  apply turns_set; [by apply ok_act | clear dependent w; intros w I]. apply turns_think; [done.. | clear dependent w; intros w I].
  apply turns_sets, (turns_step L L); [by apply turns_lifecycle | clear dependent w; intros w I].
  apply turns_set; [by apply ok_resources | clear dependent w; intros w I].
  apply turns_sets, (turns_step L (quiet_setting n shared map t)); [by apply turns_projection | clear dependent w; intros w I].
  by apply turns_rest.
Qed.
End Tick.

(** ** The map's life *)
Section Life.
Context `{SimEnvLaws} `{!GrowthRngLaws}.
Variables (n : Z) (shared : SharedConfig) (map : MapConfig) (port : option (@PersistTx H)) (r : @Rng (@env_random H)).

(** The worlds between a message or a tick and the next: each tick reads the clock
    when a player's net id is the player's own. *)
Inductive reached : World -> Prop :=
| reached_startup w : startup (initial_world shared map port r) = Some (tt, w) -> reached w
| reached_inbound w event reply w' : reached w -> event_ok shared event -> handle_inbound event w = Some (reply, w') -> reached w'
| reached_tick w elapsed w' : reached w -> ids_distinct w -> 0 <= SimInstant_from_elapsed elapsed < u64_max ->
    fixed_tick elapsed w = Some (tt, w') -> reached w'.

Lemma reached_inv w : shared_ok n shared -> map_config_ok map -> reached w -> exists now, Inv (quiet_setting n shared map now) w.
Proof.
  intros Sh Mc R. induction R as [w E | w event reply w' _ [now I] Ev E | w elapsed w' _ [now I] D N E].
  - destruct (runs_startup n shared map port r Sh Mc) as (w' & E' & I). exists 0. congruence.
  - destruct (runs_inbound (S := quiet_setting n shared map now) event w eq_refl Ev I) as (reply' & w1 & E' & I'). exists now. congruence.
  - destruct (turns_tick n shared map now elapsed w I D N) as (w1 & E' & I'). exists (SimInstant_from_elapsed elapsed). congruence.
Qed.

(** [C1] The simulation of a map never panics.  With content whose capacities stay in
    range and a map that is not empty, startup succeeds; and in every world that
    startup, messages and ticks lead to, the next message is handled and the next
    tick runs to its end, whatever the random generator, the order of queries, the
    channels and the persistence worker do.  A player who enters can be hydrated,
    the clock has not run past the 64 bits, and no other entity has a player's net
    id.  A random range handed an empty interval is not a panic of the model. *)
Theorem simulation_never_panics : shared_ok n shared -> map_config_ok map ->
  (exists w, startup (initial_world shared map port r) = Some (tt, w) /\ reached w) /\
  forall w, reached w ->
    (forall event, event_ok shared event -> exists reply w', handle_inbound event w = Some (reply, w') /\ reached w') /\
    (forall elapsed, ids_distinct w -> 0 <= SimInstant_from_elapsed elapsed < u64_max ->
       exists w', fixed_tick elapsed w = Some (tt, w') /\ reached w').
Proof.
  intros Sh Mc. split.
  - destruct (runs_startup n shared map port r Sh Mc) as (w & E & _). exists w. split; [done |]. by apply reached_startup.
  - intros w R. destruct (reached_inv w Sh Mc R) as [now I]. split.
    + intros event Ev. destruct (runs_inbound (S := quiet_setting n shared map now) event w eq_refl Ev I) as (reply & w' & E & _).
      exists reply, w'. split; [done |]. by eapply reached_inbound.
    + intros elapsed D N. destruct (turns_tick n shared map now elapsed w I D N) as (w' & E & _).
      exists w'. split; [done |]. by eapply reached_tick.
Qed.
End Life.

(** *** A player on a map with a mob *)
Section Distinct.
Context `{SimEnv}.
Definition same_id_player (b b' : Bundle) : bool :=
  match b K_PlayerMarker, b K_NetEntityId, b' K_NetEntityId with
  | Some _, Some id, Some id' => negb (id =? id') || bool_decide (is_Some (b' K_PlayerMarker))
  | _, _, _ => true
  end.
Definition ids_distinctb (w : World) : bool :=
  let entities := map_to_list (w_entities w) in
  forallb (fun entry => forallb (fun other => same_id_player entry.2 other.2) entities) entities.
Lemma ids_distinctb_ok w : ids_distinctb w = true -> ids_distinct w.
Proof.
  unfold ids_distinctb, ids_distinct, is_player, get. intros D e p id [player P] N N'.
  destruct (w_entities w !! p) as [b |] eqn:Eb; [| done]. destruct (w_entities w !! e) as [b' |] eqn:Eb'; [| done]. cbn in P, N, N' |- *.
  rewrite forallb_forall in D. specialize (D (p, b)). rewrite forallb_forall in D.
  apply elem_of_map_to_list, list_elem_of_In in Eb, Eb'. specialize (D Eb (e, b') Eb').
  unfold same_id_player in D. cbn in D. rewrite P, N, N' in D. rewrite Z.eqb_refl in D. by apply bool_decide_eq_true in D.
Qed.
End Distinct.

Section Sample.
Local Existing Instance sample_env.
#[local] Instance sample_growth_laws : @GrowthRngLaws (@env_growth sample_env) := sample_rng_laws.
Definition sample_spawns : list SpawnRuleDef :=
  [{| sr_template := Template_Mob 101;
      sr_area := SpawnArea_new {| pos_x := f32_of_int 50; pos_y := f32_of_int 50 |}
                   {| size_width := f32_of_int 1; size_height := f32_of_int 1 |};
      sr_facing := Facing_Random; sr_max_count := 1; sr_regen_time := 1000 |}].
Definition sample_enter : InboundEvent :=
  Inbound_PlayerEnter
    {| em_player_id := 42; em_player_net_id := 9; em_runtime_epoch := 1; em_playtime := 0;
       em_initial_pos := {| pos_x := f32_of_int 52; pos_y := f32_of_int 50 |};
       em_visual_profile := PlayerVisualProfile_default; em_gameplay := sample_bootstrap |} (PlayerOutbox_new sample_channel).
Definition sample_opening : World := initial_world sample_shared (sample_map sample_spawns) None (0 : @Rng sample_random).
Definition sample_entered : option World :=
  match startup sample_opening with
  | Some (_, w) => match handle_inbound sample_enter w with Some (_, w) => Some w | None => None end
  | None => None
  end.
Lemma sample_distinct w : sample_entered = Some w -> ids_distinct w.
Proof.
  intros E. apply ids_distinctb_ok. assert (ids_distinctb <$> sample_entered = Some true) as D by by vm_compute.
  rewrite E in D. by injection D.
Qed.
Lemma sample_shared_ok : shared_ok 3 sample_shared.
Proof.
  split.
  - split; [exact (try_new_table_wf _ _ sample_level_table_ok) |]. split; [vm_compute; discriminate |].
    repeat constructor; vm_compute; discriminate.
  - intros id proto E. cbn in E. apply lookup_singleton_Some in E as [_ <-]. split; [| split]; vm_compute; discriminate.
Qed.
Lemma simulation_never_panics_witness : exists w w',
  sample_entered = Some w /\ fixed_tick (40 * nanos_per_milli) w = Some (tt, w').
Proof.
  destruct (simulation_never_panics (H := sample_env) 3 sample_shared (sample_map sample_spawns) None 0 sample_shared_ok)
    as [(w0 & E0 & R0) Next]; [split; reflexivity |].
  destruct (Next w0 R0) as [Enter _]. destruct (Enter sample_enter) as (reply & w & E & R).
  { cbn. destruct (hydrate_player sample_rules sample_bootstrap) as [[h |] |] eqn:Eh; [by exists h | vm_compute in Eh; discriminate..]. }
  assert (sample_entered = Some w) as En by (unfold sample_entered, sample_opening; by rewrite E0, E).
  destruct (Next w R) as [_ Tick]. destruct (Tick (40 * nanos_per_milli)) as (w' & E' & _);
    [by apply sample_distinct | vm_compute; split; [discriminate | reflexivity] |].
  exists w, w'. split; [exact En | exact E'].
Defined.
End Sample.
