(* ===== verification/Content.v ===== *)
(** The content a map starts from: the catalogue read from the content database
    ([zohar-content/src/types] and [loaders]), what the server makes of it
    ([zohar-core/src/adapters/content.rs], [bootstrap/content.rs]), in
    which way that ends for which rows, and that a simulation started from it never
    panics.  Module [Migrations] holds how the migration scripts are found, split into
    statements and applied.

    The rows of a table are those its query gives, in its order, with their columns
    already of their SQL types; the values an enumeration is stored as are those of
    its [EnumString].  The parser of the bitflags crate, the zstd decoder and
    [f64::hypot] are arguments. *)
From S2P Require Import Prelude BTree Domain StatStore StatSource Samples Progression ActorState StatsApi Hydrate StatsSafety.
From S2P Require Import Float CombatTiming Space Entities Text Coords MapPort Encode Replication Outbox Channel Persist Grid.
From S2P Require Import Reachability Planner SimTime Motion Aoi SimTypes SimWorld SimSample SimSchedule SimSafe SimComing.
From S2P Require Import SimSafety.

(** ** Errors and enumerations *)
Inductive ContentError : Type :=
| ContentIo (error : string) | ContentSqlite (error : string) | InvalidMigrationName (name : string)
| DuplicatePrefix (scope prefix : string) | MigrationHashDrift (path expected_hash actual_hash : string)
| NonUtf8Path (path : list Z) | InvalidEnum (kind value : string).
Class EnumString (E : Type) : Type := { variants : list (string * E) }.
Definition parse_enum {E} `{EnumString E} (raw kind : string) : result E ContentError :=
  match List.find (fun entry => bool_decide (fst entry = raw)) variants with
  | Some (_, e) => Ok e
  | None => Err (InvalidEnum kind raw)
  end.
(** [collect::<Result<Vec<_>, _>>]: the first error ends it. *)
Fixpoint collect {A B E} (f : A -> result B E) (l : list A) : result (list B) E :=
  match l with
  | [] => Ok []
  | a :: l => let? b := f a in let? rest := collect f l in Ok (b :: rest)
  end.
(** [Option::transpose] of a parsed column. *)
Definition parse_optional {E} `{EnumString E} (raw : option string) (kind : string) : result (option E) ContentError :=
  match raw with Some raw => let? e := parse_enum raw kind in Ok (Some e) | None => Ok None end.

Open Scope string_scope.
Definition Empire_variants : list (string * Empire) :=
  [("SHINSOO", Empire_Red); ("CHUNJO", Empire_Yellow); ("JINNO", Empire_Blue)].
#[export] Instance Empire_strings : EnumString Empire := {| variants := Empire_variants |}.
Inductive MobType : Type :=
| MobType_Npc | MobType_Monster | MobType_Stone | MobType_Warp | MobType_Door | MobType_Building | MobType_Pc
| MobType_PolymorphPc | MobType_Horse | MobType_Goto.
Definition MobType_variants : list (string * MobType) :=
  [("NPC", MobType_Npc); ("MONSTER", MobType_Monster); ("STONE", MobType_Stone); ("WARP", MobType_Warp);
   ("DOOR", MobType_Door); ("BUILDING", MobType_Building); ("PC", MobType_Pc);
   ("POLYMORPH_PC", MobType_PolymorphPc); ("HORSE", MobType_Horse); ("GOTO", MobType_Goto)].
#[export] Instance MobType_strings : EnumString MobType := {| variants := MobType_variants |}.
Definition MobRank_variants : list (string * MobRank) :=
  [("PAWN", Rank_Pawn); ("S_PAWN", Rank_SuperPawn); ("KNIGHT", Rank_Knight); ("S_KNIGHT", Rank_SuperKnight);
   ("BOSS", Rank_Boss); ("KING", Rank_King)].
#[export] Instance MobRank_strings : EnumString MobRank := {| variants := MobRank_variants |}.
Definition MobBattleType_variants : list (string * MobBattleType) :=
  [("MELEE", BattleMelee); ("RANGE", BattleRange); ("MAGIC", BattleMagic); ("SPECIAL", BattleSpecial);
   ("POWER", BattlePower); ("TANKER", BattleTanker); ("SUPER_POWER", BattleSuperPower);
   ("SUPER_TANKER", BattleSuperTanker)].
#[export] Instance MobBattleType_strings : EnumString MobBattleType := {| variants := MobBattleType_variants |}.
Definition PlayerClass_variants : list (string * PlayerClass) :=
  [("WARRIOR", Warrior); ("NINJA", Ninja); ("SURA", Sura); ("SHAMAN", Shaman)].
#[export] Instance PlayerClass_strings : EnumString PlayerClass := {| variants := PlayerClass_variants |}.
Definition Gender_variants : list (string * PlayerGender) :=
  [("MALE", Male); ("FEMALE", Female)].
#[export] Instance Gender_strings : EnumString PlayerGender := {| variants := Gender_variants |}.
Inductive SpawnType : Type :=
| SpawnType_Mob | SpawnType_Group | SpawnType_AggressiveGroup | SpawnType_GroupGroup | SpawnType_Anywhere
| SpawnType_Exception.
#[export] Instance SpawnType_eq_dec : EqDecision SpawnType.
Proof. solve_decision. Defined.
Definition SpawnType_variants : list (string * SpawnType) :=
  [("MOB", SpawnType_Mob); ("GROUP", SpawnType_Group); ("AGGRESSIVE_GROUP", SpawnType_AggressiveGroup);
   ("GROUP_GROUP", SpawnType_GroupGroup); ("ANYWHERE", SpawnType_Anywhere);
   ("EXCEPTION", SpawnType_Exception)].
#[export] Instance SpawnType_strings : EnumString SpawnType := {| variants := SpawnType_variants |}.
Inductive SpawnSource : Type := Source_Npc | Source_Boss | Source_Stone | Source_Regen.
Definition SpawnSource_variants : list (string * SpawnSource) :=
  [("npc.txt", Source_Npc); ("boss.txt", Source_Boss); ("stone.txt", Source_Stone);
   ("regen.txt", Source_Regen)].
#[export] Instance SpawnSource_strings : EnumString SpawnSource := {| variants := SpawnSource_variants |}.
Inductive MotionSetKind : Type := MotionSet_Mob | MotionSet_Player.
#[export] Instance MotionSetKind_eq_dec : EqDecision MotionSetKind.
Proof. solve_decision. Defined.
Definition MotionSetKind_variants : list (string * MotionSetKind) :=
  [("MOB", MotionSet_Mob); ("PLAYER", MotionSet_Player)].
#[export] Instance MotionSetKind_strings : EnumString MotionSetKind := {| variants := MotionSetKind_variants |}.
Inductive MotionMode : Type :=
| Mode_General | Mode_TwohandSword | Mode_OnehandSword | Mode_DualhandSword | Mode_Bow | Mode_Bell | Mode_Fan | Mode_Fishing
| Mode_Horse | Mode_HorseOnehandSword | Mode_HorseTwohandSword | Mode_HorseDualhandSword | Mode_HorseBow | Mode_HorseFan
| Mode_HorseBell | Mode_WeddingDress.
#[export] Instance MotionMode_eq_dec : EqDecision MotionMode.
Proof. solve_decision. Defined.
Definition MotionMode_variants : list (string * MotionMode) :=
  [("GENERAL", Mode_General); ("TWOHAND_SWORD", Mode_TwohandSword); ("ONEHAND_SWORD", Mode_OnehandSword);
   ("DUALHAND_SWORD", Mode_DualhandSword); ("BOW", Mode_Bow); ("BELL", Mode_Bell); ("FAN", Mode_Fan);
   ("FISHING", Mode_Fishing); ("HORSE", Mode_Horse); ("HORSE_ONEHAND_SWORD", Mode_HorseOnehandSword);
   ("HORSE_TWOHAND_SWORD", Mode_HorseTwohandSword); ("HORSE_DUALHAND_SWORD", Mode_HorseDualhandSword);
   ("HORSE_BOW", Mode_HorseBow); ("HORSE_FAN", Mode_HorseFan); ("HORSE_BELL", Mode_HorseBell);
   ("WEDDING_DRESS", Mode_WeddingDress)].
#[export] Instance MotionMode_strings : EnumString MotionMode := {| variants := MotionMode_variants |}.
Inductive MotionAction : Type :=
| Motion_WaitAction | Motion_WalkAction | Motion_RunAction | Motion_Damage | Motion_DamageFlying | Motion_StandUp
| Motion_DamageBack | Motion_DamageFlyingBack | Motion_StandUpBack | Motion_Dead | Motion_DeadBack | Motion_NormalAttack
| Motion_ComboAttack1 | Motion_ComboAttack2 | Motion_ComboAttack3 | Motion_Spawn | Motion_Stop | Motion_Special1
| Motion_Special2 | Motion_Special3 | Motion_Special4 | Motion_Special5 | Motion_Special6 | Motion_Skill1 | Motion_Skill2
| Motion_Skill3 | Motion_Skill4 | Motion_Skill5.
#[export] Instance MotionAction_eq_dec : EqDecision MotionAction.
Proof. solve_decision. Defined.
Definition MotionAction_variants : list (string * MotionAction) :=
  [("WAIT", Motion_WaitAction); ("WALK", Motion_WalkAction); ("RUN", Motion_RunAction); ("DAMAGE", Motion_Damage);
   ("DAMAGE_FLYING", Motion_DamageFlying); ("STAND_UP", Motion_StandUp); ("DAMAGE_BACK", Motion_DamageBack);
   ("DAMAGE_FLYING_BACK", Motion_DamageFlyingBack); ("STAND_UP_BACK", Motion_StandUpBack); ("DEAD", Motion_Dead);
   ("DEAD_BACK", Motion_DeadBack); ("NORMAL_ATTACK", Motion_NormalAttack);
   ("COMBO_ATTACK_1", Motion_ComboAttack1); ("COMBO_ATTACK_2", Motion_ComboAttack2);
   ("COMBO_ATTACK_3", Motion_ComboAttack3); ("SPAWN", Motion_Spawn); ("STOP", Motion_Stop);
   ("SPECIAL_1", Motion_Special1); ("SPECIAL_2", Motion_Special2); ("SPECIAL_3", Motion_Special3);
   ("SPECIAL_4", Motion_Special4); ("SPECIAL_5", Motion_Special5); ("SPECIAL_6", Motion_Special6);
   ("SKILL_1", Motion_Skill1); ("SKILL_2", Motion_Skill2); ("SKILL_3", Motion_Skill3);
   ("SKILL_4", Motion_Skill4); ("SKILL_5", Motion_Skill5)].
#[export] Instance MotionAction_strings : EnumString MotionAction := {| variants := MotionAction_variants |}.
Close Scope string_scope.

(** ** Rows and records *)
(** Columns stored as text have the type of the text in a row, and of the value it
    names in a record of the catalogue. *)
Set Implicit Arguments.
Record MobOf (T R B F : Type) : Type := {
  cmob_id : Z; cmob_code : string; cmob_name : string; cmob_type : T; cmob_rank : R; cmob_battle_type : B; cmob_level : Z;
  cmob_ai_flags : F; cmob_move_speed : Z; cmob_attack_speed : Z; cmob_aggressive_sight : Z; cmob_attack_range : Z;
  cmob_strength : Z; cmob_dexterity : Z; cmob_vitality : Z; cmob_intelligence : Z; cmob_damage_min : Z; cmob_damage_max : Z;
  cmob_max_hp : Z; cmob_defense : Z; cmob_damage_multiplier : spec_float; cmob_experience : Z }.
Definition ContentMob : Type := MobOf MobType MobRank MobBattleType Z.
Definition MobRow : Type := MobOf string string string (option string).

Record MapRow : Type := {
  mrow_map_id : MapId; mrow_width : spec_float; mrow_height : spec_float; mrow_empire : option string;
  mrow_base_x : option spec_float; mrow_base_y : option spec_float }.
Record TownSpawnRow : Type := { tsr_map_id : MapId; tsr_empire : string; tsr_x : spec_float; tsr_y : spec_float }.
Record EmpireStartRow : Type := {
  esr_empire : string; esr_start_map_id : MapId; esr_start_x : spec_float; esr_start_y : spec_float }.
Record TerrainRow : Type := {
  trow_map_id : MapId; trow_cell_size_m : spec_float; trow_codec : string; trow_raw_len : Z; trow_data : list Z }.
Record ContentTerrain : Type := {
  cter_map_id : MapId; cter_cell_size_m : spec_float; cter_grid_width : Z; cter_grid_height : Z; cter_data : list Z }.

Record MobGroupRow : Type := { grow_group_id : Z; grow_code : option string; grow_mob_id : option Z }.
Record MobGroupRecord : Type := { mgr_group_id : Z; mgr_code : option string; mgr_entries : list Z }.
Record MobGroupGroupRow : Type := {
  ggrow_id : Z; ggrow_code : option string; ggrow_group_id : option Z; ggrow_weight : option Z }.
Record MobGroupGroupEntry : Type := { gge_group_id : Z; gge_weight : Z }.
Record MobGroupGroupRecord : Type := { ggr_id : Z; ggr_code : option string; ggr_entries : list MobGroupGroupEntry }.

Record ChatStrategyOf (T : Type) : Type := {
  cst_context : string; cst_mob_type : option T; cst_mob_id : option Z; cst_interval_min_sec : Z; cst_interval_max_sec : Z }.
Record ContentChatLine : Type := { ccl_mob_id : Z; ccl_context : string; ccl_source_key : string; ccl_text : string }.

Inductive SpawnTarget : Type := Target_Mob (mob_id : Z) | Target_Group (group_id : Z) | Target_GroupGroup (group_group_id : Z).
Record SpawnOf (T S R : Type) : Type := {
  spn_map_id : MapId; spn_target : T; spn_type : S; spn_source : R; spn_center_x : spec_float; spn_center_y : spec_float;
  spn_extent_x : spec_float; spn_extent_y : spec_float; spn_direction : Z; spn_regen_time_sec : Z; spn_regen_percent : Z;
  spn_max_count : Z }.
Definition SpawnRuleRecord : Type := SpawnOf SpawnTarget SpawnType SpawnSource.
(** The three target columns. *)
Definition SpawnRow : Type := SpawnOf (option Z * option Z * option Z) string string.

Record MotionOf (K M A : Type) : Type := {
  cmo_motion_id : Z; cmo_set_id : string; cmo_set_kind : K; cmo_mob_id : option Z; cmo_profile_id : option Z; cmo_mode : M;
  cmo_action : A; cmo_variant_index : Z; cmo_weight : Z; cmo_duration_ms : Z; cmo_accum_x : option spec_float;
  cmo_accum_y : option spec_float; cmo_source : string }.
Definition ContentMotion : Type := MotionOf MotionSetKind MotionMode MotionAction.
Definition MotionRow : Type := MotionOf string string string.
Record ContentHitWindow : Type := { chw_motion_id : Z; chw_hit_index : Z; chw_start_ms : Z; chw_end_ms : option Z }.
Record ContentFlyEvent : Type := { cfe_motion_id : Z; cfe_event_index : Z; cfe_release_ms : Z; cfe_fly_file : option string }.
Record FlyDataOf (H : Type) : Type := {
  cfd_fly_file : string; cfd_init_vel : spec_float; cfd_bomb_range : spec_float; cfd_accel_y : spec_float; cfd_is_homing : H }.
Record ProfileOf (C G : Type) : Type := { cpr_profile_id : Z; cpr_legacy_race_num : Z; cpr_class : C; cpr_gender : G }.
Record ClassBaseStatsOf (C : Type) : Type := {
  cbs_class : C; cbs_strength : Z; cbs_vitality : Z; cbs_dexterity : Z; cbs_intelligence : Z; cbs_hp : Z; cbs_sp : Z;
  cbs_hp_per_vitality : Z; cbs_sp_per_intelligence : Z; cbs_hp_per_level_min : Z; cbs_hp_per_level_max : Z;
  cbs_sp_per_level_min : Z; cbs_sp_per_level_max : Z; cbs_stamina : Z; cbs_stamina_per_vitality : Z;
  cbs_stamina_per_level_min : Z; cbs_stamina_per_level_max : Z }.

Unset Implicit Arguments.

(** What the queries give, and the catalogue: [Coords.ContentCatalog] is the part of
    it the coordinates are made of. *)
Record ContentRows : Type := {
  rows_maps : list MapRow; rows_town_spawns : list TownSpawnRow; rows_empire_starts : list EmpireStartRow;
  rows_terrain : list TerrainRow; rows_mobs : list MobRow; rows_mob_groups : list MobGroupRow;
  rows_mob_group_groups : list MobGroupGroupRow; rows_profiles : list (ProfileOf string string);
  rows_spawns : list SpawnRow; rows_motion : list MotionRow; rows_hit_windows : list ContentHitWindow;
  rows_fly_events : list ContentFlyEvent; rows_fly_data : list (FlyDataOf Z);
  rows_chat_strategies : list (ChatStrategyOf string); rows_chat_lines : list ContentChatLine;
  rows_classes : list (ClassBaseStatsOf string); rows_level_exp : list LevelExpEntry }.
Record Catalog : Type := {
  cat_coords : ContentCatalog; cat_terrain : list ContentTerrain; cat_mobs : list ContentMob;
  cat_mob_groups : list MobGroupRecord; cat_mob_group_groups : list MobGroupGroupRecord;
  cat_profiles : list (ProfileOf PlayerClass PlayerGender); cat_spawns : list SpawnRuleRecord;
  cat_motion : list ContentMotion; cat_hit_windows : list ContentHitWindow; cat_fly_events : list ContentFlyEvent;
  cat_fly_data : list (FlyDataOf bool); cat_chat_strategies : list (ChatStrategyOf MobType);
  cat_chat_lines : list ContentChatLine; cat_classes : list (ClassBaseStatsOf PlayerClass);
  cat_level_exp : list LevelExpEntry }.

(** ** Loading *)
Section Loaders.
Variable parse_ai_flags : string -> option Z.
Variable zstd_decode : list Z -> option (list Z).

Definition load_maps (rows : list MapRow) : result (list ContentMap) ContentError :=
  collect (fun row =>
    let? empire := parse_optional (mrow_empire row) "Empire" in
    Ok {| cm_map_id := mrow_map_id row; cm_width := mrow_width row; cm_height := mrow_height row; cm_empire := empire;
          cm_base_x := mrow_base_x row; cm_base_y := mrow_base_y row |}) rows.
Definition load_town_spawns (rows : list TownSpawnRow) : result (list MapTownSpawn) ContentError :=
  collect (fun row =>
    let? empire := parse_enum (tsr_empire row) "Empire" in
    Ok {| mts_map_id := tsr_map_id row; mts_empire := empire; mts_x := tsr_x row; mts_y := tsr_y row |}) rows.
Definition load_empire_start_configs (rows : list EmpireStartRow) : result (list EmpireStartConfig) ContentError :=
  collect (fun row =>
    let? empire := parse_enum (esr_empire row) "Empire" in
    Ok {| esc_empire := empire; esc_start_map_id := esr_start_map_id row; esc_start_x := esr_start_x row;
          esc_start_y := esr_start_y row |}) rows.

(** [f64::round]: half away from zero. *)
Definition f64_round (x : spec_float) : spec_float :=
  match x with
  | S754_finite s m e =>
      if 0 <=? e then x
      else
        let unit := 2 ^ (- e) in
        let q := Z.pos m / unit in
        let n := if unit <=? 2 * (Z.pos m mod unit) then q + 1 else q in
        if n =? 0 then S754_zero s else if s then SFopp (f_of_int binary64 n) else f_of_int binary64 n
  | _ => x
  end.
(** A finite [f32] is an [f64] as it is. *)
Definition derive_axis_len (map_extent_m cell_size_m : spec_float) : option Z :=
  if negb (f_is_finite map_extent_m) || negb (f_is_finite cell_size_m) || SFleb map_extent_m f32_zero || SFleb cell_size_m f32_zero
  then None
  else
    let quotient := f_div binary64 map_extent_m cell_size_m in
    let rounded := f64_round quotient in
    if SFltb (f_lit binary64 1 1000000) (SFabs (f_sub binary64 quotient rounded)) || SFleb rounded (S754_zero false) ||
       SFltb (f_of_int binary64 usize_max) rounded
    then None
    else Some (f_to_int 0 usize_max rounded).
Definition decode_payload (codec : string) (payload : list Z) : option (list Z) :=
  if bool_decide (codec = "NONE"%string) then Some payload
  else if bool_decide (codec = "ZSTD"%string) then zstd_decode payload
  else None.
(** A row of the terrain: kept, or skipped with a warning. *)
Definition terrain_of_row (map_dims : gmap MapId (spec_float * spec_float)) (row : TerrainRow) : option ContentTerrain :=
  dims ← map_dims !! trow_map_id row;
  grid_width ← derive_axis_len (fst dims) (trow_cell_size_m row);
  grid_height ← derive_axis_len (snd dims) (trow_cell_size_m row);
  let expected_raw_len := (grid_width * grid_height)%Z in
  if usize_max <? expected_raw_len then None
  else if (trow_raw_len row <? 0) || negb (trow_raw_len row =? expected_raw_len) then None
  else
    decoded ← decode_payload (trow_codec row) (trow_data row);
    if negb (Z.of_nat (length decoded) =? expected_raw_len) then None
    else Some {| cter_map_id := trow_map_id row; cter_cell_size_m := trow_cell_size_m row; cter_grid_width := grid_width;
                 cter_grid_height := grid_height; cter_data := decoded |}.
Definition load_map_flag_grids (rows : list TerrainRow) (maps : list ContentMap) : list ContentTerrain :=
  let map_dims := fold_left (fun dims map => <[cm_map_id map := (cm_width map, cm_height map)]> dims) maps ∅ in
  omap (terrain_of_row map_dims) rows.

(** [entry(id).or_insert_with(...)], then the push. *)
Definition push_group_row (by_group : list (Z * MobGroupRecord)) (row : MobGroupRow) : list (Z * MobGroupRecord) :=
  let group := default {| mgr_group_id := grow_group_id row; mgr_code := grow_code row; mgr_entries := [] |}
                 (bt_get by_group (grow_group_id row)) in
  bt_insert by_group (grow_group_id row)
    {| mgr_group_id := mgr_group_id group; mgr_code := mgr_code group;
       mgr_entries := mgr_entries group ++ option_list (grow_mob_id row) |}.
Definition load_mob_groups (rows : list MobGroupRow) : list MobGroupRecord := bt_values (fold_left push_group_row rows []).
Definition push_group_group_row (by_group : list (Z * MobGroupGroupRecord)) (row : MobGroupGroupRow)
  : list (Z * MobGroupGroupRecord) :=
  let group := default {| ggr_id := ggrow_id row; ggr_code := ggrow_code row; ggr_entries := [] |}
                 (bt_get by_group (ggrow_id row)) in
  bt_insert by_group (ggrow_id row)
    {| ggr_id := ggr_id group; ggr_code := ggr_code group;
       ggr_entries := ggr_entries group ++
         option_list ((fun group_id => {| gge_group_id := group_id; gge_weight := default 1 (ggrow_weight row) |})
                        <$> ggrow_group_id row) |}.
Definition load_mob_group_groups (rows : list MobGroupGroupRow) : list MobGroupGroupRecord :=
  bt_values (fold_left push_group_group_row rows []).

Definition parse_flags (raw kind : string) : result Z ContentError :=
  match parse_ai_flags raw with Some flags => Ok flags | None => Err (InvalidEnum kind raw) end.
Definition load_ai_flags (raw : option string) : result Z ContentError :=
  match (fun raw => text_of (trim (chars raw))) <$> raw with
  | None => Ok 0
  | Some value => if bool_decide (value = ""%string) then Ok 0 else parse_flags value "ai_flags"
  end.
Definition load_mobs (rows : list MobRow) : result (list ContentMob) ContentError :=
  collect (fun row : MobRow =>
    let? mob_type := parse_enum (cmob_type row) "mob_type" in
    let? rank := parse_enum (cmob_rank row) "rank" in
    let? battle_type := parse_enum (cmob_battle_type row) "battle_type" in
    let? ai_flags := load_ai_flags (cmob_ai_flags row) in
    Ok {| cmob_id := cmob_id row; cmob_code := cmob_code row; cmob_name := cmob_name row; cmob_type := mob_type;
          cmob_rank := rank; cmob_battle_type := battle_type; cmob_level := cmob_level row; cmob_ai_flags := ai_flags;
          cmob_move_speed := cmob_move_speed row; cmob_attack_speed := cmob_attack_speed row;
          cmob_aggressive_sight := cmob_aggressive_sight row; cmob_attack_range := cmob_attack_range row;
          cmob_strength := cmob_strength row; cmob_dexterity := cmob_dexterity row; cmob_vitality := cmob_vitality row;
          cmob_intelligence := cmob_intelligence row; cmob_damage_min := cmob_damage_min row;
          cmob_damage_max := cmob_damage_max row; cmob_max_hp := cmob_max_hp row; cmob_defense := cmob_defense row;
          cmob_damage_multiplier := cmob_damage_multiplier row; cmob_experience := cmob_experience row |}) rows.

Definition load_mob_chat_strategies (rows : list (ChatStrategyOf string)) : result (list (ChatStrategyOf MobType)) ContentError :=
  collect (fun row =>
    let? mob_type := parse_optional (cst_mob_type row) "mob_chat_strategy.mob_type" in
    Ok {| cst_context := cst_context row; cst_mob_type := mob_type; cst_mob_id := cst_mob_id row;
          cst_interval_min_sec := cst_interval_min_sec row; cst_interval_max_sec := cst_interval_max_sec row |}) rows.

(** One of the three columns, and only one; the text of the error is left out. *)
Definition spawn_target (columns : option Z * option Z * option Z) : result SpawnTarget ContentError :=
  match columns with
  | (Some mob_id, None, None) => Ok (Target_Mob mob_id)
  | (None, Some group_id, None) => Ok (Target_Group group_id)
  | (None, None, Some group_group_id) => Ok (Target_GroupGroup group_group_id)
  | _ => Err (InvalidEnum "spawn_target" "")
  end.
Definition load_spawn_rules (rows : list SpawnRow) : result (list SpawnRuleRecord) ContentError :=
  collect (fun row : SpawnRow =>
    let? spawn_type := parse_enum (spn_type row) "spawn_type" in
    let? spawn_source := parse_enum (spn_source row) "spawn_source" in
    let? target := spawn_target (spn_target row) in
    Ok {| spn_map_id := spn_map_id row; spn_target := target; spn_type := spawn_type; spn_source := spawn_source;
          spn_center_x := spn_center_x row; spn_center_y := spn_center_y row; spn_extent_x := spn_extent_x row;
          spn_extent_y := spn_extent_y row; spn_direction := spn_direction row; spn_regen_time_sec := spn_regen_time_sec row;
          spn_regen_percent := spn_regen_percent row; spn_max_count := spn_max_count row |}) rows.

Definition load_motion (rows : list MotionRow) : result (list ContentMotion) ContentError :=
  collect (fun row : MotionRow =>
    let? set_kind := parse_enum (cmo_set_kind row) "motion_set_kind" in
    let? motion_mode := parse_enum (cmo_mode row) "motion_mode" in
    let? motion_action := parse_enum (cmo_action row) "motion_action" in
    Ok {| cmo_motion_id := cmo_motion_id row; cmo_set_id := cmo_set_id row; cmo_set_kind := set_kind;
          cmo_mob_id := cmo_mob_id row; cmo_profile_id := cmo_profile_id row; cmo_mode := motion_mode;
          cmo_action := motion_action; cmo_variant_index := cmo_variant_index row; cmo_weight := cmo_weight row;
          cmo_duration_ms := cmo_duration_ms row; cmo_accum_x := cmo_accum_x row; cmo_accum_y := cmo_accum_y row;
          cmo_source := cmo_source row |}) rows.
Definition load_motion_fly_data (rows : list (FlyDataOf Z)) : list (FlyDataOf bool) :=
  map (fun row => {| cfd_fly_file := cfd_fly_file row; cfd_init_vel := cfd_init_vel row; cfd_bomb_range := cfd_bomb_range row;
                     cfd_accel_y := cfd_accel_y row; cfd_is_homing := negb (cfd_is_homing row =? 0) |}) rows.
Definition load_player_motion_profiles (rows : list (ProfileOf string string))
  : result (list (ProfileOf PlayerClass PlayerGender)) ContentError :=
  collect (fun row =>
    let? player_class := parse_enum (cpr_class row) "PlayerClass" in
    let? gender := parse_enum (cpr_gender row) "Gender" in
    Ok {| cpr_profile_id := cpr_profile_id row; cpr_legacy_race_num := cpr_legacy_race_num row; cpr_class := player_class;
          cpr_gender := gender |}) rows.
Definition load_player_class_base_stats (rows : list (ClassBaseStatsOf string))
  : result (list (ClassBaseStatsOf PlayerClass)) ContentError :=
  collect (fun row =>
    let? player_class := parse_enum (cbs_class row) "PlayerClass" in
    Ok {| cbs_class := player_class; cbs_strength := cbs_strength row; cbs_vitality := cbs_vitality row;
          cbs_dexterity := cbs_dexterity row; cbs_intelligence := cbs_intelligence row; cbs_hp := cbs_hp row;
          cbs_sp := cbs_sp row; cbs_hp_per_vitality := cbs_hp_per_vitality row;
          cbs_sp_per_intelligence := cbs_sp_per_intelligence row; cbs_hp_per_level_min := cbs_hp_per_level_min row;
          cbs_hp_per_level_max := cbs_hp_per_level_max row; cbs_sp_per_level_min := cbs_sp_per_level_min row;
          cbs_sp_per_level_max := cbs_sp_per_level_max row; cbs_stamina := cbs_stamina row;
          cbs_stamina_per_vitality := cbs_stamina_per_vitality row;
          cbs_stamina_per_level_min := cbs_stamina_per_level_min row;
          cbs_stamina_per_level_max := cbs_stamina_per_level_max row |}) rows.

(** The order in which the tables are read decides which error is seen. *)
Definition load_catalog (rows : ContentRows) : result Catalog ContentError :=
  let? maps := load_maps (rows_maps rows) in
  let? classes := load_player_class_base_stats (rows_classes rows) in
  let? town_spawns := load_town_spawns (rows_town_spawns rows) in
  let? mobs := load_mobs (rows_mobs rows) in
  let? profiles := load_player_motion_profiles (rows_profiles rows) in
  let? empire_starts := load_empire_start_configs (rows_empire_starts rows) in
  let? spawns := load_spawn_rules (rows_spawns rows) in
  let? motion := load_motion (rows_motion rows) in
  let? chat_strategies := load_mob_chat_strategies (rows_chat_strategies rows) in
  Ok {| cat_coords := {| cat_maps := maps; cat_town_spawns := town_spawns; cat_empire_start_configs := empire_starts |};
        cat_terrain := load_map_flag_grids (rows_terrain rows) maps; cat_mobs := mobs;
        cat_mob_groups := load_mob_groups (rows_mob_groups rows);
        cat_mob_group_groups := load_mob_group_groups (rows_mob_group_groups rows); cat_profiles := profiles;
        cat_spawns := spawns; cat_motion := motion; cat_hit_windows := rows_hit_windows rows;
        cat_fly_events := rows_fly_events rows; cat_fly_data := load_motion_fly_data (rows_fly_data rows);
        cat_chat_strategies := chat_strategies; cat_chat_lines := rows_chat_lines rows; cat_classes := classes;
        cat_level_exp := rows_level_exp rows |}.
End Loaders.

(** ** What the server makes of the catalogue *)
(** A record whose id is no [u32] is skipped with a warning. *)
Definition def_id_from_i64 (raw : Z) : option Z := if (0 <=? raw) && (raw <=? u32_max) then Some raw else None.
Definition i64_to_i32_saturating (raw : Z) : Z :=
  if (i32_min <=? raw) && (raw <=? i32_max) then raw else if raw <? 0 then i32_min else i32_max.
(** [as f32] *)
Definition f64_to_f32 (x : spec_float) : spec_float :=
  match x with
  | S754_finite s m e => binary_normalize 24 128 (if s then Z.neg m else Z.pos m) e s
  | _ => x
  end.

Definition MobType_to_domain (t : MobType) : option MobKind :=
  match t with
  | MobType_Npc => Some Mob_Npc | MobType_Monster => Some Mob_Monster | MobType_Stone => Some Mob_Stone
  | MobType_Warp => Some (Mob_Portal Portal_MapTransfer) | MobType_Goto => Some (Mob_Portal Portal_LocalReposition)
  | _ => None
  end.
Definition MobAiFlags_AGGR : Z := Z.shiftl 1 0.
Definition MobAiFlags_NOMOVE : Z := Z.shiftl 1 7.
Definition MobAiFlags_to_domain (flags : Z) : Z :=
  map_flags [(MobAiFlags_NOMOVE, BHV_NO_MOVE); (MobAiFlags_AGGR, BHV_AGGRESSIVE)] flags.
Definition ContentTerrain_BLOCK : Z := Z.shiftl 1 0.
Definition ContentTerrain_WATER : Z := Z.shiftl 1 1.
Definition ContentTerrain_SAFEZONE : Z := Z.shiftl 1 2.
Definition ContentTerrain_OBJECT : Z := Z.shiftl 1 7.
Definition TerrainFlags_to_domain (flags : Z) : Z :=
  map_flags [(ContentTerrain_BLOCK, TerrainFlags_BLOCK); (ContentTerrain_WATER, TerrainFlags_WATER);
             (ContentTerrain_SAFEZONE, TerrainFlags_SAFEZONE); (ContentTerrain_OBJECT, TerrainFlags_OBJECT)] flags.

Section Adapters.
Variable hypot : spec_float -> spec_float -> spec_float.

(** *** Speeds *)
Definition motion_profiles (catalog : Catalog) : gmap Z PlayerMotionProfileKey :=
  fold_left (fun by_id profile =>
    <[cpr_profile_id profile := {| pmk_class := cpr_class profile; pmk_gender := cpr_gender profile |}]> by_id)
    (cat_profiles catalog) ∅.
Definition motion_mode_of (motion : ContentMotion) : option MotionMoveMode :=
  match cmo_action motion with Motion_RunAction => Some Motion_Run | Motion_WalkAction => Some Motion_Walk | _ => None end.
Definition motion_target (profiles : gmap Z PlayerMotionProfileKey) (motion : ContentMotion) : option MotionEntityKey :=
  match cmo_set_kind motion with
  | MotionSet_Player =>
      profile_id ← cmo_profile_id motion;
      profile_key ← profiles !! profile_id;
      Some (MotionKey_Player profile_key)
  | MotionSet_Mob =>
      raw_mob_id ← cmo_mob_id motion;
      mob_id ← def_id_from_i64 raw_mob_id;
      Some (MotionKey_Mob mob_id)
  end.
Definition f64_zero : spec_float := S754_zero false.
(** [f64::EPSILON] *)
Definition f64_epsilon : spec_float := f_lit binary64 1 (2 ^ 52).
Definition motion_speed (motion : ContentMotion) : option spec_float :=
  let duration_ms := f_of_int binary64 (cmo_duration_ms motion) in
  if SFleb duration_ms f64_zero then None
  else
    accum_x ← cmo_accum_x motion;
    accum_y ← cmo_accum_y motion;
    let distance_units := hypot accum_x accum_y in
    if negb (f_is_finite distance_units) || SFleb distance_units f64_epsilon then None
    else
      let units_per_sec := f_mul binary64 (f_div binary64 distance_units duration_ms) (f_of_int binary64 1000) in
      if negb (f_is_finite units_per_sec) || SFleb units_per_sec f64_zero then None else Some (f64_to_f32 units_per_sec).
Definition upsert_motion (profiles : gmap Z PlayerMotionProfileKey) (table : EntityMotionSpeedTable) (motion : ContentMotion)
  : EntityMotionSpeedTable :=
  if negb (bool_decide (cmo_mode motion = Mode_General)) then table
  else
    match motion_mode_of motion, motion_target profiles motion, motion_speed motion with
    | Some move_mode, Some target, Some units_per_sec => upsert_speed table target move_mode units_per_sec
    | _, _, _ => table
    end.
Definition build_entity_motion_speeds (catalog : Catalog) : EntityMotionSpeedTable :=
  fold_left (upsert_motion (motion_profiles catalog)) (cat_motion catalog) EntityMotionSpeedTable_default.

(** *** Attack timings *)
Definition attack_motion (motion : ContentMotion) : option MobAttackMotion :=
  if bool_decide (cmo_set_kind motion = MotionSet_Mob) && bool_decide (cmo_mode motion = Mode_General) &&
     bool_decide (cmo_action motion = Motion_NormalAttack)
  then
    raw_mob_id ← cmo_mob_id motion;
    mob_id ← def_id_from_i64 raw_mob_id;
    Some {| mam_motion_id := cmo_motion_id motion; mam_mob_id := mob_id; weight := cmo_weight motion;
            duration_ms := cmo_duration_ms motion |}
  else None.
Definition build_mob_attack_timings (catalog : Catalog) : MobAttackTimingTable :=
  mob_attack_timings_from_motion (omap attack_motion (cat_motion catalog))
    (map (fun window => {| mhw_motion_id := chw_motion_id window; mhw_start_ms := chw_start_ms window;
                           mhw_end_ms := chw_end_ms window |}) (cat_hit_windows catalog))
    (map (fun event => {| mfe_motion_id := cfe_motion_id event; mfe_release_ms := cfe_release_ms event;
                          mfe_fly_file := cfe_fly_file event |}) (cat_fly_events catalog))
    (map (fun data => {| mfd_fly_file := cfd_fly_file data; init_vel := cfd_init_vel data; bomb_range := cfd_bomb_range data;
                         accel_y := cfd_accel_y data |}) (cat_fly_data catalog)).

(** *** Player rules *)
Definition class_entry (row : ClassBaseStatsOf PlayerClass) : PlayerClass * PlayerClassStatsConfig :=
  (cbs_class row,
   {| pcc_base_stats := {| cb_st := cbs_strength row; cb_ht := cbs_vitality row; cb_dx := cbs_dexterity row;
                           cb_iq := cbs_intelligence row |};
      pcc_stat_source := Source_Player
        {| pss_resources := {| base_max_hp := cbs_hp row; base_max_sp := cbs_sp row; base_max_stamina := cbs_stamina row;
                               hp_per_ht := cbs_hp_per_vitality row; sp_per_iq := cbs_sp_per_intelligence row;
                               stamina_per_ht := cbs_stamina_per_vitality row |};
           pss_growth := {| hp_per_level := (cbs_hp_per_level_min row, cbs_hp_per_level_max row);
                            sp_per_level := (cbs_sp_per_level_min row, cbs_sp_per_level_max row);
                            stamina_per_level := (cbs_stamina_per_level_min row, cbs_stamina_per_level_max row);
                            version := V1 |};
           pss_balance := default_player_balance_rules (cbs_class row);
           pss_speeds := SourceSpeeds_default |} |}).
(** [LevelExpTable::new] panics on a table that [try_new] refuses. *)
Definition LevelExpTable_new (entries : list LevelExpEntry) : option LevelExpTable :=
  match try_new entries with Ok table => Some table | Err _ => None end.
Definition build_player_stat_rules (catalog : Catalog) : option PlayerStatRules :=
  level_exp ← LevelExpTable_new (cat_level_exp catalog);
  Some {| class_stats := PlayerClassStatsTable_new (map class_entry (cat_classes catalog)); level_exp := level_exp |}.

(** *** Mobs *)
Definition default_mob_combat_extent_m (mob_kind : MobKind) : spec_float :=
  match mob_kind with Mob_Monster | Mob_Stone => f32_of_int 1 | Mob_Npc | Mob_Portal _ => f32_zero end.
Definition mob_proto_of (mob_id : MobId) (mob : ContentMob) : MobPrototypeDef :=
  let mob_kind := default Mob_Monster (MobType_to_domain (cmob_type mob)) in
  {| mp_mob_id := mob_id; mp_mob_kind := mob_kind; mp_name := cmob_name mob; mp_rank := cmob_rank mob;
     mp_battle_type := cmob_battle_type mob; mp_level := wrap_u 32 (cmob_level mob);
     mp_move_speed := wrap_u 8 (cmob_move_speed mob); mp_attack_speed := wrap_u 8 (cmob_attack_speed mob);
     mp_aggressive_sight := wrap_u 16 (cmob_aggressive_sight mob); mp_attack_range := wrap_u 16 (cmob_attack_range mob);
     mp_combat_extent_m := default_mob_combat_extent_m mob_kind;
     mp_combat := {| mc_strength := i64_to_i32_saturating (cmob_strength mob);
                     mc_dexterity := i64_to_i32_saturating (cmob_dexterity mob);
                     mc_vitality := i64_to_i32_saturating (cmob_vitality mob);
                     mc_intelligence := i64_to_i32_saturating (cmob_intelligence mob);
                     mc_damage_min := i64_to_i32_saturating (cmob_damage_min mob);
                     mc_damage_max := i64_to_i32_saturating (cmob_damage_max mob);
                     mc_max_hp := i64_to_i32_saturating (cmob_max_hp mob);
                     mc_defense := i64_to_i32_saturating (cmob_defense mob);
                     mc_damage_multiplier := f64_to_f32 (cmob_damage_multiplier mob) |};
     mp_experience := cmob_experience mob; mp_bhv_flags := MobAiFlags_to_domain (cmob_ai_flags mob); mp_empire := None |}.
Definition insert_mob (protos : gmap MobId MobPrototypeDef) (mob : ContentMob) : gmap MobId MobPrototypeDef :=
  match def_id_from_i64 (cmob_id mob) with
  | Some mob_id => <[mob_id := mob_proto_of mob_id mob]> protos
  | None => protos
  end.
Definition build_mob_proto (catalog : Catalog) : gmap MobId MobPrototypeDef := fold_left insert_mob (cat_mobs catalog) ∅.

(** *** Terrain; [None] is a panic of the navigator. *)
Definition insert_navigator (out : option (gmap MapId MapNavigator)) (terrain : ContentTerrain)
  : option (gmap MapId MapNavigator) :=
  out ← out;
  match TerrainFlagsGrid_new (cter_cell_size_m terrain) (cter_grid_width terrain) (cter_grid_height terrain)
          (map TerrainFlags_to_domain (cter_data terrain)) with
  | Some grid => navigator ← MapNavigator_new grid; Some (<[cter_map_id terrain := navigator]> out)
  | None => Some out
  end.
Definition build_map_navigators (catalog : Catalog) : option (gmap MapId MapNavigator) :=
  fold_left insert_navigator (cat_terrain catalog) (Some ∅).

(** *** What mobs say *)
Definition u32_try_from (raw : Z) : option Z := def_id_from_i64 raw.
Definition strategy_interval {T} (strategy : ChatStrategyOf T) : option MobChatStrategyInterval :=
  min_sec ← u32_try_from (cst_interval_min_sec strategy);
  max_sec ← u32_try_from (cst_interval_max_sec strategy);
  if (min_sec =? 0) || (max_sec <? min_sec) then None
  else Some {| interval_min_sec := min_sec; interval_max_sec := max_sec |}.
(** A [HashMap] keyed by a context and a kind: the entry of the key replaced, or a
    new one. *)
Fixpoint kind_defaults_insert (key : string * MobKind) (interval : MobChatStrategyInterval)
    (m : list ((string * MobKind) * MobChatStrategyInterval)) : list ((string * MobKind) * MobChatStrategyInterval) :=
  match m with
  | [] => [(key, interval)]
  | entry :: m => if decide (fst entry = key) then (key, interval) :: m else entry :: kind_defaults_insert key interval m
  end.
Definition insert_strategy (out : MobChatContent) (strategy : ChatStrategyOf MobType) : MobChatContent :=
  match strategy_interval strategy with
  | None => out
  | Some interval =>
      match cst_mob_type strategy, cst_mob_id strategy with
      | Some mob_type, None =>
          match MobType_to_domain mob_type with
          | Some mob_kind =>
              {| strategy_type_defaults :=
                   kind_defaults_insert (cst_context strategy, mob_kind) interval (strategy_type_defaults out);
                 strategy_mob_overrides := strategy_mob_overrides out; lines_by_mob := lines_by_mob out |}
          | None => out
          end
      | None, Some raw_mob_id =>
          match def_id_from_i64 raw_mob_id with
          | Some mob_id =>
              {| strategy_type_defaults := strategy_type_defaults out;
                 strategy_mob_overrides := <[(cst_context strategy, mob_id) := interval]> (strategy_mob_overrides out);
                 lines_by_mob := lines_by_mob out |}
          | None => out
          end
      | _, _ => out
      end
  end.
(** [trim().is_empty()] *)
Definition is_blank (s : string) : bool := bool_decide (trim (chars s) = []).
Definition insert_chat_line (out : MobChatContent) (line : ContentChatLine) : MobChatContent :=
  if is_blank (ccl_text line) || is_blank (ccl_source_key line) then out
  else
    match def_id_from_i64 (ccl_mob_id line) with
    | Some mob_id =>
        let key := (ccl_context line, mob_id) in
        {| strategy_type_defaults := strategy_type_defaults out; strategy_mob_overrides := strategy_mob_overrides out;
           lines_by_mob :=
             <[key := default [] (lines_by_mob out !! key) ++
                        [{| line_source_key := ccl_source_key line; line_text := ccl_text line |}]]> (lines_by_mob out) |}
    | None => out
    end.
Definition build_mob_chat_content (catalog : Catalog) : MobChatContent :=
  fold_left insert_chat_line (cat_chat_lines catalog)
    (fold_left insert_strategy (cat_chat_strategies catalog)
       {| strategy_type_defaults := []; strategy_mob_overrides := ∅; lines_by_mob := ∅ |}).

(** *** Spawn rules *)
Definition map_bounds (catalog : Catalog) : gmap MapId (spec_float * spec_float) :=
  fold_left (fun bounds map => <[cm_map_id map := (cm_width map, cm_height map)]> bounds) (cat_maps (cat_coords catalog)) ∅.
Definition group_members (catalog : Catalog) : gmap Z (list MobId) :=
  fold_left (fun groups group => <[mgr_group_id group := omap def_id_from_i64 (mgr_entries group)]> groups)
    (cat_mob_groups catalog) ∅.
Definition group_choice (groups : gmap Z (list MobId)) (entry : MobGroupGroupEntry) : option WeightedGroupChoice :=
  members ← groups !! gge_group_id entry;
  weight ← u32_try_from (Z.max (gge_weight entry) 1);
  Some {| wgc_members := members; wgc_weight := weight |}.
Definition group_group_choices (catalog : Catalog) : gmap Z (list WeightedGroupChoice) :=
  fold_left (fun choices group_group =>
    <[ggr_id group_group := omap (group_choice (group_members catalog)) (ggr_entries group_group)]> choices)
    (cat_mob_group_groups catalog) ∅.
Definition spawn_template (groups : gmap Z (list MobId)) (group_groups : gmap Z (list WeightedGroupChoice))
    (target : SpawnTarget) : option SpawnTemplate :=
  match target with
  | Target_Mob raw_mob_id => mob_id ← def_id_from_i64 raw_mob_id; Some (Template_Mob mob_id)
  | Target_Group group_id =>
      members ← groups !! group_id; if bool_decide (members = []) then None else Some (Template_Group members)
  | Target_GroupGroup group_group_id =>
      choices ← group_groups !! group_group_id; if bool_decide (choices = []) then None else Some (Template_GroupGroup choices)
  end.
Definition spawn_place (bounds : gmap MapId (spec_float * spec_float)) (spawn : SpawnRuleRecord) : option (LocalPos * LocalSize) :=
  if bool_decide (spn_type spawn = SpawnType_Anywhere) then
    dims ← bounds !! spn_map_id spawn;
    let half_width := f32_mul (fst dims) f32_half in
    let half_height := f32_mul (snd dims) f32_half in
    Some (mk_pos half_width half_height,
          {| size_width := f32_sub half_width f32_one; size_height := f32_sub half_height f32_one |})
  else Some (mk_pos (spn_center_x spawn) (spn_center_y spawn),
             {| size_width := spn_extent_x spawn; size_height := spn_extent_y spawn |}).
Definition from_content_raw (raw : Z) : option Direction :=
  match raw with
  | 1 => Some North | 2 => Some NorthEast | 3 => Some East | 4 => Some SouthEast | 5 => Some South | 6 => Some SouthWest
  | 7 => Some West | 8 => Some NorthWest | _ => None
  end.
(** [u8::try_from] first: what it refuses is no direction either. *)
Definition spawn_facing (direction : Z) : FacingStrategy :=
  match from_content_raw direction with Some d => Facing_Fixed d | None => Facing_Random end.
Definition spawn_rule_of (groups : gmap Z (list MobId)) (group_groups : gmap Z (list WeightedGroupChoice))
    (bounds : gmap MapId (spec_float * spec_float)) (spawn : SpawnRuleRecord) : option SpawnRuleDef :=
  template ← spawn_template groups group_groups (spn_target spawn);
  if bool_decide (spn_type spawn = SpawnType_Exception) then None
  else
    place ← spawn_place bounds spawn;
    Some {| sr_template := template; sr_area := SpawnArea_new (fst place) (snd place);
            sr_facing := spawn_facing (spn_direction spawn); sr_max_count := Z.max (spn_max_count spawn) 1;
            sr_regen_time := Z.max (spn_regen_time_sec spawn) 1 * 10 ^ 9 |}.
Definition push_spawn_rule (catalog : Catalog) (rules : gmap MapId (list SpawnRuleDef)) (spawn : SpawnRuleRecord)
  : gmap MapId (list SpawnRuleDef) :=
  match spawn_rule_of (group_members catalog) (group_group_choices catalog) (map_bounds catalog) spawn with
  | Some rule => <[spn_map_id spawn := default [] (rules !! spn_map_id spawn) ++ [rule]]> rules
  | None => rules
  end.
Definition build_spawn_rules (catalog : Catalog) : gmap MapId (list SpawnRuleDef) :=
  fold_left (push_spawn_rule catalog) (cat_spawns catalog) ∅.

(** ** [load_content] *)
Record LoadedContent : Type := {
  lc_coords : ContentCoords; lc_player_stats : PlayerStatRules; lc_map_key : MapInstanceKey;
  lc_shared_config : SharedConfig; lc_map_config : MapConfig }.
Inductive LoadError : Type :=
| Load_Coords (error : CoordsError) | Load_UnknownMap (map : string) | Load_MissingBounds (map : string).
Definition require_map_id (map_id : option MapId) (map_id_str : string) : result MapId LoadError :=
  match map_id with Some map_id => Ok map_id | None => Err (Load_UnknownMap map_id_str) end.
(** From the catalogue on; [None] is a panic. *)
Definition load_content (channel : Z) (map : string) (catalog : Catalog) : option (result LoadedContent LoadError) :=
  match from_catalog (cat_coords catalog) with
  | Err error => Some (Err (Load_Coords error))
  | Ok coords =>
      player_stats ← build_player_stat_rules catalog;
      match require_map_id (map_id_from_str coords map) map with
      | Err error => Some (Err error)
      | Ok map_id =>
          let map_key := {| mik_channel_id := channel; mik_map_id := map_id; mik_instance := Instance_Shared |} in
          all_navigators ← build_map_navigators catalog;
          let shared_config :=
            {| sc_motion_speeds := build_entity_motion_speeds catalog; sc_mob_attack_timings := build_mob_attack_timings catalog;
               sc_mobs := build_mob_proto catalog; sc_player_stats := player_stats; sc_wander := WanderConfig_default;
               sc_mob_chat := build_mob_chat_content catalog |} in
          match map_local_size coords map_id with
          | None => Some (Err (Load_MissingBounds map))
          | Some local_size =>
              Some (Ok {| lc_coords := coords; lc_player_stats := player_stats; lc_map_key := map_key;
                          lc_shared_config := shared_config;
                          lc_map_config :=
                            {| mcfg_map_key := map_key; mcfg_empire := map_empire coords map_id; mcfg_local_size := local_size;
                               mcfg_navigator := all_navigators !! map_id;
                               mcfg_spawn_rules := default [] (build_spawn_rules catalog !! map_id) |} |})
          end
      end
  end.
End Adapters.

(** ** What loading keeps *)
(** The texts of an enumeration are distinct and name each of its values. *)
Class EnumStringLaws (E : Type) `{EnumString E} : Prop := {
  texts_distinct : NoDup (fst <$> (variants : list (string * E)));
  values_named : forall e : E, e ∈ snd <$> (variants : list (string * E)) }.
Lemma parse_enum_ok {E} `{EnumStringLaws E} raw kind (e : E) : parse_enum raw kind = Ok e <-> (raw, e) ∈ (variants : list (string * E)).
Proof.
  unfold parse_enum. pose proof texts_distinct as N. revert N. generalize (variants : list (string * E)). intros l N.
  induction l as [| [text value] l IH]; cbn [List.find fst]; [split; [done | by intros ?%not_elem_of_nil] |].
  cbn in N. apply NoDup_cons in N as [Nt N]. specialize (IH N). rewrite elem_of_cons. case_bool_decide as D.
  - subst text. split; [intros [= ->]; by left | intros [[= ->] | I]; [done |]].
    exfalso. apply Nt, list_elem_of_fmap. by exists (raw, e).
  - rewrite IH. split; [by right | intros [[= -> _] | I]; done].
Qed.
Lemma parse_enum_named {E} `{EnumStringLaws E} kind (e : E) : exists raw, parse_enum raw kind = Ok e.
Proof. destruct (proj1 (list_elem_of_fmap _ _ _) (values_named e)) as ([raw e'] & -> & I). exists raw. by apply parse_enum_ok. Qed.
Ltac solve_texts := split; [apply (bool_decide_unpack _); vm_compute; exact I | intros []; cbn; repeat (first [left | right])].
#[export] Instance Empire_texts : EnumStringLaws Empire.
Proof. solve_texts. Qed.
#[export] Instance MobType_texts : EnumStringLaws MobType.
Proof. solve_texts. Qed.
#[export] Instance MobRank_texts : EnumStringLaws MobRank.
Proof. solve_texts. Qed.
#[export] Instance MobBattleType_texts : EnumStringLaws MobBattleType.
Proof. solve_texts. Qed.
#[export] Instance PlayerClass_texts : EnumStringLaws PlayerClass.
Proof. solve_texts. Qed.
#[export] Instance PlayerGender_texts : EnumStringLaws PlayerGender.
Proof. solve_texts. Qed.
#[export] Instance SpawnType_texts : EnumStringLaws SpawnType.
Proof. solve_texts. Qed.
#[export] Instance SpawnSource_texts : EnumStringLaws SpawnSource.
Proof. solve_texts. Qed.
#[export] Instance MotionSetKind_texts : EnumStringLaws MotionSetKind.
Proof. solve_texts. Qed.
#[export] Instance MotionMode_texts : EnumStringLaws MotionMode.
Proof. solve_texts. Qed.
#[export] Instance MotionAction_texts : EnumStringLaws MotionAction.
Proof. solve_texts. Qed.

Lemma collect_ok {A B E} (f : A -> result B E) l bs : collect f l = Ok bs <-> Forall2 (fun a b => f a = Ok b) l bs.
Proof.
  revert bs. induction l as [| a l IH]; intros bs; cbn [collect].
  - split; [intros [= <-]; constructor | by inversion 1].
  - destruct (f a) as [b | e] eqn:Ea; cbn [rbind]; [| split; [done | inversion 1; congruence]].
    destruct (collect f l) as [rest | e]; cbn [rbind].
    + split; [intros [= <-]; constructor; [done | by apply IH] |]. inversion 1 as [| ? b' ? bs' Eb F]; subst.
      apply IH in F as [= ->]. congruence.
    + split; [done |]. inversion 1 as [| ? b' ? bs' Eb F]; subst. by apply IH in F.
Qed.


(** *** Groups *)
(** Rows of one id, wherever they are among the rows, become one group, named as the
    first of them is, with the entries of all of them in their order. *)
Lemma mob_groups_get rows id : bt_get (fold_left push_group_row rows []) id =
  match filter (fun row => grow_group_id row = id) rows with
  | [] => None
  | (first :: _) as members => Some {| mgr_group_id := id; mgr_code := grow_code first; mgr_entries := omap grow_mob_id members |}
  end.
Proof.
  induction rows as [| row rows IH] using rev_ind; [done |]. rewrite fold_left_app, filter_app. cbn [fold_left]. unfold push_group_row at 1.
  destruct (decide (grow_group_id row = id)) as [E | N].
  - subst id. rewrite bt_get_insert_eq, IH, filter_cons_True by done. cbn [filter list_filter].
    destruct (filter _ rows) as [| first members]; cbn; [by destruct (grow_mob_id row) |]. do 2 f_equal.
    rewrite omap_app. cbn. by destruct (grow_mob_id first), (grow_mob_id row).
  - rewrite bt_get_insert_ne, IH, filter_cons_False by done. cbn [filter list_filter]. by rewrite app_nil_r.
Qed.
Definition group_group_entry (row : MobGroupGroupRow) : option MobGroupGroupEntry :=
  (fun group_id => {| gge_group_id := group_id; gge_weight := default 1 (ggrow_weight row) |}) <$> ggrow_group_id row.
Lemma mob_group_groups_get rows id : bt_get (fold_left push_group_group_row rows []) id =
  match filter (fun row => ggrow_id row = id) rows with
  | [] => None
  | (first :: _) as members => Some {| ggr_id := id; ggr_code := ggrow_code first; ggr_entries := omap group_group_entry members |}
  end.
Proof.
  induction rows as [| row rows IH] using rev_ind; [done |]. rewrite fold_left_app, filter_app. cbn [fold_left]. unfold push_group_group_row at 1.
  destruct (decide (ggrow_id row = id)) as [E | N].
  - subst id. rewrite bt_get_insert_eq, IH, filter_cons_True by done. cbn [filter list_filter]. fold (group_group_entry row).
    destruct (filter _ rows) as [| first members]; cbn; [by destruct (group_group_entry row) |]. do 2 f_equal.
    rewrite omap_app. cbn. by destruct (group_group_entry first), (group_group_entry row).
  - rewrite bt_get_insert_ne, IH, filter_cons_False by done. cbn [filter list_filter]. by rewrite app_nil_r.
Qed.


(** *** What a content database must promise *)
Definition class_row_ok (n : Z) (row : ClassBaseStatsOf PlayerClass) : Prop :=
  let core_max := core_stat_max (stored_limits (default_player_balance_rules (cbs_class row))) in
  capacity_ok n core_max (cbs_hp row) (cbs_hp_per_vitality row) (cbs_hp_per_level_min row, cbs_hp_per_level_max row) /\
  capacity_ok n core_max (cbs_sp row) (cbs_sp_per_intelligence row) (cbs_sp_per_level_min row, cbs_sp_per_level_max row) /\
  capacity_ok n core_max (cbs_stamina row) (cbs_stamina_per_vitality row)
    (cbs_stamina_per_level_min row, cbs_stamina_per_level_max row).
Definition catalog_levels (catalog : Catalog) : Z := Z.of_nat (length (cat_level_exp catalog)).
(** No more levels than an [i32] has, capacities that stay within an [i32], mobs'
    experience of the column's type, and maps at least a millimetre wide and high. *)
Record catalog_safe (catalog : Catalog) : Prop := {
  cs_levels : catalog_levels catalog <= i32_max;
  cs_classes : Forall (class_row_ok (catalog_levels catalog)) (cat_classes catalog);
  cs_mobs : Forall (fun mob => is_i64 (cmob_experience mob)) (cat_mobs catalog);
  cs_maps : Forall (fun m => axis_ok (cm_width m) /\ axis_ok (cm_height m)) (cat_maps (cat_coords catalog)) }.

Lemma saturated_le raw : i64_to_i32_saturating raw <= i32_max.
Proof. unfold i64_to_i32_saturating. unfold_widths. repeat case_match; lia. Qed.

Lemma built_rules_ok catalog rules : catalog_safe catalog -> build_player_stat_rules catalog = Some rules ->
  rules_ok (catalog_levels catalog) rules.
Proof.
  intros [L C _ _]. unfold build_player_stat_rules, LevelExpTable_new. destruct (try_new _) as [table | e] eqn:E; [| done].
  intros [= <-]. split; [by apply try_new_table_wf |]. split; [done |]. cbn [class_stats PlayerClassStatsTable_new pct_entries].
  apply Forall_map. eapply Forall_impl; [exact C |]. intros row (H1 & H2 & H3). cbn. unfold player_source_ok. cbn.
  split_and!; done || (vm_compute; discriminate).
Qed.

Lemma built_mobs_ok catalog id proto : catalog_safe catalog -> build_mob_proto catalog !! id = Some proto -> mob_content_ok proto.
Proof.
  intros [_ _ M _]. unfold build_mob_proto.
  assert (forall protos : gmap MobId MobPrototypeDef, (forall proto, protos !! id = Some proto -> mob_content_ok proto) ->
    forall proto, fold_left insert_mob (cat_mobs catalog) protos !! id = Some proto -> mob_content_ok proto) as Fold.
  { induction M as [| mob mobs Hm _ IH]; cbn [fold_left]; [done |]. intros protos P. apply IH. intros q. unfold insert_mob.
    destruct (def_id_from_i64 _) as [mob_id |]; [| apply P].
    intros [[-> <-] | [_ Q]]%lookup_insert_Some; [| by apply P]. split; [apply saturated_le | exact Hm]. }
  by apply Fold.
Qed.


(** *** The content of a map *)
Lemma loaded_inv hypot channel name catalog content : load_content hypot channel name catalog = Some (Ok content) ->
  exists coords rules size,
    from_catalog (cat_coords catalog) = Ok coords /\ build_player_stat_rules catalog = Some rules /\
    map_id_from_str coords name = Some name /\ map_local_size coords name = Some size /\
    sc_player_stats (lc_shared_config content) = rules /\ sc_mobs (lc_shared_config content) = build_mob_proto catalog /\
    mcfg_local_size (lc_map_config content) = size /\ mik_map_id (mcfg_map_key (lc_map_config content)) = name /\
    mcfg_spawn_rules (lc_map_config content) = default [] (build_spawn_rules catalog !! name).
Proof.
  unfold load_content. destruct (from_catalog _) as [coords | e]; [| done]. destruct (build_player_stat_rules _) as [rules |]; [| done].
  cbn [mbind option_bind]. destruct (map_id_from_str coords name) as [map_id |] eqn:Em; [| done]. cbn [require_map_id].
  assert (map_id = name) as -> by (revert Em; unfold map_id_from_str; case_match; congruence).
  destruct (build_map_navigators _) as [navigators |]; [| done]. cbn [mbind option_bind].
  destruct (map_local_size coords name) as [size |] eqn:Es; [| done]. intros [= <-]. exists coords, rules, size. by split_and!.
Qed.
Lemma loaded_map hypot channel name catalog content : load_content hypot channel name catalog = Some (Ok content) ->
  exists m, m ∈ cat_maps (cat_coords catalog) /\ cm_map_id m = name /\
    mcfg_local_size (lc_map_config content) = {| size_width := cm_width m; size_height := cm_height m |}.
Proof.
  intros (coords & _ & size & Ec & _ & _ & Es & _ & _ & El & _)%loaded_inv.
  pose proof (from_catalog_ok (cat_coords catalog)) as H. rewrite Ec in H. destruct H as [_ Co].
  unfold map_local_size in Es. destruct (maps coords !! name) as [meta |] eqn:Em; [| done]. injection Es as <-.
  apply (co_maps _ _ Co) in Em as (m & Hm & En & ->). by exists m.
Qed.
Lemma loaded_map_ok hypot channel name catalog content : catalog_safe catalog ->
  load_content hypot channel name catalog = Some (Ok content) -> map_config_ok (lc_map_config content).
Proof.
  intros [_ _ _ M] (m & Hm & _ & El)%loaded_map. unfold map_config_ok. rewrite El. rewrite Forall_forall in M. exact (M m Hm).
Qed.








(** [C2] From the database to a running map: content loaded for a map from a
    catalogue within the stated bounds satisfies what the simulation asks of its
    content, so that startup on it runs to its end whatever the environment does. *)
Theorem loaded_content_safe `{SimEnvLaws} `{!GrowthRngLaws} hypot channel name catalog content port (r : @Rng (@env_random H)) :
  catalog_safe catalog -> load_content hypot channel name catalog = Some (Ok content) ->
  shared_ok (catalog_levels catalog) (lc_shared_config content) /\ map_config_ok (lc_map_config content) /\
  exists w, startup (initial_world (lc_shared_config content) (lc_map_config content) port r) = Some (tt, w).
Proof.
  intros Safe E. pose proof (loaded_map_ok _ _ _ _ _ Safe E) as Mc.
  pose proof (loaded_inv _ _ _ _ _ E) as (coords & rules & size & _ & Er & _ & _ & Ep & Em & _).
  assert (shared_ok (catalog_levels catalog) (lc_shared_config content)) as Sh.
  { split; [rewrite Ep; by apply built_rules_ok |]. rewrite Em. intros id proto. by apply built_mobs_ok. }
  split_and!; [done.. |]. destruct (runs_startup _ _ _ port r Sh Mc) as (w & Ew & _). by exists w.
Qed.

(** *** A catalogue of one town *)
Section Sample.
Local Existing Instance sample_env.
#[local] Instance sample_growth : @GrowthRngLaws (@env_growth sample_env) := sample_rng_laws.
Open Scope string_scope.
Definition sample_content_rows : ContentRows :=
  {| rows_maps :=
       [{| mrow_map_id := "a1"; mrow_width := f32_of_int 4; mrow_height := f32_of_int 2; mrow_empire := Some "SHINSOO";
           mrow_base_x := Some (f32_of_int 4096); mrow_base_y := Some (f32_of_int 8960) |}];
     rows_town_spawns := [{| tsr_map_id := "a1"; tsr_empire := "SHINSOO"; tsr_x := f32_of_int 1; tsr_y := f32_of_int 1 |}];
     rows_empire_starts :=
       map (fun empire => {| esr_empire := empire; esr_start_map_id := "a1"; esr_start_x := f32_of_int 2; esr_start_y := f32_of_int 1 |})
         ["SHINSOO"; "CHUNJO"; "JINNO"];
     rows_terrain :=
       [{| trow_map_id := "a1"; trow_cell_size_m := f32_one; trow_codec := "NONE"; trow_raw_len := 8;
           trow_data := [0; 0; 1; 0; 0; 0; 1; 0] |}];
     rows_mobs :=
       [{| cmob_id := 101; cmob_code := "wild_dog"; cmob_name := "Wild Dog"; cmob_type := "MONSTER"; cmob_rank := "PAWN";
           cmob_battle_type := "MELEE"; cmob_level := 1; cmob_ai_flags := Some " "; cmob_move_speed := 100;
           cmob_attack_speed := 100; cmob_aggressive_sight := 2000; cmob_attack_range := 175; cmob_strength := 3;
           cmob_dexterity := 6; cmob_vitality := 5; cmob_intelligence := 2; cmob_damage_min := 16; cmob_damage_max := 20;
           cmob_max_hp := 2 ^ 40; cmob_defense := 4; cmob_damage_multiplier := f_of_int binary64 1; cmob_experience := 15 |}];
     rows_mob_groups := [{| grow_group_id := 1; grow_code := None; grow_mob_id := Some 101 |}];
     rows_mob_group_groups := [{| ggrow_id := 1; ggrow_code := None; ggrow_group_id := Some 1; ggrow_weight := Some 0 |}];
     rows_profiles := [{| cpr_profile_id := 1; cpr_legacy_race_num := 0; cpr_class := "WARRIOR"; cpr_gender := "MALE" |}];
     rows_spawns :=
       [{| spn_map_id := "a1"; spn_target := (None, None, Some 1); spn_type := "ANYWHERE"; spn_source := "regen.txt";
           spn_center_x := f32_zero; spn_center_y := f32_zero; spn_extent_x := f32_zero; spn_extent_y := f32_zero;
           spn_direction := 0; spn_regen_time_sec := 0; spn_regen_percent := 100; spn_max_count := 1 |}];
     rows_motion :=
       [{| cmo_motion_id := 1; cmo_set_id := "warrior"; cmo_set_kind := "PLAYER"; cmo_mob_id := None; cmo_profile_id := Some 1;
           cmo_mode := "GENERAL"; cmo_action := "RUN"; cmo_variant_index := 0; cmo_weight := 100; cmo_duration_ms := 500;
           cmo_accum_x := Some f32_zero; cmo_accum_y := Some (f32_of_int 2); cmo_source := "run.msa" |}];
     rows_hit_windows := []; rows_fly_events := []; rows_fly_data := [];
     rows_chat_strategies :=
       [{| cst_context := "idle"; cst_mob_type := Some "MONSTER"; cst_mob_id := None; cst_interval_min_sec := 5;
           cst_interval_max_sec := 10 |}];
     rows_chat_lines := [{| ccl_mob_id := 101; ccl_context := "idle"; ccl_source_key := "k"; ccl_text := "Woof" |}];
     rows_classes :=
       [{| cbs_class := "WARRIOR"; cbs_strength := 6; cbs_vitality := 4; cbs_dexterity := 3; cbs_intelligence := 3;
           cbs_hp := 600; cbs_sp := 200; cbs_hp_per_vitality := 40; cbs_sp_per_intelligence := 20; cbs_hp_per_level_min := 36;
           cbs_hp_per_level_max := 44; cbs_sp_per_level_min := 18; cbs_sp_per_level_max := 22; cbs_stamina := 800;
           cbs_stamina_per_vitality := 5; cbs_stamina_per_level_min := 5; cbs_stamina_per_level_max := 8 |}];
     rows_level_exp := sample_levels |}.
Close Scope string_scope.
Definition sample_catalog : result Catalog ContentError := load_catalog (fun _ => None) (fun _ => None) sample_content_rows.
Definition sample_content (catalog : Catalog) : option (result LoadedContent LoadError) :=
  load_content (fun _ y => SFabs y) 1 "a1" catalog.
Lemma sample_catalog_safe catalog : sample_catalog = Ok catalog -> catalog_safe catalog.
Proof.
  intros E. vm_compute in E. injection E as <-. split; [vm_compute; discriminate | | |].
  - constructor; [| constructor]. unfold class_row_ok, capacity_ok. vm_compute. split_and!; discriminate.
  - constructor; [| constructor]. vm_compute. split; discriminate.
  - constructor; [| constructor]. split; reflexivity.
Qed.
Lemma loaded_content_safe_witness : exists catalog content w,
  sample_catalog = Ok catalog /\ sample_content catalog = Some (Ok content) /\
  length (mcfg_spawn_rules (lc_map_config content)) = 1%nat /\
  startup (initial_world (lc_shared_config content) (lc_map_config content) None (0 : @Rng sample_random)) = Some (tt, w).
Proof.
  destruct sample_catalog as [catalog | e] eqn:E; [| vm_compute in E; discriminate].
  destruct (sample_content catalog) as [[content | e] |] eqn:C; [| vm_compute in E; injection E as <-; vm_compute in C; discriminate..].
  destruct (loaded_content_safe (H := sample_env) (fun _ y => SFabs y) 1 "a1" catalog content None 0) as (_ & _ & w & Ew);
    [by apply sample_catalog_safe | exact C |].
  exists catalog, content, w. split; [reflexivity |]. split; [exact C |]. split; [| exact Ew].
  vm_compute in E. injection E as <-. vm_compute in C. injection C as <-. reflexivity.
Defined.
End Sample.

(** * Migrations ([migrations/private_data.rs], [migrations/schema.rs], [builder.rs]) *)
Module Migrations.
(** ** Statements of a script *)
Record SplitState : Type := {
  current : list char; in_single_quote : bool; in_double_quote : bool; in_line_comment : bool; in_block_comment : bool }.
Definition with_current (st : SplitState) (current : list char) : SplitState :=
  {| current := current; in_single_quote := in_single_quote st; in_double_quote := in_double_quote st;
     in_line_comment := in_line_comment st; in_block_comment := in_block_comment st |}.
Definition with_quotes (st : SplitState) (current : list char) (single double : bool) : SplitState :=
  {| current := current; in_single_quote := single; in_double_quote := double; in_line_comment := in_line_comment st;
     in_block_comment := in_block_comment st |}.
Definition with_comments (st : SplitState) (line block : bool) : SplitState :=
  {| current := current st; in_single_quote := in_single_quote st; in_double_quote := in_double_quote st;
     in_line_comment := line; in_block_comment := block |}.
Definition is_char (c : char) (code : Z) : bool := code_point c =? code.
Definition peeks (l : list char) (code : Z) : bool := match l with c :: _ => is_char c code | [] => false end.
(** The statement collected, if it is not blank. *)
Definition statement_of (current : list char) : list (list char) := match trim current with [] => [] | stmt => [stmt] end.
(** The loop; 39 and 34 are the quotes, 45, 47 and 42 make the comments, 59 ends a statement. *)
Fixpoint split_from (l : list char) (st : SplitState) : list (list char) :=
  match l with
  | [] => statement_of (current st)
  | ch :: l =>
      let push := current st ++ [ch] in
      if in_line_comment st then
        split_from l (if is_char ch 10 then with_comments (with_current st push) false (in_block_comment st) else st)
      else if in_block_comment st then
        match l with
        | next :: l' =>
            if is_char ch 42 && is_char next 47 then split_from l' (with_comments st (in_line_comment st) false) else split_from l st
        | [] => split_from l st
        end
      else
        let plain := negb (in_single_quote st) && negb (in_double_quote st) in
        match l with
        | next :: l' =>
            if plain && is_char ch 45 && is_char next 45 then split_from l' (with_comments st true (in_block_comment st))
            else if plain && is_char ch 47 && is_char next 42 then split_from l' (with_comments st (in_line_comment st) true)
            else if is_char ch 39 && negb (in_double_quote st) then
              if in_single_quote st && is_char next 39 then split_from l' (with_current st (push ++ [next]))
              else split_from l (with_quotes st push (negb (in_single_quote st)) (in_double_quote st))
            else if is_char ch 34 && negb (in_single_quote st) then
              split_from l (with_quotes st push (in_single_quote st) (negb (in_double_quote st)))
            else if is_char ch 59 && plain then statement_of (current st) ++ split_from l (with_current st [])
            else split_from l (with_current st push)
        | [] =>
            if is_char ch 39 && negb (in_double_quote st) then
              split_from l (with_quotes st push (negb (in_single_quote st)) (in_double_quote st))
            else if is_char ch 34 && negb (in_single_quote st) then
              split_from l (with_quotes st push (in_single_quote st) (negb (in_double_quote st)))
            else if is_char ch 59 && plain then statement_of (current st) ++ split_from l (with_current st [])
            else split_from l (with_current st push)
        end
  end.
Definition split_start : SplitState :=
  {| current := []; in_single_quote := false; in_double_quote := false; in_line_comment := false; in_block_comment := false |}.
Definition split_sql_statements (sql : string) : list string := text_of <$> split_from (chars sql) split_start.

(** ** Files *)
(** The order of Rust's strings and path components: that of their bytes. *)
Fixpoint bytes_le (a b : list Z) : bool :=
  match a, b with
  | [], _ => true
  | _ :: _, [] => false
  | x :: a, y :: b => (x <? y) || ((x =? y) && bytes_le a b)
  end.
Definition text_le (a b : string) : Prop := bytes_le (bytes_of a) (bytes_of b) = true.
#[export] Instance text_le_dec a b : Decision (text_le a b).
Proof. unfold text_le. apply _. Defined.
Definition by_name {A} (a b : string * A) : Prop := text_le (fst a) (fst b).
#[export] Instance by_name_dec {A} (a b : string * A) : Decision (by_name a b).
Proof. unfold by_name. apply _. Defined.

(** What a directory lists, in any order: a file with its text or the error of
    reading it, or something else; and what the root lists. *)
Inductive PackEntry : Type := Pack_file (contents : result string string) | Pack_other.
Inductive RootEntry : Type := Root_pack (entries : list (string * PackEntry)) | Root_other.

Definition numeric_prefix (name : string) : option string :=
  match (fix take_digits (l : list Z) : list Z :=
           match l with b :: l => if between 48 b 57 then b :: take_digits l else [] | [] => [] end) (bytes_of name) with
  | [] => None
  | digits => Some (of_bytes digits)
  end.
Fixpoint unique_prefixes (names : list string) (scope : string) (seen : list string) : result unit ContentError :=
  match names with
  | [] => Ok tt
  | name :: names =>
      match numeric_prefix name with
      | None => unique_prefixes names scope seen
      | Some prefix =>
          if bool_decide (prefix ∈ seen) then Err (DuplicatePrefix scope prefix) else unique_prefixes names scope (prefix :: seen)
      end
  end.
Definition ensure_unique_numeric_prefixes (names : list string) (scope : string) : result unit ContentError :=
  unique_prefixes names scope [].
(** [Path::extension]: after the last dot, if something is before it. *)
Fixpoint after_last_dot (l : list Z) (found : option (list Z)) : option (list Z) :=
  match l with [] => found | b :: l => after_last_dot l (if b =? 46 then Some l else found) end.
Definition extension (name : string) : option string :=
  match bytes_of name with [] => None | _ :: l => of_bytes <$> after_last_dot l None end.

Record DiscoveredMigration : Type := { dm_id : string; dm_hash : string; dm_sql : string }.
Definition by_id (a b : DiscoveredMigration) : Prop := text_le (dm_id a) (dm_id b).
#[export] Instance by_id_dec a b : Decision (by_id a b).
Proof. unfold by_id. apply _. Defined.
Record AppliedMigration : Type := { am_id : string; am_hash : string; am_rejected_count : Z }.
Record RejectedStatement : Type := { rs_migration_id : string; rs_statement_index : Z; rs_error : string }.

(** SQLite: what a script leaves of a database, or the error that refuses it; a
    savepoint or transaction then restores the database. *)
Class Sqlite : Type := { SqlDb : Type; fresh_db : SqlDb; exec_sql : string -> SqlDb -> result SqlDb string; sha256_hex : string -> string }.

Section Apply.
Context `{Sqlite}.
Definition hash_text (value : string) : string := sha256_hex value.

Definition sql_files (entries : list (string * PackEntry)) : list (string * result string string) :=
  merge_sort by_name
    (omap (fun entry => match snd entry with
                        | Pack_file contents => if decide (extension (fst entry) = Some "sql"%string) then Some (fst entry, contents) else None
                        | Pack_other => None
                        end) entries).
Definition discover_pack (pack : string * list (string * PackEntry)) : result (list DiscoveredMigration) ContentError :=
  let files := sql_files (snd pack) in
  let? _ := ensure_unique_numeric_prefixes (fst <$> files) ("pack " ++ fst pack)%string in
  collect (fun file =>
    match snd file with
    | Ok sql => Ok {| dm_id := (fst pack ++ "/" ++ fst file)%string; dm_hash := hash_text sql; dm_sql := sql |}
    | Err error => Err (ContentIo error)
    end) files.
Definition discover_private_migrations (root : option (list (string * RootEntry))) : result (list DiscoveredMigration) ContentError :=
  match root with
  | None => Ok []
  | Some entries =>
      let packs := merge_sort by_name
        (omap (fun entry => match snd entry with Root_pack files => Some (fst entry, files) | Root_other => None end) entries) in
      let? _ := ensure_unique_numeric_prefixes (fst <$> packs) "data/content packs" in
      let? found := collect discover_pack packs in
      Ok (merge_sort by_id (concat found))
  end.

(** The content tables, and the table of the scripts applied. *)
Record PrivateDb : Type := { pd_sql : SqlDb; pd_applied : gmap string (string * Z) }.
Fixpoint run_statements (id : string) (index : Z) (statements : list string) (db : SqlDb) : list RejectedStatement * SqlDb :=
  match statements with
  | [] => ([], db)
  | statement :: statements =>
      match exec_sql statement db with
      | Ok db => run_statements id (index + 1) statements db
      | Err error =>
          let '(rejected, db) := run_statements id (index + 1) statements db in
          ({| rs_migration_id := id; rs_statement_index := index; rs_error := error |} :: rejected, db)
      end
  end.
Fixpoint apply_migrations (migrations : list DiscoveredMigration) (db : PrivateDb)
  : result (list AppliedMigration * list RejectedStatement) ContentError * PrivateDb :=
  match migrations with
  | [] => (Ok ([], []), db)
  | migration :: migrations =>
      match pd_applied db !! dm_id migration with
      | Some (existing_hash, _) =>
          if negb (bool_decide (existing_hash = dm_hash migration))
          then (Err (MigrationHashDrift (dm_id migration) existing_hash (dm_hash migration)), db)
          else apply_migrations migrations db
      | None =>
          let '(rejected, sql) := run_statements (dm_id migration) 0 (split_sql_statements (dm_sql migration)) (pd_sql db) in
          let count := Z.of_nat (length rejected) in
          let db := {| pd_sql := sql; pd_applied := <[dm_id migration := (dm_hash migration, count)]> (pd_applied db) |} in
          match apply_migrations migrations db with
          | (Ok (applied, more), db) =>
              (Ok ({| am_id := dm_id migration; am_hash := dm_hash migration; am_rejected_count := count |} :: applied,
                   rejected ++ more), db)
          | (Err error, db) => (Err error, db)
          end
      end
  end.
Definition apply_private_data_migrations (root : option (list (string * RootEntry))) (db : PrivateDb)
  : result (list AppliedMigration * list RejectedStatement) ContentError * PrivateDb :=
  match discover_private_migrations root with
  | Err error => (Err error, db)
  | Ok migrations => apply_migrations migrations db
  end.

(** *** The schema; its scripts are SQL *)
Record SchemaMigration : Type := { sm_version : Z; sm_id : string; sm_sql : string }.
Definition SCHEMA_MIGRATIONS (include_str : string -> string) : list SchemaMigration :=
  (fun '(version, id) => {| sm_version := version; sm_id := id; sm_sql := include_str id |}) <$>
    [(1, "V0001__core.sql"); (10, "V0010__enums.sql"); (20, "V0020__maps.sql"); (30, "V0030__mobs.sql"); (40, "V0040__motion.sql");
     (50, "V0050__spawns.sql"); (60, "V0060__player.sql")]%string.
Record SchemaDb : Type := { sd_sql : SqlDb; sd_applied : gmap Z (string * string) }.
Fixpoint apply_schema (migrations : list SchemaMigration) (db : SchemaDb) : result (list AppliedMigration) ContentError * SchemaDb :=
  match migrations with
  | [] => (Ok [], db)
  | migration :: migrations =>
      let hash := hash_text (sm_sql migration) in
      match sd_applied db !! sm_version migration with
      | Some (existing_id, existing_hash) =>
          if negb (bool_decide (existing_hash = hash)) then (Err (MigrationHashDrift existing_id existing_hash hash), db)
          else apply_schema migrations db
      | None =>
          match exec_sql (sm_sql migration) (sd_sql db) with
          | Err error => (Err (ContentSqlite error), db)
          | Ok sql =>
              let db := {| sd_sql := sql; sd_applied := <[sm_version migration := (sm_id migration, hash)]> (sd_applied db) |} in
              match apply_schema migrations db with
              | (Ok applied, db) =>
                  (Ok ({| am_id := sm_id migration; am_hash := hash; am_rejected_count := 0 |} :: applied), db)
              | (Err error, db) => (Err error, db)
              end
          end
      end
  end.
Definition apply_schema_migrations (include_str : string -> string) (db : SchemaDb) : result (list AppliedMigration) ContentError * SchemaDb :=
  apply_schema (SCHEMA_MIGRATIONS include_str) db.

Record MigrationSummary : Type := {
  schema_applied : list AppliedMigration; data_applied : list AppliedMigration; rejected_statements : list RejectedStatement }.
(** [run_with_private_root]: a fresh database, the schema, the private data, and the
    catalogue of the rows there are then. *)
Definition run_with_private_root (parse_ai_flags : string -> option Z) (zstd_decode : list Z -> option (list Z))
    (include_str : string -> string) (rows_of : SqlDb -> ContentRows) (root : option (list (string * RootEntry)))
  : result (Catalog * MigrationSummary) ContentError :=
  let '(schema, db) := apply_schema_migrations include_str {| sd_sql := fresh_db; sd_applied := ∅ |} in
  let? schema_applied := schema in
  let '(data, db) := apply_private_data_migrations root {| pd_sql := sd_sql db; pd_applied := ∅ |} in
  let? done := data in
  let? catalog := load_catalog parse_ai_flags zstd_decode (rows_of (pd_sql db)) in
  Ok (catalog, {| schema_applied := schema_applied; data_applied := fst done; rejected_statements := snd done |}).
End Apply.

(** ** Splitting *)
(** A character that neither quotes, ends a statement nor can open a comment. *)
Definition is_plain (c : char) : bool :=
  negb (is_char c 39 || is_char c 34 || is_char c 59 || is_char c 45 || is_char c 47).
Definition open_state (current : list char) : SplitState := with_current split_start current.
Lemma split_plain l rest cur : Forall (fun c => is_plain c = true) l -> split_from (l ++ rest) (open_state cur) = split_from rest (open_state (cur ++ l)).
Proof.
  intros P. revert cur. induction P as [| c l Pc P IH]; intros cur; [by rewrite app_nil_r |].
  assert (split_from ((c :: l) ++ rest) (open_state cur) = split_from (l ++ rest) (open_state (cur ++ [c]))) as ->.
  { unfold is_plain in Pc. apply negb_true_iff in Pc as [[[[N1 N2]%orb_false_iff N3]%orb_false_iff N4]%orb_false_iff N5]%orb_false_iff.
    cbn [app split_from open_state with_current in_line_comment in_block_comment in_single_quote in_double_quote split_start current negb].
    rewrite N1, N2, N3, N4, N5. cbn [andb]. by destruct (l ++ rest). }
  rewrite IH, <- app_assoc. done.
Qed.
Lemma split_semicolon c rest cur : is_char c 59 = true -> split_from (c :: rest) (open_state cur) = statement_of cur ++ split_from rest (open_state []).
Proof.
  unfold is_char. intros E%Z.eqb_eq. cbn [split_from open_state with_current in_line_comment in_block_comment in_single_quote in_double_quote split_start current negb].
  unfold is_char. rewrite E. cbn. by destruct rest.
Qed.
(** A script of plain statements, each ended by a semicolon, is split into them,
    trimmed and without the blank ones. *)
Theorem split_sql_plain (statements : list (list char)) c :
  is_char c 59 = true -> Forall (Forall (fun c => is_plain c = true)) statements ->
  split_from (concat ((fun s => s ++ [c]) <$> statements)) split_start = concat (statement_of <$> statements).
Proof.
  intros C P. change split_start with (open_state []). induction P as [| s statements Ps P IH]; [done |].
  cbn [fmap list_fmap concat]. rewrite <- app_assoc, split_plain by done. cbn [app]. rewrite split_semicolon by done. by rewrite IH.
Qed.
(** A semicolon inside quotes or a comment ends nothing; but a comment between two
    words leaves them as one. *)
Example split_examples :
  split_sql_statements "INSERT INTO t VALUES ('a;b''c'); -- x;y" = ["INSERT INTO t VALUES ('a;b''c')"]%string /\
  split_sql_statements "SELECT/* ; */1" = ["SELECT1"]%string.
Proof. split; vm_compute; reflexivity. Qed.

(** ** Applying *)
Section Applied.
Context `{Sqlite}.
(** What the statements of a script leave: each in turn, those refused changing nothing. *)
Definition run_script (db : SqlDb) (sql : string) : SqlDb :=
  fold_left (fun db statement => match exec_sql statement db with Ok db => db | Err _ => db end) (split_sql_statements sql) db.
Lemma run_statements_db id index statements db :
  snd (run_statements id index statements db) =
    fold_left (fun db statement => match exec_sql statement db with Ok db => db | Err _ => db end) statements db.
Proof.
  revert index db. induction statements as [| s statements IH]; intros index db; cbn [run_statements fold_left]; [done |].
  destruct (exec_sql s db) as [db1 | e]; [apply IH |]. rewrite <- (IH (index + 1)). by destruct (run_statements _ _ _ _).
Qed.
Definition recorded (applied : gmap string (string * Z)) (m : DiscoveredMigration) : Prop :=
  exists count, applied !! dm_id m = Some (dm_hash m, count).
Lemma apply_recorded ms db : Forall (recorded (pd_applied db)) ms -> apply_migrations ms db = (Ok ([], []), db).
Proof.
  induction 1 as [| m ms [count E] _ IH]; cbn [apply_migrations]; [done |]. rewrite E. by rewrite bool_decide_true.
Qed.

Definition unrecorded (db : PrivateDb) (m : DiscoveredMigration) : Prop := pd_applied db !! dm_id m = None.
#[export] Instance unrecorded_dec db m : Decision (unrecorded db m).
Proof. unfold unrecorded. apply _. Defined.
Lemma unrecorded_other db sql m n (ms : list DiscoveredMigration) : dm_id m ∉ dm_id <$> ms ->
  filter (unrecorded {| pd_sql := sql; pd_applied := <[dm_id m := n]> (pd_applied db) |}) ms = filter (unrecorded db) ms.
Proof.
  set (db1 := {| pd_sql := sql; pd_applied := _ |}). induction ms as [| o ms IH]; [done |].
  cbn [fmap list_fmap]. intros [Ne N]%not_elem_of_cons.
  assert (unrecorded db1 o <-> unrecorded db o) as U by (unfold unrecorded, db1; cbn; by rewrite lookup_insert_ne).
  destruct (decide (unrecorded db o)) as [Y | Y]; [rewrite !filter_cons_True by tauto | rewrite !filter_cons_False by tauto]; by rewrite IH.
Qed.

(** The private scripts: those not recorded are run, in their order and each once,
    their refused statements left out; then all are recorded with their hashes,
    nothing else is, and a second run finds nothing to do. *)
Theorem migrations_once ms db applied rejected db' :
  NoDup (dm_id <$> ms) -> apply_migrations ms db = (Ok (applied, rejected), db') ->
  (am_id <$> applied) = (dm_id <$> filter (unrecorded db) ms) /\
  pd_sql db' = fold_left run_script (dm_sql <$> filter (unrecorded db) ms) (pd_sql db) /\
  Forall (recorded (pd_applied db')) ms /\
  (forall id, id ∉ dm_id <$> ms -> pd_applied db' !! id = pd_applied db !! id) /\
  (forall db'', pd_applied db'' = pd_applied db' -> apply_migrations ms db'' = (Ok ([], []), db'')).
Proof.
  intros N E. enough ((am_id <$> applied) = (dm_id <$> filter (unrecorded db) ms) /\
    pd_sql db' = fold_left run_script (dm_sql <$> filter (unrecorded db) ms) (pd_sql db) /\
    Forall (recorded (pd_applied db')) ms /\ (forall id, id ∉ dm_id <$> ms -> pd_applied db' !! id = pd_applied db !! id))
    as (H1 & H2 & H3 & H4).
  { split_and!; [done.. |]. intros db'' E'. apply apply_recorded. by rewrite E'. }
  revert db applied rejected E. induction ms as [| m ms IH]; intros db applied rejected; cbn [apply_migrations].
  { intros [= <- <- <-]. split_and!; [done | done | constructor | done]. }
  cbn [fmap list_fmap] in N. apply NoDup_cons in N as [Nm N]. destruct (pd_applied db !! dm_id m) as [[hash count] |] eqn:Em.
  - destruct (negb _) eqn:Eh; [done |]. apply negb_false_iff, bool_decide_eq_true in Eh. subst hash.
    intros (H1 & H2 & H3 & H4)%(IH N). rewrite filter_cons_False by (unfold unrecorded; by rewrite Em). split_and!; try done.
    + constructor; [| done]. exists count. by rewrite H4.
    + intros id [_ Ni]%not_elem_of_cons. by apply H4.
  - pose proof (run_statements_db (dm_id m) 0 (split_sql_statements (dm_sql m)) (pd_sql db)) as Rs.
    destruct (run_statements _ _ _ _) as [rej sql]. cbn [snd] in Rs. set (db1 := {| pd_sql := sql; pd_applied := _ |}).
    destruct (apply_migrations ms db1) as [[[applied1 more] | e] db2] eqn:E; [| done]. intros [= <- <- <-].
    apply (IH N) in E as (H1 & H2 & H3 & H4). rewrite filter_cons_True by done.
    unfold db1 in H1, H2. rewrite unrecorded_other in H1, H2 by done. cbn [fmap list_fmap am_id fold_left]. rewrite H1. split_and!; [done | | |].
    + rewrite H2. cbn. f_equal. exact Rs.
    + constructor; [| done]. exists (Z.of_nat (length rej)). rewrite H4 by done. apply lookup_insert_eq.
    + intros id [Ni Nj]%not_elem_of_cons. rewrite H4 by done. cbn. by rewrite lookup_insert_ne.
Qed.

(** A script whose text has changed since it was recorded stops the run, with what
    came before it applied and nothing after. *)
Theorem migration_drift ms m later db applied rejected db0 hash count :
  apply_migrations ms db = (Ok (applied, rejected), db0) -> pd_applied db0 !! dm_id m = Some (hash, count) -> hash <> dm_hash m ->
  apply_migrations (ms ++ m :: later) db = (Err (MigrationHashDrift (dm_id m) hash (dm_hash m)), db0).
Proof.
  intros E Em Nh. revert db applied rejected E. induction ms as [| n ms IH]; intros db applied rejected; cbn [app apply_migrations].
  { intros [= <- <- <-]. rewrite Em. by rewrite bool_decide_false. }
  destruct (pd_applied db !! dm_id n) as [[h c] |].
  - destruct (negb _); [done |]. apply IH.
  - destruct (run_statements _ _ _ _) as [rej sql]. destruct (apply_migrations ms _) as [[[applied1 more] | e] db2] eqn:E; [| done].
    intros [= <- <- <-]. by rewrite (IH _ _ _ E).
Qed.

(** The scripts of the schema have versions of their own, and a database brought to
    the schema is at it. *)
Lemma schema_versions include_str : NoDup (sm_version <$> SCHEMA_MIGRATIONS include_str).
Proof. apply (bool_decide_unpack _). vm_compute. exact I. Qed.
Lemma schema_recorded ms db : Forall (fun m => exists id, sd_applied db !! sm_version m = Some (id, hash_text (sm_sql m))) ms ->
  apply_schema ms db = (Ok [], db).
Proof. induction 1 as [| m ms [id E] _ IH]; cbn [apply_schema]; [done |]. rewrite E. by rewrite bool_decide_true. Qed.
Lemma apply_schema_records ms db applied db' : NoDup (sm_version <$> ms) -> apply_schema ms db = (Ok applied, db') ->
  Forall (fun m => exists id, sd_applied db' !! sm_version m = Some (id, hash_text (sm_sql m))) ms /\
  (forall version, version ∉ sm_version <$> ms -> sd_applied db' !! version = sd_applied db !! version).
Proof.
  revert db applied. induction ms as [| m ms IH]; intros db applied N; cbn [apply_schema]; [intros [= <- <-]; by split |].
  cbn [fmap list_fmap] in N. apply NoDup_cons in N as [Nm N]. destruct (sd_applied db !! sm_version m) as [[id hash] |] eqn:Em.
  - destruct (negb _) eqn:Eh; [done |]. apply negb_false_iff, bool_decide_eq_true in Eh. intros [H1 H2]%(IH _ _ N). split.
    + constructor; [exists id; rewrite H2 by done; by rewrite Em, Eh | done].
    + intros version [_ Nv]%not_elem_of_cons. by apply H2.
  - destruct (exec_sql _ _) as [sql | e]; [| done]. destruct (apply_schema ms _) as [[applied1 | e] db2] eqn:E; [| done]. intros [= <- <-].
    apply (IH _ _ N) in E as [H1 H2]. split.
    + constructor; [| done]. exists (sm_id m). rewrite H2 by done. apply lookup_insert_eq.
    + intros version [Nv Nw]%not_elem_of_cons. rewrite H2 by done. cbn. by rewrite lookup_insert_ne.
Qed.
Theorem schema_once include_str db applied db' :
  apply_schema_migrations include_str db = (Ok applied, db') -> apply_schema_migrations include_str db' = (Ok [], db').
Proof. intros [R _]%apply_schema_records; [by apply schema_recorded | apply schema_versions]. Qed.
End Applied.
End Migrations.
