(* ===== verification/AuthServer.v ===== *)
(** The authentication server ([zohar-authsrv/src/auth_srv.rs]) and its typed
    connections ([zohar-net/src/connection/auth_conn.rs]): the clock handshake, then
    password logins answered with a token, and the upgrade of stored passwords.

    Passwords are hashed by the argon2 crate: the class [Argon2] is what the code
    uses of it, [Argon2Laws] what its documentation says of a hash it makes.  Of a
    turn of a loop its environment decides the rest: what is received, the clock,
    the salt, what other connections do to the accounts, and which calls fail. *)
From S2P Require Import Prelude Wire Protocol GamePacket Codec Connection Handshake Token Layout Text Packets Database.

(** ** Typed connections *)
Inductive HandshakeAuthC2s : Type := HandshakeAuth_Control (c : ControlC2s).
Definition HandshakeAuthC2s_routes : list (route HandshakeAuthC2s) :=
  [Build_route c2s_control_opcodes HandshakeAuth_Control (fun '(HandshakeAuth_Control c) => Some c)].
Inductive HandshakeAuthS2c : Type := HandshakeAuth_S2c (c : ControlS2c).
Definition HandshakeAuthS2c_routes : list (route HandshakeAuthS2c) :=
  [Build_route s2c_control_opcodes HandshakeAuth_S2c (fun '(HandshakeAuth_S2c c) => Some c)].
Lemma HandshakeAuthC2s_routes_ok : routes_ok HandshakeAuthC2s_routes. Proof. routes_ok_tac. Qed.
Lemma HandshakeAuthS2c_routes_ok : routes_ok HandshakeAuthS2c_routes. Proof. routes_ok_tac. Qed.
#[export] Instance HandshakeAuthC2s_wire : Wire HandshakeAuthC2s := routes_wire HandshakeAuthC2s_routes.
#[export] Instance HandshakeAuthC2s_laws : WireLaws HandshakeAuthC2s := routes_laws _ HandshakeAuthC2s_routes_ok.
#[export] Instance HandshakeAuthS2c_wire : Wire HandshakeAuthS2c := routes_wire HandshakeAuthS2c_routes.
#[export] Instance HandshakeAuthS2c_laws : WireLaws HandshakeAuthS2c := routes_laws _ HandshakeAuthS2c_routes_ok.
(** The answers of the auth phase are written only. *)
Inductive AuthS2c : Type := AuthS2c_Control (c : ControlS2c) | AuthS2c_Specific (p : AuthS2cSpecific).
Definition AuthS2c_write (p : AuthS2c) : bytes :=
  match p with AuthS2c_Control c => wire_write c | AuthS2c_Specific p => AuthS2cSpecific_write p end.

Inductive AuthPhase : Type := P_HandshakeAuth | P_Auth.
Definition AuthPhase_ID (p : AuthPhase) : PhaseId :=
  match p with P_HandshakeAuth => Phase_Handshake | P_Auth => Phase_Auth end.
Definition AuthCodec (p : AuthPhase) : Type := match p with P_HandshakeAuth => Stateless | P_Auth => Sequenced end.
Definition AuthC2sPacket (p : AuthPhase) : Type := match p with P_HandshakeAuth => HandshakeAuthC2s | P_Auth => AuthC2s end.
Definition AuthConnection (p : AuthPhase) : Type := FramedRead (AuthCodec p).
Definition AuthConnection_new (incoming : list bytes) : AuthConnection P_HandshakeAuth :=
  Build_FramedRead (MkStateless : AuthCodec P_HandshakeAuth) [] incoming.
(** [transition_default]: the bytes not decoded yet are kept, the codec is new. *)
Definition into_auth (SEQ_BYTES_RAW : bytes) (conn : AuthConnection P_HandshakeAuth) : AuthConnection P_Auth :=
  Build_FramedRead ({| sequencer := PacketSequencer_default SEQ_BYTES_RAW |} : AuthCodec P_Auth) (fr_buf conn) (fr_incoming conn).
#[export] Instance auth_decoder (p : AuthPhase) : Decoder (AuthCodec p) (AuthC2sPacket p) :=
  match p return Decoder (AuthCodec p) (AuthC2sPacket p) with P_HandshakeAuth => Stateless_decoder | P_Auth => Sequenced_decoder end.
#[export] Instance auth_decoder_laws (p : AuthPhase) : DecoderLaws (AuthCodec p) (AuthC2sPacket p).
Proof. destruct p; exact _. Qed.
Definition auth_recv {p} (conn : AuthConnection p) : option (Received (AuthC2sPacket p) * AuthConnection p) := recv_framed conn.

(** ** Passwords *)
(** [str::parse::<u32>] *)
Fixpoint parse_digits (l : bytes) (acc : Z) : option Z :=
  match l with
  | [] => Some acc
  | b :: l => if between 48 b 57 then parse_digits l (acc * 10 + (b - 48)) else None
  end.
Definition parse_u32 (s : string) : option Z :=
  let digits := match bytes_of s with 43 :: rest => rest | l => l end in
  match digits with
  | [] => None
  | _ => n ← parse_digits digits 0; if n <=? u32_max then Some n else None
  end.

Definition ARGON2_M_COST : Z := 256 * 1024.
Definition ARGON2_T_COST : Z := 6.
Definition ARGON2_P_COST : Z := 1.
Definition Version_V0x13 : Z := 19.

Class Argon2 : Type := {
  PasswordHash : Type;
  PasswordHash_new : string -> option PasswordHash;
  algorithm : PasswordHash -> string;
  hash_version : PasswordHash -> option Z;
  hash_param : PasswordHash -> string -> option string;
  argon2_verify : string -> PasswordHash -> bool;
  (** With the desired costs, from a password and a salt. *)
  hash_password : string -> string -> option string }.

Section Passwords.
Context `{Argon2}.
(** A parameter as a number. *)
Definition cost (parsed : PasswordHash) (name : string) : option Z := hash_param parsed name ≫= parse_u32.
Definition needs_rehash (parsed : PasswordHash) : bool :=
  if negb (bool_decide (algorithm parsed = "argon2id"%string)) then true
  else if negb (match hash_version parsed with Some value => value =? Version_V0x13 | None => false end) then true
  else
    negb match cost parsed "m", cost parsed "t", cost parsed "p" with
         | Some m, Some t, Some p => (m =? ARGON2_M_COST) && (t =? ARGON2_T_COST) && (p =? ARGON2_P_COST)
         | _, _, _ => false
         end.

Record PasswordCheck : Type := { valid : bool; upgraded_hash : option string }.
Definition verify_password (salt stored_hash password : string) : PasswordCheck :=
  if String.prefix "$argon2" stored_hash then
    match PasswordHash_new stored_hash with
    | None => {| valid := false; upgraded_hash := None |}
    | Some parsed =>
        if negb (argon2_verify password parsed) then {| valid := false; upgraded_hash := None |}
        else {| valid := true; upgraded_hash := if needs_rehash parsed then hash_password password salt else None |}
    end
  else if negb (bool_decide (stored_hash = password)) then {| valid := false; upgraded_hash := None |}
  else {| valid := true; upgraded_hash := hash_password password salt |}.

(** [OnceLock]: the salt is the one drawn first; [None] is a panic. *)
Definition dummy_password_hash (dummy_salt : string) : option string := hash_password "my_dummy_password" dummy_salt.
End Passwords.

(** A hash of the crate is an argon2id hash with the costs it was made with, and the
    password it was made from verifies against it. *)
Class Argon2Laws `{Argon2} : Prop := {
  hash_made password salt stored : hash_password password salt = Some stored ->
    String.prefix "$argon2" stored = true /\
    exists parsed, PasswordHash_new stored = Some parsed /\ argon2_verify password parsed = true /\
      algorithm parsed = "argon2id"%string /\ hash_version parsed = Some Version_V0x13 /\
      cost parsed "m" = Some ARGON2_M_COST /\ cost parsed "t" = Some ARGON2_T_COST /\ cost parsed "p" = Some ARGON2_P_COST }.

(** ** The phases *)
Inductive PhaseError : Type :=
| Disconnect (reason : string)
| Decode_failed (error : DecodeError)
| Truncated
| Handshake_failed (error : HandshakeError)
| Send_failed.
(** How a phase stands when its inputs are used up, or how it ended. *)
Inductive PhaseResult : Type := Awaiting | Completed | Failed (error : PhaseError).

(** [conn.recv().await?.or_disconnect()?] *)
Definition or_disconnect {P} (received : Received P) : P + PhaseError :=
  match received with
  | Received_packet packet => inl packet
  | Received_closed => inr (Disconnect "connection closed")
  | Received_error error => inr (Decode_failed error)
  | Received_truncated => inr Truncated
  end.

(** A turn of the handshake's loop: what is received, the clock, and whether the
    socket takes what is sent. *)
Record HandshakeTurn : Type := { ht_received : Received HandshakeAuthC2s; ht_now : Z; ht_sends : bool }.
(** [conn.send(..).await?], then the rest. *)
Definition send_then {R} (sends : bool) (packet : HandshakeAuthS2c) (failed : R) (rest : list HandshakeAuthS2c * PhaseResult * R)
  : list HandshakeAuthS2c * PhaseResult * R :=
  if sends then let '(sent, result, r) := rest in (packet :: sent, result, r) else ([], Failed Send_failed, failed).

Fixpoint handshake_loop (handshake : HandshakeState) (turns : list HandshakeTurn)
  : list HandshakeAuthS2c * PhaseResult * HandshakeState :=
  match turns with
  | [] => ([], Awaiting, handshake)
  | turn :: turns =>
      match or_disconnect (ht_received turn) with
      | inr error => ([], Failed error, handshake)
      | inl (HandshakeAuth_Control (HandshakeResponse data)) =>
          match handle handshake data (ht_now turn) with
          | (inr error, handshake) => ([], Failed (Handshake_failed error), handshake)
          | (inl CompletedInitial, handshake) =>
              send_then (ht_sends turn) (HandshakeAuth_S2c (SetClientPhase Phase_Auth)) handshake ([], Completed, handshake)
          | (inl (SendHandshakeSync data), handshake) =>
              send_then (ht_sends turn) (HandshakeAuth_S2c (RequestHandshake data)) handshake (handshake_loop handshake turns)
          | (inl SendTimeSyncAck, handshake) => handshake_loop handshake turns
          end
      | inl (HandshakeAuth_Control HeartbeatResponse) =>
          ([], Failed (Disconnect "heartbeat not allowed during handshake"), handshake)
      | inl (HandshakeAuth_Control (RequestTimeSync _)) =>
          ([], Failed (Disconnect "time sync request not allowed during handshake"), handshake)
      end
  end.
Definition handle_handshake (handshake : HandshakeState) (now : Z) (sends1 sends2 : bool) (turns : list HandshakeTurn)
  : list HandshakeAuthS2c * PhaseResult * HandshakeState :=
  send_then sends1 (HandshakeAuth_S2c (SetClientPhase Phase_Handshake)) handshake
    (let '(handshake, data) := initial_sync_data handshake now in
     send_then sends2 (HandshakeAuth_S2c (RequestHandshake data)) handshake (handshake_loop handshake turns)).

Section Auth.
Context `{Argon2}.
Variable hmac_sha256 : bytes -> bytes -> bytes.
Variable token_signer : TokenSigner.
Variable dummy_salt : string.

(** A turn of the auth loop: what others do to the database before the account is
    looked up and before a hash is stored, the failures, the salt and the clock. *)
Record AuthTurn : Type := {
  at_before : Database -> Database; at_find_error : option DbError; at_joined : bool; at_salt : string;
  at_between : Database -> Database; at_update_error : option DbError; at_now_secs : Z }.

Definition login_failed : AuthS2cSpecific := Auth_LoginResultFail Auth_InvalidCredentials.
(** The body of the request's arm: the answer and the database after it. *)
Definition handle_login (turn : AuthTurn) (username password enc_key : bytes) (db : Database)
  : option (AuthS2cSpecific * Database) :=
  let username := decode_cstr username in
  let password := decode_cstr password in
  let db := at_before turn db in
  match (match at_find_error turn with Some err => Err err | None => find_account_by_username username db end) with
  | Err _ => Some (login_failed, db)
  | Ok account =>
      stored ← match account with
               | Some account => Some (Some (account_username account), account_password_hash account)
               | None => dummy ← dummy_password_hash dummy_salt; Some (None, dummy)
               end;
      let '(account_username, stored_hash) := stored in
      if negb (at_joined turn) then Some (login_failed, db)
      else
        let check := verify_password (at_salt turn) stored_hash password in
        match valid check, account_username with
        | true, Some account_username =>
            let db :=
              match upgraded_hash check with
              | Some upgraded_hash =>
                  let db := at_between turn db in
                  match at_update_error turn with
                  | Some _ => db
                  | None => snd (update_password account_username upgraded_hash db)
                  end
              | None => db
              end in
            Some (LoginResultOk (issue hmac_sha256 token_signer (at_now_secs turn) (bytes_of account_username) enc_key) 1, db)
        | _, _ => Some (login_failed, db)
        end
  end.

(** The loop: the answers in the order they are sent, a failed send being ignored. *)
Fixpoint handle_auth (turns : list (Received AuthC2s * AuthTurn)) (db : Database)
  : option (list AuthS2cSpecific * PhaseResult * Database) :=
  match turns with
  | [] => Some ([], Awaiting, db)
  | (received, turn) :: turns =>
      match or_disconnect received with
      | inr error => Some ([], Failed error, db)
      | inl (Specific (RequestPasswordLogin username password enc_key)) =>
          answered ← handle_login turn username password enc_key db;
          rest ← handle_auth turns (snd answered);
          let '(answers, result, db) := rest in
          Some (fst answered :: answers, result, db)
      | inl (Control _) => handle_auth turns db
      end
  end.

(** [handle_conn]: a handshake with its seed, then logins; both phases' packets. *)
Definition run_connection (server_start created now seed : Z) (sends1 sends2 : bool) (handshake_turns : list HandshakeTurn)
    (auth_turns : list (Received AuthC2s * AuthTurn)) (db : Database)
  : option (list HandshakeAuthS2c * list AuthS2cSpecific * PhaseResult * Database) :=
  match handle_handshake (with_seed server_start created seed) now sends1 sends2 handshake_turns with
  | (sent, Completed, _) =>
      rest ← handle_auth auth_turns db;
      let '(answers, result, db) := rest in Some (sent, answers, result, db)
  | (sent, result, _) => Some (sent, [], result, db)
  end.
End Auth.

(** ** Logins *)
Section Passwords.
Context `{Argon2}.
(** A password is the stored one, hashed or not yet. *)
Definition password_matches (stored password : string) : bool :=
  if String.prefix "$argon2" stored then
    match PasswordHash_new stored with Some parsed => argon2_verify password parsed | None => false end
  else bool_decide (stored = password).
Lemma verify_valid salt stored password : valid (verify_password salt stored password) = password_matches stored password.
Proof.
  unfold verify_password, password_matches. destruct (String.prefix _ _).
  - destruct (PasswordHash_new stored) as [parsed |]; [| done]. by destruct (argon2_verify password parsed).
  - by case_bool_decide.
Qed.
(** A hash the server has made needs no other: it is found valid as it is. *)
Lemma made_settled `{!Argon2Laws} password salt stored : hash_password password salt = Some stored ->
  forall salt', verify_password salt' stored password = {| valid := true; upgraded_hash := None |}.
Proof.
  intros (Px & parsed & Ep & V & Ea & Ev & Em & Et & Ec)%hash_made salt'. unfold verify_password. rewrite Px, Ep, V. cbn [negb].
  unfold needs_rehash. rewrite Ea, Ev, Em, Et, Ec. done.
Qed.
(** Found valid without a new hash where one could be made, it is one the server
    would make, whatever the salt. *)
Lemma settled_salt salt salt' stored password hash : hash_password password salt = Some hash -> password_matches stored password = true ->
  upgraded_hash (verify_password salt stored password) = None ->
  verify_password salt' stored password = {| valid := true; upgraded_hash := None |}.
Proof.
  intros Eh. unfold password_matches, verify_password. destruct (String.prefix _ _).
  - destruct (PasswordHash_new stored) as [parsed |]; [| done]. intros ->. cbn [negb upgraded_hash].
    destruct (needs_rehash parsed); [by rewrite Eh | done].
  - intros ->%bool_decide_eq_true. rewrite bool_decide_true by done. cbn. by rewrite Eh.
Qed.
Lemma upgraded_by_hash salt stored password hash : upgraded_hash (verify_password salt stored password) = Some hash ->
  hash_password password salt = Some hash.
Proof.
  unfold verify_password. destruct (String.prefix _ _).
  - destruct (PasswordHash_new stored) as [parsed |]; [| done]. destruct (argon2_verify password parsed); [| done]. cbn.
    by destruct (needs_rehash parsed).
  - by case_bool_decide.
Qed.
End Passwords.

Section Logins.
Context `{Argon2}.
Variables (hmac_sha256 : bytes -> bytes -> bytes) (token_signer : TokenSigner) (dummy_salt : string).
#[local] Abbreviation log_in := (handle_login hmac_sha256 token_signer dummy_salt).
#[local] Abbreviation log_ins := (handle_auth hmac_sha256 token_signer dummy_salt).

(** The turn grants the login: the account is found and the password is its own. *)
Definition grants (turn : AuthTurn) (username password : string) (db : Database) : Prop :=
  at_find_error turn = None /\ at_joined turn = true /\
  exists stored, accounts (at_before turn db) !! username = Some stored /\ password_matches stored password = true.
Definition granted (turn : AuthTurn) (username : string) (enc_key : bytes) : AuthS2cSpecific :=
  LoginResultOk (issue hmac_sha256 token_signer (at_now_secs turn) (bytes_of username) enc_key) 1.

Lemma handle_login_spec turn username password enc_key db answer db' :
  log_in turn username password enc_key db = Some (answer, db') ->
  (answer = granted turn (decode_cstr username) enc_key /\ grants turn (decode_cstr username) (decode_cstr password) db) \/
  (answer = login_failed /\ ~ grants turn (decode_cstr username) (decode_cstr password) db /\ db' = at_before turn db).
Proof.
  unfold handle_login, grants, find_account_by_username.
  generalize (decode_cstr username) (decode_cstr password). intros user pass.
  destruct (at_find_error turn) as [err |]; [intros [= <- <-]; right; by split_and!; [| intros (? & _) |] |].
  destruct (accounts (at_before turn db) !! user) as [stored |]; cbn [fmap option_fmap option_map mbind option_bind].
  - destruct (at_joined turn); cbn [negb]; [| intros [= <- <-]; right; by split_and!; [| intros (_ & ? & _) |]].
    cbn [account_username account_password_hash]. rewrite verify_valid. destruct (password_matches stored pass) eqn:M.
    + intros [= <- <-]. left. split; [done |]. split_and!; [done.. |]. by exists stored.
    + intros [= <- <-]. right. split_and!; [done | | done]. intros (_ & _ & s & [= <-] & E). congruence.
  - destruct (dummy_password_hash dummy_salt) as [dummy |]; [| done]. cbn [mbind option_bind].
    destruct (at_joined turn); cbn [negb]; [destruct (valid _) |]; intros [= <- <-]; right; (split_and!; [done | | done]);
      by intros (_ & _ & s & E & _).
Qed.

Lemma handle_auth_app turns later db : log_ins (turns ++ later) db =
  match log_ins turns db with
  | Some (answers, Awaiting, db) =>
      rest ← log_ins later db; let '(more, result, db) := rest in Some (answers ++ more, result, db)
  | other => other
  end.
Proof.
  revert db. induction turns as [| [received turn] turns IH]; intros db; cbn [app handle_auth].
  - by destruct (log_ins later db) as [[[] ?] |].
  - destruct (or_disconnect received) as [[c | [u p k]] | error]; [apply IH | | done].
    destruct (log_in turn u p k db) as [[answer db1] |]; [| done]. cbn [mbind option_bind fst snd].
    rewrite IH. destruct (log_ins turns db1) as [[[answers result] db2] |]; [| done]. cbn [mbind option_bind].
    destruct result; [| done..]. by destruct (log_ins later db2) as [[[more result] db3] |].
Qed.

(** [C11] Who gets a token.  At any point of a connection, a request for a login is
    answered with a token exactly when the account exists at that moment and the
    password is its own, whatever other connections do to the accounts; the token
    is one that the game server accepts, for that account and key, for at least a
    window.  Every other request gets the same answer, be the account unknown, the
    password wrong or a call failed, and leaves the database as it is. *)
Theorem login_answers_sound turns turn username password enc_key db answers db' :
  log_ins (turns ++ [(Received_packet (Specific (RequestPasswordLogin username password enc_key)), turn)]) db =
    Some (answers, Awaiting, db') ->
  exists answers0 db0 answer,
    log_ins turns db = Some (answers0, Awaiting, db0) /\ answers = answers0 ++ [answer] /\
    ((exists token, answer = LoginResultOk token 1 /\ grants turn (decode_cstr username) (decode_cstr password) db0 /\
        forall now, clock (at_now_secs turn) -> clock now ->
          at_now_secs turn <= now <= at_now_secs turn + Z.max (window_secs token_signer) 1 ->
          verify hmac_sha256 token_signer now (bytes_of (decode_cstr username)) enc_key token = true) \/
     (answer = login_failed /\ ~ grants turn (decode_cstr username) (decode_cstr password) db0 /\ db' = at_before turn db0)).
Proof.
  rewrite handle_auth_app. destruct (log_ins turns db) as [[[answers0 result] db0] |]; [| done].
  destruct result; [| done..]. cbn [handle_auth or_disconnect].
  destruct (log_in turn username password enc_key db0) as [[answer db1] |] eqn:E; [| done]. cbn [mbind option_bind fst snd].
  intros [= <- <-]. exists answers0, db0, answer. split; [done |]. split; [done |].
  apply handle_login_spec in E as [[-> G] | E]; [left | by right].
  eexists. split; [reflexivity |]. split; [exact G |]. intros now C C' W.
  destruct (verify_window hmac_sha256 token_signer now (bytes_of (decode_cstr username)) enc_key
    (issue hmac_sha256 token_signer (at_now_secs turn) (bytes_of (decode_cstr username)) enc_key) C') as [_ Issued].
  destruct (Issued (at_now_secs turn) C ltac:(lia) eq_refl) as [V _]. apply V. lia.
Qed.

(** [C25] The upgrade of a password locks nobody out.  After a login is granted, with
    no one else at the accounts, the other accounts are as they were and the same
    password is still the account's; and once the new hash is stored, logging in
    again changes nothing more. *)
Theorem upgrade_keeps_login `{!Argon2Laws} turn username password enc_key db token db' :
  (forall d, at_before turn d = d) -> (forall d, at_between turn d = d) ->
  log_in turn username password enc_key db = Some (LoginResultOk token 1, db') ->
  (forall other, other <> decode_cstr username -> accounts db' !! other = accounts db !! other) /\
  exists stored, accounts db' !! decode_cstr username = Some stored /\ password_matches stored (decode_cstr password) = true /\
    (at_update_error turn = None -> is_Some (hash_password (decode_cstr password) (at_salt turn)) ->
     forall salt, verify_password salt stored (decode_cstr password) = {| valid := true; upgraded_hash := None |}).
Proof.
  intros B0 B1. unfold handle_login, find_account_by_username.
  generalize (decode_cstr username) (decode_cstr password). intros user pass. rewrite B0.
  destruct (at_find_error turn); [done |]. destruct (accounts db !! user) as [stored |] eqn:Ea; cbn [fmap option_fmap option_map mbind option_bind].
  2: { destruct (dummy_password_hash dummy_salt); [| done]. cbn [mbind option_bind]. destruct (negb _); [done |]. by destruct (valid _). }
  destruct (negb (at_joined turn)); [done |].
  cbn [account_username account_password_hash]. rewrite verify_valid. destruct (password_matches stored pass) eqn:M; [| done].
  assert (forall hash, upgraded_hash (verify_password (at_salt turn) stored pass) = Some hash ->
    forall salt, verify_password salt hash pass = {| valid := true; upgraded_hash := None |}) as Settled.
  { intros hash E. by eapply made_settled, upgraded_by_hash. }
  destruct (upgraded_hash (verify_password (at_salt turn) stored pass)) as [hash |] eqn:U.
  - rewrite B1. destruct (at_update_error turn) as [err |]; intros [= _ <-].
    + split; [done |]. exists stored. by split_and!.
    + unfold update_password. rewrite Ea. cbn [snd set_accounts accounts]. split; [intros other N; by rewrite lookup_insert_ne |].
      exists hash. rewrite lookup_insert_eq. specialize (Settled hash eq_refl). split; [done |]. split; [| by intros _ _].
      by rewrite <- (verify_valid ""), Settled.
  - intros [= _ <-]. split; [done |]. exists stored. split; [done |]. split; [done |]. intros _ [hash Eh] salt.
    by apply (settled_salt (at_salt turn) salt stored pass hash Eh M U).
Qed.
End Logins.

(** ** The handshake comes first *)
Lemma handshake_loop_spec handshake turns sent result after :
  hs_handshaking handshake = true -> 0 <= hs_retries handshake <= HANDSHAKE_RETRY_LIMIT ->
  handshake_loop handshake turns = (sent, result, after) ->
  Z.of_nat (length sent) <= HANDSHAKE_RETRY_LIMIT - hs_retries handshake + 1 /\
  (result = Completed ->
    last sent = Some (HandshakeAuth_S2c (SetClientPhase Phase_Auth)) /\
    exists turn data, turn ∈ turns /\
      ht_received turn = Received_packet (HandshakeAuth_Control (HandshakeResponse data)) /\ hsd_handshake data = hs_id handshake).
Proof.
  revert handshake sent result after. induction turns as [| turn turns IH]; intros hs sent result after Hh R; cbn [handshake_loop].
  { intros [= <- <- <-]. cbn. split; [lia | done]. }
  destruct (ht_received turn) as [[[| data | data]] | | e |] eqn:Er; cbn [or_disconnect];
    try (intros [= <- <- <-]; cbn; split; [lia | done]).
  unfold handle. destruct (Z.eqb_spec (hsd_handshake data) (hs_id hs)) as [Ei |]; cbn [negb];
    [| intros [= <- <- <-]; cbn; split; [lia | done]].
  destruct (_ && _).
  - rewrite Hh. unfold send_then. destruct (ht_sends turn); intros [= <- <- <-]; cbn; (split; [lia |]); [| done].
    intros _. split; [done |]. exists turn, data. split; [left | done].
  - rewrite Hh. unfold HANDSHAKE_RETRY_LIMIT in *. replace (Z.min (hs_retries hs + 1) u8_max) with (hs_retries hs + 1) by (unfold_widths; lia).
    destruct (Z.ltb_spec 32 (hs_retries hs + 1)); [intros [= <- <- <-]; cbn; split; [lia | done] |].
    unfold send_then. destruct (ht_sends turn); [| intros [= <- <- <-]; cbn; split; [lia | done]].
    set (hs1 := set_last_sent _ _). destruct (handshake_loop hs1 turns) as [[more result1] after1] eqn:El. intros [= <- <- <-].
    apply IH in El as [L C]; [| done | cbn; lia]. cbn [hs_retries hs1 set_last_sent set_retries] in L. cbn [length]. split; [lia |].
    intros E. destruct (C E) as (La & t & d & I & T & Eq). split; [| exists t, d; split; [by right | done]].
    destruct more; [done | exact La].
Qed.

(** A connection answers logins and touches the database only once its client
    has answered the handshake with its own number, and the server has sent at most
    the retries of the handshake before. *)
Theorem login_needs_handshake `{Argon2} hmac_sha256 token_signer dummy_salt server_start created now seed sends1 sends2
    handshake_turns auth_turns db sent answers result db' :
  run_connection hmac_sha256 token_signer dummy_salt server_start created now seed sends1 sends2 handshake_turns auth_turns db =
    Some (sent, answers, result, db') ->
  Z.of_nat (length sent) <= HANDSHAKE_RETRY_LIMIT + 3 /\
  (answers = [] /\ db' = db \/
   last sent = Some (HandshakeAuth_S2c (SetClientPhase Phase_Auth)) /\
   exists turn data, turn ∈ handshake_turns /\
     ht_received turn = Received_packet (HandshakeAuth_Control (HandshakeResponse data)) /\ hsd_handshake data = seed).
Proof.
  unfold run_connection, handle_handshake, send_then. destruct sends1; [| intros [= <- <- <- <-]; cbn; split; [done | by left]].
  destruct (initial_sync_data _ now) as [hs data] eqn:Ei.
  assert (hs_handshaking hs = true /\ hs_retries hs = 0 /\ hs_id hs = seed) as (Hh & Hr & Hs) by (by injection Ei as <- _).
  destruct sends2; [| intros [= <- <- <- <-]; cbn; split; [done | by left]].
  destruct (handshake_loop hs handshake_turns) as [[more result1] hs1] eqn:El.
  apply handshake_loop_spec in El as [L C]; [| done | rewrite Hr; unfold HANDSHAKE_RETRY_LIMIT; lia]. rewrite Hr in L.
  destruct result1 as [| | error]; [intros [= <- <- <- <-]; cbn [length]; split; [lia | by left] | |
    intros [= <- <- <- <-]; cbn [length]; split; [lia | by left]].
  destruct (handle_auth _ _ _ auth_turns db) as [[[answers1 result1] db1] |]; [| done]. cbn [mbind option_bind].
  intros [= <- <- <- <-]. cbn [length]. split; [lia |]. right. destruct (C eq_refl) as (La & t & d & I & T & E).
  split; [| exists t, d; by rewrite <- Hs]. destruct more; [done | exact La].
Qed.

(** *** A stored password, upgraded *)
Section Sample.
Open Scope string_scope.
#[local] Instance sample_argon2 : Argon2 :=
  {| PasswordHash := string;
     PasswordHash_new stored := Some (String.substring 10 (String.length stored - 10) stored);
     algorithm _ := "argon2id"; hash_version _ := Some 19;
     hash_param _ name := if bool_decide (name = "m") then Some "262144" else if bool_decide (name = "t") then Some "6" else Some "1";
     argon2_verify password parsed := bool_decide (password = parsed);
     hash_password password salt := Some ("$argon2id$" ++ password) |}.
Lemma substring_all n s : String.length s = n -> String.substring 0 n s = s.
Proof. revert n. induction s as [| a s IH]; intros n <-; cbn; [done |]. by rewrite IH. Qed.
#[local] Instance sample_argon2_laws : Argon2Laws.
Proof.
  split. intros password salt stored [= <-]. split; [by destruct password |]. exists password. split.
  { change (Some (String.substring 0 (String.length password - 0) password) = Some password). rewrite Nat.sub_0_r. by rewrite substring_all. }
  split; [by apply bool_decide_eq_true_2 |]. by split_and!.
Qed.
Definition sample_accounts : Database :=
  {| accounts := {["anna" := "secret"]}; profiles := ∅; players := ∅; progressions := ∅; runtime_states := ∅; sessions := ∅;
     next_player_id := 1 |}.
Definition sample_turn : AuthTurn :=
  {| at_before d := d; at_find_error := None; at_joined := true; at_salt := "salt"; at_between d := d; at_update_error := None;
     at_now_secs := 1000 |}.
Definition sample_request (password : string) : Received AuthC2s :=
  Received_packet (Specific (RequestPasswordLogin (bytes_of "anna" ++ [0; 0]) (bytes_of password ++ [0]) [1; 2; 3])).
Definition sample_mac (key message : bytes) : bytes := message.
Definition sample_key : TokenSigner := TokenSigner_new [7] 30 0.
Definition sample_log_ins := handle_auth sample_mac sample_key "pepper".
Close Scope string_scope.

Lemma login_answers_sound_witness : exists answers0 db0 answer answers db',
  sample_log_ins [(sample_request "guess", sample_turn); (sample_request "secret", sample_turn)] sample_accounts =
    Some (answers, Awaiting, db') /\
  sample_log_ins [(sample_request "guess", sample_turn)] sample_accounts = Some (answers0, Awaiting, db0) /\
  answers = answers0 ++ [answer] /\ answers0 = [login_failed] /\ answer <> login_failed.
Proof.
  destruct (sample_log_ins [(sample_request "guess", sample_turn); (sample_request "secret", sample_turn)] sample_accounts)
    as [[[answers result] db'] |] eqn:E; [| vm_compute in E; discriminate].
  destruct result; [| vm_compute in E; discriminate..].
  destruct (login_answers_sound (H := sample_argon2) sample_mac sample_key "pepper" [(sample_request "guess", sample_turn)] sample_turn
    (bytes_of "anna" ++ [0; 0]) (bytes_of "secret" ++ [0]) [1; 2; 3] sample_accounts answers db' E)
    as (answers0 & db0 & answer & E0 & Ea & Ans).
  exists answers0, db0, answer, answers, db'. split; [done |]. split; [exact E0 |]. split; [exact Ea |].
  assert (answers0 = [login_failed]) as -> by (vm_compute in E0; by injection E0). split; [done |].
  vm_compute in E. injection E as E _. rewrite Ea in E. injection E as <-. discriminate.
Defined.
Lemma upgrade_keeps_login_witness : exists token db' stored,
  handle_login sample_mac sample_key "pepper" sample_turn (bytes_of "anna" ++ [0]) (bytes_of "secret" ++ [0]) [1] sample_accounts =
    Some (LoginResultOk token 1, db') /\
  accounts db' !! "anna"%string = Some stored /\
  verify_password "other" stored "secret" = {| valid := true; upgraded_hash := None |}.
Proof.
  destruct (handle_login sample_mac sample_key "pepper" sample_turn (bytes_of "anna" ++ [0]) (bytes_of "secret" ++ [0]) [1] sample_accounts)
    as [[[reason | token is_ok] db'] |] eqn:E; [vm_compute in E; discriminate | | vm_compute in E; discriminate].
  assert (is_ok = 1) as -> by (vm_compute in E; by injection E).
  destruct (upgrade_keeps_login (H := sample_argon2) sample_mac sample_key "pepper" sample_turn (bytes_of "anna" ++ [0]) (bytes_of "secret" ++ [0]) [1]
    sample_accounts token db' (fun _ => eq_refl) (fun _ => eq_refl) E) as (_ & stored & Es & _ & Settled).
  exists token, db', stored. split; [done |]. split; [exact Es |]. apply Settled; [done | by eexists].
Defined.
End Sample.
